(* ===== verification/_CoqProject ===== *)
-Q . S2P
Prelude.v
CMem.v
Mpn.v
Digits.v
MpnArith.v
MpnShift.v
MpnBits.v
MpnDiv.v
Mpz.v
MpzSpec.v
MpzArith.v
MpzBits.v
MpzMul.v
MpzPow.v
MpzConv.v
MpzConvFacts.v
MpzProps.v
ObjInt.v
ObjIntFacts.v
ObjIntOps.v
ObjIntProps.v
ObjIntTheorems.v
Probing.v
ObjMap.v
ObjMapFacts.v
ObjMapLookup.v
ObjDict.v
ObjDictProps.v
ObjSet.v
St7565.v
TimeUtils.v
PairHeap.v
PairHeapFacts.v
PairHeapDelete.v
PairHeapProps.v
AsyncTask.v
AsyncTaskProps.v
Scheduler.v
SchedulerFacts.v
SchedulerTheorems.v
RingBuf.v
BitFields.v
Unicode.v
Vstr.v
VstrProps.v
FrameBuf.v
FrameBufDraw.v
FrameBufShapes.v
FrameBufFacts.v
FrameBufProps.v
FrameBufShapeProps.v
FrameBufMake.v
Gc.v
GcCollect.v
GcAlloc.v
GcFacts.v
GcMark.v
GcSweep.v
GcProps.v
GcSearch.v
GcTake.v
GcAllocProps.v
GcObjects.v
GcRealloc.v
GcHeapTheorems.v
ListObj.v
ListOps.v
ListFacts.v
ListSpec.v
ListMutate.v
ListSearch.v
ListSubscr.v
ListSortProps.v
ListTheorems.v
MpPrint.v
Lexer.v
LexerFacts.v
LexerTokens.v
LexerStrings.v
