(* ===== verification/Prelude.v ===== *)
(** * CalSci firmware: verification library

    A model, in Rocq, of the parts of the CalSci firmware (a MicroPython for the
    ESP32 with a display driver of its own) that do not consist of calls into
    ESP-IDF, with proofs that they compute what they are meant to.  This file is
    the root of the library; it holds the machine integers and the list lemmas
    and tactics that every other file uses.

    ** How C is read

    The configuration is that of [src/ports/esp32]: 32-bit words, [mp_obj_t] in
    representation A, [MPZ_DIG_SIZE] 16, bitwise operations of [mpz] and the
    split heap with automatic areas enabled, finalisers enabled, threads under
    the global lock.

    - A C integer is a [Z] in the range of its type.  Unsigned arithmetic wraps
      where the source stores or converts ([u8] ... [u64] below); signed
      arithmetic that overflows has no meaning, and the model says so ([sint] of
      FrameBuf, the ranges of TimeUtils).
    - CMem is the monad in which the C functions are written: explicit state,
      [None] for an execution without meaning (access outside an array, failed
      [assert], signed overflow) and for a loop that has used up its fuel.  Total
      correctness is [wp]: the computation returns and its result satisfies the
      postcondition, so every [wp] theorem is memory safety and termination too.
      CMem also has the store of arrays ([block]s) in which pointers may alias.
    - Loops have fuel computed from their arguments (lengths of arrays, number
      of digits, sizes of frames, blocks of a heap).  No theorem assumes that
      the fuel is enough: that the result is [Some] is a part of what is proved.
    - Code that is not under [src/], or that is reached through a table of
      methods, is a class of operations with a class of laws: [KeyOps] and
      [KeyLaws] (hash and equality of objects, Probing), [Panel] and [PanelLaws]
      (the ST7565 controller, St7565), [SystemHeap] and [SystemHeapLaws]
      (the heap of ESP-IDF, GcAlloc and GcTake), [Finalisers] and [FinaliserLaws]
      (the [__del__] methods a sweep calls, GcCollect and GcSweep), [Heap] and [Fresh] (the contents
      of memory nobody has written, Mpz and Vstr).  Each class with laws has an
      instance, so the theorems that use it are not about nothing.

    ** The parts

    Garbage collector ([py/gc.c], [ports/esp32/gccollect.c]).  Gc has the areas
    and their tables, GcCollect marking and sweeping, GcAlloc areas, allocation,
    freeing and resizing.  GcFacts and GcMark view the heap as a graph and prove
    that marking with a stack of 64 entries and rescans reaches exactly the
    reachable blocks; GcSweep and GcProps add finalisers and the sweep;
    GcSearch, GcTake, GcAllocProps do allocation; GcObjects and GcRealloc lift
    everything to a store of objects.  The theorems are in GcProps (collection
    as a fact about blocks) and GcHeapTheorems (the heap as a refinement of a
    store of objects).  A sweep calls [__del__] methods, which are a parameter
    that writes the words of its own object at most.  An area other than the first
    in which nothing but block 0 is in use is given back although that block may
    be reachable; the theorems say so.  The theorem on [gc_alloc] gives the order
    in which it searches, collects and adds an area, and when it gives up.  Two
    lemmas there show behaviour
    the code cannot mean: an object reached only by an interior pointer of a
    given-back area, and a scan after [gc_realloc] beyond an area.

    Big integers ([py/mpz.c]).  Mpn has the functions on digit arrays, proved in
    MpnArith, MpnShift, MpnBits and MpnDiv by way of the value
    of a digit list (Digits).  Mpz has the [mpz_t] structures and their
    operations, which call Mpn; MpzSpec says what a structure represents and what
    an in-place operation promises, and MpzArith, MpzBits, MpzMul and MpzPow
    prove it for every aliasing of the arguments the source allows.  MpzConv has
    strings, bytes and machine words.  The theorems are in MpzProps: floor
    division, powers, products, sums, shifts, the bitwise operations of two's
    complement, conversions, round trips.

    Integer objects ([py/objint_mpz.c], [py/smallint.c], the operators of
    [py/runtime.c] and [py/obj.c]).  ObjInt has objects as words or heap integers
    and the unary and binary operators with their dispatch; operators of other
    types are a class ([OtherTypes]).  ObjIntFacts says what integer an object
    denotes, ObjIntOps and ObjIntProps do the operators of small and of heap
    integers, ObjIntTheorems the dispatch: the operators are those of Python, but
    for 0 to the power 0 with an operand on the heap and [divmod] of the smallest
    small integer by -1, whose results [binary_outcome] gives as the code has them.

    Callback scheduler ([py/scheduler.c]).  Scheduler has every section between
    locks as one computation, and a step relation in which interrupts, polling
    and callbacks interleave.  SchedulerFacts has the two queues, the rule of
    every section, the invariant of the relation and what every step advances, SchedulerTheorems the promises: nothing is lost or reordered,
    nothing gets stuck, a run is bounded, every callback is called eventually.

    Pairing heaps and asyncio ([py/pairheap.c], [extmod/modasyncio.c]).  PairHeap
    has the operations on tagged pointers.  PairHeapFacts represents trees in
    memory and has their order, PairHeapDelete the deletion of inner nodes; PairHeapProps shows that the heap is a stable priority queue.
    AsyncTask has task queues and tasks on top of it, AsyncTaskProps views the
    state as lists of tasks and shows what queues, waiting and cancelling do, with
    deadlines on a clock that wraps around.

    Maps, sets and dictionaries ([py/map.c], [py/objdict.c]).  Probing is the
    open addressing both tables use, with its invariant (a key is found from its
    hash position without crossing a free slot).  ObjMap and ObjSet have the
    operations, ObjDict the methods of [dict], which call ObjMap.  ObjMapFacts
    and ObjMapLookup show every lookup kind, with its cache and
    rehashing, as an operation on a partial function; ObjDictProps shows that a
    sequence of dictionary operations, from any well-formed dictionary, refines
    operations on that function; a fixed dictionary refuses changes.

    Lists and slices ([py/objlist.c], [py/objslice.c], [py/sequence.c]).  ListObj
    has the heap of these functions (arrays of objects, lists that point to them,
    iterators) with the allocator as the class [ListHeap] and the operators of
    other objects, which may run any code, as the class [Runtime]; ListOps has the
    methods, operators, subscripts and the sort.  ListFacts says when a heap
    represents a function from lists to their items ([rep]) and has the rules of
    the memory operations under the laws [ListHeapLaws]; ListSpec says what a call
    means in Python ([outcome]) and when code [refines] it, with the laws
    [RuntimeLaws] of operators without effects.  ListMutate, ListSearch
    and ListSubscr do the operations, ListSortProps the quicksort with any key
    function and comparison, ListTheorems collects the promises.  A call may also
    raise [MemoryError]; then no list has changed, unless the collector is locked
    and the call was giving back room after its work ([answers]).  The quicksort recurses on the
    smaller part, so a stack for [room] calls, the logarithm of the length, is
    enough; without it [RuntimeError] is raised and the list keeps its items.

    Ring buffer ([py/ringbuf.c], [py/ringbuf.h]).  RingBuf: a sequence of
    operations is the same sequence on a bounded queue of bytes.

    Strings.  Unicode ([py/unicode.c]) and Vstr ([py/vstr.c]); VstrProps shows
    that the operations refine lists of bytes and that encoding and decoding of
    UTF-8 are inverse.

    Printing ([py/mpprint.c]).  MpPrint has [mp_printf] with strings and integers;
    a format is described by its texts and conversions ([render]), what they mean
    for their arguments is [format_text], and the theorem says that this is what
    is printed.

    The lexer ([py/lexer.c], the reader of memory of [py/reader.c]).  Lexer has the
    [mp_lexer_t] with its queue of three characters, f-strings included: their
    arguments are collected and then read in place of the source.  LexerFacts
    says which characters the lexer still has before it ([reads]), whether they
    come from the source or from such arguments, and has the rule of [next_char].
    LexerTokens has the lexical rules as a function from a state (characters,
    position, blocks, brackets) to the next token, [next_token], and shows that
    the code finds it; it has no token at a string literal, so the theorem on a
    new lexer reaches to the first of them.  String literals are in LexerStrings, with the printers of
    [str] and [bytes] ([py/objstr.c], [py/objstrunicode.c]), and the theorem is
    that what is printed is read back.  Every loop has [fuel_of] rounds, the
    characters there can still be, counted from the reader, the queue and the
    arguments ([at_fuel] shows they are enough); it is not enough for an f-string
    in an f-string that reads what it appends, which a lemma at the end of
    LexerStrings shows, next to two other unusual literals.

    Frame buffers ([extmod/modframebuf.c]).  FrameBuf has the seven pixel formats
    and the log of changed bytes of this firmware, FrameBufDraw and
    FrameBufShapes the methods.  FrameBufFacts views a buffer as a function from
    coordinates to pixels (BitFields); FrameBufProps, FrameBufShapeProps
    and FrameBufMake say what each method does to that function, for the five
    formats in which a pixel is read as it was set (not RGB565 and GS2_HMSB).

    Display ([c_modules/display]).  St7565 has the driver as the sequence of pin
    and SPI calls it makes, and replays them on the controller; a buffer of the
    wrong size is refused.

    Calendar ([shared/timeutils/timeutils.c]).  TimeUtils has the
    functions and compares them with the rules of the Gregorian calendar.

    ** What is not modelled

    - The parser and the compiler: the front end is modelled up to its tokens.  Of
      the lexer, [mp_lexer_free], files as readers and errors of allocation are
      not in the model, and the theorems on tokens are about states without
      pending arguments of an f-string.
    - The virtual machine and the types of objects that are not named above.
    - Floating point beyond [mpz_as_float] (in ObjInt) and the integer part of
      [mpz_set_from_float]: the operators of floats and [modmath].
    - Failure of allocation outside the heap itself and the lists ([m_new] raises
      [MemoryError] by a non-local jump, in the lists the value [raise]).
    - For lists: printing, the stack check of [mp_iternext], and iteration over
      iterators other than those of lists ([Runtime]); that [extend] ends is
      proved for lists.
    - Tracing, statistics of the heap ([gc_info]), the formats of floating-point
      numbers and of integer objects, printing of objects other than strings.
    - Concurrency with interrupts, beyond the sequences of operations that the
      queue theorems quantify over; the scheduler is modelled with its
      interleavings.
    - Peripherals, the network and the file systems, which are calls to ESP-IDF
      and vendored libraries. *)
From Stdlib Require Export ZArith Lia.
From stdpp Require Export prelude gmap.
Local Open Scope Z_scope.

(** ** Machine integers

    A C integer is a [Z] kept in the range of its type; the conversions of the
    language are written out at the places where the code performs them. *)

Definition uwrap (w x : Z) : Z := x `mod` 2 ^ w.
Definition swrap (w x : Z) : Z := (x + 2 ^ (w - 1)) `mod` 2 ^ w - 2 ^ (w - 1).

Abbreviation u8 := (uwrap 8) (only parsing).
Abbreviation u16 := (uwrap 16) (only parsing).
Abbreviation u32 := (uwrap 32) (only parsing).
Abbreviation u64 := (uwrap 64) (only parsing).
Abbreviation s32 := (swrap 32) (only parsing).

(** The C value of a comparison or of a one-bit field. *)
Definition zbool (b : bool) : Z := if b then 1 else 0.

(** The range of a byte. *)
Definition is_byte (b : Z) : Prop := 0 <= b < 256.

Lemma uwrap_range w x : 0 <= w -> 0 <= uwrap w x < 2 ^ w.
Proof. intros. apply Z.mod_pos_bound. lia. Qed.

Lemma uwrap_small w x : 0 <= x < 2 ^ w -> uwrap w x = x.
Proof. apply Z.mod_small. Qed.

Lemma swrap_range w x : 0 < w -> - 2 ^ (w - 1) <= swrap w x < 2 ^ (w - 1).
Proof.
  intros. unfold swrap.
  pose proof (Z.mod_pos_bound (x + 2 ^ (w - 1)) (2 ^ w) ltac:(lia)).
  replace (2 ^ w) with (2 * 2 ^ (w - 1)) in *; [lia|].
  rewrite <-Z.pow_succ_r by lia. f_equal. lia.
Qed.

Lemma swrap_small w x : 0 < w -> - 2 ^ (w - 1) <= x < 2 ^ (w - 1) -> swrap w x = x.
Proof.
  intros Hw Hx. unfold swrap. rewrite Z.mod_small; [lia|].
  replace (2 ^ w) with (2 * 2 ^ (w - 1)); [lia|].
  rewrite <-Z.pow_succ_r by lia. f_equal. lia.
Qed.

(** Conversions are idempotent, and invisible to a wider unsigned one. *)
Lemma uwrap_uwrap w x : 0 <= w -> uwrap w (uwrap w x) = uwrap w x.
Proof. intros. apply uwrap_small. by apply uwrap_range. Qed.

Lemma uwrap_swrap w x : 0 < w -> uwrap w (swrap w x) = uwrap w x.
Proof.
  intros. unfold uwrap, swrap. rewrite Zminus_mod_idemp_l.
  by replace (x + 2 ^ (w - 1) - 2 ^ (w - 1)) with x by lia.
Qed.

Lemma div_le_self a b : 0 <= a -> 0 < b -> 0 <= a / b <= a.
Proof. intros. split; [apply Z.div_pos; lia|apply Z.div_le_upper_bound; nia]. Qed.

(** Masks and shifts as arithmetic. *)
Lemma land_pow2_mask n x : 0 <= n -> Z.land x (2 ^ n - 1) = x `mod` 2 ^ n.
Proof.
  intros. rewrite <-Z.land_ones by lia. f_equal.
  rewrite Z.ones_equiv. lia.
Qed.

Lemma shiftr_div n x : 0 <= n -> Z.shiftr x n = x / 2 ^ n.
Proof. apply Z.shiftr_div_pow2. Qed.

Lemma shiftl_mul n x : 0 <= n -> Z.shiftl x n = x * 2 ^ n.
Proof. apply Z.shiftl_mul_pow2. Qed.

(** A disjoint bitwise or is a sum: the low part is below [2 ^ n], the high part
    is a multiple of it. *)
Lemma lor_add_disjoint n a b :
  0 <= n -> 0 <= b < 2 ^ n -> Z.lor (a * 2 ^ n) b = a * 2 ^ n + b.
Proof.
  intros Hn Hb. symmetry. apply Z.add_nocarry_lor.
  apply Z.bits_inj'. intros i Hi. rewrite Z.land_spec, Z.bits_0.
  destruct (decide (i < n)).
  - rewrite Z.mul_pow2_bits_low by lia. done.
  - assert (Z.testbit b i = false) as ->; [|apply andb_false_r].
    rewrite <-(Z.mod_small b (2 ^ n)) by done.
    apply Z.mod_pow2_bits_high. lia.
Qed.

(** ** Lists *)

Lemma lookup_split_at {A} (l : list A) (i : nat) x :
  l !! i = Some x -> l = take i l ++ x :: drop (S i) l.
Proof. intros H. symmetry. by apply take_drop_middle. Qed.

Lemma take_S_snoc {A} (l : list A) (i : nat) x :
  l !! i = Some x -> take (S i) l = take i l ++ [x].
Proof. apply take_S_r. Qed.

Lemma insert_app_drop {A} (outs l : list A) x :
  (length outs < length l)%nat ->
  <[length outs := x]> (outs ++ drop (length outs) l) =
  (outs ++ [x]) ++ drop (S (length outs)) l.
Proof.
  intros Hl. replace (length outs) with (length outs + 0)%nat at 1 by lia.
  rewrite insert_app_r. rewrite <-app_assoc. f_equal.
  destruct (lookup_lt_is_Some_2 l (length outs) Hl) as [y Hy].
  rewrite (drop_S l y) by done. done.
Qed.

(** ** Tactics *)

(** Split a boolean condition of the code into the proposition it decides. *)
Ltac case_bool :=
  match goal with
  | |- context [ if ?b then _ else _ ] => destruct b eqn:?
  | H : context [ if ?b then _ else _ ] |- _ => destruct b eqn:?
  end.

Ltac to_prop :=
  repeat match goal with
  | H : andb _ _ = true |- _ => apply andb_true_iff in H; destruct H
  | H : andb _ _ = false |- _ => apply andb_false_iff in H
  | H : orb _ _ = true |- _ => apply orb_true_iff in H
  | H : orb _ _ = false |- _ => apply orb_false_iff in H; destruct H
  | H : negb _ = true |- _ => apply negb_true_iff in H
  | H : negb _ = false |- _ => apply negb_false_iff in H
  | H : (_ =? _) = true |- _ => apply Z.eqb_eq in H
  | H : (_ =? _) = false |- _ => apply Z.eqb_neq in H
  | H : (_ <? _) = true |- _ => apply Z.ltb_lt in H
  | H : (_ <? _) = false |- _ => apply Z.ltb_ge in H
  | H : (_ <=? _) = true |- _ => apply Z.leb_le in H
  | H : (_ <=? _) = false |- _ => apply Z.leb_gt in H
  | H : (_ >? _) = true |- _ => rewrite Z.gtb_ltb in H
  | H : (_ >? _) = false |- _ => rewrite Z.gtb_ltb in H
  | H : (_ >=? _) = true |- _ => rewrite Z.geb_leb in H
  | H : (_ >=? _) = false |- _ => rewrite Z.geb_leb in H
  end.

(** ** Automation

    [cint] has the ranges of conversions and the cases in which they change
    nothing; the bounds that are left are for [lia]. *)
Create HintDb cint.
#[export] Hint Resolve uwrap_range swrap_range uwrap_small swrap_small : cint.
#[export] Hint Rewrite uwrap_uwrap uwrap_swrap using lia : cint.
#[export] Hint Rewrite uwrap_small swrap_small using lia : cint.
#[export] Hint Extern 4 (_ <= _ < _) => lia : cint.
#[export] Hint Extern 4 (0 <= _) => lia : cint.
#[export] Hint Extern 4 (0 < _) => lia : cint.
