(* ===== verification/CMem.v ===== *)
(** * A state monad with undefined behaviour, and its program logic

    C code is translated into computations over an explicit state.  The result
    [None] stands for an execution the language gives no meaning to (an access
    outside an array, a failed [assert]) and for a loop that has used up its
    fuel, so a proof that a computation returns [Some] is a proof that it is
    memory safe and that it terminates. *)
From S2P Require Import Prelude.
Local Open Scope Z_scope.

Definition M (St : Type) (A : Type) : Type := St -> option (A * St).

#[export] Instance M_ret {St} : MRet (M St) := fun A a s => Some (a, s).
#[export] Instance M_bind {St} : MBind (M St) := fun A B k c s =>
  match c s with
  | Some (a, s') => k a s'
  | None => None
  end.

Section Monad.
Context {St : Type}.

Definition stuck {A} : M St A := fun _ => None.
Definition get : M St St := fun s => Some (s, s).
Definition put (s : St) : M St unit := fun _ => Some (tt, s).
Definition gets {A} (f : St -> A) : M St A := fun s => Some (f s, s).
Definition modify (f : St -> St) : M St unit := fun s => Some (tt, f s).
Definition assert_ (b : bool) : M St unit := if b then mret tt else stuck.

(** [loop body l] runs [body] on the loop variables [l] until it leaves the
    loop with [inr]; this covers [break] and [return] inside a loop body. *)
Fixpoint loop {L R} (fuel : nat) (body : L -> M St (L + R)) (l : L) : M St R :=
  match fuel with
  | O => stuck
  | S fuel' =>
      x ← body l;
      match x with
      | inl l' => loop fuel' body l'
      | inr r => mret r
      end
  end.

(** [while (cond) body], the condition may read the state. *)
Definition while {L} (fuel : nat) (cond : L -> M St bool) (body : L -> M St L)
    (l : L) : M St L :=
  loop fuel
    (fun l => b ← cond l;
              if b : bool then l' ← body l; mret (inl l') else mret (inr l)) l.

(** [for]-style loop with a pure condition. *)
Definition for_ {L} (fuel : nat) (cond : L -> bool) (body : L -> M St L) (l : L) :
  M St L := while fuel (fun l => mret (cond l)) body l.

(** [for (i = i0; i < i0 + n; i++) body], without [break]. *)
Fixpoint for_up (n : nat) (i : Z) (body : Z -> M St unit) : M St unit :=
  match n with
  | O => mret tt
  | S n => _ ← body i; for_up n (i + 1) body
  end.

(** ** Total-correctness weakest preconditions *)

Definition wp {A} (c : M St A) (s : St) (Q : A -> St -> Prop) : Prop :=
  match c s with
  | Some (a, s') => Q a s'
  | None => False
  end.

Lemma wp_run {A} (c : M St A) s Q :
  wp c s Q <-> exists a s', c s = Some (a, s') /\ Q a s'.
Proof.
  unfold wp. destruct (c s) as [[a s']|].
  - split; [eauto|]. intros (? & ? & [= <- <-] & ?). done.
  - split; [done|]. by intros (? & ? & ? & ?).
Qed.

Lemma run_value {A} (c : M St A) s Q : wp c s Q -> exists a s', c s = Some (a, s') /\ Q a s'.
Proof. apply wp_run. Qed.

Lemma wp_mono {A} (c : M St A) s (P Q : A -> St -> Prop) :
  wp c s P -> (forall a s', P a s' -> Q a s') -> wp c s Q.
Proof. unfold wp. destruct (c s) as [[a s']|]; auto. Qed.

Lemma wp_ret {A} (a : A) s (Q : A -> St -> Prop) : Q a s -> wp (mret a) s Q.
Proof. done. Qed.

Lemma wp_bind {A B} (c : M St A) (k : A -> M St B) s Q :
  wp c s (fun a s' => wp (k a) s' Q) -> wp (c ≫= k) s Q.
Proof. unfold wp, mbind, M_bind. by destruct (c s) as [[a s']|]. Qed.

Lemma wp_bind_assoc {A B C} (c : M St A) (k : A -> M St B) (k' : B -> M St C) s Q :
  wp ((c ≫= k) ≫= k') s Q -> wp (c ≫= (fun a => k a ≫= k')) s Q.
Proof. unfold wp, mbind, M_bind. by destruct (c s) as [[a s']|]. Qed.

Lemma wp_gets {A} (f : St -> A) s (Q : A -> St -> Prop) : Q (f s) s -> wp (gets f) s Q.
Proof. done. Qed.

Lemma wp_modify (f : St -> St) s (Q : unit -> St -> Prop) : Q tt (f s) -> wp (modify f) s Q.
Proof. done. Qed.

Lemma wp_assert b s (Q : unit -> St -> Prop) :
  b = true -> Q tt s -> wp (assert_ b) s Q.
Proof. by intros ->. Qed.

Lemma wp_loop {L R} (I : L -> St -> Prop) (V : L -> nat)
    (body : L -> M St (L + R)) (Q : R -> St -> Prop) :
  (forall l s, I l s ->
     wp (body l) s (fun x s' =>
       match x with
       | inl l' => I l' s' /\ (V l' < V l)%nat
       | inr r => Q r s'
       end)) ->
  forall fuel l s, I l s -> (V l < fuel)%nat -> wp (loop fuel body l) s Q.
Proof.
  intros Hstep fuel. induction fuel as [|fuel IH]; intros l s HI HV; [lia|].
  cbn. apply wp_bind. eapply wp_mono; [by apply Hstep|].
  intros [l'|r] s'; [|done]. intros [HI' HV']. apply IH; [done|lia].
Qed.

(** The same, when what decreases is known from the state. *)
Lemma wp_loop_idx {L R} (I : nat -> L -> St -> Prop)
    (body : L -> M St (L + R)) (Q : R -> St -> Prop) :
  (forall k l s, I k l s ->
     wp (body l) s (fun x s' =>
       match x with
       | inl l' => exists k', (k' < k)%nat /\ I k' l' s'
       | inr r => Q r s'
       end)) ->
  forall fuel k l s, I k l s -> (k < fuel)%nat -> wp (loop fuel body l) s Q.
Proof.
  intros Hstep fuel. induction fuel as [|fuel IH]; intros k l s HI HV; [lia|].
  cbn. apply wp_bind. eapply wp_mono; [by eapply Hstep|].
  intros [l'|r] s'; [|done]. intros (k' & Hk & HI'). apply (IH k'); [done|lia].
Qed.

Lemma wp_while {L} (I : L -> St -> Prop) (V : L -> nat)
    (cond : L -> M St bool) (body : L -> M St L) (Q : L -> St -> Prop) fuel l s :
  I l s -> (V l < fuel)%nat ->
  (forall l s, I l s ->
     wp (cond l) s (fun b s' =>
       if b then wp (body l) s' (fun l' s'' => I l' s'' /\ (V l' < V l)%nat)
       else Q l s')) ->
  wp (while fuel cond body l) s Q.
Proof.
  intros HI HV Hstep. apply (wp_loop I V); [|done|done].
  intros l' s' HI'. apply wp_bind. eapply wp_mono; [by apply Hstep|].
  intros [|] s''; [|done]. intros Hb. apply wp_bind.
  eapply wp_mono; [exact Hb|]. done.
Qed.

Lemma wp_for {L} (I : L -> St -> Prop) (V : L -> nat)
    (cond : L -> bool) (body : L -> M St L) (Q : L -> St -> Prop) fuel l s :
  I l s -> (V l < fuel)%nat ->
  (forall l s, I l s -> cond l = true ->
     wp (body l) s (fun l' s' => I l' s' /\ (V l' < V l)%nat)) ->
  (forall l s, I l s -> cond l = false -> Q l s) ->
  wp (for_ fuel cond body l) s Q.
Proof.
  intros HI HV Hstep Hend. apply (wp_while I V); [done|done|].
  intros l' s' HI'. apply wp_ret.
  destruct (cond l') eqn:E; [by apply Hstep|by apply Hend].
Qed.

Lemma wp_for_up (I : Z -> St -> Prop) (body : Z -> M St unit) (Q : unit -> St -> Prop) n : forall i s,
  I i s -> (forall j s, i <= j < i + Z.of_nat n -> I j s -> wp (body j) s (fun _ s' => I (j + 1) s')) ->
  (forall s, I (i + Z.of_nat n) s -> Q tt s) -> wp (for_up n i body) s Q.
Proof.
  induction n as [|n IH]; intros i s HI Hstep Hend; cbn [for_up].
  - apply wp_ret, Hend. by rewrite Z.add_0_r.
  - apply wp_bind. eapply wp_mono; [apply Hstep; [lia|done]|]. intros [] s' HI'. apply (IH (i + 1)); [done| |].
    + intros j s1 Hj. apply Hstep. lia.
    + intros s1. replace (i + 1 + Z.of_nat n) with (i + Z.of_nat (S n)) by lia. apply Hend.
Qed.

(** One iteration of a loop, and its end. *)
Lemma wp_for_step {L} fuel (cond : L -> bool) (body : L -> M St L) (Q : L -> St -> Prop) l s :
  cond l = true -> wp (body l) s (fun l' s' => wp (for_ fuel cond body l') s' Q) ->
  wp (for_ (S fuel) cond body l) s Q.
Proof.
  intros Hc Hb. unfold for_, while in *. cbn [loop]. apply wp_bind, wp_bind, wp_ret.
  rewrite Hc. apply wp_bind. eapply wp_mono; [exact Hb|]. intros l' s' H. by apply wp_ret.
Qed.

Lemma wp_for_end {L} fuel (cond : L -> bool) (body : L -> M St L) (Q : L -> St -> Prop) l s :
  cond l = false -> Q l s -> wp (for_ (S fuel) cond body l) s Q.
Proof.
  intros Hc HQ. unfold for_, while. cbn [loop]. apply wp_bind, wp_bind, wp_ret. rewrite Hc.
  by repeat apply wp_ret.
Qed.

End Monad.

(** ** Exceptions

    [mp_raise_...] leaves the function by a long jump: the state changes made so
    far stay, the rest of the caller is skipped. *)
Section Exceptions.
Context {St E : Type}.

Definition xbind {A B} (c : M St (E + A)) (k : A -> M St (E + B)) : M St (E + B) :=
  r ← c; match r with inl e => mret (inl e) | inr a => k a end.
Definition xret {A} (a : A) : M St (E + A) := mret (inr a).
Definition raise {A} (e : E) : M St (E + A) := mret (inl e).
(** A computation that raises nothing. *)
Definition safe {A} (c : M St A) : M St (E + A) := a ← c; mret (inr a).

Lemma wp_xbind {A B} (c : M St (E + A)) (k : A -> M St (E + B)) s (Q : E + B -> St -> Prop) :
  wp c s (fun r s' => match r with inl e => Q (inl e) s' | inr a => wp (k a) s' Q end) -> wp (xbind c k) s Q.
Proof.
  intros Hc. unfold xbind. apply wp_bind. eapply wp_mono; [exact Hc|]. intros [e|a] s' H; [by apply wp_ret|done].
Qed.

Lemma wp_xret {A} (a : A) s (Q : E + A -> St -> Prop) : Q (inr a) s -> wp (xret a) s Q.
Proof. done. Qed.

Lemma wp_safe {A} (c : M St A) s (Q : E + A -> St -> Prop) : wp c s (fun a => Q (inr a)) -> wp (safe c) s Q.
Proof. intros Hc. unfold safe. apply wp_bind. eapply wp_mono; [exact Hc|]. intros a s' HQ. by apply wp_ret. Qed.

(** A counting loop whose body may raise. *)
Fixpoint xfor_up (n : nat) (i : Z) (body : Z -> M St (E + unit)) : M St (E + unit) :=
  match n with
  | O => xret tt
  | S n => xbind (body i) (fun _ => xfor_up n (i + 1) body)
  end.

Lemma wp_xfor_up (I : Z -> St -> Prop) (body : Z -> M St (E + unit)) (Q : E + unit -> St -> Prop) n : forall i s,
  I i s ->
  (forall j s, i <= j < i + Z.of_nat n -> I j s -> wp (body j) s (fun r s' => r = inr tt /\ I (j + 1) s')) ->
  (forall s, I (i + Z.of_nat n) s -> Q (inr tt) s) -> wp (xfor_up n i body) s Q.
Proof.
  induction n as [|n IH]; intros i s HI Hstep Hend; cbn [xfor_up].
  - apply wp_xret, Hend. by rewrite Z.add_0_r.
  - apply wp_xbind. eapply wp_mono; [apply Hstep; [lia|done]|]. intros r s' [-> HI']. apply (IH (i + 1)); [done| |].
    + intros j s1 Hj. apply Hstep. lia.
    + intros s1. replace (i + 1 + Z.of_nat n) with (i + Z.of_nat (S n)) by lia. apply Hend.
Qed.

(** A loop whose body may raise. *)
Definition xloop {L R} (fuel : nat) (body : L -> M St (E + (L + R))) (l : L) : M St (E + R) :=
  loop fuel (fun l =>
    r ← body l;
    mret (match r with
          | inl e => inr (inl e)
          | inr (inl l') => inl l'
          | inr (inr v) => inr (inr v)
          end)) l.

Lemma wp_xloop {L R} (I : L -> St -> Prop) (V : L -> nat)
    (body : L -> M St (E + (L + R))) (Q : E + R -> St -> Prop) :
  (forall l s, I l s ->
     wp (body l) s (fun r s' =>
       match r with
       | inl e => Q (inl e) s'
       | inr (inl l') => I l' s' /\ (V l' < V l)%nat
       | inr (inr v) => Q (inr v) s'
       end)) ->
  forall fuel l s, I l s -> (V l < fuel)%nat -> wp (xloop fuel body l) s Q.
Proof.
  intros Hstep fuel l s HI HV. apply (wp_loop I V); [|done|done].
  intros l' s' HI'. apply wp_bind. eapply wp_mono; [by apply Hstep|].
  intros [e|[l''|v]] s'' H; by apply wp_ret.
Qed.

(** A signed result of the [int] type: an overflow has no meaning. *)
Definition sint (v : Z) : M St Z := assert_ ((- 2 ^ 31 <=? v) && (v <? 2 ^ 31));; mret v.

Lemma wp_sint v s (Q : Z -> St -> Prop) : - 2 ^ 31 <= v < 2 ^ 31 -> Q v s -> wp (sint v) s Q.
Proof.
  intros Hv HQ. unfold sint. apply wp_bind, wp_assert; [|by apply wp_ret].
  apply andb_true_intro. split; [apply Z.leb_le|apply Z.ltb_lt]; lia.
Qed.

End Exceptions.

Notation "x ←! c ; k" := (xbind c (fun x => k))
  (at level 20, c at level 100, k at level 200, right associativity, only parsing).
Notation "c ;;! k" := (xbind c (fun _ => k)) (at level 100, k at level 200, right associativity, only parsing).

(** Run a computation on a component of the state. *)
Definition on_part {S T A} (get : T -> S) (set : S -> T -> T) (c : M S A) : M T A :=
  fun t => match c (get t) with
           | Some (a, s) => Some (a, set s t)
           | None => None
           end.

Lemma wp_on_part {S T A} (get : T -> S) (set : S -> T -> T) (c : M S A) t Q :
  wp c (get t) (fun a s => Q a (set s t)) -> wp (on_part get set c) t Q.
Proof. unfold wp, on_part. by destruct (c (get t)) as [[a s]|]. Qed.

Ltac wp_step :=
  first [ apply wp_bind | apply wp_ret | apply wp_gets | apply wp_modify ].

(** ** Arrays

    A block store: every block is an array of words, and an access outside the
    array is undefined. *)

Abbreviation blocks := (gmap nat (list Z)).

Definition mem_get (m : blocks) (b : nat) (i : Z) : option Z :=
  l ← m !! b; if bool_decide (0 <= i) then l !! Z.to_nat i else None.

Definition load (b : nat) (i : Z) : M blocks Z :=
  fun m => v ← mem_get m b i; Some (v, m).

Definition store (b : nat) (i : Z) (v : Z) : M blocks unit :=
  fun m => _ ← mem_get m b i; Some (tt, alter (<[Z.to_nat i := v]>) b m).

(** The prefix of block [b] is overwritten with [outs], the rest is kept. *)
Definition blit (m : blocks) (b : nat) (outs : list Z) : blocks :=
  alter (fun l => outs ++ drop (length outs) l) b m.

Lemma wp_load b i m v (Q : Z -> blocks -> Prop) :
  mem_get m b i = Some v -> Q v m -> wp (load b i) m Q.
Proof. intros Hg HQ. unfold wp, load. by rewrite Hg. Qed.

Lemma wp_store b i v w m (Q : unit -> blocks -> Prop) :
  mem_get m b i = Some w -> Q tt (alter (<[Z.to_nat i := v]>) b m) ->
  wp (store b i v) m Q.
Proof. intros Hg HQ. unfold wp, store. by rewrite Hg. Qed.

Lemma mem_get_nat m b l (i : nat) :
  m !! b = Some l -> mem_get m b (Z.of_nat i) = l !! i.
Proof.
  intros Hl. unfold mem_get. rewrite Hl. cbn.
  rewrite bool_decide_true by lia. by rewrite Nat2Z.id.
Qed.

Lemma blit_nil m b : blit m b [] = m.
Proof.
  unfold blit. rewrite <-(alter_id id m b) at 2; [|done].
  apply alter_ext. done.
Qed.

Lemma lookup_blit_eq m b l outs :
  m !! b = Some l -> blit m b outs !! b = Some (outs ++ drop (length outs) l).
Proof. intros H. unfold blit. rewrite lookup_alter_eq, H. done. Qed.

Lemma lookup_blit_ne m b c outs : b <> c -> blit m b outs !! c = m !! c.
Proof. intros H. by apply lookup_alter_ne. Qed.

(** Writing below index [i] does not change what is read at or above [i]: this
    is what makes the digit loops insensitive to aliasing. *)
Lemma mem_get_blit_above m b outs c (i : nat) l v :
  m !! c = Some l -> l !! i = Some v -> (length outs <= i)%nat ->
  mem_get (blit m b outs) c (Z.of_nat i) = Some v.
Proof.
  intros Hc Hi Hlen. destruct (decide (b = c)) as [->|Hne].
  - rewrite (mem_get_nat _ _ (outs ++ drop (length outs) l)) by by apply lookup_blit_eq.
    rewrite lookup_app_r by lia. rewrite lookup_drop. rewrite <-Hi. f_equal. lia.
  - erewrite mem_get_nat; [done|]. by rewrite lookup_blit_ne.
Qed.

Lemma blit_snoc m b l outs v :
  m !! b = Some l -> (length outs < length l)%nat ->
  alter (<[length outs := v]>) b (blit m b outs) = blit m b (outs ++ [v]).
Proof.
  intros Hb Hlen. apply map_eq. intros c. unfold blit.
  destruct (decide (b = c)) as [->|Hne].
  - rewrite !lookup_alter_eq, Hb. cbn. f_equal.
    rewrite insert_app_drop by done. rewrite length_app. cbn.
    by rewrite Nat.add_1_r.
  - by rewrite !lookup_alter_ne by done.
Qed.
