(* ===== verification/Mpn.v ===== *)
(** * Natural-number digit arrays (py/mpz.c, the mpn functions)

    The [mpn_*] functions of py/mpz.c on the block store of [CMem]: a
    [mpz_dig_t *] argument is the block it points to the start of, a pointer that
    moves inside a function is an index into that block, a length is a [size_t].
    The digit arguments of one call may be the same block, as the comments of the
    source allow.  The widths are those of the ESP32 build ([MPZ_DIG_SIZE] is 16,
    [mpz_dig_t] is [uint16_t], [mpz_dbl_dig_t] is [uint32_t]) with
    [MICROPY_OPT_MPZ_BITWISE] enabled. *)
From S2P Require Import Prelude.
From S2P Require Import CMem.
Local Open Scope Z_scope.

Definition DIG_SIZE : Z := 16.
Definition DIG_MASK : Z := Z.shiftl 1 DIG_SIZE - 1.
Definition DIG_MSB : Z := Z.shiftl 1 (DIG_SIZE - 1).
Definition DIG_BASE : Z := Z.shiftl 1 DIG_SIZE.

Definition mpn_remove_trailing_zeros (i : nat) (oidig idig : Z) : M blocks Z :=
  idig' ← while (Z.to_nat (idig - oidig) + 1)
    (fun idig => if idig >=? oidig then d ← load i idig; mret (d =? 0) else mret false)
    (fun idig => mret (idig - 1)) (idig - 1);
  mret (idig' + 1 - oidig).

Definition mpn_cmp (i : nat) (ilen : Z) (j : nat) (jlen : Z) : M blocks Z :=
  if ilen <? jlen then mret (-1)
  else if ilen >? jlen then mret 1
  else
    loop (Z.to_nat ilen + 1)
      (fun '(ilen, idig, jdig) =>
         if negb (ilen >? 0) then mret (inr 0)
         else
           let idig := idig - 1 in
           let jdig := jdig - 1 in
           x ← load i idig; y ← load j jdig;
           let cmp := s32 (u32 (x - y)) in
           if cmp <? 0 then mret (inr (-1))
           else if cmp >? 0 then mret (inr 1)
           else mret (inl (ilen - 1, idig, jdig)))
      (ilen, ilen, ilen).

(** [memset(p, 0, n * sizeof(mpz_dig_t))] at index [p] of block [i]. *)
Definition memset_dig (i : nat) (p n : Z) : M blocks unit :=
  _ ← for_ (Z.to_nat n + 1) (fun k => k <? n)
        (fun k => _ ← store i (p + k) 0; mret (k + 1)) 0;
  mret tt.

Definition mpn_shl (i j : nat) (jlen n : Z) : M blocks Z :=
  let n_whole := u32 (n + DIG_SIZE - 1) / DIG_SIZE in
  let n_part := n `mod` DIG_SIZE in
  let n_part := if n_part =? 0 then DIG_SIZE else n_part in
  let idig := jlen + n_whole - 1 in
  let jdig := jlen - 1 in
  '(_, idig, _, d) ← for_ (Z.to_nat jlen + 1) (fun '(k, _, _, _) => k >? 0)
    (fun '(k, idig, jdig, d) =>
       x ← load j jdig;
       let d := Z.lor d x in
       _ ← store i idig (Z.land (Z.shiftr d (DIG_SIZE - n_part)) DIG_MASK);
       mret (k - 1, idig - 1, jdig - 1, u32 (Z.shiftl d DIG_SIZE)))
    (jlen, idig, jdig, 0);
  _ ← store i idig (Z.land (Z.shiftr d (DIG_SIZE - n_part)) DIG_MASK);
  let idig := idig - (n_whole - 1) in
  _ ← memset_dig i idig (n_whole - 1);
  while (Z.to_nat (jlen + n_whole) + 1)
    (fun jlen => if negb (jlen =? 0) then x ← load i (idig + jlen - 1); mret (x =? 0)
                 else mret false)
    (fun jlen => mret (jlen - 1)) (jlen + n_whole).

Definition mpn_shr (i j : nat) (jlen n : Z) : M blocks Z :=
  let n_whole := n / DIG_SIZE in
  let n_part := n `mod` DIG_SIZE in
  if n_whole >=? jlen then mret 0
  else
    let jdig := n_whole in
    let jlen := jlen - n_whole in
    '(_, idig, _) ← for_ (Z.to_nat jlen + 1) (fun '(k, _, _) => k >? 0)
      (fun '(k, idig, jdig) =>
         d ← load j jdig;
         d ← (if k >? 1 then x ← load j (jdig + 1); mret (Z.lor d (u32 (Z.shiftl x DIG_SIZE)))
              else mret d);
         let d := Z.shiftr d n_part in
         _ ← store i idig (Z.land d DIG_MASK);
         mret (k - 1, idig + 1, jdig + 1))
      (jlen, 0, jdig);
    top ← load i (idig - 1);
    mret (if top =? 0 then jlen - 1 else jlen).

Definition mpn_add (i j : nat) (jlen : Z) (k : nat) (klen : Z) : M blocks Z :=
  let jlen := jlen - klen in
  '(_, idig, jdig, _, carry) ← for_ (Z.to_nat klen + 1) (fun '(klen, _, _, _, _) => klen >? 0)
    (fun '(klen, idig, jdig, kdig, carry) =>
       x ← load j jdig; y ← load k kdig;
       let carry := u32 (carry + u32 (x + y)) in
       _ ← store i idig (Z.land carry DIG_MASK);
       mret (klen - 1, idig + 1, jdig + 1, kdig + 1, Z.shiftr carry DIG_SIZE))
    (klen, 0, 0, 0, 0);
  '(_, idig, _, carry) ← for_ (Z.to_nat jlen + 1) (fun '(jlen, _, _, _) => jlen >? 0)
    (fun '(jlen, idig, jdig, carry) =>
       x ← load j jdig;
       let carry := u32 (carry + x) in
       _ ← store i idig (Z.land carry DIG_MASK);
       mret (jlen - 1, idig + 1, jdig + 1, Z.shiftr carry DIG_SIZE))
    (jlen, idig, jdig, carry);
  if negb (carry =? 0) then _ ← store i idig (u16 carry); mret (idig + 1)
  else mret idig.

Definition mpn_sub (i j : nat) (jlen : Z) (k : nat) (klen : Z) : M blocks Z :=
  let jlen := jlen - klen in
  '(_, idig, jdig, _, borrow) ← for_ (Z.to_nat klen + 1) (fun '(klen, _, _, _, _) => klen >? 0)
    (fun '(klen, idig, jdig, kdig, borrow) =>
       x ← load j jdig; y ← load k kdig;
       let borrow := s32 (u32 (borrow + u32 (x - y))) in
       _ ← store i idig (Z.land borrow DIG_MASK);
       mret (klen - 1, idig + 1, jdig + 1, kdig + 1, Z.shiftr borrow DIG_SIZE))
    (klen, 0, 0, 0, 0);
  '(_, idig, _, borrow) ← for_ (Z.to_nat jlen + 1) (fun '(jlen, _, _, _) => jlen >? 0)
    (fun '(jlen, idig, jdig, borrow) =>
       x ← load j jdig;
       let borrow := s32 (borrow + x) in
       _ ← store i idig (Z.land borrow DIG_MASK);
       mret (jlen - 1, idig + 1, jdig + 1, Z.shiftr borrow DIG_SIZE))
    (jlen, idig, jdig, borrow);
  mpn_remove_trailing_zeros i 0 idig.

Definition mpn_and (i j k : nat) (klen : Z) : M blocks Z :=
  '(_, idig, _, _) ← for_ (Z.to_nat klen + 1) (fun '(klen, _, _, _) => klen >? 0)
    (fun '(klen, idig, jdig, kdig) =>
       x ← load j jdig; y ← load k kdig;
       _ ← store i idig (Z.land x y);
       mret (klen - 1, idig + 1, jdig + 1, kdig + 1))
    (klen, 0, 0, 0);
  mpn_remove_trailing_zeros i 0 idig.

(** The digit mask that goes with an initial carry. *)
Definition carry_mask (carry : Z) : Z := if 0 =? carry then 0 else DIG_MASK.

Definition mpn_and_neg (i j : nat) (jlen : Z) (k : nat) (klen : Z)
    (carryi carryj carryk : Z) : M blocks Z :=
  let imask := carry_mask carryi in
  let jmask := carry_mask carryj in
  let kmask := carry_mask carryk in
  '(_, _, idig, _, _, carryi, _, _) ←
    for_ (Z.to_nat jlen + 1) (fun '(jlen, _, _, _, _, _, _, _) => jlen >? 0)
    (fun '(jlen, klen, idig, jdig, kdig, carryi, carryj, carryk) =>
       x ← load j jdig;
       let carryj := u32 (carryj + Z.lxor x jmask) in
       let klen := u32 (klen - 1) in
       let jlen := u32 (jlen - 1) in
       '(y, kdig) ← (if klen <=? jlen then y ← load k kdig; mret (Z.lxor y kmask, kdig + 1)
                     else mret (kmask, kdig));
       let carryk := u32 (carryk + y) in
       let carryi := u32 (carryi + Z.land (Z.lxor (Z.land carryj carryk) imask) DIG_MASK) in
       _ ← store i idig (Z.land carryi DIG_MASK);
       mret (jlen, klen, idig + 1, jdig + 1, kdig, Z.shiftr carryi DIG_SIZE,
             Z.shiftr carryj DIG_SIZE, Z.shiftr carryk DIG_SIZE))
    (jlen, klen, 0, 0, 0, carryi, carryj, carryk);
  idig ← (if negb (0 =? carryi) then _ ← store i idig (u16 carryi); mret (idig + 1)
          else mret idig);
  mpn_remove_trailing_zeros i 0 idig.

Definition mpn_or (i j : nat) (jlen : Z) (k : nat) (klen : Z) : M blocks Z :=
  let jlen := jlen - klen in
  '(_, idig, jdig, _) ← for_ (Z.to_nat klen + 1) (fun '(klen, _, _, _) => klen >? 0)
    (fun '(klen, idig, jdig, kdig) =>
       x ← load j jdig; y ← load k kdig;
       _ ← store i idig (Z.lor x y);
       mret (klen - 1, idig + 1, jdig + 1, kdig + 1))
    (klen, 0, 0, 0);
  '(_, idig, _) ← for_ (Z.to_nat jlen + 1) (fun '(jlen, _, _) => jlen >? 0)
    (fun '(jlen, idig, jdig) =>
       x ← load j jdig;
       _ ← store i idig x;
       mret (jlen - 1, idig + 1, jdig + 1))
    (jlen, idig, jdig);
  mret idig.

Definition mpn_or_neg (i j : nat) (jlen : Z) (k : nat) (klen : Z)
    (carryj carryk : Z) : M blocks Z :=
  let jmask := carry_mask carryj in
  let kmask := carry_mask carryk in
  '(_, _, idig, _, _, carryi, _, _) ←
    for_ (Z.to_nat jlen + 1) (fun '(jlen, _, _, _, _, _, _, _) => jlen >? 0)
    (fun '(jlen, klen, idig, jdig, kdig, carryi, carryj, carryk) =>
       x ← load j jdig;
       let carryj := u32 (carryj + Z.lxor x jmask) in
       let klen := u32 (klen - 1) in
       let jlen := u32 (jlen - 1) in
       '(y, kdig) ← (if klen <=? jlen then y ← load k kdig; mret (Z.lxor y kmask, kdig + 1)
                     else mret (kmask, kdig));
       let carryk := u32 (carryk + y) in
       let carryi := u32 (carryi + Z.land (Z.lxor (Z.lor carryj carryk) DIG_MASK) DIG_MASK) in
       _ ← store i idig (Z.land carryi DIG_MASK);
       mret (jlen, klen, idig + 1, jdig + 1, kdig, Z.shiftr carryi DIG_SIZE,
             Z.shiftr carryj DIG_SIZE, Z.shiftr carryk DIG_SIZE))
    (jlen, klen, 0, 0, 0, 1, carryj, carryk);
  _ ← assert_ (carryi =? 0);
  mpn_remove_trailing_zeros i 0 idig.

Definition mpn_xor (i j : nat) (jlen : Z) (k : nat) (klen : Z) : M blocks Z :=
  let jlen := jlen - klen in
  '(_, idig, jdig, _) ← for_ (Z.to_nat klen + 1) (fun '(klen, _, _, _) => klen >? 0)
    (fun '(klen, idig, jdig, kdig) =>
       x ← load j jdig; y ← load k kdig;
       _ ← store i idig (Z.lxor x y);
       mret (klen - 1, idig + 1, jdig + 1, kdig + 1))
    (klen, 0, 0, 0);
  '(_, idig, _) ← for_ (Z.to_nat jlen + 1) (fun '(jlen, _, _) => jlen >? 0)
    (fun '(jlen, idig, jdig) =>
       x ← load j jdig;
       _ ← store i idig x;
       mret (jlen - 1, idig + 1, jdig + 1))
    (jlen, idig, jdig);
  mpn_remove_trailing_zeros i 0 idig.

Definition mpn_xor_neg (i j : nat) (jlen : Z) (k : nat) (klen : Z)
    (carryi carryj carryk : Z) : M blocks Z :=
  '(_, _, idig, _, _, carryi, _, _) ←
    for_ (Z.to_nat jlen + 1) (fun '(jlen, _, _, _, _, _, _, _) => jlen >? 0)
    (fun '(jlen, klen, idig, jdig, kdig, carryi, carryj, carryk) =>
       x ← load j jdig;
       let carryj := u32 (carryj + (x + DIG_MASK)) in
       let klen := u32 (klen - 1) in
       let jlen := u32 (jlen - 1) in
       '(y, kdig) ← (if klen <=? jlen then y ← load k kdig; mret (y + DIG_MASK, kdig + 1)
                     else mret (DIG_MASK, kdig));
       let carryk := u32 (carryk + y) in
       let carryi := u32 (carryi + Z.land (Z.lxor carryj carryk) DIG_MASK) in
       _ ← store i idig (Z.land carryi DIG_MASK);
       mret (jlen, klen, idig + 1, jdig + 1, kdig, Z.shiftr carryi DIG_SIZE,
             Z.shiftr carryj DIG_SIZE, Z.shiftr carryk DIG_SIZE))
    (jlen, klen, 0, 0, 0, carryi, carryj, carryk);
  idig ← (if negb (0 =? carryi) then _ ← store i idig (u16 carryi); mret (idig + 1)
          else mret idig);
  mpn_remove_trailing_zeros i 0 idig.

Definition mpn_mul_dig_add_dig (i : nat) (ilen dmul dadd : Z) : M blocks Z :=
  '(_, idig, carry) ← for_ (Z.to_nat ilen + 1) (fun '(ilen, _, _) => ilen >? 0)
    (fun '(ilen, idig, carry) =>
       x ← load i idig;
       let carry := u32 (carry + u32 (x * dmul)) in
       _ ← store i idig (Z.land carry DIG_MASK);
       mret (ilen - 1, idig + 1, Z.shiftr carry DIG_SIZE))
    (ilen, 0, dadd);
  if negb (carry =? 0) then _ ← store i idig (u16 carry); mret (idig + 1)
  else mret idig.

Definition mpn_mul (i j : nat) (jlen : Z) (k : nat) (klen : Z) : M blocks Z :=
  '(_, _, _, ilen) ← for_ (Z.to_nat klen + 1) (fun '(klen, _, _, _) => klen >? 0)
    (fun '(klen, idig, kdig, _) =>
       '(_, id, _, carry) ← for_ (Z.to_nat jlen + 1) (fun '(jl, _, _, _) => jl >? 0)
         (fun '(jl, id, jd, carry) =>
            w ← load i id; x ← load j jd; y ← load k kdig;
            let carry := u32 (carry + u32 (w + u32 (x * y))) in
            _ ← store i id (Z.land carry DIG_MASK);
            mret (jl - 1, id + 1, jd + 1, Z.shiftr carry DIG_SIZE))
         (jlen, idig, 0, 0);
       id ← (if negb (carry =? 0) then _ ← store i id (u16 carry); mret (id + 1)
             else mret id);
       mret (klen - 1, idig + 1, kdig + 1, id))
    (klen, 0, 0, 0);
  mret ilen.

(** ** Division

    [mpn_div] in the steps the code goes through: the number of bits to shift the
    denominator by, the shift of the numerator, the leading digit of the shifted
    denominator, the digit loop (an estimate of the quotient digit, the
    subtraction of its multiple, the correction of an estimate that was too
    large) and the final unshift of the remainder. *)

Definition mpn_div_norm_shift (d : Z) : M blocks Z :=
  '(_, norm_shift) ← for_ 17 (fun '(d, _) => Z.land d DIG_MSB =? 0)
    (fun '(d, norm_shift) => mret (u16 (Z.shiftl d 1), u16 (norm_shift + 1))) (d, 0);
  mret norm_shift.

Definition mpn_div_shift_num (num : nat) (num_len norm_shift : Z) : M blocks unit :=
  _ ← for_ (Z.to_nat num_len + 1) (fun '(p, _) => p <? num_len)
    (fun '(p, carry) =>
       n ← load num p;
       _ ← store num p (Z.land (Z.lor (Z.shiftl n norm_shift) carry) DIG_MASK);
       mret (p + 1, u16 (Z.shiftr n (DIG_SIZE - norm_shift)))) (0, 0);
  mret tt.

Definition mpn_div_lead (den : nat) (den_len norm_shift : Z) : M blocks Z :=
  d ← load den (den_len - 1);
  let lead := u32 (Z.shiftl d norm_shift) in
  if den_len >=? 2 then
    d2 ← load den (den_len - 2);
    mret (Z.lor lead (Z.shiftr d2 (DIG_SIZE - norm_shift)))
  else mret lead.

(** [num -= quo * den], from digit [num_dig - den_len] on; the final borrow. *)
Definition mpn_div_submul (num den : nat) (den_len norm_shift num_dig quo : Z) : M blocks Z :=
  '(_, _, _, borrow) ← for_ (Z.to_nat den_len + 1) (fun '(n, _, _, _) => n <? num_dig)
    (fun '(n, d, d_norm, borrow) =>
       dd ← load den d;
       let d_norm := Z.lor (u32 (Z.shiftl dd norm_shift)) (Z.shiftr d_norm DIG_SIZE) in
       let x := u32 (quo * Z.land d_norm DIG_MASK) in
       nn ← load num n;
       let low_digs := s32 (u32 (Z.land borrow DIG_MASK + nn - Z.land x DIG_MASK)) in
       _ ← store num n (Z.land low_digs DIG_MASK);
       let borrow := s32 (u32 (Z.shiftr borrow DIG_SIZE - Z.shiftr x DIG_SIZE
                               + Z.shiftr low_digs DIG_SIZE)) in
       mret (n + 1, d + 1, d_norm, borrow))
    (num_dig - den_len, 0, 0, 0);
  mret borrow.

(** [num += den], from digit [num_dig - den_len] on; the final carry. *)
Definition mpn_div_addback (num den : nat) (den_len norm_shift num_dig : Z) : M blocks Z :=
  '(_, _, _, carry) ← for_ (Z.to_nat den_len + 1) (fun '(n, _, _, _) => n <? num_dig)
    (fun '(n, d, d_norm, carry) =>
       dd ← load den d;
       let d_norm := Z.lor (u32 (Z.shiftl dd norm_shift)) (Z.shiftr d_norm DIG_SIZE) in
       nn ← load num n;
       let carry := u32 (carry + u32 (nn + Z.land d_norm DIG_MASK)) in
       _ ← store num n (Z.land carry DIG_MASK);
       mret (n + 1, d + 1, d_norm, Z.shiftr carry DIG_SIZE))
    (num_dig - den_len, 0, 0, 0);
  mret carry.

(** One digit of the quotient. *)
Definition mpn_div_digit (num den quo : nat) (den_len norm_shift lead num_dig quo_dig : Z) :
    M blocks unit :=
  a ← load num num_dig; b ← load num (num_dig - 1);
  let q := Z.lor (u32 (Z.shiftl a DIG_SIZE)) b / lead in
  borrow ← mpn_div_submul num den den_len norm_shift num_dig q;
  top ← load num num_dig;
  let borrow := s32 (borrow + top) in
  '(_, q) ← for_ (Z.to_nat q + 1) (fun '(borrow, _) => negb (borrow =? 0))
    (fun '(borrow, q) =>
       carry ← mpn_div_addback num den den_len norm_shift num_dig;
       mret (s32 (u32 (borrow + carry)), u32 (q - 1)))
    (borrow, q);
  store quo quo_dig (Z.land q DIG_MASK).

Definition mpn_div_unshift (num : nat) (num_len norm_shift : Z) : M blocks unit :=
  _ ← for_ (Z.to_nat num_len + 1) (fun '(p, _) => p >=? 0)
    (fun '(p, carry) =>
       n ← load num p;
       _ ← store num p (Z.land (Z.lor (Z.shiftr n norm_shift) carry) DIG_MASK);
       mret (p - 1, u16 (u32 (Z.shiftl n (DIG_SIZE - norm_shift))))) (num_len - 1, 0);
  mret tt.

(** The number of digits left after the most significant zero digits are dropped. *)
Definition mpn_div_strip (b : nat) (len : Z) : M blocks Z :=
  while (Z.to_nat len + 1)
    (fun len => if len >? 0 then x ← load b (len - 1); mret (x =? 0) else mret false)
    (fun len => mret (len - 1)) len.

(** The new values of [*num_len] and [*quo_len]. *)
Definition mpn_div (num : nat) (num_len : Z) (den : nat) (den_len : Z) (quo : nat) :
    M blocks (Z * Z) :=
  cmp ← mpn_cmp num num_len den den_len;
  if cmp =? 0 then _ ← store quo 0 1; mret (0, 1)
  else if cmp <? 0 then mret (num_len, 0)
  else
    d ← load den (den_len - 1);
    norm_shift ← mpn_div_norm_shift d;
    _ ← store num num_len 0;
    let num_len := num_len + 1 in
    _ ← mpn_div_shift_num num num_len norm_shift;
    lead ← mpn_div_lead den den_len norm_shift;
    let num_dig := num_len - 1 in
    let quo_len := num_len - den_len in
    let quo_dig := quo_len - 1 in
    '(num_len, _, _) ← for_ (Z.to_nat num_len + 1) (fun '(num_len, _, _) => num_len >? den_len)
      (fun '(num_len, num_dig, quo_dig) =>
         _ ← mpn_div_digit num den quo den_len norm_shift lead num_dig quo_dig;
         mret (num_len - 1, num_dig - 1, quo_dig - 1))
      (num_len, num_dig, quo_dig);
    _ ← mpn_div_unshift num num_len norm_shift;
    quo_len ← mpn_div_strip quo quo_len;
    num_len ← mpn_div_strip num num_len;
    mret (num_len, quo_len).
