(* ===== verification/Digits.v ===== *)
(** * Values of digit lists

    The number a little-endian list of base [2 ^ 16] digits stands for, and the
    rules by which the digit loops of py/mpz.c are verified. *)
From S2P Require Import Prelude.
From S2P Require Import CMem.
From S2P Require Import Mpn.
Local Open Scope Z_scope.

Definition is_dig (d : Z) : Prop := 0 <= d < 65536.

Definition dval (l : list Z) : Z := foldr (fun d v => d + 65536 * v) 0 l.

(** The most significant digit, if there is one, is not zero. *)
Definition normal (l : list Z) : Prop := last l <> Some 0.

(** [B ^ n] for a number of digits. *)
Definition bpow (n : nat) : Z := 65536 ^ Z.of_nat n.

(** The prefix of block [b] is the digit list [l]. *)
Definition holds (m : blocks) (b : nat) (l : list Z) : Prop :=
  exists rest, m !! b = Some (l ++ rest).

(** Block [b] has room for [n] digits. *)
Definition room (m : blocks) (b : nat) (n : nat) : Prop :=
  exists l, m !! b = Some l /\ (n <= length l)%nat.

(** ** Powers and masks *)

Lemma bpow_0 : bpow 0 = 1.
Proof. done. Qed.

Lemma bpow_S n : bpow (S n) = 65536 * bpow n.
Proof. unfold bpow. rewrite Nat2Z.inj_succ, Z.pow_succ_r by lia. done. Qed.

Lemma bpow_add a b : bpow (a + b) = bpow a * bpow b.
Proof. unfold bpow. rewrite Nat2Z.inj_add. apply Z.pow_add_r; lia. Qed.

Lemma bpow_pos n : 0 < bpow n.
Proof. unfold bpow. lia. Qed.

Lemma bpow_mono a b : (a <= b)%nat -> bpow a <= bpow b.
Proof. intros. unfold bpow. apply Z.pow_le_mono_r; lia. Qed.

Lemma bpow_pow2 n : bpow n = 2 ^ (16 * Z.of_nat n).
Proof. unfold bpow. change 65536 with (2 ^ 16). by rewrite <-Z.pow_mul_r by lia. Qed.

Lemma dig_mask x : Z.land x DIG_MASK = x `mod` 65536.
Proof. change DIG_MASK with (2 ^ 16 - 1). by rewrite land_pow2_mask by lia. Qed.

Lemma dig_shr x : Z.shiftr x DIG_SIZE = x / 65536.
Proof. unfold DIG_SIZE. by rewrite shiftr_div by lia. Qed.

Lemma dig_shl x : Z.shiftl x DIG_SIZE = x * 65536.
Proof. unfold DIG_SIZE. by rewrite shiftl_mul by lia. Qed.

Lemma dig_lor a b : 0 <= b < 65536 -> Z.lor (a * 65536) b = a * 65536 + b.
Proof. intros. by apply (lor_add_disjoint 16). Qed.

Lemma carry_step P c : P * (c `mod` 65536) + (c / 65536) * (65536 * P) = P * c.
Proof. rewrite (Z.div_mod c 65536) at 3 by lia. ring. Qed.

Lemma is_dig_mod x : is_dig (x `mod` 65536).
Proof. apply Z.mod_pos_bound. lia. Qed.
#[export] Hint Resolve is_dig_mod : core.

Lemma is_dig_0 : is_dig 0.
Proof. unfold is_dig. lia. Qed.
#[export] Hint Resolve is_dig_0 : core.

(** The conversions that the digit arithmetic goes through. *)
Lemma u32_small x : 0 <= x < 4294967296 -> u32 x = x.
Proof. intros. by apply uwrap_small. Qed.

Lemma u16_small x : 0 <= x < 65536 -> u16 x = x.
Proof. intros. by apply uwrap_small. Qed.

Lemma s32_small x : -2147483648 <= x < 2147483648 -> s32 x = x.
Proof. intros. by apply swrap_small. Qed.

Lemma s32_u32 x : -2147483648 <= x < 2147483648 -> s32 (u32 x) = x.
Proof.
  intros. unfold swrap, uwrap. rewrite Z.add_mod_idemp_l by lia.
  by apply (swrap_small 32).
Qed.

Lemma u32_add_u32 a b : u32 (a + u32 b) = u32 (a + b).
Proof. unfold uwrap. by rewrite Z.add_mod_idemp_r by lia. Qed.

(** ** Values *)

Lemma dval_cons d l : dval (d :: l) = d + 65536 * dval l.
Proof. done. Qed.

Lemma dval_app l1 l2 : dval (l1 ++ l2) = dval l1 + bpow (length l1) * dval l2.
Proof.
  induction l1 as [|d l1 IH]; cbn [app length].
  - rewrite bpow_0. cbn. lia.
  - rewrite !dval_cons, IH, bpow_S. lia.
Qed.

Lemma dval_snoc l d : dval (l ++ [d]) = dval l + bpow (length l) * d.
Proof. rewrite dval_app, dval_cons. cbn. lia. Qed.

Lemma dval_take_S l t x :
  l !! t = Some x -> dval (take (S t) l) = dval (take t l) + bpow t * x.
Proof.
  intros Hx. rewrite (take_S_snoc _ _ x) by done. rewrite dval_snoc.
  rewrite length_take_le; [done|]. apply lookup_lt_Some in Hx. lia.
Qed.

Lemma dval_zeros n : dval (replicate n 0) = 0.
Proof. induction n as [|n IH]; [done|]. cbn. unfold dval in IH. rewrite IH. done. Qed.

Lemma dval_bounds l : Forall is_dig l -> 0 <= dval l < bpow (length l).
Proof.
  induction 1 as [|d l Hd _ IH]; cbn [length].
  - rewrite bpow_0. cbn. lia.
  - rewrite dval_cons, bpow_S. unfold is_dig in Hd. lia.
Qed.

Lemma dval_take_bounds l t : Forall is_dig l -> (t <= length l)%nat ->
  0 <= dval (take t l) < bpow t.
Proof.
  intros Hl Ht. rewrite <-(length_take_le l t) at 3 by done.
  apply dval_bounds. by apply Forall_take.
Qed.

Lemma Forall_lookup_dig l t x : Forall is_dig l -> l !! t = Some x -> 0 <= x < 65536.
Proof. intros H Hx. by eapply (Forall_lookup_1 is_dig). Qed.

Lemma normal_nil : normal [].
Proof. done. Qed.

Lemma normal_snoc l d : normal (l ++ [d]) <-> d <> 0.
Proof. unfold normal. rewrite last_snoc. naive_solver. Qed.

Lemma dval_normal_lower l d : Forall is_dig (l ++ [d]) -> d <> 0 ->
  bpow (length l) <= dval (l ++ [d]).
Proof.
  intros [Hl Hd]%Forall_app Hnz. rewrite dval_snoc.
  apply Forall_cons in Hd as [Hd _]. unfold is_dig in Hd.
  pose proof (dval_bounds l Hl). pose proof (bpow_pos (length l)). nia.
Qed.

Lemma dval_nonzero_pos l : Forall is_dig l -> normal l -> l <> [] -> 0 < dval l.
Proof.
  intros Hl Hn Hne. destruct l as [|d l _] using rev_ind; [done|].
  apply normal_snoc in Hn. pose proof (dval_normal_lower _ _ Hl Hn).
  pose proof (bpow_pos (length l)). lia.
Qed.

Lemma dval_normal_length_lt l1 l2 : Forall is_dig l1 -> Forall is_dig l2 -> normal l2 ->
  (length l1 < length l2)%nat -> dval l1 < dval l2.
Proof.
  intros H1 H2 Hn Hlen. destruct l2 as [|d l2 _] using rev_ind; [cbn in Hlen; lia|].
  apply normal_snoc in Hn. pose proof (dval_normal_lower _ _ H2 Hn).
  pose proof (dval_bounds l1 H1). rewrite length_app in Hlen. cbn in Hlen.
  pose proof (bpow_mono (length l1) (length l2) ltac:(lia)). lia.
Qed.

Lemma dval_inj_len l1 l2 : Forall is_dig l1 -> Forall is_dig l2 ->
  length l1 = length l2 -> dval l1 = dval l2 -> l1 = l2.
Proof.
  intros H1. revert l2. induction H1 as [|d l1 Hd H1 IH]; intros [|e l2] H2 Hlen Hv;
    try done.
  apply Forall_cons in H2 as [He H2]. rewrite !dval_cons in Hv. cbn in Hlen.
  unfold is_dig in *. assert (d = e /\ dval l1 = dval l2) as [-> ?] by lia.
  f_equal. apply IH; [done|lia|done].
Qed.

(** A normalised digit list is determined by its value. *)
Lemma dval_inj l1 l2 : Forall is_dig l1 -> Forall is_dig l2 -> normal l1 -> normal l2 ->
  dval l1 = dval l2 -> l1 = l2.
Proof.
  intros H1 H2 N1 N2 Hv. apply dval_inj_len; [done|done| |done].
  destruct (Nat.lt_trichotomy (length l1) (length l2)) as [Hlt|[->|Hlt]]; [|done|].
  - pose proof (dval_normal_length_lt l1 l2 H1 H2 N2 Hlt). lia.
  - pose proof (dval_normal_length_lt l2 l1 H2 H1 N1 Hlt). lia.
Qed.

(** The top digit of a list whose value fills all its digits is not zero. *)
Lemma normal_lower l : Forall is_dig l -> (l <> [] -> bpow (length l - 1) <= dval l) ->
  normal l.
Proof.
  intros Hl Hv. destruct l as [|d l _] using rev_ind; [done|].
  apply normal_snoc. intros ->. apply Forall_app in Hl as [Hl _].
  rewrite dval_snoc, length_app in Hv. cbn in Hv. pose proof (dval_bounds l Hl).
  replace (length l + 1 - 1)%nat with (length l) in Hv by lia.
  assert (l ++ [0] <> []) as Hne by (by destruct l). specialize (Hv Hne). lia.
Qed.

Lemma dval_lower l : Forall is_dig l -> normal l -> l <> [] -> bpow (length l - 1) <= dval l.
Proof.
  intros Hl Hn Hne. destruct l as [|d l _] using rev_ind; [done|].
  apply normal_snoc in Hn. rewrite length_app. cbn.
  replace (length l + 1 - 1)%nat with (length l) by lia. by apply dval_normal_lower.
Qed.

(** ** Blocks *)

Lemma holds_length_room m b l : holds m b l -> room m b (length l).
Proof. intros [rest Hb]. exists (l ++ rest). split; [done|]. rewrite length_app. lia. Qed.

Lemma room_mono m b n n' : room m b n -> (n' <= n)%nat -> room m b n'.
Proof. intros (l & Hl & ?) ?. exists l. split; [done|lia]. Qed.

Lemma holds_blit m b l outs : m !! b = Some l ->
  holds (blit m b outs) b outs.
Proof. intros Hb. eexists. by apply lookup_blit_eq. Qed.

Lemma holds_blit_ne m b c l outs : b <> c -> holds m c l -> holds (blit m b outs) c l.
Proof. intros Hne [rest Hc]. exists rest. by rewrite lookup_blit_ne. Qed.

Lemma wp_load_holds m b l (t : nat) (Q : Z -> blocks -> Prop) :
  holds m b l -> (t < length l)%nat ->
  (forall x, l !! t = Some x -> Q x m) -> wp (load b (Z.of_nat t)) m Q.
Proof.
  intros [rest Hb] Ht HQ. destruct (lookup_lt_is_Some_2 l t Ht) as [x Hx].
  apply (wp_load _ _ _ x); [|by apply HQ]. erewrite mem_get_nat; [|done].
  by rewrite lookup_app_l.
Qed.

Lemma wp_load_blit m b outs c l (t : nat) (Q : Z -> blocks -> Prop) :
  holds m c l -> (length outs <= t)%nat -> (t < length l)%nat ->
  (forall x, l !! t = Some x -> Q x (blit m b outs)) ->
  wp (load c (Z.of_nat t)) (blit m b outs) Q.
Proof.
  intros [rest Hc] Ho Ht HQ. destruct (lookup_lt_is_Some_2 l t Ht) as [x Hx].
  apply (wp_load _ _ _ x); [|by apply HQ].
  eapply mem_get_blit_above; [done| |done]. by rewrite lookup_app_l.
Qed.

Lemma wp_store_blit m b outs n v (Q : unit -> blocks -> Prop) :
  room m b n -> (length outs < n)%nat -> Q tt (blit m b (outs ++ [v])) ->
  wp (store b (Z.of_nat (length outs)) v) (blit m b outs) Q.
Proof.
  intros (l & Hb & Hn) Ho HQ.
  destruct (lookup_lt_is_Some_2 l (length outs) ltac:(lia)) as [w Hw].
  apply (wp_store _ _ _ w).
  - by eapply mem_get_blit_above.
  - rewrite Nat2Z.id, (blit_snoc _ _ l) by (done || lia). done.
Qed.
