(* ===== verification/MpnArith.v ===== *)
(** * Correctness of comparison, addition, subtraction and multiplication of
      digit arrays *)
From S2P Require Import Prelude.
From S2P Require Import CMem.
From S2P Require Import Mpn.
From S2P Require Import Digits.
Local Open Scope Z_scope.

(** The only effect of a call is on block [i], whose size is kept and whose
    prefix is now [res]. *)
Definition wrote (m m' : blocks) (i : nat) (res : list Z) : Prop :=
  exists l l', m !! i = Some l /\ m' = <[i := l']> m /\ length l' = length l /\
               exists rest, l' = res ++ rest.

Lemma wrote_blit m i l res outs :
  m !! i = Some l -> (length res + length outs <= length l)%nat ->
  wrote m (blit m i (res ++ outs)) i res.
Proof.
  intros Hl Hlen. exists l, ((res ++ outs) ++ drop (length (res ++ outs)) l).
  split; [done|]. split; [|split].
  - apply map_eq. intros c. unfold blit. destruct (decide (i = c)) as [->|Hne].
    + by rewrite lookup_alter_eq, lookup_insert_eq, Hl.
    + by rewrite lookup_alter_ne, lookup_insert_ne.
  - rewrite length_app, length_drop, length_app. lia.
  - exists (outs ++ drop (length (res ++ outs)) l). by rewrite <-app_assoc.
Qed.

Lemma wrote_blit_all m i l res :
  m !! i = Some l -> (length res <= length l)%nat -> wrote m (blit m i res) i res.
Proof.
  intros Hl Hlen. pose proof (wrote_blit m i l res [] Hl) as H.
  rewrite app_nil_r in H. apply H. cbn. lia.
Qed.

Lemma wrote_holds m m' i res : wrote m m' i res -> holds m' i res.
Proof.
  intros (l & l' & _ & -> & _ & rest & ->). exists rest. by rewrite lookup_insert_eq.
Qed.

Lemma wrote_room m m' i res n : wrote m m' i res -> room m i n -> room m' i n.
Proof.
  intros (l & l' & Hl & -> & Hlen & _) (l0 & Hl0 & Hn). exists l'.
  rewrite lookup_insert_eq. split; [done|]. rewrite Hl in Hl0. simplify_eq. lia.
Qed.

Lemma wrote_other m m' i res b : wrote m m' i res -> b <> i -> m' !! b = m !! b.
Proof. intros (l & l' & _ & -> & _) Hne. by rewrite lookup_insert_ne. Qed.

(** Writing back a prefix of the same block through an intermediate state. *)
Lemma wrote_intro m i l res rest :
  m !! i = Some l -> length (res ++ rest) = length l -> wrote m (<[i := res ++ rest]> m) i res.
Proof. intros Hl Hlen. exists l, (res ++ rest). repeat split; [done..|by exists rest]. Qed.

Lemma wrote_trans m m1 m2 i r1 r2 : wrote m m1 i r1 -> wrote m1 m2 i r2 -> wrote m m2 i r2.
Proof.
  intros (l & l1 & Hl & -> & Hlen & _) (l' & l2 & Hl' & -> & Hlen' & rest & ->).
  rewrite lookup_insert_eq in Hl'. simplify_eq. exists l, (r2 ++ rest).
  rewrite insert_insert_eq. repeat split; [done| |by eexists]. by rewrite Hlen'.
Qed.

Lemma wrote_refl m i r : holds m i r -> wrote m m i r.
Proof.
  intros [rest Hr]. exists (r ++ rest), (r ++ rest). rewrite insert_id by done.
  repeat split; [done|by eexists].
Qed.

(** ** Stripping leading zero digits *)

Lemma wp_mpn_remove_trailing_zeros m i outs (Q : Z -> blocks -> Prop) :
  holds m i outs ->
  (forall res zs, outs = res ++ zs -> dval zs = 0 -> normal res ->
     Q (Z.of_nat (length res)) m) ->
  wp (mpn_remove_trailing_zeros i 0 (Z.of_nat (length outs))) m Q.
Proof.
  intros Hh HQ. unfold mpn_remove_trailing_zeros. apply wp_bind.
  apply (wp_while (fun idig m' => m' = m /\ exists res zs, outs = res ++ zs /\
           dval zs = 0 /\ idig = Z.of_nat (length res) - 1) (fun idig => Z.to_nat (idig + 1))).
  - split; [done|]. exists outs, []. by rewrite app_nil_r.
  - lia.
  - intros idig m' (-> & res & zs & Houts & Hzs & ->).
    destruct res as [|d res _] using rev_ind.
    + cbn. rewrite <-(Z.add_0_r 0). apply (HQ [] zs); [done..|apply normal_nil].
    + rewrite length_app. cbn [length]. rewrite Nat2Z.inj_add. 
      destruct (_ >=? 0) eqn:E; to_prop; [|lia]. apply wp_bind.
      replace (_ - 1) with (Z.of_nat (length res)) by lia.
      eapply wp_load_holds; [done| |].
      { rewrite Houts, !length_app. cbn. lia. }
      intros x Hx. apply wp_ret.
      assert (x = d) as ->.
      { rewrite Houts, <-app_assoc in Hx. cbn in Hx.
        rewrite list_lookup_middle in Hx by done. by simplify_eq. }
      destruct (d =? 0) eqn:Ed; to_prop.
      * apply wp_ret. split; [|lia]. split; [done|]. exists res, (d :: zs).
        rewrite Houts, <-app_assoc. subst d. rewrite dval_cons. cbn [app]. repeat split; lia.
      * replace (_ + 1 - 0) with (Z.of_nat (length (res ++ [d]))) by (rewrite length_app; cbn; lia).
        apply wp_ret. by apply (HQ _ zs); [|done|apply normal_snoc].
Qed.

(** Removing the leading zeros of what has just been written. *)
Lemma wp_strip m i l outs (Q : Z -> blocks -> Prop) :
  m !! i = Some l -> (length outs <= length l)%nat -> Forall is_dig outs ->
  (forall res m', wrote m m' i res -> Forall is_dig res -> normal res ->
     dval res = dval outs -> Q (Z.of_nat (length res)) m') ->
  wp (mpn_remove_trailing_zeros i 0 (Z.of_nat (length outs))) (blit m i outs) Q.
Proof.
  intros Hl Hlen Hd HQ. apply wp_mpn_remove_trailing_zeros; [by eapply holds_blit|].
  intros res zs -> Hzs Hn. apply Forall_app in Hd as [Hd _].
  rewrite length_app in Hlen. apply HQ; [|done|done|].
  - by apply (wrote_blit _ _ l).
  - rewrite dval_app, Hzs. lia.
Qed.

(** ** Comparison *)

Lemma dval_top l1 l2 x y r1 r2 :
  Forall is_dig r1 -> Forall is_dig r2 -> length r1 = length r2 ->
  l1 = r1 ++ [x] -> l2 = r2 ++ [y] -> x < y -> dval l1 < dval l2.
Proof.
  intros H1 H2 Hlen -> -> Hxy. rewrite !dval_snoc, Hlen.
  pose proof (dval_bounds r1 H1). pose proof (dval_bounds r2 H2). rewrite Hlen in *.
  pose proof (bpow_pos (length r2)). nia.
Qed.

Lemma wp_mpn_cmp m i I j J (Q : Z -> blocks -> Prop) :
  holds m i I -> holds m j J -> Forall is_dig I -> Forall is_dig J ->
  normal I -> normal J ->
  Q (Z.sgn (dval I - dval J)) m ->
  wp (mpn_cmp i (Z.of_nat (length I)) j (Z.of_nat (length J))) m Q.
Proof.
  intros Hi Hj DI DJ NI NJ HQ. unfold mpn_cmp.
  destruct (_ <? _) eqn:E1; to_prop.
  { pose proof (dval_normal_length_lt I J DI DJ NJ ltac:(lia)).
    apply wp_ret. replace (-1) with (Z.sgn (dval I - dval J)) by lia. done. }
  destruct (_ >? _) eqn:E2; to_prop.
  { pose proof (dval_normal_length_lt J I DJ DI NI ltac:(lia)).
    apply wp_ret. replace 1 with (Z.sgn (dval I - dval J)) by lia. done. }
  assert (length I = length J) as Hlen by lia. clear E1 E2.
  apply (wp_loop (fun '(n, idig, jdig) m' => m' = m /\ exists t : nat,
           (t <= length I)%nat /\ n = Z.of_nat t /\ idig = n /\ jdig = n /\
           Z.sgn (dval (take t I) - dval (take t J)) = Z.sgn (dval I - dval J))
           (fun '(n, _, _) => Z.to_nat n)).
  2: { split; [done|]. exists (length I). rewrite !take_ge by lia. done. }
  2: lia.
  intros [[n idig] jdig] m' (-> & t & Ht & -> & -> & -> & Hs).
  destruct t as [|t].
  { cbn in *. apply wp_ret. by rewrite <-Hs in HQ. }
  destruct (negb _) eqn:E; to_prop; [lia|].
  replace (Z.of_nat (S t) - 1) with (Z.of_nat t) by lia.
  apply wp_bind. eapply wp_load_holds; [done|lia|]. intros x Hx.
  apply wp_bind. eapply wp_load_holds; [done|lia|]. intros y Hy.
  pose proof (Forall_lookup_dig _ _ _ DI Hx). pose proof (Forall_lookup_dig _ _ _ DJ Hy).
  assert (s32 (u32 (x - y)) = x - y) as ->.
  { unfold swrap, uwrap. rewrite Z.add_mod_idemp_l by lia. 
    apply (swrap_small 32 (x - y)); lia. }
  rewrite (dval_take_S _ _ _ Hx), (dval_take_S _ _ _ Hy) in Hs.
  pose proof (dval_take_bounds I t DI ltac:(lia)).
  pose proof (dval_take_bounds J t DJ ltac:(lia)). pose proof (bpow_pos t).
  destruct (x - y <? 0) eqn:E3; to_prop.
  { apply wp_ret. replace (-1) with (Z.sgn (dval I - dval J)) by nia. done. }
  destruct (x - y >? 0) eqn:E4; to_prop.
  { apply wp_ret. replace 1 with (Z.sgn (dval I - dval J)) by nia. done. }
  assert (x = y) as -> by lia.
  apply wp_ret. split; [|lia]. split; [done|]. exists t. repeat split; [lia..|].
  rewrite <-Hs. f_equal. lia.
Qed.

(** ** Accumulating loops

    The two loop shapes of [mpn_add] and [mpn_sub]: one that combines a digit of
    [j] and a digit of [k], one that propagates the carry through the remaining
    digits of [j].  The carry is [-1], [0] or [1]. *)

Lemma acc_carry sg c x y :
  sg = 1 \/ sg = -1 -> 0 <= sg * c <= 1 -> is_dig x -> is_dig y ->
  0 <= sg * ((c + x + sg * y) / 65536) <= 1.
Proof.
  unfold is_dig. intros [-> | ->] Hc Hx Hy.
  - assert (0 <= (c + x + 1 * y) / 65536 < 2); [|lia].
    split; [apply Z.div_pos|apply Z.div_lt_upper_bound]; lia.
  - assert (-1 <= (c + x + -1 * y) / 65536 < 1); [|lia].
    split; [apply Z.div_le_lower_bound|apply Z.div_lt_upper_bound]; lia.
Qed.

Lemma wp_acc_loop2 (F : Z -> Z -> Z -> Z) (sg : Z) m i j k J K (n : nat)
    (Q : Z * Z * Z * Z * Z -> blocks -> Prop) :
  (forall c x y, 0 <= sg * c <= 1 -> is_dig x -> is_dig y -> F c x y = c + x + sg * y) ->
  sg = 1 \/ sg = -1 ->
  holds m j J -> holds m k K -> Forall is_dig J -> Forall is_dig K ->
  (n <= length J)%nat -> (n <= length K)%nat -> room m i n ->
  (forall outs c, length outs = n -> Forall is_dig outs -> 0 <= sg * c <= 1 ->
     dval outs + c * bpow n = dval (take n J) + sg * dval (take n K) ->
     Q (0, Z.of_nat n, Z.of_nat n, Z.of_nat n, c) (blit m i outs)) ->
  wp (for_ (Z.to_nat (Z.of_nat n) + 1) (fun '(klen, _, _, _, _) => klen >? 0)
       (fun '(klen, idig, jdig, kdig, carry) =>
          x ← load j jdig; y ← load k kdig;
          let carry := F carry x y in
          _ ← store i idig (Z.land carry DIG_MASK);
          mret (klen - 1, idig + 1, jdig + 1, kdig + 1, Z.shiftr carry DIG_SIZE))
       (Z.of_nat n, 0, 0, 0, 0)) m Q.
Proof.
  intros HF Hsg Hj Hk DJ DK HnJ HnK Hroom HQ.
  apply (wp_for (fun '(len, idig, jdig, kdig, c) m' => exists outs,
      m' = blit m i outs /\ (length outs <= n)%nat /\ len = Z.of_nat (n - length outs) /\
      idig = Z.of_nat (length outs) /\ jdig = idig /\ kdig = idig /\
      Forall is_dig outs /\ 0 <= sg * c <= 1 /\
      dval outs + c * bpow (length outs) =
        dval (take (length outs) J) + sg * dval (take (length outs) K))
      (fun '(len, _, _, _, _) => Z.to_nat len)).
  - exists []. rewrite blit_nil. cbn [length]. rewrite Nat.sub_0_r. cbn.
    repeat split; [lia|done|lia|lia|]. rewrite !take_0. cbn. lia.
  - lia.
  - intros [[[[len idig] jdig] kdig] c] m' (outs & -> & Hlen & -> & -> & -> & -> & HD & Hc & Hv) Hgt.
    to_prop. apply wp_bind, (wp_load_blit _ _ _ _ J); [done|lia|lia|]. intros x Hx.
    apply wp_bind, (wp_load_blit _ _ _ _ K); [done|lia|lia|]. intros y Hy.
    pose proof (Forall_lookup_dig _ _ _ DJ Hx). pose proof (Forall_lookup_dig _ _ _ DK Hy).
    cbv zeta. rewrite HF, dig_mask, dig_shr by done.
    apply wp_bind, (wp_store_blit _ _ _ n); [done|lia|]. apply wp_ret.
    split; [|lia]. eexists. split; [done|]. rewrite length_app. cbn [length].
    rewrite Nat.add_1_r. repeat split; try lia.
    + by apply Forall_app_2, Forall_singleton.
    + by apply acc_carry.
    + by apply acc_carry.
    + rewrite dval_snoc, (dval_take_S _ _ _ Hx), (dval_take_S _ _ _ Hy), bpow_S.
      pose proof (carry_step (bpow (length outs)) (c + x + sg * y)). lia.
  - intros [[[[len idig] jdig] kdig] c] m' (outs & -> & Hlen & -> & -> & -> & -> & HD & Hc & Hv) Hle.
    to_prop. assert (length outs = n) as Hn by lia. rewrite Hn, Nat.sub_diag in *. by apply HQ.
Qed.

Lemma wp_acc_loop1 (F : Z -> Z -> Z) (sg : Z) m i j J outs0 c0 (N : nat)
    (Q : Z * Z * Z * Z -> blocks -> Prop) :
  (forall c x, 0 <= sg * c <= 1 -> is_dig x -> F c x = c + x) ->
  sg = 1 \/ sg = -1 ->
  holds m j J -> Forall is_dig J -> (N <= length J)%nat -> room m i N ->
  (length outs0 <= N)%nat -> Forall is_dig outs0 -> 0 <= sg * c0 <= 1 ->
  (forall outs c, length outs = N -> Forall is_dig outs -> 0 <= sg * c <= 1 ->
     dval outs + c * bpow N =
       dval outs0 + c0 * bpow (length outs0) + dval (take N J) - dval (take (length outs0) J) ->
     Q (0, Z.of_nat N, Z.of_nat N, c) (blit m i outs)) ->
  wp (for_ (Z.to_nat (Z.of_nat (N - length outs0)) + 1) (fun '(jlen, _, _, _) => jlen >? 0)
       (fun '(jlen, idig, jdig, carry) =>
          x ← load j jdig;
          let carry := F carry x in
          _ ← store i idig (Z.land carry DIG_MASK);
          mret (jlen - 1, idig + 1, jdig + 1, Z.shiftr carry DIG_SIZE))
       (Z.of_nat (N - length outs0), Z.of_nat (length outs0), Z.of_nat (length outs0), c0))
    (blit m i outs0) Q.
Proof.
  intros HF Hsg Hj DJ HNJ Hroom Hlen0 HD0 Hc0 HQ.
  apply (wp_for (fun '(len, idig, jdig, c) m' => exists outs,
      m' = blit m i outs /\ (length outs <= N)%nat /\ len = Z.of_nat (N - length outs) /\
      idig = Z.of_nat (length outs) /\ jdig = idig /\
      Forall is_dig outs /\ 0 <= sg * c <= 1 /\
      dval outs + c * bpow (length outs) =
        dval outs0 + c0 * bpow (length outs0) + dval (take (length outs) J)
        - dval (take (length outs0) J))
      (fun '(len, _, _, _) => Z.to_nat len)).
  - exists outs0. repeat split; [lia|done|lia|lia|lia].
  - lia.
  - intros [[[len idig] jdig] c] m' (outs & -> & Hlen & -> & -> & -> & HD & Hc & Hv) Hgt.
    to_prop. apply wp_bind, (wp_load_blit _ _ _ _ J); [done|lia|lia|]. intros x Hx.
    pose proof (Forall_lookup_dig _ _ _ DJ Hx).
    cbv zeta. rewrite HF, dig_mask, dig_shr by done.
    apply wp_bind, (wp_store_blit _ _ _ N); [done|lia|]. apply wp_ret.
    split; [|lia]. eexists. split; [done|]. rewrite length_app. cbn [length].
    rewrite Nat.add_1_r. pose proof (acc_carry sg c x 0 Hsg Hc ltac:(done) is_dig_0) as Hc'.
    rewrite Z.mul_0_r, Z.add_0_r in Hc'. repeat split; try lia.
    + by apply Forall_app_2, Forall_singleton.
    + rewrite dval_snoc, (dval_take_S _ _ _ Hx), bpow_S.
      pose proof (carry_step (bpow (length outs)) (c + x)). lia.
  - intros [[[len idig] jdig] c] m' (outs & -> & Hlen & -> & -> & -> & HD & Hc & Hv) Hle.
    to_prop. assert (length outs = N) as Hn by lia. rewrite Hn, Nat.sub_diag in *. by apply HQ.
Qed.

(** ** Addition *)

Lemma wp_mpn_add m i j k J K (Q : Z -> blocks -> Prop) :
  holds m j J -> holds m k K -> Forall is_dig J -> Forall is_dig K ->
  (length K <= length J)%nat -> normal J ->
  room m i (length J) ->
  (bpow (length J) <= dval J + dval K -> room m i (S (length J))) ->
  (forall res m', wrote m m' i res -> Forall is_dig res -> normal res ->
     dval res = dval J + dval K -> Q (Z.of_nat (length res)) m') ->
  wp (mpn_add i j (Z.of_nat (length J)) k (Z.of_nat (length K))) m Q.
Proof.
  intros Hj Hk DJ DK Hlen NJ Hroom Hroom' HQ. unfold mpn_add.
  replace (_ - _) with (Z.of_nat (length J - length K)) by lia.
  apply wp_bind.
  apply (wp_acc_loop2 (fun c x y => u32 (c + u32 (x + y))) 1 m i j k J K (length K));
    [|by left|done|done|done|done|done|done| |].
  { intros c x y Hc Hx Hy. unfold is_dig in *. rewrite u32_add_u32, u32_small by lia. lia. }
  { by eapply room_mono. }
  intros outs1 c1 Hl1 D1 Hc1 Hv1. rewrite <-Hl1.
  apply wp_bind.
  apply (wp_acc_loop1 (fun c x => u32 (c + x)) 1 m i j J outs1 c1 (length J));
    [|by left|done|done|done|done|lia|done|done|].
  { intros c x Hc Hx. unfold is_dig in *. apply u32_small. lia. }
  intros outs c Hl D Hc Hv. rewrite Hl1, Hv1, !firstn_all in Hv.
  pose proof (dval_bounds outs D) as Hb. pose proof (bpow_pos (length J)).
  destruct Hroom as (bl & Hbl & Hbll).
  destruct (negb _) eqn:E; to_prop.
  - assert (c = 1) as -> by lia. rewrite Hl in Hb.
    rewrite u16_small by lia. rewrite <-Hl.
    destruct (Hroom' ltac:(lia)) as (bl' & Hbl' & Hbll'). simplify_eq.
    apply wp_bind, (wp_store_blit _ _ _ (S (length outs))); [exists bl; split; [done|lia]|lia|].
    apply wp_ret.
    replace (_ + 1) with (Z.of_nat (length (outs ++ [1]))) by (rewrite length_app; cbn; lia).
    apply HQ.
    + apply (wrote_blit_all _ _ bl); [done|]. rewrite length_app. cbn. lia.
    + apply Forall_app_2; [done|]. apply Forall_singleton. unfold is_dig. lia.
    + by apply normal_snoc.
    + rewrite dval_snoc, Hl. lia.
  - subst c. rewrite <-Hl. apply wp_ret. apply HQ; [|done| |lia].
    + apply (wrote_blit_all _ _ bl); [done|]. lia.
    + apply normal_lower; [done|]. intros Hne. rewrite Hl.
      assert (J <> []) as HJ. { intros ->. by destruct outs. }
      pose proof (dval_lower J DJ NJ HJ). pose proof (dval_bounds K DK). lia.
Qed.

(** ** Subtraction *)

Lemma wp_mpn_sub m i j k J K (Q : Z -> blocks -> Prop) :
  holds m j J -> holds m k K -> Forall is_dig J -> Forall is_dig K ->
  (length K <= length J)%nat -> dval K <= dval J ->
  room m i (length J) ->
  (forall res m', wrote m m' i res -> Forall is_dig res -> normal res ->
     dval res = dval J - dval K -> Q (Z.of_nat (length res)) m') ->
  wp (mpn_sub i j (Z.of_nat (length J)) k (Z.of_nat (length K))) m Q.
Proof.
  intros Hj Hk DJ DK Hlen Hle Hroom HQ. unfold mpn_sub.
  replace (_ - _) with (Z.of_nat (length J - length K)) by lia.
  apply wp_bind.
  apply (wp_acc_loop2 (fun c x y => s32 (u32 (c + u32 (x - y)))) (-1) m i j k J K (length K));
    [|by right|done|done|done|done|done|done| |].
  { intros c x y Hc Hx Hy. unfold is_dig in *. rewrite u32_add_u32, s32_u32 by lia. lia. }
  { by eapply room_mono. }
  intros outs1 c1 Hl1 D1 Hc1 Hv1. rewrite <-Hl1.
  apply wp_bind.
  apply (wp_acc_loop1 (fun c x => s32 (c + x)) (-1) m i j J outs1 c1 (length J));
    [|by right|done|done|done|done|lia|done|done|].
  { intros c x Hc Hx. unfold is_dig in *. apply s32_small. lia. }
  intros outs c Hl D Hc Hv. rewrite Hl1, Hv1, !firstn_all in Hv.
  pose proof (dval_bounds outs D) as Hb. pose proof (bpow_pos (length J)).
  rewrite Hl in Hb. assert (c = 0) as -> by nia.
  destruct Hroom as (bl & Hbl & Hbll). rewrite <-Hl.
  apply (wp_strip _ _ bl); [done|lia|done|]. intros res m' Hw Dr Nr Hr.
  apply HQ; [done..|]. lia.
Qed.

(** ** Correctness of multiplication of digit arrays *)

(** ** Access to a block at a given split of its contents *)

Lemma mem_get_split m b l1 x l2 p :
  m !! b = Some (l1 ++ x :: l2) -> p = Z.of_nat (length l1) ->
  mem_get m b p = Some x.
Proof. intros Hb ->. erewrite mem_get_nat by done. by apply list_lookup_middle. Qed.

Lemma wp_load_split m b l1 x l2 p (Q : Z -> blocks -> Prop) :
  m !! b = Some (l1 ++ x :: l2) -> p = Z.of_nat (length l1) ->
  Q x m -> wp (load b p) m Q.
Proof. intros Hb Hp HQ. by eapply wp_load; [by eapply mem_get_split|]. Qed.

Lemma wp_store_split m b l1 x l2 p v (Q : unit -> blocks -> Prop) :
  m !! b = Some (l1 ++ x :: l2) -> p = Z.of_nat (length l1) ->
  Q tt (<[b := l1 ++ v :: l2]> m) -> wp (store b p v) m Q.
Proof.
  intros Hb Hp HQ. eapply wp_store; [by eapply mem_get_split|]. subst p.
  rewrite Nat2Z.id. replace (alter _ _ _) with (<[b := l1 ++ v :: l2]> m); [done|].
  apply map_eq. intros c. destruct (decide (b = c)) as [->|Hne].
  - rewrite lookup_alter_eq, lookup_insert_eq, Hb. cbn.
    replace (length l1) with (length l1 + 0)%nat by lia. by rewrite insert_app_r.
  - by rewrite lookup_alter_ne, lookup_insert_ne.
Qed.

(** Reading a block other than the one that is being written. *)
Lemma wp_load_insert_ne m b l c C (t : nat) (Q : Z -> blocks -> Prop) :
  b <> c -> holds m c C -> (t < length C)%nat ->
  (forall x, C !! t = Some x -> Q x (<[b := l]> m)) ->
  wp (load c (Z.of_nat t)) (<[b := l]> m) Q.
Proof.
  intros Hne Hc Ht HQ. apply (wp_load_holds _ _ C); [|done|done].
  destruct Hc as [rest Hc]. exists rest. by rewrite lookup_insert_ne.
Qed.

(** ** Multiplication by a digit *)

Lemma wp_mpn_mul_dig_add_dig m i I dmul dadd (Q : Z -> blocks -> Prop) :
  holds m i I -> Forall is_dig I -> normal I ->
  0 < dmul < 65536 -> is_dig dadd ->
  (bpow (length I) <= dval I * dmul + dadd -> room m i (S (length I))) ->
  (forall res m', wrote m m' i res -> Forall is_dig res -> normal res ->
     dval res = dval I * dmul + dadd -> Q (Z.of_nat (length res)) m') ->
  wp (mpn_mul_dig_add_dig i (Z.of_nat (length I)) dmul dadd) m Q.
Proof.
  intros Hi DI NI Hmul Hadd Hroom HQ. unfold mpn_mul_dig_add_dig. apply wp_bind.
  pose proof (holds_length_room _ _ _ Hi) as Hr0. unfold is_dig in Hadd.
  apply (wp_for (fun '(len, idig, c) m' => exists outs,
      m' = blit m i outs /\ (length outs <= length I)%nat /\
      len = Z.of_nat (length I - length outs) /\ idig = Z.of_nat (length outs) /\
      Forall is_dig outs /\ 0 <= c < 65536 /\
      dval outs + c * bpow (length outs) = dval (take (length outs) I) * dmul + dadd)
      (fun '(len, _, _) => Z.to_nat len)).
  - exists []. rewrite blit_nil, take_0. cbn [length]. rewrite Nat.sub_0_r, bpow_0.
    repeat split; [lia|done|lia|lia|cbn; lia].
  - lia.
  - intros [[len idig] c] m' (outs & -> & Hlen & -> & -> & HD & Hc & Hv) Hgt. to_prop.
    apply wp_bind, (wp_load_blit _ _ _ _ I); [done|lia|lia|]. intros x Hx.
    pose proof (Forall_lookup_dig _ _ _ DI Hx). cbv zeta.
    rewrite u32_add_u32, u32_small, dig_mask, dig_shr by nia.
    apply wp_bind, (wp_store_blit _ _ _ (length I)); [done|lia|]. apply wp_ret.
    split; [|lia]. eexists. split; [done|]. rewrite length_app. cbn [length].
    rewrite Nat.add_1_r. repeat split; try lia.
    + by apply Forall_app_2, Forall_singleton.
    + apply Z.div_pos; nia.
    + apply Z.div_lt_upper_bound; nia.
    + rewrite dval_snoc, (dval_take_S _ _ _ Hx), bpow_S.
      pose proof (carry_step (bpow (length outs)) (c + x * dmul)). lia.
  - intros [[len idig] c] m' (outs & -> & Hlen & -> & -> & HD & Hc & Hv) Hle. to_prop.
    assert (length outs = length I) as Hl by lia.
    rewrite Hl, firstn_all in Hv. destruct Hr0 as (bl & Hbl & Hbll).
    pose proof (dval_bounds outs HD) as Hb. rewrite Hl in Hb.
    destruct (negb _) eqn:E; to_prop.
    + rewrite u16_small by lia.
      destruct (Hroom ltac:(nia)) as (bl' & Hbl' & Hbll'). simplify_eq.
      apply wp_bind, (wp_store_blit _ _ _ (S (length I))); [by exists bl|lia|].
      apply wp_ret.
      replace (_ + 1) with (Z.of_nat (length (outs ++ [c]))) by (rewrite length_app; cbn; lia).
      apply HQ; [| |by apply normal_snoc|rewrite dval_snoc, Hl; lia].
      * apply (wrote_blit_all _ _ bl); [done|]. rewrite length_app. cbn. lia.
      * apply Forall_app_2; [done|]. by apply Forall_singleton.
    + apply wp_ret, HQ; [apply (wrote_blit_all _ _ bl); [done|lia]|done| |lia].
      apply normal_lower; [done|]. intros Hne. rewrite Hl.
      assert (I <> []) as HI. { intros ->. by destruct outs. }
      pose proof (dval_lower I DI NI HI). nia.
Qed.

(** ** Multiplication *)

(** One row: [C := C + J * y], digit by digit, at the position after [A].  The
    row is followed by a zero digit, which receives the final carry. *)
Lemma wp_mul_row m i j k A C rest W J (y : Z) (kdig jlen idig : Z)
    (Q : Z * Z * Z * Z -> blocks -> Prop) :
  i <> j -> i <> k -> is_Some (m !! i) ->
  holds m j J -> Forall is_dig J -> Forall is_dig C -> length C = length J ->
  jlen = Z.of_nat (length J) -> idig = Z.of_nat (length A) -> W = A ++ C ++ rest ->
  is_dig y -> mem_get m k kdig = Some y ->
  (forall outs c, length outs = length J -> Forall is_dig outs -> is_dig c ->
     dval outs + c * bpow (length J) = dval C + dval J * y ->
     Q (0, Z.of_nat (length A + length J), jlen, c) (<[i := A ++ outs ++ rest]> m)) ->
  wp (for_ (Z.to_nat jlen + 1) (fun '(jl, _, _, _) => jl >? 0)
       (fun '(jl, id, jd, carry) =>
          w ← load i id; x ← load j jd; y ← load k kdig;
          let carry := u32 (carry + u32 (w + u32 (x * y))) in
          _ ← store i id (Z.land carry DIG_MASK);
          mret (jl - 1, id + 1, jd + 1, Z.shiftr carry DIG_SIZE))
       (jlen, idig, 0, 0)) (<[i := W]> m) Q.
Proof.
  intros Hij Hik Hi Hj DJ DC HlC -> -> -> Dy Hy HQ. unfold is_dig in Dy.
  apply (wp_for (fun '(jl, id, jd, c) m' => exists outs C', m' = <[i := A ++ outs ++ C' ++ rest]> m /\
      C' = drop (length outs) C /\ (length outs <= length J)%nat /\
      jl = Z.of_nat (length J - length outs) /\
      id = Z.of_nat (length A + length outs) /\ jd = Z.of_nat (length outs) /\
      Forall is_dig outs /\ 0 <= c < 65536 /\
      dval outs + c * bpow (length outs) =
        dval (take (length outs) C) + dval (take (length outs) J) * y)
      (fun '(jl, _, _, _) => Z.to_nat jl)).
  - exists [], C. rewrite !take_0, drop_0. cbn [length app]. rewrite Nat.sub_0_r, Nat.add_0_r, bpow_0.
    repeat split; try lia; done.
  - lia.
  - intros [[[jl id] jd] c] m' (outs & C' & -> & -> & Hlen & -> & -> & -> & HD & Hc & Hv) Hgt. to_prop.
    destruct (lookup_lt_is_Some_2 C (length outs) ltac:(lia)) as [w Hw].
    pose proof (Forall_lookup_dig _ _ _ DC Hw). rewrite (drop_S C w) by done.
    apply wp_bind, (wp_load_split _ _ (A ++ outs) w (drop (S (length outs)) C ++ rest)).
    { rewrite lookup_insert_eq. by rewrite <-app_assoc. }
    { by rewrite length_app. }
    apply wp_bind, (wp_load_insert_ne _ _ _ _ J); [done|done|lia|]. intros x Hx.
    pose proof (Forall_lookup_dig _ _ _ DJ Hx).
    apply wp_bind, (wp_load _ _ _ y).
    { unfold mem_get in *. by rewrite lookup_insert_ne. }
    cbv zeta. assert (0 <= x * y <= 65535 * 65535) by nia.
    rewrite (u32_small (x * y)), u32_add_u32, u32_small, dig_mask, dig_shr by lia.
    apply wp_bind, (wp_store_split _ _ (A ++ outs) w (drop (S (length outs)) C ++ rest)).
    { rewrite lookup_insert_eq. by rewrite <-app_assoc. }
    { by rewrite length_app. }
    apply wp_ret. split; [|lia]. rewrite insert_insert_eq.
    eexists (outs ++ [_]), (drop (S (length outs)) C). rewrite !length_app. cbn [length].
    rewrite Nat.add_1_r. split; [by rewrite <-!app_assoc|]. repeat split; try lia.
    + by apply Forall_app_2, Forall_singleton.
    + apply Z.div_pos; lia.
    + apply Z.div_lt_upper_bound; lia.
    + rewrite dval_snoc, (dval_take_S _ _ _ Hx), (dval_take_S _ _ _ Hw), bpow_S.
      pose proof (carry_step (bpow (length outs)) (c + (w + x * y))). lia.
  - intros [[[jl id] jd] c] m' (outs & C' & -> & -> & Hlen & -> & -> & -> & HD & Hc & Hv) Hle. to_prop.
    assert (length outs = length J) as Hl by lia. rewrite Hl, Nat.sub_diag.
    rewrite (drop_ge C) by lia. cbn [app]. rewrite Hl in Hv.
    rewrite !take_ge in Hv by lia. by apply HQ.
Qed.

(** The digits of [i] from index [0] on are zero; the product is written to them. *)
Lemma wp_mpn_mul m i j k J K rest (Q : Z -> blocks -> Prop) :
  i <> j -> i <> k -> holds m j J -> holds m k K ->
  Forall is_dig J -> Forall is_dig K -> normal J -> normal K -> J <> [] -> K <> [] ->
  m !! i = Some (replicate (length J + length K) 0 ++ rest) ->
  (forall res m', wrote m m' i res -> Forall is_dig res -> normal res ->
     dval res = dval J * dval K -> Q (Z.of_nat (length res)) m') ->
  wp (mpn_mul i j (Z.of_nat (length J)) k (Z.of_nat (length K))) m Q.
Proof.
  intros Hij Hik Hj Hk DJ DK NJ NK NeJ NeK Hi HQ. unfold mpn_mul. apply wp_bind.
  assert (0 < length K)%nat as HlK by (destruct K; [done|cbn; lia]).
  apply (wp_for (fun '(len, idig, kdig, ilen) m' => exists (W : list Z) (t : nat),
      (t <= length K)%nat /\ len = Z.of_nat (length K - t) /\
      idig = Z.of_nat t /\ kdig = Z.of_nat t /\
      m' = <[i := W ++ replicate (length K - t) 0 ++ rest]> m /\
      length W = (length J + t)%nat /\ Forall is_dig W /\
      dval W = dval J * dval (take t K) /\
      ((0 < t)%nat -> ilen = Z.of_nat (length W) /\ normal W \/
         ilen = Z.of_nat (length W) - 1 /\ last W = Some 0))
      (fun '(len, _, _, _) => Z.to_nat len)).
  - exists (replicate (length J) 0), 0%nat. rewrite Nat.sub_0_r, length_replicate, take_0, dval_zeros.
    rewrite insert_id; [|rewrite Hi; by rewrite replicate_add, <-app_assoc].
    repeat split; [lia|lia|by apply Forall_replicate|cbn; lia|lia].
  - lia.
  - intros [[[len idig] kdig] ilen] m' (W & t & Ht & -> & -> & -> & -> & HlW & DW & HvW & _) Hgt. to_prop.
    destruct (lookup_lt_is_Some_2 K t ltac:(lia)) as [y Hy].
    pose proof (Forall_lookup_dig _ _ _ DK Hy) as Dy.
    pose proof (Forall_take is_dig t W DW) as DA. pose proof (Forall_drop is_dig t W DW) as DC.
    assert (length (take t W) = t) as HlT by (apply length_take_le; lia).
    apply wp_bind.
    apply (wp_mul_row m i j k (take t W) (drop t W) (replicate (length K - t) 0 ++ rest) _ J y);
      [done|done|done|done|done|done| |done|by rewrite HlT| |done| |].
    { rewrite length_drop. lia. }
    { by rewrite (app_assoc (take t W)), take_drop. }
    { destruct Hk as [rk Hk]. erewrite mem_get_nat by done. rewrite lookup_app_l; [done|lia]. }
    intros outs c Hlo Do Dc Hv. rewrite HlT.
    destruct (length K - t)%nat as [|n] eqn:En; [lia|]. cbn [replicate app].
    assert (dval (take t W ++ outs ++ [c]) = dval J * dval (take (S t) K)) as Hval.
    { rewrite !dval_app, HlT, Hlo, (dval_take_S _ _ _ Hy), dval_cons. cbn [dval foldr].
      rewrite <-(take_drop t W), dval_app, HlT in HvW. nia. }
    apply wp_bind.
    apply (wp_mono _ _ (fun id m' => m' = <[i := (take t W ++ outs ++ [c]) ++ replicate n 0 ++ rest]> m /\
      (id = Z.of_nat (t + length J + 1) /\ c <> 0 \/ id = Z.of_nat (t + length J + 1) - 1 /\ c = 0))).
    + destruct (negb _) eqn:E; to_prop.
      * unfold is_dig in Dc. rewrite u16_small by lia.
        apply wp_bind, (wp_store_split _ _ (take t W ++ outs) 0 (replicate n 0 ++ rest)).
        { rewrite lookup_insert_eq. by rewrite <-app_assoc. }
        { rewrite length_app. lia. }
        apply wp_ret. rewrite insert_insert_eq, <-!app_assoc. split; [done|]. left. split; [lia|done].
      * subst c. apply wp_ret. rewrite <-!app_assoc. split; [done|]. right. split; [lia|done].
    + intros id m' [-> Hid]. apply wp_ret. split; [|lia].
      exists (take t W ++ outs ++ [c]), (S t). rewrite !length_app, HlT, Hlo. cbn [length].
      replace (length K - S t)%nat with n by lia. repeat split; try lia; try done.
      * apply Forall_app_2; [done|]. apply Forall_app_2; [done|]. by apply Forall_singleton.
      * intros _. rewrite app_assoc.
        destruct Hid as [[-> Hc] | [-> ->]]; [left; split; [lia|by apply normal_snoc]|].
        right. split; [lia|]. apply last_snoc.
  - intros [[[len idig] kdig] ilen] m' (W & t & Ht & -> & -> & -> & -> & HlW & DW & HvW & Hil) Hle.
    to_prop. assert (t = length K) as -> by lia. rewrite firstn_all in HvW.
    rewrite Nat.sub_diag. cbn [replicate app]. apply wp_ret.
    pose proof (dval_lower J DJ NJ NeJ). pose proof (dval_lower K DK NK NeK).
    assert (bpow (length J + length K - 2) <= dval W) as Hlow.
    { rewrite HvW. replace (length J + length K - 2)%nat with (length J - 1 + (length K - 1))%nat
        by (destruct J; [done|cbn; lia]).
      rewrite bpow_add. pose proof (bpow_pos (length J - 1)). pose proof (bpow_pos (length K - 1)). nia. }
    assert (forall res zs, W = res ++ zs -> wrote m (<[i := W ++ rest]> m) i res) as Hw.
    { intros res zs ->. eexists _, _. split; [done|]. split; [done|]. split.
      - rewrite !length_app, length_replicate in *. lia.
      - exists (zs ++ rest). by rewrite <-app_assoc. }
    destruct (Hil HlK) as [[-> HnW] | [-> Hlast]].
    + apply HQ; [|done|done|done]. apply (Hw W []). by rewrite app_nil_r.
    + apply last_Some in Hlast as [res ->]. rewrite length_app in *. cbn in *.
      replace (_ - 1) with (Z.of_nat (length res)) by lia.
      apply Forall_app in DW as [Dr _]. rewrite dval_snoc, Z.mul_0_r, Z.add_0_r in *.
      apply HQ; [by apply (Hw res [0])|done| |done].
      apply normal_lower; [done|]. intros _.
      replace (length res - 1)%nat with (length J + length K - 2)%nat by lia. done.
Qed.
