(* ===== verification/MpnShift.v ===== *)
(** * Correctness of the shifts of digit arrays *)
From S2P Require Import Prelude.
From S2P Require Import CMem.
From S2P Require Import Mpn.
From S2P Require Import Digits.
From S2P Require Import MpnArith.
Local Open Scope Z_scope.

(** ** Right shift *)

(** Two adjacent digits of a number, as the code reads them. *)
Lemma dval_two_digits l t x :
  Forall is_dig l -> l !! t = Some x ->
  (dval l / bpow t) `mod` (65536 * 65536) =
    x + 65536 * (if decide (S t < length l)%nat then default 0 (l !! S t) else 0).
Proof.
  intros Hl Hx. pose proof (lookup_lt_Some _ _ _ Hx) as Ht.
  rewrite (lookup_split_at l t x Hx) at 1. rewrite dval_app, length_take_le by lia.
  pose proof (dval_take_bounds l t Hl ltac:(lia)). pose proof (bpow_pos t).
  rewrite (Z.mul_comm (bpow t)), Z.div_add, Z.div_small, Z.add_0_l by lia.
  rewrite dval_cons. pose proof (Forall_lookup_dig _ _ _ Hl Hx).
  destruct (l !! S t) as [y|] eqn:Hy.
  - pose proof (lookup_lt_Some _ _ _ Hy). rewrite decide_True by lia. cbn.
    rewrite (drop_S l y) by done. rewrite dval_cons.
    pose proof (Forall_lookup_dig _ _ _ Hl Hy).
    replace (x + _) with (x + 65536 * y + dval (drop (S (S t)) l) * (65536 * 65536)) by lia.
    rewrite Z_mod_plus_full, Z.mod_small by lia. done.
  - apply lookup_ge_None in Hy. rewrite decide_False by lia. rewrite drop_ge by lia.
    cbn [dval foldr]. rewrite Z.mod_small by lia. done.
Qed.

(** A digit of a number shifted right by less than a digit. *)
Lemma shifted_digit v p t :
  0 <= p <= 16 -> 0 <= v ->
  (((v / bpow t) `mod` (65536 * 65536)) / 2 ^ p) `mod` 65536 = (v / 2 ^ p / bpow t) `mod` 65536.
Proof.
  intros Hp Hv. pose proof (bpow_pos t).
  rewrite (Z.div_div v), (Z.mul_comm (2 ^ p)), <-Z.div_div by lia.
  set (y := v / bpow t). change (65536 * 65536) with (2 ^ 32). change 65536 with (2 ^ 16).
  apply Z.bits_inj'. intros n Hn. destruct (decide (n < 16)).
  - rewrite !Z.mod_pow2_bits_low, !Z.div_pow2_bits by lia.
    rewrite Z.mod_pow2_bits_low by lia. done.
  - rewrite !Z.mod_pow2_bits_high by lia. done.
Qed.

Lemma mod_bpow_S v t :
  v `mod` bpow (S t) = v `mod` bpow t + bpow t * ((v / bpow t) `mod` 65536).
Proof.
  pose proof (bpow_pos t). rewrite bpow_S, Z.mul_comm.
  rewrite Z.rem_mul_r by lia. done.
Qed.

Lemma wp_mpn_shr m i j J n (Q : Z -> blocks -> Prop) :
  holds m j J -> Forall is_dig J -> normal J -> 0 <= n ->
  room m i (length J - Z.to_nat (n / 16)) ->
  (forall res m', (res = [] /\ m' = m) \/ wrote m m' i res -> Forall is_dig res -> normal res ->
     dval res = dval J / 2 ^ n -> (length res <= length J - Z.to_nat (n / 16))%nat ->
     Q (Z.of_nat (length res)) m') ->
  wp (mpn_shr i j (Z.of_nat (length J)) n) m Q.
Proof.
  intros Hj DJ NJ Hn Hroom HQ. unfold mpn_shr, DIG_SIZE.
  set (w := Z.to_nat (n / 16)) in *. set (p := n `mod` 16).
  assert (0 <= p < 16) as Hp by (apply Z.mod_pos_bound; lia).
  assert (n / 16 = Z.of_nat w) as Hw by (unfold w; pose proof (Z.div_pos n 16); lia).
  assert (2 ^ n = bpow w * 2 ^ p) as H2n.
  { rewrite bpow_pow2, <-Z.pow_add_r by lia. f_equal. unfold p. rewrite <-Hw. 
    pose proof (Z.div_mod n 16). lia. }
  pose proof (dval_bounds J DJ) as HJ. rewrite Hw.
  destruct (_ >=? _) eqn:E; to_prop.
  { apply wp_ret. apply (HQ [] m); [by left|done|done| |cbn; lia].
    cbn. symmetry. apply Z.div_small. rewrite H2n.
    pose proof (bpow_mono (length J) w ltac:(lia)). pose proof (bpow_pos w). nia. }
  assert (w < length J)%nat as HwJ by lia. clear E.
  replace (Z.of_nat (length J) - Z.of_nat w) with (Z.of_nat (length J - w)) by lia.
  set (D := drop w J). assert (length D = length J - w)%nat as HlD by (unfold D; by rewrite length_drop).
  assert (Forall is_dig D) as DD by by apply Forall_drop.
  assert (dval D = dval J / bpow w) as HvD.
  { rewrite <-(take_drop w J) at 1. rewrite dval_app, length_take_le by lia. fold D.
    pose proof (dval_take_bounds J w DJ ltac:(lia)). pose proof (bpow_pos w).
    rewrite (Z.mul_comm (bpow w)), Z.div_add, Z.div_small by lia. lia. }
  pose proof (dval_bounds D DD) as HbD.
  apply wp_bind.
  apply (wp_for (fun '(k, idig, jdig) m' => exists outs, m' = blit m i outs /\
      (length outs <= length D)%nat /\ k = Z.of_nat (length D - length outs) /\
      idig = Z.of_nat (length outs) /\ jdig = Z.of_nat (w + length outs) /\
      Forall is_dig outs /\ dval outs = (dval D / 2 ^ p) `mod` bpow (length outs))
      (fun '(k, _, _) => Z.to_nat k)).
  - exists []. rewrite blit_nil, <-HlD. cbn [length]. rewrite Nat.sub_0_r, Nat.add_0_r, bpow_0, Z.mod_1_r.
    repeat split; try lia; done.
  - lia.
  - intros [[k idig] jdig] m' (outs & -> & Hlen & -> & -> & -> & HD & Hv) Hgt. to_prop.
    apply wp_bind, (wp_load_blit _ _ _ _ J); [done|lia|lia|]. intros x Hx.
    rewrite <-lookup_drop in Hx. fold D in Hx.
    apply wp_bind. apply (wp_mono _ _ (fun d m' => m' = blit m i outs /\
      d = (dval D / bpow (length outs)) `mod` (65536 * 65536))).
    { rewrite (dval_two_digits _ _ _ DD Hx).
      destruct (_ >? 1) eqn:E; to_prop.
      - replace (_ + 1) with (Z.of_nat (w + S (length outs))) by lia.
        apply wp_bind, (wp_load_blit _ _ _ _ J); [done|lia|lia|]. intros y Hy.
        rewrite <-lookup_drop in Hy. fold D in Hy. apply wp_ret. split; [done|].
        rewrite decide_True, Hy by lia. cbn [default]. rewrite dig_shl, Z.lor_comm.
        pose proof (Forall_lookup_dig _ _ _ DD Hx). pose proof (Forall_lookup_dig _ _ _ DD Hy).
        rewrite u32_small, dig_lor by lia. unfold id. lia.
      - apply wp_ret. split; [done|]. rewrite decide_False by lia. lia. }
    intros d m' [-> ->]. cbv zeta. rewrite dig_mask, shiftr_div by lia.
    rewrite shifted_digit by lia.
    apply wp_bind, (wp_store_blit _ _ _ (length J - w)); [done|lia|]. apply wp_ret.
    split; [|lia]. eexists. split; [done|]. rewrite length_app. cbn [length].
    rewrite Nat.add_1_r. repeat split; try lia.
    + by apply Forall_app_2, Forall_singleton.
    + rewrite dval_snoc, mod_bpow_S, Hv. lia.
  - intros [[k idig] jdig] m' (outs & -> & Hlen & -> & -> & -> & HD & Hv) Hle. to_prop.
    assert (length outs = length D) as Hl by lia.
    destruct Hroom as (bl & Hbl & Hbll).
    assert (dval outs = dval J / 2 ^ n) as Hres.
    { rewrite Hv, H2n, <-Z.div_div, <-HvD by (pose proof (bpow_pos w); lia).
      apply Z.mod_small. rewrite Hl. split; [apply Z.div_pos; lia|].
      apply Z.div_lt_upper_bound; [lia|]. nia. }
    destruct outs as [|d outs _] using rev_ind; [cbn in Hl; lia|].
    rewrite length_app in *. cbn [length] in *.
    replace (Z.of_nat (length outs + 1) - 1) with (Z.of_nat (length outs)) by lia.
    apply wp_bind, (wp_load_split _ _ outs d (drop (length outs + 1) bl)); [|done|].
    { erewrite lookup_blit_eq by done. rewrite length_app. by rewrite <-app_assoc. }
    apply wp_ret. destruct (d =? 0) eqn:E; to_prop.
    + subst d. replace (_ - 1) with (Z.of_nat (length outs)) by lia.
      apply Forall_app in HD as [Do _]. rewrite dval_snoc, Z.mul_0_r, Z.add_0_r in Hres.
      apply HQ; [right; apply (wrote_blit _ _ bl _ [0]); [done|cbn; lia]|done| |done|lia].
      apply normal_lower; [done|]. intros Hne.
      assert (D <> []) as HDne by (intros HD0; rewrite HD0 in Hl; cbn in Hl; lia).
      assert (normal D) as ND.
      { unfold normal in *. rewrite <-(take_drop w J), last_app in NJ. fold D in NJ.
        destruct (last D) eqn:HlD'; [done|]. by apply last_None in HlD'. }
      pose proof (dval_lower D DD ND HDne) as HlowD.
      rewrite Hres, H2n, <-Z.div_div, <-HvD by (pose proof (bpow_pos w); lia).
      apply Z.div_le_lower_bound; [lia|].
      replace (length D - 1)%nat with (S (length outs - 1)) in HlowD
        by (destruct outs; [done|cbn in *; lia]).
      rewrite bpow_S in HlowD. pose proof (bpow_pos (length outs - 1)).
      assert (2 ^ p <= 2 ^ 16) by (apply Z.pow_le_mono_r; lia). nia.
    + replace (length J - w)%nat with (length (outs ++ [d])) by (rewrite length_app; cbn; lia).
      apply HQ; [right; apply (wrote_blit_all _ _ bl); [done|rewrite length_app; cbn; lia]|done
                |by apply normal_snoc|done|rewrite length_app; cbn; lia].
Qed.

(** ** Left shift *)

Lemma shl_digit h x p :
  1 <= p <= 16 -> 0 <= h -> 0 <= x < 65536 ->
  (((h `mod` 65536) * 65536 + x) / 2 ^ (16 - p)) `mod` 65536 + 65536 * (h * 2 ^ p / 65536) =
  (x + 65536 * h) * 2 ^ p / 65536.
Proof.
  intros Hp Hh Hx. set (a := 2 ^ p). set (b := 2 ^ (16 - p)).
  assert (0 < a) by (unfold a; lia). assert (0 < b) by (unfold b; lia).
  assert (a * b = 65536) as Hab.
  { unfold a, b. rewrite <-Z.pow_add_r by lia. by replace (p + (16 - p)) with 16 by lia. }
  assert ((h `mod` 65536 * 65536 + x) / b = (h `mod` 65536) * a + x / b) as ->.
  { rewrite <-Hab at 2. rewrite (Z.mul_assoc _ a b), Z.div_add_l by lia. done. }
  assert ((x + 65536 * h) * a / 65536 = h * a + x / b) as ->.
  { replace ((x + 65536 * h) * a) with ((h * a) * 65536 + x * a) by lia.
    rewrite Z.div_add_l by lia. rewrite <-Hab. rewrite (Z.mul_comm x a).
    by rewrite Z.div_mul_cancel_l by lia. }
  assert (0 <= x / b < a) as Hxb.
  { split; [apply Z.div_pos; lia|]. apply Z.div_lt_upper_bound; lia. }
  assert ((h `mod` 65536 * a + x / b) `mod` 65536 = (h * a + x / b) `mod` 65536) as ->.
  { rewrite <-Z.add_mod_idemp_l, Z.mul_mod_idemp_l, Z.add_mod_idemp_l by lia. done. }
  assert (h * a / 65536 = (h * a + x / b) / 65536) as ->.
  { rewrite <-Hab, <-!Z.div_div, Z.div_mul, Z.div_add_l by lia.
    by rewrite (Z.div_small (x / b)), Z.add_0_r by lia. }
  pose proof (Z.div_mod (h * a + x / b) 65536). lia.
Qed.

Lemma wp_load_low m i l j J (t : nat) p outs (Q : Z -> blocks -> Prop) :
  m !! i = Some l -> holds m j J -> (t < length J)%nat -> (t < p)%nat -> (p <= length l)%nat ->
  (forall x, J !! t = Some x -> Q x (<[i := take p l ++ outs]> m)) ->
  wp (load j (Z.of_nat t)) (<[i := take p l ++ outs]> m) Q.
Proof.
  intros Hl [rest Hj] Ht Hp Hpl HQ. destruct (lookup_lt_is_Some_2 J t Ht) as [x Hx].
  apply (wp_load _ _ _ x); [|by apply HQ]. destruct (decide (i = j)) as [->|Hne].
  - erewrite mem_get_nat by apply lookup_insert_eq.
    rewrite lookup_app_l by (rewrite length_take; lia).
    rewrite lookup_take_lt by lia. simplify_eq. by rewrite lookup_app_l.
  - erewrite mem_get_nat by by rewrite lookup_insert_ne. by rewrite lookup_app_l.
Qed.

Lemma wp_memset_dig m i n (Q : unit -> blocks -> Prop) :
  room m i n -> Q tt (blit m i (replicate n 0)) -> wp (memset_dig i 0 (Z.of_nat n)) m Q.
Proof.
  intros Hroom HQ. unfold memset_dig. apply wp_bind.
  apply (wp_for (fun k m' => exists t : nat, (t <= n)%nat /\ k = Z.of_nat t /\
      m' = blit m i (replicate t 0)) (fun k => Z.to_nat (Z.of_nat n - k))).
  - exists 0%nat. rewrite blit_nil. repeat split; lia.
  - lia.
  - intros k m' (t & Ht & -> & ->) Hlt. to_prop. cbn [Z.add].
    replace (Z.of_nat t) with (Z.of_nat (length (replicate t 0))) at 1 by by rewrite length_replicate.
    apply wp_bind. rewrite Z.add_0_l. apply (wp_store_blit _ _ _ n); [done|rewrite length_replicate; lia|].
    apply wp_ret. split; [|lia]. exists (S t). repeat split; [lia..|].
    by rewrite replicate_S_end.
  - intros k m' (t & Ht & -> & ->) Hge. to_prop. assert (t = n) as -> by lia. by apply wp_ret.
Qed.

(** The loops that end [mpn_shl] and [mpn_div]. *)
Lemma wp_strip_loop m i outs (c : Z -> bool) (ix : Z -> Z) (Q : Z -> blocks -> Prop) fuel :
  c 0 = false -> (forall n, 0 < n -> c n = true) -> (forall n, ix n = n - 1) ->
  holds m i outs -> (length outs < fuel)%nat ->
  (forall res zs, outs = res ++ zs -> dval zs = 0 -> normal res ->
     Q (Z.of_nat (length res)) m) ->
  wp (while fuel
       (fun len => if c len then x ← load i (ix len); mret (x =? 0) else mret false)
       (fun len => mret (len - 1)) (Z.of_nat (length outs))) m Q.
Proof.
  intros Hc0 Hc Hix Hh Hf HQ.
  apply (wp_while (fun len m' => m' = m /\ exists res zs, outs = res ++ zs /\
           dval zs = 0 /\ len = Z.of_nat (length res)) (fun len => Z.to_nat len)).
  - split; [done|]. exists outs, []. by rewrite app_nil_r.
  - lia.
  - intros len m' (-> & res & zs & Houts & Hzs & ->).
    destruct res as [|d res _] using rev_ind.
    + cbn [length]. change (Z.of_nat 0) with 0. rewrite Hc0. by apply (HQ [] zs).
    + rewrite length_app. cbn [length]. rewrite Hc, Hix by lia.
      apply wp_bind. replace (_ - 1) with (Z.of_nat (length res)) by lia.
      eapply wp_load_holds; [done| |].
      { rewrite Houts, !length_app. cbn. lia. }
      intros x Hx. apply wp_ret. rewrite Houts, <-app_assoc in Hx. cbn in Hx.
      rewrite list_lookup_middle in Hx by done. simplify_eq.
      destruct (x =? 0) eqn:Ex; to_prop.
      * apply wp_ret. split; [|lia]. split; [done|]. exists res, (x :: zs).
        subst x. rewrite dval_cons, <-app_assoc. cbn [app]. repeat split; lia.
      * replace (length res + 1)%nat with (length (res ++ [x])) by (by rewrite length_app).
        by apply (HQ _ zs); [|done|apply normal_snoc].
Qed.

(** Number of digits the result of a left shift needs on top of the operand. *)
Definition shl_whole (n : Z) : nat := Z.to_nat ((n + 15) / 16).

(** The digit loop of [mpn_shl]: it writes the digits of [J * 2 ^ p] above the
    lowest one, from the top down. *)
Lemma wp_shl_loop m i j J l (w : nat) p (jlen idig jdig : Z)
    (Q : Z * Z * Z * Z -> blocks -> Prop) :
  holds m j J -> Forall is_dig J -> m !! i = Some l -> (1 <= w)%nat ->
  (length J + w <= length l)%nat -> 1 <= p <= 16 ->
  jlen = Z.of_nat (length J) -> idig = Z.of_nat (length J + w) - 1 -> jdig = jlen - 1 ->
  (forall outs, length outs = length J -> Forall is_dig outs ->
     dval outs = dval J * 2 ^ p / 65536 ->
     Q (0, Z.of_nat w - 1, -1, (dval J `mod` 65536) * 65536)
       (<[i := take w l ++ outs ++ drop (length J + w) l]> m)) ->
  wp (for_ (Z.to_nat jlen + 1) (fun '(k, _, _, _) => k >? 0)
    (fun '(k, idig, jdig, d) =>
       x ← load j jdig;
       let d := Z.lor d x in
       _ ← store i idig (Z.land (Z.shiftr d (16 - p)) DIG_MASK);
       mret (k - 1, idig - 1, jdig - 1, u32 (Z.shiftl d DIG_SIZE)))
    (jlen, idig, jdig, 0)) m Q.
Proof.
  intros Hj DJ Hl Hw Hlen Hp -> -> -> HQ.
  apply (wp_for (fun '(k, idig, jdig, d) m' => exists (outs : list Z) (s : nat),
      (s <= length J)%nat /\ length outs = s /\ k = Z.of_nat (length J - s) /\
      idig = Z.of_nat (length J + w - s) - 1 /\ jdig = Z.of_nat (length J - s) - 1 /\
      Forall is_dig outs /\
      d = (dval (drop (length J - s) J) `mod` 65536) * 65536 /\
      dval outs = dval (drop (length J - s) J) * 2 ^ p / 65536 /\
      m' = <[i := take (length J + w - s) l ++ outs ++ drop (length J + w) l]> m)
      (fun '(k, _, _, _) => Z.to_nat k)).
  - exists [], 0%nat. rewrite !Nat.sub_0_r, drop_all. cbn [app length]. rewrite take_drop.
    rewrite insert_id by done. repeat split; try lia; done.
  - lia.
  - intros [[[k idig] jdig] d] m' (outs & s & Hs & Hlo & -> & -> & -> & HD & -> & Hv & ->) Hgt. to_prop.
    replace (Z.of_nat (length J - s) - 1) with (Z.of_nat (length J - S s)) by lia.
    apply wp_bind, (wp_load_low _ _ _ _ J); [done|done|lia|lia|lia|]. intros x Hx.
    pose proof (Forall_lookup_dig _ _ _ DJ Hx). cbv zeta.
    set (h := dval (drop (length J - s) J)) in *.
    assert (0 <= h) by (unfold h; apply dval_bounds; by apply Forall_drop).
    assert (dval (drop (length J - S s) J) = x + 65536 * h) as Hh.
    { rewrite (drop_S J x) by done. rewrite dval_cons. unfold h.
      by replace (S (length J - S s)) with (length J - s)%nat by lia. }
    rewrite !dig_lor by lia.
    rewrite dig_mask, shiftr_div, dig_shl by lia.
    destruct (lookup_lt_is_Some_2 l (length J + w - S s) ltac:(lia)) as [y Hy].
    apply wp_bind, (wp_store_split _ _ (take (length J + w - S s) l) y (outs ++ drop (length J + w) l)).
    { rewrite lookup_insert_eq. f_equal.
      replace (length J + w - s)%nat with (S (length J + w - S s)) by lia.
      rewrite (take_S_snoc _ _ y) by done. by rewrite <-app_assoc. }
    { rewrite length_take. lia. }
    rewrite insert_insert_eq. apply wp_ret. split; [|lia].
    exists ((((h `mod` 65536) * 65536 + x) / 2 ^ (16 - p)) `mod` 65536 :: outs), (S s). rewrite Hh. split; [lia|]. split; [cbn; lia|].
    split; [lia|]. split; [lia|]. split; [lia|]. split; [by apply Forall_cons|].
    split; [|split].
    + unfold uwrap. change (2 ^ 32) with (65536 * 65536).
      rewrite Z.mul_mod_distr_r by lia. f_equal.
      rewrite Z.add_comm, Z_mod_plus_full, (Z.mul_comm 65536), Z_mod_plus_full. done.
    + rewrite dval_cons, Hv. by apply shl_digit.
    + done.
  - intros [[[k idig] jdig] d] m' (outs & s & Hs & Hlo & -> & -> & -> & HD & -> & Hv & ->) Hle. to_prop.
    assert (s = length J) as -> by lia. rewrite Nat.sub_diag, drop_0 in *.
    replace (length J + w - length J)%nat with w by lia. by apply HQ.
Qed.

Lemma wp_mpn_shl m i j J n (Q : Z -> blocks -> Prop) :
  holds m j J -> Forall is_dig J -> 0 < n < 2 ^ 32 - 15 ->
  room m i (length J + shl_whole n) ->
  (forall res m', wrote m m' i res -> Forall is_dig res -> normal res ->
     dval res = dval J * 2 ^ n -> Q (Z.of_nat (length res)) m') ->
  wp (mpn_shl i j (Z.of_nat (length J)) n) m Q.
Proof.
  intros Hj DJ Hn (l & Hl & Hlen) HQ. unfold mpn_shl, DIG_SIZE.
  rewrite u32_small by lia. replace (n + 16 - 1) with (n + 15) by lia.
  set (w := shl_whole n) in *.
  assert ((n + 15) / 16 = Z.of_nat w) as Hw.
  { unfold w, shl_whole. pose proof (Z.div_pos (n + 15) 16). lia. }
  rewrite Hw. set (p := if n `mod` 16 =? 0 then 16 else n `mod` 16).
  pose proof (Z.div_mod (n + 15) 16 ltac:(lia)) as Hdm.
  pose proof (Z.mod_pos_bound (n + 15) 16 ltac:(lia)).
  pose proof (Z.div_mod n 16 ltac:(lia)). pose proof (Z.mod_pos_bound n 16 ltac:(lia)).
  assert (1 <= p <= 16 /\ n = 16 * (Z.of_nat w - 1) + p) as [Hp Hnp].
  { unfold p. destruct (_ =? 0) eqn:E; to_prop; lia. }
  assert (1 <= w)%nat as Hw1 by lia.
  assert (2 ^ n = bpow (w - 1) * 2 ^ p) as H2n.
  { rewrite bpow_pow2, <-Z.pow_add_r by lia. f_equal. lia. }
  apply wp_bind, (wp_shl_loop _ _ _ J l w p); try done; [lia|].
  intros outs Hlo Do Hvo. cbv beta iota. rewrite dig_mask, shiftr_div by lia.
  set (low := _ `mod` 65536).
  assert (low + 65536 * dval outs = dval J * 2 ^ p) as Hlow.
  { rewrite Hvo. unfold low. pose proof (dval_bounds J DJ).
    pose proof (shl_digit (dval J) 0 p Hp ltac:(lia) ltac:(lia)) as Hd.
    rewrite Z.add_0_r in Hd. rewrite Hd.
    replace ((0 + 65536 * dval J) * 2 ^ p) with ((dval J * 2 ^ p) * 65536) by lia.
    by rewrite Z.div_mul by lia. }
  destruct (lookup_lt_is_Some_2 l (w - 1) ltac:(lia)) as [y Hy].
  apply wp_bind, (wp_store_split _ _ (take (w - 1) l) y (outs ++ drop (length J + w) l)).
  { rewrite lookup_insert_eq. f_equal. replace w with (S (w - 1)) at 1 by lia.
    rewrite (take_S_snoc _ _ y) by done. by rewrite <-app_assoc. }
  { rewrite length_take. lia. }
  rewrite insert_insert_eq. replace (Z.of_nat w - 1 - _) with 0 by lia.
  replace (Z.of_nat w - 1) with (Z.of_nat (w - 1)) by lia.
  apply wp_bind, wp_memset_dig.
  { eexists. rewrite lookup_insert_eq. split; [done|]. rewrite length_app, length_take. lia. }
  set (full := replicate (w - 1) 0 ++ low :: outs).
  assert (blit (<[i:=take (w - 1) l ++ low :: outs ++ drop (length J + w) l]> m) i
            (replicate (w - 1) 0) = <[i := full ++ drop (length J + w) l]> m) as ->.
  { apply map_eq. intros c. unfold blit. destruct (decide (i = c)) as [->|Hne].
    - rewrite lookup_alter_eq, !lookup_insert_eq. cbn. f_equal. unfold full.
      rewrite <-app_assoc. f_equal. rewrite length_replicate, drop_app_length'; [done|].
      rewrite length_take. lia.
    - by rewrite lookup_alter_ne, !lookup_insert_ne. }
  assert (length full = (length J + w)%nat) as Hfl.
  { unfold full. rewrite length_app, length_replicate. cbn. lia. }
  replace (Z.of_nat (length J) + Z.of_nat w) with (Z.of_nat (length full)) by lia.
  apply (wp_strip_loop _ _ _ (fun n => negb (n =? 0)) (fun n => 0 + n - 1));
    [done|intros [] ?; done|lia|eexists; apply lookup_insert_eq|lia|].
  intros res zs Hfull Hzs Hn'.
  assert (dval full = dval J * 2 ^ n) as Hvf.
  { unfold full. rewrite dval_app, dval_zeros, dval_cons, length_replicate, Hlow, H2n. lia. }
  assert (Forall is_dig full) as Df.
  { unfold full. apply Forall_app_2; [by apply Forall_replicate|]. apply Forall_cons_2; [|done].
    apply is_dig_mod. }
  rewrite Hfull in Df, Hvf. apply Forall_app in Df as [Dr _].
  apply HQ; [|done|done|rewrite <-Hvf, dval_app, Hzs; lia].
  exists l, (full ++ drop (length J + w) l). split; [done|]. split; [done|]. split.
  - rewrite length_app, length_drop. lia.
  - exists (zs ++ drop (length J + w) l). by rewrite Hfull, <-app_assoc.
Qed.
