(* ===== verification/MpnBits.v ===== *)
(** * Correctness of the bitwise operations on digit arrays

    The [_neg] variants compute with the two's complement digits of signed
    operands that are stored as a magnitude and a sign. *)
From S2P Require Import Prelude.
From S2P Require Import CMem.
From S2P Require Import Mpn.
From S2P Require Import Digits.
From S2P Require Import MpnArith.
Local Open Scope Z_scope.

(** Digit [t] of the two's complement expansion of any integer. *)
Definition tdig (s : Z) (t : nat) : Z := (s / bpow t) `mod` 65536.

(** A bitwise operation of [Z] that acts digit by digit. *)
Class BitOp (op : Z -> Z -> Z) (f : bool -> bool -> bool) : Prop := {
  bitop_spec a b n : 0 <= n -> Z.testbit (op a b) n = f (Z.testbit a n) (Z.testbit b n);
  bitop_ff : f false false = false;
}.

#[export] Instance land_bitop : BitOp Z.land andb.
Proof. split; [intros; apply Z.land_spec|done]. Qed.
#[export] Instance lor_bitop : BitOp Z.lor orb.
Proof. split; [intros; apply Z.lor_spec|done]. Qed.
#[export] Instance lxor_bitop : BitOp Z.lxor xorb.
Proof. split; [intros; apply Z.lxor_spec|done]. Qed.

Section BitOps.
Context (op : Z -> Z -> Z) (f : bool -> bool -> bool) `{!BitOp op f}.

Lemma bitop_mod a b n : 0 <= n -> op (a `mod` 2 ^ n) (b `mod` 2 ^ n) = op a b `mod` 2 ^ n.
Proof.
  intros Hn. apply Z.bits_inj'. intros k Hk. rewrite bitop_spec by done.
  destruct (decide (k < n)).
  - rewrite !Z.mod_pow2_bits_low, bitop_spec by lia. done.
  - rewrite !Z.mod_pow2_bits_high by lia. apply bitop_ff.
Qed.

Lemma bitop_div a b n : 0 <= n -> op (a / 2 ^ n) (b / 2 ^ n) = op a b / 2 ^ n.
Proof.
  intros Hn. apply Z.bits_inj'. intros k Hk.
  rewrite bitop_spec, !Z.div_pow2_bits, bitop_spec by lia. done.
Qed.

Lemma bitop_tdig a b t : tdig (op a b) t = op (tdig a t) (tdig b t).
Proof.
  unfold tdig. rewrite bpow_pow2. change 65536 with (2 ^ 16).
  by rewrite bitop_mod, bitop_div by lia.
Qed.

Lemma bitop_range a b n : 0 <= n -> 0 <= a < 2 ^ n -> 0 <= b < 2 ^ n -> 0 <= op a b < 2 ^ n.
Proof.
  intros Hn Ha Hb. rewrite <-(Z.mod_small a (2 ^ n)), <-(Z.mod_small b (2 ^ n)) by done.
  rewrite bitop_mod by done. apply Z.mod_pos_bound. lia.
Qed.

(** The operation on a number split at bit [e]. *)
Lemma bitop_split e a x b y : 0 <= e -> 0 <= a < 2 ^ e -> 0 <= b < 2 ^ e ->
  op (a + 2 ^ e * x) (b + 2 ^ e * y) = op a b + 2 ^ e * op x y.
Proof.
  intros He Ha Hb. rewrite (Z.div_mod (op (a + _) _) (2 ^ e)) by lia.
  rewrite <-bitop_mod, <-bitop_div by lia.
  rewrite !(Z.mul_comm (2 ^ e)), !Z.div_add, !Z.div_small by lia.
  rewrite !Z_mod_plus_full, !Z.mod_small by lia. rewrite !Z.add_0_l. lia.
Qed.

End BitOps.

Lemma tdig_is_dig s t : is_dig (tdig s t).
Proof. apply is_dig_mod. Qed.

Lemma lxor_mask d : is_dig d -> Z.lxor d DIG_MASK = 65535 - d.
Proof.
  intros Hd. pose proof (Z.add_lxor_2land d DIG_MASK) as H. rewrite dig_mask in H.
  rewrite Z.mod_small in H by done. change DIG_MASK with 65535 in *. lia.
Qed.

Lemma tdig_mod_S s t : s `mod` bpow (S t) = s `mod` bpow t + bpow t * tdig s t.
Proof.
  pose proof (bpow_pos t). rewrite bpow_S, Z.mul_comm. by rewrite Z.rem_mul_r by lia.
Qed.

(** ** Bitwise operations on natural numbers *)

Section Plain.
Context (op : Z -> Z -> Z) (f : bool -> bool -> bool) `{!BitOp op f}.

Lemma wp_plain_loop m i j k J K (n : nat) (Q : Z * Z * Z * Z -> blocks -> Prop) :
  holds m j J -> holds m k K -> Forall is_dig J -> Forall is_dig K ->
  (n <= length J)%nat -> (n <= length K)%nat -> room m i n ->
  (forall outs, length outs = n -> Forall is_dig outs ->
     dval outs = op (dval (take n J)) (dval (take n K)) ->
     Q (0, Z.of_nat n, Z.of_nat n, Z.of_nat n) (blit m i outs)) ->
  wp (for_ (Z.to_nat (Z.of_nat n) + 1) (fun '(klen, _, _, _) => klen >? 0)
       (fun '(klen, idig, jdig, kdig) =>
          x ← load j jdig; y ← load k kdig;
          _ ← store i idig (op x y);
          mret (klen - 1, idig + 1, jdig + 1, kdig + 1))
       (Z.of_nat n, 0, 0, 0)) m Q.
Proof.
  intros Hj Hk DJ DK HnJ HnK Hroom HQ.
  apply (wp_for (fun '(len, idig, jdig, kdig) m' => exists outs,
      m' = blit m i outs /\ (length outs <= n)%nat /\ len = Z.of_nat (n - length outs) /\
      idig = Z.of_nat (length outs) /\ jdig = idig /\ kdig = idig /\ Forall is_dig outs /\
      dval outs = op (dval (take (length outs) J)) (dval (take (length outs) K)))
      (fun '(len, _, _, _) => Z.to_nat len)).
  - exists []. rewrite blit_nil, !take_0. cbn [length]. rewrite Nat.sub_0_r.
    repeat split; try lia; [done|]. cbn. pose proof (bitop_range op f 0 0 0). lia.
  - lia.
  - intros [[[len idig] jdig] kdig] m' (outs & -> & Hlen & -> & -> & -> & -> & HD & Hv) Hgt.
    to_prop. apply wp_bind, (wp_load_blit _ _ _ _ J); [done|lia|lia|]. intros x Hx.
    apply wp_bind, (wp_load_blit _ _ _ _ K); [done|lia|lia|]. intros y Hy.
    pose proof (Forall_lookup_dig _ _ _ DJ Hx). pose proof (Forall_lookup_dig _ _ _ DK Hy).
    apply wp_bind, (wp_store_blit _ _ _ n); [done|lia|]. apply wp_ret.
    split; [|lia]. eexists. split; [done|]. rewrite length_app. cbn [length].
    rewrite Nat.add_1_r. repeat split; try lia.
    + apply Forall_app_2; [done|]. apply Forall_singleton. by apply (bitop_range op f x y 16).
    + pose proof (dval_take_bounds J (length outs) DJ ltac:(lia)) as BJ.
      pose proof (dval_take_bounds K (length outs) DK ltac:(lia)) as BK.
      rewrite dval_snoc, (dval_take_S _ _ _ Hx), (dval_take_S _ _ _ Hy), Hv.
      rewrite bpow_pow2 in *. by rewrite (bitop_split op f) by (done || lia).
  - intros [[[len idig] jdig] kdig] m' (outs & -> & Hlen & -> & -> & -> & -> & HD & Hv) Hle.
    to_prop. assert (length outs = n) as Hn by lia. rewrite Hn, Nat.sub_diag in *. by apply HQ.
Qed.

End Plain.

(** The remaining digits of the longer operand are copied. *)
Lemma wp_copy_loop m i j J outs0 (N : nat) (Q : Z * Z * Z -> blocks -> Prop) :
  holds m j J -> Forall is_dig J -> (N <= length J)%nat -> room m i N ->
  (length outs0 <= N)%nat -> Forall is_dig outs0 ->
  (forall outs, length outs = N -> Forall is_dig outs ->
     dval outs = dval outs0 + dval (take N J) - dval (take (length outs0) J) ->
     Q (0, Z.of_nat N, Z.of_nat N) (blit m i outs)) ->
  wp (for_ (Z.to_nat (Z.of_nat (N - length outs0)) + 1) (fun '(jlen, _, _) => jlen >? 0)
       (fun '(jlen, idig, jdig) =>
          x ← load j jdig;
          _ ← store i idig x;
          mret (jlen - 1, idig + 1, jdig + 1))
       (Z.of_nat (N - length outs0), Z.of_nat (length outs0), Z.of_nat (length outs0)))
    (blit m i outs0) Q.
Proof.
  intros Hj DJ HNJ Hroom Hlen0 HD0 HQ.
  apply (wp_for (fun '(len, idig, jdig) m' => exists outs,
      m' = blit m i outs /\ (length outs <= N)%nat /\ len = Z.of_nat (N - length outs) /\
      idig = Z.of_nat (length outs) /\ jdig = idig /\ Forall is_dig outs /\
      dval outs = dval outs0 + dval (take (length outs) J) - dval (take (length outs0) J))
      (fun '(len, _, _) => Z.to_nat len)).
  - exists outs0. repeat split; try lia; done.
  - lia.
  - intros [[len idig] jdig] m' (outs & -> & Hlen & -> & -> & -> & HD & Hv) Hgt.
    to_prop. apply wp_bind, (wp_load_blit _ _ _ _ J); [done|lia|lia|]. intros x Hx.
    apply wp_bind, (wp_store_blit _ _ _ N); [done|lia|]. apply wp_ret.
    split; [|lia]. eexists. split; [done|]. rewrite length_app. cbn [length].
    rewrite Nat.add_1_r. repeat split; try lia.
    + apply Forall_app_2; [done|]. apply Forall_singleton. exact (Forall_lookup_dig _ _ _ DJ Hx).
    + rewrite dval_snoc, (dval_take_S _ _ _ Hx). lia.
  - intros [[len idig] jdig] m' (outs & -> & Hlen & -> & -> & -> & HD & Hv) Hle.
    to_prop. assert (length outs = N) as Hn by lia. rewrite Hn, Nat.sub_diag in *. by apply HQ.
Qed.

(** The value of an operation on operands of different length. *)
Lemma bitop_high op f `{!BitOp op f} J K : Forall is_dig J -> Forall is_dig K ->
  (length K <= length J)%nat ->
  op (dval J) (dval K) =
    op (dval (take (length K) J)) (dval K) + bpow (length K) * op (dval (drop (length K) J)) 0.
Proof.
  intros DJ DK Hlen. pose proof (dval_take_bounds J _ DJ Hlen) as BJ.
  pose proof (dval_bounds K DK) as BK. rewrite bpow_pow2 in *.
  rewrite <-(bitop_split op f) by (done || lia). f_equal; [|lia].
  rewrite <-(take_drop (length K) J) at 1.
  by rewrite dval_app, length_take_le, bpow_pow2 by done.
Qed.

Lemma dval_take_drop n l : (n <= length l)%nat ->
  dval l = dval (take n l) + bpow n * dval (drop n l).
Proof.
  intros Hn. rewrite <-(take_drop n l) at 1. by rewrite dval_app, length_take_le.
Qed.

Lemma wp_mpn_and m i j k J K (Q : Z -> blocks -> Prop) :
  holds m j J -> holds m k K -> Forall is_dig J -> Forall is_dig K ->
  (length K <= length J)%nat -> room m i (length K) ->
  (forall res m', wrote m m' i res -> Forall is_dig res -> normal res ->
     dval res = Z.land (dval J) (dval K) -> Q (Z.of_nat (length res)) m') ->
  wp (mpn_and i j k (Z.of_nat (length K))) m Q.
Proof.
  intros Hj Hk DJ DK Hlen Hroom HQ. unfold mpn_and. apply wp_bind.
  apply (wp_plain_loop Z.land andb m i j k J K (length K)); try done.
  intros outs Hl Do Hv. destruct Hroom as (bl & Hbl & Hbll). rewrite <-Hl.
  apply (wp_strip _ _ bl); [done|lia|done|]. intros res m' Hw Dr Nr Hr.
  apply HQ; [done..|]. rewrite Hr, Hv, (bitop_high Z.land andb J K) by done.
  rewrite firstn_all, Z.land_0_r. lia.
Qed.

Lemma lor_nonneg_ge a b : 0 <= a -> 0 <= b -> a <= Z.lor a b.
Proof.
  intros Ha Hb. assert (0 <= Z.ldiff b a) by (apply Z.ldiff_nonneg; by left).
  assert (Z.land a (Z.ldiff b a) = 0) as Hd.
  { apply Z.bits_inj'. intros n Hn. rewrite Z.land_spec, Z.ldiff_spec, Z.bits_0.
    by destruct (Z.testbit a n), (Z.testbit b n). }
  assert (Z.lor a b = a + Z.ldiff b a) as ->; [|lia].
  rewrite Z.add_nocarry_lor by done. apply Z.bits_inj'. intros n Hn.
  rewrite !Z.lor_spec, Z.ldiff_spec. by destruct (Z.testbit a n), (Z.testbit b n).
Qed.

Lemma wp_mpn_or m i j k J K (Q : Z -> blocks -> Prop) :
  holds m j J -> holds m k K -> Forall is_dig J -> Forall is_dig K -> normal J ->
  (length K <= length J)%nat -> room m i (length J) ->
  (forall res m', wrote m m' i res -> Forall is_dig res -> normal res ->
     dval res = Z.lor (dval J) (dval K) -> Q (Z.of_nat (length res)) m') ->
  wp (mpn_or i j (Z.of_nat (length J)) k (Z.of_nat (length K))) m Q.
Proof.
  intros Hj Hk DJ DK NJ Hlen Hroom HQ. unfold mpn_or.
  replace (_ - _) with (Z.of_nat (length J - length K)) by lia. apply wp_bind.
  apply (wp_plain_loop Z.lor orb m i j k J K (length K)); try done.
  { by eapply room_mono. }
  intros outs1 Hl1 Do1 Hv1. rewrite <-Hl1. apply wp_bind.
  apply (wp_copy_loop m i j J outs1 (length J)); try done; [lia|].
  intros outs Hl Do Hv. destruct Hroom as (bl & Hbl & Hbll). rewrite <-Hl. apply wp_ret.
  assert (dval outs = Z.lor (dval J) (dval K)) as Hres.
  { rewrite (bitop_high Z.lor orb J K), Z.lor_0_r by done.
    rewrite Hv, Hl1, Hv1, !firstn_all, (dval_take_drop (length K) J) by done. lia. }
  apply HQ; [apply (wrote_blit_all _ _ bl); [done|lia]|done| |done].
  apply normal_lower; [done|]. intros Hne. rewrite Hl, Hres.
  assert (J <> []) as HJ. { intros ->. by destruct outs. }
  pose proof (dval_lower J DJ NJ HJ). pose proof (dval_bounds J DJ). pose proof (dval_bounds K DK).
  pose proof (lor_nonneg_ge (dval J) (dval K)). lia.
Qed.

Lemma wp_mpn_xor m i j k J K (Q : Z -> blocks -> Prop) :
  holds m j J -> holds m k K -> Forall is_dig J -> Forall is_dig K ->
  (length K <= length J)%nat -> room m i (length J) ->
  (forall res m', wrote m m' i res -> Forall is_dig res -> normal res ->
     dval res = Z.lxor (dval J) (dval K) -> Q (Z.of_nat (length res)) m') ->
  wp (mpn_xor i j (Z.of_nat (length J)) k (Z.of_nat (length K))) m Q.
Proof.
  intros Hj Hk DJ DK Hlen Hroom HQ. unfold mpn_xor.
  replace (_ - _) with (Z.of_nat (length J - length K)) by lia. apply wp_bind.
  apply (wp_plain_loop Z.lxor xorb m i j k J K (length K)); try done.
  { by eapply room_mono. }
  intros outs1 Hl1 Do1 Hv1. rewrite <-Hl1. apply wp_bind.
  apply (wp_copy_loop m i j J outs1 (length J)); try done; [lia|].
  intros outs Hl Do Hv. destruct Hroom as (bl & Hbl & Hbll). rewrite <-Hl.
  apply (wp_strip _ _ bl); [done|lia|done|]. intros res m' Hw Dr Nr Hr.
  apply HQ; [done..|]. rewrite Hr, (bitop_high Z.lxor xorb J K), Z.lxor_0_r by done.
  rewrite Hv, Hl1, Hv1, !firstn_all, (dval_take_drop (length K) J) by done. lia.
Qed.

(** ** Operations on signed operands

    The three [_neg] functions run the same loop: it turns each operand into its
    two's complement digits on the fly, combines the digits and adds a carry to
    the result.  [Aj t] and [Ak t] are what has been accumulated of the operands
    after [t] digits and [Ai t] what has been accumulated of the result. *)

Lemma stream_step s t A c v :
  s `mod` bpow t + c * bpow t = A -> 0 <= c -> 0 <= v ->
  (A + bpow t * v) `mod` bpow (S t) = s `mod` bpow (S t) ->
  (c + v) `mod` 65536 = tdig s t /\
  s `mod` bpow (S t) + (c + v) / 65536 * bpow (S t) = A + bpow t * v.
Proof.
  intros HA Hc Hv Hcong. pose proof (bpow_pos t) as Hp. pose proof (carry_step (bpow t) (c + v)) as Hcs.
  pose proof (Z.mod_pos_bound s (bpow t) Hp) as Hs.
  pose proof (Z.mod_pos_bound (c + v) 65536 ltac:(lia)) as Hd.
  assert (A + bpow t * v = (s `mod` bpow t + bpow t * ((c + v) `mod` 65536)) +
            (c + v) / 65536 * bpow (S t)) as Heq by (rewrite bpow_S; lia).
  rewrite Heq, Z_mod_plus_full, (tdig_mod_S s) in Hcong.
  rewrite Z.mod_small in Hcong by (rewrite bpow_S; nia).
  assert ((c + v) `mod` 65536 = tdig s t) as Hdig by nia.
  split; [done|]. rewrite Heq, (tdig_mod_S s), Hdig. done.
Qed.

Section Signed.
Context (fj fk : Z -> Z) (fk0 : Z) (comb : Z -> Z -> Z) (g : Z -> Z -> Z).
Context (m : blocks) (i j k : nat) (J K : list Z) (sj sk : Z).
Context (Aj Ak Ai : nat -> Z).
Hypothesis Hj : holds m j J.
Hypothesis Hk : holds m k K.
Hypothesis DJ : Forall is_dig J.
Hypothesis DK : Forall is_dig K.
Hypothesis Hlen : (length K <= length J)%nat.
Hypothesis Hsize : Z.of_nat (length J) < 2 ^ 32.
Hypothesis Hfj : forall x, is_dig x -> 0 <= fj x <= 131070.
Hypothesis Hfk : forall x, is_dig x -> 0 <= fk x <= 131070.
Hypothesis Hfk0 : 0 <= fk0 <= 131070.
Hypothesis Hcomb : forall a b, 0 <= a < 131072 -> 0 <= b < 131072 ->
  comb a b = g (a `mod` 65536) (b `mod` 65536).
Hypothesis Hg : forall a b, is_dig a -> is_dig b -> is_dig (g a b).
Hypothesis HAj : forall t x, J !! t = Some x -> Aj (S t) = Aj t + bpow t * fj x.
Hypothesis HAk : forall t x, K !! t = Some x -> Ak (S t) = Ak t + bpow t * fk x.
Hypothesis HAk0 : forall t, (length K <= t)%nat -> Ak (S t) = Ak t + bpow t * fk0.
Hypothesis HAi : forall t, Ai (S t) = Ai t + bpow t * g (tdig sj t) (tdig sk t).
Hypothesis Hcj : forall t, Aj t `mod` bpow t = sj `mod` bpow t.
Hypothesis Hck : forall t, Ak t `mod` bpow t = sk `mod` bpow t.

Lemma wp_signed_loop c0i c0j c0k (Q : Z * Z * Z * Z * Z * Z * Z * Z -> blocks -> Prop) :
  room m i (length J) -> 0 <= c0i <= 1 -> 0 <= c0j <= 1 -> 0 <= c0k <= 1 ->
  Aj 0%nat = c0j -> Ak 0%nat = c0k -> Ai 0%nat = c0i ->
  (forall outs ci cj ck jl kl jd kd, length outs = length J -> Forall is_dig outs -> 0 <= ci <= 1 ->
     dval outs + ci * bpow (length J) = Ai (length J) ->
     Q (jl, kl, Z.of_nat (length outs), jd, kd, ci, cj, ck) (blit m i outs)) ->
  wp (for_ (Z.to_nat (Z.of_nat (length J)) + 1) (fun '(jlen, _, _, _, _, _, _, _) => jlen >? 0)
    (fun '(jlen, klen, idig, jdig, kdig, carryi, carryj, carryk) =>
       x ← load j jdig;
       let carryj := u32 (carryj + fj x) in
       let klen := u32 (klen - 1) in
       let jlen := u32 (jlen - 1) in
       '(y, kdig) ← (if klen <=? jlen then y ← load k kdig; mret (fk y, kdig + 1)
                     else mret (fk0, kdig));
       let carryk := u32 (carryk + y) in
       let carryi := u32 (carryi + comb carryj carryk) in
       _ ← store i idig (Z.land carryi DIG_MASK);
       mret (jlen, klen, idig + 1, jdig + 1, kdig, Z.shiftr carryi DIG_SIZE,
             Z.shiftr carryj DIG_SIZE, Z.shiftr carryk DIG_SIZE))
    (Z.of_nat (length J), Z.of_nat (length K), 0, 0, 0, c0i, c0j, c0k)) m Q.
Proof using All.
  intros Hroom Hc0i Hc0j Hc0k HAj0 HAk0' HAi0 HQ.
  apply (wp_for (fun '(jl, kl, idig, jdig, kdig, ci, cj, ck) m' => exists outs,
      m' = blit m i outs /\ (length outs <= length J)%nat /\
      jl = Z.of_nat (length J - length outs) /\
      kl = u32 (Z.of_nat (length K) - Z.of_nat (length outs)) /\
      idig = Z.of_nat (length outs) /\ jdig = idig /\
      kdig = Z.of_nat (length outs `min` length K) /\ Forall is_dig outs /\
      0 <= ci <= 1 /\ 0 <= cj <= 1 /\ 0 <= ck <= 1 /\
      sj `mod` bpow (length outs) + cj * bpow (length outs) = Aj (length outs) /\
      sk `mod` bpow (length outs) + ck * bpow (length outs) = Ak (length outs) /\
      dval outs + ci * bpow (length outs) = Ai (length outs))
      (fun '(jl, _, _, _, _, _, _, _) => Z.to_nat jl)).
  - exists []. rewrite blit_nil. cbn [length Nat.min]. rewrite Nat.sub_0_r, bpow_0, !Z.mod_1_r.
    rewrite Z.sub_0_r, u32_small by lia. repeat split; try lia; [done|]. cbn. lia.
  - lia.
  - intros [[[[[[[jl kl] idig] jdig] kdig] ci] cj] ck] m'
      (outs & -> & Hl & -> & -> & -> & -> & -> & HD & Hci & Hcj' & Hck' & Vj & Vk & Vi) Hgt. to_prop.
    set (t := length outs) in *.
    apply wp_bind, (wp_load_blit _ _ _ _ J); [done|lia|lia|]. intros x Hx.
    pose proof (Forall_lookup_1 is_dig _ _ _ DJ Hx) as Dx. pose proof (Hfj x Dx). cbv zeta.
    rewrite (u32_small (Z.of_nat (length J - t) - 1)) by lia.
    assert (u32 (u32 (Z.of_nat (length K) - Z.of_nat t) - 1) =
            u32 (Z.of_nat (length K) - Z.of_nat (S t))) as ->.
    { unfold uwrap. rewrite Zminus_mod_idemp_l. f_equal. lia. }
    apply wp_bind.
    apply (wp_mono _ _ (fun '(v, kd) m' => m' = blit m i outs /\ kd = Z.of_nat (S t `min` length K) /\
       0 <= v <= 131070 /\ Ak (S t) = Ak t + bpow t * v)).
    { destruct (_ <=? _) eqn:E; to_prop.
      - assert (t < length K)%nat as HtK.
        { destruct (decide (t < length K)%nat); [done|exfalso].
          unfold uwrap in E. rewrite <-(Z.mod_add _ 1), Z.mod_small in E by lia. lia. }
        rewrite Nat.min_l by lia.
        apply wp_bind, (wp_load_blit _ _ _ _ K); [done|lia|lia|]. intros y Hy.
        pose proof (Forall_lookup_1 is_dig _ _ _ DK Hy) as Dy. apply wp_ret.
        repeat split; [lia|by apply Hfk|by apply Hfk|by apply HAk].
      - assert (length K <= t)%nat as HtK.
        { destruct (decide (t < length K)%nat); [|lia]. exfalso.
          rewrite u32_small in E by lia. lia. }
        apply wp_ret. repeat split; [lia|lia|lia|by apply HAk0]. }
    intros [v kd] m' (-> & -> & Hv & HAkS).
    rewrite (u32_small (cj + fj x)), (u32_small (ck + v)) by lia.
    rewrite Hcomb by lia.
    destruct (stream_step sj t (Aj t) cj (fj x) Vj) as [Dj Vj']; [lia|lia|by rewrite <-HAj|].
    destruct (stream_step sk t (Ak t) ck v Vk) as [Dk Vk']; [lia|lia|by rewrite <-HAkS|].
    rewrite <-HAj in Vj' by done. rewrite <-HAkS in Vk'. rewrite Dj, Dk.
    pose proof (Hg _ _ (tdig_is_dig sj t) (tdig_is_dig sk t)) as Dg. unfold is_dig in Dg.
    rewrite (u32_small (ci + _)) by lia. rewrite dig_mask, !dig_shr.
    apply wp_bind, (wp_store_blit _ _ _ (length J)); [done|lia|]. apply wp_ret.
    split; [|lia]. eexists. split; [done|]. rewrite length_app. cbn [length].
    rewrite Nat.add_1_r. fold t. split; [lia|]. split; [lia|]. split; [done|]. split; [lia|].
    split; [lia|]. split; [done|]. split; [by apply Forall_app_2, Forall_singleton|].
    assert (forall a, 0 <= a < 131072 -> 0 <= a / 65536 <= 1) as Hdiv.
    { intros a Ha. split; [apply Z.div_pos; lia|apply Z.lt_succ_r, Z.div_lt_upper_bound; lia]. }
    split; [apply Hdiv; lia|]. split; [apply Hdiv; lia|]. split; [apply Hdiv; lia|].
    split; [done|]. split; [done|].
    rewrite dval_snoc, HAi, <-Vi, bpow_S. fold t.
    pose proof (carry_step (bpow t) (ci + g (tdig sj t) (tdig sk t))). lia.
  - intros [[[[[[[jl kl] idig] jdig] kdig] ci] cj] ck] m'
      (outs & -> & Hl & -> & -> & -> & -> & -> & HD & Hci & _ & _ & _ & _ & Vi) Hle. to_prop.
    assert (length outs = length J) as HlJ by lia. rewrite HlJ in Vi.
    by apply HQ.
Qed.

End Signed.

(** The signed number a sign flag and a magnitude stand for. *)
Definition sval (neg : bool) (v : Z) : Z := if neg then - v else v.

Lemma dval_take_mod l t : Forall is_dig l -> dval (take t l) = dval l `mod` bpow t.
Proof.
  intros Hl. pose proof (bpow_pos t). destruct (decide (t <= length l)%nat).
  - rewrite (dval_take_drop t l) at 1 by done.
    rewrite Z.mul_comm, Z_mod_plus_full, Z.mod_small; [done|]. by apply dval_take_bounds.
  - rewrite take_ge, Z.mod_small; [done| |lia]. pose proof (dval_bounds l Hl).
    pose proof (bpow_mono (length l) t ltac:(lia)). lia.
Qed.

(** What the code has accumulated of an operand after [t] digits. *)
Definition comp (neg : bool) (l : list Z) (t : nat) : Z :=
  if neg then bpow t - dval (take t l) else dval (take t l).

Lemma comp_S neg l t x : is_dig x -> l !! t = Some x ->
  comp neg l (S t) = comp neg l t + bpow t * Z.lxor x (carry_mask (zbool neg)).
Proof.
  intros Dx Hx. unfold comp. rewrite (dval_take_S _ _ _ Hx), bpow_S.
  destruct neg; cbn [carry_mask zbool Z.eqb].
  - change (carry_mask 1) with DIG_MASK. rewrite lxor_mask by done. lia.
  - change (carry_mask 0) with 0. rewrite Z.lxor_0_r. lia.
Qed.

Lemma comp_S_end neg l t : (length l <= t)%nat ->
  comp neg l (S t) = comp neg l t + bpow t * carry_mask (zbool neg).
Proof.
  intros Hl. unfold comp. rewrite !take_ge, bpow_S by lia.
  destruct neg; cbn [zbool]; [change (carry_mask 1) with 65535|change (carry_mask 0) with 0]; lia.
Qed.

Lemma comp_mod neg l t : Forall is_dig l ->
  comp neg l t `mod` bpow t = sval neg (dval l) `mod` bpow t.
Proof.
  intros Hl. unfold comp, sval. pose proof (bpow_pos t). rewrite dval_take_mod by done.
  destruct neg; [|by rewrite Z.mod_mod by lia].
  rewrite <-Zminus_mod_idemp_l, Z_mod_same_full, Z.sub_0_l.
  rewrite <-(Z.sub_0_l (_ `mod` _)), Zminus_mod_idemp_r. f_equal.
Qed.

(** What the code has accumulated of a result with value [a]. *)
Definition rcomp (neg : bool) (a : Z) (t : nat) : Z :=
  if neg then bpow t - a `mod` bpow t else a `mod` bpow t.

Lemma rcomp_S neg a t :
  rcomp neg a (S t) = rcomp neg a t + bpow t * Z.lxor (tdig a t) (carry_mask (zbool neg)).
Proof.
  unfold rcomp. rewrite tdig_mod_S, bpow_S. pose proof (tdig_is_dig a t).
  destruct neg; cbn [zbool].
  - change (carry_mask 1) with DIG_MASK. rewrite lxor_mask by done. lia.
  - change (carry_mask 0) with 0. rewrite Z.lxor_0_r. lia.
Qed.

Lemma rcomp_0 neg a : rcomp neg a 0 = zbool neg.
Proof. unfold rcomp. rewrite bpow_0, Z.mod_1_r. by destruct neg. Qed.

Lemma rcomp_neg a n : - bpow n <= a < 0 -> rcomp true a n = - a.
Proof.
  intros Ha. unfold rcomp.
  replace (a `mod` bpow n) with (a + bpow n); [lia|].
  apply (Z.mod_unique_pos _ _ (-1)); lia.
Qed.

Lemma carry_mask_range neg x : is_dig x -> 0 <= Z.lxor x (carry_mask (zbool neg)) <= 131070.
Proof.
  intros Dx. destruct neg; cbn [zbool].
  - change (carry_mask 1) with DIG_MASK. rewrite lxor_mask by done. unfold is_dig in Dx. lia.
  - change (carry_mask 0) with 0. rewrite Z.lxor_0_r. unfold is_dig in Dx. lia.
Qed.

Lemma carry_mask_dig neg : is_dig (carry_mask (zbool neg)).
Proof. by destruct neg. Qed.

(** Combining and complementing digits. *)
Lemma comb_mod op f `{!BitOp op f} imask a b : is_dig imask ->
  Z.land (Z.lxor (op a b) imask) DIG_MASK =
  Z.lxor (op (a `mod` 65536) (b `mod` 65536)) imask.
Proof.
  intros Hm. rewrite dig_mask. change 65536 with (2 ^ 16).
  rewrite <-(bitop_mod Z.lxor xorb), <-(bitop_mod op f) by lia.
  by rewrite (Z.mod_small imask).
Qed.

Lemma comb_dig op f `{!BitOp op f} imask a b : is_dig imask -> is_dig a -> is_dig b ->
  is_dig (Z.lxor (op a b) imask).
Proof.
  intros Hm Ha Hb. apply (bitop_range Z.lxor xorb _ _ 16); [lia| |done].
  by apply (bitop_range op f _ _ 16).
Qed.

(** Storing the final carry, if there is one, and stripping zeros. *)
Lemma wp_carry_strip m i l outs c (Q : Z -> blocks -> Prop) :
  m !! i = Some l -> (length outs < length l)%nat -> Forall is_dig outs -> 0 <= c <= 1 ->
  (forall res m', wrote m m' i res -> Forall is_dig res -> normal res ->
     dval res = dval outs + c * bpow (length outs) -> Q (Z.of_nat (length res)) m') ->
  wp (idig ← (if negb (0 =? c)
              then _ ← store i (Z.of_nat (length outs)) (u16 c); mret (Z.of_nat (length outs) + 1)
              else mret (Z.of_nat (length outs)));
      mpn_remove_trailing_zeros i 0 idig) (blit m i outs) Q.
Proof.
  intros Hl Hlen Do Hc HQ. apply wp_bind. destruct (negb _) eqn:E; to_prop.
  - rewrite u16_small by lia.
    apply wp_bind, (wp_store_blit _ _ _ (length l)); [by exists l|lia|]. apply wp_ret.
    replace (_ + 1) with (Z.of_nat (length (outs ++ [c]))) by (rewrite length_app; cbn; lia).
    apply (wp_strip _ _ l); [done|rewrite length_app; cbn; lia| |].
    + apply Forall_app_2; [done|]. apply Forall_singleton. unfold is_dig. lia.
    + intros res m' Hw Dr Nr Hr. apply HQ; [done..|]. rewrite Hr, dval_snoc. lia.
  - subst c. apply wp_ret. apply (wp_strip _ _ l); [done|lia|done|].
    intros res m' Hw Dr Nr Hr. apply HQ; [done..|]. lia.
Qed.

(** ** Ranges of bitwise results *)

Lemma land_split x y : x = Z.land x y + Z.ldiff x y.
Proof.
  rewrite Z.add_nocarry_lor.
  - apply Z.bits_inj'. intros n Hn. rewrite Z.lor_spec, Z.land_spec, Z.ldiff_spec.
    by destruct (Z.testbit x n), (Z.testbit y n).
  - apply Z.bits_inj'. intros n Hn. rewrite !Z.land_spec, Z.ldiff_spec, Z.bits_0.
    by destruct (Z.testbit x n), (Z.testbit y n).
Qed.

Lemma land_range_l x y b : 0 <= x < b -> 0 <= Z.land x y < b.
Proof.
  intros Hx. assert (0 <= Z.land x y) by (apply Z.land_nonneg; lia).
  assert (0 <= Z.ldiff x y) by (apply Z.ldiff_nonneg; lia).
  pose proof (land_split x y). lia.
Qed.

Lemma ldiff_range x y b : 0 <= x < b -> 0 <= Z.ldiff x y < b.
Proof.
  intros Hx. assert (0 <= Z.ldiff x y) by (apply Z.ldiff_nonneg; lia).
  assert (0 <= Z.land x y) by (apply Z.land_nonneg; lia).
  pose proof (land_split x y). lia.
Qed.

Lemma opp_lnot v : - v = Z.lnot (v - 1).
Proof. unfold Z.lnot. lia. Qed.

Lemma lnot_range x b : 0 <= x < b -> - b <= Z.lnot x < 0.
Proof. unfold Z.lnot. lia. Qed.

Lemma land_neg_range v w n : 0 < v < bpow n -> 0 < w < bpow n ->
  - bpow n <= Z.land (- v) (- w) < 0.
Proof.
  intros Hv Hw. rewrite (opp_lnot v), (opp_lnot w), <-Z.lnot_lor. apply lnot_range.
  rewrite bpow_pow2 in *. apply (bitop_range Z.lor orb); lia.
Qed.

Lemma lor_neg_range v w n : 0 < v < bpow n -> - bpow n < Z.lor (- v) w < 0.
Proof.
  intros Hv. rewrite (opp_lnot v).
  assert (Z.lor (Z.lnot (v - 1)) w = Z.lnot (Z.ldiff (v - 1) w)) as ->.
  { apply Z.bits_inj'. intros k Hk. rewrite Z.lor_spec, !Z.lnot_spec, Z.ldiff_spec by done.
    by destruct (Z.testbit (v - 1) k), (Z.testbit w k). }
  pose proof (ldiff_range (v - 1) w (bpow n - 1)). unfold Z.lnot. lia.
Qed.

(** ** The three signed operations *)

Lemma wp_mpn_and_neg m i j k J K (bj bk : bool) (Q : Z -> blocks -> Prop) :
  holds m j J -> holds m k K -> Forall is_dig J -> Forall is_dig K ->
  (length K <= length J)%nat -> Z.of_nat (length J) < 2 ^ 32 ->
  room m i (S (length J)) -> bj || bk = true ->
  (bj = true -> 0 < dval J) -> (bk = true -> 0 < dval K) ->
  (forall res m', wrote m m' i res -> Forall is_dig res -> normal res ->
     sval (bj && bk) (dval res) = Z.land (sval bj (dval J)) (sval bk (dval K)) ->
     Q (Z.of_nat (length res)) m') ->
  wp (mpn_and_neg i j (Z.of_nat (length J)) k (Z.of_nat (length K))
        (zbool (eqb bj bk)) (zbool bj) (zbool bk)) m Q.
Proof.
  intros Hj Hk DJ DK Hlen Hsz Hroom Hb HbJ HbK HQ.
  assert (eqb bj bk = bj && bk) as -> by by destruct bj, bk.
  set (a := Z.land (sval bj (dval J)) (sval bk (dval K))) in *.
  pose proof (dval_bounds J DJ) as BJ. pose proof (dval_bounds K DK) as BK.
  pose proof (bpow_mono _ _ Hlen) as HBK.
  pose proof (carry_mask_dig (bj && bk)) as Dm.
  assert (sval (bj && bk) (rcomp (bj && bk) a (length J)) = a) as Ha.
  { unfold a. destruct bj, bk; cbn [andb sval] in *; try done.
    - rewrite rcomp_neg; [lia|]. apply land_neg_range; lia.
    - apply Z.mod_small. rewrite Z.land_comm. apply land_range_l. lia.
    - apply Z.mod_small. apply land_range_l. lia. }
  destruct Hroom as (bl & Hbl & Hbll). unfold mpn_and_neg. apply wp_bind.
  apply (wp_signed_loop (fun x => Z.lxor x (carry_mask (zbool bj)))
    (fun x => Z.lxor x (carry_mask (zbool bk))) (carry_mask (zbool bk))
    (fun a b => Z.land (Z.lxor (Z.land a b) (carry_mask (zbool (bj && bk)))) DIG_MASK)
    (fun a b => Z.lxor (Z.land a b) (carry_mask (zbool (bj && bk))))
    m i j k J K (sval bj (dval J)) (sval bk (dval K)) (comp bj J) (comp bk K)
    (rcomp (bj && bk) a)); try done.
  - intros. by apply carry_mask_range.
  - intros. by apply carry_mask_range.
  - destruct bk; done.
  - intros. by apply (comb_mod Z.land andb).
  - intros. by apply (comb_dig Z.land andb).
  - intros t x Hx. apply comp_S; [|done]. exact (Forall_lookup_dig _ _ _ DJ Hx).
  - intros t x Hx. apply comp_S; [|done]. exact (Forall_lookup_dig _ _ _ DK Hx).
  - intros t Ht. by apply comp_S_end.
  - intros t. rewrite rcomp_S. unfold a. by rewrite (bitop_tdig Z.land andb).
  - intros t. by apply comp_mod.
  - intros t. by apply comp_mod.
  - exists bl. split; [done|lia].
  - by destruct (bj && bk).
  - by destruct bj.
  - by destruct bk.
  - apply rcomp_0.
  - intros outs ci cj ck jl kl jd kd Hlo Do Hci Hv.
    apply (wp_carry_strip _ _ bl); [done|lia|done|done|].
    intros res m' Hw Dr Nr Hr. apply HQ; [done..|]. by rewrite Hr, Hlo, Hv.
Qed.

Lemma wp_mpn_or_neg m i j k J K (bj bk : bool) (Q : Z -> blocks -> Prop) :
  holds m j J -> holds m k K -> Forall is_dig J -> Forall is_dig K ->
  (length K <= length J)%nat -> Z.of_nat (length J) < 2 ^ 32 ->
  room m i (length J) -> bj || bk = true ->
  (bj = true -> 0 < dval J) -> (bk = true -> 0 < dval K) ->
  (forall res m', wrote m m' i res -> Forall is_dig res -> normal res ->
     - dval res = Z.lor (sval bj (dval J)) (sval bk (dval K)) ->
     Q (Z.of_nat (length res)) m') ->
  wp (mpn_or_neg i j (Z.of_nat (length J)) k (Z.of_nat (length K)) (zbool bj) (zbool bk)) m Q.
Proof.
  intros Hj Hk DJ DK Hlen Hsz Hroom Hb HbJ HbK HQ.
  set (a := Z.lor (sval bj (dval J)) (sval bk (dval K))) in *.
  pose proof (dval_bounds J DJ) as BJ. pose proof (dval_bounds K DK) as BK.
  pose proof (bpow_mono _ _ Hlen) as HBK.
  assert (- bpow (length J) < a < 0) as Ha.
  { unfold a. destruct bj, bk; cbn [sval] in *; try done.
    - apply lor_neg_range. lia.
    - apply lor_neg_range. lia.
    - rewrite Z.lor_comm. apply lor_neg_range. lia. }
  destruct Hroom as (bl & Hbl & Hbll). unfold mpn_or_neg. apply wp_bind.
  apply (wp_signed_loop (fun x => Z.lxor x (carry_mask (zbool bj)))
    (fun x => Z.lxor x (carry_mask (zbool bk))) (carry_mask (zbool bk))
    (fun a b => Z.land (Z.lxor (Z.lor a b) DIG_MASK) DIG_MASK)
    (fun a b => Z.lxor (Z.lor a b) DIG_MASK)
    m i j k J K (sval bj (dval J)) (sval bk (dval K)) (comp bj J) (comp bk K)
    (rcomp true a)); try done.
  - intros. by apply carry_mask_range.
  - intros. by apply carry_mask_range.
  - destruct bk; done.
  - intros. by apply (comb_mod Z.lor orb).
  - intros. by apply (comb_dig Z.lor orb).
  - intros t x Hx. apply comp_S; [|done]. exact (Forall_lookup_dig _ _ _ DJ Hx).
  - intros t x Hx. apply comp_S; [|done]. exact (Forall_lookup_dig _ _ _ DK Hx).
  - intros t Ht. by apply comp_S_end.
  - intros t. rewrite rcomp_S. unfold a. by rewrite (bitop_tdig Z.lor orb).
  - intros t. by apply comp_mod.
  - intros t. by apply comp_mod.
  - exists bl. split; [done|lia].
  - by destruct bj.
  - by destruct bk.
  - apply (rcomp_0 true).
  - intros outs ci cj ck jl kl jd kd Hlo Do Hci Hv. rewrite rcomp_neg in Hv by lia.
    pose proof (dval_bounds outs Do) as Bo. rewrite Hlo in Bo.
    assert (ci = 0) as -> by nia. apply wp_bind, wp_assert; [done|].
    apply (wp_strip _ _ bl); [done|lia|done|].
    intros res m' Hw Dr Nr Hr. apply HQ; [done..|]. lia.
Qed.

(** [sj] and [sk] are the operands minus one for the negative ones. *)
Lemma wp_mpn_xor_neg m i j k J K (ci0 cj0 ck0 : Z) (Q : Z -> blocks -> Prop) :
  holds m j J -> holds m k K -> Forall is_dig J -> Forall is_dig K ->
  (length K <= length J)%nat -> Z.of_nat (length J) < 2 ^ 32 ->
  0 <= ci0 <= 1 -> 0 <= cj0 <= 1 -> 0 <= ck0 <= 1 ->
  1 <= dval J + cj0 -> 1 <= dval K + ck0 ->
  room m i (length J) -> (ci0 = 1 -> room m i (S (length J))) ->
  (forall res m', wrote m m' i res -> Forall is_dig res -> normal res ->
     dval res = Z.lxor (dval J - 1 + cj0) (dval K - 1 + ck0) + ci0 ->
     Q (Z.of_nat (length res)) m') ->
  wp (mpn_xor_neg i j (Z.of_nat (length J)) k (Z.of_nat (length K)) ci0 cj0 ck0) m Q.
Proof.
  intros Hj Hk DJ DK Hlen Hsz Hci0 Hcj0 Hck0 HJ1 HK1 Hroom Hroom1 HQ.
  set (sj := dval J - 1 + cj0) in *. set (sk := dval K - 1 + ck0) in *.
  pose proof (dval_bounds J DJ) as BJ. pose proof (dval_bounds K DK) as BK.
  pose proof (bpow_mono _ _ Hlen) as HBK.
  assert (0 <= Z.lxor sj sk < bpow (length J)) as Hx.
  { rewrite !bpow_pow2 in *. apply (bitop_range Z.lxor xorb); unfold sj, sk; lia. }
  destruct Hroom as (bl & Hbl & Hbll). unfold mpn_xor_neg. apply wp_bind.
  assert (forall s l t, Forall is_dig l -> (dval (take t l) + bpow t - 1 + s) `mod` bpow t =
            (dval l - 1 + s) `mod` bpow t) as Hmod.
  { intros s l t Dl. pose proof (bpow_pos t). rewrite dval_take_mod by done.
    replace (_ + bpow t - 1 + s) with (dval l `mod` bpow t + (s - 1) + 1 * bpow t) by lia.
    rewrite Z_mod_plus_full, Z.add_mod_idemp_l by lia. f_equal. lia. }
  apply (wp_signed_loop (fun x => x + DIG_MASK) (fun x => x + DIG_MASK) DIG_MASK
    (fun a b => Z.land (Z.lxor a b) DIG_MASK) Z.lxor
    m i j k J K sj sk (fun t => dval (take t J) + bpow t - 1 + cj0)
    (fun t => dval (take t K) + bpow t - 1 + ck0)
    (fun t => ci0 + Z.lxor sj sk `mod` bpow t)); try done.
  - intros x Dx. unfold is_dig in Dx. change DIG_MASK with 65535. lia.
  - intros x Dx. unfold is_dig in Dx. change DIG_MASK with 65535. lia.
  - intros a b _ _. rewrite dig_mask. change 65536 with (2 ^ 16).
    by rewrite (bitop_mod Z.lxor xorb).
  - intros a b Ha Hb. by apply (bitop_range Z.lxor xorb _ _ 16).
  - intros t x Hx'. rewrite (dval_take_S _ _ _ Hx'), bpow_S. change DIG_MASK with 65535. lia.
  - intros t x Hx'. rewrite (dval_take_S _ _ _ Hx'), bpow_S. change DIG_MASK with 65535. lia.
  - intros t Ht. rewrite !take_ge, bpow_S by lia. change DIG_MASK with 65535. lia.
  - intros t. rewrite tdig_mod_S, (bitop_tdig Z.lxor xorb). lia.
  - intros t. by apply Hmod.
  - intros t. by apply Hmod.
  - exists bl. split; [done|lia].
  - rewrite Z.mod_1_r. lia.
  - intros outs ci cj ck jl kl jd kd Hlo Do Hci Hv.
    rewrite Z.mod_small in Hv by done. pose proof (dval_bounds outs Do) as Bo. rewrite Hlo in Bo.
    destruct (decide (length J < length bl)%nat).
    + apply (wp_carry_strip _ _ bl); [done|lia|done|done|].
      intros res m' Hw Dr Nr Hr. apply HQ; [done..|]. rewrite Hr, Hlo. lia.
    + assert (ci = 0) as ->.
      { destruct (decide (ci0 = 1)) as [He|]; [|nia].
        destruct (Hroom1 He) as (bl' & Hbl' & Hbll'). simplify_eq. lia. }
      apply wp_bind. cbn [Z.eqb negb]. apply wp_ret. apply (wp_strip _ _ bl); [done|lia|done|].
      intros res m' Hw Dr Nr Hr. apply HQ; [done..|]. lia.
Qed.
