(* ===== verification/MpnDiv.v ===== *)
(** * Correctness of the division of digit arrays

    [mpn_div] is schoolbook division with a one-digit estimate of each quotient
    digit.  The proof follows the steps of the code: after normalisation the
    estimate is at least the true digit and at most [2 ^ 16 + 1], so neither the
    product nor the borrow overflows, and the correction loop ends at the true
    digit. *)
From S2P Require Import Prelude.
From S2P Require Import CMem.
From S2P Require Import Mpn.
From S2P Require Import Digits.
From S2P Require Import MpnArith.
From S2P Require Import MpnShift.
From S2P Require Import MpnBits.
Local Open Scope Z_scope.

(** ** Normalisation *)

Lemma land_msb d : is_dig d -> Z.land d DIG_MSB = 0 <-> d < 32768.
Proof.
  intros Hd. unfold is_dig in Hd. change DIG_MSB with 32768.
  pose proof (Z.mod_pos_bound d (2 ^ 15) ltac:(lia)) as Hm.
  pose proof (Z.div_mod d (2 ^ 15) ltac:(lia)) as Hdm.
  assert (Z.land d 32768 = 2 ^ 15 * Z.land (d / 2 ^ 15) 1) as ->.
  { rewrite Hdm at 1. rewrite (Z.add_comm _ (d `mod` _)).
    change 32768 with (0 + 2 ^ 15 * 1) at 1.
    rewrite (bitop_split Z.land andb) by lia. by rewrite Z.land_0_r. }
  change (2 ^ 15) with 32768 in *.
  assert (d / 32768 = 0 \/ d / 32768 = 1) as [E | E] by lia; rewrite E in *;
    [change (Z.land 0 1) with 0|change (Z.land 1 1) with 1]; lia.
Qed.

Lemma wp_mpn_div_norm_shift m d (Q : Z -> blocks -> Prop) :
  0 < d < 65536 ->
  (forall s, 0 <= s <= 15 -> 32768 <= d * 2 ^ s < 65536 -> Q s m) ->
  wp (mpn_div_norm_shift d) m Q.
Proof.
  intros Hd HQ. unfold mpn_div_norm_shift. apply wp_bind.
  apply (wp_for (fun '(d', s) m' => m' = m /\ 0 <= s <= 15 /\ d' = d * 2 ^ s /\ d' < 65536)
           (fun '(_, s) => Z.to_nat (16 - s))).
  - repeat split; lia.
  - lia.
  - intros [d' s] m' (-> & Hs & -> & Hlt) Hc. to_prop.
    assert (is_dig (d * 2 ^ s)) as Dd by (unfold is_dig; nia).
    apply land_msb in Hc; [|done].
    assert (s <> 15) as Hs15. { intros ->. change (2 ^ 15) with 32768 in *. lia. }
    rewrite shiftl_mul, !u16_small by (unfold is_dig in Dd; lia). apply wp_ret.
    rewrite Z.pow_add_r by lia. repeat split; lia.
  - intros [d' s] m' (-> & Hs & -> & Hlt) Hc. to_prop.
    assert (is_dig (d * 2 ^ s)) as Dd by (unfold is_dig; nia).
    apply wp_ret, HQ; [done|]. split; [|done].
    destruct (decide (d * 2 ^ s < 32768)) as [Hlt'|]; [|lia].
    by apply land_msb in Hlt'.
Qed.

(** The normalisation shift of a denominator. *)
Definition norm_ok (D : list Z) (s : Z) : Prop :=
  0 <= s <= 15 /\ bpow (length D) <= 2 * (dval D * 2 ^ s) /\ dval D * 2 ^ s < bpow (length D).

Lemma norm_ok_intro l d s : Forall is_dig (l ++ [d]) -> 0 <= s <= 15 ->
  32768 <= d * 2 ^ s < 65536 -> norm_ok (l ++ [d]) s.
Proof.
  intros [Hl _]%Forall_app Hs Hd. split; [done|].
  rewrite dval_snoc, length_app. cbn [length]. rewrite Nat.add_1_r, bpow_S.
  pose proof (dval_bounds l Hl). pose proof (bpow_pos (length l)).
  assert (0 < 2 ^ s) by lia.
  assert ((d * 2 ^ s) `mod` 2 ^ s = 0) by (apply Z.mod_mul; lia).
  assert (d * 2 ^ s + 2 ^ s <= 65536).
  { replace 65536 with (2 ^ (16 - s) * 2 ^ s) in *.
    - assert (d < 2 ^ (16 - s)) by nia. nia.
    - rewrite <-Z.pow_add_r by lia. by replace (16 - s + s) with 16 by lia. }
  split; nia.
Qed.

(** ** Shifting the numerator *)

Lemma lor_shifted s n c : 0 <= s -> 0 <= c < 2 ^ s -> Z.lor (Z.shiftl n s) c = n * 2 ^ s + c.
Proof. intros Hs Hc. rewrite shiftl_mul by done. by apply lor_add_disjoint. Qed.

Lemma shift_carry s n c : 0 <= s <= 15 -> is_dig n -> 0 <= c < 2 ^ s ->
  (n * 2 ^ s + c) / 65536 = n / 2 ^ (16 - s) /\ 0 <= n / 2 ^ (16 - s) < 2 ^ s.
Proof.
  intros Hs Hn Hc. unfold is_dig in Hn.
  assert (65536 = 2 ^ s * 2 ^ (16 - s)) as H16.
  { rewrite <-Z.pow_add_r by lia. by replace (s + (16 - s)) with 16 by lia. }
  split.
  - rewrite H16, <-Z.div_div by lia. f_equal.
    rewrite Z.div_add_l by lia. rewrite Z.div_small by done. lia.
  - split; [apply Z.div_pos; lia|]. apply Z.div_lt_upper_bound; lia.
Qed.

Lemma wp_mpn_div_shift_num m num N s (Q : unit -> blocks -> Prop) :
  holds m num N -> Forall is_dig N -> 0 <= s <= 15 ->
  dval N * 2 ^ s < bpow (length N) ->
  (forall outs m', length outs = length N -> Forall is_dig outs ->
     dval outs = dval N * 2 ^ s -> wrote m m' num outs -> Q tt m') ->
  wp (mpn_div_shift_num num (Z.of_nat (length N)) s) m Q.
Proof.
  intros Hh DN Hs Hfit HQ. unfold mpn_div_shift_num, DIG_SIZE. apply wp_bind.
  pose proof (holds_length_room _ _ _ Hh) as Hroom.
  apply (wp_for (fun '(p, c) m' => exists outs, m' = blit m num outs /\
      (length outs <= length N)%nat /\ p = Z.of_nat (length outs) /\ Forall is_dig outs /\
      0 <= c < 2 ^ s /\
      dval outs + c * bpow (length outs) = dval (take (length outs) N) * 2 ^ s)
      (fun '(p, _) => Z.to_nat (Z.of_nat (length N) - p))).
  - exists []. cbn [length]. rewrite blit_nil, take_0, bpow_0.
    repeat split; try lia; done.
  - lia.
  - intros [p c] m' (outs & -> & Hlen & -> & HD & Hc & Hv) Hlt. to_prop.
    apply wp_bind, (wp_load_blit _ _ _ _ N); [done|lia|lia|]. intros n Hn.
    pose proof (Forall_lookup_dig _ _ _ DN Hn) as Dn.
    destruct (shift_carry s n c Hs Dn Hc) as [Hdiv Hrng].
    rewrite lor_shifted, dig_mask, shiftr_div by lia.
    assert (2 ^ s <= 2 ^ 15) by (apply Z.pow_le_mono_r; lia).
    rewrite u16_small by lia.
    apply wp_bind, (wp_store_blit _ _ _ (length N)); [done|lia|]. apply wp_ret.
    split; [|lia]. eexists. split; [done|]. rewrite length_app. cbn [length].
    rewrite Nat.add_1_r. repeat split; try lia.
    + by apply Forall_app_2, Forall_singleton.
    + rewrite dval_snoc, (dval_take_S _ _ _ Hn), bpow_S, <-Hdiv.
      pose proof (carry_step (bpow (length outs)) (n * 2 ^ s + c)). lia.
  - intros [p c] m' (outs & -> & Hlen & -> & HD & Hc & Hv) Hge. to_prop.
    assert (length outs = length N) as Hl by lia. rewrite Hl, firstn_all in Hv.
    pose proof (dval_bounds outs HD) as Bo. rewrite Hl in Bo.
    assert (c = 0) as -> by nia. destruct Hroom as (bl & Hbl & Hbll).
    apply wp_ret, (HQ outs); [done|done|lia|]. apply (wrote_blit_all _ _ bl); [done|lia].
Qed.

(** ** The digits of the normalised denominator *)

(** The borrow is zero exactly when the digit tried is the true one. *)
Lemma borrow_zero (F P qt r q w b : Z) :
  0 < F < P -> 0 <= r < F -> 0 <= w < P -> qt <= q <= qt + 65537 ->
  w + b * P = r - (q - qt) * F -> -65538 <= b <= 0 /\ (b = 0 <-> q = qt).
Proof.
  intros HF Hr Hw Hq Hv. assert ((q - qt) * F <= 65537 * P) by (apply Z.mul_le_mono_nonneg; lia).
  assert (0 <= (q - qt) * F) by nia. split; [split; nia|]. split; [|intros ->; nia].
  intros ->. destruct (Z.eq_dec q qt) as [|Hne]; [done|]. assert (1 <= q - qt) by lia. nia.
Qed.

Section Den.
Context (m : blocks) (den : nat) (D : list Z) (s : Z).
Hypothesis Hden : holds m den D.
Hypothesis DD : Forall is_dig D.
Hypothesis Hnorm : norm_ok D s.

(** The normalised denominator. *)
Let E : Z := dval D * 2 ^ s.

Lemma den_s_bounds : 0 <= s <= 15 /\ 0 < 2 ^ s <= 32768.
Proof using Hnorm.
  destruct Hnorm as [Hs _]. split; [done|]. split; [lia|].
  change 32768 with (2 ^ 15). apply Z.pow_le_mono_r; lia.
Qed.

Lemma den_E_small : E `mod` bpow (length D) = E.
Proof using DD Hnorm.
  pose proof den_s_bounds. destruct Hnorm as (_ & _ & Hlt). pose proof (dval_bounds D DD).
  apply Z.mod_small. unfold E. nia.
Qed.

(** The state of the on-the-fly normalisation before digit [t]. *)
Definition den_inv (t : nat) (d_norm : Z) : Prop :=
  0 <= d_norm < 2 ^ 32 /\ d_norm / 65536 < 2 ^ s /\
  E `mod` bpow t + d_norm / 65536 * bpow t = dval (take t D) * 2 ^ s.

Lemma den_inv_0 : den_inv 0 0.
Proof using Hnorm.
  unfold den_inv. rewrite take_0, bpow_0, Z.mod_1_r. pose proof den_s_bounds. change (0 / 65536) with 0. repeat split; lia || done.
Qed.

Lemma den_inv_S t d_norm x : den_inv t d_norm -> D !! t = Some x ->
  Z.land (Z.lor (u32 (Z.shiftl x s)) (Z.shiftr d_norm DIG_SIZE)) DIG_MASK = tdig E t /\
  den_inv (S t) (Z.lor (u32 (Z.shiftl x s)) (Z.shiftr d_norm DIG_SIZE)).
Proof using DD Hnorm.
  intros (Hr & Hc & Hv) Hx. pose proof den_s_bounds as [Hs H2]. 
  pose proof (Forall_lookup_dig _ _ _ DD Hx) as Dx. rewrite dig_shr.
  assert (0 <= d_norm / 65536) by (apply Z.div_pos; lia).
  assert (0 <= Z.shiftl x s < 4294967296) by (rewrite shiftl_mul by lia; nia).
  rewrite u32_small, lor_shifted by lia.
  destruct (stream_step E t _ (d_norm / 65536) (x * 2 ^ s) Hv) as [Hd Hn]; [lia|nia| |].
  { pose proof (bpow_pos (S t)).
    replace (dval (take t D) * 2 ^ s + bpow t * (x * 2 ^ s)) with (dval (take (S t) D) * 2 ^ s)
      by (rewrite (dval_take_S _ _ _ Hx); lia).
    rewrite dval_take_mod by done. unfold E. by rewrite Z.mul_mod_idemp_l by lia. }
  rewrite dig_mask, (Z.add_comm (x * 2 ^ s)). split; [done|]. split; [nia|]. split.
  - rewrite Z.add_comm. destruct (shift_carry s x (d_norm / 65536)) as [-> ?]; [lia|done|lia|lia].
  - rewrite Hn, (dval_take_S _ _ _ Hx). lia.
Qed.

Lemma tdig_E_mod t : E `mod` bpow (S t) = E `mod` bpow t + bpow t * tdig E t.
Proof using. apply tdig_mod_S. Qed.

(** The leading digit of the normalised denominator. *)
Lemma wp_mpn_div_lead (m' : blocks) (Q : Z -> blocks -> Prop) :
  m' !! den = m !! den -> D <> [] ->
  Q (E / bpow (length D - 1)) m' ->
  wp (mpn_div_lead den (Z.of_nat (length D)) s) m' Q.
Proof using Hden DD Hnorm.
  intros Hm HD HQ. pose proof den_s_bounds as [Hs H2].
  assert (holds m' den D) as Hh. { destruct Hden as [r Hr]. exists r. by rewrite Hm. }
  assert (0 < length D)%nat as HlD by (destruct D; [done|cbn; lia]).
  unfold mpn_div_lead, DIG_SIZE.
  replace (Z.of_nat (length D) - 1) with (Z.of_nat (length D - 1)) by lia.
  apply wp_bind, (wp_load_holds _ _ D); [done|lia|]. intros d Hd.
  pose proof (Forall_lookup_dig _ _ _ DD Hd) as Dd. cbv zeta.
  assert (0 <= Z.shiftl d s < 4294967296) by (rewrite shiftl_mul by lia; nia).
  rewrite u32_small by lia.
  assert (dval D = dval (take (length D - 1) D) + bpow (length D - 1) * d) as HvD.
  { rewrite <-(dval_take_S _ _ _ Hd), take_ge by lia. done. }
  pose proof (bpow_pos (length D - 1)) as Hp.
  assert (E / bpow (length D - 1) = d * 2 ^ s + (dval (take (length D - 1) D) * 2 ^ s) / bpow (length D - 1)) as HE.
  { unfold E. rewrite HvD.
    replace ((_ + bpow (length D - 1) * d) * 2 ^ s) with
      (d * 2 ^ s * bpow (length D - 1) + dval (take (length D - 1) D) * 2 ^ s) by lia.
    by rewrite Z.div_add_l by lia. }
  destruct (_ >=? 2) eqn:E2; to_prop.
  - replace (Z.of_nat (length D) - 2) with (Z.of_nat (length D - 2)) by lia.
    apply wp_bind, (wp_load_holds _ _ D); [done|lia|]. intros d2 Hd2.
    pose proof (Forall_lookup_dig _ _ _ DD Hd2) as Dd2.
    destruct (shift_carry s d2 0) as [Hc1 Hc2]; [lia|done|lia|].
    rewrite shiftr_div, lor_shifted by lia. apply wp_ret.
    replace (d * 2 ^ s + d2 / 2 ^ (16 - s)) with (E / bpow (length D - 1)); [done|].
    rewrite HE. f_equal.
    replace (length D - 1)%nat with (S (length D - 2)) by lia.
    rewrite (dval_take_S _ _ _ Hd2), bpow_S.
    pose proof (dval_take_bounds D (length D - 2) DD ltac:(lia)) as Bt.
    pose proof (bpow_pos (length D - 2)) as Hp2.
    set (lo := dval (take (length D - 2) D)) in *. set (P := bpow (length D - 2)) in *.
    rewrite <-Hc1, Z.add_0_r.
    replace ((lo + P * d2) * 2 ^ s) with (d2 * 2 ^ s * P + lo * 2 ^ s) by lia.
    rewrite (Z.mul_comm 65536 P), <-Z.div_div, Z.div_add_l by lia.
    assert (0 <= lo * 2 ^ s / P < 2 ^ s) as Hlo.
    { split; [apply Z.div_pos; nia|]. apply Z.div_lt_upper_bound; nia. }
    destruct (shift_carry s d2 (lo * 2 ^ s / P)) as [-> _]; [lia|done|lia|].
    rewrite Z.add_0_r in Hc1. done.
  - apply wp_ret. replace (Z.shiftl d s) with (E / bpow (length D - 1)); [done|].
    rewrite HE, shiftl_mul by lia. replace (length D - 1)%nat with 0%nat by lia.
    rewrite take_0, bpow_0, Z.div_1_r. change (dval []) with 0. lia.
Qed.

(** Shape of the two inner loops: they rewrite the window [W] of the numerator. *)
Lemma wp_mpn_div_submul num L W H q (num_dig : Z) (Q : Z -> blocks -> Prop) :
  num <> den -> is_Some (m !! num) -> Forall is_dig W -> length W = length D -> 0 <= q <= 65537 ->
  num_dig = Z.of_nat (length L + length D) ->
  (forall outs b, length outs = length D -> Forall is_dig outs -> - q - 1 <= b <= 0 ->
     dval outs + b * bpow (length D) = dval W - q * E ->
     Q b (<[num := L ++ outs ++ H]> m)) ->
  wp (mpn_div_submul num den (Z.of_nat (length D)) s num_dig q) (<[num := L ++ W ++ H]> m) Q.
Proof using Hden DD Hnorm.
  intros Hne Hsome DW HlW Hq -> HQ. unfold mpn_div_submul. apply wp_bind.
  apply (wp_for (fun '(n, d, d_norm, b) m' => exists outs,
      m' = <[num := L ++ outs ++ drop (length outs) W ++ H]> m /\
      (length outs <= length D)%nat /\ n = Z.of_nat (length L + length outs) /\
      d = Z.of_nat (length outs) /\ Forall is_dig outs /\ den_inv (length outs) d_norm /\
      dval outs + b * bpow (length outs) =
        dval (take (length outs) W) - q * (E `mod` bpow (length outs)))
      (fun '(_, d, _, _) => Z.to_nat (Z.of_nat (length D) - d))).
  - exists []. cbn [length app]. rewrite drop_0, take_0, bpow_0, Z.mod_1_r, Nat.add_0_r.
    repeat split; try lia; try done; try apply den_inv_0.
  - lia.
  - intros [[[n d] d_norm] b] m' (outs & -> & Hlen & -> & -> & HDo & Hinv & Hv) Hlt. to_prop.
    set (t := length outs) in *.
    apply wp_bind, (wp_load_insert_ne _ _ _ _ D); [done|done|lia|]. intros x Hx.
    destruct (den_inv_S t d_norm x Hinv Hx) as [Hdig Hinv']. cbv zeta. rewrite Hdig.
    destruct (lookup_lt_is_Some_2 W t ltac:(lia)) as [w Hw].
    pose proof (Forall_lookup_dig _ _ _ DW Hw) as Dw. rewrite (drop_S W w) by done.
    pose proof (tdig_is_dig E t) as De. unfold is_dig in De.
    pose proof (dval_bounds outs HDo) as Bo. fold t in Bo.
    pose proof (dval_take_bounds W t DW ltac:(lia)) as Bw.
    pose proof (Z.mod_pos_bound E (bpow t) (bpow_pos t)) as BE.
    assert (- q - 1 <= b <= 0) as Hb by nia.
    apply wp_bind, (wp_load_split _ _ (L ++ outs) w (drop (S t) W ++ H)).
    { rewrite lookup_insert_eq. by rewrite <-app_assoc. }
    { by rewrite length_app. }
    assert (0 <= q * tdig E t <= 65537 * 65535) as Hx32 by nia.
    rewrite dig_shr in Hinv'. rewrite (u32_small (q * _)) by lia. rewrite !dig_mask, !dig_shr.
    set (y := q * tdig E t) in *.
    pose proof (Z.mod_pos_bound b 65536 ltac:(lia)). pose proof (Z.mod_pos_bound y 65536 ltac:(lia)).
    rewrite (s32_u32 (b `mod` 65536 + w - y `mod` 65536)) by lia.
    set (low := b `mod` 65536 + w - y `mod` 65536) in *.
    pose proof (Z.div_mod b 65536 ltac:(lia)). pose proof (Z.div_mod y 65536 ltac:(lia)).
    pose proof (Z.div_mod low 65536 ltac:(lia)). pose proof (Z.mod_pos_bound low 65536 ltac:(lia)).
    rewrite s32_u32 by lia.
    apply wp_bind, (wp_store_split _ _ (L ++ outs) w (drop (S t) W ++ H)).
    { rewrite lookup_insert_eq. by rewrite <-app_assoc. }
    { by rewrite length_app. }
    apply wp_ret. split; [|lia]. rewrite insert_insert_eq.
    exists (outs ++ [low `mod` 65536]). rewrite length_app. cbn [length]. rewrite Nat.add_1_r. fold t.
    split; [by rewrite <-!app_assoc|]. split; [lia|]. split; [lia|]. split; [lia|].
    split; [by apply Forall_app_2, Forall_singleton|]. split; [done|].
    rewrite dval_snoc, (dval_take_S _ _ _ Hw), tdig_E_mod, bpow_S. fold t.
    replace (q * (E `mod` bpow t + bpow t * tdig E t)) with (q * (E `mod` bpow t) + bpow t * y)
      by (unfold y; lia).
    assert (low `mod` 65536 + 65536 * (b / 65536 - y / 65536 + low / 65536) = b + w - y) by lia.
    nia.
  - intros [[[n d] d_norm] b] m' (outs & -> & Hlen & -> & -> & HDo & Hinv & Hv) Hge. to_prop.
    assert (length outs = length D) as Hl by lia. rewrite Hl in Hv.
    rewrite den_E_small, take_ge in Hv by lia. rewrite drop_ge by lia. cbn [app]. apply wp_ret.
    pose proof (dval_bounds outs HDo) as Bo. rewrite Hl in Bo.
    pose proof (dval_bounds W DW) as Bw. rewrite HlW in Bw.
    destruct Hnorm as (_ & _ & HElt). pose proof den_s_bounds. pose proof (dval_bounds D DD).
    assert (0 <= E < bpow (length D)) by (unfold E; nia).
    apply HQ; [done|done| |done]. nia.
Qed.

Lemma wp_mpn_div_addback num L W H (num_dig : Z) (Q : Z -> blocks -> Prop) :
  num <> den -> is_Some (m !! num) -> Forall is_dig W -> length W = length D ->
  num_dig = Z.of_nat (length L + length D) ->
  (forall outs c, length outs = length D -> Forall is_dig outs -> 0 <= c <= 1 ->
     dval outs + c * bpow (length D) = dval W + E ->
     Q c (<[num := L ++ outs ++ H]> m)) ->
  wp (mpn_div_addback num den (Z.of_nat (length D)) s num_dig) (<[num := L ++ W ++ H]> m) Q.
Proof using Hden DD Hnorm.
  intros Hne Hsome DW HlW -> HQ. unfold mpn_div_addback. apply wp_bind.
  apply (wp_for (fun '(n, d, d_norm, c) m' => exists outs,
      m' = <[num := L ++ outs ++ drop (length outs) W ++ H]> m /\
      (length outs <= length D)%nat /\ n = Z.of_nat (length L + length outs) /\
      d = Z.of_nat (length outs) /\ Forall is_dig outs /\ den_inv (length outs) d_norm /\
      0 <= c <= 1 /\
      dval outs + c * bpow (length outs) =
        dval (take (length outs) W) + E `mod` bpow (length outs))
      (fun '(_, d, _, _) => Z.to_nat (Z.of_nat (length D) - d))).
  - exists []. cbn [length app]. rewrite drop_0, take_0, bpow_0, Z.mod_1_r, Nat.add_0_r.
    repeat split; try lia; try done; try apply den_inv_0.
  - lia.
  - intros [[[n d] d_norm] c] m' (outs & -> & Hlen & -> & -> & HDo & Hinv & Hc & Hv) Hlt. to_prop.
    set (t := length outs) in *.
    apply wp_bind, (wp_load_insert_ne _ _ _ _ D); [done|done|lia|]. intros x Hx.
    destruct (den_inv_S t d_norm x Hinv Hx) as [Hdig Hinv']. cbv zeta. rewrite Hdig.
    destruct (lookup_lt_is_Some_2 W t ltac:(lia)) as [w Hw].
    pose proof (Forall_lookup_dig _ _ _ DW Hw) as Dw. rewrite (drop_S W w) by done.
    pose proof (tdig_is_dig E t) as De. unfold is_dig in De.
    apply wp_bind, (wp_load_split _ _ (L ++ outs) w (drop (S t) W ++ H)).
    { rewrite lookup_insert_eq. by rewrite <-app_assoc. }
    { by rewrite length_app. }
    rewrite u32_add_u32, (u32_small (c + _)), dig_mask, (dig_shr (c + _)) by lia.
    apply wp_bind, (wp_store_split _ _ (L ++ outs) w (drop (S t) W ++ H)).
    { rewrite lookup_insert_eq. by rewrite <-app_assoc. }
    { by rewrite length_app. }
    apply wp_ret. split; [|lia]. rewrite insert_insert_eq.
    eexists (outs ++ [_]). rewrite length_app. cbn [length]. rewrite Nat.add_1_r. fold t.
    split; [by rewrite <-!app_assoc|]. split; [lia|]. split; [lia|]. split; [lia|].
    split; [by apply Forall_app_2, Forall_singleton|]. split; [done|]. split.
    + split; [apply Z.div_pos; lia|]. apply Z.lt_succ_r, Z.div_lt_upper_bound; lia.
    + rewrite dval_snoc, (dval_take_S _ _ _ Hw), tdig_E_mod, bpow_S. fold t.
      pose proof (carry_step (bpow t) (c + (w + tdig E t))). lia.
  - intros [[[n d] d_norm] c] m' (outs & -> & Hlen & -> & -> & HDo & Hinv & Hc & Hv) Hge. to_prop.
    assert (length outs = length D) as Hl by lia. rewrite Hl in Hv.
    rewrite den_E_small, take_ge in Hv by lia. rewrite drop_ge by lia. cbn [app]. apply wp_ret.
    by apply HQ.
Qed.

(** ** One digit of the quotient *)

(** The estimate is at least the true digit and barely above the digit range. *)
Lemma estimate_bounds n T a t' lead :
  0 < n -> T = a * n + t' -> 0 <= t' < n -> 0 <= a ->
  32768 <= lead -> lead * n <= E < (lead + 1) * n -> T < E * 65536 ->
  T / E <= a / lead <= 65537.
Proof using.
  intros Hn -> Ht Ha Hl HE HT. assert (0 < E) by nia. split.
  - apply Z.div_le_lower_bound; [lia|].
    pose proof (Z.mul_div_le (a * n + t') E ltac:(lia)).
    set (q := (a * n + t') / E) in *. assert (0 <= q) by (apply Z.div_pos; nia).
    assert (q * lead * n < (a + 1) * n) by nia. nia.
  - apply Z.lt_succ_r, Z.div_lt_upper_bound; [lia|]. nia.
Qed.

Lemma wp_mpn_div_digit num quo L W top H A y C (num_dig quo_dig : Z) (Q : unit -> blocks -> Prop) :
  num <> den -> num <> quo -> D <> [] ->
  m !! num = Some (L ++ W ++ top :: H) -> m !! quo = Some (A ++ y :: C) ->
  Forall is_dig L -> Forall is_dig W -> is_dig top -> length W = length D ->
  num_dig = Z.of_nat (length L + length D) -> quo_dig = Z.of_nat (length A) ->
  dval (L ++ W ++ [top]) < E * bpow (S (length L)) ->
  (forall W' q, Forall is_dig W' -> length W' = length D -> is_dig q ->
     dval (L ++ W ++ [top]) = q * E * bpow (length L) + dval (L ++ W') ->
     dval (L ++ W') < E * bpow (length L) ->
     Q tt (<[quo := A ++ q :: C]> (<[num := L ++ W' ++ top :: H]> m))) ->
  wp (mpn_div_digit num den quo (Z.of_nat (length D)) s (E / bpow (length D - 1)) num_dig quo_dig) m Q.
Proof using Hden DD Hnorm.
  intros Hnd Hnq HDne Hnum Hquo DL DW Dtop HlW -> -> HV HQ.
  pose proof den_s_bounds as [Hs H2]. destruct Hnorm as (_ & Hlo & Hhi). fold E in Hlo, Hhi.
  assert (length D = S (length D - 1)) as HlD by (destruct D; [done|cbn; lia]).
  set (dl := (length D - 1)%nat) in *. pose proof (bpow_pos dl) as Hp.
  assert (bpow (length D) = 65536 * bpow dl) as HB by (rewrite HlD; apply bpow_S).
  destruct W as [|wt W0 _] using rev_ind; [cbn in HlW; lia|].
  rewrite length_app in HlW. cbn in HlW. assert (length W0 = dl) as HlW0 by lia.
  pose proof DW as DW'. apply Forall_app in DW' as [DW0 Dwt]. apply Forall_cons_1 in Dwt as [Dwt _].
  set (T := dval (W0 ++ [wt]) + top * bpow (length D)).
  pose proof (bpow_pos (length L)) as HpL. pose proof (dval_bounds L DL) as BL.
  assert (dval (L ++ (W0 ++ [wt]) ++ [top]) = dval L + bpow (length L) * T) as HVT.
  { rewrite dval_app, dval_snoc, length_app. cbn [length].
    replace (length W0 + 1)%nat with (length D) by lia. unfold T. lia. }
  rewrite HVT in *. rewrite bpow_S in HV. assert (T < E * 65536) as HT by nia.
  pose proof (dval_bounds W0 DW0) as BW0. rewrite HlW0 in BW0. unfold is_dig in Dtop, Dwt.
  assert (T = (top * 65536 + wt) * bpow dl + dval W0) as HTa.
  { unfold T. rewrite dval_snoc, HlW0, HB. lia. }
  set (lead := E / bpow dl) in *. pose proof (Z.div_mod E (bpow dl) ltac:(lia)) as HEd.
  pose proof (Z.mod_pos_bound E (bpow dl) Hp) as HEm. fold lead in HEd.
  assert (32768 <= lead) as Hlead by nia.
  destruct (estimate_bounds (bpow dl) T (top * 65536 + wt) (dval W0) lead) as [Hq1 Hq2];
    [lia|done|lia|lia|done|split; lia|done|].
  set (q0 := (top * 65536 + wt) / lead) in *. set (qt := T / E) in *.
  assert (0 < E) as HE0 by nia. assert (0 <= T) as HT0 by nia.
  assert (0 <= qt < 65536) as Hqt.
  { split; [apply Z.div_pos; lia|]. apply Z.div_lt_upper_bound; lia. }
  pose proof (Z.div_mod T E ltac:(lia)) as HTd. pose proof (Z.mod_pos_bound T E HE0) as HTm.
  fold qt in HTd. unfold mpn_div_digit.
  apply wp_bind, (wp_load_split _ _ (L ++ W0 ++ [wt]) top H).
  { rewrite Hnum. by rewrite <-!app_assoc. }
  { rewrite !length_app. cbn. lia. }
  apply wp_bind, (wp_load_split _ _ (L ++ W0) wt (top :: H)).
  { rewrite Hnum. by rewrite <-!app_assoc. }
  { rewrite length_app. lia. }
  cbv zeta. rewrite dig_shl, u32_small, dig_lor by lia. fold q0.
  apply wp_bind. rewrite <-(insert_id m num (L ++ (W0 ++ [wt]) ++ top :: H)) by done.
  apply wp_mpn_div_submul; [done|by eexists|done|by rewrite length_app; cbn; lia|lia|done|].
  intros W1 b0 HlW1 DW1 Hb0 Hv1.
  apply wp_bind, (wp_load_split _ _ (L ++ W1) top H).
  { rewrite lookup_insert_eq. by rewrite <-app_assoc. }
  { rewrite length_app. lia. }
  rewrite s32_small by lia.
  assert (forall W' b q, Forall is_dig W' -> length W' = length D -> qt <= q <= q0 ->
    dval W' + b * bpow (length D) = T - q * E -> -65538 <= b <= 0 /\ (b = 0 <-> q = qt)) as Hbq.
  { intros W' b q DW2 HlW2 Hq Hv. pose proof (dval_bounds W' DW2) as B2. rewrite HlW2 in B2.
    by apply (borrow_zero E (bpow (length D)) qt (T `mod` E) q (dval W') b); lia. }
  apply wp_bind.
  apply (wp_for (fun '(b, q) m' => exists W', m' = <[num := L ++ W' ++ top :: H]> m /\
      Forall is_dig W' /\ length W' = length D /\ qt <= q <= q0 /\
      dval W' + b * bpow (length D) = T - q * E)
      (fun '(_, q) => Z.to_nat (q - qt))).
  - exists W1. repeat split; [done|done|lia|lia|]. unfold T. lia.
  - lia.
  - intros [b q] m' (W' & -> & DW2 & HlW2 & Hq & Hv) Hb. to_prop.
    destruct (Hbq W' b q DW2 HlW2 Hq Hv) as [Hbr Hbz].
    apply wp_bind, wp_mpn_div_addback; [done|by eexists|done|done|done|].
    intros W3 c HlW3 DW3 Hc Hv3. apply wp_ret.
    rewrite s32_u32, u32_small by lia. split; [|lia]. exists W3.
    repeat split; [done|done|lia|lia|]. lia.
  - intros [b q] m' (W' & -> & DW2 & HlW2 & Hq & Hv) Hb. to_prop. subst b.
    destruct (Hbq W' 0 q DW2 HlW2 Hq Hv) as [_ Hbz]. assert (q = qt) as -> by tauto.
    rewrite dig_mask, Z.mod_small by lia.
    apply (wp_store_split _ _ A y C); [by rewrite lookup_insert_ne|done|].
    assert (dval (L ++ W') = dval L + bpow (length L) * (T - qt * E)) as HvR.
    { rewrite dval_app. lia. }
    apply HQ; [done|done|done|rewrite HvR; lia|]. rewrite HvR. nia.
Qed.

End Den.

(** ** Correctness of the division of digit arrays: the loop and the remainder

    The digit loop of [mpn_div] leaves the quotient and the shifted remainder;
    the final loops undo the shift and drop the leading zero digits. *)

(** ** Undoing the shift *)

Lemma unshift_step s n v : 0 <= s <= 15 -> is_dig n -> 0 <= v ->
  let carry := (v `mod` 2 ^ s) * 2 ^ (16 - s) in
  Z.lor (n / 2 ^ s) carry = n / 2 ^ s + carry /\
  is_dig (n / 2 ^ s + carry) /\
  n / 2 ^ s + carry + 65536 * (v / 2 ^ s) = (n + 65536 * v) / 2 ^ s /\
  u16 (u32 (n * 2 ^ (16 - s))) = ((n + 65536 * v) `mod` 2 ^ s) * 2 ^ (16 - s).
Proof.
  intros Hs Dn Hv carry. unfold is_dig in Dn.
  assert (65536 = 2 ^ s * 2 ^ (16 - s)) as H16.
  { rewrite <-Z.pow_add_r by lia. by replace (s + (16 - s)) with 16 by lia. }
  assert (0 < 2 ^ s) as Hp by lia. assert (0 < 2 ^ (16 - s)) as Hp' by lia.
  pose proof (Z.mod_pos_bound v (2 ^ s) Hp) as Hm.
  assert (0 <= n / 2 ^ s < 2 ^ (16 - s)) as Hn.
  { split; [apply Z.div_pos; lia|]. apply Z.div_lt_upper_bound; lia. }
  assert (n / 2 ^ s + carry < 65536) as Hlt by (unfold carry; nia).
  assert ((n + 65536 * v) = n + (v * 2 ^ (16 - s)) * 2 ^ s) as Hnv by (rewrite H16; ring).
  split; [|split; [|split]].
  - rewrite Z.lor_comm. unfold carry. rewrite (lor_add_disjoint (16 - s)) by lia. lia.
  - unfold is_dig. unfold carry in *. nia.
  - rewrite Hnv, Z.div_add by lia. unfold carry. rewrite H16.
    pose proof (Z.div_mod v (2 ^ s)). nia.
  - rewrite Hnv, Z.mod_add by lia. rewrite u32_small.
    2:{ assert (2 ^ (16 - s) <= 2 ^ 16) by (apply Z.pow_le_mono_r; lia). nia. }
    unfold uwrap. change (2 ^ 16) with 65536. rewrite H16 at 1.
    by rewrite Z.mul_mod_distr_r by lia.
Qed.

Lemma wp_mpn_div_unshift m num X rest s (Q : unit -> blocks -> Prop) :
  m !! num = Some (X ++ rest) -> Forall is_dig X -> 0 <= s <= 15 ->
  (forall outs, length outs = length X -> Forall is_dig outs -> dval outs = dval X / 2 ^ s ->
     Q tt (<[num := outs ++ rest]> m)) ->
  wp (mpn_div_unshift num (Z.of_nat (length X)) s) m Q.
Proof.
  intros Hm DX Hs HQ. unfold mpn_div_unshift, DIG_SIZE. apply wp_bind.
  apply (wp_for (fun '(p, c) m' => exists pre suf outs, X = pre ++ suf /\
      m' = <[num := pre ++ outs ++ rest]> m /\ p = Z.of_nat (length pre) - 1 /\
      length outs = length suf /\ Forall is_dig outs /\ dval outs = dval suf / 2 ^ s /\
      c = (dval suf `mod` 2 ^ s) * 2 ^ (16 - s))
      (fun '(p, _) => Z.to_nat (p + 1))).
  - exists X, [], []. rewrite app_nil_r. cbn [app dval foldr].
    rewrite Z.div_0_l, Z.mod_0_l, insert_id by (done || lia). repeat split; (done || lia).
  - lia.
  - intros [p c] m' (pre & suf & outs & -> & -> & -> & Hlen & DO & Hv & ->) Hge. to_prop.
    destruct pre as [|n pre _] using rev_ind; [cbn in Hge; lia|].
    rewrite length_app in *. cbn [length] in *. apply Forall_app in DX as [DX Dsuf].
    apply Forall_app in DX as [Dpre Dn]. apply Forall_cons_1 in Dn as [Dn _].
    pose proof (dval_bounds suf Dsuf) as Bs.
    destruct (unshift_step s n (dval suf) Hs Dn ltac:(lia)) as (Hlor & Hdig & Hdiv & Hc).
    apply wp_bind, (wp_load_split _ _ pre n (outs ++ rest)).
    { rewrite lookup_insert_eq. by rewrite <-app_assoc. } { lia. }
    rewrite shiftr_div, Hlor, dig_mask, (Z.mod_small _ _ Hdig) by lia.
    apply wp_bind, (wp_store_split _ _ pre n (outs ++ rest)).
    { rewrite lookup_insert_eq. by rewrite <-app_assoc. } { lia. }
    rewrite insert_insert_eq, shiftl_mul by lia. apply wp_ret. split; [|lia].
    eexists pre, (n :: suf), (_ :: outs). split; [by rewrite <-app_assoc|].
    split; [done|]. split; [lia|]. split; [cbn; lia|]. split; [by constructor|].
    rewrite !dval_cons, Hv. done.
  - intros [p c] m' (pre & suf & outs & -> & -> & -> & Hlen & DO & Hv & ->) Hge. to_prop.
    destruct pre as [|n pre]; [|cbn in Hge; lia]. cbn [app]. apply wp_ret. by apply HQ.
Qed.

(** ** The digit loop *)

Lemma insert_pair_collapse (m : blocks) i j a b a' b' : i <> j ->
  <[j := b']> (<[i := a']> (<[j := b]> (<[i := a]> m))) = <[j := b']> (<[i := a']> m).
Proof.
  intros Hij. rewrite (insert_insert_ne _ i j) by done. rewrite insert_insert_eq.
  by rewrite insert_insert_eq.
Qed.

Lemma wp_mpn_div_loop m num den quo D s (E : Z) X H A C qn (Q : Z * Z * Z -> blocks -> Prop) :
  holds m den D -> Forall is_dig D -> norm_ok D s -> E = dval D * 2 ^ s ->
  num <> den -> num <> quo -> den <> quo -> D <> [] ->
  m !! num = Some (X ++ H) -> m !! quo = Some (A ++ C) ->
  Forall is_dig X -> length X = (length D + qn)%nat -> length A = qn ->
  dval X < E * bpow qn ->
  (forall R Qs H' x y, Forall is_dig R -> length R = length D -> Forall is_dig Qs ->
     length Qs = qn -> length (R ++ H') = length (X ++ H) ->
     dval X = dval Qs * E + dval R -> dval R < E ->
     Q (Z.of_nat (length R), x, y) (<[quo := Qs ++ C]> (<[num := R ++ H']> m))) ->
  wp (for_ (Z.to_nat (Z.of_nat (length X)) + 1) (fun '(num_len, _, _) => num_len >? Z.of_nat (length D))
      (fun '(num_len, num_dig, quo_dig) =>
         _ ← mpn_div_digit num den quo (Z.of_nat (length D)) s (E / bpow (length D - 1)) num_dig quo_dig;
         mret (num_len - 1, num_dig - 1, quo_dig - 1))
      (Z.of_nat (length X), Z.of_nat (length X) - 1, Z.of_nat qn - 1)) m Q.
Proof.
  intros Hden DD Hnorm HE Hnd Hnq Hdq HDne Hnum Hquo DX HlX HlA HX HQ.
  apply (wp_for (fun '(nl, nd, qd) m' => exists Y H' A' Qs,
      m' = <[quo := A' ++ Qs ++ C]> (<[num := Y ++ H']> m) /\ Forall is_dig Y /\
      Forall is_dig Qs /\ length Y = (length D + length A')%nat /\
      (length A' + length Qs = qn)%nat /\ length (Y ++ H') = length (X ++ H) /\
      nl = Z.of_nat (length Y) /\ nd = nl - 1 /\ qd = Z.of_nat (length A') - 1 /\
      dval X = dval Qs * E * bpow (length A') + dval Y /\ dval Y < E * bpow (length A'))
      (fun '(nl, _, _) => Z.to_nat nl)).
  - exists X, H, A, []. rewrite (insert_id m num) by done. cbn [app length dval foldr].
    rewrite insert_id by done. repeat split; try done; try lia. by rewrite HlA.
  - lia.
  - intros [[nl nd] qd] m' (Y & H' & A' & Qs & -> & DY & DQ & HlY & HlQ & HlH & -> & -> & -> & Hv & Hlt) Hgt.
    to_prop. destruct A' as [|y A' _] using rev_ind; [cbn in HlY; lia|].
    rewrite length_app in *. cbn [length] in *.
    destruct Y as [|top Y _] using rev_ind; [cbn in HlY; lia|].
    rewrite length_app in HlY. cbn [length] in HlY.
    assert (exists L W, Y = L ++ W /\ length L = length A') as (L & W & -> & HlL).
    { exists (take (length A') Y), (drop (length A') Y). rewrite take_drop, length_take. split; [done|lia]. }
    rewrite length_app in HlY. assert (length W = length D) as HlW by lia.
    apply Forall_app in DY as [DY Dtop]. apply Forall_app in DY as [DL DW].
    apply Forall_cons_1 in Dtop as [Dtop _]. rewrite <-app_assoc in Hv, Hlt.
    rewrite Nat.add_1_r in Hv, Hlt.
    apply wp_bind. rewrite HE. eapply (wp_mpn_div_digit _ den D s) with (L := L) (W := W) (A := A');
      try done.
    { destruct Hden as [r Hr]. exists r. by rewrite !lookup_insert_ne. }
    { rewrite lookup_insert_ne, lookup_insert_eq by done. by rewrite <-!app_assoc. }
    { rewrite lookup_insert_eq. by rewrite <-app_assoc. }
    { rewrite !length_app. cbn. lia. }
    { lia. }
    { rewrite HlL. by rewrite <-HE. }
    rewrite <-HE, HlL. intros W' q DW' HlW' Dq Hv' Hlt'. apply wp_ret.
    rewrite !length_app. cbn [length]. split; [|lia].
    exists (L ++ W'), (top :: H'), A', (q :: Qs). rewrite insert_pair_collapse by done.
    split; [by rewrite <-app_assoc|]. split; [by apply Forall_app_2|].
    split; [by constructor|]. rewrite !length_app in *. cbn [length] in *.
    repeat split; try lia. rewrite dval_cons, Hv, Hv', bpow_S. ring.
  - intros [[nl nd] qd] m' (Y & H' & A' & Qs & -> & DY & DQ & HlY & HlQ & HlH & -> & -> & -> & Hv & Hlt) Hgt.
    to_prop. destruct A' as [|y A']; [|cbn in HlY; lia]. cbn [length app] in *.
    rewrite bpow_0 in *. apply HQ; try done; lia.
Qed.

(** ** The whole division *)

(** What [mpn_div] promises. *)
Definition div_result (m m' : blocks) (num quo : nat) (N D : list Z) (R Q : list Z) : Prop :=
  (exists m1, wrote m m1 num R /\ wrote m1 m' quo Q) /\ Forall is_dig R /\ Forall is_dig Q /\
  normal R /\ normal Q /\ dval N = dval Q * dval D + dval R /\ 0 <= dval R < dval D.

Lemma div_qr_strip (R : list Z) res zs : R = res ++ zs -> dval zs = 0 -> dval res = dval R.
Proof. intros -> Hz. rewrite dval_app, Hz. lia. Qed.

(** Division proper, for a numerator larger than the denominator. *)
Lemma wp_mpn_div_large m num den quo N D d s (Q : Z * Z -> blocks -> Prop) :
  holds m num N -> holds m den (D ++ [d]) -> Forall is_dig N -> Forall is_dig (D ++ [d]) ->
  d <> 0 -> (length D < length N)%nat -> 0 <= s <= 15 -> norm_ok (D ++ [d]) s ->
  num <> den -> num <> quo -> den <> quo -> room m num (S (length N)) -> room m quo (length N) ->
  (forall m' R Qs, div_result m m' num quo N (D ++ [d]) R Qs ->
     Q (Z.of_nat (length R), Z.of_nat (length Qs)) m') ->
  wp (_ ← store num (Z.of_nat (length N)) 0;
      _ ← mpn_div_shift_num num (Z.of_nat (length N) + 1) s;
      lead ← mpn_div_lead den (Z.of_nat (length (D ++ [d]))) s;
      '(num_len, _, _) ← for_ (Z.to_nat (Z.of_nat (length N) + 1) + 1)
        (fun '(num_len, _, _) => num_len >? Z.of_nat (length (D ++ [d])))
        (fun '(num_len, num_dig, quo_dig) =>
           _ ← mpn_div_digit num den quo (Z.of_nat (length (D ++ [d]))) s lead num_dig quo_dig;
           mret (num_len - 1, num_dig - 1, quo_dig - 1))
        (Z.of_nat (length N) + 1, Z.of_nat (length N) + 1 - 1,
         Z.of_nat (length N) + 1 - Z.of_nat (length (D ++ [d])) - 1);
      _ ← mpn_div_unshift num num_len s;
      quo_len ← mpn_div_strip quo (Z.of_nat (length N) + 1 - Z.of_nat (length (D ++ [d])));
      num_len ← mpn_div_strip num num_len;
      mret (num_len, quo_len)) m Q.
Proof.
  intros Hn Hd DN DD Hd0 HlN Hs Hnorm Hnd Hnq Hdq Hrn Hrq HQ.
  set (E := dval (D ++ [d]) * 2 ^ s) in *. assert (D ++ [d] <> []) as Hne by by destruct D.
  assert (length (D ++ [d]) = S (length D)) as HlD by (rewrite length_app; cbn; lia).
  destruct Hn as [rn Hn]. pose proof Hn as Hn'. destruct Hrn as (ln & Hln & Hrn).
  rewrite Hn in Hln. simplify_eq. rewrite length_app in Hrn.
  destruct rn as [|z rn]; [cbn in Hrn; lia|].
  apply wp_bind, (wp_store_split _ _ N z rn); [done|done|].
  assert (2 ^ s <= 2 ^ 15) as H2 by (apply Z.pow_le_mono_r; lia). assert (0 < 2 ^ s) as H2' by lia.
  pose proof (dval_bounds N DN) as BN. pose proof (bpow_pos (length N)) as HpN.
  assert (length (N ++ [0]) = S (length N)) as HlN0 by (rewrite length_app; cbn; lia).
  assert (dval (N ++ [0]) = dval N) as HvN by (rewrite dval_snoc; lia).
  replace (Z.of_nat (length N) + 1) with (Z.of_nat (length (N ++ [0]))) by lia.
  apply wp_bind, (wp_mpn_div_shift_num _ _ (N ++ [0])); [|by apply Forall_app_2, Forall_singleton|done| |].
  { exists rn. rewrite lookup_insert_eq. by rewrite <-app_assoc. }
  { rewrite HlN0, HvN, bpow_S. change (2 ^ 15) with 32768 in H2. nia. }
  intros X m1 HlX DX HvX (l0 & l1 & Hl0 & -> & Hl1 & rest & ->).
  rewrite lookup_insert_eq in Hl0. simplify_eq. rewrite insert_insert_eq.
  rewrite <-HlX. rewrite HlN0 in HlX.
  apply wp_bind, (wp_mpn_div_lead _ _ _ _ Hd DD Hnorm); [by rewrite lookup_insert_ne|done|].
  destruct Hrq as (lq & Hlq & Hrq). set (qn := (length N - length D)%nat).
  assert (exists A C, lq = A ++ C /\ length A = qn) as (A & C & -> & HlA).
  { exists (take qn lq), (drop qn lq). rewrite take_drop, length_take. split; [done|lia]. }
  replace (Z.of_nat (length X) - Z.of_nat (length (D ++ [d]))) with (Z.of_nat qn) by lia.
  assert (bpow (length D) <= dval (D ++ [d])) as HvD.
  { pose proof (dval_normal_lower D d DD Hd0). lia. }
  apply wp_bind, (wp_mpn_div_loop _ num den quo (D ++ [d]) s E X rest A C qn); try done; try lia.
  { destruct Hd as [r Hd]. exists r. by rewrite lookup_insert_ne. }
  { by rewrite lookup_insert_eq. } { by rewrite lookup_insert_ne. }
  { rewrite HvX, HvN. assert (bpow (length N) = bpow (length D) * bpow qn) as HB.
    { rewrite <-bpow_add. f_equal. lia. }
    pose proof (bpow_pos qn). assert (dval N < dval (D ++ [d]) * bpow qn) by nia. unfold E. nia. }
  intros R Qs H' x y DR HlR DQ HlQ HlH Hv Hlt.
  apply wp_bind, (wp_mpn_div_unshift _ _ R H'); [by rewrite lookup_insert_ne, lookup_insert_eq|done|done|].
  intros R1 HlR1 DR1 HvR1. rewrite (insert_insert_ne _ num quo), insert_insert_eq, insert_insert_eq by done.
  assert (dval R1 = dval N - dval Qs * dval (D ++ [d])) as HR1.
  { rewrite HvR1. rewrite HvX, HvN in Hv. unfold E in Hv.
    replace (dval R) with ((dval N - dval Qs * dval (D ++ [d])) * 2 ^ s) by lia.
    by rewrite Z.div_mul by lia. }
  replace qn with (length Qs) by done.
  apply wp_bind, wp_strip_loop; [done|lia|done|by eexists; rewrite lookup_insert_eq|lia|].
  intros Q1 zq -> HzQ NQ1. rewrite <-HlR1.
  apply wp_bind, wp_strip_loop; [done|lia|done| |lia|].
  { eexists. by rewrite lookup_insert_ne, lookup_insert_eq. }
  intros R2 zr -> HzR NR2. apply wp_ret. rewrite (dval_app Q1), HzQ in *.
  rewrite (dval_app R2), HzR in *.
  apply HQ. apply Forall_app in DR1 as [DR1 _]. apply Forall_app in DQ as [DQ _].
  split; [|split; [done|split; [done|split; [done|split; [done|]]]]].
  2:{ rewrite HvX, HvN in Hv. pose proof (dval_bounds R2 DR1). unfold E in *. nia. }
  exists (<[num := R2 ++ zr ++ H']> m). rewrite <-!app_assoc. rewrite !length_app in *. split.
  - eapply wrote_intro; [done|]. rewrite !length_app in *. cbn [length] in *. lia.
  - eapply wrote_intro; [by rewrite lookup_insert_ne|]. rewrite !length_app in *. lia.
Qed.

(** [mpn_div] computes quotient and remainder, for every pair of normalised
    numbers. *)
Lemma wp_mpn_div m num den quo N D (Q : Z * Z -> blocks -> Prop) :
  holds m num N -> holds m den D -> Forall is_dig N -> Forall is_dig D ->
  normal N -> normal D -> D <> [] ->
  num <> den -> num <> quo -> den <> quo ->
  room m num (S (length N)) -> room m quo (S (length N)) ->
  (forall m' R Qs, div_result m m' num quo N D R Qs ->
     Q (Z.of_nat (length R), Z.of_nat (length Qs)) m') ->
  wp (mpn_div num (Z.of_nat (length N)) den (Z.of_nat (length D)) quo) m Q.
Proof.
  intros Hn Hd DN DD NN ND Hne Hnd Hnq Hdq Hrn Hrq HQ. unfold mpn_div.
  pose proof (dval_nonzero_pos D DD ND Hne) as HD0. pose proof (dval_bounds N DN) as BN.
  apply wp_bind, (wp_mpn_cmp _ _ N _ D); try done.
  destruct (Z.compare_spec (dval N) (dval D)) as [Heq|Hlt|Hgt].
  - replace (Z.sgn _) with 0 by lia. cbn [Z.eqb]. destruct Hrq as ([|y C] & Hq & Hlq); [cbn in Hlq; lia|].
    apply wp_bind, (wp_store_split _ _ [] y C); [done|done|]. apply wp_ret.
    apply (HQ _ [] [1]). split; [|repeat split; try done; try (cbn; lia)].
    2:{ apply Forall_singleton. unfold is_dig. lia. }
    exists m. split; [apply wrote_refl; destruct Hn as [r Hr]; by eexists|].
    by eapply (wrote_intro _ _ _ [1]).
  - replace (Z.sgn _) with (-1) by lia. cbn [Z.eqb Z.ltb Z.compare].
    apply wp_ret, (HQ _ N []). split; [|repeat split; try done; try (cbn; lia)].
    exists m. split; [by apply wrote_refl|]. destruct Hrq as (lq & Hq & _). apply wrote_refl. by exists lq.
  - replace (Z.sgn _) with 1 by lia. cbn [Z.eqb Z.ltb Z.compare].
    destruct D as [|d D _] using rev_ind; [done|].
    apply normal_snoc in ND. pose proof DD as DD'. apply Forall_app in DD' as [_ Dd].
    apply Forall_cons_1 in Dd as [Dd _]. unfold is_dig in Dd.
    assert (length (D ++ [d]) = S (length D)) as HlD by (rewrite length_app; cbn; lia).
    assert (length D < length N)%nat as HlN.
    { assert (~ (length N < length (D ++ [d]))%nat); [|lia]. intros Hl.
      pose proof (dval_normal_length_lt N (D ++ [d]) DN DD ltac:(by apply normal_snoc) Hl). lia. }
    replace (Z.of_nat (length (D ++ [d])) - 1) with (Z.of_nat (length D)) by lia.
    apply wp_bind. eapply wp_load_holds; [done|lia|]. intros x Hx.
    rewrite list_lookup_middle in Hx by done. simplify_eq.
    apply wp_bind, wp_mpn_div_norm_shift; [lia|]. intros s Hs Hds.
    eapply wp_mpn_div_large; try done; [by apply norm_ok_intro|].
    eapply room_mono; [done|lia].
Qed.
