(* ===== verification/Mpz.v ===== *)
(** * Arbitrary-precision integers (py/mpz.c, py/mpz.h)

    The [mpz_*] functions over a store of [mpz_t] structures.  A structure is
    identified by a number; its digit array is the block of the same number, so a
    structure passed twice to a function is one structure, as in the C code.  The
    null digit pointer of a fresh structure is the empty block.  Temporary
    structures and arrays ([mpz_clone], locals) take the next unused number. *)
From S2P Require Import Prelude.
From S2P Require Import CMem.
From S2P Require Import Mpn.
Local Open Scope Z_scope.

(** The fields of [mpz_t], [dig] apart. *)
Record mpz_t := MkMpz { neg : Z; fixed_dig : Z; alloc : Z; len : Z }.

Record mpz_store := MkStore { digs : blocks; hdr : gmap nat mpz_t; nxt : nat }.

Definition set_digs (m : blocks) (st : mpz_store) : mpz_store := MkStore m (hdr st) (nxt st).
Definition set_hdr (h : gmap nat mpz_t) (st : mpz_store) : mpz_store := MkStore (digs st) h (nxt st).

(** What uninitialised heap memory holds. *)
Class Heap := junk : nat -> Z -> nat -> Z.

(** The field [alloc] has 30 bits; a digit array that does not fit it is larger
    than the heap, and [m_renew] does not return. *)
Definition MAX_DIG : Z := 2 ^ 30.

Section Mpz.
Context {heap : Heap}.

Definition Mz : Type -> Type := M mpz_store.

(** ** Structures and their fields *)

Definition fields (z : nat) : Mz mpz_t :=
  fun st => h ← hdr st !! z; Some (h, st).

Definition set_fields (z : nat) (h : mpz_t) : Mz unit :=
  modify (fun st => set_hdr (<[z := h]> (hdr st)) st).

Definition get_neg (z : nat) : Mz Z := h ← fields z; mret (neg h).
Definition get_len (z : nat) : Mz Z := h ← fields z; mret (len h).

Definition set_neg (z : nat) (n : Z) : Mz unit :=
  h ← fields z; set_fields z (MkMpz n (fixed_dig h) (alloc h) (len h)).

Definition set_len (z : nat) (n : Z) : Mz unit :=
  h ← fields z; set_fields z (MkMpz (neg h) (fixed_dig h) (alloc h) n).

(** Run a function on digit arrays. *)
Definition mpn {A} (c : M blocks A) : Mz A := on_part digs set_digs c.

(** A structure or an array with an unused number. *)
Definition new_id : Mz nat :=
  fun st => Some (nxt st, MkStore (digs st) (hdr st) (S (nxt st))).

(** ** Allocation *)

Definition MIN_ALLOC : Z := 2.

Definition mpz_init_zero (z : nat) : Mz unit :=
  _ ← set_fields z (MkMpz 0 0 0 0);
  modify (fun st => set_digs (<[z := []]> (digs st)) st).

Definition mpz_deinit (z : nat) : Mz unit :=
  h ← fields z;
  if fixed_dig h =? 0 then modify (fun st => set_digs (delete z (digs st)) st) else mret tt.

Definition mpz_free (z : nat) : Mz unit :=
  modify (fun st => MkStore (delete z (digs st)) (delete z (hdr st)) (nxt st)).

(** A local structure goes out of scope. *)
Definition end_scope (z : nat) : Mz unit := modify (fun st => set_hdr (delete z (hdr st)) st).

(** [m_renew]: the old digits are kept, the new ones are uninitialised. *)
Definition m_renew (z : nat) (need : Z) : Mz unit :=
  _ ← assert_ (need <? MAX_DIG);
  modify (fun st => set_digs (alter (fun l =>
    take (Z.to_nat need) l
    ++ map (junk z need) (seq (length l) (Z.to_nat need - length l))) z (digs st)) st).

Definition mpz_need_dig (z : nat) (need : Z) : Mz unit :=
  let need := if need <? MIN_ALLOC then MIN_ALLOC else need in
  h ← fields z;
  dig ← (fun st => l ← digs st !! z; Some (l, st)) : Mz (list Z);
  if (match dig with [] => true | _ => false end) || (alloc h <? need) then
    _ ← assert_ (fixed_dig h =? 0);
    _ ← m_renew z need;
    set_fields z (MkMpz (neg h) (fixed_dig h) need (len h))
  else mret tt.

Definition mpz_clone (src : nat) : Mz nat :=
  h ← fields src;
  _ ← assert_ (negb (alloc h =? 0));
  z ← new_id;
  _ ← set_fields z (MkMpz (neg h) 0 (alloc h) (len h));
  l ← (fun st => l ← digs st !! src; Some (l, st)) : Mz (list Z);
  _ ← modify (fun st => set_digs (<[z := take (Z.to_nat (alloc h)) l]> (digs st)) st);
  mret z.

(** [memcpy(dest->dig, src->dig, n * sizeof(mpz_dig_t))]. *)
Definition memcpy_dig (dest src : nat) (n : Z) : M blocks unit :=
  _ ← for_ (Z.to_nat n + 1) (fun k => k <? n)
        (fun k => x ← load src k; _ ← store dest k x; mret (k + 1)) 0;
  mret tt.

(** ** Assignment and conversion from machine integers *)

Definition mpz_set (dest src : nat) : Mz unit :=
  n ← get_len src;
  _ ← mpz_need_dig dest n;
  b ← get_neg src; _ ← set_neg dest b;
  n ← get_len src; _ ← set_len dest n;
  n ← get_len src;
  mpn (memcpy_dig dest src n).

Definition MPZ_NUM_DIG_FOR_INT : Z := (4 * 8 + DIG_SIZE - 1) / DIG_SIZE.
Definition MPZ_NUM_DIG_FOR_LL : Z := (8 * 8 + DIG_SIZE - 1) / DIG_SIZE.

(** The loop that writes the digits of an unsigned machine integer. *)
Definition put_digits (z : nat) (uval : Z) : Mz unit :=
  _ ← set_len z 0;
  _ ← for_ 5 (fun uval => uval >? 0)
        (fun uval =>
           n ← get_len z;
           _ ← mpn (store z n (Z.land uval DIG_MASK)); _ ← set_len z (n + 1);
           mret (Z.shiftr uval DIG_SIZE)) uval;
  mret tt.

(** The negation is that of an [mp_int_t]: of -2^31 it has no meaning. *)
Definition mpz_set_from_int (z : nat) (val : Z) : Mz unit :=
  if val =? 0 then _ ← set_neg z 0; set_len z 0
  else
    _ ← mpz_need_dig z MPZ_NUM_DIG_FOR_INT;
    uval ← (if val <? 0 then _ ← set_neg z 1; v ← sint (- val); mret (u32 v)
            else _ ← set_neg z 0; mret (u32 val));
    put_digits z uval.

Definition mpz_set_from_ll (z : nat) (val : Z) (is_signed : bool) : Mz unit :=
  _ ← mpz_need_dig z MPZ_NUM_DIG_FOR_LL;
  uval ← (if is_signed && (val <? 0) then _ ← set_neg z 1; mret (u64 (- u64 val))
          else _ ← set_neg z 0; mret (u64 val));
  put_digits z uval.

Definition mpz_init_from_int (z : nat) (val : Z) : Mz unit :=
  _ ← mpz_init_zero z; mpz_set_from_int z val.

(** The digit array [dig], of [alloc] entries, belongs to the caller. *)
Definition mpz_init_fixed_from_int (z : nat) (dig : list Z) (alloc : Z) (val : Z) : Mz unit :=
  _ ← set_fields z (MkMpz 0 1 alloc 0);
  _ ← modify (fun st => set_digs (<[z := dig]> (digs st)) st);
  mpz_set_from_int z val.

(** ** Comparison and sign *)

Definition mpz_is_zero (z : nat) : Mz bool := n ← get_len z; mret (n =? 0).
Definition mpz_is_neg (z : nat) : Mz bool := b ← get_neg z; mret (negb (b =? 0)).

Definition mpn_cmp_z (z1 z2 : nat) : Mz Z :=
  n1 ← get_len z1; n2 ← get_len z2; mpn (mpn_cmp z1 n1 z2 n2).

Definition mpz_cmp (z1 z2 : nat) : Mz Z :=
  s2 ← get_neg z2; s1 ← get_neg z1;
  let cmp := s2 - s1 in
  if negb (cmp =? 0) then mret cmp
  else
    cmp ← mpn_cmp_z z1 z2;
    s1 ← get_neg z1;
    if negb (s1 =? 0) then mret (- cmp) else mret cmp.

Definition mpz_abs_inpl (dest z : nat) : Mz unit :=
  _ ← (if negb (dest =? z)%nat then mpz_set dest z else mret tt);
  set_neg dest 0.

Definition mpz_neg_inpl (dest z : nat) : Mz unit :=
  _ ← (if negb (dest =? z)%nat then mpz_set dest z else mret tt);
  n ← get_len dest;
  if negb (n =? 0) then b ← get_neg dest; set_neg dest (1 - b) else mret tt.

(** A one-digit array on the stack. *)
Definition with_dig {A} (d : Z) (c : nat -> Mz A) : Mz A :=
  k ← new_id;
  _ ← modify (fun st => set_digs (<[k := [d]]> (digs st)) st);
  r ← c k;
  _ ← modify (fun st => set_digs (delete k (digs st)) st);
  mret r.

Definition mpz_not_inpl (dest z : nat) : Mz unit :=
  _ ← (if negb (dest =? z)%nat then mpz_set dest z else mret tt);
  n ← get_len dest;
  if n =? 0 then
    _ ← mpz_need_dig dest 1;
    _ ← mpn (store dest 0 1); _ ← set_len dest 1; set_neg dest 1
  else
    b ← get_neg dest;
    if negb (b =? 0) then
      _ ← set_neg dest 0;
      n ← with_dig 1 (fun k => n ← get_len dest; mpn (mpn_sub dest dest n k 1));
      set_len dest n
    else
      n ← get_len dest;
      _ ← mpz_need_dig dest (n + 1);
      n ← with_dig 1 (fun k => n ← get_len dest; mpn (mpn_add dest dest n k 1));
      _ ← set_len dest n; set_neg dest 1.

(** ** Shifts *)

Definition mpz_shl_inpl (dest lhs : nat) (rhs : Z) : Mz unit :=
  n ← get_len lhs;
  if (n =? 0) || (rhs =? 0) then mpz_set dest lhs
  else
    _ ← mpz_need_dig dest (n + u32 (rhs + DIG_SIZE - 1) / DIG_SIZE);
    n ← get_len lhs;
    r ← mpn (mpn_shl dest lhs n rhs); _ ← set_len dest r;
    b ← get_neg lhs; set_neg dest b.

(** Is one of the digits shifted out whole not zero? *)
Definition shr_any_whole (lhs : nat) (n_whole : Z) : Mz bool :=
  n ← get_len lhs;
  loop (Z.to_nat n + 1) (fun i =>
    n ← get_len lhs;
    if (i <? n) && (i <? n_whole) then
      x ← mpn (load lhs i);
      if negb (x =? 0) then mret (inr true) else mret (inl (i + 1))
    else mret (inr false)) 0.

Definition mpz_shr_inpl (dest lhs : nat) (rhs : Z) : Mz unit :=
  n ← get_len lhs;
  if (n =? 0) || (rhs =? 0) then mpz_set dest lhs
  else
    _ ← mpz_need_dig dest n;
    n ← get_len lhs;
    r ← mpn (mpn_shr dest lhs n rhs); _ ← set_len dest r;
    b ← get_neg lhs; _ ← set_neg dest b;
    b ← get_neg dest;
    if negb (b =? 0) then
      let n_whole := rhs / DIG_SIZE in
      let n_part := rhs `mod` DIG_SIZE in
      any ← shr_any_whole lhs n_whole;
      n ← get_len lhs;
      part ← (if n_whole <? n then
                x ← mpn (load lhs n_whole);
                mret (negb (Z.land x (Z.shiftl 1 n_part - 1) =? 0))
              else mret false);
      if any || part then
        n ← get_len dest;
        if n =? 0 then _ ← mpn (store dest 0 1); set_len dest 1
        else
          n ← with_dig 1 (fun k => n ← get_len dest; mpn (mpn_add dest dest n k 1));
          set_len dest n
      else mret tt
    else mret tt.

(** ** Addition and subtraction *)

(** The digits of [dest]: a sum or a difference of the digits of the operands. *)
Definition addsub_digits (add : bool) (dest lhs rhs : nat) : Mz unit :=
  if add then
    n ← get_len lhs; _ ← mpz_need_dig dest (n + 1);
    nl ← get_len lhs; nr ← get_len rhs;
    r ← mpn (mpn_add dest lhs nl rhs nr); set_len dest r
  else
    n ← get_len lhs; _ ← mpz_need_dig dest n;
    nl ← get_len lhs; nr ← get_len rhs;
    r ← mpn (mpn_sub dest lhs nl rhs nr); set_len dest r.

Definition mpz_add_inpl (dest lhs rhs : nat) : Mz unit :=
  cmp ← mpn_cmp_z lhs rhs;
  let '(lhs, rhs) := if cmp <? 0 then (rhs, lhs) else (lhs, rhs) in
  bl ← get_neg lhs; br ← get_neg rhs;
  _ ← addsub_digits (bl =? br) dest lhs rhs;
  b ← get_neg lhs; n ← get_len dest;
  set_neg dest (Z.land b (zbool (negb (n =? 0)))).

Definition mpz_sub_inpl (dest lhs rhs : nat) : Mz unit :=
  cmp ← mpn_cmp_z lhs rhs;
  let '(lhs, rhs, neg) := if cmp <? 0 then (rhs, lhs, true) else (lhs, rhs, false) in
  bl ← get_neg lhs; br ← get_neg rhs;
  _ ← addsub_digits (negb (bl =? br)) dest lhs rhs;
  n ← get_len dest;
  if n =? 0 then set_neg dest 0
  else if (neg : bool) then b ← get_neg lhs; set_neg dest (1 - b)
  else b ← get_neg lhs; set_neg dest b.

(** ** Bitwise operations *)

(** The operand with the most digits first. *)
Definition longest_first (lhs rhs : nat) : Mz (nat * nat) :=
  nl ← get_len lhs; nr ← get_len rhs;
  if nl <? nr then mret (rhs, lhs) else mret (lhs, rhs).

Definition mpz_and_inpl (dest lhs rhs : nat) : Mz unit :=
  '(lhs, rhs) ← longest_first lhs rhs;
  bl ← get_neg lhs; br ← get_neg rhs;
  if (0 =? bl) && (0 =? br) then
    n ← get_len lhs; _ ← mpz_need_dig dest n;
    nr ← get_len rhs;
    r ← mpn (mpn_and dest lhs rhs nr); _ ← set_len dest r;
    set_neg dest 0
  else
    n ← get_len lhs; _ ← mpz_need_dig dest (n + 1);
    nl ← get_len lhs; nr ← get_len rhs; bl ← get_neg lhs; br ← get_neg rhs;
    r ← mpn (mpn_and_neg dest lhs nl rhs nr
               (zbool (bl =? br)) (zbool (negb (0 =? bl))) (zbool (negb (0 =? br))));
    _ ← set_len dest r;
    bl ← get_neg lhs; br ← get_neg rhs;
    set_neg dest (Z.land bl br).

Definition mpz_or_inpl (dest lhs rhs : nat) : Mz unit :=
  '(lhs, rhs) ← longest_first lhs rhs;
  bl ← get_neg lhs; br ← get_neg rhs;
  if (0 =? bl) && (0 =? br) then
    n ← get_len lhs; _ ← mpz_need_dig dest n;
    nl ← get_len lhs; nr ← get_len rhs;
    r ← mpn (mpn_or dest lhs nl rhs nr); _ ← set_len dest r;
    set_neg dest 0
  else
    n ← get_len lhs; _ ← mpz_need_dig dest (n + 1);
    nl ← get_len lhs; nr ← get_len rhs; bl ← get_neg lhs; br ← get_neg rhs;
    r ← mpn (mpn_or_neg dest lhs nl rhs nr
               (zbool (negb (0 =? bl))) (zbool (negb (0 =? br))));
    _ ← set_len dest r;
    set_neg dest 1.

Definition mpz_xor_inpl (dest lhs rhs : nat) : Mz unit :=
  '(lhs, rhs) ← longest_first lhs rhs;
  bl ← get_neg lhs; br ← get_neg rhs;
  if bl =? br then
    n ← get_len lhs; _ ← mpz_need_dig dest n;
    bl ← get_neg lhs;
    nl ← get_len lhs; nr ← get_len rhs;
    r ← (if bl =? 0 then mpn (mpn_xor dest lhs nl rhs nr)
         else mpn (mpn_xor_neg dest lhs nl rhs nr 0 0 0));
    _ ← set_len dest r;
    set_neg dest 0
  else
    n ← get_len lhs; _ ← mpz_need_dig dest (n + 1);
    nl ← get_len lhs; nr ← get_len rhs; bl ← get_neg lhs; br ← get_neg rhs;
    r ← mpn (mpn_xor_neg dest lhs nl rhs nr 1 (zbool (0 =? bl)) (zbool (0 =? br)));
    _ ← set_len dest r;
    set_neg dest 1.

(** ** Multiplication, division and powers *)

(** The product, once [dest] is neither of the operands. *)
Definition mul_distinct (dest lhs rhs : nat) : Mz unit :=
  nl ← get_len lhs; nr ← get_len rhs;
  _ ← mpz_need_dig dest (nl + nr);
  h ← fields dest;
  _ ← mpn (memset_dig dest 0 (alloc h));
  nl ← get_len lhs; nr ← get_len rhs;
  r ← mpn (mpn_mul dest lhs nl rhs nr); _ ← set_len dest r;
  bl ← get_neg lhs; br ← get_neg rhs;
  if bl =? br then set_neg dest 0 else set_neg dest 1.

Definition mpz_mul_inpl (dest lhs rhs : nat) : Mz unit :=
  nl ← get_len lhs; nr ← get_len rhs;
  if (nl =? 0) || (nr =? 0) then mpz_set_from_int dest 0
  else if (lhs =? dest)%nat then
    temp ← mpz_clone lhs;
    let rhs := if (rhs =? dest)%nat then temp else rhs in
    _ ← mul_distinct dest temp rhs; mpz_free temp
  else if (rhs =? dest)%nat then
    temp ← mpz_clone rhs;
    _ ← mul_distinct dest lhs temp; mpz_free temp
  else mul_distinct dest lhs rhs.

(** [z] becomes zero, with [n] zero digits allocated. *)
Definition zero_digits (z : nat) (n : Z) : Mz unit :=
  _ ← mpz_need_dig z n; _ ← mpn (memset_dig z 0 n);
  _ ← set_neg z 0; set_len z 0.

(** Quotient and remainder of the magnitudes, the remainder with the sign of
    [lhs]. *)
Definition divmod_magnitudes (dest_quo dest_rem lhs rhs : nat) : Mz unit :=
  n ← get_len lhs; _ ← zero_digits dest_quo (n + 1);
  n ← get_len lhs; _ ← mpz_need_dig dest_rem (n + 1);
  _ ← mpz_set dest_rem lhs;
  nn ← get_len dest_rem; nd ← get_len rhs;
  '(r, q) ← mpn (mpn_div dest_rem nn rhs nd dest_quo);
  _ ← set_len dest_rem r; _ ← set_len dest_quo q;
  b ← get_neg dest_rem; n ← get_len dest_rem;
  set_neg dest_rem (Z.land b (zbool (negb (n =? 0)))).

(** The signs, and the rounding towards minus infinity. *)
Definition divmod_signs (dest_quo dest_rem lhs rhs : nat) : Mz unit :=
  bl ← get_neg lhs; br ← get_neg rhs;
  if negb (bl =? br) then
    n ← get_len dest_quo; _ ← set_neg dest_quo (zbool (negb (n =? 0)));
    zero ← mpz_is_zero dest_rem;
    if negb zero then
      mpzone ← new_id;
      _ ← mpz_init_from_int mpzone (-1);
      _ ← mpz_add_inpl dest_quo dest_quo mpzone;
      _ ← mpz_add_inpl dest_rem dest_rem rhs;
      end_scope mpzone
    else mret tt
  else mret tt.

Definition mpz_divmod_inpl (dest_quo dest_rem lhs rhs : nat) : Mz unit :=
  zero ← mpz_is_zero rhs; _ ← assert_ (negb zero);
  _ ← divmod_magnitudes dest_quo dest_rem lhs rhs;
  divmod_signs dest_quo dest_rem lhs rhs.

(** [n->len = mpn_shr(n->dig, n->dig, n->len, 1)] *)
Definition halve (n : nat) : Mz unit :=
  nn ← get_len n; r ← mpn (mpn_shr n n nn 1); set_len n r.

(** The number of squarings is bounded by the number of bits of the exponent. *)
Definition pow_fuel (n : Z) : nat := Z.to_nat (DIG_SIZE * n) + 1.

(** The loop of [mpz_pow_inpl] and [mpz_pow3_inpl]: [mul] multiplies the result
    by the current base, [sq] squares the base. *)
Definition pow_loop (n : nat) (mul sq : Mz unit) : Mz unit :=
  nn ← get_len n;
  loop (pow_fuel nn) (fun _ =>
    nn ← get_len n;
    if nn >? 0 then
      d ← mpn (load n 0);
      _ ← (if negb (Z.land d 1 =? 0) then mul else mret tt);
      _ ← halve n;
      nn ← get_len n;
      if nn =? 0 then mret (inr tt)
      else _ ← sq; mret (inl tt)
    else mret (inr tt)) tt.

Definition mpz_pow_inpl (dest lhs rhs : nat) : Mz unit :=
  nl ← get_len lhs; br ← get_neg rhs;
  if (nl =? 0) || negb (br =? 0) then mpz_set_from_int dest 0
  else
    nr ← get_len rhs;
    if nr =? 0 then mpz_set_from_int dest 1
    else
      x ← mpz_clone lhs; n ← mpz_clone rhs;
      _ ← mpz_set_from_int dest 1;
      _ ← pow_loop n (mpz_mul_inpl dest dest x) (mpz_mul_inpl x x x);
      _ ← mpz_free x; mpz_free n.

Definition mpz_pow3_inpl (dest lhs rhs mod_ : nat) : Mz unit :=
  nl ← get_len lhs; br ← get_neg rhs; nm ← get_len mod_;
  zero ← (if (nl =? 0) || negb (br =? 0) then mret true
          else if nm =? 1 then d ← mpn (load mod_ 0); mret (d =? 1) else mret false);
  if zero : bool then mpz_set_from_int dest 0
  else
    _ ← mpz_set_from_int dest 1;
    nr ← get_len rhs;
    if nr =? 0 then mret tt
    else
      x ← mpz_clone lhs; n ← mpz_clone rhs;
      quo ← new_id; _ ← mpz_init_zero quo;
      _ ← pow_loop n
        (_ ← mpz_mul_inpl dest dest x; mpz_divmod_inpl quo dest dest mod_)
        (_ ← mpz_mul_inpl x x x; mpz_divmod_inpl quo x x mod_);
      _ ← mpz_deinit quo; _ ← end_scope quo; _ ← mpz_free x; mpz_free n.

End Mpz.
