(* ===== verification/MpzSpec.v ===== *)
(** * What an [mpz_t] represents, and the rules of the primitive operations

    [repr st z v] states that structure [z] of store [st] is well formed and
    represents the integer [v]; [owns st z] that [z] may be written;
    [updated st st' z v] is what the in-place operations promise: [z] now
    represents [v] and nothing else that existed has changed. *)
From S2P Require Import Prelude.
From S2P Require Import CMem.
From S2P Require Import Mpn.
From S2P Require Import Digits.
From S2P Require Import MpnArith.
From S2P Require Import MpnBits.
From S2P Require Import Mpz.
Local Open Scope Z_scope.

Definition sized (h : mpz_t) (l : list Z) : Prop :=
  alloc h = Z.of_nat (length l) /\ alloc h < MAX_DIG.

(** [z] has sign [b] and the normalised digits [l]. *)
Definition reprl (st : mpz_store) (z : nat) (b : bool) (l : list Z) : Prop :=
  exists h rest, hdr st !! z = Some h /\ digs st !! z = Some (l ++ rest) /\
    sized h (l ++ rest) /\ len h = Z.of_nat (length l) /\ neg h = zbool b /\
    Forall is_dig l /\ normal l /\ (b = true -> l <> []).

Definition repr (st : mpz_store) (z : nat) (v : Z) : Prop :=
  exists b l, reprl st z b l /\ v = sval b (dval l).

(** [z] is a structure whose digit array may be reallocated. *)
Definition owns (st : mpz_store) (z : nat) : Prop :=
  exists h l, hdr st !! z = Some h /\ digs st !! z = Some l /\ sized h l /\ fixed_dig h = 0.

(** Numbers from [nxt st] on are unused. *)
Definition wf (st : mpz_store) : Prop :=
  forall z, (nxt st <= z)%nat -> hdr st !! z = None /\ digs st !! z = None.

(** Only the structures of [D] have changed among those that existed. *)
Definition frame (st st' : mpz_store) (D : list nat) : Prop :=
  (nxt st <= nxt st')%nat /\
  forall z, (z < nxt st)%nat -> z ∉ D -> hdr st' !! z = hdr st !! z /\ digs st' !! z = digs st !! z.

Definition updated (st st' : mpz_store) (z : nat) (v : Z) : Prop :=
  wf st' /\ frame st st' [z] /\ owns st' z /\ repr st' z v.

(** ** Frames *)

Lemma not_elem_of_list_1 (y z : nat) : y <> z -> y ∉ [z].
Proof. by intros Hne ->%list_elem_of_singleton. Qed.

Lemma frame_refl st D : frame st st D.
Proof. by split. Qed.

Lemma frame_trans st1 st2 st3 D : frame st1 st2 D -> frame st2 st3 D -> frame st1 st3 D.
Proof.
  intros [Hn1 H1] [Hn2 H2]. split; [lia|]. intros z Hz HD.
  destruct (H1 z Hz HD) as [<- <-]. apply H2; [lia|done].
Qed.

Lemma frame_mono st st' D D' : frame st st' D -> (forall z, z ∈ D -> z ∈ D') -> frame st st' D'.
Proof. intros [Hn H] HD. split; [done|]. intros z Hz Hnz. apply H; [done|]. by intros ?%HD. Qed.

Lemma wf_lt st z h : wf st -> hdr st !! z = Some h -> (z < nxt st)%nat.
Proof.
  intros Hwf Hz. destruct (decide (nxt st <= z)%nat) as [Hge|]; [|lia].
  destruct (Hwf z Hge) as [H1 _]. congruence.
Qed.

Lemma reprl_lt st z b l : wf st -> reprl st z b l -> (z < nxt st)%nat.
Proof. intros Hwf (h & rest & Hh & _). by eapply wf_lt. Qed.

Lemma owns_lt st z : wf st -> owns st z -> (z < nxt st)%nat.
Proof. intros Hwf (h & l & Hh & _). by eapply wf_lt. Qed.

Lemma repr_lt st z v : wf st -> repr st z v -> (z < nxt st)%nat.
Proof. intros Hwf (b & l & H & _). by eapply reprl_lt. Qed.

Lemma reprl_frame st st' D z b l : wf st -> frame st st' D -> z ∉ D ->
  reprl st z b l -> reprl st' z b l.
Proof.
  intros Hwf [_ Hfr] HD Hr. pose proof (reprl_lt _ _ _ _ Hwf Hr) as Hlt.
  destruct Hr as (h & rest & Hr). exists h, rest. destruct (Hfr z Hlt HD) as [-> ->]. done.
Qed.

Lemma repr_frame st st' D z v : wf st -> frame st st' D -> z ∉ D ->
  repr st z v -> repr st' z v.
Proof. intros Hwf Hfr HD (b & l & H & ->). exists b, l. split; [by eapply reprl_frame|done]. Qed.

Lemma owns_frame st st' D z : wf st -> frame st st' D -> z ∉ D -> owns st z -> owns st' z.
Proof.
  intros Hwf [_ Hfr] HD Ho. pose proof (owns_lt _ _ Hwf Ho) as Hlt.
  destruct Ho as (h & l & Ho). exists h, l. destruct (Hfr z Hlt HD) as [-> ->]. done.
Qed.

(** ** Integers and their digits *)

Lemma reprl_repr st z b l : reprl st z b l -> repr st z (sval b (dval l)).
Proof. intros H. by exists b, l. Qed.

Lemma reprl_sign st z b l : reprl st z b l -> b = true -> 0 < dval l.
Proof.
  intros (h & rest & _ & _ & _ & _ & _ & Hd & Hn & Hb) ->. apply dval_nonzero_pos; auto.
Qed.

Lemma reprl_nil st z b : reprl st z b [] -> b = false.
Proof. intros (h & rest & H). destruct b; [|done]. destruct H as (_ & _ & _ & _ & _ & _ & _ & H). by destruct H. Qed.

Lemma sval_abs b l : 0 <= dval l -> Z.abs (sval b (dval l)) = dval l.
Proof. intros. destruct b; cbn; lia. Qed.

(** The number of digits of an integer. *)
Definition ndigs (v : Z) : Z := if v =? 0 then 0 else Z.log2 (Z.abs v) / 16 + 1.

Lemma ndigs_length b l : Forall is_dig l -> normal l -> ndigs (sval b (dval l)) = Z.of_nat (length l).
Proof.
  intros Hd Hn. pose proof (dval_bounds l Hd) as Hb. unfold ndigs.
  destruct l as [|x l0] eqn:El; [by destruct b|]. rewrite <-El in *.
  assert (0 < dval l) as Hp by (apply dval_nonzero_pos; [done|done|by subst]).
  pose proof (dval_lower l Hd Hn ltac:(by subst)) as Hlow.
  destruct (_ =? 0) eqn:E; to_prop; [destruct b; cbn in E; lia|].
  rewrite sval_abs by lia. rewrite !bpow_pow2 in *.
  assert (length l <> 0)%nat as Hl by (by destruct l).
  assert (Z.log2 (dval l) < 16 * Z.of_nat (length l)) by (apply Z.log2_lt_pow2; lia).
  assert (16 * Z.of_nat (length l - 1) <= Z.log2 (dval l)) by (apply Z.log2_le_pow2; lia).
  pose proof (Z.div_mod (Z.log2 (dval l)) 16). pose proof (Z.mod_pos_bound (Z.log2 (dval l)) 16). lia.
Qed.

Lemma ndigs_nonneg v : 0 <= ndigs v.
Proof.
  unfold ndigs. destruct (_ =? 0); [done|]. pose proof (Z.log2_nonneg (Z.abs v)).
  pose proof (Z.div_pos (Z.log2 (Z.abs v)) 16). lia.
Qed.

Lemma ndigs_lt_iff v n : Z.of_nat n < ndigs v <-> bpow n <= Z.abs v.
Proof.
  unfold ndigs. rewrite bpow_pow2. destruct (_ =? 0) eqn:E; to_prop.
  - subst v. split; [lia|]. assert (0 < 2 ^ (16 * Z.of_nat n)) by lia. cbn. lia.
  - rewrite (Z.log2_le_pow2 (Z.abs v)) by lia. pose proof (Z.div_mod (Z.log2 (Z.abs v)) 16 ltac:(lia)).
    pose proof (Z.mod_pos_bound (Z.log2 (Z.abs v)) 16 ltac:(lia)). lia.
Qed.

Lemma ndigs_le_iff v n : ndigs v <= Z.of_nat n <-> Z.abs v < bpow n.
Proof. pose proof (ndigs_lt_iff v n). lia. Qed.

Lemma ndigs_mono v w : Z.abs v <= Z.abs w -> ndigs v <= ndigs w.
Proof.
  intros Hvw. pose proof (ndigs_nonneg w). rewrite <-(Z2Nat.id (ndigs w)) by done.
  apply ndigs_le_iff. pose proof (ndigs_le_iff w (Z.to_nat (ndigs w))). lia.
Qed.

Lemma ndigs_div u : 0 < u -> (Z.to_nat (ndigs (u / 65536)) < Z.to_nat (ndigs u))%nat.
Proof.
  intros Hu. assert (0 < ndigs u) as Hp.
  { apply (ndigs_lt_iff u 0). rewrite bpow_0. lia. }
  pose proof (ndigs_nonneg (u / 65536)).
  enough (ndigs (u / 65536) <= Z.of_nat (Z.to_nat (ndigs u) - 1)) by lia.
  apply ndigs_le_iff. pose proof (proj1 (ndigs_le_iff u (Z.to_nat (ndigs u))) ltac:(lia)) as Hlt.
  replace (Z.to_nat (ndigs u)) with (S (Z.to_nat (ndigs u) - 1)) in Hlt by lia.
  rewrite bpow_S in Hlt. pose proof (Z.div_pos u 65536 ltac:(lia) ltac:(lia)).
  rewrite Z.abs_eq by done. apply Z.div_lt_upper_bound; lia.
Qed.

Lemma reprl_ndigs st z b l : reprl st z b l -> ndigs (sval b (dval l)) = Z.of_nat (length l).
Proof. intros (h & rest & _ & _ & _ & _ & _ & Hd & Hn & _). by apply ndigs_length. Qed.

Lemma reprl_inj st z b l b' l' : reprl st z b l -> reprl st z b' l' -> b = b' /\ l = l'.
Proof.
  intros (h & rest & Hh & Hd & _ & Hl & Hn & _) (h' & rest' & Hh' & Hd' & _ & Hl' & Hn' & _).
  simplify_eq. split; [destruct b, b'; cbn in *; congruence|].
  apply (app_inj_1 l l' rest rest'); [lia|done].
Qed.

(** A structure represents one integer. *)
Lemma repr_inj st z v v' : repr st z v -> repr st z v' -> v = v'.
Proof. intros (b & l & H & ->) (b' & l' & H' & ->). by destruct (reprl_inj _ _ _ _ _ _ H H') as [-> ->]. Qed.

Lemma sval_inj b l b' l' : Forall is_dig l -> Forall is_dig l' -> normal l -> normal l' ->
  (b = true -> l <> []) -> (b' = true -> l' <> []) ->
  sval b (dval l) = sval b' (dval l') -> b = b' /\ l = l'.
Proof.
  intros Hd Hd' Hn Hn' Hb Hb' Hv. pose proof (dval_bounds l Hd). pose proof (dval_bounds l' Hd').
  assert (b = true -> 0 < dval l) by (intros; apply dval_nonzero_pos; auto).
  assert (b' = true -> 0 < dval l') by (intros; apply dval_nonzero_pos; auto).
  assert (dval l = dval l') by (destruct b, b'; cbn in Hv; lia).
  split; [destruct b, b'; cbn in Hv; auto; lia|by apply dval_inj].
Qed.

(** The digits of a structure are determined by its value. *)
Lemma repr_reprl st z b l : repr st z (sval b (dval l)) ->
  Forall is_dig l -> normal l -> (b = true -> l <> []) -> reprl st z b l.
Proof.
  intros (b' & l' & Hr & Hv) Hd Hn Hb. pose proof Hr as (h & rest & _ & _ & _ & _ & _ & Hd' & Hn' & Hb').
  by destruct (sval_inj _ _ _ _ Hd Hd' Hn Hn' Hb Hb' Hv) as [-> ->].
Qed.

(** ** Rules of the primitive operations *)

(** Compute the fields of a store and of a structure that are written out. *)
Ltac st_simpl := unfold set_hdr, set_digs; cbn [digs hdr nxt neg fixed_dig alloc len].

Section Rules.
Context {heap : Heap}.

Lemma wp_fields st z h (Q : mpz_t -> mpz_store -> Prop) :
  hdr st !! z = Some h -> Q h st -> wp (fields z) st Q.
Proof. intros Hh HQ. unfold wp, fields. by rewrite Hh. Qed.

Lemma wp_set_fields st z h (Q : unit -> mpz_store -> Prop) :
  Q tt (set_hdr (<[z := h]> (hdr st)) st) -> wp (set_fields z h) st Q.
Proof. done. Qed.

Lemma wp_get_len_hdr st z h (Q : Z -> mpz_store -> Prop) :
  hdr st !! z = Some h -> Q (len h) st -> wp (get_len z) st Q.
Proof. intros Hh HQ. by apply wp_bind, (wp_fields _ _ h). Qed.

Lemma wp_set_len_hdr st z h n (Q : unit -> mpz_store -> Prop) :
  hdr st !! z = Some h ->
  Q tt (set_hdr (<[z := MkMpz (neg h) (fixed_dig h) (alloc h) n]> (hdr st)) st) ->
  wp (set_len z n) st Q.
Proof. intros Hh HQ. by apply wp_bind, (wp_fields _ _ h). Qed.

Lemma wp_set_neg_hdr st z h n (Q : unit -> mpz_store -> Prop) :
  hdr st !! z = Some h ->
  Q tt (set_hdr (<[z := MkMpz n (fixed_dig h) (alloc h) (len h)]> (hdr st)) st) ->
  wp (set_neg z n) st Q.
Proof. intros Hh HQ. by apply wp_bind, (wp_fields _ _ h). Qed.

Lemma wp_get_len st z b l (Q : Z -> mpz_store -> Prop) :
  reprl st z b l -> Q (Z.of_nat (length l)) st -> wp (get_len z) st Q.
Proof.
  intros (h & rest & Hh & _ & _ & Hl & _) HQ. apply wp_bind, (wp_fields _ _ h); [done|].
  apply wp_ret. by rewrite Hl.
Qed.

Lemma wp_get_neg st z b l (Q : Z -> mpz_store -> Prop) :
  reprl st z b l -> Q (zbool b) st -> wp (get_neg z) st Q.
Proof.
  intros (h & rest & Hh & _ & _ & _ & Hn & _) HQ. apply wp_bind, (wp_fields _ _ h); [done|].
  apply wp_ret. by rewrite Hn.
Qed.

Lemma wp_mpn {A} (c : M blocks A) st (Q : A -> mpz_store -> Prop) :
  wp c (digs st) (fun a m => Q a (set_digs m st)) -> wp (mpn c) st Q.
Proof. apply wp_on_part. Qed.

Lemma wp_new_id st (Q : nat -> mpz_store -> Prop) :
  Q (nxt st) (MkStore (digs st) (hdr st) (S (nxt st))) -> wp new_id st Q.
Proof. done. Qed.

Lemma set_digs_id st : set_digs (digs st) st = st.
Proof. by destruct st. Qed.

Lemma reprl_holds st z b l : reprl st z b l -> holds (digs st) z l.
Proof. intros (h & rest & _ & Hd & _). by exists rest. Qed.

Lemma reprl_dig st z b l : reprl st z b l -> Forall is_dig l.
Proof. by intros (h & rest & _ & _ & _ & _ & _ & Hd & _). Qed.

Lemma reprl_normal st z b l : reprl st z b l -> normal l.
Proof. by intros (h & rest & _ & _ & _ & _ & _ & _ & Hn & _). Qed.

Lemma reprl_small st z b l : reprl st z b l -> Z.of_nat (length l) < MAX_DIG.
Proof.
  intros (h & rest & _ & _ & [Ha Hlt] & _). rewrite length_app in Ha. unfold MAX_DIG in *. lia.
Qed.

(** *** Growing the digit array *)

Definition grown (st st' : mpz_store) (z : nat) (n : Z) : Prop :=
  wf st' /\ owns st' z /\ room (digs st') z (Z.to_nat n) /\ frame st st' [z] /\
  (forall y b l, reprl st y b l -> reprl st' y b l) /\ nxt st' = nxt st /\
  (forall h, hdr st !! z = Some h -> exists a, hdr st' !! z = Some (MkMpz (neg h) 0 a (len h))) /\
  (forall y k, room (digs st) y k -> room (digs st') y k).

Lemma grown_owns_other st st' z n y : wf st -> grown st st' z n -> owns st y -> owns st' y.
Proof.
  intros Hwf (_ & Ho & _ & Hfr & _) Hy. destruct (decide (y = z)) as [->|Hne]; [done|].
  eapply owns_frame; [done|done| |done]. by apply not_elem_of_list_1.
Qed.

Lemma wf_upd st z h l : wf st -> (z < nxt st)%nat ->
  wf (MkStore (<[z := l]> (digs st)) (<[z := h]> (hdr st)) (nxt st)).
Proof.
  intros Hwf Hz y Hy. cbn in *. rewrite !lookup_insert_ne by lia. by apply Hwf.
Qed.

Lemma frame_upd st z h l :
  frame st (MkStore (<[z := l]> (digs st)) (<[z := h]> (hdr st)) (nxt st)) [z].
Proof.
  split; [done|]. intros y Hy Hz. assert (z <> y) by (intros ->; by apply Hz, list_elem_of_singleton). cbn. by rewrite !lookup_insert_ne.
Qed.

Lemma wp_mpz_need_dig st z need (Q : unit -> mpz_store -> Prop) :
  wf st -> owns st z -> need < MAX_DIG ->
  (forall st', grown st st' z (Z.max 2 need) -> Q tt st') ->
  wp (mpz_need_dig z need) st Q.
Proof.
  intros Hwf Ho Hneed HQ. pose proof (owns_lt _ _ Hwf Ho) as Hlt.
  destruct Ho as (h & l & Hh & Hd & [Hal Hsz] & Hfix).
  unfold mpz_need_dig, MIN_ALLOC. cbv zeta.
  replace (if need <? 2 then 2 else need) with (Z.max 2 need) by (destruct (_ <? _) eqn:E; to_prop; lia).
  apply wp_bind, (wp_fields _ _ h); [done|].
  apply wp_bind. unfold wp. rewrite Hd. cbn [mbind option_bind]. cbv beta iota.
  destruct (_ || _) eqn:E.
  - apply wp_bind, wp_assert; [by rewrite Hfix|]. apply wp_bind. unfold m_renew.
    apply wp_bind, wp_assert; [apply Z.ltb_lt; unfold MAX_DIG in *; lia|]. apply wp_modify, wp_set_fields.
    set (n := Z.max 2 need) in *.
    assert (length l <= Z.to_nat n)%nat as Hle.
    { destruct l as [|x l']; [cbn; lia|]. cbn in E. to_prop. lia. }
    set (new := map (junk z n) (seq (length l) (Z.to_nat n - length l))).
    assert (length new = Z.to_nat n - length l)%nat as Hnew by (unfold new; by rewrite length_map, length_seq).
    assert (set_digs (alter (fun l => take (Z.to_nat n) l ++
        map (junk z n) (seq (length l) (Z.to_nat n - length l))) z (digs st)) st
      = MkStore (<[z := l ++ new]> (digs st)) (hdr st) (nxt st)) as ->.
    { unfold set_digs. f_equal. apply map_eq. intros c. destruct (decide (z = c)) as [<-|Hne].
      - rewrite lookup_alter_eq, lookup_insert_eq, Hd. cbn. by rewrite firstn_all2 by lia.
      - by rewrite lookup_alter_ne, lookup_insert_ne. }
    cbn. apply HQ. unfold set_hdr; cbn. split; [by apply wf_upd|].
    assert (sized (MkMpz (neg h) (fixed_dig h) n (len h)) (l ++ new)) as Hs.
    { split; cbn; [rewrite length_app; lia|unfold MAX_DIG in *; lia]. }
    split. { eexists _, _. cbn. rewrite !lookup_insert_eq. done. }
    split. { eexists. cbn. rewrite lookup_insert_eq. split; [done|]. rewrite length_app. lia. }
    split; [by apply frame_upd|]. split; [|split; [done|]].
    + intros y b l' (h' & rest & Hh' & Hd' & Hr). destruct (decide (z = y)) as [<-|Hne].
      * simplify_eq. eexists _, (rest ++ new). cbn. rewrite !lookup_insert_eq.
        split; [done|]. rewrite app_assoc. split; [done|]. split; [done|]. apply Hr.
      * exists h', rest. cbn. by rewrite !lookup_insert_ne.
    + split.
      * intros h' Hh'. simplify_eq. exists n. cbn. by rewrite lookup_insert_eq, Hfix.
      * intros y k (ly & Hy & Hk). cbn. destruct (decide (z = y)) as [<-|Hne].
        -- simplify_eq. eexists. rewrite lookup_insert_eq. split; [done|]. rewrite length_app. lia.
        -- exists ly. by rewrite lookup_insert_ne.
  - apply wp_ret, HQ. split; [done|]. split; [by exists h, l|].
    split. { exists l. split; [done|]. destruct l; [done|]. cbn in E. to_prop. lia. }
    split; [apply frame_refl|]. split; [done|]. split; [done|]. split; [|done]. intros h' Hh'. simplify_eq.
    exists (alloc h). rewrite Hh. f_equal. destruct h; cbn in *; congruence.
Qed.

(** *** Storing a result *)

(** The digits [res] have been written to [z], whose length is set; the sign of
    [z] is still the old one. *)
Definition stored (st st' : mpz_store) (z : nat) (res : list Z) : Prop :=
  exists h m', hdr st !! z = Some h /\ wrote (digs st) m' z res /\
    st' = MkStore m' (<[z := MkMpz (neg h) (fixed_dig h) (alloc h) (Z.of_nat (length res))]> (hdr st)) (nxt st).

Lemma wp_set_len_stored st z h m' res (Q : unit -> mpz_store -> Prop) :
  hdr st !! z = Some h -> wrote (digs st) m' z res ->
  (forall st', stored st st' z res -> Q tt st') ->
  wp (set_len z (Z.of_nat (length res))) (set_digs m' st) Q.
Proof.
  intros Hh Hw HQ. apply wp_bind, (wp_fields _ _ h); [done|]. apply wp_set_fields, HQ.
  by exists h, m'.
Qed.

Lemma wp_get_neg_stored st st' z res y b l (Q : Z -> mpz_store -> Prop) :
  stored st st' z res -> reprl st y b l -> Q (zbool b) st' -> wp (get_neg y) st' Q.
Proof.
  intros (h & m' & Hh & _ & ->) (h' & rest & Hh' & _ & _ & _ & Hn & _) HQ.
  destruct (decide (z = y)) as [<-|Hne].
  - simplify_eq. apply wp_bind; eapply wp_fields; [cbn; by rewrite lookup_insert_eq|].
    apply wp_ret. rewrite <-Hn in HQ. exact HQ.
  - apply wp_bind; eapply wp_fields; [cbn; by rewrite lookup_insert_ne|]. apply wp_ret. rewrite <-Hn in HQ. exact HQ.
Qed.

Lemma wp_get_len_stored st st' z res (Q : Z -> mpz_store -> Prop) :
  stored st st' z res -> Q (Z.of_nat (length res)) st' -> wp (get_len z) st' Q.
Proof.
  intros (h & m' & Hh & _ & ->) HQ.
  apply wp_bind; eapply wp_fields; [cbn; by rewrite lookup_insert_eq|]. by apply wp_ret.
Qed.

(** The header and the digits of [z] are those of sign [b] and digits [res]. *)
Lemma updated_intro st z h m' b res :
  wf st -> owns st z -> hdr st !! z = Some h -> wrote (digs st) m' z res ->
  Forall is_dig res -> normal res -> (b = true -> res <> []) ->
  updated st (MkStore m' (<[z := MkMpz (zbool b) (fixed_dig h) (alloc h) (Z.of_nat (length res))]>
                            (hdr st)) (nxt st)) z (sval b (dval res)).
Proof.
  intros Hwf Ho Hh (l & l' & Hl & -> & Hlen & rest & ->) Hd Hn Hb.
  pose proof (owns_lt _ _ Hwf Ho) as Hlt. destruct Ho as (h' & lz & Hh' & Hlz & [Hal Hsz] & Hfix).
  assert (h' = h) as -> by congruence. assert (lz = l) as -> by congruence.
  assert (sized (MkMpz (zbool b) (fixed_dig h) (alloc h) (Z.of_nat (length res))) (res ++ rest)) as Hs.
  { split; cbn; [by rewrite Hlen|done]. }
  split; [by apply wf_upd|]. split; [by apply frame_upd|].
  split. { eexists _, _. cbn. rewrite !lookup_insert_eq. done. }
  exists b, res. split; [|done]. eexists _, rest. cbn. rewrite !lookup_insert_eq. done.
Qed.

(** When the sign is kept, setting the length ends an operation. *)
Lemma stored_updated st st' z res b l :
  stored st st' z res -> wf st -> owns st z -> reprl st z b l -> Forall is_dig res -> normal res ->
  (b = true -> res <> []) -> updated st st' z (sval b (dval res)).
Proof.
  intros (h & m' & Hh & Hw & ->) Hwf Ho (h' & rest & Hh' & _ & _ & _ & Hn & _) Hd Hnr Hb.
  assert (h' = h) as -> by congruence. rewrite Hn. by apply updated_intro.
Qed.

Lemma wp_set_neg_stored st st' z res b (Q : unit -> mpz_store -> Prop) :
  stored st st' z res -> wf st -> owns st z -> Forall is_dig res -> normal res ->
  (b = true -> res <> []) ->
  (forall st'', updated st st'' z (sval b (dval res)) -> Q tt st'') ->
  wp (set_neg z (zbool b)) st' Q.
Proof.
  intros (h & m' & Hh & Hw & ->) Hwf Ho Hd Hn Hb HQ.
  apply wp_bind; eapply wp_fields; [cbn; by rewrite lookup_insert_eq|]. apply wp_set_fields.
  unfold set_hdr. cbn. rewrite insert_insert_eq. by apply HQ, updated_intro.
Qed.

Lemma frame_updated st0 st1 st2 z v : frame st0 st1 [z] -> updated st1 st2 z v -> updated st0 st2 z v.
Proof.
  intros Hfr (Hwf & Hfr' & Ho & Hr). split; [done|]. split; [|done]. by eapply frame_trans.
Qed.

Lemma grown_updated st0 st1 st2 z n v : grown st0 st1 z n -> updated st1 st2 z v -> updated st0 st2 z v.
Proof.
  intros (_ & _ & _ & Hfr & _) (Hwf & Hfr' & Ho & Hr). split; [done|]. split; [|done].
  by eapply frame_trans.
Qed.

Lemma updated_trans st0 st1 st2 z v w : updated st0 st1 z v -> updated st1 st2 z w -> updated st0 st2 z w.
Proof.
  intros (_ & Hfr & _) (Hwf & Hfr' & Ho & Hr). split; [done|]. split; [|done]. by eapply frame_trans.
Qed.

Lemma updated_other st st' z v y w : wf st -> updated st st' z v -> y <> z -> repr st y w -> repr st' y w.
Proof. intros Hwf (_ & Hfr & _) Hne Hr. eapply repr_frame; [done|done| |done]. by apply not_elem_of_list_1. Qed.

End Rules.
