(* ===== verification/MpzArith.v ===== *)
(** * Assignment, comparison, sign, addition and subtraction of [mpz_t]

    Each operation is correct for every aliasing of its arguments that the source
    allows; the bounds on [ndigs] are the room in the field [alloc]. *)
From S2P Require Import Prelude.
From S2P Require Import CMem.
From S2P Require Import Mpn.
From S2P Require Import Digits.
From S2P Require Import MpnArith.
From S2P Require Import MpnBits.
From S2P Require Import Mpz.
From S2P Require Import MpzSpec.
Local Open Scope Z_scope.

Section Arith.
Context {heap : Heap}.

(** ** Assignment *)

Lemma wp_memcpy_dig m dest src l n (Q : unit -> blocks -> Prop) :
  holds m src l -> n = Z.of_nat (length l) -> room m dest (length l) ->
  (forall m', wrote m m' dest l -> Q tt m') ->
  wp (memcpy_dig dest src n) m Q.
Proof.
  intros Hh -> Hroom HQ. apply wp_bind.
  apply (wp_for (fun k m' => exists t, k = Z.of_nat t /\ m' = blit m dest (take t l) /\ (t <= length l)%nat)
           (fun k => Z.to_nat (Z.of_nat (length l) - k))).
  - exists 0%nat. rewrite take_0, blit_nil. repeat split; lia.
  - lia.
  - intros k m' (t & -> & -> & Ht) Hlt. to_prop.
    assert (length (take t l) = t) as Hlen by (rewrite length_take; lia).
    apply wp_bind, (wp_load_blit _ _ _ _ l); [done|lia|lia|]. intros x Hx.
    replace (store dest (Z.of_nat t) x) with (store dest (Z.of_nat (length (take t l))) x) by (by rewrite Hlen).
    apply wp_bind, (wp_store_blit _ _ _ (length l)); [done|lia|]. apply wp_ret.
    split; [|lia]. exists (S t). rewrite (take_S_snoc _ _ _ Hx). repeat split; lia.
  - intros k m' (t & -> & -> & Ht) Hge. to_prop. rewrite take_ge by lia.
    apply wp_ret, HQ. destruct Hroom as (bl & Hbl & Hl). by apply (wrote_blit_all _ _ bl).
Qed.

(** After writes to the header of [dest], the length read from [src]. *)
Lemma wp_get_len_after st dest src hd h (Q : Z -> mpz_store -> Prop) :
  hdr st !! src = Some h -> (dest = src -> len hd = len h) ->
  Q (len h) (set_hdr (<[dest := hd]> (hdr st)) st) ->
  wp (get_len src) (set_hdr (<[dest := hd]> (hdr st)) st) Q.
Proof.
  intros Hh Hd HQ. destruct (decide (dest = src)) as [<-|Hne].
  - eapply wp_get_len_hdr; [st_simpl; by rewrite lookup_insert_eq|]. by rewrite Hd.
  - eapply wp_get_len_hdr; [st_simpl; by rewrite lookup_insert_ne|]. done.
Qed.

(** [set_neg] then [set_len], as [mpz_set] orders them. *)
Lemma wp_mpz_set st dest src v (Q : unit -> mpz_store -> Prop) :
  wf st -> owns st dest -> repr st src v ->
  (forall st', updated st st' dest v ->
     (forall n, room (digs st) dest n -> room (digs st') dest n) -> Q tt st') ->
  wp (mpz_set dest src) st Q.
Proof.
  intros Hwf Ho (b & l & Hl & ->) HQ. pose proof (reprl_small _ _ _ _ Hl) as Hsm.
  apply wp_bind, (wp_get_len _ _ b l); [done|].
  apply wp_bind, wp_mpz_need_dig; [done..|]. intros st1 Hg.
  pose proof Hg as (Hwf1 & Ho1 & Hroom & Hfr & Hpres & _). apply Hpres in Hl.
  apply wp_bind, (wp_get_neg _ _ b l); [done|].
  pose proof Hl as (h & rest & Hh & Hd & Hsz & Hlen & Hn & Hdig & Hnorm & Hb).
  pose proof Ho1 as (hd & ld & Hhd & _).
  apply wp_bind, (wp_set_neg_hdr _ _ hd); [done|].
  apply wp_bind, (wp_get_len_after _ _ _ _ h); [done|by intros ->; simplify_eq|].
  apply wp_bind. eapply wp_set_len_hdr; [st_simpl; by rewrite lookup_insert_eq|].
  st_simpl. rewrite insert_insert_eq.
  apply wp_bind, (wp_get_len_after st1 _ _ _ h); [done|by intros ->|]. rewrite Hlen.
  apply wp_mpn. cbn. eapply wp_memcpy_dig; [by exists rest|done| |].
  { eapply room_mono; [done|lia]. }
  intros m' Hw. apply HQ.
  - eapply (grown_updated _ st1); [done|]. by apply (updated_intro st1 dest hd).
  - intros n Hrn. eapply wrote_room; [done|]. by apply Hg.
Qed.

(** ** Machine integers *)

Lemma wp_set_neg_len_zero st z (Q : unit -> mpz_store -> Prop) :
  wf st -> owns st z -> (forall st', updated st st' z 0 -> Q tt st') ->
  wp (_ ← set_neg z 0; set_len z 0) st Q.
Proof.
  intros Hwf Ho HQ. pose proof Ho as (h & l & Hh & Hl & _).
  apply wp_bind, (wp_set_neg_hdr _ _ h); [done|].
  eapply wp_set_len_hdr; [st_simpl; by rewrite lookup_insert_eq|].
  st_simpl. rewrite insert_insert_eq. apply HQ.
  apply (updated_intro st z h (digs st) false []); try done.
  apply wrote_refl. by exists l.
Qed.

(** Writing the sign first. *)
Lemma signed_ok st z h b : wf st -> owns st z -> hdr st !! z = Some h ->
  let st' := set_hdr (<[z := MkMpz b (fixed_dig h) (alloc h) (len h)]> (hdr st)) st in
  wf st' /\ owns st' z /\ frame st st' [z].
Proof.
  intros Hwf Ho Hh st'. pose proof (owns_lt _ _ Hwf Ho) as Hlt.
  destruct Ho as (h' & l & Hh' & Hl & Hs & Hfix). assert (h' = h) as -> by congruence.
  assert (st' = MkStore (<[z := l]> (digs st)) (<[z := MkMpz b (fixed_dig h) (alloc h) (len h)]> (hdr st))
    (nxt st)) as ->.
  { unfold st'. st_simpl. by rewrite (insert_id (digs st)). }
  split; [by apply wf_upd|]. split; [|by apply frame_upd].
  eexists _, _. cbn. rewrite !lookup_insert_eq. done.
Qed.

(** The digit loop: [uval] is what is left of the value, [res] is written. *)
Lemma wp_put_digits st z b uval (Q : unit -> mpz_store -> Prop) :
  wf st -> owns st z -> 0 <= uval < 2 ^ 64 -> room (digs st) z (Z.to_nat (ndigs uval)) ->
  (b = true -> 0 < uval) -> (exists h, hdr st !! z = Some h /\ neg h = zbool b) ->
  (forall st', updated st st' z (sval b uval) -> Q tt st') ->
  wp (put_digits z uval) st Q.
Proof.
  intros Hwf Ho Hu Hroom Hb (h & Hh & Hn) HQ. unfold put_digits.
  apply wp_bind, (wp_set_len_hdr _ _ h); [done|]. st_simpl.
  apply wp_bind.
  apply (wp_for (fun u st' => exists res, st' = MkStore (blit (digs st) z res)
      (<[z := MkMpz (neg h) (fixed_dig h) (alloc h) (Z.of_nat (length res))]> (hdr st)) (nxt st) /\
      0 <= u /\ Forall is_dig res /\ uval = dval res + bpow (length res) * u /\
      (u = 0 -> res <> [] -> bpow (length res - 1) <= dval res))
      (fun u => Z.to_nat (ndigs u))).
  - exists []. rewrite blit_nil. cbn [length]. rewrite bpow_0. cbn. repeat split; try lia; done.
  - enough (ndigs uval <= Z.of_nat 4) by lia. apply ndigs_le_iff. change (bpow 4) with (2 ^ 64). lia.
  - intros u st' (res & -> & Hu0 & HD & Hv & Hlow) Hgt. to_prop.
    pose proof (dval_bounds res HD) as Br. pose proof (bpow_pos (length res)) as Hp.
    assert (Z.of_nat (length res) < ndigs uval) as Hlt by (apply ndigs_lt_iff; nia).
    apply wp_bind. eapply wp_get_len_hdr; [st_simpl; by rewrite lookup_insert_eq|]. cbn [len].
    apply wp_bind, wp_mpn. cbn [digs]. rewrite dig_mask, dig_shr.
    apply (wp_store_blit _ _ _ (Z.to_nat (ndigs uval))); [done|lia|].
    apply wp_bind. eapply wp_set_len_hdr; [st_simpl; by rewrite lookup_insert_eq|]. apply wp_ret.
    st_simpl. rewrite insert_insert_eq.
    pose proof (Z.div_mod u 65536 ltac:(lia)). pose proof (Z.mod_pos_bound u 65536 ltac:(lia)).
    split; [|apply ndigs_div; lia].
    exists (res ++ [u `mod` 65536]). rewrite length_app, dval_snoc. cbn [length].
    replace (Z.of_nat (length res + 1)) with (Z.of_nat (length res) + 1) by lia.
    split; [done|]. split; [apply Z.div_pos; lia|].
    split; [by apply Forall_app_2, Forall_singleton|]. split.
    + rewrite Nat.add_1_r, bpow_S, Hv. nia.
    + intros Hz _. replace (length res + 1 - 1)%nat with (length res) by lia. nia.
  - intros u st' (res & -> & Hu0 & HD & Hv & Hlow) Hle. to_prop. assert (u = 0) as -> by lia.
    apply wp_ret. rewrite Z.mul_0_r, Z.add_0_r in Hv. subst uval.
    apply HQ. rewrite Hn. destruct Ho as (h' & l & Hh' & Hl & Hs & Hfix).
    assert (normal res) as Hnr by (apply normal_lower; [done|by intros; apply Hlow]).
    apply (updated_intro st z (MkMpz (neg h) (fixed_dig h) (alloc h) (len h)) (blit (digs st) z res) b res);
      [done|by exists h', l| |apply (wrote_blit_all _ _ l); [done|]|done|done|].
    + by destruct h.
    + destruct Hroom as (l' & Hl' & Hlr). simplify_eq.
      pose proof (ndigs_length false res HD Hnr) as Hnl. cbn [sval] in Hnl. lia.
    + intros Hbt ->. by specialize (Hb Hbt).
Qed.

Lemma wp_mpz_set_from_int st z val (Q : unit -> mpz_store -> Prop) :
  wf st -> owns st z -> - 2 ^ 31 < val < 2 ^ 31 ->
  (forall st', updated st st' z val -> Q tt st') ->
  wp (mpz_set_from_int z val) st Q.
Proof.
  intros Hwf Ho Hval HQ. unfold mpz_set_from_int. destruct (val =? 0) eqn:E; to_prop.
  { subst val. by apply wp_set_neg_len_zero. }
  apply wp_bind, wp_mpz_need_dig; [done..|]. intros st1 Hg.
  pose proof Hg as (Hwf1 & Ho1 & Hroom & Hfr & _ & _ & _).
  pose proof Ho1 as (h & l & Hh & Hl & Hs & Hfix).
  apply wp_bind. apply (wp_mono _ _ (fun uval st2 => uval = Z.abs val /\
    st2 = set_hdr (<[z := MkMpz (zbool (val <? 0)) (fixed_dig h) (alloc h) (len h)]> (hdr st1)) st1)).
  { destruct (val <? 0) eqn:E2; to_prop; apply wp_bind, (wp_set_neg_hdr _ _ h); try done;
      [apply wp_bind, wp_sint; [lia|]|]; apply wp_ret; (split; [rewrite u32_small; lia|done]). }
  intros uval st2 [-> ->]. destruct (signed_ok st1 z h (zbool (val <? 0))) as (Hwf2 & Ho2 & Hfr2); [done..|].
  apply (wp_put_digits _ _ (val <? 0)); [done|done|lia| | | |].
  - st_simpl. eapply room_mono; [done|]. enough (ndigs (Z.abs val) <= Z.of_nat 2) by (change MPZ_NUM_DIG_FOR_INT with 2; lia).
    apply ndigs_le_iff. change (bpow 2) with (2 ^ 32). lia.
  - lia.
  - eexists. st_simpl. by rewrite lookup_insert_eq.
  - intros st' Hu. apply HQ. eapply grown_updated; [done|].
    replace val with (sval (val <? 0) (Z.abs val)) by (destruct (val <? 0) eqn:E2; to_prop; cbn; lia).
    by eapply frame_updated.
Qed.

Lemma wp_mpz_set_from_ll st z val (is_signed : bool) (Q : unit -> mpz_store -> Prop) :
  wf st -> owns st z ->
  (if is_signed then - 2 ^ 63 <= val < 2 ^ 63 else 0 <= val < 2 ^ 64) ->
  (forall st', updated st st' z val -> Q tt st') ->
  wp (mpz_set_from_ll z val is_signed) st Q.
Proof.
  intros Hwf Ho Hval HQ. unfold mpz_set_from_ll.
  apply wp_bind, wp_mpz_need_dig; [done..|]. intros st1 Hg.
  pose proof Hg as (Hwf1 & Ho1 & Hroom & Hfr & _ & _ & _).
  pose proof Ho1 as (h & l & Hh & Hl & Hs & Hfix).
  apply wp_bind. apply (wp_mono _ _ (fun uval st2 => uval = Z.abs val /\
    st2 = set_hdr (<[z := MkMpz (zbool (val <? 0)) (fixed_dig h) (alloc h) (len h)]> (hdr st1)) st1)).
  { destruct (val <? 0) eqn:E2, is_signed; cbn [andb]; to_prop; try lia;
      apply wp_bind, (wp_set_neg_hdr _ _ h); try done; apply wp_ret; (split; [|done]);
      unfold uwrap; Z.to_euclidean_division_equations; lia. }
  intros uval st2 [-> ->]. destruct (signed_ok st1 z h (zbool (val <? 0))) as (Hwf2 & Ho2 & Hfr2); [done..|].
  apply (wp_put_digits _ _ (val <? 0)); [done|done|destruct is_signed; lia| | | |].
  - st_simpl. eapply room_mono; [done|]. enough (ndigs (Z.abs val) <= Z.of_nat 4) by (change MPZ_NUM_DIG_FOR_LL with 4; lia).
    apply ndigs_le_iff. change (bpow 4) with (2 ^ 64). destruct is_signed; lia.
  - lia.
  - eexists. st_simpl. by rewrite lookup_insert_eq.
  - intros st' Hu. apply HQ. eapply grown_updated; [done|].
    replace val with (sval (val <? 0) (Z.abs val)) by (destruct (val <? 0) eqn:E2; to_prop; cbn; lia).
    by eapply frame_updated.
Qed.

(** ** New structures *)

Lemma wp_mpz_init_zero st z (Q : unit -> mpz_store -> Prop) :
  wf st -> (z < nxt st)%nat -> (forall st', updated st st' z 0 -> Q tt st') ->
  wp (mpz_init_zero z) st Q.
Proof.
  intros Hwf Hz HQ. apply wp_bind, wp_set_fields, wp_modify. st_simpl. apply HQ.
  split; [by apply wf_upd|]. split; [by apply frame_upd|].
  split. { eexists _, []. cbn. by rewrite !lookup_insert_eq. }
  exists false, []. split; [|done]. eexists _, []. cbn. by rewrite !lookup_insert_eq.
Qed.

Lemma wp_mpz_init_from_int st z val (Q : unit -> mpz_store -> Prop) :
  wf st -> (z < nxt st)%nat -> - 2 ^ 31 < val < 2 ^ 31 ->
  (forall st', updated st st' z val -> Q tt st') ->
  wp (mpz_init_from_int z val) st Q.
Proof.
  intros Hwf Hz Hval HQ. apply wp_bind, wp_mpz_init_zero; [done..|]. intros st1 Hu.
  pose proof Hu as (Hwf1 & _ & Ho1 & _). apply wp_mpz_set_from_int; [done..|].
  intros st2 Hu2. apply HQ. by eapply updated_trans.
Qed.

(** ** Comparison *)

Lemma wp_mpn_cmp_z st z1 z2 b1 l1 b2 l2 (Q : Z -> mpz_store -> Prop) :
  reprl st z1 b1 l1 -> reprl st z2 b2 l2 -> Q (Z.sgn (dval l1 - dval l2)) st ->
  wp (mpn_cmp_z z1 z2) st Q.
Proof.
  intros H1 H2 HQ. apply wp_bind, (wp_get_len _ _ b1 l1); [done|].
  apply wp_bind, (wp_get_len _ _ b2 l2); [done|].
  apply wp_mpn, wp_mpn_cmp; eauto using reprl_holds, reprl_dig, reprl_normal.
  by rewrite set_digs_id.
Qed.

Lemma wp_mpz_cmp st z1 z2 v1 v2 (Q : Z -> mpz_store -> Prop) :
  repr st z1 v1 -> repr st z2 v2 -> Q (Z.sgn (v1 - v2)) st -> wp (mpz_cmp z1 z2) st Q.
Proof.
  intros (b1 & l1 & H1 & ->) (b2 & l2 & H2 & ->) HQ.
  pose proof (reprl_sign _ _ _ _ H1) as Hs1. pose proof (reprl_sign _ _ _ _ H2) as Hs2.
  pose proof (dval_bounds l1 (reprl_dig _ _ _ _ H1)). pose proof (dval_bounds l2 (reprl_dig _ _ _ _ H2)).
  apply wp_bind, (wp_get_neg _ _ b2 l2); [done|]. apply wp_bind, (wp_get_neg _ _ b1 l1); [done|].
  cbv zeta. destruct (eqb b1 b2) eqn:Eb; [apply eqb_prop in Eb as ->|apply eqb_false_iff in Eb].
  - rewrite Z.sub_diag. cbn [Z.eqb negb]. apply wp_bind, (wp_mpn_cmp_z _ _ _ b2 l1 b2 l2); [done..|].
    apply wp_bind, (wp_get_neg _ _ b2 l1); [done|]. destruct b2; cbn [zbool Z.eqb negb sval] in *;
      apply wp_ret; refine (eq_ind _ (fun v => Q v st) HQ _ _); lia.
  - destruct b1, b2; try done; cbn [zbool Z.sub Z.add Z.opp Z.pos_sub Z.eqb negb sval] in *;
      apply wp_ret; refine (eq_ind _ (fun v => Q v st) HQ _ _); lia.
Qed.

(** ** Sign *)

(** A change of sign of a structure that is not zero (or to [+]). *)
Lemma wp_set_neg_repr st z b b' l (Q : unit -> mpz_store -> Prop) :
  wf st -> owns st z -> reprl st z b l -> (b' = true -> l <> []) ->
  (forall st', updated st st' z (sval b' (dval l)) -> Q tt st') ->
  wp (set_neg z (zbool b')) st Q.
Proof.
  intros Hwf Ho (h & rest & Hh & Hd & Hs & Hl & Hn & Hdig & Hnorm & _) Hb HQ.
  apply (wp_set_neg_hdr _ _ h); [done|]. apply HQ. rewrite Hl.
  apply (updated_intro st z h (digs st)); try done. apply wrote_refl. by exists rest.
Qed.

(** [if (dest != z) mpz_set(dest, z)] *)
Lemma wp_copy_unless_same st dest z v (Q : unit -> mpz_store -> Prop) :
  wf st -> owns st dest -> repr st z v ->
  (forall st', updated st st' dest v -> Q tt st') ->
  wp (if negb (dest =? z)%nat then mpz_set dest z else mret tt) st Q.
Proof.
  intros Hwf Ho Hr HQ. destruct (Nat.eqb_spec dest z) as [->|Hne]; cbn [negb].
  - apply wp_ret, HQ. split; [done|]. split; [apply frame_refl|done].
  - eapply wp_mpz_set; [done..|]. auto.
Qed.

Lemma wp_mpz_abs_inpl st dest z v (Q : unit -> mpz_store -> Prop) :
  wf st -> owns st dest -> repr st z v ->
  (forall st', updated st st' dest (Z.abs v) -> Q tt st') ->
  wp (mpz_abs_inpl dest z) st Q.
Proof.
  intros Hwf Ho Hr HQ. apply wp_bind, (wp_copy_unless_same _ _ _ v); [done..|].
  intros st1 Hu. pose proof Hu as (Hwf1 & _ & Ho1 & b & l & Hl & ->).
  pose proof (dval_bounds l (reprl_dig _ _ _ _ Hl)).
  apply (wp_set_neg_repr _ _ b false l); [done..|]. intros st2 Hu2. apply HQ.
  eapply updated_trans; [done|]. rewrite sval_abs by lia. done.
Qed.

Lemma wp_mpz_neg_inpl st dest z v (Q : unit -> mpz_store -> Prop) :
  wf st -> owns st dest -> repr st z v ->
  (forall st', updated st st' dest (- v) -> Q tt st') ->
  wp (mpz_neg_inpl dest z) st Q.
Proof.
  intros Hwf Ho Hr HQ. apply wp_bind, (wp_copy_unless_same _ _ _ v); [done..|].
  intros st1 Hu. pose proof Hu as (Hwf1 & _ & Ho1 & b & l & Hl & ->).
  apply wp_bind, (wp_get_len _ _ b l); [done|].
  destruct (_ =? 0) eqn:E; cbn [negb]; to_prop.
  - destruct l; [|cbn in E; lia]. apply wp_ret, HQ.
    assert (- sval b (dval []) = sval b (dval [])) as -> by by destruct b. done.
  - apply wp_bind, (wp_get_neg _ _ b l); [done|].
    replace (1 - zbool b) with (zbool (negb b)) by by destruct b.
    apply (wp_set_neg_repr _ _ b (negb b) l); [done..|by intros _ ->|]. intros st2 Hu2. apply HQ.
    eapply updated_trans; [done|].
    replace (- sval b (dval l)) with (sval (negb b) (dval l)) by (destruct b; cbn; lia). done.
Qed.

(** ** One-digit operands *)

Definition bump (st : mpz_store) : mpz_store := MkStore (digs st) (hdr st) (S (nxt st)).

Lemma bump_wf st : wf st -> wf (bump st).
Proof. intros Hwf z Hz. apply Hwf. cbn in Hz. lia. Qed.

Lemma bump_frame st D : frame st (bump st) D.
Proof. split; [cbn; lia|done]. Qed.

Lemma bump_updated st st' z v : updated (bump st) st' z v -> updated st st' z v.
Proof. apply frame_updated, bump_frame. Qed.

Lemma wrote_delete_fresh m m' k x z res : k <> z -> m !! k = None ->
  wrote (<[k := x]> m) m' z res -> wrote m (delete k m') z res.
Proof.
  intros Hne Hk (l & l' & Hl & -> & Hlen & Hr). rewrite lookup_insert_ne in Hl by done.
  exists l, l'. split; [done|]. split; [|done].
  rewrite insert_insert_ne, delete_insert_id by (done || by rewrite lookup_insert_ne).
  done.
Qed.

(** An operation [f] on the digits of [z] and a local digit array holding 1. *)
Lemma wp_with_dig st z b l (f : Z -> nat -> M blocks Z) (P : list Z -> Prop) (Q : Z -> mpz_store -> Prop) :
  wf st -> reprl st z b l ->
  (forall m k Q', holds m z l -> holds m k [1] -> m !! z = digs st !! z ->
     (forall res m', wrote m m' z res -> P res -> Q' (Z.of_nat (length res)) m') ->
     wp (f (Z.of_nat (length l)) k) m Q') ->
  (forall m' res, wrote (digs st) m' z res -> P res ->
     Q (Z.of_nat (length res)) (set_digs m' (bump st))) ->
  wp (with_dig 1 (fun k => n ← get_len z; mpn (f n k))) st Q.
Proof.
  intros Hwf Hr Hf HQ. pose proof (reprl_lt _ _ _ _ Hwf Hr) as Hlt.
  pose proof Hr as (h & rest & Hh & Hd & _ & Hl & _). destruct (Hwf (nxt st) ltac:(lia)) as [_ Hk].
  assert (nxt st <> z) as Hne by lia.
  apply wp_bind, wp_new_id, wp_bind, wp_modify. st_simpl.
  apply wp_bind, wp_bind, (wp_get_len_hdr _ _ h); [done|]. rewrite Hl. apply wp_mpn. cbn [digs].
  apply Hf.
  - exists rest. by rewrite lookup_insert_ne.
  - exists []. by rewrite lookup_insert_eq.
  - by rewrite lookup_insert_ne.
  - intros res m' Hw HP. apply wp_bind, wp_modify, wp_ret. st_simpl.
    apply (HQ (delete (nxt st) m') res); [by eapply wrote_delete_fresh|done].
Qed.

Lemma is_dig_1 : Forall is_dig [1].
Proof. apply Forall_singleton. unfold is_dig. lia. Qed.

Lemma room_eq (m m' : blocks) z n : m !! z = m' !! z -> room m' z n -> room m z n.
Proof. intros He (l & Hl & Hn). exists l. by rewrite He. Qed.

(** The one-digit additions and subtractions of [mpz_not_inpl] and [mpz_shr_inpl]. *)
Lemma wp_add_one st z b l (Q : Z -> mpz_store -> Prop) :
  wf st -> reprl st z b l -> (bpow (length l) <= dval l + 1 -> room (digs st) z (S (length l))) ->
  l <> [] ->
  (forall m' res, wrote (digs st) m' z res -> Forall is_dig res -> normal res ->
     dval res = dval l + 1 -> Q (Z.of_nat (length res)) (set_digs m' (bump st))) ->
  wp (with_dig 1 (fun k => n ← get_len z; mpn (mpn_add z z n k 1))) st Q.
Proof.
  intros Hwf Hr Hroom Hne HQ. pose proof Hr as (h & rest & Hh & _).
  assert (1 <= length l)%nat by (destruct l; [done|cbn; lia]).
  eapply (wp_with_dig _ _ b l (fun n k => mpn_add z z n k 1)
    (fun res => Forall is_dig res /\ normal res /\ dval res = dval l + 1)); [done|done| |].
  - intros m k Q' Hz Hk Heq HQ'. apply (wp_mpn_add _ z z k l [1]);
      [done|done|by eapply reprl_dig|apply is_dig_1|cbn; lia|by eapply reprl_normal| | |].
    + eapply room_eq; [done|]. by eapply holds_length_room, reprl_holds.
    + cbn [dval foldr]. intros Hge. eapply room_eq; [done|]. apply Hroom. lia.
    + intros res m' Hw Hd Hn Hv. apply HQ'; [done|]. split; [done|]. split; [done|]. cbn in Hv. lia.
  - intros m' res Hw (Hd & Hn & Hv). by apply HQ.
Qed.

Lemma wp_sub_one st z b l (Q : Z -> mpz_store -> Prop) :
  wf st -> reprl st z b l -> 0 < dval l ->
  (forall m' res, wrote (digs st) m' z res -> Forall is_dig res -> normal res ->
     dval res = dval l - 1 -> Q (Z.of_nat (length res)) (set_digs m' (bump st))) ->
  wp (with_dig 1 (fun k => n ← get_len z; mpn (mpn_sub z z n k 1))) st Q.
Proof.
  intros Hwf Hr Hpos HQ. pose proof Hr as (h & rest & Hh & _).
  assert (1 <= length l)%nat by (destruct l; [cbn in Hpos; lia|cbn; lia]).
  eapply (wp_with_dig _ _ b l (fun n k => mpn_sub z z n k 1)
    (fun res => Forall is_dig res /\ normal res /\ dval res = dval l - 1)); [done|done| |].
  - intros m k Q' Hz Hk Heq HQ'. apply (wp_mpn_sub _ z z k l [1]);
      [done|done|by eapply reprl_dig|apply is_dig_1|cbn; lia|cbn; lia| |].
    + eapply room_eq; [done|]. by eapply holds_length_room, reprl_holds.
    + intros res m' Hw Hd Hn Hv. apply HQ'; [done|]. split; [done|]. split; [done|]. cbn in Hv. lia.
  - intros m' res Hw (Hd & Hn & Hv). by apply HQ.
Qed.

Lemma reprl_bump st z b l : reprl st z b l -> reprl (bump st) z b l.
Proof. done. Qed.

Lemma wp_mpz_not_inpl st dest z v (Q : unit -> mpz_store -> Prop) :
  wf st -> owns st dest -> repr st z v -> ndigs v + 1 < MAX_DIG ->
  (forall st', updated st st' dest (- v - 1) -> Q tt st') ->
  wp (mpz_not_inpl dest z) st Q.
Proof.
  intros Hwf Ho Hr Hsz HQ. apply wp_bind, (wp_copy_unless_same _ _ _ v); [done..|].
  intros st1 Hu. pose proof Hu as (Hwf1 & _ & Ho1 & b & l & Hl & ->).
  pose proof (reprl_dig _ _ _ _ Hl) as Hdl. pose proof (reprl_sign _ _ _ _ Hl) as Hsgn.
  rewrite (reprl_ndigs _ _ _ _ Hl) in Hsz.
  assert (forall st', updated st1 st' dest (- sval b (dval l) - 1) -> Q tt st') as HQ1.
  { intros st' Hu'. apply HQ. by eapply updated_trans. }
  clear HQ. apply wp_bind, (wp_get_len _ _ b l); [done|]. destruct (_ =? 0) eqn:E; to_prop.
  - destruct l; [|cbn in E; lia]. apply reprl_nil in Hl as ->.
    apply wp_bind, wp_mpz_need_dig; [done..|]. intros st2 Hg.
    pose proof Hg as (Hwf2 & Ho2 & (bl & Hbl & Hrl) & _). pose proof Ho2 as (h & lh & Hh & _).
    destruct bl as [|x bl]; [cbn in Hrl; lia|].
    apply wp_bind, wp_mpn, (wp_store_split _ _ [] x bl); [done|done|].
    assert (wrote (digs st2) (<[dest:=[] ++ 1 :: bl]> (digs st2)) dest [1]) as Hw.
    { by apply (wrote_intro _ _ (x :: bl) [1] bl). }
    apply wp_bind, (wp_set_len_stored _ _ h _ [1]); [done|done|]. intros st3 Hst.
    apply (wp_set_neg_stored st2 _ _ [1] true); [done|done|done|apply is_dig_1|done|done|].
    intros st4 Hu4. apply HQ1. by eapply grown_updated.
  - assert (l <> []) as Hne by (by intros ->). pose proof (dval_nonzero_pos l Hdl (reprl_normal _ _ _ _ Hl) Hne).
    apply wp_bind, (wp_get_neg _ _ b l); [done|]. destruct b; cbn [zbool Z.eqb negb sval] in *.
    + apply wp_bind, (wp_set_neg_repr _ _ true false l); [done..|]. intros st2 Hu2.
      pose proof Hu2 as (Hwf2 & _ & Ho2 & Hr2).
      apply (repr_reprl _ _ false) in Hr2; [|done|by eapply reprl_normal|done].
      pose proof Ho2 as (h & lh & Hh & _).
      apply wp_bind, (wp_sub_one _ _ false l); [done..|]. intros m' res Hw Hd Hn Hv.
      apply (wp_set_len_stored (bump st2) dest h); [done|done|]. intros st3 Hst. apply HQ1.
      eapply updated_trans; [done|]. apply bump_updated.
      replace (- - dval l - 1) with (sval false (dval res)) by (cbn; lia).
      eapply (stored_updated (bump st2)); [done|by apply bump_wf|done|done|done|done|done].
    + apply wp_bind, (wp_get_len _ _ false l); [done|].
      apply wp_bind, wp_mpz_need_dig; [done|done|lia|]. intros st2 Hg.
      pose proof Hg as (Hwf2 & Ho2 & Hroom & _ & Hpres & _). apply Hpres in Hl.
      pose proof Ho2 as (h & lh & Hh & _).
      apply wp_bind, (wp_add_one _ _ false l); [done|done|intros _; eapply room_mono; [done|lia]|done|].
      intros m' res Hw Hd Hn Hv.
      apply wp_bind, (wp_set_len_stored (bump st2) dest h); [done|done|]. intros st3 Hst.
      apply (wp_set_neg_stored (bump st2) _ _ res true); [done|by apply bump_wf|done|done|done| |].
      { intros _ ->. cbn in Hv. lia. }
      intros st4 Hu4. apply HQ1. eapply grown_updated; [done|]. apply bump_updated.
      replace (- dval l - 1) with (sval true (dval res)) by (cbn; lia). done.
Qed.

(** ** Addition and subtraction *)

Lemma wp_addsub_digits st (add : bool) dest lhs rhs bl J br K (Q : unit -> mpz_store -> Prop) :
  wf st -> owns st dest -> reprl st lhs bl J -> reprl st rhs br K -> dval K <= dval J ->
  Z.of_nat (length J) + 1 < MAX_DIG ->
  (forall st1 st2 n res, grown st st1 dest n -> stored st1 st2 dest res ->
     Forall is_dig res -> normal res -> dval res = dval J + (if add then dval K else - dval K) ->
     Q tt st2) ->
  wp (addsub_digits add dest lhs rhs) st Q.
Proof.
  intros Hwf Ho HJ HK Hle Hsz HQ.
  pose proof (reprl_dig _ _ _ _ HJ) as DJ. pose proof (reprl_dig _ _ _ _ HK) as DK.
  pose proof (reprl_normal _ _ _ _ HJ) as NJ. pose proof (reprl_normal _ _ _ _ HK) as NK.
  assert (length K <= length J)%nat as HlKJ.
  { destruct (decide (length J < length K)%nat) as [Hlt|]; [|lia].
    pose proof (dval_normal_length_lt J K DJ DK NK Hlt). lia. }
  unfold addsub_digits. destruct add.
  all: apply wp_bind, (wp_get_len _ _ bl J); [done|].
  all: apply wp_bind, wp_mpz_need_dig; [done|done|lia|]; intros st1 Hg.
  all: pose proof Hg as (Hwf1 & Ho1 & Hroom & _ & Hpres & _); pose proof Ho1 as (h & lh & Hh & _).
  all: pose proof (Hpres _ _ _ HJ) as HJ1; pose proof (Hpres _ _ _ HK) as HK1.
  all: apply wp_bind, (wp_get_len _ _ bl J); [done|]; apply wp_bind, (wp_get_len _ _ br K); [done|].
  - apply wp_bind, wp_mpn, (wp_mpn_add _ dest lhs rhs J K); [by eapply reprl_holds|by eapply reprl_holds| | | | | | |];
      try done; [eapply room_mono; [done|lia]|intros _; eapply room_mono; [done|lia]|].
    intros res m' Hw Hd Hn Hv. apply (wp_set_len_stored _ _ h); [done|done|]. intros st2 Hst.
    by eapply HQ.
  - apply wp_bind, wp_mpn, (wp_mpn_sub _ dest lhs rhs J K); [by eapply reprl_holds|by eapply reprl_holds| | | | | |];
      try done; [eapply room_mono; [done|lia]|].
    intros res m' Hw Hd Hn Hv. apply (wp_set_len_stored _ _ h); [done|done|]. intros st2 Hst.
    eapply HQ; [done|done|done|done|lia].
Qed.

Lemma sign_of_result b (res : list Z) :
  Z.land (zbool b) (zbool (negb (Z.of_nat (length res) =? 0)))
    = zbool (b && negb (Z.of_nat (length res) =? 0)) /\
  sval (b && negb (Z.of_nat (length res) =? 0)) (dval res) = sval b (dval res) /\
  (b && negb (Z.of_nat (length res) =? 0) = true -> res <> []).
Proof. destruct res; destruct b; repeat split; done. Qed.

Lemma wp_mpz_add_inpl st dest lhs rhs v w (Q : unit -> mpz_store -> Prop) :
  wf st -> owns st dest -> repr st lhs v -> repr st rhs w ->
  ndigs v + 1 < MAX_DIG -> ndigs w + 1 < MAX_DIG ->
  (forall st', updated st st' dest (v + w) -> Q tt st') ->
  wp (mpz_add_inpl dest lhs rhs) st Q.
Proof.
  intros Hwf Ho (bl & J & HJ & ->) (br & K & HK & ->) Hsv Hsw HQ.
  rewrite (reprl_ndigs _ _ _ _ HJ) in Hsv. rewrite (reprl_ndigs _ _ _ _ HK) in Hsw.
  apply wp_bind, (wp_mpn_cmp_z _ _ _ bl J br K); [done..|].
  set (swap := Z.sgn (dval J - dval K) <? 0).
  assert (exists l r b1 J1 b2 K1, (if swap then (rhs, lhs) else (lhs, rhs)) = (l, r) /\
    reprl st l b1 J1 /\ reprl st r b2 K1 /\ dval K1 <= dval J1 /\
    Z.of_nat (length J1) + 1 < MAX_DIG /\
    sval bl (dval J) + sval br (dval K) = sval b1 (dval J1) + sval b2 (dval K1))
    as (l & r & b1 & J1 & b2 & K1 & -> & HJ1 & HK1 & Hle & Hsz & Hv).
  { subst swap. destruct (_ <? 0) eqn:E; to_prop.
    - exists rhs, lhs, br, K, bl, J. repeat split; try done; lia.
    - exists lhs, rhs, bl, J, br, K. repeat split; try done; lia. }
  rewrite Hv in HQ. clear Hv HJ HK Hsv Hsw.
  apply wp_bind, (wp_get_neg _ _ b1 J1); [done|]. apply wp_bind, (wp_get_neg _ _ b2 K1); [done|].
  apply wp_bind, (wp_addsub_digits _ _ _ _ _ b1 J1 b2 K1); [done..|].
  intros st1 st2 n res Hg Hst Hd Hn Hv. pose proof Hg as (Hwf1 & Ho1 & _ & _ & Hpres & _).
  apply wp_bind, (wp_get_neg_stored st1 _ dest res _ b1 J1); [done|by apply Hpres|].
  apply wp_bind, (wp_get_len_stored st1 _ _ res); [done|].
  destruct (sign_of_result b1 res) as (-> & Hs2 & Hs3).
  apply (wp_set_neg_stored st1 _ _ res); [done..|]. rewrite Hs2. intros st3 Hu. apply HQ.
  eapply grown_updated; [done|].
  assert (sval b1 (dval J1) + sval b2 (dval K1) = sval b1 (dval res)) as ->; [|done].
  rewrite Hv. destruct b1, b2; cbn; lia.
Qed.

Lemma wp_mpz_sub_inpl st dest lhs rhs v w (Q : unit -> mpz_store -> Prop) :
  wf st -> owns st dest -> repr st lhs v -> repr st rhs w ->
  ndigs v + 1 < MAX_DIG -> ndigs w + 1 < MAX_DIG ->
  (forall st', updated st st' dest (v - w) -> Q tt st') ->
  wp (mpz_sub_inpl dest lhs rhs) st Q.
Proof.
  intros Hwf Ho (bl & J & HJ & ->) (br & K & HK & ->) Hsv Hsw HQ.
  rewrite (reprl_ndigs _ _ _ _ HJ) in Hsv. rewrite (reprl_ndigs _ _ _ _ HK) in Hsw.
  apply wp_bind, (wp_mpn_cmp_z _ _ _ bl J br K); [done..|].
  set (swap := Z.sgn (dval J - dval K) <? 0).
  assert (exists l r b1 J1 b2 K1 ng, (if swap then (rhs, lhs, true) else (lhs, rhs, false)) = (l, r, ng) /\
    reprl st l b1 J1 /\ reprl st r b2 K1 /\ dval K1 <= dval J1 /\
    Z.of_nat (length J1) + 1 < MAX_DIG /\
    sval bl (dval J) - sval br (dval K) = sval ng (sval b1 (dval J1) - sval b2 (dval K1)))
    as (l & r & b1 & J1 & b2 & K1 & ng & -> & HJ1 & HK1 & Hle & Hsz & Hv).
  { subst swap. destruct (_ <? 0) eqn:E; to_prop.
    - exists rhs, lhs, br, K, bl, J, true. cbn [sval]. repeat split; try done; lia.
    - exists lhs, rhs, bl, J, br, K, false. repeat split; try done; lia. }
  rewrite Hv in HQ. clear Hv HJ HK Hsv Hsw.
  apply wp_bind, (wp_get_neg _ _ b1 J1); [done|]. apply wp_bind, (wp_get_neg _ _ b2 K1); [done|].
  apply wp_bind, (wp_addsub_digits _ _ _ _ _ b1 J1 b2 K1); [done..|].
  intros st1 st2 n res Hg Hst Hd Hn Hv. pose proof Hg as (Hwf1 & Ho1 & _ & _ & Hpres & _).
  apply wp_bind, (wp_get_len_stored st1 _ _ res); [done|].
  assert (forall b, (b = true -> res <> []) ->
    sval b (dval res) = sval ng (sval b1 (dval J1) - sval b2 (dval K1)) ->
    wp (set_neg dest (zbool b)) st2 Q) as Hfin.
  { intros b Hb Hval. apply (wp_set_neg_stored st1 _ _ res); [done..|]. intros st3 Hu. apply HQ.
    eapply grown_updated; [done|]. by rewrite <-Hval. }
  assert (dval res = sval b1 (sval b1 (dval J1) - sval b2 (dval K1))) as Hv'.
  { rewrite Hv. destruct b1, b2; cbn; lia. }
  destruct (_ =? 0) eqn:E; to_prop; [|destruct ng].
  - destruct res; [|cbn in E; lia]. apply (Hfin false); [done|].
    destruct ng, b1; cbn in Hv' |- *; lia.
  - apply wp_bind, (wp_get_neg_stored st1 _ dest res _ b1 J1); [done|by apply Hpres|].
    replace (1 - zbool b1) with (zbool (negb b1)) by by destruct b1.
    apply Hfin; [by intros _ ->|]. rewrite Hv'. destruct b1; cbn; lia.
  - apply wp_bind, (wp_get_neg_stored st1 _ dest res _ b1 J1); [done|by apply Hpres|].
    apply Hfin; [by intros _ ->|]. rewrite Hv'. destruct b1; cbn; lia.
Qed.

End Arith.
