(* ===== verification/MpzBits.v ===== *)
(** * Shifts and bitwise operations of [mpz_t] *)
From S2P Require Import Prelude.
From S2P Require Import CMem.
From S2P Require Import Mpn.
From S2P Require Import Digits.
From S2P Require Import MpnArith.
From S2P Require Import MpnShift.
From S2P Require Import MpnBits.
From S2P Require Import Mpz.
From S2P Require Import MpzSpec.
From S2P Require Import MpzArith.
Local Open Scope Z_scope.

Section Bits.
Context {heap : Heap}.

(** ** Shifts *)

Lemma wp_mpz_shl_inpl st dest lhs v n (Q : unit -> mpz_store -> Prop) :
  wf st -> owns st dest -> repr st lhs v -> 0 <= n < 2 ^ 32 - 15 ->
  ndigs v + (n + 15) / 16 < MAX_DIG ->
  (forall st', updated st st' dest (v * 2 ^ n) -> Q tt st') ->
  wp (mpz_shl_inpl dest lhs n) st Q.
Proof.
  intros Hwf Ho (b & l & Hl & ->) Hn Hsz HQ.
  rewrite (reprl_ndigs _ _ _ _ Hl) in Hsz.
  apply wp_bind, (wp_get_len _ _ b l); [done|]. destruct (_ || _) eqn:E.
  - apply (wp_mpz_set _ _ _ (sval b (dval l))); [done|done|by eapply reprl_repr|]. intros st' Hu _. apply HQ.
    assert (sval b (dval l) * 2 ^ n = sval b (dval l)) as ->; [|done].
    apply orb_true_iff in E as [E|E]; to_prop.
    + destruct l; [|cbn in E; lia]. by destruct b.
    + subst n. lia.
  - apply orb_false_iff in E as [E1 E2]. to_prop. unfold DIG_SIZE.
    assert (u32 (n + 16 - 1) / 16 = Z.of_nat (shl_whole n)) as Hw.
    { unfold shl_whole. rewrite u32_small by lia. replace (n + 16 - 1) with (n + 15) by lia.
      pose proof (Z.div_pos (n + 15) 16). lia. }
    assert (u32 (n + 16 - 1) / 16 = (n + 15) / 16) as Hw2.
    { rewrite u32_small by lia. f_equal. lia. }
    apply wp_bind, wp_mpz_need_dig; [done|done|lia|]. intros st1 Hg.
    pose proof Hg as (Hwf1 & Ho1 & Hroom & _ & Hpres & _). pose proof Ho1 as (h & lh & Hh & _).
    pose proof (Hpres _ _ _ Hl) as Hl1. apply wp_bind, (wp_get_len _ _ b l); [done|].
    apply wp_bind, wp_mpn, (wp_mpn_shl _ dest lhs l n);
      [by eapply reprl_holds|by eapply reprl_dig|lia|eapply room_mono; [done|lia]|].
    intros res m' Hwr Hd Hnr Hv.
    apply wp_bind, (wp_set_len_stored _ _ h); [done|done|]. intros st2 Hst.
    apply wp_bind, (wp_get_neg_stored _ _ _ _ _ _ _ _ Hst Hl1).
    apply (wp_set_neg_stored _ _ _ _ _ _ Hst); [done..| |].
    + intros -> ->. pose proof (reprl_sign _ _ _ _ Hl eq_refl). cbn in Hv. assert (0 < 2 ^ n) by lia. nia.
    + intros st3 Hu. apply HQ. eapply grown_updated; [done|].
      assert (sval b (dval l) * 2 ^ n = sval b (dval res)) as ->; [|done]. rewrite Hv. destruct b; cbn; lia.
Qed.

(** A list of digits is a multiple of [B ^ w] plus its first [w] digits. *)
Lemma dval_mod_pow2 l w p : Forall is_dig l -> (w < length l)%nat -> 0 <= p < 16 ->
  exists x, l !! w = Some x /\
    dval l `mod` 2 ^ (16 * Z.of_nat w + p) = dval (take w l) + bpow w * (x `mod` 2 ^ p).
Proof.
  intros Hd Hw Hp. destruct (lookup_lt_is_Some_2 l w Hw) as [x Hx]. exists x. split; [done|].
  pose proof (Forall_lookup_dig _ _ _ Hd Hx) as Dx.
  rewrite <-(take_drop_middle l w x Hx) at 1. rewrite dval_app, dval_cons, length_take.
  replace (w `min` length l)%nat with w by lia.
  rewrite Z.pow_add_r, <-bpow_pow2 by lia.
  pose proof (dval_take_bounds l w Hd ltac:(lia)) as Bt. pose proof (bpow_pos w) as HB.
  assert (0 < 2 ^ p) as H2 by lia. pose proof (Z.mod_pos_bound x (2 ^ p) H2).
  set (d := dval (drop (S w) l)). symmetry.
  assert (65536 = 2 ^ (16 - p) * 2 ^ p) as H16.
  { rewrite <-Z.pow_add_r by lia. by replace (16 - p + p) with 16 by lia. }
  apply (Z.mod_unique_pos _ _ (x / 2 ^ p + 2 ^ (16 - p) * d)); [nia|].
  pose proof (Z.div_mod x (2 ^ p) ltac:(lia)) as Hx2. rewrite H16. rewrite Hx2 at 1. ring.
Qed.

(** The search for a digit shifted out that is not zero. *)
Lemma wp_shr_any_whole st lhs b l w (Q : bool -> mpz_store -> Prop) :
  reprl st lhs b l -> 0 <= w ->
  Q (negb (dval (take (Z.to_nat w) l) =? 0)) st ->
  wp (shr_any_whole lhs w) st Q.
Proof.
  intros Hl Hw HQ. apply wp_bind, (wp_get_len _ _ b l); [done|].
  pose proof (reprl_dig _ _ _ _ Hl) as Hd.
  apply (wp_loop (fun i st' => st' = st /\ exists t, i = Z.of_nat t /\ (t <= length l)%nat /\ i <= w /\
           dval (take t l) = 0) (fun i => Z.to_nat (Z.of_nat (length l) - i))).
  - intros i st' (-> & t & -> & Ht & Htw & Hz). apply wp_bind, (wp_get_len _ _ b l); [done|].
    destruct (_ && _) eqn:E.
    + apply andb_true_iff in E as [E1 E2]. to_prop.
      apply wp_bind, wp_mpn, (wp_load_holds _ _ l); [by eapply reprl_holds|lia|]. intros x Hx.
      rewrite set_digs_id. pose proof (Forall_lookup_dig _ _ _ Hd Hx) as Dx.
      pose proof (dval_take_S _ _ _ Hx) as Hs. pose proof (bpow_pos t).
      destruct (x =? 0) eqn:Ex; to_prop; apply wp_ret.
      * split; [|lia]. split; [done|]. exists (S t). rewrite Hs, Hz. repeat split; lia.
      * refine (eq_ind _ (fun v => Q v st) HQ _ _). apply negb_true_iff, Z.eqb_neq.
        assert (0 < dval (take (S t) l)) by nia.
        pose proof (dval_take_bounds l (S t) Hd ltac:(lia)).
        assert (exists r, take (Z.to_nat w) l = take (S t) l ++ r /\ Forall is_dig r) as (r & -> & Hr).
        { exists (drop (S t) (take (Z.to_nat w) l)). split; [|by apply Forall_drop, Forall_take].
          rewrite <-(take_drop (S t) (take (Z.to_nat w) l)) at 1. rewrite take_take. do 2 f_equal. lia. }
        rewrite dval_app. pose proof (dval_bounds r Hr). pose proof (bpow_pos (length (take (S t) l))). nia.
    + apply wp_ret. refine (eq_ind _ (fun v => Q v st) HQ _ _). apply negb_false_iff, Z.eqb_eq.
      apply andb_false_iff in E as [E|E]; to_prop.
      * rewrite take_ge by lia. rewrite take_ge in Hz by lia. done.
      * by replace (Z.to_nat w) with t by lia.
  - split; [done|]. exists 0%nat. rewrite take_0. repeat split; lia.
  - lia.
Qed.

(** Is a bit that is shifted out set? *)
Lemma shifted_out l w p x : Forall is_dig l -> 0 <= w -> 0 <= p < 16 ->
  (Z.of_nat (length l) <= w \/ l !! Z.to_nat w = Some x) ->
  negb (dval l `mod` 2 ^ (16 * w + p) =? 0) =
  negb (dval (take (Z.to_nat w) l) =? 0) ||
  (if w <? Z.of_nat (length l) then negb (Z.land x (Z.shiftl 1 p - 1) =? 0) else false).
Proof.
  intros Hd Hw Hp Hx. pose proof (dval_bounds l Hd) as Bl.
  destruct (w <? Z.of_nat (length l)) eqn:E; to_prop.
  - destruct Hx as [|Hx]; [lia|].
    destruct (dval_mod_pow2 l (Z.to_nat w) p Hd ltac:(lia) Hp) as (x' & Hx' & Hv).
    assert (x' = x) as -> by congruence. rewrite Z2Nat.id in Hv by done. rewrite Hv.
    rewrite shiftl_mul, Z.mul_1_l, land_pow2_mask by lia.
    pose proof (dval_take_bounds l (Z.to_nat w) Hd ltac:(lia)). pose proof (bpow_pos (Z.to_nat w)).
    pose proof (Z.mod_pos_bound x (2 ^ p)).
    destruct (dval (take _ l) =? 0) eqn:E1, (x `mod` 2 ^ p =? 0) eqn:E2; to_prop; cbn [negb orb];
      (apply negb_true_iff, Z.eqb_neq || apply negb_false_iff, Z.eqb_eq); nia.
  - rewrite take_ge, orb_false_r by lia. do 2 f_equal. apply Z.mod_small. split; [lia|].
    eapply Z.lt_le_trans; [apply Bl|]. rewrite bpow_pow2. apply Z.pow_le_mono_r; lia.
Qed.

(** The rounding of an arithmetic shift. *)
Lemma neg_div_round v m : 0 < m ->
  - v / m = - (v / m) - (if negb (v `mod` m =? 0) then 1 else 0).
Proof.
  intros Hm. destruct (v `mod` m =? 0) eqn:E; cbn [negb]; to_prop.
  - rewrite Z.div_opp_l_z by lia. lia.
  - rewrite Z.div_opp_l_nz by lia. lia.
Qed.

(** Rounding up the magnitude [res] that [mpn_shr] left in [dest]: the last part
    of [mpz_shr_inpl], in a state whose header is already negative. *)
Lemma wp_shr_round st dest h m1 res (Q : unit -> mpz_store -> Prop) :
  wf st -> owns st dest -> hdr st !! dest = Some h -> wrote (digs st) m1 dest res ->
  Forall is_dig res -> normal res -> room (digs st) dest 1 ->
  (bpow (length res) <= dval res + 1 -> room (digs st) dest (S (length res))) ->
  (forall st', updated st st' dest (- (dval res + 1)) -> Q tt st') ->
  wp (n ← get_len dest;
      if n =? 0 then _ ← mpn (store dest 0 1); set_len dest 1
      else
        n ← with_dig 1 (fun k => n ← get_len dest; mpn (mpn_add dest dest n k 1));
        set_len dest n)
    (MkStore m1 (<[dest := MkMpz 1 (fixed_dig h) (alloc h) (Z.of_nat (length res))]> (hdr st)) (nxt st)) Q.
Proof.
  intros Hwf Ho Hh Hw Hd Hnr Hroom1 Hroom HQ. apply wp_bind.
  eapply wp_get_len_hdr; [st_simpl; by rewrite lookup_insert_eq|]. st_simpl.
  destruct (_ =? 0) eqn:E; to_prop.
  - destruct res; [|cbn in E; lia]. destruct (wrote_room _ _ _ _ _ Hw Hroom1) as ([|x bl] & Hbl & Hr1);
      [cbn in Hr1; lia|].
    apply wp_bind, wp_mpn, (wp_store_split _ _ [] x bl); [done|done|].
    eapply wp_set_len_hdr; [st_simpl; by rewrite lookup_insert_eq|]. st_simpl.
    rewrite insert_insert_eq. apply HQ.
    apply (updated_intro st dest h _ true [1]); try done; [|apply is_dig_1].
    eapply wrote_trans; [done|]. by apply (wrote_intro _ _ (x :: bl) [1] bl).
  - assert (res <> []) as Hne by (by intros ->).
    pose proof (updated_intro st dest h m1 true res Hwf Ho Hh Hw Hd Hnr ltac:(done)) as Hu.
    cbn [zbool] in Hu. set (st1 := MkStore m1 _ (nxt st)) in *.
    pose proof Hu as (Hwf1 & _ & Ho1 & Hr1).
    apply (repr_reprl _ _ true) in Hr1; [|done|done|done].
    apply wp_bind, (wp_add_one _ _ true res); [done|done| |done|].
    { intros Hge. eapply wrote_room; [exact Hw|]. by apply Hroom. }
    intros m2 res2 Hw2 Hd2 Hn2 Hv2.
    pose proof Ho1 as (h1 & l1 & Hh1 & _). apply (wp_set_len_stored (bump st1) dest h1); [done|done|].
    intros st2 Hst. apply HQ. eapply updated_trans; [done|]. apply bump_updated. rewrite <-Hv2.
    apply (stored_updated _ _ _ _ true res Hst); [by apply bump_wf|done|done|done|done|].
    intros _ ->. pose proof (dval_bounds res Hd). cbn in Hv2. lia.
Qed.

(** A negative number may not be shifted in place: the rounding reads the digits
    of [lhs] after [dest] has been written. *)
Lemma wp_mpz_shr_inpl st dest lhs v n (Q : unit -> mpz_store -> Prop) :
  wf st -> owns st dest -> repr st lhs v -> 0 <= n -> (dest = lhs -> 0 <= v) ->
  (forall st', updated st st' dest (v / 2 ^ n) -> Q tt st') ->
  wp (mpz_shr_inpl dest lhs n) st Q.
Proof.
  intros Hwf Ho (b & l & Hl & ->) Hn Halias HQ.
  pose proof (reprl_dig _ _ _ _ Hl) as Hdl. pose proof (reprl_small _ _ _ _ Hl) as Hsm.
  pose proof (reprl_sign _ _ _ _ Hl) as Hsgn. pose proof (dval_bounds l Hdl) as Bl.
  apply wp_bind, (wp_get_len _ _ b l); [done|]. destruct (_ || _) eqn:E.
  { apply (wp_mpz_set _ _ _ (sval b (dval l))); [done|done|by eapply reprl_repr|]. intros st' Hu _. apply HQ.
    assert (sval b (dval l) / 2 ^ n = sval b (dval l)) as ->; [|done].
    apply orb_true_iff in E as [E|E]; to_prop.
    - destruct l; [|cbn in E; lia]. destruct b; apply Z.div_0_l; lia.
    - subst n. apply Z.div_1_r. }
  apply orb_false_iff in E as [E1 E2]. to_prop.
  apply wp_bind, wp_mpz_need_dig; [done..|]. intros st1 Hg.
  pose proof Hg as (Hwf1 & Ho1 & Hroom & _ & Hpres & _). pose proof Ho1 as (h & lh & Hh & Hlh & _).
  pose proof (Hpres _ _ _ Hl) as Hl1. apply wp_bind, (wp_get_len _ _ b l); [done|].
  apply wp_bind, wp_mpn, (wp_mpn_shr _ dest lhs l n);
    [by eapply reprl_holds|done|by eapply reprl_normal|lia|eapply room_mono; [done|lia]|].
  intros res m1 Hw Hd Hnr Hv Hlr.
  assert (wrote (digs st1) m1 dest res) as Hw1.
  { destruct Hw as [[-> ->]|Hw]; [|done]. apply wrote_refl. by exists lh. }
  clear Hw. apply wp_bind, (wp_set_len_stored _ _ h); [done|done|]. intros st2 Hst.
  apply wp_bind, (wp_get_neg_stored _ _ _ _ _ _ _ _ Hst Hl1).
  assert (forall st', updated st1 st' dest (sval b (dval l) / 2 ^ n) -> Q tt st') as HQ1.
  { intros st' Hu. apply HQ. by eapply grown_updated. }
  destruct b; cbn [sval] in *.
  2:{ apply wp_bind, (wp_set_neg_stored _ _ _ _ false _ Hst); [done..|]. intros st3 Hu.
      pose proof Hu as (_ & _ & _ & Hr3).
      apply wp_bind, (wp_get_neg _ _ false res).
      { by apply (repr_reprl _ _ false). }
      apply wp_ret, HQ1. by rewrite <-Hv. }
  assert (dest <> lhs) as Hne. { intros Heq. specialize (Halias Heq). specialize (Hsgn eq_refl). lia. }
  destruct Hst as (h' & m1' & Hh' & Hw2 & ->). clear Hw1.
  apply wp_bind. eapply wp_set_neg_hdr; [st_simpl; by rewrite lookup_insert_eq|]. st_simpl.
  apply wp_bind. apply wp_bind. eapply wp_fields; [st_simpl; by rewrite lookup_insert_eq|]. st_simpl.
  apply wp_ret. cbn [zbool Z.eqb negb]. rewrite insert_insert_eq. cbv zeta. unfold DIG_SIZE.
  set (st3 := MkStore m1' _ (nxt st1)).
  assert (frame st1 st3 [dest]) as Hfr3.
  { destruct Hw2 as (lw & lw' & _ & -> & _). apply frame_upd. }
  assert (reprl st3 lhs true l) as Hl3.
  { eapply reprl_frame; [exact Hwf1|exact Hfr3|by apply not_elem_of_list_1|done]. }
  apply wp_bind, (wp_shr_any_whole _ _ true l); [done|apply Z.div_pos; lia|].
  apply wp_bind, (wp_get_len _ _ true l); [done|].
  pose proof (Z.div_mod n 16 ltac:(lia)) as Hn16. pose proof (Z.mod_pos_bound n 16 ltac:(lia)) as Hm16.
  assert (0 <= n / 16) as Hn0 by (apply Z.div_pos; lia).
  apply wp_bind.
  apply (wp_mono _ _ (fun part st' => st' = st3 /\
    negb (dval (take (Z.to_nat (n / 16)) l) =? 0) || part = negb (dval l `mod` 2 ^ n =? 0))).
  { replace (2 ^ n) with (2 ^ (16 * (n / 16) + n `mod` 16)) by (f_equal; lia). destruct (n / 16 <? Z.of_nat (length l)) eqn:E; to_prop.
    - rewrite <-(Z2Nat.id (n / 16)) at 1 by lia.
      apply wp_bind, wp_mpn, (wp_load_holds _ _ l); [by eapply reprl_holds|lia|]. intros x Hx.
      rewrite set_digs_id. apply wp_ret. split; [done|].
      rewrite (shifted_out l (n / 16) (n `mod` 16) x) by (done || lia || by right).
      by rewrite (proj2 (Z.ltb_lt _ _) E).
    - apply wp_ret. split; [done|].
      rewrite (shifted_out l (n / 16) (n `mod` 16) 0) by (done || lia || by left).
      by rewrite (proj2 (Z.ltb_ge _ _) E). }
  intros part st' [-> Hpart]. rewrite Hpart.
  pose proof (neg_div_round (dval l) (2 ^ n) ltac:(lia)) as Hround.
  assert (2 <= 2 ^ n) as H2n by (change 2 with (2 ^ 1) at 1; apply Z.pow_le_mono_r; lia).
  pose proof (Z.div_mod (dval l) (2 ^ n) ltac:(lia)) as Hdm. rewrite <-Hv in Hdm, Hround.
  destruct (negb (dval l `mod` 2 ^ n =? 0)) eqn:Er.
  - apply (wp_shr_round st1 dest h' m1' res); try done; [eapply room_mono; [done|lia]| |].
    + intros Hge. destruct (decide (length res = length l)) as [Heq|]; [|eapply room_mono; [done|lia]].
      rewrite Heq in Hge. pose proof (Z.mod_pos_bound (dval l) (2 ^ n)).
      assert (65536 <= bpow (length l)); [|nia].
      replace (length l) with (S (length l - 1)) by (destruct l; [cbn in E1; lia|cbn; lia]).
      rewrite bpow_S. pose proof (bpow_pos (length l - 1)). lia.
    + intros st' Hu. apply HQ1. rewrite Hround. by replace (- dval res - 1) with (- (dval res + 1)) by lia.
  - apply wp_ret, HQ1. apply negb_false_iff, Z.eqb_eq in Er. rewrite Hround, Z.sub_0_r.
    apply (updated_intro st1 dest h' m1' true res); try done. intros _ ->. cbn in Hdm. lia.
Qed.

(** ** Bitwise operations *)

Lemma zbool_eqb a b : (zbool a =? zbool b) = eqb a b.
Proof. by destruct a, b. Qed.

Lemma zbool_nonzero b : negb (0 =? zbool b) = b.
Proof. by destruct b. Qed.

Lemma zbool_zero b : (0 =? zbool b) = negb b.
Proof. by destruct b. Qed.

Lemma land_zbool a b : Z.land (zbool a) (zbool b) = zbool (a && b).
Proof. by destruct a, b. Qed.

(** After the swap, [lhs] has at least as many digits as [rhs]; the operations
    are commutative, so the value wanted is the same. *)
Lemma wp_longest_first st lhs rhs v w (op : Z -> Z -> Z) (Q : nat * nat -> mpz_store -> Prop) :
  (forall x y, op x y = op y x) ->
  repr st lhs v -> repr st rhs w ->
  (forall l r b1 J b2 K, reprl st l b1 J -> reprl st r b2 K -> (length K <= length J)%nat ->
     Z.of_nat (length J) = Z.max (ndigs v) (ndigs w) ->
     op v w = op (sval b1 (dval J)) (sval b2 (dval K)) -> Q (l, r) st) ->
  wp (longest_first lhs rhs) st Q.
Proof.
  intros Hop (bl & J & HJ & ->) (br & K & HK & ->) HQ.
  rewrite (reprl_ndigs _ _ _ _ HJ), (reprl_ndigs _ _ _ _ HK) in HQ.
  apply wp_bind, (wp_get_len _ _ bl J); [done|]. apply wp_bind, (wp_get_len _ _ br K); [done|].
  destruct (_ <? _) eqn:E; to_prop; apply wp_ret.
  - by apply (HQ rhs lhs br K bl J); [done|done|lia|lia|].
  - by apply (HQ lhs rhs bl J br K); [done|done|lia|lia|].
Qed.

(** An operation on the digits of the operands, then the sign of the result. *)
Lemma wp_digits_sign st dest (f : M blocks Z) (b : bool) r (P : list Z -> Prop) n
    (Q : unit -> mpz_store -> Prop) st1 :
  grown st st1 dest n ->
  (forall Q', (forall res m', wrote (digs st1) m' dest res -> Forall is_dig res -> normal res ->
     P res -> Q' (Z.of_nat (length res)) m') -> wp f (digs st1) Q') ->
  (forall res, P res -> (b = true -> res <> []) /\ sval b (dval res) = r) ->
  (forall st', updated st st' dest r -> Q tt st') ->
  wp (r ← mpn f; _ ← set_len dest r; set_neg dest (zbool b)) st1 Q.
Proof.
  intros Hg Hf HP HQ. pose proof Hg as (Hwf1 & Ho1 & _). pose proof Ho1 as (h & lh & Hh & _).
  apply wp_bind, wp_mpn, Hf. intros res m' Hw Hd Hn Hres. destruct (HP res Hres) as [Hb <-].
  apply wp_bind, (wp_set_len_stored _ _ h); [done|done|]. intros st2 Hst.
  apply (wp_set_neg_stored _ _ _ _ _ _ Hst); [done..|]. intros st3 Hu. apply HQ.
  by eapply grown_updated.
Qed.

(** The facts about the operands that the digit functions ask for. *)
Lemma operands st st1 dest n l r b1 J b2 K : grown st st1 dest n -> reprl st l b1 J -> reprl st r b2 K ->
  (reprl st1 l b1 J /\ reprl st1 r b2 K) /\
  (holds (digs st1) l J /\ holds (digs st1) r K) /\ (Forall is_dig J /\ Forall is_dig K) /\
  (normal J /\ normal K) /\ ((b1 = true -> 0 < dval J) /\ (b2 = true -> 0 < dval K)) /\
  Z.of_nat (length J) < 2 ^ 32.
Proof.
  intros (_ & _ & _ & _ & Hp & _) HJ HK. pose proof (reprl_small _ _ _ _ HJ).
  apply Hp in HJ. apply Hp in HK. unfold MAX_DIG in *.
  split; [done|]. split; [by split; eapply reprl_holds|]. split; [by split; eapply reprl_dig|].
  split; [by split; eapply reprl_normal|]. split; [by split; eapply reprl_sign|lia].
Qed.

(** [xor] of complements. *)
Lemma lxor_opp_opp a b : Z.lxor (- a) (- b) = Z.lxor (a - 1) (b - 1).
Proof.
  replace (- a) with (Z.lnot (a - 1)) by (unfold Z.lnot; lia).
  replace (- b) with (Z.lnot (b - 1)) by (unfold Z.lnot; lia). apply Z.lxor_lnot_lnot.
Qed.

Lemma lxor_opp_l a b : Z.lxor (- a) b = - (Z.lxor (a - 1) b + 1).
Proof.
  replace (- a) with (Z.lnot (a - 1)) by (unfold Z.lnot; lia). rewrite <-Z.lnot_lxor_l.
  unfold Z.lnot. lia.
Qed.

Section Binary.
Context (st : mpz_store) (dest lhs rhs : nat) (v w : Z) (Q : unit -> mpz_store -> Prop).
Hypothesis Hwf : wf st.
Hypothesis Ho : owns st dest.
Hypothesis Hlhs : repr st lhs v.
Hypothesis Hrhs : repr st rhs w.
Hypothesis Hsz : Z.max (ndigs v) (ndigs w) + 1 < MAX_DIG.

Lemma wp_mpz_and_inpl :
  (forall st', updated st st' dest (Z.land v w) -> Q tt st') ->
  wp (mpz_and_inpl dest lhs rhs) st Q.
Proof using Hwf Ho Hlhs Hrhs Hsz.
  intros HQ. apply wp_bind, (wp_longest_first _ _ _ v w Z.land); [apply Z.land_comm|done|done|].
  intros l r b1 J b2 K HJ HK Hlen HlJ Hop. rewrite Hop in HQ. clear Hop.
  apply wp_bind, (wp_get_neg _ _ b1 J); [done|]. apply wp_bind, (wp_get_neg _ _ b2 K); [done|].
  rewrite !zbool_zero, <-negb_orb. destruct (b1 || b2) eqn:Eb; cbn [negb];
    (apply wp_bind, (wp_get_len _ _ b1 J); [done|]; apply wp_bind, wp_mpz_need_dig; [done|done|lia|];
     intros st1 Hg; pose proof Hg as (_ & _ & Hroom & _);
     destruct (operands _ _ _ _ _ _ _ _ _ _ Hg HJ HK)
       as ((HJ1 & HK1) & (HhJ & HhK) & (DJ & DK) & (NJ & NK) & (SJ & SK) & H32)).
  - apply wp_bind, (wp_get_len _ _ b1 J); [done|]. apply wp_bind, (wp_get_len _ _ b2 K); [done|].
    apply wp_bind, (wp_get_neg _ _ b1 J); [done|]. apply wp_bind, (wp_get_neg _ _ b2 K); [done|].
    rewrite zbool_eqb, !zbool_zero, !negb_involutive.
    pose proof Hg as (Hwf1 & Ho1 & _). pose proof Ho1 as (h & lh & Hh & _).
    apply wp_bind, wp_mpn, (wp_mpn_and_neg _ dest l r J K b1 b2); try done; [eapply room_mono; [done|lia]|].
    intros res m' Hw Hd Hn Hv. apply wp_bind, (wp_set_len_stored _ _ h); [done|done|]. intros st2 Hst.
    apply wp_bind, (wp_get_neg_stored _ _ _ _ _ _ _ _ Hst HJ1).
    apply wp_bind, (wp_get_neg_stored _ _ _ _ _ _ _ _ Hst HK1). rewrite land_zbool.
    apply (wp_set_neg_stored _ _ _ _ _ _ Hst); [done..| |].
    + intros [-> ->]%andb_true_iff ->. cbn [andb sval dval foldr] in Hv.
      assert (Z.land (- dval J) (- dval K) < 0); [|lia].
      apply Z.land_neg. specialize (SJ eq_refl). specialize (SK eq_refl). lia.
    + intros st3 Hu. apply HQ. eapply grown_updated; [done|]. by rewrite <-Hv.
  - apply orb_false_iff in Eb as [-> ->]. cbn [sval] in *.
    apply wp_bind, (wp_get_len _ _ false K); [done|].
    eapply (wp_digits_sign _ _ _ false _ (fun res => dval res = Z.land (dval J) (dval K)));
      [exact Hg| |by intros res ->|exact HQ].
    intros Q' HQ'. apply wp_mpn_and with (J := J); try done. eapply room_mono; [done|lia].
Qed.

Lemma wp_mpz_or_inpl :
  (forall st', updated st st' dest (Z.lor v w) -> Q tt st') ->
  wp (mpz_or_inpl dest lhs rhs) st Q.
Proof using Hwf Ho Hlhs Hrhs Hsz.
  intros HQ. apply wp_bind, (wp_longest_first _ _ _ v w Z.lor); [apply Z.lor_comm|done|done|].
  intros l r b1 J b2 K HJ HK Hlen HlJ Hop. rewrite Hop in HQ. clear Hop.
  apply wp_bind, (wp_get_neg _ _ b1 J); [done|]. apply wp_bind, (wp_get_neg _ _ b2 K); [done|].
  rewrite !zbool_zero, <-negb_orb. destruct (b1 || b2) eqn:Eb; cbn [negb];
    (apply wp_bind, (wp_get_len _ _ b1 J); [done|]; apply wp_bind, wp_mpz_need_dig; [done|done|lia|];
     intros st1 Hg; pose proof Hg as (_ & _ & Hroom & _);
     destruct (operands _ _ _ _ _ _ _ _ _ _ Hg HJ HK)
       as ((HJ1 & HK1) & (HhJ & HhK) & (DJ & DK) & (NJ & NK) & (SJ & SK) & H32)).
  - apply wp_bind, (wp_get_len _ _ b1 J); [done|]. apply wp_bind, (wp_get_len _ _ b2 K); [done|].
    apply wp_bind, (wp_get_neg _ _ b1 J); [done|]. apply wp_bind, (wp_get_neg _ _ b2 K); [done|].
    rewrite !zbool_zero, !negb_involutive.
    eapply (wp_digits_sign _ _ _ true _
      (fun res => - dval res = Z.lor (sval b1 (dval J)) (sval b2 (dval K)))); [exact Hg| | |exact HQ].
    + intros Q' HQ'. apply wp_mpn_or_neg; try done. eapply room_mono; [done|lia].
    + intros res Hres. split; [|done]. intros _ ->. cbn [dval foldr] in Hres.
      assert (Z.lor (sval b1 (dval J)) (sval b2 (dval K)) < 0); [|lia].
      apply Z.lor_neg. destruct b1; [left; cbn; specialize (SJ eq_refl); lia|].
      destruct b2; [right; cbn; specialize (SK eq_refl); lia|done].
  - apply orb_false_iff in Eb as [-> ->]. cbn [sval] in *.
    apply wp_bind, (wp_get_len _ _ false J); [done|]. apply wp_bind, (wp_get_len _ _ false K); [done|].
    eapply (wp_digits_sign _ _ _ false _ (fun res => dval res = Z.lor (dval J) (dval K)));
      [exact Hg| |by intros res ->|exact HQ].
    intros Q' HQ'. apply wp_mpn_or; try done. eapply room_mono; [done|lia].
Qed.

Lemma wp_mpz_xor_inpl :
  (forall st', updated st st' dest (Z.lxor v w) -> Q tt st') ->
  wp (mpz_xor_inpl dest lhs rhs) st Q.
Proof using Hwf Ho Hlhs Hrhs Hsz.
  intros HQ. apply wp_bind, (wp_longest_first _ _ _ v w Z.lxor); [apply Z.lxor_comm|done|done|].
  intros l r b1 J b2 K HJ HK Hlen HlJ Hop. rewrite Hop in HQ. clear Hop.
  apply wp_bind, (wp_get_neg _ _ b1 J); [done|]. apply wp_bind, (wp_get_neg _ _ b2 K); [done|].
  rewrite !zbool_eqb. destruct (eqb b1 b2) eqn:Eb;
    (apply wp_bind, (wp_get_len _ _ b1 J); [done|]; apply wp_bind, wp_mpz_need_dig; [done|done|lia|];
     intros st1 Hg; pose proof Hg as (_ & _ & Hroom & _);
     destruct (operands _ _ _ _ _ _ _ _ _ _ Hg HJ HK)
       as ((HJ1 & HK1) & (HhJ & HhK) & (DJ & DK) & (NJ & NK) & (SJ & SK) & H32)).
  - apply eqb_prop in Eb as ->. apply wp_bind, (wp_get_neg _ _ b2 J); [done|].
    apply wp_bind, (wp_get_len _ _ b2 J); [done|]. apply wp_bind, (wp_get_len _ _ b2 K); [done|].
    destruct b2; cbn [zbool Z.eqb sval] in *.
    + specialize (SJ eq_refl). specialize (SK eq_refl).
      eapply (wp_digits_sign _ _ _ false _ (fun res => dval res = Z.lxor (- dval J) (- dval K)));
        [exact Hg| |by intros res ->|exact HQ].
      intros Q' HQ'. apply wp_mpn_xor_neg; try done; try lia; [eapply room_mono; [done|lia]|].
      intros res m' Hw Hd Hn Hv. apply HQ'; [done..|]. rewrite lxor_opp_opp, Hv.
      by rewrite !Z.add_0_r.
    + eapply (wp_digits_sign _ _ _ false _ (fun res => dval res = Z.lxor (dval J) (dval K)));
        [exact Hg| |by intros res ->|exact HQ].
      intros Q' HQ'. apply wp_mpn_xor; try done. eapply room_mono; [done|lia].
  - apply wp_bind, (wp_get_len _ _ b1 J); [done|]. apply wp_bind, (wp_get_len _ _ b2 K); [done|].
    apply wp_bind, (wp_get_neg _ _ b1 J); [done|]. apply wp_bind, (wp_get_neg _ _ b2 K); [done|].
    rewrite !zbool_zero.
    assert (Z.lxor (sval b1 (dval J)) (sval b2 (dval K)) =
      - (Z.lxor (dval J - 1 + zbool (negb b1)) (dval K - 1 + zbool (negb b2)) + 1)) as Hx.
    { destruct b1, b2; try done; cbn [sval zbool negb]; rewrite Z.add_0_r, Z.sub_add.
      - apply lxor_opp_l.
      - rewrite Z.lxor_comm, lxor_opp_l, Z.lxor_comm. done. }
    assert (0 <= Z.lxor (dval J - 1 + zbool (negb b1)) (dval K - 1 + zbool (negb b2))) as Hx0.
    { apply Z.lxor_nonneg. pose proof (dval_bounds J DJ). pose proof (dval_bounds K DK).
      destruct b1, b2; cbn [zbool negb] in *; try done;
        try specialize (SJ eq_refl); try specialize (SK eq_refl); lia. }
    eapply (wp_digits_sign _ _ _ true _ (fun res => dval res =
        Z.lxor (dval J - 1 + zbool (negb b1)) (dval K - 1 + zbool (negb b2)) + 1)); [exact Hg| | |exact HQ].
    + intros Q' HQ'. pose proof (dval_bounds J DJ). pose proof (dval_bounds K DK).
      apply wp_mpn_xor_neg; try done; try (destruct b1, b2; cbn [zbool negb] in *; try done;
        try specialize (SJ eq_refl); try specialize (SK eq_refl); lia);
        [eapply room_mono; [done|lia]|intros _; eapply room_mono; [done|lia]].
    + intros res Hres. rewrite Hx. cbn [sval]. split; [|lia]. intros _ ->. cbn [dval foldr] in Hres. lia.
Qed.

End Binary.

End Bits.
