(* ===== verification/MpzMul.v ===== *)
(** * Multiplication, division and powers of [mpz_t] *)
From S2P Require Import Prelude.
From S2P Require Import CMem.
From S2P Require Import Mpn.
From S2P Require Import Digits.
From S2P Require Import MpnArith.
From S2P Require Import MpnShift.
From S2P Require Import MpnDiv.
From S2P Require Import MpnBits.
From S2P Require Import Mpz.
From S2P Require Import MpzSpec.
From S2P Require Import MpzArith.
From S2P Require Import MpzBits.
Local Open Scope Z_scope.

Section Mul.
Context {heap : Heap}.

(** ** Temporaries *)

(** [t] is a new structure with sign [b] and digits [l]. *)
Definition cloned (st st1 : mpz_store) (t : nat) (b : bool) (l : list Z) : Prop :=
  t = nxt st /\ nxt st1 = S (nxt st) /\ wf st1 /\ frame st st1 [] /\ owns st1 t /\ reprl st1 t b l.

Lemma wp_mpz_clone st src b l (Q : nat -> mpz_store -> Prop) :
  wf st -> reprl st src b l -> l <> [] ->
  (forall st1 t, cloned st st1 t b l -> Q t st1) ->
  wp (mpz_clone src) st Q.
Proof.
  intros Hwf Hr Hne HQ. pose proof (reprl_lt _ _ _ _ Hwf Hr) as Hlt.
  destruct Hr as (h & rest & Hh & Hd & [Ha Hsz] & Hl & Hn & Hdig & Hnorm & Hb).
  apply wp_bind, (wp_fields _ _ h); [done|]. apply wp_bind, wp_assert.
  { rewrite Ha. destruct l; [done|]. apply negb_true_iff, Z.eqb_neq. cbn. lia. }
  apply wp_bind, wp_new_id. apply wp_bind, wp_set_fields. st_simpl. apply wp_bind. unfold wp at 1.
  cbn [digs]. rewrite Hd. cbn [mbind option_bind]. cbv beta iota.
  apply wp_bind, wp_modify, wp_ret. st_simpl. rewrite Ha, Nat2Z.id, firstn_all, <-Ha.
  apply HQ. split; [done|]. split; [done|].
  assert (wf (bump st)) as Hwfb by by apply bump_wf.
  split. { apply (wf_upd (bump st)); [done|cbn; lia]. }
  split. { split; [cbn; lia|]. intros z Hz _. cbn. rewrite !lookup_insert_ne by lia. done. }
  assert (sized (MkMpz (neg h) 0 (alloc h) (len h)) (l ++ rest)) as Hs by done.
  split. { eexists _, _. cbn. rewrite !lookup_insert_eq. done. }
  eexists _, rest. cbn. rewrite !lookup_insert_eq. done.
Qed.

Lemma cloned_reprl st st1 t b l z b' l' : cloned st st1 t b l -> wf st -> reprl st z b' l' -> reprl st1 z b' l'.
Proof. intros (_ & _ & _ & Hfr & _) Hwf Hr. by eapply reprl_frame; [..|apply not_elem_of_nil|]. Qed.

Lemma cloned_owns st st1 t b l z : cloned st st1 t b l -> wf st -> owns st z -> owns st1 z.
Proof. intros (_ & _ & _ & Hfr & _) Hwf Hr. by eapply owns_frame; [..|apply not_elem_of_nil|]. Qed.

(** What a structure other than a freed one represents is kept. *)
Definition freed (st st' : mpz_store) (t : nat) : Prop :=
  nxt st' = nxt st /\
  (forall y, y <> t -> hdr st' !! y = hdr st !! y /\ digs st' !! y = digs st !! y) /\
  (wf st -> wf st').

Lemma wp_mpz_free st z (Q : unit -> mpz_store -> Prop) :
  (forall st', freed st st' z -> Q tt st') -> wp (mpz_free z) st Q.
Proof.
  intros HQ. apply wp_modify, HQ. split; [done|]. split.
  - intros y Hy. cbn. by rewrite !lookup_delete_ne.
  - intros Hwf y Hy. cbn in *. destruct (Hwf y Hy). by rewrite !lookup_delete_None; auto.
Qed.

Lemma wp_end_scope st z (Q : unit -> mpz_store -> Prop) :
  (forall st', freed st st' z -> Q tt st') -> wp (end_scope z) st Q.
Proof.
  intros HQ. apply wp_modify, HQ. split; [done|]. split.
  - intros y Hy. cbn. by rewrite !lookup_delete_ne.
  - intros Hwf y Hy. cbn in *. destruct (Hwf y Hy). rewrite lookup_delete_None. auto.
Qed.

Lemma freed_wf st st' t : wf st -> freed st st' t -> wf st'.
Proof. intros Hwf (_ & _ & Ht). auto. Qed.

Lemma freed_reprl st st' t z b l : freed st st' t -> z <> t -> reprl st z b l -> reprl st' z b l.
Proof. intros (_ & Hy & _) Hne (h & rest & H). exists h, rest. by destruct (Hy z Hne) as [-> ->]. Qed.

Lemma freed_owns st st' t z : freed st st' t -> z <> t -> owns st z -> owns st' z.
Proof. intros (_ & Hy & _) Hne (h & l & H). exists h, l. by destruct (Hy z Hne) as [-> ->]. Qed.

Lemma freed_frame st0 st st' t D : frame st0 st D -> freed st st' t -> (nxt st0 <= t)%nat ->
  frame st0 st' D.
Proof.
  intros [Hn Hfr] (Hn' & Hy & _) Ht. split; [lia|]. intros z Hz HD.
  destruct (Hy z ltac:(lia)) as [-> ->]. by apply Hfr.
Qed.

Lemma freed_repr st st' t z v : freed st st' t -> z <> t -> repr st z v -> repr st' z v.
Proof. intros Hf Hne (b & l & Hr & ->). exists b, l. split; [by eapply freed_reprl|done]. Qed.

(** An update of [dest] that used a temporary [t]. *)
Lemma updated_freed st st1 st2 st3 t dest v : frame st st1 [] -> updated st1 st2 dest v ->
  freed st2 st3 t -> (nxt st <= t)%nat -> dest <> t -> updated st st3 dest v.
Proof.
  intros Hfr (Hwf2 & Hfr2 & Ho2 & Hr2) Hf Ht Hne.
  split; [by eapply freed_wf|]. split; [|split; [by eapply freed_owns|by eapply freed_repr]].
  eapply freed_frame; [|done|done]. eapply frame_trans; [|done].
  eapply frame_mono; [done|]. by intros z ?%elem_of_nil.
Qed.

(** ** Multiplication *)

Lemma wp_mul_distinct st dest lhs rhs b1 J b2 K (Q : unit -> mpz_store -> Prop) :
  wf st -> owns st dest -> reprl st lhs b1 J -> reprl st rhs b2 K ->
  dest <> lhs -> dest <> rhs -> J <> [] -> K <> [] ->
  Z.of_nat (length J) + Z.of_nat (length K) < MAX_DIG ->
  (forall st', updated st st' dest (sval b1 (dval J) * sval b2 (dval K)) -> Q tt st') ->
  wp (mul_distinct dest lhs rhs) st Q.
Proof.
  intros Hwf Ho HJ HK Hdl Hdr HneJ HneK Hsz HQ.
  apply wp_bind, (wp_get_len _ _ b1 J); [done|]. apply wp_bind, (wp_get_len _ _ b2 K); [done|].
  apply wp_bind, wp_mpz_need_dig; [done..|]. intros st1 Hg. pose proof Hg as (Hwf1 & Ho1 & Hroom & _).
  destruct (operands _ _ _ _ _ _ _ _ _ _ Hg HJ HK)
    as ((HJ1 & HK1) & (HhJ & HhK) & (DJ & DK) & (NJ & NK) & (SJ & SK) & H32).
  pose proof Ho1 as (h & lh & Hh & Hlh & [Hal Hasz] & _). apply wp_bind, (wp_fields _ _ h); [done|].
  rewrite Hal. apply wp_bind, wp_mpn, wp_memset_dig; [by exists lh|].
  set (m0 := blit (digs st1) dest (replicate (length lh) 0)).
  assert (m0 = <[dest := replicate (length lh) 0]> (digs st1)) as Hm0.
  { unfold m0, blit. apply map_eq. intros c. destruct (decide (dest = c)) as [<-|Hne].
    - rewrite lookup_alter_eq, lookup_insert_eq, Hlh. cbn. rewrite length_replicate.
      by rewrite drop_all, app_nil_r.
    - by rewrite lookup_alter_ne, lookup_insert_ne. }
  assert (length J + length K <= length lh)%nat as Hlen.
  { destruct Hroom as (lh' & Hlh' & Hl). rewrite Hlh in Hlh'. simplify_eq. lia. }
  apply wp_bind. pose proof HJ1 as (hJ & rJ & HhJ1 & _ & _ & HlJ & HnJ & _).
  pose proof HK1 as (hK & rK & HhK1 & _ & _ & HlK & HnK & _).
  apply (wp_get_len_hdr _ _ hJ); [done|]. apply wp_bind, (wp_get_len_hdr _ _ hK); [done|]. rewrite HlJ, HlK.
  apply wp_bind, wp_mpn. cbn [digs set_digs].
  apply (wp_mpn_mul _ dest lhs rhs J K (replicate (length lh - (length J + length K)) 0)); try done.
  { rewrite Hm0. destruct HhJ as [r Hr]. exists r. by rewrite lookup_insert_ne. }
  { rewrite Hm0. destruct HhK as [r Hr]. exists r. by rewrite lookup_insert_ne. }
  { rewrite Hm0, lookup_insert_eq, <-replicate_add. do 2 f_equal. lia. }
  intros res m' Hw Hd Hn Hv.
  assert (wrote (digs st1) m' dest res) as Hw1.
  { eapply wrote_trans; [|exact Hw]. rewrite Hm0.
    apply (wrote_intro _ _ lh [] (replicate (length lh) 0)); [done|cbn [app]; by rewrite length_replicate]. }
  apply wp_bind. change (set_digs m' (set_digs m0 st1)) with (set_digs m' st1).
  apply (wp_set_len_stored _ _ h); [done|done|]. intros st2 Hst.
  apply wp_bind, (wp_get_neg_stored _ _ _ _ _ _ _ _ Hst HJ1).
  apply wp_bind, (wp_get_neg_stored _ _ _ _ _ _ _ _ Hst HK1). rewrite zbool_eqb.
  assert (0 < dval J) by by apply dval_nonzero_pos. assert (0 < dval K) by by apply dval_nonzero_pos.
  assert (forall b, sval b (dval res) = sval b1 (dval J) * sval b2 (dval K) ->
    wp (set_neg dest (zbool b)) st2 Q) as Hfin.
  { intros b Hb. apply (wp_set_neg_stored _ _ _ _ _ _ Hst); [done..| |].
    - intros _ ->. cbn in Hv. nia.
    - intros st3 Hu. apply HQ. eapply grown_updated; [done|]. by rewrite <-Hb. }
  destruct (eqb b1 b2) eqn:Eb.
  - apply eqb_prop in Eb as ->. apply (Hfin false). cbn [sval]. rewrite Hv. destruct b2; cbn; lia.
  - apply (Hfin true). cbn [sval]. rewrite Hv. destruct b1, b2; try done; cbn; lia.
Qed.

Lemma repr_zero_nil st z b l : reprl st z b l -> Z.of_nat (length l) = 0 -> sval b (dval l) = 0.
Proof. intros _ Hl. destruct l; [by destruct b|cbn in Hl; lia]. Qed.

Lemma wp_mpz_mul_inpl st dest lhs rhs v w (Q : unit -> mpz_store -> Prop) :
  wf st -> owns st dest -> repr st lhs v -> repr st rhs w -> ndigs v + ndigs w < MAX_DIG ->
  (forall st', updated st st' dest (v * w) -> Q tt st') ->
  wp (mpz_mul_inpl dest lhs rhs) st Q.
Proof.
  intros Hwf Ho (b1 & J & HJ & ->) (b2 & K & HK & ->) Hsz HQ.
  rewrite (reprl_ndigs _ _ _ _ HJ), (reprl_ndigs _ _ _ _ HK) in Hsz.
  apply wp_bind, (wp_get_len _ _ b1 J); [done|]. apply wp_bind, (wp_get_len _ _ b2 K); [done|].
  destruct (_ || _) eqn:E.
  { apply wp_mpz_set_from_int; [done|done|lia|]. intros st' Hu. apply HQ.
    apply orb_true_iff in E as [E|E]; to_prop.
    - by rewrite (repr_zero_nil _ _ _ _ HJ).
    - by rewrite (repr_zero_nil _ _ _ _ HK), Z.mul_0_r. }
  apply orb_false_iff in E as [E1 E2]; to_prop.
  assert (J <> []) as HneJ by (by intros ->). assert (K <> []) as HneK by (by intros ->).
  pose proof (owns_lt _ _ Hwf Ho) as Hdlt.
  assert (forall st1 t b l st2 st3, cloned st st1 t b l ->
    updated st1 st2 dest (sval b1 (dval J) * sval b2 (dval K)) -> freed st2 st3 t -> Q tt st3) as Hfin.
  { intros st1 t b l st2 st3 (-> & _ & _ & Hfr & _) Hu Hf. apply HQ.
    eapply (updated_freed st st1 st2 st3); [done|done|done|lia|lia]. }
  destruct (Nat.eqb_spec lhs dest) as [->|Hl]; [|destruct (Nat.eqb_spec rhs dest) as [->|Hr]].
  - apply wp_bind, (wp_mpz_clone _ _ b1 J); [done..|]. intros st1 t Hc.
    pose proof Hc as (Ht & _ & Hwf1 & _ & _ & Hrt).
    apply wp_bind, (wp_mul_distinct _ _ _ _ b1 J b2 K); try done.
    + by apply (cloned_owns _ _ _ _ _ _ Hc).
    + destruct (Nat.eqb_spec rhs dest) as [->|Hr]; [|by apply (cloned_reprl _ _ _ _ _ _ _ _ Hc)].
      by destruct (reprl_inj _ _ _ _ _ _ HJ HK) as [<- <-].
    + lia.
    + destruct (Nat.eqb_spec rhs dest) as [->|Hr]; [lia|done].
    + intros st2 Hu. apply wp_mpz_free. intros st3 Hf. by eapply Hfin.
  - apply wp_bind, (wp_mpz_clone _ _ b2 K); [done..|]. intros st1 t Hc.
    pose proof Hc as (Ht & _ & Hwf1 & _ & _ & Hrt).
    apply wp_bind, (wp_mul_distinct _ _ _ _ b1 J b2 K); try done.
    + by apply (cloned_owns _ _ _ _ _ _ Hc).
    + by apply (cloned_reprl _ _ _ _ _ _ _ _ Hc).
    + lia.
    + intros st2 Hu. apply wp_mpz_free. intros st3 Hf. by eapply Hfin.
  - by apply (wp_mul_distinct _ _ _ _ b1 J b2 K).
Qed.

(** ** Division *)

Lemma room_frame st st' D z n : frame st st' D -> (z < nxt st)%nat -> z ∉ D ->
  room (digs st) z n -> room (digs st') z n.
Proof. intros [_ Hfr] Hz HD. destruct (Hfr z Hz HD) as [_ He]. apply room_eq. by rewrite He. Qed.

Lemma frame_widen st st' z D : frame st st' [z] -> z ∈ D -> frame st st' D.
Proof. intros Hfr Hz. eapply frame_mono; [done|]. by intros y ->%list_elem_of_singleton. Qed.

(** [mpz_divmod_inpl] as an update of two structures. *)
Definition updated2 (st st' : mpz_store) (q r : nat) (x y : Z) : Prop :=
  wf st' /\ frame st st' [q; r] /\ owns st' q /\ owns st' r /\ repr st' q x /\ repr st' r y.

Lemma wp_zero_digits st q n (Q : unit -> mpz_store -> Prop) :
  wf st -> owns st q -> 0 <= n -> n < MAX_DIG ->
  (forall st', updated st st' q 0 -> room (digs st') q (Z.to_nat n) -> Q tt st') ->
  wp (zero_digits q n) st Q.
Proof.
  intros Hwf Ho Hn Hsz HQ. apply wp_bind, wp_mpz_need_dig; [done..|]. intros st1 Hg.
  pose proof Hg as (Hwf1 & Ho1 & Hroom & _). pose proof Ho1 as (h & lh & Hh & Hlh & _).
  apply (room_mono _ _ _ (Z.to_nat n)) in Hroom; [|lia].
  rewrite <-(Z2Nat.id n) at 1 by done. apply wp_bind, wp_mpn, wp_memset_dig; [done|].
  apply wp_bind, (wp_set_neg_hdr _ _ h); [done|].
  eapply wp_set_len_hdr; [st_simpl; by rewrite lookup_insert_eq|]. st_simpl. rewrite insert_insert_eq.
  assert (wrote (digs st1) (blit (digs st1) q (replicate (Z.to_nat n) 0)) q []) as Hw.
  { apply (wrote_blit _ _ lh []); [done|]. destruct Hroom as (lh' & Hlh' & Hl). simplify_eq.
    rewrite length_replicate. cbn. lia. }
  apply HQ.
  - eapply grown_updated; [done|]. by apply (updated_intro st1 q h _ false []).
  - st_simpl. by eapply wrote_room.
Qed.

Lemma wp_divmod_magnitudes st q r lhs rhs b1 J b2 K (Q : unit -> mpz_store -> Prop) :
  wf st -> owns st q -> owns st r -> reprl st lhs b1 J -> reprl st rhs b2 K -> K <> [] ->
  q <> r -> q <> lhs -> q <> rhs -> r <> rhs -> Z.of_nat (length J) + 1 < MAX_DIG ->
  (forall st' R Qs, wf st' -> frame st st' [q; r] -> owns st' q -> owns st' r ->
     reprl st' q false Qs -> reprl st' r (b1 && negb (Z.of_nat (length R) =? 0)) R ->
     dval J = dval Qs * dval K + dval R -> 0 <= dval R < dval K -> Q tt st') ->
  wp (divmod_magnitudes q r lhs rhs) st Q.
Proof.
  intros Hwf Hoq Hor HJ HK HneK Hqr Hql Hqh Hrh Hsz HQ.
  pose proof (reprl_dig _ _ _ _ HJ) as DJ. pose proof (reprl_dig _ _ _ _ HK) as DK.
  pose proof (reprl_normal _ _ _ _ HJ) as NJ. pose proof (reprl_normal _ _ _ _ HK) as NK.
  pose proof (reprl_sign _ _ _ _ HJ) as SJ.
  pose proof (reprl_lt _ _ _ _ Hwf HJ) as Hltl. pose proof (owns_lt _ _ Hwf Hoq) as Hltq.
  pose proof (owns_lt _ _ Hwf Hor) as Hltr.
  apply wp_bind, (wp_get_len _ _ b1 J); [done|].
  apply wp_bind, wp_zero_digits; [done|done|lia|lia|]. intros st1 Hu1 Hroom1.
  pose proof Hu1 as (Hwf1 & Hfr1 & Hoq1 & Hrq1).
  apply (reprl_frame _ _ _ _ _ _ Hwf Hfr1 (not_elem_of_list_1 _ _ (not_eq_sym Hql))) in HJ.
  apply (reprl_frame _ _ _ _ _ _ Hwf Hfr1 (not_elem_of_list_1 _ _ (not_eq_sym Hqh))) in HK.
  apply (owns_frame _ _ _ _ Hwf Hfr1 (not_elem_of_list_1 _ _ (not_eq_sym Hqr))) in Hor.
  apply wp_bind, (wp_get_len _ _ b1 J); [done|].
  apply wp_bind, wp_mpz_need_dig; [done..|]. intros st2 Hg.
  pose proof Hg as (Hwf2 & Hor2 & Hroomr & Hfr2 & Hpres & Hnx2 & _ & Hroomp).
  pose proof (owns_frame _ _ _ _ Hwf1 Hfr2 (not_elem_of_list_1 _ _ Hqr) Hoq1) as Hoq2.
  pose proof Hfr1 as [Hnx1 _].
  apply wp_bind, (wp_mpz_set _ _ _ (sval b1 (dval J))); [done|done|by eapply reprl_repr, Hpres|].
  intros st3 Hu3 Hroom3. pose proof Hu3 as (Hwf3 & Hfr3 & Hor3 & Hr3).
  apply repr_reprl in Hr3; [|done|done|by intros -> ->; specialize (SJ eq_refl); cbn in SJ].
  apply Hpres, (reprl_frame _ _ _ _ _ _ Hwf2 Hfr3 (not_elem_of_list_1 _ _ (not_eq_sym Hrh))) in HK.
  pose proof (owns_frame _ _ _ _ Hwf2 Hfr3 (not_elem_of_list_1 _ _ Hqr) Hoq2) as Hoq3.
  apply wp_bind, (wp_get_len _ _ b1 J); [done|]. apply wp_bind, (wp_get_len _ _ b2 K); [done|].
  apply wp_bind, wp_mpn, (wp_mpn_div _ r rhs q J K); try done; try (by eapply reprl_holds).
  { eapply room_mono; [by apply Hroom3|lia]. }
  { eapply room_mono; [|apply Nat.le_refl]. 
    apply (room_frame st2 st3 [r]); [done|lia|by apply not_elem_of_list_1|].
    apply Hroomp. eapply room_mono; [done|lia]. }
  intros m' R Qs ((m1 & Hw1 & Hw2) & DR & DQ & NR & NQ & Hv & HR).
  pose proof Hor3 as (hr & lr & Hhr & _). pose proof Hoq3 as (hq & lq & Hhq & _).
  set (b' := b1 && negb (Z.of_nat (length R) =? 0)).
  assert (neg hr = zbool b1) as Hnr.
  { destruct Hr3 as (h' & ? & Hh' & _ & _ & _ & Hn & _). congruence. }
  assert (neg hq = 0) as Hnq.
  { pose proof (repr_frame _ _ _ _ _ Hwf1 Hfr2 (not_elem_of_list_1 _ _ Hqr) Hrq1) as Hq.
    pose proof (repr_frame _ _ _ _ _ Hwf2 Hfr3 (not_elem_of_list_1 _ _ Hqr) Hq) as Hq'.
    apply (repr_reprl _ _ false []) in Hq'; [|done..].
    destruct Hq' as (h' & ? & Hh' & _ & _ & _ & Hn & _). by simplify_eq. }
  apply wp_bind, (wp_set_len_hdr _ _ hr); [done|]. st_simpl.
  apply wp_bind, (wp_set_len_hdr _ _ hq); [st_simpl; by rewrite lookup_insert_ne|]. st_simpl.
  apply wp_bind. apply wp_bind. eapply wp_fields; [st_simpl; by rewrite lookup_insert_ne, lookup_insert_eq|].
  apply wp_ret. st_simpl.
  apply wp_bind. eapply wp_get_len_hdr; [st_simpl; by rewrite lookup_insert_ne, lookup_insert_eq|]. st_simpl.
  rewrite Hnr. destruct (sign_of_result b1 R) as (-> & _ & Hb'). fold b' in Hb' |- *.
  eapply wp_set_neg_hdr; [st_simpl; by rewrite lookup_insert_ne, lookup_insert_eq|]. st_simpl.
  pose proof (updated_intro st3 r hr m1 b' R Hwf3 Hor3 Hhr Hw1 DR NR Hb') as HuA.
  set (stA := MkStore m1 _ _) in HuA. pose proof HuA as (HwfA & HfrA & HorA & HrA).
  pose proof (owns_frame _ _ _ _ Hwf3 HfrA (not_elem_of_list_1 _ _ Hqr) Hoq3) as HoqA.
  assert (hdr stA !! q = Some hq) as HhqA by (unfold stA; cbn; by rewrite lookup_insert_ne).
  pose proof (updated_intro stA q hq m' false Qs HwfA HoqA HhqA Hw2 DQ NQ ltac:(done)) as HuB.
  set (stB := MkStore m' _ _) in HuB. pose proof HuB as (HwfB & HfrB & HoqB & HrB).
  match goal with |- Q tt ?s => assert (s = stB) as -> end.
  { unfold stB, stA. cbn. f_equal. rewrite Hnq. rewrite (insert_insert_ne _ r q) by done.
    by rewrite insert_insert_eq. }
  assert (r <> q) as Hrq by done.
  eapply (HQ stB R Qs).
  - done.
  - eapply frame_trans; [eapply frame_widen; [exact Hfr1|set_solver]|].
    eapply frame_trans; [eapply frame_widen; [exact Hfr2|set_solver]|].
    eapply frame_trans; [eapply frame_widen; [exact Hfr3|set_solver]|].
    eapply frame_trans; [eapply frame_widen; [exact HfrA|set_solver]|].
    eapply frame_widen; [exact HfrB|set_solver].
  - done.
  - by eapply owns_frame; [exact HwfA|exact HfrB|apply not_elem_of_list_1|].
  - by apply (repr_reprl _ _ false).
  - apply repr_reprl; [|done..]. by eapply repr_frame; [exact HwfA|exact HfrB|apply not_elem_of_list_1|].
  - done.
  - done.
Qed.

Lemma floor_unique a b q r : 0 <= r < b \/ b < r <= 0 -> a = b * q + r -> a / b = q /\ a `mod` b = r.
Proof.
  intros Hr Ha. split; symmetry; [by eapply Z.div_unique|by eapply Z.mod_unique].
Qed.

(** Floor division from the division of the magnitudes. *)
Lemma floor_division b1 b2 a b q r : a = q * b + r -> 0 <= r < b ->
  sval b1 a / sval b2 b =
    (if eqb b1 b2 then q else - q - (if r =? 0 then 0 else 1)) /\
  sval b1 a `mod` sval b2 b =
    sval b1 r + (if eqb b1 b2 then 0 else if r =? 0 then 0 else sval b2 b).
Proof.
  intros -> Hr. destruct b1, b2; cbn [eqb sval]; destruct (r =? 0) eqn:E; to_prop;
    apply floor_unique; lia.
Qed.

Lemma dval_zero_iff l : Forall is_dig l -> normal l -> (Z.of_nat (length l) =? 0) = (dval l =? 0).
Proof.
  intros Hd Hn. destruct l as [|x l]; [done|].
  pose proof (dval_nonzero_pos (x :: l) Hd Hn ltac:(done)).
  rewrite (proj2 (Z.eqb_neq (dval _) 0)) by lia. by apply Z.eqb_neq; cbn.
Qed.

Lemma updated2_l st st1 st2 q r x y x' : q <> r ->
  updated2 st st1 q r x y -> updated st1 st2 q x' -> updated2 st st2 q r x' y.
Proof.
  intros Hqr (Hwf1 & Hfr1 & Hoq & Hor & Hq & Hr) (Hwf2 & Hfr2 & Hoq2 & Hq2).
  assert (r ∉ [q]) by by apply not_elem_of_list_1.
  split; [done|]. split; [|split; [done|split; [|split; [done|]]]].
  - eapply frame_trans; [done|]. eapply frame_widen; [done|]. set_solver.
  - by apply (owns_frame _ _ _ _ Hwf1 Hfr2).
  - by apply (repr_frame _ _ _ _ _ Hwf1 Hfr2).
Qed.

Lemma updated2_r st st1 st2 q r x y y' : q <> r ->
  updated2 st st1 q r x y -> updated st1 st2 r y' -> updated2 st st2 q r x y'.
Proof.
  intros Hqr (Hwf1 & Hfr1 & Hoq & Hor & Hq & Hr) (Hwf2 & Hfr2 & Hor2 & Hr2).
  assert (q ∉ [r]) by by apply not_elem_of_list_1.
  split; [done|]. split; [|split; [|split; [done|split; [|done]]]].
  - eapply frame_trans; [done|]. eapply frame_widen; [done|]. set_solver.
  - by apply (owns_frame _ _ _ _ Hwf1 Hfr2).
  - by apply (repr_frame _ _ _ _ _ Hwf1 Hfr2).
Qed.

(** The correction when the signs differ and the remainder is not zero. *)
Lemma wp_divmod_round st q r rhs x y w (Q : unit -> mpz_store -> Prop) :
  wf st -> owns st q -> owns st r -> repr st q x -> repr st r y -> repr st rhs w ->
  q <> r -> q <> rhs -> r <> rhs ->
  ndigs x + 1 < MAX_DIG -> ndigs y + 1 < MAX_DIG -> ndigs w + 1 < MAX_DIG ->
  (forall st', updated2 st st' q r (x - 1) (y + w) -> Q tt st') ->
  wp (mpzone ← new_id; _ ← mpz_init_from_int mpzone (-1); _ ← mpz_add_inpl q q mpzone;
      _ ← mpz_add_inpl r r rhs; end_scope mpzone) st Q.
Proof.
  intros Hwf Hoq Hor Hq Hr Hw Hqr Hqh Hrh Hsx Hsy Hsw HQ.
  pose proof (owns_lt _ _ Hwf Hoq). pose proof (owns_lt _ _ Hwf Hor). pose proof (repr_lt _ _ _ Hwf Hw).
  apply wp_bind, wp_new_id. set (o := nxt st). change (MkStore _ _ _) with (bump st).
  apply wp_bind, wp_mpz_init_from_int; [by apply bump_wf|cbn; lia|lia|]. intros st1 Hu1.
  pose proof Hu1 as (Hwf1 & Hfr1 & _ & Ho1). pose proof (bump_wf st Hwf) as Hwfb.
  assert (forall z, (z < o)%nat -> z ∉ [o]) as Hno by (intros z Hz; apply not_elem_of_list_1; lia).
  assert (updated2 st st1 q r x y) as H2.
  { split; [done|]. split.
    - split; [destruct Hfr1 as [Hn _]; cbn in Hn; lia|]. intros z Hz _. apply Hfr1; [cbn; lia|by apply Hno].
    - split; [by eapply (owns_frame (bump st)); [|exact Hfr1|by apply Hno|]|].
      split; [by eapply (owns_frame (bump st)); [|exact Hfr1|by apply Hno|]|].
      split; (eapply (repr_frame (bump st)); [done|exact Hfr1|by apply Hno|done]). }
  pose proof H2 as (_ & _ & Hoq1 & Hor1 & Hq1 & Hr1).
  apply wp_bind, (wp_mpz_add_inpl _ _ _ _ x (-1)); try done. intros st2 Hu2.
  pose proof (updated2_l _ _ _ _ _ _ _ _ Hqr H2 Hu2) as H3. pose proof H3 as (Hwf2 & _ & _ & Hor2 & _ & Hr2).
  pose proof Hu2 as (_ & Hfr2 & _).
  assert (repr st2 rhs w) as Hw2.
  { eapply repr_frame; [exact Hwf1|exact Hfr2|by apply not_elem_of_list_1|].
    eapply (repr_frame (bump st)); [done|exact Hfr1|by apply Hno|done]. }
  apply wp_bind, (wp_mpz_add_inpl _ _ _ _ y w); try done. intros st3 Hu3.
  pose proof (updated2_r _ _ _ _ _ _ _ _ Hqr H3 Hu3) as (Hwf3 & Hfr3 & Hoq3 & Hor3 & Hq3 & Hr3).
  apply wp_end_scope. intros st4 Hf. apply HQ. split; [by eapply freed_wf|].
  split; [by eapply freed_frame; [exact Hfr3|exact Hf|]|].
  split; [by apply (freed_owns _ _ _ _ Hf); [lia|]|]. split; [by apply (freed_owns _ _ _ _ Hf); [lia|]|].
  split; (apply (freed_repr _ _ _ _ _ Hf); [lia|done]).
Qed.

Lemma wp_mpz_divmod_inpl st q r lhs rhs v w (Q : unit -> mpz_store -> Prop) :
  wf st -> owns st q -> owns st r -> repr st lhs v -> repr st rhs w -> w <> 0 ->
  q <> r -> q <> lhs -> q <> rhs -> r <> rhs ->
  ndigs v + 1 < MAX_DIG -> ndigs w + 1 < MAX_DIG ->
  (forall st' x, updated2 st st' q r x (v `mod` w) -> (r <> lhs \/ 0 <= v -> x = v / w) -> Q tt st') ->
  wp (mpz_divmod_inpl q r lhs rhs) st Q.
Proof.
  intros Hwf Hoq Hor (b1 & J & HJ & ->) (b2 & K & HK & ->) Hw0 Hqr Hql Hqh Hrh Hsv Hsw HQ.
  pose proof Hsv as Hlv. rewrite (reprl_ndigs _ _ _ _ HJ) in Hlv.
  assert (K <> []) as HneK by (intros ->; by destruct b2).
  apply wp_bind. apply wp_bind, (wp_get_len _ _ b2 K); [done|]. apply wp_ret.
  apply wp_bind, wp_assert; [apply negb_true_iff, Z.eqb_neq; destruct K; [done|cbn; lia]|].
  apply wp_bind, (wp_divmod_magnitudes _ _ _ _ _ b1 J b2 K); try done.
  intros st1 R Qs Hwf1 Hfr1 Hoq1 Hor1 Hq1 Hr1 Hv HR.
  set (b' := b1 && negb (Z.of_nat (length R) =? 0)) in *.
  destruct (floor_division b1 b2 _ _ _ _ Hv HR) as [Hdiv Hmod].
  assert (rhs ∉ [q; r]) as Hnin by set_solver.
  pose proof (repr_frame _ _ _ _ _ Hwf Hfr1 Hnin (reprl_repr _ _ _ _ HK)) as Hw1.
  pose proof (reprl_frame _ _ _ _ _ _ Hwf Hfr1 Hnin HK) as HK1.
  pose proof (reprl_dig _ _ _ _ Hr1) as DR. pose proof (reprl_normal _ _ _ _ Hr1) as NR.
  pose proof (dval_zero_iff R DR NR) as HR0. pose proof (dval_bounds _ (reprl_dig _ _ _ _ Hq1)) as BQ.
  pose proof (reprl_sign _ _ _ _ HJ) as SJ.
  assert (sval b' (dval R) = sval b1 (dval R)) as Hb' by (subst b'; apply sign_of_result).
  assert (exists bl, wp (get_neg lhs) st1 (fun n s => n = zbool bl /\ s = st1) /\
    (dval R <> 0 \/ r <> lhs \/ 0 <= sval b1 (dval J) -> bl = b1)) as (bl & Hget & Hbl).
  { destruct (decide (r = lhs)) as [<-|Hne].
    - exists b'. split; [by apply (wp_get_neg _ _ b' R)|]. intros Hor'. subst b'. rewrite HR0.
      destruct (dval R =? 0) eqn:E0, b1; cbn; try done. to_prop. destruct Hor' as [?|[?|Hn]]; try done.
      specialize (SJ eq_refl). cbn in Hn. lia.
    - exists b1. split; [|done]. apply (wp_get_neg _ _ b1 J); [|done].
      apply (reprl_frame _ _ _ _ _ _ Hwf Hfr1); [set_solver|done]. }
  assert (updated2 st st1 q r (dval Qs) (sval b1 (dval R))) as H1.
  { split; [done|]. split; [done|]. split; [done|]. split; [done|].
    split; [by apply (reprl_repr _ _ false)|]. rewrite <-Hb'. by apply reprl_repr. }
  assert (0 < dval K) as HK0 by lia.
  apply wp_bind. eapply wp_mono; [exact Hget|]. intros n st' [-> ->].
  apply wp_bind, (wp_get_neg _ _ b2 K); [done|]. rewrite zbool_eqb.
  destruct (eqb bl b2) eqn:Ebl; cbn [negb].
  - apply wp_ret. eapply HQ.
    + rewrite Hmod. destruct (dval R =? 0) eqn:E0; to_prop.
      * rewrite Tauto.if_same, Z.add_0_r. exact H1.
      * rewrite <-Hbl, Ebl, Hbl, Z.add_0_r by auto. exact H1.
    + intros Hor'. rewrite Hdiv, <-Hbl, Ebl by tauto. done.
  - apply wp_bind, (wp_get_len _ _ false Qs); [done|].
    apply wp_bind, (wp_set_neg_repr _ _ false _ Qs); [done..|by destruct Qs|]. intros st2 Hu2.
    assert (sval (negb (Z.of_nat (length Qs) =? 0)) (dval Qs) = - dval Qs) as HvQ by by destruct Qs.
    rewrite HvQ in Hu2. pose proof (updated2_l _ _ _ _ _ _ _ _ Hqr H1 Hu2) as H2.
    pose proof Hu2 as (Hwf2 & Hfr2 & Hoq2 & Hq2).
    pose proof (reprl_frame _ _ _ _ _ _ Hwf1 Hfr2 (not_elem_of_list_1 _ _ (not_eq_sym Hqr)) Hr1) as Hr2.
    pose proof (repr_frame _ _ _ _ _ Hwf1 Hfr2 (not_elem_of_list_1 _ _ (not_eq_sym Hqh)) Hw1) as Hw2.
    apply wp_bind. apply wp_bind, (wp_get_len _ _ b' R); [done|]. apply wp_ret. rewrite HR0.
    destruct (dval R =? 0) eqn:E0; cbn [negb]; to_prop.
    + apply wp_ret. eapply HQ.
      * rewrite Hmod, Tauto.if_same, Z.add_0_r. exact H2.
      * intros Hor'. rewrite Hdiv, <-Hbl, Ebl by tauto. lia.
    + rewrite (Hbl (or_introl E0)) in Ebl. rewrite Ebl in Hdiv, Hmod.
      apply (wp_divmod_round _ _ _ _ (- dval Qs) (sval b1 (dval R)) (sval b2 (dval K))); try done.
      * apply H2.
      * apply reprl_repr in Hr2. by rewrite Hb' in Hr2.
      * eapply Z.le_lt_trans; [|exact Hsv]. apply Z.add_le_mono_r, ndigs_mono.
        pose proof (dval_bounds _ (reprl_dig _ _ _ _ HJ)). rewrite sval_abs by lia. nia.
      * eapply Z.le_lt_trans; [|exact Hsw]. apply Z.add_le_mono_r, ndigs_mono.
        rewrite !sval_abs by lia. lia.
      * intros st3 H3. apply (HQ _ (- dval Qs - 1)); [|done]. rewrite Hmod.
        destruct H3 as (Hwf3 & Hfr3 & H3). split; [done|]. split; [|done].
        eapply frame_trans; [apply H2|done].
Qed.
End Mul.
