(* ===== verification/MpzPow.v ===== *)
(** * Powers of [mpz_t]: binary exponentiation, with and without a modulus *)
From S2P Require Import Prelude.
From S2P Require Import CMem.
From S2P Require Import Mpn.
From S2P Require Import Digits.
From S2P Require Import MpnArith.
From S2P Require Import MpnShift.
From S2P Require Import MpnBits.
From S2P Require Import Mpz.
From S2P Require Import MpzSpec.
From S2P Require Import MpzArith.
From S2P Require Import MpzBits.
From S2P Require Import MpzMul.
Local Open Scope Z_scope.

(** ** Sizes *)

Lemma ndigs_bound v : Z.abs v < bpow (Z.to_nat (ndigs v)).
Proof. apply ndigs_le_iff. pose proof (ndigs_nonneg v). lia. Qed.

Lemma ndigs_mul a b : ndigs (a * b) <= ndigs a + ndigs b.
Proof.
  pose proof (ndigs_nonneg a). pose proof (ndigs_nonneg b).
  rewrite <-(Z2Nat.id (ndigs a + ndigs b)) by lia. apply ndigs_le_iff.
  rewrite Z2Nat.inj_add, bpow_add, Z.abs_mul by lia.
  pose proof (ndigs_bound a). pose proof (ndigs_bound b).
  apply Z.mul_lt_mono_nonneg; lia.
Qed.

Lemma ndigs_pow_pos a p : 0 < p -> ndigs (a ^ p) <= p * ndigs a.
Proof.
  intros Hp. replace p with (Z.succ (Z.of_nat (Z.to_nat (p - 1)))) by lia.
  induction (Z.to_nat (p - 1)) as [|k IH].
  - change (Z.succ (Z.of_nat 0)) with 1. rewrite Z.pow_1_r. lia.
  - rewrite Z.pow_succ_r by lia. pose proof (ndigs_mul a (a ^ Z.of_nat (S k))) as Hm.
    rewrite Nat2Z.inj_succ in *. lia.
Qed.

Lemma ndigs_pow a i : 0 <= i -> ndigs (a ^ i) <= i * ndigs a + 1.
Proof.
  intros Hi. destruct (Z.eq_dec i 0) as [->|Hne]; [done|]. pose proof (ndigs_pow_pos a i). lia.
Qed.

Lemma pow_mod_idemp b m k : m <> 0 -> (b `mod` m) ^ k `mod` m = b ^ k `mod` m.
Proof.
  intros Hm. destruct (decide (0 <= k)); [|by rewrite !Z.pow_neg_r by lia].
  rewrite <-(Z2Nat.id k) by done. induction (Z.to_nat k) as [|j IH]; [done|].
  rewrite Nat2Z.inj_succ, !Z.pow_succ_r by lia.
  rewrite Z.mul_mod_idemp_l, <-Z.mul_mod_idemp_r, IH, Z.mul_mod_idemp_r by done. done.
Qed.

Section Pow.
Context {heap : Heap}.

(** ** The state of the loops: [dest] holds [d], the temporaries [x] and [n] hold
    the current base and the current exponent *)

Definition pow_state (st s : mpz_store) (dest x n : nat) (d X N : Z) : Prop :=
  wf s /\ frame st s [dest] /\ (owns s dest /\ owns s x /\ owns s n) /\
  repr s dest d /\ repr s x X /\ repr s n N.

(** The temporaries are new and distinct. *)
Definition pow_temps (st : mpz_store) (dest x n : nat) : Prop :=
  (dest < nxt st)%nat /\ (nxt st <= x)%nat /\ (nxt st <= n)%nat /\ x <> n.

Lemma frame_fresh st s s' D t : frame st s D -> frame s s' [t] -> (nxt st <= t)%nat -> frame st s' D.
Proof.
  intros [Hn Hfr] [Hn' Hfr'] Ht. split; [lia|]. intros z Hz HD.
  destruct (Hfr' z ltac:(lia)) as [-> ->]; [|by apply Hfr]. apply not_elem_of_list_1. lia.
Qed.

Lemma pow_state_dest st s s' dest x n d X N d' : pow_temps st dest x n ->
  pow_state st s dest x n d X N -> updated s s' dest d' -> pow_state st s' dest x n d' X N.
Proof.
  intros (Hd & Hx & Hn & Hxn) (Hwf & Hfr & (Hod & Hox & Hon) & Hrd & Hrx & Hrn) (Hwf' & Hfr' & Ho' & Hr').
  assert ((x ∉ [dest]) /\ (n ∉ [dest])) as [Hnx Hnn] by (by split; apply not_elem_of_list_1; lia).
  split; [done|]. split; [by eapply frame_trans|].
  split; [split; [done|split; by apply (owns_frame _ _ _ _ Hwf Hfr')]|].
  split; [done|]. split; by apply (repr_frame _ _ _ _ _ Hwf Hfr').
Qed.

Lemma pow_state_x st s s' dest x n d X N X' : pow_temps st dest x n ->
  pow_state st s dest x n d X N -> updated s s' x X' -> pow_state st s' dest x n d X' N.
Proof.
  intros (Hd & Hx & Hn & Hxn) (Hwf & Hfr & (Hod & Hox & Hon) & Hrd & Hrx & Hrn) (Hwf' & Hfr' & Ho' & Hr').
  assert ((dest ∉ [x]) /\ (n ∉ [x])) as [Hnx Hnn] by (by split; apply not_elem_of_list_1; lia).
  split; [done|]. split; [by eapply frame_fresh|].
  split; [split; [|split]; [|done|]; by apply (owns_frame _ _ _ _ Hwf Hfr')|].
  split; [|split; [done|]]; by apply (repr_frame _ _ _ _ _ Hwf Hfr').
Qed.

Lemma pow_state_n st s s' dest x n d X N N' : pow_temps st dest x n ->
  pow_state st s dest x n d X N -> updated s s' n N' -> pow_state st s' dest x n d X N'.
Proof.
  intros (Hd & Hx & Hn & Hxn) (Hwf & Hfr & (Hod & Hox & Hon) & Hrd & Hrx & Hrn) (Hwf' & Hfr' & Ho' & Hr').
  assert ((dest ∉ [n]) /\ (x ∉ [n])) as [Hnx Hnn] by (by split; apply not_elem_of_list_1; lia).
  split; [done|]. split; [by eapply frame_fresh|].
  split; [split; [|split]; [| |done]; by apply (owns_frame _ _ _ _ Hwf Hfr')|].
  split; [|split; [|done]]; by apply (repr_frame _ _ _ _ _ Hwf Hfr').
Qed.

(** The parity of the exponent is that of its first digit. *)
Lemma parity x l : Forall is_dig (x :: l) -> negb (Z.land x 1 =? 0) = Z.odd (dval (x :: l)).
Proof.
  intros _. change 1 with (2 ^ 1 - 1). rewrite land_pow2_mask by lia. change (2 ^ 1) with 2.
  rewrite dval_cons, Zodd_mod. replace (x + 65536 * dval l) with (x + (32768 * dval l) * 2) by lia.
  rewrite Z.mod_add by lia. pose proof (Z.mod_pos_bound x 2).
  destruct (x `mod` 2 =? 0) eqn:E; to_prop; cbn; symmetry; [apply Z.eqb_neq|apply Z.eqb_eq]; lia.
Qed.

(** Halving the exponent in place. *)
Lemma wp_halve st n N (Q : unit -> mpz_store -> Prop) :
  wf st -> owns st n -> repr st n N -> 0 <= N ->
  (forall st', updated st st' n (N / 2) -> Q tt st') -> wp (halve n) st Q.
Proof.
  intros Hwf Ho (b & l & Hl & ->) HN HQ. pose proof (reprl_dig _ _ _ _ Hl) as Hd.
  pose proof (reprl_sign _ _ _ _ Hl) as Hs.
  assert (b = false) as -> by (destruct b; [specialize (Hs eq_refl); cbn in HN; lia|done]).
  cbn [sval] in *. apply wp_bind, (wp_get_len _ _ false l); [done|].
  pose proof Ho as (h & lh & Hh & Hlh & _).
  apply wp_bind, wp_mpn, (wp_mpn_shr _ n n l 1);
    [by eapply reprl_holds|done|by eapply reprl_normal|lia|
     eapply room_mono; [by eapply holds_length_room, reprl_holds|lia]|].
  intros res m' Hw Hdr Hnr Hv _. change (2 ^ 1) with 2 in Hv.
  assert (wrote (digs st) m' n res) as Hw'.
  { destruct Hw as [[-> ->]|Hw]; [|done]. apply wrote_refl. by exists lh. }
  apply (wp_set_len_stored _ _ h); [done|done|]. intros st2 Hst. apply HQ. rewrite <-Hv.
  by apply (stored_updated _ _ _ _ false l Hst).
Qed.

(** Reading the lowest bit of the exponent. *)
Lemma wp_low_digit st n N (Q : Z -> mpz_store -> Prop) :
  repr st n N -> 0 < N -> (forall d, negb (Z.land d 1 =? 0) = Z.odd N -> Q d st) ->
  wp (mpn (load n 0)) st Q.
Proof.
  intros (b & l & Hl & ->) HN HQ. pose proof (reprl_dig _ _ _ _ Hl) as Hd.
  pose proof (dval_bounds l Hd). destruct b; [cbn in HN; lia|]. cbn [sval] in *.
  destruct l as [|x l]; [cbn in HN; lia|].
  apply wp_mpn, (wp_load_holds _ _ (x :: l) 0); [by eapply reprl_holds|cbn; lia|].
  intros d [= <-]. rewrite set_digs_id. apply HQ. by apply parity.
Qed.

Lemma wp_get_len_ndigs st z v (Q : Z -> mpz_store -> Prop) :
  repr st z v -> Q (ndigs v) st -> wp (get_len z) st Q.
Proof.
  intros (b & l & Hl & ->) HQ. apply (wp_get_len _ _ b l); [done|].
  by rewrite <-(reprl_ndigs _ _ _ _ Hl).
Qed.

Lemma ndigs_zero v : ndigs v = 0 <-> v = 0.
Proof. pose proof (ndigs_le_iff v 0). pose proof (ndigs_nonneg v). rewrite bpow_0 in *. lia. Qed.

(** ** Plain exponentiation *)

(** The invariant of the loop of [mpz_pow_inpl]: [dest] and [x] hold powers of the
    base [a] and what is left to do is [x ^ n]. *)
Definition pow_inv (st : mpz_store) (dest x n : nat) (a e : Z) (s : mpz_store) (N : Z) : Prop :=
  exists i p, pow_state st s dest x n (a ^ i) (a ^ p) N /\
    0 <= i /\ 0 < p /\ 0 < N /\ i + p * N = e.

Lemma odd_half N : 0 < N -> N = 2 * (N / 2) + (if Z.odd N then 1 else 0).
Proof.
  intros HN. rewrite Zodd_mod. pose proof (Z.div_mod N 2 ltac:(lia)). pose proof (Z.mod_pos_bound N 2 ltac:(lia)).
  destruct (_ =? 1) eqn:E; to_prop; lia.
Qed.

Lemma log2_half N : 0 < N / 2 -> (Z.to_nat (Z.log2 (N / 2)) < Z.to_nat (Z.log2 N))%nat.
Proof.
  intros HN. pose proof (Z.log2_double (N / 2) HN). pose proof (Z.log2_nonneg (N / 2)).
  assert (Z.log2 (2 * (N / 2)) <= Z.log2 N); [|lia]. apply Z.log2_le_mono, Z.mul_div_le. lia.
Qed.

Lemma log2_fuel N : 0 < N -> (Z.to_nat (Z.log2 N) < pow_fuel (ndigs N))%nat.
Proof.
  intros HN. unfold pow_fuel, ndigs, DIG_SIZE. rewrite (proj2 (Z.eqb_neq N 0)), Z.abs_eq by lia.
  pose proof (Z.div_mod (Z.log2 N) 16). pose proof (Z.mod_pos_bound (Z.log2 N) 16). lia.
Qed.

(** The loop, for an invariant [I] indexed by the exponent [N] left: [mul] and [sq]
    are only run where the code runs them. *)
Lemma wp_pow_loop (I J : Z -> mpz_store -> Prop) (E : mpz_store -> Prop) st n N (mul sq : Mz unit) :
  0 < N -> I N st ->
  (forall N s, I N s -> 0 < N -> repr s n N) ->
  (forall N s, I N s -> 0 < N -> wp (if Z.odd N then mul else mret tt) s (fun _ s' => J N s')) ->
  (forall N s, J N s -> 0 < N -> wp (halve n) s (fun _ s' => repr s' n (N / 2) /\
     (N / 2 = 0 -> E s') /\ (0 < N / 2 -> wp sq s' (fun _ s'' => I (N / 2) s'')))) ->
  wp (pow_loop n mul sq) st (fun _ s' => E s').
Proof.
  intros HN HI Hr Hmul Hhalve. apply wp_bind, (wp_get_len_ndigs _ _ N); [by apply Hr|].
  apply (wp_loop_idx (fun k _ s => exists N, I N s /\ 0 < N /\ k = Z.to_nat (Z.log2 N))
    _ _) with (k := Z.to_nat (Z.log2 N)); [|by exists N|by apply log2_fuel].
  intros k _ s (N' & HI' & HN' & ->). pose proof (Hr _ _ HI' HN') as Hr'.
  apply wp_bind, (wp_get_len_ndigs _ _ N'); [done|].
  destruct (_ >? 0) eqn:E0; to_prop;
    [|pose proof (ndigs_nonneg N'); pose proof (ndigs_zero N'); lia].
  apply wp_bind, (wp_low_digit _ _ N'); [done|done|]. intros d ->.
  apply wp_bind. eapply wp_mono; [by apply Hmul|]. intros [] s1 HJ.
  apply wp_bind. eapply wp_mono; [by apply Hhalve|]. intros [] s2 (Hr2 & HE & Hsq).
  apply wp_bind, (wp_get_len_ndigs _ _ (N' / 2)); [done|]. pose proof (ndigs_zero (N' / 2)).
  assert (0 <= N' / 2) by (apply Z.div_pos; lia).
  destruct (_ =? 0) eqn:E1; to_prop.
  - apply wp_ret, HE. tauto.
  - assert (0 < N' / 2) as Hpos by lia. apply wp_bind. eapply wp_mono; [by apply Hsq|].
    intros [] s3 HI3. apply wp_ret. exists (Z.to_nat (Z.log2 (N' / 2))).
    split; [by apply log2_half|]. by exists (N' / 2).
Qed.

Lemma cloned_trans_frame st s t b l D : cloned st s t b l -> frame st s D.
Proof. intros (_ & _ & _ & Hfr & _). eapply frame_mono; [done|]. by intros z ?%elem_of_nil. Qed.

(** The copies of the base and of the exponent, and the result set to 1. *)
Lemma wp_pow_init st dest lhs rhs a e (k : nat -> nat -> Mz unit) (Q : unit -> mpz_store -> Prop) :
  wf st -> owns st dest -> repr st lhs a -> repr st rhs e -> a <> 0 -> e <> 0 ->
  (forall x n s, pow_temps st dest x n -> (x < nxt s)%nat -> (n < nxt s)%nat ->
     wf s -> frame st s [] -> owns s dest -> owns s x -> owns s n ->
     repr s x a -> repr s n e -> wp (k x n) s Q) ->
  wp (x ← mpz_clone lhs; n ← mpz_clone rhs; k x n) st Q.
Proof.
  intros Hwf Ho (b1 & J & HJ & ->) (b2 & K & HK & ->) Ha He HQ.
  assert (J <> []) as HneJ by (intros ->; by destruct b1).
  assert (K <> []) as HneK by (intros ->; by destruct b2).
  pose proof (owns_lt _ _ Hwf Ho) as Hlt.
  apply wp_bind, (wp_mpz_clone _ _ b1 J); [done..|]. intros s1 x Hc1.
  pose proof Hc1 as (Hx & Hn1 & Hwf1 & Hfr1 & Hox & Hrx).
  apply (cloned_reprl _ _ _ _ _ _ _ _ Hc1 Hwf) in HK.
  apply wp_bind, (wp_mpz_clone _ _ b2 K); [done..|]. intros s2 n Hc2.
  pose proof Hc2 as (Hn & Hn2 & Hwf2 & Hfr2 & Hon & Hrn).
  apply HQ; try done; try lia.
  - unfold pow_temps. lia.
  - by eapply frame_trans.
  - apply (cloned_owns _ _ _ _ _ _ Hc2); [done|]. by apply (cloned_owns _ _ _ _ _ _ Hc1).
  - by apply (cloned_owns _ _ _ _ _ _ Hc2).
  - apply (cloned_reprl _ _ _ _ _ _ _ _ Hc2) in Hrx; [|done]. by eapply reprl_repr.
  - by eapply reprl_repr.
Qed.

(** Freeing the temporaries. *)
Lemma wp_pow_end st s dest x n d X N (Q : unit -> mpz_store -> Prop) :
  pow_temps st dest x n -> pow_state st s dest x n d X N ->
  (forall s', updated st s' dest d -> Q tt s') -> wp (_ ← mpz_free x; mpz_free n) s Q.
Proof.
  intros (Hd & Hx & Hn & Hxn) (Hwf & Hfr & (Hod & _) & Hrd & _) HQ.
  apply wp_bind, wp_mpz_free. intros s1 Hf1. apply wp_mpz_free. intros s2 Hf2. apply HQ.
  split; [eapply freed_wf; [by eapply freed_wf|done]|].
  split. { eapply freed_frame; [|done|done]. by eapply freed_frame. }
  split.
  - apply (freed_owns _ _ _ _ Hf2); [lia|]. by apply (freed_owns _ _ _ _ Hf1); [lia|].
  - apply (freed_repr _ _ _ _ _ Hf2); [lia|]. by apply (freed_repr _ _ _ _ _ Hf1); [lia|].
Qed.

Lemma pow_state_init st s s1 dest x n a e : pow_temps st dest x n ->
  wf s -> frame st s [] -> owns s x -> owns s n -> repr s x a -> repr s n e ->
  updated s s1 dest 1 -> pow_state st s1 dest x n 1 a e.
Proof.
  intros (Hd & Hx & Hn & Hxn) Hwf Hfr Hox Hon Hrx Hrn (Hwf1 & Hfr1 & Ho1 & Hr1).
  assert ((x ∉ [dest]) /\ (n ∉ [dest])) as [Hnx Hnn] by (by split; apply not_elem_of_list_1; lia).
  split; [done|]. split.
  { eapply frame_trans; [|done]. eapply frame_mono; [done|]. by intros z ?%elem_of_nil. }
  split; [split; [done|split; by apply (owns_frame _ _ _ _ Hwf Hfr1)]|].
  split; [done|]. split; by apply (repr_frame _ _ _ _ _ Hwf Hfr1).
Qed.

Lemma wp_pow_plain st s dest x n a e (Q : unit -> mpz_store -> Prop) :
  pow_temps st dest x n -> pow_state st s dest x n 1 a e -> 0 < e ->
  e * ndigs a + 1 < MAX_DIG ->
  (forall s' X, pow_state st s' dest x n (a ^ e) X 0 -> Q tt s') ->
  wp (pow_loop n (mpz_mul_inpl dest dest x) (mpz_mul_inpl x x x)) s Q.
Proof.
  intros Ht Hst He Hsz HQ. pose proof (ndigs_nonneg a) as Hnd.
  eapply wp_mono; [apply (wp_pow_loop
    (fun N s => exists i p, pow_state st s dest x n (a ^ i) (a ^ p) N /\ 0 <= i /\ 0 < p /\ i + p * N = e)
    (fun N s => exists i p, pow_state st s dest x n (a ^ i) (a ^ p) N /\ 0 <= i /\ 0 < p /\ i + p * (2 * (N / 2)) = e)
    (fun s => exists X, pow_state st s dest x n (a ^ e) X 0) _ _ e)|];
    [done| | | | |intros [] s' [X HX]; by eapply HQ].
  - exists 0, 1. rewrite Z.pow_1_r. split; [done|]. lia.
  - intros N s' (i & p & H & _) _. apply H.
  - intros N s' (i & p & H & Hi & Hp & Hip) HN. pose proof (odd_half N HN) as Hodd.
    destruct (Z.odd N).
    + pose proof H as (Hwf & _ & (Hod & _) & Hrd & Hrx & _).
      apply (wp_mpz_mul_inpl _ _ _ _ (a ^ i) (a ^ p)); try done.
      { pose proof (ndigs_pow a i Hi). pose proof (ndigs_pow_pos a p Hp).
        assert ((i + p) * ndigs a <= e * ndigs a) by (apply Z.mul_le_mono_nonneg_r; nia). lia. }
      intros s2 Hu. exists (i + p), p. rewrite Z.pow_add_r by lia.
      split; [by eapply pow_state_dest|]. lia.
    + apply wp_ret. exists i, p. split; [done|]. lia.
  - intros N s' (i & p & H & Hi & Hp & Hip) HN. pose proof H as (Hwf & _ & (_ & _ & Hon) & _ & _ & Hrn).
    apply (wp_halve _ _ N); [done|done|done|lia|]. intros s2 Hu.
    pose proof (pow_state_n _ _ _ _ _ _ _ _ _ _ Ht H Hu) as H2.
    pose proof H2 as (Hwf2 & _ & (_ & Hox2 & _) & _ & Hrx2 & Hrn2). split; [done|]. split.
    + intros Hz. rewrite Hz in *. exists (a ^ p). replace e with i by lia. done.
    + intros Hpos. apply (wp_mpz_mul_inpl _ _ _ _ (a ^ p) (a ^ p)); try done.
      { pose proof (ndigs_pow_pos a p Hp).
        assert ((p + p) * ndigs a <= e * ndigs a) by (apply Z.mul_le_mono_nonneg_r; nia). lia. }
      intros s3 Hu3. exists i, (p + p). rewrite (Z.pow_add_r a p p) by lia.
      split; [by eapply pow_state_x|]. lia.
Qed.

Lemma wp_mpz_pow_inpl st dest lhs rhs a e (Q : unit -> mpz_store -> Prop) :
  wf st -> owns st dest -> repr st lhs a -> repr st rhs e -> e * ndigs a + 1 < MAX_DIG ->
  (forall st', updated st st' dest (if a =? 0 then 0 else a ^ e) -> Q tt st') ->
  wp (mpz_pow_inpl dest lhs rhs) st Q.
Proof.
  intros Hwf Ho Hl Hr Hsz HQ. apply wp_bind, (wp_get_len_ndigs _ _ a); [done|].
  pose proof Hr as (b2 & K & HK & Hev). apply wp_bind, (wp_get_neg _ _ b2 K); [done|].
  pose proof (reprl_sign _ _ _ _ HK) as SK. pose proof (dval_bounds _ (reprl_dig _ _ _ _ HK)) as BK.
  destruct (_ || _) eqn:E.
  { apply wp_mpz_set_from_int; [done|done|lia|]. intros st' Hu. apply HQ.
    destruct (a =? 0) eqn:Ea; [done|]. apply orb_true_iff in E as [E|E]; to_prop.
    - exfalso. by apply Ea, ndigs_zero.
    - rewrite Z.pow_neg_r; [done|]. destruct b2; [|done]. specialize (SK eq_refl). subst e. cbn. lia. }
  apply orb_false_iff in E as [E1 E2]. to_prop.
  assert (a <> 0) as Ha. { intros ->. by apply E1. }
  rewrite (proj2 (Z.eqb_neq a 0) Ha) in HQ. destruct b2; [done|]. cbn [sval] in Hev.
  apply wp_bind, (wp_get_len_ndigs _ _ e); [done|]. destruct (_ =? 0) eqn:E3; to_prop.
  { apply (proj1 (ndigs_zero e)) in E3. apply wp_mpz_set_from_int; [done|done|lia|]. intros st' Hu. apply HQ.
    by rewrite E3. }
  assert (0 < e) as He. { enough (e <> 0) by lia. intros Hz. by apply E3, ndigs_zero. }
  apply (wp_pow_init _ dest _ _ a e); try done; [lia|].
  intros x n s Ht Hxs Hns Hwfs Hfr Hod Hox Hon Hrx Hrn.
  apply wp_bind, wp_mpz_set_from_int; [done|done|lia|]. intros s1 Hu1.
  pose proof (pow_state_init _ _ _ _ _ _ _ _ Ht Hwfs Hfr Hox Hon Hrx Hrn Hu1) as Hst.
  apply wp_bind, (wp_pow_plain st _ _ _ _ a e); try done. intros s2 X Hst2.
  by eapply wp_pow_end.
Qed.

(** ** Exponentiation with a modulus *)

(** The loop of [mpz_pow3_inpl] has a scratch structure for quotients as well. *)
Definition pow3_state (st s : mpz_store) (dest x n quo : nat) (d X N : Z) : Prop :=
  pow_state st s dest x n d X N /\ owns s quo.

Definition pow3_temps (st : mpz_store) (dest x n quo : nat) : Prop :=
  pow_temps st dest x n /\ (nxt st <= quo)%nat /\ quo <> x /\ quo <> n.

Lemma frame_fresh2 st s s' q t D : frame st s D -> frame s s' [q; t] -> (nxt st <= q)%nat ->
  t ∈ D \/ (nxt st <= t)%nat -> frame st s' D.
Proof.
  intros [Hn Hfr] [Hn' Hfr'] Hq Ht. split; [lia|]. intros z Hz HD.
  destruct (Hfr' z ltac:(lia)) as [-> ->]; [|by apply Hfr].
  intros [->|[->|[]%elem_of_nil]%elem_of_cons]%elem_of_cons; [lia|]. destruct Ht; [done|lia].
Qed.

Lemma pow3_dest st s s' dest x n quo d X N d' : pow3_temps st dest x n quo ->
  pow3_state st s dest x n quo d X N -> updated s s' dest d' -> pow3_state st s' dest x n quo d' X N.
Proof.
  intros (Ht & Hq & _) (Hst & Ho) Hu. split; [by eapply pow_state_dest|].
  pose proof Hst as (Hwf & _). pose proof Hu as (_ & Hfr & _).
  apply (owns_frame _ _ _ _ Hwf Hfr); [|done]. apply not_elem_of_list_1. destruct Ht. lia.
Qed.

Lemma pow3_x st s s' dest x n quo d X N X' : pow3_temps st dest x n quo ->
  pow3_state st s dest x n quo d X N -> updated s s' x X' -> pow3_state st s' dest x n quo d X' N.
Proof.
  intros (Ht & Hq & Hqx & _) (Hst & Ho) Hu. split; [by eapply pow_state_x|].
  pose proof Hst as (Hwf & _). pose proof Hu as (_ & Hfr & _).
  apply (owns_frame _ _ _ _ Hwf Hfr); [|done]. by apply not_elem_of_list_1.
Qed.

Lemma pow3_n st s s' dest x n quo d X N N' : pow3_temps st dest x n quo ->
  pow3_state st s dest x n quo d X N -> updated s s' n N' -> pow3_state st s' dest x n quo d X N'.
Proof.
  intros (Ht & Hq & _ & Hqn) (Hst & Ho) Hu. split; [by eapply pow_state_n|].
  pose proof Hst as (Hwf & _). pose proof Hu as (_ & Hfr & _).
  apply (owns_frame _ _ _ _ Hwf Hfr); [|done]. by apply not_elem_of_list_1.
Qed.

Lemma not_elem_of_list_2 (y q z : nat) : y <> q -> y <> z -> y ∉ [q; z].
Proof. intros Hq Hz [->|[->|[]%elem_of_nil]%elem_of_cons]%elem_of_cons; done. Qed.

(** A reduction of [dest] or of [x] modulo [mod_]. *)
Lemma pow3_dest_mod st s s' dest x n quo d X N q d' : pow3_temps st dest x n quo ->
  pow3_state st s dest x n quo d X N -> updated2 s s' quo dest q d' ->
  pow3_state st s' dest x n quo d' X N.
Proof.
  intros ((Hd & Hx & Hn & Hxn) & Hq & Hqx & Hqn)
    ((Hwf & Hfr & (Hod & Hox & Hon) & Hrd & Hrx & Hrn) & Hoq) (Hwf' & Hfr' & Hoq' & Hod' & _ & Hrd').
  assert (Hnx : x ∉ [quo; dest]) by (apply not_elem_of_list_2; lia).
  assert (Hnn : n ∉ [quo; dest]) by (apply not_elem_of_list_2; lia).
  split; [|done]. split; [done|]. split; [eapply frame_fresh2; [done|done|lia|set_solver]|].
  split; [split; [done|split; by apply (owns_frame _ _ _ _ Hwf Hfr')]|].
  split; [done|]. split; by apply (repr_frame _ _ _ _ _ Hwf Hfr').
Qed.

Lemma pow3_x_mod st s s' dest x n quo d X N q X' : pow3_temps st dest x n quo ->
  pow3_state st s dest x n quo d X N -> updated2 s s' quo x q X' ->
  pow3_state st s' dest x n quo d X' N.
Proof.
  intros ((Hd & Hx & Hn & Hxn) & Hq & Hqx & Hqn)
    ((Hwf & Hfr & (Hod & Hox & Hon) & Hrd & Hrx & Hrn) & Hoq) (Hwf' & Hfr' & Hoq' & Hox' & _ & Hrx').
  assert (Hnx : dest ∉ [quo; x]) by (apply not_elem_of_list_2; lia).
  assert (Hnn : n ∉ [quo; x]) by (apply not_elem_of_list_2; lia).
  split; [|done]. split; [done|]. split; [eapply frame_fresh2; [done|done|lia|by right]|].
  split; [split; [|split]; [|done|]; by apply (owns_frame _ _ _ _ Hwf Hfr')|].
  split; [|split; [done|]]; by apply (repr_frame _ _ _ _ _ Hwf Hfr').
Qed.

(** A structure of the caller during the loop. *)
Lemma pow3_caller st s dest x n quo d X N z v : wf st -> pow3_state st s dest x n quo d X N ->
  repr st z v -> z <> dest -> repr s z v.
Proof.
  intros Hwf ((_ & Hfr & _) & _) Hr Hne. eapply repr_frame; [done|done| |done]. by apply not_elem_of_list_1.
Qed.

Lemma mod_size v m : m <> 0 -> ndigs (v `mod` m) <= ndigs m.
Proof.
  intros Hm. apply ndigs_mono. destruct (decide (0 < m)).
  - pose proof (Z.mod_pos_bound v m). lia.
  - pose proof (Z.mod_neg_bound v m). lia.
Qed.

Lemma ndigs_pos m : m <> 0 -> 1 <= ndigs m.
Proof. intros Hm. pose proof (ndigs_nonneg m). pose proof (ndigs_zero m). lia. Qed.

(** [t ← t * u mod m] *)
Lemma wp_mul_mod s quo t u mod_ v w m S (Q : unit -> mpz_store -> Prop) :
  wf s -> owns s t -> owns s quo -> repr s t v -> repr s u w -> repr s mod_ m -> m <> 0 ->
  quo <> t -> quo <> mod_ -> t <> mod_ ->
  ndigs v <= S -> ndigs w <= S -> ndigs m <= S -> 2 * S + 1 < MAX_DIG -> 1 <= S ->
  (forall s1 s2 q, updated s s1 t (v * w) -> updated2 s1 s2 quo t q ((v * w) `mod` m) -> Q tt s2) ->
  wp (_ ← mpz_mul_inpl t t u; mpz_divmod_inpl quo t t mod_) s Q.
Proof.
  intros Hwf Hot Hoq Ht Hu Hm Hm0 Hqt Hqm Htm Hsv Hsw Hsm HS HS1 HQ.
  apply wp_bind, (wp_mpz_mul_inpl _ _ _ _ v w); try done; [lia|]. intros s1 Hu1.
  pose proof Hu1 as (Hwf1 & Hfr1 & Hot1 & Ht1). pose proof (ndigs_mul v w).
  apply (wp_mpz_divmod_inpl _ _ _ _ _ (v * w) m); try done.
  - apply (owns_frame _ _ _ _ Hwf Hfr1); [by apply not_elem_of_list_1|done].
  - apply (repr_frame _ _ _ _ _ Hwf Hfr1); [apply not_elem_of_list_1; congruence|done].
  - lia.
  - lia.
  - intros s2 q Hu2 _. by eapply HQ.
Qed.

Lemma wp_pow_mod st s dest x n quo mod_ a e m (Q : unit -> mpz_store -> Prop) :
  wf st -> pow3_temps st dest x n quo -> pow3_state st s dest x n quo 1 a e -> 0 < e ->
  repr st mod_ m -> m <> 0 -> mod_ <> dest -> 2 * Z.max (ndigs a) (ndigs m) + 1 < MAX_DIG ->
  (forall s' X, pow3_state st s' dest x n quo (a ^ e `mod` m) X 0 -> Q tt s') ->
  wp (pow_loop n (_ ← mpz_mul_inpl dest dest x; mpz_divmod_inpl quo dest dest mod_)
                 (_ ← mpz_mul_inpl x x x; mpz_divmod_inpl quo x x mod_)) s Q.
Proof.
  intros Hwf Ht Hst He Hm Hm0 Hmd Hsz HQ. set (S := Z.max (ndigs a) (ndigs m)) in *.
  pose proof (ndigs_pos m Hm0) as Hmp. pose proof (repr_lt _ _ _ Hwf Hm) as Hmlt.
  pose proof Ht as ((Hd & Hx & Hn & Hxn) & Hq & Hqx & Hqn).
  eapply wp_mono; [apply (wp_pow_loop
    (fun N s => exists d X, pow3_state st s dest x n quo d X N /\ ndigs d <= S /\ ndigs X <= S /\
       (d * X ^ N) `mod` m = a ^ e `mod` m)
    (fun N s => exists d X, pow3_state st s dest x n quo d X N /\ ndigs d <= S /\ ndigs X <= S /\
       (d * X ^ (2 * (N / 2))) `mod` m = a ^ e `mod` m /\ (N = 1 -> d = a ^ e `mod` m))
    (fun s => exists X, pow3_state st s dest x n quo (a ^ e `mod` m) X 0) _ _ e)|];
    [done| | | | |intros [] s' [X HX]; by eapply HQ].
  - exists 1, a. rewrite Z.mul_1_l. split; [done|]. change (ndigs 1) with 1. lia.
  - intros N s' (d & X & H & _) _. apply H.
  - intros N s' (d & X & H & Hsd & HsX & Hv) HN. pose proof (odd_half N HN) as Hodd.
    destruct (Z.odd N).
    + pose proof H as ((Hwf' & _ & (Hod & _) & Hrd & Hrx & _) & Hoq).
      apply (wp_mul_mod _ _ _ _ _ d X m S); try done; try lia; [by eapply (pow3_caller st)|].
      intros s1 s2 q Hu1 Hu2. exists ((d * X) `mod` m), X.
      split; [eapply pow3_dest_mod; [done| |done]; by eapply pow3_dest|].
      split; [pose proof (mod_size (d * X) m Hm0); lia|]. split; [done|].
      assert (d * X ^ N = d * X * X ^ (2 * (N / 2))) as HdX.
      { rewrite Hodd at 1. rewrite Z.pow_add_r, Z.pow_1_r by lia. ring. }
      rewrite HdX in Hv. split; [by rewrite Z.mul_mod_idemp_l|].
      intros ->. change (2 * (1 / 2)) with 0 in Hv. rewrite Z.pow_0_r, Z.mul_1_r in Hv. done.
    + apply wp_ret. exists d, X. replace (2 * (N / 2)) with N by lia.
      split; [done|]. split; [done|]. split; [done|]. split; [done|]. lia.
  - intros N s' (d & X & H & Hsd & HsX & Hv & H1) HN.
    pose proof H as ((Hwf' & _ & (_ & _ & Hon) & _ & _ & Hrn) & _).
    apply (wp_halve _ _ N); [done|done|done|lia|]. intros s2 Hu.
    pose proof (pow3_n _ _ _ _ _ _ _ _ _ _ _ Ht H Hu) as H2.
    pose proof H2 as ((Hwf2 & _ & (_ & Hox2 & _) & _ & Hrx2 & Hrn2) & Hoq2). split; [done|]. split.
    + intros Hz. rewrite Hz in *. exists X. rewrite <-H1; [done|]. pose proof (odd_half N HN).
      destruct (Z.odd N); lia.
    + intros Hpos. apply (wp_mul_mod _ _ _ _ _ X X m S); try done; try lia; [by eapply (pow3_caller st)|].
      intros s3 s4 q Hu3 Hu4. exists d, ((X * X) `mod` m).
      split; [eapply pow3_x_mod; [done| |done]; by eapply pow3_x|].
      split; [done|]. split; [pose proof (mod_size (X * X) m Hm0); lia|].
      rewrite <-Hv, Z.pow_mul_r, Z.pow_2_r by lia.
      rewrite <-Z.mul_mod_idemp_r, <-(Z.mul_mod_idemp_r d ((X * X) ^ _)) by done. do 2 f_equal.
      apply pow_mod_idemp. done.
Qed.

(** What [mpz_pow3_inpl] computes. *)
Definition pow3_value (a e m : Z) : Z :=
  if (a =? 0) || (e <? 0) || (Z.abs m =? 1) then 0 else if e =? 0 then 1 else a ^ e `mod` m.

(** It is the modular power for every positive exponent. *)
Lemma pow3_value_pos a e m : 0 < e -> m <> 0 -> pow3_value a e m = a ^ e `mod` m.
Proof.
  intros He Hm. unfold pow3_value. destruct (a =? 0) eqn:Ea; to_prop.
  { subst a. rewrite Z.pow_0_l, Z.mod_0_l by lia. done. }
  rewrite (proj2 (Z.ltb_ge e 0)), (proj2 (Z.eqb_neq e 0)) by lia. cbn [orb].
  destruct (Z.abs m =? 1) eqn:Em; [|done]. to_prop.
  assert (m = 1 \/ m = -1) as [-> | ->] by lia; [by rewrite Z.mod_1_r|].
  pose proof (Z.mod_neg_bound (a ^ e) (-1)). lia.
Qed.

Lemma wp_mpz_deinit st z (Q : unit -> mpz_store -> Prop) :
  owns st z -> (forall st', freed st st' z -> Q tt st') -> wp (mpz_deinit z) st Q.
Proof.
  intros (h & l & Hh & _ & _ & Hf) HQ. apply wp_bind, (wp_fields _ _ h); [done|]. rewrite Hf. cbn.
  apply HQ. split; [done|]. split.
  - intros y Hy. cbn. by rewrite lookup_delete_ne.
  - intros Hwf y Hy. cbn in *. destruct (Hwf y Hy). rewrite lookup_delete_None. auto.
Qed.

(** The test at the start of [mpz_pow3_inpl]. *)
Lemma wp_mod_is_one st mod_ m (stop : bool) (Q : bool -> mpz_store -> Prop) :
  repr st mod_ m -> Q (stop || (Z.abs m =? 1)) st ->
  wp (if stop then mret true
      else if ndigs m =? 1 then d ← mpn (load mod_ 0); mret (d =? 1) else mret false) st Q.
Proof.
  intros (b & l & Hl & ->) HQ. destruct stop; [done|]. cbn [orb] in HQ.
  pose proof (dval_bounds l (reprl_dig _ _ _ _ Hl)). rewrite sval_abs in HQ by lia.
  rewrite (reprl_ndigs _ _ _ _ Hl). destruct (Z.of_nat (length l) =? 1) eqn:E; to_prop.
  - destruct l as [|x [|y l]]; [cbn [length] in E; lia| |cbn [length] in E; lia].
    apply wp_bind, wp_mpn, (wp_load_holds _ _ [x] 0); [by eapply reprl_holds|cbn; lia|].
    intros d [= <-]. rewrite set_digs_id. apply wp_ret.
    rewrite dval_cons, Z.mul_0_r, Z.add_0_r in HQ. exact HQ.
  - apply wp_ret. refine (eq_ind _ (fun v => Q v st) HQ _ _). apply Z.eqb_neq. intros H1.
    pose proof (ndigs_length false l (reprl_dig _ _ _ _ Hl) (reprl_normal _ _ _ _ Hl)) as Hn.
    cbn [sval] in Hn. rewrite H1 in Hn. change (ndigs 1) with 1 in Hn. lia.
Qed.

Lemma pow3_start s0 s dest x n a e : pow_temps s0 dest x n -> (x < nxt s)%nat -> (n < nxt s)%nat ->
  wf s -> frame s0 s [] -> owns s dest -> owns s x -> owns s n ->
  repr s dest 1 -> repr s x a -> repr s n e ->
  forall s2, updated (bump s) s2 (nxt s) 0 ->
  pow3_temps s0 dest x n (nxt s) /\ pow3_state s0 s2 dest x n (nxt s) 1 a e.
Proof.
  intros Ht Hxs Hns Hwf [Hnx Hfr] Hod Hox Hon Hrd Hrx Hrn s2 (Hwf2 & Hfr2 & Hoq & _).
  pose proof (owns_lt _ _ Hwf Hod) as Hds. pose proof (bump_wf _ Hwf) as Hwfb.
  split; [split; [done|lia]|]. split; [|done]. split; [done|]. split.
  - apply (frame_fresh s0 (bump s) s2 [dest] (nxt s)); [|done|done].
    split; [cbn; lia|]. intros z Hz _. cbn. apply Hfr; [done|apply not_elem_of_nil].
  - assert (forall z, (z < nxt s)%nat -> z ∉ [nxt s]) as Hno by (intros z Hz; apply not_elem_of_list_1; lia).
    split; [split; [|split]; apply (owns_frame _ _ _ _ Hwfb Hfr2); auto|].
    split; [|split]; apply (repr_frame _ _ _ _ _ Hwfb Hfr2); auto.
Qed.

(** [dest] must not be one of the operands: it is set to 1 before they are read. *)
Lemma wp_mpz_pow3_inpl st dest lhs rhs mod_ a e m (Q : unit -> mpz_store -> Prop) :
  wf st -> owns st dest -> repr st lhs a -> repr st rhs e -> repr st mod_ m -> m <> 0 ->
  dest <> lhs -> dest <> rhs -> dest <> mod_ ->
  2 * Z.max (ndigs a) (ndigs m) + 1 < MAX_DIG ->
  (forall st', updated st st' dest (pow3_value a e m) -> Q tt st') ->
  wp (mpz_pow3_inpl dest lhs rhs mod_) st Q.
Proof.
  intros Hwf Ho Hl Hr Hm Hm0 Hdl Hdr Hdm Hsz HQ. unfold pow3_value in HQ.
  apply wp_bind, (wp_get_len_ndigs _ _ a); [done|].
  pose proof Hr as (b2 & K & HK & Hev). apply wp_bind, (wp_get_neg _ _ b2 K); [done|].
  pose proof (reprl_sign _ _ _ _ HK) as SK. pose proof (dval_bounds _ (reprl_dig _ _ _ _ HK)) as BK.
  assert (negb (zbool b2 =? 0) = (e <? 0)) as ->.
  { subst e. destruct b2; cbn; symmetry; [apply Z.ltb_lt; specialize (SK eq_refl)|apply Z.ltb_ge]; lia. }
  assert ((ndigs a =? 0) = (a =? 0)) as ->.
  { pose proof (ndigs_zero a). destruct (ndigs a =? 0) eqn:E1, (a =? 0) eqn:E2; to_prop; tauto. }
  apply wp_bind, (wp_get_len_ndigs _ _ m); [done|].
  apply wp_bind, (wp_mod_is_one _ _ m); [done|]. destruct (_ || _) eqn:E.
  { apply wp_mpz_set_from_int; [done|done|lia|done]. }
  to_prop. apply wp_bind, wp_mpz_set_from_int; [done|done|lia|]. intros s0 Hu0.
  pose proof Hu0 as (Hwf0 & Hfr0 & Ho0 & Hr0).
  apply (updated_other _ _ _ _ _ _ Hwf Hu0) in Hl; [|done].
  apply (updated_other _ _ _ _ _ _ Hwf Hu0) in Hr; [|done].
  apply (updated_other _ _ _ _ _ _ Hwf Hu0) in Hm; [|done].
  apply wp_bind, (wp_get_len_ndigs _ _ e); [done|]. pose proof (ndigs_zero e) as Hez.
  destruct (ndigs e =? 0) eqn:E3; to_prop.
  { rewrite (proj2 (Z.eqb_eq e 0)) in HQ by tauto. apply wp_ret. by apply HQ. }
  assert (e <> 0) as He by tauto. rewrite (proj2 (Z.eqb_neq e 0) He) in HQ.
  apply (wp_pow_init s0 dest _ _ a e); try done.
  intros x n s Ht Hxs Hns Hwfs Hfr Hod Hox Hon Hrx Hrn.
  apply wp_bind, wp_new_id. change (MkStore _ _ _) with (bump s).
  apply wp_bind, wp_mpz_init_zero; [by apply bump_wf|cbn; lia|]. intros s2 Hu2.
  assert (repr s dest 1) as Hrd by (eapply repr_frame; [exact Hwf0|exact Hfr|apply not_elem_of_nil|done]).
  destruct (pow3_start _ _ _ _ _ _ _ Ht Hxs Hns Hwfs Hfr Hod Hox Hon Hrd Hrx Hrn s2 Hu2) as [Ht3 Hst3].
  apply wp_bind, (wp_pow_mod s0 _ _ _ _ _ _ a e m); try done; [lia|].
  intros s3 X [Hst Hoq]. pose proof Ht3 as (_ & Hq & Hqx & Hqn).
  pose proof Ht as (Hdlt & _). assert (dest <> nxt s) as Hdq by lia.
  apply wp_bind, wp_mpz_deinit; [done|]. intros s4 Hf4. apply wp_bind, wp_end_scope. intros s5 Hf5.
  destruct Hst as (Hwf3 & Hfr3 & (Hod3 & Hox3 & Hon3) & Hrd3 & Hrx3 & Hrn3).
  apply (wp_pow_end s0 s5 dest _ _ (a ^ e `mod` m) X 0); [done| |].
  - split; [by eapply freed_wf; [eapply freed_wf|]|].
    split; [eapply freed_frame; [eapply freed_frame|..]; done|].
    split; [split; [|split]; (apply (freed_owns _ _ _ _ Hf5); [done|]; by apply (freed_owns _ _ _ _ Hf4))|].
    split; [|split]; (apply (freed_repr _ _ _ _ _ Hf5); [done|]; by apply (freed_repr _ _ _ _ _ Hf4)).
  - intros s6 Hu6. apply HQ. by eapply updated_trans.
Qed.

End Pow.
