(* ===== verification/MpzConv.v ===== *)
(** * Conversions of [mpz_t] (py/mpz.c): floats, strings, bytes, machine words

    A C string or byte buffer that is only read is a list of bytes; a buffer that
    is written is a list that the loop threads. *)
From S2P Require Import Prelude.
From S2P Require Import CMem.
From S2P Require Import Mpn.
From S2P Require Import Mpz.
Local Open Scope Z_scope.

Section Conv.
Context {heap : Heap}.

(** ** From floats *)

(** Single precision, the type [mp_float_t] of the ESP32 build. *)
Definition MP_FLOAT_EXP_BITS : Z := 8.
Definition MP_FLOAT_FRAC_BITS : Z := 23.
Definition MP_FLOAT_EXP_BIAS : Z := Z.shiftl 1 (MP_FLOAT_EXP_BITS - 1) - 1.

(** The bit-fields of [mp_float_union_t], little endian. *)
Definition float_frc (i : Z) : Z := Z.land i (Z.shiftl 1 MP_FLOAT_FRAC_BITS - 1).
Definition float_exp (i : Z) : Z :=
  Z.land (Z.shiftr i MP_FLOAT_FRAC_BITS) (Z.shiftl 1 MP_FLOAT_EXP_BITS - 1).
Definition float_sgn (i : Z) : Z :=
  Z.land (Z.shiftr i (MP_FLOAT_FRAC_BITS + MP_FLOAT_EXP_BITS)) 1.

(** The digits of a float of at least 2, its exponent without the bias. *)
Definition set_float_digits (z : nat) (frc adj_exp : Z) : Mz unit :=
  let dig_cnt := (adj_exp + 1 + (DIG_SIZE - 1)) / DIG_SIZE in
  let rem := adj_exp `mod` DIG_SIZE in
  let frc := Z.lor frc (Z.shiftl 1 MP_FLOAT_FRAC_BITS) in
  let '(frc, shft, dig_ind) :=
    if adj_exp <? MP_FLOAT_FRAC_BITS then (Z.shiftr frc (MP_FLOAT_FRAC_BITS - adj_exp), 0, 0)
    else (frc, u32 (rem - MP_FLOAT_FRAC_BITS) `mod` DIG_SIZE,
          (adj_exp - MP_FLOAT_FRAC_BITS) / DIG_SIZE) in
  _ ← mpz_need_dig z dig_cnt;
  _ ← set_len z dig_cnt;
  _ ← (if negb (dig_ind =? 0) then mpn (memset_dig z 0 dig_ind) else mret tt);
  '(frc, dig_ind) ←
    (if negb (shft =? 0) then
       _ ← mpn (store z dig_ind (Z.land (u32 (Z.shiftl frc shft)) DIG_MASK));
       mret (Z.shiftr frc (DIG_SIZE - shft), dig_ind + 1)
     else mret (frc, dig_ind)) : Mz (Z * Z);
  _ ← for_ (Z.to_nat (dig_cnt - dig_ind) + 1) (fun '(_, dig_ind) => negb (dig_ind =? dig_cnt))
        (fun '(frc, dig_ind) =>
           _ ← mpn (store z dig_ind (Z.land frc DIG_MASK));
           mret (Z.shiftr frc DIG_SIZE, dig_ind + 1)) (frc, dig_ind);
  mret tt.

(** [src] is the bit pattern of the float. *)
Definition mpz_set_from_float (z : nat) (src : Z) : Mz unit :=
  _ ← set_neg z (float_sgn src);
  if float_exp src =? 0 then mpz_set_from_int z 0
  else if float_exp src =? Z.shiftl 1 MP_FLOAT_EXP_BITS - 1 then mpz_set_from_int z 0
  else
    let adj_exp := float_exp src - MP_FLOAT_EXP_BIAS in
    if adj_exp <? 0 then mpz_set_from_int z 0
    else if adj_exp =? 0 then mpz_set_from_int z 1
    else set_float_digits z (float_frc src) adj_exp.

(** ** From strings *)

(** The value of a digit character. *)
Definition char_value (c : Z) : option Z :=
  if (48 <=? c) && (c <=? 57) then Some (c - 48)
  else if (65 <=? c) && (c <=? 90) then Some (c - (65 - 10))
  else if (97 <=? c) && (c <=? 122) then Some (c - (97 - 10))
  else None.

(** The loop over the characters, [cur] of which have been read. *)
Fixpoint str_digits (z : nat) (base : Z) (str : list Z) (cur : Z) : Mz Z :=
  match str with
  | [] => mret cur
  | c :: str =>
      match char_value c with
      | None => mret cur
      | Some v =>
          if v >=? base then mret cur
          else
            n ← get_len z;
            r ← mpn (mpn_mul_dig_add_dig z n base v); _ ← set_len z r;
            str_digits z base str (cur + 1)
      end
  end.

Definition mpz_set_from_str (z : nat) (str : list Z) (neg : bool) (base : Z) : Mz Z :=
  _ ← assert_ (base <=? 36);
  let len := Z.of_nat (length str) in
  _ ← mpz_need_dig z (u32 (len * 8) / DIG_SIZE + 1);
  _ ← set_neg z (zbool neg);
  _ ← set_len z 0;
  str_digits z base str 0.

(** ** From bytes *)

Definition byte_at (buf : list Z) (i : Z) : Mz Z :=
  fun st => if 0 <=? i then v ← buf !! Z.to_nat i; Some (v, st) else None.

Definition mpz_set_from_bytes (z : nat) (big_endian : bool) (buf : list Z) : Mz unit :=
  let len := Z.of_nat (length buf) in
  let '(p, delta) := if big_endian then (len - 1, -1) else (0, 1) in
  _ ← mpz_need_dig z (u32 (u32 (len * 8) + DIG_SIZE - 1) / DIG_SIZE);
  _ ← set_neg z 0; _ ← set_len z 0;
  _ ← for_ (length buf + 1) (fun '(len, _, _) => negb (len =? 0))
    (fun '(len, p, num_bits) =>
       '(len, p, num_bits, d) ← for_ (length buf + 1)
         (fun '(len, p, num_bits, d) => negb (len =? 0) && (num_bits <? DIG_SIZE))
         (fun '(len, p, num_bits, d) =>
            b ← byte_at buf p;
            mret (len - 1, p + delta, num_bits + 8, u16 (Z.lor d (Z.shiftl b num_bits))))
         (len, p, num_bits, 0);
       n ← get_len z;
       _ ← mpn (store z n (Z.land d DIG_MASK)); _ ← set_len z (n + 1);
       mret (len, p, num_bits - DIG_SIZE)) (len, p, 0);
  n ← get_len z;
  r ← mpn (mpn_remove_trailing_zeros z 0 n);
  set_len z r.

(** ** To machine words *)

(** One digit more, from the most significant one down. *)
Definition word_step (val d : Z) : Z := Z.lor (u32 (Z.shiftl val DIG_SIZE)) d.

Definition mpz_hash (z : nat) : Mz Z :=
  n ← get_len z;
  '(_, val) ← for_ (Z.to_nat n + 1) (fun '(d, _) => d >? 0)
    (fun '(d, val) => x ← mpn (load z (d - 1)); mret (d - 1, word_step val x)) (n, 0);
  b ← get_neg z;
  mret (s32 (if negb (b =? 0) then u32 (- val) else val)).

(** The loop of the checked conversions: [None] when [val] exceeds [max] before
    another digit is added. *)
Definition word_checked (max : Z) (z : nat) : Mz (option Z) :=
  n ← get_len z;
  loop (Z.to_nat n + 1) (fun '(d, val) =>
    if d >? 0 then
      if val >? max then mret (inr None)
      else x ← mpn (load z (d - 1)); mret (inl (d - 1, word_step val x))
    else mret (inr (Some val))) (n, 0).

(** [~MP_OBJ_WORD_MSBIT_HIGH] on a 32-bit machine. *)
Definition WORD_MAX_POS : Z := 2 ^ 32 - 1 - 2 ^ 31.

Definition mpz_as_int_checked (z : nat) : Mz (option Z) :=
  r ← word_checked (Z.shiftr WORD_MAX_POS DIG_SIZE) z;
  match r with
  | None => mret None
  | Some val =>
      b ← get_neg z;
      mret (Some (s32 (if negb (b =? 0) then u32 (- val) else val)))
  end.

Definition mpz_as_uint_checked (z : nat) : Mz (option Z) :=
  b ← get_neg z;
  if negb (b =? 0) then mret None
  else word_checked (Z.shiftr WORD_MAX_POS (DIG_SIZE - 1)) z.

(** ** To bytes *)

(** A byte written at index [i] of the buffer. *)
Definition put_byte (buf : list Z) (i v : Z) : Mz (list Z) :=
  _ ← byte_at buf i; mret (<[Z.to_nat i := u8 v]> buf).

(** The bytes of one digit: [b] is the write index (one past it for big endian),
    [olen] the bytes left in the buffer. *)
Definition digit_bytes (neg big_endian : bool) (s : list Z * Z * Z * Z * Z * Z * bool) :
    Mz (list Z * Z * Z * Z * Z * Z * bool) :=
  for_ 3 (fun '(_, _, bits, _, _, _, _) => bits >=? 8)
    (fun '(buf, b, bits, d, carry, olen, ok) =>
       let val := u16 d in
       let '(val, carry) :=
         if neg then let val := u16 (Z.land (Z.lnot val) 255 + carry) in (val, Z.shiftr val 8)
         else (val, carry) in
       if olen =? 0 then
         mret (buf, b, bits - 8, Z.shiftr d 8, carry, olen, ok && (u8 val =? 0))
       else if (big_endian : bool) then
         buf ← put_byte buf (b - 1) val;
         mret (buf, b - 1, bits - 8, Z.shiftr d 8, carry, olen - 1, ok)
       else
         buf ← put_byte buf b val;
         mret (buf, b + 1, bits - 8, Z.shiftr d 8, carry, olen - 1, ok)) s.

Definition mpz_as_bytes (z : nat) (big_endian as_signed : bool) (buf : list Z) :
    Mz (bool * list Z) :=
  let len := Z.of_nat (length buf) in
  let b := if big_endian then len else 0 in
  n ← get_len z; s ← get_neg z; let neg := negb (s =? 0) in
  '(_, _, (buf, b, _, _, _, olen, ok)) ← for_ (Z.to_nat n + 1) (fun '(zlen, _, _) => zlen >? 0)
    (fun '(zlen, zdig, (buf, b, bits, d, carry, olen, ok)) =>
       x ← mpn (load z zdig);
       s ← digit_bytes neg big_endian
         (buf, b, bits + DIG_SIZE, Z.lor (u32 (Z.shiftl d DIG_SIZE)) x, carry, olen, ok);
       mret (zlen - 1, zdig + 1, s)) (n, 0, (buf, b, 0, 0, 1, len, true));
  if as_signed && (olen =? 0) && (len >? 0) then
    most_sig ← byte_at buf (if big_endian then 0 else len - 1);
    mret (ok && eqb (negb (Z.land most_sig 128 =? 0)) neg, buf)
  else
    let fill := replicate (Z.to_nat olen) (if neg then 255 else 0) in
    mret (ok, if big_endian then fill ++ drop (Z.to_nat olen) buf
              else take (Z.to_nat b) buf ++ fill).

(** ** To strings *)

(** The division of the digits by the base, from the most significant one down:
    the new digits and the remainder. *)
Definition div_digits (base : Z) (dig : list Z) : list Z * Z :=
  foldr (fun d '(q, a) =>
    let a := Z.lor (u32 (Z.shiftl a DIG_SIZE)) d in
    (u16 (a / base) :: q, a `mod` base)) ([], 0) dig.

(** The character of a digit. *)
Definition digit_char (base_char a : Z) : Z :=
  let a := a + 48 in
  u8 (if a >? 57 then a + (base_char - 57 - 1) else a).

(** The do-while loop: the digits left, the characters written so far and the
    position after the last comma. *)
Fixpoint str_loop (base base_char comma n_comma : Z) (fuel : nat) (dig s : list Z)
    (last_comma : Z) : option (list Z) :=
  match fuel with
  | O => None
  | S fuel =>
      let '(dig, a) := div_digits base dig in
      let s := s ++ [digit_char base_char a] in
      if forallb (fun d => d =? 0) dig then Some s
      else if negb (comma =? 0) && (Z.of_nat (length s) - last_comma =? n_comma)
      then str_loop base base_char comma n_comma fuel dig (s ++ [comma]) (Z.of_nat (length s) + 1)
      else str_loop base base_char comma n_comma fuel dig s last_comma
  end.

(** The loop that reverses the string in place. *)
Fixpoint reverse_loop (fuel : nat) (u v : Z) (s : list Z) : list Z :=
  match fuel with
  | O => s
  | S fuel =>
      if u <? v then
        match s !! Z.to_nat u, s !! Z.to_nat v with
        | Some x, Some y => reverse_loop fuel (u + 1) (v - 1) (<[Z.to_nat v := x]> (<[Z.to_nat u := y]> s))
        | _, _ => s
        end
      else s
  end.

(** The string written, without the final null byte; [prefix] is the empty list
    when the pointer is null. *)
Definition mpz_as_str_inpl (i : nat) (base : Z) (prefix : list Z) (base_char comma : Z) :
    Mz (list Z) :=
  _ ← assert_ ((2 <=? base) && (base <=? 32));
  ilen ← get_len i;
  let n_comma := if base =? 10 then 3 else 4 in
  if ilen =? 0 then mret (prefix ++ [48])
  else
    dig ← (fun st => l ← digs st !! i; Some (take (Z.to_nat ilen) l, st)) : Mz (list Z);
    s ← (fun st => s ← str_loop base base_char comma n_comma (16 * length dig + 1) dig [] 0;
                   Some (s, st)) : Mz (list Z);
    b ← get_neg i;
    let s := s ++ rev prefix in
    let s := if negb (b =? 0) then s ++ [45] else s in
    mret (reverse_loop (length s) 0 (Z.of_nat (length s) - 1) s).

End Conv.
