(* ===== verification/MpzConvFacts.v ===== *)
(** * Correctness of the conversions of [mpz_t] *)
From S2P Require Import Prelude.
From S2P Require Import CMem.
From S2P Require Import Mpn.
From S2P Require Import Digits.
From S2P Require Import MpnArith.
From S2P Require Import MpnShift.
From S2P Require Import MpnBits.
From S2P Require Import Mpz.
From S2P Require Import MpzSpec.
From S2P Require Import MpzArith.
From S2P Require Import MpzBits.
From S2P Require Import MpzMul.
From S2P Require Import MpzPow.
From S2P Require Import MpzConv.
Local Open Scope Z_scope.

Section Conv.
Context {heap : Heap}.

(** ** Machine words *)

Lemma swrap_mod w x y : x `mod` 2 ^ w = y `mod` 2 ^ w -> swrap w x = swrap w y.
Proof. intros H. unfold swrap. by rewrite <-Zplus_mod_idemp_l, H, Zplus_mod_idemp_l. Qed.

Lemma opp_mod_mod x m : m <> 0 -> (- (x `mod` m)) `mod` m = (- x) `mod` m.
Proof.
  intros Hm. pose proof (Z.div_mod x m Hm).
  replace (- (x `mod` m)) with (- x + (x / m) * m) by lia. by apply Z.mod_add.
Qed.

Lemma word_step_val v d : 0 <= v < 65536 -> is_dig d -> word_step v d = v * 65536 + d.
Proof. intros Hv Hd. unfold word_step. rewrite dig_shl, u32_small, dig_lor by (done || lia). done. Qed.

(** Modulo [2 ^ 32] the digits below are enough. *)
Lemma word_step_mod v d x : is_dig d -> 0 <= v < 2 ^ 32 -> x `mod` 2 ^ 32 = v ->
  word_step v d = (x * 65536 + d) `mod` 2 ^ 32 /\ 0 <= word_step v d < 2 ^ 32.
Proof.
  intros Hd Hv <-. unfold word_step. rewrite dig_shl. unfold uwrap.
  assert (((x `mod` 2 ^ 32) * 65536) `mod` 2 ^ 32 = (x `mod` 65536) * 65536) as ->.
  { rewrite Z.mul_mod_idemp_l by lia. change (2 ^ 32) with (65536 * 65536). by rewrite Z.mul_mod_distr_r. }
  rewrite dig_lor by done. unfold is_dig in Hd. pose proof (Z.mod_pos_bound x 65536).
  split; [|lia]. apply (Z.mod_unique_pos _ _ (x / 65536)); [lia|].
  pose proof (Z.div_mod x 65536). lia.
Qed.

Lemma dval_drop l t x : l !! t = Some x -> dval (drop t l) = x + 65536 * dval (drop (S t) l).
Proof. intros Hx. by rewrite (drop_S _ _ _ Hx). Qed.

Lemma wp_mpz_hash st z v (Q : Z -> mpz_store -> Prop) :
  repr st z v -> Q (s32 v) st -> wp (mpz_hash z) st Q.
Proof.
  intros (b & l & Hl & ->) HQ. pose proof (reprl_dig _ _ _ _ Hl) as Hd.
  apply wp_bind, (wp_get_len _ _ b l); [done|]. apply wp_bind.
  apply (wp_for (fun '(d, val) st' => st' = st /\ exists t, d = Z.of_nat t /\ (t <= length l)%nat /\
      0 <= val < 2 ^ 32 /\ dval (drop t l) `mod` 2 ^ 32 = val) (fun '(d, _) => Z.to_nat d)).
  - split; [done|]. exists (length l). rewrite drop_all. repeat split; try lia. 
  - lia.
  - intros [d val] st' (-> & t & -> & Ht & Hval & Hm) Hgt. to_prop. destruct t as [|t]; [lia|].
    replace (Z.of_nat (S t) - 1) with (Z.of_nat t) by lia.
    apply wp_bind, wp_mpn, (wp_load_holds _ _ l); [by eapply reprl_holds|lia|]. intros x Hx.
    rewrite set_digs_id. apply wp_ret. split; [|lia]. split; [done|]. exists t.
    pose proof (Forall_lookup_dig _ _ _ Hd Hx) as Dx.
    destruct (word_step_mod val x _ Dx Hval Hm) as [Hw Hr]. rewrite Hw in Hr |- *.
    rewrite (dval_drop _ _ _ Hx). repeat split; try lia. f_equal. lia.
  - intros [d val] st' (-> & t & -> & Ht & Hval & Hm) Hle. to_prop. destruct t; [|lia].
    rewrite drop_0 in Hm. apply wp_bind, (wp_get_neg _ _ b l); [done|]. apply wp_ret.
    refine (eq_ind _ (fun v => Q v st) HQ _ _). rewrite <-Hm. destruct b; cbn [zbool Z.eqb negb sval].
    + apply swrap_mod. unfold uwrap. rewrite Z.mod_mod by lia. symmetry. apply opp_mod_mod. lia.
    + apply swrap_mod. symmetry. apply Z.mod_mod. lia.
Qed.

(** The value of the digits from [t] on, when they have been read. *)
Lemma wp_word_checked st z b l max (Q : option Z -> mpz_store -> Prop) :
  reprl st z b l -> 0 <= max < 65536 ->
  (dval l < (max + 1) * 65536 -> Q (Some (dval l)) st) ->
  ((max + 1) * 65536 <= dval l -> Q None st) ->
  wp (word_checked max z) st Q.
Proof.
  intros Hl Hmax HS HN. pose proof (reprl_dig _ _ _ _ Hl) as Hd.
  apply wp_bind, (wp_get_len _ _ b l); [done|].
  apply (wp_loop (fun '(d, val) st' => st' = st /\ exists t, d = Z.of_nat t /\ (t <= length l)%nat /\
      dval (drop t l) = val /\ val < (max + 1) * 65536) (fun '(d, _) => Z.to_nat d)).
  - intros [d val] st' (-> & t & -> & Ht & Hval & Hlt).
    assert (Forall is_dig (drop t l)) as Hdd by by apply Forall_drop.
    pose proof (dval_bounds _ Hdd) as Bd. destruct (_ >? 0) eqn:E; to_prop.
    + destruct t as [|t]; [lia|]. destruct (lookup_lt_is_Some_2 l t ltac:(lia)) as [x Hx].
      pose proof (Forall_lookup_dig _ _ _ Hd Hx) as Dx. pose proof (dval_drop _ _ _ Hx) as Hdx.
      destruct (val >? max) eqn:E1; to_prop.
      * apply wp_ret, HN. 
        assert (dval (drop t l) <= dval l); [|lia].
        rewrite <-(take_drop t l) at 2. rewrite dval_app.
        pose proof (dval_take_bounds l t Hd ltac:(lia)). pose proof (bpow_pos (length (take t l))). nia.
      * replace (Z.of_nat (S t) - 1) with (Z.of_nat t) by lia.
        apply wp_bind, wp_mpn, (wp_load_holds _ _ l); [by eapply reprl_holds|lia|].
        intros y Hy. assert (y = x) as -> by congruence. rewrite set_digs_id. apply wp_ret.
        split; [|lia]. split; [done|]. exists t. rewrite word_step_val by (done || lia).
        repeat split; lia.
    + destruct t; [|lia]. rewrite drop_0 in Hval. apply wp_ret. rewrite <-Hval in *. by apply HS.
  - split; [done|]. exists (length l). rewrite drop_all. repeat split; try lia; done.
  - lia.
Qed.

Lemma wp_mpz_as_int_checked st z v (Q : option Z -> mpz_store -> Prop) :
  repr st z v ->
  Q (if Z.abs v <? 2 ^ 31 then Some v else None) st -> wp (mpz_as_int_checked z) st Q.
Proof.
  intros (b & l & Hl & ->) HQ. pose proof (dval_bounds l (reprl_dig _ _ _ _ Hl)).
  rewrite sval_abs in HQ by lia.
  apply wp_bind, (wp_word_checked _ _ b l); [done|by vm_compute| |];
    change (_ * 65536) with (2 ^ 31); intros Hv.
  - rewrite (proj2 (Z.ltb_lt _ _) Hv) in HQ. apply wp_bind, (wp_get_neg _ _ b l); [done|]. apply wp_ret.
    refine (eq_ind _ (fun v => Q v st) HQ _ _). f_equal.
    destruct b; cbn [zbool Z.eqb negb sval]; [rewrite s32_u32|rewrite s32_small]; lia.
  - rewrite (proj2 (Z.ltb_ge _ _) Hv) in HQ. by apply wp_ret.
Qed.

Lemma wp_mpz_as_uint_checked st z v (Q : option Z -> mpz_store -> Prop) :
  repr st z v ->
  Q (if (0 <=? v) && (v <? 2 ^ 32) then Some v else None) st -> wp (mpz_as_uint_checked z) st Q.
Proof.
  intros (b & l & Hl & ->) HQ. pose proof (dval_bounds l (reprl_dig _ _ _ _ Hl)).
  pose proof (reprl_sign _ _ _ _ Hl) as Hs.
  apply wp_bind, (wp_get_neg _ _ b l); [done|]. destruct b; cbn [zbool Z.eqb negb sval] in *.
  { rewrite (proj2 (Z.leb_gt 0 _)) in HQ by (specialize (Hs eq_refl); lia). by apply wp_ret. }
  rewrite (proj2 (Z.leb_le 0 _)) in HQ by lia.
  apply (wp_word_checked _ _ false l); [done|by vm_compute| |];
    change (_ * 65536) with (2 ^ 32); intros Hv.
  - by rewrite (proj2 (Z.ltb_lt _ _) Hv) in HQ.
  - by rewrite (proj2 (Z.ltb_ge _ _) Hv) in HQ.
Qed.

(** ** Strings *)

(** The value of the longest prefix of digits, and its length. *)
Fixpoint str_value (base acc : Z) (str : list Z) : Z * Z :=
  match str with
  | [] => (acc, 0)
  | c :: str =>
      match char_value c with
      | Some v =>
          if v >=? base then (acc, 0)
          else let '(r, n) := str_value base (acc * base + v) str in (r, n + 1)
      | None => (acc, 0)
      end
  end.

Lemma char_value_range c v : char_value c = Some v -> 0 <= v < 36.
Proof. unfold char_value. repeat case_match; intros; simplify_eq; to_prop; lia. Qed.

(** A store in which only the digits of [z] and its length have been written. *)
Definition with_digits (st : mpz_store) (z : nat) (h : mpz_t) (b : bool) (m : blocks) (l : list Z) : mpz_store :=
  MkStore m (<[z := MkMpz (zbool b) (fixed_dig h) (alloc h) (Z.of_nat (length l))]> (hdr st)) (nxt st).

Lemma wp_set_len_digits st z h b m m' l l' (Q : unit -> mpz_store -> Prop) :
  Q tt (with_digits st z h b m' l') ->
  wp (set_len z (Z.of_nat (length l'))) (set_digs m' (with_digits st z h b m l)) Q.
Proof.
  intros HQ. eapply wp_set_len_hdr; [unfold with_digits; st_simpl; by rewrite lookup_insert_eq|].
  unfold with_digits. st_simpl. by rewrite insert_insert_eq.
Qed.

Lemma wp_get_len_digits st z h b m l (Q : Z -> mpz_store -> Prop) :
  Q (Z.of_nat (length l)) (with_digits st z h b m l) -> wp (get_len z) (with_digits st z h b m l) Q.
Proof. intros HQ. eapply wp_get_len_hdr; [unfold with_digits; st_simpl; by rewrite lookup_insert_eq|]. done. Qed.

Lemma wp_str_digits st z h b base total str : forall m l cur k (Q : Z -> mpz_store -> Prop),
  2 <= base <= 36 -> holds m z l -> Forall is_dig l -> normal l ->
  dval l < base ^ k -> 0 <= k -> k + Z.of_nat (length str) = total ->
  room m z (Z.to_nat (total * 8 / 16 + 1)) -> wrote (digs st) m z l ->
  (forall m' l', wrote (digs st) m' z l' -> Forall is_dig l' -> normal l' ->
     dval l' = fst (str_value base (dval l) str) ->
     Q (cur + snd (str_value base (dval l) str)) (with_digits st z h b m' l')) ->
  wp (str_digits z base str cur) (with_digits st z h b m l) Q.
Proof.
  induction str as [|c str IH]; intros m l cur k Q Hb Hh Hd Hn Hv Hk Htot Hroom Hw HQ; cbn [str_digits].
  - apply wp_ret. specialize (HQ m l Hw Hd Hn eq_refl). cbn in HQ. by rewrite Z.add_0_r in HQ.
  - cbn [str_value] in HQ. destruct (char_value c) as [v|] eqn:Ec;
      [|apply wp_ret; specialize (HQ m l Hw Hd Hn eq_refl); cbn in HQ; by rewrite Z.add_0_r in HQ].
    destruct (v >=? base) eqn:E;
      [apply wp_ret; specialize (HQ m l Hw Hd Hn eq_refl); cbn in HQ; by rewrite Z.add_0_r in HQ|].
    rewrite Z.geb_leb in E. to_prop. pose proof (char_value_range _ _ Ec). cbn [length] in Htot.
    pose proof (dval_bounds l Hd) as Bl.
    apply wp_bind, wp_get_len_digits. apply wp_bind, wp_mpn, (wp_mpn_mul_dig_add_dig _ z l base v); try done.
    + lia.
    + unfold is_dig. lia.
    + intros Hge. eapply room_mono; [exact Hroom|].
      assert (dval l * base + v < base ^ (k + 1)) as H1 by (rewrite Z.pow_add_r, Z.pow_1_r by lia; nia).
      assert (base ^ (k + 1) <= 256 ^ (k + 1)) as H2 by (apply Z.pow_le_mono_l; lia).
      assert (256 ^ (k + 1) <= 2 ^ (8 * total)) as H3.
      { change 256 with (2 ^ 8). rewrite <-Z.pow_mul_r by lia. apply Z.pow_le_mono_r; lia. }
      rewrite bpow_pow2 in Hge. assert (2 ^ (16 * Z.of_nat (length l)) < 2 ^ (8 * total)) as H4 by lia.
      apply Z.pow_lt_mono_r_iff in H4; [|lia|lia].
      assert (Z.of_nat (length l) <= total * 8 / 16) by (apply Z.div_le_lower_bound; lia). lia.
    + intros res m' Hw' Hd' Hn' Hv'. cbn [digs with_digits] in Hw'.
      apply wp_bind, wp_set_len_digits. cbv beta.
      destruct (str_value base (dval l * base + v) str) as [r n] eqn:Es.
      apply (IH _ _ _ (k + 1)); try done; try lia.
      * by eapply wrote_holds.
      * rewrite Hv', Z.pow_add_r, Z.pow_1_r by lia. nia.
      * by eapply wrote_room.
      * by eapply wrote_trans.
      * intros m2 l2 Hw2 Hd2 Hn2 Hv2. rewrite Hv', Es in *. cbn [fst snd] in *.
        replace (cur + 1 + n) with (cur + (n + 1)) by lia. by apply HQ.
Qed.

Lemma str_value_nonneg base str : forall acc, 0 < base -> 0 <= acc -> 0 <= fst (str_value base acc str).
Proof.
  induction str as [|c str IH]; intros acc Hb Ha; cbn [str_value]; [done|].
  destruct (char_value c) as [v|] eqn:Ec; [|done]. pose proof (char_value_range _ _ Ec).
  destruct (v >=? base); [done|]. specialize (IH (acc * base + v) Hb ltac:(nia)).
  by destruct (str_value base (acc * base + v) str).
Qed.

(** The sign is kept for a zero value: the caller must not pass [neg] for it. *)
Lemma wp_mpz_set_from_str st z str neg base (Q : Z -> mpz_store -> Prop) :
  wf st -> owns st z -> 2 <= base <= 36 -> Z.of_nat (length str) < 2 ^ 29 ->
  (neg = true -> fst (str_value base 0 str) <> 0) ->
  (forall st', updated st st' z (sval neg (fst (str_value base 0 str))) ->
     Q (snd (str_value base 0 str)) st') ->
  wp (mpz_set_from_str z str neg base) st Q.
Proof.
  intros Hwf Ho Hb Hlen Hneg HQ. apply wp_bind, wp_assert; [apply Z.leb_le; lia|].
  unfold DIG_SIZE. rewrite u32_small by lia. set (n := Z.of_nat (length str) * 8 / 16 + 1).
  assert (0 < n /\ n < 2 ^ 29) as Hnb.
  { unfold n. pose proof (Z.div_pos (Z.of_nat (length str) * 8) 16).
    assert (Z.of_nat (length str) * 8 / 16 < 2 ^ 28) by (apply Z.div_lt_upper_bound; lia). lia. }
  apply wp_bind, wp_mpz_need_dig; [done|done|unfold MAX_DIG; lia|]. intros st1 Hg.
  pose proof Hg as (Hwf1 & Ho1 & Hroom & _). pose proof Ho1 as (h & lh & Hh & Hlh & _).
  apply wp_bind, (wp_set_neg_hdr _ _ h); [done|].
  apply wp_bind. eapply wp_set_len_hdr; [st_simpl; by rewrite lookup_insert_eq|]. st_simpl.
  rewrite insert_insert_eq. change (MkStore _ _ _) with (with_digits st1 z h neg (digs st1) []).
  assert (wrote (digs st1) (digs st1) z []) as Hw by (apply wrote_refl; by exists lh).
  apply (wp_str_digits st1 z h neg base (Z.of_nat (length str)) str _ _ _ 0); try done.
  - by exists lh.
  - eapply room_mono; [done|]. fold n. lia.
  - intros m' l' Hw' Hd Hn Hv. cbn [Z.add]. apply HQ. eapply grown_updated; [done|].
    change (dval []) with 0 in Hv. rewrite <-Hv.
    apply (updated_intro st1 z h m' neg l'); try done.
    intros Hnt ->. apply Hneg; [done|]. by rewrite <-Hv.
Qed.

(** *** Printing *)

(** The value of digits of base [base], the least significant one first. *)
Definition radix_val (base : Z) (ds : list Z) : Z := foldr (fun d v => d + base * v) 0 ds.

(** Commas after every [k] digits; [cnt] digits precede since the last one. *)
Fixpoint group (k comma cnt : Z) (cs : list Z) : list Z :=
  match cs with
  | [] => []
  | c :: cs =>
      c :: match cs with
           | [] => []
           | _ => if negb (comma =? 0) && (cnt + 1 =? k) then comma :: group k comma 0 cs
                  else group k comma (cnt + 1) cs
           end
  end.

Lemma div_digits_spec base dig : 2 <= base <= 36 -> Forall is_dig dig ->
  exists q a, div_digits base dig = (q, a) /\ length q = length dig /\ Forall is_dig q /\
    0 <= a < base /\ dval dig = dval q * base + a.
Proof.
  intros Hb. induction 1 as [|d dig Hd _ IH]; [by exists [], 0; repeat split; try lia|].
  destruct IH as (q & a & Hq & Hl & HD & Ha & Hv). unfold div_digits in *. cbn [foldr]. rewrite Hq.
  unfold is_dig in Hd. rewrite dig_shl, u32_small, dig_lor by lia.
  pose proof (Z.div_mod (a * 65536 + d) base ltac:(lia)).
  pose proof (Z.mod_pos_bound (a * 65536 + d) base ltac:(lia)).
  assert (0 <= (a * 65536 + d) / base < 65536) as Hr.
  { split; [apply Z.div_pos; lia|]. apply Z.div_lt_upper_bound; lia. }
  rewrite u16_small by lia. eexists _, _. split; [done|]. cbn [length]. split; [lia|].
  split; [by constructor|]. split; [lia|]. rewrite !dval_cons, Hv. lia.
Qed.

Lemma forallb_zero l : Forall is_dig l -> forallb (fun d => d =? 0) l = (dval l =? 0).
Proof.
  induction 1 as [|d l Hd HF IH]; [done|]. cbn [forallb]. rewrite IH, dval_cons.
  pose proof (dval_bounds l HF). unfold is_dig in Hd.
  destruct (d =? 0) eqn:E1, (dval l =? 0) eqn:E2; cbn; symmetry; to_prop;
    (apply Z.eqb_eq || apply Z.eqb_neq); lia.
Qed.

(** A numeral: digits of the base, with no leading zero except for zero itself. *)
Definition numeral (base n : Z) (ds : list Z) : Prop :=
  Forall (fun d => 0 <= d < base) ds /\ radix_val base ds = n /\ ds <> [] /\
  (last ds = Some 0 -> ds = [0]).

Lemma str_loop_spec base bc comma k fuel : 2 <= base <= 36 -> comma = 0 \/ 2 <= k ->
  forall dig s lc, Forall is_dig dig -> dval dig < 2 ^ Z.of_nat fuel -> (fuel <> 0)%nat ->
  exists ds, numeral base (dval dig) ds /\
    str_loop base bc comma k fuel dig s lc =
      Some (s ++ group k comma (Z.of_nat (length s) - lc) (map (digit_char bc) ds)).
Proof.
  intros Hb Hk. induction fuel as [|fuel IH]; intros dig s lc Hd Hv Hf; [done|]. clear Hf.
  destruct (div_digits_spec base dig Hb Hd) as (q & a & Hq & Hl & Hdq & Ha & Hval).
  pose proof (dval_bounds q Hdq) as Bq. cbn [str_loop]. rewrite Hq, forallb_zero by done.
  rewrite Nat2Z.inj_succ, Z.pow_succ_r in Hv by lia.
  destruct (dval q =? 0) eqn:E; to_prop.
  - exists [a]. split; [|done]. split; [by apply Forall_singleton|]. cbn. split; [lia|]. split; [done|].
    by intros [= ->].
  - assert (dval q < 2 ^ Z.of_nat fuel) as Hq2 by nia.
    assert (fuel <> 0%nat) as Hf. { intros ->. cbn in Hq2. lia. }
    set (s1 := s ++ [digit_char bc a]). assert (length s1 = S (length s)) as Hls.
    { unfold s1. rewrite length_app. cbn. lia. }
    set (cnt := Z.of_nat (length s) - lc).
    assert (Z.of_nat (length s1) - lc = cnt + 1) as -> by lia.
    destruct (negb _ && _) eqn:Ec; [set (s2 := s1 ++ [comma]); set (lc2 := Z.of_nat (length s1) + 1)|set (s2 := s1); set (lc2 := lc)].
    all: destruct (IH q s2 lc2 Hdq Hq2 Hf) as (ds & (HF & Hr & Hne & Hlast) & ->).
    all: exists (a :: ds); split; [split; [by constructor|]; cbn [radix_val foldr];
      fold (radix_val base ds); rewrite Hr; split; [lia|]; split; [done|];
      intros Hz; exfalso; apply E; rewrite <-Hr; destruct ds; [done|]; rewrite (Hlast Hz); cbn; lia|].
    all: destruct ds as [|d ds]; [done|]; cbn [map group]; fold cnt; rewrite Ec.
    + unfold s2, lc2. rewrite length_app. cbn [length].
      replace (Z.of_nat (length s1 + 1) - (Z.of_nat (length s1) + 1)) with 0 by lia.
      unfold s1. by rewrite <-!app_assoc.
    + unfold s2, lc2. replace (Z.of_nat (length s1) - lc) with (cnt + 1) by lia.
      unfold s1. by rewrite <-!app_assoc.
Qed.

(** Normalise appends: to the right, and computed. *)
Ltac norm_app := repeat first [rewrite <-app_assoc | progress cbn [app]].

Lemma reverse_loop_spec fuel : forall A Mid B, (length Mid <= fuel)%nat ->
  reverse_loop fuel (Z.of_nat (length A)) (Z.of_nat (length A) + Z.of_nat (length Mid) - 1) (A ++ Mid ++ B)
  = A ++ rev Mid ++ B.
Proof.
  induction fuel as [|fuel IH]; intros A Mid B Hl.
  { destruct Mid; [done|cbn in Hl; lia]. }
  cbn [reverse_loop]. destruct Mid as [|x Mid]; [destruct (_ <? _) eqn:E; to_prop; [cbn in E; lia|done]|].
  destruct Mid as [|y Mid _] using rev_ind; [destruct (_ <? _) eqn:E; to_prop; [cbn in E; lia|done]|].
  cbn [length] in *. rewrite length_app in *. cbn [length] in *.
  destruct (_ <? _) eqn:E; to_prop; [|lia].
  assert (Z.to_nat (Z.of_nat (length A) + Z.of_nat (S (length Mid + 1)) - 1) = length (A ++ x :: Mid)) as Hv.
  { rewrite length_app. cbn. lia. }
  rewrite Nat2Z.id, Hv. cbn [app]. rewrite list_lookup_middle by done.
  replace (A ++ x :: (Mid ++ [y]) ++ B) with ((A ++ x :: Mid) ++ y :: B) by by norm_app.
  rewrite (list_lookup_middle (A ++ x :: Mid)) by done.
  assert (<[length A:=y]> ((A ++ x :: Mid) ++ y :: B) = (A ++ y :: Mid) ++ y :: B) as ->.
  { norm_app. rewrite insert_app_r_alt, Nat.sub_diag by lia. done. }
  assert (length (A ++ x :: Mid) = length (A ++ y :: Mid)) as -> by (rewrite !length_app; done).
  rewrite insert_app_r_alt, Nat.sub_diag by lia. cbn [list_insert insert].
  replace ((A ++ y :: Mid) ++ x :: B) with ((A ++ [y]) ++ Mid ++ x :: B) by by norm_app.
  replace (Z.of_nat (length A) + 1) with (Z.of_nat (length (A ++ [y]))) by (rewrite length_app; cbn; lia).
  replace (Z.of_nat (length A) + Z.of_nat (S (length Mid + 1)) - 1 - 1)
    with (Z.of_nat (length (A ++ [y])) + Z.of_nat (length Mid) - 1) by (rewrite length_app; cbn; lia).
  rewrite IH by lia. cbn [rev]. rewrite rev_app_distr. cbn [rev]. by norm_app.
Qed.

Lemma reverse_loop_rev s : reverse_loop (length s) 0 (Z.of_nat (length s) - 1) s = rev s.
Proof.
  pose proof (reverse_loop_spec (length s) [] s [] ltac:(done)) as H. cbn [length app] in H.
  rewrite !app_nil_r in H. exact H.
Qed.

Lemma wp_mpz_as_str_inpl st i v base prefix bc comma (Q : list Z -> mpz_store -> Prop) :
  repr st i v -> 2 <= base <= 32 ->
  (forall ds, numeral base (Z.abs v) ds ->
     Q (if v =? 0 then prefix ++ [48]
        else (if v <? 0 then [45] else []) ++ prefix ++
             rev (group (if base =? 10 then 3 else 4) comma 0 (map (digit_char bc) ds))) st) ->
  wp (mpz_as_str_inpl i base prefix bc comma) st Q.
Proof.
  intros (b & l & Hl & ->) Hb HQ. pose proof (dval_bounds l (reprl_dig _ _ _ _ Hl)) as Bl.
  pose proof (reprl_dig _ _ _ _ Hl) as Hd. pose proof (reprl_normal _ _ _ _ Hl) as Hn.
  rewrite sval_abs in HQ by lia.
  apply wp_bind, wp_assert. { apply andb_true_iff; split; apply Z.leb_le; lia. }
  apply wp_bind, (wp_get_len _ _ b l); [done|]. rewrite dval_zero_iff by done. cbv zeta.
  assert ((sval b (dval l) =? 0) = (dval l =? 0)) as Hz.
  { destruct b; cbn [sval]; [|done]. destruct (dval l =? 0) eqn:E; to_prop;
      (apply Z.eqb_eq || apply Z.eqb_neq); lia. }
  rewrite Hz in HQ. destruct (dval l =? 0) eqn:E; to_prop.
  { apply wp_ret, (HQ [0]). split; [apply Forall_singleton; lia|]. rewrite E. cbn. repeat split; try lia; done. }
  pose proof Hl as (h & rest & _ & Hdig & _). apply wp_bind. unfold wp at 1. rewrite Hdig.
  cbn [mbind option_bind]. cbv beta iota. rewrite Nat2Z.id, take_app_length.
  set (k := if base =? 10 then 3 else 4) in *.
  assert (2 <= k) as Hk by (unfold k; destruct (base =? 10); lia).
  destruct (str_loop_spec base bc comma k (16 * length l + 1) ltac:(lia) (or_intror Hk)
    l [] 0 Hd) as (ds & Hds & Hs); [|lia|].
  { eapply Z.lt_le_trans; [apply Bl|]. rewrite bpow_pow2. apply Z.pow_le_mono_r; lia. }
  cbn [app length] in Hs. apply wp_bind. unfold wp at 1. rewrite Hs. cbn [mbind option_bind]. cbv beta iota.
  apply wp_bind, (wp_get_neg _ _ b l); [done|]. apply wp_ret. cbv zeta. rewrite reverse_loop_rev.
  refine (eq_ind _ (fun v => Q v st) (HQ ds Hds) _ _). change (Z.of_nat 0 - 0) with 0.
  destruct b; cbn [zbool Z.eqb negb sval].
  - rewrite (proj2 (Z.ltb_lt _ _)) by lia. rewrite !rev_app_distr, rev_involutive. done.
  - rewrite (proj2 (Z.ltb_ge _ _)) by lia. by rewrite rev_app_distr, rev_involutive.
Qed.

(** *** Printing then parsing *)

Lemma char_value_digit bc d : bc = 97 \/ bc = 65 -> 0 <= d < 36 -> char_value (digit_char bc d) = Some d.
Proof.
  intros Hbc Hd. unfold digit_char.
  destruct (d + 48 >? 57) eqn:E; to_prop; rewrite uwrap_small by lia; unfold char_value;
    repeat match goal with |- context [if ?b then _ else _] => let H := fresh in destruct b eqn:H; to_prop end;
    f_equal; lia.
Qed.

Lemma radix_val_app base ds d : radix_val base (ds ++ [d]) =
  radix_val base ds + base ^ Z.of_nat (length ds) * d.
Proof.
  induction ds as [|x ds IH]; cbn [radix_val foldr app length].
  - change (base ^ Z.of_nat 0) with 1. lia.
  - fold (radix_val base (ds ++ [d])) (radix_val base ds). rewrite IH, Nat2Z.inj_succ, Z.pow_succ_r by lia. ring.
Qed.

(** Parsing the characters of a numeral from the most significant one on. *)
Lemma str_value_digits base bc ds : bc = 97 \/ bc = 65 -> 2 <= base <= 36 ->
  Forall (fun d => 0 <= d < base) ds -> forall acc,
  str_value base acc (rev (map (digit_char bc) ds)) =
    (acc * base ^ Z.of_nat (length ds) + radix_val base ds, Z.of_nat (length ds)).
Proof.
  intros Hbc Hb. induction ds as [|d ds IH] using rev_ind; intros HF acc.
  - cbn. f_equal. lia.
  - apply Forall_app in HF as [HF Hd]. apply Forall_cons_1 in Hd as [Hd _].
    rewrite map_app, rev_app_distr. cbn [map rev app str_value].
    rewrite char_value_digit by (done || lia). rewrite Z.geb_leb, (proj2 (Z.leb_gt base d)) by lia.
    rewrite IH by done. rewrite radix_val_app, length_app. cbn [length].
    rewrite Nat2Z.inj_add, Z.pow_add_r by lia. change (base ^ Z.of_nat 1) with (base ^ 1).
    rewrite Z.pow_1_r. f_equal. ring.
Qed.

Lemma group_no_comma k cnt cs : group k 0 cnt cs = cs.
Proof.
  revert cnt. induction cs as [|c cs IH]; intros cnt; [done|]. cbn [group Z.eqb negb andb].
  destruct cs; [done|]. by rewrite IH.
Qed.

(** ** Bytes *)

(** The value of bytes, the least significant one first. *)
Definition bytes_val (l : list Z) : Z := radix_val 256 l.

(** The bytes in the order in which [mpz_set_from_bytes] reads them. *)
Definition reading_order (big_endian : bool) (buf : list Z) : list Z :=
  if big_endian then rev buf else buf.

Lemma byte_at_order st big_endian buf k b (Q : Z -> mpz_store -> Prop) :
  reading_order big_endian buf !! k = Some b -> Q b st ->
  wp (byte_at buf (if big_endian then Z.of_nat (length buf) - 1 - Z.of_nat k else Z.of_nat k)) st Q.
Proof.
  intros Hk HQ. pose proof (lookup_lt_Some _ _ _ Hk) as Hlt. unfold wp, byte_at.
  assert (length (reading_order big_endian buf) = length buf) as Hl.
  { destruct big_endian; [apply length_rev|done]. }
  destruct big_endian; cbn [reading_order] in *.
  - rewrite Hl in Hlt. rewrite (proj2 (Z.leb_le 0 _)) by lia.
    rewrite rev_alt in Hk. change (rev_append buf []) with (reverse buf) in Hk. rewrite reverse_lookup in Hk by lia.
    replace (Z.to_nat (Z.of_nat (length buf) - 1 - Z.of_nat k)) with (length buf - S k)%nat by lia.
    by rewrite Hk.
  - rewrite (proj2 (Z.leb_le 0 _)), Nat2Z.id, Hk by lia. done.
Qed.

(** The digits that pairs of bytes make. *)
Fixpoint pair_digits (l : list Z) : list Z :=
  match l with
  | [] => []
  | [a] => [a]
  | a :: b :: l => (a + 256 * b) :: pair_digits l
  end.

Lemma pair_digits_spec n : forall l, (length l <= n)%nat -> Forall is_byte l ->
  Forall is_dig (pair_digits l) /\ dval (pair_digits l) = bytes_val l /\
  Z.of_nat (length (pair_digits l)) = (Z.of_nat (length l) + 1) / 2.
Proof.
  induction n as [|n IH]; intros l Hl HF.
  - destruct l; [|cbn in Hl; lia]. done.
  - destruct HF as [|a l Ha HF]; [done|]. destruct HF as [|b l Hb HF].
    + cbn. unfold is_byte in Ha. split; [apply Forall_singleton; unfold is_dig; lia|]. split; [lia|done].
    + cbn [length] in Hl. destruct (IH l ltac:(lia) HF) as (HD & Hv & Hlen). unfold is_byte in *.
      cbn [pair_digits length]. split; [constructor; [unfold is_dig; lia|done]|]. split.
      * rewrite dval_cons, Hv. unfold bytes_val. cbn [radix_val foldr]. fold (radix_val 256 l). lia.
      * rewrite Nat2Z.inj_succ, Hlen. replace (Z.of_nat (S (S (length l))) + 1) with (Z.of_nat (length l) + 1 + 1 * 2) by lia.
        rewrite Z.div_add by lia. lia.
Qed.

Lemma pair_digits_app n : forall l1 l2, (length l1 <= n)%nat -> Nat.Even (length l1) ->
  pair_digits (l1 ++ l2) = pair_digits l1 ++ pair_digits l2.
Proof.
  induction n as [|n IH]; intros l1 l2 Hl He.
  - destruct l1; [done|cbn in Hl; lia].
  - destruct l1 as [|a [|b l1]]; [done| |].
    + destruct He as [m Hm]. cbn in Hm. lia.
    + cbn [app pair_digits length] in *. rewrite IH; [done|lia|].
      destruct He as [m Hm]. exists (m - 1)%nat. lia.
Qed.

(** Two bytes make a digit. *)
Lemma u16_bytes a b : is_byte a -> is_byte b ->
  u16 (Z.lor 0 (Z.shiftl a 0)) = a /\ u16 (Z.lor a (Z.shiftl b 8)) = a + 256 * b.
Proof.
  unfold is_byte. intros Ha Hb. rewrite Z.lor_0_l, Z.shiftl_0_r, u16_small by lia.
  rewrite shiftl_mul, Z.lor_comm by lia. rewrite (lor_add_disjoint 8) by lia.
  rewrite u16_small by lia. split; lia.
Qed.

Definition pos (big_endian : bool) (total : Z) (k : nat) : Z :=
  if big_endian then total - 1 - Z.of_nat k else Z.of_nat k.

Lemma pos_S big_endian total k :
  pos big_endian total k + (if big_endian then -1 else 1) = pos big_endian total (S k).
Proof. unfold pos. destruct big_endian; lia. Qed.

(** The inner loop reads one digit. *)
Lemma wp_read_digit st big_endian buf dn a rest (fuel : nat)
    (Q : Z * Z * Z * Z -> mpz_store -> Prop) :
  reading_order big_endian buf = dn ++ a :: rest -> Forall is_byte (a :: rest) ->
  (1 < fuel)%nat -> (rest <> [] -> (2 < fuel)%nat) ->
  (let n := length (take 1 rest) in
   Q (Z.of_nat (length rest - n), pos big_endian (Z.of_nat (length buf)) (length dn + 1 + n),
      8 + 8 * Z.of_nat n, dval (pair_digits (a :: take 1 rest))) st) ->
  wp (for_ fuel
       (fun '(len, p, num_bits, d) => negb (len =? 0) && (num_bits <? DIG_SIZE))
       (fun '(len, p, num_bits, d) =>
          b ← byte_at buf p;
          mret (len - 1, p + (if big_endian then -1 else 1), num_bits + 8, u16 (Z.lor d (Z.shiftl b num_bits))))
       (Z.of_nat (length (a :: rest)), pos big_endian (Z.of_nat (length buf)) (length dn), 0, 0)) st Q.
Proof.
  intros Hseq HF Hf1 Hf2 HQ. destruct fuel as [|[|fuel]]; [lia..|].
  pose proof (Forall_inv HF) as Ha. pose proof (Forall_inv_tail HF) as HFr.
  assert (reading_order big_endian buf !! length dn = Some a) as Hla by (rewrite Hseq; by apply list_lookup_middle).
  apply wp_for_step; [cbn [length]; apply andb_true_iff; split; [apply negb_true_iff, Z.eqb_neq; lia|done]|].
  apply wp_bind, (byte_at_order _ _ _ _ _ _ Hla), wp_ret. rewrite pos_S.
  replace (Z.of_nat (length (a :: rest)) - 1) with (Z.of_nat (length rest)) by (cbn; lia).
  destruct rest as [|b rest].
  - destruct (u16_bytes a 0 Ha ltac:(unfold is_byte; lia)) as [-> _].
    apply wp_for_end; [done|]. cbn in HQ.
    rewrite Nat.add_0_r, Nat.add_1_r in HQ. replace (a + 65536 * 0) with a in HQ by lia. exact HQ.
  - pose proof (Forall_inv HFr) as Hb. destruct (u16_bytes a b Ha Hb) as [-> Hab].
    assert (reading_order big_endian buf !! S (length dn) = Some b) as Hlb.
    { rewrite Hseq. replace (dn ++ a :: b :: rest) with ((dn ++ [a]) ++ b :: rest) by by norm_app.
      rewrite list_lookup_middle; [done|rewrite length_app; cbn; lia]. }
    destruct fuel as [|fuel]; [specialize (Hf2 ltac:(done)); lia|].
    apply wp_for_step; [cbn [length]; apply andb_true_iff; split; [apply negb_true_iff, Z.eqb_neq; lia|done]|].
    apply wp_bind, (byte_at_order _ _ _ _ _ _ Hlb), wp_ret. rewrite pos_S.
    change (0 + 8) with 8. rewrite Hab. apply wp_for_end; [cbn; by rewrite andb_false_r|].
    cbn [firstn length pair_digits] in HQ. rewrite take_0 in HQ. cbn [length pair_digits] in HQ.
    rewrite dval_cons in HQ. change (dval []) with 0 in HQ.
    replace (Z.of_nat (length (b :: rest)) - 1) with (Z.of_nat (length rest)) by (cbn; lia).
    replace (S (length rest) - 1)%nat with (length rest) in HQ by lia.
    replace (length dn + 1 + 1)%nat with (S (S (length dn))) in HQ by lia.
    replace (a + 256 * b + 65536 * 0) with (a + 256 * b) in HQ by lia. exact HQ.
Qed.

Lemma wp_mpz_set_from_bytes st z big_endian buf (Q : unit -> mpz_store -> Prop) :
  wf st -> owns st z -> Forall is_byte buf -> Z.of_nat (length buf) < 2 ^ 28 ->
  (forall st', updated st st' z (bytes_val (reading_order big_endian buf)) -> Q tt st') ->
  wp (mpz_set_from_bytes z big_endian buf) st Q.
Proof.
  intros Hwf Ho HF Hlen HQ. set (seq := reading_order big_endian buf) in *.
  assert (length seq = length buf) as Hls by (unfold seq; destruct big_endian; [apply length_rev|done]).
  assert (Forall is_byte seq) as HFs by (unfold seq; destruct big_endian; [by apply Forall_rev|done]).
  destruct (pair_digits_spec _ seq (Nat.le_refl _) HFs) as (HD & Hv & HlD). rewrite Hls in HlD.
  unfold mpz_set_from_bytes. set (need := u32 _ / DIG_SIZE).
  assert (need = Z.of_nat (length (pair_digits seq))) as Hneed.
  { unfold need, DIG_SIZE. rewrite (u32_small (_ * 8)), u32_small by lia. rewrite HlD.
    replace (Z.of_nat (length buf) * 8 + 16 - 1) with (7 + (Z.of_nat (length buf) + 1) * 8) by lia.
    rewrite <-(Z.div_div _ 8 2) by lia. change (8 * 2) with 16. by rewrite Z.div_add by lia. }
  assert ((if big_endian then (Z.of_nat (length buf) - 1, -1) else (0, 1)) =
    (pos big_endian (Z.of_nat (length buf)) 0, if big_endian then -1 else 1)) as ->.
  { unfold pos. destruct big_endian; f_equal; lia. }
  assert (Z.of_nat (length (pair_digits seq)) < MAX_DIG) as Hsmall.
  { rewrite HlD. unfold MAX_DIG. apply Z.div_lt_upper_bound; lia. }
  apply wp_bind, wp_mpz_need_dig; [done|done|lia|]. intros st1 Hg.
  pose proof Hg as (Hwf1 & Ho1 & Hroom & _). pose proof Ho1 as (h & lh & Hh & Hlh & _).
  apply (room_mono _ _ _ (length (pair_digits seq))) in Hroom; [|lia].
  apply wp_bind, (wp_set_neg_hdr _ _ h); [done|].
  apply wp_bind. eapply wp_set_len_hdr; [st_simpl; by rewrite lookup_insert_eq|]. st_simpl.
  rewrite insert_insert_eq. change (MkStore _ _ _) with (with_digits st1 z h false (digs st1) []).
  apply wp_bind.
  apply (wp_for (fun '(n, p, nb) st' => exists done rest, seq = done ++ rest /\
      n = Z.of_nat (length rest) /\ p = pos big_endian (Z.of_nat (length buf)) (length done) /\
      st' = with_digits st1 z h false (blit (digs st1) z (pair_digits done)) (pair_digits done) /\
      (rest <> [] -> Nat.Even (length done) /\ nb = 0))
      (fun '(n, _, _) => Z.to_nat n)).
  - exists [], seq. rewrite blit_nil, Hls. repeat split; try done. by exists 0%nat.
  - lia.
  - intros [[n p] nb] st' (dn & rest & Hseq & -> & -> & -> & He) Hgt. to_prop.
    destruct rest as [|a rest]; [done|]. destruct (He ltac:(done)) as [Heven ->]. clear He.
    assert (Forall is_byte (a :: rest)) as HFr by (rewrite Hseq in HFs; by apply Forall_app in HFs as [_ ?]).
    assert (length buf = length dn + S (length rest))%nat as Hlb.
    { rewrite <-Hls, Hseq, length_app. done. }
    apply wp_bind, (wp_read_digit _ _ _ dn a rest); [done|done|lia|intros Hr; destruct rest; [done|cbn in Hlb; lia]|].
    set (n1 := length (take 1 rest)).
    assert (pair_digits (dn ++ a :: take 1 rest) = pair_digits dn ++ pair_digits (a :: take 1 rest)) as Hpd.
    { by eapply pair_digits_app. }
    assert (exists d, pair_digits (a :: take 1 rest) = [d] /\ is_dig d) as (d & Hd & Dd).
    { destruct (pair_digits_spec _ (a :: take 1 rest) (Nat.le_refl _)) as (HDd & _).
      - constructor; [by eapply Forall_inv|by apply Forall_take, (Forall_inv_tail HFr)].
      - destruct rest; cbn in *; eexists; (split; [done|]); by eapply Forall_inv. }
    cbv zeta. rewrite Hd in Hpd |- *. rewrite dval_cons. change (dval []) with 0. rewrite Z.mul_0_r, Z.add_0_r.
    apply wp_bind, wp_get_len_digits. rewrite dig_mask, (Z.mod_small _ _ Dd).
    assert (seq = (dn ++ a :: take 1 rest) ++ drop 1 rest) as Hseq2.
    { rewrite Hseq, <-app_assoc. cbn [app]. by rewrite take_drop. }
    assert (length (pair_digits dn) < length (pair_digits seq))%nat as Hlt.
    { rewrite Hseq. rewrite (pair_digits_app _ _ _ (Nat.le_refl _)), length_app by done.
      destruct rest; cbn; lia. }
    apply wp_bind, wp_mpn. cbn [digs with_digits]. apply (wp_store_blit _ _ _ (length (pair_digits seq))); [done|lia|].
    apply wp_bind.
    assert (Z.of_nat (length (pair_digits dn)) + 1 = Z.of_nat (length (pair_digits dn ++ [d]))) as ->.
    { rewrite length_app. cbn. lia. }
    apply wp_set_len_digits, wp_ret. split; [|cbn [length]; lia].
    exists (dn ++ a :: take 1 rest), (drop 1 rest). split; [done|].
    assert (length (drop 1 rest) = length rest - n1)%nat as -> by (unfold n1; rewrite length_drop, length_take; lia).
    split; [done|]. split.
    { rewrite length_app. cbn [length]. f_equal. fold n1. lia. }
    split; [by rewrite Hpd|]. intros Hr. destruct rest as [|b rest]; [done|]. subst n1.
    change (take 1 (b :: rest)) with (b :: take 0 rest). rewrite take_0. split; [|done].
    rewrite length_app. cbn [length]. destruct Heven as [m Hm]. exists (S m). lia.
  - intros [[n p] nb] st' (dn & rest & Hseq & -> & -> & -> & He) Hend. to_prop.
    destruct rest; [|cbn in Hend; lia]. rewrite app_nil_r in Hseq. subst dn.
    destruct Hroom as (lr & Hlr & Hrl). assert (lr = lh) as -> by congruence.
    apply wp_bind, wp_get_len_digits. apply wp_bind, wp_mpn. cbn [digs with_digits].
    apply wp_mpn_remove_trailing_zeros; [by eapply holds_blit|]. intros res zs Hrz Hz Hn.
    apply (wp_set_len_digits _ _ _ _ _ _ _ res). apply HQ. eapply (grown_updated _ st1); [done|].
    assert (bytes_val seq = sval false (dval res)) as ->.
    { rewrite <-Hv, Hrz, dval_app, Hz. cbn. lia. }
    apply (updated_intro st1 z h (blit (digs st1) z (pair_digits seq)) false res); try done.
    + rewrite Hrz. apply (wrote_blit _ _ lh res zs); [done|]. rewrite <-length_app, <-Hrz. done.
    + rewrite Hrz in HD. by apply Forall_app in HD as [? _].
Qed.

End Conv.
