(* ===== verification/MpzProps.v ===== *)
(** * Properties of the arbitrary-precision integers

    The in-place operations return, give [dest] the value the operation is named
    after and change nothing else; the hypotheses on the numbers [dest], [lhs], ...
    are the aliasings each operation supports. *)
From S2P Require Import Prelude.
From S2P Require Import CMem.
From S2P Require Import Mpn.
From S2P Require Import Digits.
From S2P Require Import MpnArith.
From S2P Require Import MpnShift.
From S2P Require Import MpnBits.
From S2P Require Import MpnDiv.
From S2P Require Import Mpz.
From S2P Require Import MpzSpec.
From S2P Require Import MpzArith.
From S2P Require Import MpzBits.
From S2P Require Import MpzMul.
From S2P Require Import MpzPow.
From S2P Require Import MpzConv.
From S2P Require Import MpzConvFacts.
Local Open Scope Z_scope.

(** From the program logic to runs. *)
Lemma run_updated (c : Mz unit) st (P : mpz_store -> Prop) :
  (forall Q : unit -> mpz_store -> Prop, (forall st', P st' -> Q tt st') -> wp c st Q) ->
  exists st', c st = Some (tt, st') /\ P st'.
Proof.
  intros H. destruct (proj1 (wp_run _ _ _) (H (fun _ st' => P st') (fun _ Hp => Hp))) as ([] & st' & ? & ?).
  eauto.
Qed.

(** A store for the examples: 70000, -5, 3 and a structure without digits. *)
Definition ex_heap : Heap := fun _ _ i => 43981 + Z.of_nat i.

Definition ex : mpz_store :=
  MkStore {[0%nat := [4464; 1]; 1%nat := [5; 43981]; 2%nat := [3; 0; 0]; 3%nat := []]}
    {[0%nat := MkMpz 0 0 2 2; 1%nat := MkMpz 1 0 2 1; 2%nat := MkMpz 0 0 3 1; 3%nat := MkMpz 0 0 0 0]} 4.

Lemma ex_wf : wf ex.
Proof. intros z Hz. cbn in Hz |- *. by rewrite !lookup_insert_ne, !lookup_singleton_ne by lia. Qed.

Lemma ex_owns z : (z < 4)%nat -> owns ex z.
Proof.
  intros Hz. destruct z as [|[|[|[|z]]]]; [..|lia]; eexists _, _; (split; [reflexivity|]);
    (split; [reflexivity|]); (split; [by split; vm_compute|done]).
Qed.

Lemma ex_repr z b l : (exists h rest, hdr ex !! z = Some h /\ digs ex !! z = Some (l ++ rest) /\
    alloc h = Z.of_nat (length (l ++ rest)) /\ len h = Z.of_nat (length l) /\ neg h = zbool b /\
    alloc h < 4) ->
  forallb (fun d => (0 <=? d) && (d <? 65536)) l = true -> normal l -> (b = true -> l <> []) ->
  repr ex z (sval b (dval l)).
Proof.
  intros (h & rest & H1 & H2 & H3 & H4 & H5 & H6) Hf Hn Hb. exists b, l. split; [|done].
  exists h, rest. repeat split; try done.
  - unfold MAX_DIG. lia.
  - apply Forall_forall. intros d Hd. rewrite forallb_forall in Hf.
    specialize (Hf d (proj1 (list_elem_of_In _ _) Hd)). to_prop. unfold is_dig. lia.
Qed.

Lemma ex_0 : repr ex 0 70000.
Proof. apply (ex_repr 0 false [4464; 1]); [|done..]. by eexists _, []. Qed.

Lemma ex_1 : repr ex 1 (-5).
Proof. apply (ex_repr 1 true [5]); [|done..]. by eexists _, [43981]. Qed.

Lemma ex_2 : repr ex 2 3.
Proof. apply (ex_repr 2 false [3]); [|done..]. by eexists _, [0; 0]. Qed.

(** C1: [mpz_divmod_inpl] computes the floor quotient and remainder (Python's
    [divmod]) of any two numbers with a non-zero divisor, whatever their sizes and
    signs, and changes only its two result structures.  The remainder may be the
    dividend itself, except that the quotient of a negative dividend is only right
    when it is not. *)
Theorem mpz_divmod_inpl_correct (heap : Heap) st q r lhs rhs v w :
  wf st -> owns st q -> owns st r -> repr st lhs v -> repr st rhs w -> w <> 0 ->
  q <> r -> q <> lhs -> q <> rhs -> r <> rhs ->
  ndigs v + 1 < MAX_DIG -> ndigs w + 1 < MAX_DIG ->
  exists st' x, mpz_divmod_inpl q r lhs rhs st = Some (tt, st') /\
    updated2 st st' q r x (v `mod` w) /\ (r <> lhs \/ 0 <= v -> x = v / w).
Proof.
  intros. destruct (run_updated (mpz_divmod_inpl q r lhs rhs) st (fun st' => exists x,
    updated2 st st' q r x (v `mod` w) /\ (r <> lhs \/ 0 <= v -> x = v / w))) as (st' & Hrun & x & H'); [|eauto].
  intros Q HQ. apply (wp_mpz_divmod_inpl _ _ _ _ _ v w); try done. intros st' x Hu Hx. apply HQ. eauto.
Qed.

Theorem mpz_divmod_inpl_witness : exists st' x,
  mpz_divmod_inpl (heap := ex_heap) 2 3 0 1 ex = Some (tt, st') /\
  updated2 ex st' 2 3 x (70000 `mod` (-5)) /\ x = -14000.
Proof.
  destruct (mpz_divmod_inpl_correct ex_heap ex 2 3 0 1 70000 (-5)) as (st' & x & Hr & Hu & Hx);
    [apply ex_wf|apply ex_owns; lia|apply ex_owns; lia|apply ex_0|apply ex_1|done..|].
  exists st', x. split; [exact Hr|]. split; [exact Hu|]. apply Hx. by left.
Defined.

(** The side conditions at the example store. *)
Ltac ex_side :=
  first [apply ex_wf | apply ex_0 | apply ex_1 | apply ex_2 | (apply ex_owns; lia) | done | lia].

(** C28: [mpz_mul_inpl] multiplies, also when [dest] is one or both of the operands. *)
Theorem mpz_mul_inpl_correct (heap : Heap) st dest lhs rhs v w :
  wf st -> owns st dest -> repr st lhs v -> repr st rhs w -> ndigs v + ndigs w < MAX_DIG ->
  exists st', mpz_mul_inpl dest lhs rhs st = Some (tt, st') /\ updated st st' dest (v * w).
Proof. intros. apply run_updated. intros Q HQ. by apply (wp_mpz_mul_inpl _ _ _ _ v w). Qed.

Theorem mpz_mul_inpl_witness : exists st',
  mpz_mul_inpl (heap := ex_heap) 1 1 1 ex = Some (tt, st') /\ updated ex st' 1 25.
Proof. apply (mpz_mul_inpl_correct ex_heap ex 1 1 1 (-5) (-5)); ex_side. Defined.

(** [mpz_pow_inpl] raises to a power by squaring: every base and exponent,
    a negative exponent or a zero base giving zero. *)
Theorem mpz_pow_inpl_correct (heap : Heap) st dest lhs rhs a e :
  wf st -> owns st dest -> repr st lhs a -> repr st rhs e -> e * ndigs a + 1 < MAX_DIG ->
  exists st', mpz_pow_inpl dest lhs rhs st = Some (tt, st') /\
    updated st st' dest (if a =? 0 then 0 else a ^ e).
Proof. intros. apply run_updated. intros Q HQ. by apply (wp_mpz_pow_inpl _ _ _ _ a e). Qed.

Theorem mpz_pow_inpl_witness : exists st',
  mpz_pow_inpl (heap := ex_heap) 0 1 2 ex = Some (tt, st') /\ updated ex st' 0 (-125).
Proof. apply (mpz_pow_inpl_correct ex_heap ex 0 1 2 (-5) 3); ex_side. Defined.

(** C27: [mpz_pow3_inpl] computes the power modulo [mod], with the sign of Python's
    modulo, for every positive exponent, provided [dest] is none of the operands;
    [pow3_value] says what it computes otherwise. *)
Theorem mpz_pow3_inpl_correct (heap : Heap) st dest lhs rhs mod_ a e m :
  wf st -> owns st dest -> repr st lhs a -> repr st rhs e -> repr st mod_ m -> m <> 0 ->
  dest <> lhs -> dest <> rhs -> dest <> mod_ ->
  2 * Z.max (ndigs a) (ndigs m) + 1 < MAX_DIG ->
  exists st', mpz_pow3_inpl dest lhs rhs mod_ st = Some (tt, st') /\
    updated st st' dest (pow3_value a e m) /\ (0 < e -> pow3_value a e m = a ^ e `mod` m).
Proof.
  intros ??????????. destruct (run_updated (mpz_pow3_inpl dest lhs rhs mod_) st
    (fun st' => updated st st' dest (pow3_value a e m))) as (st' & Hr & Hu).
  - intros Q HQ. by apply (wp_mpz_pow3_inpl _ _ _ _ _ a e m).
  - exists st'. split; [done|]. split; [done|]. intros He. by apply pow3_value_pos.
Qed.

Theorem mpz_pow3_inpl_witness : exists st',
  mpz_pow3_inpl (heap := ex_heap) 3 0 2 1 ex = Some (tt, st') /\
  updated ex st' 3 (pow3_value 70000 3 (-5)) /\
  (0 < 3 -> pow3_value 70000 3 (-5) = 70000 ^ 3 `mod` (-5)).
Proof. apply (mpz_pow3_inpl_correct ex_heap ex 3 0 2 1 70000 3 (-5)); ex_side. Defined.

(** Shifting a negative number right in place, which the comment of
    [mpz_shr_inpl] allows, can round wrongly: -6 shifted by one bit gives -4. *)
Theorem mpz_shr_inpl_alias_rounds_wrongly : exists st v st' v',
  repr st 0 v /\ mpz_shr_inpl (heap := ex_heap) 0 0 1 st = Some (tt, st') /\
  repr st' 0 v' /\ v' <> v / 2 ^ 1.
Proof.
  exists (MkStore {[0%nat := [6; 0]]} {[0%nat := MkMpz 1 0 2 1]} 1), (-6).
  eexists (MkStore {[0%nat := [4; 0]]} {[0%nat := MkMpz 1 0 2 1]} 2), (-4).
  split; [|split; [|split; [|done]]].
  - exists true, [6]. split; [|done]. eexists _, [0].
    split; [reflexivity|]. repeat split; try done. apply Forall_singleton. unfold is_dig. lia.
  - vm_compute. reflexivity.
  - exists true, [4]. split; [|done]. eexists _, [0].
    split; [reflexivity|]. repeat split; try done. apply Forall_singleton. unfold is_dig. lia.
Qed.

(** C39: shifting left multiplies by a power of two, for every count that does not
    wrap the computation of the number of digits; shifting right rounds to minus
    infinity, where a negative number may not be shifted in place. *)
Theorem mpz_shift_correct (heap : Heap) st dest lhs v n :
  wf st -> owns st dest -> repr st lhs v -> 0 <= n < 2 ^ 32 - 15 -> ndigs v + (n + 15) / 16 < MAX_DIG ->
  (exists st', mpz_shl_inpl dest lhs n st = Some (tt, st') /\ updated st st' dest (v * 2 ^ n)) /\
  ((dest = lhs -> 0 <= v) -> exists st', mpz_shr_inpl dest lhs n st = Some (tt, st') /\ updated st st' dest (v / 2 ^ n)).
Proof.
  intros. split; [|intros]; apply run_updated; intros Q HQ.
  - by apply (wp_mpz_shl_inpl _ _ _ v n).
  - apply (wp_mpz_shr_inpl _ _ _ v n); try done. lia.
Qed.

Theorem mpz_shift_witness :
  (exists st', mpz_shl_inpl (heap := ex_heap) 1 1 33 ex = Some (tt, st') /\ updated ex st' 1 (-5 * 2 ^ 33)) /\
  ((1%nat = 1%nat -> 0 <= -5) -> exists st', mpz_shr_inpl (heap := ex_heap) 1 1 33 ex = Some (tt, st') /\ updated ex st' 1 (-5 / 2 ^ 33)).
Proof. apply (mpz_shift_correct ex_heap ex 1 1 (-5) 33); ex_side. Defined.

(** Comparison is the order of the integers, and addition, subtraction,
    absolute value, negation and complement are those of the integers, for all
    signs and any aliasing. *)
Theorem mpz_arith_correct (heap : Heap) st dest z y v w :
  wf st -> owns st dest -> repr st z v -> repr st y w -> ndigs v + 1 < MAX_DIG -> ndigs w + 1 < MAX_DIG ->
  mpz_cmp z y st = Some (Z.sgn (v - w), st) /\
  (exists st', mpz_add_inpl dest z y st = Some (tt, st') /\ updated st st' dest (v + w)) /\
  (exists st', mpz_sub_inpl dest z y st = Some (tt, st') /\ updated st st' dest (v - w)) /\
  (exists st', mpz_abs_inpl dest z st = Some (tt, st') /\ updated st st' dest (Z.abs v)) /\
  (exists st', mpz_neg_inpl dest z st = Some (tt, st') /\ updated st st' dest (- v)) /\
  (exists st', mpz_not_inpl dest z st = Some (tt, st') /\ updated st st' dest (Z.lnot v)).
Proof.
  intros. split.
  { destruct (run_value (mpz_cmp z y) st (fun a s => a = Z.sgn (v - w) /\ s = st)) as (? & ? & ? & -> & ->); [|done].
    by apply (wp_mpz_cmp _ _ _ v w). }
  split; [|split; [|split; [|split]]]; apply run_updated; intros Q HQ.
  - by apply (wp_mpz_add_inpl _ _ _ _ v w).
  - by apply (wp_mpz_sub_inpl _ _ _ _ v w).
  - by apply (wp_mpz_abs_inpl _ _ _ v).
  - by apply (wp_mpz_neg_inpl _ _ _ v).
  - replace (Z.lnot v) with (- v - 1) in HQ by (unfold Z.lnot; lia). by apply (wp_mpz_not_inpl _ _ _ v).
Qed.

Theorem mpz_arith_witness :
  mpz_cmp 1 0 ex = Some (Z.sgn (-5 - 70000), ex) /\
  (exists st', mpz_add_inpl (heap := ex_heap) 1 1 0 ex = Some (tt, st') /\ updated ex st' 1 (-5 + 70000)) /\
  (exists st', mpz_sub_inpl (heap := ex_heap) 1 1 0 ex = Some (tt, st') /\ updated ex st' 1 (-5 - 70000)) /\
  (exists st', mpz_abs_inpl (heap := ex_heap) 1 1 ex = Some (tt, st') /\ updated ex st' 1 (Z.abs (-5))) /\
  (exists st', mpz_neg_inpl (heap := ex_heap) 1 1 ex = Some (tt, st') /\ updated ex st' 1 (- (-5))) /\
  (exists st', mpz_not_inpl (heap := ex_heap) 1 1 ex = Some (tt, st') /\ updated ex st' 1 (Z.lnot (-5))).
Proof. apply (mpz_arith_correct ex_heap ex 1 1 0 (-5) 70000); ex_side. Defined.

(** C38: The bitwise operations (and, or, exclusive or, complement) compute those
    of two's complement numbers of unbounded width, for all signs and any
    aliasing; no other number of the store changes. *)
Theorem mpz_bitwise_correct (heap : Heap) st dest lhs rhs v w :
  wf st -> owns st dest -> repr st lhs v -> repr st rhs w ->
  Z.max (ndigs v) (ndigs w) + 1 < MAX_DIG ->
  (exists st', mpz_and_inpl dest lhs rhs st = Some (tt, st') /\ updated st st' dest (Z.land v w)) /\
  (exists st', mpz_or_inpl dest lhs rhs st = Some (tt, st') /\ updated st st' dest (Z.lor v w)) /\
  (exists st', mpz_xor_inpl dest lhs rhs st = Some (tt, st') /\ updated st st' dest (Z.lxor v w)) /\
  (exists st', mpz_not_inpl dest lhs st = Some (tt, st') /\ updated st st' dest (Z.lnot v)).
Proof.
  intros. split; [|split; [|split]]; apply run_updated; intros Q HQ.
  - by apply (wp_mpz_and_inpl _ _ _ _ v w).
  - by apply (wp_mpz_or_inpl _ _ _ _ v w).
  - by apply (wp_mpz_xor_inpl _ _ _ _ v w).
  - replace (Z.lnot v) with (- v - 1) in HQ by (unfold Z.lnot; lia). apply (wp_mpz_not_inpl _ _ _ v); (done || lia).
Qed.

Theorem mpz_bitwise_witness :
  (exists st', mpz_and_inpl (heap := ex_heap) 0 0 1 ex = Some (tt, st') /\ updated ex st' 0 (Z.land 70000 (-5))) /\
  (exists st', mpz_or_inpl (heap := ex_heap) 0 0 1 ex = Some (tt, st') /\ updated ex st' 0 (Z.lor 70000 (-5))) /\
  (exists st', mpz_xor_inpl (heap := ex_heap) 0 0 1 ex = Some (tt, st') /\ updated ex st' 0 (Z.lxor 70000 (-5))) /\
  (exists st', mpz_not_inpl (heap := ex_heap) 0 0 ex = Some (tt, st') /\ updated ex st' 0 (Z.lnot 70000)).
Proof. apply (mpz_bitwise_correct ex_heap ex 0 0 1 70000 (-5)); ex_side. Defined.

(** [mpz_as_str_inpl] writes the sign, the prefix and the numeral of the
    absolute value in the base, without leading zeros, with a comma after every
    third (base 10) or fourth digit from the right. *)
Theorem mpz_as_str_inpl_correct (heap : Heap) st i v base prefix bc comma :
  repr st i v -> 2 <= base <= 32 ->
  exists ds, numeral base (Z.abs v) ds /\
    mpz_as_str_inpl i base prefix bc comma st =
      Some (if v =? 0 then prefix ++ [48]
            else (if v <? 0 then [45] else []) ++ prefix ++
                 rev (group (if base =? 10 then 3 else 4) comma 0 (map (digit_char bc) ds)), st).
Proof.
  intros Hr Hb. destruct (run_value (mpz_as_str_inpl i base prefix bc comma) st (fun s st' => st' = st /\
    exists ds, numeral base (Z.abs v) ds /\ s = (if v =? 0 then prefix ++ [48]
            else (if v <? 0 then [45] else []) ++ prefix ++
                 rev (group (if base =? 10 then 3 else 4) comma 0 (map (digit_char bc) ds)))))
    as (s & st' & Hrun & -> & ds & Hds & ->).
  - apply (wp_mpz_as_str_inpl _ _ v); [done|done|]. intros ds Hds. split; [done|]. by exists ds.
  - by exists ds.
Qed.

Theorem mpz_as_str_inpl_witness : exists ds, numeral 10 (Z.abs 70000) ds /\
  mpz_as_str_inpl 0 10 [] 97 44 ex =
    Some (if 70000 =? 0 then [] ++ [48]
          else (if 70000 <? 0 then [45] else []) ++ [] ++
               rev (group (if 10 =? 10 then 3 else 4) 44 0 (map (digit_char 97) ds)), ex).
Proof. apply (mpz_as_str_inpl_correct ex_heap ex 0 70000 10 [] 97 44); ex_side. Defined.

(** The length of a numeral. *)
Lemma numeral_length base n ds : 2 <= base -> numeral base n ds ->
  Z.of_nat (length ds) <= 16 * ndigs n + 1.
Proof.
  intros Hb (HF & Hv & Hne & Hlast). destruct ds as [|d ds _] using rev_ind; [done|]. clear Hne.
  rewrite radix_val_app in Hv. rewrite length_app. cbn [length].
  apply Forall_app in HF as [HF Hd]. apply Forall_cons_1 in Hd as [Hd _].
  assert (0 <= radix_val base ds) as Hr.
  { clear -Hb HF. induction HF as [|x l Hx _ IH]; [done|]. cbn [radix_val foldr]. fold (radix_val base l). nia. }
  pose proof (ndigs_nonneg n). destruct (Z.eq_dec d 0) as [->|Hd0].
  { rewrite last_snoc in Hlast. specialize (Hlast eq_refl). destruct ds as [|? [|]]; [cbn; lia|done..]. }
  assert (2 ^ Z.of_nat (length ds) <= base ^ Z.of_nat (length ds)) by (apply Z.pow_le_mono_l; lia).
  assert (2 ^ Z.of_nat (length ds) <= n) as Hle by nia.
  pose proof (ndigs_bound n) as Hn. rewrite bpow_pow2, Z2Nat.id in Hn by done.
  assert (2 ^ Z.of_nat (length ds) < 2 ^ (16 * ndigs n)) as Hlt by lia.
  apply Z.pow_lt_mono_r_iff in Hlt; lia.
Qed.

(** C34: printing a number and parsing the digits gives the number back. *)
Theorem mpz_str_roundtrip (heap : Heap) st i z v base bc :
  wf st -> repr st i v -> owns st z -> 2 <= base <= 32 -> bc = 97 \/ bc = 65 -> 16 * ndigs v < 2 ^ 28 ->
  exists s st', mpz_as_str_inpl i base [] bc 0 st = Some (s, st) /\
    let digits := if v <? 0 then tail s else s in
    mpz_set_from_str z digits (v <? 0) base st = Some (Z.of_nat (length digits), st') /\
    updated st st' z v.
Proof.
  intros Hwf Hr Ho Hb Hbc Hsz.
  destruct (run_value (mpz_as_str_inpl i base [] bc 0) st (fun s st' => st' = st /\
    exists ds, numeral base (Z.abs v) ds /\ s = (if v <? 0 then [45] else []) ++ rev (map (digit_char bc) ds)))
    as (s & st1 & Hrun & -> & ds & Hds & ->).
  { apply (wp_mpz_as_str_inpl _ _ v); [done|done|]. intros ds Hds. split; [done|].
    destruct (v =? 0) eqn:E; to_prop.
    - subst v. exists [0]. split; [|by destruct Hbc as [-> | ->]].
      split; [apply Forall_singleton; lia|]. split; [unfold radix_val; cbn [foldr]; nia|by split].
    - exists ds. by rewrite group_no_comma. }
  set (digits := rev (map (digit_char bc) ds)) in *.
  exists ((if v <? 0 then [45] else []) ++ digits). cbv zeta.
  assert ((if v <? 0 then tail ((if v <? 0 then [45] else []) ++ digits)
           else (if v <? 0 then [45] else []) ++ digits) = digits) as -> by by destruct (v <? 0).
  pose proof Hds as (HF & Hrad & _). pose proof (numeral_length base (Z.abs v) ds ltac:(lia) Hds) as Hlen.
  assert (ndigs (Z.abs v) = ndigs v) as Hna by (apply Z.le_antisymm; apply ndigs_mono; lia).
  assert (length digits = length ds) as Hld by (unfold digits; by rewrite length_rev, length_map).
  pose proof (str_value_digits base bc ds Hbc ltac:(lia) HF 0) as Hsv. fold digits in Hsv.
  rewrite Hrad, Z.mul_0_l, Z.add_0_l in Hsv.
  destruct (run_value (mpz_set_from_str z digits (v <? 0) base) st (fun n st' =>
    n = Z.of_nat (length digits) /\ updated st st' z v)) as (n & st' & Hrun2 & -> & Hu); [|by exists st'].
  apply wp_mpz_set_from_str; [done|done|lia|lia| |].
  - rewrite Hsv. cbn [fst]. intros Hneg. to_prop. lia.
  - intros st' Hu. rewrite Hsv in *. cbn [fst snd] in *. rewrite Hld. split; [done|].
    replace v with (sval (v <? 0) (Z.abs v)); [done|]. destruct (v <? 0) eqn:E; to_prop; cbn; lia.
Qed.

Theorem mpz_str_roundtrip_witness : exists s st',
  mpz_as_str_inpl 1 16 [] 97 0 ex = Some (s, ex) /\
  let digits := if -5 <? 0 then tail s else s in
  mpz_set_from_str (heap := ex_heap) 3 digits (-5 <? 0) 16 ex = Some (Z.of_nat (length digits), st') /\
  updated ex st' 3 (-5).
Proof. apply (mpz_str_roundtrip ex_heap ex 1 3 (-5) 16 97); first [by left | ex_side]. Defined.

(** [mpz_set_from_str] takes the longest prefix of digits of the base and
    reports its length; [neg] with a zero value is excluded. *)
Theorem mpz_set_from_str_correct (heap : Heap) st z str neg base :
  wf st -> owns st z -> 2 <= base <= 36 -> Z.of_nat (length str) < 2 ^ 29 ->
  (neg = true -> fst (str_value base 0 str) <> 0) ->
  exists st', mpz_set_from_str z str neg base st = Some (snd (str_value base 0 str), st') /\
    updated st st' z (sval neg (fst (str_value base 0 str))).
Proof.
  intros Hwf Ho Hb Hl Hn.
  destruct (run_value (mpz_set_from_str z str neg base) st (fun n st' => n = snd (str_value base 0 str) /\
    updated st st' z (sval neg (fst (str_value base 0 str))))) as (n & st' & Hr & -> & Hu); [|by exists st'].
  by apply wp_mpz_set_from_str.
Qed.

Theorem mpz_set_from_str_witness : exists st',
  mpz_set_from_str (heap := ex_heap) 1 [49; 50; 51; 46] true 10 ex = Some (3, st') /\ updated ex st' 1 (-123).
Proof.
  apply (mpz_set_from_str_correct ex_heap ex 1 [49; 50; 51; 46] true 10);
    first [ex_side | vm_compute; intros _; discriminate].
Defined.

(** [mpz_set_from_str] with [neg] and a zero numeral makes the negative zero
    that py/mpz.h forbids: it compares below zero. *)
Theorem mpz_set_from_str_negative_zero : exists st' h,
  mpz_set_from_str (heap := ex_heap) 2 [48] true 10 ex = Some (1, st') /\
  hdr st' !! 2%nat = Some h /\ neg h = 1 /\ len h = 0 /\ mpz_cmp 2 3 st' = Some (-1, st').
Proof. eexists _, _. split; [vm_compute; reflexivity|]. split; [vm_compute; reflexivity|]. by vm_compute. Qed.

(** C40: the conversions from and to machine data: [mpz_set_from_bytes] takes the
    unsigned value of the bytes, in the order asked for; the hash is the number
    modulo 2^32 as a signed word; the checked conversions succeed exactly on the
    numbers of magnitude below 2^31 (so not on -2^31) and on the unsigned words. *)
Theorem mpz_machine_correct (heap : Heap) st z v dest big_endian buf :
  wf st -> repr st z v -> owns st dest -> Forall is_byte buf -> Z.of_nat (length buf) < 2 ^ 28 ->
  (exists st', mpz_set_from_bytes dest big_endian buf st = Some (tt, st') /\
    updated st st' dest (bytes_val (if (big_endian : bool) then rev buf else buf))) /\
  mpz_hash z st = Some (s32 v, st) /\
  mpz_as_int_checked z st = Some (if Z.abs v <? 2 ^ 31 then Some v else None, st) /\
  mpz_as_uint_checked z st = Some (if (0 <=? v) && (v <? 2 ^ 32) then Some v else None, st).
Proof.
  intros Hwf Hr Ho Hb Hl. split; [|split; [|split]].
  - apply run_updated. intros Q HQ. by apply wp_mpz_set_from_bytes.
  - destruct (run_value (mpz_hash z) st (fun a s => a = s32 v /\ s = st)) as (? & ? & ? & -> & ->); [|done].
    by apply (wp_mpz_hash _ _ v).
  - destruct (run_value (mpz_as_int_checked z) st (fun a s => a = (if Z.abs v <? 2 ^ 31 then Some v else None) /\ s = st))
      as (? & ? & ? & -> & ->); [|done]. by apply (wp_mpz_as_int_checked _ _ v).
  - destruct (run_value (mpz_as_uint_checked z) st (fun a s => a = (if (0 <=? v) && (v <? 2 ^ 32) then Some v else None) /\ s = st))
      as (? & ? & ? & -> & ->); [|done]. by apply (wp_mpz_as_uint_checked _ _ v).
Qed.

Theorem mpz_machine_witness :
  (exists st', mpz_set_from_bytes (heap := ex_heap) 0 true [1; 2; 3] ex = Some (tt, st') /\ updated ex st' 0 66051) /\
  mpz_hash 1 ex = Some (-5, ex) /\ mpz_as_int_checked 1 ex = Some (Some (-5), ex) /\ mpz_as_uint_checked 1 ex = Some (None, ex).
Proof.
  apply (mpz_machine_correct ex_heap ex 1 (-5) 0 true [1; 2; 3]); try ex_side.
  repeat constructor; unfold is_byte; lia.
Defined.

(** Assignment from machine integers and from another structure. *)
Theorem mpz_assign_correct (heap : Heap) st z src v (i l : Z) (is_signed : bool) :
  wf st -> owns st z -> repr st src v -> - 2 ^ 31 < i < 2 ^ 31 ->
  (if is_signed then - 2 ^ 63 <= l < 2 ^ 63 else 0 <= l < 2 ^ 64) ->
  (exists st', mpz_set z src st = Some (tt, st') /\ updated st st' z v) /\
  (exists st', mpz_set_from_int z i st = Some (tt, st') /\ updated st st' z i) /\
  (exists st', mpz_set_from_ll z l is_signed st = Some (tt, st') /\ updated st st' z l).
Proof.
  intros. split; [|split]; apply run_updated; intros Q HQ.
  - apply (wp_mpz_set _ _ _ v); auto.
  - by apply wp_mpz_set_from_int.
  - by apply wp_mpz_set_from_ll.
Qed.

Theorem mpz_assign_witness :
  (exists st', mpz_set (heap := ex_heap) 3 0 ex = Some (tt, st') /\ updated ex st' 3 70000) /\
  (exists st', mpz_set_from_int (heap := ex_heap) 3 (-7) ex = Some (tt, st') /\ updated ex st' 3 (-7)) /\
  (exists st', mpz_set_from_ll (heap := ex_heap) 3 (- 2 ^ 63) true ex = Some (tt, st') /\ updated ex st' 3 (- 2 ^ 63)).
Proof. apply (mpz_assign_correct ex_heap ex 3 0 70000 (-7) (- 2 ^ 63) true); ex_side. Defined.
