(* ===== verification/ObjInt.v ===== *)
(** * Integer objects ([py/smallint.c], [py/objint_mpz.c], [py/objint.c],
      [py/objbool.c], and the operators of [py/runtime.c] and [py/obj.c])

    An integer object is a small integer, a machine word with 31 bits of value,
    or a heap object that holds an [mpz_t]; booleans act as integers.  The state
    is the store of [mpz_t] structures of Mpz; an integer object on the heap is
    the number of its structure.  Objects of other types are opaque, and the
    slots of their types are the class [OtherTypes].  [mp_float_t] is the IEEE
    single format. *)
From Stdlib Require Import SpecFloat.
From S2P Require Import Prelude.
From S2P Require Import CMem.
From S2P Require Import Mpz.
From S2P Require Import MpzConv.
Local Open Scope Z_scope.

(** ** Words and small integers *)

Definition MP_OBJ_WORD_MSBIT_HIGH : Z := 2 ^ 31.
Definition MP_SMALL_INT_MIN : Z := Z.shiftr (s32 MP_OBJ_WORD_MSBIT_HIGH) 1.
Definition MP_SMALL_INT_MAX : Z := Z.lnot MP_SMALL_INT_MIN.
Definition MP_SMALL_INT_POSITIVE_MASK : Z :=
  u32 (Z.lnot (Z.lor MP_OBJ_WORD_MSBIT_HIGH (Z.shiftr MP_OBJ_WORD_MSBIT_HIGH 1))).

Definition MP_SMALL_INT_FITS (n : Z) : bool :=
  Z.land (Z.lxor (u32 n) (u32 (Z.shiftl (u32 n) 1))) MP_OBJ_WORD_MSBIT_HIGH =? 0.

Definition mp_small_int_mul_overflow (x y : Z) : bool :=
  if x >? 0 then
    if y >? 0 then x >? Z.quot MP_SMALL_INT_MAX y
    else y <? Z.quot MP_SMALL_INT_MIN x
  else
    if y >? 0 then x <? Z.quot MP_SMALL_INT_MIN y
    else negb (x =? 0) && (y <? Z.quot MP_SMALL_INT_MAX x).

Section SmallInt.
Context {St : Type}.

Definition mp_small_int_modulo (dividend divisor : Z) : M St Z :=
  assert_ (negb (divisor =? 0));;
  let dividend := Z.rem dividend divisor in
  if ((dividend <? 0) && (divisor >? 0)) || ((dividend >? 0) && (divisor <? 0)) then sint (dividend + divisor)
  else mret dividend.

Definition mp_small_int_floor_divide (num denom : Z) : M St Z :=
  num ← (if num >=? 0 then if denom <? 0 then d ← sint (- denom); sint (num + (d - 1)) else mret num
         else if denom >=? 0 then sint (num + (- denom + 1)) else mret num);
  assert_ (negb (denom =? 0));;
  sint (Z.quot num denom).

End SmallInt.

(** ** Objects *)

Definition mp_float_t : Type := spec_float.
Definition float_of_int (v : Z) : mp_float_t := binary_normalize 24 128 v 0 false.
Definition float_add : mp_float_t -> mp_float_t -> mp_float_t := SFadd 24 128.
Definition float_mul : mp_float_t -> mp_float_t -> mp_float_t := SFmul 24 128.
Definition float_div : mp_float_t -> mp_float_t -> mp_float_t := SFdiv 24 128.

(** [ONull] is [MP_OBJ_NULL]; [OSmall] carries the word of a small integer,
    [OInt] the structure of an [mp_obj_int_t]; the first argument of the others
    is their address. *)
Inductive obj :=
  | ONull
  | OSmall (word : Z)
  | OInt (z : nat)
  | OBool (b : bool)
  | OFloat (n : nat) (f : mp_float_t)
  | OTuple (n : nat) (items : list obj)
  | OOther (n : nat).

Definition MP_OBJ_SMALL_INT_VALUE (word : Z) : Z := Z.shiftr (s32 word) 1.
Definition MP_OBJ_NEW_SMALL_INT (n : Z) : obj := OSmall (Z.lor (u32 (Z.shiftl (u32 n) 1)) 1).

Definition mp_obj_is_null (o : obj) : bool := match o with ONull => true | _ => false end.
Definition mp_const_true : obj := OBool true.
Definition mp_const_false : obj := OBool false.
Definition mp_obj_new_bool (b : bool) : obj := OBool b.

(** [==] of the words; distinct objects of the heap have distinct addresses. *)
Definition obj_word_eqb (o1 o2 : obj) : bool :=
  match o1, o2 with
  | ONull, ONull => true
  | OSmall w1, OSmall w2 => w1 =? w2
  | OInt z1, OInt z2 => (z1 =? z2)%nat
  | OBool b1, OBool b2 => Bool.eqb b1 b2
  | OFloat n1 _, OFloat n2 _ | OTuple n1 _, OTuple n2 _ | OOther n1, OOther n2 => (n1 =? n2)%nat
  | _, _ => false
  end.

Inductive exn := ZeroDivisionError | ValueError | OverflowError | TypeError | OtherError (n : nat).

Inductive mp_unary_op_t :=
  | UNARY_POSITIVE | UNARY_NEGATIVE | UNARY_INVERT | UNARY_NOT
  | UNARY_BOOL | UNARY_LEN | UNARY_HASH | UNARY_ABS
  | UNARY_INT_MAYBE | UNARY_FLOAT_MAYBE | UNARY_COMPLEX_MAYBE | UNARY_SIZEOF.

(** The thirteen arithmetic operations, in the order of the enumeration. *)
Inductive arith_op :=
  | OR | XOR | AND | LSHIFT | RSHIFT | ADD | SUBTRACT | MULTIPLY
  | MAT_MULTIPLY | FLOOR_DIVIDE | TRUE_DIVIDE | MODULO | POWER.

(** [mp_binary_op_t]: the arithmetic operations occur three times in it. *)
Inductive mp_binary_op_t :=
  | LESS | MORE | EQUAL | LESS_EQUAL | MORE_EQUAL | NOT_EQUAL | IN | IS | EXCEPTION_MATCH
  | INPLACE (a : arith_op)
  | PLAIN (a : arith_op)
  | DIVMOD | CONTAINS
  | REVERSE (a : arith_op).

#[export] Instance unary_op_eq_dec : EqDecision mp_unary_op_t.
Proof. solve_decision. Defined.
#[export] Instance arith_op_eq_dec : EqDecision arith_op.
Proof. solve_decision. Defined.
#[export] Instance binary_op_eq_dec : EqDecision mp_binary_op_t.
Proof. solve_decision. Defined.

(** [op >= MP_BINARY_OP_INPLACE_OR && op < MP_BINARY_OP_CONTAINS] *)
Definition has_int_result (op : mp_binary_op_t) : bool :=
  match op with INPLACE _ | PLAIN _ | DIVMOD => true | _ => false end.

Abbreviation X A := (Mz (exn + A)%type).

(** The operators of the types that are not modelled here. *)
Class OtherTypes := {
  mp_obj_float_binary_op : mp_binary_op_t -> mp_float_t -> obj -> X obj;
  mp_obj_is_complex : obj -> bool;
  mp_obj_complex_binary_op : mp_binary_op_t -> mp_float_t -> mp_float_t -> obj -> X obj;
  type_binary_op : mp_binary_op_t -> obj -> obj -> X obj;
  type_unary_op : mp_unary_op_t -> obj -> X obj;
  object_is_true : obj -> X bool;
  object_equal : mp_binary_op_t -> obj -> obj -> X obj;
  exception_match : obj -> obj -> X obj;
  is_sequence_to_multiply : obj -> bool;
  contains_by_iteration : obj -> obj -> X obj;
}.

Section Operators.
Context {heap : Heap} {types : OtherTypes}.

(** ** Making integers *)

Definition mp_obj_int_new_mpz : Mz nat := z ← new_id; mpz_init_zero z;; mret z.

Definition mp_obj_new_int_from_ll (val : Z) : Mz obj :=
  o ← mp_obj_int_new_mpz; mpz_set_from_ll o val true;; mret (OInt o).

Definition mp_obj_new_int_from_ull (val : Z) : Mz obj :=
  o ← mp_obj_int_new_mpz; mpz_set_from_ll o val false;; mret (OInt o).

Definition mp_obj_new_int (value : Z) : Mz obj :=
  if MP_SMALL_INT_FITS value then mret (MP_OBJ_NEW_SMALL_INT value) else mp_obj_new_int_from_ll value.

Definition mp_obj_new_int_from_uint (value : Z) : Mz obj :=
  if Z.land value (u32 (Z.lnot MP_SMALL_INT_POSITIVE_MASK)) =? 0 then mret (MP_OBJ_NEW_SMALL_INT value)
  else mp_obj_new_int_from_ull value.

Definition mp_obj_new_float (f : mp_float_t) : Mz obj := n ← new_id; mret (OFloat n f).
Definition mp_obj_new_tuple (items : list obj) : Mz obj := n ← new_id; mret (OTuple n items).

(** The digits from [n - 1] down to 0. *)
Fixpoint as_float_loop (n : nat) (z : nat) (val : mp_float_t) : Mz mp_float_t :=
  match n with
  | O => mret val
  | S n =>
      d ← mpn (load z (Z.of_nat n));
      as_float_loop n z (float_add (float_mul val (float_of_int 65536)) (float_of_int d))
  end.

Definition mpz_as_float (z : nat) : Mz mp_float_t :=
  n ← get_len z; val ← as_float_loop (Z.to_nat n) z (float_of_int 0);
  b ← get_neg z;
  mret (if negb (b =? 0) then SFopp val else val).

(** ** Reading integers *)

Definition mp_obj_int_sign (o : obj) : Mz Z :=
  match o with
  | OSmall w =>
      let val := MP_OBJ_SMALL_INT_VALUE w in
      mret (if val <? 0 then -1 else if val >? 0 then 1 else 0)
  | OInt z =>
      n ← get_len z;
      if n =? 0 then mret 0 else b ← get_neg z; mret (if b =? 0 then 1 else -1)
  | _ => stuck
  end.

Definition mp_obj_int_get_truncated (o : obj) : Mz Z :=
  match o with
  | OSmall w => mret (MP_OBJ_SMALL_INT_VALUE w)
  | OInt z => mpz_hash z
  | _ => stuck
  end.

Definition mp_obj_int_get_checked (o : obj) : X Z :=
  match o with
  | OSmall w => xret (MP_OBJ_SMALL_INT_VALUE w)
  | OInt z => r ← mpz_as_int_checked z; match r with Some v => xret v | None => raise OverflowError end
  | _ => stuck
  end.

Definition mp_obj_int_get_uint_checked (o : obj) : X Z :=
  match o with
  | OSmall w =>
      if MP_OBJ_SMALL_INT_VALUE w >=? 0 then xret (MP_OBJ_SMALL_INT_VALUE w) else raise OverflowError
  | OInt z => r ← mpz_as_uint_checked z; match r with Some v => xret v | None => raise OverflowError end
  | _ => stuck
  end.

(** ** The operators of the heap representation *)

(** A local [mpz_t] with its array of digits goes out of scope. *)
Definition end_fixed (z : nat) : Mz unit :=
  modify (fun st => MkStore (delete z (digs st)) (delete z (hdr st)) (nxt st)).

Definition mp_obj_int_unary_op (op : mp_unary_op_t) (o : nat) : Mz obj :=
  match op with
  | UNARY_BOOL => zero ← mpz_is_zero o; mret (mp_obj_new_bool (negb zero))
  | UNARY_HASH => h ← mpz_hash o; mret (MP_OBJ_NEW_SMALL_INT h)
  | UNARY_POSITIVE => mret (OInt o)
  | UNARY_NEGATIVE => o2 ← mp_obj_int_new_mpz; mpz_neg_inpl o2 o;; mret (OInt o2)
  | UNARY_INVERT => o2 ← mp_obj_int_new_mpz; mpz_not_inpl o2 o;; mret (OInt o2)
  | UNARY_ABS =>
      b ← get_neg o;
      if b =? 0 then mret (OInt o)
      else self2 ← mp_obj_int_new_mpz; mpz_abs_inpl self2 o;; mret (OInt self2)
  | UNARY_INT_MAYBE => mret (OInt o)
  | _ => mret ONull
  end.

(** The result of an operation in [res], as a small integer if it fits. *)
Definition int_result (res : nat) : X obj :=
  r ← mpz_as_int_checked res;
  match r with
  | Some res_small => if MP_SMALL_INT_FITS res_small then xret (MP_OBJ_NEW_SMALL_INT res_small) else xret (OInt res)
  | None => xret (OInt res)
  end.

(** The first [switch]: [op] is [a], in place or not. *)
Definition int_arith (op : mp_binary_op_t) (a : arith_op) (res zlhs zrhs : nat) (rhs_in : obj) : X obj :=
  match a with
  | ADD => mpz_add_inpl res zlhs zrhs;; int_result res
  | SUBTRACT => mpz_sub_inpl res zlhs zrhs;; int_result res
  | MULTIPLY => mpz_mul_inpl res zlhs zrhs;; int_result res
  | FLOOR_DIVIDE =>
      zero ← mpz_is_zero zrhs;
      if zero : bool then raise ZeroDivisionError
      else
        rem ← new_id; mpz_init_zero rem;;
        mpz_divmod_inpl res rem zlhs zrhs;;
        mpz_deinit rem;; end_scope rem;; int_result res
  | MODULO =>
      zero ← mpz_is_zero zrhs;
      if zero : bool then raise ZeroDivisionError
      else
        quo ← new_id; mpz_init_zero quo;;
        mpz_divmod_inpl quo res zlhs zrhs;;
        mpz_deinit quo;; end_scope quo;; int_result res
  | AND => mpz_and_inpl res zlhs zrhs;; int_result res
  | OR => mpz_or_inpl res zlhs zrhs;; int_result res
  | XOR => mpz_xor_inpl res zlhs zrhs;; int_result res
  | LSHIFT | RSHIFT =>
      irhs ←! mp_obj_int_get_checked rhs_in;
      if irhs <? 0 then raise ValueError
      else
        match a with LSHIFT => mpz_shl_inpl res zlhs irhs | _ => mpz_shr_inpl res zlhs irhs end;;
        int_result res
  | POWER =>
      negative ← mpz_is_neg zrhs;
      if negative : bool then f ← mpz_as_float zlhs; mp_obj_float_binary_op op f rhs_in
      else mpz_pow_inpl res zlhs zrhs;; int_result res
  | TRUE_DIVIDE | MAT_MULTIPLY => xret ONull
  end.

(** From the test for [TRUE_DIVIDE] on. *)
Definition int_binary_op_z (op : mp_binary_op_t) (zlhs zrhs : nat) (rhs_in : obj) : X obj :=
  match op with
  | PLAIN TRUE_DIVIDE | INPLACE TRUE_DIVIDE =>
      zero ← mpz_is_zero zrhs;
      if zero : bool then raise ZeroDivisionError
      else
        flhs ← mpz_as_float zlhs; frhs ← mpz_as_float zrhs;
        safe (mp_obj_new_float (float_div flhs frhs))
  | _ =>
      if has_int_result op then
        res ← mp_obj_int_new_mpz;
        match op with
        | PLAIN a | INPLACE a => int_arith op a res zlhs zrhs rhs_in
        | DIVMOD =>
            zero ← mpz_is_zero zrhs;
            if zero : bool then raise ZeroDivisionError
            else
              quo ← mp_obj_int_new_mpz;
              mpz_divmod_inpl quo res zlhs zrhs;;
              safe (mp_obj_new_tuple [OInt quo; OInt res])
        | _ => xret ONull
        end
      else
        cmp ← mpz_cmp zlhs zrhs;
        xret (match op with
              | LESS => mp_obj_new_bool (cmp <? 0)
              | MORE => mp_obj_new_bool (cmp >? 0)
              | LESS_EQUAL => mp_obj_new_bool (cmp <=? 0)
              | MORE_EQUAL => mp_obj_new_bool (cmp >=? 0)
              | EQUAL => mp_obj_new_bool (cmp =? 0)
              | _ => ONull
              end)
  end.

(** [mp_binary_op] calls itself through the slots of [int] and [bool]; [binary_op]
    is that call. *)
Section Dispatch.
Context (binary_op : mp_binary_op_t -> obj -> obj -> X obj).

Definition mp_obj_int_binary_op_extra_cases (op : mp_binary_op_t) (lhs_in rhs_in : obj) : X obj :=
  match rhs_in with
  | OBool false => binary_op op lhs_in (MP_OBJ_NEW_SMALL_INT 0)
  | OBool true => binary_op op lhs_in (MP_OBJ_NEW_SMALL_INT 1)
  | _ =>
      match op with
      | PLAIN MULTIPLY => if is_sequence_to_multiply rhs_in then binary_op op rhs_in lhs_in else xret ONull
      | _ => xret ONull
      end
  end.

Definition mp_obj_int_binary_op (op : mp_binary_op_t) (lhs_in rhs_in : obj) : X obj :=
  z_int ← new_id;
  let z_int_dig := map (junk z_int MPZ_NUM_DIG_FOR_INT) (seq 0 (Z.to_nat MPZ_NUM_DIG_FOR_INT)) in
  zlhs ← (match lhs_in with
          | OSmall w =>
              mpz_init_fixed_from_int z_int z_int_dig MPZ_NUM_DIG_FOR_INT (MP_OBJ_SMALL_INT_VALUE w);; mret z_int
          | OInt z => mret z
          | _ => stuck
          end);
  r ← (match rhs_in with
       | OSmall w =>
           mpz_init_fixed_from_int z_int z_int_dig MPZ_NUM_DIG_FOR_INT (MP_OBJ_SMALL_INT_VALUE w);;
           int_binary_op_z op zlhs z_int rhs_in
       | OInt zrhs => int_binary_op_z op zlhs zrhs rhs_in
       | OFloat _ f => v ← mpz_as_float zlhs; mp_obj_float_binary_op op v rhs_in
       | OOther _ =>
           if mp_obj_is_complex rhs_in then
             v ← mpz_as_float zlhs; mp_obj_complex_binary_op op v (float_of_int 0) rhs_in
           else mp_obj_int_binary_op_extra_cases op lhs_in rhs_in
       | _ => mp_obj_int_binary_op_extra_cases op lhs_in rhs_in
       end);
  end_fixed z_int;; mret r.

Definition bool_binary_op (op : mp_binary_op_t) (value : bool) (rhs_in : obj) : X obj :=
  binary_op op (MP_OBJ_NEW_SMALL_INT (zbool value)) rhs_in.

(** The slot [binary_op] of the type of [lhs]. *)
Definition slot_binary_op (op : mp_binary_op_t) (lhs rhs : obj) : X obj :=
  match lhs with
  | OSmall _ | OInt _ => mp_obj_int_binary_op op lhs rhs
  | OBool b => bool_binary_op op b rhs
  | _ => type_binary_op op lhs rhs
  end.

(** The label [generic_binary_op]: an operation in place falls back to the plain
    one, and that to the reversed one, so three rounds. *)
Fixpoint generic_binary_op (rounds : nat) (op : mp_binary_op_t) (lhs rhs : obj) : X obj :=
  result ←! slot_binary_op op lhs rhs;
  if negb (mp_obj_is_null result) then xret result
  else
    match rounds, op with
    | S rounds, INPLACE a => generic_binary_op rounds (PLAIN a) lhs rhs
    | S rounds, PLAIN a => generic_binary_op rounds (REVERSE a) rhs lhs
    | _, CONTAINS => contains_by_iteration lhs rhs
    | O, (INPLACE _ | PLAIN _) => stuck
    | _, _ => raise TypeError
    end.

(** [mp_type_int] and [mp_type_bool] have a [binary_op]; [bool] can be compared
    with other types. *)
Definition is_int_type (o : obj) : bool := match o with OSmall _ | OInt _ => true | _ => false end.

(** One pass of the loop of [mp_obj_equal_not_equal] for integers and booleans. *)
Definition equal_pass (o1 o2 : obj) : X obj :=
  match o1 with
  | OSmall _ | OInt _ => if is_int_type o2 then mp_obj_int_binary_op EQUAL o1 o2 else xret ONull
  | OBool b => bool_binary_op EQUAL b o2
  | _ => xret ONull
  end.

Definition is_number (o : obj) : bool := match o with OSmall _ | OInt _ | OBool _ => true | _ => false end.

(** [local_true] and [local_false]. *)
Definition local_result (op : mp_binary_op_t) (b : bool) : obj :=
  match op with NOT_EQUAL => mp_obj_new_bool (negb b) | _ => mp_obj_new_bool b end.

(** The result of the slot, for the operator asked for. *)
Definition equal_result (op : mp_binary_op_t) (r : obj) : X obj :=
  match op, r with
  | EQUAL, _ => xret r
  | _, OBool b => xret (local_result op b)
  | _, _ => stuck
  end.

(** When one operand is neither an integer nor a boolean, [object_equal]. *)
Definition mp_obj_equal_not_equal (op : mp_binary_op_t) (o1 o2 : obj) : X obj :=
  if negb (is_number o1 && is_number o2) then object_equal op o1 o2
  else if obj_word_eqb o1 o2 then xret (local_result op true)
  else
    match o1, o2 with
    | OSmall _, OSmall _ => xret (local_result op false)
    | _, _ =>
        r ←! (match o1 with OSmall _ => xret ONull | _ => equal_pass o1 o2 end);
        if negb (mp_obj_is_null r) then equal_result op r
        else
          r ←! equal_pass o2 o1;
          if negb (mp_obj_is_null r) then equal_result op r
          else xret (local_result op (obj_word_eqb o2 o1))
    end.

(** The loop of [POWER] on small integers; [None] is [goto power_overflow]. *)
Definition small_pow (lhs_val rhs_val : Z) : Mz (option Z) :=
  loop 32 (fun '(ans, lhs_val, rhs_val) =>
    if negb (rhs_val >? 0) then mret (inr (Some ans))
    else
      ans ← (if negb (Z.land rhs_val 1 =? 0) then
               if mp_small_int_mul_overflow ans lhs_val then mret None
               else ans ← sint (ans * lhs_val); mret (Some ans)
             else mret (Some ans));
      match ans with
      | None => mret (inr None)
      | Some ans =>
          if rhs_val =? 1 then mret (inr (Some ans))
          else
            let rhs_val := Z.quot rhs_val 2 in
            if mp_small_int_mul_overflow lhs_val lhs_val then mret (inr None)
            else lhs_val ← sint (lhs_val * lhs_val); mret (inl (ans, lhs_val, rhs_val))
      end) (1, lhs_val, rhs_val).

(** [goto generic_binary_op] with the left operand on the heap. *)
Definition higher_precision (op : mp_binary_op_t) (lhs_val : Z) (rhs : obj) : X obj :=
  lhs ← mp_obj_new_int_from_ll lhs_val; generic_binary_op 2 op lhs rhs.

(** What follows the [switch]. *)
Definition small_result (c : Mz Z) : X obj := lhs_val ← c; safe (mp_obj_new_int lhs_val).

Definition small_arith (op : mp_binary_op_t) (a : arith_op) (lhs_val rhs_val : Z) (rhs : obj) : X obj :=
  match a with
  | OR => small_result (mret (Z.lor lhs_val rhs_val))
  | XOR => small_result (mret (Z.lxor lhs_val rhs_val))
  | AND => small_result (mret (Z.land lhs_val rhs_val))
  | LSHIFT =>
      if rhs_val <? 0 then raise ValueError
      else if (rhs_val >=? 32) || (lhs_val >? Z.shiftr MP_SMALL_INT_MAX rhs_val)
              || (lhs_val <? Z.shiftr MP_SMALL_INT_MIN rhs_val)
      then higher_precision op lhs_val rhs
      else small_result (mret (s32 (u32 (Z.shiftl (u32 lhs_val) rhs_val))))
  | RSHIFT =>
      if rhs_val <? 0 then raise ValueError
      else
        let rhs_val := if rhs_val >=? 32 then 31 else rhs_val in
        small_result (mret (Z.shiftr lhs_val rhs_val))
  | ADD => small_result (sint (lhs_val + rhs_val))
  | SUBTRACT => small_result (sint (lhs_val - rhs_val))
  | MULTIPLY =>
      if mp_small_int_mul_overflow lhs_val rhs_val then higher_precision op lhs_val rhs
      else v ← sint (lhs_val * rhs_val); xret (MP_OBJ_NEW_SMALL_INT v)
  | FLOOR_DIVIDE =>
      if rhs_val =? 0 then raise ZeroDivisionError
      else small_result (mp_small_int_floor_divide lhs_val rhs_val)
  | TRUE_DIVIDE =>
      if rhs_val =? 0 then raise ZeroDivisionError
      else safe (mp_obj_new_float (float_div (float_of_int lhs_val) (float_of_int rhs_val)))
  | MODULO =>
      if rhs_val =? 0 then raise ZeroDivisionError
      else small_result (mp_small_int_modulo lhs_val rhs_val)
  | POWER =>
      if rhs_val <? 0 then mp_obj_float_binary_op op (float_of_int lhs_val) rhs
      else
        ans ← small_pow lhs_val rhs_val;
        match ans with
        | Some ans => safe (mp_obj_new_int ans)
        | None => higher_precision op lhs_val rhs
        end
  | MAT_MULTIPLY => raise TypeError
  end.

(** The [switch] of [mp_binary_op] for two small integers. *)
Definition small_binary_op (op : mp_binary_op_t) (lhs_val rhs_val : Z) (rhs : obj) : X obj :=
  match op with
  | PLAIN a | INPLACE a => small_arith op a lhs_val rhs_val rhs
  | DIVMOD =>
      if rhs_val =? 0 then raise ZeroDivisionError
      else
        q ← mp_small_int_floor_divide lhs_val rhs_val;
        r ← mp_small_int_modulo lhs_val rhs_val;
        safe (mp_obj_new_tuple [MP_OBJ_NEW_SMALL_INT q; MP_OBJ_NEW_SMALL_INT r])
  | LESS => xret (mp_obj_new_bool (lhs_val <? rhs_val))
  | MORE => xret (mp_obj_new_bool (lhs_val >? rhs_val))
  | LESS_EQUAL => xret (mp_obj_new_bool (lhs_val <=? rhs_val))
  | MORE_EQUAL => xret (mp_obj_new_bool (lhs_val >=? rhs_val))
  | _ => raise TypeError
  end.

(** From the conversion of [IN] on. *)
Definition type_supplied_binary_op (op : mp_binary_op_t) (lhs rhs : obj) : X obj :=
  match op with
  | IN => generic_binary_op 2 CONTAINS rhs lhs
  | _ => generic_binary_op 2 op lhs rhs
  end.

(** From the fast path for small integers on. *)
Definition numeric_binary_op (op : mp_binary_op_t) (lhs rhs : obj) : X obj :=
  match lhs, rhs with
  | OSmall l, OSmall r => small_binary_op op (MP_OBJ_SMALL_INT_VALUE l) (MP_OBJ_SMALL_INT_VALUE r) rhs
  | OSmall l, OFloat _ _ =>
      res ←! mp_obj_float_binary_op op (float_of_int (MP_OBJ_SMALL_INT_VALUE l)) rhs;
      if mp_obj_is_null res then raise TypeError else xret res
  | OSmall l, OOther _ =>
      if mp_obj_is_complex rhs then
        res ←! mp_obj_complex_binary_op op (float_of_int (MP_OBJ_SMALL_INT_VALUE l)) (float_of_int 0) rhs;
        if mp_obj_is_null res then raise TypeError else xret res
      else type_supplied_binary_op op lhs rhs
  | _, _ => type_supplied_binary_op op lhs rhs
  end.

End Dispatch.

(** The calls of [mp_binary_op] to itself: each gives a boolean its value, or is
    the comparison of two objects of which one was a boolean, so they are nested
    at most [BINARY_OP_DEPTH] deep when both operands are numbers. *)
Definition BINARY_OP_DEPTH : nat := 5.

Fixpoint binary_op_nested (depth : nat) (op : mp_binary_op_t) (lhs rhs : obj) : X obj :=
  match depth with
  | O => stuck
  | S depth =>
      let binary_op := binary_op_nested depth in
      match op with
      | IS => xret (mp_obj_new_bool (obj_word_eqb lhs rhs))
      | EQUAL | NOT_EQUAL => mp_obj_equal_not_equal binary_op op lhs rhs
      | EXCEPTION_MATCH => exception_match lhs rhs
      | _ => numeric_binary_op binary_op op lhs rhs
      end
  end.

Definition mp_binary_op : mp_binary_op_t -> obj -> obj -> X obj := binary_op_nested BINARY_OP_DEPTH.

(** ** Unary operators *)

Definition mp_obj_is_true (arg : obj) : X bool :=
  match arg with
  | OBool b => xret b
  | OSmall _ => xret (negb (obj_word_eqb arg (MP_OBJ_NEW_SMALL_INT 0)))
  | OInt z => result ← mp_obj_int_unary_op UNARY_BOOL z; xret (obj_word_eqb result mp_const_true)
  | _ => object_is_true arg
  end.

(** The [switch] of [mp_unary_op] for a small integer. *)
Definition small_unary_op (op : mp_unary_op_t) (arg : obj) (val : Z) : X obj :=
  match op with
  | UNARY_BOOL => xret (mp_obj_new_bool (negb (val =? 0)))
  | UNARY_HASH | UNARY_POSITIVE | UNARY_INT_MAYBE => xret arg
  | UNARY_NEGATIVE =>
      if val =? MP_SMALL_INT_MIN then v ← sint (- val); safe (mp_obj_new_int v)
      else xret (MP_OBJ_NEW_SMALL_INT (- val))
  | UNARY_ABS =>
      if val >=? 0 then xret arg
      else if val =? MP_SMALL_INT_MIN then v ← sint (- val); safe (mp_obj_new_int v)
      else xret (MP_OBJ_NEW_SMALL_INT (- val))
  | UNARY_INVERT => xret (MP_OBJ_NEW_SMALL_INT (Z.lnot val))
  | _ => stuck
  end.

(** What follows the call of a slot that gave no result. *)
Definition unary_default (op : mp_unary_op_t) : X obj :=
  match op with
  | UNARY_BOOL => xret mp_const_true
  | UNARY_INT_MAYBE | UNARY_FLOAT_MAYBE | UNARY_COMPLEX_MAYBE => xret ONull
  | _ => raise TypeError
  end.

Definition unary_after_slot (op : mp_unary_op_t) (result : obj) : X obj :=
  if negb (mp_obj_is_null result) then xret result else unary_default op.

(** A boolean is handled as a small integer, except for [len]. *)
Definition mp_unary_op (op : mp_unary_op_t) (arg : obj) : X obj :=
  match op with
  | UNARY_NOT => b ←! mp_obj_is_true arg; xret (mp_obj_new_bool (negb b))
  | _ =>
      match arg with
      | OSmall w => small_unary_op op arg (MP_OBJ_SMALL_INT_VALUE w)
      | OInt z => result ← mp_obj_int_unary_op op z; unary_after_slot op result
      | OBool value =>
          match op with
          | UNARY_LEN => unary_after_slot op ONull
          | _ =>
              result ←! small_unary_op op (MP_OBJ_NEW_SMALL_INT (zbool value)) (zbool value);
              unary_after_slot op result
          end
      | _ => type_unary_op op arg
      end
  end.

(** ** Powers with a modulus *)

Definition mp_mpz_for_int (arg : obj) : Mz (nat * bool) :=
  match arg with
  | OSmall w => temp ← new_id; mpz_init_from_int temp (MP_OBJ_SMALL_INT_VALUE w);; mret (temp, true)
  | OInt z => mret (z, false)
  | _ => stuck
  end.

Definition drop_temp (t : nat * bool) : Mz unit :=
  if snd t then mpz_deinit (fst t);; end_scope (fst t) else mret tt.

Definition mp_obj_int_pow3 (base exponent modulus : obj) : X obj :=
  if negb (is_int_type base && is_int_type exponent && is_int_type modulus) then raise TypeError
  else
    res_p ← mp_obj_int_new_mpz; mpz_set_from_ll res_p 0 false;;
    lhs ← mp_mpz_for_int base; rhs ← mp_mpz_for_int exponent; mod_ ← mp_mpz_for_int modulus;
    mpz_pow3_inpl res_p (fst lhs) (fst rhs) (fst mod_);;
    drop_temp lhs;; drop_temp rhs;; drop_temp mod_;;
    xret (OInt res_p).

End Operators.
