(* ===== verification/ObjIntFacts.v ===== *)
(** * Words, small integers and integer objects

    The conversions between a small integer and its word, the arithmetic of
    small integers, and what it means for an object to denote an integer. *)
From Stdlib Require Import SpecFloat.
From S2P Require Import Prelude.
From S2P Require Import CMem.
From S2P Require Import Digits.
From S2P Require Import Mpn.
From S2P Require Import MpnArith.
From S2P Require Import MpnBits.
From S2P Require Import Mpz.
From S2P Require Import MpzSpec.
From S2P Require Import MpzArith.
From S2P Require Import MpzMul.
From S2P Require Import MpzPow.
From S2P Require Import MpzConv.
From S2P Require Import MpzConvFacts.
From S2P Require Import ObjInt.
Local Open Scope Z_scope.

(** ** Words *)

Definition small_range (v : Z) : Prop := - 2 ^ 30 <= v < 2 ^ 30.

#[export] Instance small_range_dec v : Decision (small_range v).
Proof. apply _. Defined.

Lemma SMALL_INT_MIN_eq : MP_SMALL_INT_MIN = - 2 ^ 30.
Proof. done. Qed.

Lemma SMALL_INT_MAX_eq : MP_SMALL_INT_MAX = 2 ^ 30 - 1.
Proof. done. Qed.

Lemma shiftl_1 x : Z.shiftl x 1 = 2 * x.
Proof. rewrite Z.shiftl_mul_pow2 by lia. lia. Qed.

Lemma word_of_small v : Z.lor (u32 (Z.shiftl (u32 v) 1)) 1 = u32 (2 * v) + 1.
Proof.
  assert (u32 (Z.shiftl (u32 v) 1) = (v `mod` 2 ^ 31) * 2 ^ 1) as ->.
  { unfold uwrap. rewrite shiftl_1. Z.to_euclidean_division_equations. lia. }
  rewrite lor_add_disjoint by lia. unfold uwrap. Z.to_euclidean_division_equations. lia.
Qed.

Lemma new_small_word v : MP_OBJ_NEW_SMALL_INT v = OSmall (u32 (2 * v) + 1).
Proof. unfold MP_OBJ_NEW_SMALL_INT. by rewrite word_of_small. Qed.

(** The value of the word of a small integer wraps at 31 bits. *)
Lemma small_value_wraps v : MP_OBJ_SMALL_INT_VALUE (u32 (2 * v) + 1) = swrap 31 v.
Proof.
  unfold MP_OBJ_SMALL_INT_VALUE, uwrap, swrap. rewrite Z.shiftr_div_pow2 by lia.
  change (2 ^ 1) with 2. Z.to_euclidean_division_equations. lia.
Qed.

Lemma small_value v : small_range v -> MP_OBJ_SMALL_INT_VALUE (u32 (2 * v) + 1) = v.
Proof. intros Hv. rewrite small_value_wraps. apply swrap_small; [lia|exact Hv]. Qed.

(** [MP_SMALL_INT_FITS] compares the two highest bits. *)
Lemma small_int_fits v : - 2 ^ 31 <= v < 2 ^ 31 -> MP_SMALL_INT_FITS v = bool_decide (small_range v).
Proof.
  intros Hv. unfold MP_SMALL_INT_FITS, MP_OBJ_WORD_MSBIT_HIGH.
  assert (forall x, (Z.land x (2 ^ 31) =? 0) = negb (Z.testbit x 31)) as Hland.
  { intros x. destruct (Z.testbit x 31) eqn:E; cbn [negb].
    - apply Z.eqb_neq. intros H0. assert (Z.testbit (Z.land x (2 ^ 31)) 31 = true) as H1.
      { by rewrite Z.land_spec, E, Z.pow2_bits_true by lia. }
      by rewrite H0, Z.bits_0 in H1.
    - apply Z.eqb_eq. apply Z.bits_inj'. intros i Hi. rewrite Z.land_spec, Z.bits_0.
      destruct (decide (i = 31)) as [->|Hne]; [by rewrite E|].
      by rewrite Z.pow2_bits_false, andb_false_r by lia. }
  rewrite Hland, Z.lxor_spec, shiftl_1.
  assert (forall y, 0 <= y < 2 ^ 32 -> Z.testbit y 31 = bool_decide (2 ^ 31 <= y)) as Hbit.
  { intros y Hy. rewrite Z.testbit_odd, Z.shiftr_div_pow2 by lia.
    case_bool_decide.
    - replace (y / 2 ^ 31) with 1 by (Z.to_euclidean_division_equations; lia). done.
    - rewrite Z.div_small by lia. done. }
  rewrite !Hbit by (apply uwrap_range; lia). unfold uwrap, small_range.
  repeat case_bool_decide; cbn; try done; exfalso; Z.to_euclidean_division_equations; lia.
Qed.

(** ** The arithmetic of small integers *)

(** The overflow test is exact. *)
Lemma mul_overflow_exact x y : small_range x -> small_range y ->
  mp_small_int_mul_overflow x y = negb (bool_decide (small_range (x * y))).
Proof.
  unfold small_range. intros Hx Hy. unfold mp_small_int_mul_overflow.
  rewrite SMALL_INT_MIN_eq, SMALL_INT_MAX_eq. rewrite !Z.gtb_ltb.
  case_bool_decide as Hxy; cbn [negb];
    destruct (Z.ltb_spec 0 x), (Z.ltb_spec 0 y);
    try (destruct (Z.eqb_spec x 0) as [->|]; cbn [negb andb]);
    try apply Z.ltb_lt; try apply Z.ltb_ge; try done;
    Z.to_euclidean_division_equations; nia.
Qed.

(** An integer is in a range of [n] bits and a sign if the rest is the sign. *)
Lemma signed_bits n x : 0 <= n -> - 2 ^ n <= x < 2 ^ n <-> Z.shiftr x n = 0 \/ Z.shiftr x n = -1.
Proof.
  intros Hn. rewrite Z.shiftr_div_pow2 by done. pose proof (Z.pow_pos_nonneg 2 n ltac:(lia) Hn).
  pose proof (Z.div_mod x (2 ^ n) ltac:(lia)). pose proof (Z.mod_pos_bound x (2 ^ n) ltac:(lia)). split; nia.
Qed.

Lemma small_bitwise v w : small_range v -> small_range w ->
  small_range (Z.lor v w) /\ small_range (Z.lxor v w) /\ small_range (Z.land v w).
Proof.
  unfold small_range. rewrite !signed_bits by lia. rewrite Z.shiftr_lor, Z.shiftr_lxor, Z.shiftr_land.
  intros [-> | ->] [-> | ->]; (split; [|split]); ((by left) || (by right)).
Qed.

(** The shift that the checks before it let through fits a machine word. *)
Lemma small_shift_left v w : small_range v -> 0 <= w < 32 ->
  v <= Z.shiftr MP_SMALL_INT_MAX w -> Z.shiftr MP_SMALL_INT_MIN w <= v ->
  - 2 ^ 31 <= v * 2 ^ w < 2 ^ 31 /\ s32 (u32 (Z.shiftl (u32 v) w)) = v * 2 ^ w.
Proof.
  intros Hv Hw Hmax Hmin. rewrite SMALL_INT_MAX_eq in Hmax. rewrite SMALL_INT_MIN_eq in Hmin.
  rewrite !Z.shiftr_div_pow2 in Hmax, Hmin by lia. pose proof (Z.pow_pos_nonneg 2 w ltac:(lia) ltac:(lia)) as Hp.
  assert (- 2 ^ 31 <= v * 2 ^ w < 2 ^ 31) as Hb.
  { pose proof (Z.div_mod (2 ^ 30 - 1) (2 ^ w) ltac:(lia)). pose proof (Z.mod_pos_bound (2 ^ 30 - 1) (2 ^ w) ltac:(lia)).
    split; [|nia]. destruct (Z.eq_dec w 31) as [->|Hne]; [change (- 2 ^ 30 / 2 ^ 31) with (-1) in Hmin; lia|].
    assert (- 2 ^ 30 = - 2 ^ (30 - w) * 2 ^ w) as E.
    { rewrite Z.mul_opp_l, <-Z.pow_add_r by lia. do 2 f_equal. lia. }
    rewrite E, Z.div_mul in Hmin by lia. nia. }
  split; [done|]. rewrite Z.shiftl_mul_pow2 by lia. unfold uwrap. rewrite Zmult_mod_idemp_l.
  rewrite <-(swrap_small 32 (v * 2 ^ w)) at 2 by lia. unfold swrap. by rewrite Zplus_mod_idemp_l.
Qed.

Lemma small_shift_right v w : small_range v -> 0 <= w -> Z.shiftr v (if w >=? 32 then 31 else w) = v / 2 ^ w.
Proof.
  intros Hv Hw. rewrite Z.geb_leb. destruct (Z.leb_spec 32 w) as [Hle|]; [|by apply Z.shiftr_div_pow2].
  rewrite Z.shiftr_div_pow2 by lia. unfold small_range in Hv.
  assert (2 ^ 32 <= 2 ^ w) by (apply Z.pow_le_mono_r; lia).
  assert (forall m, 2 ^ 30 <= m -> v / m = if v <? 0 then -1 else 0) as Hdiv.
  { intros m Hm. destruct (Z.ltb_spec v 0); [|apply Z.div_small; lia].
    symmetry. apply (Z.div_unique _ _ _ (v + m)); lia. }
  rewrite !Hdiv by lia. done.
Qed.

Section SmallRules.
Context {St : Type}.

Lemma wp_small_modulo (s : St) a b (Q : Z -> St -> Prop) :
  small_range a -> small_range b -> b <> 0 -> Q (a `mod` b) s -> wp (mp_small_int_modulo a b) s Q.
Proof.
  unfold small_range. intros Ha Hb Hb0 HQ. unfold mp_small_int_modulo. apply wp_bind, wp_assert.
  { by apply negb_true_iff, Z.eqb_neq. }
  cbv zeta. rewrite !Z.gtb_ltb.
  pose proof (Z.quot_rem' a b) as Hqr. pose proof (Z.rem_bound_abs a b Hb0) as Hab.
  assert (forall k, 0 <= Z.rem a b + k * b < b \/ b < Z.rem a b + k * b <= 0 -> Z.rem a b + k * b = a `mod` b) as Hu.
  { intros k Hk. apply (Z.mod_unique _ _ (Z.quot a b - k)); [done|]. nia. }
  destruct (_ || _) eqn:E.
  - rewrite orb_true_iff, !andb_true_iff, !Z.ltb_lt in E. specialize (Hu 1 ltac:(lia)). rewrite Z.mul_1_l in Hu.
    apply wp_sint; rewrite Hu; [|done]. pose proof (Z.mod_pos_bound a b). pose proof (Z.mod_neg_bound a b). lia.
  - rewrite orb_false_iff, !andb_false_iff, !Z.ltb_ge in E. specialize (Hu 0 ltac:(lia)).
    rewrite Z.mul_0_l, Z.add_0_r in Hu. apply wp_ret. by rewrite Hu.
Qed.

Lemma wp_small_floor_divide (s : St) a b (Q : Z -> St -> Prop) :
  small_range a -> small_range b -> b <> 0 -> Q (a / b) s -> wp (mp_small_int_floor_divide a b) s Q.
Proof.
  unfold small_range. intros Ha Hb Hb0 HQ. unfold mp_small_int_floor_divide. rewrite Z.geb_leb.
  assert (forall num, Z.quot num b = a / b -> - 2 ^ 31 <= num < 2 ^ 31 ->
    wp (assert_ (negb (b =? 0));; sint (Z.quot num b)) s Q) as Hend.
  { intros num Hnum Hr. apply wp_bind, wp_assert; [by apply negb_true_iff, Z.eqb_neq|].
    apply wp_sint; rewrite Hnum; [|done]. Z.to_euclidean_division_equations. nia. }
  destruct (Z.leb_spec 0 a).
  - destruct (Z.ltb_spec b 0).
    + apply wp_bind, wp_bind, wp_sint; [lia|]. apply wp_sint; [lia|]. apply Hend; [|lia].
      Z.to_euclidean_division_equations. nia.
    + apply wp_bind, wp_ret, Hend; [|lia]. Z.to_euclidean_division_equations. nia.
  - rewrite Z.geb_leb. destruct (Z.leb_spec 0 b).
    + apply wp_bind, wp_sint; [lia|]. apply Hend; [|lia]. Z.to_euclidean_division_equations. nia.
    + apply wp_bind, wp_ret, Hend; [|lia]. Z.to_euclidean_division_equations. nia.
Qed.

End SmallRules.

(** ** Objects that denote integers *)

Definition denotes (st : mpz_store) (o : obj) (v : Z) : Prop :=
  match o with
  | OSmall _ => small_range v /\ o = MP_OBJ_NEW_SMALL_INT v
  | OInt z => repr st z v
  | OBool b => v = zbool b
  | _ => False
  end.

(** Results are small integers whenever they fit. *)
Definition canonical (st : mpz_store) (o : obj) (v : Z) : Prop :=
  if decide (small_range v) then o = MP_OBJ_NEW_SMALL_INT v else exists z, o = OInt z /\ repr st z v.

Lemma denotes_small st v : small_range v -> denotes st (MP_OBJ_NEW_SMALL_INT v) v.
Proof. by intros Hv. Qed.

Lemma canonical_denotes st o v : canonical st o v -> denotes st o v.
Proof. unfold canonical. destruct (decide _); [intros ->; by apply denotes_small|by intros (z & -> & Hr)]. Qed.

Lemma denotes_word st w v : denotes st (OSmall w) v -> MP_OBJ_SMALL_INT_VALUE w = v.
Proof. intros [Hv Hw]. rewrite new_small_word in Hw. injection Hw as ->. by apply small_value. Qed.

(** [later st st']: the integers of [st] are still there in [st']. *)
Definition later (st st' : mpz_store) : Prop := wf st' /\ frame st st' [].

Lemma later_refl st : wf st -> later st st.
Proof. intros Hwf. split; [done|apply frame_refl]. Qed.

Lemma later_trans st1 st2 st3 : later st1 st2 -> later st2 st3 -> later st1 st3.
Proof. intros [_ H1] [Hwf H2]. split; [done|]. by eapply frame_trans. Qed.

Lemma later_repr st st' z v : wf st -> later st st' -> repr st z v -> repr st' z v.
Proof. intros Hwf [_ Hfr]. eapply repr_frame; [done|exact Hfr|apply not_elem_of_nil]. Qed.

Lemma later_denotes st st' o v : wf st -> later st st' -> denotes st o v -> denotes st' o v.
Proof. intros Hwf Hl. destruct o; cbn; try done. by apply later_repr. Qed.

(** Writing a structure that [st] does not have. *)
Lemma later_updated st st1 st2 z v : later st st1 -> (nxt st <= z)%nat -> updated st1 st2 z v -> later st st2.
Proof. intros [_ Hfr] Hz (Hwf2 & Hfr2 & _). split; [done|]. by eapply frame_fresh. Qed.

Lemma later_freed st st1 st2 z : later st st1 -> (nxt st <= z)%nat -> freed st1 st2 z -> later st st2.
Proof. intros [Hwf1 Hfr] Hz Hf. split; [by eapply freed_wf|]. by eapply freed_frame. Qed.

Lemma later_nxt st st' : later st st' -> (nxt st <= nxt st')%nat.
Proof. by intros [_ [Hn _]]. Qed.

(** ** Floats

    A float from the digits of a number, beginning with the most significant. *)

Definition float_of_digits (val : mp_float_t) (l : list Z) : mp_float_t :=
  foldr (fun d val => float_add (float_mul val (float_of_int 65536)) (float_of_int d)) val l.

Lemma float_of_digits_snoc val l d :
  float_of_digits val (l ++ [d]) = float_of_digits (float_add (float_mul val (float_of_int 65536)) (float_of_int d)) l.
Proof. unfold float_of_digits. by rewrite foldr_app. Qed.

Fixpoint digits_of (n : nat) (v : Z) : list Z :=
  match n with O => [] | S n => v `mod` 65536 :: digits_of n (v / 65536) end.

Lemma digits_of_dval l : Forall is_dig l -> digits_of (length l) (dval l) = l.
Proof.
  induction 1 as [|d l Hd _ IH]; [done|]. unfold is_dig in Hd. cbn [length digits_of]. rewrite dval_cons. f_equal.
  - rewrite (Z.mul_comm 65536), Z.mod_add by lia. by apply Z.mod_small.
  - by rewrite (Z.mul_comm 65536), Z.div_add, Z.div_small, Z.add_0_l by lia.
Qed.

(** The float of an integer on the heap. *)
Definition heap_float (v : Z) : mp_float_t :=
  let f := float_of_digits (float_of_int 0) (digits_of (Z.to_nat (ndigs v)) (Z.abs v)) in
  if v <? 0 then SFopp f else f.

Section Rules.
Context {heap : Heap}.

(** *** Local structures with a fixed array *)

Lemma wp_store_fixed m z l i v (Q : unit -> blocks -> Prop) :
  m !! z = Some l -> 0 <= i < Z.of_nat (length l) -> Q tt (<[z := <[Z.to_nat i := v]> l]> m) -> wp (store z i v) m Q.
Proof.
  intros Hl Hi HQ. destruct (lookup_lt_is_Some_2 l (Z.to_nat i) ltac:(lia)) as [w Hw].
  apply (wp_store _ _ _ w).
  - unfold mem_get. rewrite Hl. cbn. by rewrite bool_decide_true by lia.
  - assert (alter <[Z.to_nat i:=v]> z m = <[z := <[Z.to_nat i := v]> l]> m) as ->; [|done].
    apply map_eq. intros c. destruct (decide (z = c)) as [<-|Hne].
    + by rewrite lookup_alter_eq, lookup_insert_eq, Hl.
    + by rewrite lookup_alter_ne, lookup_insert_ne.
Qed.

(** The structure [z] of a store that has been written out. *)
Definition fixed_store (st : mpz_store) (z : nat) (dig : list Z) (b n : Z) : mpz_store :=
  MkStore (<[z := dig]> (digs st)) (<[z := MkMpz b 1 2 n]> (hdr st)) (nxt st).

Lemma wp_fixed_get_len st z dig b n (Q : Z -> mpz_store -> Prop) :
  Q n (fixed_store st z dig b n) -> wp (get_len z) (fixed_store st z dig b n) Q.
Proof. intros HQ. eapply wp_get_len_hdr; [cbn; by rewrite lookup_insert_eq|]. done. Qed.

Lemma wp_fixed_set_len st z dig b n n' (Q : unit -> mpz_store -> Prop) :
  Q tt (fixed_store st z dig b n') -> wp (set_len z n') (fixed_store st z dig b n) Q.
Proof.
  intros HQ. eapply wp_set_len_hdr; [cbn; by rewrite lookup_insert_eq|].
  st_simpl. cbn. rewrite insert_insert_eq. exact HQ.
Qed.

Lemma wp_fixed_set_neg st z dig b b' n (Q : unit -> mpz_store -> Prop) :
  Q tt (fixed_store st z dig b' n) -> wp (set_neg z b') (fixed_store st z dig b n) Q.
Proof.
  intros HQ. eapply wp_set_neg_hdr; [cbn; by rewrite lookup_insert_eq|].
  st_simpl. cbn. rewrite insert_insert_eq. exact HQ.
Qed.

Lemma wp_fixed_store st z dig b n i v (Q : unit -> mpz_store -> Prop) :
  0 <= i < Z.of_nat (length dig) -> Q tt (fixed_store st z (<[Z.to_nat i := v]> dig) b n) ->
  wp (mpn (store z i v)) (fixed_store st z dig b n) Q.
Proof.
  intros Hi HQ. apply wp_mpn, (wp_store_fixed _ _ dig); [cbn; by rewrite lookup_insert_eq|done|].
  unfold set_digs, fixed_store in *. cbn. rewrite insert_insert_eq. exact HQ.
Qed.

Lemma fixed_repr st z d0 d1 (b : bool) n l : is_dig d0 -> is_dig d1 ->
  l = take (Z.to_nat n) [d0; d1] -> n = Z.of_nat (length l) -> normal l -> (b = true -> l <> []) ->
  repr (fixed_store st z [d0; d1] (zbool b) n) z (sval b (dval l)).
Proof.
  intros H0 H1 Hl Hn Hnorm Hb. exists b, l. split; [|done].
  exists (MkMpz (zbool b) 1 2 n), (drop (Z.to_nat n) [d0; d1]). cbn. rewrite !lookup_insert_eq.
  rewrite Hl, take_drop, <-Hl. repeat split; try done. rewrite Hl. apply Forall_take. by apply Forall_cons_2, Forall_singleton.
Qed.

(** One round of the digit loop. *)
Lemma wp_fixed_digit st z dig b n u (Q : Z -> mpz_store -> Prop) : 0 <= n < Z.of_nat (length dig) ->
  Q (u / 65536) (fixed_store st z (<[Z.to_nat n := u `mod` 65536]> dig) b (n + 1)) ->
  wp (n ← get_len z; _ ← mpn (store z n (Z.land u DIG_MASK)); _ ← set_len z (n + 1); mret (Z.shiftr u DIG_SIZE))
    (fixed_store st z dig b n) Q.
Proof.
  intros Hn HQ. rewrite dig_mask, dig_shr. apply wp_bind, wp_fixed_get_len, wp_bind, wp_fixed_store; [done|].
  apply wp_bind, wp_fixed_set_len, wp_ret, HQ.
Qed.

Lemma wp_fixed_digits st z x0 x1 (b : bool) n uval (Q : unit -> mpz_store -> Prop) : 0 < uval < 2 ^ 32 ->
  (forall dig n', repr (fixed_store st z dig (zbool b) n') z (sval b uval) -> Q tt (fixed_store st z dig (zbool b) n')) ->
  wp (put_digits z uval) (fixed_store st z [x0; x1] (zbool b) n) Q.
Proof.
  intros Hu HQ. apply wp_bind, wp_fixed_set_len, wp_bind. unfold is_dig in *.
  pose proof (Z.div_mod uval 65536 ltac:(lia)). pose proof (Z.mod_pos_bound uval 65536 ltac:(lia)).
  pose proof (Z.div_pos uval 65536 ltac:(lia) ltac:(lia)).
  pose proof (Z.div_lt_upper_bound uval 65536 65536 ltac:(lia) ltac:(lia)).
  apply wp_for_step; [apply Z.gtb_lt; lia|]. apply wp_fixed_digit; [cbn; lia|].
  set (q := uval / 65536) in *. set (r := uval `mod` 65536) in *. clearbody q r.
  destruct (Z.eq_dec q 0) as [->|E].
  - apply wp_for_end; [done|]. apply wp_ret. change (<[_ := _]> _) with [r; x1]. apply HQ.
    assert (uval = dval [r]) as -> by (cbn; lia).
    exists b, [r]. split; [|done]. exists (MkMpz (zbool b) 1 2 1), [x1].
    cbn. rewrite !lookup_insert_eq. repeat split; try done.
    + by apply Forall_singleton.
    + intros [= Hz]. lia.
  - apply wp_for_step; [apply Z.gtb_lt; lia|]. apply wp_fixed_digit; [rewrite length_insert; cbn; lia|].
    change (<[_ := _]> _) with [r; q `mod` 65536].
    rewrite (Z.div_small q), (Z.mod_small q) by lia.
    apply wp_for_end; [done|]. apply wp_ret, HQ.
    assert (uval = dval [r; q]) as -> by (cbn; lia).
    apply fixed_repr; [done|unfold is_dig; lia|done|done| |done]. intros [= Hz]. lia.
Qed.

Lemma wp_mpz_init_fixed st z x0 x1 val (Q : unit -> mpz_store -> Prop) :
  wf st -> (z < nxt st)%nat -> - 2 ^ 31 < val < 2 ^ 31 ->
  (forall st', wf st' -> frame st st' [z] -> nxt st' = nxt st -> repr st' z val -> Q tt st') ->
  wp (mpz_init_fixed_from_int z [x0; x1] MPZ_NUM_DIG_FOR_INT val) st Q.
Proof.
  intros Hwf Hz Hval HQ. apply wp_bind, wp_set_fields, wp_bind, wp_modify.
  change (set_digs _ _) with (fixed_store st z [x0; x1] 0 0).
  assert (forall dig b n, repr (fixed_store st z dig b n) z val -> Q tt (fixed_store st z dig b n)) as HQ'.
  { intros dig b n Hr. apply HQ; [by apply wf_upd|by apply frame_upd|done|done]. }
  unfold mpz_set_from_int. destruct (Z.eqb_spec val 0) as [->|Hne].
  { apply wp_bind, wp_fixed_set_neg, wp_fixed_set_len. apply HQ'.
    exists false, []. split; [|done]. exists (MkMpz 0 1 2 0), [x0; x1]. cbn. by rewrite !lookup_insert_eq. }
  apply wp_bind, wp_bind. eapply wp_fields; [cbn; by rewrite lookup_insert_eq|].
  apply wp_bind. unfold wp. cbn [fixed_store digs]. rewrite lookup_insert_eq. cbn.
  apply wp_bind. destruct (Z.ltb_spec val 0).
  - apply wp_bind, wp_fixed_set_neg, wp_bind, wp_sint; [lia|]. apply wp_ret. rewrite u32_small by lia.
    apply (wp_fixed_digits _ _ _ _ true); [lia|]. intros dig n Hr. apply HQ'. cbn in Hr. by rewrite Z.opp_involutive in Hr.
  - apply wp_bind, wp_fixed_set_neg, wp_ret. rewrite u32_small by lia.
    apply (wp_fixed_digits _ _ _ _ false); [lia|]. intros dig n Hr. by apply HQ'.
Qed.

(** *** Code that makes no structure *)

Definition keeps_next {A} (c : Mz A) : Prop := forall st a st', c st = Some (a, st') -> nxt st' = nxt st.

Lemma wp_keeps {A} (c : Mz A) st (Q : A -> mpz_store -> Prop) :
  keeps_next c -> wp c st (fun a st' => nxt st' = nxt st -> Q a st') -> wp c st Q.
Proof. intros Hc. unfold wp. destruct (c st) as [[a st']|] eqn:E; [|done]. intros HQ. by apply HQ, (Hc _ a). Qed.

Lemma keeps_ret {A} (a : A) : keeps_next (mret a).
Proof. by intros st a' st' [= _ <-]. Qed.

Lemma keeps_stuck {A} : keeps_next (stuck : Mz A).
Proof. done. Qed.

Lemma keeps_bind {A B} (c : Mz A) (k : A -> Mz B) : keeps_next c -> (forall a, keeps_next (k a)) -> keeps_next (a ← c; k a).
Proof.
  intros Hc Hk st b st' H. unfold mbind, M_bind in H. destruct (c st) as [[a st1]|] eqn:E; [|done].
  by rewrite (Hk _ _ _ _ H), (Hc _ _ _ E).
Qed.

Lemma keeps_modify (f : mpz_store -> mpz_store) : (forall st, nxt (f st) = nxt st) -> keeps_next (modify f).
Proof. by intros Hf st [] st' [= <-]. Qed.

Lemma keeps_if {A} (b : bool) (c1 c2 : Mz A) : keeps_next c1 -> keeps_next c2 -> keeps_next (if b then c1 else c2).
Proof. by destruct b. Qed.

Lemma keeps_fields z : keeps_next (fields z).
Proof. intros st h st' H. unfold fields in H. by destruct (_ !! z); simplify_eq/=. Qed.

Lemma keeps_assert b : keeps_next (assert_ b).
Proof. destruct b; [apply keeps_ret|apply keeps_stuck]. Qed.

Lemma keeps_mpn {A} (c : M blocks A) : keeps_next (mpn c).
Proof. intros st a st' H. unfold mpn, on_part in H. by destruct (c _) as [[]|]; simplify_eq/=. Qed.

Lemma keeps_loop {L R} fuel (body : L -> Mz (L + R)) : (forall l, keeps_next (body l)) -> forall l, keeps_next (loop fuel body l).
Proof.
  intros Hb. induction fuel as [|fuel IH]; intros l; [apply keeps_stuck|]. cbn [loop]. apply keeps_bind; [apply Hb|].
  intros [l'|r]; [apply IH|apply keeps_ret].
Qed.

Lemma keeps_for {L} fuel cond (body : L -> Mz L) : (forall l, keeps_next (body l)) -> forall l, keeps_next (for_ fuel cond body l).
Proof.
  intros Hb. apply keeps_loop. intros l. apply keeps_bind; [apply keeps_ret|]. intros [|]; [|apply keeps_ret].
  apply keeps_bind; [apply Hb|]. intros l'. apply keeps_ret.
Qed.

Lemma keeps_sint v : keeps_next (sint v : Mz Z).
Proof. apply keeps_bind; [apply keeps_assert|]. intros ?. apply keeps_ret. Qed.

Ltac keeps_next := repeat first
  [ apply keeps_ret | apply keeps_fields | apply keeps_assert | apply keeps_mpn | apply keeps_sint | apply keeps_modify; done
  | apply keeps_for; intros ? | apply keeps_bind; [|intros ?] | apply keeps_if ].

Lemma keeps_put_digits z v : keeps_next (put_digits z v).
Proof. unfold put_digits, set_len, get_len, set_fields. keeps_next. Qed.

Lemma keeps_need_dig z n : keeps_next (mpz_need_dig z n).
Proof.
  unfold mpz_need_dig, m_renew, set_fields. cbv zeta. apply keeps_bind; [keeps_next|]. intros h. apply keeps_bind; [|intros ?; keeps_next].
  intros st l st' H. by destruct (_ !! z); simplify_eq/=.
Qed.

Lemma keeps_set_from_int z v : keeps_next (mpz_set_from_int z v).
Proof.
  unfold mpz_set_from_int, set_neg, set_len, set_fields. apply keeps_if; [keeps_next|].
  apply keeps_bind; [apply keeps_need_dig|]. intros ?. apply keeps_bind; [keeps_next|]. intros u. apply keeps_put_digits.
Qed.

Lemma keeps_set_from_ll z v b : keeps_next (mpz_set_from_ll z v b).
Proof.
  unfold mpz_set_from_ll, set_neg, set_fields. apply keeps_bind; [apply keeps_need_dig|]. intros ?.
  apply keeps_bind; [keeps_next|]. intros u. apply keeps_put_digits.
Qed.

Lemma keeps_init_zero z : keeps_next (mpz_init_zero z).
Proof. unfold mpz_init_zero, set_fields. keeps_next. Qed.

Lemma keeps_init_from_int z v : keeps_next (mpz_init_from_int z v).
Proof. apply keeps_bind; [apply keeps_init_zero|]. intros ?. apply keeps_set_from_int. Qed.

(** *** Making integers *)

Lemma wp_new_mpz st (Q : nat -> mpz_store -> Prop) : wf st ->
  (forall st', later st st' -> owns st' (nxt st) -> nxt st' = S (nxt st) -> Q (nxt st) st') -> wp mp_obj_int_new_mpz st Q.
Proof.
  intros Hwf HQ. apply wp_bind, wp_new_id. change (MkStore _ _ _) with (bump st).
  apply wp_bind, wp_keeps; [apply keeps_init_zero|]. apply wp_mpz_init_zero; [by apply bump_wf|cbn; lia|]. intros st' Hu Hn.
  apply wp_ret. pose proof Hu as (_ & _ & Ho & Hr). apply HQ; [|done|done].
  apply (later_updated st (bump st) _ (nxt st) 0); [|done|done]. split; [by apply bump_wf|apply bump_frame].
Qed.

Lemma wp_new_int_from_ll st v (Q : obj -> mpz_store -> Prop) : wf st -> - 2 ^ 63 <= v < 2 ^ 63 ->
  (forall st' z, later st st' -> repr st' z v -> Q (OInt z) st') -> wp (mp_obj_new_int_from_ll v) st Q.
Proof.
  intros Hwf Hv HQ. apply wp_bind, wp_new_mpz; [done|]. intros st1 Hl Ho _.
  apply wp_bind, wp_mpz_set_from_ll; [apply Hl|done|done|]. intros st2 Hu. apply wp_ret.
  pose proof Hu as (_ & _ & _ & Hr). apply HQ; [|done]. by eapply later_updated.
Qed.

Lemma wp_new_int_from_ull st v (Q : obj -> mpz_store -> Prop) : wf st -> 0 <= v < 2 ^ 64 ->
  (forall st' z, later st st' -> repr st' z v -> Q (OInt z) st') -> wp (mp_obj_new_int_from_ull v) st Q.
Proof.
  intros Hwf Hv HQ. apply wp_bind, wp_new_mpz; [done|]. intros st1 Hl Ho _.
  apply wp_bind, wp_mpz_set_from_ll; [apply Hl|done|done|]. intros st2 Hu. apply wp_ret.
  pose proof Hu as (_ & _ & _ & Hr). apply HQ; [|done]. by eapply later_updated.
Qed.

Lemma wp_new_int st v (Q : obj -> mpz_store -> Prop) : wf st -> - 2 ^ 31 <= v < 2 ^ 31 ->
  (forall st' o, later st st' -> canonical st' o v -> Q o st') -> wp (mp_obj_new_int v) st Q.
Proof.
  intros Hwf Hv HQ. unfold mp_obj_new_int. rewrite small_int_fits by done. case_bool_decide as Hs.
  - apply wp_ret, HQ; [by apply later_refl|]. unfold canonical. by rewrite decide_True.
  - apply wp_new_int_from_ll; [done|lia|]. intros st' z Hl Hr. apply HQ; [done|].
    unfold canonical. rewrite decide_False by done. by exists z.
Qed.

Lemma wp_int_result st z v (Q : exn + obj -> mpz_store -> Prop) : repr st z v ->
  (forall o, canonical st o v -> (forall z', o = OInt z' -> z' = z) -> Q (inr o) st) -> wp (int_result z) st Q.
Proof.
  intros Hr HQ. apply wp_bind, (wp_mpz_as_int_checked _ _ v); [done|]. unfold canonical in HQ.
  destruct (Z.ltb_spec (Z.abs v) (2 ^ 31)) as [Hv|Hv].
  - rewrite small_int_fits by lia. case_bool_decide as Hs; apply wp_xret, HQ; try done.
    + by rewrite decide_True.
    + rewrite decide_False by done. by exists z.
    + by intros z' [= <-].
  - apply wp_xret, HQ; [|by intros z' [= <-]]. rewrite decide_False; [by exists z|]. unfold small_range. lia.
Qed.

Lemma wp_as_float_loop st z b l n val (Q : mp_float_t -> mpz_store -> Prop) : reprl st z b l -> (n <= length l)%nat ->
  Q (float_of_digits val (take n l)) st -> wp (as_float_loop n z val) st Q.
Proof.
  intros Hl. revert val. induction n as [|n IH]; intros val Hn HQ; [by apply wp_ret|].
  destruct (lookup_lt_is_Some_2 l n ltac:(lia)) as [d Hd].
  apply wp_bind, wp_mpn, (wp_load_holds _ _ l n); [by eapply reprl_holds|lia|].
  intros d' Hd'. simplify_eq. rewrite set_digs_id. apply IH; [lia|].
  by rewrite (take_S_r _ _ _ Hd), float_of_digits_snoc in HQ.
Qed.

Lemma wp_mpz_as_float st z v (Q : mp_float_t -> mpz_store -> Prop) : repr st z v ->
  Q (heap_float v) st -> wp (mpz_as_float z) st Q.
Proof.
  intros (b & l & Hl & ->) HQ. apply wp_bind, (wp_get_len _ _ b l); [done|]. rewrite Nat2Z.id.
  apply wp_bind, (wp_as_float_loop _ _ b l); [done|lia|]. rewrite take_ge by done.
  apply wp_bind, (wp_get_neg _ _ b l); [done|]. apply wp_ret. unfold heap_float in HQ.
  pose proof (dval_bounds l (reprl_dig _ _ _ _ Hl)) as Hd. pose proof (reprl_sign _ _ _ _ Hl) as Hs.
  rewrite (reprl_ndigs _ _ _ _ Hl), Nat2Z.id, sval_abs, digits_of_dval in HQ by (lia || by eapply reprl_dig).
  destruct b; cbn [zbool sval Z.eqb negb] in *.
  - specialize (Hs eq_refl). by rewrite (proj2 (Z.ltb_lt _ _)) in HQ by lia.
  - by rewrite (proj2 (Z.ltb_ge _ _)) in HQ by lia.
Qed.

End Rules.
