(* ===== verification/ObjIntOps.v ===== *)
(** * The operators of integers

    What [mp_binary_op] and [mp_unary_op] give for integers and booleans, and
    the proof for the operators of the heap representation. *)
From Stdlib Require Import SpecFloat.
From S2P Require Import Prelude.
From S2P Require Import CMem.
From S2P Require Import Digits.
From S2P Require Import MpnArith.
From S2P Require Import MpnBits.
From S2P Require Import Mpz.
From S2P Require Import MpzSpec.
From S2P Require Import MpzArith.
From S2P Require Import MpzBits.
From S2P Require Import MpzMul.
From S2P Require Import MpzPow.
From S2P Require Import MpzConv.
From S2P Require Import MpzConvFacts.
From S2P Require Import ObjInt.
From S2P Require Import ObjIntFacts.
Local Open Scope Z_scope.

(** ** Outcomes *)

Inductive outcome :=
  | IntOut (v : Z)
  | BoolOut (b : bool)
  | PairOut (heap : bool) (q r : Z)
  | FloatOut (f : mp_float_t)
  | ErrOut (e : exn).

(** A shift count is a machine word that is not negative. *)
Definition shift_outcome (w x : Z) : outcome :=
  if Z.abs w <? 2 ^ 31 then if w <? 0 then ErrOut ValueError else IntOut x else ErrOut OverflowError.

Definition division_outcome (w : Z) (out : outcome) : outcome :=
  if w =? 0 then ErrOut ZeroDivisionError else out.

(** Below, [h] says that an operand is on the heap.  Then 0 to the power 0 is 0. *)
Definition power (h : bool) (v w : Z) : Z := if h && (v =? 0) && (w =? 0) then 0 else v ^ w.

(** The quotient of [divmod]: that of the smallest small integer by -1, [2 ^ 30],
    wraps around. *)
Definition divmod_quotient (h : bool) (v w : Z) : Z :=
  if negb h && (v =? - 2 ^ 30) && (w =? -1) then - 2 ^ 30 else v / w.

(** The operands of a true division are made floats first. *)
Definition int_float (h : bool) (v : Z) : mp_float_t := if h then heap_float v else float_of_int v.

(** The arithmetic of Python, but for the two cases above; a negative power is
    left to the floats. *)
Definition arith_outcome (h : bool) (a : arith_op) (v w : Z) : option outcome :=
  match a with
  | OR => Some (IntOut (Z.lor v w))
  | XOR => Some (IntOut (Z.lxor v w))
  | AND => Some (IntOut (Z.land v w))
  | LSHIFT => Some (shift_outcome w (v * 2 ^ w))
  | RSHIFT => Some (shift_outcome w (v / 2 ^ w))
  | ADD => Some (IntOut (v + w))
  | SUBTRACT => Some (IntOut (v - w))
  | MULTIPLY => Some (IntOut (v * w))
  | FLOOR_DIVIDE => Some (division_outcome w (IntOut (v / w)))
  | TRUE_DIVIDE => Some (division_outcome w (FloatOut (float_div (int_float h v) (int_float h w))))
  | MODULO => Some (division_outcome w (IntOut (v `mod` w)))
  | POWER => if w <? 0 then None else Some (IntOut (power h v w))
  | MAT_MULTIPLY => None
  end.

Definition binary_outcome (h : bool) (op : mp_binary_op_t) (v w : Z) : option outcome :=
  match op with
  | PLAIN a | INPLACE a => arith_outcome h a v w
  | DIVMOD => Some (division_outcome w (PairOut h (divmod_quotient h v w) (v `mod` w)))
  | LESS => Some (BoolOut (v <? w))
  | MORE => Some (BoolOut (v >? w))
  | EQUAL => Some (BoolOut (v =? w))
  | LESS_EQUAL => Some (BoolOut (v <=? w))
  | MORE_EQUAL => Some (BoolOut (v >=? w))
  | NOT_EQUAL => Some (BoolOut (negb (v =? w)))
  | _ => None
  end.

(** The result is an object made since [n] was the next number. *)
Definition obj_from (n : nat) (o : obj) : Prop := match o with OInt z => (n <= z)%nat | _ => True end.

(** The parts of a pair: integers on the heap if an operand is one, else small. *)
Definition part (st : mpz_store) (n : nat) (h : bool) (o : obj) (v : Z) : Prop :=
  if h then exists z, o = OInt z /\ repr st z v /\ (n <= z)%nat else small_range v /\ o = MP_OBJ_NEW_SMALL_INT v.

Definition meets (st : mpz_store) (n : nat) (r : exn + obj) (out : outcome) : Prop :=
  match out, r with
  | IntOut v, inr o => canonical st o v /\ obj_from n o
  | BoolOut b, inr o => o = mp_obj_new_bool b
  | PairOut h q m, inr (OTuple _ [oq; om]) => part st n h oq q /\ part st n h om m
  | FloatOut f, inr (OFloat _ f') => f' = f
  | ErrOut e, inl e' => e = e'
  | _, _ => False
  end.

(** Room for the digits of the result. *)
Definition enough_digits (op : mp_binary_op_t) (v w : Z) : Prop :=
  ndigs v + ndigs w + 1 < MAX_DIG /\
  match op with
  | PLAIN LSHIFT | INPLACE LSHIFT => 0 <= w < 2 ^ 31 -> ndigs v + (w + 15) / 16 < MAX_DIG
  | PLAIN POWER | INPLACE POWER => 0 <= w -> w * ndigs v + 1 < MAX_DIG
  | _ => True
  end.

(** ** What is kept when a local structure goes away, or more is made *)

Lemma freed_canonical st st' z n o v : freed st st' z -> (z < n)%nat ->
  canonical st o v /\ obj_from n o -> canonical st' o v /\ obj_from n o.
Proof.
  unfold canonical. intros Hf Hz [Hc Ho]. split; [|done]. destruct (decide _); [done|].
  destruct Hc as (z' & -> & Hr). exists z'. split; [done|]. cbn in Ho. apply (freed_repr _ _ _ _ _ Hf); [lia|done].
Qed.

Lemma freed_part st st' z n h o v : freed st st' z -> (z < n)%nat -> part st n h o v -> part st' n h o v.
Proof.
  intros Hf Hz. destruct h; cbn; [|done]. intros (y & -> & Hr & Hn). exists y. split; [done|]. split; [|done].
  apply (freed_repr _ _ _ _ _ Hf); [lia|done].
Qed.

Lemma freed_meets st st' z n r out : freed st st' z -> (z < n)%nat -> meets st n r out -> meets st' n r out.
Proof.
  intros Hf Hz. destruct out, r as [e'|o]; cbn; try done.
  - by apply (freed_canonical _ _ z).
  - destruct o as [| | | | |k items|]; try done. destruct items as [|oq [|om [|]]]; try done.
    intros [H1 H2]. by split; apply (freed_part st _ z).
Qed.

Lemma obj_from_le n n' o : (n <= n')%nat -> obj_from n' o -> obj_from n o.
Proof. intros Hn. destruct o; cbn; lia. Qed.

Lemma part_le st n n' h o v : (n <= n')%nat -> part st n' h o v -> part st n h o v.
Proof. intros Hn. destruct h; cbn; [|done]. intros (y & -> & Hr & Hy). exists y. split; [done|]. split; [done|lia]. Qed.

Lemma meets_le st n n' r out : (n <= n')%nat -> meets st n' r out -> meets st n r out.
Proof.
  intros Hn. destruct out, r as [e'|o]; cbn; try done.
  - intros [H1 H2]. split; [done|by eapply obj_from_le].
  - destruct o as [| | | | |k items|]; try done. destruct items as [|oq [|om [|]]]; try done.
    intros [H1 H2]. by split; eapply part_le.
Qed.

Lemma meets_not_null st n o out : meets st n (inr o) out -> mp_obj_is_null o = false.
Proof.
  destruct out; cbn; [|by intros ->|by destruct o|by destruct o|done].
  intros [Hc _]. unfold canonical in Hc. destruct (decide _); [by subst|by destruct Hc as (z & -> & _)].
Qed.

Section HeapOps.
Context {heap : Heap} {types : OtherTypes}.

Lemma wp_get_checked s o x (Q : exn + Z -> mpz_store -> Prop) : denotes s o x -> is_int_type o = true ->
  Q (if Z.abs x <? 2 ^ 31 then inr x else inl OverflowError) s -> wp (mp_obj_int_get_checked o) s Q.
Proof.
  intros Hd Hi HQ. destruct o; try done; cbn [mp_obj_int_get_checked].
  - rewrite (denotes_word _ _ _ Hd). destruct Hd as [Hs _]. unfold small_range in Hs.
    rewrite (proj2 (Z.ltb_lt _ _)) in HQ by lia. by apply wp_xret.
  - apply wp_bind, (wp_mpz_as_int_checked _ _ x); [done|]. destruct (_ <? _); [by apply wp_xret|by apply wp_ret].
Qed.

Lemma wp_z_is_zero s z x (Q : bool -> mpz_store -> Prop) : repr s z x -> Q (x =? 0) s -> wp (mpz_is_zero z) s Q.
Proof.
  intros (b & l & Hl & ->) HQ. apply wp_bind, (wp_get_len _ _ b l); [done|]. apply wp_ret.
  rewrite (dval_zero_iff l) by (by eapply reprl_dig || by eapply reprl_normal).
  assert ((sval b (dval l) =? 0) = (dval l =? 0)) as <-; [|done].
  destruct b; cbn; [|done]. destruct (Z.eqb_spec (dval l) 0) as [->|]; [done|]. apply Z.eqb_neq. lia.
Qed.

Lemma wp_z_is_neg s z x (Q : bool -> mpz_store -> Prop) : repr s z x -> Q (x <? 0) s -> wp (mpz_is_neg z) s Q.
Proof.
  intros (b & l & Hl & ->) HQ. apply wp_bind, (wp_get_neg _ _ b l); [done|]. apply wp_ret.
  pose proof (reprl_sign _ _ _ _ Hl) as Hs. pose proof (dval_bounds l (reprl_dig _ _ _ _ Hl)).
  assert ((sval b (dval l) <? 0) = negb (zbool b =? 0)) as <-; [|done].
  destruct b; cbn; [apply Z.ltb_lt; specialize (Hs eq_refl); lia|apply Z.ltb_ge; lia].
Qed.

(** The store [st0] is the one before the result [res] was made. *)
Section Arith.
Context (st0 st : mpz_store) (res zlhs zrhs : nat) (v w : Z).
Context (Hlater : later st0 st) (Hres : (nxt st0 <= res)%nat) (Ho : owns st res).
Context (Hv : repr st zlhs v) (Hw : repr st zrhs w) (Hvr : res <> zlhs) (Hwr : res <> zrhs).

Lemma wp_int_end st' x (Q : exn + obj -> mpz_store -> Prop) : later st0 st' -> repr st' res x ->
  (forall r, meets st' (nxt st0) r (IntOut x) -> Q r st') -> wp (int_result res) st' Q.
Proof using Hres.
  intros Hl Hr HQ. apply (wp_int_result st' res x); [done|].
  intros o Hcan Ho'. apply HQ. split; [done|]. destruct o; try done. cbn. by rewrite (Ho' z eq_refl).
Qed.

Lemma wp_int_done (c : Mz unit) x (Q : exn + obj -> mpz_store -> Prop) :
  (forall Q' : unit -> mpz_store -> Prop, (forall st', updated st st' res x -> Q' tt st') -> wp c st Q') ->
  (forall r st', later st0 st' -> meets st' (nxt st0) r (IntOut x) -> Q r st') ->
  wp (c;; int_result res) st Q.
Proof using Hlater Hres.
  intros Hc HQ. apply wp_bind, Hc. intros st' Hu. pose proof (later_updated _ _ _ _ _ Hlater Hres Hu) as Hl.
  destruct Hu as (_ & _ & _ & Hr). apply (wp_int_end st' x); [done|done|]. intros r. by apply HQ.
Qed.

(** The quotient and the remainder; one of them is a local. *)
Lemma wp_divmod_local (q r local : nat) x (Q : exn + obj -> mpz_store -> Prop) :
  local = nxt st -> w <> 0 -> ndigs v + ndigs w + 1 < MAX_DIG ->
  (q = local /\ r = res /\ x = v `mod` w) \/ (q = res /\ r = local /\ x = v / w) ->
  (forall r st', later st0 st' -> meets st' (nxt st0) r (IntOut x) -> Q r st') ->
  wp (mpz_init_zero local;; mpz_divmod_inpl q r zlhs zrhs;; mpz_deinit local;; end_scope local;; int_result res)
    (bump st) Q.
Proof using Hlater Hres Ho Hv Hw Hvr Hwr.
  intros -> Hw0 Hsz Hqr HQ. destruct Hlater as [Hwf Hfr0]. pose proof (bump_wf _ Hwf) as Hwfb.
  pose proof (repr_lt _ _ _ Hwf Hv). pose proof (repr_lt _ _ _ Hwf Hw). pose proof (owns_lt _ _ Hwf Ho).
  pose proof (ndigs_nonneg v). pose proof (ndigs_nonneg w).
  assert (later st (bump st)) as Hlb by (split; [done|apply bump_frame]).
  apply wp_bind, wp_mpz_init_zero; [done|cbn; lia|]. intros st1 Hu1.
  assert (later st st1) as Hl1 by by eapply later_updated.
  pose proof Hu1 as (Hwf1 & Hfr1 & Ho1 & _).
  assert (owns st1 res) as Hor.
  { eapply owns_frame; [exact Hwf|apply Hl1|apply not_elem_of_nil|done]. }
  pose proof (later_repr _ _ _ _ Hwf Hl1 Hv) as Hv1. pose proof (later_repr _ _ _ _ Hwf Hl1 Hw) as Hw1.
  assert (nxt st <> res /\ nxt st <> zlhs /\ nxt st <> zrhs) as (Hn1 & Hn2 & Hn3) by lia.
  assert (exists D y y', (forall Q' : unit -> mpz_store -> Prop,
      (forall st', frame st1 st' D -> wf st' -> owns st' (nxt st) -> repr st' res x -> Q' tt st') ->
      wp (mpz_divmod_inpl q r zlhs zrhs) st1 Q') /\ D = [y; y'] /\ (y = res \/ y = nxt st) /\ (y' = res \/ y' = nxt st))
    as (D & y & y' & Hdiv & -> & Hy & Hy').
  { exists [q; r], q, r. split; [|intuition]. intros Q' HQ'.
    apply (wp_mpz_divmod_inpl _ _ _ _ _ v w); try done; try lia; [intuition congruence..|].
    intros st' z (Hwf' & Hfr' & Hoq & Hor' & Hrq & Hrr) Hz. apply HQ'; [done|done|..].
    - destruct Hqr as [(-> & -> & ->)|(-> & -> & ->)]; done.
    - destruct Hqr as [(-> & -> & ->)|(-> & -> & ->)]; [done|]. rewrite <-Hz; [done|]. left. lia. }
  apply wp_bind, Hdiv. intros st2 Hfr2 Hwf2 Ho2 Hr2.
  apply wp_bind, wp_mpz_deinit; [done|]. intros st3 Hf3. apply wp_bind, wp_end_scope. intros st4 Hf4.
  assert (later st0 st2) as Hl2.
  { split; [done|]. pose proof (proj1 Hfr0). eapply (frame_fresh2 st0 st1 st2 y y'); [|exact Hfr2|lia|right; lia].
    eapply frame_trans; [exact Hfr0|apply Hl1]. }
  assert (later st0 st4) as Hl4.
  { pose proof (proj1 Hfr0). apply (later_freed st0 st3 _ (nxt st)); [|lia|done].
    by apply (later_freed st0 st2 _ (nxt st)). }
  assert (repr st4 res x) as Hr4 by (apply (freed_repr _ _ _ _ _ Hf4); [lia|]; by apply (freed_repr _ _ _ _ _ Hf3); [lia|]).
  apply (wp_int_end st4 x); [done|done|]. intros r'. by apply HQ.
Qed.

(** The first [switch] of [mp_obj_int_binary_op]. *)
Lemma wp_int_arith op a rhs_in out (Q : exn + obj -> mpz_store -> Prop) :
  op = PLAIN a \/ op = INPLACE a -> a <> TRUE_DIVIDE -> arith_outcome true a v w = Some out ->
  denotes st rhs_in w -> is_int_type rhs_in = true ->
  enough_digits op v w ->
  (forall r st', later st0 st' -> meets st' (nxt st0) r out -> Q r st') ->
  wp (int_arith op a res zlhs zrhs rhs_in) st Q.
Proof using Hlater Hres Ho Hv Hw Hvr Hwr.
  intros Hop Ha Hout Hrhs Hint [Hsz Hsz'] HQ. pose proof (proj1 Hlater) as Hwf.
  pose proof (ndigs_nonneg v). pose proof (ndigs_nonneg w).
  assert (forall e, out = ErrOut e -> Q (inl e) st) as HQe by (intros e ->; by apply HQ).
  destruct a; cbn [int_arith]; try done; cbn [arith_outcome] in Hout.
  all: try (injection Hout as <-; eapply wp_int_done; [|exact HQ]; intros Q' HQ').
  - apply (wp_mpz_or_inpl _ _ _ _ v w); try done. lia.
  - apply (wp_mpz_xor_inpl _ _ _ _ v w); try done. lia.
  - apply (wp_mpz_and_inpl _ _ _ _ v w); try done. lia.
  - injection Hout as <-. unfold shift_outcome in *.
    apply wp_xbind, (wp_get_checked _ _ w); [done|done|]. destruct (Z.ltb_spec (Z.abs w) (2 ^ 31)); [|by apply HQe].
    destruct (Z.ltb_spec w 0); [by apply wp_ret, HQe|].
    eapply wp_int_done; [|exact HQ]. intros Q' HQ'. apply (wp_mpz_shl_inpl _ _ _ v w); try done; [lia|].
    destruct Hop as [-> | ->]; apply Hsz'; lia.
  - injection Hout as <-. unfold shift_outcome in *.
    apply wp_xbind, (wp_get_checked _ _ w); [done|done|]. destruct (Z.ltb_spec (Z.abs w) (2 ^ 31)); [|by apply HQe].
    destruct (Z.ltb_spec w 0); [by apply wp_ret, HQe|].
    eapply wp_int_done; [|exact HQ]. intros Q' HQ'. by apply (wp_mpz_shr_inpl _ _ _ v w).
  - apply (wp_mpz_add_inpl _ _ _ _ v w); try done; lia.
  - apply (wp_mpz_sub_inpl _ _ _ _ v w); try done; lia.
  - apply (wp_mpz_mul_inpl _ _ _ _ v w); try done; lia.
  - injection Hout as <-. unfold division_outcome in *. apply wp_bind, (wp_z_is_zero _ _ w); [done|].
    destruct (Z.eqb_spec w 0); [by apply wp_ret, HQe|]. apply wp_bind, wp_new_id.
    apply (wp_divmod_local res (nxt st) (nxt st) (v / w)); try done. by right.
  - injection Hout as <-. unfold division_outcome in *. apply wp_bind, (wp_z_is_zero _ _ w); [done|].
    destruct (Z.eqb_spec w 0); [by apply wp_ret, HQe|]. apply wp_bind, wp_new_id.
    apply (wp_divmod_local (nxt st) res (nxt st) (v `mod` w)); try done. by left.
  - apply wp_bind, (wp_z_is_neg _ _ w); [done|]. destruct (Z.ltb_spec w 0); [done|]. injection Hout as <-.
    eapply wp_int_done; [|exact HQ]. intros Q' HQ'. apply (wp_mpz_pow_inpl _ _ _ _ v w); try done.
    + destruct Hop as [-> | ->]; apply Hsz'; lia.
    + intros st' Hu. apply HQ'. unfold power. destruct (Z.eqb_spec v 0) as [->|]; [|done].
      destruct (Z.eqb_spec w 0) as [->|]; [done|]. cbn [andb]. by rewrite Z.pow_0_l by lia.
Qed.

End Arith.

Lemma wp_new_float st f (Q : exn + obj -> mpz_store -> Prop) : wf st ->
  (forall r st', later st st' -> meets st' (nxt st) r (FloatOut f) -> Q r st') -> wp (safe (mp_obj_new_float f)) st Q.
Proof.
  intros Hwf HQ. apply wp_safe, wp_bind, wp_new_id, wp_ret, HQ; [|done].
  split; [by apply bump_wf|by apply bump_frame].
Qed.

Lemma later_part st st' n h o v : wf st -> later st st' -> part st n h o v -> part st' n h o v.
Proof.
  intros Hwf Hl. destruct h; cbn; [|done]. intros (y & -> & Hr & Hn). exists y. split; [done|]. split; [|done].
  by eapply later_repr.
Qed.

Lemma wp_new_pair st0 st h oq om q m (Q : exn + obj -> mpz_store -> Prop) : later st0 st ->
  part st (nxt st0) h oq q -> part st (nxt st0) h om m ->
  (forall r st', later st0 st' -> meets st' (nxt st0) r (PairOut h q m) -> Q r st') ->
  wp (safe (mp_obj_new_tuple [oq; om])) st Q.
Proof.
  intros Hl Hq Hm HQ. assert (later st (bump st)) as Hlb.
  { split; [by apply bump_wf, Hl|by apply bump_frame]. }
  apply wp_safe, wp_bind, wp_new_id, wp_ret, HQ; [by eapply later_trans|].
  by split; (eapply later_part; [apply Hl|exact Hlb|]).
Qed.

(** [DIVMOD] on the heap: the parts of the pair are not made small. *)
Lemma wp_divmod_pair st0 st res zlhs zrhs v w (Q : exn + obj -> mpz_store -> Prop) :
  later st0 st -> (nxt st0 <= res)%nat -> owns st res -> repr st zlhs v -> repr st zrhs w ->
  res <> zrhs -> res <> zlhs -> w <> 0 -> ndigs v + ndigs w + 1 < MAX_DIG ->
  (forall r st', later st0 st' -> meets st' (nxt st0) r (PairOut true (v / w) (v `mod` w)) -> Q r st') ->
  wp (quo ← mp_obj_int_new_mpz; mpz_divmod_inpl quo res zlhs zrhs;; safe (mp_obj_new_tuple [OInt quo; OInt res])) st Q.
Proof.
  intros Hl Hres Ho Hv Hw Hrw Hrv Hw0 Hsz HQ. pose proof (proj1 Hl) as Hwf.
  pose proof (repr_lt _ _ _ Hwf Hv). pose proof (repr_lt _ _ _ Hwf Hw). pose proof (owns_lt _ _ Hwf Ho).
  pose proof (ndigs_nonneg v). pose proof (ndigs_nonneg w). pose proof (later_nxt _ _ Hl).
  apply wp_bind, wp_new_mpz; [done|]. intros st1 Hl1 Ho1 _.
  apply wp_bind, (wp_mpz_divmod_inpl _ _ _ _ _ v w); try lia; try (by eapply later_repr); [apply Hl1|done| |].
  { eapply owns_frame; [exact Hwf|apply Hl1|apply not_elem_of_nil|done]. }
  intros st2 x (Hwf2 & Hfr2 & _ & _ & Hrq & Hrr) Hx. rewrite Hx in Hrq by lia.
  apply (wp_new_pair st0 _ true _ _ (v / w) (v `mod` w)); [|by eexists..|done].
  split; [done|]. apply (frame_fresh2 st0 st1 st2 (nxt st) res); [|done|lia|by right].
  eapply frame_trans; [apply Hl|apply Hl1].
Qed.

(** Equality up to the sign that [mpz_cmp] returns. *)
Lemma cmp_outcome v w :
  (Z.sgn (v - w) <? 0) = (v <? w) /\ (Z.sgn (v - w) >? 0) = (v >? w) /\ (Z.sgn (v - w) <=? 0) = (v <=? w) /\
  (Z.sgn (v - w) >=? 0) = (v >=? w) /\ (Z.sgn (v - w) =? 0) = (v =? w).
Proof.
  rewrite !Z.gtb_ltb, !Z.geb_leb.
  destruct (Z.ltb_spec v w), (Z.ltb_spec w v), (Z.leb_spec v w), (Z.leb_spec w v), (Z.eqb_spec v w); try lia;
    (replace (Z.sgn (v - w)) with (-1) by lia || replace (Z.sgn (v - w)) with 1 by lia ||
     replace (Z.sgn (v - w)) with 0 by lia); done.
Qed.

Lemma wp_int_binary_op_z st op zlhs zrhs rhs_in v w out (Q : exn + obj -> mpz_store -> Prop) :
  wf st -> repr st zlhs v -> repr st zrhs w -> denotes st rhs_in w -> is_int_type rhs_in = true ->
  binary_outcome true op v w = Some out -> op <> NOT_EQUAL -> enough_digits op v w ->
  (forall r st', later st st' -> meets st' (nxt st) r out -> Q r st') ->
  wp (int_binary_op_z op zlhs zrhs rhs_in) st Q.
Proof.
  intros Hwf Hv Hw Hrhs Hint Hout Hne Hsz HQ.
  pose proof (repr_lt _ _ _ Hwf Hv). pose proof (repr_lt _ _ _ Hwf Hw).
  assert (forall a, a <> TRUE_DIVIDE -> op = PLAIN a \/ op = INPLACE a -> arith_outcome true a v w = Some out ->
    wp (res ← mp_obj_int_new_mpz; int_arith op a res zlhs zrhs rhs_in) st Q) as Harith.
  { intros a Ha Hop Ho. apply wp_bind, wp_new_mpz; [done|]. intros st1 Hl1 Ho1 _.
    apply (wp_int_arith st st1 (nxt st) zlhs zrhs v w) with (out := out); try done; try lia;
      try (by eapply later_repr); by eapply later_denotes. }
  assert (out = division_outcome w (FloatOut (float_div (heap_float v) (heap_float w))) -> wp (zero ← mpz_is_zero zrhs; if zero : bool then raise ZeroDivisionError else
      flhs ← mpz_as_float zlhs; frhs ← mpz_as_float zrhs; safe (mp_obj_new_float (float_div flhs frhs))) st Q) as Hdiv.
  { intros ->. unfold division_outcome in *. apply wp_bind, (wp_z_is_zero _ _ w); [done|].
    destruct (w =? 0); [apply wp_ret, HQ; [by apply later_refl|done]|].
    apply wp_bind, (wp_mpz_as_float _ _ v); [done|].
    apply wp_bind, (wp_mpz_as_float _ _ w); [done|]. by apply wp_new_float. }
  destruct (cmp_outcome v w) as (C1 & C2 & C3 & C4 & C5).
  destruct op as [| | | | | | | | |a|a| | |a]; cbn [binary_outcome] in Hout; try done;
    try (injection Hout as <-; apply wp_bind, (wp_mpz_cmp _ _ _ v w); [done|done|];
         apply wp_xret, HQ; [by apply later_refl|]; cbn; by rewrite ?C1, ?C2, ?C3, ?C4, ?C5).
  - destruct a; try (apply Harith; [done|by right|done]). injection Hout as <-. by apply Hdiv.
  - destruct a; try (apply Harith; [done|by left|done]). injection Hout as <-. by apply Hdiv.
  - injection Hout as <-. unfold division_outcome in *. apply wp_bind, wp_new_mpz; [done|]. intros st1 Hl1 Ho1 _.
    apply wp_bind, (wp_z_is_zero _ _ w); [by eapply later_repr|].
    destruct (Z.eqb_spec w 0); [apply wp_ret, HQ; [done|done]|].
    apply (wp_divmod_pair st _ _ _ _ v w); try done; try lia; try (by eapply later_repr). apply Hsz.
Qed.

End HeapOps.
