(* ===== verification/ObjIntProps.v ===== *)
(** * Integer arithmetic of the run time is that of Python

    [mp_binary_op] and [mp_unary_op] on small integers, integers on the heap and
    booleans, in any combination. *)
From Stdlib Require Import SpecFloat.
From S2P Require Import Prelude.
From S2P Require Import CMem.
From S2P Require Import Mpz.
From S2P Require Import MpzSpec.
From S2P Require Import MpzArith.
From S2P Require Import MpzMul.
From S2P Require Import MpzPow.
From S2P Require Import MpzConvFacts.
From S2P Require Import MpzProps.
From S2P Require Import ObjInt.
From S2P Require Import ObjIntFacts.
From S2P Require Import ObjIntOps.
Local Open Scope Z_scope.

Definition heap_int (o : obj) : bool := match o with OInt _ => true | _ => false end.

Record args_ok (st : mpz_store) (op : mp_binary_op_t) (lhs rhs : obj) (v w : Z) (out : outcome) : Prop := {
  ao_wf : wf st;
  ao_lhs : denotes st lhs v;
  ao_rhs : denotes st rhs w;
  ao_out : binary_outcome (heap_int lhs || heap_int rhs) op v w = Some out;
  ao_digits : enough_digits op v w;
}.

Definition ends (st : mpz_store) (out : outcome) (r : exn + obj) (st' : mpz_store) : Prop :=
  later st st' /\ meets st' (nxt st) r out.

Section Ops.
Context {heap : Heap} {types : OtherTypes}.

Lemma ends_later st st1 st2 out r : later st st1 -> ends st1 out r st2 -> ends st out r st2.
Proof.
  intros Hl [Hl' Hm]. split; [by eapply later_trans|]. eapply meets_le; [by apply later_nxt|done].
Qed.

(** ** The slot of [int] *)

Lemma wp_end_fixed st z (Q : unit -> mpz_store -> Prop) :
  (forall st', freed st st' z -> Q tt st') -> wp (end_fixed z) st Q.
Proof.
  intros HQ. apply wp_modify, HQ. split; [done|]. split.
  - intros y Hy. cbn. by rewrite !lookup_delete_ne.
  - intros Hwf y Hy. cbn in *. destruct (Hwf y Hy). by rewrite !lookup_delete_None; auto.
Qed.

(** An operand, with its structure; [z_int] is written if it is small. *)
Lemma wp_operand st z_int o v (Q : nat -> mpz_store -> Prop) :
  wf st -> (z_int < nxt st)%nat -> denotes st o v -> is_int_type o = true ->
  (forall st' z, wf st' -> frame st st' (if heap_int o then [] else [z_int]) -> nxt st' = nxt st ->
    z = (match o with OInt z => z | _ => z_int end) -> repr st' z v -> Q z st') ->
  wp (match o with
      | OSmall w =>
          mpz_init_fixed_from_int z_int (map (junk z_int MPZ_NUM_DIG_FOR_INT) (seq 0 (Z.to_nat MPZ_NUM_DIG_FOR_INT)))
            MPZ_NUM_DIG_FOR_INT (MP_OBJ_SMALL_INT_VALUE w);; mret z_int
      | OInt z => mret z
      | _ => stuck
      end) st Q.
Proof.
  intros Hwf Hz Hd Hi HQ. destruct o as [|word|z| | | |]; try done.
  - rewrite (denotes_word _ _ _ Hd). destruct Hd as [Hs _]. unfold small_range in Hs.
    apply wp_bind. cbn [map seq Z.to_nat]. apply wp_mpz_init_fixed; [done|done|lia|].
    intros st' Hwf' Hfr Hn Hr. apply wp_ret. by apply HQ.
  - apply wp_ret, HQ; done.
Qed.

Lemma wp_int_op binary_op st op lhs rhs v w out :
  args_ok st op lhs rhs v w out -> is_int_type lhs = true -> is_int_type rhs = true ->
  heap_int lhs || heap_int rhs = true -> op <> NOT_EQUAL ->
  wp (mp_obj_int_binary_op binary_op op lhs rhs) st (ends st out).
Proof.
  intros [Hwf Hl Hr Hout Hsz] Hil Hir Hheap Hne. rewrite Hheap in Hout.
  apply wp_bind, wp_new_id. change (MkStore _ _ _) with (bump st). pose proof (bump_wf _ Hwf) as Hwfb.
  assert (later st (bump st)) as Hlb by (split; [done|apply bump_frame]).
  pose proof (later_denotes _ _ _ _ Hwf Hlb Hl) as Hlb'. pose proof (later_denotes _ _ _ _ Hwf Hlb Hr) as Hrb'.
  cbv zeta. apply wp_bind, (wp_operand _ _ _ v); [done|cbn; lia|done|done|].
  intros st1 zl Hwf1 Hfr1 Hn1 Hzl Hv1.
  assert (forall zr st2, frame (bump st) st2 [nxt st] -> wf st2 -> nxt st2 = S (nxt st) -> repr st2 zl v -> repr st2 zr w ->
    denotes st2 rhs w ->
    wp (int_binary_op_z op zl zr rhs) st2 (fun r s => wp (end_fixed (nxt st);; mret r) s (ends st out))) as Hend.
  { intros zr st2 Hfr2 Hwf2 Hn2 Hv2 Hw2 Hrhs2. apply (wp_int_binary_op_z _ _ _ _ _ v w out); try done. intros r st3 Hl3 Hm.
    apply wp_bind, wp_end_fixed. intros st4 Hf. apply wp_ret. split.
    - apply (later_freed st st3 _ (nxt st)); [|done|done]. split; [apply Hl3|].
      eapply frame_trans; [|apply Hl3]. eapply frame_fresh; [apply Hlb|exact Hfr2|done].
    - eapply meets_le; [|eapply freed_meets; [done| |done]]; lia. }
  apply wp_bind. destruct rhs as [|word|zr| | | |]; try done.
  - destruct lhs as [| |z| | | |]; try done. subst zl.
    assert (later st st1) as Hl1 by (split; [done|by eapply frame_trans; [apply Hlb|]]).
    rewrite (denotes_word _ _ _ Hr). pose proof Hr as [Hs _]. unfold small_range in Hs.
    apply wp_bind. cbn [map seq Z.to_nat]. apply wp_mpz_init_fixed; [done|rewrite Hn1; cbn; lia|lia|].
    intros st2 Hwf2 Hfr2 Hn2 Hw2. apply Hend; [|done|by rewrite Hn2, Hn1| |done|done].
    + eapply frame_trans; [|done]. eapply frame_mono; [done|]. by intros y ?%elem_of_nil.
    + eapply repr_frame; [exact Hwf1|exact Hfr2| |done]. apply not_elem_of_list_1.
      pose proof (repr_lt _ _ _ Hwf Hl). lia.
  - pose proof (repr_lt _ _ _ Hwf Hr). assert (repr st1 zr w) as Hw1.
    { eapply repr_frame; [exact Hwfb|exact Hfr1| |done]. destruct (heap_int lhs); [apply not_elem_of_nil|].
      apply not_elem_of_list_1. lia. }
    apply Hend; try done. eapply frame_mono; [exact Hfr1|]. destruct (heap_int lhs); [by intros y ?%elem_of_nil|done].
Qed.

(** ** Small integers *)

(** One multiplication of the loop, if the bit of the exponent is set. *)
Lemma wp_pow_bit st ans b e (Q : option Z -> mpz_store -> Prop) : small_range ans -> small_range b -> 0 <= e ->
  (small_range (ans * b ^ (e `mod` 2)) -> Q (Some (ans * b ^ (e `mod` 2))) st) -> Q None st ->
  wp (if negb (Z.land e 1 =? 0) then
        if mp_small_int_mul_overflow ans b then mret None
        else ans ← sint (ans * b); mret (Some ans)
      else mret (Some ans)) st Q.
Proof.
  intros Ha Hb He Hsome Hnone. change 1 with (2 ^ 1 - 1) at 1. rewrite land_pow2_mask by lia. change (2 ^ 1) with 2.
  pose proof (Z.mod_pos_bound e 2 ltac:(lia)). destruct (Z.eqb_spec (e `mod` 2) 0) as [E|Hne]; cbn [negb].
  - rewrite E, Z.pow_0_r, Z.mul_1_r in Hsome. by apply wp_ret, Hsome.
  - replace (e `mod` 2) with 1 in Hsome by lia. rewrite Z.pow_1_r in Hsome. rewrite mul_overflow_exact by done.
    case_bool_decide as Hs; cbn [negb]; [|by apply wp_ret].
    apply wp_bind, wp_sint; [unfold small_range in Hs; lia|]. by apply wp_ret, Hsome.
Qed.

(** The loop gives the power, or finds that some product is too large. *)
Lemma wp_small_pow st v w (Q : option Z -> mpz_store -> Prop) : small_range v -> 0 <= w < 2 ^ 30 ->
  (small_range (v ^ w) -> Q (Some (v ^ w)) st) -> (w <> 0 -> Q None st) -> wp (small_pow v w) st Q.
Proof.
  intros Hv Hw Hsome Hnone.
  apply (wp_loop_idx (fun k '(ans, b, e) st' => st' = st /\ small_range ans /\ small_range b /\
    0 <= e < 2 ^ Z.of_nat k /\ ans * b ^ e = v ^ w /\ (w = 0 -> e = 0))) with (k := 30%nat);
    [|repeat split; unfold small_range in *; lia|lia].
  intros k [[ans b] e] st' (-> & Hans & Hb & He & Hinv & Hw0). rewrite Z.gtb_ltb.
  destruct (Z.ltb_spec 0 e) as [Hpos|Hle]; cbn [negb].
  2:{ apply wp_ret. assert (e = 0) as -> by lia. rewrite Z.mul_1_r in Hinv. rewrite Hinv in *. auto. }
  assert (w <> 0) as Hwn by (intros H0; specialize (Hw0 H0); lia).
  pose proof (Z.div_mod e 2 ltac:(lia)) as He2. pose proof (Z.mod_pos_bound e 2 ltac:(lia)).
  apply wp_bind, wp_pow_bit; [done|done|lia| |by apply wp_ret, Hnone].
  intros Hans'. destruct (Z.eqb_spec e 1) as [->|Hne].
  - apply wp_ret. change (1 `mod` 2) with 1 in *. rewrite Hinv in *. auto.
  - rewrite Z.quot_div_nonneg by lia. rewrite mul_overflow_exact by done.
    case_bool_decide as Hs; cbn [negb]; [|by apply wp_ret, Hnone].
    apply wp_bind, wp_sint; [unfold small_range in Hs; lia|]. apply wp_ret.
    assert (k <> 0)%nat as Hk by (intros ->; cbn in He; lia).
    exists (k - 1)%nat. split; [lia|]. repeat split; try done; try apply Hs; try apply Hans'.
    + apply Z.div_pos; lia.
    + apply Z.div_lt_upper_bound; [lia|]. rewrite <-Z.pow_succ_r by lia.
      replace (Z.succ (Z.of_nat (k - 1))) with (Z.of_nat k) by lia. lia.
    + rewrite <-Hinv, <-Z.mul_assoc. f_equal. rewrite <-Z.pow_2_r, <-Z.pow_mul_r by (try apply Z.div_pos; lia).
      rewrite <-Z.pow_add_r by (try apply Z.div_pos; lia). f_equal. lia.
Qed.

(** The result of a slot is the result of the operator. *)
Lemma wp_generic binary_op n st0 st op lhs rhs out : later st0 st ->
  wp (slot_binary_op binary_op op lhs rhs) st (ends st out) ->
  wp (generic_binary_op binary_op n op lhs rhs) st (ends st0 out).
Proof.
  intros Hl Hs. destruct n; cbn [generic_binary_op]; apply wp_xbind; (eapply wp_mono; [exact Hs|]);
    intros [e|o] st' He; (pose proof (ends_later _ _ _ _ _ Hl He) as He'); [done| |done|];
    destruct He as [_ Hm]; rewrite (meets_not_null _ _ _ _ Hm); by apply wp_xret.
Qed.

Lemma wp_higher_precision binary_op st op lhs rhs v w out :
  args_ok st op lhs rhs v w out -> binary_outcome true op v w = Some out -> small_range v -> is_int_type rhs = true ->
  op <> NOT_EQUAL ->
  wp (higher_precision binary_op op v rhs) st (ends st out).
Proof.
  intros [Hwf Hl Hr _ Hsz] Hout Hv Hir Hne. unfold small_range in Hv.
  apply wp_bind, wp_new_int_from_ll; [done|lia|]. intros st1 z Hl1 Hr1.
  apply wp_generic; [done|]. apply (wp_int_op _ _ _ _ _ v w); try done.
  split; try done; [apply Hl1|by eapply later_denotes].
Qed.

Lemma wp_new_int_ends st0 st v : later st0 st -> - 2 ^ 31 <= v < 2 ^ 31 ->
  wp (safe (mp_obj_new_int v)) st (ends st0 (IntOut v)).
Proof.
  intros Hl Hv. apply wp_safe. unfold mp_obj_new_int. rewrite small_int_fits by done. case_bool_decide as Hs.
  - apply wp_ret. split; [done|]. split; [|done]. unfold canonical. by rewrite decide_True.
  - apply wp_bind, wp_new_mpz; [apply Hl|]. intros st1 Hl1 Ho1 _.
    apply wp_bind, wp_mpz_set_from_ll; [apply Hl1|done|lia|]. intros st2 Hu. apply wp_ret.
    pose proof (later_nxt _ _ Hl). pose proof Hu as (_ & _ & _ & Hr2).
    split; [eapply later_trans; [done|]; by eapply later_updated|]. split; [|done].
    unfold canonical. rewrite decide_False by done. by exists (nxt st).
Qed.

Lemma wp_small_result st c v : wf st -> - 2 ^ 31 <= v < 2 ^ 31 ->
  (forall Q : Z -> mpz_store -> Prop, Q v st -> wp c st Q) -> wp (small_result c) st (ends st (IntOut v)).
Proof. intros Hwf Hv Hc. apply wp_bind, Hc. apply wp_new_int_ends; [by apply later_refl|done]. Qed.

Lemma ends_error st e : wf st -> ends st (ErrOut e) (inl e) st.
Proof. intros Hwf. split; [by apply later_refl|done]. Qed.

Lemma wp_small_arith binary_op st op a l r v w out :
  args_ok st op (OSmall l) (OSmall r) v w out -> op = PLAIN a \/ op = INPLACE a ->
  wp (small_arith binary_op op a v w (OSmall r)) st (ends st out).
Proof.
  intros Hok Hop. pose proof Hok as [Hwf [Hv _] [Hw _] Hout _].
  assert (arith_outcome false a v w = Some out) as Ha by by destruct Hop; subst op.
  clear Hout.
  assert (arith_outcome true a v w = Some out -> wp (higher_precision binary_op op v (OSmall r)) st (ends st out)) as Hhigh.
  { intros H0. eapply wp_higher_precision; [exact Hok|..|done|done|]; by destruct Hop; subst op. }
  assert (forall c x, out = IntOut x -> - 2 ^ 31 <= x < 2 ^ 31 ->
    (forall Q : Z -> mpz_store -> Prop, Q x st -> wp c st Q) -> wp (small_result c) st (ends st out)) as Hres.
  { intros c x -> Hx Hc. by apply wp_small_result. }
  destruct (small_bitwise v w Hv Hw) as (Hor & Hxor & Hand).
  destruct a; cbn [small_arith arith_outcome] in *; try done; try injection Ha as <-; try specialize (Hhigh eq_refl);
    unfold shift_outcome, division_outcome in *; unfold small_range in *.
  - eapply Hres; [done|lia|]. intros Q HQ. by apply wp_ret.
  - eapply Hres; [done|lia|]. intros Q HQ. by apply wp_ret.
  - eapply Hres; [done|lia|]. intros Q HQ. by apply wp_ret.
  - rewrite (proj2 (Z.ltb_lt (Z.abs w) _)) in * by lia.
    destruct (Z.ltb_spec w 0); [by apply wp_ret, ends_error|]. destruct (_ || _) eqn:E.
    { exact Hhigh. }
    apply orb_false_iff in E as [[E1 E2]%orb_false_iff E3]. rewrite Z.geb_leb, Z.leb_gt in E1.
    rewrite Z.gtb_ltb, Z.ltb_ge in E2. rewrite Z.ltb_ge in E3.
    destruct (small_shift_left v w Hv ltac:(lia) E2 E3) as [Hb ->]. eapply Hres; [done|lia|].
    intros Q HQ. by apply wp_ret.
  - rewrite (proj2 (Z.ltb_lt (Z.abs w) _)) in * by lia.
    destruct (Z.ltb_spec w 0); [by apply wp_ret, ends_error|]. cbv zeta. rewrite small_shift_right by done.
    eapply Hres; [done| |intros Q HQ; by apply wp_ret]. pose proof (Z.pow_pos_nonneg 2 w ltac:(lia) ltac:(lia)).
    pose proof (Z.div_mod v (2 ^ w) ltac:(lia)). pose proof (Z.mod_pos_bound v (2 ^ w) ltac:(lia)). nia.
  - eapply Hres; [done|lia|]. intros Q HQ. apply wp_sint; [lia|done].
  - eapply Hres; [done|lia|]. intros Q HQ. apply wp_sint; [lia|done].
  - rewrite mul_overflow_exact by done. case_bool_decide as Hs; cbn [negb]; [|exact Hhigh].
    apply wp_bind, wp_sint; [unfold small_range in Hs; lia|]. apply wp_xret. split; [by apply later_refl|].
    split; [|done]. unfold canonical. by rewrite decide_True.
  - destruct (Z.eqb_spec w 0) as [|Hne]; [by apply wp_ret, ends_error|]. eapply Hres; [done| |].
    + Z.to_euclidean_division_equations. nia.
    + intros Q HQ. by apply wp_small_floor_divide.
  - destruct (Z.eqb_spec w 0); [by apply wp_ret, ends_error|]. by apply wp_new_float.
  - destruct (Z.eqb_spec w 0) as [|Hne]; [by apply wp_ret, ends_error|]. eapply Hres; [done| |].
    + pose proof (Z.mod_pos_bound v w). pose proof (Z.mod_neg_bound v w). lia.
    + intros Q HQ. by apply wp_small_modulo.
  - destruct (Z.ltb_spec w 0); [done|]. injection Ha as <-.
    apply wp_bind, wp_small_pow; [done|lia| |].
    + intros Hs. change (power false v w) with (v ^ w). apply wp_new_int_ends; [by apply later_refl|unfold small_range in Hs; lia].
    + intros Hw0. apply Hhigh. unfold power. by rewrite (proj2 (Z.eqb_neq w 0)), andb_false_r by done.
Qed.

Lemma wp_small_binary_op binary_op st op l r v w out :
  args_ok st op (OSmall l) (OSmall r) v w out -> op <> EQUAL -> op <> NOT_EQUAL ->
  wp (small_binary_op binary_op op v w (OSmall r)) st (ends st out).
Proof.
  intros Hok He Hne. pose proof Hok as [Hwf [Hv _] [Hw _] Hout _].
  cbn [heap_int orb] in Hout. assert (forall b, out = BoolOut b -> wp (xret (mp_obj_new_bool b)) st (ends st out)) as Hbool.
  { intros b ->. apply wp_xret. split; [by apply later_refl|done]. }
  destruct op as [| | | | | | | | |a|a| | |a]; cbn [binary_outcome small_binary_op] in *; try done;
    try (injection Hout as <-; by apply Hbool).
  - eapply wp_small_arith; [done|by right].
  - eapply wp_small_arith; [done|by left].
  - injection Hout as <-. unfold division_outcome in *.
    destruct (Z.eqb_spec w 0) as [|Hw0]; [by apply wp_ret, ends_error|].
    apply wp_bind, wp_small_floor_divide; [done..|]. apply wp_bind, wp_small_modulo; [done..|].
    apply (wp_new_pair st _ false _ _ (divmod_quotient false v w) (v `mod` w)); [by apply later_refl|..|done]; cbn [part].
    + unfold divmod_quotient. cbn [negb andb]. destruct (Z.eqb_spec v (- 2 ^ 30)) as [->|]; [destruct (Z.eqb_spec w (-1)) as [->|]|];
        cbn [andb]; (split; [|done]); unfold small_range in *; [done|Z.to_euclidean_division_equations; nia..].
    + split; [|done]. unfold small_range in *. pose proof (Z.mod_pos_bound v w). pose proof (Z.mod_neg_bound v w). lia.
Qed.

(** ** Equality *)

Definition equality_outcome (op : mp_binary_op_t) (v w : Z) : outcome :=
  BoolOut (match op with NOT_EQUAL => negb (v =? w) | _ => v =? w end).

Lemma denotes_number st o v : denotes st o v -> is_number o = true.
Proof. by destruct o. Qed.

Lemma same_word_same_value st o1 o2 v w : denotes st o1 v -> denotes st o2 w -> obj_word_eqb o1 o2 = true -> v = w.
Proof.
  destruct o1 as [|w1|z1|b1| | |], o2 as [|w2|z2|b2| | |]; try done; cbn [obj_word_eqb].
  - intros H1 H2 ->%Z.eqb_eq. by rewrite <-(denotes_word _ _ _ H1), <-(denotes_word _ _ _ H2).
  - intros H1 H2 ->%Nat.eqb_eq. by apply (repr_inj st z2).
  - by intros -> -> ->%Bool.eqb_prop.
Qed.

Lemma other_word_other_value st w1 w2 v w : denotes st (OSmall w1) v -> denotes st (OSmall w2) w ->
  obj_word_eqb (OSmall w1) (OSmall w2) = false -> v <> w.
Proof. intros [_ H1] [_ H2] Hne ->. rewrite <-H2 in H1. injection H1 as ->. cbn in Hne. by rewrite Z.eqb_refl in Hne. Qed.

(** What the nested call gives for a boolean among the two operands. *)
Definition bool_calls (binary_op : mp_binary_op_t -> obj -> obj -> X obj) (st : mpz_store) (o1 o2 : obj) : Prop :=
  forall b o u, denotes st o u -> (o1 = OBool b /\ o2 = o) \/ (o2 = OBool b /\ o1 = o) ->
    wp (binary_op EQUAL (MP_OBJ_NEW_SMALL_INT (zbool b)) o) st (ends st (BoolOut (zbool b =? u))).

Lemma bool_calls_sym f st o1 o2 : bool_calls f st o1 o2 -> bool_calls f st o2 o1.
Proof. intros H b o u Hd Ho. apply H; [done|tauto]. Qed.

Lemma wp_equal_pass f st o1 o2 v w : wf st -> denotes st o1 v -> denotes st o2 w ->
  ndigs v + ndigs w + 1 < MAX_DIG -> (is_int_type o1 && is_int_type o2 = true -> heap_int o1 || heap_int o2 = true) ->
  bool_calls f st o1 o2 ->
  wp (equal_pass f o1 o2) st (fun r st' =>
    (is_int_type o1 = true /\ is_int_type o2 = false /\ r = inr ONull /\ st' = st) \/ ends st (BoolOut (v =? w)) r st').
Proof.
  intros Hwf H1 H2 Hsz Hheap Hcalls.
  assert (is_int_type o1 = true -> wp (if is_int_type o2 then mp_obj_int_binary_op f EQUAL o1 o2 else xret ONull) st
    (fun r st' => (is_int_type o1 = true /\ is_int_type o2 = false /\ r = inr ONull /\ st' = st) \/
      ends st (BoolOut (v =? w)) r st')) as Hint.
  { intros Hi1. destruct (is_int_type o2) eqn:Hi2; [|apply wp_xret; by left].
    eapply wp_mono; [apply (wp_int_op _ _ _ _ _ v w (BoolOut (v =? w)))|]; [split|..]; try done.
    - apply Hheap. by rewrite Hi1.
    - intros r st' He. by right. }
  destruct o1 as [|w1|z1|b| | |]; try done; cbn [equal_pass]; [by apply Hint|by apply Hint|].
  rewrite H1. eapply wp_mono; [apply (Hcalls b o2 w); [done|by left]|]. intros r st' He. by right.
Qed.

(** The result of a pass, for the operator asked for. *)
Lemma wp_equal_result st0 st op v w o : op = EQUAL \/ op = NOT_EQUAL -> ends st0 (BoolOut (v =? w)) (inr o) st ->
  mp_obj_is_null o = false /\ wp (equal_result op o) st (ends st0 (equality_outcome op v w)).
Proof.
  intros Hop [Hl Hm]. cbn in Hm. subst o. split; [done|]. by destruct Hop as [-> | ->]; apply wp_xret.
Qed.

Lemma wp_equal_not_equal f st op o1 o2 v w : op = EQUAL \/ op = NOT_EQUAL ->
  wf st -> denotes st o1 v -> denotes st o2 w -> ndigs v + ndigs w + 1 < MAX_DIG -> bool_calls f st o1 o2 ->
  wp (mp_obj_equal_not_equal f op o1 o2) st (ends st (equality_outcome op v w)).
Proof.
  intros Hop Hwf H1 H2 Hsz Hcalls. unfold mp_obj_equal_not_equal.
  rewrite (denotes_number _ _ _ H1), (denotes_number _ _ _ H2). cbn [andb negb].
  assert (forall b, b = (v =? w) -> wp (xret (local_result op b)) st (ends st (equality_outcome op v w))) as Hlocal.
  { intros b ->. apply wp_xret. split; [by apply later_refl|]. by destruct Hop as [-> | ->]. }
  destruct (obj_word_eqb o1 o2) eqn:Eq.
  { apply Hlocal. symmetry. apply Z.eqb_eq. by eapply same_word_same_value. }
  assert (match o1, o2 with OSmall _, OSmall _ => False | _, _ => True end ->
    wp (r ←! (match o1 with OSmall _ => xret ONull | _ => equal_pass f o1 o2 end);
        if negb (mp_obj_is_null r) then equal_result op r
        else r ←! equal_pass f o2 o1;
          if negb (mp_obj_is_null r) then equal_result op r else xret (local_result op (obj_word_eqb o2 o1)))
      st (ends st (equality_outcome op v w))) as Hpasses.
  { intros Hns.
    assert (is_int_type o1 && is_int_type o2 = true -> heap_int o1 || heap_int o2 = true) as Hheap.
    { destruct o1, o2; try done. }
    assert (is_int_type o2 = false \/ is_int_type o1 = true -> wp (r ←! equal_pass f o2 o1;
          if negb (mp_obj_is_null r) then equal_result op r else xret (local_result op (obj_word_eqb o2 o1)))
      st (ends st (equality_outcome op v w))) as Hsecond.
    { intros Hi. apply wp_xbind. eapply wp_mono; [apply (wp_equal_pass f st o2 o1 w v); try done|].
      - lia.
      - by rewrite andb_comm, orb_comm.
      - by apply bool_calls_sym.
      - intros r st' [(Hi2 & Hi1 & _)|He]; [exfalso; destruct Hi; congruence|]. rewrite Z.eqb_sym in He.
        destruct r as [e|o]; [by destruct He|]. destruct (wp_equal_result _ _ op v w o Hop He) as [-> Hres]. exact Hres. }
    assert (wp (equal_pass f o1 o2) st (fun r st' => match r with
        | inl e => ends st (equality_outcome op v w) (inl e) st'
        | inr r => wp (if negb (mp_obj_is_null r) then equal_result op r
            else r ←! equal_pass f o2 o1;
              if negb (mp_obj_is_null r) then equal_result op r else xret (local_result op (obj_word_eqb o2 o1)))
            st' (ends st (equality_outcome op v w)) end)) as Hfirst.
    { eapply wp_mono; [by apply (wp_equal_pass f st o1 o2 v w)|]. intros r st' [(Hi1 & Hi2 & -> & ->)|He].
      - apply Hsecond. by left.
      - destruct r as [e|o]; [by destruct He|]. destruct (wp_equal_result _ _ op v w o Hop He) as [-> Hres]. exact Hres. }
    apply wp_xbind. destruct o1; try done; [|exact Hfirst..]. apply wp_xret, Hsecond. by right. }
  destruct o1, o2; try done; try (by apply Hpasses).
  apply Hlocal. symmetry. apply Z.eqb_neq. by eapply other_word_other_value.
Qed.

(** ** The nested calls *)

Lemma equality_args st op lhs rhs v w out : args_ok st op lhs rhs v w out -> op = EQUAL \/ op = NOT_EQUAL ->
  out = equality_outcome op v w.
Proof. intros [_ _ _ Hout _] [-> | ->]; cbn in Hout; unfold equality_outcome; congruence. Qed.

(** Operators other than [==] and [!=] go through the slots. *)
Lemma wp_nested_slot d st op lhs rhs v w out : args_ok st op lhs rhs v w out ->
  heap_int lhs || heap_int rhs || negb (is_int_type lhs && is_int_type rhs) = true -> op <> EQUAL -> op <> NOT_EQUAL ->
  wp (slot_binary_op (binary_op_nested d) op lhs rhs) st (ends st out) ->
  wp (binary_op_nested (S d) op lhs rhs) st (ends st out).
Proof.
  intros Hok Hkind He Hne Hslot. pose proof (ao_wf _ _ _ _ _ _ _ Hok) as Hwf.
  assert (wp (numeric_binary_op (binary_op_nested d) op lhs rhs) st (ends st out)) as Hnum.
  { pose proof (wp_generic (binary_op_nested d) 2 st st op lhs rhs out (later_refl _ Hwf) Hslot) as Hg.
    pose proof (ao_out _ _ _ _ _ _ _ Hok) as Hout. pose proof (ao_rhs _ _ _ _ _ _ _ Hok) as Hr.
    destruct lhs, rhs; try done; destruct op; try done; exact Hg. }
  pose proof (ao_out _ _ _ _ _ _ _ Hok) as Hout. destruct op; try done; exact Hnum.
Qed.

(** Both operands are integers: no nested call. *)
Lemma wp_nested_ints d st op lhs rhs v w out : args_ok st op lhs rhs v w out ->
  is_int_type lhs = true -> is_int_type rhs = true ->
  wp (binary_op_nested (S d) op lhs rhs) st (ends st out).
Proof.
  intros Hok Hl Hr. pose proof Hok as [Hwf Hv Hw Hout Hsz].
  assert (op = EQUAL \/ op = NOT_EQUAL -> wp (mp_obj_equal_not_equal (binary_op_nested d) op lhs rhs) st (ends st out)) as Heq.
  { intros Hop. rewrite (equality_args _ _ _ _ _ _ _ Hok Hop). apply wp_equal_not_equal; try done; [apply Hsz|].
    intros b o u _ [[-> _]|[-> _]]; done. }
  destruct (decide (heap_int lhs || heap_int rhs = true)) as [Hh|Hh].
  - assert (op <> EQUAL -> op <> NOT_EQUAL -> wp (binary_op_nested (S d) op lhs rhs) st (ends st out)) as Hother.
    { intros He Hne. eapply wp_nested_slot; try done; [by rewrite Hh|].
      destruct lhs; try done; eapply wp_int_op; done. }
    destruct op; try (by apply Hother); try done; apply Heq; auto.
  - destruct lhs as [|l| | | | |], rhs as [|r| | | | |]; try done.
    assert (op <> EQUAL -> op <> NOT_EQUAL -> wp (small_binary_op (binary_op_nested d) op (MP_OBJ_SMALL_INT_VALUE l)
      (MP_OBJ_SMALL_INT_VALUE r) (OSmall r)) st (ends st out)) as Hsmall.
    { intros He Hne. rewrite (denotes_word _ _ _ Hv), (denotes_word _ _ _ Hw). by apply (wp_small_binary_op _ _ _ l). }
    destruct op; try done; try (by apply Hsmall); apply Heq; auto.
Qed.

(** A boolean as the right operand of an integer. *)
Lemma args_bool_rhs st op lhs b v w out : args_ok st op lhs (OBool b) v w out ->
  args_ok st op lhs (MP_OBJ_NEW_SMALL_INT (zbool b)) v w out.
Proof.
  intros [Hwf Hv Hw Hout Hsz]. split; try done. cbn in Hw. subst w. apply denotes_small. unfold small_range.
  destruct b; cbn; lia.
Qed.

Lemma args_bool_lhs st op b rhs v w out : args_ok st op (OBool b) rhs v w out ->
  args_ok st op (MP_OBJ_NEW_SMALL_INT (zbool b)) rhs v w out.
Proof.
  intros [Hwf Hv Hw Hout Hsz]. split; try done. cbn in Hv. subst v. apply denotes_small. unfold small_range.
  destruct b; cbn; lia.
Qed.

Lemma wp_nested_equal d st op lhs rhs v w out : args_ok st op lhs rhs v w out -> op = EQUAL \/ op = NOT_EQUAL ->
  (forall b o u, denotes st o u -> ndigs (zbool b) + ndigs u + 1 < MAX_DIG ->
    (lhs = OBool b /\ rhs = o) \/ (rhs = OBool b /\ lhs = o) ->
    wp (binary_op_nested d EQUAL (MP_OBJ_NEW_SMALL_INT (zbool b)) o) st (ends st (BoolOut (zbool b =? u)))) ->
  wp (binary_op_nested (S d) op lhs rhs) st (ends st out).
Proof.
  intros Hok Hop Hcalls. pose proof Hok as [Hwf Hv Hw _ [Hsz _]]. rewrite (equality_args _ _ _ _ _ _ _ Hok Hop).
  assert (wp (mp_obj_equal_not_equal (binary_op_nested d) op lhs rhs) st (ends st (equality_outcome op v w))) as H.
  { apply wp_equal_not_equal; try done. intros b o u Hd Ho. apply Hcalls; [done| |done].
    assert (forall o' x y, denotes st o' x -> denotes st o' y -> x = y) as Hinj.
    { intros o' x y Hx Hy. destruct o'; try done; cbn in Hx, Hy; [|by eapply repr_inj|congruence].
      by rewrite <-(denotes_word st word x Hx), <-(denotes_word st word y Hy). }
    destruct Ho as [[-> ->]|[-> ->]]; cbn in Hv, Hw.
    - subst v. by rewrite (Hinj _ _ _ Hd Hw).
    - subst w. rewrite (Hinj _ _ _ Hd Hv). lia. }
  destruct Hop as [-> | ->]; exact H.
Qed.

Lemma equal_args st b o u : wf st -> denotes st o u -> ndigs (zbool b) + ndigs u + 1 < MAX_DIG ->
  args_ok st EQUAL (MP_OBJ_NEW_SMALL_INT (zbool b)) o (zbool b) u (BoolOut (zbool b =? u)).
Proof.
  intros Hwf Hd Hsz. split; try done.
  - apply denotes_small. unfold small_range. destruct b; cbn; lia.
Qed.

Lemma args_later st st' op lhs rhs v w out : later st st' -> args_ok st op lhs rhs v w out -> args_ok st' op lhs rhs v w out.
Proof. intros Hl [Hwf Hv Hw Hout Hsz]. split; try done; [apply Hl|by eapply later_denotes..]. Qed.

(** The slot of [int] with a boolean on the right: the extra cases. *)
Lemma wp_int_op_bool f st op lhs b v w out : args_ok st op lhs (OBool b) v w out -> is_int_type lhs = true ->
  (forall st', args_ok st' op lhs (MP_OBJ_NEW_SMALL_INT (zbool b)) v w out ->
    wp (f op lhs (MP_OBJ_NEW_SMALL_INT (zbool b))) st' (ends st' out)) ->
  wp (mp_obj_int_binary_op f op lhs (OBool b)) st (ends st out).
Proof.
  intros Hok Hi Hf. pose proof Hok as [Hwf Hv _ _ _].
  apply wp_bind, wp_new_id. change (MkStore _ _ _) with (bump st). pose proof (bump_wf _ Hwf) as Hwfb.
  assert (later st (bump st)) as Hlb by (split; [done|apply bump_frame]).
  cbv zeta. apply wp_bind, (wp_operand _ _ _ v); [done|cbn; lia|by eapply later_denotes|done|].
  intros st1 zl Hwf1 Hfr1 Hn1 _ _. assert (later st st1) as Hl1.
  { split; [done|]. destruct (heap_int lhs); [eapply frame_trans; [apply Hlb|done]|].
    eapply frame_fresh; [apply Hlb|exact Hfr1|done]. }
  apply wp_bind. apply (wp_mono _ _ (ends st1 out)).
  - pose proof (Hf st1 (args_bool_rhs _ _ _ _ _ _ _ (args_later _ _ _ _ _ _ _ _ Hl1 Hok))) as H. by destruct b.
  - intros r st2 [Hl2 Hm]. apply wp_bind, wp_end_fixed. intros st3 Hfd. apply wp_ret. split.
    + apply (later_freed st st2 _ (nxt st)); [|done|done]. by eapply later_trans.
    + eapply meets_le; [|eapply freed_meets; [done| |done]]; rewrite Hn1; cbn; lia.
Qed.

Lemma wp_nested_int_bool d st op lhs b v w out : args_ok st op lhs (OBool b) v w out -> is_int_type lhs = true ->
  wp (binary_op_nested (S (S d)) op lhs (OBool b)) st (ends st out).
Proof.
  intros Hok Hi. pose proof (ao_wf _ _ _ _ _ _ _ Hok) as Hwf.
  assert (op = EQUAL \/ op = NOT_EQUAL -> wp (binary_op_nested (S (S d)) op lhs (OBool b)) st (ends st out)) as Heq.
  { intros Hop. eapply wp_nested_equal; try done. intros b' o u Hd Hsz [[-> _]|[_ ->]]; [done|].
    eapply wp_nested_ints; [by apply equal_args|done|done]. }
  assert (op <> EQUAL -> op <> NOT_EQUAL -> wp (binary_op_nested (S (S d)) op lhs (OBool b)) st (ends st out)) as Hother.
  { intros He Hne. eapply wp_nested_slot; try done; [by destruct lhs|].
    assert (wp (mp_obj_int_binary_op (binary_op_nested (S d)) op lhs (OBool b)) st (ends st out)) as H; [|by destruct lhs].
    eapply wp_int_op_bool; [done|done|]. intros st' Hok'. by eapply wp_nested_ints. }
  destruct op; try (by apply Hother); apply Heq; auto.
Qed.

(** A small integer on the left. *)
Lemma wp_nested_small d st op n rhs v w out : args_ok st op (MP_OBJ_NEW_SMALL_INT n) rhs v w out ->
  wp (binary_op_nested (S (S d)) op (MP_OBJ_NEW_SMALL_INT n) rhs) st (ends st out).
Proof.
  intros Hok. pose proof (ao_rhs _ _ _ _ _ _ _ Hok) as Hw.
  destruct rhs as [|r|z|b| | |]; try done; [by eapply wp_nested_ints..|]. by eapply wp_nested_int_bool.
Qed.

Lemma wp_nested_bool d st op b rhs v w out : args_ok st op (OBool b) rhs v w out ->
  wp (binary_op_nested (S (S (S d))) op (OBool b) rhs) st (ends st out).
Proof.
  intros Hok. pose proof (ao_wf _ _ _ _ _ _ _ Hok) as Hwf.
  assert (op = EQUAL \/ op = NOT_EQUAL -> wp (binary_op_nested (S (S (S d))) op (OBool b) rhs) st (ends st out)) as Heq.
  { intros Hop. eapply wp_nested_equal; try done. intros b' o u Hd Hsz _.
    eapply wp_nested_small. by apply equal_args. }
  assert (op <> EQUAL -> op <> NOT_EQUAL -> wp (binary_op_nested (S (S (S d))) op (OBool b) rhs) st (ends st out)) as Hother.
  { intros He Hne. eapply wp_nested_slot; try done; [by rewrite orb_true_r|].
    eapply wp_nested_small. by apply args_bool_lhs. }
  destruct op; try (by apply Hother); apply Heq; auto.
Qed.

Lemma wp_mp_binary_op st op lhs rhs v w out : args_ok st op lhs rhs v w out ->
  wp (mp_binary_op op lhs rhs) st (ends st out).
Proof.
  intros Hok. pose proof Hok as [_ Hv Hw _ _]. unfold mp_binary_op, BINARY_OP_DEPTH.
  destruct lhs as [|l|z|b| | |]; try done; [| |by eapply wp_nested_bool];
    destruct rhs as [|r|z'|b'| | |]; try done; first [by eapply wp_nested_ints|by eapply wp_nested_int_bool].
Qed.

End Ops.
