(* ===== verification/ObjIntTheorems.v ===== *)
(** * Theorems about integer objects

    Binary and unary operators, powers with a modulus, and the one place where
    the small-integer arithmetic gives a wrong result. *)
From Stdlib Require Import SpecFloat.
From S2P Require Import Prelude.
From S2P Require Import CMem.
From S2P Require Import Digits.
From S2P Require Import MpnBits.
From S2P Require Import Mpz.
From S2P Require Import MpzSpec.
From S2P Require Import MpzArith.
From S2P Require Import MpzMul.
From S2P Require Import MpzPow.
From S2P Require Import MpzConvFacts.
From S2P Require Import MpzProps.
From S2P Require Import ObjInt.
From S2P Require Import ObjIntFacts.
From S2P Require Import ObjIntOps.
From S2P Require Import ObjIntProps.
Local Open Scope Z_scope.

(** ** Unary operators *)

(** The integer a unary operator gives; a hash has 31 bits. *)
Definition unary_value (op : mp_unary_op_t) (v : Z) : option Z :=
  match op with
  | UNARY_POSITIVE | UNARY_INT_MAYBE => Some v
  | UNARY_NEGATIVE => Some (- v)
  | UNARY_INVERT => Some (Z.lnot v)
  | UNARY_ABS => Some (Z.abs v)
  | UNARY_HASH => Some (swrap 31 v)
  | _ => None
  end.

Definition unary_meets (op : mp_unary_op_t) (v : Z) (r : obj) (st : mpz_store) : Prop :=
  match op with
  | UNARY_BOOL => r = mp_obj_new_bool (negb (v =? 0))
  | UNARY_NOT => r = mp_obj_new_bool (v =? 0)
  | _ => exists u, unary_value op v = Some u /\ denotes st r u
  end.

Definition unary_supported (op : mp_unary_op_t) : bool :=
  match op with
  | UNARY_LEN | UNARY_FLOAT_MAYBE | UNARY_COMPLEX_MAYBE | UNARY_SIZEOF => false
  | _ => true
  end.

Definition unary_ends (st : mpz_store) (op : mp_unary_op_t) (v : Z) (r : exn + obj) (st' : mpz_store) : Prop :=
  match r with inr o => later st st' /\ unary_meets op v o st' | inl _ => False end.

Section Unary.
Context {heap : Heap} {types : OtherTypes}.

Lemma wp_new_neg st op v : wf st -> small_range v -> unary_value op v = Some (- v) ->
  op <> UNARY_BOOL -> op <> UNARY_NOT ->
  wp (if v =? MP_SMALL_INT_MIN then v ← sint (- v); safe (mp_obj_new_int v) else xret (MP_OBJ_NEW_SMALL_INT (- v)))
    st (unary_ends st op v).
Proof.
  intros Hwf Hv Hu Hb Hn. unfold small_range in Hv. rewrite SMALL_INT_MIN_eq.
  assert (forall o st', later st st' -> denotes st' o (- v) -> unary_ends st op v (inr o) st') as Hend.
  { intros o st' Hl Hd. split; [done|]. destruct op; try done; by exists (- v). }
  destruct (Z.eqb_spec v (- 2 ^ 30)).
  - apply wp_bind, wp_sint; [lia|]. eapply wp_mono; [apply (wp_new_int_ends st); [by apply later_refl|lia]|].
    intros [ex|o] st' [Hl Hm]; [done|]. apply Hend; [done|]. apply canonical_denotes, Hm.
  - apply wp_xret, Hend; [by apply later_refl|]. apply denotes_small. unfold small_range. lia.
Qed.

Lemma wp_small_unary st op v : wf st -> small_range v -> unary_supported op = true -> op <> UNARY_NOT ->
  wp (small_unary_op op (MP_OBJ_NEW_SMALL_INT v) v) st (unary_ends st op v).
Proof.
  intros Hwf Hv Hsup Hnot.
  assert (forall u, unary_value op v = Some u -> small_range u -> op <> UNARY_BOOL ->
    wp (xret (MP_OBJ_NEW_SMALL_INT u)) st (unary_ends st op v)) as Hsmall.
  { intros u Hu Hs Hb. apply wp_xret. split; [by apply later_refl|]. destruct op; try done; by exists u. }
  destruct op; try done; cbn [small_unary_op].
  - by apply Hsmall.
  - by apply wp_new_neg.
  - apply Hsmall; [done| |done]. unfold small_range in *. unfold Z.lnot. lia.
  - apply Hsmall; [|done..]. cbn. rewrite swrap_small; [done|lia|exact Hv].
  - rewrite Z.geb_leb. destruct (Z.leb_spec 0 v).
    + apply Hsmall; [cbn; by rewrite Z.abs_eq|done|done].
    + apply wp_new_neg; try done. cbn. by rewrite Z.abs_neq by lia.
  - by apply Hsmall.
Qed.

(** The operators that make a new number on the heap. *)
Lemma wp_unary_new st z v x op (inpl : nat -> nat -> Mz unit) : wf st -> repr st z v ->
  unary_value op v = Some x -> op <> UNARY_BOOL -> op <> UNARY_NOT ->
  (forall st' dest (Q : unit -> mpz_store -> Prop), wf st' -> owns st' dest -> repr st' z v ->
     (forall st'', updated st' st'' dest x -> Q tt st'') -> wp (inpl dest z) st' Q) ->
  wp (o2 ← mp_obj_int_new_mpz; inpl o2 z;; mret (OInt o2)) st (fun r st' => later st st' /\ unary_meets op v r st').
Proof.
  intros Hwf Hr Hu Hb Hn Hinpl. apply wp_bind, wp_new_mpz; [done|]. intros st1 Hl1 Ho1 _.
  apply wp_bind, Hinpl; [apply Hl1|done|by eapply later_repr|]. intros st2 Hup. apply wp_ret.
  split; [by eapply later_updated|]. pose proof Hup as (_ & _ & _ & Hr2). destruct op; try done; by exists x.
Qed.

Lemma wp_int_unary st op z v : wf st -> repr st z v -> ndigs v + 1 < MAX_DIG ->
  unary_supported op = true -> op <> UNARY_NOT ->
  wp (mp_obj_int_unary_op op z) st (fun r st' => later st st' /\ unary_meets op v r st').
Proof.
  intros Hwf Hr Hsz Hsup Hnot.
  assert (unary_value op v = Some v -> op <> UNARY_BOOL ->
    wp (mret (OInt z)) st (fun r st' => later st st' /\ unary_meets op v r st')) as Hsame.
  { intros Hu Hb. apply wp_ret. split; [by apply later_refl|]. destruct op; try done; by exists v. }
  destruct op; try done; cbn [mp_obj_int_unary_op].
  - by apply Hsame.
  - apply (wp_unary_new _ _ v (- v) UNARY_NEGATIVE mpz_neg_inpl); try done.
    intros st' dest Q Hwf' Ho' Hr' HQ. by apply (wp_mpz_neg_inpl _ _ _ v).
  - apply (wp_unary_new _ _ v (Z.lnot v) UNARY_INVERT mpz_not_inpl); try done.
    intros st' dest Q Hwf' Ho' Hr' HQ. replace (Z.lnot v) with (- v - 1) in HQ by (unfold Z.lnot; lia).
    by apply (wp_mpz_not_inpl _ _ _ v).
  - apply wp_bind, (wp_z_is_zero _ _ v); [done|]. apply wp_ret. split; [by apply later_refl|done].
  - apply wp_bind, (wp_mpz_hash _ _ v); [done|]. apply wp_ret. split; [by apply later_refl|].
    exists (swrap 31 v). split; [done|]. cbn [denotes]. split; [apply (swrap_range 31); lia|].
    rewrite !new_small_word. do 2 f_equal. unfold uwrap, swrap. Z.to_euclidean_division_equations. lia.
  - destruct Hr as (b & l & Hl & ->). apply wp_bind, (wp_get_neg _ _ b l); [done|].
    pose proof (dval_bounds l (reprl_dig _ _ _ _ Hl)). destruct b; cbn [zbool Z.eqb].
    + apply (wp_unary_new _ _ _ (Z.abs (sval true (dval l))) UNARY_ABS mpz_abs_inpl); try done; [by apply reprl_repr|].
      intros st' dest Q Hwf' Ho' Hr' HQ. by apply (wp_mpz_abs_inpl _ _ _ (sval true (dval l))).
    + apply wp_ret. split; [by apply later_refl|]. exists (sval false (dval l)). split; [cbn; by rewrite Z.abs_eq by lia|].
      by apply reprl_repr.
  - by apply Hsame.
Qed.

Lemma unary_meets_not_null op v o st : unary_meets op v o st -> mp_obj_is_null o = false.
Proof. destruct op; cbn; try (by intros ->); intros (u & _ & Hd); by destruct o. Qed.

Lemma wp_mp_unary_op st op o v : wf st -> denotes st o v -> ndigs v + 1 < MAX_DIG -> unary_supported op = true ->
  wp (mp_unary_op op o) st (unary_ends st op v).
Proof.
  intros Hwf Hd Hsz Hsup.
  assert (forall op o' st', later st st' -> unary_meets op v o' st' -> wp (unary_after_slot op o') st' (unary_ends st op v)) as Hafter.
  { intros op' o' st' Hl Hm. unfold unary_after_slot. rewrite (unary_meets_not_null _ _ _ _ Hm). by apply wp_xret. }
  destruct (decide (op = UNARY_NOT)) as [->|Hnot].
  - cbn [mp_unary_op]. apply wp_xbind. apply (wp_mono _ _ (fun r st' => st' = st /\ r = inr (negb (v =? 0)))).
    + destruct o as [|word|z|b| | |]; try done; cbn [mp_obj_is_true].
      * apply wp_xret. split; [done|]. do 2 f_equal. pose proof (denotes_word _ _ _ Hd) as Hw. destruct Hd as [_ Hd].
        rewrite new_small_word in Hd. injection Hd as ->. unfold obj_word_eqb, MP_OBJ_NEW_SMALL_INT. rewrite word_of_small.
        destruct (Z.eqb_spec v 0) as [->|Hne]; [by apply Z.eqb_eq|]. apply Z.eqb_neq. intros E. rewrite E in Hw. by subst v.
      * apply wp_bind, wp_bind, (wp_z_is_zero _ _ v); [done|]. apply wp_ret, wp_xret. split; [done|].
        by destruct (v =? 0).
      * apply wp_xret. split; [done|]. cbn in Hd. subst v. by destruct b.
    + intros r st' [-> ->]. apply wp_xret. split; [by apply later_refl|]. cbn. by rewrite negb_involutive.
  - destruct o as [|word|z|b| | |]; try done.
    + assert (wp (small_unary_op op (OSmall word) (MP_OBJ_SMALL_INT_VALUE word)) st (unary_ends st op v)) as H.
      { rewrite (denotes_word _ _ _ Hd). destruct Hd as [Hs ->]. by apply wp_small_unary. }
      by destruct op.
    + assert (wp (result ← mp_obj_int_unary_op op z; unary_after_slot op result) st (unary_ends st op v)) as H; [|by destruct op].
      apply wp_bind. eapply wp_mono; [by apply (wp_int_unary _ _ _ v)|]. intros r st' [Hl Hm]. by apply Hafter.
    + cbn in Hd. subst v. assert (small_range (zbool b)) as Hs by (unfold small_range; destruct b; cbn; lia).
      assert (wp (result ←! small_unary_op op (MP_OBJ_NEW_SMALL_INT (zbool b)) (zbool b); unary_after_slot op result) st
        (unary_ends st op (zbool b))) as H; [|by destruct op].
      apply wp_xbind. eapply wp_mono; [by apply wp_small_unary|]. intros [ex|o] st' He; [done|]. destruct He as [Hl Hm].
      by apply Hafter.
Qed.

End Unary.

(** ** Powers with a modulus *)

Section Pow3.
Context {heap : Heap} {types : OtherTypes}.

(** An operand of [pow]: its structure, and whether it is a temporary one. *)
Definition operand_ok (st0 : mpz_store) (st : mpz_store) (t : nat * bool) : Prop :=
  snd t = true -> owns st (fst t) /\ (nxt st0 <= fst t)%nat.

Definition is_small (o : obj) : bool := match o with OSmall _ => true | _ => false end.

(** The structures made for the operands that are small, from number [n] on. *)
Fixpoint temporaries (n : nat) (os : list obj) : list nat :=
  match os with
  | [] => []
  | o :: os => if is_small o then n :: temporaries (S n) os else temporaries n os
  end.

Definition gone (st : mpz_store) (z : nat) : Prop := hdr st !! z = None /\ digs st !! z = None.

Lemma wp_mpz_for_int st o v (Q : nat * bool -> mpz_store -> Prop) : wf st -> denotes st o v -> is_int_type o = true ->
  (forall st' t, later st st' -> repr st' (fst t) v -> operand_ok st st' t ->
    (snd t = false -> o = OInt (fst t)) ->
    snd t = is_small o -> (is_small o = true -> fst t = nxt st) -> nxt st' = (if is_small o then S (nxt st) else nxt st) ->
    Q t st') -> wp (mp_mpz_for_int o) st Q.
Proof.
  intros Hwf Hd Hi HQ. destruct o as [|word|z| | | |]; try done; cbn [mp_mpz_for_int].
  - rewrite (denotes_word _ _ _ Hd). destruct Hd as [Hs _]. unfold small_range in Hs.
    apply wp_bind, wp_new_id. change (MkStore _ _ _) with (bump st).
    apply wp_bind, wp_keeps; [apply keeps_init_from_int|].
    apply wp_mpz_init_from_int; [by apply bump_wf|cbn; lia|lia|]. intros st1 Hu Hn. apply wp_ret.
    pose proof Hu as (_ & _ & Ho & Hr). apply HQ; cbn; try done.
    apply (later_updated st (bump st) _ (nxt st) v); [|done|done]. split; [by apply bump_wf|apply bump_frame].
  - by apply wp_ret, HQ.
Qed.

Lemma wp_deinit_gone st z (Q : unit -> mpz_store -> Prop) :
  owns st z -> (forall st', freed st st' z -> digs st' !! z = None -> Q tt st') -> wp (mpz_deinit z) st Q.
Proof.
  intros Ho HQ. pose proof Ho as (h & l & Hh & _ & _ & Hf).
  assert (wp (mpz_deinit z) st (fun _ st' => freed st st' z)) as Hw by by apply wp_mpz_deinit.
  assert (mpz_deinit z st = Some (tt, set_digs (delete z (digs st)) st)) as E.
  { unfold mpz_deinit, fields, mbind, M_bind. rewrite Hh. cbn. rewrite Hf. done. }
  unfold wp in *. rewrite E in *. apply HQ; [done|]. apply lookup_delete_eq.
Qed.

Lemma wp_drop_temp st0 st t (Q : unit -> mpz_store -> Prop) : later st0 st -> operand_ok st0 st t ->
  (forall st', later st0 st' -> (forall z v, (snd t = true -> z <> fst t) -> repr st z v -> repr st' z v) ->
     (forall z, (snd t = true -> z <> fst t) -> owns st z -> owns st' z) ->
     (forall z, gone st z \/ (snd t = true /\ z = fst t) -> gone st' z) -> Q tt st') -> wp (drop_temp t) st Q.
Proof.
  intros Hl Ht HQ. unfold drop_temp. destruct t as [z []]; cbn [fst snd] in *.
  - destruct (Ht eq_refl) as [Ho Hz]. cbn in Hz. apply wp_bind, wp_deinit_gone; [done|]. intros st1 Hf1 Hg1. apply wp_modify.
    set (st2 := set_hdr _ _). assert (freed st1 st2 z) as Hf2 by (by apply (wp_end_scope st1 z (fun _ s => freed st1 s z))). apply HQ.
    + apply (later_freed st0 st1 _ z); [|done|done]. by apply (later_freed st0 st _ z).
    + intros y v Hy Hr. apply (freed_repr _ _ _ _ _ Hf2); [by apply Hy|]. apply (freed_repr _ _ _ _ _ Hf1); [by apply Hy|done].
    + intros y Hy Hr. apply (freed_owns _ _ _ _ Hf2); [by apply Hy|]. apply (freed_owns _ _ _ _ Hf1); [by apply Hy|done].
    + intros y Hy. destruct (decide (y = z)) as [->|Hne]; [by split; [apply lookup_delete_eq|]|].
      destruct Hy as [[Gh Gd]|[_ ?]]; [|done]. destruct Hf1 as (_ & Hf1 & _), Hf2 as (_ & Hf2 & _).
      destruct (Hf1 y Hne) as [E1 E2], (Hf2 y Hne) as [E3 E4]. split; congruence.
  - apply wp_ret, HQ; try done. by intros z0 [?|[? _]].
Qed.

Lemma operand_later st0 st st' t : wf st -> later st st' -> operand_ok st0 st t -> operand_ok st0 st' t.
Proof.
  intros Hwf Hl Ht Hs. destruct (Ht Hs) as [Ho Hz]. split; [|done].
  eapply owns_frame; [exact Hwf|apply Hl|apply not_elem_of_nil|done].
Qed.

Lemma operand_from st0 st1 st t : (nxt st0 <= nxt st1)%nat -> operand_ok st1 st t -> operand_ok st0 st t.
Proof. intros Hn Ht Hs. destruct (Ht Hs) as [Ho Hz]. split; [done|]. lia. Qed.

Lemma temporaries_3 n o1 o2 o3 t : t ∈ temporaries n [o1; o2; o3] ->
  let n1 := if is_small o1 then S n else n in let n2 := if is_small o2 then S n1 else n1 in
  (is_small o1 = true /\ t = n) \/ (is_small o2 = true /\ t = n1) \/ (is_small o3 = true /\ t = n2).
Proof.
  cbn. destruct (is_small o1), (is_small o2), (is_small o3); rewrite ?elem_of_cons, elem_of_nil; tauto.
Qed.

Lemma wp_int_pow3 st base exponent modulus a e m : wf st ->
  denotes st base a -> denotes st exponent e -> denotes st modulus m ->
  is_int_type base = true -> is_int_type exponent = true -> is_int_type modulus = true -> m <> 0 ->
  2 * Z.max (ndigs a) (ndigs m) + 1 < MAX_DIG ->
  wp (mp_obj_int_pow3 base exponent modulus) st (fun r st' =>
    later st st' /\ Forall (gone st') (temporaries (S (nxt st)) [base; exponent; modulus]) /\
    exists o, r = inr o /\ denotes st' o (pow3_value a e m)).
Proof.
  intros Hwf Ha He Hm Hia Hie Him Hm0 Hsz. unfold mp_obj_int_pow3. rewrite Hia, Hie, Him. cbn [andb negb].
  apply wp_bind, wp_new_mpz; [done|]. intros st1 Hl1 Ho1 Hn1.
  apply wp_bind, wp_keeps; [apply keeps_set_from_ll|].
  apply wp_mpz_set_from_ll; [apply Hl1|done|lia|]. intros st2 Hu2 Hn2. rewrite Hn1 in Hn2.
  pose proof Hu2 as (Hwf2 & _ & Ho2 & _). pose proof (later_updated _ _ _ _ _ Hl1 (le_n _) Hu2) as Hl2.
  pose proof (owns_lt _ _ Hwf2 Ho2) as Hres.
  apply wp_bind, (wp_mpz_for_int _ _ a); [done|exact (later_denotes _ _ _ _ Hwf Hl2 Ha)|done|]. intros st3 x Hl3 Hx Htx Hxold Sx Fx Hn3.
  apply wp_bind, (wp_mpz_for_int _ _ e);
    [apply Hl3|exact (later_denotes _ _ _ _ Hwf (later_trans _ _ _ Hl2 Hl3) He)|done|].
  intros st4 y Hl4 Hy Hty Hyold Sy Fy Hn4.
  pose proof (later_trans _ _ _ Hl3 Hl4) as Hl24.
  apply wp_bind, (wp_mpz_for_int _ _ m);
    [apply Hl4|exact (later_denotes _ _ _ _ Hwf (later_trans _ _ _ Hl2 Hl24) Hm)|done|].
  intros st5 z Hl5 Hz Htz Hzold Sz Fz _. pose proof (later_trans _ _ _ Hl24 Hl5) as Hl25.
  pose proof (later_nxt _ _ Hl2). pose proof (later_nxt _ _ Hl3). pose proof (later_nxt _ _ Hl4).
  pose proof (repr_lt _ _ _ (proj1 Hl3) Hx) as Lx. pose proof (repr_lt _ _ _ (proj1 Hl4) Hy) as Ly.
  assert (later st3 st5) as Hl35 by by eapply later_trans.
  assert (operand_ok st2 st5 x /\ operand_ok st3 st5 y /\ operand_ok st4 st5 z) as (Tx & Ty & Tz).
  { split; [|split]; [eapply operand_later; [apply Hl3|done|done]|eapply operand_later; [apply Hl4|done|done]|done]. }
  assert (forall o v t s, denotes st o v -> (nxt st2 <= nxt s)%nat ->
    operand_ok s st5 t -> (snd t = false -> o = OInt (fst t)) -> nxt st <> fst t) as Hne.
  { intros o v [t []] s Hd Hs Ht Hold; cbn in *; [destruct (Ht eq_refl); cbn in *; lia|].
    specialize (Hold eq_refl). subst o. pose proof (repr_lt _ _ _ Hwf Hd). lia. }
  pose proof (Hne _ _ x st2 Ha ltac:(lia) Tx Hxold) as Nx. pose proof (Hne _ _ y st3 He ltac:(lia) Ty Hyold) as Ny.
  pose proof (Hne _ _ z st4 Hm ltac:(lia) Tz Hzold) as Nz.
  apply wp_bind, (wp_mpz_pow3_inpl _ _ _ _ _ a e m); try done; [apply Hl5| | | |].
  { eapply owns_frame; [exact Hwf2|apply Hl25|apply not_elem_of_nil|done]. }
  { eapply later_repr; [apply Hl3|exact Hl35|done]. }
  { eapply later_repr; [apply Hl4|exact Hl5|done]. }
  intros st6 Hu6. pose proof Hu6 as (Hwf6 & Hfr6 & _ & Hr6).
  assert (later st st6) as Hl6.
  { exact (later_updated _ _ _ _ _ (later_trans _ _ _ Hl2 Hl25) (le_n _) Hu6). }
  assert (forall t, operand_ok st st5 t -> nxt st <> fst t -> operand_ok st st6 t) as Hop.
  { intros t Ht Hn Hs. destruct (Ht Hs) as [Hot Hge]. split; [|done].
    eapply owns_frame; [apply Hl5|exact Hfr6|by apply not_elem_of_list_1|done]. }
  apply wp_bind, (wp_drop_temp st); [done|apply Hop; [eapply operand_from; [|exact Tx]; lia|done]|].
  intros st7 Hl7 Hk7 Ho7 Hg7.
  apply wp_bind, (wp_drop_temp st); [done| |].
  { intros Hs. destruct (Hop y ltac:(eapply operand_from; [|exact Ty]; lia) Ny Hs) as [Hoy Hge]. split; [|done].
    apply Ho7; [|done]. intros Hsx. destruct (Ty Hs). lia. }
  intros st8 Hl8 Hk8 Ho8 Hg8.
  apply wp_bind, (wp_drop_temp st); [done| |].
  { intros Hs. destruct (Hop z ltac:(eapply operand_from; [|exact Tz]; lia) Nz Hs) as [Hoz Hge]. split; [|done].
    destruct (Tz Hs). apply Ho8; [intros _; lia|]. apply Ho7; [intros _; lia|done]. }
  intros st9 Hl9 Hk9 _ Hg9. apply wp_xret. split; [done|]. split.
  { rewrite <-Hn2. apply Forall_forall. intros t [[? ->]|[[? ->]|[? ->]]]%temporaries_3.
    - apply Hg9. left. apply Hg8. left. apply Hg7. right. by rewrite Sx, Fx.
    - apply Hg9. left. apply Hg8. right. by rewrite Sy, Fy, Hn3.
    - apply Hg9. right. by rewrite Sz, Fz, Hn4, Hn3. }
  exists (OInt (nxt st)). split; [done|]. cbn.
  by apply Hk9, Hk8, Hk7.
Qed.

End Pow3.

(** ** The theorems *)

(** Operators of other types that do nothing, for the examples. *)
Definition example_types : OtherTypes := {|
  mp_obj_float_binary_op _ _ _ := xret ONull;
  mp_obj_is_complex _ := false;
  mp_obj_complex_binary_op _ _ _ _ := xret ONull;
  type_binary_op _ _ _ := xret ONull;
  type_unary_op _ _ := xret ONull;
  object_is_true _ := xret true;
  object_equal op _ _ := xret (local_result op false);
  exception_match _ _ := raise TypeError;
  is_sequence_to_multiply _ := false;
  contains_by_iteration _ _ := raise TypeError;
|}.



(** C8: [mp_unary_op] on integers and booleans gives the negation, complement,
    absolute value, truth value and hash of the number; the hash depends on the
    number only, not on its representation. *)
Theorem mp_unary_op_correct (heap : Heap) (types : OtherTypes) st op o v :
  wf st -> denotes st o v -> ndigs v + 1 < MAX_DIG -> unary_supported op = true ->
  exists r st', mp_unary_op op o st = Some (inr r, st') /\ later st st' /\ unary_meets op v r st'.
Proof.
  intros Hwf Hd Hsz Hsup. destruct (run_value (mp_unary_op op o) st (unary_ends st op v)) as ([e|r] & st' & Hr & He);
    [by apply wp_mp_unary_op|done|]. destruct He as [Hl Hm]. by exists r, st'.
Qed.

Theorem mp_unary_op_correct_witness : exists r st',
  mp_unary_op (heap := ex_heap) (types := example_types) UNARY_INVERT (OInt 0) ex = Some (inr r, st') /\
  later ex st' /\ unary_meets UNARY_INVERT 70000 r st'.
Proof. apply (mp_unary_op_correct ex_heap example_types ex UNARY_INVERT (OInt 0) 70000); ex_side. Defined.

(** C9: [pow] with three integers, small or on the heap, gives the power modulo
    the third for a positive exponent ([pow3_value] says what it gives otherwise),
    and the structures it made for small operands, the next after that of the
    result, are freed again; anything but integers, a boolean too, is a
    [TypeError].  The modulus may not be zero: the code does not check it. *)
Theorem mp_obj_int_pow3_correct (heap : Heap) (types : OtherTypes) st base exponent modulus :
  (is_int_type base && is_int_type exponent && is_int_type modulus = false ->
     mp_obj_int_pow3 base exponent modulus st = Some (inl TypeError, st)) /\
  (is_int_type base && is_int_type exponent && is_int_type modulus = true -> forall a e m,
     wf st -> denotes st base a -> denotes st exponent e -> denotes st modulus m -> m <> 0 ->
     2 * Z.max (ndigs a) (ndigs m) + 1 < MAX_DIG ->
     exists o st', mp_obj_int_pow3 base exponent modulus st = Some (inr o, st') /\ later st st' /\
       denotes st' o (pow3_value a e m) /\ (0 < e -> pow3_value a e m = a ^ e `mod` m) /\
       Forall (gone st') (temporaries (S (nxt st)) [base; exponent; modulus])).
Proof.
  split; [intros E; unfold mp_obj_int_pow3; by rewrite E|].
  intros [[Hia Hie]%andb_true_iff Him]%andb_true_iff a e m Hwf Ha He Hm Hm0 Hsz.
  destruct (run_value (mp_obj_int_pow3 base exponent modulus) st (fun r st' => later st st' /\
      Forall (gone st') (temporaries (S (nxt st)) [base; exponent; modulus]) /\
      exists o, r = inr o /\ denotes st' o (pow3_value a e m))) as (r & st' & Hr & Hl & Hg & o & -> & Hd); [by apply wp_int_pow3|].
  exists o, st'. split; [done|]. split; [done|]. split; [done|]. split; [|done]. intros. by apply pow3_value_pos.
Qed.

(** The power of small integers, with two temporaries, and of a boolean. *)
Theorem mp_obj_int_pow3_correct_witness :
  (exists o st', mp_obj_int_pow3 (heap := ex_heap) (OInt 0) (MP_OBJ_NEW_SMALL_INT 3) (MP_OBJ_NEW_SMALL_INT 1000) ex = Some (inr o, st') /\
    later ex st' /\ denotes st' o (pow3_value 70000 3 1000) /\ (0 < 3 -> pow3_value 70000 3 1000 = 70000 ^ 3 `mod` 1000) /\
    Forall (gone st') [5%nat; 6%nat]) /\
  mp_obj_int_pow3 (heap := ex_heap) (OBool true) (OInt 2) (OInt 1) ex = Some (inl TypeError, ex).
Proof.
  split.
  - refine (proj2 (mp_obj_int_pow3_correct ex_heap example_types ex (OInt 0) (MP_OBJ_NEW_SMALL_INT 3) (MP_OBJ_NEW_SMALL_INT 1000))
      eq_refl 70000 3 1000 ex_wf ex_0 _ _ _ _).
    + split; [split; vm_compute; [discriminate|reflexivity]|reflexivity].
    + split; [split; vm_compute; [discriminate|reflexivity]|reflexivity].
    + discriminate.
    + reflexivity.
  - exact (proj1 (mp_obj_int_pow3_correct ex_heap example_types ex (OBool true) (OInt 2) (OInt 1)) eq_refl).
Defined.

(** The quotient of [divmod] is not checked: for the smallest small integer
    and -1 it is [2 ^ 30], which has no small integer, and the word made from it
    is that of [-2 ^ 30]. *)
Theorem small_divmod_wraps (heap : Heap) (types : OtherTypes) : exists n st' q,
  mp_binary_op DIVMOD (MP_OBJ_NEW_SMALL_INT (- 2 ^ 30)) (MP_OBJ_NEW_SMALL_INT (-1)) ex =
    Some (inr (OTuple n [q; MP_OBJ_NEW_SMALL_INT 0]), st') /\
  denotes st' q (- 2 ^ 30) /\ - 2 ^ 30 <> - 2 ^ 30 / -1.
Proof.
  eexists _, _, (MP_OBJ_NEW_SMALL_INT (2 ^ 30)). split; [vm_compute; reflexivity|]. split; [|done].
  split; [|done]. by split.
Qed.
