(* ===== verification/Probing.v ===== *)
(** * Open addressing with linear probing

    The search loop that [py/map.c] contains twice, in [mp_map_lookup] and in
    [mp_set_lookup], and the invariant of the tables it works on.  A table is
    looked at as the list of its keys: a word is free ([MP_OBJ_NULL]), deleted
    ([MP_OBJ_SENTINEL]) or a key.

    What the tables assume of the objects used as keys (equality, hash) is the
    class [KeyOps]; what the code relies on is the class [KeyLaws]. *)
From S2P Require Import Prelude.
From S2P Require Import CMem.
Local Open Scope Z_scope.

Definition MP_OBJ_NULL : Z := 0.
Definition MP_OBJ_SENTINEL : Z := 4.

(** [py/obj.h], representation A. *)
Definition mp_obj_is_small_int (o : Z) : bool := negb (Z.land o 1 =? 0).
Definition MP_OBJ_SMALL_INT_VALUE (o : Z) : Z := Z.shiftr (s32 o) 1.
Definition MP_OBJ_NEW_SMALL_INT (i : Z) : Z := Z.lor (u32 (Z.shiftl (u32 i) 1)) 1.
Definition mp_obj_is_qstr (o : Z) : bool := Z.land o 7 =? 2.
Definition MP_OBJ_QSTR_VALUE (o : Z) : Z := Z.shiftr o 3.
Definition MP_OBJ_NEW_QSTR (qst : Z) : Z := Z.lor (u32 (Z.shiftl qst 3)) 2.

(** The object operations the tables call, which dispatch on the type of the
    object: [mp_obj_equal], [mp_obj_is_exact_type(o, &mp_type_str)], the hash
    word of an interned string and [mp_unary_op(MP_UNARY_OP_HASH, o)] (an
    object, which is a small integer). *)
Class KeyOps := {
  mp_obj_equal : Z -> Z -> bool;
  is_exact_str : Z -> bool;
  qstr_hash : Z -> Z;
  unary_op_hash : Z -> Z }.

Section Keys.
Context `{KeyOps}.

(** [hash = MP_OBJ_SMALL_INT_VALUE(mp_unary_op(MP_UNARY_OP_HASH, index))], an
    [mp_uint_t]; [mp_map_lookup] has a fast path for interned strings. *)
Definition object_hash (o : Z) : Z := u32 (MP_OBJ_SMALL_INT_VALUE (unary_op_hash o)).
Definition index_hash (o : Z) : Z :=
  if mp_obj_is_qstr o then u32 (qstr_hash (MP_OBJ_QSTR_VALUE o)) else object_hash o.

(** The contract of hashable objects: equality is an equivalence that respects
    the hash, an interned string equals no other interned string, and a key
    that is neither interned nor a plain string equals no interned string. *)
Class KeyLaws (valid : Z -> Prop) : Prop := {
  valid_word : forall k, valid k -> k <> MP_OBJ_NULL /\ k <> MP_OBJ_SENTINEL;
  equal_refl : forall k, valid k -> mp_obj_equal k k = true;
  equal_sym : forall a b, valid a -> valid b -> mp_obj_equal a b = true -> mp_obj_equal b a = true;
  equal_trans : forall a b c, valid a -> valid b -> valid c ->
    mp_obj_equal a b = true -> mp_obj_equal b c = true -> mp_obj_equal a c = true;
  equal_object_hash : forall a b, valid a -> valid b -> mp_obj_equal a b = true ->
    object_hash a = object_hash b;
  equal_index_hash : forall a b, valid a -> valid b -> mp_obj_equal a b = true ->
    index_hash a = index_hash b;
  equal_qstr : forall a b, valid a -> valid b -> mp_obj_is_qstr a = true -> mp_obj_equal a b = true ->
    a = b \/ (mp_obj_is_qstr b = false /\ is_exact_str b = true) }.

End Keys.

(** ** The search loop

    [pos] is the position looked at, [start_pos] where the round began and
    [avail] the first deleted slot seen.  [found], [add] and [none] are what
    the two routines do at the end of the search; [rehash] makes room when the
    round ends in a full table. *)
Section Probe.
Context {St R : Type} (alloc : M St Z) (key : Z -> M St Z) (same : Z -> bool) (adding : bool).
Context (found add : Z -> M St R) (none : R) (rehash : M St unit) (hash : Z).

Definition probe_step (l : Z * Z * option Z) : M St (Z * Z * option Z + R) :=
  let '(pos, start_pos, avail) := l in
  elem ← key pos;
  if elem =? MP_OBJ_NULL then
    if adding then r ← add (default pos avail); mret (inr r) else mret (inr none)
  else if negb (elem =? MP_OBJ_SENTINEL) && same elem then
    r ← found pos; mret (inr r)
  else
    let avail := if elem =? MP_OBJ_SENTINEL then Some (default pos avail) else avail in
    n ← alloc;
    let pos := (pos + 1) `mod` n in
    if pos =? start_pos then
      if adding then
        match avail with
        | Some a => r ← add a; mret (inr r)
        | None => _ ← rehash; n ← alloc; mret (inl (hash `mod` n, hash `mod` n, None))
        end
      else mret (inr none)
    else mret (inl (pos, start_pos, avail)).

Definition probe (fuel : nat) : M St R :=
  n ← alloc; loop fuel probe_step (hash `mod` n, hash `mod` n, None).

End Probe.

Definition filled (k : Z) : bool := negb (k =? MP_OBJ_NULL) && negb (k =? MP_OBJ_SENTINEL).

(** The [i]-th position looked at by a search that starts from hash [h]. *)
Definition nth_pos (n h i : Z) : Z := (h + i) `mod` n.
Definition dist (n h p : Z) : Z := (p - h) `mod` n.

Definition key_at (ks : list Z) (p : Z) : option Z := ks !! Z.to_nat p.
Abbreviation size ks := (Z.of_nat (length ks)) (only parsing).

Lemma nth_pos_range n h i : 0 < n -> 0 <= nth_pos n h i < n.
Proof. intros. by apply Z.mod_pos_bound. Qed.

Lemma dist_range n h p : 0 < n -> 0 <= dist n h p < n.
Proof. intros. by apply Z.mod_pos_bound. Qed.

Lemma nth_pos_dist n h p : 0 <= p < n -> nth_pos n h (dist n h p) = p.
Proof.
  intros Hp. unfold nth_pos, dist. rewrite Z.add_mod_idemp_r by lia.
  replace (h + (p - h)) with p by lia. by apply Z.mod_small.
Qed.

Lemma dist_nth_pos n h i : 0 <= i < n -> dist n h (nth_pos n h i) = i.
Proof.
  intros Hi. unfold nth_pos, dist. rewrite Zminus_mod_idemp_l.
  replace (h + i - h) with i by lia. by apply Z.mod_small.
Qed.

Lemma nth_pos_succ n h i : 0 < n -> (nth_pos n h i + 1) `mod` n = nth_pos n h (i + 1).
Proof. intros Hn. unfold nth_pos. rewrite Z.add_mod_idemp_l by lia. f_equal. lia. Qed.

Lemma nth_pos_0 n h : nth_pos n h 0 = h `mod` n.
Proof. unfold nth_pos. by rewrite Z.add_0_r. Qed.

Lemma nth_pos_full n h : 0 < n -> nth_pos n h n = h `mod` n.
Proof.
  intros. unfold nth_pos. replace (h + n) with (h + 1 * n) by lia. by rewrite Z.mod_add by lia.
Qed.

Lemma nth_pos_inj n h i j : 0 <= i < n -> 0 <= j < n -> nth_pos n h i = nth_pos n h j -> i = j.
Proof. intros Hi Hj Hij. rewrite <-(dist_nth_pos n h i), <-(dist_nth_pos n h j), Hij; done. Qed.

(** Keys found through [Z] indices. *)
Lemma key_at_insert_eq ks p k : 0 <= p < size ks -> key_at (<[Z.to_nat p := k]> ks) p = Some k.
Proof. intros. apply list_lookup_insert_eq. lia. Qed.

Lemma key_at_insert_ne ks p q k : 0 <= p -> 0 <= q -> p <> q ->
  key_at (<[Z.to_nat p := k]> ks) q = key_at ks q.
Proof. intros. apply list_lookup_insert_ne. lia. Qed.

Lemma key_at_range ks p k : 0 <= p -> key_at ks p = Some k -> 0 <= p < size ks.
Proof. intros Hp Hk. apply lookup_lt_Some in Hk. lia. Qed.

Lemma key_at_Some ks p : 0 <= p < size ks -> exists k, key_at ks p = Some k.
Proof. intros. apply lookup_lt_is_Some_2. lia. Qed.

(** ** The invariant of a table

    Keys are valid and pairwise different, and no search for a key meets a free
    slot before it meets the key. *)
Section Table.
Context `{KeyOps} (valid : Z -> Prop) `{KL : !KeyLaws valid} (hash : Z -> Z).
Hypothesis hash_equal : forall a b, valid a -> valid b -> mp_obj_equal a b = true -> hash a = hash b.

Definition matches (k k' : Z) : bool := filled k' && mp_obj_equal k' k.

Record table_ok (ks : list Z) : Prop := {
  tk_valid : forall p k, 0 <= p -> key_at ks p = Some k -> filled k = true -> valid k;
  tk_distinct : forall p q k k', 0 <= p -> 0 <= q -> key_at ks p = Some k -> key_at ks q = Some k' ->
    filled k = true -> matches k k' = true -> p = q;
  tk_chain : forall p k i, 0 <= p -> key_at ks p = Some k -> filled k = true ->
    0 <= i < dist (size ks) (hash k) p ->
    key_at ks (nth_pos (size ks) (hash k) i) <> Some MP_OBJ_NULL }.

Definition present (ks : list Z) (k : Z) : Prop :=
  exists p k', 0 <= p /\ key_at ks p = Some k' /\ matches k k' = true.

(** What a search has seen after [i] steps without success. *)
Definition passed (ks : list Z) (k i : Z) : Prop := forall j, 0 <= j < i ->
  exists k', key_at ks (nth_pos (size ks) (hash k) j) = Some k' /\ k' <> MP_OBJ_NULL /\
    matches k k' = false.

Lemma filled_valid k : valid k -> filled k = true.
Proof.
  intros Hk. apply valid_word in Hk as [Hn Hs]. unfold filled.
  apply Z.eqb_neq in Hn. apply Z.eqb_neq in Hs. by rewrite Hn, Hs.
Qed.

Lemma filled_not_null k : filled k = true -> k <> MP_OBJ_NULL.
Proof. intros Hf ->. done. Qed.

Lemma matches_filled k k' : matches k k' = true -> filled k' = true /\ mp_obj_equal k' k = true.
Proof. unfold matches. by intros [? ?]%andb_true_iff. Qed.

Lemma table_ok_empty n : table_ok (replicate n MP_OBJ_NULL).
Proof.
  assert (forall p k, key_at (replicate n MP_OBJ_NULL) p = Some k -> k = MP_OBJ_NULL) as Hk.
  { intros p k Hk. by apply lookup_replicate in Hk as [-> _]. }
  split; intros; match goal with H : filled ?k = true, H' : key_at _ _ = Some ?k |- _ =>
    apply Hk in H'; by subst k end.
Qed.

(** A search meets the key it looks for, after slots it passes. *)
Lemma passed_before ks k p k' i : table_ok ks -> valid k -> 0 <= p -> key_at ks p = Some k' ->
  matches k k' = true -> i <= dist (size ks) (hash k) p -> passed ks k i.
Proof.
  intros Hok Hk Hp Hp' Hm Hi j Hj. apply matches_filled in Hm as Hm'. destruct Hm' as [Hf He].
  pose proof (key_at_range _ _ _ Hp Hp') as Hr.
  assert (valid k') as Hk' by by apply (tk_valid _ Hok p).
  assert (hash k' = hash k) as Hh by by apply hash_equal.
  pose proof (nth_pos_range (size ks) (hash k) j ltac:(lia)) as Hq.
  destruct (key_at_Some ks (nth_pos (size ks) (hash k) j) Hq) as [kq Hkq].
  exists kq. split; [done|]. split.
  { intros ->. apply (tk_chain _ Hok p k' j Hp Hp' Hf); rewrite Hh; [lia|done]. }
  destruct (matches k kq) eqn:Hmq; [exfalso|done].
  apply matches_filled in Hmq as [Hfq Heq].
  assert (valid kq) as Hvq by by apply (tk_valid _ Hok (nth_pos (size ks) (hash k) j)); [lia|..].
  assert (matches k' kq = true) as Hmm.
  { unfold matches. rewrite Hfq. cbn. apply (equal_trans kq k k'); [done..|]. by apply equal_sym. }
  pose proof (tk_distinct _ Hok p (nth_pos (size ks) (hash k) j) k' kq Hp (proj1 Hq) Hp' Hkq Hf Hmm) as Hpq.
  pose proof (dist_nth_pos (size ks) (hash k) j) as Hd. rewrite <-Hpq in Hd.
  pose proof (dist_range (size ks) (hash k) p). lia.
Qed.

(** A key that a search of [i] slots has not met is met later. *)
Lemma passed_match ks k p k' i : passed ks k i -> 0 <= p -> key_at ks p = Some k' ->
  matches k k' = true -> i <= dist (size ks) (hash k) p.
Proof.
  intros Hps Hp Hk' Hm. destruct (Z_lt_le_dec (dist (size ks) (hash k) p) i) as [Hlt|]; [|done].
  pose proof (key_at_range _ _ _ Hp Hk') as Hr.
  pose proof (dist_range (size ks) (hash k) p ltac:(lia)).
  destruct (Hps (dist (size ks) (hash k) p) ltac:(lia)) as (k2 & Hk2 & _ & Hm2).
  rewrite nth_pos_dist in Hk2 by lia. congruence.
Qed.

Lemma null_absent ks k i : table_ok ks -> valid k -> 0 <= i < size ks -> passed ks k i ->
  key_at ks (nth_pos (size ks) (hash k) i) = Some MP_OBJ_NULL -> ~ present ks k.
Proof.
  intros Hok Hk Hi Hps Hn (p & k' & Hp & Hk' & Hm).
  pose proof (passed_match _ _ _ _ _ Hps Hp Hk' Hm) as Hle.
  destruct (Z.eq_dec i (dist (size ks) (hash k) p)) as [->|Hne].
  - rewrite nth_pos_dist in Hn by by eapply key_at_range. by simplify_eq.
  - destruct (passed_before ks k p k' (dist (size ks) (hash k) p) Hok Hk Hp Hk' Hm ltac:(lia) i ltac:(lia))
      as (k2 & Hk2 & Hnn & _). congruence.
Qed.

Lemma wrapped_absent ks k : passed ks k (size ks) -> ~ present ks k.
Proof.
  intros Hps (p & k' & Hp & Hk' & Hm). pose proof (passed_match _ _ _ _ _ Hps Hp Hk' Hm).
  pose proof (key_at_range _ _ _ Hp Hk'). pose proof (dist_range (size ks) (hash k) p). lia.
Qed.

Lemma passed_succ ks k i k' : 0 <= i -> passed ks k i ->
  key_at ks (nth_pos (size ks) (hash k) i) = Some k' -> k' <> MP_OBJ_NULL -> matches k k' = false ->
  passed ks k (i + 1).
Proof.
  intros Hi Hps Hk' Hn Hm j Hj. destruct (Z.eq_dec j i) as [->|]; [eauto|]. apply Hps. lia.
Qed.

(** A slot where a missing key may be put. *)
Definition insertable (ks : list Z) (k p : Z) : Prop :=
  0 <= p < size ks /\ (exists k0, key_at ks p = Some k0 /\ filled k0 = false) /\
  passed ks k (dist (size ks) (hash k) p).

Lemma passed_mono ks k i j : passed ks k j -> i <= j -> passed ks k i.
Proof. intros Hps Hij l Hl. apply Hps. lia. Qed.

Lemma insertable_nth ks k i k0 : 0 <= i < size ks -> passed ks k i ->
  key_at ks (nth_pos (size ks) (hash k) i) = Some k0 -> filled k0 = false ->
  insertable ks k (nth_pos (size ks) (hash k) i).
Proof.
  intros Hi Hps Hk0 Hf. split_and!; [apply nth_pos_range; lia..|by exists k0|].
  by rewrite dist_nth_pos.
Qed.

Lemma table_ok_insert ks k p : table_ok ks -> valid k -> ~ present ks k -> insertable ks k p ->
  table_ok (<[Z.to_nat p := k]> ks).
Proof.
  intros Hok Hk Habs (Hp & (k0 & Hk0 & Hf0) & Hps). split.
  - intros q kq Hq Hkq Hf. destruct (Z.eq_dec p q) as [<-|Hne].
    + rewrite key_at_insert_eq in Hkq by done. by simplify_eq.
    + rewrite key_at_insert_ne in Hkq by lia. by apply (tk_valid _ Hok q).
  - intros q r kq kr Hq Hr Hkq Hkr Hf Hm.
    destruct (Z.eq_dec p q) as [<-|Hne], (Z.eq_dec p r) as [<-|Hne2]; [done|..].
    + rewrite key_at_insert_eq in Hkq by done. rewrite key_at_insert_ne in Hkr by lia. simplify_eq.
      destruct Habs. by exists r, kr.
    + rewrite key_at_insert_eq in Hkr by done. rewrite key_at_insert_ne in Hkq by lia. simplify_eq.
      destruct Habs. exists q, kq. split; [done|]. split; [done|].
      assert (valid kq) by by apply (tk_valid _ Hok q).
      apply matches_filled in Hm as [_ Hm]. unfold matches. rewrite Hf. cbn. by apply equal_sym.
    + rewrite key_at_insert_ne in Hkq, Hkr by lia. by apply (tk_distinct _ Hok q r kq kr).
  - rewrite length_insert. intros q kq i Hq Hkq Hf Hi.
    pose proof (nth_pos_range (size ks) (hash kq) i ltac:(lia)) as Hni.
    destruct (Z.eq_dec p (nth_pos (size ks) (hash kq) i)) as [<-|Hnp].
    { rewrite key_at_insert_eq by done. intros [= ->]. by apply valid_word in Hk as []. }
    rewrite key_at_insert_ne by lia. destruct (Z.eq_dec p q) as [<-|Hne].
    + rewrite key_at_insert_eq in Hkq by done. simplify_eq.
      destruct (Hps i ltac:(lia)) as (k2 & -> & Hn & _). congruence.
    + rewrite key_at_insert_ne in Hkq by lia. by apply (tk_chain _ Hok q kq).
Qed.

(** Taking a key out: the slot becomes free when the next one is free, else
    deleted. *)
Definition next_pos (n p : Z) : Z := (p + 1) `mod` n.

Lemma table_ok_delete ks p x : table_ok ks -> 0 <= p < size ks -> filled x = false ->
  (x = MP_OBJ_NULL -> key_at ks (next_pos (size ks) p) = Some MP_OBJ_NULL) ->
  table_ok (<[Z.to_nat p := x]> ks).
Proof.
  intros Hok Hp Hx Hnull.
  assert (forall q k, 0 <= q -> key_at (<[Z.to_nat p := x]> ks) q = Some k -> filled k = true ->
    q <> p /\ key_at ks q = Some k) as Hkeep.
  { intros q k Hq Hk Hf. destruct (Z.eq_dec p q) as [<-|].
    - rewrite key_at_insert_eq in Hk by done. simplify_eq. congruence.
    - by rewrite key_at_insert_ne in Hk by lia. }
  split.
  - intros q k Hq Hk Hf. apply Hkeep in Hk as [_ Hk]; [|done..]. by apply (tk_valid _ Hok q).
  - intros q r k k' Hq Hr Hk Hk' Hf Hm. pose proof (matches_filled _ _ Hm) as [Hf' _].
    apply Hkeep in Hk as [_ Hk]; [|done..]. apply Hkeep in Hk' as [_ Hk']; [|done..].
    by apply (tk_distinct _ Hok q r k k').
  - rewrite length_insert. intros q k i Hq Hk Hf Hi. apply Hkeep in Hk as [Hqp Hk]; [|done..].
    pose proof (nth_pos_range (size ks) (hash k) i ltac:(lia)) as Hni.
    destruct (Z.eq_dec p (nth_pos (size ks) (hash k) i)) as [Hpi|Hnp].
    2: { rewrite key_at_insert_ne by lia. by apply (tk_chain _ Hok q k). }
    rewrite <-Hpi, key_at_insert_eq by done. intros [= ->]. specialize (Hnull eq_refl).
    unfold next_pos in Hnull. rewrite Hpi, nth_pos_succ in Hnull by lia.
    pose proof (key_at_range _ _ _ Hq Hk).
    destruct (Z.eq_dec (i + 1) (dist (size ks) (hash k) q)) as [Hd|].
    + rewrite Hd, nth_pos_dist in Hnull by done. simplify_eq.
    + apply (tk_chain _ Hok q k (i + 1) Hq Hk Hf); [lia|done].
Qed.

(** The search loop, in a state whose keys are [ks]: it ends at a slot with a key
    equal to [k], at a slot where [k] may be put, without success, or in a full
    table.  [length ks] rounds are enough for the first table. *)
Section Search.
Context {St R : Type} (alloc : M St Z) (key : Z -> M St Z) (same : Z -> bool) (adding : bool).
Context (found add : Z -> M St R) (none : R) (rehash : M St unit) (fuel : nat).
Context (s : St) (ks : list Z) (k : Z) (Q : R -> St -> Prop).
Context (Hok : table_ok ks) (Hk : valid k) (Hn : 0 < size ks).
Hypothesis alloc_s : alloc s = Some (size ks, s).
Hypothesis key_s : forall p x, 0 <= p -> key_at ks p = Some x -> key p s = Some (x, s).
Hypothesis same_s : forall p x, 0 <= p -> key_at ks p = Some x -> filled x = true ->
  same x = mp_obj_equal x k.
Hypothesis on_found : forall p x, 0 <= p -> key_at ks p = Some x -> matches k x = true ->
  wp (found p) s Q.
Hypothesis on_add : forall p, adding = true -> ~ present ks k -> insertable ks k p -> wp (add p) s Q.
Hypothesis on_none : adding = false -> ~ present ks k -> Q none s.
Hypothesis on_full : adding = true -> ~ present ks k ->
  (forall p x, 0 <= p -> key_at ks p = Some x -> filled x = true) ->
  wp (_ ← rehash; probe alloc key same adding found add none rehash (hash k) fuel) s Q.

Definition avail_ok (i : Z) (avail : option Z) : Prop :=
  match avail with
  | Some a => insertable ks k a
  | None => forall j, 0 <= j < i -> key_at ks (nth_pos (size ks) (hash k) j) <> Some MP_OBJ_SENTINEL
  end.

Lemma avail_ok_step i avail x : 0 <= i < size ks -> passed ks k i -> avail_ok i avail ->
  key_at ks (nth_pos (size ks) (hash k) i) = Some x ->
  avail_ok (i + 1) (if x =? MP_OBJ_SENTINEL then Some (default (nth_pos (size ks) (hash k) i) avail)
                    else avail).
Proof.
  intros Hi Hps Hav Hx. destruct (x =? MP_OBJ_SENTINEL) eqn:E; to_prop.
  - subst x. destruct avail as [a|]; [done|]. by eapply insertable_nth.
  - destruct avail as [a|]; [done|]. intros j Hj. destruct (Z.eq_dec j i) as [->|].
    + rewrite Hx. congruence.
    + apply Hav. lia.
Qed.

Lemma all_filled : passed ks k (size ks) -> avail_ok (size ks) None ->
  forall p x, 0 <= p -> key_at ks p = Some x -> filled x = true.
Proof.
  intros Hps Hav p x Hp Hx. pose proof (key_at_range _ _ _ Hp Hx) as Hr.
  pose proof (dist_range (size ks) (hash k) p Hn) as Hd.
  destruct (Hps _ Hd) as (x' & Hx' & Hnn & _). specialize (Hav _ Hd).
  rewrite nth_pos_dist in Hx', Hav by done. simplify_eq. unfold filled.
  rewrite (proj2 (Z.eqb_neq _ _) Hnn), (proj2 (Z.eqb_neq x MP_OBJ_SENTINEL)); [done|]. congruence.
Qed.

Abbreviation step := (probe_step alloc key same adding found add none rehash (hash k)).

Lemma wp_probe_from r : forall i avail, i + Z.of_nat r = size ks -> 0 <= i < size ks ->
  passed ks k i -> avail_ok i avail ->
  wp (loop (r + fuel) step (nth_pos (size ks) (hash k) i, hash k `mod` size ks, avail)) s Q.
Proof.
  induction r as [|r IH]; intros i avail Hir Hi Hps Hav; [lia|]. cbn [loop Nat.add].
  pose proof (nth_pos_range (size ks) (hash k) i ltac:(lia)) as Hpos.
  destruct (key_at_Some ks _ Hpos) as [x Hx].
  apply wp_bind. unfold probe_step. apply wp_bind. unfold wp at 1. rewrite (key_s _ x (proj1 Hpos) Hx).
  destruct (x =? MP_OBJ_NULL) eqn:En; to_prop.
  { subst x. pose proof (null_absent ks k i Hok Hk Hi Hps Hx) as Habs. destruct adding eqn:Ea.
    - apply wp_bind. eapply wp_mono; [apply on_add; [done..|]|by intros ? ? ?; apply wp_ret].
      destruct avail as [a|]; [done|]. by eapply insertable_nth.
    - apply wp_ret, wp_ret. by apply on_none. }
  pose proof (avail_ok_step i avail x Hi Hps Hav Hx) as Hav'.
  destruct (negb (x =? MP_OBJ_SENTINEL) && same x) eqn:Es; to_prop.
  { assert (filled x = true) as Hf by (unfold filled; by rewrite (proj2 (Z.eqb_neq _ _) En), (proj2 (Z.eqb_neq x MP_OBJ_SENTINEL))).
    apply wp_bind. eapply wp_mono; [apply (on_found _ x (proj1 Hpos) Hx)|by intros ? ? ?; apply wp_ret].
    unfold matches. rewrite Hf. cbn. by rewrite <-(same_s _ x (proj1 Hpos) Hx Hf). }
  assert (matches k x = false) as Hm.
  { unfold matches. destruct (filled x) eqn:Hf; [|done]. cbn. rewrite <-(same_s _ x (proj1 Hpos) Hx Hf).
    destruct Es as [Es|Es]; [|done]. unfold filled in Hf. rewrite Es, andb_false_r in Hf. done. }
  pose proof (passed_succ ks k i x ltac:(lia) Hps Hx En Hm) as Hps'.
  apply wp_bind. unfold wp at 1. rewrite alloc_s, nth_pos_succ by done.
  destruct (nth_pos _ _ (i + 1) =? _) eqn:Ew; to_prop.
  - assert (i + 1 = size ks) as Hfull.
    { destruct (Z.eq_dec (i + 1) (size ks)); [done|]. rewrite <-nth_pos_0 in Ew.
      apply nth_pos_inj in Ew; lia. }
    rewrite Hfull in *. pose proof (wrapped_absent _ _ Hps') as Habs.
    destruct adding eqn:Ea; [|apply wp_ret, wp_ret; by apply on_none].
    destruct (if x =? MP_OBJ_SENTINEL then _ else _) as [a|].
    + apply wp_bind. eapply wp_mono; [apply on_add; done|by intros ? ? ?; apply wp_ret].
    + pose proof (on_full eq_refl Habs (all_filled Hps' Hav')) as Hwp.
      assert (r = 0%nat) as -> by lia. apply wp_bind. revert Hwp. clear.
      unfold wp, mbind, M_bind. destruct (rehash s) as [[[] s']|]; [|done].
      unfold probe, mbind, M_bind, mret, M_ret. destruct (alloc s') as [[n s'']|]; done.
  - apply wp_ret, wp_ret. destruct (Z.eq_dec (i + 1) (size ks)) as [Hfull|].
    + rewrite Hfull, nth_pos_full in Ew by done. done.
    + apply IH; [lia|lia|done|done].
Qed.

Lemma wp_probe : wp (probe alloc key same adding found add none rehash (hash k) (length ks + fuel)) s Q.
Proof.
  unfold probe. apply wp_bind. unfold wp at 1. rewrite alloc_s.
  rewrite <-nth_pos_0 at 1. apply wp_probe_from; [lia|lia|..].
  - intros j Hj. lia.
  - intros j Hj. lia.
Qed.

End Search.

End Table.
