(* ===== verification/ObjMap.v ===== *)
(** * The map type of the run time ([py/map.c], [py/obj.h])

    [mp_map_t] is a hash table with linear probing, or an ordered array that is
    searched linearly ([is_ordered]; ROM tables and [OrderedDict]).  A global
    cache remembers the low byte of the position where a key was last found,
    for any map.  The state of the operations is one map and that cache. *)
From S2P Require Import Prelude.
From S2P Require Import CMem.
From S2P Require Import Probing.
Local Open Scope Z_scope.

(** A table entry: key and value, two object words. *)
Abbreviation mp_map_elem_t := (Z * Z)%type (only parsing).

Record mp_map_t := MkMap {
  all_keys_are_qstrs : bool; is_fixed : bool; is_ordered : bool;
  used : Z; alloc : Z; table : list mp_map_elem_t }.

Definition set_used (n : Z) (m : mp_map_t) : mp_map_t :=
  MkMap (all_keys_are_qstrs m) (is_fixed m) (is_ordered m) n (alloc m) (table m).
Definition set_table (t : list mp_map_elem_t) (m : mp_map_t) : mp_map_t :=
  MkMap (all_keys_are_qstrs m) (is_fixed m) (is_ordered m) (used m) (alloc m) t.
Definition set_all_keys_are_qstrs (b : bool) (m : mp_map_t) : mp_map_t :=
  MkMap b (is_fixed m) (is_ordered m) (used m) (alloc m) (table m).

Definition MP_MAP_LOOKUP : Z := 0.
Definition MP_MAP_LOOKUP_ADD_IF_NOT_FOUND : Z := 1.
Definition MP_MAP_LOOKUP_REMOVE_IF_FOUND : Z := 2.
Definition MP_MAP_LOOKUP_ADD_IF_NOT_FOUND_OR_REMOVE_IF_FOUND : Z := 3.

Definition hash_allocation_sizes : list Z :=
  [0; 2; 4; 6; 8; 10; 12;
   17; 23; 29; 37; 47; 59; 73;
   97; 127; 167; 223; 293; 389; 521; 691; 919; 1223; 1627; 2161;
   3229; 4831; 7243; 10861; 16273; 24407; 36607; 54907].

Definition get_hash_alloc_greater_or_equal_to (x : Z) : Z :=
  match find (fun n => x <=? n) hash_allocation_sizes with
  | Some n => n
  | None => Z.lor (x + x / 2) 1
  end.

(** [m_new0(mp_map_elem_t, n)]: [n] zeroed entries.  Entries are 8 bytes, so a
    request above [MAX_ENTRIES] cannot be met: the allocator raises, which ends
    the operation before it has changed anything and is not modelled. *)
Definition MAX_ENTRIES : Z := 2 ^ 28.
Definition entries0 (n : Z) : list mp_map_elem_t :=
  replicate (Z.to_nat n) (MP_OBJ_NULL, MP_OBJ_NULL).

Definition mp_map_init (n : Z) : mp_map_t := MkMap true false false 0 n (entries0 n).

Definition mp_map_init_fixed_table (n : Z) (t : list mp_map_elem_t) : mp_map_t :=
  MkMap true true true n n t.

Definition mp_map_deinit (m : mp_map_t) : mp_map_t :=
  MkMap (all_keys_are_qstrs m) (is_fixed m) (is_ordered m) 0 0 (if is_fixed m then table m else []).

Definition mp_map_clear (m : mp_map_t) : mp_map_t := MkMap true false (is_ordered m) 0 0 [].

Record map_vm := MkVm { the_map : mp_map_t; map_lookup_cache : list Z }.

Definition on_map (f : mp_map_t -> mp_map_t) (s : map_vm) : map_vm :=
  MkVm (f (the_map s)) (map_lookup_cache s).

Section Map.
Context `{KeyOps}.

Definition Mm : Type -> Type := M map_vm.

Definition get_map : Mm mp_map_t := gets the_map.
Definition upd_map (f : mp_map_t -> mp_map_t) : Mm unit := modify (on_map f).
Definition get_alloc : Mm Z := gets (fun s => alloc (the_map s)).

Definition map_slot (pos : Z) : Mm mp_map_elem_t :=
  fun s => e ← table (the_map s) !! Z.to_nat pos; Some (e, s).
Definition slot_key (pos : Z) : Mm Z := e ← map_slot pos; mret e.1.
Definition set_slot (pos : Z) (e : mp_map_elem_t) : Mm unit :=
  _ ← map_slot pos; upd_map (fun m => set_table (<[Z.to_nat pos := e]> (table m)) m).
Definition set_key (pos k : Z) : Mm unit := e ← map_slot pos; set_slot pos (k, e.2).
Definition set_value (pos v : Z) : Mm unit := e ← map_slot pos; set_slot pos (e.1, v).

(** The cache of [MICROPY_OPT_MAP_LOOKUP_CACHE_SIZE] bytes. *)
Definition MAP_LOOKUP_CACHE_SIZE : Z := 128.
Definition MAP_CACHE_OFFSET (index : Z) : Z := Z.shiftr index 2 `mod` MAP_LOOKUP_CACHE_SIZE.
Definition MAP_CACHE_ENTRY (index : Z) : Mm Z :=
  fun s => c ← map_lookup_cache s !! Z.to_nat (MAP_CACHE_OFFSET index); Some (c, s).
Definition MAP_CACHE_SET (index pos : Z) : Mm unit :=
  _ ← MAP_CACHE_ENTRY index;
  modify (fun s => MkVm (the_map s)
    (<[Z.to_nat (MAP_CACHE_OFFSET index) := Z.land pos 255]> (map_lookup_cache s))).

(** "Try the cache for lookup or add-if-not-found." *)
Definition cache_lookup (index kind : Z) : Mm (option Z) :=
  n ← get_alloc;
  if negb (kind =? MP_MAP_LOOKUP_REMOVE_IF_FOUND) && negb (n =? 0) then
    c ← MAP_CACHE_ENTRY index;
    k ← slot_key (c `mod` n);
    mret (if k =? index then Some (c `mod` n) else None)
  else mret None.

(** "Work out if we can compare just pointers"; [None] is the early return of a
    lookup that cannot succeed. *)
Definition compare_only_ptrs (m : mp_map_t) (index kind : Z) : option bool :=
  if all_keys_are_qstrs m then
    if mp_obj_is_qstr index then Some true
    else if is_exact_str index then Some false
    else if negb (kind =? MP_MAP_LOOKUP_ADD_IF_NOT_FOUND) then None
    else Some true
  else Some false.

Definition same_key (ptrs : bool) (index key : Z) : bool :=
  (key =? index) || (negb ptrs && mp_obj_equal key index).

Definition note_key (index : Z) : Mm unit :=
  if negb (mp_obj_is_qstr index) then upd_map (set_all_keys_are_qstrs false) else mret tt.

(** Put a new key into slot [a]. *)
Definition map_add (index a : Z) : Mm (option Z) :=
  upd_map (fun m => set_used (used m + 1) m);;
  set_slot a (index, MP_OBJ_NULL);;
  note_key index;;
  mret (Some a).

(** ** Ordered arrays *)

(** The linear search over the entries in use. *)
Fixpoint ordered_find (same : Z -> bool) (es : list mp_map_elem_t) (i : Z) : option Z :=
  match es with
  | [] => None
  | e :: es => if same e.1 then Some i else ordered_find same es (i + 1)
  end.

(** Remove entry [i] by moving the rest of the array down; the value is left
    behind the end. *)
Definition ordered_remove (i : Z) : Mm Z :=
  m ← get_map;
  e ← map_slot i;
  let used' := used m - 1 in
  let t := table m in
  upd_map (fun m => set_used used' (set_table
    (<[Z.to_nat used' := (MP_OBJ_NULL, e.2)]>
      (take (Z.to_nat i) t ++ drop (S (Z.to_nat i)) (take (Z.to_nat (used m)) t) ++
       drop (Z.to_nat used') t)) m));;
  mret used'.

Definition ordered_append (index : Z) : Mm (option Z) :=
  m ← get_map;
  (if used m =? alloc m then
     upd_map (fun m => MkMap (all_keys_are_qstrs m) (is_fixed m) (is_ordered m) (used m) (alloc m + 4)
       (table m ++ entries0 4))
   else mret tt);;
  map_add index (used m).

Definition ordered_lookup (ptrs : bool) (index kind : Z) : Mm (option Z) :=
  m ← get_map;
  match ordered_find (same_key ptrs index) (take (Z.to_nat (used m)) (table m)) 0 with
  | Some i =>
      i ← (if kind =? MP_MAP_LOOKUP_REMOVE_IF_FOUND then ordered_remove i else mret i);
      MAP_CACHE_SET index i;;
      mret (Some i)
  | None =>
      if negb (kind =? MP_MAP_LOOKUP_ADD_IF_NOT_FOUND) then mret None
      else ordered_append index
  end.

(** ** Hash tables *)

Definition map_found (index kind pos : Z) : Mm (option Z) :=
  (if kind =? MP_MAP_LOOKUP_REMOVE_IF_FOUND then
     upd_map (fun m => set_used (used m - 1) m);;
     n ← get_alloc;
     nk ← slot_key ((pos + 1) `mod` n);
     set_key pos (if nk =? MP_OBJ_NULL then MP_OBJ_NULL else MP_OBJ_SENTINEL)
   else mret tt);;
  MAP_CACHE_SET index pos;;
  mret (Some pos).

(** Enough rounds for the table and for the one it may grow to. *)
Definition probe_fuel (n : Z) : nat :=
  Z.to_nat n + (Z.to_nat (get_hash_alloc_greater_or_equal_to (n + 1)) + 1).

Definition hash_lookup (rehash : Mm unit) (ptrs : bool) (index kind : Z) : Mm (option Z) :=
  n ← get_alloc;
  if (n =? 0) && negb (kind =? MP_MAP_LOOKUP_ADD_IF_NOT_FOUND) then mret None
  else
    (if n =? 0 then rehash else mret tt);;
    n ← get_alloc;
    probe get_alloc slot_key (same_key ptrs index) (kind =? MP_MAP_LOOKUP_ADD_IF_NOT_FOUND)
      (map_found index kind) (map_add index) None rehash (index_hash index) (probe_fuel n).

(** [mp_map_rehash] and [mp_map_lookup] call each other; [lookup] is the one
    used to fill the new table. *)
Definition mp_map_rehash (lookup : Z -> Z -> Mm (option Z)) : Mm unit :=
  m ← get_map;
  let old_table := table m in
  let new_alloc := get_hash_alloc_greater_or_equal_to (alloc m + 1) in
  assert_ (new_alloc <=? MAX_ENTRIES);;
  upd_map (fun m => MkMap true (is_fixed m) (is_ordered m) 0 new_alloc (entries0 new_alloc));;
  foldr (fun e rest =>
    (if filled e.1 then
       r ← lookup e.1 MP_MAP_LOOKUP_ADD_IF_NOT_FOUND;
       match r with Some p => set_value p e.2 | None => stuck end
     else mret tt);;
    rest) (mret tt) old_table.

(** [depth] bounds the mutual recursion: the calls made by a rehash find room. *)
Fixpoint lookup_depth (depth : nat) (index kind : Z) : Mm (option Z) :=
  match depth with
  | O => stuck
  | S depth =>
      m ← get_map;
      assert_ (negb (is_fixed m) || (kind =? MP_MAP_LOOKUP));;
      hit ← cache_lookup index kind;
      match hit with
      | Some p => mret (Some p)
      | None =>
          match compare_only_ptrs m index kind with
          | None => mret None
          | Some ptrs =>
              if is_ordered m then ordered_lookup ptrs index kind
              else hash_lookup (mp_map_rehash (lookup_depth depth)) ptrs index kind
          end
      end
  end.

(** The slot that was found or added, [None] for [NULL]. *)
Definition mp_map_lookup (index kind : Z) : Mm (option Z) := lookup_depth 2 index kind.

End Map.
