(* ===== verification/ObjMapFacts.v ===== *)
(** * Correctness of the maps of [py/map.c]

    A map represents a partial function from keys, taken up to equality of
    objects, to values ([map_find]).  The invariant [map_ok] is established by
    [mp_map_init] and kept by every operation; each kind of lookup is shown to
    be the corresponding operation on the function, whatever the contents of
    the lookup cache. *)
From S2P Require Import Prelude.
From S2P Require Import CMem.
From S2P Require Import Probing.
From S2P Require Import ObjMap.
Local Open Scope Z_scope.

Lemma find_size_ge x : x <= get_hash_alloc_greater_or_equal_to x.
Proof.
  unfold get_hash_alloc_greater_or_equal_to. destruct (find _ _) as [n|] eqn:E.
  - apply find_some in E as [_ E]. to_prop. lia.
  - assert (0 <= x) as Hx.
    { destruct (Z_le_gt_dec 0 x); [done|]. cbn in E. destruct (x <=? 0) eqn:E0; to_prop; [done|lia]. }
    pose proof (Z.div_pos x 2 Hx ltac:(lia)).
    assert (x + x / 2 <= Z.lor (x + x / 2) 1); [|lia].
    assert (0 <= x + x / 2) as Hy by lia. revert Hy. generalize (x + x / 2). intros y Hy.
    pose proof (Z.add_lor_land y 1). pose proof (Z.land_ones y 1 ltac:(lia)) as Hl.
    change (Z.ones 1) with 1 in Hl. change (2 ^ 1) with 2 in Hl.
    pose proof (Z.mod_pos_bound y 2 ltac:(lia)). lia.
Qed.

(** Growing at most doubles the table, up to a constant. *)
Fixpoint steps_ok (prev : Z) (l : list Z) : bool :=
  match l with [] => true | n :: l => (n <=? 2 * prev + 2) && steps_ok n l end.

Lemma find_step_le y l prev n : prev < y -> steps_ok prev l = true ->
  find (fun n => y <=? n) l = Some n -> n <= 2 * y + 2.
Proof.
  revert prev. induction l as [|x l IH]; intros prev Hp Hs Hf; [done|]. cbn in Hs, Hf.
  apply andb_true_iff in Hs as [Hx Hs]. destruct (y <=? x) eqn:E; to_prop; [simplify_eq; lia|].
  by apply (IH x).
Qed.

Lemma find_size_le x : 0 <= x -> get_hash_alloc_greater_or_equal_to (x + 1) <= 2 * x + 4.
Proof.
  intros Hx. unfold get_hash_alloc_greater_or_equal_to. destruct (find _ _) as [n|] eqn:E.
  - apply (find_step_le (x + 1) _ 0) in E; [lia|lia|done].
  - pose proof (Z.add_lor_land (x + 1 + (x + 1) / 2) 1).
    assert (0 <= Z.land (x + 1 + (x + 1) / 2) 1) by (apply Z.land_nonneg; lia).
    pose proof (Z.div_mod (x + 1) 2 ltac:(done)). pose proof (Z.mod_pos_bound (x + 1) 2 ltac:(done)). lia.
Qed.

Section MapFacts.
Context `{KeyOps} (valid : Z -> Prop) `{KL : !KeyLaws valid}.

Definition keys (t : list mp_map_elem_t) : list Z := fst <$> t.
Definition is_filled (e : mp_map_elem_t) : bool := filled e.1.
Definition count (t : list mp_map_elem_t) : Z := Z.of_nat (length (List.filter is_filled t)).

(** The value of a key. *)
Definition map_find (t : list mp_map_elem_t) (k : Z) : option Z :=
  snd <$> List.find (fun e => matches k e.1) t.

(** An ordered array is a table in which every search starts at the front. *)
Definition map_hash (m : mp_map_t) : Z -> Z := if is_ordered m then fun _ => 0 else index_hash.

Record map_ok (m : mp_map_t) : Prop := {
  mo_alloc : alloc m = Z.of_nat (length (table m));
  mo_used : used m = count (table m);
  mo_table : table_ok valid (map_hash m) (keys (table m));
  mo_ordered : is_ordered m = true ->
    forall p k, 0 <= p -> key_at (keys (table m)) p = Some k -> (filled k = true <-> p < used m);
  mo_qstrs : all_keys_are_qstrs m = true ->
    forall p k, 0 <= p -> key_at (keys (table m)) p = Some k -> filled k = true -> mp_obj_is_qstr k = true }.

Lemma map_hash_equal m a b : valid a -> valid b -> mp_obj_equal a b = true -> map_hash m a = map_hash m b.
Proof. unfold map_hash. intros. destruct (is_ordered m); [reflexivity|]. by apply (equal_index_hash a b). Qed.

Lemma key_at_keys t p e : t !! Z.to_nat p = Some e -> key_at (keys t) p = Some e.1.
Proof. intros He. unfold key_at, keys. by rewrite list_lookup_fmap, He. Qed.

Lemma key_at_keys_inv t p k : key_at (keys t) p = Some k -> exists v, t !! Z.to_nat p = Some (k, v).
Proof.
  unfold key_at, keys. rewrite list_lookup_fmap. intros [[k' v] [He ->]]%fmap_Some. by exists v.
Qed.

Lemma keys_length t : length (keys t) = length t.
Proof. apply length_fmap. Qed.

Lemma keys_insert t p e : keys (<[p:=e]> t) = <[p:=e.1]> (keys t).
Proof. apply list_fmap_insert. Qed.

(** ** Counting filled entries *)

Lemma count_app t u : count (t ++ u) = count t + count u.
Proof. unfold count. rewrite List.filter_app, length_app. lia. Qed.

Lemma count_cons e t : count (e :: t) = zbool (filled e.1) + count t.
Proof. unfold count. cbn. unfold is_filled at 1. destruct (filled e.1); cbn [length zbool]; lia. Qed.

Lemma count_insert t p e o : t !! p = Some o ->
  count (<[p:=e]> t) = count t - zbool (filled o.1) + zbool (filled e.1).
Proof.
  intros Ho. pose proof (lookup_lt_Some _ _ _ Ho). rewrite (insert_take_drop t p e) by done.
  rewrite <-(take_drop_middle t p o Ho) at 3. rewrite !count_app, !count_cons. lia.
Qed.

Lemma count_le t : count t <= Z.of_nat (length t).
Proof. unfold count. pose proof (List.filter_length_le is_filled t). lia. Qed.

Lemma count_full t : (forall p k, 0 <= p -> key_at (keys t) p = Some k -> filled k = true) ->
  count t = Z.of_nat (length t).
Proof.
  intros Hf. unfold count. f_equal. f_equal.
  assert (Forall (fun e => is_filled e = true) t) as HF.
  { apply Forall_lookup. intros i e He. apply (Hf (Z.of_nat i)); [lia|]. apply key_at_keys. by rewrite Nat2Z.id. }
  clear Hf. induction HF as [|e t He _ IH]; [done|]. cbn. by rewrite He, IH.
Qed.

Lemma count_entries0 n : count (entries0 n) = 0.
Proof. unfold entries0. induction (Z.to_nat n) as [|j IH]; [done|]. cbn [replicate]. rewrite count_cons. cbn. lia. Qed.

(** ** [map_find] *)

Definition has (t : list mp_map_elem_t) (k v : Z) : Prop :=
  exists p e, t !! p = Some e /\ matches k e.1 = true /\ e.2 = v.

Lemma map_find_has t k v : map_find t k = Some v -> has t k v.
Proof.
  unfold map_find. intros [e [He ->]]%fmap_Some. apply find_some in He as [Hin Hm].
  apply list_elem_of_In, list_elem_of_lookup in Hin as [p Hp]. by exists p, e.
Qed.

Lemma map_find_None t k : map_find t k = None -> forall v, ~ has t k v.
Proof.
  unfold map_find. intros Hn%fmap_None v (p & e & He & Hm & _).
  pose proof (find_none _ _ Hn e) as Hf. cbn in Hf. rewrite Hf in Hm; [done|].
  apply list_elem_of_In. by eapply list_elem_of_lookup_2.
Qed.

Section Find.
Context (hash : Z -> Z).

Lemma entries_unique t p q e e' k : table_ok valid hash (keys t) -> valid k ->
  t !! p = Some e -> t !! q = Some e' -> matches k e.1 = true -> matches k e'.1 = true -> p = q.
Proof.
  intros Hok Hk Hp Hq Hm Hm'. apply matches_filled in Hm as [Hf He]. apply matches_filled in Hm' as [Hf' He'].
  assert (key_at (keys t) (Z.of_nat p) = Some e.1) as Hkp by (apply key_at_keys; by rewrite Nat2Z.id).
  assert (key_at (keys t) (Z.of_nat q) = Some e'.1) as Hkq by (apply key_at_keys; by rewrite Nat2Z.id).
  assert (valid e.1) as Hv by (apply (tk_valid _ _ _ Hok (Z.of_nat p)); [lia|done..]).
  assert (valid e'.1) as Hv' by (apply (tk_valid _ _ _ Hok (Z.of_nat q)); [lia|done..]).
  apply Nat2Z.inj. apply (tk_distinct _ _ _ Hok _ _ e.1 e'.1); [lia|lia|done..|].
  unfold matches. rewrite Hf'. cbn. apply (equal_trans e'.1 k e.1); [done..|]. by apply equal_sym.
Qed.

Lemma map_find_Some t k v : table_ok valid hash (keys t) -> valid k -> map_find t k = Some v <-> has t k v.
Proof.
  intros Hok Hk. split; [apply map_find_has|]. intros (p & e & He & Hm & <-).
  destruct (map_find t k) as [v|] eqn:E.
  - apply map_find_has in E as (q & e' & He' & Hm' & <-).
    by rewrite (entries_unique t p q e e' k Hok Hk He He' Hm Hm') in He; simplify_eq.
  - destruct (map_find_None _ _ E e.2). by exists p, e.
Qed.

Lemma map_find_present t k : present (keys t) k <-> map_find t k <> None.
Proof.
  split.
  - intros (p & k' & Hp & Hk' & Hm) Hn. apply key_at_keys_inv in Hk' as [v Hv].
    destruct (map_find_None _ _ Hn v). by exists (Z.to_nat p), (k', v).
  - destruct (map_find t k) as [v|] eqn:E; [|done]. intros _. apply map_find_has in E as (p & e & He & Hm & _).
    exists (Z.of_nat p), e.1. split; [lia|]. split; [|done]. apply key_at_keys. by rewrite Nat2Z.id.
Qed.

(** Writing one entry: all three of adding a key, changing its value and
    deleting it are instances. *)
Lemma map_find_insert hash' t p e o k : table_ok valid hash (keys t) -> table_ok valid hash' (keys (<[p:=e]> t)) ->
  t !! p = Some o -> valid k ->
  map_find (<[p:=e]> t) k =
  if matches k e.1 then Some e.2 else if matches k o.1 then None else map_find t k.
Proof.
  intros Hok Hok' Ho Hk. pose proof (lookup_lt_Some _ _ _ Ho) as Hlt.
  assert (forall q e', q <> p -> (<[p:=e]> t) !! q = Some e' <-> t !! q = Some e') as Hq.
  { intros q e' Hne. by rewrite list_lookup_insert_ne. }
  destruct (map_find (<[p:=e]> t) k) as [v|] eqn:E.
  - apply map_find_has in E as (q & e' & He' & Hm & <-). destruct (decide (q = p)) as [->|Hne].
    + rewrite list_lookup_insert_eq in He' by done. simplify_eq. by rewrite Hm.
    + pose proof (proj1 (Hq q e' Hne) He') as He2. destruct (matches k e.1) eqn:Hme.
      { assert (q = p); [|done]. assert ((<[p:=e]> t) !! p = Some e) as Hpe by by apply list_lookup_insert_eq.
        clear Hok. revert He' Hpe Hm Hme. revert Hok'. generalize (<[p:=e]> t). intros t' Hok' He' Hpe Hm Hme.
        apply matches_filled in Hm as [Hf Hm]. apply matches_filled in Hme as [Hf' Hme].
        assert (key_at (keys t') (Z.of_nat q) = Some e'.1) as Hkp by (apply key_at_keys; by rewrite Nat2Z.id).
        assert (key_at (keys t') (Z.of_nat p) = Some e.1) as Hkq by (apply key_at_keys; by rewrite Nat2Z.id).
        assert (valid e'.1) as Hv by (apply (tk_valid _ _ _ Hok' (Z.of_nat q)); [lia|done..]).
        assert (valid e.1) as Hv' by (apply (tk_valid _ _ _ Hok' (Z.of_nat p)); [lia|done..]).
        apply Nat2Z.inj. apply (tk_distinct _ _ _ Hok' _ _ e'.1 e.1); [lia|lia|done..|].
        unfold matches. rewrite Hf'. cbn. apply (equal_trans e.1 k e'.1); [done..|]. by apply equal_sym. }
      destruct (matches k o.1) eqn:Hmo.
      { destruct Hne. apply (entries_unique t q p e' o k); done. }
      symmetry. apply map_find_Some; [done|done|]. by exists q, e'.
  - pose proof (map_find_None _ _ E) as Hnone. destruct (matches k e.1) eqn:Hme.
    { destruct (Hnone e.2). exists p, e. split; [by apply list_lookup_insert_eq|done]. }
    destruct (matches k o.1) eqn:Hmo; [done|]. destruct (map_find t k) as [v|] eqn:E2; [|done].
    apply map_find_has in E2 as (q & e' & He' & Hm & <-). destruct (Hnone e'.2). exists q, e'.
    split; [|done]. apply Hq; [|done]. intros ->. congruence.
Qed.

Lemma map_find_equal t k k' : table_ok valid hash (keys t) -> valid k -> valid k' -> mp_obj_equal k k' = true ->
  map_find t k = map_find t k'.
Proof.
  intros Hok Hk Hk' He. destruct (map_find t k) as [v|] eqn:E.
  - apply map_find_has in E as (p & e & Hp & Hm & <-). symmetry. apply map_find_Some; [done..|].
    exists p, e. split; [done|]. split; [|done]. apply matches_filled in Hm as [Hf Hm]. unfold matches.
    rewrite Hf. cbn. apply (equal_trans e.1 k k'); [|done..].
    apply (tk_valid _ _ _ Hok (Z.of_nat p)); [lia| |done]. apply key_at_keys. by rewrite Nat2Z.id.
  - destruct (map_find t k') as [v|] eqn:E'; [|done].
    apply map_find_has in E' as (p & e & Hp & Hm & _). destruct (map_find_None _ _ E e.2).
    exists p, e. split; [done|]. split; [|done]. apply matches_filled in Hm as [Hf Hm]. unfold matches.
    rewrite Hf. cbn. apply (equal_trans e.1 k' k); [|done..|by apply equal_sym].
    apply (tk_valid _ _ _ Hok (Z.of_nat p)); [lia| |done]. apply key_at_keys. by rewrite Nat2Z.id.
Qed.

End Find.

End MapFacts.

(** ** The lookups of [py/map.c] meet their specification

    For each kind of lookup the relation between the map before and after
    ([looked_up], [added], [removed]), and the proofs for the hash table, the
    ordered array and [mp_map_rehash]. *)

Section MapOps.
Context `{KeyOps} (valid : Z -> Prop) `{KL : !KeyLaws valid}.

Definition cache_ok (s : map_vm) : Prop := length (map_lookup_cache s) = 128%nat.
Definition state_ok (s : map_vm) : Prop := map_ok valid (the_map s) /\ cache_ok s.

(** What is the same in the map before and after any operation. *)
Definition same_kind (m m' : mp_map_t) : Prop :=
  is_fixed m' = is_fixed m /\ is_ordered m' = is_ordered m.

Definition find_in (m : mp_map_t) (k : Z) : option Z := map_find (table m) k.

(** Slot [r] holds a key equal to [k], with value [v]. *)
Definition slot_holds (m : mp_map_t) (k : Z) (r : option Z) (v : Z) : Prop :=
  exists p e, r = Some p /\ 0 <= p /\ table m !! Z.to_nat p = Some e /\ matches k e.1 = true /\ e.2 = v.

Definition looked_up (m m' : mp_map_t) (k : Z) (r : option Z) : Prop :=
  m' = m /\
  match find_in m k with
  | Some v => slot_holds m k r v
  | None => r = None
  end.

Definition added (m m' : mp_map_t) (k : Z) (r : option Z) : Prop :=
  let v := default MP_OBJ_NULL (find_in m k) in
  slot_holds m' k r v /\ same_kind m m' /\
  used m' = used m + (match find_in m k with Some _ => 0 | None => 1 end) /\
  (used m < alloc m -> alloc m' = alloc m) /\ alloc m' <= Z.max (alloc m) (2 * used m + 4) /\
  (all_keys_are_qstrs m = true -> mp_obj_is_qstr k = true -> all_keys_are_qstrs m' = true) /\
  forall k', valid k' -> find_in m' k' = if mp_obj_equal k k' then Some v else find_in m k'.

Definition removed (m m' : mp_map_t) (k : Z) (r : option Z) : Prop :=
  same_kind m m' /\
  match find_in m k with
  | Some v => (exists p e, r = Some p /\ table m' !! Z.to_nat p = Some e /\ filled e.1 = false /\ e.2 = v) /\
      used m' = used m - 1 /\ alloc m' = alloc m
  | None => r = None /\ used m' = used m /\ alloc m' = alloc m
  end /\
  forall k', valid k' -> find_in m' k' = if mp_obj_equal k k' then None else find_in m k'.

Lemma wp_map_slot pos s e (Q : mp_map_elem_t -> map_vm -> Prop) :
  table (the_map s) !! Z.to_nat pos = Some e -> Q e s -> wp (map_slot pos) s Q.
Proof. intros He HQ. unfold wp, map_slot. by rewrite He. Qed.

Lemma slot_key_run s p x : key_at (keys (table (the_map s))) p = Some x -> slot_key p s = Some (x, s).
Proof.
  intros Hx. apply key_at_keys_inv in Hx as [v Hv]. unfold slot_key, mbind, M_bind, map_slot. by rewrite Hv.
Qed.

Lemma wp_cache_set index p s (Q : unit -> map_vm -> Prop) : cache_ok s ->
  (forall s', the_map s' = the_map s -> cache_ok s' -> Q tt s') -> wp (MAP_CACHE_SET index p) s Q.
Proof.
  intros Hc HQ. unfold MAP_CACHE_SET. apply wp_bind. unfold wp, MAP_CACHE_ENTRY.
  destruct (lookup_lt_is_Some_2 (map_lookup_cache s) (Z.to_nat (MAP_CACHE_OFFSET index))) as [c ->].
  - rewrite Hc. pose proof (Z.mod_pos_bound (Z.shiftr index 2) MAP_LOOKUP_CACHE_SIZE ltac:(done)) as Hb.
    unfold MAP_CACHE_OFFSET. change MAP_LOOKUP_CACHE_SIZE with 128 in *. lia.
  - cbn. apply HQ; [done|]. unfold cache_ok. cbn. by rewrite length_insert.
Qed.

(** A hit of the cache is a slot with the very key, which a search would find. *)
Lemma wp_cache_lookup index kind s (Q : option Z -> map_vm -> Prop) : state_ok s ->
  valid index -> 
  (forall p e, kind <> MP_MAP_LOOKUP_REMOVE_IF_FOUND -> 0 <= p ->
     table (the_map s) !! Z.to_nat p = Some e -> matches index e.1 = true -> Q (Some p) s) ->
  Q None s -> wp (cache_lookup index kind) s Q.
Proof.
  intros [Hok Hc] Hv Hhit Hmiss. unfold cache_lookup. apply wp_bind, wp_gets.
  destruct (negb _ && negb _) eqn:E; [|by apply wp_ret]. to_prop.
  apply wp_bind. unfold wp at 1, MAP_CACHE_ENTRY.
  destruct (lookup_lt_is_Some_2 (map_lookup_cache s) (Z.to_nat (MAP_CACHE_OFFSET index))) as [c ->].
  { rewrite Hc. pose proof (Z.mod_pos_bound (Z.shiftr index 2) MAP_LOOKUP_CACHE_SIZE ltac:(done)) as Hb.
    unfold MAP_CACHE_OFFSET. change MAP_LOOKUP_CACHE_SIZE with 128 in *. lia. }
  pose proof (mo_alloc _ _ Hok) as Ha.
  pose proof (Z.mod_pos_bound c (alloc (the_map s)) ltac:(lia)) as Hp.
  destruct (lookup_lt_is_Some_2 (table (the_map s)) (Z.to_nat (c `mod` alloc (the_map s)))) as [e He]; [lia|].
  cbn beta iota. apply wp_bind. unfold wp at 1. rewrite (slot_key_run _ _ e.1) by by apply key_at_keys.
  destruct (e.1 =? index) eqn:Ek; apply wp_ret; [|done]. to_prop. subst index.
  apply (Hhit _ e); [done|lia|done|]. unfold matches.
  rewrite (filled_valid valid e.1) by done. cbn. by apply (equal_refl (valid := valid)).
Qed.

(** The two shortcuts of the comparison. *)
Lemma compare_only_ptrs_same m index kind ptrs p x : map_ok valid m -> valid index ->
  compare_only_ptrs m index kind = Some ptrs ->
  0 <= p -> key_at (keys (table m)) p = Some x -> filled x = true ->
  same_key ptrs index x = mp_obj_equal x index.
Proof.
  intros Hok Hv Hcop Hp Hx Hf. assert (valid x) as Hvx by by apply (tk_valid _ _ _ (mo_table _ _ Hok) p).
  unfold same_key. destruct (Z.eqb_spec x index) as [->|Hne].
  { cbn. symmetry. by apply (equal_refl (valid := valid)). }
  cbn [orb]. destruct ptrs; [|done]. cbn. symmetry. apply not_true_is_false. intros He.
  unfold compare_only_ptrs in Hcop. destruct (all_keys_are_qstrs m) eqn:Ea; [|done].
  pose proof (mo_qstrs _ _ Hok Ea p x Hp Hx Hf) as Hqx.
  destruct (equal_qstr (valid := valid) x index Hvx Hv Hqx He) as [|[Hq Hs]]; [done|].
  by rewrite Hq, Hs in Hcop.
Qed.

Lemma compare_only_ptrs_None m index kind : map_ok valid m -> valid index ->
  compare_only_ptrs m index kind = None ->
  kind <> MP_MAP_LOOKUP_ADD_IF_NOT_FOUND /\ find_in m index = None.
Proof.
  intros Hok Hv Hcop. unfold compare_only_ptrs in Hcop. destruct (all_keys_are_qstrs m) eqn:Ea; [|done].
  destruct (mp_obj_is_qstr index) eqn:Eq; [done|]. destruct (is_exact_str index) eqn:Es; [done|].
  destruct (kind =? _) eqn:Ek; [done|]. to_prop. split; [done|].
  destruct (find_in m index) as [v|] eqn:E; [|done]. apply map_find_has in E as (p & [x w] & He & Hm & _).
  apply matches_filled in Hm as [Hf Hm].
  assert (key_at (keys (table m)) (Z.of_nat p) = Some x) as Hx.
  { apply (key_at_keys _ _ (x, w)). by rewrite Nat2Z.id. }
  pose proof (mo_qstrs _ _ Hok Ea _ x (Nat2Z.is_nonneg p) Hx Hf) as Hqx.
  assert (valid x) as Hvx by (apply (tk_valid _ _ _ (mo_table _ _ Hok) (Z.of_nat p)); [lia|done..]).
  destruct (equal_qstr (valid := valid) x index Hvx Hv Hqx Hm) as [->|[_ Hs]]; congruence.
Qed.

(** ** Changing one entry *)

Lemma insert_keys_id t p e v : t !! p = Some e -> keys (<[p:=(e.1, v)]> t) = keys t.
Proof. intros He. rewrite keys_insert. apply list_insert_id. cbn. unfold keys. by rewrite list_lookup_fmap, He. Qed.

Definition valued_map (p v : Z) (e : mp_map_elem_t) (m : mp_map_t) : mp_map_t :=
  set_table (<[Z.to_nat p := (e.1, v)]> (table m)) m.

Lemma set_value_run s p v e : table (the_map s) !! Z.to_nat p = Some e ->
  set_value p v s = Some (tt, on_map (valued_map p v e) s).
Proof.
  intros He. unfold set_value, set_slot, mbind, M_bind, map_slot. rewrite He. cbn. by rewrite He.
Qed.

(** Writing a value through the slot of a key. *)
Lemma valued_map_ok m k p v e : map_ok valid m -> valid k ->
  table m !! Z.to_nat p = Some e -> matches k e.1 = true ->
  map_ok valid (valued_map p v e m) /\
  forall k', valid k' -> find_in (valued_map p v e m) k' = if mp_obj_equal k k' then Some v else find_in m k'.
Proof.
  intros Hok Hk He Hm. pose proof (insert_keys_id _ _ _ v He) as Hkeys.
  apply matches_filled in Hm as Hm'. destruct Hm' as [Hf Heq].
  assert (map_ok valid (valued_map p v e m)) as Hok'.
  { destruct Hok as [Ha Hu Ht Ho Hq]. split; cbn [valued_map set_table alloc used table all_keys_are_qstrs is_ordered];
      rewrite ?Hkeys, ?length_insert; [exact Ha| |exact Ht|exact Ho|exact Hq].
    rewrite (count_insert _ _ _ e He). cbn [fst]. lia. }
  split; [done|]. intros k' Hk'. unfold find_in.
  assert (valid e.1) as Hve.
  { apply (tk_valid _ _ _ (mo_table _ _ Hok) (Z.of_nat (Z.to_nat p))); [lia|apply key_at_keys; by rewrite Nat2Z.id|done]. }
  cbn [valued_map set_table table].
  rewrite (map_find_insert valid (map_hash m) (map_hash m) _ _ _ e k'); [|apply Hok|apply Hok'|done|done].
  cbn [fst snd]. assert (matches k' e.1 = mp_obj_equal k k') as ->.
  { unfold matches. rewrite Hf. cbn. destruct (mp_obj_equal e.1 k') eqn:E, (mp_obj_equal k k') eqn:E2; try done; exfalso.
    - assert (mp_obj_equal k k' = true); [|congruence]. apply (equal_trans (valid := valid) k e.1 k'); [done..| |done].
      by apply (equal_sym (valid := valid)).
    - assert (mp_obj_equal e.1 k' = true); [|congruence]. by apply (equal_trans (valid := valid) e.1 k k'). }
  by destruct (mp_obj_equal k k').
Qed.

Definition added_map (k a : Z) (m : mp_map_t) : mp_map_t :=
  MkMap (all_keys_are_qstrs m && mp_obj_is_qstr k) (is_fixed m) (is_ordered m) (used m + 1) (alloc m)
    (<[Z.to_nat a := (k, MP_OBJ_NULL)]> (table m)).

Lemma map_add_run s k a o : table (the_map s) !! Z.to_nat a = Some o ->
  map_add k a s = Some (Some a, on_map (added_map k a) s).
Proof.
  intros Ho. unfold map_add, set_slot, mbind, M_bind, map_slot, upd_map, modify, note_key. cbn. rewrite Ho.
  unfold added_map, on_map, set_table, set_all_keys_are_qstrs, mret, M_ret. cbn.
  destruct (mp_obj_is_qstr k); cbn; [by rewrite andb_true_r|by rewrite andb_false_r].
Qed.

Lemma matches_equal k k' : valid k -> matches k' k = mp_obj_equal k k'.
Proof. intros Hk. unfold matches. by rewrite (filled_valid valid k). Qed.

Lemma added_map_ok m k a : map_ok valid m -> valid k -> find_in m k = None ->
  insertable (map_hash m) (keys (table m)) k a -> (is_ordered m = true -> a = used m) ->
  map_ok valid (added_map k a m) /\ added m (added_map k a m) k (Some a).
Proof.
  intros Hok Hk Hnone Hins Hord. pose proof Hins as (Ha & (k0 & Hk0 & Hf0) & _).
  apply key_at_keys_inv in Hk0 as [v0 Ho]. rewrite keys_length in Ha.
  assert (~ present (keys (table m)) k) as Habs.
  { intros Hp. by apply map_find_present in Hp. }
  assert (table_ok valid (map_hash m) (keys (<[Z.to_nat a:=(k, MP_OBJ_NULL)]> (table m)))) as Htab.
  { rewrite keys_insert. apply (table_ok_insert valid (map_hash m)); [apply Hok|done..]. }
  assert (map_ok valid (added_map k a m)) as Hok'.
  { destruct Hok as [Hal Hu Ht Hor Hq]. split; cbn [added_map alloc used table all_keys_are_qstrs is_ordered].
    - by rewrite length_insert.
    - rewrite (count_insert _ _ _ _ Ho), Hu. cbn [fst]. rewrite Hf0, (filled_valid valid k) by done. cbn. lia.
    - done.
    - intros Hio p kp Hp. specialize (Hord Hio). specialize (Hor Hio p).
      rewrite keys_insert. destruct (Z.eq_dec a p) as [<-|Hne].
      + rewrite key_at_insert_eq by (rewrite keys_length; lia). intros [= <-].
        cbn. rewrite (filled_valid valid k) by done. split; [lia|done].
      + rewrite key_at_insert_ne by lia. intros Hkp. rewrite (Hor kp Hp Hkp). lia.
    - intros [Hall Hqk]%andb_true_iff p kp Hp. rewrite keys_insert. destruct (Z.eq_dec a p) as [<-|Hne].
      + rewrite key_at_insert_eq by (rewrite keys_length; lia). by intros [= <-].
      + rewrite key_at_insert_ne by lia. by apply Hq. }
  split; [done|]. unfold added. rewrite Hnone. cbn [default].
  split; [|split; [done|split; [done|split; [done|split; [cbn; lia|split]]]]].
  - exists a, (k, MP_OBJ_NULL). split; [done|]. split; [lia|]. split; [apply list_lookup_insert_eq; lia|].
    split; [|done]. cbn. rewrite matches_equal by done. by apply (equal_refl (valid := valid)).
  - cbn [added_map all_keys_are_qstrs]. by intros -> ->.
  - intros k' Hk'. unfold find_in. cbn [added_map table].
    rewrite (map_find_insert valid (map_hash m) (map_hash m) _ _ _ _ k'
      (mo_table _ _ Hok) Htab Ho Hk'). cbn [fst snd]. rewrite matches_equal by done.
    destruct (mp_obj_equal k k'); [done|]. unfold matches. by rewrite Hf0.
Qed.

(** A key that is already there. *)
Lemma found_added m k p e : map_ok valid m -> valid k -> 0 <= p -> table m !! Z.to_nat p = Some e ->
  matches k e.1 = true -> added m m k (Some p).
Proof.
  intros Hok Hk Hp He Hm. assert (find_in m k = Some e.2) as Hfind.
  { apply (map_find_Some valid (map_hash m)); [apply Hok|done|]. by exists (Z.to_nat p), e. }
  unfold added. rewrite Hfind. cbn. split; [by exists p, e|]. split; [done|]. split; [lia|]. split; [done|]. split; [lia|]. split; [done|].
  intros k' Hk'. destruct (mp_obj_equal k k') eqn:E; [|done]. rewrite <-Hfind. symmetry.
  by apply (map_find_equal valid (map_hash m)); [apply Hok|..].
Qed.

Lemma found_looked_up m k p e : map_ok valid m -> valid k -> 0 <= p -> table m !! Z.to_nat p = Some e ->
  matches k e.1 = true -> looked_up m m k (Some p).
Proof.
  intros Hok Hk Hp He Hm. assert (find_in m k = Some e.2) as Hfind.
  { apply (map_find_Some valid (map_hash m)); [apply Hok|done|]. by exists (Z.to_nat p), e. }
  unfold looked_up. rewrite Hfind. split; [done|]. by exists p, e.
Qed.

(** Deleting from a hash table. *)
Definition removed_map (p x : Z) (e : mp_map_elem_t) (m : mp_map_t) : mp_map_t :=
  MkMap (all_keys_are_qstrs m) (is_fixed m) (is_ordered m) (used m - 1) (alloc m)
    (<[Z.to_nat p := (x, e.2)]> (table m)).

Lemma removed_map_ok m k p e x : map_ok valid m -> (is_ordered m = true -> p = used m - 1) -> valid k ->
  0 <= p -> table m !! Z.to_nat p = Some e -> matches k e.1 = true -> filled x = false ->
  (x = MP_OBJ_NULL -> key_at (keys (table m)) (next_pos (Z.of_nat (length (table m))) p) = Some MP_OBJ_NULL) ->
  map_ok valid (removed_map p x e m) /\ removed m (removed_map p x e m) k (Some p).
Proof.
  intros Hok Hio Hk Hp He Hm Hx Hnull. pose proof (lookup_lt_Some _ _ _ He) as Hlt.
  apply matches_filled in Hm as Hm'. destruct Hm' as [Hf Heq].
  assert (table_ok valid (map_hash m) (keys (<[Z.to_nat p:=(x, e.2)]> (table m)))) as Htab.
  { rewrite keys_insert. apply (table_ok_delete valid (map_hash m)); [apply Hok|rewrite keys_length; lia|done|].
    by rewrite keys_length. }
  assert (valid e.1) as Hve.
  { apply (tk_valid _ _ _ (mo_table _ _ Hok) p); [done|by apply key_at_keys|done]. }
  assert (map_ok valid (removed_map p x e m)) as Hok'.
  { destruct Hok as [Hal Hu Ht Hor Hq]. split; cbn [removed_map alloc used table all_keys_are_qstrs is_ordered].
    - by rewrite length_insert.
    - rewrite (count_insert _ _ _ _ He), Hu. cbn [fst]. rewrite Hf, Hx. cbn. lia.
    - done.
    - intros Ho q kq Hq'. specialize (Hio Ho). rewrite keys_insert. destruct (Z.eq_dec p q) as [<-|Hne].
      + rewrite key_at_insert_eq by (rewrite keys_length; lia). cbn. intros [= <-]. rewrite Hx. split; [done|lia].
      + rewrite key_at_insert_ne by lia. intros Hkq. rewrite (Hor Ho q kq Hq' Hkq). lia.
    - intros Hall q kq Hq'. rewrite keys_insert. destruct (Z.eq_dec p q) as [<-|Hne].
      + rewrite key_at_insert_eq by (rewrite keys_length; lia). cbn. congruence.
      + rewrite key_at_insert_ne by lia. by apply Hq. }
  split; [done|]. assert (find_in m k = Some e.2) as Hfind.
  { apply (map_find_Some valid (map_hash m)); [apply Hok|done|]. by exists (Z.to_nat p), e. }
  unfold removed. rewrite Hfind. split; [done|]. split; [split; [|split; done]|].
  - exists p, (x, e.2). split; [done|]. split; [apply list_lookup_insert_eq; lia|done].
  - intros k' Hk'. unfold find_in. cbn [removed_map table].
    rewrite (map_find_insert valid (map_hash m) (map_hash m) _ _ _ _ k'
      (mo_table _ _ Hok) Htab He Hk'). cbn [fst snd].
    assert (matches k' x = false) as -> by (unfold matches; by rewrite Hx).
    assert (matches k' e.1 = mp_obj_equal k k') as ->; [|done].
    rewrite matches_equal by done.
    destruct (mp_obj_equal e.1 k') eqn:E, (mp_obj_equal k k') eqn:E2; try done; exfalso.
    + assert (mp_obj_equal k k' = true); [|congruence]. apply (equal_trans (valid := valid) k e.1 k'); [done..| |done].
      by apply (equal_sym (valid := valid)).
    + assert (mp_obj_equal e.1 k' = true); [|congruence]. by apply (equal_trans (valid := valid) e.1 k k').
Qed.

Lemma absent_removed m k : find_in m k = None -> map_ok valid m -> valid k -> removed m m k None.
Proof.
  intros Hn Hok Hk. unfold removed. rewrite Hn. split; [done|]. split; [done|]. intros k' Hk'.
  destruct (mp_obj_equal k k') eqn:E; [|done]. rewrite <-Hn. symmetry.
  by apply (map_find_equal valid (map_hash m)); [apply Hok|..].
Qed.

(** Writing a value in a slot without a key changes nothing. *)
Lemma unfilled_value_ok m p v e : map_ok valid m -> table m !! Z.to_nat p = Some e -> filled e.1 = false ->
  map_ok valid (valued_map p v e m) /\ forall k, valid k -> find_in (valued_map p v e m) k = find_in m k.
Proof.
  intros Hok He Hf. pose proof (insert_keys_id _ _ _ v He) as Hkeys.
  assert (map_ok valid (valued_map p v e m)) as Hok'.
  { destruct Hok as [Ha Hu Ht Ho Hq]. split; cbn [valued_map set_table alloc used table all_keys_are_qstrs is_ordered];
      rewrite ?Hkeys, ?length_insert; [exact Ha| |exact Ht|exact Ho|exact Hq].
    rewrite (count_insert _ _ _ e He). cbn [fst]. lia. }
  split; [done|]. intros k Hk. unfold find_in. cbn [valued_map set_table table].
  rewrite (map_find_insert valid (map_hash m) (map_hash m) _ _ _ e k); [|apply Hok|apply Hok'|done|done].
  cbn [fst snd]. unfold matches. by rewrite Hf.
Qed.

(** ** Hash tables *)

Definition kind_ok (kind : Z) : Prop :=
  kind = MP_MAP_LOOKUP \/ kind = MP_MAP_LOOKUP_ADD_IF_NOT_FOUND \/ kind = MP_MAP_LOOKUP_REMOVE_IF_FOUND.

Definition lookup_post (m m' : mp_map_t) (k kind : Z) (r : option Z) : Prop :=
  if kind =? MP_MAP_LOOKUP then looked_up m m' k r
  else if kind =? MP_MAP_LOOKUP_ADD_IF_NOT_FOUND then added m m' k r
  else removed m m' k r.

(** The postcondition of a call in state [s]. *)
Definition finds (s : map_vm) (k kind : Z) (r : option Z) (s' : map_vm) : Prop :=
  state_ok s' /\ lookup_post (the_map s) (the_map s') k kind r.

Lemma found_post m k kind p e : map_ok valid m -> valid k -> 0 <= p -> table m !! Z.to_nat p = Some e ->
  matches k e.1 = true -> kind_ok kind -> kind <> MP_MAP_LOOKUP_REMOVE_IF_FOUND -> lookup_post m m k kind (Some p).
Proof.
  intros Hok Hk Hp He Hm Hkind Hnr. unfold lookup_post. destruct Hkind as [-> | [-> | ->]]; [| |done].
  - by eapply found_looked_up.
  - by eapply found_added.
Qed.

Lemma absent_post m k kind : map_ok valid m -> valid k -> find_in m k = None ->
  kind_ok kind -> kind <> MP_MAP_LOOKUP_ADD_IF_NOT_FOUND -> lookup_post m m k kind None.
Proof.
  intros Hok Hk Hn Hkind Hna. unfold lookup_post. destruct Hkind as [-> | [-> | ->]]; [|done|].
  - unfold looked_up. cbn. by rewrite Hn.
  - by apply absent_removed.
Qed.

Lemma removed_post m m' k r : removed m m' k r -> lookup_post m m' k MP_MAP_LOOKUP_REMOVE_IF_FOUND r.
Proof. done. Qed.

Lemma wp_map_found s k kind p e : state_ok s -> is_ordered (the_map s) = false -> valid k -> kind_ok kind ->
  0 <= p -> table (the_map s) !! Z.to_nat p = Some e -> matches k e.1 = true ->
  wp (map_found k kind p) s (finds s k kind).
Proof.
  intros [Hok Hc] Hio Hk Hkind Hp He Hm. unfold map_found. apply wp_bind.
  destruct (kind =? _) eqn:E; to_prop.
  - subst kind. apply wp_bind, wp_modify, wp_bind, wp_gets, wp_bind. cbn [on_map the_map set_used alloc].
    rewrite (mo_alloc _ _ Hok). pose proof (lookup_lt_Some _ _ _ He).
    pose proof (Z.mod_pos_bound (p + 1) (Z.of_nat (length (table (the_map s)))) ltac:(lia)) as Hq.
    destruct (key_at_Some (keys (table (the_map s))) ((p + 1) `mod` Z.of_nat (length (table (the_map s)))))
      as [nk Hnk]; [by rewrite keys_length|].
    unfold wp at 1. rewrite (slot_key_run _ _ nk) by done. unfold set_key, set_slot.
    apply wp_bind, (wp_map_slot _ _ e); [done|].
    apply wp_bind, (wp_map_slot _ _ e); [done|]. apply wp_modify, wp_bind.
    set (x := if nk =? MP_OBJ_NULL then MP_OBJ_NULL else MP_OBJ_SENTINEL).
    destruct (removed_map_ok (the_map s) k p e x Hok ltac:(congruence) Hk Hp He Hm) as [Hok' Hpost].
    { unfold x. by destruct (_ =? _). }
    { unfold x, next_pos. destruct (nk =? _) eqn:En; [|done]. to_prop. by subst nk. }
    apply wp_cache_set; [done|]. intros s' Hs' Hc'. apply wp_ret. unfold finds, state_ok. by rewrite Hs'.
  - apply wp_ret, wp_bind, wp_cache_set; [done|]. intros s' Hs' Hc'. apply wp_ret.
    unfold finds, state_ok. rewrite Hs'. split; [done|]. by eapply found_post.
Qed.

Lemma wp_map_add s k a : state_ok s -> valid k -> find_in (the_map s) k = None ->
  insertable (map_hash (the_map s)) (keys (table (the_map s))) k a ->
  (is_ordered (the_map s) = true -> a = used (the_map s)) ->
  wp (map_add k a) s (finds s k MP_MAP_LOOKUP_ADD_IF_NOT_FOUND).
Proof.
  intros [Hok Hc] Hk Hn Hins Hord.
  destruct (added_map_ok _ _ _ Hok Hk Hn Hins Hord) as [Hok' Hpost].
  destruct Hins as (Ha & (k0 & Hk0 & _) & _). apply key_at_keys_inv in Hk0 as [v0 Ho].
  unfold wp. by rewrite (map_add_run _ _ _ _ Ho).
Qed.

(** The search in a table that is big enough, or that becomes so. *)
Lemma wp_hash_probe rehash ptrs s k kind fuel :
  let search := probe get_alloc slot_key (same_key ptrs k) (kind =? MP_MAP_LOOKUP_ADD_IF_NOT_FOUND)
    (map_found k kind) (map_add k) None rehash (index_hash k) in
  state_ok s -> is_ordered (the_map s) = false -> valid k -> kind_ok kind -> 0 < alloc (the_map s) ->
  (forall p x, 0 <= p -> key_at (keys (table (the_map s))) p = Some x -> filled x = true ->
     same_key ptrs k x = mp_obj_equal x k) ->
  (kind = MP_MAP_LOOKUP_ADD_IF_NOT_FOUND -> find_in (the_map s) k = None ->
     used (the_map s) = alloc (the_map s) -> wp (_ ← rehash; search fuel) s (finds s k kind)) ->
  wp (search (length (table (the_map s)) + fuel)%nat) s (finds s k kind).
Proof.
  cbv zeta. intros [Hok Hc] Hio Hk Hkind Hal Hsame Hfull.
  pose proof (mo_alloc _ _ Hok) as Ha. rewrite <-(keys_length (table (the_map s))).
  assert (map_hash (the_map s) = index_hash) as Hhash by (unfold map_hash; by rewrite Hio).
  pose proof (mo_table _ _ Hok) as Htab. rewrite Hhash in Htab.
  assert (forall k', ~ present (keys (table (the_map s))) k' -> find_in (the_map s) k' = None) as Hpres.
  { intros k' Hnp. destruct (find_in (the_map s) k') eqn:E; [|done]. destruct Hnp.
    apply map_find_present. unfold find_in in E. by rewrite E. }
  apply (wp_probe valid index_hash); [by apply (equal_index_hash (valid := valid))|done|done|rewrite keys_length; lia|..].
  - unfold get_alloc, gets. by rewrite Ha, keys_length.
  - intros p x _. apply slot_key_run.
  - done.
  - intros p x Hp Hx Hm. apply key_at_keys_inv in Hx as [v Hv]. by apply (wp_map_found _ _ _ _ (x, v)).
  - intros p Hadd Habs Hins. to_prop. subst kind.
    apply wp_map_add; [done|done|by apply Hpres|by rewrite Hhash|congruence].
  - intros Hna Habs. to_prop. split; [done|]. by apply absent_post; [| |apply Hpres|..].
  - intros Hadd Habs Hall. to_prop. apply Hfull; [done|by apply Hpres|].
    rewrite Ha, (mo_used _ _ Hok). by apply count_full.
Qed.

(** What a rehash must do; it is proved below from the lookups it calls. *)
Definition rehashed (m m' : mp_map_t) : Prop :=
  same_kind m m' /\ used m' = used m /\ alloc m' = get_hash_alloc_greater_or_equal_to (alloc m + 1) /\
  (all_keys_are_qstrs m = true -> all_keys_are_qstrs m' = true) /\
  forall k, valid k -> find_in m' k = find_in m k.

Definition rehashes (rehash : Mm unit) (s : map_vm) : Prop :=
  wp rehash s (fun _ s' => state_ok s' /\ rehashed (the_map s) (the_map s')).

Lemma used_le_alloc m : map_ok valid m -> 0 <= used m <= alloc m.
Proof.
  intros Hok. rewrite (mo_alloc _ _ Hok), (mo_used _ _ Hok). split; [unfold count; lia|apply count_le].
Qed.

Lemma added_rehashed m m' m'' k r : valid k -> used m = alloc m -> 0 <= used m -> find_in m k = None -> rehashed m m' -> added m' m'' k r -> added m m'' k r.
Proof.
  intros Hk Hfull Hu0 Hn (Hs & Hu & Hal & Hq & Hf) (Hh & Hs' & Hu' & Ha' & Hal' & Hq' & Hf'). rewrite (Hf k Hk), Hn in Hh, Hu', Hf'.
  unfold added. rewrite Hn. split; [done|]. split; [|split; [lia|split; [lia|split; [|split]]]].
  - destruct Hs, Hs'. split; congruence.
  - pose proof (find_size_le (alloc m) ltac:(lia)). lia.
  - intros Ha. apply Hq'. by apply Hq.
  - intros k' Hk'. rewrite Hf' by done. by rewrite Hf.
Qed.

(** In a table with room the search for a new key ends without a rehash. *)
Lemma wp_add_room rehash ptrs s k fuel : (length (table (the_map s)) <= fuel)%nat ->
  state_ok s -> is_ordered (the_map s) = false -> valid k ->
  used (the_map s) < alloc (the_map s) ->
  (forall p x, 0 <= p -> key_at (keys (table (the_map s))) p = Some x -> filled x = true ->
     same_key ptrs k x = mp_obj_equal x k) ->
  wp (probe get_alloc slot_key (same_key ptrs k) true (map_found k MP_MAP_LOOKUP_ADD_IF_NOT_FOUND)
    (map_add k) None rehash (index_hash k) fuel) s (finds s k MP_MAP_LOOKUP_ADD_IF_NOT_FOUND).
Proof.
  intros Hfuel Hs Hio Hk Hroom Hsame. pose proof (used_le_alloc _ (proj1 Hs)).
  replace fuel with (length (table (the_map s)) + (fuel - length (table (the_map s))))%nat by lia.
  apply (wp_hash_probe rehash ptrs s k MP_MAP_LOOKUP_ADD_IF_NOT_FOUND); [done|done|done|by right; left|lia|done|].
  intros _ _ Hfull. lia.
Qed.

Lemma ptrs_rehashed m m' ptrs k kind : compare_only_ptrs m k kind = Some ptrs -> rehashed m m' ->
  map_ok valid m' -> valid k -> forall p x, 0 <= p -> key_at (keys (table m')) p = Some x -> filled x = true ->
  same_key ptrs k x = mp_obj_equal x k.
Proof.
  intros Hcop (_ & _ & _ & Hq & _) Hok Hk p x Hp Hx Hf.
  destruct ptrs.
  - apply (compare_only_ptrs_same m' k kind true p); [done|done| |done..].
    unfold compare_only_ptrs in *. destruct (all_keys_are_qstrs m); [|done]. by rewrite Hq.
  - apply (compare_only_ptrs_same (set_all_keys_are_qstrs false m') k kind false p); [|done..].
    destruct Hok as [? ? ? ? ?]. by split.
Qed.

Lemma wp_hash_lookup rehash ptrs s k kind : state_ok s -> is_ordered (the_map s) = false -> valid k -> kind_ok kind ->
  compare_only_ptrs (the_map s) k kind = Some ptrs ->
  (kind = MP_MAP_LOOKUP_ADD_IF_NOT_FOUND -> used (the_map s) = alloc (the_map s) -> rehashes rehash s) ->
  wp (hash_lookup rehash ptrs k kind) s (finds s k kind).
Proof.
  intros Hs Hio Hk Hkind Hcop Hre. pose proof Hs as [Hok Hc].
  pose proof (used_le_alloc _ Hok) as Hua. pose proof (mo_alloc _ _ Hok) as Hal.
  pose proof (find_size_ge (alloc (the_map s) + 1)) as Hgrow.
  unfold hash_lookup. apply wp_bind, wp_gets.
  destruct (alloc (the_map s) =? 0) eqn:Ez; to_prop.
  - assert (find_in (the_map s) k = None) as Hnone.
    { unfold find_in. destruct (table (the_map s)); [done|cbn in Hal; lia]. }
    destruct (kind =? MP_MAP_LOOKUP_ADD_IF_NOT_FOUND) eqn:Ek; cbn [negb andb]; to_prop.
    2: { apply wp_ret. split; [done|]. by apply absent_post. }
    subst kind. apply wp_bind. eapply wp_mono; [apply Hre; [done|lia]|]. intros [] s1 [Hs1 Hre1]. cbv beta.
    pose proof Hre1 as ([_ Hio1] & Hu1 & Ha1 & _ & _). pose proof (mo_alloc _ _ (proj1 Hs1)) as Hal1.
    apply wp_bind, wp_gets. eapply wp_mono.
    + apply (wp_add_room rehash ptrs s1); [unfold probe_fuel; lia|done|congruence|done|lia|].
      apply (ptrs_rehashed (the_map s) _ _ _ MP_MAP_LOOKUP_ADD_IF_NOT_FOUND); [done|done|apply Hs1|done].
    + intros r s2 [Hs2 Hadd]. split; [done|]. apply (added_rehashed _ (the_map s1)); done || lia.
  - cbn [andb]. apply wp_bind, wp_ret, wp_bind, wp_gets. unfold probe_fuel.
    replace (Z.to_nat (alloc (the_map s))) with (length (table (the_map s))) by lia.
    apply wp_hash_probe; [done|done|done|done|lia| |].
    { intros p x. by apply (compare_only_ptrs_same _ _ kind). }
    intros -> Hnone Hfull. apply wp_bind. eapply wp_mono; [by apply Hre|].
    intros [] s1 [Hs1 Hre1]. cbv beta.
    pose proof Hre1 as ([_ Hio1] & Hu1 & Ha1 & _ & _). pose proof (mo_alloc _ _ (proj1 Hs1)) as Hal1.
    eapply wp_mono.
    + apply (wp_add_room rehash ptrs s1); [lia|done|congruence|done|lia|].
      apply (ptrs_rehashed (the_map s) _ _ _ MP_MAP_LOOKUP_ADD_IF_NOT_FOUND); [done|done|apply Hs1|done].
    + intros r s2 [Hs2 Hadd]. split; [done|]. apply (added_rehashed _ (the_map s1)); done || lia.
Qed.

End MapOps.
