(* ===== verification/ObjMapLookup.v ===== *)
(** * [mp_map_lookup] as a whole

    The ordered array, [mp_map_rehash], and the two put together: a call with
    any kind of lookup ends, leaves a map that satisfies the invariant, and
    does what the kind asks for. *)
From S2P Require Import Prelude.
From S2P Require Import CMem.
From S2P Require Import Probing.
From S2P Require Import ObjMap.
From S2P Require Import ObjMapFacts.
Local Open Scope Z_scope.

Lemma ordered_find_Some same es i j : ordered_find same es i = Some j ->
  exists e, i <= j < i + Z.of_nat (length es) /\ es !! Z.to_nat (j - i) = Some e /\ same e.1 = true.
Proof.
  revert i. induction es as [|e es IH]; intros i; [done|]. cbn [ordered_find length].
  destruct (same e.1) eqn:E.
  - intros [= <-]. exists e. rewrite Z.sub_diag. split; [lia|done].
  - intros Hf. apply IH in Hf as (e' & Hj & He' & Hs). exists e'. split; [lia|]. split; [|done].
    replace (Z.to_nat (j - i)) with (S (Z.to_nat (j - (i + 1)))) by lia. done.
Qed.

Lemma ordered_find_None same es i : ordered_find same es i = None -> Forall (fun e => same e.1 = false) es.
Proof.
  revert i. induction es as [|e es IH]; intros i; [constructor|]. cbn [ordered_find].
  destruct (same e.1) eqn:E; [done|]. intros Hf. constructor; [done|]. by eapply IH.
Qed.

(** The table after an ordered removal, index by index. *)
Lemma lookup_shifted {A} (t : list A) (i u q : nat) (x : A) : (i < u)%nat -> (u <= length t)%nat ->
  (<[(u - 1)%nat := x]> (take i t ++ drop (S i) (take u t) ++ drop (u - 1) t)) !! q =
  if decide (q < i)%nat then t !! q
  else if decide (q < u - 1)%nat then t !! S q
  else if decide (q = u - 1)%nat then Some x else t !! q.
Proof.
  intros Hi Hu.
  assert (length (take i t) = i) as Hl1 by (rewrite length_take; lia).
  assert (length (drop (S i) (take u t)) = (u - 1 - i)%nat) as Hl2 by (rewrite length_drop, length_take; lia).
  destruct (decide (q = u - 1)%nat) as [->|Hq].
  - rewrite list_lookup_insert_eq by (rewrite !length_app, Hl1, Hl2, length_drop; lia).
    by rewrite !decide_False by lia.
  - rewrite list_lookup_insert_ne by done. destruct (decide (q < i)%nat).
    + rewrite lookup_app_l by lia. by rewrite lookup_take_lt by lia.
    + rewrite lookup_app_r by lia. rewrite Hl1. destruct (decide (q < u - 1)%nat).
      * rewrite lookup_app_l by lia. rewrite lookup_drop, lookup_take_lt by lia. f_equal. lia.
      * rewrite lookup_app_r by lia. rewrite Hl2, lookup_drop. f_equal. lia.
Qed.

Section MapLookup.
Context `{KeyOps} (valid : Z -> Prop) `{KL : !KeyLaws valid}.

(** ** Ordered arrays *)

Lemma ordered_filled m p e : map_ok valid m -> is_ordered m = true ->
  table m !! p = Some e -> filled e.1 = true <-> Z.of_nat p < used m.
Proof.
  intros Hok Hio He. apply (mo_ordered _ _ Hok Hio); [lia|]. apply key_at_keys. by rewrite Nat2Z.id.
Qed.

Definition shifted_map (i : Z) (v : Z) (m : mp_map_t) : mp_map_t :=
  MkMap (all_keys_are_qstrs m) (is_fixed m) (is_ordered m) (used m - 1) (alloc m)
    (<[(Z.to_nat (used m) - 1)%nat := (MP_OBJ_NULL, v)]>
      (take (Z.to_nat i) (table m) ++ drop (S (Z.to_nat i)) (take (Z.to_nat (used m)) (table m)) ++
       drop (Z.to_nat (used m) - 1) (table m))).

Section Shift.
Context (m : mp_map_t) (i : nat) (e : mp_map_elem_t).
Context (Hok : map_ok valid m) (Hio : is_ordered m = true) (He : table m !! i = Some e) (Hf : filled e.1 = true).

Definition shift_index (q : nat) : nat := if decide (q < i)%nat then q else S q.

Lemma shifted_lookup q : table (shifted_map (Z.of_nat i) e.2 m) !! q =
  if decide (Z.of_nat q < used m - 1) then table m !! shift_index q
  else if decide (Z.of_nat q = used m - 1) then Some (MP_OBJ_NULL, e.2) else table m !! q.
Proof.
  pose proof (proj1 (ordered_filled m i e Hok Hio He) Hf) as Hi.
  pose proof (used_le_alloc _ _ Hok) as Hu. rewrite (mo_alloc _ _ Hok) in Hu.
  cbn [shifted_map table]. rewrite Nat2Z.id, lookup_shifted by lia. unfold shift_index.
  destruct (decide (q < i)%nat); [by rewrite decide_True by lia|].
  destruct (decide (q < Z.to_nat (used m) - 1)%nat); [by rewrite decide_True by lia|].
  rewrite (decide_False (P := Z.of_nat q < used m - 1)) by lia.
  destruct (decide (q = Z.to_nat (used m) - 1)%nat); [by rewrite decide_True by lia|by rewrite decide_False by lia].
Qed.

Lemma shifted_filled q e' : table (shifted_map (Z.of_nat i) e.2 m) !! q = Some e' ->
  (filled e'.1 = true <-> Z.of_nat q < used m - 1) /\
  (filled e'.1 = true -> table m !! shift_index q = Some e').
Proof.
  pose proof (proj1 (ordered_filled m i e Hok Hio He) Hf) as Hi. rewrite shifted_lookup.
  destruct (decide (Z.of_nat q < used m - 1)) as [Hlt|Hge].
  - intros Hq. split; [|done]. rewrite (ordered_filled m _ _ Hok Hio Hq). unfold shift_index.
    destruct (decide _); lia.
  - destruct (decide _).
    + intros [= <-]. cbn. split; [split; [done|lia]|done].
    + intros Hq. rewrite (ordered_filled m _ _ Hok Hio Hq). split; lia.
Qed.

Lemma shift_index_inj q r : shift_index q = shift_index r -> q = r.
Proof. unfold shift_index. destruct (decide (q < i)%nat), (decide (r < i)%nat); lia. Qed.

Lemma shift_index_ne q : shift_index q <> i.
Proof. unfold shift_index. destruct (decide (q < i)%nat); lia. Qed.

Lemma shift_index_onto r : r <> i -> exists q, shift_index q = r /\ (r < i -> q = r)%nat /\ (i < r -> S q = r)%nat.
Proof.
  intros Hr. unfold shift_index. destruct (decide (r < i)%nat).
  - exists r. rewrite decide_True by done. split; [done|lia].
  - exists (r - 1)%nat. rewrite decide_False by lia. lia.
Qed.

Lemma shifted_length : length (table (shifted_map (Z.of_nat i) e.2 m)) = length (table m).
Proof.
  pose proof (proj1 (ordered_filled m i e Hok Hio He) Hf) as Hi.
  pose proof (used_le_alloc _ _ Hok) as Hu. rewrite (mo_alloc _ _ Hok) in Hu.
  cbn [shifted_map table]. rewrite length_insert, !length_app, !length_drop, !length_take. lia.
Qed.

Lemma count_prefix t u : (forall p e', t !! p = Some e' -> filled e'.1 = true <-> Z.of_nat p < u) ->
  0 <= u <= Z.of_nat (length t) -> count t = u.
Proof.
  revert u. induction t as [|x t IH]; intros u Hp Hu; [cbn in *; unfold count; cbn; lia|].
  rewrite count_cons. pose proof (Hp 0%nat x eq_refl) as Hx. destruct (filled x.1) eqn:E; cbn [zbool].
  - rewrite (IH (u - 1)); [lia| |].
    + intros p e' Hp'. rewrite (Hp (S p) e' Hp'). lia.
    + cbn in Hu. pose proof (proj1 Hx eq_refl). lia.
  - assert (u = 0) as -> by (destruct (Z_lt_le_dec 0 u); [by apply Hx in l|lia]).
    rewrite (IH 0); [lia| |lia]. intros p e' Hp'. rewrite (Hp (S p) e' Hp'). lia.
Qed.

Lemma shifted_map_ok : map_ok valid (shifted_map (Z.of_nat i) e.2 m).
Proof.
  pose proof (used_le_alloc _ _ Hok) as Hu. rewrite (mo_alloc _ _ Hok) in Hu.
  pose proof (proj1 (ordered_filled m i e Hok Hio He) Hf) as Hi.
  assert (forall p k, 0 <= p -> key_at (keys (table (shifted_map (Z.of_nat i) e.2 m))) p = Some k ->
    (filled k = true <-> p < used m - 1) /\
    (filled k = true -> key_at (keys (table m)) (Z.of_nat (shift_index (Z.to_nat p))) = Some k)) as Hk.
  { intros p k Hp Hk. apply key_at_keys_inv in Hk as [v Hv]. apply shifted_filled in Hv as [Hiff Ht]. cbn in Hiff.
    split; [rewrite Hiff; lia|]. intros Hfk. apply (key_at_keys _ _ (k, v)). rewrite Nat2Z.id. by apply Ht. }
  split.
  - rewrite shifted_length. apply Hok.
  - symmetry. cbn [shifted_map used]. apply count_prefix.
    + intros p e' He'. by apply shifted_filled.
    + rewrite shifted_length. lia.
  - pose proof (mo_table _ _ Hok) as Htab. unfold map_hash in *. cbn [shifted_map is_ordered]. rewrite Hio in *. split.
    + intros p k Hp Hk1 Hfk. apply Hk in Hk1 as [_ Hk1]; [|done]. by eapply (tk_valid _ _ _ Htab); [|by apply Hk1|]; [lia|..].
    + intros p q k k' Hp Hq Hk1 Hk2 Hfk Hm. pose proof (matches_filled _ _ Hm) as [Hfk' _].
      apply Hk in Hk1 as [_ Hk1]; [|done]. apply Hk in Hk2 as [_ Hk2]; [|done].
      specialize (Hk1 Hfk). specialize (Hk2 Hfk').
      assert (Z.of_nat (shift_index (Z.to_nat p)) = Z.of_nat (shift_index (Z.to_nat q))) as Hpq.
      { eapply (tk_distinct _ _ _ Htab); [| |exact Hk1|exact Hk2|done|done]; lia. }
      apply Nat2Z.inj, shift_index_inj in Hpq. lia.
    + intros p k j Hp Hk1 Hfk Hj Hnull. pose proof (key_at_range _ _ _ Hp Hk1) as Hr.
      apply Hk in Hk1 as [Hk1 _]; [|done]. apply Hk1 in Hfk.
      unfold dist in Hj. rewrite Z.sub_0_r, (Z.mod_small p) in Hj by done.
      unfold nth_pos in Hnull. rewrite Z.add_0_l, Z.mod_small in Hnull by lia.
      apply Hk in Hnull as [Hn _]; [|lia]. cbn in Hn. assert (false = true); [|done]. apply Hn. lia.
  - intros _ p k Hp Hkp. cbn [shifted_map used]. by apply Hk.
  - intros Hall p k Hp Hkp Hfk. apply Hk in Hkp as [_ Hkp]; [|done].
    eapply (mo_qstrs _ _ Hok Hall); [|by apply Hkp|done]. lia.
Qed.

Lemma shifted_find k : valid k -> matches k e.1 = true -> removed valid m (shifted_map (Z.of_nat i) e.2 m) k (Some (used m - 1)).
Proof.
  intros Hk Hm. pose proof (proj1 (ordered_filled m i e Hok Hio He) Hf) as Hi.
  pose proof shifted_map_ok as Hok'. pose proof (used_le_alloc _ _ Hok) as Hu. rewrite (mo_alloc _ _ Hok) in Hu.
  assert (find_in m k = Some e.2) as Hfind.
  { apply (map_find_Some valid (map_hash m)); [apply Hok|done|]. by exists i, e. }
  unfold removed. rewrite Hfind. split; [done|]. split; [split; [|split; done]|].
  - exists (used m - 1), (MP_OBJ_NULL, e.2). split; [done|]. split; [|done].
    rewrite shifted_lookup, decide_False, decide_True by lia. done.
  - intros k' Hk'. destruct (mp_obj_equal k k') eqn:Eq.
    + unfold find_in. rewrite <-(map_find_equal valid (map_hash (shifted_map (Z.of_nat i) e.2 m)) _ k k'); [|apply Hok'|done..].
      destruct (map_find _ k) as [v|] eqn:E; [exfalso|done].
      apply map_find_has in E as (q & e' & Hq & Hm' & _). apply shifted_filled in Hq as [_ Hq].
      pose proof (matches_filled _ _ Hm') as [Hf' _]. specialize (Hq Hf').
      apply (shift_index_ne q). by apply (entries_unique valid (map_hash m) (table m) _ _ e' e k); [apply Hok|..].
    + unfold find_in. destruct (map_find (table m) k') as [v|] eqn:E.
      * apply map_find_has in E as (r & e' & Hr & Hm' & <-). pose proof (matches_filled _ _ Hm') as [Hf' Heq'].
        assert (r <> i) as Hne.
        { intros ->. assert (e' = e) as -> by congruence. apply matches_filled in Hm as [_ Hm].
          assert (valid e.1) as Hve.
          { apply (tk_valid _ _ _ (mo_table _ _ Hok) (Z.of_nat i)); [lia|apply key_at_keys; by rewrite Nat2Z.id|done]. }
          assert (mp_obj_equal k k' = true); [|congruence].
          apply (equal_trans (valid := valid) k e.1 k'); [done..| |done]. by apply (equal_sym (valid := valid)). }
        destruct (shift_index_onto r Hne) as (q & Hq & Hlt & Hgt).
        pose proof (proj1 (ordered_filled m r e' Hok Hio Hr) Hf') as Hru.
        apply (map_find_Some valid (map_hash (shifted_map (Z.of_nat i) e.2 m))); [apply Hok'|done|].
        exists q, e'. rewrite shifted_lookup, decide_True by lia. by rewrite Hq.
      * destruct (map_find (table (shifted_map (Z.of_nat i) e.2 m)) k') as [v|] eqn:E2; [exfalso|done].
        apply map_find_has in E2 as (q & e' & Hq & Hm' & _). apply shifted_filled in Hq as [_ Hq].
        pose proof (matches_filled _ _ Hm') as [Hf' _]. specialize (Hq Hf').
        destruct (map_find_None _ _ E e'.2). by exists (shift_index q), e'.
Qed.

End Shift.

Lemma wp_ordered_remove s k i e (Q : Z -> map_vm -> Prop) : state_ok valid s -> is_ordered (the_map s) = true ->
  valid k -> 0 <= i -> table (the_map s) !! Z.to_nat i = Some e -> matches k e.1 = true ->
  (forall s', state_ok valid s' -> removed valid (the_map s) (the_map s') k (Some (used (the_map s) - 1)) ->
     Q (used (the_map s) - 1) s') ->
  wp (ordered_remove i) s Q.
Proof.
  intros [Hok Hc] Hio Hk Hi He Hm HQ. pose proof (matches_filled _ _ Hm) as [Hf _].
  unfold ordered_remove. apply wp_bind, wp_gets, wp_bind, (wp_map_slot _ _ e); [done|]. cbv beta zeta.
  apply wp_bind, wp_modify, wp_ret.
  pose proof (proj1 (ordered_filled _ _ _ Hok Hio He) Hf) as Hu.
  assert (forall m, the_map s = m -> on_map (fun m1 => set_used (used m - 1) (set_table
    (<[Z.to_nat (used m - 1):=(MP_OBJ_NULL, e.2)]> (take (Z.to_nat i) (table m) ++
      drop (S (Z.to_nat i)) (take (Z.to_nat (used m)) (table m)) ++ drop (Z.to_nat (used m - 1)) (table m))) m1)) s =
    MkVm (shifted_map i e.2 m) (map_lookup_cache s)) as Heq.
  { intros m <-. unfold on_map, set_used, set_table, shifted_map. cbn.
    by replace (Z.to_nat (used (the_map s) - 1)) with (Z.to_nat (used (the_map s)) - 1)%nat by lia. }
  setoid_rewrite (Heq _ eq_refl). replace i with (Z.of_nat (Z.to_nat i)) by lia. apply HQ.
  - split; [by eapply shifted_map_ok|done].
  - by eapply shifted_find.
Qed.

(** Growing an ordered array by empty entries. *)
Lemma map_find_app t u k : map_find (t ++ u) k = match map_find t k with Some v => Some v | None => map_find u k end.
Proof.
  unfold map_find. induction t as [|e t IH]; [done|]. cbn [app List.find]. by destruct (matches k e.1).
Qed.

Lemma map_find_entries0 n k : map_find (entries0 n) k = None.
Proof. unfold map_find, entries0. by induction (Z.to_nat n). Qed.

Definition grown_map (m : mp_map_t) : mp_map_t :=
  MkMap (all_keys_are_qstrs m) (is_fixed m) (is_ordered m) (used m) (alloc m + 4) (table m ++ entries0 4).

Lemma grown_key m p k : 0 <= p -> key_at (keys (table (grown_map m))) p = Some k -> filled k = true ->
  key_at (keys (table m)) p = Some k.
Proof.
  intros Hp Hk Hf. unfold key_at, keys in *. cbn [grown_map table] in Hk. rewrite fmap_app in Hk.
  apply lookup_app_Some in Hk as [Hk|[_ Hk]]; [done|].
  unfold entries0 in Hk. rewrite fmap_replicate in Hk. by apply lookup_replicate in Hk as [-> _].
Qed.

Lemma grown_map_ok m : map_ok valid m -> is_ordered m = true -> map_ok valid (grown_map m).
Proof.
  intros Hok Hio. pose proof (used_le_alloc _ _ Hok) as Hu.
  pose proof (mo_table _ _ Hok) as Ht. unfold map_hash in Ht. rewrite Hio in Ht.
  assert (forall p k, 0 <= p -> key_at (keys (table (grown_map m))) p = Some k -> (filled k = true <-> p < used m)) as Hord.
  { intros p k Hp Hk. split.
    - intros Hf. apply (mo_ordered _ _ Hok Hio p k); [done|by apply grown_key|done].
    - intros Hlt. apply (mo_ordered _ _ Hok Hio p k); [done| |done]. unfold key_at, keys in *.
      cbn [grown_map table] in Hk. rewrite fmap_app in Hk.
      rewrite lookup_app_l in Hk; [done|]. rewrite length_fmap. rewrite (mo_alloc _ _ Hok) in Hu. lia. }
  split.
  - cbn [grown_map alloc table]. unfold entries0. rewrite length_app, length_replicate, (mo_alloc _ _ Hok). lia.
  - cbn [grown_map used table]. rewrite count_app, count_entries0, (mo_used _ _ Hok). lia.
  - unfold map_hash. cbn [grown_map is_ordered]. rewrite Hio. split.
    + intros p k Hp Hk Hf. apply (tk_valid _ _ _ Ht p); [done|by apply grown_key|done].
    + intros p q k k' Hp Hq Hk Hk' Hf Hm. pose proof (matches_filled _ _ Hm) as [Hf' _].
      apply (tk_distinct _ _ _ Ht p q k k'); [done|done|by apply grown_key|by apply grown_key|done|done].
    + intros p k j Hp Hk Hf Hj Hnull. apply (Hord p k Hp Hk) in Hf. pose proof (key_at_range _ _ _ Hp Hk).
      unfold dist in Hj. rewrite Z.sub_0_r, Z.mod_small in Hj by done.
      unfold nth_pos in Hnull. rewrite Z.add_0_l, Z.mod_small in Hnull by lia.
      apply Hord in Hnull; [|lia]. cbn in Hnull. assert (false = true); [|done]. apply Hnull. lia.
  - intros _. apply Hord.
  - intros Hall p k Hp Hk Hf. apply (mo_qstrs _ _ Hok Hall p k); [done|by apply grown_key|done].
Qed.

Lemma ordered_insertable m k : map_ok valid m -> is_ordered m = true -> valid k -> find_in m k = None ->
  used m < alloc m -> insertable (map_hash m) (keys (table m)) k (used m).
Proof.
  intros Hok Hio Hk Hn Hu. pose proof (used_le_alloc _ _ Hok) as Hua. pose proof (mo_alloc _ _ Hok) as Ha.
  assert (map_hash m k = 0) as Hh by (unfold map_hash; by rewrite Hio).
  split; [rewrite keys_length; lia|]. split.
  - destruct (key_at_Some (keys (table m)) (used m)) as [k0 Hk0]; [rewrite keys_length; lia|].
    exists k0. split; [done|]. apply not_true_is_false. intros Hf.
    apply (mo_ordered _ _ Hok Hio _ _ (proj1 Hua) Hk0) in Hf. lia.
  - unfold passed. rewrite Hh, keys_length. unfold dist. rewrite Z.sub_0_r, Z.mod_small by lia.
    intros j Hj. unfold nth_pos. rewrite Z.add_0_l, Z.mod_small by lia.
    destruct (key_at_Some (keys (table m)) j) as [kj Hkj]; [rewrite keys_length; lia|].
    exists kj. split; [done|].
    assert (filled kj = true) as Hf by (apply (mo_ordered _ _ Hok Hio j); [lia|done|lia]).
    split; [by apply filled_not_null|]. apply not_true_is_false. intros Hm.
    apply key_at_keys_inv in Hkj as [v Hv]. destruct (map_find_None _ _ Hn v).
    by exists (Z.to_nat j), (kj, v).
Qed.

Lemma wp_ordered_append s k : state_ok valid s -> is_ordered (the_map s) = true ->
  valid k -> find_in (the_map s) k = None ->
  wp (ordered_append k) s (finds valid s k MP_MAP_LOOKUP_ADD_IF_NOT_FOUND).
Proof.
  intros [Hok Hc] Hio Hk Hn. pose proof (used_le_alloc _ _ Hok) as Hu.
  unfold ordered_append. apply wp_bind, wp_gets, wp_bind.
  destruct (used (the_map s) =? alloc (the_map s)) eqn:E; to_prop.
  - apply wp_modify. pose proof (grown_map_ok _ Hok Hio) as Hokg.
    change (on_map _ s) with (on_map grown_map s).
    assert (find_in (grown_map (the_map s)) k = None) as Hng.
    { unfold find_in in *. cbn [grown_map table]. by rewrite map_find_app, Hn, map_find_entries0. }
    eapply wp_mono.
    + apply (wp_map_add valid); [done|done|done| |done].
      apply (ordered_insertable (grown_map (the_map s))); [done..|]. cbn. lia.
    + intros r s' [Hs' (Hh & Hsk & Hu' & Ha' & Hal' & Hq' & Hf)]. split; [done|]. unfold lookup_post, added in *. cbn [Z.eqb Pos.eqb MP_MAP_LOOKUP MP_MAP_LOOKUP_ADD_IF_NOT_FOUND].
      cbn [on_map the_map] in *. rewrite Hng in *. rewrite Hn. split; [done|]. split; [done|]. split; [done|].
      split; [lia|]. split; [cbn in Hal'; lia|]. split; [done|]. intros k' Hk'. rewrite Hf by done. destruct (mp_obj_equal k k'); [done|]. unfold find_in.
      cbn [grown_map table]. rewrite map_find_app, map_find_entries0. by destruct (map_find _ _).
  - apply wp_ret, (wp_map_add valid); [done|done|done| |done]. apply ordered_insertable; [done..|lia].
Qed.

Lemma wp_ordered_lookup ptrs s k kind : state_ok valid s -> is_ordered (the_map s) = true -> valid k -> kind_ok kind ->
  (forall p x, 0 <= p -> key_at (keys (table (the_map s))) p = Some x -> filled x = true ->
     same_key ptrs k x = mp_obj_equal x k) ->
  wp (ordered_lookup ptrs k kind) s (finds valid s k kind).
Proof.
  intros [Hok Hc] Hio Hk Hkind Hsame. unfold ordered_lookup. apply wp_bind, wp_gets.
  assert (forall p e, take (Z.to_nat (used (the_map s))) (table (the_map s)) !! p = Some e ->
    table (the_map s) !! p = Some e /\ same_key ptrs k e.1 = matches k e.1) as Hes.
  { intros p e He. apply lookup_take_Some in He as [He Hp]. split; [done|].
    assert (filled e.1 = true) as Hf by (apply (ordered_filled _ _ _ Hok Hio He); lia).
    unfold matches. rewrite Hf. cbn. apply (Hsame (Z.of_nat p)); [lia|apply key_at_keys; by rewrite Nat2Z.id|done]. }
  destruct (ordered_find _ _ _) as [i|] eqn:E.
  - apply ordered_find_Some in E as (e & Hi & He & Hsm). rewrite Z.sub_0_r in He.
    destruct (Hes _ _ He) as [He' Hm]. rewrite Hsm in Hm. symmetry in Hm. apply wp_bind.
    destruct (kind =? MP_MAP_LOOKUP_REMOVE_IF_FOUND) eqn:Ek; to_prop.
    + subst kind. apply (wp_ordered_remove s k i e); [done|done|done|lia|done|done|].
      intros s1 [Hok1 Hc1] Hrem. apply wp_bind, wp_cache_set; [done|]. intros s2 Hs2 Hc2. apply wp_ret.
      unfold finds, state_ok. by rewrite Hs2.
    + apply wp_ret, wp_bind, wp_cache_set; [done|]. intros s2 Hs2 Hc2. apply wp_ret.
      unfold finds, state_ok. rewrite Hs2. split; [done|]. eapply found_post; try done. lia.
  - assert (find_in (the_map s) k = None) as Hn.
    { apply ordered_find_None in E. rewrite Forall_lookup in E.
      destruct (find_in (the_map s) k) as [v|] eqn:Ef; [|done].
      apply map_find_has in Ef as (p & e & He & Hm & _). pose proof (matches_filled _ _ Hm) as [Hf _].
      assert (take (Z.to_nat (used (the_map s))) (table (the_map s)) !! p = Some e) as Ht.
      { rewrite lookup_take_lt; [done|]. apply (ordered_filled _ _ _ Hok Hio He) in Hf. lia. }
      specialize (E _ _ Ht). destruct (Hes _ _ Ht). congruence. }
    destruct (kind =? MP_MAP_LOOKUP_ADD_IF_NOT_FOUND) eqn:Ek; cbn [negb]; to_prop.
    + subst kind. by apply wp_ordered_append.
    + apply wp_ret. split; [done|]. by apply absent_post.
Qed.

(** ** A call, given what a rehash does *)

Lemma wp_lookup_step d s k kind : state_ok valid s -> valid k -> kind_ok kind ->
  (is_fixed (the_map s) = true -> kind = MP_MAP_LOOKUP) ->
  (is_ordered (the_map s) = false -> kind = MP_MAP_LOOKUP_ADD_IF_NOT_FOUND ->
     used (the_map s) = alloc (the_map s) -> rehashes valid (mp_map_rehash (lookup_depth d)) s) ->
  wp (lookup_depth (S d) k kind) s (finds valid s k kind).
Proof.
  intros Hs Hk Hkind Hfix Hre. cbn [lookup_depth]. apply wp_bind, wp_gets, wp_bind.
  apply wp_assert; [destruct (is_fixed (the_map s)); [by rewrite Hfix|done]|].
  apply wp_bind, (wp_cache_lookup valid); [done|done|..].
  { intros p e Hkr Hp He Hm. apply wp_ret. split; [done|]. eapply found_post; try done. apply Hs. }
  destruct (compare_only_ptrs (the_map s) k kind) as [ptrs|] eqn:Ec.
  2: { destruct (compare_only_ptrs_None valid _ _ _ (proj1 Hs) Hk Ec) as [Hna Hn]. apply wp_ret.
       split; [done|]. apply (absent_post valid); [apply Hs|done..]. }
  destruct (is_ordered (the_map s)) eqn:Eo.
  - apply wp_ordered_lookup; [done..|]. intros p x Hp Hx Hf.
    by apply (compare_only_ptrs_same valid (the_map s) _ kind _ p); [apply Hs|..].
  - apply wp_hash_lookup; [done..|]. intros Hka Hfull. by apply Hre.
Qed.

(** ** Rehashing *)

Section Rehash.
Context (d : nat) (m0 : mp_map_t) (Hok0 : map_ok valid m0) (Hio0 : is_ordered m0 = false).
Context (new_alloc : Z) (Hnew : alloc m0 < new_alloc).

(** After the entries [done] of the old table have been added. *)
Definition refilled (done : list mp_map_elem_t) (s : map_vm) : Prop :=
  state_ok valid s /\ is_fixed (the_map s) = false /\ is_ordered (the_map s) = false /\
  alloc (the_map s) = new_alloc /\ used (the_map s) = count done /\
  (all_keys_are_qstrs m0 = true -> all_keys_are_qstrs (the_map s) = true) /\
  forall k, valid k -> find_in (the_map s) k = map_find done k.

Lemma old_entry_new before e rest : table m0 = before ++ e :: rest -> filled e.1 = true ->
  valid e.1 /\ map_find before e.1 = None.
Proof.
  intros Ht Hf.
  assert (table m0 !! length before = Some e) as He by (rewrite Ht; by apply list_lookup_middle).
  assert (valid e.1) as Hv.
  { apply (tk_valid _ _ _ (mo_table _ _ Hok0) (Z.of_nat (length before))); [lia|apply key_at_keys; by rewrite Nat2Z.id|done]. }
  split; [done|]. destruct (map_find before e.1) as [v|] eqn:E; [|done].
  apply map_find_has in E as (q & e' & Hq & Hm & _). pose proof (lookup_lt_Some _ _ _ Hq) as Hlt.
  assert (table m0 !! q = Some e') as Hq' by (rewrite Ht; by rewrite lookup_app_l).
  assert (q = length before); [|lia].
  apply (entries_unique valid (map_hash m0) (table m0) _ _ e' e e.1); [apply Hok0|done..|].
  unfold matches. rewrite Hf. cbn. by apply (equal_refl (valid := valid)).
Qed.

Lemma wp_refill_one before e rest s : table m0 = before ++ e :: rest -> refilled before s -> filled e.1 = true ->
  wp (r ← lookup_depth (S d) e.1 MP_MAP_LOOKUP_ADD_IF_NOT_FOUND;
      match r with Some p => set_value p e.2 | None => stuck end) s (fun _ => refilled (before ++ [e])).
Proof.
  intros Ht (Hs & Hfx & Hio & Hal & Hu & Hq & Hfind) Hf.
  destruct (old_entry_new before e rest Ht Hf) as [Hv Hnew'].
  assert (used (the_map s) < alloc (the_map s)) as Hroom.
  { pose proof (used_le_alloc _ _ Hok0) as Hle. rewrite (mo_used _ _ Hok0), Ht, count_app, count_cons, Hf in Hle.
    assert (0 <= count rest) by (unfold count; lia). cbn in Hle. lia. }
  apply wp_bind. eapply wp_mono.
  { apply (wp_lookup_step d s); [done|done|by right; left|congruence|lia]. }
  intros r s1 [Hs1 Hpost]. destruct Hpost as ((p & e1 & -> & Hp & He1 & Hm1 & Hv1) & [Hfx1 Hio1] & Hu1 & Ha1 & _ & Hq1 & Hf1).
  assert (find_in (the_map s) e.1 = None) as Hn by by rewrite Hfind.
  rewrite Hn in *. unfold wp. rewrite (set_value_run _ _ _ _ He1).
  destruct (valued_map_ok valid _ _ _ e.2 _ (proj1 Hs1) Hv He1 Hm1) as [Hok2 Hf2].
  split; [split; [done|apply Hs1]|]. cbn [on_map the_map valued_map set_table is_fixed is_ordered alloc used all_keys_are_qstrs].
  split; [congruence|]. split; [congruence|]. split; [rewrite <-Hal; by apply Ha1|].
  split; [rewrite count_app, count_cons, Hf, Hu1, Hu; change (count []) with 0; cbn [zbool]; lia|]. split.
  { intros Hall. apply Hq1; [by apply Hq|].
    apply (mo_qstrs _ _ Hok0 Hall (Z.of_nat (length before))); [lia| |done]. apply key_at_keys.
    rewrite Nat2Z.id, Ht. by apply list_lookup_middle. }
  intros k Hk. cbn [on_map the_map] in Hf2. rewrite Hf2, Hf1 by done. rewrite map_find_app.
  assert (map_find [e] k = if mp_obj_equal e.1 k then Some e.2 else None) as Hone.
  { unfold map_find. cbn. rewrite (matches_equal valid) by done. by destruct (mp_obj_equal e.1 k). }
  destruct (mp_obj_equal e.1 k) eqn:Ee.
  - rewrite Hone. rewrite <-Hfind by done. unfold find_in.
    rewrite <-(map_find_equal valid (map_hash (the_map s)) _ e.1 k); [|apply Hs|done..].
    unfold find_in in Hn. by rewrite Hn.
  - rewrite Hone, Hfind by done. by destruct (map_find before k).
Qed.

Lemma wp_refill todo : forall before s, table m0 = before ++ todo -> refilled before s ->
  wp (foldr (fun e rest =>
    (if filled e.1 then
       r ← lookup_depth (S d) e.1 MP_MAP_LOOKUP_ADD_IF_NOT_FOUND;
       match r with Some p => set_value p e.2 | None => stuck end
     else mret tt);;
    rest) (mret tt) todo) s (fun _ => refilled (table m0)).
Proof.
  induction todo as [|e todo IH]; intros before s Ht Hs; cbn [foldr].
  - apply wp_ret. by rewrite Ht, app_nil_r.
  - apply wp_bind. assert (table m0 = (before ++ [e]) ++ todo) as Ht' by by rewrite <-app_assoc.
    destruct (filled e.1) eqn:Hf.
    + eapply wp_mono; [by apply (wp_refill_one before e todo)|]. intros [] s1 Hs1. by apply (IH (before ++ [e])).
    + apply wp_ret. apply (IH (before ++ [e])); [done|].
      destruct Hs as (Hs & Hfx & Hio & Hal & Hu & Hq & Hfind). split; [exact Hs|]. do 3 (split; [done|]). split; [|split; [done|]].
      * rewrite count_app, count_cons, Hf. change (count []) with 0. cbn [zbool]. lia.
      * intros k Hk. rewrite Hfind, map_find_app by done. unfold map_find at 3. cbn [List.find].
        unfold matches. rewrite Hf. cbn. by destruct (map_find before k).
Qed.

End Rehash.

Lemma mp_map_rehash_ok d s : state_ok valid s -> is_fixed (the_map s) = false -> is_ordered (the_map s) = false ->
  get_hash_alloc_greater_or_equal_to (alloc (the_map s) + 1) <= MAX_ENTRIES ->
  rehashes valid (mp_map_rehash (lookup_depth (S d))) s.
Proof.
  intros [Hok Hc] Hfx Hio Hmax. pose proof (find_size_ge (alloc (the_map s) + 1)) as Hgrow.
  pose proof (used_le_alloc _ _ Hok) as Hua.
  unfold rehashes, mp_map_rehash. apply wp_bind, wp_gets. apply wp_bind, wp_assert; [by apply Z.leb_le|].
  apply wp_bind, wp_modify. eapply wp_mono.
  - apply (wp_refill d (the_map s) Hok (get_hash_alloc_greater_or_equal_to (alloc (the_map s) + 1)) ltac:(lia)
      (table (the_map s)) []); [done|].
    split; [|repeat split; try done; intros k Hk; apply map_find_entries0].
    split; [|done]. split; cbn [alloc used table on_map the_map all_keys_are_qstrs is_ordered].
    + unfold entries0. rewrite length_replicate. lia.
    + by rewrite count_entries0.
    + unfold entries0, keys. rewrite fmap_replicate. unfold map_hash. cbn [is_ordered]. rewrite Hio.
      apply (table_ok_empty valid).
    + intros Ho. congruence.
    + intros _ p k Hp Hk Hf. unfold entries0, key_at, keys in Hk. rewrite fmap_replicate in Hk.
      by apply lookup_replicate in Hk as [-> _].
  - intros [] s1 (Hs1 & Hfx1 & Hio1 & Hal1 & Hu1 & Hq1 & Hfind). split; [done|].
    split; [by split; congruence|].
    split; [by rewrite Hu1, (mo_used _ _ Hok)|done].
Qed.

(** Every call of [mp_map_lookup] that is allowed ends, and does what it should. *)
Lemma wp_mp_map_lookup s k kind : state_ok valid s -> valid k -> kind_ok kind ->
  (is_fixed (the_map s) = true -> kind = MP_MAP_LOOKUP) ->
  (kind = MP_MAP_LOOKUP_ADD_IF_NOT_FOUND ->
     get_hash_alloc_greater_or_equal_to (alloc (the_map s) + 1) <= MAX_ENTRIES) ->
  wp (mp_map_lookup k kind) s (finds valid s k kind).
Proof.
  intros Hs Hk Hkind Hfix Hmax. apply wp_lookup_step; [done..|]. intros Hio Hadd Hfull.
  apply mp_map_rehash_ok; [done| |done|by apply Hmax].
  destruct (is_fixed (the_map s)); [|done]. specialize (Hfix eq_refl). by rewrite Hadd in Hfix.
Qed.

End MapLookup.
