(* ===== verification/ObjDict.v ===== *)
(** * Dictionaries ([py/objdict.c])

    The operations of [dict] and [OrderedDict] on the map they hold, with the
    exceptions they raise as values.  The state is the map of the dictionary
    and the lookup cache; another dictionary (the argument of [update]) is a
    value, since it is a different object and is only read. *)
From S2P Require Import Prelude.
From S2P Require Import CMem.
From S2P Require Import Probing.
From S2P Require Import ObjMap.
Local Open Scope Z_scope.

Inductive dict_exn := KeyError (key : Z) | KeyErrorEmpty | TypeErrorFixed.

Definition mp_const_none : Z := 6.

Definition result (A : Type) : Type := (dict_exn + A)%type.

Section Dict.
Context `{KeyOps}.

Definition mp_map_slot_is_filled (m : mp_map_t) (pos : Z) : bool :=
  match table m !! Z.to_nat pos with
  | Some e => negb (e.1 =? MP_OBJ_NULL) && negb (e.1 =? MP_OBJ_SENTINEL)
  | None => false
  end.

(** [dict_iter_next]: the next filled slot at or after [cur]; the cursor is left
    behind it, at the slot's position plus one. *)
Fixpoint iter_from (m : mp_map_t) (i : Z) (fuel : nat) : option Z :=
  match fuel with
  | O => None
  | S fuel => if mp_map_slot_is_filled m i then Some i else iter_from m (i + 1) fuel
  end.

Definition dict_iter_next (m : mp_map_t) (cur : Z) : option Z :=
  let max := alloc m in
  iter_from m cur (Z.to_nat (max - cur)).

Definition mp_obj_dict_get (index : Z) : Mm (result Z) :=
  r ← mp_map_lookup index MP_MAP_LOOKUP;
  match r with
  | None => mret (inl (KeyError index))
  | Some p => e ← map_slot p; mret (inr e.2)
  end.

(** [mp_ensure_not_fixed] before an operation that changes the map. *)
Definition ensure_not_fixed {A} (c : Mm (result A)) : Mm (result A) :=
  m ← get_map; if is_fixed m then mret (inl TypeErrorFixed) else c.

Definition dict_clear : Mm (result Z) :=
  ensure_not_fixed (_ ← upd_map mp_map_clear; mret (inr mp_const_none)).

Definition mp_obj_dict_copy (m : mp_map_t) : mp_map_t :=
  MkMap (all_keys_are_qstrs m) false (is_ordered m) (used m) (alloc m) (table m).

(** "if (lookup_kind == ADD) elem->value = value" *)
Definition add_default (elem : option Z) (value lookup_kind : Z) : Mm (result Z) :=
  (if lookup_kind =? MP_MAP_LOOKUP_ADD_IF_NOT_FOUND then
     match elem with Some p => set_value p value | None => stuck end
   else mret tt);;
  mret (inr value).

(** [dict_get_helper]: [get], [pop] and [setdefault]; [deflt] is [args[2]]. *)
Definition dict_get_helper (index : Z) (deflt : option Z) (lookup_kind : Z) : Mm (result Z) :=
  let body :=
    elem ← mp_map_lookup index lookup_kind;
    value ← match elem with Some p => e ← map_slot p; mret e.2 | None => mret MP_OBJ_NULL end;
    if bool_decide (elem = None) || (value =? MP_OBJ_NULL) then
      match deflt with
      | None => if lookup_kind =? MP_MAP_LOOKUP_REMOVE_IF_FOUND then mret (inl (KeyError index))
                else add_default elem mp_const_none lookup_kind
      | Some v => add_default elem v lookup_kind
      end
    else
      match elem with
      | Some p => if lookup_kind =? MP_MAP_LOOKUP_REMOVE_IF_FOUND then set_value p MP_OBJ_NULL else mret tt
      | None => mret tt
      end;;
      mret (inr value) in
  if lookup_kind =? MP_MAP_LOOKUP then body else ensure_not_fixed body.

Definition dict_get (index : Z) (deflt : option Z) := dict_get_helper index deflt MP_MAP_LOOKUP.
Definition dict_pop (index : Z) (deflt : option Z) :=
  dict_get_helper index deflt MP_MAP_LOOKUP_REMOVE_IF_FOUND.
Definition dict_setdefault (index : Z) (deflt : option Z) :=
  dict_get_helper index deflt MP_MAP_LOOKUP_ADD_IF_NOT_FOUND.

Definition dict_popitem : Mm (result (Z * Z)) :=
  ensure_not_fixed (
    m ← get_map;
    if used m =? 0 then mret (inl KeyErrorEmpty)
    else
      let cur := if is_ordered m then used m - 1 else 0 in
      match dict_iter_next m cur with
      | None => stuck
      | Some p =>
          upd_map (set_used (used m - 1));;
          e ← map_slot p;
          set_slot p (MP_OBJ_SENTINEL, MP_OBJ_NULL);;
          mret (inr e)
      end).

(** [mp_map_lookup(map, key, ADD)->value = value]. *)
Definition map_store (key value : Z) : Mm unit :=
  r ← mp_map_lookup key MP_MAP_LOOKUP_ADD_IF_NOT_FOUND;
  match r with Some p => set_value p value | None => stuck end.

(** The loop over the filled entries of another map, from [cur]. *)
Fixpoint update_from (other : mp_map_t) (cur : Z) (fuel : nat) : Mm unit :=
  match fuel with
  | O => stuck
  | S fuel =>
      match dict_iter_next other cur with
      | None => mret tt
      | Some p =>
          match table other !! Z.to_nat p with
          | Some e => map_store e.1 e.2;; update_from other (p + 1) fuel
          | None => stuck
          end
      end
  end.

(** [dict_update] with another dictionary as its argument. *)
Definition dict_update (other : mp_map_t) : Mm (result Z) :=
  ensure_not_fixed (_ ← update_from other 0 (S (length (table other))); mret (inr mp_const_none)).

Definition mp_obj_dict_len : Mm Z := m ← get_map; mret (used m).

Definition mp_obj_dict_store (key value : Z) : Mm (result unit) :=
  ensure_not_fixed (_ ← map_store key value; mret (inr tt)).

Definition mp_obj_dict_delete (key : Z) : Mm (result unit) :=
  r ← dict_pop key None;
  mret (match r with inl e => inl e | inr _ => inr tt end).

(** [dict_subscr]: deletion, load or store, by the value given. *)
Definition dict_subscr (index value : Z) : Mm (result Z) :=
  if value =? MP_OBJ_NULL then
    r ← mp_obj_dict_delete index;
    mret (match r with inl e => inl e | inr _ => inr mp_const_none end)
  else if value =? MP_OBJ_SENTINEL then mp_obj_dict_get index
  else
    r ← mp_obj_dict_store index value;
    mret (match r with inl e => inl e | inr _ => inr mp_const_none end).

(** [key in dict], the [MP_BINARY_OP_CONTAINS] case of [dict_binary_op]. *)
Definition dict_contains (index : Z) : Mm bool :=
  r ← mp_map_lookup index MP_MAP_LOOKUP; mret (bool_decide (r <> None)).

End Dict.
