(* ===== verification/ObjDictProps.v ===== *)
(** * What a dictionary promises

    A dictionary is a partial function on keys up to equality, with the number
    of its entries and whether it is fixed (a dictionary in ROM).  Any sequence
    of operations gives the results and the exceptions, and reaches the
    contents, that this gives: the hash table, its deleted slots, its growth
    and the lookup cache cannot be observed. *)
From S2P Require Import Prelude.
From S2P Require Import CMem.
From S2P Require Import Probing.
From S2P Require Import ObjMap.
From S2P Require Import ObjMapFacts.
From S2P Require Import ObjMapLookup.
From S2P Require Import ObjDict.
Local Open Scope Z_scope.

(** The empty map and a cache with any contents. *)
Definition fresh (n : Z) (cache : list Z) : map_vm := MkVm (mp_map_init n) cache.

(** ** The abstract dictionary *)

(** [OpCopy] goes on with the copy; [OpUpdate] has another dictionary as its
    argument. *)
Inductive dict_op :=
  | OpGet (k : Z) (deflt : option Z)
  | OpPop (k : Z) (deflt : option Z)
  | OpSetdefault (k : Z) (deflt : option Z)
  | OpLoad (k : Z)
  | OpStore (k v : Z)
  | OpDelete (k : Z)
  | OpContains (k : Z)
  | OpLen
  | OpClear
  | OpPopitem
  | OpUpdate (other : mp_map_t)
  | OpCopy.

(** A result: an object, a number, or the pair [popitem] returns. *)
Inductive dict_val := Val (v : Z) | Num (n : Z) | Pair (k v : Z).

Definition changes (op : dict_op) : bool :=
  match op with OpGet _ _ | OpLoad _ | OpContains _ | OpLen | OpCopy => false | _ => true end.

Definition res_map {A B} (g : A -> B) (r : result A) : result B :=
  match r with inl e => inl e | inr v => inr (g v) end.

Section Spec.
Context `{KeyOps}.

Definition dict_fun : Type := Z -> option Z.
Definition fun_put (f : dict_fun) (k : Z) (v : option Z) : dict_fun :=
  fun k' => if mp_obj_equal k k' then v else f k'.

Record dict_abs := MkAbs { contents : dict_fun; entries : Z; fixed : bool }.

Definition abs_put (d : dict_abs) (k v : Z) : dict_abs :=
  MkAbs (fun_put (contents d) k (Some v))
    (entries d + match contents d k with Some _ => 0 | None => 1 end) (fixed d).
Definition abs_del (d : dict_abs) (k : Z) : dict_abs :=
  MkAbs (fun_put (contents d) k None) (entries d - 1) (fixed d).

Definition none : result dict_val := inr (Val mp_const_none).

(** The operations whose result is determined by the contents. *)
Definition spec_fun (op : dict_op) (d : dict_abs) : result dict_val * dict_abs :=
  match op with
  | OpGet k v => (inr (Val (default (default mp_const_none v) (contents d k))), d)
  | OpPop k v =>
      match contents d k, v with
      | Some v, _ => (inr (Val v), abs_del d k)
      | None, Some v => (inr (Val v), d)
      | None, None => (inl (KeyError k), d)
      end
  | OpSetdefault k v =>
      match contents d k with
      | Some v => (inr (Val v), d)
      | None => (inr (Val (default mp_const_none v)), abs_put d k (default mp_const_none v))
      end
  | OpLoad k => (match contents d k with Some v => inr (Val v) | None => inl (KeyError k) end, d)
  | OpStore k v => (none, abs_put d k v)
  | OpDelete k => match contents d k with Some _ => (none, abs_del d k) | None => (inl (KeyError k), d) end
  | OpContains k => (inr (Num (match contents d k with Some _ => 1 | None => 0 end)), d)
  | OpLen | OpPopitem => (inr (Num (entries d)), d)
  | OpClear => (none, MkAbs (fun _ => None) 0 (fixed d))
  | OpUpdate other =>
      (none, foldl (fun d e => abs_put d e.1 e.2) d (List.filter is_filled (table other)))
  | OpCopy => (none, MkAbs (contents d) (entries d) false)
  end.

(** One operation: a [TypeError] for a change of a fixed dictionary; [popitem]
    removes and returns some item; the others as above. *)
Definition spec_step (op : dict_op) (d : dict_abs) (r : result dict_val) (d' : dict_abs) : Prop :=
  if fixed d && changes op then r = inl TypeErrorFixed /\ d' = d
  else match op with
       | OpPopitem =>
           if entries d =? 0 then r = inl KeyErrorEmpty /\ d' = d
           else exists k v, contents d k = Some v /\ r = inr (Pair k v) /\ d' = abs_del d k
       | _ => (r, d') = spec_fun op d
       end.

Fixpoint spec_ops (ops : list dict_op) (d : dict_abs) (rs : list (result dict_val)) (d' : dict_abs) : Prop :=
  match ops with
  | [] => rs = [] /\ d' = d
  | op :: ops => exists r d1 rs1, rs = r :: rs1 /\ spec_step op d r d1 /\ spec_ops ops d1 rs1 d'
  end.

(** The code run by each of them. *)
Definition run_op (op : dict_op) : Mm (result dict_val) :=
  match op with
  | OpGet k v => r ← dict_get k v; mret (res_map Val r)
  | OpPop k v => r ← dict_pop k v; mret (res_map Val r)
  | OpSetdefault k v => r ← dict_setdefault k v; mret (res_map Val r)
  | OpLoad k => r ← dict_subscr k MP_OBJ_SENTINEL; mret (res_map Val r)
  | OpStore k v => r ← dict_subscr k v; mret (res_map Val r)
  | OpDelete k => r ← dict_subscr k MP_OBJ_NULL; mret (res_map Val r)
  | OpContains k => b ← dict_contains k; mret (inr (Num (zbool b)))
  | OpLen => n ← mp_obj_dict_len; mret (inr (Num n))
  | OpClear => r ← dict_clear; mret (res_map Val r)
  | OpPopitem => r ← dict_popitem; mret (res_map (fun e => Pair e.1 e.2) r)
  | OpUpdate other => r ← dict_update other; mret (res_map Val r)
  | OpCopy => _ ← upd_map mp_obj_dict_copy; mret none
  end.

Fixpoint run_ops (ops : list dict_op) : Mm (list (result dict_val)) :=
  match ops with
  | [] => mret []
  | op :: ops => r ← run_op op; rs ← run_ops ops; mret (r :: rs)
  end.

(** The entries an operation may add. *)
Definition weight (op : dict_op) : Z :=
  match op with OpUpdate other => 1 + alloc other | _ => 1 end.
Definition weights (ops : list dict_op) : Z := foldr (fun op w => weight op + w) 0 ops.

End Spec.

Section Sim.
Context `{KeyOps} (valid : Z -> Prop) `{KL : !KeyLaws valid}.

(** Keys are hashable objects; values are objects, not the two marker words. *)
Definition is_object (v : Z) : Prop := v <> MP_OBJ_NULL /\ v <> MP_OBJ_SENTINEL.

Definition values_ok (m : mp_map_t) : Prop :=
  forall i e, table m !! i = Some e -> filled e.1 = true -> is_object e.2.

(** A dictionary: its map and the cache are in order, its values are objects. *)
Definition dict_ok (s : map_vm) : Prop := state_ok valid s /\ values_ok (the_map s).

Definition op_ok (op : dict_op) : Prop :=
  match op with
  | OpGet k d | OpPop k d | OpSetdefault k d => valid k /\ (forall v, d = Some v -> is_object v)
  | OpLoad k | OpContains k | OpDelete k => valid k
  | OpStore k v => valid k /\ is_object v
  | OpUpdate other => map_ok valid other /\ values_ok other
  | OpLen | OpClear | OpPopitem | OpCopy => True
  end.

(** What a map stands for. *)
Definition abstract (m : mp_map_t) : dict_abs := MkAbs (find_in m) (used m) (is_fixed m).

(** The state holds [d], after at most [c] additions. *)
Record sim (n c : Z) (d : dict_abs) (s : map_vm) : Prop := {
  sim_ok : state_ok valid s;
  sim_fixed : is_fixed (the_map s) = fixed d;
  sim_find : forall k, valid k -> find_in (the_map s) k = contents d k;
  sim_values : forall k v, valid k -> contents d k = Some v -> is_object v;
  sim_entries : used (the_map s) = entries d;
  sim_used : used (the_map s) <= c;
  sim_alloc : alloc (the_map s) <= Z.max n (2 * c + 4) }.

Lemma fresh_ok n cache : length cache = 128%nat -> 0 <= n -> dict_ok (fresh n cache).
Proof.
  intros Hc Hn. split; [split; [split|done]|]; cbn.
  - unfold entries0. rewrite length_replicate. lia.
  - by rewrite count_entries0.
  - unfold keys, entries0. rewrite fmap_replicate. apply (table_ok_empty valid).
  - done.
  - intros _ p k Hp Hk Hf. unfold entries0, key_at, keys in Hk. rewrite fmap_replicate in Hk.
    by apply lookup_replicate in Hk as [-> _].
  - intros i e He Hf. unfold entries0 in He. by apply lookup_replicate in He as [-> _].
Qed.

Lemma sim_start s : dict_ok s ->
  sim (alloc (the_map s)) (used (the_map s)) (abstract (the_map s)) s.
Proof.
  intros [Hs Hv]. split; [done|done|done| |done|done|lia].
  intros k v Hk Hf. apply (map_find_Some valid (map_hash (the_map s))) in Hf as (i & e & He & Hm & <-); [|apply Hs|done].
  apply matches_filled in Hm as [Hf _]. by apply (Hv i e).
Qed.

Lemma filled_entry m i e : map_ok valid m -> table m !! i = Some e -> filled e.1 = true ->
  valid e.1 /\ find_in m e.1 = Some e.2.
Proof.
  intros Hok He Hf. assert (valid e.1) as Hk.
  { apply (tk_valid _ _ _ (mo_table _ _ Hok) (Z.of_nat i)); [lia| |done]. apply key_at_keys. by rewrite Nat2Z.id. }
  split; [done|]. apply (map_find_Some valid (map_hash m)); [apply Hok|done|]. exists i, e. split; [done|]. split; [|done].
  unfold matches. rewrite Hf. by apply (equal_refl (valid := valid)).
Qed.

Lemma sim_values_ok n c d s : sim n c d s -> values_ok (the_map s).
Proof.
  intros Hs i e He Hf. destruct (filled_entry _ _ _ (proj1 (sim_ok _ _ _ _ Hs)) He Hf) as [Hk Hfind].
  apply (sim_values _ _ _ _ Hs e.1); [done|]. by rewrite <-(sim_find _ _ _ _ Hs).
Qed.

(** ** Going through the entries of a map *)

Lemma slot_filled m p e : table m !! Z.to_nat p = Some e -> mp_map_slot_is_filled m p = filled e.1.
Proof. intros He. unfold mp_map_slot_is_filled. by rewrite He. Qed.

Lemma iter_from_spec m fuel : forall i, 0 <= i ->
  match iter_from m i fuel with
  | Some p => i <= p < i + Z.of_nat fuel /\ (exists e, table m !! Z.to_nat p = Some e /\ filled e.1 = true) /\
      forall q, i <= q < p -> mp_map_slot_is_filled m q = false
  | None => forall q, i <= q < i + Z.of_nat fuel -> mp_map_slot_is_filled m q = false
  end.
Proof.
  induction fuel as [|fuel IH]; intros i Hi; cbn [iter_from]; [lia|].
  destruct (mp_map_slot_is_filled m i) eqn:E.
  - split; [lia|]. split; [|lia]. unfold mp_map_slot_is_filled in E.
    destruct (table m !! Z.to_nat i) as [e|]; [by exists e|done].
  - specialize (IH (i + 1) ltac:(lia)). destruct (iter_from m (i + 1) fuel) as [p|].
    + destruct IH as (Hp & He & Hq). split; [lia|]. split; [done|]. intros q Hq'.
      destruct (Z.eq_dec q i) as [->|]; [done|]. apply Hq. lia.
    + intros q Hq'. destruct (Z.eq_dec q i) as [->|]; [done|]. apply IH. lia.
Qed.

(** Slots without a key do not count. *)
Lemma filter_skip m a b : 0 <= a <= b -> (forall q, a <= q < b -> mp_map_slot_is_filled m q = false) ->
  List.filter is_filled (drop (Z.to_nat a) (table m)) = List.filter is_filled (drop (Z.to_nat b) (table m)).
Proof.
  intros Hab Hq. replace b with (a + Z.of_nat (Z.to_nat (b - a))) in * by lia.
  revert Hq. induction (Z.to_nat (b - a)) as [|j IH]; intros Hq; [by rewrite Z.add_0_r|].
  rewrite IH by first [lia|intros q Hq'; apply Hq; lia].
  specialize (Hq (a + Z.of_nat j) ltac:(lia)).
  replace (Z.to_nat (a + Z.of_nat (S j))) with (S (Z.to_nat (a + Z.of_nat j))) by lia.
  destruct (table m !! Z.to_nat (a + Z.of_nat j)) as [e|] eqn:E.
  - rewrite (drop_S _ _ _ E). cbn [List.filter]. unfold is_filled at 1. by rewrite <-(slot_filled m _ e E), Hq.
  - apply lookup_ge_None in E. by rewrite !drop_ge by lia.
Qed.

(** The entries from the cursor on. *)
Lemma dict_iter_next_spec m cur : map_ok valid m -> 0 <= cur ->
  match dict_iter_next m cur with
  | Some p => cur <= p < alloc m /\ exists e, table m !! Z.to_nat p = Some e /\ filled e.1 = true /\
      List.filter is_filled (drop (Z.to_nat cur) (table m)) =
        e :: List.filter is_filled (drop (Z.to_nat (p + 1)) (table m))
  | None => List.filter is_filled (drop (Z.to_nat cur) (table m)) = []
  end.
Proof.
  intros Hok Hcur. pose proof (mo_alloc _ _ Hok) as Ha. unfold dict_iter_next. cbv zeta.
  pose proof (iter_from_spec m (Z.to_nat (alloc m - cur)) cur Hcur) as Hspec.
  destruct (iter_from m cur (Z.to_nat (alloc m - cur))) as [p|].
  - destruct Hspec as (Hp & (e & He & Hf) & Hq). split; [lia|]. exists e. split; [done|]. split; [done|].
    rewrite (filter_skip m cur p) by (done || lia). rewrite (drop_S _ _ _ He). cbn [List.filter].
    unfold is_filled at 1. rewrite Hf. by replace (S (Z.to_nat p)) with (Z.to_nat (p + 1)) by lia.
  - rewrite (filter_skip m cur (Z.max cur (alloc m))); [by rewrite drop_ge by lia|lia|].
    intros q Hq. apply Hspec. lia.
Qed.

(** [popitem] takes the first entry, or the last of an ordered dictionary. *)
Lemma popitem_slot m : map_ok valid m -> used m <> 0 -> exists p e,
  dict_iter_next m (if is_ordered m then used m - 1 else 0) = Some p /\ 0 <= p /\
  table m !! Z.to_nat p = Some e /\ filled e.1 = true /\ (is_ordered m = true -> p = used m - 1).
Proof.
  intros Hok Hu. pose proof (used_le_alloc _ _ Hok) as Hua. pose proof (mo_alloc _ _ Hok) as Ha.
  set (cur := if is_ordered m then used m - 1 else 0).
  assert (0 <= cur) as Hcur by (unfold cur; destruct (is_ordered m); lia).
  destruct (is_ordered m) eqn:Ho.
  - destruct (lookup_lt_is_Some_2 (table m) (Z.to_nat cur)) as [e He]; [unfold cur; lia|].
    assert (filled e.1 = true) as Hf.
    { apply (mo_ordered _ _ Hok Ho cur e.1); [done|by apply key_at_keys|unfold cur; lia]. }
    exists cur, e. split; [|done]. unfold dict_iter_next. cbv zeta.
    replace (Z.to_nat (alloc m - cur)) with (S (Z.to_nat (alloc m - cur - 1))) by (unfold cur; lia).
    cbn [iter_from]. by rewrite (slot_filled m cur e He), Hf.
  - pose proof (dict_iter_next_spec m cur Hok Hcur) as Hspec. destruct (dict_iter_next m cur) as [p|].
    + destruct Hspec as (Hp & e & He & Hf & _). exists p, e. split; [done|]. split; [lia|]. done.
    + exfalso. apply Hu. rewrite (mo_used _ _ Hok). unfold count. change (Z.to_nat cur) with 0%nat in Hspec.
      rewrite drop_0 in Hspec. by rewrite Hspec.
Qed.

Section Step.
Context (n c : Z) (Hn : 0 <= n <= 2 ^ 26) (Hc : 0 <= c <= 2 ^ 25).

Lemma sim_room d s : sim n c d s -> get_hash_alloc_greater_or_equal_to (alloc (the_map s) + 1) <= MAX_ENTRIES.
Proof.
  intros Hs. pose proof (used_le_alloc _ _ (proj1 (sim_ok _ _ _ _ Hs))). pose proof (sim_alloc _ _ _ _ Hs).
  pose proof (find_size_le (alloc (the_map s)) ltac:(lia)). unfold MAX_ENTRIES. lia.
Qed.

Lemma wp_sim_lookup d s k : sim n c d s -> valid k ->
  wp (mp_map_lookup k MP_MAP_LOOKUP) s (fun r s' => sim n c d s' /\
    match contents d k with
    | Some v => exists p e, r = Some p /\ table (the_map s') !! Z.to_nat p = Some e /\ e.2 = v
    | None => r = None
    end).
Proof.
  intros Hs Hk. eapply wp_mono.
  { apply (wp_mp_map_lookup valid); [apply Hs|done|by left|done|done]. }
  intros r s' [Hs' [Hm Hr]]. rewrite (sim_find _ _ _ _ Hs k Hk) in Hr. split.
  - destruct Hs as [_ Hd Hf Hv He Hu Ha]. split; [done|..]; by rewrite ?Hm.
  - destruct (contents d k) as [v|]; [|done]. destruct Hr as (p & e & -> & _ & He & _ & <-). exists p, e. by rewrite Hm.
Qed.

(** Adding, then writing the value through the slot. *)
Lemma wp_sim_add d s k : sim n c d s -> fixed d = false -> valid k ->
  wp (mp_map_lookup k MP_MAP_LOOKUP_ADD_IF_NOT_FOUND) s (fun r s' => exists p e, r = Some p /\
    table (the_map s') !! Z.to_nat p = Some e /\ e.2 = default MP_OBJ_NULL (contents d k) /\
    (contents d k <> None -> sim n (c + 1) d s') /\
    forall v, is_object v ->
      wp (set_value p v) s' (fun _ s'' => sim n (c + 1) (abs_put d k v) s'')).
Proof.
  intros Hs Hfd Hk. pose proof (sim_room d s Hs). eapply wp_mono.
  { apply (wp_mp_map_lookup valid); [apply Hs|done|by right; left| |done]. by rewrite (sim_fixed _ _ _ _ Hs), Hfd. }
  intros r s' [Hs' Hpost]. unfold lookup_post in Hpost. cbn in Hpost.
  destruct Hpost as ((p & e & -> & Hp & He & Hm & Hv) & [Hfx Hio] & Hu & _ & Ha & _ & Hf).
  rewrite (sim_find _ _ _ _ Hs k Hk) in Hv, Hu, Hf.
  destruct Hs as [[Hok Hca] Hd Hfs Hvs Hes Hus Has].
  assert (used (the_map s') <= c + 1) as Hu1 by (destruct (contents d k); lia).
  assert (alloc (the_map s') <= Z.max n (2 * (c + 1) + 4)) as Ha1 by lia.
  exists p, e. split; [done|]. split; [done|]. split; [done|]. split.
  - intros Hsome. destruct (contents d k) as [v|] eqn:Efk; [|done]. split; [done|congruence| |done|lia|done|done].
    intros k' Hk'. rewrite Hf by done. destruct (mp_obj_equal k k') eqn:Ee; [|by apply Hfs].
    cbn. rewrite <-Hfs, <-Efk, <-Hfs by done. by apply (map_find_equal valid (map_hash (the_map s))); [apply Hok|..].
  - intros v Hvo. unfold wp. rewrite (set_value_run _ _ _ _ He).
    destruct (valued_map_ok valid _ k p v e (proj1 Hs') Hk He Hm) as [Hok2 Hf2].
    split; cbn [on_map the_map valued_map set_table is_fixed used alloc abs_put contents entries fixed];
      [split; [done|apply Hs']|congruence| | |by rewrite Hu, Hes|done|done].
    + intros k' Hk'. rewrite Hf2 by done. unfold fun_put. destruct (mp_obj_equal k k') eqn:Ee; [done|].
      rewrite Hf by done. rewrite Ee. by apply Hfs.
    + intros k' v' Hk'. unfold fun_put. destruct (mp_obj_equal k k'); [by intros [= <-]|by apply Hvs].
Qed.

(** A map from which a key has gone. *)
Lemma sim_removed d s k s' : sim n c d s -> contents d k <> None ->
  state_ok valid s' -> is_fixed (the_map s') = is_fixed (the_map s) ->
  used (the_map s') = used (the_map s) - 1 -> alloc (the_map s') = alloc (the_map s) ->
  (forall k', valid k' -> find_in (the_map s') k' = if mp_obj_equal k k' then None else find_in (the_map s) k') ->
  sim n c (abs_del d k) s'.
Proof.
  intros [_ Hd Hfs Hvs Hes Hus Has] Hsome Hs' Hfx Hu Ha Hf.
  split; cbn [abs_del contents entries fixed]; [done|congruence| | |lia|lia|lia].
  - intros k' Hk'. rewrite Hf by done. unfold fun_put. destruct (mp_obj_equal k k'); [done|by apply Hfs].
  - intros k' v' Hk'. unfold fun_put. destruct (mp_obj_equal k k'); [done|by apply Hvs].
Qed.

Lemma wp_sim_remove d s k : sim n c d s -> fixed d = false -> valid k ->
  wp (mp_map_lookup k MP_MAP_LOOKUP_REMOVE_IF_FOUND) s (fun r s' =>
    match contents d k with
    | Some v => exists p e, r = Some p /\ table (the_map s') !! Z.to_nat p = Some e /\ e.2 = v /\
        wp (set_value p MP_OBJ_NULL) s' (fun _ s'' => sim n c (abs_del d k) s'')
    | None => r = None /\ sim n c d s'
    end).
Proof.
  intros Hs Hfd Hk. eapply wp_mono.
  { apply (wp_mp_map_lookup valid); [apply Hs|done|by right; right| |done]. by rewrite (sim_fixed _ _ _ _ Hs), Hfd. }
  intros r s' [Hs' Hpost]. unfold lookup_post in Hpost. cbn in Hpost.
  destruct Hpost as ([Hfx Hio] & Hr & Hf). rewrite (sim_find _ _ _ _ Hs k Hk) in Hr.
  destruct (contents d k) as [v|] eqn:Efk.
  - destruct Hr as ((p & e & -> & He & Hfe & Hv) & Hu & Ha). exists p, e. split; [done|]. split; [done|]. split; [done|].
    unfold wp. rewrite (set_value_run _ _ _ _ He).
    destruct (unfilled_value_ok valid _ p MP_OBJ_NULL e (proj1 Hs') He Hfe) as [Hok2 Hf2].
    apply (sim_removed d s); [done|congruence|split; [done|apply Hs']|done|done|done|].
    intros k' Hk'. cbn [on_map the_map]. by rewrite Hf2, Hf.
  - destruct Hs as [[Hok Hca] Hd Hfs Hvs Hes Hus Has].
    destruct Hr as (-> & Hu & Ha). split; [done|]. split; [done|congruence| |done|lia|lia|lia].
    intros k' Hk'. rewrite Hf by done. destruct (mp_obj_equal k k') eqn:Ee; [|by apply Hfs].
    rewrite <-Hfs, <-Efk, <-Hfs by done. by apply (map_find_equal valid (map_hash (the_map s))); [apply Hok|..].
Qed.

Lemma wp_map_store d s k v : sim n c d s -> fixed d = false -> valid k -> is_object v ->
  wp (map_store k v) s (fun _ s' => sim n (c + 1) (abs_put d k v) s').
Proof.
  intros Hs Hfd Hk Hv. unfold map_store. apply wp_bind. eapply wp_mono; [by apply (wp_sim_add d)|].
  intros r s' (p & e & -> & He & Hd & _ & Hset). by apply Hset.
Qed.

Lemma sim_mono d s c' : sim n c d s -> c <= c' -> sim n c' d s.
Proof. intros [] Hc'. split; [done..|lia|lia]. Qed.

Lemma object_not_null v : is_object v -> (v =? MP_OBJ_NULL) = false.
Proof. intros [? _]. by apply Z.eqb_neq. Qed.

Lemma wp_ensure_not_fixed {A} (m : Mm (result A)) s Q : is_fixed (the_map s) = false ->
  wp m s Q -> wp (ensure_not_fixed m) s Q.
Proof. intros Hf Hd. unfold ensure_not_fixed. apply wp_bind, wp_gets. by rewrite Hf. Qed.

(** The check of a fixed dictionary. *)
Lemma ensure_fixed {A} (m : Mm (result A)) s : is_fixed (the_map s) = true ->
  ensure_not_fixed m s = Some (inl TypeErrorFixed, s).
Proof. intros Hf. unfold ensure_not_fixed, mbind, M_bind, get_map, gets. by rewrite Hf. Qed.

Lemma default_object d : (forall v, d = Some v -> is_object v) -> is_object (default mp_const_none d).
Proof. intros Hd. destruct d as [v|]; [by apply Hd|done]. Qed.

(** Each operation does a step of the abstract one. *)
Definition step_ok (op : dict_op) (d : dict_abs) (s : map_vm) : Prop :=
  wp (run_op op) s (fun r s' => exists d', spec_step op d r d' /\ sim n (c + weight op) d' s').

(** For an operation that is allowed and has one result. *)
Lemma step_fun op d s : (fixed d && changes op = false) -> op <> OpPopitem ->
  wp (run_op op) s (fun r s' => r = (spec_fun op d).1 /\ sim n (c + weight op) (spec_fun op d).2 s') ->
  step_ok op d s.
Proof.
  intros Hch Hop Hwp. unfold step_ok. eapply wp_mono; [exact Hwp|]. intros r s' [-> Hs'].
  exists (spec_fun op d).2. split; [|done]. unfold spec_step. rewrite Hch.
  destruct op; try done; by destruct (spec_fun _ d).
Qed.

(** A change of a fixed dictionary. *)
Lemma step_fixed op d s : sim n c d s -> fixed d = true -> changes op = true -> op_ok op -> step_ok op d s.
Proof.
  intros Hs Hfd Hch Hop. assert (is_fixed (the_map s) = true) as Hfx by by rewrite (sim_fixed _ _ _ _ Hs).
  assert (0 <= weight op) as Hw.
  { destruct op; try done. destruct Hop as [Hop _]. cbn. rewrite (mo_alloc _ _ Hop). lia. }
  unfold step_ok. assert (run_op op s = Some (inl TypeErrorFixed, s)) as Hrun.
  { destruct op; try done; cbn [run_op];
      unfold dict_pop, dict_setdefault, dict_get_helper, dict_subscr, mp_obj_dict_delete, dict_pop, dict_get_helper,
        mp_obj_dict_store, dict_clear, dict_popitem, dict_update;
      cbn [Z.eqb MP_MAP_LOOKUP MP_MAP_LOOKUP_REMOVE_IF_FOUND MP_MAP_LOOKUP_ADD_IF_NOT_FOUND MP_OBJ_NULL Pos.eqb];
      try (unfold mbind, M_bind; by rewrite ensure_fixed).
    destruct Hop as [_ [Hv0 Hv1]]. rewrite (proj2 (Z.eqb_neq _ _) Hv0), (proj2 (Z.eqb_neq _ _) Hv1).
    unfold mbind, M_bind; by rewrite ensure_fixed. }
  unfold wp. rewrite Hrun. exists d. unfold spec_step. rewrite Hfd, Hch. cbn [andb]. split; [done|].
  eapply sim_mono; [done|lia].
Qed.

Lemma step_get d s k v : sim n c d s -> op_ok (OpGet k v) -> step_ok (OpGet k v) d s.
Proof.
  intros Hs [Hk Hv]. apply step_fun; [by rewrite andb_false_r|done|]. cbn [run_op spec_fun fst snd weight].
  apply wp_bind. unfold dict_get, dict_get_helper.
  cbn [Z.eqb MP_MAP_LOOKUP MP_MAP_LOOKUP_REMOVE_IF_FOUND MP_MAP_LOOKUP_ADD_IF_NOT_FOUND].
  apply wp_bind. eapply wp_mono; [by apply (wp_sim_lookup d)|]. intros r s' [Hs' Hr].
  apply (sim_mono _ _ (c + 1)) in Hs'; [|lia].
  destruct (contents d k) as [x|] eqn:Ef.
  - destruct Hr as (p & e & -> & He & Hx).
    assert (is_object x) as Hxo by by eapply (sim_values _ _ _ _ Hs k).
    apply wp_bind, wp_bind, (wp_map_slot _ _ e); [done|]. apply wp_ret.
    rewrite bool_decide_false by done. rewrite Hx, object_not_null by done. cbn [orb].
    apply wp_bind, wp_ret, wp_ret, wp_ret. done.
  - subst r. apply wp_bind, wp_ret. rewrite bool_decide_true by done. cbn [orb].
    destruct v as [x|]; unfold add_default; apply wp_bind, wp_ret, wp_ret, wp_ret; done.
Qed.

Lemma step_load d s k : sim n c d s -> op_ok (OpLoad k) -> step_ok (OpLoad k) d s.
Proof.
  intros Hs Hk. apply step_fun; [by rewrite andb_false_r|done|]. cbn [run_op spec_fun fst snd weight].
  apply wp_bind. unfold dict_subscr. cbn [Z.eqb MP_OBJ_SENTINEL MP_OBJ_NULL Pos.eqb].
  unfold mp_obj_dict_get. apply wp_bind. eapply wp_mono; [by apply (wp_sim_lookup d)|]. intros r s' [Hs' Hr].
  apply (sim_mono _ _ (c + 1)) in Hs'; [|lia]. destruct (contents d k) as [v|].
  - destruct Hr as (p & e & -> & He & Hv). apply wp_bind, (wp_map_slot _ _ e); [done|]. apply wp_ret, wp_ret. by rewrite Hv.
  - subst r. by apply wp_ret, wp_ret.
Qed.

Lemma step_contains d s k : sim n c d s -> op_ok (OpContains k) -> step_ok (OpContains k) d s.
Proof.
  intros Hs Hk. apply step_fun; [by rewrite andb_false_r|done|]. cbn [run_op spec_fun fst snd weight].
  apply wp_bind. unfold dict_contains. apply wp_bind.
  eapply wp_mono; [by apply (wp_sim_lookup d)|]. intros r s' [Hs' Hr].
  apply (sim_mono _ _ (c + 1)) in Hs'; [|lia]. apply wp_ret, wp_ret. destruct (contents d k) as [v|].
  - destruct Hr as (p & e & -> & _). by rewrite bool_decide_true.
  - subst r. by rewrite bool_decide_false by (by intros []).
Qed.

Lemma step_len d s : sim n c d s -> step_ok OpLen d s.
Proof.
  intros Hs. apply step_fun; [by rewrite andb_false_r|done|]. cbn [run_op spec_fun fst snd weight].
  apply wp_bind. unfold mp_obj_dict_len. apply wp_bind, wp_gets, wp_ret, wp_ret.
  rewrite (sim_entries _ _ _ _ Hs). split; [done|]. apply (sim_mono _ _ (c + 1)) in Hs; [done|lia].
Qed.

Lemma step_copy d s : sim n c d s -> step_ok OpCopy d s.
Proof.
  intros Hs. apply step_fun; [by rewrite andb_false_r|done|]. cbn [run_op spec_fun fst snd weight].
  apply wp_bind, wp_modify, wp_ret. split; [done|].
  destruct Hs as [[[Hal Hu Ht Ho Hq] Hca] Hd Hfs Hvs Hes Hus Has].
  split; cbn [on_map the_map mp_obj_dict_copy is_fixed used alloc contents entries fixed]; [|done..|lia|lia].
  split; [by split|done].
Qed.

Lemma step_clear d s : sim n c d s -> fixed d = false -> step_ok OpClear d s.
Proof.
  intros Hs Hfd. apply step_fun; [by rewrite Hfd|done|]. cbn [run_op spec_fun fst snd weight].
  assert (is_fixed (the_map s) = false) as Hfx by by rewrite (sim_fixed _ _ _ _ Hs).
  apply wp_bind. unfold dict_clear. apply wp_ensure_not_fixed; [done|].
  apply wp_bind, wp_modify, wp_ret, wp_ret. split; [done|].
  split; cbn [on_map the_map mp_map_clear is_fixed used alloc contents entries fixed]; try done; try lia.
  split; [|apply (proj2 (sim_ok _ _ _ _ Hs))]. split; try done.
Qed.

Lemma step_store d s k v : sim n c d s -> fixed d = false -> op_ok (OpStore k v) -> step_ok (OpStore k v) d s.
Proof.
  intros Hs Hfd [Hk Hv]. apply step_fun; [by rewrite Hfd|done|]. cbn [run_op spec_fun fst snd weight].
  assert (is_fixed (the_map s) = false) as Hfx by by rewrite (sim_fixed _ _ _ _ Hs).
  apply wp_bind. unfold dict_subscr. pose proof Hv as [Hv0 Hv1].
  rewrite (proj2 (Z.eqb_neq _ _) Hv0), (proj2 (Z.eqb_neq _ _) Hv1).
  apply wp_bind. unfold mp_obj_dict_store. apply wp_ensure_not_fixed; [done|].
  apply wp_bind. eapply wp_mono; [by apply (wp_map_store d)|]. intros [] s' Hs'. by apply wp_ret, wp_ret, wp_ret.
Qed.

(** [pop], for a key that is there and one that is not. *)
Lemma wp_dict_pop d s k v : sim n c d s -> fixed d = false -> valid k ->
  wp (dict_pop k v) s (fun r s' =>
    match contents d k, v with
    | Some x, _ => r = inr x /\ sim n c (abs_del d k) s'
    | None, Some x => r = inr x /\ sim n c d s'
    | None, None => r = inl (KeyError k) /\ sim n c d s'
    end).
Proof.
  intros Hs Hfd Hk. assert (is_fixed (the_map s) = false) as Hfx by by rewrite (sim_fixed _ _ _ _ Hs).
  unfold dict_pop, dict_get_helper.
  cbn [Z.eqb MP_MAP_LOOKUP MP_MAP_LOOKUP_REMOVE_IF_FOUND MP_MAP_LOOKUP_ADD_IF_NOT_FOUND Pos.eqb].
  apply wp_ensure_not_fixed; [done|].
  apply wp_bind. eapply wp_mono; [by apply (wp_sim_remove d)|]. intros r s' Hr.
  destruct (contents d k) as [x|] eqn:Ef.
  - destruct Hr as (p & e & -> & He & Hx & Hset).
    assert (is_object x) as Hxo by by eapply (sim_values _ _ _ _ Hs k).
    apply wp_bind, wp_bind, (wp_map_slot _ _ e); [done|]. apply wp_ret.
    rewrite bool_decide_false by done. rewrite Hx, object_not_null by done. cbn [orb].
    apply wp_bind. eapply wp_mono; [exact Hset|]. intros [] s2 Hs2. by apply wp_ret.
  - destruct Hr as [-> Hs']. apply wp_bind, wp_ret. rewrite bool_decide_true by done. cbn [orb].
    destruct v as [x|]; [unfold add_default; by apply wp_bind, wp_ret, wp_ret|by apply wp_ret].
Qed.

Lemma step_pop d s k v : sim n c d s -> fixed d = false -> op_ok (OpPop k v) -> step_ok (OpPop k v) d s.
Proof.
  intros Hs Hfd [Hk Hv]. apply step_fun; [by rewrite Hfd|done|]. cbn [run_op spec_fun weight].
  apply wp_bind. eapply wp_mono; [by apply (wp_dict_pop d)|]. intros r s' Hr. apply wp_ret.
  destruct (contents d k), v; destruct Hr as [-> Hr]; (split; [done|]); apply (sim_mono _ _ (c + 1)) in Hr; (done || lia).
Qed.

Lemma step_delete d s k : sim n c d s -> fixed d = false -> op_ok (OpDelete k) -> step_ok (OpDelete k) d s.
Proof.
  intros Hs Hfd Hk. apply step_fun; [by rewrite Hfd|done|]. cbn [run_op spec_fun weight].
  apply wp_bind. unfold dict_subscr. cbn [Z.eqb MP_OBJ_NULL]. apply wp_bind. unfold mp_obj_dict_delete.
  apply wp_bind. eapply wp_mono; [by apply (wp_dict_pop d _ k None)|]. intros r s' Hr. apply wp_ret, wp_ret, wp_ret.
  destruct (contents d k); destruct Hr as [-> Hr]; (split; [done|]); apply (sim_mono _ _ (c + 1)) in Hr; (done || lia).
Qed.

Lemma step_setdefault d s k v : sim n c d s -> fixed d = false -> op_ok (OpSetdefault k v) ->
  step_ok (OpSetdefault k v) d s.
Proof.
  intros Hs Hfd [Hk Hv]. apply step_fun; [by rewrite Hfd|done|]. cbn [run_op spec_fun weight].
  assert (is_fixed (the_map s) = false) as Hfx by by rewrite (sim_fixed _ _ _ _ Hs).
  apply wp_bind. unfold dict_setdefault, dict_get_helper.
  cbn [Z.eqb MP_MAP_LOOKUP MP_MAP_LOOKUP_REMOVE_IF_FOUND MP_MAP_LOOKUP_ADD_IF_NOT_FOUND Pos.eqb].
  apply wp_ensure_not_fixed; [done|].
  apply wp_bind. eapply wp_mono; [by apply (wp_sim_add d)|]. intros r s' (p & e & -> & He & Hx & Hsame & Hset).
  apply wp_bind, wp_bind, (wp_map_slot _ _ e); [done|]. apply wp_ret.
  rewrite bool_decide_false by done. cbn [orb]. rewrite Hx. destruct (contents d k) as [x|] eqn:Ef; cbn [default].
  - assert (is_object x) as Hxo by by eapply (sim_values _ _ _ _ Hs k).
    rewrite object_not_null by done. apply wp_bind, wp_ret, wp_ret, wp_ret. split; [done|]. by apply Hsame.
  - cbn [Z.eqb MP_OBJ_NULL].
    assert (wp (add_default (Some p) (default mp_const_none v) MP_MAP_LOOKUP_ADD_IF_NOT_FOUND) s' (fun r s'' =>
      r = inr (default mp_const_none v) /\ sim n (c + 1) (abs_put d k (default mp_const_none v)) s'')) as Hwp.
    { unfold add_default. apply wp_bind. cbn [Z.eqb MP_MAP_LOOKUP_ADD_IF_NOT_FOUND Pos.eqb].
      eapply wp_mono; [by apply Hset, default_object|]. intros [] s2 Hs2. by apply wp_ret. }
    destruct v as [x|]; (eapply wp_mono; [exact Hwp|]); intros r s2 [-> Hs2]; by apply wp_ret.
Qed.

Lemma step_popitem d s : sim n c d s -> fixed d = false -> step_ok OpPopitem d s.
Proof.
  intros Hs Hfd. assert (is_fixed (the_map s) = false) as Hfx by by rewrite (sim_fixed _ _ _ _ Hs).
  unfold step_ok, spec_step. rewrite Hfd. cbn [andb run_op weight]. apply wp_bind. unfold dict_popitem.
  apply wp_ensure_not_fixed; [done|]. apply wp_bind, wp_gets. rewrite <-(sim_entries _ _ _ _ Hs).
  destruct (used (the_map s) =? 0) eqn:Eu; to_prop.
  { apply wp_ret, wp_ret. exists d. split; [done|]. apply (sim_mono _ _ (c + 1)) in Hs; [done|lia]. }
  pose proof (sim_ok _ _ _ _ Hs) as [Hok Hca].
  destruct (popitem_slot (the_map s) Hok Eu) as (p & e & Hit & Hp & He & Hf & Hor). cbv zeta. rewrite Hit.
  destruct (filled_entry _ _ _ Hok He Hf) as [Hk Hfind].
  assert (matches e.1 e.1 = true) as Hm.
  { unfold matches. rewrite Hf. by apply (equal_refl (valid := valid)). }
  destruct (removed_map_ok valid (the_map s) e.1 p e MP_OBJ_SENTINEL Hok Hor Hk Hp He Hm eq_refl) as [Hok1 Hrem];
    [done|].
  destruct Hrem as [_ [_ Hf1]].
  assert (table (removed_map p MP_OBJ_SENTINEL e (the_map s)) !! Z.to_nat p = Some (MP_OBJ_SENTINEL, e.2)) as He1.
  { apply list_lookup_insert_eq. by apply lookup_lt_Some in He. }
  destruct (unfilled_value_ok valid _ p MP_OBJ_NULL _ Hok1 He1 eq_refl) as [Hok2 Hf2].
  apply wp_bind, wp_modify, wp_bind, (wp_map_slot _ _ e); [done|].
  apply wp_bind. unfold set_slot. apply wp_bind, (wp_map_slot _ _ e); [done|]. apply wp_modify, wp_ret, wp_ret.
  exists (abs_del d e.1). split.
  - exists e.1, e.2. split; [|done]. rewrite <-(sim_find _ _ _ _ Hs) by done. exact Hfind.
  - apply (sim_mono _ _ (c + 1)); [|lia].
    apply (sim_removed d s); [done| |..].
    + rewrite <-(sim_find _ _ _ _ Hs), Hfind by done. done.
    + split; [|done]. cbn [on_map the_map set_table set_used].
      unfold valued_map, removed_map, set_table in Hok2. cbn in Hok2. by rewrite list_insert_insert_eq in Hok2.
    + done.
    + done.
    + done.
    + intros k' Hk'. specialize (Hf2 k' Hk'). rewrite Hf1 in Hf2 by done. rewrite <-Hf2.
      unfold find_in, valued_map, removed_map, set_table, set_used. cbn. by rewrite list_insert_insert_eq.
Qed.

End Step.

(** The loop of [dict_update] adds the entries of the other map one by one. *)
Lemma wp_update_from n other fuel : map_ok valid other -> values_ok other -> 0 <= n <= 2 ^ 26 ->
  forall cur c d s, 0 <= cur <= alloc other -> alloc other - cur < Z.of_nat fuel ->
  0 <= c -> c + (alloc other - cur) <= 2 ^ 25 -> sim n c d s -> fixed d = false ->
  wp (update_from other cur fuel) s (fun _ => sim n (c + (alloc other - cur))
    (foldl (fun d e => abs_put d e.1 e.2) d (List.filter is_filled (drop (Z.to_nat cur) (table other))))).
Proof.
  intros Hok Hvs Hn. induction fuel as [|fuel IH]; intros cur c d s Hcur Hfuel Hc Hle Hs Hfd; [lia|].
  cbn [update_from]. pose proof (dict_iter_next_spec other cur Hok ltac:(lia)) as Hspec.
  destruct (dict_iter_next other cur) as [p|].
  - destruct Hspec as (Hp & e & He & Hf & ->). rewrite He. cbn [foldl].
    destruct (filled_entry _ _ _ Hok He Hf) as [Hk _]. pose proof (Hvs _ _ He Hf) as Hv.
    apply wp_bind. eapply wp_mono; [apply (wp_map_store n c Hn ltac:(lia) d s e.1 e.2); done|]. intros [] s1 Hs1.
    eapply wp_mono; [apply (IH (p + 1) (c + 1) (abs_put d e.1 e.2) s1); [lia|lia|lia|lia|exact Hs1|done]|].
    intros [] s2 Hs2. eapply sim_mono; [exact Hs2|lia].
  - rewrite Hspec. apply wp_ret. eapply sim_mono; [exact Hs|lia].
Qed.

Lemma step_update n c d s other : 0 <= n <= 2 ^ 26 -> 0 <= c -> c + weight (OpUpdate other) <= 2 ^ 25 ->
  sim n c d s -> fixed d = false -> op_ok (OpUpdate other) -> step_ok n c (OpUpdate other) d s.
Proof.
  intros Hn Hc Hle Hs Hfd [Hok Hvs]. apply step_fun; [by rewrite Hfd|done|]. cbn [run_op spec_fun fst snd].
  cbn [weight] in *. pose proof (mo_alloc _ _ Hok) as Ha.
  apply wp_bind. unfold dict_update. apply wp_ensure_not_fixed; [by rewrite (sim_fixed _ _ _ _ Hs)|].
  apply wp_bind. eapply wp_mono.
  - by apply (wp_update_from n other _ Hok Hvs Hn 0 c d s); [lia..| |].
  - intros [] s' Hs'. apply wp_ret, wp_ret. rewrite drop_0 in Hs'. split; [done|]. eapply sim_mono; [exact Hs'|lia].
Qed.

Lemma weight_pos op : op_ok op -> 1 <= weight op.
Proof. destruct op; try done. intros [Hok _]. cbn. rewrite (mo_alloc _ _ Hok). lia. Qed.

Lemma wp_run_op n c op d s : 0 <= n <= 2 ^ 26 -> 0 <= c -> c + weight op <= 2 ^ 25 ->
  sim n c d s -> op_ok op -> step_ok n c op d s.
Proof.
  intros Hn Hc Hle Hs Hop. pose proof (weight_pos op Hop). assert (0 <= c <= 2 ^ 25) as Hc' by lia.
  destruct (fixed d && changes op) eqn:Ef.
  { apply andb_true_iff in Ef as [Hfd Hch]. by apply step_fixed. }
  assert (changes op = true -> fixed d = false) as Hfd.
  { intros Hch. rewrite Hch, andb_true_r in Ef. done. }
  destruct op; cbn [changes] in Hfd; [by apply step_get|apply step_pop; auto|apply step_setdefault; auto|by apply step_load
    |apply step_store; auto|apply step_delete; auto|by apply step_contains|by apply step_len|apply step_clear; auto
    |apply step_popitem; auto|apply step_update; auto|by apply step_copy].
Qed.

Lemma wp_run_ops n ops : forall c d s, 0 <= n <= 2 ^ 26 -> 0 <= c -> c + weights ops <= 2 ^ 25 ->
  Forall op_ok ops -> sim n c d s ->
  wp (run_ops ops) s (fun rs s' => exists d', spec_ops ops d rs d' /\ sim n (c + weights ops) d' s').
Proof.
  induction ops as [|op ops IH]; intros c d s Hn Hc Hlen Hops Hs; cbn [run_ops spec_ops weights foldr] in *.
  - apply wp_ret. exists d. split; [done|]. by rewrite Z.add_0_r.
  - apply Forall_cons in Hops as [Hop Hops]. fold (weights ops) in *. pose proof (weight_pos op Hop).
    assert (0 <= weights ops) as Hw.
    { clear -Hops KL. induction Hops as [|op ops Hop _ IH]; [done|]. cbn. fold (weights ops).
      pose proof (weight_pos op Hop). lia. }
    apply wp_bind. eapply wp_mono; [by apply (wp_run_op n c op d s); [|lia|lia|..]|].
    intros r s1 (d1 & Hst & Hs1). apply wp_bind.
    eapply wp_mono; [apply (IH (c + weight op) d1 s1); [lia|lia|lia|done|done]|].
    intros rs s2 (d2 & Hops2 & Hs2). apply wp_ret. exists d2. split; [by exists r, d1, rs|].
    by rewrite Z.add_assoc.
Qed.

End Sim.

(** ** Small integers and interned strings as keys

    For these keys [mp_obj_equal] compares the words and the hash of a small
    integer is the integer itself ([py/runtime.c], [mp_unary_op]); the hash of
    an interned string is read from the pool, here a function of its number. *)
Definition word_ops : KeyOps := {|
  mp_obj_equal := Z.eqb; is_exact_str := fun _ => false;
  qstr_hash := fun q => 33 * q; unary_op_hash := fun o => o |}.

Definition word_key (k : Z) : Prop :=
  0 <= k < 2 ^ 32 /\ (mp_obj_is_small_int k = true \/ mp_obj_is_qstr k = true).

Lemma word_laws : KeyLaws (H := word_ops) word_key.
Proof.
  split.
  - intros k [_ Hk]. split; intros ->; by destruct Hk.
  - intros k _. apply Z.eqb_refl.
  - intros a b _ _ ->%Z.eqb_eq. apply Z.eqb_refl.
  - intros a b c _ _ _ ->%Z.eqb_eq ->%Z.eqb_eq. apply Z.eqb_refl.
  - intros a b _ _ ->%Z.eqb_eq. done.
  - intros a b _ _ ->%Z.eqb_eq. done.
  - intros a b _ _ _ ->%Z.eqb_eq. by left.
Qed.

(** C6: [mp_map_lookup], for each of the three kinds of lookup, on a hash table
    or an ordered array: the call ends within the table, keeps the invariant,
    and finds, adds or removes exactly the entry of the key, growing the table
    only when it is full; the contents of the lookup cache make no difference. *)
Theorem mp_map_lookup_correct (ops : KeyOps) (valid : Z -> Prop) (laws : KeyLaws valid) s k kind :
  state_ok valid s -> valid k ->
  kind = MP_MAP_LOOKUP \/ kind = MP_MAP_LOOKUP_ADD_IF_NOT_FOUND \/ kind = MP_MAP_LOOKUP_REMOVE_IF_FOUND ->
  (is_fixed (the_map s) = true -> kind = MP_MAP_LOOKUP) -> alloc (the_map s) <= 2 ^ 26 ->
  exists r s', mp_map_lookup k kind s = Some (r, s') /\ state_ok valid s' /\
    lookup_post valid (the_map s) (the_map s') k kind r.
Proof.
  intros Hs Hk Hkind Hfix Ha. apply run_value, wp_mp_map_lookup; [done..|]. intros _.
  pose proof (used_le_alloc _ _ (proj1 Hs)).
  pose proof (find_size_le (alloc (the_map s)) ltac:(lia)). unfold MAX_ENTRIES. lia.
Qed.

Theorem mp_map_lookup_correct_witness : exists r s',
  mp_map_lookup (H := word_ops) 11 MP_MAP_LOOKUP_ADD_IF_NOT_FOUND (fresh 2 (replicate 128 7)) = Some (r, s') /\
  state_ok (H := word_ops) word_key s' /\
  lookup_post (H := word_ops) word_key (mp_map_init 2) (the_map s') 11 MP_MAP_LOOKUP_ADD_IF_NOT_FOUND r.
Proof.
  apply (mp_map_lookup_correct word_ops word_key word_laws (fresh 2 (replicate 128 7)) 11); [|split; [done|by left]|by right; left|done|done].
  split; [|reflexivity]. split; [reflexivity|reflexivity|apply (table_ok_empty (H := word_ops) word_key (index_hash (H := word_ops)) 2)|done|].
  intros _ p k Hp Hk Hf. unfold key_at in Hk. change (keys (table (the_map (fresh 2 (replicate 128 7))))) with (replicate 2 MP_OBJ_NULL) in Hk.
  apply lookup_replicate in Hk as [-> _]. discriminate.
Defined.

(** A dictionary in ROM without entries ([mp_const_empty_dict_obj]). *)
Definition mp_const_empty_dict : mp_map_t := MkMap false true true 0 0 [].

(** The hypotheses of the property for two dictionaries. *)
Lemma empty_dict_ok : dict_ok (H := word_ops) word_key (MkVm mp_const_empty_dict (replicate 128 0)).
Proof.
  split; [split; [split|done]|]; done.
Qed.

Lemma word_key_ok k : 0 <= k < 2 ^ 32 -> mp_obj_is_small_int k || mp_obj_is_qstr k = true -> word_key k.
Proof. intros Hk1 Hk2. split; [done|]. by apply orb_true_iff. Qed.

Definition sample_ops : list dict_op :=
  [OpStore 11 100; OpStore 13 101; OpStore 10 102; OpPop 11 None; OpGet 11 (Some 7); OpLoad 13;
   OpSetdefault 15 None; OpContains 10; OpPop 21 None; OpDelete 13; OpPopitem; OpLen;
   OpUpdate mp_const_empty_dict; OpClear; OpPopitem].

(** On the ROM dictionary: refused, read, refused, copied, accepted. *)
Definition sample_fixed_ops : list dict_op :=
  [OpStore 11 100; OpGet 11 None; OpClear; OpPopitem; OpCopy; OpStore 11 100; OpLen].

Lemma sample_ops_ok : Forall (op_ok (H := word_ops) word_key) (sample_ops ++ sample_fixed_ops).
Proof.
  apply Forall_forall. intros op Hop. apply list_elem_of_In in Hop.
  repeat (destruct Hop as [<-|Hop]; [first [split; [by apply word_key_ok|first [done|intros v [= <-]; done]]|
    by apply word_key_ok|exact I|split; [apply empty_dict_ok|by intros [] ? ?]]|]).
  destruct Hop.
Qed.

(** C2: A dictionary behaves as a partial function on keys up to equality.  From
    any well-formed dictionary (new or not, ordered or not, in RAM or fixed in
    ROM) any sequence of [get], [pop], [setdefault], subscript load, store and
    deletion, [in], [len], [clear], [popitem], [update] with another dictionary
    and [copy] gives, operation by operation, the results of the abstract
    dictionary and reaches its contents, and leaves a well-formed dictionary:
    a [KeyError] for a missing key or an empty [popitem], and a [TypeError],
    with nothing changed, for every changing operation on a fixed dictionary,
    which [copy] makes changeable again.  [popitem] returns some item and
    removes it (which one the abstract dictionary does not say).  The keys are
    hashable objects that meet the contract of equality and hashing. *)
Theorem dict_refines_function (ops : KeyOps) (valid : Z -> Prop) (laws : KeyLaws valid) s todo :
  dict_ok valid s -> alloc (the_map s) <= 2 ^ 26 -> used (the_map s) + weights todo <= 2 ^ 25 ->
  Forall (op_ok valid) todo ->
  exists rs s' d', run_ops todo s = Some (rs, s') /\ dict_ok valid s' /\
    spec_ops todo (abstract (the_map s)) rs d' /\
    used (the_map s') = entries d' /\ is_fixed (the_map s') = fixed d' /\
    forall k, valid k -> find_in (the_map s') k = contents d' k.
Proof.
  intros Hs Ha Hw Hops. pose proof (used_le_alloc _ _ (proj1 (proj1 Hs))) as Hu.
  destruct (run_value (run_ops todo) s _
    (wp_run_ops valid (alloc (the_map s)) todo (used (the_map s)) (abstract (the_map s)) s
      ltac:(lia) ltac:(lia) ltac:(lia) Hops (sim_start valid s Hs)))
    as (rs & s' & Hrun & d' & Hspec & Hsim).
  exists rs, s', d'. split; [done|]. split; [split; [apply Hsim|by eapply sim_values_ok]|]. split; [done|].
  split; [apply Hsim|]. split; [apply Hsim|]. apply (sim_find _ _ _ _ _ Hsim).
Qed.

Theorem dict_refines_function_witness :
  (exists rs s' d', run_ops (H := word_ops) sample_ops (fresh 0 (replicate 128 0)) = Some (rs, s') /\
    dict_ok (H := word_ops) word_key s' /\
    spec_ops (H := word_ops) sample_ops (abstract (H := word_ops) (mp_map_init 0)) rs d' /\
    used (the_map s') = entries d' /\ is_fixed (the_map s') = fixed d' /\
    forall k, word_key k -> find_in (H := word_ops) (the_map s') k = contents d' k) /\
  (exists rs s' d', run_ops (H := word_ops) sample_fixed_ops (MkVm mp_const_empty_dict (replicate 128 0)) = Some (rs, s') /\
    dict_ok (H := word_ops) word_key s' /\
    spec_ops (H := word_ops) sample_fixed_ops (abstract (H := word_ops) mp_const_empty_dict) rs d' /\
    used (the_map s') = entries d' /\ is_fixed (the_map s') = fixed d' /\
    forall k, word_key k -> find_in (H := word_ops) (the_map s') k = contents d' k).
Proof.
  pose proof (proj1 (Forall_app _ _ _) sample_ops_ok) as [Hops Hfixed]. split.
  - by apply (dict_refines_function word_ops word_key word_laws (fresh 0 (replicate 128 0)));
      [apply (fresh_ok (H := word_ops) word_key)|..].
  - by apply (dict_refines_function word_ops word_key word_laws (MkVm mp_const_empty_dict (replicate 128 0)));
      [apply empty_dict_ok|..].
Defined.
