(* ===== verification/ObjSet.v ===== *)
(** * The set type of the run time ([py/map.c])

    [mp_set_t] is an open-addressed table of objects, searched by the same loop
    as the maps.  [lookup_kind] is a bit mask here.  Behind the operations is what
    they do to a set of keys. *)
From S2P Require Import Prelude.
From S2P Require Import CMem.
From S2P Require Import Probing.
From S2P Require Import ObjMap.
From S2P Require Import ObjMapFacts.
From S2P Require Import ObjDictProps.
Local Open Scope Z_scope.

Record mp_set_t := MkSet { set_alloc : Z; set_used : Z; set_table : list Z }.

(** [m_new0(mp_obj_t, n)], see [ObjMap.MAX_ENTRIES]. *)
Definition objects0 (n : Z) : list Z := replicate (Z.to_nat n) MP_OBJ_NULL.

Definition mp_set_init (n : Z) : mp_set_t := MkSet n 0 (objects0 n).
Definition mp_set_clear (s : mp_set_t) : mp_set_t := MkSet 0 0 [].

Section Set_.
Context `{KeyOps}.

Definition Ms : Type -> Type := M mp_set_t.

Definition get_set_alloc : Ms Z := gets set_alloc.
Definition set_elem (pos : Z) : Ms Z := fun s => e ← set_table s !! Z.to_nat pos; Some (e, s).
Definition put_elem (pos x : Z) : Ms unit :=
  _ ← set_elem pos;
  modify (fun s => MkSet (set_alloc s) (set_used s) (<[Z.to_nat pos := x]> (set_table s))).
Definition add_used (d : Z) : Ms unit :=
  modify (fun s => MkSet (set_alloc s) (set_used s + d) (set_table s)).

Definition has_bit (kind b : Z) : bool := negb (Z.land kind b =? 0).

(** "delete element": the slot is cleared, or marked when the next is in use. *)
Definition delete_elem (pos : Z) : Ms unit :=
  add_used (-1);;
  n ← get_set_alloc;
  nk ← set_elem ((pos + 1) `mod` n);
  put_elem pos (if nk =? MP_OBJ_NULL then MP_OBJ_NULL else MP_OBJ_SENTINEL).

Definition set_add (index a : Z) : Ms Z := add_used 1;; put_elem a index;; mret index.

Definition set_found (kind pos : Z) : Ms Z :=
  elem ← set_elem pos;
  (if has_bit kind MP_MAP_LOOKUP_REMOVE_IF_FOUND then delete_elem pos else mret tt);;
  mret elem.

Definition mp_set_rehash (lookup : Z -> Z -> Ms Z) : Ms unit :=
  s ← get;
  let new_alloc := get_hash_alloc_greater_or_equal_to (set_alloc s + 1) in
  assert_ (new_alloc <=? MAX_ENTRIES);;
  put (MkSet new_alloc 0 (objects0 new_alloc));;
  foldr (fun x rest =>
    (if filled x then _ ← lookup x MP_MAP_LOOKUP_ADD_IF_NOT_FOUND; mret tt else mret tt);;
    rest) (mret tt) (set_table s).

Fixpoint set_lookup_depth (depth : nat) (index kind : Z) : Ms Z :=
  match depth with
  | O => stuck
  | S depth =>
      n ← get_set_alloc;
      if (n =? 0) && negb (has_bit kind MP_MAP_LOOKUP_ADD_IF_NOT_FOUND) then mret MP_OBJ_NULL
      else
        (if n =? 0 then mp_set_rehash (set_lookup_depth depth) else mret tt);;
        n ← get_set_alloc;
        probe get_set_alloc set_elem (fun elem => mp_obj_equal elem index)
          (has_bit kind MP_MAP_LOOKUP_ADD_IF_NOT_FOUND)
          (set_found kind) (set_add index) MP_OBJ_NULL
          (mp_set_rehash (set_lookup_depth depth)) (object_hash index) (probe_fuel n)
  end.

(** The element found or added, or [MP_OBJ_NULL]. *)
Definition mp_set_lookup (index kind : Z) : Ms Z := set_lookup_depth 2 index kind.

Definition mp_set_slot_is_filled (s : mp_set_t) (pos : Z) : bool :=
  match set_table s !! Z.to_nat pos with
  | Some e => negb (e =? MP_OBJ_NULL) && negb (e =? MP_OBJ_SENTINEL)
  | None => false
  end.

Fixpoint remove_first_from (pos : Z) (fuel : nat) : Ms Z :=
  match fuel with
  | O => mret MP_OBJ_NULL
  | S fuel =>
      s ← get;
      if mp_set_slot_is_filled s pos then
        elem ← set_elem pos;
        delete_elem pos;;
        mret elem
      else remove_first_from (pos + 1) fuel
  end.

Definition mp_set_remove_first : Ms Z :=
  n ← get_set_alloc; remove_first_from 0 (Z.to_nat n).

End Set_.

(** ** Correctness of the sets of [py/map.c]

    A set represents the collection of its elements up to equality of objects
    ([set_mem]).  Lookup, insertion and removal are shown against that
    collection, as is [mp_set_remove_first]. *)

Section SetFacts.
Context `{KeyOps} (valid : Z -> Prop) `{KL : !KeyLaws valid}.

Definition set_mem (t : list Z) (k : Z) : bool := existsb (matches k) t.

(** The lemmas on map tables are used with all values zero. *)
Definition as_entries (t : list Z) : list mp_map_elem_t := (fun x => (x, 0)) <$> t.
Definition set_count (t : list Z) : Z := count (as_entries t).

Record set_ok (s : mp_set_t) : Prop := {
  so_alloc : set_alloc s = Z.of_nat (length (set_table s));
  so_used : set_used s = set_count (set_table s);
  so_table : table_ok valid object_hash (set_table s) }.

Lemma keys_as_entries t : keys (as_entries t) = t.
Proof. unfold keys, as_entries. rewrite <-list_fmap_compose. apply list_fmap_id. Qed.

Lemma as_entries_insert t p x : as_entries (<[p:=x]> t) = <[p:=(x, 0)]> (as_entries t).
Proof. unfold as_entries. by rewrite (list_fmap_insert (fun x : Z => (x, 0))). Qed.

Lemma as_entries_lookup t p x : t !! p = Some x -> as_entries t !! p = Some (x, 0).
Proof. intros Hx. unfold as_entries. by rewrite list_lookup_fmap, Hx. Qed.

Lemma as_entries_length t : length (as_entries t) = length t.
Proof. apply length_fmap. Qed.

Lemma set_mem_find t k : set_mem t k = match map_find (as_entries t) k with Some _ => true | None => false end.
Proof.
  unfold set_mem, map_find, as_entries. induction t as [|x t IH]; [done|]. cbn. by destruct (matches k x).
Qed.

Lemma set_mem_present t k : set_mem t k = true <-> present t k.
Proof.
  rewrite set_mem_find. rewrite <-(keys_as_entries t) at 2. rewrite map_find_present.
  by destruct (map_find (as_entries t) k).
Qed.

Lemma set_mem_absent t k : set_mem t k = false <-> ~ present t k.
Proof. rewrite <-set_mem_present. by destruct (set_mem t k). Qed.

Lemma set_count_insert t p x o : t !! p = Some o ->
  set_count (<[p:=x]> t) = set_count t - zbool (filled o) + zbool (filled x).
Proof.
  intros Ho. unfold set_count. rewrite as_entries_insert.
  rewrite (count_insert _ _ _ _ (as_entries_lookup _ _ _ Ho)). done.
Qed.

Lemma set_mem_insert t p x o k : table_ok valid object_hash t -> table_ok valid object_hash (<[p:=x]> t) ->
  t !! p = Some o -> valid k ->
  set_mem (<[p:=x]> t) k = matches k x || (set_mem t k && negb (matches k o)).
Proof.
  intros Hok Hok' Ho Hk. rewrite !set_mem_find, as_entries_insert.
  rewrite (map_find_insert valid object_hash object_hash _ _ _ (o, 0) k); cbn [fst snd];
    [|by rewrite keys_as_entries|by rewrite <-as_entries_insert, keys_as_entries|by apply as_entries_lookup|done].
  destruct (matches k x); [done|]. destruct (matches k o); [by rewrite andb_false_r|]. by rewrite andb_true_r.
Qed.

Lemma set_mem_equal t k k' : table_ok valid object_hash t -> valid k -> valid k' -> mp_obj_equal k k' = true ->
  set_mem t k = set_mem t k'.
Proof.
  intros Hok Hk Hk' He. rewrite !set_mem_find.
  by rewrite (map_find_equal valid object_hash _ k k'); [|by rewrite keys_as_entries|..].
Qed.

Lemma matches_of_equal k e k' : valid k -> valid e -> valid k' -> matches k e = true -> matches k' e = mp_obj_equal k k'.
Proof.
  intros Hk Hv Hk' Hm. apply matches_filled in Hm as [Hf Heq]. unfold matches. rewrite Hf. cbn.
  destruct (mp_obj_equal e k') eqn:E, (mp_obj_equal k k') eqn:E2; try done; exfalso.
  - assert (mp_obj_equal k k' = true); [|congruence]. apply (equal_trans (valid := valid) k e k'); [done..| |done].
    by apply (equal_sym (valid := valid)).
  - assert (mp_obj_equal e k' = true); [|congruence]. by apply (equal_trans (valid := valid) e k k').
Qed.

Lemma set_used_le s : set_ok s -> 0 <= set_used s <= set_alloc s.
Proof.
  intros Hok. rewrite (so_used _ Hok), (so_alloc _ Hok). unfold set_count. split; [unfold count; lia|].
  pose proof (count_le (as_entries (set_table s))). by rewrite as_entries_length in *.
Qed.

(** ** The actions at the end of a search *)

Definition set_added (s s' : mp_set_t) (k : Z) : Prop :=
  set_used s' = set_used s + 1 /\
  (set_used s < set_alloc s -> set_alloc s' = set_alloc s) /\
  set_alloc s' <= Z.max (set_alloc s) (2 * set_used s + 4) /\
  forall k', valid k' -> set_mem (set_table s') k' = mp_obj_equal k k' || set_mem (set_table s) k'.

Definition set_removed (s s' : mp_set_t) (k : Z) : Prop :=
  set_used s' = set_used s - 1 /\ set_alloc s' = set_alloc s /\
  forall k', valid k' -> set_mem (set_table s') k' = negb (mp_obj_equal k k') && set_mem (set_table s) k'.

(** What [mp_set_lookup] does and returns. *)
Definition set_post (s s' : mp_set_t) (k kind r : Z) : Prop :=
  if set_mem (set_table s) k then
    r ∈ set_table s /\ matches k r = true /\
    (if has_bit kind MP_MAP_LOOKUP_REMOVE_IF_FOUND then set_removed s s' k else s' = s)
  else if has_bit kind MP_MAP_LOOKUP_ADD_IF_NOT_FOUND then r = k /\ set_added s s' k
  else r = MP_OBJ_NULL /\ s' = s.

Definition set_finds (s : mp_set_t) (k kind : Z) (r : Z) (s' : mp_set_t) : Prop :=
  set_ok s' /\ set_post s s' k kind r.

Lemma set_elem_run s p x : key_at (set_table s) p = Some x -> set_elem p s = Some (x, s).
Proof. intros Hx. unfold set_elem. unfold key_at in Hx. by rewrite Hx. Qed.

Lemma wp_set_elem s p x Q : key_at (set_table s) p = Some x -> Q x s -> wp (set_elem p) s Q.
Proof. intros Hx HQ. unfold wp. by rewrite (set_elem_run _ _ _ Hx). Qed.

(** Deleting the element at [p], which is the one equal to [k]. *)
Lemma wp_delete_elem s p e k Q : set_ok s -> valid k -> 0 <= p -> key_at (set_table s) p = Some e ->
  matches k e = true -> (forall s', set_ok s' -> set_removed s s' k -> Q tt s') -> wp (delete_elem p) s Q.
Proof.
  intros Hok Hk Hp He Hm HQ. pose proof (key_at_range _ _ _ Hp He) as Hr.
  pose proof (matches_filled _ _ Hm) as [Hf _]. unfold delete_elem.
  apply wp_bind, wp_modify, wp_bind, wp_gets. cbn [set_alloc]. rewrite (so_alloc _ Hok).
  pose proof (Z.mod_pos_bound (p + 1) (Z.of_nat (length (set_table s))) ltac:(lia)) as Hq.
  destruct (key_at_Some (set_table s) ((p + 1) `mod` Z.of_nat (length (set_table s))) Hq) as [nk Hnk].
  apply wp_bind, (wp_set_elem _ _ nk); [done|]. unfold put_elem.
  apply wp_bind, (wp_set_elem _ _ e); [done|]. apply wp_modify.
  set (x := if nk =? MP_OBJ_NULL then MP_OBJ_NULL else MP_OBJ_SENTINEL). cbn [set_alloc set_used set_table].
  assert (filled x = false) as Hx by (unfold x; by destruct (_ =? _)).
  assert (table_ok valid object_hash (<[Z.to_nat p := x]> (set_table s))) as Htab.
  { apply (table_ok_delete valid object_hash); [apply Hok|done|done|]. unfold x, next_pos.
    destruct (nk =? _) eqn:En; [|done]. to_prop. by subst nk. }
  assert (valid e) as Hv by by apply (tk_valid _ _ _ (so_table _ Hok) p).
  rewrite <-(so_alloc _ Hok). apply HQ.
  - split; cbn [set_alloc set_used set_table]; [by rewrite length_insert, (so_alloc _ Hok)| |done].
    rewrite (set_count_insert _ _ _ _ He), (so_used _ Hok), Hf, Hx. cbn. lia.
  - split; [cbn; lia|]. split; [done|]. intros k' Hk'. cbn [set_table].
    rewrite (set_mem_insert _ _ _ _ _ (so_table _ Hok) Htab He Hk').
    unfold matches at 1. rewrite Hx. cbn [andb orb]. rewrite (matches_of_equal k e k') by done. apply andb_comm.
Qed.

Lemma wp_set_found s k kind p e : set_ok s -> valid k -> 0 <= p -> key_at (set_table s) p = Some e ->
  matches k e = true -> wp (set_found kind p) s (set_finds s k kind).
Proof.
  intros Hok Hk Hp He Hm. unfold set_found, set_finds, set_post.
  assert (set_mem (set_table s) k = true) as -> by (apply set_mem_present; by exists p, e).
  assert (e ∈ set_table s) as Hin by (by eapply list_elem_of_lookup_2).
  apply wp_bind, (wp_set_elem _ _ e); [done|]. apply wp_bind. destruct (has_bit kind _).
  - apply (wp_delete_elem _ _ e k); [done..|]. intros s' Hs' Hrem. by apply wp_ret.
  - by apply wp_ret, wp_ret.
Qed.

Lemma wp_set_add s k kind a : set_ok s -> valid k -> has_bit kind MP_MAP_LOOKUP_ADD_IF_NOT_FOUND = true ->
  ~ present (set_table s) k -> insertable object_hash (set_table s) k a ->
  wp (set_add k a) s (set_finds s k kind).
Proof.
  intros Hok Hk Hkind Habs Hins. pose proof Hins as (Ha & (k0 & Hk0 & Hf0) & _).
  assert (table_ok valid object_hash (<[Z.to_nat a := k]> (set_table s))) as Htab.
  { apply (table_ok_insert valid object_hash); [apply Hok|done..]. }
  unfold set_add, set_finds, set_post. rewrite (proj2 (set_mem_absent _ _) Habs), Hkind.
  apply wp_bind, wp_modify, wp_bind. unfold put_elem.
  apply wp_bind, (wp_set_elem _ _ k0); [done|]. apply wp_modify, wp_ret. cbn [set_alloc set_used set_table].
  split; [|split; [done|]].
  - split; cbn [set_alloc set_used set_table]; [by rewrite length_insert, (so_alloc _ Hok)| |done].
    rewrite (set_count_insert _ _ _ _ Hk0), (so_used _ Hok), Hf0, (filled_valid valid k) by done. cbn. lia.
  - split; [done|]. split; [done|]. split; [cbn; lia|]. intros k' Hk'. cbn [set_table].
    rewrite (set_mem_insert _ _ _ _ _ (so_table _ Hok) Htab Hk0 Hk').
    unfold matches at 1. rewrite (filled_valid valid k) by done. cbn [andb]. f_equal.
    unfold matches. rewrite Hf0. apply andb_true_r.
Qed.

(** ** The search, rehashing, and the whole lookup *)

Definition set_rehashed (s s' : mp_set_t) : Prop :=
  set_used s' = set_used s /\ set_alloc s' = get_hash_alloc_greater_or_equal_to (set_alloc s + 1) /\
  forall k, valid k -> set_mem (set_table s') k = set_mem (set_table s) k.

Definition set_rehashes (rehash : Ms unit) (s : mp_set_t) : Prop :=
  wp rehash s (fun _ s' => set_ok s' /\ set_rehashed s s').

Definition search (rehash : Ms unit) (k kind : Z) : nat -> Ms Z :=
  probe get_set_alloc set_elem (fun elem => mp_obj_equal elem k) (has_bit kind MP_MAP_LOOKUP_ADD_IF_NOT_FOUND)
    (set_found kind) (set_add k) MP_OBJ_NULL rehash (object_hash k).

Lemma wp_set_search rehash s k kind fuel : set_ok s -> valid k -> 0 < set_alloc s ->
  (has_bit kind MP_MAP_LOOKUP_ADD_IF_NOT_FOUND = true -> set_mem (set_table s) k = false ->
     set_used s = set_alloc s -> wp (_ ← rehash; search rehash k kind fuel) s (set_finds s k kind)) ->
  wp (search rehash k kind (length (set_table s) + fuel)%nat) s (set_finds s k kind).
Proof.
  intros Hok Hk Ha Hfull. pose proof (so_alloc _ Hok) as Hal. unfold search.
  apply (wp_probe valid object_hash); [by apply (equal_object_hash (valid := valid))|apply Hok|done|lia|..].
  - unfold get_set_alloc, gets. by rewrite Hal.
  - intros p x _ Hx. by apply set_elem_run.
  - done.
  - intros p x Hp Hx Hm. by apply (wp_set_found _ _ _ _ x).
  - intros p Hadd Habs Hins. by apply wp_set_add.
  - intros Hna Habs. unfold set_finds, set_post. by rewrite (proj2 (set_mem_absent _ _) Habs), Hna.
  - intros Hadd Habs Hall. apply Hfull; [done|by apply set_mem_absent|].
    rewrite Hal, (so_used _ Hok). unfold set_count. rewrite <-as_entries_length. apply count_full.
    by rewrite keys_as_entries.
Qed.

Lemma set_room rehash s k kind fuel : set_ok s -> valid k -> set_used s < set_alloc s ->
  (length (set_table s) <= fuel)%nat -> wp (search rehash k kind fuel) s (set_finds s k kind).
Proof.
  intros Hok Hk Hr Hf. pose proof (set_used_le _ Hok).
  replace fuel with (length (set_table s) + (fuel - length (set_table s)))%nat by lia.
  apply wp_set_search; [done|done|lia|lia].
Qed.

Lemma set_finds_rehashed s s1 s2 k kind r : set_ok s -> set_used s = set_alloc s ->
  has_bit kind MP_MAP_LOOKUP_ADD_IF_NOT_FOUND = true -> valid k -> set_mem (set_table s) k = false ->
  set_rehashed s s1 -> set_finds s1 k kind r s2 -> set_finds s k kind r s2.
Proof.
  intros Hok Hu Hkind Hk Hn (Hu1 & Ha1 & Hm1) [Hok2 Hp]. pose proof (set_used_le _ Hok).
  pose proof (find_size_le (set_alloc s) ltac:(lia)). pose proof (find_size_ge (set_alloc s + 1)).
  unfold set_finds, set_post in *. rewrite (Hm1 k Hk), Hn, Hkind in Hp. rewrite Hn, Hkind.
  destruct Hp as (Hr & Hus & Hal & Hal2 & Hm). split; [done|]. split; [done|]. split; [lia|]. split; [lia|].
  split; [lia|]. intros k' Hk'. by rewrite Hm, Hm1.
Qed.

Lemma wp_set_lookup_step d s k kind : set_ok s -> valid k ->
  (has_bit kind MP_MAP_LOOKUP_ADD_IF_NOT_FOUND = true -> set_used s = set_alloc s ->
     set_rehashes (mp_set_rehash (set_lookup_depth d)) s) ->
  wp (set_lookup_depth (S d) k kind) s (set_finds s k kind).
Proof.
  intros Hok Hk Hre. pose proof (set_used_le _ Hok) as Hul. pose proof (so_alloc _ Hok) as Hal.
  pose proof (find_size_ge (set_alloc s + 1)) as Hg.
  cbn [set_lookup_depth]. apply wp_bind, wp_gets. fold (search (mp_set_rehash (set_lookup_depth d)) k kind).
  destruct (set_alloc s =? 0) eqn:Ez; to_prop; cbn [andb].
  - assert (set_mem (set_table s) k = false) as Hn by (destruct (set_table s); [done|cbn in Hal; lia]).
    destruct (has_bit kind _) eqn:Ek; cbn [negb].
    + apply wp_bind. eapply wp_mono; [apply Hre; [done|lia]|]. intros [] s1 [Hok1 Hre1].
      pose proof Hre1 as (Hu1 & Ha1 & _). pose proof (so_alloc _ Hok1) as Hal1.
      apply wp_bind, wp_gets. eapply wp_mono; [apply set_room; [done|done|lia|unfold probe_fuel; lia]|].
      intros r s2. apply set_finds_rehashed; done || lia.
    + apply wp_ret. unfold set_finds, set_post. by rewrite Hn, Ek.
  - apply wp_bind, wp_ret, wp_bind, wp_gets. unfold probe_fuel.
    replace (Z.to_nat (set_alloc s)) with (length (set_table s)) by lia.
    apply wp_set_search; [done|done|lia|]. intros Hadd Hn Hfull.
    apply wp_bind. eapply wp_mono; [by apply Hre|]. intros [] s1 [Hok1 Hre1].
    pose proof Hre1 as (Hu1 & Ha1 & _). pose proof (so_alloc _ Hok1) as Hal1.
    eapply wp_mono; [apply set_room; [done|done|lia|lia]|].
    intros r s2. apply set_finds_rehashed; done || lia.
Qed.

Section SetRehash.
Context (d : nat) (s0 : mp_set_t) (Hok0 : set_ok s0) (new_alloc : Z) (Hnew : set_alloc s0 < new_alloc).

Definition set_refilled (done : list Z) (s : mp_set_t) : Prop :=
  set_ok s /\ set_alloc s = new_alloc /\ set_used s = set_count done /\
  forall k, valid k -> set_mem (set_table s) k = set_mem done k.

Lemma set_count_snoc l x : set_count (l ++ [x]) = set_count l + zbool (filled x).
Proof.
  unfold set_count, as_entries. rewrite fmap_app, count_app. cbn. rewrite count_cons.
  change (count []) with 0. cbn [fst]. lia.
Qed.

Lemma set_mem_snoc l x k : set_mem (l ++ [x]) k = set_mem l k || matches k x.
Proof. unfold set_mem. rewrite existsb_app. cbn. by rewrite orb_false_r. Qed.

Lemma wp_set_refill todo : forall before s, set_table s0 = before ++ todo -> set_refilled before s ->
  wp (foldr (fun x rest =>
    (if filled x then _ ← set_lookup_depth (S d) x MP_MAP_LOOKUP_ADD_IF_NOT_FOUND; mret tt else mret tt);;
    rest) (mret tt) todo) s (fun _ => set_refilled (set_table s0)).
Proof.
  induction todo as [|x todo IH]; intros before s Ht (Hok & Ha & Hu & Hm); cbn [foldr].
  - apply wp_ret. by rewrite Ht, app_nil_r.
  - apply wp_bind. assert (set_table s0 = (before ++ [x]) ++ todo) as Ht' by by rewrite <-app_assoc.
    destruct (filled x) eqn:Hf.
    + assert (set_table s0 !! length before = Some x) as Hx by (rewrite Ht; by apply list_lookup_middle).
      assert (valid x) as Hv.
      { apply (tk_valid _ _ _ (so_table _ Hok0) (Z.of_nat (length before))); [lia| |done].
        unfold key_at. by rewrite Nat2Z.id. }
      assert (set_mem before x = false) as Hn.
      { apply not_true_is_false. intros Hin%set_mem_present. destruct Hin as (q & x' & Hq & Hx' & Hmx).
        unfold key_at in Hx'. pose proof (lookup_lt_Some _ _ _ Hx') as Hlt.
        assert (q = Z.of_nat (length before)); [|lia].
        assert (Z.of_nat (length before) = q); [|done].
        apply (tk_distinct _ _ _ (so_table _ Hok0) _ _ x x'); [lia|done| | |done|done]; unfold key_at.
        - by rewrite Nat2Z.id.
        - rewrite Ht. by rewrite lookup_app_l. }
      assert (set_count before < set_alloc s) as Hroom.
      { pose proof (set_used_le _ Hok0) as Hle. rewrite (so_used _ Hok0), Ht' in Hle.
        unfold set_count, as_entries in Hle. rewrite fmap_app, count_app in Hle.
        assert (0 <= count ((fun x => (x, 0)) <$> todo)) by (unfold count; lia).
        fold (as_entries (before ++ [x])) in Hle. fold (set_count (before ++ [x])) in Hle.
        rewrite set_count_snoc, Hf in Hle. cbn in Hle. lia. }
      apply wp_bind. eapply wp_mono; [apply (wp_set_lookup_step d s); [done|done|lia]|].
      intros r s1 [Hok1 Hp]. unfold set_post in Hp. rewrite Hm, Hn in Hp by done. cbn in Hp.
      destruct Hp as (_ & Hu1 & Ha1 & _ & Hm1). apply wp_ret. apply (IH (before ++ [x])); [done|].
      split; [done|]. split; [rewrite <-Ha; apply Ha1; lia|]. split.
      * rewrite set_count_snoc, Hf. cbn. lia.
      * intros k Hk. rewrite Hm1, Hm, set_mem_snoc by done. rewrite orb_comm. f_equal.
        unfold matches. by rewrite Hf.
    + apply wp_ret. apply (IH (before ++ [x])); [done|]. split; [done|]. split; [done|]. split.
      * rewrite set_count_snoc, Hf. cbn. lia.
      * intros k Hk. rewrite Hm, set_mem_snoc by done. unfold matches. rewrite Hf. cbn. by rewrite orb_false_r.
Qed.

End SetRehash.

Lemma set_mem_objects0 n k : set_mem (objects0 n) k = false.
Proof. unfold set_mem, objects0. by induction (Z.to_nat n). Qed.

Lemma set_empty_ok n : 0 <= n -> set_ok (MkSet n 0 (objects0 n)).
Proof.
  intros Hn. split; cbn [set_alloc set_used set_table].
  - unfold objects0. rewrite length_replicate. lia.
  - unfold set_count, as_entries, objects0. rewrite fmap_replicate. symmetry. apply (count_entries0 n).
  - apply (table_ok_empty valid).
Qed.

Lemma mp_set_rehash_ok d s : set_ok s -> get_hash_alloc_greater_or_equal_to (set_alloc s + 1) <= MAX_ENTRIES ->
  set_rehashes (mp_set_rehash (set_lookup_depth (S d))) s.
Proof.
  intros Hok Hmax. pose proof (find_size_ge (set_alloc s + 1)) as Hg. pose proof (set_used_le _ Hok) as Hul.
  unfold set_rehashes, mp_set_rehash. apply wp_bind. unfold wp at 1, get. apply wp_bind, wp_assert; [by apply Z.leb_le|].
  apply wp_bind. unfold wp at 1, put. eapply wp_mono.
  - apply (wp_set_refill d s Hok (get_hash_alloc_greater_or_equal_to (set_alloc s + 1)) ltac:(lia) (set_table s) []);
      [done|]. split; [apply set_empty_ok; lia|]. split; [done|]. split; [done|].
    intros k Hk. cbn [set_table]. apply set_mem_objects0.
  - intros [] s1 (Hok1 & Ha1 & Hu1 & Hm1). split; [done|]. split; [by rewrite Hu1, (so_used _ Hok)|done].
Qed.

Lemma wp_mp_set_lookup s k kind : set_ok s -> valid k -> set_alloc s <= 2 ^ 26 ->
  wp (mp_set_lookup k kind) s (set_finds s k kind).
Proof.
  intros Hok Hk Ha. apply wp_set_lookup_step; [done..|]. intros Hadd Hfull. apply mp_set_rehash_ok; [done|].
  pose proof (set_used_le _ Hok). pose proof (find_size_le (set_alloc s) ltac:(lia)). unfold MAX_ENTRIES. lia.
Qed.

(** ** [mp_set_remove_first] *)

Lemma wp_remove_first_from s Q fuel : set_ok s ->
  (forall p e s', 0 <= p -> key_at (set_table s) p = Some e -> filled e = true -> set_ok s' ->
     set_removed s s' e -> Q e s') ->
  ((forall p e, 0 <= p -> key_at (set_table s) p = Some e -> filled e = false) -> Q MP_OBJ_NULL s) ->
  forall pos, 0 <= pos -> pos + Z.of_nat fuel = Z.of_nat (length (set_table s)) ->
  (forall p e, 0 <= p < pos -> key_at (set_table s) p = Some e -> filled e = false) ->
  wp (remove_first_from pos fuel) s Q.
Proof.
  intros Hok Hfound Hnone. induction fuel as [|fuel IH]; intros pos Hpos Hlen Hbefore; cbn [remove_first_from].
  - apply wp_ret, Hnone. intros p e Hp He. pose proof (key_at_range _ _ _ Hp He).
    apply (Hbefore p e); [lia|done].
  - apply wp_bind. unfold wp at 1, get.
    destruct (key_at_Some (set_table s) pos) as [e He]; [lia|].
    assert (mp_set_slot_is_filled s pos = filled e) as -> by (unfold mp_set_slot_is_filled, key_at in *; by rewrite He).
    destruct (filled e) eqn:Hf.
    + apply wp_bind, (wp_set_elem _ _ e); [done|]. apply wp_bind.
      assert (valid e) as Hv by by apply (tk_valid _ _ _ (so_table _ Hok) pos).
      apply (wp_delete_elem _ _ e e); [done..| |].
      * unfold matches. rewrite Hf. cbn. by apply (equal_refl (valid := valid)).
      * intros s' Hs' Hrem. apply wp_ret. by eapply Hfound.
    + apply IH; [lia|lia|]. intros p e' Hp He'. destruct (Z.eq_dec p pos) as [->|]; [congruence|].
      apply (Hbefore p e'); [lia|done].
Qed.

End SetFacts.

(** C35: [mp_set_lookup], for every mask of lookup kinds: membership, insertion
    and removal in the collection the set stands for. *)
Theorem mp_set_lookup_correct (ops : KeyOps) (valid : Z -> Prop) (laws : KeyLaws valid) s k kind :
  set_ok valid s -> valid k -> set_alloc s <= 2 ^ 26 ->
  exists r s', mp_set_lookup k kind s = Some (r, s') /\ set_ok valid s' /\ set_post valid s s' k kind r.
Proof. intros Hok Hk Ha. by apply run_value, wp_mp_set_lookup. Qed.

Definition set_example : mp_set_t := MkSet 4 2 [0; 11; 21; 0].

Lemma set_example_ok : set_ok (H := word_ops) word_key set_example.
Proof.
  assert (forall p k, 0 <= p -> key_at [0; 11; 21; 0] p = Some k -> filled k = true ->
    (p = 1 /\ k = 11) \/ (p = 2 /\ k = 21)) as Hk.
  { intros p k Hp Hk Hf. unfold key_at in Hk.
    assert (Z.to_nat p = 0 \/ Z.to_nat p = 1 \/ Z.to_nat p = 2 \/ Z.to_nat p = 3)%nat as Hcase.
    { apply lookup_lt_Some in Hk. cbn in Hk. lia. }
    destruct Hcase as [Hc|[Hc|[Hc|Hc]]]; rewrite Hc in Hk; cbn in Hk; injection Hk as <-; [done|left; lia|right; lia|done]. }
  split; [done|done|]. split.
  - intros p k Hp Hkp Hf. destruct (Hk p k Hp Hkp Hf) as [[_ ->]|[_ ->]]; (split; [done|by left]).
  - intros p q k k' Hp Hq Hkp Hkq Hf Hm. pose proof (matches_filled (H := word_ops) _ _ Hm) as [Hf' _].
    destruct (Hk p k Hp Hkp Hf) as [[-> ->]|[-> ->]], (Hk q k' Hq Hkq Hf') as [[-> ->]|[-> ->]]; done.
  - intros p k i Hp Hkp Hf. destruct (Hk p k Hp Hkp Hf) as [[-> ->]|[-> ->]]; intros Hi.
    + change (dist _ _ _) with 0 in Hi. lia.
    + change (dist _ _ _) with 0 in Hi. lia.
Qed.

Theorem mp_set_lookup_correct_witness : exists r s',
  mp_set_lookup (H := word_ops) 11 MP_MAP_LOOKUP_ADD_IF_NOT_FOUND_OR_REMOVE_IF_FOUND set_example = Some (r, s') /\
  set_ok (H := word_ops) word_key s' /\
  set_post (H := word_ops) word_key set_example s' 11 MP_MAP_LOOKUP_ADD_IF_NOT_FOUND_OR_REMOVE_IF_FOUND r.
Proof.
  apply (mp_set_lookup_correct word_ops word_key word_laws); [exact set_example_ok|split; [done|by left]|done].
Defined.

(** [mp_set_remove_first] takes an element out of a set that has one, and
    returns [MP_OBJ_NULL] from an empty set. *)
Theorem mp_set_remove_first_correct (ops : KeyOps) (valid : Z -> Prop) (laws : KeyLaws valid) s :
  set_ok valid s ->
  exists r s', mp_set_remove_first s = Some (r, s') /\ set_ok valid s' /\
    if set_used s =? 0 then r = MP_OBJ_NULL /\ s' = s
    else valid r /\ set_mem (set_table s) r = true /\ set_removed valid s s' r.
Proof.
  intros Hok. apply run_value. unfold mp_set_remove_first. apply wp_bind, wp_gets.
  rewrite (so_alloc _ _ Hok), Nat2Z.id. apply (wp_remove_first_from valid); [done| | |lia|lia|lia].
  - intros p e s' Hp He Hf Hok' Hrem. split; [done|].
    pose proof (set_used_le valid _ Hok'). pose proof Hrem as (Hu & _). rewrite (proj2 (Z.eqb_neq _ _)) by lia.
    assert (valid e) as Hv by by apply (tk_valid _ _ _ (so_table _ _ Hok) p).
    split; [done|]. split; [|done]. apply set_mem_present. exists p, e. split; [done|]. split; [done|].
    unfold matches. rewrite Hf. cbn. by apply (equal_refl (valid := valid)).
  - intros Hnone. split; [done|]. rewrite (so_used _ _ Hok). rewrite (proj2 (Z.eqb_eq _ _)); [done|].
    unfold set_count, count. rewrite (proj2 (List.length_zero_iff_nil _)); [done|].
    destruct (List.filter is_filled (as_entries (set_table s))) as [|x l] eqn:E; [done|]. exfalso.
    assert (In x (List.filter is_filled (as_entries (set_table s)))) as Hin by (rewrite E; by left).
    apply filter_In in Hin as [Hin Hx]. apply list_elem_of_In, list_elem_of_lookup in Hin as [i Hi].
    unfold as_entries in Hi. rewrite list_lookup_fmap in Hi. apply fmap_Some in Hi as (e & He & ->).
    unfold is_filled in Hx. cbn in Hx. rewrite (Hnone (Z.of_nat i) e) in Hx; [done|lia|].
    unfold key_at. by rewrite Nat2Z.id.
Qed.

Theorem mp_set_remove_first_correct_witness : exists r s',
  mp_set_remove_first set_example = Some (r, s') /\ set_ok (H := word_ops) word_key s' /\
  if set_used set_example =? 0 then r = MP_OBJ_NULL /\ s' = set_example
  else word_key r /\ set_mem (H := word_ops) (set_table set_example) r = true /\
    set_removed (H := word_ops) word_key set_example s' r.
Proof. apply (mp_set_remove_first_correct word_ops word_key word_laws). exact set_example_ok. Defined.
