(* ===== verification/St7565.v ===== *)
(** * The ST7565 display driver ([c_modules/display])

    The driver of the 128x64 LCD and the functions of the [st7565] module.  The
    driver talks to the panel through pins and an SPI bus; its effects are the
    log of those calls ([io]), in order.  Behind the driver is the interface of
    the controller, on which the log is replayed. *)
From S2P Require Import Prelude.
From S2P Require Import CMem.
Local Open Scope Z_scope.

(** The calls of ESP-IDF and FreeRTOS the driver makes. *)
Inductive io :=
  | SetDirectionOutput (pin : Z)
  | SetLevel (pin level : Z)
  | SpiBusInit (host mosi sclk max_transfer_sz : Z)
  | SpiAddDevice (host clock_speed_hz : Z)
  | SpiTransmit (v : Z)
  | TaskDelay (ms : Z).

Definition ST7565_WIDTH : Z := 128.
Definition ST7565_HEIGHT : Z := 64.
Definition ST7565_PAGES : Z := ST7565_HEIGHT / 8.

Record st7565_t := MkSt7565 { cs : Z; rs : Z; rst : Z }.

Definition Mio : Type -> Type := M (list io).
Definition emit (e : io) : Mio unit := modify (fun log => log ++ [e]).

Section Driver.
Context (d : st7565_t).

Definition _xfer (v : Z) (data : bool) : Mio unit :=
  emit (SetLevel (rs d) (zbool data));;
  emit (SetLevel (cs d) 0);;
  emit (SpiTransmit v);;
  emit (SetLevel (cs d) 1).

Definition CMD (v : Z) : Mio unit := _xfer (u8 v) false.
Definition DAT (v : Z) : Mio unit := _xfer (u8 v) true.

Definition st7565_write_instruction (c : Z) : Mio unit := CMD c.
Definition st7565_write_data (dta : Z) : Mio unit := DAT dta.

Definition st7565_set_page_address (p : Z) : Mio unit := CMD (Z.lor 0xB0 (Z.land p 0x0F)).
Definition st7565_set_column_address (c : Z) : Mio unit :=
  CMD (Z.lor 0x10 (Z.shiftr c 4));;
  CMD (Z.lor 0x00 (Z.land c 0x0F)).

Definition st7565_clear_display : Mio unit :=
  for_up (Z.to_nat ST7565_PAGES) 0 (fun p =>
    st7565_set_page_address (u8 p);;
    st7565_set_column_address 0;;
    for_up (Z.to_nat ST7565_WIDTH) 0 (fun _ => DAT 0x00)).

(** [buf\[i\]]: a read outside the buffer has no meaning. *)
Definition read_buf (buf : list Z) (i : Z) : Mio Z :=
  fun log => if bool_decide (0 <= i) then v ← buf !! Z.to_nat i; Some (v, log) else None.

Definition st7565_draw_buffer_ex (buf : list Z) (page col width pages : Z) : Mio unit :=
  for_up (Z.to_nat pages) 0 (fun p =>
    st7565_set_page_address (u8 (page + p));;
    st7565_set_column_address col;;
    for_up (Z.to_nat width) 0 (fun i => v ← read_buf buf (p * width + i); DAT v)).

Definition st7565_draw_buffer (buf : list Z) : Mio unit :=
  st7565_draw_buffer_ex buf 0 0 ST7565_WIDTH ST7565_PAGES.

Definition st7565_contrast (lvl : Z) : Mio unit := CMD 0x81;; CMD (Z.land lvl 0x3F).
Definition st7565_invert (inv : bool) : Mio unit := CMD (if inv then 0xA7 else 0xA6).
Definition st7565_power_off : Mio unit := CMD 0xAE.
Definition st7565_power_on : Mio unit := CMD 0xAF.

End Driver.

Definition st7565_init (host cs_ rs_ rst_ sda sck : Z) : Mio st7565_t :=
  let d := MkSt7565 cs_ rs_ rst_ in
  emit (SetDirectionOutput cs_);;
  emit (SetDirectionOutput rs_);;
  emit (SetDirectionOutput rst_);;
  emit (SpiBusInit host sda sck (ST7565_WIDTH * ST7565_PAGES));;
  emit (SpiAddDevice host (1 * 1000 * 1000));;
  emit (SetLevel rst_ 0);; emit (TaskDelay 50);;
  emit (SetLevel rst_ 1);; emit (TaskDelay 50);;
  CMD d 0xAE;; CMD d 0xA2;; CMD d 0xA0;; CMD d 0xC8;;
  CMD d 0xA6;; CMD d 0x2F;; CMD d 0x27;;
  CMD d 0x81;; CMD d 0x02;;
  CMD d 0xAF;;
  mret d.

(** ** The functions of the module

    Integer arguments have been converted by [mp_obj_get_int]; a [uint8_t]
    parameter keeps the low byte. *)
Inductive draw_exn := ValueErrorSize.

Definition mp_st7565_contrast (d : st7565_t) (a0 : Z) := st7565_contrast d (u8 a0).
Definition mp_st7565_set_page (d : st7565_t) (a0 : Z) := st7565_set_page_address d (u8 a0).
Definition mp_st7565_set_col (d : st7565_t) (a0 : Z) := st7565_set_column_address d (u8 a0).
Definition mp_st7565_cmd (d : st7565_t) (a0 : Z) := st7565_write_instruction d (u8 a0).
Definition mp_st7565_data (d : st7565_t) (a0 : Z) := st7565_write_data d (u8 a0).

(** [graphics(buf, page, column, width, pages)] after argument parsing.  The
    product is an [int] (an overflow has no meaning in C) and is compared with
    the [size_t] length. *)
Definition mp_st7565_draw (d : st7565_t) (buf : list Z) (page column width pages : Z) :
    Mio (draw_exn + unit) :=
  let expected_size := width * pages in
  assert_ ((- 2 ^ 31 <=? expected_size) && (expected_size <? 2 ^ 31));;
  if negb (Z.of_nat (length buf) =? u32 expected_size) then mret (inl ValueErrorSize)
  else
    r ← st7565_draw_buffer_ex d buf (u8 page) (u8 column) (u8 width) (u8 pages);
    mret (inr r).

(** ** The ST7565 driver shows the buffer it is given

    The controller is not part of the repository: [Panel] is its interface and
    [PanelLaws] the part of its data sheet the driver relies on (the page and
    column address commands, and display data writes that advance the column).
    The log of the driver is replayed on the pins and the panel. *)

(** A controller: what a command byte and a data byte do, the display memory
    (page, column) and the two address registers. *)
Class Panel := {
  panel : Type;
  lcd_cmd : Z -> panel -> panel;
  lcd_data : Z -> panel -> panel;
  lcd_ram : panel -> Z -> Z -> Z;
  lcd_page : panel -> Z;
  lcd_col : panel -> Z }.

Definition PANEL_COLUMNS : Z := 132.

Class PanelLaws `{Panel} : Prop := {
  cmd_page : forall p s, 0 <= p < 16 -> lcd_page (lcd_cmd (0xB0 + p) s) = p /\
    lcd_col (lcd_cmd (0xB0 + p) s) = lcd_col s /\ lcd_ram (lcd_cmd (0xB0 + p) s) = lcd_ram s;
  cmd_col_high : forall h s, 0 <= h < 16 -> lcd_col (lcd_cmd (0x10 + h) s) = 16 * h + lcd_col s `mod` 16 /\
    lcd_page (lcd_cmd (0x10 + h) s) = lcd_page s /\ lcd_ram (lcd_cmd (0x10 + h) s) = lcd_ram s;
  cmd_col_low : forall l s, 0 <= l < 16 -> lcd_col (lcd_cmd l s) = lcd_col s / 16 * 16 + l /\
    lcd_page (lcd_cmd l s) = lcd_page s /\ lcd_ram (lcd_cmd l s) = lcd_ram s;
  data_write : forall v s, lcd_col s < PANEL_COLUMNS -> lcd_page (lcd_data v s) = lcd_page s /\
    lcd_col (lcd_data v s) = lcd_col s + 1 /\
    forall r c, lcd_ram (lcd_data v s) r c =
      if (r =? lcd_page s) && (c =? lcd_col s) then v else lcd_ram s r c }.

Section Replay.
Context `{PanelLaws} (d : st7565_t) (Hpins : cs d <> rs d).

(** The pins and the panel: a byte on the bus reaches the panel when it is
    selected (active low), as a command or as data by the level of [rs]. *)
Record board := MkBoard { levels : Z -> Z; lcd : panel }.

Definition on_board (b : board) (e : io) : board :=
  match e with
  | SetLevel pin l => MkBoard (fun p => if p =? pin then l else levels b p) (lcd b)
  | SpiTransmit v =>
      if levels b (cs d) =? 0 then
        MkBoard (levels b) (if levels b (rs d) =? 0 then lcd_cmd v (lcd b) else lcd_data v (lcd b))
      else b
  | _ => b
  end.

Definition replay (log : list io) (b : board) : board := foldl on_board b log.

Lemma replay_app l1 l2 b : replay (l1 ++ l2) b = replay l2 (replay l1 b).
Proof. apply foldl_app. Qed.

(** ** Hoare rules for driver code, on the state of the panel *)


Lemma wp_xfer b0 v (data : bool) log (Q : unit -> list io -> Prop) :
  (forall log', lcd (replay log' b0) = (if data then lcd_data v else lcd_cmd v) (lcd (replay log b0)) -> Q tt log') ->
  wp (_xfer d v data) log Q.
Proof.
  intros HQ. unfold _xfer, emit.
  apply wp_bind, wp_modify, wp_bind, wp_modify, wp_bind, wp_modify, wp_modify, HQ.
  rewrite !replay_app. cbn. rewrite !Z.eqb_refl. rewrite (proj2 (Z.eqb_neq (rs d) (cs d))) by congruence.
  cbn. by destruct data.
Qed.

Lemma wp_CMD b0 v log (Q : unit -> list io -> Prop) : 0 <= v < 256 ->
  (forall log', lcd (replay log' b0) = lcd_cmd v (lcd (replay log b0)) -> Q tt log') -> wp (CMD d v) log Q.
Proof. intros Hv HQ. unfold CMD. rewrite uwrap_small by done. by apply (wp_xfer b0). Qed.

Lemma wp_DAT b0 v log (Q : unit -> list io -> Prop) : 0 <= v < 256 ->
  (forall log', lcd (replay log' b0) = lcd_data v (lcd (replay log b0)) -> Q tt log') -> wp (DAT d v) log Q.
Proof. intros Hv HQ. unfold DAT. rewrite uwrap_small by done. by apply (wp_xfer b0). Qed.

Lemma lor_small_add k n a : 0 <= n -> 0 <= a < 2 ^ n -> Z.lor (k * 2 ^ n) a = k * 2 ^ n + a.
Proof. apply lor_add_disjoint. Qed.

Lemma wp_set_page b0 p log (Q : unit -> list io -> Prop) : 0 <= p < 16 ->
  (forall log', lcd_page (lcd (replay log' b0)) = p -> lcd_col (lcd (replay log' b0)) = lcd_col (lcd (replay log b0)) ->
     lcd_ram (lcd (replay log' b0)) = lcd_ram (lcd (replay log b0)) -> Q tt log') ->
  wp (st7565_set_page_address d p) log Q.
Proof.
  intros Hp HQ. unfold st7565_set_page_address. change 15 with (2 ^ 4 - 1). rewrite land_pow2_mask by done.
  rewrite Z.mod_small by done. change 176 with (11 * 2 ^ 4). rewrite lor_small_add by done.
  apply (wp_CMD b0); [lia|]. intros log' Hl. destruct (cmd_page p (lcd (replay log b0)) Hp) as (H1 & H2 & H3).
  apply HQ; by rewrite Hl.
Qed.

Lemma wp_set_column b0 c log (Q : unit -> list io -> Prop) : 0 <= c < 256 ->
  (forall log', lcd_page (lcd (replay log' b0)) = lcd_page (lcd (replay log b0)) -> lcd_col (lcd (replay log' b0)) = c ->
     lcd_ram (lcd (replay log' b0)) = lcd_ram (lcd (replay log b0)) -> Q tt log') ->
  wp (st7565_set_column_address d c) log Q.
Proof.
  intros Hc HQ. unfold st7565_set_column_address.
  pose proof (Z.div_mod c 16 ltac:(done)). pose proof (Z.mod_pos_bound c 16 ltac:(done)).
  rewrite shiftr_div by done. change (2 ^ 4) with 16. change 15 with (2 ^ 4 - 1). rewrite land_pow2_mask by done.
  change 16 with (1 * 2 ^ 4) at 1. rewrite lor_small_add by (change (2 ^ 4) with 16; lia).
  rewrite Z.lor_0_l. change (2 ^ 4) with 16. change (1 * 16) with 16.
  apply wp_bind, (wp_CMD b0); [lia|]. intros log1 Hl1.
  destruct (cmd_col_high (c / 16) (lcd (replay log b0)) ltac:(lia)) as (Ha1 & Ha2 & Ha3).
  apply (wp_CMD b0); [lia|]. intros log2 Hl2.
  destruct (cmd_col_low (c `mod` 16) (lcd (replay log1 b0)) ltac:(lia)) as (Hb1 & Hb2 & Hb3).
  rewrite Hl1 in *. apply HQ; rewrite Hl2; [congruence| |congruence].
  rewrite Hb1, Ha1. pose proof (Z.mod_pos_bound (lcd_col (lcd (replay log b0))) 16 ltac:(done)).
  rewrite (Z.add_comm (16 * _)), (Z.mul_comm 16), Z.div_add, Z.div_small by lia. lia.
Qed.

(** A row of data writes from the current address. *)
Lemma wp_row b0 (put : Z -> Mio unit) (row : Z -> Z) n log (Q : unit -> list io -> Prop) :
  (forall i log, 0 <= i < Z.of_nat n -> put i log = DAT d (row i) log /\ 0 <= row i < 256) ->
  lcd_col (lcd (replay log b0)) + Z.of_nat n <= PANEL_COLUMNS ->
  (forall log', (forall r c, lcd_ram (lcd (replay log' b0)) r c =
      if (r =? lcd_page (lcd (replay log b0))) && (lcd_col (lcd (replay log b0)) <=? c) &&
         (c <? lcd_col (lcd (replay log b0)) + Z.of_nat n)
      then row (c - lcd_col (lcd (replay log b0))) else lcd_ram (lcd (replay log b0)) r c) -> Q tt log') ->
  wp (for_up n 0 put) log Q.
Proof.
  intros Hput Hcol HQ. set (s0 := lcd (replay log b0)) in *.
  apply (wp_for_up (fun i log' => let s := lcd (replay log' b0) in
    lcd_page s = lcd_page s0 /\ lcd_col s = lcd_col s0 + i /\
    forall r c, lcd_ram s r c = if (r =? lcd_page s0) && (lcd_col s0 <=? c) && (c <? lcd_col s0 + i)
      then row (c - lcd_col s0) else lcd_ram s0 r c)).
  - cbn. fold s0. split; [done|]. split; [lia|]. intros r c.
    destruct (_ && _ && _) eqn:E; [|done]. to_prop. lia.
  - intros i log1 Hi (Hp & Hc & Hr). destruct (Hput i log1 Hi) as [Hrun Hv]. unfold wp. rewrite Hrun.
    apply (wp_DAT b0); [done|]. intros log2 Hl2. cbv zeta. rewrite Hl2.
    destruct (data_write (row i) (lcd (replay log1 b0)) ltac:(lia)) as (H1 & H2 & H3).
    rewrite H1, H2. split; [done|]. split; [lia|]. intros r c. rewrite H3, Hp, Hc, Hr.
    destruct (Z.eqb_spec r (lcd_page s0)), (Z.eqb_spec c (lcd_col s0 + i)), (Z.leb_spec (lcd_col s0) c),
      (Z.ltb_spec c (lcd_col s0 + i)), (Z.ltb_spec c (lcd_col s0 + (i + 1))); cbn; try lia; try done.
    f_equal. lia.
  - intros log' (_ & _ & Hr). by apply HQ.
Qed.

(** A rectangle of whole pages, row by row. *)
Lemma wp_rect b0 (pg : Z -> Z) (put : Z -> Z -> Mio unit) (pix : Z -> Z -> Z) page col w n log
    (Q : unit -> list io -> Prop) :
  (forall p, 0 <= p < Z.of_nat n -> pg p = page + p) ->
  (forall p i log, 0 <= p < Z.of_nat n -> 0 <= i < Z.of_nat w ->
     put p i log = DAT d (pix p i) log /\ 0 <= pix p i < 256) ->
  0 <= page -> page + Z.of_nat n <= 16 -> 0 <= col < 256 -> col + Z.of_nat w <= PANEL_COLUMNS ->
  (forall log', (forall r c, lcd_ram (lcd (replay log' b0)) r c =
      if (page <=? r) && (r <? page + Z.of_nat n) && (col <=? c) && (c <? col + Z.of_nat w)
      then pix (r - page) (c - col) else lcd_ram (lcd (replay log b0)) r c) -> Q tt log') ->
  wp (for_up n 0 (fun p =>
    st7565_set_page_address d (u8 (pg p));;
    st7565_set_column_address d col;;
    for_up w 0 (put p))) log Q.
Proof.
  intros Hpg Hput Hp0 Hpn Hc0 Hcw HQ.
  apply (wp_for_up (fun i log' => forall r c, lcd_ram (lcd (replay log' b0)) r c =
    if (page <=? r) && (r <? page + i) && (col <=? c) && (c <? col + Z.of_nat w)
    then pix (r - page) (c - col) else lcd_ram (lcd (replay log b0)) r c)).
  - intros r c. destruct (_ && _ && _ && _) eqn:E; [|done]. to_prop. lia.
  - intros p log1 Hp Hr. apply wp_bind. rewrite Hpg, uwrap_small by lia. apply (wp_set_page b0); [lia|].
    intros log2 Hp2 Hc2 Hr2. apply wp_bind, (wp_set_column b0); [lia|]. intros log3 Hp3 Hc3 Hr3.
    apply (wp_row b0 _ (pix p)); [intros i l Hi; by apply Hput|lia|].
    intros log4 Hr4 r c. rewrite Hr4, Hp3, Hc3, Hp2, Hr3, Hr2, Hr.
    destruct (Z.eqb_spec r (page + p)), (Z.leb_spec page r), (Z.ltb_spec r (page + p)), (Z.ltb_spec r (page + (p + 1))),
      (Z.leb_spec col c), (Z.ltb_spec c (col + Z.of_nat w)); cbn; try lia; try done.
    f_equal. lia.
  - intros log' Hr. by apply HQ.
Qed.

Lemma read_buf_run buf i log v : 0 <= i -> buf !! Z.to_nat i = Some v -> read_buf buf i log = Some (v, log).
Proof. intros Hi Hv. unfold read_buf. rewrite bool_decide_true by done. by rewrite Hv. Qed.

Definition bytes (buf : list Z) : Prop := Forall (fun v => 0 <= v < 256) buf.

Lemma wp_draw_buffer_ex b0 buf page col width pages log (Q : unit -> list io -> Prop) :
  bytes buf -> 0 <= page -> 0 <= pages -> page + pages <= 16 -> 0 <= col < 256 -> 0 <= width ->
  col + width <= PANEL_COLUMNS -> width * pages <= Z.of_nat (length buf) ->
  (forall log', (forall r c, lcd_ram (lcd (replay log' b0)) r c =
      if (page <=? r) && (r <? page + pages) && (col <=? c) && (c <? col + width)
      then default 0 (buf !! Z.to_nat ((r - page) * width + (c - col)))
      else lcd_ram (lcd (replay log b0)) r c) -> Q tt log') ->
  wp (st7565_draw_buffer_ex d buf page col width pages) log Q.
Proof.
  intros Hb Hp0 Hpg Hp1 Hc0 Hw Hc1 Hlen HQ. unfold st7565_draw_buffer_ex.
  apply (wp_rect b0 (fun p => page + p) (fun p i => v ← read_buf buf (p * width + i); DAT d v)
    (fun p i => default 0 (buf !! Z.to_nat (p * width + i))) page col (Z.to_nat width) (Z.to_nat pages)); [done| |lia|lia|lia|lia|].
  - intros p i log1 Hp Hi. assert (0 <= p * width + i < Z.of_nat (length buf)) as Hr by nia.
    destruct (lookup_lt_is_Some_2 buf (Z.to_nat (p * width + i))) as [v Hv]; [lia|].
    rewrite Hv. cbn [default]. split; [unfold mbind, M_bind; by rewrite (read_buf_run buf _ _ v) by done || lia|].
    by apply (Forall_lookup_1 _ _ _ _ Hb Hv).
  - intros log' Hr. apply HQ. intros r c. rewrite Hr. by rewrite !Z2Nat.id by lia.
Qed.

End Replay.

(** A controller with a memory and the two registers. *)
Record lcd_state := MkLcd { mem_ : Z -> Z -> Z; page_ : Z; col_ : Z }.

Definition example_panel : Panel := {|
  panel := lcd_state;
  lcd_cmd := fun v s =>
    if v <? 0x10 then MkLcd (mem_ s) (page_ s) (col_ s / 16 * 16 + v)
    else if v <? 0x20 then MkLcd (mem_ s) (page_ s) (16 * (v - 0x10) + col_ s `mod` 16)
    else if (0xB0 <=? v) && (v <? 0xC0) then MkLcd (mem_ s) (v - 0xB0) (col_ s)
    else s;
  lcd_data := fun v s =>
    MkLcd (fun r c => if (r =? page_ s) && (c =? col_ s) then v else mem_ s r c) (page_ s) (col_ s + 1);
  lcd_ram := mem_; lcd_page := page_; lcd_col := col_ |}.

Lemma example_panel_laws : PanelLaws (H := example_panel).
Proof.
  split; cbn -[Z.add Z.ltb Z.leb].
  - intros p s Hp. rewrite (proj2 (Z.ltb_ge _ _)), (proj2 (Z.ltb_ge _ _)), (proj2 (Z.leb_le _ _)), (proj2 (Z.ltb_lt _ _)) by lia.
    cbn -[Z.add]. split; [lia|done].
  - intros h s Hh. rewrite (proj2 (Z.ltb_ge _ _)), (proj2 (Z.ltb_lt _ _)) by lia. cbn -[Z.add Z.mul Z.modulo].
    split; [f_equal; f_equal; lia|done].
  - intros l s Hl. by rewrite (proj2 (Z.ltb_lt _ _)) by lia.
  - done.
Qed.

Definition example_pins : st7565_t := MkSt7565 5 17 16.
Definition example_board : board (H := example_panel) :=
  MkBoard (fun _ => 1) (MkLcd (fun _ _ => 170) 3 9 : panel (Panel := example_panel)).

(** The buffer is shown. *)
Lemma draw_shows_buffer (P : Panel) (laws : PanelLaws) d b0 buf page column width pages log :
  cs d <> rs d -> bytes buf -> 0 <= page -> 0 <= pages -> page + pages <= ST7565_PAGES ->
  0 <= column -> 0 <= width -> column + width <= ST7565_WIDTH -> width * pages = Z.of_nat (length buf) ->
  exists log', mp_st7565_draw d buf page column width pages log = Some (inr tt, log') /\
    forall r c, lcd_ram (lcd (replay d log' b0)) r c =
      if (page <=? r) && (r <? page + pages) && (column <=? c) && (c <? column + width)
      then default 0 (buf !! Z.to_nat ((r - page) * width + (c - column)))
      else lcd_ram (lcd (replay d log b0)) r c.
Proof.
  intros Hpins Hb Hp Hpg Hpp Hc Hw Hcw Hlen. change ST7565_PAGES with 8 in *. change ST7565_WIDTH with 128 in *.
  destruct (run_value (mp_st7565_draw d buf page column width pages) log (fun r log' => r = inr tt /\
    forall r c, lcd_ram (lcd (replay d log' b0)) r c =
      if (page <=? r) && (r <? page + pages) && (column <=? c) && (c <? column + width)
      then default 0 (buf !! Z.to_nat ((r - page) * width + (c - column)))
      else lcd_ram (lcd (replay d log b0)) r c)) as (r & log' & Hrun & -> & Hr); [|by exists log'].
  unfold mp_st7565_draw. cbv zeta. apply wp_bind, wp_assert.
  { apply andb_true_iff. split; [apply Z.leb_le|apply Z.ltb_lt]; nia. }
  rewrite uwrap_small by nia. rewrite Hlen, Z.eqb_refl. cbn [negb]. apply wp_bind.
  rewrite !uwrap_small by lia.
  apply (wp_draw_buffer_ex d Hpins b0); [done|lia|lia|lia|lia|lia|unfold PANEL_COLUMNS; lia|lia|].
  intros log' Hr. by apply wp_ret.
Qed.

(** The size check; a negative product is at least 2^31 as a [size_t]. *)
Lemma draw_size_error d buf page column width pages log :
  Z.of_nat (length buf) < 2 ^ 31 -> - 2 ^ 31 <= width * pages < 2 ^ 31 -> width * pages <> Z.of_nat (length buf) ->
  mp_st7565_draw d buf page column width pages log = Some (inl ValueErrorSize, log).
Proof.
  intros Hlen Hp Hne. unfold mp_st7565_draw. cbv zeta. unfold mbind, M_bind, assert_.
  rewrite (proj2 (Z.leb_le _ _)), (proj2 (Z.ltb_lt _ _)) by lia. cbn [andb].
  destruct (Z.eqb_spec (Z.of_nat (length buf)) (u32 (width * pages))) as [He|]; [|done].
  destruct (Z.lt_ge_cases (width * pages) 0).
  - unfold uwrap in He. rewrite <-(Z.mod_add _ 1) in He by done. rewrite Z.mod_small in He by lia. lia.
  - rewrite uwrap_small in He by lia. lia.
Qed.

(** C26: [st7565.graphics]: when the length of the buffer is not the product of
    width and pages (which fits an [int]), a [ValueError] is raised and nothing is
    sent to the panel.  When it is, and the rectangle is inside the display, the
    buffer is shown: after the bus traffic of the call byte [p * width + i] of the
    buffer is in page [page + p], column [column + i], and nothing else has
    changed. *)
Theorem mp_st7565_draw_shows_buffer (P : Panel) (laws : PanelLaws) d b0 buf page column width pages log :
  cs d <> rs d -> bytes buf -> Z.of_nat (length buf) < 2 ^ 31 -> - 2 ^ 31 <= width * pages < 2 ^ 31 ->
  (width * pages <> Z.of_nat (length buf) ->
     mp_st7565_draw d buf page column width pages log = Some (inl ValueErrorSize, log)) /\
  (width * pages = Z.of_nat (length buf) -> 0 <= page -> 0 <= pages -> page + pages <= ST7565_PAGES ->
   0 <= column -> 0 <= width -> column + width <= ST7565_WIDTH ->
   exists log', mp_st7565_draw d buf page column width pages log = Some (inr tt, log') /\
     forall r c, lcd_ram (lcd (replay d log' b0)) r c =
       if (page <=? r) && (r <? page + pages) && (column <=? c) && (c <? column + width)
       then default 0 (buf !! Z.to_nat ((r - page) * width + (c - column)))
       else lcd_ram (lcd (replay d log b0)) r c).
Proof.
  intros Hpins Hb Hlen Hprod. split; [by apply draw_size_error|]. intros. by apply draw_shows_buffer.
Qed.

Theorem mp_st7565_draw_shows_buffer_witness :
  mp_st7565_draw example_pins [1; 2; 3; 4; 5] 6 125 3 2 [] = Some (inl ValueErrorSize, []) /\
  exists log',
  mp_st7565_draw example_pins [1; 2; 3; 4; 5; 6] 6 125 3 2 [] = Some (inr tt, log') /\
  forall r c, lcd_ram (Panel := example_panel) (lcd (replay (H := example_panel) example_pins log' example_board)) r c =
    if (6 <=? r) && (r <? 6 + 2) && (125 <=? c) && (c <? 125 + 3)
    then default 0 ([1; 2; 3; 4; 5; 6] !! Z.to_nat ((r - 6) * 3 + (c - 125)))
    else lcd_ram (Panel := example_panel) (lcd (replay (H := example_panel) example_pins [] example_board)) r c.
Proof.
  split.
  - apply (proj1 (mp_st7565_draw_shows_buffer example_panel example_panel_laws example_pins example_board
      [1; 2; 3; 4; 5] 6 125 3 2 [] ltac:(done) ltac:(repeat constructor; lia) ltac:(done) ltac:(done))). done.
  - apply (proj2 (mp_st7565_draw_shows_buffer example_panel example_panel_laws example_pins example_board
      [1; 2; 3; 4; 5; 6] 6 125 3 2 [] ltac:(done) ltac:(repeat constructor; lia) ltac:(done) ltac:(done))); done.
Defined.

(** [st7565.clear_display] clears the 128 columns of the eight pages. *)
Theorem st7565_clear_display_clears (P : Panel) (laws : PanelLaws) d b0 log : cs d <> rs d ->
  exists log', st7565_clear_display d log = Some (tt, log') /\
    forall r c, lcd_ram (lcd (replay d log' b0)) r c =
      if (0 <=? r) && (r <? ST7565_PAGES) && (0 <=? c) && (c <? ST7565_WIDTH) then 0
      else lcd_ram (lcd (replay d log b0)) r c.
Proof.
  intros Hpins.
  destruct (run_value (st7565_clear_display d) log (fun _ log' =>
    forall r c, lcd_ram (lcd (replay d log' b0)) r c =
      if (0 <=? r) && (r <? ST7565_PAGES) && (0 <=? c) && (c <? ST7565_WIDTH) then 0
      else lcd_ram (lcd (replay d log b0)) r c)) as ([] & log' & Hrun & Hr); [|by exists log'].
  unfold st7565_clear_display.
  assert (Z.of_nat (Z.to_nat ST7565_PAGES) = 8) as Hn by done.
  assert (Z.of_nat (Z.to_nat ST7565_WIDTH) = 128) as Hw by done.
  change (0 + ST7565_PAGES) with 8. change ST7565_PAGES with 8 at 2. change ST7565_WIDTH with 128 at 2.
  revert Hn Hw. generalize (Z.to_nat ST7565_PAGES) (Z.to_nat ST7565_WIDTH). intros n w Hn Hw.
  apply (wp_rect d Hpins b0 (fun p => p) (fun _ _ => DAT d 0) (fun _ _ => 0) 0 0 w n);
    [done|done|done|lia|done|unfold PANEL_COLUMNS; lia|]. intros log' Hr r c. rewrite Hr, Hn, Hw. done.
Qed.

Theorem st7565_clear_display_clears_witness : exists log',
  st7565_clear_display example_pins [] = Some (tt, log') /\
  forall r c, lcd_ram (Panel := example_panel) (lcd (replay (H := example_panel) example_pins log' example_board)) r c =
    if (0 <=? r) && (r <? ST7565_PAGES) && (0 <=? c) && (c <? ST7565_WIDTH) then 0
    else lcd_ram (Panel := example_panel) (lcd (replay (H := example_panel) example_pins [] example_board)) r c.
Proof. apply (st7565_clear_display_clears example_panel example_panel_laws). discriminate. Defined.

(** Reading a row of 255 bytes from a buffer of 128. *)
Lemma row_overread d buf n : length buf = 128%nat -> forall i log, 0 <= i <= 128 -> 128 < i + Z.of_nat n ->
  for_up n i (fun i => v ← read_buf buf (0 * 255 + i); DAT d v) log = None.
Proof.
  intros Hlen. induction n as [|n IH]; intros i log Hi Hn; [lia|]. cbn [for_up].
  unfold mbind at 1, M_bind at 1. unfold mbind at 1, M_bind at 1. unfold read_buf at 1.
  rewrite bool_decide_true by lia. destruct (buf !! Z.to_nat (0 * 255 + i)) as [v|] eqn:Ev; [|done].
  apply lookup_lt_Some in Ev. cbn [mbind option_bind].
  destruct (DAT d v log) as [[[] log']|] eqn:E; [|done]. apply IH; lia.
Qed.

(** The size check of [st7565.graphics] works on the integers given, the
    drawing on their low bytes: [width = -1] and [pages = -128] pass it with a
    buffer of 128 bytes, and the drawing reads past the end of the buffer, for
    any contents. *)
Theorem mp_st7565_draw_negative_size_overread d buf log : length buf = 128%nat ->
  u32 ((-1) * (-128)) = Z.of_nat (length buf) /\
  st7565_draw_buffer_ex d buf (u8 0) (u8 0) (u8 (-1)) (u8 (-128)) log = None /\
  mp_st7565_draw d buf 0 0 (-1) (-128) log = None.
Proof.
  intros Hlen.
  assert (st7565_draw_buffer_ex d buf (u8 0) (u8 0) (u8 (-1)) (u8 (-128)) log = None) as Hnone.
  { change (u8 0) with 0. change (u8 (-1)) with 255. change (u8 (-128)) with 128.
    unfold st7565_draw_buffer_ex. change (Z.to_nat 128) with (S 127). generalize 127%nat. intros n. cbn [for_up].
    unfold mbind at 1, M_bind at 1. unfold mbind at 1, M_bind at 1.
    destruct (st7565_set_page_address d _ log) as [[[] log1]|]; [|done].
    unfold mbind at 1, M_bind at 1. destruct (st7565_set_column_address d 0 log1) as [[[] log2]|]; [|done].
    rewrite row_overread; [done|done|lia|lia]. }
  split; [by rewrite Hlen|]. split; [done|]. unfold mp_st7565_draw. cbv zeta.
  unfold mbind at 1, M_bind at 1. change (assert_ _ log) with (Some (tt, log)). cbv beta iota.
  rewrite Hlen. change (negb _) with false. cbv iota. unfold mbind, M_bind. by rewrite Hnone.
Qed.

Theorem mp_st7565_draw_negative_size_overread_witness :
  u32 ((-1) * (-128)) = Z.of_nat (length (replicate 128 7)) /\
  st7565_draw_buffer_ex example_pins (replicate 128 7) (u8 0) (u8 0) (u8 (-1)) (u8 (-128)) [] = None /\
  mp_st7565_draw example_pins (replicate 128 7) 0 0 (-1) (-128) [] = None.
Proof. apply (mp_st7565_draw_negative_size_overread example_pins (replicate 128 7)). reflexivity. Defined.
