(* ===== verification/TimeUtils.v ===== *)
(** * Calendar arithmetic ([shared/timeutils/timeutils.c])

    Seconds since 2000-01-01 to date and time and back.  [mp_uint_t] is 32 bits
    and wraps; a signed operation that overflows has no meaning in C and the
    theorems state the ranges in which none does.  [None] is an access outside
    one of the tables (or, in the loops, fuel that has run out).  Behind the
    functions are the rules of the Gregorian calendar and the proofs against them. *)
From S2P Require Import Prelude.
Local Open Scope Z_scope.

Definition LEAPOCH : Z := (31 + 29) * 86400.
Definition DAYS_PER_400Y : Z := 365 * 400 + 97.
Definition DAYS_PER_100Y : Z := 365 * 100 + 24.
Definition DAYS_PER_4Y : Z := 365 * 4 + 1.

Definition days_since_jan1 : list Z := [0; 31; 59; 90; 120; 151; 181; 212; 243; 273; 304; 334; 365].

(** [tab\[i\]] *)
Definition index (tab : list Z) (i : Z) : option Z :=
  if bool_decide (0 <= i) then tab !! Z.to_nat i else None.

Definition timeutils_is_leap_year (year : Z) : bool :=
  ((year `mod` 4 =? 0) && negb (year `mod` 100 =? 0)) || (year `mod` 400 =? 0).

Definition timeutils_days_in_month (year month : Z) : option Z :=
  hi ← index days_since_jan1 month;
  lo ← index days_since_jan1 (month - 1);
  let mdays := hi - lo in
  Some (if (month =? 2) && timeutils_is_leap_year year then mdays + 1 else mdays).

Definition timeutils_year_day (year month date : Z) : option Z :=
  before ← index days_since_jan1 (month - 1);
  let yday := u32 (before + date) in
  Some (if (3 <=? month) && timeutils_is_leap_year year then u32 (yday + 1) else yday).

Record timeutils_struct_time_t := MkTime {
  tm_year : Z; tm_mon : Z; tm_mday : Z; tm_hour : Z; tm_min : Z; tm_sec : Z; tm_wday : Z; tm_yday : Z }.

(** "Note: days_in_month[0] corresponds to March" *)
Definition days_in_month : list Z := [31; 30; 31; 30; 31; 31; 30; 31; 30; 31; 31; 29].

(** The years since 2000-03-01 and the day of that year, from the days since
    then: the 400, 100, 4 and 1 year cycles. *)
Definition split_days (days : Z) : Z * Z :=
  let qc_cycles := Z.quot days DAYS_PER_400Y in
  let days := Z.rem days DAYS_PER_400Y in
  let '(days, qc_cycles) := if days <? 0 then (days + DAYS_PER_400Y, qc_cycles - 1) else (days, qc_cycles) in
  let c_cycles := Z.quot days DAYS_PER_100Y in
  let c_cycles := if c_cycles =? 4 then c_cycles - 1 else c_cycles in
  let days := days - c_cycles * DAYS_PER_100Y in
  let q_cycles := Z.quot days DAYS_PER_4Y in
  let q_cycles := if q_cycles =? 25 then q_cycles - 1 else q_cycles in
  let days := days - q_cycles * DAYS_PER_4Y in
  let years := Z.quot days 365 in
  let years := if years =? 4 then years - 1 else years in
  let days := days - years * 365 in
  (years + 4 * q_cycles + 100 * c_cycles + 400 * qc_cycles, days).

Fixpoint month_loop (fuel : nat) (month days : Z) : option (Z * Z) :=
  match fuel with
  | O => None
  | S fuel =>
      n ← index days_in_month month;
      if n <=? days then month_loop fuel (month + 1) (days - n) else Some (month, days)
  end.

Definition timeutils_seconds_since_2000_to_struct_time (t : Z) : option timeutils_struct_time_t :=
  let seconds := s32 (u32 (t - LEAPOCH)) in
  let days := Z.quot seconds 86400 in
  let seconds := Z.rem seconds 86400 in
  let '(seconds, days) := if seconds <? 0 then (seconds + 86400, days - 1) else (seconds, days) in
  let hour := Z.quot seconds 3600 in
  let min := Z.rem (Z.quot seconds 60) 60 in
  let sec := Z.rem seconds 60 in
  let wday := Z.rem (days + 2) 7 in
  let wday := if wday <? 0 then wday + 7 else wday in
  let '(years, days) := split_days days in
  let year := u16 (2000 + years) in
  '(month, days) ← month_loop 13 0 days;
  let mon := u8 (month + 2) in
  let '(mon, year) := if 12 <=? mon then (mon - 12, u16 (year + 1)) else (mon, year) in
  let mday := u8 (days + 1) in
  let mon := u8 (mon + 1) in
  yday ← timeutils_year_day year mon mday;
  Some (MkTime year mon mday (u8 hour) (u8 min) (u8 sec) (u8 wday) (u16 yday)).

Definition timeutils_seconds_since_2000 (year month date hour minute second : Z) : option Z :=
  yday ← timeutils_year_day year month date;
  Some (u32 (second + minute * 60 + hour * 3600
    + (yday - 1
       + (u32 (year - 2000 + 3) / 4)
       - (u32 (year - 2000 + 99) / 100)
       + (u32 (year - 2000 + 399) / 400)) * 86400
    + (year - 2000) * 31536000)).

(** [x += y / n; if ((y = y % n) < 0) { y += n; x--; }] *)
Definition carry (x y n : Z) : Z * Z :=
  let x := x + Z.quot y n in
  let y := Z.rem y n in
  if y <? 0 then (x - 1, y + n) else (x, y).

(** "while (mday < 1)": go back by months. *)
Fixpoint back_loop (fuel : nat) (year month mday : Z) : option (Z * Z * Z) :=
  match fuel with
  | O => None
  | S fuel =>
      if mday <? 1 then
        let month := month - 1 in
        let '(month, year) := if month =? 0 then (12, u32 (year - 1)) else (month, year) in
        n ← timeutils_days_in_month year month;
        back_loop fuel year month (mday + n)
      else Some (year, month, mday)
  end.

(** "while ((mp_uint_t)mday > timeutils_days_in_month(year, month))" *)
Fixpoint forward_loop (fuel : nat) (year month mday : Z) : option (Z * Z * Z) :=
  match fuel with
  | O => None
  | S fuel =>
      n ← timeutils_days_in_month year month;
      if n <? u32 mday then
        let mday := mday - n in
        let month := month + 1 in
        let '(month, year) := if month =? 13 then (1, u32 (year + 1)) else (month, year) in
        forward_loop fuel year month mday
      else Some (year, month, mday)
  end.

(** Every round changes [mday] by 28 days or more. *)
Definition mday_fuel (mday : Z) : nat := S (Z.to_nat (Z.abs mday)).

Definition timeutils_mktime_2000 (year month mday hours minutes seconds : Z) : option Z :=
  let '(minutes, seconds) := carry minutes seconds 60 in
  let '(hours, minutes) := carry hours minutes 60 in
  let '(mday, hours) := carry mday hours 24 in
  let month := month - 1 in
  let year := u32 (year + Z.quot month 12) in
  let month := Z.rem month 12 in
  let '(month, year) := if month <? 0 then (month + 12, u32 (year - 1)) else (month, year) in
  let month := month + 1 in
  '(year, month, mday) ← back_loop (mday_fuel mday + 1) year month mday;
  '(year, month, mday) ← forward_loop (mday_fuel mday) year month mday;
  timeutils_seconds_since_2000 year month (u32 mday) hours minutes seconds.

Definition timeutils_calc_weekday (y m d : Z) : Z :=
  let '(d, y) := if m <? 3 then (d + y, y - 1) else (d + (y - 2), y) in
  Z.rem (Z.quot (23 * m) 9 + d + 4 + Z.quot y 4 - Z.quot y 100 + Z.quot y 400 + 6) 7.

(** [timeutils.h], with the epoch of 2000: nanoseconds since 1970. *)
Definition TIMEUTILS_SECONDS_1970_TO_2000 : Z := 946684800.

Definition timeutils_seconds_since_epoch_to_nanoseconds_since_1970 (s : Z) : Z :=
  u64 (u64 (s + TIMEUTILS_SECONDS_1970_TO_2000) * 1000000000).
Definition timeutils_seconds_since_epoch_from_nanoseconds_since_1970 (ns : Z) : Z :=
  u32 (ns / 1000000000 - TIMEUTILS_SECONDS_1970_TO_2000).

(** ** The calendar functions agree with the Gregorian calendar

    [civil y m d] is the number of days from 2000-01-01 to a date, from the
    rules of the calendar; the three conversions are shown against it. *)

(** ** The calendar *)

Definition leap_day (y : Z) : Z := zbool (timeutils_is_leap_year y).
Definition year_start (y : Z) : Z :=
  365 * (y - 2000) + (y - 2000 + 3) / 4 - (y - 2000 + 99) / 100 + (y - 2000 + 399) / 400.
Definition month_start (y m : Z) : Z :=
  default 0 (days_since_jan1 !! Z.to_nat (m - 1)) + (if 3 <=? m then leap_day y else 0).
Definition civil (y m d : Z) : Z := year_start y + month_start y m + (d - 1).
Definition month_length (y m : Z) : Z :=
  default 0 (days_since_jan1 !! Z.to_nat m) - default 0 (days_since_jan1 !! Z.to_nat (m - 1)) +
  (if m =? 2 then leap_day y else 0).

Lemma leap_day_cases y : leap_day y = 1 /\ timeutils_is_leap_year y = true \/
  leap_day y = 0 /\ timeutils_is_leap_year y = false.
Proof. unfold leap_day. destruct (timeutils_is_leap_year y); [by left|by right]. Qed.

(** Evaluate the table look-ups and comparisons of a goal about a concrete month. *)
Ltac eval_term t := let v := eval vm_compute in t in change t with v in *.
Ltac eval_months :=
  repeat match goal with
  | |- context [default 0 (?l !! ?n)] => eval_term (default 0 (l !! n))
  | H : context [default 0 (?l !! ?n)] |- _ => eval_term (default 0 (l !! n))
  | |- context [index days_since_jan1 ?n] => eval_term (index days_since_jan1 n)
  | |- context [?a <=? ?b] =>
      let v := eval vm_compute in (a <=? b) in
      lazymatch v with true => change (a <=? b) with v | false => change (a <=? b) with v end
  | |- context [?a =? ?b] =>
      let v := eval vm_compute in (a =? b) in
      lazymatch v with true => change (a =? b) with v | false => change (a =? b) with v end
  end; cbv iota.

(** Both kinds of year, in such a goal. *)
Ltac by_leap y :=
  let H1 := fresh in let H2 := fresh in
  eval_months; cbn -[uwrap leap_day timeutils_is_leap_year];
  destruct (leap_day_cases y) as [[H1 H2]|[H1 H2]]; rewrite ?H1, ?H2.

Lemma month_cases0 (P : Z -> Prop) : P 0 -> P 1 -> P 2 -> P 3 -> P 4 -> P 5 -> P 6 -> P 7 -> P 8 -> P 9 -> P 10 -> P 11 ->
  forall m, 0 <= m <= 11 -> P m.
Proof.
  intros. assert (m = 0 \/ m = 1 \/ m = 2 \/ m = 3 \/ m = 4 \/ m = 5 \/ m = 6 \/ m = 7 \/ m = 8 \/ m = 9 \/ m = 10 \/ m = 11)
    as Hm by lia. repeat destruct Hm as [->|Hm]; try done. by subst.
Qed.

Lemma leap_day_divides y : leap_day y = (y + 3) / 4 * 0 + (y / 4 - (y - 1) / 4) - (y / 100 - (y - 1) / 100) + (y / 400 - (y - 1) / 400).
Proof.
  unfold leap_day, timeutils_is_leap_year.
  destruct (Z.eqb_spec (y `mod` 4) 0), (Z.eqb_spec (y `mod` 100) 0), (Z.eqb_spec (y `mod` 400) 0);
    cbn; Z.to_euclidean_division_equations; lia.
Qed.

Lemma year_start_succ y : year_start (y + 1) = year_start y + 365 + leap_day y.
Proof.
  rewrite leap_day_divides. unfold year_start.
  replace (y + 1 - 2000 + 3) with (y + (-499) * 4) by lia. replace (y - 2000 + 3) with (y - 1 + (-499) * 4) by lia.
  replace (y + 1 - 2000 + 99) with (y + (-19) * 100) by lia. replace (y - 2000 + 99) with (y - 1 + (-19) * 100) by lia.
  replace (y + 1 - 2000 + 399) with (y + (-4) * 400) by lia. replace (y - 2000 + 399) with (y - 1 + (-4) * 400) by lia.
  rewrite !Z.div_add by done. lia.
Qed.

Lemma month_cases (P : Z -> Prop) : P 1 -> P 2 -> P 3 -> P 4 -> P 5 -> P 6 -> P 7 -> P 8 -> P 9 -> P 10 -> P 11 -> P 12 ->
  forall m, 1 <= m <= 12 -> P m.
Proof.
  intros. assert (m = 1 \/ m = 2 \/ m = 3 \/ m = 4 \/ m = 5 \/ m = 6 \/ m = 7 \/ m = 8 \/ m = 9 \/ m = 10 \/ m = 11 \/ m = 12)
    as Hm by lia. repeat destruct Hm as [->|Hm]; try done. by subst.
Qed.

Lemma days_in_month_length y m : 1 <= m <= 12 -> timeutils_days_in_month y m = Some (month_length y m).
Proof.
  revert m. apply month_cases; unfold timeutils_days_in_month, month_length; by_leap y; done.
Qed.

Lemma month_start_range y m : 1 <= m <= 12 -> 0 <= month_start y m <= 366.
Proof. revert m. apply month_cases; unfold month_start; by_leap y; lia. Qed.

Lemma month_length_range y m : 1 <= m <= 12 -> 28 <= month_length y m <= 31.
Proof.
  revert m. apply month_cases; unfold month_length; by_leap y; lia.
Qed.

Lemma month_start_succ y m : 1 <= m <= 11 -> month_start y (m + 1) = month_start y m + month_length y m.
Proof.
  intros Hm. assert (1 <= m <= 12) as Hm' by lia. revert m Hm' Hm.
  apply (month_cases (fun m => 1 <= m <= 11 -> month_start y (m + 1) = month_start y m + month_length y m));
    intros ?; unfold month_start, month_length; by_leap y; lia.
Qed.

Lemma civil_next_year y d : civil (y + 1) 1 d = civil y 12 (d + month_length y 12).
Proof.
  unfold civil. rewrite year_start_succ. unfold month_start, month_length. by_leap y; lia.
Qed.

Lemma civil_next_month y m d : 1 <= m <= 11 -> civil y (m + 1) d = civil y m (d + month_length y m).
Proof. intros Hm. unfold civil. rewrite month_start_succ by done. lia. Qed.

Lemma year_day_spec y m d : 1 <= m <= 12 -> 0 <= d < 2 ^ 31 ->
  timeutils_year_day y m d = Some (month_start y m + d).
Proof.
  revert m. apply (month_cases (fun m => 0 <= d < 2 ^ 31 -> timeutils_year_day y m d = Some (month_start y m + d)));
    intros Hd; unfold timeutils_year_day, month_start; by_leap y; cbn -[uwrap Z.add];
    rewrite ?(uwrap_small 32 (_ + d)) by lia; rewrite ?uwrap_small by lia; f_equal; lia.
Qed.

(** ** Date to seconds *)

Lemma seconds_since_2000_civil y m d h mi s : 2000 <= y < 2 ^ 31 -> 1 <= m <= 12 -> 0 <= d < 2 ^ 31 ->
  timeutils_seconds_since_2000 y m d h mi s = Some (u32 (86400 * civil y m d + 3600 * h + 60 * mi + s)).
Proof.
  intros Hy Hm Hd. unfold timeutils_seconds_since_2000. rewrite year_day_spec by done. cbn -[uwrap Z.add Z.mul Z.sub].
  rewrite !(uwrap_small 32 (y - 2000 + _)) by lia. f_equal. f_equal. unfold civil, year_start. lia.
Qed.

(** ** Normalisation *)

Lemma quot_rem_floor a n : 0 < n ->
  (if Z.rem a n <? 0 then (Z.quot a n - 1, Z.rem a n + n) else (Z.quot a n, Z.rem a n)) = (a / n, a `mod` n).
Proof.
  intros Hn. pose proof (Z.quot_rem' a n) as He.
  assert (- n < Z.rem a n < n) as Hr.
  { pose proof (Z.rem_bound_abs a n ltac:(lia)). lia. }
  destruct (Z.ltb_spec (Z.rem a n) 0) as [Hlt|Hge]; f_equal.
  - apply (Z.div_unique a n _ (Z.rem a n + n)); [lia|lia].
  - apply (Z.mod_unique a n (Z.quot a n - 1)); [lia|lia].
  - apply (Z.div_unique a n _ (Z.rem a n)); [lia|lia].
  - apply (Z.mod_unique a n (Z.quot a n)); [lia|lia].
Qed.

Lemma carry_spec x y n : 0 < n -> carry x y n = (x + y / n, y `mod` n).
Proof.
  intros Hn. unfold carry. pose proof (quot_rem_floor y n Hn) as H.
  destruct (Z.rem y n <? 0); injection H as <- <-; f_equal; lia.
Qed.

(** ** The loops of [mktime] keep the day they denote *)

Lemma back_loop_civil fuel : forall y m d, 1 <= m <= 12 -> y < 2 ^ 31 -> 672 <= 336 * y + 28 * m + d ->
  (0 < fuel)%nat -> 1 - 28 * (Z.of_nat fuel - 1) <= d ->
  exists y' m' d', back_loop fuel y m d = Some (y', m', d') /\ civil y' m' d' = civil y m d /\
    y' <= y /\ 1 <= m' <= 12 /\ 1 <= d' <= Z.max d 31 /\ 336 * y + 28 * m + d <= 336 * y' + 28 * m' + d'.
Proof.
  induction fuel as [|fuel IH]; intros y m d Hm Hy Hg Hf Hd; [lia|]. cbn [back_loop].
  destruct (Z.ltb_spec d 1) as [Hd1|Hd1]; [|by exists y, m, d; repeat split; try lia].
  destruct (Z.eqb_spec (m - 1) 0) as [Hm1|Hm1].
  - assert (m = 1) as -> by lia. rewrite uwrap_small by lia.
    rewrite days_in_month_length by lia. cbn [mbind option_bind].
    pose proof (month_length_range (y - 1) 12 ltac:(lia)) as Hl.
    assert (month_length (y - 1) 12 = 31) as Hl12 by done.
    destruct (IH (y - 1) 12 (d + month_length (y - 1) 12)) as (y' & m' & d' & Hrun & Hc & Hr); [lia..|].
    exists y', m', d'. split; [done|]. split; [|lia]. rewrite Hc, <-civil_next_year. f_equal. lia.
  - rewrite days_in_month_length by lia. cbn [mbind option_bind].
    pose proof (month_length_range y (m - 1) ltac:(lia)) as Hl.
    destruct (IH y (m - 1) (d + month_length y (m - 1))) as (y' & m' & d' & Hrun & Hc & Hr); [lia..|].
    exists y', m', d'. split; [done|]. split; [|lia]. rewrite Hc, <-civil_next_month by lia. f_equal. lia.
Qed.

Lemma forward_loop_civil fuel : forall y m d, 1 <= m <= 12 -> 0 <= y -> y + d < 2 ^ 30 -> 1 <= d ->
  (0 < fuel)%nat -> d <= 28 * Z.of_nat fuel ->
  exists y' m' d', forward_loop fuel y m d = Some (y', m', d') /\ civil y' m' d' = civil y m d /\
    y <= y' < 2 ^ 30 /\ 1 <= m' <= 12 /\ 1 <= d' <= month_length y' m'.
Proof.
  induction fuel as [|fuel IH]; intros y m d Hm Hy Hyd Hd Hf Hfuel; [lia|]. cbn [forward_loop].
  rewrite days_in_month_length by lia. cbn [mbind option_bind]. rewrite uwrap_small by lia.
  pose proof (month_length_range y m Hm) as Hl.
  destruct (Z.ltb_spec (month_length y m) d) as [Hgt|Hle]; [|by exists y, m, d; repeat split; try lia].
  destruct (Z.eqb_spec (m + 1) 13) as [Hm1|Hm1].
  - assert (m = 12) as -> by lia. rewrite uwrap_small by lia.
    destruct (IH (y + 1) 1 (d - month_length y 12)) as (y' & m' & d' & Hrun & Hc & Hr); [lia..|].
    exists y', m', d'. split; [done|]. split; [|lia]. rewrite Hc, civil_next_year. f_equal. lia.
  - destruct (IH y (m + 1) (d - month_length y m)) as (y' & m' & d' & Hrun & Hc & Hr); [lia..|].
    exists y', m', d'. split; [done|]. split; [|lia]. rewrite Hc, civil_next_month by lia. f_equal. lia.
Qed.

Lemma civil_year y m d : 1 <= m <= 12 -> 1 <= d <= month_length y m -> 0 <= civil y m d -> 2000 <= y.
Proof.
  intros Hm Hd Hc. destruct (Z_lt_le_dec y 2000) as [Hy|]; [exfalso|done].
  assert (forall n, 0 <= n -> year_start (2000 - n) <= - 365 * n) as Hneg.
  { intros n Hn. pattern n. apply natlike_ind; [done| |done]. intros k Hk IHk.
    pose proof (year_start_succ (2000 - Z.succ k)) as Hs. replace (2000 - Z.succ k + 1) with (2000 - k) in Hs by lia.
    destruct (leap_day_cases (2000 - Z.succ k)) as [[Hl _]|[Hl _]]; lia. }
  assert (month_start y m + month_length y m <= 365 + leap_day y) as Hle.
  { revert m Hm Hd Hc. apply (month_cases (fun m => 1 <= d <= month_length y m -> 0 <= civil y m d ->
      month_start y m + month_length y m <= 365 + leap_day y));
      intros _ _; unfold month_start, month_length; by_leap y; lia. }
  unfold civil in Hc. pose proof (year_start_succ y) as Hs. specialize (Hneg (2000 - (y + 1)) ltac:(lia)).
  replace (2000 - (2000 - (y + 1))) with (y + 1) in Hneg by lia.
  lia.
Qed.

(** ** Days to date *)

(** The first day of month [i] (0 is March) of a year that starts in March. *)
Definition march_start : list Z := [0; 31; 61; 92; 122; 153; 184; 214; 245; 275; 306; 337].

Definition month_loop_ok (d : Z) : bool :=
  match month_loop 13 0 d with
  | Some (m, r) => (0 <=? m) && (m <=? 11) && (0 <=? r) && (r <? default 0 (days_in_month !! Z.to_nat m)) &&
      (default 0 (march_start !! Z.to_nat m) + r =? d)
  | None => false
  end.

Lemma month_loop_table : forallb month_loop_ok (map Z.of_nat (seq 0 366)) = true.
Proof. vm_compute. reflexivity. Qed.

Lemma month_loop_spec d : 0 <= d <= 365 -> exists m r, month_loop 13 0 d = Some (m, r) /\
  0 <= m <= 11 /\ 0 <= r < default 0 (days_in_month !! Z.to_nat m) /\ default 0 (march_start !! Z.to_nat m) + r = d.
Proof.
  intros Hd. pose proof month_loop_table as Ht. rewrite forallb_forall in Ht.
  assert (In d (map Z.of_nat (seq 0 366))) as Hin.
  { apply in_map_iff. exists (Z.to_nat d). split; [lia|]. apply in_seq. lia. }
  specialize (Ht d Hin).
  unfold month_loop_ok in Ht. destruct (month_loop 13 0 d) as [[m r]|]; [|done]. to_prop.
  exists m, r. repeat split; lia.
Qed.

(** The years are split so that only the last one of a cycle can be a leap year. *)
Lemma split_days_spec days : exists qc c q y d, split_days days = (y + 4 * q + 100 * c + 400 * qc, d) /\
  0 <= c <= 3 /\ 0 <= q <= 24 /\ 0 <= y <= 3 /\ 0 <= d <= 365 /\ (d = 365 -> y = 3 /\ (q < 24 \/ c = 3)) /\
  days = 146097 * qc + 36524 * c + 1461 * q + 365 * y + d.
Proof.
  unfold split_days. change DAYS_PER_400Y with 146097. change DAYS_PER_100Y with 36524. change DAYS_PER_4Y with 1461.
  pose proof (quot_rem_floor days 146097 ltac:(done)) as H.
  assert ((if Z.rem days 146097 <? 0 then (Z.rem days 146097 + 146097, Z.quot days 146097 - 1)
    else (Z.rem days 146097, Z.quot days 146097)) = (days `mod` 146097, days / 146097)) as ->.
  { destruct (Z.rem days 146097 <? 0); by injection H as -> ->. }
  pose proof (Z.mod_pos_bound days 146097 ltac:(done)) as Hr. pose proof (Z.div_mod days 146097 ltac:(done)) as Hdm.
  revert Hr Hdm. generalize (days `mod` 146097) (days / 146097). intros r qc Hr Hdm.
  rewrite (Z.quot_div_nonneg r) by lia.
  pose proof (Z.div_mod r 36524 ltac:(done)) as Hc. pose proof (Z.mod_pos_bound r 36524 ltac:(done)) as Hc'.
  set (c := if r / 36524 =? 4 then r / 36524 - 1 else r / 36524).
  assert (0 <= c <= 3 /\ 0 <= r - c * 36524 <= 36524 /\ (c < 3 -> r - c * 36524 < 36524)) as (Hc1 & Hc2 & Hc3).
  { unfold c. destruct (Z.eqb_spec (r / 36524) 4); lia. }
  revert Hc1 Hc2 Hc3. generalize c. clear c Hc Hc'. intros c Hc1 Hc2 Hc3.
  remember (r - c * 36524) as r1 eqn:Er1. rewrite (Z.quot_div_nonneg r1) by lia.
  pose proof (Z.div_mod r1 1461 ltac:(done)) as Hq. pose proof (Z.mod_pos_bound r1 1461 ltac:(done)) as Hq'.
  set (q := if r1 / 1461 =? 25 then r1 / 1461 - 1 else r1 / 1461).
  assert (0 <= q <= 24 /\ 0 <= r1 - q * 1461 <= 1460 /\ (r1 - q * 1461 = 1460 -> q < 24 \/ c = 3)) as (Hq1 & Hq2 & Hq3).
  { unfold q. destruct (Z.eqb_spec (r1 / 1461) 25); lia. }
  revert Hq1 Hq2 Hq3. generalize q. clear q Hq Hq'. intros q Hq1 Hq2 Hq3.
  remember (r1 - q * 1461) as r2 eqn:Er2. rewrite (Z.quot_div_nonneg r2) by lia.
  pose proof (Z.div_mod r2 365 ltac:(done)) as Hy. pose proof (Z.mod_pos_bound r2 365 ltac:(done)) as Hy'.
  set (y := if r2 / 365 =? 4 then r2 / 365 - 1 else r2 / 365).
  assert (0 <= y <= 3 /\ 0 <= r2 - y * 365 <= 365 /\ (r2 - y * 365 = 365 -> y = 3)) as (Hy1 & Hy2 & Hy3).
  { unfold y. destruct (Z.eqb_spec (r2 / 365) 4); lia. }
  exists qc, c, q, y, (r2 - y * 365). split; [done|]. split_and!; try lia.
Qed.

(** The day before 1 March of such a year, counted from 2000-01-01. *)
Lemma year_start_cycles qc c q y : 0 <= c <= 3 -> 0 <= q <= 24 -> 0 <= y <= 3 ->
  let Y := 2000 + (y + 4 * q + 100 * c + 400 * qc) in
  year_start Y + leap_day Y = 146097 * qc + 36524 * c + 1461 * q + 365 * y + 1.
Proof.
  intros Hc Hq Hy Y. assert (year_start Y + leap_day Y = year_start (Y + 1) - 365) as ->.
  { rewrite year_start_succ. lia. }
  unfold year_start, Y.
  replace (2000 + (y + 4 * q + 100 * c + 400 * qc) + 1 - 2000 + 3) with (y + 4 + (q + 25 * c + 100 * qc) * 4) by lia.
  replace (2000 + (y + 4 * q + 100 * c + 400 * qc) + 1 - 2000 + 99) with (y + 4 * q + 100 + (c + 4 * qc) * 100) by lia.
  replace (2000 + (y + 4 * q + 100 * c + 400 * qc) + 1 - 2000 + 399) with (y + 4 * q + 100 * c + 400 + qc * 400) by lia.
  rewrite !Z.div_add by done.
  rewrite <-(Z.div_unique (y + 4) 4 1 y), <-(Z.div_unique (y + 4 * q + 100) 100 1 (y + 4 * q)),
    <-(Z.div_unique (y + 4 * q + 100 * c + 400) 400 1 (y + 4 * q + 100 * c)) by lia.
  lia.
Qed.

(** The month and day found in such a year denote the day. *)
Lemma march_month_civil Y base m r : 0 <= m <= 11 -> year_start Y + leap_day Y = base + 1 ->
  base + 60 + (default 0 (march_start !! Z.to_nat m) + r) =
  if 12 <=? m + 2 then civil (Y + 1) (m - 9) (r + 1) else civil Y (m + 3) (r + 1).
Proof.
  intros Hm Hb. revert m Hm.
  apply month_cases0; eval_months; unfold civil, month_start; rewrite ?year_start_succ; eval_months; lia.
Qed.

(** Every day found is a day of its month; 29 February only in leap years. *)
Lemma march_month_length qc c q y d m r : 0 <= c <= 3 -> 0 <= q <= 24 -> 0 <= y <= 3 ->
  (d = 365 -> y = 3 /\ (q < 24 \/ c = 3)) -> 0 <= m <= 11 -> 0 <= r < default 0 (days_in_month !! Z.to_nat m) ->
  default 0 (march_start !! Z.to_nat m) + r = d ->
  let Y := 2000 + (y + 4 * q + 100 * c + 400 * qc) in
  r + 1 <= if 12 <=? m + 2 then month_length (Y + 1) (m - 9) else month_length Y (m + 3).
Proof.
  intros Hc Hq Hy Hd Hm Hr Hsum Y.
  assert (d = 365 -> leap_day (Y + 1) = 1) as Hleap.
  { intros H365. destruct (Hd H365) as [-> Hqc]. unfold leap_day, timeutils_is_leap_year, Y.
    set (z := 2000 + (3 + 4 * q + 100 * c + 400 * qc) + 1).
    assert (z `mod` 4 = 0) as ->.
    { replace z with (0 + (501 + q + 25 * c + 100 * qc) * 4) by lia. by rewrite Z.mod_add. }
    destruct (Z.lt_ge_cases q 24) as [Hq24|Hq24].
    - assert (z `mod` 100 = 4 * (q + 1)) as ->.
      { replace z with (4 * (q + 1) + (20 + c + 4 * qc) * 100) by lia. rewrite Z.mod_add by done.
        apply Z.mod_small. lia. }
      by rewrite (proj2 (Z.eqb_neq (4 * (q + 1)) 0)) by lia.
    - assert (z `mod` 400 = 0) as ->.
      { replace z with (0 + (6 + qc) * 400) by lia. by rewrite Z.mod_add. }
      by rewrite orb_true_r. }
  pose proof (leap_day_cases Y). pose proof (leap_day_cases (Y + 1)). revert m Hm Hr Hsum.
  apply (month_cases0 (fun m => 0 <= r < default 0 (days_in_month !! Z.to_nat m) ->
    default 0 (march_start !! Z.to_nat m) + r = d ->
    r + 1 <= if 12 <=? m + 2 then month_length (Y + 1) (m - 9) else month_length Y (m + 3)));
    intros Hr Hsum; eval_months; unfold month_length; eval_months; lia.
Qed.

(** What a converted time must be. *)
Record time_of (t : Z) (tm : timeutils_struct_time_t) : Prop := {
  to_month : 1 <= tm_mon tm <= 12;
  to_day : 1 <= tm_mday tm <= month_length (tm_year tm) (tm_mon tm);
  to_hour : 0 <= tm_hour tm < 24;
  to_min : 0 <= tm_min tm < 60;
  to_sec : 0 <= tm_sec tm < 60;
  to_total : 86400 * civil (tm_year tm) (tm_mon tm) (tm_mday tm) + 3600 * tm_hour tm + 60 * tm_min tm + tm_sec tm = t;
  to_wday : tm_wday tm = (5 + t / 86400) `mod` 7;
  to_yday : tm_yday tm = 1 + civil (tm_year tm) (tm_mon tm) (tm_mday tm) - civil (tm_year tm) 1 1 }.

(** The date part, from the days since 2000-03-01. *)
Lemma date_of_days days : - 60 <= days < 24856 ->
  exists years d m r, split_days days = (years, d) /\ month_loop 13 0 d = Some (m, r) /\
    -1 <= years <= 68 /\ 0 <= m <= 11 /\ 0 <= r <= 30 /\
    civil (if 12 <=? m + 2 then 2000 + years + 1 else 2000 + years) (if 12 <=? m + 2 then m - 9 else m + 3) (r + 1) = days + 60 /\
    r + 1 <= month_length (if 12 <=? m + 2 then 2000 + years + 1 else 2000 + years) (if 12 <=? m + 2 then m - 9 else m + 3).
Proof.
  intros Hdays. destruct (split_days_spec days) as (qc & c & q & y & d & Hsplit & Hc & Hq & Hy & Hd & Hlast & Hsum).
  destruct (month_loop_spec d Hd) as (m & r & Hloop & Hm & Hr & Hmr).
  exists (y + 4 * q + 100 * c + 400 * qc), d, m, r. split; [done|]. split; [done|]. split; [lia|]. split; [done|].
  assert (r <= 30) as Hr30.
  { revert m Hm Hloop Hr Hmr. apply (month_cases0 (fun m => month_loop 13 0 d = Some (m, r) ->
      0 <= r < default 0 (days_in_month !! Z.to_nat m) -> default 0 (march_start !! Z.to_nat m) + r = d -> r <= 30));
      intros _ Hr _; eval_months; lia. }
  split; [lia|].
  pose proof (year_start_cycles qc c q y Hc Hq Hy) as Hys.
  pose proof (march_month_civil _ _ m r Hm Hys) as Hciv. pose proof (march_month_length qc c q y d m r Hc Hq Hy Hlast Hm Hr Hmr) as Hlen.
  cbv zeta in Hciv, Hlen. destruct (12 <=? m + 2); (split; [lia|done]).
Qed.

(** C24: [timeutils_seconds_since_2000_to_struct_time] gives the Gregorian date
    and time, the weekday and the day of the year of every [t] before
    2068-03-19 03:14:08, and [timeutils_seconds_since_2000] gives [t] back. *)
Theorem timeutils_struct_time_correct t : 0 <= t < 2 ^ 31 + LEAPOCH ->
  exists tm, timeutils_seconds_since_2000_to_struct_time t = Some tm /\ time_of t tm /\
    timeutils_seconds_since_2000 (tm_year tm) (tm_mon tm) (tm_mday tm) (tm_hour tm) (tm_min tm) (tm_sec tm) = Some t.
Proof.
  intros Ht. change LEAPOCH with 5184000 in *. unfold timeutils_seconds_since_2000_to_struct_time.
  assert (s32 (u32 (t - LEAPOCH)) = t - 5184000) as ->.
  { change LEAPOCH with 5184000. unfold swrap, uwrap. rewrite Z.add_mod_idemp_l by done.
    change (2 ^ (32 - 1)) with 2147483648. rewrite Z.mod_small by lia. lia. }
  pose proof (quot_rem_floor (t - 5184000) 86400 ltac:(done)) as Hfl.
  assert ((if Z.rem (t - 5184000) 86400 <? 0
    then (Z.rem (t - 5184000) 86400 + 86400, Z.quot (t - 5184000) 86400 - 1)
    else (Z.rem (t - 5184000) 86400, Z.quot (t - 5184000) 86400)) =
    ((t - 5184000) `mod` 86400, (t - 5184000) / 86400)) as ->.
  { destruct (Z.rem (t - 5184000) 86400 <? 0); by injection Hfl as -> ->. }
  pose proof (Z.div_mod (t - 5184000) 86400 ltac:(done)) as Hdm.
  pose proof (Z.mod_pos_bound (t - 5184000) 86400 ltac:(done)) as Hs.
  revert Hdm Hs. generalize ((t - 5184000) `mod` 86400) ((t - 5184000) / 86400). intros s days Hdm Hs. clear Hfl.
  assert (- 60 <= days < 24856) as Hdays by lia.
  destruct (date_of_days days Hdays) as (years & d & m & r & Hsplit & Hloop & Hyears & Hm & Hr & Hciv & Hlen).
  rewrite Hsplit. cbv zeta. rewrite (uwrap_small 16 (2000 + years)) by lia. rewrite Hloop.
  cbn [mbind option_bind]. rewrite (uwrap_small 8 (m + 2)), (uwrap_small 8 (r + 1)) by lia.
  rewrite (uwrap_small 16 (2000 + years + 1)) by lia.
  set (Y := if 12 <=? m + 2 then 2000 + years + 1 else 2000 + years) in *.
  set (mon := if 12 <=? m + 2 then m - 9 else m + 3) in *.
  assert ((if 12 <=? m + 2 then (m + 2 - 12, 2000 + years + 1) else (m + 2, 2000 + years)) = (mon - 1, Y)) as ->.
  { unfold mon, Y. destruct (12 <=? m + 2); f_equal; lia. }
  assert (1 <= mon <= 12) as Hmon by (unfold mon; destruct (Z.leb_spec 12 (m + 2)); lia).
  assert (1999 <= Y <= 2069) as HY by (unfold Y; destruct (12 <=? m + 2); lia).
  rewrite (uwrap_small 8 (mon - 1 + 1)) by lia. replace (mon - 1 + 1) with mon by lia.
  rewrite year_day_spec by lia. cbn [mbind option_bind].
  pose proof (month_length_range Y mon Hmon).
  assert (2000 <= Y) as HY0.
  { apply (civil_year Y mon (r + 1)); [done|lia|lia]. }
  pose proof (month_start_range Y mon Hmon) as Hms.
  rewrite (Z.quot_div_nonneg s 3600), (Z.quot_div_nonneg s 60), (Z.rem_mod_nonneg s 60) by lia.
  pose proof (Z.div_mod s 3600 ltac:(done)) as H1. pose proof (Z.mod_pos_bound s 3600 ltac:(done)) as H1'.
  pose proof (Z.div_mod s 60 ltac:(done)) as H2. pose proof (Z.mod_pos_bound s 60 ltac:(done)) as H2'.
  rewrite (Z.rem_mod_nonneg (s / 60) 60) by lia.
  pose proof (Z.div_mod (s / 60) 60 ltac:(done)) as H3. pose proof (Z.mod_pos_bound (s / 60) 60 ltac:(done)) as H3'.
  assert (s / 60 / 60 = s / 3600) as H4 by (by rewrite Z.div_div).
  assert ((if Z.rem (days + 2) 7 <? 0 then Z.rem (days + 2) 7 + 7 else Z.rem (days + 2) 7) = (days + 2) `mod` 7) as ->.
  { pose proof (quot_rem_floor (days + 2) 7 ltac:(done)) as Hf. destruct (Z.rem (days + 2) 7 <? 0); by injection Hf as _ ->. }
  pose proof (Z.mod_pos_bound (days + 2) 7 ltac:(done)) as Hw.
  rewrite (uwrap_small 8 (s / 3600)), (uwrap_small 8 ((s / 60) `mod` 60)), (uwrap_small 8 (s `mod` 60)),
    (uwrap_small 8 ((days + 2) `mod` 7)) by lia.
  rewrite (uwrap_small 16 (month_start Y mon + (r + 1))) by lia.
  eexists. split; [reflexivity|]. cbn [tm_year tm_mon tm_mday tm_hour tm_min tm_sec tm_wday tm_yday]. split.
  - split; cbn [tm_year tm_mon tm_mday tm_hour tm_min tm_sec tm_wday tm_yday]; try lia.
    + assert (t / 86400 = days + 60) as ->.
      { symmetry. apply (Z.div_unique t 86400 _ s); lia. }
      replace (5 + (days + 60)) with (days + 2 + 9 * 7) by lia. by rewrite Z.mod_add.
    + unfold civil at 2. unfold month_start at 2. eval_months. unfold civil. lia.
  - rewrite seconds_since_2000_civil by lia. f_equal. rewrite uwrap_small by lia. lia.
Qed.

Theorem timeutils_struct_time_correct_witness :
  exists tm, timeutils_seconds_since_2000_to_struct_time 762566400 = Some tm /\ time_of 762566400 tm /\
    timeutils_seconds_since_2000 (tm_year tm) (tm_mon tm) (tm_mday tm) (tm_hour tm) (tm_min tm) (tm_sec tm) = Some 762566400.
Proof. apply (timeutils_struct_time_correct 762566400). split; [discriminate|reflexivity]. Defined.

(** [timeutils_mktime_2000] accepts fields out of range in both directions:
    its result is linear in the days, hours, minutes and seconds, counted from
    the first day of the normalised month. *)
Theorem timeutils_mktime_2000_linear year month mday hours minutes seconds :
  1600 <= year < 2 ^ 20 -> - 10000 < month < 2 ^ 20 -> - 200000 < mday < 2 ^ 20 ->
  - 2 ^ 20 < hours < 2 ^ 20 -> - 2 ^ 20 < minutes < 2 ^ 20 -> - 2 ^ 20 < seconds < 2 ^ 20 ->
  let first := civil (year + (month - 1) / 12) ((month - 1) `mod` 12 + 1) 1 in
  let total := 86400 * (first + (mday - 1)) + 3600 * hours + 60 * minutes + seconds in
  0 <= total -> timeutils_mktime_2000 year month mday hours minutes seconds = Some (u32 total).
Proof.
  intros Hy Hmo Hd Hh Hmi Hse first total Htot. unfold timeutils_mktime_2000. rewrite carry_spec by done. cbv beta iota.
  pose proof (Z.div_mod seconds 60 ltac:(done)) as H1. pose proof (Z.mod_pos_bound seconds 60 ltac:(done)) as H1'.
  rewrite carry_spec by done. cbv beta iota.
  pose proof (Z.div_mod (minutes + seconds / 60) 60 ltac:(done)) as H2.
  pose proof (Z.mod_pos_bound (minutes + seconds / 60) 60 ltac:(done)) as H2'.
  revert H2 H2'. generalize ((minutes + seconds / 60) / 60) ((minutes + seconds / 60) `mod` 60). intros ch mi H2 H2'.
  rewrite carry_spec by done. cbv beta iota zeta.
  pose proof (Z.div_mod (hours + ch) 24 ltac:(done)) as H3. pose proof (Z.mod_pos_bound (hours + ch) 24 ltac:(done)) as H3'.
  revert H3 H3'. generalize ((hours + ch) / 24) ((hours + ch) `mod` 24). intros cd h H3 H3'.
  pose proof (quot_rem_floor (month - 1) 12 ltac:(done)) as Hm.
  pose proof (Z.div_mod (month - 1) 12 ltac:(done)) as H4. pose proof (Z.mod_pos_bound (month - 1) 12 ltac:(done)) as H4'.
  set (y0 := year + (month - 1) / 12) in *. set (m0 := (month - 1) `mod` 12) in *.
  assert ((if Z.rem (month - 1) 12 <? 0
    then (Z.rem (month - 1) 12 + 12, u32 (u32 (year + Z.quot (month - 1) 12) - 1))
    else (Z.rem (month - 1) 12, u32 (year + Z.quot (month - 1) 12))) = (m0, y0)) as ->.
  { unfold y0, m0. destruct (Z.rem (month - 1) 12 <? 0); injection Hm as Hq Hr; rewrite Hr, ?Hq; f_equal;
      rewrite (uwrap_small 32 (year + _)) by lia; rewrite ?uwrap_small by lia; lia. }
  cbv zeta.
  assert (-17800 <= ch <= 17800) by lia. assert (-44500 <= cd <= 44500) by lia.
  destruct (back_loop_civil (mday_fuel (mday + cd) + 1) y0 (m0 + 1) (mday + cd)) as (y1 & m1 & d1 & Hrun1 & Hc1 & Hr1);
    [lia|lia|lia|lia|unfold mday_fuel; lia|].
  rewrite Hrun1. cbn [mbind option_bind].
  assert (civil y1 m1 d1 = first + (mday + cd - 1)) as Hciv by (rewrite Hc1; unfold first, civil; lia).
  destruct (forward_loop_civil (mday_fuel d1) y1 m1 d1) as (y2 & m2 & d2 & Hrun2 & Hc2 & Hr2);
    [lia|lia|lia|lia|unfold mday_fuel; lia|unfold mday_fuel; lia|].
  rewrite Hrun2. cbn [mbind option_bind].
  pose proof (month_length_range y2 m2 ltac:(lia)).
  assert (2000 <= y2) as Hy2 by (apply (civil_year y2 m2 d2); lia).
  rewrite (uwrap_small 32 d2) by lia. rewrite seconds_since_2000_civil by lia. f_equal. f_equal. unfold total. lia.
Qed.

Theorem timeutils_mktime_2000_linear_witness :
  timeutils_mktime_2000 2024 15 (-3) 30 (-10) 100 = Some (u32 (86400 * (civil 2025 3 1 + (-3 - 1)) + 3600 * 30 + 60 * -10 + 100)).
Proof. apply (timeutils_mktime_2000_linear 2024 15 (-3) 30 (-10) 100); [lia..|vm_compute; discriminate]. Defined.

(** From 2068-03-19 03:14:08 on the conversion to a date goes back to 1932:
    the seconds since the leap epoch no longer fit the signed word. *)
Theorem timeutils_struct_time_wraps_2068 : exists tm,
  timeutils_seconds_since_2000_to_struct_time (2 ^ 31 + LEAPOCH) = Some tm /\
  (tm_year tm, tm_mon tm, tm_mday tm) = (1932, 2, 11) /\ civil 2068 3 19 * 86400 <= 2 ^ 31 + LEAPOCH.
Proof. eexists. split; [vm_compute; reflexivity|]. split; [reflexivity|discriminate]. Qed.
