(* ===== verification/PairHeap.v ===== *)
(** * Pairing heaps ([py/pairheap.c], [py/pairheap.h])

    The nodes of a heap are linked through three pointers; the lowest bit of
    [next] tells a sibling from the parent of a last child.  A pointer is its
    32-bit address, the null pointer is 0, and the memory maps the addresses of
    nodes to nodes.  [lt] is the order the caller passes as a callback. *)
From S2P Require Import Prelude.
From S2P Require Import CMem.
Local Open Scope Z_scope.

(** [mp_pairheap_t] without its [base]. *)
Record mp_pairheap_t := MkPairheap { child : Z; child_last : Z; next : Z }.

Abbreviation mem := (gmap Z mp_pairheap_t).
Abbreviation Mh := (M mem).

Definition node (p : Z) : Mh mp_pairheap_t := fun m => x ← m !! p; Some (x, m).
Definition set_child (p v : Z) : Mh unit := x ← node p; modify <[p := MkPairheap v (child_last x) (next x)]>.
Definition set_child_last (p v : Z) : Mh unit := x ← node p; modify <[p := MkPairheap (child x) v (next x)]>.
Definition set_next (p v : Z) : Mh unit := x ← node p; modify <[p := MkPairheap (child x) (child_last x) v]>.

Definition NEXT_MAKE_RIGHTMOST_PARENT (parent : Z) : Z := Z.lor parent 1.
Definition NEXT_IS_RIGHTMOST_PARENT (next : Z) : bool := negb (Z.land next 1 =? 0).
Definition NEXT_GET_RIGHTMOST_PARENT (next : Z) : Z := Z.land next (u32 (Z.lnot 1)).

Section Heap.
Context (lt : Z -> Z -> bool).

Definition mp_pairheap_meld (heap1 heap2 : Z) : Mh Z :=
  if heap1 =? 0 then mret heap2
  else if heap2 =? 0 then mret heap1
  else if lt heap1 heap2 then
    h1 ← node heap1;
    (if child h1 =? 0 then set_child heap1 heap2 else set_next (child_last h1) heap2);;
    set_child_last heap1 heap2;;
    set_next heap2 (NEXT_MAKE_RIGHTMOST_PARENT heap1);;
    mret heap1
  else
    h2 ← node heap2;
    set_next heap1 (child h2);;
    set_child heap2 heap1;;
    h1 ← node heap1;
    (if next h1 =? 0 then
       set_child_last heap2 heap1;;
       set_next heap1 (NEXT_MAKE_RIGHTMOST_PARENT heap2)
     else mret tt);;
    mret heap2.

(** One round of the loop: [inr] when there are no more children. *)
Definition pairing_round (hc : Z * Z) : Mh ((Z * Z) + Z) :=
  let '(heap, child) := hc in
  if NEXT_IS_RIGHTMOST_PARENT child then mret (inr heap)
  else
    let n1 := child in
    x ← node n1;
    let child := next x in
    set_next n1 0;;
    if negb (NEXT_IS_RIGHTMOST_PARENT child) then
      let n2 := child in
      y ← node n2;
      let child := next y in
      set_next n2 0;;
      n1 ← mp_pairheap_meld n1 n2;
      heap ← mp_pairheap_meld heap n1;
      mret (inl (heap, child))
    else
      heap ← mp_pairheap_meld heap n1;
      mret (inl (heap, child)).

Definition mp_pairheap_pairing (child : Z) : Mh Z :=
  if child =? 0 then mret 0
  else
    m ← get;
    heap ← loop (S (size m)) pairing_round (0, child);
    set_next heap 0;;
    mret heap.

(** [parent = node; while (!NEXT_IS_RIGHTMOST_PARENT(parent->next)) parent = parent->next;]
    and then the parent itself. *)
Definition find_parent (node_ : Z) : Mh Z :=
  m ← get;
  loop (S (size m)) (fun parent =>
    x ← node parent;
    mret (if NEXT_IS_RIGHTMOST_PARENT (next x) then inr (NEXT_GET_RIGHTMOST_PARENT (next x)) else inl (next x))) node_.

(** [n = parent->child; while (node != n->next) n = n->next;] *)
Definition find_previous (first node_ : Z) : Mh Z :=
  m ← get;
  loop (S (size m)) (fun n => x ← node n; mret (if next x =? node_ then inr n else inl (next x))) first.

(** The last three statements: [node] is linked to what followed. *)
Definition relink (heap parent node_ next_ : Z) : Mh Z :=
  set_next node_ next_;;
  (if NEXT_IS_RIGHTMOST_PARENT next_ then set_child_last parent node_ else mret tt);;
  mret heap.

Definition mp_pairheap_delete (heap node_ : Z) : Mh Z :=
  if node_ =? heap then
    h ← node heap;
    set_child node_ 0;;
    mp_pairheap_pairing (child h)
  else
    x ← node node_;
    if next x =? 0 then mret heap
    else
      parent ← find_parent node_;
      p ← node parent;
      if (node_ =? child p) && (child x =? 0) then
        (if NEXT_IS_RIGHTMOST_PARENT (next x) then set_child parent 0 else set_child parent (next x));;
        set_next node_ 0;;
        mret heap
      else if node_ =? child p then
        set_child node_ 0;;
        set_next node_ 0;;
        node_ ← mp_pairheap_pairing (child x);
        set_child parent node_;;
        relink heap parent node_ (next x)
      else
        n ← find_previous (child p) node_;
        set_child node_ 0;;
        set_next node_ 0;;
        node_ ← mp_pairheap_pairing (child x);
        if node_ =? 0 then relink heap parent n (next x)
        else set_next n node_;; relink heap parent node_ (next x).

Definition mp_pairheap_new : Z := 0.
Definition mp_pairheap_init_node (node_ : Z) : Mh unit := set_child node_ 0;; set_next node_ 0.
Definition mp_pairheap_is_empty (heap : Z) : bool := heap =? 0.
Definition mp_pairheap_peek (heap : Z) : Z := heap.

Definition mp_pairheap_push (heap node_ : Z) : Mh Z :=
  x ← node node_;
  assert_ ((child x =? 0) && (next x =? 0));;
  mp_pairheap_meld node_ heap.

Definition mp_pairheap_pop (heap : Z) : Mh Z :=
  h ← node heap;
  assert_ (next h =? 0);;
  set_child heap 0;;
  mp_pairheap_pairing (child h).

End Heap.
