(* ===== verification/PairHeapFacts.v ===== *)
(** * Pairing heaps as trees

    The children of a node are kept in the order of age, the newest first: those
    newer than the node, which were pushed or melded in front of it, then those
    older.  Read in that order ([elems]) a heap is the list of its elements from
    the newest to the oldest, and no operation permutes it; that is why the heap
    is stable.  [chain] is the representation of trees in memory. *)
From S2P Require Import Prelude.
From S2P Require Import CMem.
From S2P Require Import PairHeap.
Local Open Scope Z_scope.

(** A list of trees: the first one's root, its newer and its older children, and
    the other trees. *)
Inductive forest := FNil | FCons (x : Z) (newer older rest : forest).

#[export] Instance forest_eq_dec : EqDecision forest.
Proof. solve_decision. Defined.

Record tree := MkTree { root : Z; newer : forest; older : forest }.
Definition single (t : tree) : forest := FCons (root t) (newer t) (older t) FNil.

Fixpoint elems (f : forest) : list Z :=
  match f with FNil => [] | FCons x n o r => elems n ++ x :: elems o ++ elems r end.
Fixpoint fapp (f g : forest) : forest :=
  match f with FNil => g | FCons x n o r => FCons x n o (fapp r g) end.

Lemma elems_fapp f g : elems (fapp f g) = elems f ++ elems g.
Proof. induction f as [|x n _ o _ r IH]; [done|]. cbn. rewrite IH, <-app_assoc. cbn. by rewrite <-app_assoc. Qed.
Lemma fapp_nil f : fapp f FNil = f.
Proof. induction f as [|x n _ o _ r IH]; [done|]. cbn. by rewrite IH. Qed.
Lemma fapp_assoc f g h : fapp f (fapp g h) = fapp (fapp f g) h.
Proof. induction f as [|x n _ o _ r IH]; [done|]. cbn. by rewrite IH. Qed.
Lemma elems_single t : elems (single t) = elems (newer t) ++ root t :: elems (older t).
Proof. cbn. by rewrite app_nil_r. Qed.

(** The root of the last tree. *)
Fixpoint last_root (f : forest) : option Z :=
  match f with FNil => None | FCons x _ _ FNil => Some x | FCons _ _ _ r => last_root r end.

Lemma last_root_cons x n o r : r <> FNil -> last_root (FCons x n o r) = last_root r.
Proof. by destruct r. Qed.

Lemma last_root_fapp f g : g <> FNil -> last_root (fapp f g) = last_root g.
Proof.
  intros Hg. induction f as [|x n _ o _ r IH]; [done|]. cbn [fapp]. rewrite last_root_cons; [done|].
  by destruct r.
Qed.

(** ** Addresses *)

(** The address of a node: not null, a multiple of four. *)
Definition addr_ok (p : Z) : Prop := 0 < p < 2 ^ 32 /\ p `mod` 4 = 0.

Lemma addr_nonzero p : addr_ok p -> (p =? 0) = false.
Proof. intros [Hp _]. apply Z.eqb_neq. lia. Qed.

Lemma land_1 p : Z.land p 1 = p `mod` 2.
Proof. change 1 with (Z.ones 1). by rewrite Z.land_ones. Qed.

Lemma make_parent p : addr_ok p -> NEXT_MAKE_RIGHTMOST_PARENT p = p + 1.
Proof.
  intros [Hp Hm]. unfold NEXT_MAKE_RIGHTMOST_PARENT. rewrite Z.add_nocarry_lor; [done|].
  rewrite land_1. Z.to_euclidean_division_equations; lia.
Qed.

Lemma addr_not_parent p : addr_ok p -> NEXT_IS_RIGHTMOST_PARENT p = false.
Proof.
  intros [Hp Hm]. unfold NEXT_IS_RIGHTMOST_PARENT. rewrite land_1.
  replace (p `mod` 2) with 0; [done|]. Z.to_euclidean_division_equations; lia.
Qed.

Lemma parent_is_parent p : addr_ok p -> NEXT_IS_RIGHTMOST_PARENT (p + 1) = true.
Proof.
  intros [Hp Hm]. unfold NEXT_IS_RIGHTMOST_PARENT. rewrite land_1.
  replace ((p + 1) `mod` 2) with 1; [done|]. Z.to_euclidean_division_equations; lia.
Qed.

Lemma get_parent p : addr_ok p -> NEXT_GET_RIGHTMOST_PARENT (p + 1) = p.
Proof.
  intros [Hp Hm]. unfold NEXT_GET_RIGHTMOST_PARENT. change (u32 (Z.lnot 1)) with (Z.shiftl (Z.ones 31) 1).
  apply Z.bits_inj'. intros i Hi. rewrite Z.land_spec, Z.shiftl_spec, Z.testbit_ones by lia.
  rewrite <-(make_parent p) by done. unfold NEXT_MAKE_RIGHTMOST_PARENT. rewrite Z.lor_spec.
  destruct (decide (i = 0)) as [->|Hi0].
  - replace (Z.testbit p 0) with false; [done|]. rewrite Z.bit0_odd, Zodd_mod.
    replace (p `mod` 2) with 0; [done|]. Z.to_euclidean_division_equations; lia.
  - replace (Z.testbit 1 i) with false by (symmetry; apply Z.bits_above_log2; cbn; lia).
    rewrite orb_false_r. destruct (decide (i < 32)).
    + replace ((0 <=? i - 1) && (i - 1 <? 31)) with true by (symmetry; apply andb_true_iff; split; [apply Z.leb_le|apply Z.ltb_lt]; lia).
      by rewrite andb_true_r.
    + rewrite (Z.bits_above_log2 p i); [done|lia|]. apply Z.log2_lt_pow2; [lia|].
      apply (Z.lt_le_trans _ (2 ^ 32)); [lia|]. apply Z.pow_le_mono_r; lia.
Qed.

(** ** Trees in memory *)

(** [chain m f h e]: [h] points to the first of the siblings [f], and the [next]
    of the last one is [e]. *)
Fixpoint chain (m : mem) (f : forest) (h e : Z) : Prop :=
  match f with
  | FNil => h = e
  | FCons x n o r =>
      h = x /\ addr_ok x /\
      exists nd, m !! x = Some nd /\ chain m r (next nd) e /\
        match n, o with
        | FNil, FNil => child nd = 0
        | _, _ => exists mid, chain m n (child nd) mid /\ chain m o mid (x + 1) /\
                    last_root (fapp n o) = Some (child_last nd)
        end
  end.

(** The children of a node: its fields [child] and [child_last]. *)
Definition kids (m : mem) (x c cl : Z) (f : forest) : Prop :=
  match f with FNil => c = 0 | _ => chain m f c (x + 1) /\ last_root f = Some cl end.

Lemma chain_fapp m f g h e : chain m (fapp f g) h e <-> exists mid, chain m f h mid /\ chain m g mid e.
Proof.
  revert h. induction f as [|x n _ o _ r IH]; intros h; cbn.
  - split; [by exists h|]. by intros (? & -> & ?).
  - split.
    + intros (-> & Hx & nd & Hnd & Hr & Hk). apply IH in Hr as (mid & Hr & Hg).
      exists mid. split; [|done]. split; [done|]. split; [done|]. by exists nd.
    + intros (mid & (-> & Hx & nd & Hnd & Hr & Hk) & Hg). split; [done|]. split; [done|]. exists nd.
      split; [done|]. split; [|done]. apply IH. by exists mid.
Qed.

Lemma chain_cons m x n o r h e : chain m (FCons x n o r) h e <->
  h = x /\ addr_ok x /\ exists nd, m !! x = Some nd /\ chain m r (next nd) e /\ kids m x (child nd) (child_last nd) (fapp n o).
Proof.
  cbn. split; intros (-> & Hx & nd & Hnd & Hr & Hk); (split; [done|]; split; [done|]; exists nd; split; [done|]; split; [done|]).
  - destruct n as [|y n1 o1 r1]; [destruct o; [done|]|]; destruct Hk as (mid & H1 & H2 & H3).
    + cbn in H1 |- *. by rewrite H1.
    + unfold kids. cbn [fapp]. split; [|done]. change (FCons y n1 o1 (fapp r1 o)) with (fapp (FCons y n1 o1 r1) o).
      apply chain_fapp. by exists mid.
  - destruct n as [|y n1 o1 r1]; [destruct o; [done|]|]; unfold kids in Hk; cbn [fapp] in Hk; destruct Hk as (H1 & H3).
    + by exists (child nd).
    + change (FCons y n1 o1 (fapp r1 o)) with (fapp (FCons y n1 o1 r1) o) in H1.
      apply chain_fapp in H1 as (mid & H1 & H2). by exists mid.
Qed.

(** The memory of other nodes does not matter. *)
Lemma chain_frame m m' f h e : (forall x, x ∈ elems f -> m' !! x = m !! x) -> chain m f h e -> chain m' f h e.
Proof.
  revert h e. induction f as [|x n IHn o IHo r IHr]; intros h e Hext; [done|].
  cbn in Hext |- *. intros (-> & Hx & nd & Hnd & Hr & Hk). split; [done|]. split; [done|]. exists nd.
  split; [rewrite Hext; [done|set_solver]|]. split; [apply IHr; [set_solver|done]|].
  assert (forall mid, chain m n (child nd) mid /\ chain m o mid (x + 1) -> chain m' n (child nd) mid /\ chain m' o mid (x + 1)) as Hboth.
  { intros mid [H1 H2]. split; [apply IHn|apply IHo]; (done || set_solver). }
  destruct n as [|y n1 o1 r1]; [destruct o; [done|]|]; destruct Hk as (mid & H1 & H2 & H3); exists mid;
    destruct (Hboth mid (conj H1 H2)); by split.
Qed.

Definition below (t : tree) : forest := fapp (newer t) (older t).

Lemma chain_single m t h e : chain m (single t) h e <->
  h = root t /\ addr_ok h /\ exists nd, m !! h = Some nd /\ next nd = e /\ kids m h (child nd) (child_last nd) (below t).
Proof.
  unfold single. rewrite chain_cons. cbn [chain]. split; intros (-> & ? & nd & ? & ? & ?); (split; [done|]); (split; [done|]); by exists nd.
Qed.

Lemma kids_ext m m' x c cl f : (forall y, y ∈ elems f -> m' !! y = m !! y) -> kids m x c cl f -> kids m' x c cl f.
Proof. destruct f as [|y n o r]; [done|]. intros Hext [Hc Hl]. split; [by apply (chain_frame m)|done]. Qed.

Lemma chain_lookup m f h e x : chain m f h e -> x ∈ elems f -> addr_ok x /\ is_Some (m !! x).
Proof.
  revert h e. induction f as [|y n IHn o IHo r IHr]; intros h e; cbn; [set_solver|].
  intros (-> & Hy & nd & Hnd & Hr & Hk) Hin.
  assert (x = y \/ x ∈ elems r \/ x ∈ elems n \/ x ∈ elems o) as [->|[Hin'|Hin']] by (rewrite elem_of_app, elem_of_cons, elem_of_app in Hin; tauto).
  - split; [done|]. eauto.
  - by apply (IHr _ _ Hr).
  - assert (exists c mid, chain m n c mid /\ chain m o mid (y + 1)) as (c & mid & Hn & Ho).
    { destruct n as [|y1 n1 o1 r1]; [destruct o; [by exists 0, 0; destruct Hin' as [?%not_elem_of_nil|?%not_elem_of_nil]|]|];
        destruct Hk as (mid & H1 & H2 & _); by exists (child nd), mid. }
    destruct Hin'; [by apply (IHn _ _ Hn)|by apply (IHo _ _ Ho)].
Qed.

Lemma kids_intro m x c cl f : f <> FNil -> chain m f c (x + 1) -> last_root f = Some cl -> kids m x c cl f.
Proof. by destruct f. Qed.
Lemma kids_elim m x c cl f : f <> FNil -> kids m x c cl f -> chain m f c (x + 1) /\ last_root f = Some cl.
Proof. by destruct f. Qed.
Lemma fapp_ne f g : g <> FNil -> fapp f g <> FNil.
Proof. by destruct f. Qed.

(** Changing where the last sibling leads. *)
Lemma chain_set_end m f h e l : chain m f h e -> NoDup (elems f) -> last_root f = Some l ->
  l ∈ elems f /\ exists nd, m !! l = Some nd /\ next nd = e /\
    forall e', chain (<[l := MkPairheap (child nd) (child_last nd) e']> m) f h e'.
Proof.
  revert h. induction f as [|x n _ o _ r IH]; intros h Hc Hnd Hl; [done|].
  apply chain_cons in Hc as (-> & Hx & nd & Hlk & Hr & Hk). cbn [elems] in Hnd |- *.
  apply NoDup_app in Hnd as (Hn & Hdis & Hnd). apply NoDup_cons in Hnd as [Hxn Hnd].
  apply NoDup_app in Hnd as (Ho & Hdis' & Hndr).
  destruct (decide (r = FNil)) as [->|Hne].
  - injection Hl as <-. split; [set_solver|]. exists nd. cbn in Hr. split; [done|]. split; [done|].
    intros e'. apply chain_cons. split; [done|]. split; [done|].
    exists (MkPairheap (child nd) (child_last nd) e'). rewrite lookup_insert_eq. split; [done|]. split; [done|].
    cbn. apply (kids_ext m); [|done]. rewrite elems_fapp. intros y Hy. rewrite lookup_insert_ne; [done|]. set_solver.
  - rewrite last_root_cons in Hl by done. destruct (IH _ Hr Hndr Hl) as (Hin & nl & Hnl & Hend & Hset).
    split; [set_solver|]. exists nl. split; [done|]. split; [done|]. intros e'. apply chain_cons. split; [done|]. split; [done|].
    exists nd. rewrite lookup_insert_ne by set_solver. split; [done|]. split; [apply Hset|].
    apply (kids_ext m); [|done]. rewrite elems_fapp. intros y Hy. rewrite lookup_insert_ne; [done|]. set_solver.
Qed.

(** ** Rules for the fields *)

Lemma wp_node m p x (Q : _ -> mem -> Prop) : m !! p = Some x -> Q x m -> wp (node p) m Q.
Proof. intros Hp HQ. unfold wp, node. by rewrite Hp. Qed.
Lemma wp_set_child m p x v (Q : unit -> mem -> Prop) : m !! p = Some x ->
  Q tt (<[p := MkPairheap v (child_last x) (next x)]> m) -> wp (set_child p v) m Q.
Proof. intros Hp HQ. by apply wp_bind, (wp_node _ _ x). Qed.
Lemma wp_set_child_last m p x v (Q : unit -> mem -> Prop) : m !! p = Some x ->
  Q tt (<[p := MkPairheap (child x) v (next x)]> m) -> wp (set_child_last p v) m Q.
Proof. intros Hp HQ. by apply wp_bind, (wp_node _ _ x). Qed.
Lemma wp_set_next m p x v (Q : unit -> mem -> Prop) : m !! p = Some x ->
  Q tt (<[p := MkPairheap (child x) (child_last x) v]> m) -> wp (set_next p v) m Q.
Proof. intros Hp HQ. by apply wp_bind, (wp_node _ _ x). Qed.

(** ** Melding *)

Section Order.
Context (lt : Z -> Z -> bool).

Definition meld (t1 t2 : tree) : tree :=
  if lt (root t1) (root t2) then MkTree (root t1) (newer t1) (fapp (older t1) (single t2))
  else MkTree (root t2) (fapp (single t1) (newer t2)) (older t2).

Lemma elems_meld t1 t2 : elems (single (meld t1 t2)) = elems (single t1) ++ elems (single t2).
Proof.
  unfold meld. destruct (lt _ _); rewrite !elems_single; cbn [newer older root]; rewrite elems_fapp, ?elems_single;
    rewrite <-?app_assoc; cbn; rewrite <-?app_assoc; reflexivity.
Qed.

Lemma root_in t : root t ∈ elems (single t).
Proof. rewrite elems_single. apply elem_of_app. right. by left. Qed.

Lemma below_in t z : z ∈ elems (below t) -> z ∈ elems (single t).
Proof. unfold below. rewrite elems_fapp, elems_single, !elem_of_app, elem_of_cons. tauto. Qed.

Lemma below_nodup t : NoDup (elems (single t)) -> NoDup (elems (below t)) /\ root t ∉ elems (below t).
Proof.
  unfold below. rewrite elems_fapp, elems_single. intros (Hn & Hd & Ho)%NoDup_app. apply NoDup_cons in Ho as [Hr Ho].
  split.
  - apply NoDup_app. split; [done|]. split; [|done]. intros z Hz Hz'. apply (Hd z Hz). by right.
  - intros [Hin|Hin]%elem_of_app; [|done]. apply (Hd _ Hin). by left.
Qed.

(** Two heaps without common elements. *)
Definition two_heaps (m : mem) (t1 t2 : tree) (nd1 nd2 : mp_pairheap_t) : Prop :=
  addr_ok (root t1) /\ addr_ok (root t2) /\ root t1 <> root t2 /\
  m !! root t1 = Some nd1 /\ m !! root t2 = Some nd2 /\ next nd1 = 0 /\ next nd2 = 0 /\
  kids m (root t1) (child nd1) (child_last nd1) (below t1) /\ kids m (root t2) (child nd2) (child_last nd2) (below t2) /\
  NoDup (elems (below t1)) /\ root t1 ∉ elems (below t1) /\ root t2 ∉ elems (below t2) /\
  (forall z, z ∈ elems (single t1) -> z ∉ elems (single t2)).

Lemma two_heaps_intro m t1 t2 : chain m (single t1) (root t1) 0 -> chain m (single t2) (root t2) 0 ->
  NoDup (elems (single t1) ++ elems (single t2)) -> exists nd1 nd2, two_heaps m t1 t2 nd1 nd2.
Proof.
  intros H1 H2 (Hnd1 & Hdis & Hnd2)%NoDup_app.
  destruct (below_nodup _ Hnd1) as [Hnb1 Hr1]. destruct (below_nodup _ Hnd2) as [Hnb2 Hr2].
  apply chain_single in H1 as (_ & Ha1 & nd1 & Hl1 & Hn1 & Hk1).
  apply chain_single in H2 as (_ & Ha2 & nd2 & Hl2 & Hn2 & Hk2).
  exists nd1, nd2. repeat (split; [done|]). split; [|repeat (split; [done|]); exact Hdis].
  intros E. apply (Hdis (root t1)); [apply root_in|rewrite E; apply root_in].
Qed.

(** The last two statements: the heap [t2] is already linked behind the children
    of [t1]. *)
Lemma wp_finish_last m t1 t2 nd1 nd2 m1 nd1' (Q : Z -> mem -> Prop) : two_heaps m t1 t2 nd1 nd2 ->
  (forall m', chain m' (single (MkTree (root t1) (newer t1) (fapp (older t1) (single t2)))) (root t1) 0 ->
     (forall z, z ∉ elems (single t1) ++ elems (single t2) -> m' !! z = m !! z) -> Q (root t1) m') ->
  m1 !! root t1 = Some nd1' -> next nd1' = 0 -> m1 !! root t2 = Some nd2 ->
    (below t1 <> FNil -> chain m1 (below t1) (child nd1') (root t2)) -> (below t1 = FNil -> child nd1' = root t2) ->
    (forall z, z ∈ elems (below t2) -> m1 !! z = m !! z) ->
    (forall z, z ∉ elems (single t1) ++ elems (single t2) -> m1 !! z = m !! z) ->
    wp (set_child_last (root t1) (root t2);; set_next (root t2) (root t1 + 1);; mret (root t1)) m1 Q.
Proof.
  intros Htwo HQ Hm1 Hnx Hm2 Hc Hc0 Hb2 Hfr.
  destruct Htwo as (Ha1 & Ha2 & Hne & Hl1 & Hl2 & Hn1 & Hn2 & Hk1 & Hk2 & Hnb1 & Hr1 & Hr2 & Hdis).
  apply wp_bind, (wp_set_child_last _ _ nd1'); [done|].
  apply wp_bind, (wp_set_next _ _ nd2); [by rewrite lookup_insert_ne|]. apply wp_ret, HQ.
  - apply chain_single. cbn [root newer older]. split; [done|]. split; [done|].
    exists (MkPairheap (child nd1') (root t2) (next nd1')). rewrite lookup_insert_ne, lookup_insert_eq by done.
    split; [done|]. split; [done|]. unfold below at 1. cbn [newer older]. rewrite fapp_assoc. fold (below t1). cbn [child child_last].
    assert (forall mm, mm = <[root t2 := MkPairheap (child nd2) (child_last nd2) (root t1 + 1)]>
      (<[root t1 := MkPairheap (child nd1') (root t2) (next nd1')]> m1) -> chain mm (single t2) (root t2) (root t1 + 1)) as Ht2.
    { intros mm ->. apply chain_single. split; [done|]. split; [done|]. eexists. split; [apply lookup_insert_eq|]. split; [done|].
      apply (kids_ext m); [|done]. intros y Hy. rewrite !lookup_insert_ne; [by apply Hb2| |].
      - intros E. subst y. apply (Hdis (root t1)); [apply root_in|by apply below_in].
      - intros E. by subst y. }
    specialize (Ht2 _ eq_refl).
    destruct (decide (below t1 = FNil)) as [E|E].
    + rewrite (Hc0 E) in Ht2 |- *. rewrite E. by apply kids_intro.
    + apply kids_intro; [by apply fapp_ne| |by rewrite last_root_fapp]. apply chain_fapp. exists (root t2). split; [|done].
      apply (chain_frame m1); [|by apply Hc]. intros z Hz.
      rewrite !lookup_insert_ne; [done| |]; intros ?; subst z; [done|].
      apply (Hdis (root t2)); [by apply below_in|apply root_in].
  - intros z Hz. rewrite not_elem_of_app in Hz. destruct Hz as [Hz1 Hz2]. rewrite !lookup_insert_ne.
    + apply Hfr. by apply not_elem_of_app.
    + intros ?; subst z. apply Hz1, root_in.
    + intros ?; subst z. apply Hz2, root_in.
Qed.

(** A tree that becomes the last child of another root. *)
Lemma wp_add_last m t1 t2 (Q : Z -> mem -> Prop) :
  chain m (single t1) (root t1) 0 -> chain m (single t2) (root t2) 0 -> NoDup (elems (single t1) ++ elems (single t2)) ->
  (forall m', chain m' (single (MkTree (root t1) (newer t1) (fapp (older t1) (single t2)))) (root t1) 0 ->
     (forall z, z ∉ elems (single t1) ++ elems (single t2) -> m' !! z = m !! z) -> Q (root t1) m') ->
  wp (h1 ← node (root t1);
      (if child h1 =? 0 then set_child (root t1) (root t2) else set_next (child_last h1) (root t2));;
      set_child_last (root t1) (root t2);;
      set_next (root t2) (NEXT_MAKE_RIGHTMOST_PARENT (root t1));; mret (root t1)) m Q.
Proof.
  intros H1 H2 Hnd HQ. destruct (two_heaps_intro _ _ _ H1 H2 Hnd) as (nd1 & nd2 & Htwo).
  pose proof (fun m1 nd1' => wp_finish_last m t1 t2 nd1 nd2 m1 nd1' Q Htwo HQ) as Hrest.
  destruct Htwo as (Ha1 & Ha2 & Hne & Hl1 & Hl2 & Hn1 & Hn2 & Hk1 & Hk2 & Hnb1 & Hr1 & Hr2 & Hdis).
  rewrite (make_parent _ Ha1).
  apply wp_bind, (wp_node _ _ nd1); [done|].
  destruct (below t1) as [|y n o r] eqn:Eb.
  - cbn in Hk1. rewrite Hk1. cbn [Z.eqb]. apply wp_bind, (wp_set_child _ _ nd1); [done|].
    apply (Hrest _ (MkPairheap (root t2) (child_last nd1) (next nd1))); try done.
    + apply lookup_insert_eq.
    + by rewrite lookup_insert_ne.
    + intros z Hz. rewrite lookup_insert_ne; [done|]. intros ?; subst z. apply (Hdis (root t1)); [apply root_in|by apply below_in].
    + intros z [Hz _]%not_elem_of_app. rewrite lookup_insert_ne; [done|]. intros ?; subst z. apply Hz, root_in.
  - rewrite <-Eb in *. apply kids_elim in Hk1 as [Hk1 Hlast]; [|by rewrite Eb].
    assert (child nd1 = y /\ addr_ok y) as [Hy Hay].
    { rewrite Eb in Hk1. apply chain_cons in Hk1. tauto. }
    rewrite Hy, (addr_nonzero _ Hay). destruct (chain_set_end _ _ _ _ _ Hk1 Hnb1 Hlast) as (Hin & ndl & Hlk & Hnl & Hset).
    assert (child_last nd1 <> root t1) as Hl1'. { intros E. by rewrite E in Hin. }
    assert (child_last nd1 <> root t2) as Hl2'.
    { intros E. rewrite E in Hin. apply (Hdis (root t2)); [by apply below_in|apply root_in]. }
    apply wp_bind, (wp_set_next _ _ ndl); [done|]. apply (Hrest _ nd1); try done.
    + by rewrite lookup_insert_ne.
    + by rewrite lookup_insert_ne.
    + intros E. by rewrite E in Eb.
    + intros z Hz. rewrite lookup_insert_ne; [done|]. intros ?; subst z. apply (Hdis (child_last nd1)); by apply below_in.
    + intros z [Hz _]%not_elem_of_app. rewrite lookup_insert_ne; [done|]. intros ?; subst z. by apply Hz, below_in.
Qed.

(** A tree that becomes the first child of another root. *)
Lemma wp_add_first m t1 t2 (Q : Z -> mem -> Prop) :
  chain m (single t1) (root t1) 0 -> chain m (single t2) (root t2) 0 -> NoDup (elems (single t1) ++ elems (single t2)) ->
  (forall m', chain m' (single (MkTree (root t2) (fapp (single t1) (newer t2)) (older t2))) (root t2) 0 ->
     (forall z, z ∉ elems (single t1) ++ elems (single t2) -> m' !! z = m !! z) -> Q (root t2) m') ->
  wp (h2 ← node (root t2);
      set_next (root t1) (child h2);;
      set_child (root t2) (root t1);;
      h1 ← node (root t1);
      (if next h1 =? 0 then
         set_child_last (root t2) (root t1);;
         set_next (root t1) (NEXT_MAKE_RIGHTMOST_PARENT (root t2))
       else mret tt);;
      mret (root t2)) m Q.
Proof.
  intros H1 H2 Hnd HQ. destruct (two_heaps_intro _ _ _ H1 H2 Hnd) as (nd1 & nd2 & Htwo).
  destruct Htwo as (Ha1 & Ha2 & Hne & Hl1 & Hl2 & Hn1 & Hn2 & Hk1 & Hk2 & _ & Hr1 & Hr2 & Hdis).
  rewrite (make_parent _ Ha2).
  assert (forall mm v cl, mm !! root t1 = Some (MkPairheap (child nd1) (child_last nd1) v) ->
    mm !! root t2 = Some (MkPairheap (root t1) cl 0) ->
    (forall z, z <> root t1 -> z <> root t2 -> mm !! z = m !! z) ->
    chain mm (below t2) v (root t2 + 1) -> last_root (fapp (single t1) (below t2)) = Some cl -> Q (root t2) mm) as Hend.
  { intros mm v cl E1 E2 Hfr Hc Hlast. apply HQ.
    - apply chain_single. cbn [root newer older]. split; [done|]. split; [done|]. eexists. split; [exact E2|]. split; [done|].
      unfold below at 1. cbn [newer older]. rewrite <-fapp_assoc. fold (below t2). apply kids_intro; [done| |done].
      cbn [child]. apply chain_fapp. exists v. split; [|done]. apply chain_single. split; [done|]. split; [done|].
      eexists. split; [exact E1|]. split; [done|]. apply (kids_ext m); [|done]. intros z Hz. apply Hfr; intros ?; subst z; [done|].
      apply (Hdis (root t2)); [by apply below_in|apply root_in].
    - intros z [Hz1 Hz2]%not_elem_of_app. apply Hfr; intros ?; subst z; [apply Hz1, root_in|apply Hz2, root_in]. }
  apply wp_bind, (wp_node _ _ nd2); [done|]. apply wp_bind, (wp_set_next _ _ nd1); [done|].
  apply wp_bind, (wp_set_child _ _ nd2); [by rewrite lookup_insert_ne|].
  apply wp_bind. apply (wp_node _ _ (MkPairheap (child nd1) (child_last nd1) (child nd2))); [by rewrite lookup_insert_ne, lookup_insert_eq|].
  cbn [next]. destruct (decide (below t2 = FNil)) as [E|E].
  - rewrite E in Hk2. cbn in Hk2. rewrite Hk2. cbn [Z.eqb].
    apply wp_bind, wp_bind, (wp_set_child_last _ _ (MkPairheap (root t1) (child_last nd2) (next nd2))); [by rewrite lookup_insert_eq|].
    apply (wp_set_next _ _ (MkPairheap (child nd1) (child_last nd1) 0)); [by rewrite !lookup_insert_ne, lookup_insert_eq by done|].
    apply wp_ret, (Hend _ (root t2 + 1) (root t1)).
    + by rewrite lookup_insert_eq.
    + rewrite lookup_insert_ne, lookup_insert_eq by done. cbn. by rewrite Hn2.
    + intros z Hz1 Hz2. by rewrite !lookup_insert_ne.
    + by rewrite E.
    + by rewrite E, fapp_nil.
  - apply kids_elim in Hk2 as [Hk2 Hlast]; [|done].
    assert (addr_ok (child nd2)) as Ha by (destruct (below t2); [done|]; apply chain_cons in Hk2; naive_solver).
    rewrite (addr_nonzero _ Ha). apply wp_bind, wp_ret, wp_ret, (Hend _ (child nd2) (child_last nd2)).
    + by rewrite lookup_insert_ne, lookup_insert_eq.
    + rewrite lookup_insert_eq. by rewrite Hn2.
    + intros z Hz1 Hz2. by rewrite !lookup_insert_ne.
    + apply (chain_frame m); [|done]. intros z Hz. rewrite !lookup_insert_ne; [done| |]; intros ?; subst z; [|done].
      apply (Hdis (root t1)); [apply root_in|by apply below_in].
    + by rewrite last_root_fapp.
Qed.

(** [mp_pairheap_meld] on two heaps. *)
Lemma wp_meld m t1 t2 (Q : Z -> mem -> Prop) :
  chain m (single t1) (root t1) 0 -> chain m (single t2) (root t2) 0 -> NoDup (elems (single t1) ++ elems (single t2)) ->
  (forall m', chain m' (single (meld t1 t2)) (root (meld t1 t2)) 0 ->
     (forall z, z ∉ elems (single t1) ++ elems (single t2) -> m' !! z = m !! z) -> Q (root (meld t1 t2)) m') ->
  wp (mp_pairheap_meld lt (root t1) (root t2)) m Q.
Proof.
  intros H1 H2 Hnd HQ. unfold mp_pairheap_meld, meld in *.
  pose proof H1 as (_ & Ha1 & _)%chain_single. pose proof H2 as (_ & Ha2 & _)%chain_single.
  rewrite (addr_nonzero _ Ha1), (addr_nonzero _ Ha2).
  destruct (lt (root t1) (root t2)); [by apply wp_add_last|by apply wp_add_first].
Qed.

(** Heaps that may be empty. *)
Definition heap_at (m : mem) (f : forest) (h : Z) : Prop :=
  (f = FNil /\ h = 0) \/ exists t, f = single t /\ chain m f h 0.

Definition fmeld (f1 f2 : forest) : forest :=
  match f1, f2 with
  | FNil, _ => f2
  | _, FNil => f1
  | FCons x1 n1 o1 _, FCons x2 n2 o2 _ => single (meld (MkTree x1 n1 o1) (MkTree x2 n2 o2))
  end.

Lemma wp_fmeld m f1 f2 h1 h2 (Q : Z -> mem -> Prop) :
  heap_at m f1 h1 -> heap_at m f2 h2 -> NoDup (elems f1 ++ elems f2) ->
  (forall m' h, heap_at m' (fmeld f1 f2) h -> (forall z, z ∉ elems f1 ++ elems f2 -> m' !! z = m !! z) -> Q h m') ->
  wp (mp_pairheap_meld lt h1 h2) m Q.
Proof.
  intros [[-> ->]|(t1 & -> & H1)] H2 Hnd HQ.
  - apply wp_ret. by apply HQ.
  - pose proof H1 as (-> & Ha1 & _)%chain_single. destruct H2 as [[-> ->]|(t2 & -> & H2)].
    + unfold mp_pairheap_meld. rewrite (addr_nonzero _ Ha1). apply wp_ret, HQ; [|done]. right. by exists t1.
    + pose proof H2 as (-> & _)%chain_single. apply wp_meld; [done..|].
      intros m' Hc Hfr. destruct t1 as [x1 n1 o1], t2 as [x2 n2 o2]. apply HQ; [|done]. right. eexists. split; [reflexivity|done].
Qed.

Definition is_heap (f : forest) : Prop := f = FNil \/ exists t, f = single t.

Lemma heap_at_is m f h : heap_at m f h -> is_heap f.
Proof. intros [[-> _]|(t & -> & _)]; [by left|right; by exists t]. Qed.

Lemma is_heap_fmeld f1 f2 : is_heap f1 -> is_heap f2 -> is_heap (fmeld f1 f2).
Proof. intros [->|([x1 n1 o1] & ->)] [->|([x2 n2 o2] & ->)]; cbn; [by left|right; by eexists..]. Qed.

Lemma elems_fmeld f1 f2 : is_heap f1 -> is_heap f2 -> elems (fmeld f1 f2) = elems f1 ++ elems f2.
Proof.
  intros [->|([x1 n1 o1] & ->)] [->|([x2 n2 o2] & ->)]; cbn [fmeld single root newer older]; try done.
  - by rewrite app_nil_r.
  - apply (elems_meld (MkTree x1 n1 o1) (MkTree x2 n2 o2)).
Qed.

(** ** Pairing *)

Fixpoint pairing_loop (acc f : forest) : forest :=
  match f with
  | FNil => acc
  | FCons x1 n1 o1 FNil => fmeld acc (single (MkTree x1 n1 o1))
  | FCons x1 n1 o1 (FCons x2 n2 o2 r) => pairing_loop (fmeld acc (single (meld (MkTree x1 n1 o1) (MkTree x2 n2 o2)))) r
  end.
Definition pairing (f : forest) : forest := pairing_loop FNil f.

Fixpoint width (f : forest) : nat := match f with FNil => 0 | FCons _ _ _ r => S (width r) end.

Lemma width_le f : (width f <= length (elems f))%nat.
Proof. induction f as [|x n _ o _ r IH]; cbn; [lia|]. rewrite length_app. cbn. rewrite length_app. lia. Qed.

(** The first sibling cut off from the others. *)
Lemma cut_first m x n o r h e : chain m (FCons x n o r) h e -> NoDup (elems (FCons x n o r)) ->
  h = x /\ exists nd, m !! x = Some nd /\
    heap_at (<[x := MkPairheap (child nd) (child_last nd) 0]> m) (single (MkTree x n o)) x /\
    chain (<[x := MkPairheap (child nd) (child_last nd) 0]> m) r (next nd) e.
Proof.
  intros Hc Hnd. apply chain_cons in Hc as (-> & Ha & nd & Hlk & Hr & Hk). split; [done|]. exists nd. split; [done|].
  cbn [elems] in Hnd. apply NoDup_app in Hnd as (_ & Hdis & Hnd). apply NoDup_cons in Hnd as [Hx _].
  split.
  - right. exists (MkTree x n o). split; [done|]. apply chain_single. split; [done|]. split; [done|].
    eexists. split; [apply lookup_insert_eq|]. split; [done|]. apply (kids_ext m); [|done].
    unfold below. cbn [newer older]. rewrite elems_fapp. intros z Hz. rewrite lookup_insert_ne; [done|]. intros ->.
    apply elem_of_app in Hz as [Hz|Hz]; [apply (Hdis _ Hz); by left|apply Hx, elem_of_app; by left].
  - apply (chain_frame m); [|done]. intros z Hz. rewrite lookup_insert_ne; [done|]. intros ->. apply Hx, elem_of_app. by right.
Qed.

Lemma heap_at_ext m m' f h : (forall z, z ∈ elems f -> m' !! z = m !! z) -> heap_at m f h -> heap_at m' f h.
Proof. intros Hext [?|(t & -> & Hc)]; [by left|right]. exists t. split; [done|]. by apply (chain_frame m). Qed.

Lemma heap_insert m f h x v : heap_at m f h -> x ∉ elems f -> heap_at (<[x := v]> m) f h.
Proof. intros Hh Hx. apply (heap_at_ext m); [|done]. intros z Hz. rewrite lookup_insert_ne; [done|]. by intros ->. Qed.

Lemma chain_not_parent m x n o r h e : chain m (FCons x n o r) h e -> NEXT_IS_RIGHTMOST_PARENT h = false.
Proof. intros (-> & Ha & _)%chain_cons. by apply addr_not_parent. Qed.

Lemma elems_pair x1 n1 o1 x2 n2 o2 r : elems (FCons x1 n1 o1 (FCons x2 n2 o2 r)) =
  elems (single (MkTree x1 n1 o1)) ++ elems (single (MkTree x2 n2 o2)) ++ elems r.
Proof. rewrite !elems_single. cbn [elems newer older root]. rewrite <-app_assoc. cbn. by rewrite <-app_assoc. Qed.

Lemma wp_pairing_loop fuel p : addr_ok p -> forall f acc m heap c (Q : Z -> mem -> Prop),
  heap_at m acc heap -> chain m f c (p + 1) -> NoDup (elems acc ++ elems f) -> (width f < fuel)%nat ->
  (forall m' h, heap_at m' (pairing_loop acc f) h -> (forall z, z ∉ elems acc ++ elems f -> m' !! z = m !! z) -> Q h m') ->
  wp (loop fuel (pairing_round lt) (heap, c)) m Q.
Proof.
  intros Hp. induction fuel as [|fuel IH]; intros f acc m heap c Q Hacc Hc Hnd Hw HQ; [lia|].
  cbn [loop]. apply wp_bind. unfold pairing_round. destruct f as [|x1 n1 o1 r1].
  { cbn in Hc. subst c. rewrite (parent_is_parent _ Hp). apply wp_ret, wp_ret, HQ; [done|]. done. }
  rewrite (chain_not_parent _ _ _ _ _ _ _ Hc).
  pose proof Hnd as (Hnda & Hdis & Hndf)%NoDup_app.
  destruct (cut_first _ _ _ _ _ _ _ Hc Hndf) as (-> & nd1 & Hl1 & Ht1 & Hr1).
  apply wp_bind, (wp_node _ _ nd1); [done|]. apply wp_bind, (wp_set_next _ _ nd1); [done|].
  set (m1 := <[x1 := _]> m) in *.
  assert (x1 ∈ elems (FCons x1 n1 o1 r1)) as Hx1 by (cbn; set_solver).
  assert (heap_at m1 acc heap) as Hacc1. { apply heap_insert; [done|]. intros Hin. by apply (Hdis _ Hin). }
  assert (forall z, z ∉ elems acc ++ elems (FCons x1 n1 o1 r1) -> m1 !! z = m !! z) as Hfr1.
  { intros z Hz. unfold m1. rewrite lookup_insert_ne; [done|]. intros ->. apply Hz, elem_of_app. by right. }
  destruct r1 as [|x2 n2 o2 r2].
  - cbn in Hr1. rewrite Hr1, (parent_is_parent _ Hp). cbn [negb].
    apply wp_bind, (wp_fmeld _ acc (single (MkTree x1 n1 o1))); [done|done|done|].
    intros m2 h2 Hh2 Hfr2. apply wp_ret. apply (IH FNil (fmeld acc (single (MkTree x1 n1 o1)))); [done| | |cbn in Hw |- *; lia|].
    + cbn. done.
    + cbn [elems]. rewrite app_nil_r. by rewrite (elems_fmeld _ _ (heap_at_is _ _ _ Hacc1) (heap_at_is _ _ _ Ht1)).
    + intros m3 h3 Hh3 Hfr3. apply HQ; [done|]. intros z Hz. rewrite Hfr3, Hfr2; [by apply Hfr1|done|].
      rewrite (elems_fmeld _ _ (heap_at_is _ _ _ Hacc1) (heap_at_is _ _ _ Ht1)). cbn [elems]. by rewrite app_nil_r.
  - rewrite (chain_not_parent _ _ _ _ _ _ _ Hr1). cbn [negb].
    assert (NoDup (elems (FCons x2 n2 o2 r2))) as Hndr.
    { cbn [elems] in Hndf. apply NoDup_app in Hndf as (_ & _ & Hndf). apply NoDup_cons in Hndf as [_ Hndf].
      by apply NoDup_app in Hndf as (_ & _ & Hndf). }
    destruct (cut_first _ _ _ _ _ _ _ Hr1 Hndr) as (Hnx & nd2 & Hl2 & Ht2 & Hr2). rewrite Hnx.
    rewrite elems_pair in *. set (f1 := single (MkTree x1 n1 o1)) in *. set (f2 := single (MkTree x2 n2 o2)) in *.
    assert (x2 ∈ elems f2) as Hx2 by (apply (root_in (MkTree x2 n2 o2))).
    assert (Hnd' := Hnd). apply NoDup_app in Hnd' as (_ & HdisA & Hnd'). apply NoDup_app in Hnd' as (Hnd1 & Hdis1 & Hnd').
    apply NoDup_app in Hnd' as (Hnd2 & Hdis2 & HndR).
    apply wp_bind, (wp_node _ _ nd2); [done|]. apply wp_bind, (wp_set_next _ _ nd2); [done|].
    set (m2 := <[x2 := _]> m1) in *.
    assert (heap_at m2 f1 x1) as Ht1'. { apply heap_insert; [done|]. intros Hin. apply (Hdis1 _ Hin), elem_of_app. by left. }
    assert (heap_at m2 acc heap) as Hacc2.
    { apply heap_insert; [done|]. intros Hin. apply (HdisA _ Hin), elem_of_app. right. apply elem_of_app. by left. }
    apply wp_bind, (wp_fmeld _ f1 f2); [done|done|apply NoDup_app; split; [done|]; split; [|done]; intros z Hz Hz'; apply (Hdis1 _ Hz), elem_of_app; by left|].
    intros m3 h3 Hh3 Hfr3. cbn [fmeld f1 f2 single root newer older] in Hh3.
    pose proof (elems_meld (MkTree x1 n1 o1) (MkTree x2 n2 o2)) as Em. fold f1 f2 in Em.
    set (f12 := single (meld (MkTree x1 n1 o1) (MkTree x2 n2 o2))) in *.
    assert (heap_at m3 acc heap) as Hacc3 by (apply (heap_at_ext m2); [intros z Hz; apply Hfr3; intros Hin; apply (HdisA _ Hz); rewrite app_assoc; apply elem_of_app; by left|done]).
    apply wp_bind, (wp_fmeld _ acc f12); [done|done|rewrite Em; rewrite !app_assoc in Hnd; rewrite app_assoc; by apply NoDup_app in Hnd as [? _]|].
    intros m4 h4 Hh4 Hfr4. apply wp_ret.
    pose proof (elems_fmeld _ _ (heap_at_is _ _ _ Hacc3) (heap_at_is _ _ _ Hh3)) as Ea. rewrite Em in Ea, Hfr4.
    apply (IH r2 (fmeld acc f12)); [done| |by rewrite Ea, <-!app_assoc|cbn in Hw |- *; lia|].
    + apply (chain_frame m2); [|done]. intros z Hz. rewrite Hfr4, Hfr3; [done| |]; rewrite !not_elem_of_app;
        specialize (HdisA z); specialize (Hdis1 z); specialize (Hdis2 z); repeat rewrite elem_of_app in HdisA; rewrite elem_of_app in Hdis1; tauto.
    + intros m5 h5 Hh5 Hfr5. apply HQ; [done|]. intros z Hz. rewrite Ea in Hfr5.
      assert (Hz' := Hz). rewrite !not_elem_of_app in Hz'.
      rewrite Hfr5, Hfr4, Hfr3; rewrite ?not_elem_of_app; [|tauto..].
      unfold m2. rewrite lookup_insert_ne; [by apply Hfr1|]. intros ->. tauto.
Qed.

Lemma pairing_loop_heap k : forall acc f, (width f <= k)%nat -> is_heap acc ->
  is_heap (pairing_loop acc f) /\ elems (pairing_loop acc f) = elems acc ++ elems f.
Proof.
  induction k as [|k IH]; intros acc f Hk Hacc.
  - destruct f; [|cbn in Hk; lia]. cbn. by rewrite app_nil_r.
  - destruct f as [|x1 n1 o1 [|x2 n2 o2 r]]; cbn [pairing_loop].
    + cbn. by rewrite app_nil_r.
    + assert (is_heap (single (MkTree x1 n1 o1))) as Hs by (right; by eexists).
      split; [by apply is_heap_fmeld|by rewrite elems_fmeld].
    + assert (is_heap (single (meld (MkTree x1 n1 o1) (MkTree x2 n2 o2)))) as Hs by (right; by eexists).
      destruct (IH (fmeld acc (single (meld (MkTree x1 n1 o1) (MkTree x2 n2 o2)))) r) as [Hh E]; [cbn in Hk; lia|by apply is_heap_fmeld|].
      split; [done|]. by rewrite E, elems_fmeld, elems_meld, elems_pair, <-!app_assoc.
Qed.

Lemma is_heap_pairing f : is_heap (pairing f).
Proof. apply (pairing_loop_heap (width f)); [done|by left]. Qed.
Lemma elems_pairing f : elems (pairing f) = elems f.
Proof. apply (pairing_loop_heap (width f) FNil f); [done|by left]. Qed.

Lemma nodup_size {V} (m : gmap Z V) l : NoDup l -> (forall x, x ∈ l -> is_Some (m !! x)) -> (length l <= size m)%nat.
Proof.
  intros Hnd Hl. rewrite <-(size_list_to_set (C := gset Z)) by done. rewrite <-size_dom. apply subseteq_size.
  intros x Hx. apply elem_of_dom, Hl. by apply elem_of_list_to_set in Hx.
Qed.

Lemma chain_size m f h e : chain m f h e -> NoDup (elems f) -> (length (elems f) <= size m)%nat.
Proof. intros Hc Hnd. apply nodup_size; [done|]. intros x Hx. by apply (chain_lookup _ _ _ _ _ Hc Hx). Qed.

Lemma wp_pairing m p f c cl (Q : Z -> mem -> Prop) : addr_ok p -> kids m p c cl f -> NoDup (elems f) ->
  (forall m' h, heap_at m' (pairing f) h -> (forall z, z ∉ elems f -> m' !! z = m !! z) -> Q h m') ->
  wp (mp_pairheap_pairing lt c) m Q.
Proof.
  intros Hp Hk Hnd HQ. unfold mp_pairheap_pairing. destruct (decide (f = FNil)) as [->|Hne].
  - cbn in Hk. subst c. cbn [Z.eqb]. apply wp_ret, HQ; [by left|done].
  - apply kids_elim in Hk as [Hc _]; [|done].
    assert (addr_ok c) as Ha by (destruct f; [done|]; apply chain_cons in Hc as (-> & ? & _); done).
    rewrite (addr_nonzero _ Ha). apply wp_bind. unfold wp at 1, get.
    apply wp_bind, (wp_pairing_loop (S (size m)) p Hp f FNil); [by left|done|done| |].
    + pose proof (width_le f). pose proof (chain_size _ _ _ _ Hc Hnd). lia.
    + intros m' h Hh Hfr. pose proof (elems_pairing f) as E. fold (pairing f) in Hh.
      destruct Hh as [[Hn _]|(t & Ht & Hch)].
      { rewrite Hn in E. destruct f as [|x n o r]; [done|]. symmetry in E. by apply app_eq_nil in E as [_ ?]. }
      pose proof Hch as Hch'. rewrite Ht in Hch'. apply chain_single in Hch' as (_ & _ & nd & Hlk & Hnx & _).
      apply wp_bind, (wp_set_next _ _ nd); [done|]. apply wp_ret.
      rewrite insert_id by (rewrite Hlk; destruct nd; cbn in *; by rewrite Hnx).
      apply HQ; [|done]. right. by exists t.
Qed.

End Order.

(** ** The order of a pairing heap

    Newer children are not less than their parent, older ones are greater: the
    root is the first to have been pushed among the least elements.  The property
    survives melding, pairing and deletion when the order is a strict weak order
    on the elements. *)

(** A strict weak order on the elements of a list. *)
Record weak_order (lt : Z -> Z -> bool) (l : list Z) : Prop := {
  wo_trans a b c : a ∈ l -> b ∈ l -> c ∈ l -> lt a b = true -> lt b c = true -> lt a c = true;
  wo_neg a b c : a ∈ l -> b ∈ l -> c ∈ l -> lt a b = false -> lt b c = false -> lt a c = false;
}.

Lemma weak_order_sub lt l l' : (forall x, x ∈ l' -> x ∈ l) -> weak_order lt l -> weak_order lt l'.
Proof. intros Hsub [Ht Hn]. split; intros a b c Ha Hb Hc; [apply Ht|apply Hn]; auto. Qed.

Section Ordered.
Context (lt : Z -> Z -> bool).

Fixpoint ordered (f : forest) : Prop :=
  match f with
  | FNil => True
  | FCons x n o r =>
      (forall c, c ∈ elems n -> lt c x = false) /\ (forall c, c ∈ elems o -> lt x c = true) /\
      ordered n /\ ordered o /\ ordered r
  end.

Lemma ordered_fapp f g : ordered (fapp f g) <-> ordered f /\ ordered g.
Proof. induction f as [|x n _ o _ r IH]; cbn; [tauto|]. rewrite IH. tauto. Qed.

(** A root that is not greater than another is not greater than its tree. *)
Lemma lt_tree t x : weak_order lt (x :: elems (single t)) -> ordered (single t) -> lt x (root t) = true ->
  forall c, c ∈ elems (single t) -> lt x c = true.
Proof.
  intros [Ht Hn] (Hnew & Hold & _) Hx c Hc. pose proof Hc as Hc'.
  rewrite elems_single, elem_of_app, elem_of_cons in Hc'. destruct Hc' as [Hc'|[->|Hc']]; [|done|].
  - destruct (lt x c) eqn:E; [done|]. rewrite <-Hx. symmetry. apply (Hn x c (root t)); [by left|by right|right; apply root_in|done|].
    by apply Hnew.
  - apply (Ht x (root t) c); [by left|right; apply root_in|by right|done|by apply Hold].
Qed.

Lemma ge_tree t x : weak_order lt (x :: elems (single t)) -> ordered (single t) -> lt (root t) x = false ->
  forall c, c ∈ elems (single t) -> lt c x = false.
Proof.
  intros [Ht Hn] (Hnew & Hold & _) Hx c Hc. pose proof Hc as Hc'.
  rewrite elems_single, elem_of_app, elem_of_cons in Hc'. destruct Hc' as [Hc'|[->|Hc']]; [|done|].
  - apply (Hn c (root t) x); [by right|right; apply root_in|by left|by apply Hnew|done].
  - destruct (lt c x) eqn:E; [|done]. rewrite <-Hx. symmetry.
    apply (Ht (root t) c x); [right; apply root_in|by right|by left|by apply Hold|done].
Qed.

Lemma ordered_meld t1 t2 : weak_order lt (elems (single t1) ++ elems (single t2)) ->
  ordered (single t1) -> ordered (single t2) -> ordered (single (meld lt t1 t2)).
Proof.
  intros Hw H1 H2. pose proof H1 as (Hn1 & Ho1 & Hn1' & Ho1' & _). pose proof H2 as (Hn2 & Ho2 & Hn2' & Ho2' & _).
  unfold meld. destruct (lt (root t1) (root t2)) eqn:E; cbn [single ordered root newer older].
  - split; [done|]. split; [|split; [done|split; [by apply ordered_fapp|done]]].
    intros c. rewrite elems_fapp. intros [Hc|Hc]%elem_of_app; [by apply Ho1|]. apply (lt_tree t2); [|done..].
    eapply weak_order_sub; [|exact Hw]. intros z [->|Hz]%elem_of_cons; apply elem_of_app; [left; apply root_in|by right].
  - split; [|split; [done|split; [by apply ordered_fapp|done]]].
    intros c. rewrite elems_fapp. intros [Hc|Hc]%elem_of_app; [|by apply Hn2]. apply (ge_tree t1); [|done..].
    eapply weak_order_sub; [|exact Hw]. intros z [->|Hz]%elem_of_cons; apply elem_of_app; [right; apply root_in|by left].
Qed.

Lemma ordered_fmeld f1 f2 : is_heap f1 -> is_heap f2 -> weak_order lt (elems f1 ++ elems f2) ->
  ordered f1 -> ordered f2 -> ordered (fmeld lt f1 f2).
Proof.
  intros [->|([x1 n1 o1] & ->)] [->|([x2 n2 o2] & ->)] Hw H1 H2; cbn [fmeld single root newer older]; try done.
  by apply (ordered_meld (MkTree x1 n1 o1) (MkTree x2 n2 o2)).
Qed.

Lemma ordered_pairing_loop k : forall acc f, (width f <= k)%nat -> is_heap acc -> weak_order lt (elems acc ++ elems f) ->
  ordered acc -> ordered f -> ordered (pairing_loop lt acc f).
Proof.
  induction k as [|k IH]; intros acc f Hk Hacc Hw Ha Hf.
  - destruct f; [done|cbn in Hk; lia].
  - destruct f as [|x1 n1 o1 [|x2 n2 o2 r]]; cbn [pairing_loop]; [done| |].
    + apply ordered_fmeld; try done. right. by exists (MkTree x1 n1 o1).
    + rewrite elems_pair in Hw. assert (ordered (single (meld lt (MkTree x1 n1 o1) (MkTree x2 n2 o2)))) as Hm.
      { apply ordered_meld; cbn in Hf; cbn [single ordered root newer older]; [|tauto..].
        eapply weak_order_sub; [|exact Hw]. intros z. rewrite !elem_of_app. tauto. }
      assert (is_heap (single (meld lt (MkTree x1 n1 o1) (MkTree x2 n2 o2)))) as Hh by (right; by eexists).
      apply IH; [cbn in Hk; lia|by apply is_heap_fmeld| | |cbn in Hf; tauto].
      * rewrite elems_fmeld, elems_meld by done. by rewrite <-!app_assoc.
      * apply ordered_fmeld; [done|done| |done|done]. rewrite elems_meld. eapply weak_order_sub; [|exact Hw].
        intros z. rewrite !elem_of_app. tauto.
Qed.

Lemma ordered_pairing f : weak_order lt (elems f) -> ordered f -> ordered (pairing lt f).
Proof. intros Hw Hf. apply (ordered_pairing_loop (width f)); [done|by left|done|done|done]. Qed.

(** ** Deletion *)

Fixpoint fdelete (y : Z) (f : forest) : forest :=
  match f with
  | FNil => FNil
  | FCons x n o r => if x =? y then fapp (pairing lt (fapp n o)) r else FCons x (fdelete y n) (fdelete y o) (fdelete y r)
  end.

Definition without (y : Z) (l : list Z) : list Z := filter (fun z => z <> y) l.

Lemma without_id y l : y ∉ l -> without y l = l.
Proof.
  induction l as [|x l IH]; [done|]. intros [Hx Hl]%not_elem_of_cons. unfold without. rewrite filter_cons_True by done.
  f_equal. by apply IH.
Qed.

Lemma without_app y l1 l2 : without y (l1 ++ l2) = without y l1 ++ without y l2.
Proof. apply filter_app. Qed.
Lemma without_cons_ne y x l : x <> y -> without y (x :: l) = x :: without y l.
Proof. intros. by apply filter_cons_True. Qed.
Lemma without_cons_eq y l : without y (y :: l) = without y l.
Proof. apply filter_cons_False. by intros []. Qed.

Lemma fdelete_id y f : y ∉ elems f -> fdelete y f = f.
Proof.
  induction f as [|x n IHn o IHo r IHr]; [done|]. cbn. rewrite not_elem_of_app, not_elem_of_cons, not_elem_of_app.
  intros (Hn & Hx & Ho & Hr). rewrite (proj2 (Z.eqb_neq x y)) by done. by rewrite IHn, IHo, IHr.
Qed.

Lemma elems_fdelete y f : NoDup (elems f) -> elems (fdelete y f) = without y (elems f).
Proof.
  induction f as [|x n IHn o IHo r IHr]; [done|]. cbn [elems fdelete]. intros (Hn & Hdis & Hnd)%NoDup_app.
  apply NoDup_cons in Hnd as [Hx Hnd]. apply NoDup_app in Hnd as (Ho & Hdis' & Hr).
  rewrite without_app. destruct (Z.eqb_spec x y) as [->|Hne].
  - rewrite elems_fapp, elems_pairing, elems_fapp, without_cons_eq, <-app_assoc.
    rewrite !without_id; [done|done|]. intros Hin. apply (Hdis _ Hin). by left.
  - cbn [elems]. by rewrite without_cons_ne, without_app, IHn, IHo, IHr.
Qed.

Lemma fdelete_sub y f : NoDup (elems f) -> forall c, c ∈ elems (fdelete y f) -> c ∈ elems f.
Proof. intros Hnd c. rewrite elems_fdelete by done. unfold without. rewrite list_elem_of_filter. tauto. Qed.

Lemma ordered_fdelete y f : NoDup (elems f) -> weak_order lt (elems f) -> ordered f -> ordered (fdelete y f).
Proof.
  induction f as [|x n IHn o IHo r IHr]; [done|]. cbn. intros (Hn & _ & Hnd)%NoDup_app Hw (H1 & H2 & H3 & H4 & H5).
  apply NoDup_cons in Hnd as [_ Hnd]. apply NoDup_app in Hnd as (Ho & _ & Hr).
  destruct (Z.eqb_spec x y) as [->|Hne].
  - apply ordered_fapp. split; [|done]. apply ordered_pairing; [|by apply ordered_fapp].
    eapply weak_order_sub; [|exact Hw]. intros z. rewrite elems_fapp, !elem_of_app, elem_of_cons, elem_of_app. tauto.
  - cbn. assert (forall l', (forall z, z ∈ l' -> z ∈ elems n ++ x :: elems o ++ elems r) -> weak_order lt l') as Hsub.
    { intros l' Hl'. by eapply weak_order_sub. }
    split; [intros c Hc; by apply H1, (fdelete_sub y)|]. split; [intros c Hc; by apply H2, (fdelete_sub y)|].
    split; [|split]; [apply IHn|apply IHo|apply IHr]; try done; apply Hsub; intros z;
      rewrite !elem_of_app, elem_of_cons, elem_of_app; tauto.
Qed.

End Ordered.

(** The order only matters on the elements. *)
Lemma ordered_ext lt lt' f : (forall a b, a ∈ elems f -> b ∈ elems f -> lt' a b = lt a b) -> ordered lt f -> ordered lt' f.
Proof.
  induction f as [|x n IHn o IHo r IHr]; [done|]. intros Hext (H1 & H2 & H3 & H4 & H5).
  assert (forall z, z ∈ elems n \/ z = x \/ z ∈ elems o \/ z ∈ elems r -> z ∈ elems (FCons x n o r)) as Hin.
  { intros z. cbn. rewrite elem_of_app, elem_of_cons, elem_of_app. tauto. }
  cbn. split; [intros c Hc; rewrite Hext; [by apply H1|apply Hin; tauto..]|].
  split; [intros c Hc; rewrite Hext; [by apply H2|apply Hin; tauto..]|].
  split; [|split]; [apply IHn|apply IHo|apply IHr]; try done; intros a b Ha Hb; apply Hext; apply Hin; tauto.
Qed.
