(* ===== verification/PairHeapDelete.v ===== *)
(** * Deleting a node inside a pairing heap

    [focus] finds the parent of a node and says what its children must become;
    the rules of the searches and of the last statements of
    [mp_pairheap_delete] then give the rule of the whole. *)
From S2P Require Import Prelude.
From S2P Require Import CMem.
From S2P Require Import PairHeap.
From S2P Require Import PairHeapFacts.
Local Open Scope Z_scope.

Fixpoint roots (f : forest) : list Z := match f with FNil => [] | FCons x _ _ r => x :: roots r end.

Lemma roots_fapp f g : roots (fapp f g) = roots f ++ roots g.
Proof. induction f as [|x n _ o _ r IH]; [done|]. cbn. by rewrite IH. Qed.

Lemma roots_elems f x : x ∈ roots f -> x ∈ elems f.
Proof.
  induction f as [|y n _ o _ r IH]; [done|]. cbn. rewrite elem_of_cons, elem_of_app, elem_of_cons, elem_of_app. tauto.
Qed.

Lemma last_root_roots f : last_root f = last (roots f).
Proof. induction f as [|x n _ o _ r IH]; [done|]. destruct r as [|x' n' o' r']; [done|]. cbn [roots]. rewrite last_cons_cons. exact IH. Qed.

(** The siblings before and after a root. *)
Lemma roots_split f y : y ∈ roots f -> exists a n o b, f = fapp a (FCons y n o b) /\ y ∉ roots a.
Proof.
  induction f as [|x n _ o _ r IH]; [by intros ?%not_elem_of_nil|]. cbn. destruct (decide (y = x)) as [->|Hne].
  - intros _. exists FNil, n, o, r. split; [done|]. apply not_elem_of_nil.
  - intros [?|Hin]%elem_of_cons; [done|]. destruct (IH Hin) as (a & n' & o' & b & -> & Ha).
    exists (FCons x n o a), n', o', b. split; [done|]. cbn. apply not_elem_of_cons. done.
Qed.

Section Delete.
Context (lt : Z -> Z -> bool).

Abbreviation fdelete := (fdelete lt).

Lemma fdelete_fapp y f g : (y ∈ elems f -> y ∉ elems g) -> fdelete y (fapp f g) = fapp (fdelete y f) (fdelete y g).
Proof.
  induction f as [|x n _ o _ r IH]; [done|]. cbn. intros Hd. destruct (Z.eqb_spec x y) as [->|Hne].
  - rewrite (fdelete_id lt y g); [by rewrite fapp_assoc|]. apply Hd. apply elem_of_app. right. by left.
  - cbn. rewrite IH; [done|]. intros Hin. apply Hd. rewrite elem_of_app, elem_of_cons, elem_of_app. tauto.
Qed.

Lemma roots_fdelete y f : y ∉ roots f -> roots (fdelete y f) = roots f.
Proof.
  induction f as [|x n _ o _ r IH]; [done|]. cbn. intros [Hne Hr]%not_elem_of_cons.
  rewrite (proj2 (Z.eqb_neq x y)) by done. cbn. by rewrite IH.
Qed.

Lemma fdelete_split y a n o b : y ∉ elems a -> fdelete y (fapp a (FCons y n o b)) = fapp a (fapp (pairing lt (fapp n o)) b).
Proof. intros Ha. rewrite fdelete_fapp by done. rewrite fdelete_id by done. cbn. by rewrite Z.eqb_refl. Qed.

Lemma nodup_cons x n o r : NoDup (elems (FCons x n o r)) ->
  NoDup (elems (fapp n o)) /\ x ∉ elems (fapp n o) /\ NoDup (elems r) /\ x ∉ elems r /\
  (forall z, z ∈ elems (fapp n o) -> z ∉ elems r).
Proof.
  rewrite elems_fapp. cbn. intros (Hn & Hdis & Hnd)%NoDup_app. apply NoDup_cons in Hnd as [Hx Hnd].
  apply NoDup_app in Hnd as (Ho & Hdis' & Hr). rewrite not_elem_of_app in Hx.
  assert (forall z, z ∈ elems n -> z <> x /\ z ∉ elems o /\ z ∉ elems r) as Hd.
  { intros z Hz. specialize (Hdis z Hz). by rewrite not_elem_of_cons, not_elem_of_app in Hdis. }
  split; [apply NoDup_app; split; [done|]; split; [intros z Hz; by apply Hd|done]|].
  split; [|split; [done|split; [tauto|]]].
  - rewrite not_elem_of_app. split; [|tauto]. intros Hin. by destruct (Hd _ Hin).
  - intros z [Hz|Hz]%elem_of_app; [by apply Hd|by apply Hdis'].
Qed.

Lemma chain_elems_cons x n o r z : z ∈ elems (FCons x n o r) <-> z = x \/ z ∈ elems (fapp n o) \/ z ∈ elems r.
Proof. rewrite elems_fapp. cbn. rewrite !elem_of_app, elem_of_cons, elem_of_app. tauto. Qed.

(** What deleting [y] asks of the parent [p] of [y], whose children are [k]. *)
Definition focused (m : mem) (f : forest) (h e y p : Z) (k : forest) (nd : mp_pairheap_t) : Prop :=
  addr_ok p /\ p ∈ elems f /\ m !! p = Some nd /\ kids m p (child nd) (child_last nd) k /\
  y ∈ roots k /\ NoDup (elems k) /\ p ∉ elems k /\ (forall z, z ∈ elems k -> z ∈ elems f) /\
  forall m' c cl, m' !! p = Some (MkPairheap c cl (next nd)) -> kids m' p c cl (fdelete y k) ->
    (forall z, z ∈ elems f -> z <> p -> z ∉ elems k -> m' !! z = m !! z) -> chain m' (fdelete y f) h e.

Lemma focused_lift m f' h' e' f h e y p k nd : focused m f' h' e' y p k nd ->
  (forall z, z ∈ elems f' -> z ∈ elems f) ->
  (forall m', chain m' (fdelete y f') h' e' -> (forall z, z ∈ elems f -> z ∉ elems f' -> m' !! z = m !! z) ->
     chain m' (fdelete y f) h e) -> focused m f h e y p k nd.
Proof.
  intros (Hp & Hpin & Hlk & Hkids & Hy & Hnd & Hpk & Hsub & Hw) Hin Hbuild.
  split; [done|]. split; [by apply Hin|]. split; [done|]. split; [done|]. split; [done|]. split; [done|]. split; [done|].
  split; [intros z Hz; by apply Hin, Hsub|]. intros m' c cl Hx Hk Hfr. apply Hbuild.
  - apply (Hw m' c cl); [done|done|]. intros z Hz Hzp Hzk. apply Hfr; [by apply Hin|done|done].
  - intros z Hz Hz'. apply Hfr; [done| |]; [by intros ->|]. intros Hzk. by apply Hz', Hsub.
Qed.

(** A tree whose root stays: its children and the other trees are rebuilt. *)
Lemma fdelete_cons m' x n o r e y nd : x <> y -> addr_ok x ->
  m' !! x = Some nd -> chain m' (fdelete y r) (next nd) e ->
  kids m' x (child nd) (child_last nd) (fapp (fdelete y n) (fdelete y o)) -> chain m' (fdelete y (FCons x n o r)) x e.
Proof.
  intros Hyx Ha Hx Hr Hk. cbn [PairHeapFacts.fdelete]. rewrite (proj2 (Z.eqb_neq x y)) by done. apply chain_cons.
  split; [done|]. split; [done|]. by exists nd.
Qed.

(** New children with the same roots fit where the old ones were. *)
Lemma kids_same_roots m' x c cl n o n' o' mid : last_root (fapp n o) = Some cl -> chain m' n' c mid -> chain m' o' mid (x + 1) -> roots n' = roots n -> roots o' = roots o ->
  kids m' x c cl (fapp n' o').
Proof.
  intros Hlast Hn' Ho' En Eo.
  assert (last_root (fapp n' o') = last_root (fapp n o)) as El by (rewrite !last_root_roots, !roots_fapp; by rewrite En, Eo).
  apply kids_intro; [|apply chain_fapp; by exists mid|by rewrite El]. intros E. by rewrite E, Hlast in El.
Qed.

Section Focus.
Context (m : mem) (x : Z) (n o r : forest) (e y : Z) (nd : mp_pairheap_t).
Context (Hc : chain m (FCons x n o r) x e) (Hnd : NoDup (elems (FCons x n o r))) (Hlk : m !! x = Some nd) (Hyx : y <> x).

Lemma focus_parts : addr_ok x /\ chain m r (next nd) e /\ kids m x (child nd) (child_last nd) (fapp n o).
Proof using Hc Hlk. apply chain_cons in Hc as (_ & ? & nd' & Hlk' & ? & ?). by assert (nd' = nd) as -> by congruence. Qed.

(** The node is a child of the root. *)
Lemma focus_child : y ∈ roots (fapp n o) -> focused m (FCons x n o r) x e y x (fapp n o) nd.
Proof using Hc Hnd Hlk Hyx.
  intros Hin. destruct focus_parts as (Ha & Hr & Hk). destruct (nodup_cons _ _ _ _ Hnd) as (Hndk & Hxk & _ & Hxr & Hkr).
  split; [done|]. split; [apply chain_elems_cons; by left|]. split; [done|]. split; [done|]. split; [done|]. split; [done|].
  split; [done|]. split; [intros z Hz; apply chain_elems_cons; by right; left|].
  intros m' c cl Hx Hk' Hfr. cbn [PairHeapFacts.fdelete]. rewrite (proj2 (Z.eqb_neq x y)) by done. apply chain_cons.
  split; [done|]. split; [done|]. eexists. split; [exact Hx|]. cbn [child child_last next].
  rewrite elems_fapp in Hndk. split.
  - rewrite (fdelete_id lt y r) by (apply Hkr; by apply roots_elems). apply (chain_frame m); [|done]. intros z Hz. apply Hfr.
    + apply chain_elems_cons. by right; right.
    + by intros ->.
    + intros Hz'. by apply (Hkr z).
  - rewrite <-fdelete_fapp; [done|]. by apply NoDup_app in Hndk as (_ & Hndk & _); apply Hndk.
Qed.

(** It is in one of the parts [f']; the other parts are framed. *)
Lemma focus_part f' h' e' p k nd' : focused m f' h' e' y p k nd' -> x ∉ elems f' ->
  (forall z, z ∈ elems f' -> z ∈ elems (FCons x n o r)) ->
  (forall m', m' !! x = Some nd -> chain m' (fdelete y f') h' e' ->
     (forall g a b, (forall z, z ∈ elems g -> z ∈ elems (FCons x n o r) /\ z ∉ elems f') -> chain m g a b -> chain m' g a b) ->
     chain m' (fdelete y r) (next nd) e /\ kids m' x (child nd) (child_last nd) (fapp (fdelete y n) (fdelete y o))) ->
  focused m (FCons x n o r) x e y p k nd'.
Proof using Hc Hnd Hlk Hyx.
  intros Hfoc Hx Hsub Hparts. destruct focus_parts as (Ha & _). apply (focused_lift _ f' _ _ _ _ _ _ _ _ _ Hfoc Hsub).
  intros m' Hf' Hfr. assert (m' !! x = Some nd) as Hlk' by (rewrite Hfr; [done|apply chain_elems_cons; by left|done]).
  destruct (Hparts m' Hlk' Hf') as [Hr Hk].
  { intros g a b Hg Hcg. apply (chain_frame m); [|done]. intros z Hz. by apply Hfr; apply Hg. }
  by apply (fdelete_cons m' x n o r e y nd).
Qed.

Context (Hxk : x ∉ elems (fapp n o)) (Hkr : forall z, z ∈ elems (fapp n o) -> z ∉ elems r).

Lemma focus_newer mid p k nd' : y ∈ elems n -> y ∉ roots n -> chain m n (child nd) mid -> chain m o mid (x + 1) ->
  last_root (fapp n o) = Some (child_last nd) -> focused m n (child nd) mid y p k nd' ->
  focused m (FCons x n o r) x e y p k nd'.
Proof using Hc Hnd Hlk Hyx Hxk Hkr.
  intros Hy Hroot Hn Ho Hlast Hfoc. destruct focus_parts as (_ & Hr & _). destruct (nodup_cons _ _ _ _ Hnd) as (Hndk & _).
  rewrite elems_fapp in Hndk, Hxk, Hkr. apply NoDup_app in Hndk as (_ & Hdis & _). rewrite not_elem_of_app in Hxk.
  assert (forall z, z ∈ elems n -> z ∉ elems r) as Hnr by (intros z Hz; apply Hkr, elem_of_app; by left).
  apply (focus_part n (child nd) mid); [done|tauto|intros z Hz; apply chain_elems_cons; rewrite elems_fapp, elem_of_app; tauto|].
  intros m' _ Hn' Hframe. rewrite (fdelete_id lt y r), (fdelete_id lt y o) by auto. split.
  - apply Hframe; [|done]. intros z Hz. split; [apply chain_elems_cons; tauto|]. intros Hz'. by apply (Hnr z).
  - apply (kids_same_roots m' x _ _ n o _ _ mid); [done|done| |by apply roots_fdelete|done].
    apply Hframe; [|done]. intros z Hz. split; [apply chain_elems_cons; rewrite elems_fapp, elem_of_app; tauto|].
    intros Hz'. by apply (Hdis z).
Qed.

Lemma focus_older mid p k nd' : y ∈ elems o -> y ∉ roots o -> chain m n (child nd) mid -> chain m o mid (x + 1) ->
  last_root (fapp n o) = Some (child_last nd) -> focused m o mid (x + 1) y p k nd' ->
  focused m (FCons x n o r) x e y p k nd'.
Proof using Hc Hnd Hlk Hyx Hxk Hkr.
  intros Hy Hroot Hn Ho Hlast Hfoc. destruct focus_parts as (_ & Hr & _). destruct (nodup_cons _ _ _ _ Hnd) as (Hndk & _).
  rewrite elems_fapp in Hndk, Hxk, Hkr. apply NoDup_app in Hndk as (_ & Hdis & _). rewrite not_elem_of_app in Hxk.
  assert (forall z, z ∈ elems o -> z ∉ elems r) as Hor by (intros z Hz; apply Hkr, elem_of_app; by right).
  assert (forall z, z ∈ elems o -> z ∉ elems n) as Hon by (intros z Hz Hz'; by apply (Hdis z)).
  apply (focus_part o mid (x + 1)); [done|tauto|intros z Hz; apply chain_elems_cons; rewrite elems_fapp, elem_of_app; tauto|].
  intros m' _ Ho' Hframe. rewrite (fdelete_id lt y r), (fdelete_id lt y n) by auto. split.
  - apply Hframe; [|done]. intros z Hz. split; [apply chain_elems_cons; tauto|]. intros Hz'. by apply (Hor z).
  - assert (chain m' n (child nd) mid) as Hn'.
    { apply Hframe; [|done]. intros z Hz. split; [apply chain_elems_cons; rewrite elems_fapp, elem_of_app; tauto|by apply Hdis]. }
    apply (kids_same_roots m' x _ _ n o _ _ mid); [done|done|done|done|by apply roots_fdelete].
Qed.

Lemma focus_rest p k nd' : y ∈ elems r -> focused m r (next nd) e y p k nd' -> focused m (FCons x n o r) x e y p k nd'.
Proof using Hc Hnd Hlk Hyx Hxk Hkr.
  intros Hy Hfoc. destruct focus_parts as (_ & _ & Hk). destruct (nodup_cons _ _ _ _ Hnd) as (_ & _ & _ & Hxr & _).
  assert (y ∉ elems (fapp n o)) as Hyk by (intros ?; by apply (Hkr y)). rewrite elems_fapp, not_elem_of_app in Hyk.
  apply (focus_part r (next nd) e); [done|done|intros z Hz; apply chain_elems_cons; tauto|].
  intros m' _ Hr' Hframe. split; [done|]. rewrite !(fdelete_id lt y) by tauto.
  destruct (fapp n o) as [|x1 n1 o1 r1] eqn:E; [done|]. destruct Hk as [Hck Hl]. split; [|done].
  apply Hframe; [|done]. intros z Hz. split; [apply chain_elems_cons; rewrite E; tauto|by apply Hkr].
Qed.

End Focus.

Lemma focus m f h e y : chain m f h e -> NoDup (elems f) -> y ∈ elems f -> y ∉ roots f ->
  exists p k nd, focused m f h e y p k nd.
Proof.
  revert h e. induction f as [|x n IHn o IHo r IHr]; intros h e Hc Hnd Hy Hroot; [by apply not_elem_of_nil in Hy|].
  destruct (nodup_cons _ _ _ _ Hnd) as (Hk & Hxk & Hr & _ & Hkr).
  apply chain_elems_cons in Hy. cbn [roots] in Hroot. apply not_elem_of_cons in Hroot as [Hyx Hroot].
  pose proof Hc as (-> & _ & nd & Hlk & Hcr & Hkids)%chain_cons. destruct Hy as [?|[Hy|Hy]]; [done| |].
  - destruct (decide (y ∈ roots (fapp n o))) as [Hin|Hin]; [exists x, (fapp n o), nd; by apply focus_child|].
    apply kids_elim in Hkids as [Hkids Hlast]; [|by intros E; rewrite E in Hy; apply not_elem_of_nil in Hy].
    apply chain_fapp in Hkids as (mid & Hcn & Hco).
    rewrite roots_fapp, not_elem_of_app in Hin. destruct Hin as [Hyn Hyo].
    rewrite elems_fapp in Hk, Hy. apply NoDup_app in Hk as (Hndn & _ & Hndo). apply elem_of_app in Hy as [Hy|Hy].
    + destruct (IHn _ _ Hcn Hndn Hy Hyn) as (p & k & nd' & Hfoc). exists p, k, nd'. by apply (focus_newer m x n o r e y nd Hc Hnd Hlk Hyx Hxk Hkr mid).
    + destruct (IHo _ _ Hco Hndo Hy Hyo) as (p & k & nd' & Hfoc). exists p, k, nd'. by apply (focus_older m x n o r e y nd Hc Hnd Hlk Hyx Hxk Hkr mid).
  - destruct (IHr _ _ Hcr Hr Hy Hroot) as (p & k & nd' & Hfoc). exists p, k, nd'. by apply (focus_rest m x n o r e y nd Hc Hnd Hlk Hyx Hxk Hkr).
Qed.

(** ** The searches *)

Lemma find_parent_loop p fuel : addr_ok p -> forall f m h (Q : Z -> mem -> Prop),
  chain m f h (p + 1) -> f <> FNil -> (width f <= fuel)%nat -> Q p m ->
  wp (loop fuel (fun parent => x ← node parent;
        mret (if NEXT_IS_RIGHTMOST_PARENT (next x) then inr (NEXT_GET_RIGHTMOST_PARENT (next x)) else inl (next x))) h) m Q.
Proof.
  intros Hp. induction fuel as [|fuel IH]; intros f m h Q Hc Hne Hw HQ; (destruct f as [|x n o r]; [done|]).
  - cbn in Hw. lia.
  - cbn [loop]. pose proof Hc as (-> & _ & nd & Hlk & Hr & _)%chain_cons.
    apply wp_bind, wp_bind, (wp_node _ _ nd); [done|]. apply wp_ret. destruct r as [|x' n' o' r'].
    + cbn in Hr. rewrite Hr, (parent_is_parent _ Hp), (get_parent _ Hp). by apply wp_ret.
    + rewrite (chain_not_parent _ _ _ _ _ _ _ Hr). apply (IH (FCons x' n' o' r')); [done|done|cbn in Hw |- *; lia|done].
Qed.

Lemma find_previous_loop y fuel : forall f m h (Q : Z -> mem -> Prop) l,
  chain m f h y -> y ∉ roots f -> last_root f = Some l -> (width f <= fuel)%nat -> Q l m ->
  wp (loop fuel (fun n => x ← node n; mret (if next x =? y then inr n else inl (next x))) h) m Q.
Proof.
  induction fuel as [|fuel IH]; intros f m h Q l Hc Hy Hl Hw HQ; (destruct f as [|x n o r]; [done|]).
  - cbn in Hw. lia.
  - cbn [loop]. pose proof Hc as (-> & _ & nd & Hlk & Hr & _)%chain_cons. cbn [roots] in Hy. apply not_elem_of_cons in Hy as [_ Hy].
    apply wp_bind, wp_bind, (wp_node _ _ nd); [done|]. apply wp_ret. destruct r as [|x' n' o' r'].
    + cbn in Hr. rewrite Hr, Z.eqb_refl. injection Hl as ->. by apply wp_ret.
    + pose proof Hr as (Hx' & _)%chain_cons. rewrite (proj2 (Z.eqb_neq (next nd) y)).
      * apply (IH (FCons x' n' o' r') _ _ _ l); [done|done|by rewrite last_root_cons in Hl|cbn in Hw |- *; lia|done].
      * rewrite Hx'. intros ->. apply Hy. by left.
Qed.

Lemma wp_find_parent m f h p (Q : Z -> mem -> Prop) : addr_ok p -> chain m f h (p + 1) -> NoDup (elems f) -> f <> FNil ->
  Q p m -> wp (find_parent h) m Q.
Proof.
  intros Hp Hc Hnd Hne HQ. apply wp_bind. unfold wp at 1, get. apply (find_parent_loop p _ Hp f); [done|done| |done].
  pose proof (width_le f). pose proof (chain_size _ _ _ _ Hc Hnd). lia.
Qed.

Lemma wp_find_previous m f h y l (Q : Z -> mem -> Prop) : chain m f h y -> NoDup (elems f) -> y ∉ roots f -> last_root f = Some l ->
  Q l m -> wp (find_previous h y) m Q.
Proof.
  intros Hc Hnd Hy Hl HQ. apply wp_bind. unfold wp at 1, get. apply (find_previous_loop y _ f _ _ _ l); [done|done|done| |done].
  pose proof (width_le f). pose proof (chain_size _ _ _ _ Hc Hnd). lia.
Qed.

(** ** Linking the siblings [a] to the siblings [b] *)

Lemma wp_relink m heap p c cl nx a b e l nxt (Q : Z -> mem -> Prop) :
  addr_ok p -> m !! p = Some (MkPairheap c cl nx) -> p ∉ elems a -> p ∉ elems b -> NoDup (elems a ++ elems b) ->
  chain m a c e -> last_root a = Some l -> chain m b nxt (p + 1) -> (b <> FNil -> last_root b = Some cl) ->
  (forall m' cl', m' !! p = Some (MkPairheap c cl' nx) -> kids m' p c cl' (fapp a b) ->
     (forall z, z ∉ elems a -> z <> p -> m' !! z = m !! z) -> Q heap m') ->
  wp (relink heap p l nxt) m Q.
Proof.
  intros Hp Hlk Hpa Hpb Hnd Ha Hl Hb Hcl HQ. apply NoDup_app in Hnd as (Hnda & Hdis & Hndb).
  destruct (chain_set_end _ _ _ _ _ Ha Hnda Hl) as (Hin & nd & Hlkl & _ & Hset).
  assert (l <> p) as Hlp by (by intros ->).
  assert (a <> FNil) as Hane by (by intros ->).
  apply wp_bind, (wp_set_next _ _ nd); [done|]. specialize (Hset nxt). set (m1 := <[l := _]> m) in *.
  assert (m1 !! p = Some (MkPairheap c cl nx)) as Hlk1 by (unfold m1; by rewrite lookup_insert_ne).
  assert (forall z, z ∉ elems a -> m1 !! z = m !! z) as Hfr1.
  { intros z Hz. unfold m1. rewrite lookup_insert_ne; [done|]. by intros ->. }
  assert (chain m1 b nxt (p + 1)) as Hb1.
  { apply (chain_frame m); [|done]. intros z Hz. apply Hfr1. intros Hz'. by apply (Hdis z). }
  destruct b as [|x n o r].
  - cbn in Hb. subst nxt. rewrite (parent_is_parent _ Hp).
    apply wp_bind, (wp_set_child_last _ _ _ _ _ Hlk1), wp_ret. cbn [child next]. apply (HQ _ l).
    + apply lookup_insert_eq.
    + rewrite fapp_nil. apply kids_intro; [done| |done]. apply (chain_frame m1); [|done].
      intros z Hz. rewrite lookup_insert_ne; [done|]. by intros ->.
    + intros z Hz Hzp. rewrite lookup_insert_ne by done. by apply Hfr1.
  - rewrite (chain_not_parent _ _ _ _ _ _ _ Hb). apply wp_bind, wp_ret, wp_ret, (HQ _ cl); [done| |by intros; apply Hfr1].
    apply kids_intro; [by apply fapp_ne| |rewrite last_root_fapp by done; by apply Hcl].
    apply chain_fapp. by exists nxt.
Qed.

(** ** A node below the top *)

(** The node is unlinked, and its children are paired. *)
Lemma wp_detach m y nd k (rest : Z -> Mh Z) (Q : Z -> mem -> Prop) :
  m !! y = Some nd -> addr_ok y -> kids m y (child nd) (child_last nd) k -> y ∉ elems k -> NoDup (elems k) ->
  (forall m' h, heap_at m' (pairing lt k) h -> m' !! y = Some (MkPairheap 0 (child_last nd) 0) ->
     (forall z, z ∉ elems k -> z <> y -> m' !! z = m !! z) -> wp (rest h) m' Q) ->
  wp (set_child y 0;; set_next y 0;; h ← mp_pairheap_pairing lt (child nd); rest h) m Q.
Proof.
  intros Hlk Ha Hk Hy Hnd HQ.
  apply wp_bind, (wp_set_child _ _ nd); [done|].
  apply wp_bind, (wp_set_next _ _ (MkPairheap 0 (child_last nd) (next nd))); [apply lookup_insert_eq|]. cbn [child child_last].
  rewrite insert_insert_eq. apply wp_bind, (wp_pairing lt _ y k _ (child_last nd)); [done| |done|].
  - apply (kids_ext m); [|done]. intros z Hz. rewrite lookup_insert_ne; [done|]. by intros ->.
  - intros m' h Hh Hfr. apply HQ; [done| |].
    + rewrite Hfr by done. apply lookup_insert_eq.
    + intros z Hz Hzy. rewrite Hfr by done. by rewrite lookup_insert_ne.
Qed.

(** The node [y] among the children of [p]: the siblings before it, its own
    children, the siblings after it. *)
Record at_node (m : mem) (p y : Z) (nd ny : mp_pairheap_t) (a k b : forest) : Prop := {
  an_p : addr_ok p;
  an_y : addr_ok y;
  an_lookup_p : m !! p = Some nd;
  an_lookup_y : m !! y = Some ny;
  an_before : chain m a (child nd) y;
  an_kids : kids m y (child ny) (child_last ny) k;
  an_after : chain m b (next ny) (p + 1);
  an_last : b <> FNil -> last_root b = Some (child_last nd);
  an_roots : y ∉ roots a;
  an_nodup : NoDup (elems a ++ elems k ++ elems b);
  an_y_fresh : y ∉ elems a ++ elems k ++ elems b;
  an_p_fresh : p ∉ elems a ++ elems k ++ elems b;
  an_ne : p <> y;
}.

(** The result: the parent's children are [a], the pairing of [k], and [b]. *)
Definition node_deleted (m m' : mem) (p y : Z) (nd : mp_pairheap_t) (a k b : forest) : Prop :=
  (exists c cl, m' !! p = Some (MkPairheap c cl (next nd)) /\ kids m' p c cl (fapp a (fapp (pairing lt k) b))) /\
  (exists cl, m' !! y = Some (MkPairheap 0 cl 0)) /\
  (forall z, z <> p -> z <> y -> z ∉ elems a ++ elems k ++ elems b -> m' !! z = m !! z).

Section Inner.
Context (m : mem) (heap p y : Z) (nd ny : mp_pairheap_t) (a k b : forest).
Context (Hat : at_node m p y nd ny a k b).

(** The first child, without children. *)
Lemma wp_first_leaf (Q : Z -> mem -> Prop) : a = FNil -> k = FNil ->
  (forall m', node_deleted m m' p y nd a k b -> Q heap m') ->
  wp ((if NEXT_IS_RIGHTMOST_PARENT (next ny) then set_child p 0 else set_child p (next ny));; set_next y 0;; mret heap) m Q.
Proof using Hat.
  intros Ea Ek HQ. destruct Hat as [Hp Hy Hlp Hly Hb4 Hk Haft Hlast _ Hnd Hyf Hpf Hne]. rewrite Ea, Ek in *.
  cbn [elems app] in *. cbn in Hk.
  assert (forall c, kids (<[y := MkPairheap 0 (child_last ny) 0]> (<[p := MkPairheap c (child_last nd) (next nd)]> m)) p c (child_last nd) b ->
    Q heap (<[y := MkPairheap 0 (child_last ny) 0]> (<[p := MkPairheap c (child_last nd) (next nd)]> m))) as Hend.
  { intros c Hkc. apply HQ. split; [|split].
    - exists c, (child_last nd). by rewrite lookup_insert_ne, lookup_insert_eq.
    - exists (child_last ny). by rewrite lookup_insert_eq.
    - intros z Hzp Hzy _. by rewrite !lookup_insert_ne. }
  assert (forall c Q', (forall m1, m1 = <[y := MkPairheap 0 (child_last ny) 0]> (<[p := MkPairheap c (child_last nd) (next nd)]> m) -> Q' heap m1) ->
    wp (set_child p c;; set_next y 0;; mret heap) m Q') as Hrun.
  { intros c Q' HQ'. apply wp_bind, (wp_set_child _ _ _ _ _ Hlp), wp_bind, (wp_set_next _ _ ny); [by rewrite lookup_insert_ne|].
    apply wp_ret, HQ'. by rewrite Hk. }
  destruct b as [|x n o r].
  - cbn in Haft. rewrite Haft, (parent_is_parent _ Hp). apply Hrun. intros m1 ->. by apply Hend.
  - rewrite (chain_not_parent _ _ _ _ _ _ _ Haft). apply Hrun. intros m1 ->. apply Hend.
    apply kids_intro; [done| |by apply Hlast]. apply (chain_frame m); [|done].
    intros z Hz. rewrite !lookup_insert_ne; [done|by intros ->..].
Qed.

(** What is known after the children of the node have been paired. *)
Lemma detached_facts m' h : heap_at m' (pairing lt k) h -> (forall z, z ∉ elems k -> z <> y -> m' !! z = m !! z) ->
  m' !! p = Some nd /\ chain m' a (child nd) y /\ chain m' b (next ny) (p + 1).
Proof using Hat.
  intros Hh Hfr. destruct Hat as [Hp Hy Hlp Hly Hb4 Hk Haft Hlast _ Hnd Hyf Hpf Hne].
  rewrite !not_elem_of_app in Hpf, Hyf. apply NoDup_app in Hnd as (Hnda & Hdis & Hnd). apply NoDup_app in Hnd as (Hndk & Hdis' & Hndb).
  split; [rewrite Hfr; tauto|]. split.
  - apply (chain_frame m); [|done]. intros z Hz. apply Hfr; [|by intros ->; tauto].
    intros Hz'. apply (Hdis _ Hz), elem_of_app. by left.
  - apply (chain_frame m); [|done]. intros z Hz. apply Hfr; [|by intros ->; tauto]. intros Hz'. by apply (Hdis' z).
Qed.

(** The result of relinking, with the siblings [q] in front of [b]. *)
Lemma relink_deleted m' q c l e (Q : Z -> mem -> Prop) :
  m' !! p = Some (MkPairheap c (child_last nd) (next nd)) -> (exists cl, m' !! y = Some (MkPairheap 0 cl 0)) ->
  q = fapp a (pairing lt k) -> chain m' q c e -> last_root q = Some l -> chain m' b (next ny) (p + 1) ->
  (forall z, z <> p -> z <> y -> z ∉ elems a ++ elems k -> m' !! z = m !! z) ->
  (forall m', node_deleted m m' p y nd a k b -> Q heap m') ->
  wp (relink heap p l (next ny)) m' Q.
Proof using Hat.
  intros Hlk (cly & Hly') Eq Hc Hl Hb Hfr HQ. destruct Hat as [Hp Hy Hlp Hly Hb4 Hk Haft Hlast _ Hnd Hyf Hpf Hne].
  assert (elems q = elems a ++ elems k) as Eqe by (rewrite Eq, elems_fapp; by rewrite elems_pairing).
  rewrite app_assoc, <-Eqe in *. rewrite not_elem_of_app in Hpf, Hyf.
  apply (wp_relink _ _ _ c (child_last nd) (next nd) q b e); try done; [tauto..|].
  intros m2 cl' Hlk2 Hk2 Hfr2. apply HQ. split; [|split].
  - exists c, cl'. split; [done|]. by rewrite fapp_assoc, <-Eq.
  - exists cly. by rewrite Hfr2 by (done || tauto).
  - intros z Hzp Hzy Hz. rewrite app_assoc, <-Eqe, not_elem_of_app in Hz. rewrite Hfr2 by tauto. apply Hfr; [done|done|tauto].
Qed.

Lemma pairing_nonempty : k <> FNil -> exists t, pairing lt k = single t.
Proof.
  intros Hk. destruct (is_heap_pairing lt k) as [E|E]; [|done]. exfalso. pose proof (elems_pairing lt k) as Ek.
  rewrite E in Ek. destruct k as [|x n o r]; [done|]. symmetry in Ek. by apply app_eq_nil in Ek as [_ ?].
Qed.

(** The first child, with children. *)
Lemma wp_first_inner (Q : Z -> mem -> Prop) : a = FNil -> k <> FNil ->
  (forall m', node_deleted m m' p y nd a k b -> Q heap m') ->
  wp (set_child y 0;; set_next y 0;; node_ ← mp_pairheap_pairing lt (child ny);
      set_child p node_;; relink heap p node_ (next ny)) m Q.
Proof using Hat.
  intros Ea Hk HQ. pose proof Hat as [Hp Hy Hlp Hly _ Hkids _ _ _ Hnd Hyf Hpf Hne].
  destruct (pairing_nonempty Hk) as (t & Et).
  rewrite !not_elem_of_app in Hyf, Hpf.
  apply (wp_detach _ _ _ k); [done|done|done|tauto| |].
  { by apply NoDup_app in Hnd as (_ & _ & [? _]%NoDup_app). }
  intros m' h Hh Hly' Hfr. destruct (detached_facts m' h Hh Hfr) as (Hlp' & _ & Hb').
  assert (h = root t /\ chain m' (single t) h 0) as [-> Hch].
  { rewrite Et in Hh. destruct Hh as [[? _]|(t' & Et' & Hch)]; [done|]. split; [|done].
    by apply chain_single in Hch as (-> & _). }
  assert (p ∉ elems (single t)) as Hpt by (rewrite <-Et, elems_pairing; tauto).
  apply wp_bind, (wp_set_child _ _ _ _ _ Hlp'). apply (relink_deleted _ (single t) (root t) _ 0).
  - apply lookup_insert_eq.
  - exists (child_last ny). by rewrite lookup_insert_ne.
  - by rewrite Ea, Et.
  - apply (chain_frame m'); [|done]. intros z Hz. rewrite lookup_insert_ne; [done|]. by intros ->.
  - done.
  - apply (chain_frame m'); [|done]. intros z Hz. rewrite lookup_insert_ne; [done|]. intros ->. tauto.
  - intros z Hzp Hzy Hz. rewrite lookup_insert_ne by done. rewrite not_elem_of_app in Hz. apply Hfr; tauto.
  - done.
Qed.

(** A later child. *)
Lemma wp_later l (Q : Z -> mem -> Prop) : last_root a = Some l ->
  (forall m', node_deleted m m' p y nd a k b -> Q heap m') ->
  wp (set_child y 0;; set_next y 0;; node_ ← mp_pairheap_pairing lt (child ny);
      if node_ =? 0 then relink heap p l (next ny)
      else set_next l node_;; relink heap p node_ (next ny)) m Q.
Proof using Hat.
  intros Hl HQ. pose proof Hat as [Hp Hy Hlp Hly _ Hkids _ _ _ Hnd Hyf Hpf Hne].
  rewrite !not_elem_of_app in Hyf, Hpf.
  pose proof Hnd as (Hnda & Hdis & Hnd')%NoDup_app. pose proof Hnd' as (Hndk & _ & _)%NoDup_app.
  apply (wp_detach _ _ _ k); [done|done|done|tauto|done|].
  intros m' h Hh Hly' Hfr. destruct (detached_facts m' h Hh Hfr) as (Hlp' & Ha' & Hb').
  assert (m' !! p = Some (MkPairheap (child nd) (child_last nd) (next nd))) as Hlpe by (rewrite Hlp'; by destruct nd).
  assert (forall z, z <> p -> z <> y -> z ∉ elems a ++ elems k -> m' !! z = m !! z) as Hfr'.
  { intros z _ Hzy Hz. rewrite not_elem_of_app in Hz. apply Hfr; tauto. }
  pose proof Hh as [[E ->]|(t & E & Hch)].
  - apply (relink_deleted _ a (child nd) _ y); [done|by exists (child_last ny)|by rewrite E, fapp_nil|done..].
  - rewrite E in Hch. pose proof Hch as (-> & Ht & _)%chain_single. rewrite (addr_nonzero _ Ht).
    destruct (chain_set_end _ _ _ _ _ Ha' Hnda Hl) as (Hin & ndl & Hlkl & _ & Hset).
    apply wp_bind, (wp_set_next _ _ ndl); [done|]. specialize (Hset (root t)). set (m1 := <[l := _]> m') in *.
    assert (forall z, z ∉ elems a -> m1 !! z = m' !! z) as Hm1.
    { intros z Hz. unfold m1. rewrite lookup_insert_ne; [done|]. by intros ->. }
    apply (relink_deleted _ (fapp a (single t)) (child nd) _ 0); [|exists (child_last ny)|by rewrite E| | | | |done]; rewrite ?Hm1; try tauto.
    + apply chain_fapp. exists (root t). split; [done|]. apply (chain_frame m'); [|done]. intros z Hz. apply Hm1. intros Hz'.
      apply (Hdis _ Hz'), elem_of_app. left. by rewrite <-(elems_pairing lt), E.
    + by rewrite last_root_fapp.
    + apply (chain_frame m'); [|done]. intros z Hz. apply Hm1. intros Hz'. apply (Hdis _ Hz'), elem_of_app. by right.
    + intros z Hzp Hzy Hz. pose proof Hz as Hz'. rewrite not_elem_of_app in Hz'. rewrite Hm1 by tauto. by apply Hfr'.
Qed.

End Inner.

(** Where the parent of [y] has it. *)
Lemma focused_at_node m f h e y p k nd : focused m f h e y p k nd ->
  exists a n o b ny, k = fapp a (FCons y n o b) /\ at_node m p y nd ny a (fapp n o) b.
Proof.
  intros (Hp & _ & Hlk & Hk & Hy & Hnd & Hpk & _ & _).
  destruct (roots_split _ _ Hy) as (a & n & o & b & -> & Ha).
  apply kids_elim in Hk as [Hc Hlast]; [|by apply fapp_ne].
  apply chain_fapp in Hc as (mid & Hca & Hcy). pose proof Hcy as (-> & Hay & ny & Hlky & Hcb & Hky)%chain_cons.
  rewrite elems_fapp in Hnd, Hpk. pose proof Hnd as (Hnda & Hdis & Hndy)%NoDup_app.
  destruct (nodup_cons _ _ _ _ Hndy) as (Hk & Hyk & Hb & Hyb & Hkb).
  assert (forall z, z ∈ elems a -> z <> y /\ z ∉ elems (fapp n o) /\ z ∉ elems b) as Hda.
  { intros z Hz. specialize (Hdis z Hz). rewrite chain_elems_cons in Hdis. tauto. }
  rewrite not_elem_of_app, chain_elems_cons in Hpk.
  exists a, n, o, b, ny. split; [done|]. split; try done.
  - intros Hb'. by rewrite last_root_fapp, last_root_cons in Hlast.
  - apply NoDup_app. split; [done|]. split.
    + intros z Hz. rewrite not_elem_of_app. destruct (Hda z Hz) as (_ & ? & ?). done.
    + apply NoDup_app. done.
  - rewrite !not_elem_of_app. split; [|done]. intros Hin. by destruct (Hda y Hin).
  - rewrite !not_elem_of_app. tauto.
  - intros ->. tauto.
Qed.

(** The code of a node that is not the top. *)
Lemma wp_delete_child m heap p y nd ny a k b (Q : Z -> mem -> Prop) : at_node m p y nd ny a k b -> y <> heap ->
  (exists n o, k = fapp n o /\ chain m (FCons y n o b) y (p + 1) /\ NoDup (elems (FCons y n o b))) ->
  (forall m', node_deleted m m' p y nd a k b -> Q heap m') ->
  wp (mp_pairheap_delete lt heap y) m Q.
Proof.
  intros Hat Hyh (n & o & Ek & Hcy & Hndy) HQ. pose proof Hat as [Hp Hy Hlp Hly Ha Hk Hb _ Hroots Hnd _ _ _].
  unfold mp_pairheap_delete. rewrite (proj2 (Z.eqb_neq y heap)) by done.
  apply wp_bind, (wp_node _ _ _ _ Hly).
  assert ((next ny =? 0) = false) as ->.
  { destruct b as [|x' n' o' r']; [cbn in Hb; rewrite Hb; apply Z.eqb_neq; destruct Hp; lia|].
    apply chain_cons in Hb as (-> & Hx' & _). by apply addr_nonzero. }
  apply wp_bind, (wp_find_parent _ (FCons y n o b) _ p); [done|done|done|done|].
  apply wp_bind, (wp_node _ _ _ _ Hlp).
  destruct a as [|xa na oa ra].
  - cbn in Ha. rewrite Ha, Z.eqb_refl. cbn [andb]. destruct (decide (k = FNil)) as [E|E].
    + rewrite E in Hk. cbn in Hk. rewrite Hk. cbn [Z.eqb]. by apply (wp_first_leaf _ _ _ _ _ _ _ _ _ Hat).
    + assert ((child ny =? 0) = false) as ->.
      { apply kids_elim in Hk as [Hc _]; [|done]. destruct k as [|xk nk ok rk]; [done|].
        apply chain_cons in Hc as (-> & Hx' & _). by apply addr_nonzero. }
      by apply (wp_first_inner _ _ _ _ _ _ _ _ _ Hat).
  - pose proof Ha as (Hxa & _)%chain_cons. assert ((y =? child nd) = false) as ->.
    { apply Z.eqb_neq. rewrite Hxa. intros ->. apply Hroots. by left. }
    cbn [andb]. pose proof Hnd as (Hnda & _)%NoDup_app.
    assert (exists l, last_root (FCons xa na oa ra) = Some l) as (l & Hl).
    { rewrite last_root_roots. cbn [roots]. destruct (last (xa :: roots ra)) eqn:El; [by eexists|].
      by apply last_None in El. }
    apply wp_bind, (wp_find_previous _ (FCons xa na oa ra) _ _ l); [done|done|done|done|].
    by apply (wp_later _ _ _ _ _ _ _ _ _ Hat).
Qed.

Lemma wp_delete_top m t (Q : Z -> mem -> Prop) : chain m (single t) (root t) 0 -> NoDup (elems (single t)) ->
  (forall m' h', heap_at m' (pairing lt (below t)) h' -> (exists cl, m' !! root t = Some (MkPairheap 0 cl 0)) ->
     (forall z, z ∉ elems (single t) -> m' !! z = m !! z) -> Q h' m') ->
  wp (h ← node (root t); set_child (root t) 0;; mp_pairheap_pairing lt (child h)) m Q.
Proof.
  intros Hc Hnd HQ. apply chain_single in Hc as (_ & Ha & nd & Hlk & Hnx & Hk).
  destruct (below_nodup _ Hnd) as [Hndb Hrb].
  apply wp_bind, (wp_node _ _ _ _ Hlk), wp_bind, (wp_set_child _ _ _ _ _ Hlk).
  apply (wp_pairing lt _ (root t) (below t) _ (child_last nd)); [done| |done|].
  - apply (kids_ext m); [|done]. intros z Hz. rewrite lookup_insert_ne; [done|]. by intros ?; subst z.
  - intros m' h' Hh Hfr. apply HQ; [done| |].
    + exists (child_last nd). rewrite Hfr, lookup_insert_eq by done. by rewrite Hnx.
    + intros z Hz. rewrite Hfr, lookup_insert_ne; [done| |].
      * intros ?; subst z. apply Hz, root_in.
      * intros Hz'. by apply Hz, below_in.
Qed.

(** [mp_pairheap_delete] on a node of the heap. *)
Lemma wp_delete m f h y (Q : Z -> mem -> Prop) : heap_at m f h -> NoDup (elems f) -> y ∈ elems f ->
  (forall m' h', heap_at m' (fdelete y f) h' -> (exists cl, m' !! y = Some (MkPairheap 0 cl 0)) ->
     (forall z, z ∉ elems f -> m' !! z = m !! z) -> Q h' m') ->
  wp (mp_pairheap_delete lt h y) m Q.
Proof.
  intros [[-> _]|(t & -> & Hc)] Hnd Hy HQ; [by apply not_elem_of_nil in Hy|].
  pose proof Hc as (-> & _)%chain_single. destruct (decide (y = root t)) as [->|Hne].
  - unfold mp_pairheap_delete. rewrite Z.eqb_refl. apply wp_delete_top; [done|done|].
    intros m' h' Hh. apply HQ. cbn. rewrite Z.eqb_refl, fapp_nil. exact Hh.
  - destruct (focus _ _ _ _ _ Hc Hnd Hy) as (p & k & nd & Hfoc).
    { cbn. intros ?%list_elem_of_singleton. done. }
    destruct (focused_at_node _ _ _ _ _ _ _ _ Hfoc) as (a & n & o & b & ny & -> & Hat).
    destruct Hfoc as (Hp & Hpf & Hlk & Hk & Hyk & Hndk & Hpk & Hsub & Hw).
    apply (wp_delete_child _ _ p y nd ny a (fapp n o) b); [done|done| |].
    { apply kids_elim in Hk as [Hck _]; [|by apply fapp_ne]. apply chain_fapp in Hck as (mid & _ & Hcy).
      exists n, o. split; [done|]. rewrite elems_fapp in Hndk. apply NoDup_app in Hndk as (_ & _ & Hndk).
      split; [|done]. by pose proof Hcy as (-> & _)%chain_cons. }
    intros m' ((c & cl & Hlp' & Hk') & Hly' & Hfr).
    assert (forall z, z ∉ elems (fapp a (FCons y n o b)) -> z <> y /\ z ∉ elems a ++ elems (fapp n o) ++ elems b) as Hout.
    { intros z. rewrite elems_fapp, !not_elem_of_app, chain_elems_cons. tauto. }
    apply HQ; [|done|].
    + right. exists (MkTree (root t) (fdelete y (newer t)) (fdelete y (older t))).
      cbn [fdelete PairHeapFacts.fdelete single root newer older].
      split; [by rewrite (proj2 (Z.eqb_neq (root t) y))|]. apply (Hw m' c cl); [done| |].
      * rewrite fdelete_split; [done|]. destruct Hat as [_ _ _ _ _ _ _ _ _ _ Hyf _ _]. by apply not_elem_of_app in Hyf as [? _].
      * intros z _ Hzp Hz. by apply Hfr; [|apply Hout..].
    + intros z Hz. assert (z ∉ elems (fapp a (FCons y n o b))) as Hz' by (intros ?; by apply Hz, Hsub).
      apply Hfr; [by intros ->|by apply Hout..].
Qed.

End Delete.
