(* ===== verification/PairHeapProps.v ===== *)
(** * A pairing heap is a stable priority queue

    The specification is a list of elements, the newest first; the next element is
    the oldest of the least.  Every operation of the heap does to its list of
    elements what the specification does. *)
From Stdlib Require Import Sorting.Sorted.
From S2P Require Import Prelude.
From S2P Require Import CMem.
From S2P Require Import PairHeap.
From S2P Require Import PairHeapFacts.
From S2P Require Import PairHeapDelete.
Local Open Scope Z_scope.

(** ** The specification *)

Section Queue.
Context (lt : Z -> Z -> bool).

(** The oldest of the least elements: a newer one must be less to take its place. *)
Fixpoint pq_min (l : list Z) : option Z :=
  match l with
  | [] => None
  | x :: l => match pq_min l with None => Some x | Some y => if lt x y then Some x else Some y end
  end.

Inductive pq_op := Push (n : Z) | Peek | Pop | Remove (n : Z).

(** The next list and the result; [None] where the operation may not be used. *)
Definition queue_op (op : pq_op) (l : list Z) : option (list Z * Z) :=
  match op with
  | Push n => if decide (n ∈ l) then None else Some (n :: l, 0)
  | Peek => Some (l, default 0 (pq_min l))
  | Pop => x ← pq_min l; Some (without x l, x)
  | Remove n => Some (without n l, 0)
  end.

Fixpoint queue_run (ops : list pq_op) (l : list Z) : option (list Z) :=
  match ops with
  | [] => Some []
  | op :: ops => '(l', r) ← queue_op op l; rs ← queue_run ops l'; Some (r :: rs)
  end.

(** ** The same operations on a heap *)

Definition heap_op (op : pq_op) (heap : Z) : Mh (Z * Z) :=
  match op with
  | Push n => heap ← mp_pairheap_push lt heap n; mret (heap, 0)
  | Peek => mret (heap, mp_pairheap_peek heap)
  | Pop => let top := mp_pairheap_peek heap in heap ← mp_pairheap_pop lt heap; mret (heap, top)
  | Remove n => heap ← mp_pairheap_delete lt heap n; mret (heap, 0)
  end.

Fixpoint heap_run (ops : list pq_op) (heap : Z) : Mh (list Z) :=
  match ops with
  | [] => mret []
  | op :: ops => hr ← heap_op op heap; rs ← heap_run ops hr.1; mret (hr.2 :: rs)
  end.

(** ** Representation *)

Definition detached (m : mem) (x : Z) : Prop := addr_ok x /\ exists cl, m !! x = Some (MkPairheap 0 cl 0).

Definition heap_rep (m : mem) (l : list Z) (h : Z) : Prop :=
  exists f, heap_at m f h /\ elems f = l /\ NoDup l /\ ordered lt f.

Lemma heap_rep_empty m : heap_rep m [] 0.
Proof. exists FNil. split; [by left|]. split; [done|]. split; [apply NoDup_nil_2|done]. Qed.

(** The top is the least element. *)
Lemma pq_min_app l1 x l2 : (forall c, c ∈ l1 -> lt c x = false) -> (forall c, c ∈ l2 -> lt x c = true) ->
  pq_min (l1 ++ x :: l2) = Some x.
Proof.
  intros H1 H2. assert (pq_min (x :: l2) = Some x) as H0.
  { cbn. destruct (pq_min l2) as [y|] eqn:E; [|done]. rewrite H2; [done|].
    clear -E. revert y E. induction l2 as [|z l2 IH]; [done|]. cbn. intros y. destruct (pq_min l2) as [y'|].
    - destruct (lt z y'); intros [= <-]; [by left|right; by apply IH].
    - intros [= <-]. by left. }
  induction l1 as [|c l1 IH]; [done|]. cbn [app pq_min]. rewrite IH by (intros c' Hc'; apply H1; by right).
  by rewrite H1 by left.
Qed.

Lemma heap_rep_top m l h : heap_rep m l h -> h = default 0 (pq_min l) /\ (l = [] -> h = 0) /\
  (l <> [] -> exists l1 l2, l = l1 ++ h :: l2 /\ pq_min l = Some h).
Proof.
  intros (f & Hh & <- & Hnd & Ho). destruct Hh as [[-> ->]|(t & -> & Hc)]; [done|].
  apply chain_single in Hc as (-> & _). destruct Ho as (H1 & H2 & _). rewrite elems_single.
  assert (pq_min (elems (newer t) ++ root t :: elems (older t)) = Some (root t)) as -> by by apply pq_min_app.
  split; [done|]. split; [by intros [_ ?]%app_eq_nil|]. intros _. by exists (elems (newer t)), (elems (older t)).
Qed.

Lemma heap_rep_next m l h : heap_rep m l h -> l <> [] -> exists nd, m !! h = Some nd /\ next nd = 0.
Proof.
  intros (f & Hh & <- & _) Hne. destruct Hh as [[-> ->]|(t & -> & Hc)]; [done|].
  apply chain_single in Hc as (-> & _ & nd & Hlk & Hn & _). by exists nd.
Qed.

(** A member is not detached unless it is the top. *)
Lemma wp_push m l h n (Q : Z -> mem -> Prop) : heap_rep m l h -> detached m n -> n ∉ l -> weak_order lt (n :: l) ->
  (forall m' h', heap_rep m' (n :: l) h' -> (forall z, z ∉ n :: l -> m' !! z = m !! z) -> Q h' m') ->
  wp (mp_pairheap_push lt h n) m Q.
Proof.
  intros (f & Hh & <- & Hnd & Ho) [Ha (cl & Hlk)] Hn Hw HQ.
  apply wp_bind, (wp_node _ _ _ _ Hlk), wp_bind, wp_assert; [done|].
  set (t := MkTree n FNil FNil). assert (heap_at m (single t) n) as Ht.
  { right. exists t. split; [done|]. apply chain_single. split; [done|]. split; [done|]. eexists. split; [exact Hlk|]. done. }
  assert (NoDup (elems (single t) ++ elems f)) as Hnd' by (cbn; by apply NoDup_cons).
  apply (wp_fmeld lt _ (single t) f); [done|done|done|].
  intros m' h' Hh' Hfr. apply HQ; [|done]. exists (fmeld lt (single t) f). split; [done|].
  pose proof (heap_at_is _ _ _ Ht) as Hit. pose proof (heap_at_is _ _ _ Hh) as Hif.
  split; [by rewrite elems_fmeld|]. split; [done|]. apply ordered_fmeld; try done. repeat split; intros c; by intros ?%not_elem_of_nil.
Qed.

Lemma wp_remove m l h y (Q : Z -> mem -> Prop) : heap_rep m l h -> y ∈ l -> weak_order lt l ->
  (forall m' h', heap_rep m' (without y l) h' -> detached m' y -> (forall z, z ∉ l -> m' !! z = m !! z) -> Q h' m') ->
  wp (mp_pairheap_delete lt h y) m Q.
Proof.
  intros (f & Hh & <- & Hnd & Ho) Hy Hw HQ. apply (wp_delete lt _ f); [done|done|done|].
  intros m' h' Hh' Hy' Hfr. apply HQ; [|split; [|done]|done].
  - exists (fdelete lt y f). split; [done|]. rewrite elems_fdelete by done. split; [done|].
    split; [by apply NoDup_filter|by apply ordered_fdelete].
  - destruct Hh as [[-> _]|(t & -> & Hc)]; [by apply not_elem_of_nil in Hy|]. by apply (chain_lookup _ _ _ _ _ Hc Hy).
Qed.

(** Taking the top off is deleting it. *)
Lemma pop_delete m l h : heap_rep m l h -> l <> [] -> mp_pairheap_pop lt h m = mp_pairheap_delete lt h h m.
Proof.
  intros Hr Hne. destruct (heap_rep_next _ _ _ Hr Hne) as (nd & Hlk & Hn).
  unfold mp_pairheap_pop, mp_pairheap_delete. rewrite Z.eqb_refl. unfold mbind, M_bind, node, assert_, mret, M_ret. rewrite Hlk. cbn.
  by rewrite Hn.
Qed.

Lemma wp_pop m l h (Q : Z -> mem -> Prop) : heap_rep m l h -> l <> [] -> weak_order lt l ->
  (forall m' h', heap_rep m' (without h l) h' -> detached m' h -> (forall z, z ∉ l -> m' !! z = m !! z) -> Q h' m') ->
  wp (mp_pairheap_pop lt h) m Q.
Proof.
  intros Hr Hne Hw HQ. unfold wp. rewrite (pop_delete _ _ _ Hr Hne). apply (wp_remove m l h h Q); [done| |done|done].
  destruct (heap_rep_top _ _ _ Hr) as (_ & _ & Ht). destruct (Ht Hne) as (l1 & l2 & -> & _). apply elem_of_app. right. by left.
Qed.

(** A detached node is not in the heap unless it is its top. *)
Lemma delete_absent m h y : h <> y -> detached m y -> mp_pairheap_delete lt h y m = Some (h, m).
Proof.
  intros Hne [_ (cl & Hlk)]. unfold mp_pairheap_delete. rewrite (proj2 (Z.eqb_neq y h)) by congruence.
  unfold mbind, M_bind, node. by rewrite Hlk.
Qed.

(** ** Sequences of operations *)

(** The nodes [u] that a program uses: in the heap, or detached. *)
Definition pool (u : list Z) (m : mem) (l : list Z) (h : Z) : Prop :=
  heap_rep m l h /\ (forall x, x ∈ l -> x ∈ u) /\ (forall x, x ∈ u -> x ∉ l -> detached m x).

Definition named (op : pq_op) (u : list Z) : Prop :=
  match op with Push n | Remove n => n ∈ u | _ => True end.

Lemma pool_step u m l l' h m' h' : pool u m l h -> heap_rep m' l' h' -> (forall x, x ∈ l' -> x ∈ u) ->
  (forall x, x ∈ u -> x ∉ l' -> x ∉ l \/ detached m' x) -> (forall z, z ∉ l -> z ∉ l' -> m' !! z = m !! z) -> pool u m' l' h'.
Proof.
  intros (_ & _ & Hd) Hr Hsub Hgone Hfr. split; [done|]. split; [done|]. intros x Hx Hxl.
  destruct (Hgone x Hx Hxl) as [Hxl'|?]; [|done]. destruct (Hd x Hx Hxl') as (Ha & cl & Hlk).
  split; [done|]. exists cl. by rewrite Hfr.
Qed.

Lemma elem_of_without x y l : x ∈ without y l <-> x <> y /\ x ∈ l.
Proof. unfold without. by rewrite list_elem_of_filter. Qed.

Lemma pool_without u m l h m' h' y : pool u m l h -> heap_rep m' (without y l) h' -> detached m' y ->
  (forall z, z ∉ l -> m' !! z = m !! z) -> pool u m' (without y l) h'.
Proof.
  intros Hp Hr Hy Hfr. apply (pool_step u m l (without y l) h); [done|done| | |].
  - intros x [_ Hx]%elem_of_without. by apply Hp.
  - intros x Hx Hxl. destruct (decide (x = y)) as [->|Hne]; [by right|left]. intros Hin. by apply Hxl, elem_of_without.
  - intros z Hz _. by apply Hfr.
Qed.

Lemma heap_op_refines u m l h op l' r : weak_order lt u -> pool u m l h -> named op u -> queue_op op l = Some (l', r) ->
  wp (heap_op op h) m (fun hr m' => hr.2 = r /\ pool u m' l' hr.1).
Proof.
  intros Hw Hp Hop Hq. pose proof Hp as (Hr & Hsub & Hd). assert (weak_order lt l) as Hwl by (by apply (weak_order_sub _ u)).
  destruct op as [n| | |n]; cbn in Hop, Hq |- *.
  - destruct (decide (n ∈ l)) as [|Hn]; [done|]. injection Hq as <- <-.
    apply wp_bind, (wp_push m l); [done|by apply Hd|done| |].
    { apply (weak_order_sub _ u); [|done]. intros x [->|Hx]%elem_of_cons; [done|by apply Hsub]. }
    intros m' h' Hr' Hfr. apply wp_ret. split; [done|]. apply (pool_step u m l (n :: l) h); [done|done| | |].
    + intros x [->|Hx]%elem_of_cons; [done|by apply Hsub].
    + intros x _ Hx. left. intros Hin. apply Hx. by right.
    + intros z _ Hz. by apply Hfr.
  - injection Hq as <- <-. destruct (heap_rep_top _ _ _ Hr) as (Eh & _). apply wp_ret. by split.
  - destruct (pq_min l) as [x|] eqn:E; [|done]. injection Hq as <- <-.
    assert (l <> []) as Hne by (by intros ->). destruct (heap_rep_top _ _ _ Hr) as (Eh & _). rewrite E in Eh. cbn in Eh. subst x.
    unfold mp_pairheap_peek. apply wp_bind, (wp_pop m l); [done|done|done|].
    intros m' h' Hr' Hx Hfr. apply wp_ret. split; [done|]. by apply (pool_without u m l h).
  - injection Hq as <- <-. destruct (decide (n ∈ l)) as [Hn|Hn].
    + apply wp_bind, (wp_remove m l); [done|done|done|]. intros m' h' Hr' Hx Hfr. apply wp_ret. split; [done|].
      by apply (pool_without u m l h).
    + rewrite (without_id n l) by done. assert (h <> n) as Hhn.
      { destruct (heap_rep_top _ _ _ Hr) as (_ & H0 & H1). destruct (decide (l = [])) as [->|Hne].
        - rewrite H0 by done. destruct (Hd n Hop Hn) as [[? _] _]. lia.
        - destruct (H1 Hne) as (l1 & l2 & -> & _). intros ->. apply Hn, elem_of_app. right. by left. }
      apply wp_bind. unfold wp at 1. rewrite (delete_absent _ _ _ Hhn (Hd n Hop Hn)). by apply wp_ret.
Qed.

Lemma heap_run_refines u ops : weak_order lt u -> Forall (fun op => named op u) ops -> forall m l h rs,
  pool u m l h -> queue_run ops l = Some rs -> wp (heap_run ops h) m (fun rs' _ => rs' = rs).
Proof.
  intros Hw Hops. induction Hops as [|op ops Hop Hops IH]; intros m l h rs Hp Hq.
  - by injection Hq as <-.
  - cbn in Hq. destruct (queue_op op l) as [[l' r]|] eqn:E; [|done]. cbn in Hq.
    destruct (queue_run ops l') as [rs'|] eqn:E'; [|done]. injection Hq as <-.
    cbn [heap_run]. apply wp_bind. eapply wp_mono; [by apply (heap_op_refines u m l h op l' r)|].
    intros [h' r'] m' [<- Hp']. cbn [fst snd] in *. apply wp_bind. eapply wp_mono; [by apply (IH m' l' h' rs')|].
    by intros rs'' m'' ->.
Qed.

(** C21: Any sequence of pushes, peeks, pops and removals on a pairing heap of any
    nodes, under a strict weak order on them, returns the results of a stable
    priority queue: the next element is the oldest of the least. *)
Theorem pairheap_refines_queue (m : mem) (u : list Z) ops rs :
  weak_order lt u -> (forall x, x ∈ u -> detached m x) -> Forall (fun op => named op u) ops ->
  queue_run ops [] = Some rs -> exists m', heap_run ops mp_pairheap_new m = Some (rs, m').
Proof.
  intros Hw Hd Hops Hq. destruct (run_value (heap_run ops 0) m (fun rs' _ => rs' = rs)) as (rs' & m' & E & ->).
  - apply (heap_run_refines u ops Hw Hops m []); [|done]. split; [apply heap_rep_empty|]. split; [|by intros x Hx _; apply Hd].
    by intros x ?%not_elem_of_nil.
  - by exists m'.
Qed.

(** ** Emptying the heap *)

Lemma pq_min_split l x : weak_order lt l -> pq_min l = Some x -> exists l1 l2, l = l1 ++ x :: l2 /\
  (forall c, c ∈ l1 -> lt c x = false) /\ (forall c, c ∈ l2 -> lt x c = true).
Proof.
  revert x. induction l as [|z l IH]; [done|]. intros x Hw. cbn.
  destruct (pq_min l) as [y|] eqn:E.
  - destruct (IH y) as (l1 & l2 & -> & H1 & H2); [by apply (weak_order_sub _ (z :: l)); [by right|]|done|].
    assert (y ∈ l1 ++ y :: l2) as Hy by (apply elem_of_app; right; by left).
    destruct (lt z y) eqn:Ez; intros [= <-].
    + exists [], (l1 ++ y :: l2). split; [done|]. split; [by intros c ?%not_elem_of_nil|].
      intros c Hc. pose proof Hc as [Hc'|[->|Hc']%elem_of_cons]%elem_of_app; [|done|].
      * destruct (lt z c) eqn:Ec; [done|]. rewrite <-Ez. symmetry. apply (wo_neg _ _ Hw z c y); [by left|by right..|done|by apply H1].
      * apply (wo_trans _ _ Hw z y c); [by left|by right..|done|by apply H2].
    + exists (z :: l1), l2. split; [done|]. split; [|done]. intros c [->|Hc]%elem_of_cons; [done|by apply H1].
  - intros [= <-]. exists [], l. split; [done|]. split; [by intros c ?%not_elem_of_nil|]. intros c Hc.
    destruct l as [|w l]; [by apply not_elem_of_nil in Hc|]. exfalso. cbn in E. destruct (pq_min l); [|done]. by destruct (lt w z0).
Qed.

Lemma pq_min_some l : l <> [] -> exists x, pq_min l = Some x.
Proof. destruct l as [|x l]; [done|]. intros _. cbn. destruct (pq_min l) as [y|]; [|by eexists]. destruct (lt x y); by eexists. Qed.

Fixpoint drain (n : nat) (l : list Z) : list Z :=
  match n with
  | O => []
  | S n => match pq_min l with None => [] | Some x => x :: drain n (without x l) end
  end.

Lemma without_split x l1 l2 : NoDup (l1 ++ x :: l2) -> without x (l1 ++ x :: l2) = l1 ++ l2.
Proof.
  intros (_ & Hd & Hnd)%NoDup_app. apply NoDup_cons in Hnd as [Hx _].
  rewrite without_app, without_cons_eq, !without_id; [done|done|]. intros Hin. apply (Hd _ Hin). by left.
Qed.

(** [a] goes before [b]: it is less, or not greater and pushed before. *)
Definition goes_before (pushed : list Z) (a b : Z) : Prop :=
  lt a b = true \/ (lt b a = false /\ [a; b] `sublist_of` pushed).

Lemma drain_sorted n : forall l l0, n = length l -> NoDup l -> weak_order lt l -> rev l `sublist_of` l0 ->
  queue_run (replicate n Pop) l = Some (drain n l) /\ drain n l ≡ₚ l /\ StronglySorted (goes_before l0) (drain n l).
Proof.
  induction n as [|n IH]; intros l l0 Hn Hnd Hw Hsub.
  - destruct l; [|done]. split; [done|]. split; [done|constructor].
  - destruct (pq_min_some l) as (x & E); [by intros ->|].
    destruct (pq_min_split l x Hw E) as (l1 & l2 & -> & H1 & H2). cbn [drain replicate queue_run queue_op].
    rewrite E. cbn. rewrite without_split by done.
    assert (forall c, c ∈ l1 ++ l2 -> c ∈ l1 ++ x :: l2) as Hin by (intros c; rewrite !elem_of_app, elem_of_cons; tauto).
    destruct (IH (l1 ++ l2) l0) as (Hq & Hp & Hs).
    + rewrite length_app in *. cbn in Hn. lia.
    + apply NoDup_app in Hnd as (? & Hd & [_ ?]%NoDup_cons). apply NoDup_app. split; [done|]. split; [|done].
      intros c Hc Hc'. apply (Hd c Hc). by right.
    + by apply (weak_order_sub _ (l1 ++ x :: l2)).
    + etrans; [|exact Hsub]. rewrite !rev_app_distr. cbn. rewrite <-app_assoc. apply sublist_app; [done|]. by apply sublist_cons.
    + rewrite Hq. cbn. split; [done|]. split; [rewrite Hp; apply Permutation_middle|]. constructor; [done|].
      apply Forall_forall. intros c Hc. rewrite Hp in Hc. apply elem_of_app in Hc as [Hc|Hc].
      * right. split; [by apply H1|]. etrans; [|exact Hsub]. rewrite rev_app_distr. cbn. rewrite <-app_assoc.
        apply sublist_inserts_l. cbn. apply sublist_skip. apply singleton_sublist_l. by rewrite list_elem_of_In, <-in_rev, <-list_elem_of_In.
      * left. by apply H2.
Qed.

Lemma queue_pushes ns : forall l ops, NoDup (rev ns ++ l) ->
  queue_run (map Push ns ++ ops) l = (rs ← queue_run ops (rev ns ++ l); Some (replicate (length ns) 0 ++ rs)).
Proof.
  induction ns as [|n ns IH]; intros l ops Hnd; cbn [map app queue_run queue_op rev length replicate].
  - by destruct (queue_run ops l).
  - cbn [rev] in Hnd. rewrite <-app_assoc in Hnd. cbn in Hnd. rewrite decide_False.
    + cbn. rewrite IH by done. rewrite <-app_assoc. cbn. by destruct (queue_run ops _).
    + intros Hin. apply NoDup_app in Hnd as (_ & _ & [? _]%NoDup_cons). done.
Qed.

(** Pushing nodes and popping as many gives every node once, in the order of
    [lt], and nodes of which neither is less in the order of pushing: the heap
    sorts, and stably. *)
Theorem pairheap_sorts (m : mem) ns : weak_order lt ns -> NoDup ns -> (forall x, x ∈ ns -> detached m x) ->
  exists rs m', heap_run (map Push ns ++ replicate (length ns) Pop) mp_pairheap_new m =
      Some (replicate (length ns) 0 ++ rs, m') /\
    rs ≡ₚ ns /\ StronglySorted (goes_before ns) rs.
Proof.
  intros Hw Hnd Hd. assert (rev ns ≡ₚ ns) as Hp by by rewrite <-Permutation_rev.
  destruct (drain_sorted (length ns) (rev ns) ns) as (Hq & Hpd & Hs).
  - by rewrite length_rev.
  - by rewrite Hp.
  - apply (weak_order_sub _ ns); [|done]. intros x. by rewrite Hp.
  - by rewrite rev_involutive.
  - exists (drain (length ns) (rev ns)).
    destruct (run_value (heap_run (map Push ns ++ replicate (length ns) Pop) 0) m
      (fun rs' _ => rs' = replicate (length ns) 0 ++ drain (length ns) (rev ns))) as (rs' & m' & E & ->).
    + apply (heap_run_refines ns _ Hw) with (l := []).
      * apply Forall_app. split; [|by apply Forall_replicate]. apply Forall_map, Forall_forall. done.
      * split; [apply heap_rep_empty|]. split; [by intros x ?%not_elem_of_nil|]. intros x Hx _. by apply Hd.
      * rewrite queue_pushes by (by rewrite app_nil_r, Hp). by rewrite app_nil_r, Hq.
    + exists m'. split; [exact E|]. split; [|done]. by rewrite Hpd.
Qed.

End Queue.

(** Four nodes, the second and the third with the same key. *)
Definition demo_key (x : Z) : Z := if x =? 16 then 5 else if x =? 32 then 3 else if x =? 48 then 3 else 1.
Definition demo_lt (x y : Z) : bool := demo_key x <? demo_key y.
Definition demo_mem : mem :=
  {[ 16 := MkPairheap 0 0 0; 32 := MkPairheap 0 0 0; 48 := MkPairheap 0 0 0; 64 := MkPairheap 0 0 0 ]}.
Definition demo_ops : list pq_op := [Push 16; Push 32; Push 48; Peek; Push 64; Remove 16; Remove 16; Pop; Pop; Pop].

Lemma demo_weak_order l : weak_order demo_lt l.
Proof. split; intros a b c _ _ _; unfold demo_lt; rewrite ?Z.ltb_lt, ?Z.ltb_ge; lia. Qed.

Lemma demo_detached x : x ∈ [16; 32; 48; 64] -> detached demo_mem x.
Proof. intros Hx. split; [|exists 0]; repeat (apply elem_of_cons in Hx as [->|Hx]; [done|]); by apply not_elem_of_nil in Hx. Qed.

Lemma pairheap_refines_queue_witness :
  exists m', heap_run demo_lt demo_ops mp_pairheap_new demo_mem = Some ([0; 0; 0; 32; 0; 0; 0; 64; 32; 48], m').
Proof.
  apply (pairheap_refines_queue demo_lt demo_mem [16; 32; 48; 64] _ _ (demo_weak_order _) demo_detached).
  - repeat constructor.
  - reflexivity.
Defined.

Lemma pairheap_sorts_witness : exists rs m',
  heap_run demo_lt (map Push [16; 32; 48; 64] ++ replicate 4 Pop) mp_pairheap_new demo_mem = Some (replicate 4 0 ++ rs, m') /\
  rs ≡ₚ [16; 32; 48; 64] /\ StronglySorted (goes_before demo_lt [16; 32; 48; 64]) rs.
Proof.
  apply (pairheap_sorts demo_lt demo_mem [16; 32; 48; 64] (demo_weak_order _)); [|exact demo_detached].
  repeat (apply NoDup_cons; split; [set_solver|]). apply NoDup_nil_2.
Defined.
