(* ===== verification/AsyncTask.v ===== *)
(** * Tasks and their queues ([extmod/modasyncio.c])

    A task is a node of a pairing heap with four object fields; a queue is the
    address of a heap ordered by [ph_key], the time in milliseconds at which a
    task is to run, on a clock that wraps around.  The objects a field may hold
    are the constants [None], [True] and [False], tasks, queues, and others.
    [ticks_ms] is the time the hardware gives.  Time arithmetic of
    [extmod/modtime.c] is here too.  The port does not have
    [MICROPY_PY_ASYNCIO_TASK_QUEUE_PUSH_CALLBACK]. *)
From S2P Require Import Prelude.
From S2P Require Import CMem.
From S2P Require Import Probing.
From S2P Require Import PairHeap.
Local Open Scope Z_scope.

Inductive obj := ONone | OTrue | OFalse | OTask (t : Z) | OQueue (q : Z) | OOther (o : Z).

#[export] Instance obj_eq_dec : EqDecision obj.
Proof. solve_decision. Defined.

(** [mp_obj_task_t] without its [pairheap], which is in the memory of nodes. *)
Record mp_obj_task_t := MkTask { coro : obj; data : obj; state : obj; ph_key : Z }.

(** What the code looks up in the globals of the asyncio module. *)
Record context := MkContext { cur_task : obj; _task_queue : obj; CancelledError : obj }.

Record async_t := MkAsync {
  pairheaps : mem;
  tasks : gmap Z mp_obj_task_t;
  queues : gmap Z Z;
  mp_asyncio_context : option context;
  ticks_ms : Z;
}.

Definition set_pairheaps (m : mem) (s : async_t) : async_t := MkAsync m (tasks s) (queues s) (mp_asyncio_context s) (ticks_ms s).
Definition set_tasks (t : gmap Z mp_obj_task_t) (s : async_t) : async_t :=
  MkAsync (pairheaps s) t (queues s) (mp_asyncio_context s) (ticks_ms s).
Definition set_queues (q : gmap Z Z) (s : async_t) : async_t := MkAsync (pairheaps s) (tasks s) q (mp_asyncio_context s) (ticks_ms s).
Definition set_context (c : context) (s : async_t) : async_t := MkAsync (pairheaps s) (tasks s) (queues s) (Some c) (ticks_ms s).

Abbreviation Ma := (M async_t).

(** A value, or the exception that is raised. *)
Inductive result := Value (o : obj) | IndexError | RuntimeError | Raised (o : obj).

Definition get_task (t : Z) : Ma mp_obj_task_t := fun s => x ← tasks s !! t; Some (x, s).
Definition put_task (t : Z) (x : mp_obj_task_t) : Ma unit := modify (fun s => set_tasks (<[t := x]> (tasks s)) s).
Definition get_queue (q : Z) : Ma Z := fun s => h ← queues s !! q; Some (h, s).
Definition put_queue (q h : Z) : Ma unit := modify (fun s => set_queues (<[q := h]> (queues s)) s).
Definition get_context : Ma context := fun s => c ← mp_asyncio_context s; Some (c, s).

(** [MP_OBJ_TO_PTR] of an object the code takes for a task or a queue. *)
Definition to_task (o : obj) : Ma Z := match o with OTask t => mret t | _ => stuck end.
Definition to_queue (o : obj) : Ma Z := match o with OQueue q => mret q | _ => stuck end.

(** A computation on the nodes. *)
Definition on_heap {A} (c : Mh A) : Ma A := fun s =>
  match c (pairheaps s) with Some (a, m) => Some (a, set_pairheaps m s) | None => None end.

(** ** Time *)

Definition MICROPY_PY_TIME_TICKS_PERIOD : Z := 2 ^ 30.

Definition ticks_of (ms : Z) : Z := MP_OBJ_NEW_SMALL_INT (Z.land ms (MICROPY_PY_TIME_TICKS_PERIOD - 1)).
Definition ticks : Ma Z := gets (fun s => ticks_of (ticks_ms s)).

Definition ticks_diff (t1_in t0_in : Z) : Z :=
  let t0 := u32 (MP_OBJ_SMALL_INT_VALUE t0_in) in
  let t1 := u32 (MP_OBJ_SMALL_INT_VALUE t1_in) in
  s32 (u32 (Z.land (u32 (u32 (t1 - t0) + MICROPY_PY_TIME_TICKS_PERIOD / 2)) (MICROPY_PY_TIME_TICKS_PERIOD - 1)
            - MICROPY_PY_TIME_TICKS_PERIOD / 2)).

Definition time_ticks_diff (end_in start_in : Z) : Z :=
  let start := u32 (MP_OBJ_SMALL_INT_VALUE start_in) in
  let end_ := u32 (MP_OBJ_SMALL_INT_VALUE end_in) in
  let diff := s32 (u32 (Z.land (u32 (u32 (end_ - start) + MICROPY_PY_TIME_TICKS_PERIOD / 2)) (MICROPY_PY_TIME_TICKS_PERIOD - 1)
                        - MICROPY_PY_TIME_TICKS_PERIOD / 2)) in
  MP_OBJ_NEW_SMALL_INT diff.

(** [None] is the [OverflowError]; [delta] is the value of the second argument. *)
Definition time_ticks_add (ticks_in delta_in : Z) : option Z :=
  let ticks := u32 (MP_OBJ_SMALL_INT_VALUE ticks_in) in
  let delta := u32 delta_in in
  if u32 (u32 (delta + MICROPY_PY_TIME_TICKS_PERIOD / 2) - 1) >=? MICROPY_PY_TIME_TICKS_PERIOD - 1 then None
  else Some (MP_OBJ_NEW_SMALL_INT (Z.land (u32 (ticks + delta)) (MICROPY_PY_TIME_TICKS_PERIOD - 1))).

Definition key_of (ts : gmap Z mp_obj_task_t) (t : Z) : Z := match ts !! t with Some x => ph_key x | None => 0 end.

Definition task_lt (ts : gmap Z mp_obj_task_t) (n1 n2 : Z) : bool :=
  MP_OBJ_SMALL_INT_VALUE (u32 (ticks_diff (key_of ts n1) (key_of ts n2))) <? 0.

(** ** Queues *)

(** [q] is the address of the new object. *)
Definition task_queue_make_new (q : Z) : Ma obj := put_queue q mp_pairheap_new;; mret (OQueue q).

Definition task_queue_peek (self_in : obj) : Ma obj :=
  self ← to_queue self_in;
  heap ← get_queue self;
  mret (if heap =? 0 then ONone else OTask heap).

(** Without [key] the task is to run now. *)
Definition task_queue_push (self_in task_in : obj) (key : option Z) : Ma obj :=
  self ← to_queue self_in;
  task ← to_task task_in;
  x ← get_task task;
  key ← (match key with
         | None => ticks
         | Some k => assert_ (mp_obj_is_small_int k);; mret k
         end);
  put_task task (MkTask (coro x) ONone (state x) key);;
  heap ← get_queue self;
  s ← get;
  heap ← on_heap (mp_pairheap_push (task_lt (tasks s)) heap task);
  put_queue self heap;;
  mret ONone.

Definition task_queue_pop (self_in : obj) : Ma result :=
  self ← to_queue self_in;
  heap ← get_queue self;
  let head := mp_pairheap_peek heap in
  if head =? 0 then mret IndexError
  else
    s ← get;
    heap ← on_heap (mp_pairheap_pop (task_lt (tasks s)) heap);
    put_queue self heap;;
    mret (Value (OTask head)).

Definition task_queue_remove (self_in task_in : obj) : Ma obj :=
  self ← to_queue self_in;
  task ← to_task task_in;
  heap ← get_queue self;
  s ← get;
  heap ← on_heap (mp_pairheap_delete (task_lt (tasks s)) heap task);
  put_queue self heap;;
  mret ONone.

(** ** Tasks *)

Definition TASK_IS_DONE (x : mp_obj_task_t) : bool := bool_decide (state x = ONone \/ state x = OFalse).

(** [t] is the address of the new object and [junk] what is in its memory. *)
Definition task_make_new (t : Z) (junk : mp_pairheap_t) (coro : obj) (globals : option context) : Ma obj :=
  on_heap (modify <[t := junk]>);;
  on_heap (mp_pairheap_init_node t);;
  put_task t (MkTask coro ONone OTrue (MP_OBJ_NEW_SMALL_INT 0));;
  (match globals with Some c => modify (set_context c) | None => mret tt end);;
  mret (OTask t).

Definition task_done (self_in : obj) : Ma obj :=
  self ← to_task self_in;
  x ← get_task self;
  mret (if TASK_IS_DONE x then OTrue else OFalse).

Section Cancel.
(** The method [remove] of an object that is neither a task nor a queue. *)
Context (load_remove : Z -> option (Z -> Ma unit)).

(** [while (self->data is a task) self = self->data;] *)
Definition waited_on (self : Z) : Ma Z :=
  s ← get;
  loop (S (base.size (tasks s))) (fun self =>
    x ← get_task self;
    mret (match data x with OTask t => inl t | _ => inr self end)) self.

Definition reschedule (main_queue : obj) (self : Z) : Ma obj := task_queue_push main_queue (OTask self) None.

Definition task_cancel (self_in : obj) : Ma result :=
  self ← to_task self_in;
  x ← get_task self;
  if TASK_IS_DONE x then mret (Value OFalse)
  else
    c ← get_context;
    if bool_decide (self_in = cur_task c) then mret RuntimeError
    else
      self ← waited_on self;
      x ← get_task self;
      (match data x with
       | OQueue q => task_queue_remove (OQueue q) (OTask self);; reschedule (_task_queue c) self;; mret tt
       | o =>
           match (match o with OOther o => load_remove o | _ => None end) with
           | Some remove => remove self;; reschedule (_task_queue c) self;; mret tt
           | None =>
               now ← ticks;
               if ticks_diff (ph_key x) now >? 0 then
                 task_queue_remove (_task_queue c) (OTask self);; reschedule (_task_queue c) self;; mret tt
               else mret tt
           end
       end);;
      x ← get_task self;
      put_task self (MkTask (coro x) (CancelledError c) (state x) (ph_key x));;
      mret (Value OTrue).

End Cancel.

(** [q] is the address of the waiting queue, if one is needed. *)
Definition task_getiter (q : Z) (self_in : obj) : Ma result :=
  self ← to_task self_in;
  x ← get_task self;
  if TASK_IS_DONE x then
    put_task self (MkTask (coro x) (data x) OFalse (ph_key x));; mret (Value self_in)
  else match state x with
       | OTrue =>
           o ← task_queue_make_new q;
           put_task self (MkTask (coro x) (data x) o (ph_key x));; mret (Value self_in)
       | OQueue _ => mret (Value self_in)
       | _ => mret RuntimeError
       end.

Definition task_iternext (self_in : obj) : Ma result :=
  self ← to_task self_in;
  x ← get_task self;
  if TASK_IS_DONE x then mret (Raised (data x))
  else
    c ← get_context;
    task_queue_push (state x) (cur_task c) None;;
    t ← to_task (cur_task c);
    y ← get_task t;
    put_task t (MkTask (coro y) self_in (state y) (ph_key y));;
    mret (Value ONone).

(** ** Attributes *)

Inductive task_attribute := Attr_coro | Attr_data | Attr_state | Attr_done | Attr_cancel | Attr_ph_key | Attr_other.

(** A loaded attribute: an object, a method of the task, or nothing. *)
Inductive loaded := Field (o : obj) | Key (word : Z) | Method (name : task_attribute) | Nothing.

Definition task_attr_load (self_in : obj) (attr : task_attribute) : Ma loaded :=
  self ← to_task self_in;
  x ← get_task self;
  mret (match attr with
        | Attr_coro => Field (coro x)
        | Attr_data => Field (data x)
        | Attr_state => Field (state x)
        | Attr_done => Method Attr_done
        | Attr_cancel => Method Attr_cancel
        | Attr_ph_key => Key (ph_key x)
        | Attr_other => Nothing
        end).

(** Whether the attribute was stored; deleting is never possible. *)
Definition task_attr_store (self_in : obj) (attr : task_attribute) (v : option obj) : Ma bool :=
  self ← to_task self_in;
  x ← get_task self;
  match v, attr with
  | Some v, Attr_data => put_task self (MkTask (coro x) v (state x) (ph_key x));; mret true
  | Some v, Attr_state => put_task self (MkTask (coro x) (data x) v (ph_key x));; mret true
  | _, _ => mret false
  end.
