(* ===== verification/AsyncTaskProps.v ===== *)
(** * The task queues of asyncio

    A task is due at a time, an integer that does not wrap; [ph_key] is that time
    modulo the period of the clock.  While the tasks of a queue are due within
    half a period of each other, the queue is a stable priority queue by the
    time the tasks are due.  The second half has the promises of the queues, of
    waiting for a task and of cancelling one. *)
From S2P Require Import Prelude.
From S2P Require Import CMem.
From S2P Require Import Probing.
From S2P Require Import PairHeap.
From S2P Require Import PairHeapFacts.
From S2P Require Import PairHeapDelete.
From S2P Require Import PairHeapProps.
From S2P Require Import AsyncTask.
Local Open Scope Z_scope.

(** ** The clock *)

Definition tick (t : Z) : Z := MP_OBJ_NEW_SMALL_INT (t `mod` 2 ^ 30).

Lemma small_word t : 0 <= t < 2 ^ 30 -> MP_OBJ_NEW_SMALL_INT t = 2 * t + 1.
Proof.
  intros Ht. unfold MP_OBJ_NEW_SMALL_INT. rewrite (uwrap_small 32 t) by lia. rewrite Z.shiftl_mul_pow2 by lia.
  rewrite uwrap_small by lia. rewrite <-Z.add_nocarry_lor; [lia|]. rewrite land_1. Z.to_euclidean_division_equations; lia.
Qed.

Lemma tick_value t : 0 <= t < 2 ^ 30 -> MP_OBJ_SMALL_INT_VALUE (MP_OBJ_NEW_SMALL_INT t) = t.
Proof.
  intros Ht. rewrite small_word by done. unfold MP_OBJ_SMALL_INT_VALUE. rewrite swrap_small by lia.
  rewrite Z.shiftr_div_pow2 by lia. Z.to_euclidean_division_equations; lia.
Qed.

Lemma ticks_of_tick ms : ticks_of ms = tick ms.
Proof. unfold ticks_of, tick, MICROPY_PY_TIME_TICKS_PERIOD. by rewrite land_pow2_mask. Qed.

Lemma tick_small t : mp_obj_is_small_int (tick t) = true.
Proof.
  unfold tick, mp_obj_is_small_int. rewrite small_word by (apply Z.mod_pos_bound; lia). rewrite land_1.
  replace ((2 * (t `mod` 2 ^ 30) + 1) `mod` 2) with 1; [done|]. Z.to_euclidean_division_equations; lia.
Qed.

(** The difference of two times is recovered if it is less than half a period. *)
Lemma ticks_diff_tick a b : - 2 ^ 29 <= a - b < 2 ^ 29 -> ticks_diff (tick a) (tick b) = a - b.
Proof.
  intros Hd. unfold ticks_diff, tick, MICROPY_PY_TIME_TICKS_PERIOD.
  pose proof (Z.mod_pos_bound a (2 ^ 30) ltac:(lia)). pose proof (Z.mod_pos_bound b (2 ^ 30) ltac:(lia)).
  rewrite !tick_value by lia. rewrite land_pow2_mask by lia. rewrite !(uwrap_small 32 (_ `mod` _)) by lia.
  unfold uwrap, swrap. Z.to_euclidean_division_equations. lia.
Qed.

Lemma swrap_uwrap_small x : - 2 ^ 31 <= x < 2 ^ 31 -> s32 (u32 x) = x.
Proof. intros Hx. unfold swrap, uwrap. Z.to_euclidean_division_equations. lia. Qed.

Definition by_due (due : Z -> Z) (x y : Z) : bool := due x <? due y.

Lemma by_due_order due l : weak_order (by_due due) l.
Proof. split; intros a b c _ _ _; unfold by_due; rewrite ?Z.ltb_lt, ?Z.ltb_ge; lia. Qed.

(** The tasks [x] of [ts] have the key of the time they are due. *)
Definition keyed (ts : gmap Z mp_obj_task_t) (due : Z -> Z) (x : Z) : Prop := exists y, ts !! x = Some y /\ ph_key y = tick (due x).

Definition near (due : Z -> Z) (l : list Z) : Prop := forall x y, x ∈ l -> y ∈ l -> Z.abs (due x - due y) < 2 ^ 29.

Lemma task_lt_due ts due l x y : (forall z, z ∈ l -> keyed ts due z) -> near due l -> x ∈ l -> y ∈ l ->
  task_lt ts x y = by_due due x y.
Proof.
  intros Hk Hn Hx Hy. destruct (Hk x Hx) as (tx & Hlx & Ex), (Hk y Hy) as (ty & Hly & Ey). specialize (Hn x y Hx Hy).
  unfold task_lt, key_of, by_due. rewrite Hlx, Hly, Ex, Ey, ticks_diff_tick by lia.
  unfold MP_OBJ_SMALL_INT_VALUE. rewrite swrap_uwrap_small by lia. rewrite Z.shiftr_div_pow2 by lia.
  apply eq_bool_prop_intro. rewrite !Is_true_true, !Z.ltb_lt. Z.to_euclidean_division_equations. lia.
Qed.

(** ** Heaps under another order or in another memory *)

Lemma heap_rep_ext lt lt' m m' l h : (forall a b, a ∈ l -> b ∈ l -> lt' a b = lt a b) ->
  (forall z, z ∈ l -> m' !! z = m !! z) -> heap_rep lt m l h -> heap_rep lt' m' l h.
Proof.
  intros Hlt Hm (f & Hh & <- & Hnd & Ho). exists f. split; [by apply (heap_at_ext m)|]. split; [done|]. split; [done|].
  by apply (ordered_ext lt).
Qed.

Lemma pq_min_ext lt lt' l : (forall a b, a ∈ l -> b ∈ l -> lt' a b = lt a b) -> pq_min lt' l = pq_min lt l.
Proof.
  induction l as [|x l IH]; [done|]. intros Hlt. cbn. rewrite IH by (intros a b Ha Hb; apply Hlt; by right).
  destruct (pq_min lt l) as [y|] eqn:E; [|done]. rewrite Hlt; [done|by left|]. right.
  clear -E. revert y E. induction l as [|z l IH]; [done|]. cbn. intros y. destruct (pq_min lt l) as [y'|].
  - destruct (lt z y'); intros [= <-]; [by left|right; by apply IH].
  - intros [= <-]. by left.
Qed.

(** ** The state *)

(** [qs] has the tasks of every queue, the newest first. *)
Record async_inv (s : async_t) (due : Z -> Z) (qs : gmap Z (list Z)) : Prop := {
  ai_heaps q l : qs !! q = Some l -> exists h, queues s !! q = Some h /\ heap_rep (by_due due) (pairheaps s) l h;
  ai_keyed q l x : qs !! q = Some l -> x ∈ l -> keyed (tasks s) due x;
  ai_near q l : qs !! q = Some l -> near due l;
  ai_apart q q' l l' x : qs !! q = Some l -> qs !! q' = Some l' -> x ∈ l -> x ∈ l' -> q = q';
  ai_free x : is_Some (tasks s !! x) -> (forall q l, qs !! q = Some l -> x ∉ l) -> detached (pairheaps s) x;
}.

Definition unqueued (qs : gmap Z (list Z)) (t : Z) : Prop := forall q l, qs !! q = Some l -> t ∉ l.

(** A change of one queue. *)
Record queue_change (s : async_t) (due : Z -> Z) (qs : gmap Z (list Z)) (q : Z) (l l' : list Z)
    (s' : async_t) (due' : Z -> Z) : Prop := {
  qc_old : qs !! q = Some l;
  qc_heap : exists h, queues s' !! q = Some h /\ heap_rep (by_due due') (pairheaps s') l' h;
  qc_queues q' : q' <> q -> queues s' !! q' = queues s !! q';
  qc_frame z : z ∉ l -> z ∉ l' -> pairheaps s' !! z = pairheaps s !! z;
  qc_keyed x : x ∈ l' -> keyed (tasks s') due' x;
  qc_near : near due' l';
  qc_others x : x ∉ l' -> due' x = due x /\ tasks s' !! x = tasks s !! x;
  qc_new x : x ∈ l' -> x ∈ l \/ unqueued qs x;
  qc_gone x : x ∈ l -> x ∉ l' -> detached (pairheaps s') x;
}.

Lemma queue_change_inv s due qs q l l' s' due' : async_inv s due qs -> queue_change s due qs q l l' s' due' ->
  async_inv s' due' (<[q := l']> qs).
Proof.
  intros [Hh Hk Hn Ha Hf] [Hl Hh' Hq Hfr Hk' Hn' Ho Hnew Hgone].
  assert (forall q' l0 x, q <> q' -> qs !! q' = Some l0 -> x ∈ l0 -> x ∉ l /\ x ∉ l') as Hout.
  { intros q' l0 x Hne Hl0 Hx. assert (x ∉ l) as Hxl by (intros Hin; apply Hne; by apply (Ha q q' l l0 x)).
    split; [done|]. intros Hin. destruct (Hnew x Hin) as [?|Hu]; [done|]. by apply (Hu q' l0). }
  split.
  - intros q' l0 [[<- <-]|[Hne Hl0]]%lookup_insert_Some; [done|]. destruct (Hh q' l0 Hl0) as (h & Hqh & Hr).
    exists h. split; [by rewrite Hq|]. apply (heap_rep_ext (by_due due) _ (pairheaps s)); [| |done].
    + intros a b Hina Hinb. unfold by_due. destruct (Hout q' l0 a Hne Hl0 Hina) as [_ Hna].
      destruct (Hout q' l0 b Hne Hl0 Hinb) as [_ Hnb]. destruct (Ho a Hna) as [-> _]. by destruct (Ho b Hnb) as [-> _].
    + intros z Hz. destruct (Hout q' l0 z Hne Hl0 Hz). by apply Hfr.
  - intros q' l0 x [[<- <-]|[Hne Hl0]]%lookup_insert_Some Hx; [by apply Hk'|].
    destruct (Hout q' l0 x Hne Hl0 Hx) as [_ Hxl']. destruct (Ho x Hxl') as [Ed Et]. unfold keyed. rewrite Ed, Et. by apply (Hk q' l0).
  - intros q' l0 [[<- <-]|[Hne Hl0]]%lookup_insert_Some; [done|]. intros x y Hx Hy.
    destruct (Ho x) as [-> _]; [by apply (Hout q' l0 x)|]. destruct (Ho y) as [-> _]; [by apply (Hout q' l0 y)|].
    by apply (Hn q' l0 Hl0).
  - intros q1 q2 l1 l2 x [[<- <-]|[Hne1 Hl1]]%lookup_insert_Some [[<- <-]|[Hne2 Hl2]]%lookup_insert_Some Hx1 Hx2; [done|..].
    + by destruct (Hout q2 l2 x Hne2 Hl2 Hx2).
    + by destruct (Hout q1 l1 x Hne1 Hl1 Hx1).
    + by apply (Ha q1 q2 l1 l2 x).
  - intros x Hx Hu. assert (x ∉ l') as Hxl' by (apply (Hu q); apply lookup_insert_eq).
    destruct (decide (x ∈ l)) as [Hin|Hin]; [by apply Hgone|].
    destruct (Ho x Hxl') as [_ Et]. rewrite Et in Hx. destruct (Hf x Hx) as (Hax & cl & Hlk).
    { intros q' l0 Hl0 Hin0. destruct (decide (q = q')) as [<-|Hne]; [congruence|].
      apply (Hu q' l0); [by rewrite lookup_insert_ne|done]. }
    split; [done|]. exists cl. by rewrite Hfr.
Qed.

(** ** The operations on queues *)

Lemma wp_on_heap {A} (c : Mh A) s (Q : A -> async_t -> Prop) :
  wp c (pairheaps s) (fun a m => Q a (set_pairheaps m s)) -> wp (on_heap c) s Q.
Proof. unfold wp, on_heap. by destruct (c (pairheaps s)) as [[a m]|]. Qed.

Lemma wp_get_queue s q h (Q : Z -> async_t -> Prop) : queues s !! q = Some h -> Q h s -> wp (get_queue q) s Q.
Proof. intros Hq HQ. unfold wp, get_queue. by rewrite Hq. Qed.
Lemma wp_get_task s t x (Q : mp_obj_task_t -> async_t -> Prop) : tasks s !! t = Some x -> Q x s -> wp (get_task t) s Q.
Proof. intros Ht HQ. unfold wp, get_task. by rewrite Ht. Qed.
Lemma wp_get_context s c (Q : context -> async_t -> Prop) : mp_asyncio_context s = Some c -> Q c s -> wp get_context s Q.
Proof. intros Hc HQ. unfold wp, get_context. by rewrite Hc. Qed.

Definition upd (due : Z -> Z) (t d : Z) : Z -> Z := fun x => if decide (x = t) then d else due x.
Lemma upd_eq due t d : upd due t d t = d.
Proof. unfold upd. by rewrite decide_True. Qed.
Lemma upd_ne due t d x : x <> t -> upd due t d x = due x.
Proof. intros. unfold upd. by rewrite decide_False. Qed.

(** What no operation on queues touches. *)
Definition same_env (s s' : async_t) : Prop := mp_asyncio_context s' = mp_asyncio_context s /\ ticks_ms s' = ticks_ms s.

Section Ops.
Context (s : async_t) (due : Z -> Z) (qs : gmap Z (list Z)) (q : Z) (l : list Z).
Context (Hinv : async_inv s due qs) (Hq : qs !! q = Some l).

Lemma lt_due a b : a ∈ l -> b ∈ l -> task_lt (tasks s) a b = by_due due a b.
Proof using Hinv Hq.
  intros Ha Hb. apply (task_lt_due _ _ l); [|by apply (ai_near _ _ _ Hinv q)|done|done].
  intros z Hz. by apply (ai_keyed _ _ _ Hinv q l).
Qed.

Lemma queue_rep : exists h, queues s !! q = Some h /\ heap_rep (task_lt (tasks s)) (pairheaps s) l h.
Proof using Hinv Hq.
  destruct (ai_heaps _ _ _ Hinv q l Hq) as (h & Hqh & Hr). exists h. split; [done|].
  apply (heap_rep_ext (by_due due) _ (pairheaps s)); [exact lt_due|done|done].
Qed.

Lemma queue_order : weak_order (task_lt (tasks s)) l.
Proof using Hinv Hq.
  destruct (by_due_order due l) as [Ht Hn]. split; intros a b c Ha Hb Hc; rewrite !lt_due by done; eauto.
Qed.

Lemma wp_task_queue_peek (Q : obj -> async_t -> Prop) :
  Q (match pq_min (by_due due) l with None => ONone | Some x => OTask x end) s -> wp (task_queue_peek (OQueue q)) s Q.
Proof using Hinv Hq.
  intros HQ. destruct (ai_heaps _ _ _ Hinv q l Hq) as (h & Hqh & Hr).
  apply wp_bind, wp_ret, wp_bind, (wp_get_queue _ _ _ _ Hqh), wp_ret.
  destruct (heap_rep_top _ _ _ _ Hr) as (_ & H0 & H1). destruct (decide (l = [])) as [El|El].
  - rewrite (H0 El). rewrite El in HQ. exact HQ.
  - destruct (H1 El) as (l1 & l2 & _ & E). rewrite E in HQ. replace (h =? 0) with false; [done|]. symmetry.
    destruct Hr as (f & Hh & <- & _). destruct Hh as [[-> _]|(t & -> & Hc)]; [done|].
    apply chain_single in Hc as (_ & Ha & _). by apply addr_nonzero.
Qed.

(** The state after a heap of the queue has been replaced. *)
Lemma wp_replace {A} (c : Mh Z) (ts : gmap Z mp_obj_task_t) (due' : Z -> Z) (l' : list Z) (r : A) (Q : A -> async_t -> Prop) :
  near due' l' -> (forall x, x ∈ l' -> keyed ts due' x) -> (forall x, x ∉ l' -> due' x = due x /\ ts !! x = tasks s !! x) ->
  (forall x, x ∈ l' -> x ∈ l \/ unqueued qs x) ->
  wp c (pairheaps s) (fun h m' => heap_rep (task_lt ts) m' l' h /\ (forall z, z ∉ l -> z ∉ l' -> m' !! z = pairheaps s !! z) /\
     forall x, x ∈ l -> x ∉ l' -> detached m' x) ->
  (forall s', async_inv s' due' (<[q := l']> qs) -> tasks s' = ts -> same_env s s' -> Q r s') ->
  wp (h ← on_heap c; put_queue q h;; mret r) (set_tasks ts s) Q.
Proof using Hinv Hq.
  intros Hnear Hkey Hoth Hnew Hc HQ. apply wp_bind, wp_on_heap. eapply wp_mono; [exact Hc|].
  intros h m' (Hr & Hfr & Hgone). apply wp_bind, wp_modify, wp_ret, HQ; [|done|done].
  apply (queue_change_inv s due qs q l l'); [done|]. split; cbn [queues pairheaps tasks set_queues set_pairheaps set_tasks].
  - done.
  - exists h. split; [apply lookup_insert_eq|]. apply (heap_rep_ext (task_lt ts) _ m'); [|done|done].
    intros a b Ha Hb. symmetry. by apply (task_lt_due _ _ l').
  - intros q' Hne. by rewrite lookup_insert_ne.
  - done.
  - done.
  - done.
  - done.
  - intros x Hx. by apply Hnew.
  - done.
Qed.

Lemma set_tasks_id : set_tasks (tasks s) s = s.
Proof. by destruct s. Qed.

Lemma wp_task_queue_pop (Q : result -> async_t -> Prop) :
  (l = [] -> Q IndexError s) ->
  (forall x s', pq_min (by_due due) l = Some x -> async_inv s' due (<[q := without x l]> qs) -> tasks s' = tasks s -> same_env s s' ->
     Q (Value (OTask x)) s') ->
  wp (task_queue_pop (OQueue q)) s Q.
Proof using Hinv Hq.
  intros He HQ. destruct queue_rep as (h & Hqh & Hr). pose proof queue_order as Hw.
  destruct (heap_rep_top _ _ _ _ Hr) as (_ & H0 & H1).
  apply wp_bind, wp_ret, wp_bind, (wp_get_queue _ _ _ _ Hqh). cbv zeta. unfold mp_pairheap_peek.
  destruct (decide (l = [])) as [El|El]; [rewrite (H0 El); cbn [Z.eqb]; by apply wp_ret, He|].
  destruct (H1 El) as (l1 & l2 & El' & E). assert (h ∈ l) as Hin by (rewrite El'; apply elem_of_app; right; by left).
  assert ((h =? 0) = false) as ->.
  { destruct Hr as (f & Hh & <- & _). destruct Hh as [[-> _]|(t & -> & Hc)]; [done|].
    apply chain_single in Hc as (_ & Ha & _). by apply addr_nonzero. }
  apply wp_bind. unfold wp at 1, get. rewrite <-set_tasks_id. cbn [tasks set_tasks].
  apply (wp_replace _ _ due (without h l)).
  - intros x y Hx Hy. apply elem_of_without in Hx as [_ Hx], Hy as [_ Hy]. by apply (ai_near _ _ _ Hinv q l).
  - intros x [_ Hx]%elem_of_without. by apply (ai_keyed _ _ _ Hinv q l).
  - done.
  - intros x [_ Hx]%elem_of_without. by left.
  - apply (wp_pop _ _ l); [done|done|done|]. intros m' h' Hr' Hd Hfr. split; [done|]. split; [intros z Hz _; by apply Hfr|].
    intros x Hx Hx'. destruct (decide (x = h)) as [->|Hne]; [done|]. exfalso. by apply Hx', elem_of_without.
  - intros s' Hinv' Ht Hs. apply HQ; [|done|done|done]. rewrite <-E. symmetry. apply pq_min_ext, lt_due.
Qed.

(** The time an omitted or a given key stands for. *)
Definition key_time (key : option Z) (d : Z) : Prop := (key = None /\ d = ticks_ms s) \/ key = Some (tick d).

Lemma wp_task_queue_push t y key d (Q : obj -> async_t -> Prop) :
  tasks s !! t = Some y -> unqueued qs t -> key_time key d -> (forall x, x ∈ l -> Z.abs (d - due x) < 2 ^ 29) ->
  (forall s', async_inv s' (upd due t d) (<[q := t :: l]> qs) ->
     tasks s' = <[t := MkTask (coro y) ONone (state y) (tick d)]> (tasks s) -> same_env s s' -> Q ONone s') ->
  wp (task_queue_push (OQueue q) (OTask t) key) s Q.
Proof using Hinv Hq.
  intros Hlk Hu Hkey Hd HQ. destruct (ai_heaps _ _ _ Hinv q l Hq) as (h & Hqh & Hr).
  set (ts := <[t := MkTask (coro y) ONone (state y) (tick d)]> (tasks s)) in *. set (due' := upd due t d) in *.
  assert (t ∉ l) as Htl by by apply (Hu q).
  assert (forall x, x ∈ l -> x <> t) as Hne by (by intros x Hx ->).
  assert (forall x, x ∈ t :: l -> keyed ts due' x) as Hkeyed.
  { intros x [->|Hx]%elem_of_cons; unfold keyed, ts.
    - eexists. rewrite lookup_insert_eq. split; [done|]. cbn. unfold due'. by rewrite upd_eq.
    - rewrite lookup_insert_ne by (intros ->; by apply Htl). unfold due'. rewrite upd_ne by auto.
      by apply (ai_keyed _ _ _ Hinv q l). }
  assert (near due' (t :: l)) as Hnear.
  { intros x z Hx Hz. apply elem_of_cons in Hx as [->|Hx], Hz as [->|Hz]; unfold due'; rewrite ?upd_eq, ?upd_ne by auto.
    - lia.
    - by apply Hd.
    - specialize (Hd x Hx). lia.
    - by apply (ai_near _ _ _ Hinv q l). }
  assert (forall a b, a ∈ t :: l -> b ∈ t :: l -> task_lt ts a b = by_due due' a b) as Hlt.
  { intros a b Ha Hb. by apply (task_lt_due _ _ (t :: l)). }
  apply wp_bind, wp_ret, wp_bind, wp_ret, wp_bind, (wp_get_task _ _ _ _ Hlk), wp_bind.
  assert (wp (match key with None => ticks | Some k => assert_ (mp_obj_is_small_int k);; mret k end) s
    (fun k s' => k = tick d /\ s' = s)) as Hk.
  { destruct Hkey as [[-> ->]| ->].
    - apply wp_gets. by rewrite ticks_of_tick.
    - apply wp_bind, wp_assert; [apply tick_small|]. by apply wp_ret. }
  eapply wp_mono; [exact Hk|]. intros k s' [-> ->].
  apply wp_bind, wp_modify. fold ts. apply wp_bind, (wp_get_queue _ q h); [exact Hqh|]. apply wp_bind. unfold wp at 1, get. cbn [tasks set_tasks].
  apply (wp_replace _ ts due' (t :: l)); [done|done| | | |done].
  - intros x [Hx Hxl]%not_elem_of_cons. unfold due', ts. rewrite upd_ne, lookup_insert_ne by done. done.
  - intros x [->|Hx]%elem_of_cons; [by right|by left].
  - apply (wp_push _ _ l); [| |done| |].
    + apply (heap_rep_ext (by_due due) _ (pairheaps s)); [|done|done]. intros a b Ha Hb.
      rewrite Hlt by (by right). unfold by_due, due'. by rewrite !upd_ne by auto.
    + apply (ai_free _ _ _ Hinv); [by eexists|done].
    + destruct (by_due_order due' (t :: l)) as [Ht Hn]. split; intros a b c Ha Hb Hc; rewrite !Hlt by done; eauto.
    + intros m' h' Hr' Hfr. split; [done|]. split; [intros z _ Hz; by apply Hfr|]. intros x Hx Hx'. exfalso. apply Hx'. by right.
Qed.

(** Removing a task from its queue, or one that is in no queue. *)
Lemma wp_task_queue_remove t (Q : obj -> async_t -> Prop) :
  t ∈ l \/ (is_Some (tasks s !! t) /\ unqueued qs t) ->
  (forall s', async_inv s' due (<[q := without t l]> qs) -> tasks s' = tasks s -> same_env s s' -> Q ONone s') ->
  wp (task_queue_remove (OQueue q) (OTask t)) s Q.
Proof using Hinv Hq.
  intros Ht HQ. destruct queue_rep as (h & Hqh & Hr). pose proof queue_order as Hw.
  apply wp_bind, wp_ret, wp_bind, wp_ret, wp_bind, (wp_get_queue _ _ _ _ Hqh), wp_bind. unfold wp at 1, get.
  rewrite <-set_tasks_id. cbn [tasks set_tasks].
  apply (wp_replace _ _ due (without t l)).
  - intros x y Hx Hy. apply elem_of_without in Hx as [_ Hx], Hy as [_ Hy]. by apply (ai_near _ _ _ Hinv q l).
  - intros x [_ Hx]%elem_of_without. by apply (ai_keyed _ _ _ Hinv q l).
  - done.
  - intros x [_ Hx]%elem_of_without. by left.
  - destruct (decide (t ∈ l)) as [Hin|Hin].
    + apply (wp_remove _ _ l); [done|done|done|]. intros m' h' Hr' Hd Hfr. split; [done|]. split; [intros z Hz _; by apply Hfr|].
      intros x Hx Hx'. destruct (decide (x = t)) as [->|Hne]; [done|]. exfalso. by apply Hx', elem_of_without.
    + destruct Ht as [?|[Hs Hu]]; [done|]. pose proof (ai_free _ _ _ Hinv t Hs Hu) as Hd.
      rewrite without_id by done. unfold wp. rewrite (delete_absent _ _ _ _); [done| |done].
      intros ->. destruct (heap_rep_top _ _ _ _ Hr) as (_ & H0 & H1). destruct (decide (l = [])) as [El|El].
      * destruct Hd as [[? _] _]. rewrite (H0 El) in *. lia.
      * destruct (H1 El) as (l1 & l2 & El' & _). apply Hin. rewrite El'. apply elem_of_app. right. by left.
  - done.
Qed.

End Ops.

(** ** What the queues and tasks of asyncio promise *)

(** ** Following the tasks waited on *)

(** After [n] steps the task [t] leads to [t'], which waits on no task. *)
Fixpoint waits (ts : gmap Z mp_obj_task_t) (n : nat) (t t' : Z) : Prop :=
  match ts !! t with
  | None => False
  | Some x => match data x, n with
              | OTask t1, S n => waits ts n t1 t'
              | OTask _, O | _, S _ => False
              | _, O => t = t'
              end
  end.

Lemma waits_length ts n : forall m t t' t'', waits ts n t t' -> waits ts m t t'' -> n = m.
Proof.
  induction n as [|n IH]; intros m t t' t'' Hn Hm; cbn in Hn; destruct (ts !! t) as [x|] eqn:E; try done.
  - destruct m; [done|]. cbn in Hm. rewrite E in Hm. by destruct (data x).
  - destruct m; cbn in Hm; rewrite E in Hm; destruct (data x) as [| | |t1| |]; try done. f_equal. by apply (IH m t1 t' t'').
Qed.

Lemma waits_path ts n : forall t t', waits ts n t t' -> exists p, length p = S n /\ NoDup p /\
  forall x, x ∈ p -> is_Some (ts !! x) /\ exists m, (m <= n)%nat /\ waits ts m x t'.
Proof.
  induction n as [|n IH]; intros t t' Hw.
  - exists [t]. split; [done|]. split; [apply NoDup_singleton|]. intros x ->%list_elem_of_singleton.
    split; [|by exists 0%nat]. cbn in Hw. by destruct (ts !! t).
  - pose proof Hw as Hw0. cbn in Hw. destruct (ts !! t) as [x|] eqn:E; [|done]. destruct (data x) as [| | |t1| |]; try done.
    destruct (IH _ _ Hw) as (p & Hl & Hnd & Hp). exists (t :: p). split; [cbn; lia|]. split.
    + apply NoDup_cons. split; [|done]. intros Hin. destruct (Hp t Hin) as (_ & m & Hm & Hwm).
      pose proof (waits_length _ _ _ _ _ _ Hw0 Hwm). lia.
    + intros y [->|Hy]%elem_of_cons; [split; [by eexists|by exists (S n)]|].
      destruct (Hp y Hy) as (? & m & ? & ?). split; [done|]. exists m. split; [lia|done].
Qed.

Lemma waits_bound ts n t t' : waits ts n t t' -> (n < base.size ts)%nat.
Proof.
  intros (p & Hl & Hnd & Hp)%waits_path. pose proof (nodup_size ts p Hnd) as Hs. rewrite Hl in Hs. apply Hs.
  intros x Hx. by apply Hp.
Qed.

Lemma wp_waited_on n t t' s (Q : Z -> async_t -> Prop) : waits (tasks s) n t t' -> Q t' s -> wp (waited_on t) s Q.
Proof.
  intros Hw HQ. pose proof (waits_bound _ _ _ _ Hw) as Hb. apply wp_bind. unfold wp at 1, get.
  assert (n < S (base.size (tasks s)))%nat as Hf by lia. clear Hb. revert t n Hw Hf. generalize (S (base.size (tasks s))) as fuel.
  induction fuel as [|fuel IH]; intros t n Hw Hf; [lia|]. cbn [loop]. apply wp_bind.
  destruct n as [|n]; cbn in Hw; destruct (tasks s !! t) as [x|] eqn:E; try done.
  - apply wp_bind, (wp_get_task _ _ _ _ E), wp_ret. destruct (data x); try done; apply wp_ret; by rewrite Hw.
  - apply wp_bind, (wp_get_task _ _ _ _ E), wp_ret. destruct (data x) as [| | |t1| |]; try done. apply (IH t1 n); [done|lia].
Qed.

(** Changing the fields of a task other than its key. *)
Lemma inv_put_task s due qs t x y : async_inv s due qs -> tasks s !! t = Some x -> ph_key y = ph_key x ->
  async_inv (set_tasks (<[t := y]> (tasks s)) s) due qs.
Proof.
  intros [Hh Hk Hn Ha Hf] Hlk Hy. split; cbn [queues pairheaps tasks set_tasks].
  - exact Hh.
  - intros q l z Hl Hz. destruct (Hk q l z Hl Hz) as (w & Hw & Ew). unfold keyed. destruct (decide (t = z)) as [->|Hne].
    + exists y. rewrite lookup_insert_eq. split; [done|]. rewrite Hy. congruence.
    + exists w. by rewrite lookup_insert_ne.
  - exact Hn.
  - exact Ha.
  - intros z Hz. apply Hf. destruct (decide (t = z)) as [->|Hne]; [by eexists|]. by rewrite lookup_insert_ne in Hz.
Qed.

(** ** Queues *)

(** C22: While the tasks of a queue are due within half a period of the clock of
    each other, the queue is a stable priority queue by the time they are due,
    although the keys wrap around: [peek] shows and [pop] takes the task due
    first, of those due together the one pushed first, or finds the queue empty;
    [push] adds a task that is in no queue, for now or for the time given, and
    [remove] takes a task out; no other queue and no other task changes. *)
Theorem task_queue_correct s due qs q l : async_inv s due qs -> qs !! q = Some l ->
  task_queue_peek (OQueue q) s = Some (match pq_min (by_due due) l with None => ONone | Some x => OTask x end, s) /\
  (match pq_min (by_due due) l with
   | None => l = [] /\ task_queue_pop (OQueue q) s = Some (IndexError, s)
   | Some x => exists s', task_queue_pop (OQueue q) s = Some (Value (OTask x), s') /\
                 async_inv s' due (<[q := without x l]> qs) /\ tasks s' = tasks s /\ same_env s s'
   end) /\
  (forall t y key d, tasks s !! t = Some y -> unqueued qs t -> key_time s key d ->
     (forall x, x ∈ l -> Z.abs (d - due x) < 2 ^ 29) ->
     exists s', task_queue_push (OQueue q) (OTask t) key s = Some (ONone, s') /\
       async_inv s' (upd due t d) (<[q := t :: l]> qs) /\
       tasks s' = <[t := MkTask (coro y) ONone (state y) (tick d)]> (tasks s) /\ same_env s s') /\
  (forall t, t ∈ l \/ (is_Some (tasks s !! t) /\ unqueued qs t) ->
     exists s', task_queue_remove (OQueue q) (OTask t) s = Some (ONone, s') /\
       async_inv s' due (<[q := without t l]> qs) /\ tasks s' = tasks s /\ same_env s s').
Proof.
  intros Hinv Hq. split; [|split; [|split]].
  - destruct (run_value (task_queue_peek (OQueue q)) s (fun r s' =>
      r = match pq_min (by_due due) l with None => ONone | Some x => OTask x end /\ s' = s)) as (r & s' & -> & -> & ->); [|done].
    by apply (wp_task_queue_peek s due qs q l).
  - destruct (run_value (task_queue_pop (OQueue q)) s (fun r s' =>
      match pq_min (by_due due) l with
      | None => l = [] /\ r = IndexError /\ s' = s
      | Some x => r = Value (OTask x) /\ async_inv s' due (<[q := without x l]> qs) /\ tasks s' = tasks s /\ same_env s s'
      end)) as (r & s' & E & Hr).
    + apply (wp_task_queue_pop s due qs q l Hinv Hq); [by intros ->|]. by intros x s' ->.
    + destruct (pq_min (by_due due) l) as [x|]; [|by destruct Hr as (? & -> & ->)].
      destruct Hr as (-> & ? & ? & ?). by exists s'.
  - intros t y key d Hy Hu Hkey Hd.
    destruct (run_value (task_queue_push (OQueue q) (OTask t) key) s (fun r s' => r = ONone /\
      async_inv s' (upd due t d) (<[q := t :: l]> qs) /\
      tasks s' = <[t := MkTask (coro y) ONone (state y) (tick d)]> (tasks s) /\ same_env s s')) as (r & s' & E & -> & H); [|by exists s'].
    by apply (wp_task_queue_push s due qs q l Hinv Hq t y key d).
  - intros t Ht.
    destruct (run_value (task_queue_remove (OQueue q) (OTask t)) s (fun r s' => r = ONone /\
      async_inv s' due (<[q := without t l]> qs) /\ tasks s' = tasks s /\ same_env s s')) as (r & s' & E & -> & H); [|by exists s'].
    by apply (wp_task_queue_remove s due qs q l Hinv Hq t).
Qed.

(** ** Cancelling *)

Section Cancel.
Context (load_remove : Z -> option (Z -> Ma unit)).
Context (s : async_t) (due : Z -> Z) (qs : gmap Z (list Z)) (Hinv : async_inv s due qs).
Context (c : context) (mq : Z) (ml : list Z).
Context (Hc : mp_asyncio_context s = Some c) (Hmq : _task_queue c = OQueue mq) (Hml : qs !! mq = Some ml).

(** Objects that are on no queue of their own. *)
Definition no_remove (o : obj) : Prop := match o with OQueue _ => False | OOther o => load_remove o = None | _ => True end.

(** [task_cancel] up to the task to reschedule, and its last statements. *)
Definition cancel_from (t' : Z) : Ma result :=
  x ← get_task t';
  (match data x with
   | OQueue q => task_queue_remove (OQueue q) (OTask t');; reschedule (_task_queue c) t';; mret tt
   | o =>
       match (match o with OOther o => load_remove o | _ => None end) with
       | Some remove => remove t';; reschedule (_task_queue c) t';; mret tt
       | None =>
           now ← ticks;
           if ticks_diff (ph_key x) now >? 0 then
             task_queue_remove (_task_queue c) (OTask t');; reschedule (_task_queue c) t';; mret tt
           else mret tt
       end
   end);;
  x ← get_task t';
  put_task t' (MkTask (coro x) (CancelledError c) (state x) (ph_key x));;
  mret (Value OTrue).

Lemma wp_task_cancel t x n t' (Q : result -> async_t -> Prop) : tasks s !! t = Some x -> TASK_IS_DONE x = false ->
  cur_task c <> OTask t -> waits (tasks s) n t t' -> wp (cancel_from t') s Q -> wp (task_cancel load_remove (OTask t)) s Q.
Proof using Hc.
  intros Hx Hd Hcur Hw HQ. apply wp_bind, wp_ret, wp_bind, (wp_get_task _ _ _ _ Hx). rewrite Hd.
  apply wp_bind, (wp_get_context _ _ _ Hc). rewrite bool_decide_false by congruence.
  apply wp_bind, (wp_waited_on n t t'); [done|]. exact HQ.
Qed.

(** Taking a task out of a queue and putting it on the main queue, to run now. *)
Lemma wp_move_task t' y q l (Q : unit -> async_t -> Prop) : tasks s !! t' = Some y -> qs !! q = Some l -> t' ∈ l ->
  (forall x, x ∈ ml -> Z.abs (ticks_ms s - due x) < 2 ^ 29) ->
  (forall s', async_inv s' (upd due t' (ticks_ms s)) (<[mq := t' :: (if decide (q = mq) then without t' ml else ml)]> (<[q := without t' l]> qs)) ->
     tasks s' = <[t' := MkTask (coro y) ONone (state y) (tick (ticks_ms s))]> (tasks s) -> same_env s s' -> Q tt s') ->
  wp (task_queue_remove (OQueue q) (OTask t');; reschedule (_task_queue c) t';; mret tt) s Q.
Proof using Hinv Hml Hmq.
  intros Hy Hq Hin Hnear HQ. apply wp_bind, (wp_task_queue_remove s due qs q l Hinv Hq); [by left|].
  intros s1 Hinv1 Ht1 [Hc1 Hms1]. rewrite Hmq. apply wp_bind.
  set (ml' := if decide (q = mq) then without t' ml else ml).
  apply (wp_task_queue_push s1 due (<[q := without t' l]> qs) mq ml' Hinv1) with (y := y) (d := ticks_ms s).
  - unfold ml'. destruct (decide (q = mq)) as [->|Hne]; [rewrite lookup_insert_eq; congruence|by rewrite lookup_insert_ne].
  - by rewrite Ht1.
  - intros q' l' [[<- <-]|[Hne Hl']]%lookup_insert_Some.
    + by intros [? _]%elem_of_without.
    + intros Hin'. apply Hne. by apply (ai_apart _ _ _ Hinv q q' l l' t').
  - left. by rewrite Hms1.
  - intros x Hx. apply Hnear. unfold ml' in Hx. destruct (decide (q = mq)); [by apply elem_of_without in Hx as [_ ?]|done].
  - intros s2 Hinv2 Ht2 [Hc2 Hms2]. apply wp_ret, HQ; [done| |split; congruence]. by rewrite Ht2, Ht1.
Qed.

(** The last statements. *)
Lemma wp_mark_cancelled t' y due' qs' s1 (Q : result -> async_t -> Prop) : tasks s1 !! t' = Some y -> async_inv s1 due' qs' ->
  (forall s', async_inv s' due' qs' -> tasks s' = <[t' := MkTask (coro y) (CancelledError c) (state y) (ph_key y)]> (tasks s1) ->
     Q (Value OTrue) s') ->
  wp (x ← get_task t'; put_task t' (MkTask (coro x) (CancelledError c) (state x) (ph_key x));; mret (Value OTrue)) s1 Q.
Proof.
  intros Hy Hi HQ. apply wp_bind, (wp_get_task _ _ _ _ Hy), wp_bind, wp_modify, wp_ret, HQ; [|done].
  by apply (inv_put_task _ _ _ _ y).
Qed.

(** Cancelling a task that is in a queue. *)
Lemma wp_cancel_moved t' x' q l (Q : result -> async_t -> Prop) : tasks s !! t' = Some x' -> qs !! q = Some l -> t' ∈ l ->
  (data x' = OQueue q \/ no_remove (data x') /\ q = mq /\ ticks_ms s < due t') ->
  (forall t, data x' <> OTask t) ->
  (forall x, x ∈ ml -> Z.abs (ticks_ms s - due x) < 2 ^ 29) ->
  (forall s', async_inv s' (upd due t' (ticks_ms s)) (<[mq := t' :: (if decide (q = mq) then without t' ml else ml)]> (<[q := without t' l]> qs)) ->
     tasks s' = <[t' := MkTask (coro x') (CancelledError c) (state x') (tick (ticks_ms s))]> (tasks s) -> Q (Value OTrue) s') ->
  wp (cancel_from t') s Q.
Proof using Hinv Hml Hmq.
  intros Hx Hq Hin Hcase Hnt Hnear HQ. apply wp_bind, (wp_get_task _ _ _ _ Hx).
  assert (wp (task_queue_remove (OQueue q) (OTask t');; reschedule (_task_queue c) t';; mret tt) s (fun _ s1 =>
    wp (x ← get_task t'; put_task t' (MkTask (coro x) (CancelledError c) (state x) (ph_key x));; mret (Value OTrue)) s1 Q)) as Hmove.
  { apply (wp_move_task t' x' q l); [done..|]. intros s1 Hi1 Ht1 _.
    eapply wp_mark_cancelled; [rewrite Ht1; apply lookup_insert_eq|exact Hi1|]. intros s2 Hi2 Ht2. apply HQ; [done|].
    by rewrite Ht2, Ht1, insert_insert_eq. }
  apply wp_bind. destruct Hcase as [->|(Hno & -> & Hlate)]; [exact Hmove|].
  assert (wp (now ← ticks;
    if ticks_diff (ph_key x') now >? 0 then task_queue_remove (_task_queue c) (OTask t');; reschedule (_task_queue c) t';; mret tt
    else mret tt) s (fun _ s1 =>
    wp (x ← get_task t'; put_task t' (MkTask (coro x) (CancelledError c) (state x) (ph_key x));; mret (Value OTrue)) s1 Q)) as Hlater.
  { apply wp_bind, wp_gets. rewrite ticks_of_tick. destruct (ai_keyed _ _ _ Hinv mq l t' Hq Hin) as (x0 & Hx0 & Ek).
    rewrite Hx in Hx0. injection Hx0 as <-. assert (l = ml) as -> by congruence. specialize (Hnear t' Hin).
    rewrite Ek, ticks_diff_tick by lia. rewrite (proj2 (Z.gtb_lt (due t' - ticks_ms s) 0)) by lia. by rewrite Hmq at 1. }
  unfold no_remove in Hno. destruct (data x') as [| | |w| |w]; [exact Hlater..|by destruct (Hnt w)|destruct Hno|rewrite Hno; exact Hlater].
Qed.

(** Cancelling a task that is due. *)
Lemma wp_cancel_due t' x' d (Q : result -> async_t -> Prop) : tasks s !! t' = Some x' -> no_remove (data x') ->
  (forall t, data x' <> OTask t) -> ph_key x' = tick d -> d <= ticks_ms s < d + 2 ^ 29 ->
  (forall s', async_inv s' due qs -> tasks s' = <[t' := MkTask (coro x') (CancelledError c) (state x') (ph_key x')]> (tasks s) ->
     Q (Value OTrue) s') ->
  wp (cancel_from t') s Q.
Proof using Hinv.
  intros Hx Hno Hnt Hk Hd HQ. apply wp_bind, (wp_get_task _ _ _ _ Hx), wp_bind.
  assert (wp (now ← ticks;
    if ticks_diff (ph_key x') now >? 0 then task_queue_remove (_task_queue c) (OTask t');; reschedule (_task_queue c) t';; mret tt
    else mret tt) s (fun _ s1 =>
    wp (x ← get_task t'; put_task t' (MkTask (coro x) (CancelledError c) (state x) (ph_key x));; mret (Value OTrue)) s1 Q)) as Hlater.
  { apply wp_bind, wp_gets. rewrite ticks_of_tick, Hk, ticks_diff_tick by lia.
    destruct (Z.gtb_spec (d - ticks_ms s) 0) as [?|_]; [lia|]. apply wp_ret.
    by apply (wp_mark_cancelled t' x' due qs s). }
  unfold no_remove in Hno. destruct (data x') as [| | |w| |w]; [exact Hlater..|by destruct (Hnt w)|destruct Hno|rewrite Hno; exact Hlater].
Qed.

End Cancel.

(** C23: [Task.cancel] returns [False] on a finished task and raises
    [RuntimeError] on the current one.  Otherwise the cancellation goes to the
    task at the end of the chain of tasks waiting for each other, and is raised
    there: a task in a queue of its own leaves it and is put on the main queue to
    run now; a task the main queue would run later is brought forward to now; a
    task that is due stays where it is.  Nothing else changes. *)
Theorem task_cancel_correct load_remove s due qs c mq ml t x n t' x' :
  async_inv s due qs -> mp_asyncio_context s = Some c -> _task_queue c = OQueue mq -> qs !! mq = Some ml ->
  (forall z, z ∈ ml -> Z.abs (ticks_ms s - due z) < 2 ^ 29) ->
  tasks s !! t = Some x -> waits (tasks s) n t t' -> tasks s !! t' = Some x' ->
  let cancelled key := <[t' := MkTask (coro x') (CancelledError c) (state x') key]> (tasks s) in
  (TASK_IS_DONE x = true -> task_cancel load_remove (OTask t) s = Some (Value OFalse, s)) /\
  (TASK_IS_DONE x = false -> cur_task c = OTask t -> task_cancel load_remove (OTask t) s = Some (RuntimeError, s)) /\
  (TASK_IS_DONE x = false -> cur_task c <> OTask t ->
   (forall q l, data x' = OQueue q -> q <> mq -> qs !! q = Some l -> t' ∈ l ->
      exists s', task_cancel load_remove (OTask t) s = Some (Value OTrue, s') /\
        async_inv s' (upd due t' (ticks_ms s)) (<[mq := t' :: ml]> (<[q := without t' l]> qs)) /\
        tasks s' = cancelled (tick (ticks_ms s))) /\
   (no_remove load_remove (data x') -> t' ∈ ml -> ticks_ms s < due t' ->
      exists s', task_cancel load_remove (OTask t) s = Some (Value OTrue, s') /\
        async_inv s' (upd due t' (ticks_ms s)) (<[mq := t' :: without t' ml]> qs) /\
        tasks s' = cancelled (tick (ticks_ms s))) /\
   (forall d, no_remove load_remove (data x') -> ph_key x' = tick d -> d <= ticks_ms s < d + 2 ^ 29 ->
      exists s', task_cancel load_remove (OTask t) s = Some (Value OTrue, s') /\
        async_inv s' due qs /\ tasks s' = cancelled (ph_key x'))).
Proof.
  intros Hinv Hc Hmq Hml Hnear Hx Hw Hx' cancelled.
  assert (forall t1, data x' <> OTask t1) as Hnt.
  { assert (waits (tasks s) 0 t' t') as Hw'; [|cbn in Hw'; rewrite Hx' in Hw'; intros t1 E; by rewrite E in Hw'].
    clear -Hw. revert t Hw. induction n as [|n IH]; intros t Hw; cbn in Hw |- *; destruct (tasks s !! t) as [x|] eqn:E; try done.
    - destruct (data x) eqn:Ed; try done; subst t'; by rewrite E, Ed.
    - destruct (data x); try done. by apply (IH t0). }
  assert (forall P : async_t -> Prop, TASK_IS_DONE x = false -> cur_task c <> OTask t ->
    wp (cancel_from load_remove c t') s (fun r s' => r = Value OTrue /\ P s') ->
    exists s', task_cancel load_remove (OTask t) s = Some (Value OTrue, s') /\ P s') as Hrun.
  { intros P Hd Hcur Hwp.
    destruct (run_value (task_cancel load_remove (OTask t)) s (fun r s' => r = Value OTrue /\ P s')) as (r & s' & E & -> & HP).
    - by apply (wp_task_cancel load_remove s c Hc t x n t').
    - by exists s'. }
  split; [|split].
  - intros Hd. unfold task_cancel, mbind, M_bind, to_task, get_task, mret, M_ret. rewrite Hx. cbn. by rewrite Hd.
  - intros Hd Hcur. unfold task_cancel, mbind, M_bind, to_task, get_task, get_context, mret, M_ret. rewrite Hx. cbn. rewrite Hd, Hc. cbn.
    by rewrite bool_decide_true.
  - intros Hd Hcur. split; [|split].
    + intros q l Hq Hne Hl Hin. apply Hrun; [done|done|].
      apply (wp_cancel_moved load_remove s due qs Hinv c mq ml Hmq Hml t' x' q l); [done|done|done|by left|done|done|].
      rewrite decide_False by done. done.
    + intros Hno Hin Hlate. apply Hrun; [done|done|].
      apply (wp_cancel_moved load_remove s due qs Hinv c mq ml Hmq Hml t' x' mq ml); [done|done|done|by right|done|done|].
      rewrite decide_True, insert_insert_eq by done. done.
    + intros d Hno Hk Hd'. apply Hrun; [done|done|]. by apply (wp_cancel_due load_remove s due qs Hinv c t' x' d).
Qed.

(** ** Waiting for a task *)

(** Awaiting a task: a finished one raises its result in the waiter and counts
    as waited on; for one that runs a waiting queue is made the first time, and
    the current task is put on it, with the task it waits for as its data. *)
Theorem task_await_correct s due qs t x q0 : async_inv s due qs -> tasks s !! t = Some x -> qs !! q0 = None ->
  (TASK_IS_DONE x = true ->
     task_getiter q0 (OTask t) s =
       Some (Value (OTask t), set_tasks (<[t := MkTask (coro x) (data x) OFalse (ph_key x)]> (tasks s)) s) /\
     task_iternext (OTask t) s = Some (Raised (data x), s)) /\
  (state x = OTrue ->
     exists s', task_getiter q0 (OTask t) s = Some (Value (OTask t), s') /\ async_inv s' due (<[q0 := []]> qs) /\
       tasks s' = <[t := MkTask (coro x) (data x) (OQueue q0) (ph_key x)]> (tasks s)) /\
  (forall q l c u y, state x = OQueue q -> qs !! q = Some l -> mp_asyncio_context s = Some c -> cur_task c = OTask u -> u <> t ->
     tasks s !! u = Some y -> unqueued qs u -> (forall z, z ∈ l -> Z.abs (ticks_ms s - due z) < 2 ^ 29) ->
     exists s', task_iternext (OTask t) s = Some (Value ONone, s') /\
       async_inv s' (upd due u (ticks_ms s)) (<[q := u :: l]> qs) /\
       tasks s' = <[u := MkTask (coro y) (OTask t) (state y) (tick (ticks_ms s))]> (tasks s)).
Proof.
  intros Hinv Hx Hq0. split; [|split].
  - intros Hd. unfold task_getiter, task_iternext, mbind, M_bind, to_task, get_task, mret, M_ret. rewrite Hx. cbn. by rewrite Hd.
  - intros Hs. assert (TASK_IS_DONE x = false) as Hd by (unfold TASK_IS_DONE; rewrite Hs; by apply bool_decide_false; intros [?|?]).
    set (s1 := set_queues (<[q0 := 0]> (queues s)) s). assert (async_inv s1 due (<[q0 := []]> qs)) as Hi1.
    { destruct Hinv as [Hh Hk Hn Ha Hf]. split.
      - intros q l [[<- <-]|[Hne Hl]]%lookup_insert_Some.
        + exists 0. split; [apply lookup_insert_eq|apply heap_rep_empty].
        + destruct (Hh q l Hl) as (h & Hqh & Hr). exists h. split; [cbn; by rewrite lookup_insert_ne|done].
      - intros q l z [[<- <-]|[Hne Hl]]%lookup_insert_Some Hz; [by apply not_elem_of_nil in Hz|by apply (Hk q l)].
      - intros q l [[<- <-]|[Hne Hl]]%lookup_insert_Some; [by intros z y ?%not_elem_of_nil|by apply (Hn q l)].
      - intros q q' l l' z [[<- <-]|[Hne Hl]]%lookup_insert_Some [[<- <-]|[Hne' Hl']]%lookup_insert_Some Hz Hz'; try done.
        + by apply not_elem_of_nil in Hz.
        + by apply not_elem_of_nil in Hz'.
        + by apply (Ha q q' l l' z).
      - intros z Hz Hu. apply Hf; [done|]. intros q l Hl. apply (Hu q). rewrite lookup_insert_ne; [done|]. congruence. }
    exists (set_tasks (<[t := MkTask (coro x) (data x) (OQueue q0) (ph_key x)]> (tasks s)) s1). split; [|split; [|done]].
    + unfold task_getiter, mbind, M_bind, to_task, get_task, mret, M_ret. rewrite Hx. cbn. by rewrite Hd, Hs.
    + by apply (inv_put_task s1 due _ t x).
  - intros q l c u y Hs Hq Hc Hcur Hut Hy Hu Hnear.
    assert (TASK_IS_DONE x = false) as Hd by (unfold TASK_IS_DONE; rewrite Hs; by apply bool_decide_false; intros [?|?]).
    destruct (run_value (task_iternext (OTask t)) s (fun r s' => r = Value ONone /\
       async_inv s' (upd due u (ticks_ms s)) (<[q := u :: l]> qs) /\
       tasks s' = <[u := MkTask (coro y) (OTask t) (state y) (tick (ticks_ms s))]> (tasks s))) as (r & s' & E & -> & H); [|by exists s'].
    apply wp_bind, wp_ret, wp_bind, (wp_get_task _ _ _ _ Hx). rewrite Hd.
    apply wp_bind, (wp_get_context _ _ _ Hc). rewrite Hs, Hcur.
    apply wp_bind, (wp_task_queue_push s due qs q l Hinv Hq u y None (ticks_ms s)); [done|done|by left|done|].
    intros s1 Hi1 Ht1 _. apply wp_bind, wp_ret. eassert (tasks s1 !! u = Some _) as Hu1 by (rewrite Ht1; apply lookup_insert_eq).
    apply wp_bind, (wp_get_task _ _ _ _ Hu1), wp_bind, wp_modify, wp_ret. split; [done|]. split.
    + by eapply inv_put_task.
    + cbn. by rewrite Ht1, insert_insert_eq.
Qed.

(** ** Time *)

(** Adding to a time on the wrapping clock and taking the difference are
    inverse to each other, for intervals of less than half a period in either
    direction; every other 32-bit interval is an OverflowError. *)
Theorem ticks_add_diff t delta : - 2 ^ 31 <= delta < 2 ^ 31 ->
  match time_ticks_add (tick t) delta with
  | Some r => - 2 ^ 29 < delta < 2 ^ 29 /\ r = tick (t + delta) /\
              time_ticks_diff r (tick t) = MP_OBJ_NEW_SMALL_INT delta /\
              time_ticks_diff (tick t) r = MP_OBJ_NEW_SMALL_INT (- delta)
  | None => ~ (- 2 ^ 29 < delta < 2 ^ 29)
  end.
Proof.
  intros Hd. unfold time_ticks_add, MICROPY_PY_TIME_TICKS_PERIOD.
  destruct (Z.geb_spec (u32 (u32 (u32 delta + 2 ^ 30 / 2) - 1)) (2 ^ 30 - 1)) as [Hge|Hlt].
  - intros Hr. unfold uwrap in Hge. Z.to_euclidean_division_equations. lia.
  - assert (- 2 ^ 29 < delta < 2 ^ 29) as Hr.
    { unfold uwrap in Hlt. Z.to_euclidean_division_equations. lia. }
    assert (MP_OBJ_NEW_SMALL_INT (Z.land (u32 (u32 (MP_OBJ_SMALL_INT_VALUE (tick t)) + u32 delta)) (2 ^ 30 - 1)) = tick (t + delta)) as E.
    { unfold tick at 1. rewrite tick_value by (apply Z.mod_pos_bound; lia). rewrite land_pow2_mask by lia.
      unfold tick. f_equal. unfold uwrap. Z.to_euclidean_division_equations. lia. }
    assert (forall a b, time_ticks_diff a b = MP_OBJ_NEW_SMALL_INT (ticks_diff a b)) as Ediff by (intros a b; unfold time_ticks_diff, ticks_diff; reflexivity).
    rewrite E, !Ediff, !ticks_diff_tick by lia. split; [done|]. split; [done|]. split; f_equal; lia.
Qed.

(** ** A concrete state *)

(** One task, on a waiting queue, a little after the clock has wrapped around. *)
Definition demo_task : mp_obj_task_t := MkTask (OOther 7) (OQueue 104) OTrue (tick (2 ^ 30 - 5)).
Definition demo_context : context := MkContext ONone (OQueue 100) (OOther 9).
Definition demo_state : async_t :=
  MkAsync {[ 16 := MkPairheap 0 0 0 ]} {[ 16 := demo_task ]} {[ 100 := 0; 104 := 16 ]} (Some demo_context) (2 ^ 30 + 3).
Definition demo_due (x : Z) : Z := 2 ^ 30 - 5.
Definition demo_queues : gmap Z (list Z) := {[ 100 := []; 104 := [16] ]}.

Lemma demo_lookup q l : demo_queues !! q = Some l -> (q = 100 /\ l = []) \/ (q = 104 /\ l = [16]).
Proof.
  unfold demo_queues. intros [[<- <-]|[_ [<- <-]%lookup_singleton_Some]]%lookup_insert_Some; [by left|by right].
Qed.

Lemma demo_inv : async_inv demo_state demo_due demo_queues.
Proof.
  assert (addr_ok 16) as Ha by done. split.
  - intros q l [[-> ->]|[-> ->]]%demo_lookup; [exists 0; split; [done|apply heap_rep_empty]|].
    exists 16. split; [done|]. exists (single (MkTree 16 FNil FNil)). split; [|split; [done|split; [apply NoDup_singleton|]]].
    + right. exists (MkTree 16 FNil FNil). split; [done|]. apply chain_single. split; [done|]. split; [done|]. by exists (MkPairheap 0 0 0).
    + repeat split; intros x ?%not_elem_of_nil; done.
  - intros q l x [[-> ->]|[-> ->]]%demo_lookup Hx; [by apply not_elem_of_nil in Hx|].
    apply list_elem_of_singleton in Hx as ->. by exists demo_task.
  - intros q l _ x y _ _. unfold demo_due. lia.
  - intros q q' l l' x [[-> ->]|[-> ->]]%demo_lookup [[-> ->]|[-> ->]]%demo_lookup Hx Hx'; try done;
      (by apply not_elem_of_nil in Hx) || by apply not_elem_of_nil in Hx'.
  - intros x [y Hx] Hu. cbn in Hx. apply lookup_singleton_Some in Hx as [<- _]. exfalso.
    apply (Hu 104 [16]); [done|by left].
Qed.

Lemma task_queue_correct_witness :
  task_queue_peek (OQueue 104) demo_state = Some (OTask 16, demo_state) /\
  exists s', task_queue_pop (OQueue 104) demo_state = Some (Value (OTask 16), s').
Proof.
  destruct (task_queue_correct demo_state demo_due demo_queues 104 [16] demo_inv eq_refl) as (Hp & (s' & Hs & _) & _).
  split; [exact Hp|by exists s'].
Defined.

Lemma task_cancel_correct_witness : exists s', task_cancel (fun _ => None) (OTask 16) demo_state = Some (Value OTrue, s') /\
  tasks s' = {[ 16 := MkTask (OOther 7) (OOther 9) OTrue (tick (2 ^ 30 + 3)) ]}.
Proof.
  assert (forall z, z ∈ [] -> Z.abs (ticks_ms demo_state - demo_due z) < 2 ^ 29) as Hn by (by intros z ?%not_elem_of_nil).
  destruct (task_cancel_correct (fun _ => None) demo_state demo_due demo_queues demo_context 100 [] 16 demo_task 0 16 demo_task
    demo_inv eq_refl eq_refl eq_refl Hn eq_refl eq_refl eq_refl) as (_ & _ & H).
  destruct (H eq_refl) as (H1 & _); [done|]. destruct (H1 104 [16] eq_refl) as (s' & Hs & _ & Ht); [done|done|by left|].
  exists s'. split; [exact Hs|]. rewrite Ht. reflexivity.
Defined.

Lemma task_await_correct_witness :
  task_iternext (OTask 16) (set_tasks {[ 16 := MkTask (OOther 7) (OOther 8) ONone 11 ]} (set_queues ∅ demo_state)) =
    Some (Raised (OOther 8), set_tasks {[ 16 := MkTask (OOther 7) (OOther 8) ONone 11 ]} (set_queues ∅ demo_state)).
Proof.
  assert (async_inv (set_tasks {[ 16 := MkTask (OOther 7) (OOther 8) ONone 11 ]} (set_queues ∅ demo_state)) demo_due ∅) as Hi.
  { split; try (intros; done). intros x [y Hx] _. cbn in Hx. apply lookup_singleton_Some in Hx as [<- _]. split; [done|by exists 0]. }
  apply (task_await_correct _ _ _ 16 (MkTask (OOther 7) (OOther 8) ONone 11) 200 Hi eq_refl eq_refl). reflexivity.
Defined.

Lemma ticks_add_diff_witness : time_ticks_add (tick (2 ^ 30 - 1)) 5 = Some (tick 4) /\
  time_ticks_diff (tick 4) (tick (2 ^ 30 - 1)) = MP_OBJ_NEW_SMALL_INT 5.
Proof.
  assert (- 2 ^ 31 <= 5 < 2 ^ 31) as H5 by lia. pose proof (ticks_add_diff (2 ^ 30 - 1) 5 H5) as H.
  change (time_ticks_add (tick (2 ^ 30 - 1)) 5) with (Some (tick 4)) in H |- *. split; [reflexivity|apply H].
Defined.
