(* ===== verification/Scheduler.v ===== *)
(** * The scheduler of callbacks ([py/scheduler.c])

    Interrupts and C code queue callbacks, the interpreter runs them when it
    polls.  Python callbacks are a ring of [MICROPY_SCHEDULER_DEPTH] items, C
    callbacks a linked list of static nodes.  Every section between
    [MICROPY_BEGIN_ATOMIC_SECTION] and [MICROPY_END_ATOMIC_SECTION] is a
    computation on the state; between them anything can happen, which is the
    step relation at the end.  The port has [MICROPY_SCHEDULER_STATIC_NODES] and
    [MICROPY_PY_THREAD] with the global lock; no [vm_abort]. *)
From S2P Require Import Prelude.
From S2P Require Import CMem.
Local Open Scope Z_scope.

Definition MP_SCHED_IDLE : Z := 1.
Definition MP_SCHED_LOCKED : Z := -1.
Definition MP_SCHED_PENDING : Z := 0.
Definition MICROPY_SCHEDULER_DEPTH : Z := 8.
Definition IDX_MASK (i : Z) : Z := Z.land i (MICROPY_SCHEDULER_DEPTH - 1).

Definition s16 : Z -> Z := swrap 16.

Record mp_sched_item_t := MkItem { func : Z; arg : Z }.

(** A null pointer to a node is [None], a null callback is 0. *)
Record mp_sched_node_t := MkNode { callback : Z; next : option nat }.

(** What has happened, the latest first: callbacks accepted and called, and
    exceptions raised. *)
Inductive event :=
  | Scheduled (item : mp_sched_item_t)
  | ScheduledNode (node : nat) (cb : Z)
  | CalledFunction (item : mp_sched_item_t)
  | CalledNode (node : nat) (cb : Z)
  | Raised (exc : Z).

(** The fields of [mp_state_vm_t] and [mp_state_thread_t] that the scheduler
    uses, the memory of the nodes, and the log. *)
Record sched_t := MkSched {
  sched_state : Z;
  sched_queue : list mp_sched_item_t;
  sched_len : Z;
  sched_idx : Z;
  sched_head : option nat;
  sched_tail : option nat;
  nodes : gmap nat mp_sched_node_t;
  mp_pending_exception : Z;
  log : list event;
}.

Definition set_state (v : Z) (s : sched_t) : sched_t :=
  MkSched v (sched_queue s) (sched_len s) (sched_idx s) (sched_head s) (sched_tail s) (nodes s)
    (mp_pending_exception s) (log s).
Definition set_queue (q : list mp_sched_item_t) (len idx : Z) (s : sched_t) : sched_t :=
  MkSched (sched_state s) q len idx (sched_head s) (sched_tail s) (nodes s) (mp_pending_exception s) (log s).
Definition set_list (h t : option nat) (ns : gmap nat mp_sched_node_t) (s : sched_t) : sched_t :=
  MkSched (sched_state s) (sched_queue s) (sched_len s) (sched_idx s) h t ns (mp_pending_exception s) (log s).
Definition set_exception (e : Z) (s : sched_t) : sched_t :=
  MkSched (sched_state s) (sched_queue s) (sched_len s) (sched_idx s) (sched_head s) (sched_tail s) (nodes s) e (log s).
Definition add_event (e : event) (s : sched_t) : sched_t :=
  MkSched (sched_state s) (sched_queue s) (sched_len s) (sched_idx s) (sched_head s) (sched_tail s) (nodes s)
    (mp_pending_exception s) (e :: log s).

Abbreviation Ms := (M sched_t).

Definition get_node (n : nat) : Ms mp_sched_node_t := fun s => x ← nodes s !! n; Some (x, s).
Definition set_node (n : nat) (x : mp_sched_node_t) : Ms unit :=
  _ ← get_node n; modify (fun s => set_list (sched_head s) (sched_tail s) (<[n := x]> (nodes s)) s).

(** ** The atomic sections *)

Definition mp_sched_full (s : sched_t) : bool := sched_len s =? MICROPY_SCHEDULER_DEPTH.
Definition mp_sched_empty (s : sched_t) : bool := sched_len s =? 0.

Definition mp_sched_exception (exc : Z) : Ms unit := modify (set_exception exc).

Definition mp_sched_lock : Ms unit :=
  s ← get;
  if sched_state s <? 0 then modify (set_state (s16 (sched_state s - 1)))
  else modify (set_state MP_SCHED_LOCKED).

Definition mp_sched_unlock : Ms unit :=
  s ← get; assert_ (sched_state s <? 0);;
  let st := s16 (sched_state s + 1) in
  modify (set_state st);;
  if st =? 0 then
    if (match sched_head s with Some _ => true | None => false end) || negb (sched_len s =? 0)
    then modify (set_state MP_SCHED_PENDING)
    else modify (set_state MP_SCHED_IDLE)
  else mret tt.

(** The state becomes pending if it was idle. *)
Definition note_pending : Ms unit :=
  s ← get; if sched_state s =? MP_SCHED_IDLE then modify (set_state MP_SCHED_PENDING) else mret tt.

Definition mp_sched_schedule (function a : Z) : Ms bool :=
  s ← get;
  if negb (mp_sched_full s) then
    note_pending;;
    let iput := IDX_MASK (sched_idx s + sched_len s) in
    assert_ (iput <? Z.of_nat (length (sched_queue s)));;
    modify (fun s => set_queue (<[Z.to_nat iput := MkItem function a]> (sched_queue s)) (u8 (sched_len s + 1)) (sched_idx s) s);;
    modify (add_event (Scheduled (MkItem function a)));;
    mret true
  else mret false.

Definition mp_sched_schedule_node (node : nat) (cb : Z) : Ms bool :=
  x ← get_node node;
  if callback x =? 0 then
    note_pending;;
    set_node node (MkNode cb None);;
    s ← get;
    (match sched_tail s with
     | None => modify (fun s => set_list (Some node) (sched_tail s) (nodes s) s)
     | Some t => y ← get_node t; set_node t (MkNode (callback y) (Some node))
     end);;
    modify (fun s => set_list (sched_head s) (Some node) (nodes s) s);;
    modify (add_event (ScheduledNode node cb));;
    mret true
  else mret false.

(** *** [mp_sched_run_pending], cut where it leaves the atomic section *)

(** Where an invocation is: about to enter the first section; in the callback of
    a node, with the tail of the list at the start; in a Python callback; about
    to unlock. *)
Inductive phase :=
  | Entering
  | InNode (original_tail node : nat)
  | InFunction
  | Unlocking.

(** The loop body up to the call. *)
Definition take_node (original_tail : nat) : Ms phase :=
  s ← get;
  match sched_head s with
  | None => stuck
  | Some node =>
      x ← get_node node;
      let tail := match next x with None => None | Some _ => sched_tail s end in
      modify (fun s => set_list (next x) tail (nodes s) s);;
      set_node node (MkNode 0 (next x));;
      modify (add_event (CalledNode node (callback x)));;
      mret (InNode original_tail node)
  end.

(** From the test of the queue to the call. *)
Definition take_function : Ms phase :=
  s ← get;
  if negb (mp_sched_empty s) then
    match sched_queue s !! Z.to_nat (sched_idx s) with
    | None => stuck
    | Some item =>
        modify (set_queue (sched_queue s) (u8 (sched_len s - 1)) (IDX_MASK (sched_idx s + 1)));;
        modify (add_event (CalledFunction item));;
        mret InFunction
    end
  else mret Unlocking.

(** The first section; [None] is the return because something else has locked
    the scheduler. *)
Definition enter_run : Ms (option phase) :=
  s ← get;
  if negb (sched_state s =? MP_SCHED_PENDING) then mret None
  else
    modify (set_state MP_SCHED_LOCKED);;
    p ← (match sched_tail s with Some t => take_node t | None => take_function end);
    mret (Some p).

(** The section after the callback of a node has returned. *)
Definition after_node (original_tail node : nat) : Ms phase :=
  if negb (node =? original_tail)%nat then take_node original_tail else take_function.

(** ** [mp_handle_pending] up to the call of [mp_sched_run_pending]; whether it is
    called *)
Definition mp_handle_pending (raise_exc : bool) : Ms bool :=
  s ← get;
  let obj := mp_pending_exception s in
  if negb (obj =? 0) then
    modify (set_exception 0);;
    if raise_exc then modify (add_event (Raised obj));; mret false
    else s ← get; mret (sched_state s =? MP_SCHED_PENDING)
  else mret (sched_state s =? MP_SCHED_PENDING).

(** ** The machine

    The invocations of [mp_sched_run_pending] that have begun, the innermost
    first; [locks] counts the calls of [mp_sched_lock] that have not been undone,
    and [runs] the invocations that have ended. *)
Record machine := MkMachine { sched : sched_t; calls : list phase; locks : nat; runs : nat }.

(** Code runs, and can poll, unless an invocation is in an atomic section. *)
Definition code_running (cs : list phase) : bool :=
  match cs with [] | InNode _ _ :: _ | InFunction :: _ => true | _ => false end.

Inductive step : machine -> machine -> Prop :=
  | step_schedule s cs k r f a b s' :
      mp_sched_schedule f a s = Some (b, s') -> step (MkMachine s cs k r) (MkMachine s' cs k r)
  | step_schedule_node s cs k r n cb b s' :
      cb <> 0 -> mp_sched_schedule_node n cb s = Some (b, s') -> step (MkMachine s cs k r) (MkMachine s' cs k r)
  | step_exception s cs k r e s' :
      mp_sched_exception e s = Some (tt, s') -> step (MkMachine s cs k r) (MkMachine s' cs k r)
  | step_lock s cs k r s' :
      Z.of_nat k < 2 ^ 14 -> mp_sched_lock s = Some (tt, s') -> step (MkMachine s cs k r) (MkMachine s' cs (S k) r)
  | step_unlock s cs k r s' :
      mp_sched_unlock s = Some (tt, s') -> step (MkMachine s cs (S k) r) (MkMachine s' cs k r)
  | step_handle s cs k r raise_exc (b : bool) s' :
      code_running cs = true -> mp_handle_pending raise_exc s = Some (b, s') ->
      step (MkMachine s cs k r) (MkMachine s' (if b then Entering :: cs else cs) k r)
  | step_enter s cs k r p s' :
      enter_run s = Some (p, s') ->
      step (MkMachine s (Entering :: cs) k r) (MkMachine s' (match p with Some p => p :: cs | None => cs end) k r)
  | step_after_node s cs k r t n p s' :
      after_node t n s = Some (p, s') -> step (MkMachine s (InNode t n :: cs) k r) (MkMachine s' (p :: cs) k r)
  | step_after_function s cs k r :
      step (MkMachine s (InFunction :: cs) k r) (MkMachine s (Unlocking :: cs) k r)
  | step_finish s cs k r s' :
      mp_sched_unlock s = Some (tt, s') -> step (MkMachine s (Unlocking :: cs) k r) (MkMachine s' cs k (S r)).

Definition steps : machine -> machine -> Prop := rtc step.

(** The part of [mp_init] about the scheduler; nodes queued before a soft reset
    stay queued. *)
Definition mp_init (s : sched_t) : sched_t :=
  let st := match sched_head s with Some _ => MP_SCHED_PENDING | None => MP_SCHED_IDLE end in
  MkSched st (sched_queue s) 0 0 (sched_head s) (sched_tail s) (nodes s) 0 (log s).

(** The memory after power-on, with the static nodes [ns]. *)
Definition zeroed (ns : gmap nat mp_sched_node_t) : sched_t :=
  MkSched 0 (replicate (Z.to_nat MICROPY_SCHEDULER_DEPTH) (MkItem 0 0)) 0 0 None None ns 0 [].

Definition initial (ns : gmap nat mp_sched_node_t) : machine := MkMachine (mp_init (zeroed ns)) [] 0 0.

(** ** Reading the log, in the order of time *)

Definition scheduled_functions (l : list event) : list mp_sched_item_t :=
  rev (omap (fun e => match e with Scheduled i => Some i | _ => None end) l).
Definition called_functions (l : list event) : list mp_sched_item_t :=
  rev (omap (fun e => match e with CalledFunction i => Some i | _ => None end) l).
Definition scheduled_nodes (l : list event) : list (nat * Z) :=
  rev (omap (fun e => match e with ScheduledNode n cb => Some (n, cb) | _ => None end) l).
Definition called_nodes (l : list event) : list (nat * Z) :=
  rev (omap (fun e => match e with CalledNode n cb => Some (n, cb) | _ => None end) l).
