(* ===== verification/SchedulerFacts.v ===== *)
(** * The state of the scheduler

    The ring and the linked list as lists ([ring], [linked]), the rule of every
    atomic section, the invariant of the step relation and what every step
    advances. *)
From S2P Require Import Prelude.
From S2P Require Import CMem.
From S2P Require Import Scheduler.
Local Open Scope Z_scope.

(** ** The two queues *)

Definition ring (s : sched_t) (items : list mp_sched_item_t) : Prop :=
  sched_len s = Z.of_nat (length items) /\ (length items <= 8)%nat /\ 0 <= sched_idx s < 8 /\
  length (sched_queue s) = 8%nat /\
  forall i x, items !! i = Some x -> sched_queue s !! Z.to_nat ((sched_idx s + Z.of_nat i) `mod` 8) = Some x.

Fixpoint linked (ns : gmap nat mp_sched_node_t) (h : option nat) (l : list (nat * Z)) : Prop :=
  match l with
  | [] => h = None
  | (n, cb) :: l => h = Some n /\ exists x, ns !! n = Some x /\ callback x = cb /\ linked ns (next x) l
  end.

(** [l] is the list of nodes: linked from the head to the tail, without
    repetitions, and exactly the nodes that have a callback. *)
Definition list_ok (s : sched_t) (l : list (nat * Z)) : Prop :=
  linked (nodes s) (sched_head s) l /\ sched_tail s = fst <$> last l /\ NoDup l.*1 /\
  forall n x, nodes s !! n = Some x -> callback x <> 0 -> n ∈ l.*1.

Record good (s : sched_t) (items : list mp_sched_item_t) (l : list (nat * Z)) : Prop := {
  g_ring : ring s items;
  g_list : list_ok s l;
  g_nonzero : Forall (fun p => p.2 <> 0) l;
  g_functions : scheduled_functions (log s) = called_functions (log s) ++ items;
  g_nodes : scheduled_nodes (log s) = called_nodes (log s) ++ l;
}.

(** The state: minus the number of locks, or whether there is something to run. *)
Definition state_ok (s : sched_t) (k : nat) (items : list mp_sched_item_t) (l : list (nat * Z)) : Prop :=
  sched_state s = match k with
                  | O => match items, l with [], [] => MP_SCHED_IDLE | _, _ => MP_SCHED_PENDING end
                  | S _ => - Z.of_nat k
                  end.

Lemma idx_mask i : 0 <= i -> IDX_MASK i = i `mod` 8.
Proof. intros. unfold IDX_MASK, MICROPY_SCHEDULER_DEPTH. change (8 - 1) with (2 ^ 3 - 1). by rewrite land_pow2_mask. Qed.

(** ** The ring *)

Lemma ring_add s items x : ring s items -> (length items < 8)%nat ->
  ring (set_queue (<[Z.to_nat (IDX_MASK (sched_idx s + sched_len s)) := x]> (sched_queue s)) (u8 (sched_len s + 1)) (sched_idx s) s)
    (items ++ [x]).
Proof.
  intros (Hlen & Hle & Hidx & Hq & Hitems) Hlt. rewrite idx_mask by lia. unfold ring. cbn [set_queue sched_len sched_idx sched_queue].
  rewrite length_app, length_insert. cbn [length].
  split; [rewrite Hlen; unfold uwrap; rewrite Z.mod_small; lia|]. split; [lia|]. split; [done|]. split; [done|].
  intros i y Hi. apply lookup_app_Some in Hi as [Hi|[Hi1 Hi2]].
  - pose proof (lookup_lt_Some _ _ _ Hi). rewrite list_lookup_insert_ne; [by apply Hitems|].
    rewrite Hlen. intros E. apply Z2Nat.inj in E; [|apply Z.mod_pos_bound; lia..].
    Z.to_euclidean_division_equations. lia.
  - apply list_lookup_singleton_Some in Hi2 as [Hi2 <-].
    replace (Z.of_nat i) with (sched_len s) by lia. apply list_lookup_insert_eq.
    rewrite Hq. pose proof (Z.mod_pos_bound (sched_idx s + sched_len s) 8). lia.
Qed.

Lemma ring_remove s x items : ring s (x :: items) ->
  sched_queue s !! Z.to_nat (sched_idx s) = Some x /\
  ring (set_queue (sched_queue s) (u8 (sched_len s - 1)) (IDX_MASK (sched_idx s + 1)) s) items.
Proof.
  intros (Hlen & Hle & Hidx & Hq & Hitems). cbn [length] in *. split.
  - specialize (Hitems 0%nat x eq_refl). by rewrite Z.add_0_r, Z.mod_small in Hitems.
  - rewrite idx_mask by lia. unfold ring. cbn [set_queue sched_len sched_idx sched_queue].
    split; [rewrite Hlen; unfold uwrap; rewrite Z.mod_small; lia|]. split; [lia|].
    split; [by apply Z.mod_pos_bound|]. split; [done|].
    intros i y Hi. specialize (Hitems (S i) y Hi). rewrite <-Hitems. do 2 f_equal.
    rewrite Zplus_mod_idemp_l. f_equal. lia.
Qed.

(** ** The linked list *)

Lemma linked_ext ns ns' h l : (forall n, n ∈ l.*1 -> ns' !! n = ns !! n) -> linked ns h l -> linked ns' h l.
Proof.
  revert h. induction l as [|[n cb] l IH]; intros h Hext; [done|]. cbn. intros (Hh & x & Hx & Hcb & Hl).
  split; [done|]. exists x. rewrite Hext by (cbn; left). split; [done|]. split; [done|].
  apply IH; [|done]. intros y Hy. apply Hext. cbn. by right.
Qed.

Lemma linked_lookup ns h l n cb : linked ns h l -> (n, cb) ∈ l -> exists x, ns !! n = Some x /\ callback x = cb.
Proof.
  revert h. induction l as [|[n' cb'] l IH]; intros h Hl Hin; [by apply not_elem_of_nil in Hin|].
  cbn in Hl. destruct Hl as (_ & x & Hx & Hcb & Hl). apply elem_of_cons in Hin as [[= -> ->]|Hin]; [by exists x|].
  by eapply IH.
Qed.

(** Appending a node: its predecessor, the last one, points to it. *)
Lemma linked_snoc ns h l n cb t tcb x : linked ns h (l ++ [(t, tcb)]) -> NoDup (l ++ [(t, tcb)]).*1 ->
  n ∉ (l ++ [(t, tcb)]).*1 -> ns !! t = Some x ->
  linked (<[t := MkNode (callback x) (Some n)]> (<[n := MkNode cb None]> ns)) h ((l ++ [(t, tcb)]) ++ [(n, cb)]).
Proof.
  intros Hl Hnd Hn Hx. set (ns' := <[t := _]> _).
  assert (t <> n) as Htn. { intros ->. apply Hn. rewrite fmap_app. apply elem_of_app. right. by left. }
  assert (ns' !! t = Some (MkNode (callback x) (Some n))) as Ht by apply lookup_insert_eq.
  assert (ns' !! n = Some (MkNode cb None)) as Hn' by (unfold ns'; by rewrite lookup_insert_ne, lookup_insert_eq).
  revert h Hl Hnd Hn. induction l as [|[n1 cb1] l IH]; intros h Hl Hnd Hn; cbn in Hl |- *.
  - destruct Hl as (-> & y & Hy & Hcb & Hnext). rewrite Hx in Hy. injection Hy as <-.
    split; [done|]. eexists. split; [exact Ht|]. split; [done|]. split; [done|]. by exists (MkNode cb None).
  - destruct Hl as (-> & y & Hy & Hcb & Hl). cbn in Hnd, Hn. apply NoDup_cons in Hnd as [Hn1 Hnd].
    apply not_elem_of_cons in Hn as [Hne Hn]. split; [done|]. exists y. split; [|split; [done|by apply IH]].
    unfold ns'. rewrite !lookup_insert_ne; try done. intros ->. apply Hn1. rewrite fmap_app. apply elem_of_app. right. by left.
Qed.

(** ** The atomic sections *)

Lemma set_state_id s : set_state (sched_state s) s = s.
Proof. by destruct s. Qed.

Lemma good_set_state s items l v : good s items l -> good (set_state v s) items l.
Proof. intros [Hr Hl Hnz Hf Hn]. by split. Qed.

Lemma linked_get s items l n : good s items l -> n ∈ l.*1 -> exists x, nodes s !! n = Some x /\ callback x <> 0.
Proof.
  intros [_ (Hl & _) Hnz _ _] ([n' cb] & -> & Hin)%list_elem_of_fmap.
  destruct (linked_lookup _ _ _ _ _ Hl Hin) as (x & Hx & Hcb). exists x. split; [done|].
  rewrite Forall_forall in Hnz. specialize (Hnz _ Hin). cbn in Hnz. congruence.
Qed.

Section Rules.
Context (s : sched_t) (items : list mp_sched_item_t) (l : list (nat * Z)) (k : nat).
Context (Hg : good s items l) (Hs : state_ok s k items l).

(** [note_pending] prepares the state for a queue that is not empty. *)
Lemma wp_note_pending items' l' (Q : unit -> sched_t -> Prop) : items' <> [] \/ l' <> [] ->
  (forall v, state_ok (set_state v s) k items' l' -> Q tt (set_state v s)) -> wp note_pending s Q.
Proof using Hg Hs.
  intros Hne HQ. unfold note_pending. apply wp_bind. unfold wp at 1, get.
  assert (forall v, v = match k with O => MP_SCHED_PENDING | _ => - Z.of_nat k end -> Q tt (set_state v s)) as HQ'.
  { intros v ->. apply HQ. unfold state_ok. cbn. destruct k; [|done]. destruct items', l'; try done. by destruct Hne. }
  unfold state_ok in Hs. destruct (Z.eqb_spec (sched_state s) MP_SCHED_IDLE) as [E|E].
  - apply wp_modify, HQ'. destruct k; [done|]. rewrite Hs in E. unfold MP_SCHED_IDLE in E. lia.
  - apply wp_ret. rewrite <-(set_state_id s). apply HQ'. rewrite Hs in *. destruct k; [|done]. by destruct items, l.
Qed.

Lemma wp_mp_sched_schedule f a (Q : bool -> sched_t -> Prop) :
  (forall s', (length items < 8)%nat -> good s' (items ++ [MkItem f a]) l -> state_ok s' k (items ++ [MkItem f a]) l ->
     log s' = Scheduled (MkItem f a) :: log s -> nodes s' = nodes s -> Q true s') ->
  (length items = 8%nat -> Q false s) -> wp (mp_sched_schedule f a) s Q.
Proof using Hg Hs.
  intros Htrue Hfalse. destruct Hg as [Hr Hl Hnz Hf Hn]. pose proof Hr as (Hlen & Hle & Hidx & Hq & _).
  apply wp_bind. unfold wp at 1, get. unfold mp_sched_full, MICROPY_SCHEDULER_DEPTH.
  destruct (Z.eqb_spec (sched_len s) 8) as [E|E]; cbn [negb]; [apply wp_ret, Hfalse; lia|].
  apply wp_bind, (wp_note_pending (items ++ [MkItem f a]) l); [left; by destruct items|]. intros v Hv.
  apply wp_bind, wp_assert.
  { cbn [set_state sched_queue]. rewrite Hq, idx_mask by lia. apply Z.ltb_lt. apply (Z.mod_pos_bound _ 8). lia. }
  apply wp_bind, wp_modify, wp_bind, wp_modify, wp_ret, Htrue; [lia| |exact Hv|done|done].
  pose proof (ring_add s items (MkItem f a) Hr ltac:(lia)) as Hr'.
  split; [exact Hr'|exact Hl|done| |exact Hn].
  cbn [log add_event set_queue set_state]. unfold scheduled_functions, called_functions in *. cbn. by rewrite Hf, app_assoc.
Qed.

Lemma wp_mp_sched_schedule_node n cb x (Q : bool -> sched_t -> Prop) : nodes s !! n = Some x -> cb <> 0 ->
  (forall s', n ∉ l.*1 -> good s' items (l ++ [(n, cb)]) -> state_ok s' k items (l ++ [(n, cb)]) ->
     log s' = ScheduledNode n cb :: log s -> (forall m, is_Some (nodes s !! m) -> is_Some (nodes s' !! m)) -> Q true s') ->
  (callback x <> 0 -> Q false s) -> wp (mp_sched_schedule_node n cb) s Q.
Proof using Hg Hs.
  intros Hx Hcb Htrue Hfalse. pose proof Hg as [Hr (Hl & Htail & Hnd & Hall) Hnz Hf Hn].
  apply wp_bind. unfold wp at 1, get_node. rewrite Hx. cbn [mbind option_bind].
  destruct (Z.eqb_spec (callback x) 0) as [E|E]; [|by apply wp_ret, Hfalse].
  assert (n ∉ l.*1) as Hnl. { intros Hin. destruct (linked_get _ _ _ _ Hg Hin) as (y & Hy & Hne). congruence. }
  apply wp_bind, (wp_note_pending items (l ++ [(n, cb)])); [right; by destruct l|]. intros v Hv.
  apply wp_bind, wp_bind. unfold wp at 1, get_node. cbn [set_state nodes]. rewrite Hx. cbn [mbind option_bind].
  apply wp_modify. apply wp_bind. unfold wp at 1, get. cbn [set_state set_list sched_head sched_tail nodes].
  assert (forall ns h, linked ns h (l ++ [(n, cb)]) ->
    (forall m y, ns !! m = Some y -> callback y <> 0 -> m = n \/ exists z, nodes s !! m = Some z /\ callback z <> 0) ->
    (forall m, is_Some (nodes s !! m) -> is_Some (ns !! m)) ->
    Q true (add_event (ScheduledNode n cb) (set_list h (Some n) ns (set_state v s)))) as Hend.
  { intros ns h Hlink Hcbs Hsome. apply Htrue; [done| |exact Hv|done|exact Hsome]. split; [exact Hr| | |exact Hf|].
    - split; [exact Hlink|]. cbn [add_event set_list sched_tail nodes]. rewrite last_snoc, fmap_app.
      split; [done|]. split.
      + apply NoDup_app. split; [done|]. split; [|apply NoDup_singleton]. by intros m Hm ->%list_elem_of_singleton.
      + intros m y Hy Hne. apply elem_of_app. destruct (Hcbs m y Hy Hne) as [->|(z & Hz & Hnz')]; [right; by left|].
        left. by eapply Hall.
    - apply Forall_app. split; [done|]. by apply Forall_singleton.
    - cbn [log add_event set_list set_state]. unfold scheduled_nodes, called_nodes in *. cbn. by rewrite Hn, app_assoc. }
  destruct l as [|p l0] eqn:El using rev_ind; [|clear IHl0].
  - cbn in Htail. rewrite Htail. apply wp_bind, wp_modify, wp_bind, wp_modify, wp_bind, wp_modify, wp_ret.
    apply (Hend (<[n := MkNode cb None]> (nodes s)) (Some n)).
    + cbn. split; [done|]. exists (MkNode cb None). by rewrite lookup_insert_eq.
    + intros m y. destruct (decide (n = m)) as [->|Hne]; [by left|]. rewrite lookup_insert_ne by done. eauto.
    + intros m Hm. destruct (decide (n = m)) as [->|Hne]; [by rewrite lookup_insert_eq|by rewrite lookup_insert_ne].
  - destruct p as [t tcb]. rewrite last_snoc in Htail. cbn in Htail. rewrite Htail.
    assert (t <> n) as Htn. { intros ->. apply Hnl. rewrite fmap_app. apply elem_of_app. right. by left. }
    assert (exists y, nodes s !! t = Some y /\ callback y <> 0) as (y & Hy & Hyc).
    { apply (linked_get _ _ _ _ Hg). rewrite fmap_app. apply elem_of_app. right. by left. }
    apply wp_bind, wp_bind. unfold wp at 1, get_node. cbn [set_list set_state nodes]. rewrite lookup_insert_ne, Hy by done.
    cbn [mbind option_bind]. apply wp_bind. unfold wp at 1, get_node. cbn [set_list set_state nodes].
    rewrite lookup_insert_ne, Hy by done. cbn [mbind option_bind].
    apply wp_modify, wp_bind, wp_modify, wp_bind, wp_modify, wp_ret.
    apply (Hend (<[t := MkNode (callback y) (Some n)]> (<[n := MkNode cb None]> (nodes s))) (sched_head s)).
    + by apply (linked_snoc _ _ _ _ _ _ tcb).
    + intros m z. destruct (decide (t = m)) as [->|Hne]; [rewrite lookup_insert_eq; right; by exists y|].
      rewrite lookup_insert_ne by done. destruct (decide (n = m)) as [->|Hne']; [by left|].
      rewrite lookup_insert_ne by done. eauto.
    + intros m Hm. destruct (decide (t = m)) as [->|Hne]; [by rewrite lookup_insert_eq|]. rewrite lookup_insert_ne by done.
      destruct (decide (n = m)) as [->|Hne']; [by rewrite lookup_insert_eq|by rewrite lookup_insert_ne].
Qed.

End Rules.

Lemma head_empty s items l : good s items l ->
  (match sched_head s with Some _ => true | None => false end) = negb (bool_decide (l = [])).
Proof.
  intros [_ (Hl & _) _ _ _]. destruct l as [|[n cb] l]; cbn in Hl; [by rewrite Hl|]. by destruct Hl as [-> _].
Qed.

Lemma len_empty s items l : good s items l -> (sched_len s =? 0) = bool_decide (items = []).
Proof. intros [(Hlen & _) _ _ _ _]. destruct items; [by rewrite Hlen|]. rewrite Hlen. cbn. apply Z.eqb_neq. lia. Qed.

Lemma wp_mp_sched_lock s items l k (Q : unit -> sched_t -> Prop) : state_ok s k items l -> Z.of_nat k < 2 ^ 15 - 1 ->
  (forall v, state_ok (set_state v s) (S k) items l -> Q tt (set_state v s)) -> wp mp_sched_lock s Q.
Proof.
  intros Hs Hk HQ. apply wp_bind. unfold wp at 1, get. unfold state_ok in Hs.
  destruct (Z.ltb_spec (sched_state s) 0) as [E|E]; apply wp_modify, HQ; unfold state_ok; cbn [set_state sched_state].
  - destruct k; [rewrite Hs in E; by destruct items, l|]. rewrite Hs. unfold s16. rewrite swrap_small; lia.
  - destruct k; [done|]. rewrite Hs in E. lia.
Qed.

Lemma wp_mp_sched_unlock s items l k (Q : unit -> sched_t -> Prop) : good s items l -> state_ok s (S k) items l ->
  Z.of_nat k < 2 ^ 15 - 1 ->
  (forall v, state_ok (set_state v s) k items l -> Q tt (set_state v s)) -> wp mp_sched_unlock s Q.
Proof.
  intros Hg Hs Hk HQ. apply wp_bind. unfold wp at 1, get. unfold state_ok in Hs.
  apply wp_bind, wp_assert; [apply Z.ltb_lt; lia|]. cbv zeta.
  assert (s16 (sched_state s + 1) = - Z.of_nat k) as E by (unfold s16; rewrite Hs, swrap_small; lia).
  apply wp_bind, wp_modify. rewrite E. destruct k as [|k].
  - change (- Z.of_nat 0) with 0. cbn [Z.eqb].
    rewrite (head_empty _ _ _ Hg), (len_empty _ _ _ Hg).
    assert (forall v, set_state v (set_state 0 s) = set_state v s) as Hss by done.
    destruct items, l; cbn; apply wp_modify; rewrite Hss; by apply HQ.
  - rewrite (proj2 (Z.eqb_neq _ 0)) by lia. apply wp_ret, HQ. done.
Qed.

(** Removing the first node. *)
Lemma list_ok_remove s n cb l x : linked (nodes s) (sched_head s) ((n, cb) :: l) -> list_ok s ((n, cb) :: l) ->
  nodes s !! n = Some x -> forall s', sched_head s' = next x -> nodes s' = <[n := MkNode 0 (next x)]> (nodes s) ->
  sched_tail s' = match next x with None => None | Some _ => sched_tail s end -> list_ok s' l.
Proof.
  intros _ (Hl & Htail & Hnd & Hall) Hx s' Hh Hns Ht. cbn in Hl, Hnd. destruct Hl as (_ & y & Hy & _ & Hl).
  assert (y = x) as -> by congruence. apply NoDup_cons in Hnd as [Hn Hnd].
  split; [|split; [|split; [done|]]].
  - rewrite Hh, Hns. eapply linked_ext; [|exact Hl]. intros m Hm. rewrite lookup_insert_ne; [done|]. by intros ->.
  - rewrite Ht. destruct l as [|[m mcb] l]; cbn in Hl; [by rewrite Hl|]. destruct Hl as [-> _]. exact Htail.
  - intros m z. rewrite Hns. destruct (decide (n = m)) as [->|Hne].
    + rewrite lookup_insert_eq. by intros [= <-].
    + rewrite lookup_insert_ne by done. intros Hz Hc. specialize (Hall m z Hz Hc). cbn in Hall.
      by apply elem_of_cons in Hall as [->|].
Qed.

Lemma wp_take_node s items n cb l t (Q : phase -> sched_t -> Prop) : good s items ((n, cb) :: l) ->
  (forall s', good s' items l -> sched_state s' = sched_state s -> log s' = CalledNode n cb :: log s ->
     (forall m, is_Some (nodes s !! m) -> is_Some (nodes s' !! m)) -> Q (InNode t n) s') -> wp (take_node t) s Q.
Proof.
  intros Hg HQ. pose proof Hg as [Hr Hlist Hnz Hf Hn]. pose proof Hlist as (Hl & Htail & Hnd & Hall).
  pose proof Hl as Hl'. cbn in Hl'. destruct Hl' as (Hh & x & Hx & Hcb & Hnext).
  apply wp_bind. unfold wp at 1, get. rewrite Hh. apply wp_bind. unfold wp at 1, get_node. rewrite Hx.
  cbn [mbind option_bind]. cbv zeta. apply wp_bind, wp_modify, wp_bind, wp_bind.
  unfold wp at 1, get_node. cbn [set_list nodes]. rewrite Hx. cbn [mbind option_bind].
  apply wp_modify, wp_bind, wp_modify, wp_ret, HQ; [|done|cbn; by rewrite Hcb|].
  - apply Forall_cons in Hnz as [Hcb0 Hnz]. split; [exact Hr| |done|exact Hf|].
    + eapply (list_ok_remove s n cb l x); done.
    + cbn [log add_event set_list]. unfold scheduled_nodes, called_nodes in *. cbn. by rewrite Hn, Hcb, <-app_assoc.
  - intros m Hm. cbn. destruct (decide (n = m)) as [->|Hne]; [by rewrite lookup_insert_eq|by rewrite lookup_insert_ne].
Qed.

Lemma wp_take_function s items l (Q : phase -> sched_t -> Prop) : good s items l ->
  (items = [] -> Q Unlocking s) ->
  (forall s' x items', items = x :: items' -> good s' items' l -> sched_state s' = sched_state s ->
     log s' = CalledFunction x :: log s -> nodes s' = nodes s -> Q InFunction s') -> wp take_function s Q.
Proof.
  intros Hg Hempty HQ. pose proof Hg as [Hr Hlist Hnz Hf Hn]. apply wp_bind. unfold wp at 1, get. unfold mp_sched_empty.
  rewrite (len_empty _ _ _ Hg). destruct items as [|x items]; [by apply wp_ret, Hempty|]. cbn [negb bool_decide].
  rewrite bool_decide_false by done. cbn [negb].
  destruct (ring_remove s x items Hr) as [Hx Hr']. rewrite Hx.
  apply wp_bind, wp_modify, wp_bind, wp_modify, wp_ret. apply (HQ _ x items); [done| |done|done|done].
  split; [exact Hr'|exact Hlist|done| |exact Hn].
  cbn [log add_event set_queue]. unfold scheduled_functions, called_functions in *. cbn. by rewrite Hf, <-app_assoc.
Qed.

Lemma wp_mp_handle_pending s items l raise_exc (Q : bool -> sched_t -> Prop) : good s items l ->
  (forall s' b, good s' items l -> sched_state s' = sched_state s -> (b = true -> sched_state s = MP_SCHED_PENDING) ->
     called_functions (log s') = called_functions (log s) -> called_nodes (log s') = called_nodes (log s) ->
     scheduled_functions (log s') = scheduled_functions (log s) -> nodes s' = nodes s ->
     (mp_pending_exception s = 0 -> b = (sched_state s =? MP_SCHED_PENDING)) -> Q b s') ->
  wp (mp_handle_pending raise_exc) s Q.
Proof.
  intros Hg HQ. apply wp_bind. unfold wp at 1, get. cbv zeta.
  assert (forall b, b = (sched_state s =? MP_SCHED_PENDING) -> Q b s) as Hsame.
  { intros b ->. apply HQ; try done. by intros ->%Z.eqb_eq. }
  destruct (Z.eqb_spec (mp_pending_exception s) 0); cbn [negb]; [by apply wp_ret, Hsame|].
  destruct Hg as [Hr Hl Hnz Hf Hn]. apply wp_bind, wp_modify. destruct raise_exc.
  - apply wp_bind, wp_modify, wp_ret, HQ; try done.
  - apply wp_bind. unfold wp at 1, get. apply wp_ret, HQ; try done. intros E; by apply Z.eqb_eq in E.
Qed.

(** ** Callbacks are called once, in order, and eventually

    The invariant of the machine of Scheduler, for every interleaving of
    interrupts, polling and callbacks, and what follows from it. *)

(** The invocations that hold a lock: all but those that have not entered yet. *)
Definition holding (cs : list phase) : nat :=
  match cs with [] | [Entering] => 0%nat | _ => 1%nat end.

Lemma holding_le cs : (holding cs <= 1)%nat.
Proof. destruct cs as [|[] []]; cbn; lia. Qed.

(** At most one invocation is active; while it calls nodes, the last node it will
    call is the current one or is still in the list. *)
Definition calls_ok (cs : list phase) (l : list (nat * Z)) : Prop :=
  match cs with
  | [] | [Entering] | [InFunction] | [Unlocking] => True
  | [InNode t n] => n = t \/ t ∈ l.*1
  | _ => False
  end.

Definition minv (m : machine) : Prop :=
  Z.of_nat (locks m) <= 2 ^ 14 /\
  exists items l, good (sched m) items l /\ state_ok (sched m) (locks m + holding (calls m)) items l /\
    calls_ok (calls m) l.

Definition fns (m : machine) : nat := length (called_functions (log (sched m))).

(** Python callbacks called in runs that have not ended. *)
Definition in_progress (cs : list phase) : nat :=
  match cs with InFunction :: _ | Unlocking :: _ => 1%nat | _ => 0%nat end.

(** What every step keeps: the logs grow, the nodes stay, and every run calls a
    Python callback if there is one. *)
Record advances (m m' : machine) : Prop := {
  ad_scheduled : exists e, scheduled_functions (log (sched m')) = scheduled_functions (log (sched m)) ++ e;
  ad_called : exists e, called_functions (log (sched m')) = called_functions (log (sched m)) ++ e;
  ad_nodes : forall n, is_Some (nodes (sched m) !! n) -> is_Some (nodes (sched m') !! n);
  ad_runs : (runs m + in_progress (calls m) + fns m' <= runs m' + in_progress (calls m') + fns m)%nat /\
    ((fns m < length (scheduled_functions (log (sched m))))%nat ->
     (runs m' + in_progress (calls m') + fns m = runs m + in_progress (calls m) + fns m')%nat);
}.

(** The nodes that the run in progress will still call. *)
Definition remaining (cs : list phase) (l : list (nat * Z)) (r : nat) : Prop :=
  match cs with
  | [InNode t n] => if decide (n = t) then r = 0%nat else exists i, l.*1 !! i = Some t /\ r = S i
  | _ => r = 0%nat
  end.

Definition nds (m : machine) : nat := length (called_nodes (log (sched m))).

(** The number of nodes the run in progress will still call is [r]. *)
Definition to_call (m : machine) (r : nat) : Prop :=
  exists items l, good (sched m) items l /\ remaining (calls m) l r.

(** Calls of nodes use up the rest of the batch, unless a run begins or ends. *)
Definition batch (m m' : machine) : Prop :=
  (runs m <= runs m')%nat /\
  (runs m' = runs m -> holding (calls m) = 1%nat -> holding (calls m') = 1%nat /\
   forall r, to_call m r -> exists r', to_call m' r' /\ (nds m' + r' <= nds m + r)%nat).

Lemma run_wp {A} (c : Ms A) s a s' (Q : A -> sched_t -> Prop) : c s = Some (a, s') -> wp c s Q -> Q a s'.
Proof. intros Hc Hwp. unfold wp in Hwp. by rewrite Hc in Hwp. Qed.

(** The log determines the two queues. *)
Lemma good_unique s items l items' l' : good s items l -> good s items' l' -> items' = items /\ l' = l.
Proof.
  intros [_ _ _ Hf Hn] [_ _ _ Hf' Hn']. rewrite Hf in Hf'. rewrite Hn in Hn'.
  by apply app_inv_head in Hf', Hn'.
Qed.

Lemma to_call_inv m r items l : to_call m r -> good (sched m) items l -> remaining (calls m) l r.
Proof. intros (items' & l' & Hg' & Hr) Hg. by destruct (good_unique _ _ _ _ _ Hg Hg') as [_ ->]. Qed.

(** ** Every step keeps the invariant *)

Section Steps.
Context (s : sched_t) (items : list mp_sched_item_t) (l : list (nat * Z)).
Context (Hg : good s items l).

Lemma pending_count : (length (called_functions (log s)) < length (scheduled_functions (log s)))%nat <-> items <> [].
Proof using Hg.
  rewrite (g_functions _ _ _ Hg), length_app. destruct items; cbn; [|by split; [|lia]].
  split; [lia|done].
Qed.

(** Taking the next step of a run: the Python callback, or nothing. *)
Lemma function_step cs0 k r p s' : take_function s = Some (p, s') -> sched_state s = - Z.of_nat (k + 1) ->
  Z.of_nat k <= 2 ^ 14 -> in_progress cs0 = 0%nat ->
  minv (MkMachine s' [p] k r) /\ advances (MkMachine s cs0 k r) (MkMachine s' [p] k r) /\
  nodes s' = nodes s /\ called_nodes (log s') = called_nodes (log s) /\ (p = InFunction \/ p = Unlocking).
Proof using Hg.
  intros Hrun Hst Hk Hcs.
  refine (run_wp _ _ _ _ (fun p s' => minv (MkMachine s' [p] k r) /\ advances (MkMachine s cs0 k r) (MkMachine s' [p] k r) /\
    nodes s' = nodes s /\ called_nodes (log s') = called_nodes (log s) /\ (p = InFunction \/ p = Unlocking)) Hrun _).
  apply (wp_take_function _ items l); [exact Hg| |].
  - intros Hi. split; [|split; [|split; [done|split; [done|by right]]]].
    + split; [done|]. exists items, l. split; [exact Hg|]. split; [|done]. unfold state_ok. cbn.
      destruct (k + 1)%nat eqn:E; [lia|]. done.
    + split; [by exists []; rewrite app_nil_r..|done|]. unfold fns. cbn. rewrite Hcs. split; [lia|].
      intros Hlt. exfalso. by apply pending_count in Hlt.
  - intros s1 x items' -> Hg1 Hst1 Hlog Hns. split; [|split; [|split; [done|]]].
    + split; [done|]. exists items', l. split; [done|]. split; [|done]. unfold state_ok. cbn. rewrite Hst1.
      destruct (k + 1)%nat eqn:E; [lia|]. done.
    + split; cbn; rewrite ?Hlog, ?Hns; [by exists []; rewrite app_nil_r|by exists [x]|done|].
      unfold fns. cbn. rewrite Hlog, Hcs. unfold called_functions. cbn. rewrite length_app. cbn. lia.
    + rewrite Hlog. split; [done|by left].
Qed.

Lemma node_step cs0 k r t p s' : take_node t s = Some (p, s') -> sched_state s = - Z.of_nat (k + 1) ->
  Z.of_nat k <= 2 ^ 14 -> t ∈ l.*1 -> in_progress cs0 = 0%nat ->
  minv (MkMachine s' [p] k r) /\ advances (MkMachine s cs0 k r) (MkMachine s' [p] k r) /\
  length (called_nodes (log s')) = S (length (called_nodes (log s))) /\
  exists n cb l', l = (n, cb) :: l' /\ p = InNode t n /\ good s' items l'.
Proof using Hg.
  intros Hrun Hst Hk Ht Hcs. destruct l as [|[n cb] l']; [by apply not_elem_of_nil in Ht|].
  refine (run_wp _ _ _ _ (fun p s' => minv (MkMachine s' [p] k r) /\ advances (MkMachine s cs0 k r) (MkMachine s' [p] k r) /\
    length (called_nodes (log s')) = S (length (called_nodes (log s))) /\
    exists n' cb' l'', (n, cb) :: l' = (n', cb') :: l'' /\ p = InNode t n' /\ good s' items l'') Hrun _).
  apply (wp_take_node _ items n cb l'); [exact Hg|]. intros s1 Hg1 Hst1 Hlog Hns.
  split; [|split; [|split]].
  - split; [done|]. exists items, l'. split; [done|]. split.
    + unfold state_ok. cbn. rewrite Hst1. destruct (k + 1)%nat eqn:E; [lia|]. done.
    + cbn in Ht |- *. apply elem_of_cons in Ht as [->|Ht]; [by left|by right].
  - split; cbn; rewrite ?Hlog; [by exists []; rewrite app_nil_r..|done|]. unfold fns. cbn. rewrite Hlog, Hcs. unfold called_functions. cbn. lia.
  - rewrite Hlog. unfold called_nodes. cbn. rewrite length_app. cbn. lia.
  - by exists n, cb, l'.
Qed.

End Steps.

Definition keeps (m m' : machine) : Prop := minv m' /\ advances m m' /\ batch m m'.

(** A step that only adds to the queues. *)
Lemma quiet_step s s' items l ei el cs k k' r :
  good s items l -> calls_ok cs l -> Z.of_nat k' <= 2 ^ 14 ->
  good s' (items ++ ei) (l ++ el) -> state_ok s' (k' + holding cs) (items ++ ei) (l ++ el) ->
  called_functions (log s') = called_functions (log s) -> called_nodes (log s') = called_nodes (log s) ->
  (forall n, is_Some (nodes s !! n) -> is_Some (nodes s' !! n)) ->
  keeps (MkMachine s cs k r) (MkMachine s' cs k' r).
Proof.
  intros Hg Hc Hk Hg' Hs' Hcf Hcn Hns. split; [|split].
  - split; [done|]. exists (items ++ ei), (l ++ el). split; [done|]. split; [done|]. cbn.
    destruct cs as [|[|t n| |] [|p0 cs]]; cbn in Hc |- *; try done. destruct Hc as [->|Hc]; [by left|right].
    rewrite fmap_app. apply elem_of_app. by left.
  - split; cbn; [|exists []; by rewrite app_nil_r|done|unfold fns; cbn; rewrite Hcf; lia].
    exists ei. by rewrite (g_functions _ _ _ Hg), (g_functions _ _ _ Hg'), Hcf, app_assoc.
  - split; [done|]. intros _ Hh. split; [done|]. intros q Hq. pose proof (to_call_inv _ _ items l Hq Hg) as Hrem. exists q.
    unfold nds. cbn. rewrite Hcn. split; [|lia]. exists (items ++ ei), (l ++ el). split; [done|]. cbn in Hrem |- *.
    destruct cs as [|[|t n| |] [|p0 cs]]; cbn in Hrem |- *; try done. destruct (decide _); [done|].
    destruct Hrem as (i & Hi & ->). exists i. split; [|done]. rewrite fmap_app. by apply lookup_app_l_Some.
Qed.

(** The scheduling calls, in any state. *)
Lemma schedule_keeps s cs k r f a b s' : minv (MkMachine s cs k r) ->
  mp_sched_schedule f a s = Some (b, s') -> keeps (MkMachine s cs k r) (MkMachine s' cs k r).
Proof.
  intros (Hk & items & l & Hg & Hs & Hc) Hrun.
  refine (run_wp _ _ _ _ (fun _ s' => keeps (MkMachine s cs k r) (MkMachine s' cs k r)) Hrun _).
  apply (wp_mp_sched_schedule _ items l _ Hg Hs).
  - intros s1 _ Hg1 Hs1 Hlog Hns. rewrite <-(app_nil_r l) in Hg1, Hs1.
    eapply quiet_step; try done; by rewrite ?Hlog, ?Hns.
  - intros _. apply (quiet_step _ _ items l [] []); rewrite ?app_nil_r; done.
Qed.

Lemma schedule_node_keeps s cs k r n cb b s' : minv (MkMachine s cs k r) -> cb <> 0 ->
  mp_sched_schedule_node n cb s = Some (b, s') -> keeps (MkMachine s cs k r) (MkMachine s' cs k r).
Proof.
  intros (Hk & items & l & Hg & Hs & Hc) Hcb Hrun. cbn in Hg, Hs, Hc.
  destruct (nodes s !! n) as [x|] eqn:Hx; [|by unfold mp_sched_schedule_node, get_node, mbind, M_bind in Hrun; cbn in Hrun; rewrite Hx in Hrun].
  refine (run_wp _ _ _ _ (fun _ s' => keeps (MkMachine s cs k r) (MkMachine s' cs k r)) Hrun _).
  apply (wp_mp_sched_schedule_node _ items l _ Hg Hs _ _ x); [done|done| |].
  - intros s1 _ Hg1 Hs1 Hlog Hns. rewrite <-(app_nil_r items) in Hg1, Hs1.
    eapply quiet_step; try done; by rewrite Hlog.
  - intros _. apply (quiet_step _ _ items l [] []); rewrite ?app_nil_r; done.
Qed.

Lemma exception_keeps s cs k r e s' : minv (MkMachine s cs k r) ->
  mp_sched_exception e s = Some (tt, s') -> keeps (MkMachine s cs k r) (MkMachine s' cs k r).
Proof.
  intros (Hk & items & l & Hg & Hs & Hc) [= <-].
  apply (quiet_step _ _ items l [] []); rewrite ?app_nil_r; try done. by destruct Hg; split.
Qed.

Lemma lock_keeps s cs k r s' : minv (MkMachine s cs k r) -> Z.of_nat k < 2 ^ 14 ->
  mp_sched_lock s = Some (tt, s') -> keeps (MkMachine s cs k r) (MkMachine s' cs (S k) r).
Proof.
  intros (Hk & items & l & Hg & Hs & Hc) Hlt Hrun. cbn [sched calls locks runs] in *.
  refine (run_wp _ _ _ _ (fun _ s' => keeps (MkMachine s cs k r) (MkMachine s' cs (S k) r)) Hrun _).
  apply (wp_mp_sched_lock _ items l _ _ Hs); [cbn; pose proof (holding_le cs); lia|].
  intros v Hv. apply (quiet_step _ _ items l [] []); rewrite ?app_nil_r; try done; [lia|by apply good_set_state].
Qed.

Lemma unlock_keeps s cs k r s' : minv (MkMachine s cs (S k) r) ->
  mp_sched_unlock s = Some (tt, s') -> keeps (MkMachine s cs (S k) r) (MkMachine s' cs k r).
Proof.
  intros (Hk & items & l & Hg & Hs & Hc) Hrun. cbn [sched calls locks runs Nat.add] in *.
  refine (run_wp _ _ _ _ (fun _ s' => keeps (MkMachine s cs (S k) r) (MkMachine s' cs k r)) Hrun _).
  apply (wp_mp_sched_unlock _ items l _ _ Hg Hs); [cbn; pose proof (holding_le cs); lia|].
  intros v Hv. apply (quiet_step _ _ items l [] []); rewrite ?app_nil_r; try done; [lia|by apply good_set_state].
Qed.

Lemma handle_keeps s cs k r raise_exc (b : bool) s' : minv (MkMachine s cs k r) -> code_running cs = true ->
  mp_handle_pending raise_exc s = Some (b, s') ->
  keeps (MkMachine s cs k r) (MkMachine s' (if b then Entering :: cs else cs) k r).
Proof.
  intros (Hk & items & l & Hg & Hs & Hc) Hcode Hrun. cbn [sched calls locks runs] in *.
  refine (run_wp _ _ _ _ (fun b s' => keeps (MkMachine s cs k r) (MkMachine s' (if b : bool then Entering :: cs else cs) k r)) Hrun _).
  apply (wp_mp_handle_pending _ items l _ _ Hg). intros s1 b1 Hg1 Hst Hb Hcf Hcn Hsf Hns _.
  assert (state_ok s1 (k + holding cs) items l) as Hs1 by (unfold state_ok in *; by rewrite Hst).
  destruct b1.
  - specialize (Hb eq_refl). unfold state_ok in Hs. rewrite Hb in Hs.
    destruct (k + holding cs)%nat eqn:E; [|unfold MP_SCHED_PENDING in Hs; lia].
    destruct cs as [|p cs]; [|by exfalso; destruct p, cs; cbn in *; (lia || done)].
    split; [|split].
    + split; [done|]. exists items, l. cbn. rewrite <-E in Hs1. by rewrite Nat.add_0_r in *.
    + split; cbn; rewrite ?Hcf, ?Hsf, ?Hns; [by exists []; rewrite app_nil_r..|done|unfold fns; cbn; rewrite Hcf; lia].
    + split; [done|]. intros _. by cbn.
  - apply (quiet_step _ _ items l [] []); rewrite ?app_nil_r; try done. by rewrite Hns.
Qed.

Lemma enter_run_eq s : enter_run s =
  if negb (sched_state s =? MP_SCHED_PENDING) then Some (None, s)
  else match (match sched_tail s with Some t => take_node t | None => take_function end) (set_state MP_SCHED_LOCKED s) with
       | Some (p, s') => Some (Some p, s') | None => None end.
Proof. unfold enter_run, get, modify, mbind, M_bind. cbn. by destruct (negb _), (sched_tail s). Qed.

Lemma enter_keeps s cs k r p s' : minv (MkMachine s (Entering :: cs) k r) -> enter_run s = Some (p, s') ->
  keeps (MkMachine s (Entering :: cs) k r) (MkMachine s' (match p with Some p => p :: cs | None => cs end) k r) /\
  (forall p', p = Some p' -> holding (p' :: cs) = 1%nat /\ exists q, to_call (MkMachine s' (p' :: cs) k r) q /\
     (length (called_nodes (log s')) + q <= length (scheduled_nodes (log s)))%nat).
Proof.
  intros (Hk & items & l & Hg & Hs & Hc) Hrun. cbn [sched calls locks runs] in *. destruct cs; [|done].
  rewrite enter_run_eq in Hrun. cbn in Hs. rewrite Nat.add_0_r in Hs.
  destruct (Z.eqb_spec (sched_state s) MP_SCHED_PENDING) as [E|E]; cbn [negb] in Hrun.
  2: { injection Hrun as <- <-. split; [|done]. split; [|split].
    - split; [done|]. exists items, l. cbn. by rewrite Nat.add_0_r.
    - split; cbn; [by exists []; rewrite app_nil_r..|done|unfold fns; cbn; lia].
    - split; [done|]. intros _. by cbn. }
  assert (k = 0%nat) as ->. { destruct k; [done|]. unfold state_ok in Hs. rewrite Hs in E. unfold MP_SCHED_PENDING in E. lia. }
  pose proof (good_set_state _ _ _ MP_SCHED_LOCKED Hg) as Hg0. set (s0 := set_state MP_SCHED_LOCKED s) in *.
  assert (forall m', minv m' -> advances (MkMachine s0 [Entering] 0 r) m' -> runs m' = r ->
    keeps (MkMachine s [Entering] 0 r) m') as Hkeep.
  { intros m' Hm [H1 H2 H3 H4] Hr. split; [done|]. split; [by split|]. split; [by rewrite Hr|]. intros _. by cbn. }
  pose proof (g_list _ _ _ Hg0) as (Hl & Htail & _). pose proof (g_nodes _ _ _ Hg) as Hn. cbn in Hl, Htail.
  destruct l as [|[n cb] l].
  - cbn in Htail. rewrite Htail in Hrun. destruct (take_function s0) as [[p1 s1]|] eqn:Hf; [|done]. injection Hrun as <- <-.
    destruct (function_step s0 items [] Hg0 [Entering] 0 r p1 s1 Hf eq_refl Hk eq_refl) as (Hm & Ha & _ & Hcn & Hp).
    split; [by apply Hkeep|]. intros p' [= <-]. split; [by destruct Hp as [->| ->]|].
    destruct Hm as (_ & items1 & l1 & Hg1 & _ & Hc1). exists 0%nat. split.
    + exists items1, l1. split; [done|]. by destruct Hp as [->| ->].
    + change (log s0) with (log s) in Hcn. rewrite Hcn, Hn, length_app. lia.
  - assert (exists t, fst <$> last ((n, cb) :: l) = Some t /\ t ∈ ((n, cb) :: l).*1) as (t & Ht & Hin).
    { destruct ((n, cb) :: l) as [|q l0] eqn:El using rev_ind; [done|]. rewrite last_snoc. exists q.1. split; [done|].
      rewrite fmap_app. apply elem_of_app. right. by left. }
    rewrite Ht in Htail. rewrite Htail in Hrun.
    destruct (take_node t s0) as [[p1 s1]|] eqn:Hf; [|done]. injection Hrun as <- <-.
    destruct (node_step s0 items _ Hg0 [Entering] 0 r t p1 s1 Hf eq_refl Hk Hin eq_refl)
      as (Hm & Ha & Hcn & n' & cb' & l' & [= <- <- <-] & -> & Hg1).
    split; [by apply Hkeep|]. intros p' [= <-]. split; [done|]. change (log s0) with (log s) in Hcn.
    rewrite Hcn, Hn, length_app. cbn [length].
    cbn in Hin. destruct (decide (n = t)) as [->|Hne].
    + exists 0%nat. split; [exists items, l; split; [done|]; cbn; by rewrite decide_True|lia].
    + apply elem_of_cons in Hin as [->|Hin]; [done|]. apply list_elem_of_lookup in Hin as (i & Hi).
      exists (S i). pose proof (lookup_lt_Some _ _ _ Hi) as Hlt. rewrite length_fmap in Hlt.
      split; [exists items, l; split; [done|]; cbn; rewrite decide_False by done; by exists i|lia].
Qed.

Lemma after_node_keeps s cs k r t n p s' : minv (MkMachine s (InNode t n :: cs) k r) -> after_node t n s = Some (p, s') ->
  keeps (MkMachine s (InNode t n :: cs) k r) (MkMachine s' (p :: cs) k r).
Proof.
  intros (Hk & items & l & Hg & Hs & Hc) Hrun. cbn [sched calls locks runs] in *. destruct cs; [|done].
  assert (sched_state s = - Z.of_nat (k + 1)) as Hst.
  { unfold state_ok in Hs. cbn in Hs. destruct (k + 1)%nat eqn:E; [lia|]. done. }
  cbn in Hc. unfold after_node in Hrun. destruct (Nat.eqb_spec n t) as [->|Hne]; cbn [negb] in Hrun.
  - destruct (function_step s items l Hg [InNode t t] k r p s' Hrun Hst Hk eq_refl) as (Hm & Ha & _ & Hcn & Hp).
    split; [done|]. split; [done|]. split; [done|]. intros _ _. cbn. split; [by destruct Hp as [->| ->]|].
    intros q _. destruct Hm as (_ & items1 & l1 & Hg1 & _ & Hc1). exists 0%nat. split.
    + exists items1, l1. split; [done|]. by destruct Hp as [->| ->].
    + unfold nds. cbn. rewrite Hcn. lia.
  - assert (t ∈ l.*1) as Hin by (destruct Hc; [done|done]).
    destruct (node_step s items l Hg [InNode t n] k r t p s' Hrun Hst Hk Hin eq_refl)
      as (Hm & Ha & Hcn & n' & cb' & l' & -> & -> & Hg1).
    split; [done|]. split; [done|]. split; [done|]. intros _ _. split; [done|]. intros q Hq.
    apply (to_call_inv _ _ items ((n', cb') :: l')) in Hq; [|done]. cbn in Hq. rewrite decide_False in Hq by done.
    destruct Hq as (i & Hi & ->). unfold nds. cbn. rewrite Hcn. destruct (decide (n' = t)) as [->|Hne'].
    + exists 0%nat. split; [|lia]. exists items, l'. split; [done|]. cbn. by rewrite decide_True.
    + destruct i as [|i]; [cbn in Hi; congruence|]. exists (S i). split; [|lia].
      exists items, l'. split; [done|]. cbn. rewrite decide_False by done. by exists i.
Qed.

Lemma after_function_keeps s cs k r : minv (MkMachine s (InFunction :: cs) k r) ->
  keeps (MkMachine s (InFunction :: cs) k r) (MkMachine s (Unlocking :: cs) k r).
Proof.
  intros (Hk & items & l & Hg & Hs & Hc). cbn [sched calls locks runs] in *. destruct cs; [|done].
  split; [|split].
  - split; [done|]. by exists items, l.
  - split; cbn; [by exists []; rewrite app_nil_r..|done|unfold fns; cbn; lia].
  - split; [done|]. intros _ _. split; [done|]. intros q Hq. exists q. split; [|unfold nds; cbn; lia].
    apply (to_call_inv _ _ items l) in Hq; [|done]. by exists items, l.
Qed.

Lemma finish_keeps s cs k r s' : minv (MkMachine s (Unlocking :: cs) k r) -> mp_sched_unlock s = Some (tt, s') ->
  keeps (MkMachine s (Unlocking :: cs) k r) (MkMachine s' cs k (S r)).
Proof.
  intros (Hk & items & l & Hg & Hs & Hc) Hrun. cbn [sched calls locks runs] in *. destruct cs; [|done].
  cbn in Hs. rewrite Nat.add_1_r in Hs.
  refine (run_wp _ _ _ _ (fun _ s' => keeps (MkMachine s [Unlocking] k r) (MkMachine s' [] k (S r))) Hrun _).
  apply (wp_mp_sched_unlock _ items l _ _ Hg Hs); [lia|]. intros v Hv. split; [|split].
  - split; [done|]. exists items, l. cbn. rewrite Nat.add_0_r. split; [by apply good_set_state|done].
  - split; cbn; [by exists []; rewrite app_nil_r..|done|unfold fns; cbn; fold (called_functions (log s)); lia].
  - split; [cbn; lia|]. cbn. lia.
Qed.

Lemma step_keeps m m' : minv m -> step m m' -> keeps m m'.
Proof.
  intros Hm Hstep. destruct Hstep;
    eauto using schedule_keeps, schedule_node_keeps, exception_keeps, lock_keeps, unlock_keeps, handle_keeps,
      after_node_keeps, after_function_keeps, finish_keeps.
  eapply enter_keeps; eauto.
Qed.

(** ** Many steps *)

Lemma steps_minv m m' : minv m -> steps m m' -> minv m'.
Proof. intros Hm Hs. induction Hs as [|m m1 m2 H1 _ IH]; [done|]. apply IH, (step_keeps _ _ Hm H1). Qed.

Lemma initial_minv ns : (forall n x, ns !! n = Some x -> callback x = 0) -> minv (initial ns).
Proof.
  intros Hns. split; [done|]. exists [], []. split; [|done]. split; try done.
  - split; [done|]. split; [cbn; lia|]. split; [done|]. split; [done|]. intros i x. by rewrite lookup_nil.
  - split; [done|]. split; [done|]. split; [apply NoDup_nil_2|]. intros n x Hx Hc. by rewrite (Hns n x Hx) in Hc.
Qed.

(** Steps from a state that satisfies the invariant, by induction on them. *)
Lemma steps_advance m m' : minv m -> steps m m' ->
  (exists e, scheduled_functions (log (sched m')) = scheduled_functions (log (sched m)) ++ e) /\
  (exists e, called_functions (log (sched m')) = called_functions (log (sched m)) ++ e) /\
  (runs m <= runs m')%nat.
Proof.
  intros Hm Hs. revert Hm. induction Hs as [m|m m1 m2 H1 _ IH]; intros Hm.
  - split; [by exists []; rewrite app_nil_r|]. split; [by exists []; rewrite app_nil_r|done].
  - destruct (step_keeps _ _ Hm H1) as (Hm1 & [(e1 & E1) (e2 & E2) _ _] & (Hr & _)).
    destruct (IH Hm1) as ((e3 & E3) & (e4 & E4) & Hr'). rewrite E3, E1, E4, E2, <-!app_assoc.
    split; [by eexists|]. split; [by eexists|]. lia.
Qed.

(** The number of calls follows the number of runs until item [i] has been called. *)
Lemma steps_progress i m m' : minv m -> steps m m' -> (i < length (scheduled_functions (log (sched m))))%nat ->
  (i < fns m')%nat \/ (fns m' + runs m + in_progress (calls m) = fns m + runs m' + in_progress (calls m'))%nat.
Proof.
  intros Hm Hs. revert Hm. induction Hs as [m|m m1 m2 H1 Hs IH]; intros Hm Hi; [right; lia|].
  destruct (step_keeps _ _ Hm H1) as (Hm1 & [(e1 & E1) (e2 & E2) _ (_ & Hadv)] & _).
  destruct (IH Hm1) as [?|E]; [rewrite E1, length_app; lia|by left|].
  destruct (decide (i < fns m)%nat) as [Hlt|Hge].
  - left. destruct (steps_advance _ _ Hm1 Hs) as (_ & (e3 & E3) & _).
    unfold fns in *. rewrite E3, E2, !length_app. lia.
  - right. specialize (Hadv ltac:(lia)). lia.
Qed.

(** Never more than one call of a Python callback for a run. *)
Lemma steps_one m m' : minv m -> steps m m' ->
  (runs m + in_progress (calls m) + fns m' <= runs m' + in_progress (calls m') + fns m)%nat.
Proof.
  intros Hm Hs. revert Hm. induction Hs as [m|m m1 m2 H1 Hs IH]; intros Hm; [lia|].
  destruct (step_keeps _ _ Hm H1) as (Hm1 & [_ _ _ (Hle & _)] & _). specialize (IH Hm1). lia.
Qed.

(** A run in progress stays within its batch. *)
Lemma steps_batch m m' r : minv m -> steps m m' -> runs m' = runs m -> holding (calls m) = 1%nat -> to_call m r ->
  holding (calls m') = 1%nat /\ exists r', to_call m' r' /\ (nds m' + r' <= nds m + r)%nat.
Proof.
  intros Hm Hs. revert r Hm. induction Hs as [m|m m1 m2 H1 Hs IH]; intros r Hm Hr Hh Hto; [split; [done|by exists r]|].
  destruct (step_keeps _ _ Hm H1) as (Hm1 & _ & (Hr1 & Hb)). destruct (steps_advance _ _ Hm1 Hs) as (_ & _ & Hr2).
  destruct (Hb ltac:(lia) Hh) as [Hh1 Hnext]. destruct (Hnext r Hto) as (r1 & Hto1 & Hle1).
  destruct (IH r1 Hm1 ltac:(lia) Hh1 Hto1) as (Hh2 & r2 & Hto2 & Hle2). split; [done|]. exists r2. split; [done|lia].
Qed.
