(* ===== verification/SchedulerTheorems.v ===== *)
(** * What the scheduler promises

    The theorems about every execution of the machine of Scheduler that starts
    with empty queues: the state is consistent, no section gets stuck, a run is
    bounded, and every callback is called, in order. *)
From S2P Require Import Prelude.
From S2P Require Import CMem.
From S2P Require Import Scheduler.
From S2P Require Import SchedulerFacts.
Local Open Scope Z_scope.

(** Static nodes that are not queued. *)
Definition unqueued (ns : gmap nat mp_sched_node_t) : Prop := forall n x, ns !! n = Some x -> callback x = 0.

(** The section returns: no null pointer, no index out of range, no failed assertion. *)
Definition returns {A} (c : Ms A) (s : sched_t) : Prop := exists a s', c s = Some (a, s').

Lemma wp_returns {A} (c : Ms A) s : wp c s (fun _ _ => True) -> returns c s.
Proof. unfold wp, returns. destruct (c s) as [[a s']|]; [eauto|done]. Qed.

Lemma reachable_minv ns m : unqueued ns -> steps (initial ns) m -> minv m.
Proof. intros Hns. apply steps_minv. by apply initial_minv. Qed.

(** ** No section gets stuck *)

Section Returns.
Context (m : machine) (Hm : minv m).

Lemma schedule_returns f a : returns (mp_sched_schedule f a) (sched m).
Proof using Hm. destruct Hm as (_ & items & l & Hg & Hs & _). by apply wp_returns, (wp_mp_sched_schedule _ items l _ Hg Hs). Qed.

Lemma schedule_node_returns n cb : cb <> 0 -> is_Some (nodes (sched m) !! n) -> returns (mp_sched_schedule_node n cb) (sched m).
Proof using Hm.
  intros Hcb [x Hx]. destruct Hm as (_ & items & l & Hg & Hs & _).
  by apply wp_returns, (wp_mp_sched_schedule_node _ items l _ Hg Hs _ _ x).
Qed.

Lemma unlock_returns : (locks m + holding (calls m) <> 0)%nat -> returns mp_sched_unlock (sched m).
Proof using Hm.
  intros Hne. destruct Hm as (Hk & items & l & Hg & Hs & _). pose proof (holding_le (calls m)).
  destruct (locks m + holding (calls m))%nat as [|k] eqn:E; [done|].
  apply wp_returns, (wp_mp_sched_unlock _ items l k _ Hg Hs); [lia|done].
Qed.

Lemma handle_returns raise_exc : returns (mp_handle_pending raise_exc) (sched m).
Proof using Hm. destruct Hm as (_ & items & l & Hg & _). by apply wp_returns, (wp_mp_handle_pending _ items l _ _ Hg). Qed.

Lemma take_function_returns s items l : good s items l -> returns take_function s.
Proof. intros Hg. by apply wp_returns, (wp_take_function _ items l _ Hg). Qed.

Lemma take_node_returns t s items l : good s items l -> l <> [] -> returns (take_node t) s.
Proof. intros Hg Hne. destruct l as [|[n cb] l]; [done|]. by apply wp_returns, (wp_take_node _ items n cb l _ _ Hg). Qed.

Lemma enter_returns : returns enter_run (sched m).
Proof using Hm.
  destruct Hm as (_ & items & l & Hg & _). unfold returns. rewrite enter_run_eq.
  destruct (negb _); [by eexists _, _|]. pose proof (good_set_state _ _ _ MP_SCHED_LOCKED Hg) as Hg0.
  pose proof (g_list _ _ _ Hg) as (_ & Ht & _). destruct (sched_tail (sched m)) as [t|].
  - destruct (take_node_returns t _ _ _ Hg0) as (p & s' & ->); [by intros ->|]. by eexists _, _.
  - destruct (take_function_returns _ _ _ Hg0) as (p & s' & ->). by eexists _, _.
Qed.

Lemma after_node_returns t n : calls m = [InNode t n] -> returns (after_node t n) (sched m).
Proof using Hm.
  destruct Hm as (_ & items & l & Hg & _ & Hc). intros E. rewrite E in Hc. cbn in Hc. unfold after_node.
  destruct (Nat.eqb_spec n t); cbn [negb]; [by eapply take_function_returns|].
  destruct Hc as [?|Hc]; [done|]. apply (take_node_returns _ _ _ _ Hg). intros ->. by apply not_elem_of_nil in Hc.
Qed.

End Returns.

(** ** A run ends *)

Lemma function_ends m : minv m -> calls m = [InFunction] \/ calls m = [Unlocking] ->
  exists m', steps m m' /\ runs m' = S (runs m) /\ calls m' = [] /\ locks m' = locks m.
Proof.
  intros Hm Hcase. destruct (unlock_returns m Hm) as ([] & s' & Hu); [destruct Hcase as [E|E]; rewrite E; cbn; lia|].
  destruct m as [s cs k r]. cbn in *. exists (MkMachine s' [] k (S r)).
  split; [|done]. destruct Hcase as [-> | ->].
  - eapply rtc_l; [apply step_after_function|]. by apply rtc_once, step_finish.
  - by apply rtc_once, step_finish.
Qed.

Lemma calls_cases m : minv m -> holding (calls m) = 1%nat ->
  (calls m = [InFunction] \/ calls m = [Unlocking]) \/ exists t n, calls m = [InNode t n].
Proof.
  intros (_ & items & l & _ & _ & Hc) Hh. destruct (calls m) as [|[|t n| |] [|]]; try done; eauto.
Qed.

Lemma run_ends r : forall m, minv m -> holding (calls m) = 1%nat -> to_call m r ->
  exists m', steps m m' /\ runs m' = S (runs m) /\ calls m' = [] /\ locks m' = locks m.
Proof.
  induction (lt_wf r) as [r _ IH]. intros m Hm Hh Hto.
  destruct (calls_cases m Hm Hh) as [Hcase|(t & n & E)]; [by apply function_ends|].
  destruct (after_node_returns m Hm t n E) as (p & s' & Hrun). destruct m as [s cs k r0]. cbn in E, Hrun, Hh. subst cs.
  destruct (after_node_keeps s [] k r0 t n p s' Hm Hrun) as (Hm' & _ & _ & Hb).
  destruct (Hb eq_refl eq_refl) as [Hh' Hnext]. destruct (Hnext r Hto) as (r1 & Hto1 & Hle).
  assert (exists m', steps (MkMachine s' [p] k r0) m' /\ runs m' = S r0 /\ calls m' = [] /\ locks m' = k) as (m' & Hs & Hm1).
  2: { exists m'. split; [|done]. eapply rtc_l; [by apply step_after_node|done]. }
  destruct Hm as (Hk & items & l & Hg & Hst & Hc). cbn in Hg, Hst, Hc.
  unfold after_node in Hrun. destruct (Nat.eqb_spec n t) as [->|Hne]; cbn [negb] in Hrun.
  - apply (function_ends (MkMachine s' [p] k r0) Hm'). cbn.
    apply (run_wp _ _ _ _ (fun p _ => [p] = [InFunction] \/ [p] = [Unlocking]) Hrun).
    apply (wp_take_function _ items l _ Hg); [by right|]. intros; by left.
  - assert (t ∈ l.*1) as Hin by (destruct Hc; done).
    assert (length (called_nodes (log s')) = S (length (called_nodes (log s)))) as Hcn.
    { apply (node_step s items l Hg [InNode t n] k r0 t p s' Hrun); [|done|done|done].
      unfold state_ok in Hst. destruct (k + 1)%nat eqn:Ek; [lia|done]. }
    unfold nds in Hle. cbn in Hle. rewrite Hcn in Hle.
    by apply (IH r1 ltac:(lia) (MkMachine s' [p] k r0)).
Qed.

Lemma handle_pending_eq s : exists s', mp_handle_pending false s = Some (sched_state s =? MP_SCHED_PENDING, s') /\
  sched_state s' = sched_state s.
Proof.
  unfold mp_handle_pending, get, modify, mbind, M_bind, mret, M_ret. destruct (negb _); [|by exists s].
  by exists (set_exception 0 s).
Qed.

Lemma enter_pending m : minv m -> sched_state (sched m) = MP_SCHED_PENDING ->
  exists p s', enter_run (sched m) = Some (Some p, s').
Proof.
  intros Hm Hp. destruct (enter_returns m Hm) as (p & s' & He). rewrite He. rewrite enter_run_eq, Hp in He. cbn in He.
  destruct (match sched_tail _ with Some t => take_node t | None => take_function end _) as [[q s1]|]; [|done].
  injection He as <- _. by eexists _, _.
Qed.

(** Polling an unlocked scheduler with something to do makes a whole run. *)
Lemma poll_runs m : minv m -> calls m = [] -> locks m = 0%nat ->
  (fns m < length (scheduled_functions (log (sched m))))%nat ->
  exists m', steps m m' /\ runs m' = S (runs m) /\ calls m' = [] /\ locks m' = 0%nat.
Proof.
  intros Hm Hc Hl Hlt. pose proof Hm as (Hk & items & l & Hg & Hst & _). destruct m as [s cs k r]. cbn in *. subst cs k.
  apply (pending_count _ _ _ Hg) in Hlt. assert (sched_state s = MP_SCHED_PENDING) as Hp.
  { unfold state_ok in Hst. cbn in Hst. by destruct items. }
  destruct (handle_pending_eq s) as (s1 & Hh & Hp1). rewrite Hp in Hh, Hp1.
  destruct (handle_keeps _ _ _ _ _ _ _ Hm eq_refl Hh) as (Hm1 & _). cbn in Hm1.
  destruct (enter_pending _ Hm1 Hp1) as (p & s2 & He). cbn in He.
  destruct (enter_keeps _ _ _ _ _ _ Hm1 He) as ((Hm2 & _ & _) & Hto). destruct (Hto p eq_refl) as (Hh2 & q & Hq & _).
  destruct (run_ends q _ Hm2 Hh2 Hq) as (m' & Hs & Hr & Hc & Hl). exists m'. split; [|by cbn in *].
  eapply rtc_l; [by apply (step_handle s [] 0 r false true)|]. eapply rtc_l; [by apply (step_enter s1 [] 0 r)|]. done.
Qed.

(** A scheduled callback that has had enough runs has been called. *)
Lemma enough_runs i x m m' : minv m -> calls m = [] -> scheduled_functions (log (sched m)) !! i = Some x -> steps m m' ->
  (runs m + (i - fns m) < runs m')%nat -> called_functions (log (sched m')) !! i = Some x.
Proof.
  intros Hm Hc Hi Hs Hr. pose proof (steps_minv _ _ Hm Hs) as (_ & items & l & Hg & _).
  destruct (steps_advance _ _ Hm Hs) as ((e & Hsf) & _ & _).
  assert (scheduled_functions (log (sched m')) !! i = Some x) as Hi' by (rewrite Hsf; by apply lookup_app_l_Some).
  assert (i < fns m')%nat as Hlt.
  { destruct (steps_progress i m m' Hm Hs (lookup_lt_Some _ _ _ Hi)) as [?|E]; [done|]. rewrite Hc in E. cbn in E. lia. }
  rewrite (g_functions _ _ _ Hg), lookup_app_l in Hi' by exact Hlt. done.
Qed.

Lemma runs_suffice n : forall i x m, minv m -> calls m = [] -> locks m = 0%nat -> (n = i - fns m)%nat ->
  scheduled_functions (log (sched m)) !! i = Some x -> exists m', steps m m' /\ called_functions (log (sched m')) !! i = Some x.
Proof.
  induction n as [n IH] using lt_wf_ind. intros i x m Hm Hc Hl Hn Hi.
  destruct (decide (i < fns m)%nat) as [Hlt|Hge].
  - exists m. split; [apply rtc_refl|]. destruct Hm as (_ & items & l & Hg & _).
    by rewrite (g_functions _ _ _ Hg), lookup_app_l in Hi by exact Hlt.
  - pose proof (lookup_lt_Some _ _ _ Hi) as Hlen. destruct (poll_runs m Hm Hc Hl ltac:(lia)) as (m1 & Hs & Hr & Hc1 & Hl1).
    destruct (steps_progress (fns m) m m1 Hm Hs ltac:(lia)) as [Hp|Hp]; [|rewrite Hc, Hc1 in Hp; cbn in Hp].
    all: destruct (steps_advance _ _ Hm Hs) as ((e & Hsf) & _ & _).
    all: assert (scheduled_functions (log (sched m1)) !! i = Some x) as Hi1 by (rewrite Hsf; by apply lookup_app_l_Some).
    all: destruct n as [|n]; [exists m1; split; [done|]; apply (enough_runs i x m); (done || lia)|].
    all: destruct (IH (i - fns m1)%nat ltac:(lia) i x m1) as (m2 & Hs2 & Hcall); try done; [by apply (steps_minv _ _ Hm)|].
    all: exists m2; split; [by etrans|done].
Qed.

(** ** The theorems *)

(** C18: In every state that interrupts, polling and callbacks can reach, the
    callbacks accepted are the ones called, in the order of scheduling, followed
    by the ones in the queue: [sched_len] of them and at most 8 Python callbacks,
    and the nodes with a callback, none twice.  At most one invocation of
    [mp_sched_run_pending] is active, and [sched_state] is minus the number of
    locks, the active invocation's included, or without locks pending exactly
    when something is queued. *)
Theorem scheduler_invariant ns m : unqueued ns -> steps (initial ns) m ->
  exists items l,
    scheduled_functions (log (sched m)) = called_functions (log (sched m)) ++ items /\
    sched_len (sched m) = Z.of_nat (length items) /\ (length items <= 8)%nat /\
    scheduled_nodes (log (sched m)) = called_nodes (log (sched m)) ++ l /\ NoDup l.*1 /\
    (forall n x, nodes (sched m) !! n = Some x -> (callback x <> 0 <-> n ∈ l.*1)) /\
    (length (calls m) <= 1)%nat /\
    sched_state (sched m) =
      match (locks m + holding (calls m))%nat with
      | O => match items, l with [], [] => MP_SCHED_IDLE | _, _ => MP_SCHED_PENDING end
      | k => - Z.of_nat k
      end.
Proof.
  intros Hns Hs. destruct (reachable_minv _ _ Hns Hs) as (_ & items & l & Hg & Hst & Hc).
  exists items, l. pose proof (g_ring _ _ _ Hg) as (Hlen & Hle & _). pose proof (g_list _ _ _ Hg) as (_ & _ & Hnd & Hall).
  split; [apply Hg|]. split; [done|]. split; [done|]. split; [apply Hg|]. split; [done|].
  split; [|split; [|unfold state_ok in Hst; by destruct (locks m + holding (calls m))%nat]].
  - intros n x Hx. split; [by apply Hall|]. intros Hin. destruct (linked_get _ _ _ _ Hg Hin) as (y & Hy & Hne). congruence.
  - destruct (calls m) as [|[] []]; cbn; try done; lia.
Qed.

(** One static node, which schedules itself again while it runs; two Python
    callbacks. *)
Definition demo_nodes : gmap nat mp_sched_node_t := {[ 3%nat := MkNode 0 None ]}.

Lemma demo_unqueued : unqueued demo_nodes.
Proof. intros n x. unfold demo_nodes. by intros [<- <-]%lookup_singleton_Some. Defined.

(** Everything is scheduled; then the interpreter has polled. *)
Definition demo_ready (cs : list phase) : machine :=
  MkMachine
    (MkSched 0 (MkItem 10 1 :: MkItem 20 2 :: replicate 6 (MkItem 0 0)) 2 0 (Some 3%nat) (Some 3%nat)
       {[ 3%nat := MkNode 7 None ]} 0 [Scheduled (MkItem 20 2); ScheduledNode 3 7; Scheduled (MkItem 10 1)])
    cs 0 0.
Definition demo_polled : machine := demo_ready [Entering].

Lemma demo_reaches_ready : steps (initial demo_nodes) (demo_ready []).
Proof.
  eapply rtc_l; [eapply (step_schedule _ _ _ _ 10 1); vm_compute; reflexivity|].
  eapply rtc_l; [eapply (step_schedule_node _ _ _ _ 3 7); [done|vm_compute; reflexivity]|].
  apply rtc_once. eapply (step_schedule _ _ _ _ 20 2); vm_compute; reflexivity.
Defined.

Lemma demo_reaches : steps (initial demo_nodes) demo_polled.
Proof.
  eapply rtc_r; [exact demo_reaches_ready|]. eapply (step_handle _ [] 0 0 true true); vm_compute; reflexivity.
Defined.

(** The state in the first callback, after it has scheduled its node again, and
    in the Python callback that follows. *)
Definition demo_entered : sched_t :=
  MkSched (-1) (MkItem 10 1 :: MkItem 20 2 :: replicate 6 (MkItem 0 0)) 2 0 None None {[ 3%nat := MkNode 0 None ]} 0
    [CalledNode 3 7; Scheduled (MkItem 20 2); ScheduledNode 3 7; Scheduled (MkItem 10 1)].
Definition demo_calling : machine :=
  MkMachine
    (MkSched (-1) (MkItem 10 1 :: MkItem 20 2 :: replicate 6 (MkItem 0 0)) 1 1 (Some 3%nat) (Some 3%nat)
       {[ 3%nat := MkNode 7 None ]} 0
       [CalledFunction (MkItem 10 1); ScheduledNode 3 7; CalledNode 3 7;
        Scheduled (MkItem 20 2); ScheduledNode 3 7; Scheduled (MkItem 10 1)])
    [InFunction] 0 0.

Lemma demo_continues : steps (MkMachine demo_entered [InNode 3 3] 0 0) demo_calling.
Proof.
  eapply rtc_l; [eapply (step_schedule_node _ _ _ _ 3 7); [done|vm_compute; reflexivity]|].
  apply rtc_once. eapply (step_after_node _ []); vm_compute; reflexivity.
Defined.

Lemma scheduler_invariant_witness : exists items l,
  scheduled_functions (log (sched demo_polled)) = called_functions (log (sched demo_polled)) ++ items /\
  scheduled_nodes (log (sched demo_polled)) = called_nodes (log (sched demo_polled)) ++ l.
Proof.
  destruct (scheduler_invariant demo_nodes demo_polled demo_unqueued demo_reaches) as (items & l & H1 & _ & _ & H2 & _).
  exists items, l. exact (conj H1 H2).
Defined.

(** C20: In every reachable state every section of the scheduler returns: no null
    or dangling node is followed, the ring is indexed within bounds, and the
    assertion of [mp_sched_unlock] holds whenever a lock is held. *)
Theorem scheduler_never_stuck ns m : unqueued ns -> steps (initial ns) m ->
  (forall f a, returns (mp_sched_schedule f a) (sched m)) /\
  (forall n cb, cb <> 0 -> is_Some (nodes (sched m) !! n) -> returns (mp_sched_schedule_node n cb) (sched m)) /\
  (locks m <> 0%nat \/ calls m = [Unlocking] -> returns mp_sched_unlock (sched m)) /\
  (forall raise_exc, returns (mp_handle_pending raise_exc) (sched m)) /\
  returns enter_run (sched m) /\
  (forall t n, calls m = [InNode t n] -> returns (after_node t n) (sched m)).
Proof.
  intros Hns Hs. pose proof (reachable_minv _ _ Hns Hs) as Hm.
  split; [by apply schedule_returns|]. split; [by apply schedule_node_returns|].
  split; [intros Hl; apply (unlock_returns m Hm); destruct Hl as [Hl| ->]; cbn; lia|].
  split; [by apply handle_returns|]. split; [by apply enter_returns|]. by apply after_node_returns.
Qed.

Lemma scheduler_never_stuck_witness : returns enter_run (sched demo_polled).
Proof. exact (proj1 (proj2 (proj2 (proj2 (proj2 (scheduler_never_stuck demo_nodes demo_polled demo_unqueued demo_reaches)))))). Defined.

(** C17: A scheduled Python callback is called, and callbacks are called in the
    order of scheduling: between two runs, the [i]-th callback ever scheduled has
    been the [i]-th to be called after as many more complete runs as there are
    callbacks up to it in the queue, whatever is scheduled, locked and raised
    meanwhile; and when the scheduler is not locked, polling gets there. *)
Theorem scheduled_callback_is_called ns m i x : unqueued ns -> steps (initial ns) m -> calls m = [] ->
  scheduled_functions (log (sched m)) !! i = Some x ->
  (forall m', steps m m' -> (runs m + (i - length (called_functions (log (sched m)))) < runs m')%nat ->
     called_functions (log (sched m')) !! i = Some x) /\
  (locks m = 0%nat -> exists m', steps m m' /\ called_functions (log (sched m')) !! i = Some x).
Proof.
  intros Hns Hs Hc Hi. pose proof (reachable_minv _ _ Hns Hs) as Hm. split.
  - intros m' Hs' Hr. by apply (enough_runs i x m).
  - intros Hl. by apply (runs_suffice (i - fns m) i x m).
Qed.

Lemma scheduled_callback_is_called_witness :
  exists m', steps (demo_ready []) m' /\ called_functions (log (sched m')) !! 1%nat = Some (MkItem 20 2).
Proof.
  exact (proj2 (scheduled_callback_is_called demo_nodes (demo_ready []) 1 (MkItem 20 2) demo_unqueued demo_reaches_ready
    eq_refl eq_refl) eq_refl).
Defined.

(** C19: A run is bounded: from the moment it enters until it ends it calls no
    node that was not queued when it entered, so a node that schedules itself
    again cannot keep it busy, and at most one Python callback; and when it calls
    something it can always be brought to its end. *)
Theorem run_is_bounded ns m p s' m' : unqueued ns -> steps (initial ns) m -> calls m = [Entering] ->
  enter_run (sched m) = Some (Some p, s') -> steps (MkMachine s' [p] (locks m) (runs m)) m' -> runs m' = runs m ->
  (length (called_nodes (log (sched m'))) <= length (scheduled_nodes (log (sched m))))%nat /\
  (length (called_functions (log (sched m'))) <= S (length (called_functions (log (sched m)))))%nat /\
  exists m'', steps m' m'' /\ runs m'' = S (runs m) /\ calls m'' = [].
Proof.
  intros Hns Hs Hc Hrun Hs' Hr. pose proof (reachable_minv _ _ Hns Hs) as Hm. destruct m as [s cs k r]. cbn in *. subst cs.
  destruct (enter_keeps _ _ _ _ _ _ Hm Hrun) as ((Hm1 & Ha & _) & Hto). destruct (Hto p eq_refl) as (Hh & q & Hq & Hle).
  destruct (steps_batch _ _ _ Hm1 Hs' Hr Hh Hq) as (Hh' & q' & Hq' & Hle'). unfold nds in Hle'. cbn in Hle'.
  pose proof (steps_minv _ _ Hm1 Hs') as Hm'.
  split; [lia|]. split; [|destruct (run_ends q' m' Hm' Hh' Hq') as (m2 & ? & ? & ? & _); exists m2; split; [done|]; split; [lia|done]].
  pose proof (steps_one _ _ Hm1 Hs') as H1. destruct Ha as [_ _ _ (H0 & _)]. unfold fns in *. cbn in *.
  assert (in_progress (calls m') <= 1)%nat by (destruct (calls m') as [|[] ?]; cbn; lia). lia.
Qed.

Lemma run_is_bounded_witness : (length (called_nodes (log (sched demo_calling))) <= 1)%nat.
Proof.
  refine (proj1 (run_is_bounded demo_nodes demo_polled (InNode 3 3) demo_entered demo_calling demo_unqueued demo_reaches
    eq_refl _ demo_continues eq_refl)).
  vm_compute. reflexivity.
Defined.
