(* ===== verification/RingBuf.v ===== *)
(** * The ring buffer ([py/ringbuf.h], [py/ringbuf.c])

    A byte queue in an array: [iget] is where the next byte is read, [iput]
    where the next is written, and one slot is kept free.  The indices are
    [uint16_t].  The state of the operations is the [ringbuf_t] with its array;
    an access outside the array has no meaning ([None]).  Behind them is the
    bounded queue of bytes, and the proof that they refine it. *)
From S2P Require Import Prelude.
From S2P Require Import CMem.
Local Open Scope Z_scope.

Record ringbuf_t := MkRing { buf : list Z; size : Z; iget : Z; iput : Z }.

Definition Mr : Type -> Type := M ringbuf_t.

Definition set_iget (i : Z) (r : ringbuf_t) : ringbuf_t := MkRing (buf r) (size r) (u16 i) (iput r).
Definition set_iput (i : Z) (r : ringbuf_t) : ringbuf_t := MkRing (buf r) (size r) (iget r) (u16 i).

Definition get_byte (i : Z) : Mr Z :=
  fun r => v ← (if bool_decide (0 <= i) then buf r !! Z.to_nat i else None); Some (v, r).
Definition put_byte (i v : Z) : Mr unit :=
  _ ← get_byte i;
  modify (fun r => MkRing (<[Z.to_nat i := u8 v]> (buf r)) (size r) (iget r) (iput r)).

(** [memcpy(dst, r->buf + off, n)] and [memcpy(r->buf + off, src, n)]. *)
Definition memcpy_from (off n : Z) : Mr (list Z) :=
  fun r =>
    if bool_decide (0 <= off /\ 0 <= n /\ off + n <= Z.of_nat (length (buf r)))
    then Some (take (Z.to_nat n) (drop (Z.to_nat off) (buf r)), r) else None.
Definition memcpy_to (off : Z) (src : list Z) (n : Z) : Mr unit :=
  fun r =>
    if bool_decide (0 <= off /\ 0 <= n /\ off + n <= Z.of_nat (length (buf r)) /\ n <= Z.of_nat (length src))
    then Some (tt, MkRing (take (Z.to_nat off) (buf r) ++ take (Z.to_nat n) src ++ drop (Z.to_nat (off + n)) (buf r))
                     (size r) (iget r) (iput r))
    else None.

(** The array is [m_new] memory, with any contents. *)
Definition ringbuf_alloc (mem : list Z) : ringbuf_t := MkRing mem (u16 (Z.of_nat (length mem))) 0 0.

Definition ringbuf_get : Mr Z :=
  r ← get;
  if iget r =? iput r then mret (-1)
  else
    v ← get_byte (iget r);
    let i := u16 (iget r + 1) in
    modify (set_iget (if size r <=? i then 0 else i));;
    mret v.

Definition ringbuf_peek : Mr Z :=
  r ← get; if iget r =? iput r then mret (-1) else get_byte (iget r).

Definition ringbuf_put (v : Z) : Mr Z :=
  r ← get;
  let iput_new := iput r + 1 in
  let iput_new := if size r <=? iput_new then 0 else iput_new in
  if iput_new =? iget r then mret (-1)
  else put_byte (iput r) v;; modify (set_iput iput_new);; mret 0.

Definition ringbuf_free (r : ringbuf_t) : Z := Z.rem (size r + iget r - iput r - 1) (size r).
Definition ringbuf_avail (r : ringbuf_t) : Z := Z.rem (size r + iput r - iget r) (size r).

Definition ringbuf_memcpy_get_internal (data_len : Z) : Mr (list Z) :=
  r ← get;
  let iget_a := u32 (iget r + data_len) `mod` size r in
  '(head, i) ← (if iget_a <? iget r then
                  head ← memcpy_from (iget r) (size r - iget r); mret (head, 0)
                else mret ([], iget r));
  rest ← memcpy_from i (iget_a - i);
  modify (set_iget iget_a);;
  mret (head ++ rest).

Definition ringbuf_memcpy_put_internal (data : list Z) : Mr unit :=
  r ← get;
  let iput_a := u32 (iput r + Z.of_nat (length data)) `mod` size r in
  '(rest, i) ← (if iput_a <? iput r then
                  memcpy_to (iput r) data (size r - iput r);;
                  mret (drop (Z.to_nat (size r - iput r)) data, 0)
                else mret (data, iput r));
  memcpy_to i rest (iput_a - i);;
  modify (set_iput iput_a).

Definition ringbuf_peek16 : Mr Z :=
  r ← get;
  if iget r =? iput r then mret (-1)
  else
    let iget_a := iget r + 1 in
    let iget_a := if iget_a =? size r then 0 else iget_a in
    if iget_a =? iput r then mret (-1)
    else
      hi ← get_byte (iget r);
      lo ← get_byte iget_a;
      mret (Z.lor (Z.shiftl hi 8) lo).

Definition ringbuf_get16 : Mr Z :=
  v ← ringbuf_peek16;
  if v =? -1 then mret v
  else
    r ← get;
    let i := u16 (iget r + 2) in
    modify (set_iget i);;
    modify (set_iget (if size r <=? i then i - size r else i));;
    mret v.

Definition ringbuf_put16 (v : Z) : Mr Z :=
  r ← get;
  let iput_a := iput r + 1 in
  let iput_a := if iput_a =? size r then 0 else iput_a in
  if iput_a =? iget r then mret (-1)
  else
    let iput_b := iput_a + 1 in
    let iput_b := if iput_b =? size r then 0 else iput_b in
    if iput_b =? iget r then mret (-1)
    else
      put_byte (iput r) (Z.land (Z.shiftr v 8) 255);;
      put_byte iput_a (Z.land v 255);;
      modify (set_iput iput_b);;
      mret 0.

(** The bytes copied out and the status: 0, -1 (try again) or -2 (never). *)
Definition ringbuf_get_bytes (data_len : Z) : Mr (Z * list Z) :=
  r ← get;
  if ringbuf_avail r <? data_len then mret (if size r <=? data_len then -2 else -1, [])
  else data ← ringbuf_memcpy_get_internal data_len; mret (0, data).

Definition ringbuf_put_bytes (data : list Z) : Mr Z :=
  r ← get;
  if ringbuf_free r <? Z.of_nat (length data) then
    mret (if size r <=? Z.of_nat (length data) then -2 else -1)
  else ringbuf_memcpy_put_internal data;; mret 0.

(** ** The ring buffer is a bounded queue

    [ring_ops] runs a sequence of operations on the array and [queue_ops] the
    same on a list of at most [size - 1] bytes; the results are the same. *)

(** ** The abstract queue *)

Inductive ring_op :=
  | Put (v : Z) | Get | Peek
  | Put16 (v : Z) | Get16 | Peek16
  | PutBytes (data : list Z) | GetBytes (n : Z)
  | Avail | Free.

Definition hi_byte (v : Z) : Z := Z.land (Z.shiftr v 8) 255.
Definition lo_byte (v : Z) : Z := Z.land v 255.

(** One operation on the queue [q] of a buffer of [n] bytes: the value
    returned, the bytes copied out, and the queue after it. *)
Definition queue_op (n : Z) (op : ring_op) (q : list Z) : Z * list Z * list Z :=
  let len := Z.of_nat (length q) in
  match op with
  | Put v => if len =? n - 1 then (-1, [], q) else (0, [], q ++ [v])
  | Get => match q with [] => (-1, [], q) | v :: q => (v, [], q) end
  | Peek => match q with [] => (-1, [], q) | v :: _ => (v, [], q) end
  | Put16 v => if n - 1 - len <? 2 then (-1, [], q) else (0, [], q ++ [hi_byte v; lo_byte v])
  | Get16 => match q with h :: l :: q' => (256 * h + l, [], q') | _ => (-1, [], q) end
  | Peek16 => match q with h :: l :: _ => (256 * h + l, [], q) | _ => (-1, [], q) end
  | PutBytes data =>
      if n - 1 - len <? Z.of_nat (length data) then (if n <=? Z.of_nat (length data) then -2 else -1, [], q)
      else (0, [], q ++ data)
  | GetBytes k =>
      if len <? k then (if n <=? k then -2 else -1, [], q)
      else (0, take (Z.to_nat k) q, drop (Z.to_nat k) q)
  | Avail => (len, [], q)
  | Free => (n - 1 - len, [], q)
  end.

Fixpoint queue_ops (n : Z) (ops : list ring_op) (q : list Z) : list (Z * list Z) :=
  match ops with
  | [] => []
  | op :: ops => let '(v, d, q) := queue_op n op q in (v, d) :: queue_ops n ops q
  end.

Definition ring_op_run (op : ring_op) : Mr (Z * list Z) :=
  match op with
  | Put v => r ← ringbuf_put v; mret (r, [])
  | Get => r ← ringbuf_get; mret (r, [])
  | Peek => r ← ringbuf_peek; mret (r, [])
  | Put16 v => r ← ringbuf_put16 v; mret (r, [])
  | Get16 => r ← ringbuf_get16; mret (r, [])
  | Peek16 => r ← ringbuf_peek16; mret (r, [])
  | PutBytes data => r ← ringbuf_put_bytes data; mret (r, [])
  | GetBytes n => ringbuf_get_bytes n
  | Avail => r ← get; mret (ringbuf_avail r, [])
  | Free => r ← get; mret (ringbuf_free r, [])
  end.

Fixpoint ring_ops (ops : list ring_op) : Mr (list (Z * list Z)) :=
  match ops with
  | [] => mret []
  | op :: ops => r ← ring_op_run op; rs ← ring_ops ops; mret (r :: rs)
  end.

Definition ring_op_ok (op : ring_op) : Prop :=
  match op with
  | Put v => is_byte v
  | Put16 v => 0 <= v < 65536
  | PutBytes data => Forall is_byte data /\ Z.of_nat (length data) < 2 ^ 31
  | GetBytes n => 0 <= n < 2 ^ 31
  | _ => True
  end.

(** ** The queue in the array *)

Definition pos (n i j : Z) : Z := (i + j) `mod` n.

Definition byte_of (r : ringbuf_t) (i : Z) : option Z := buf r !! Z.to_nat i.

Record holds (n : Z) (q : list Z) (r : ringbuf_t) : Prop := {
  h_size : size r = n;
  h_len : Z.of_nat (length (buf r)) = n;
  h_iget : 0 <= iget r < n;
  h_iput : iput r = pos n (iget r) (Z.of_nat (length q));
  h_room : Z.of_nat (length q) < n;
  h_bytes : Forall is_byte q;
  h_data : forall i v, q !! i = Some v -> byte_of r (pos n (iget r) (Z.of_nat i)) = Some v }.

Lemma lookup_splice {A} (l src : list A) (o i : nat) : (o + length src <= length l)%nat ->
  (take o l ++ src ++ drop (o + length src) l) !! i =
  if decide (o <= i < o + length src)%nat then src !! (i - o)%nat else l !! i.
Proof.
  intros Hl. assert (length (take o l) = o) as Ho by (rewrite length_take; lia).
  destruct (decide (i < o)%nat) as [Hi|Hi].
  - rewrite decide_False by lia. rewrite lookup_app_l by lia. by rewrite lookup_take_lt by lia.
  - rewrite lookup_app_r, Ho by lia. destruct (decide (i < o + length src)%nat).
    + rewrite decide_True by lia. by rewrite lookup_app_l by lia.
    + rewrite decide_False by lia. rewrite lookup_app_r, lookup_drop by lia. f_equal. lia.
Qed.

Lemma length_splice {A} (l src : list A) (o : nat) : (o + length src <= length l)%nat ->
  length (take o l ++ src ++ drop (o + length src) l) = length l.
Proof. intros Hl. rewrite !length_app, length_take, length_drop. lia. Qed.

Section Ring.
Context (n : Z) (Hn : 1 <= n < 65535).

Lemma pos_range i j : 0 <= pos n i j < n.
Proof. apply Z.mod_pos_bound. lia. Qed.

Lemma pos_inj i j k : 0 <= j < n -> 0 <= k < n -> pos n i j = pos n i k -> j = k.
Proof.
  intros Hj Hk He. unfold pos in He.
  assert ((j - k) `mod` n = 0) as Hm.
  { replace (j - k) with ((i + j) - (i + k)) by lia. rewrite Zminus_mod, He, Z.sub_diag. by apply Z.mod_0_l; lia. }
  apply Z.mod_divide in Hm as [z Hz]; [|lia]. assert (z = 0) by nia. lia.
Qed.

Lemma pos_0 i : 0 <= i < n -> pos n i 0 = i.
Proof. intros Hi. unfold pos. rewrite Z.add_0_r. by apply Z.mod_small. Qed.

Lemma pos_pos i j k : pos n (pos n i j) k = pos n i (j + k).
Proof. unfold pos. rewrite Z.add_mod_idemp_l by lia. f_equal. lia. Qed.

(** The step from an index to the next, as the code computes it. *)
Lemma pos_next i : 0 <= i < n -> pos n i 1 = if n <=? i + 1 then 0 else i + 1.
Proof.
  intros Hi. unfold pos. destruct (Z.leb_spec n (i + 1)).
  - replace (i + 1) with n by lia. apply Z.mod_same. lia.
  - apply Z.mod_small. lia.
Qed.

Lemma pos_next' i : 0 <= i < n -> pos n i 1 = if i + 1 =? n then 0 else i + 1.
Proof.
  intros Hi. rewrite pos_next by done. destruct (Z.leb_spec n (i + 1)), (Z.eqb_spec (i + 1) n); lia.
Qed.

Lemma holds_avail q r : holds n q r -> ringbuf_avail r = Z.of_nat (length q) /\
  ringbuf_free r = n - 1 - Z.of_nat (length q).
Proof.
  intros [Hs Hl Hg Hp Hr Hb Hd]. pose proof (pos_range (iget r) (Z.of_nat (length q))) as Hpr.
  unfold ringbuf_avail, ringbuf_free. rewrite Hs, Hp. rewrite !Z.rem_mod_nonneg by lia. unfold pos in *.
  pose proof (Z.div_mod (iget r + Z.of_nat (length q)) n ltac:(lia)) as Hdm.
  set (z := (iget r + Z.of_nat (length q)) / n) in *. assert (z = 0 \/ z = 1) as Hz by nia. split.
  - symmetry. apply (Z.mod_unique _ n (1 - z)); [lia|]. nia.
  - symmetry. apply (Z.mod_unique _ n z); [lia|]. nia.
Qed.

(** The two indices are equal exactly when the queue is empty, and the slot
    after the last byte is the first one exactly when it is full. *)
Lemma holds_empty q r : holds n q r -> (iget r =? iput r) = bool_decide (q = []).
Proof.
  intros [Hs Hl Hg Hp Hr Hb Hd]. destruct (Z.eqb_spec (iget r) (iput r)) as [He|He].
  - symmetry. apply bool_decide_true. rewrite Hp in He. rewrite <-(pos_0 (iget r)) in He at 1 by done.
    apply pos_inj in He; [|lia|lia]. destruct q; [done|cbn in He; lia].
  - symmetry. apply bool_decide_false. intros ->. destruct He. rewrite Hp. cbn. by rewrite pos_0.
Qed.

Lemma holds_meet q r k : holds n q r -> 0 <= k -> Z.of_nat (length q) + k <= n ->
  pos n (iput r) k = iget r -> (k = 0 /\ q = []) \/ Z.of_nat (length q) + k = n.
Proof.
  intros [Hs Hl Hg Hp Hr Hb Hd] Hk Hkn He. rewrite Hp, pos_pos in He.
  destruct (Z.eq_dec (Z.of_nat (length q) + k) n) as [|Hne]; [by right|left].
  rewrite <-(pos_0 (iget r)) in He at 2 by done. apply pos_inj in He; [|lia|lia].
  destruct q; cbn in He; [split; [lia|done]|lia].
Qed.

Lemma pos_full i : 0 <= i < n -> pos n i n = i.
Proof. intros Hi. unfold pos. replace (i + n) with (i + 1 * n) by lia. rewrite Z.mod_add by lia. by apply Z.mod_small. Qed.

Lemma wp_ring_byte r i v (Q : Z -> ringbuf_t -> Prop) : 0 <= i -> byte_of r i = Some v -> Q v r -> wp (get_byte i) r Q.
Proof. intros Hi Hv HQ. unfold wp, get_byte. rewrite bool_decide_true by done. unfold byte_of in Hv. by rewrite Hv. Qed.

(** Taking bytes out moves [iget]. *)
Lemma holds_drop q r k : holds n q r -> (k <= length q)%nat ->
  holds n (drop k q) (set_iget (pos n (iget r) (Z.of_nat k)) r).
Proof.
  intros [Hs Hl Hg Hp Hr Hb Hd] Hk. pose proof (pos_range (iget r) (Z.of_nat k)) as Hpr.
  assert (u16 (pos n (iget r) (Z.of_nat k)) = pos n (iget r) (Z.of_nat k)) as Hu by (apply uwrap_small; lia).
  split; cbn [set_iget size buf iget iput]; rewrite ?Hu; try done.
  - rewrite length_drop, pos_pos, Hp. f_equal. lia.
  - rewrite length_drop. lia.
  - by apply Forall_drop.
  - intros i v Hi. rewrite lookup_drop in Hi. rewrite pos_pos.
    replace (Z.of_nat k + Z.of_nat i) with (Z.of_nat (k + i)) by lia. by apply Hd.
Qed.

(** Adding bytes behind the queue: the array holds them from [iput] on and the
    bytes of the queue are untouched. *)
Lemma holds_app q r data b' : holds n q r -> Z.of_nat (length q) + Z.of_nat (length data) < n ->
  Forall is_byte data -> length b' = length (buf r) ->
  (forall j v, data !! j = Some v -> b' !! Z.to_nat (pos n (iput r) (Z.of_nat j)) = Some v) ->
  (forall p, 0 <= p < n -> (forall j, (j < length data)%nat -> p <> pos n (iput r) (Z.of_nat j)) ->
     b' !! Z.to_nat p = buf r !! Z.to_nat p) ->
  holds n (q ++ data) (set_iput (pos n (iput r) (Z.of_nat (length data))) (MkRing b' (size r) (iget r) (iput r))).
Proof.
  intros [Hs Hl Hg Hp Hr Hb Hd] Hroom Hdb Hlen Hnew Hold.
  pose proof (pos_range (iput r) (Z.of_nat (length data))) as Hpr.
  split; cbn [set_iput size buf iget iput]; try done.
  - lia.
  - rewrite uwrap_small by lia. rewrite Hp, pos_pos, length_app. f_equal. lia.
  - rewrite length_app. lia.
  - by apply Forall_app.
  - intros i v Hi. unfold byte_of. cbn [buf]. apply lookup_app_Some in Hi as [Hi|[Hge Hi]].
    + rewrite Hold; [by apply Hd|apply pos_range|]. intros j Hj He. rewrite Hp, pos_pos in He.
      pose proof (lookup_lt_Some _ _ _ Hi). apply pos_inj in He; lia.
    + replace (pos n (iget r) (Z.of_nat i)) with (pos n (iput r) (Z.of_nat (i - length q))); [by apply Hnew|].
      rewrite Hp, pos_pos. f_equal. lia.
Qed.

(** A position is the offset, wrapped at most once. *)
Lemma pos_cases i j : 0 <= i < n -> 0 <= j < n -> pos n i j = if i + j <? n then i + j else i + j - n.
Proof.
  intros Hi Hj. unfold pos. destruct (Z.ltb_spec (i + j) n); [apply Z.mod_small; lia|].
  symmetry. apply (Z.mod_unique _ n 1); lia.
Qed.

Definition step_ok (op : ring_op) (q : list Z) (r : ringbuf_t) : Prop :=
  wp (ring_op_run op) r (fun a r' => a = (queue_op n op q).1 /\ holds n (queue_op n op q).2 r').

Lemma head_byte q r v : holds n (v :: q) r -> byte_of r (iget r) = Some v.
Proof. intros Hh. rewrite <-(h_data _ _ _ Hh 0 v eq_refl). f_equal. symmetry. apply pos_0. by apply Hh. Qed.

Lemma holds_set_iget q r k i : holds n q r -> (k <= length q)%nat -> i = pos n (iget r) (Z.of_nat k) ->
  holds n (drop k q) (set_iget i r).
Proof. intros Hh Hk ->. by apply holds_drop. Qed.

Lemma ring_step_get q r : holds n q r -> step_ok Get q r.
Proof.
  intros Hh. unfold step_ok. cbn [ring_op_run]. apply wp_bind. unfold ringbuf_get. apply wp_bind. unfold wp at 1, get.
  rewrite (holds_empty _ _ Hh). destruct q as [|v q].
  - rewrite bool_decide_true by done. by apply wp_ret, wp_ret.
  - rewrite bool_decide_false by done. pose proof (h_iget _ _ _ Hh) as Hg.
    apply wp_bind, (wp_ring_byte _ _ v); [lia|by eapply head_byte|]. apply wp_bind, wp_modify, wp_ret, wp_ret.
    split; [done|]. cbn [queue_op snd]. rewrite (uwrap_small 16) by lia.
    apply (holds_set_iget (v :: q) r 1); [done|cbn; lia|]. rewrite (h_size _ _ _ Hh). symmetry. by apply pos_next.
Qed.

Lemma step_peek q r : holds n q r -> step_ok Peek q r.
Proof.
  intros Hh. unfold step_ok. cbn [ring_op_run]. apply wp_bind. unfold ringbuf_peek. apply wp_bind. unfold wp at 1, get.
  rewrite (holds_empty _ _ Hh). destruct q as [|v q].
  - rewrite bool_decide_true by done. by apply wp_ret, wp_ret.
  - rewrite bool_decide_false by done. pose proof (h_iget _ _ _ Hh) as Hg.
    apply (wp_ring_byte _ _ v); [lia|by eapply head_byte|]. by apply wp_ret.
Qed.

Lemma wp_put_byte r i v (Q : unit -> ringbuf_t -> Prop) : 0 <= i < Z.of_nat (length (buf r)) ->
  Q tt (MkRing (<[Z.to_nat i := u8 v]> (buf r)) (size r) (iget r) (iput r)) -> wp (put_byte i v) r Q.
Proof.
  intros Hi HQ. unfold put_byte. destruct (lookup_lt_is_Some_2 (buf r) (Z.to_nat i)) as [x Hx]; [lia|].
  apply wp_bind, (wp_ring_byte _ _ x); [lia|done|]. by apply wp_modify.
Qed.

(** The next write position meets [iget] exactly when the queue is full. *)
Lemma holds_full q r : holds n q r -> (pos n (iput r) 1 =? iget r) = (Z.of_nat (length q) =? n - 1).
Proof.
  intros Hh. pose proof (h_room _ _ _ Hh). destruct (Z.eqb_spec (Z.of_nat (length q)) (n - 1)) as [He|Hne].
  - apply Z.eqb_eq. rewrite (h_iput _ _ _ Hh), pos_pos. replace (Z.of_nat (length q) + 1) with n by lia.
    apply pos_full, Hh.
  - apply Z.eqb_neq. intros He. destruct (holds_meet q r 1 Hh ltac:(lia) ltac:(lia) He); lia.
Qed.

Lemma iput_range q r : holds n q r -> 0 <= iput r < n.
Proof. intros Hh. rewrite (h_iput _ _ _ Hh). apply pos_range. Qed.

Lemma step_put v q r : is_byte v -> holds n q r -> step_ok (Put v) q r.
Proof.
  intros Hv Hh. unfold step_ok. cbn [ring_op_run]. apply wp_bind. unfold ringbuf_put. apply wp_bind. unfold wp at 1, get.
  pose proof (iput_range _ _ Hh) as Hi. pose proof (h_room _ _ _ Hh) as Hr. pose proof (h_len _ _ _ Hh) as Hl.
  cbv zeta. rewrite (h_size _ _ _ Hh), <-pos_next by done. rewrite (holds_full _ _ Hh). cbn [queue_op].
  destruct (Z.eqb_spec (Z.of_nat (length q)) (n - 1)) as [He|Hne].
  - by apply wp_ret, wp_ret.
  - apply wp_bind, wp_put_byte; [lia|]. apply wp_bind, wp_modify, wp_ret, wp_ret. split; [done|]. cbn [snd].
    rewrite uwrap_small by done.
    apply (holds_app q r [v]); [done|cbn; lia|by apply Forall_singleton|apply length_insert| |].
    + intros j w Hj. apply list_lookup_singleton_Some in Hj as [-> ->].
      rewrite pos_0 by done. apply list_lookup_insert_eq. lia.
    + intros p Hp Hne'. apply list_lookup_insert_ne. specialize (Hne' 0%nat ltac:(cbn; lia)).
      rewrite pos_0 in Hne' by done. lia.
Qed.

Lemma step_put16 v q r : 0 <= v < 65536 -> holds n q r -> step_ok (Put16 v) q r.
Proof.
  intros Hv Hh. unfold step_ok. cbn [ring_op_run]. apply wp_bind. unfold ringbuf_put16. apply wp_bind. unfold wp at 1, get.
  pose proof (iput_range _ _ Hh) as Hi. pose proof (h_room _ _ _ Hh) as Hr. pose proof (h_len _ _ _ Hh) as Hl.
  cbv zeta. rewrite (h_size _ _ _ Hh), <-pos_next' by done. rewrite (holds_full _ _ Hh). cbn [queue_op].
  destruct (Z.eqb_spec (Z.of_nat (length q)) (n - 1)) as [He|Hne].
  { apply wp_ret, wp_ret. rewrite (proj2 (Z.ltb_lt _ _)) by lia. done. }
  pose proof (pos_range (iput r) 1) as Ha. rewrite <-pos_next', pos_pos by done. change (1 + 1) with 2.
  destruct (Z.eqb_spec (pos n (iput r) 2) (iget r)) as [He2|Hne2].
  { apply wp_ret, wp_ret. destruct (holds_meet q r 2 Hh ltac:(lia) ltac:(lia) He2) as [|Hf]; [lia|].
    rewrite (proj2 (Z.ltb_lt _ _)) by lia. done. }
  assert (Z.of_nat (length q) <> n - 2) as Hne3.
  { intros He. destruct Hne2. rewrite (h_iput _ _ _ Hh), pos_pos, He. replace (n - 2 + 2) with n by lia. apply pos_full, Hh. }
  rewrite (proj2 (Z.ltb_ge _ _)) by lia.
  assert (is_byte (hi_byte v) /\ is_byte (lo_byte v)) as [Hhi Hlo].
  { unfold is_byte, hi_byte, lo_byte. change 255 with (2 ^ 8 - 1). rewrite !land_pow2_mask by done.
    split; apply Z.mod_pos_bound; done. }
  assert (2 < n) as Hn2 by lia.
  apply wp_bind, wp_put_byte; [lia|]. apply wp_bind, wp_put_byte; [cbn [buf]; rewrite length_insert; lia|].
  apply wp_bind, wp_modify, wp_ret, wp_ret. split; [done|]. cbn [snd buf size iget iput].
  fold (hi_byte v) (lo_byte v). rewrite !uwrap_small by done.
  apply (holds_app q r [hi_byte v; lo_byte v]); [done|cbn; lia|by apply Forall_cons_2, Forall_cons_2, Forall_nil_2|by rewrite !length_insert| |].
  - intros j w Hj. destruct j as [|[|j]]; cbn in Hj; [injection Hj as <-|injection Hj as <-|done].
    + rewrite pos_0 by done. rewrite list_lookup_insert_ne; [apply list_lookup_insert_eq; lia|].
      intros He. assert (pos n (iput r) 1 = pos n (iput r) 0) as Hp by (rewrite (pos_0 (iput r)) by done; lia).
      apply pos_inj in Hp; lia.
    + apply list_lookup_insert_eq. rewrite length_insert. lia.
  - intros p Hp Hd. pose proof (Hd 0%nat ltac:(cbn; lia)) as H0. pose proof (Hd 1%nat ltac:(cbn; lia)) as H1.
    rewrite pos_0 in H0 by done. change (Z.of_nat 1) with 1 in H1. rewrite !list_lookup_insert_ne by lia. done.
Qed.

(** The two bytes at the front, if there are two. *)
Lemma wp_peek16 q r : holds n q r ->
  wp ringbuf_peek16 r (fun v r' => r' = r /\
    match q with h :: l :: _ => v = 256 * h + l /\ 0 <= v | _ => v = -1 end).
Proof.
  intros Hh. unfold ringbuf_peek16. apply wp_bind. unfold wp at 1, get. cbv zeta.
  rewrite (holds_empty _ _ Hh). destruct q as [|h q].
  { rewrite bool_decide_true by done. by apply wp_ret. }
  rewrite bool_decide_false by done. pose proof (h_iget _ _ _ Hh) as Hg. rewrite (h_size _ _ _ Hh), <-pos_next' by done.
  pose proof (h_room _ _ _ Hh) as Hr. cbn [length] in Hr.
  destruct q as [|l q].
  - rewrite (proj2 (Z.eqb_eq _ _)); [by apply wp_ret|]. by rewrite (h_iput _ _ _ Hh).
  - cbn [length] in Hr. rewrite (proj2 (Z.eqb_neq _ _)).
    2: { rewrite (h_iput _ _ _ Hh). intros He. apply pos_inj in He; cbn [length] in *; lia. }
    pose proof (h_bytes _ _ _ Hh) as Hb. apply Forall_cons in Hb as [Hh1 Hb]. apply Forall_cons in Hb as [Hl1 _].
    apply wp_bind, (wp_ring_byte _ _ h); [lia|by eapply head_byte|].
    apply wp_bind, (wp_ring_byte _ _ l); [apply pos_range|by apply (h_data _ _ _ Hh 1)|].
    apply wp_ret. split; [done|]. unfold is_byte in *. rewrite shiftl_mul by done.
    rewrite lor_add_disjoint by (done || (change (2 ^ 8) with 256; lia)). change (2 ^ 8) with 256. lia.
Qed.

Lemma step_peek16 q r : holds n q r -> step_ok Peek16 q r.
Proof.
  intros Hh. unfold step_ok. cbn [ring_op_run]. apply wp_bind. eapply wp_mono; [by apply (wp_peek16 q)|].
  intros v r' [-> Hv]. apply wp_ret. destruct q as [|h [|l q]]; [by subst|by subst|]. destruct Hv as [-> _]. done.
Qed.

Lemma step_get16 q r : holds n q r -> step_ok Get16 q r.
Proof.
  intros Hh. unfold step_ok. cbn [ring_op_run]. apply wp_bind. unfold ringbuf_get16. apply wp_bind.
  eapply wp_mono; [by apply (wp_peek16 q)|]. intros v r' [-> Hv].
  destruct q as [|h [|l q]]; [subst; by apply wp_ret, wp_ret|subst; by apply wp_ret, wp_ret|].
  destruct Hv as [Hv Hv0]. rewrite (proj2 (Z.eqb_neq _ _)) by lia.
  pose proof (h_iget _ _ _ Hh) as Hg. pose proof (h_room _ _ _ Hh) as Hr. cbn [length] in Hr.
  apply wp_bind. unfold wp at 1, get. apply wp_bind, wp_modify, wp_bind, wp_modify, wp_ret, wp_ret.
  split; [by rewrite Hv|]. cbn [queue_op snd set_iget buf size iget iput].
  rewrite (uwrap_small 16) by lia.
  change (set_iget (if size r <=? iget r + 2 then iget r + 2 - size r else iget r + 2)
    (MkRing (buf r) (size r) (u16 (iget r + 2)) (iput r))) with
    (set_iget (if size r <=? iget r + 2 then iget r + 2 - size r else iget r + 2) r).
  apply (holds_set_iget (h :: l :: q) r 2); [done|cbn; lia|]. rewrite (h_size _ _ _ Hh). change (Z.of_nat 2) with 2.
  rewrite pos_cases by lia. destruct (Z.leb_spec n (iget r + 2)), (Z.ltb_spec (iget r + 2) n); lia.
Qed.

Lemma wp_memcpy_to r off src k (Q : unit -> ringbuf_t -> Prop) : 0 <= off -> 0 <= k -> off + k <= Z.of_nat (length (buf r)) ->
  k = Z.of_nat (length src) ->
  Q tt (MkRing (take (Z.to_nat off) (buf r) ++ src ++ drop (Z.to_nat off + length src) (buf r)) (size r) (iget r) (iput r)) ->
  wp (memcpy_to off src k) r Q.
Proof.
  intros Ho Hk Hl -> HQ. unfold wp, memcpy_to. rewrite bool_decide_true by lia.
  rewrite Nat2Z.id, (take_ge src) by lia. by replace (Z.to_nat (off + Z.of_nat (length src))) with (Z.to_nat off + length src)%nat by lia.
Qed.

Lemma wp_memcpy_from r off k (Q : list Z -> ringbuf_t -> Prop) : 0 <= off -> 0 <= k -> off + k <= Z.of_nat (length (buf r)) ->
  Q (take (Z.to_nat k) (drop (Z.to_nat off) (buf r))) r -> wp (memcpy_from off k) r Q.
Proof. intros Ho Hk Hl HQ. unfold wp, memcpy_from. by rewrite bool_decide_true by lia. Qed.

Lemma wp_put_internal q r data : holds n q r -> Forall is_byte data ->
  Z.of_nat (length q) + Z.of_nat (length data) < n ->
  wp (ringbuf_memcpy_put_internal data) r (fun _ r' => holds n (q ++ data) r').
Proof.
  intros Hh Hb Hroom. unfold ringbuf_memcpy_put_internal. apply wp_bind. unfold wp at 1, get. cbv zeta.
  pose proof (iput_range _ _ Hh) as Hi. pose proof (h_len _ _ _ Hh) as Hl. rewrite (h_size _ _ _ Hh).
  rewrite uwrap_small by lia. fold (pos n (iput r) (Z.of_nat (length data))).
  set (a := pos n (iput r) (Z.of_nat (length data))).
  assert (a = if iput r + Z.of_nat (length data) <? n then iput r + Z.of_nat (length data)
              else iput r + Z.of_nat (length data) - n) as Ha by (apply pos_cases; lia).
  assert (forall b', length b' = length (buf r) ->
    (forall j v, data !! j = Some v -> b' !! Z.to_nat (pos n (iput r) (Z.of_nat j)) = Some v) ->
    (forall p, 0 <= p < n -> (forall j, (j < length data)%nat -> p <> pos n (iput r) (Z.of_nat j)) ->
       b' !! Z.to_nat p = buf r !! Z.to_nat p) ->
    holds n (q ++ data) (set_iput a (MkRing b' (size r) (iget r) (iput r)))) as Happ.
  { intros b' H1 H2 H3. by apply holds_app. }
  apply wp_bind. destruct (Z.ltb_spec (iput r + Z.of_nat (length data)) n) as [Hlt|Hge].
  - rewrite (proj2 (Z.ltb_ge _ _)) by lia. apply wp_ret. cbv beta iota.
    apply wp_bind, wp_memcpy_to; [lia|lia|lia|lia|]. apply wp_modify. cbn [size iget iput]. apply Happ.
    + apply length_splice. lia.
    + intros j v Hj. pose proof (lookup_lt_Some _ _ _ Hj). rewrite lookup_splice by lia.
      rewrite pos_cases by lia. rewrite (proj2 (Z.ltb_lt _ _)) by lia. rewrite decide_True by lia.
      rewrite <-Hj. f_equal. lia.
    + intros p Hp Hne. rewrite lookup_splice by lia. rewrite decide_False; [done|]. intros Hin.
      apply (Hne (Z.to_nat p - Z.to_nat (iput r))%nat); [lia|]. rewrite pos_cases by lia.
      rewrite (proj2 (Z.ltb_lt _ _)) by lia. lia.
  - rewrite (proj2 (Z.ltb_lt _ _)) by lia. apply wp_bind.
    set (k := Z.to_nat (n - iput r)).
    assert (wp (memcpy_to (iput r) data (n - iput r)) r (fun _ r' => r' = MkRing
      (take (Z.to_nat (iput r)) (buf r) ++ take k data ++ drop (Z.to_nat (iput r) + length (take k data)) (buf r))
      (size r) (iget r) (iput r))) as Hfirst.
    { unfold wp, memcpy_to. rewrite bool_decide_true by lia. fold k. rewrite length_take. repeat f_equal. lia. }
    eapply wp_mono; [exact Hfirst|]. intros [] r1 ->. apply wp_ret. cbv beta iota. fold k.
    apply wp_bind, wp_memcpy_to; [lia|lia| |rewrite length_drop; lia|].
    { cbn [buf]. rewrite length_splice by (rewrite length_take; lia). lia. }
    apply wp_modify. cbn [buf size iget iput]. change (Z.to_nat 0) with 0%nat.
    assert (length (take k data) = k) as Hk1 by (rewrite length_take; lia).
    assert (length (drop k data) = (length data - k)%nat) as Hk2 by apply length_drop.
    apply Happ.
    + rewrite !length_splice; [done|lia|rewrite length_splice; lia].
    + intros j v Hj. pose proof (lookup_lt_Some _ _ _ Hj). rewrite lookup_splice by (rewrite length_splice; lia).
      rewrite pos_cases by lia. destruct (Z.ltb_spec (iput r + Z.of_nat j) n).
      * rewrite decide_False by lia. rewrite lookup_splice, decide_True by lia.
        rewrite lookup_take_lt by lia. rewrite <-Hj. f_equal. lia.
      * rewrite decide_True by lia. rewrite lookup_drop, <-Hj. f_equal. lia.
    + intros p Hp Hne. rewrite lookup_splice by (rewrite length_splice; lia). rewrite decide_False.
      2: { intros Hin. apply (Hne (Z.to_nat p + k)%nat); [lia|]. rewrite pos_cases by lia.
           rewrite (proj2 (Z.ltb_ge _ _)) by lia. lia. }
      rewrite lookup_splice by lia. rewrite decide_False; [done|].
      intros Hin. apply (Hne (Z.to_nat p - Z.to_nat (iput r))%nat); [lia|]. rewrite pos_cases by lia.
      rewrite (proj2 (Z.ltb_lt _ _)) by lia. lia.
Qed.

Lemma wp_get_internal q r k : holds n q r -> 0 <= k <= Z.of_nat (length q) ->
  wp (ringbuf_memcpy_get_internal k) r (fun d r' => d = take (Z.to_nat k) q /\ holds n (drop (Z.to_nat k) q) r').
Proof.
  intros Hh Hk. unfold ringbuf_memcpy_get_internal. apply wp_bind. unfold wp at 1, get. cbv zeta.
  pose proof (h_iget _ _ _ Hh) as Hi. pose proof (h_len _ _ _ Hh) as Hl. pose proof (h_room _ _ _ Hh) as Hr.
  rewrite (h_size _ _ _ Hh). rewrite uwrap_small by lia. fold (pos n (iget r) k). set (a := pos n (iget r) k).
  assert (a = if iget r + k <? n then iget r + k else iget r + k - n) as Ha by (apply pos_cases; lia).
  assert (forall d, length d = Z.to_nat k ->
    (forall j, (j < Z.to_nat k)%nat -> d !! j = byte_of r (pos n (iget r) (Z.of_nat j))) ->
    d = take (Z.to_nat k) q) as Heq.
  { intros d Hd Hj. apply list_eq. intros j. destruct (decide (j < Z.to_nat k)%nat) as [Hlt|Hge].
    - rewrite lookup_take_lt, Hj by done. destruct (lookup_lt_is_Some_2 q j) as [v Hv]; [lia|].
      rewrite Hv. by apply (h_data _ _ _ Hh).
    - rewrite lookup_ge_None_2 by lia. symmetry. apply lookup_ge_None_2. rewrite length_take. lia. }
  assert (forall d, d = take (Z.to_nat k) q -> wp (modify (set_iget a);; mret d) r (fun d r' =>
    d = take (Z.to_nat k) q /\ holds n (drop (Z.to_nat k) q) r')) as Hend.
  { intros d Hd. apply wp_bind, wp_modify, wp_ret. split; [done|].
    apply holds_set_iget; [done|lia|]. unfold a. f_equal. lia. }
  apply wp_bind. destruct (Z.ltb_spec (iget r + k) n) as [Hlt|Hge].
  - rewrite (proj2 (Z.ltb_ge _ _)) by lia. apply wp_ret. cbv beta iota.
    apply wp_bind, wp_memcpy_from; [lia|lia|lia|]. apply Hend. cbn [app]. apply Heq.
    + rewrite length_take, length_drop. lia.
    + intros j Hj. rewrite lookup_take_lt, lookup_drop by lia. unfold byte_of. f_equal.
      rewrite pos_cases by lia. rewrite (proj2 (Z.ltb_lt _ _)) by lia. lia.
  - rewrite (proj2 (Z.ltb_lt _ _)) by lia. apply wp_bind, wp_memcpy_from; [lia|lia|lia|].
    apply wp_ret. cbv beta iota. apply wp_bind, wp_memcpy_from; [lia|lia|lia|]. apply Hend. apply Heq.
    + rewrite length_app, !length_take, !length_drop. lia.
    + intros j Hj. unfold byte_of. rewrite pos_cases by lia.
      assert (length (take (Z.to_nat (n - iget r)) (drop (Z.to_nat (iget r)) (buf r))) = Z.to_nat (n - iget r)) as Hl1.
      { rewrite length_take, length_drop. lia. }
      destruct (Z.ltb_spec (iget r + Z.of_nat j) n).
      * rewrite lookup_app_l by lia. rewrite lookup_take_lt, lookup_drop by lia. f_equal. lia.
      * rewrite lookup_app_r by lia. rewrite Hl1, lookup_take_lt, lookup_drop by lia. f_equal. lia.
Qed.

Lemma step_put_bytes data q r : Forall is_byte data -> Z.of_nat (length data) < 2 ^ 31 -> holds n q r -> step_ok (PutBytes data) q r.
Proof.
  intros Hb Hd Hh. unfold step_ok. cbn [ring_op_run]. apply wp_bind. unfold ringbuf_put_bytes. apply wp_bind. unfold wp at 1, get.
  destruct (holds_avail _ _ Hh) as [_ Hf]. rewrite Hf, (h_size _ _ _ Hh). cbn [queue_op].
  destruct (Z.ltb_spec (n - 1 - Z.of_nat (length q)) (Z.of_nat (length data))); [by apply wp_ret, wp_ret|].
  apply wp_bind. eapply wp_mono; [apply (wp_put_internal q); [done|done|lia]|]. intros [] r' Hh'. by apply wp_ret, wp_ret.
Qed.

Lemma step_get_bytes k q r : 0 <= k < 2 ^ 31 -> holds n q r -> step_ok (GetBytes k) q r.
Proof.
  intros Hk Hh. unfold step_ok. cbn [ring_op_run]. unfold ringbuf_get_bytes. apply wp_bind. unfold wp at 1, get.
  destruct (holds_avail _ _ Hh) as [Ha _]. rewrite Ha, (h_size _ _ _ Hh). cbn [queue_op].
  destruct (Z.ltb_spec (Z.of_nat (length q)) k); [by apply wp_ret|].
  apply wp_bind. eapply wp_mono; [apply (wp_get_internal q); [done|lia]|]. intros d r' [-> Hh']. by apply wp_ret.
Qed.

Lemma wp_ring_op op q r : ring_op_ok op -> holds n q r -> step_ok op q r.
Proof.
  intros Hop Hh. destruct op; cbn [ring_op_ok] in Hop.
  - by apply step_put.
  - by apply ring_step_get.
  - by apply step_peek.
  - by apply step_put16.
  - by apply step_get16.
  - by apply step_peek16.
  - destruct Hop. by apply step_put_bytes.
  - by apply step_get_bytes.
  - unfold step_ok. cbn [ring_op_run]. apply wp_bind. unfold wp at 1, get. apply wp_ret.
    destruct (holds_avail _ _ Hh) as [-> _]. done.
  - unfold step_ok. cbn [ring_op_run]. apply wp_bind. unfold wp at 1, get. apply wp_ret.
    destruct (holds_avail _ _ Hh) as [_ ->]. done.
Qed.

Lemma wp_ring_ops ops : forall q r, Forall ring_op_ok ops -> holds n q r ->
  wp (ring_ops ops) r (fun a _ => a = queue_ops n ops q).
Proof.
  induction ops as [|op ops IH]; intros q r Hops Hh; cbn [ring_ops queue_ops]; [by apply wp_ret|].
  apply Forall_cons in Hops as [Hop Hops]. apply wp_bind. eapply wp_mono; [by apply (wp_ring_op op q)|].
  intros a r1 [-> Hh1]. apply wp_bind. eapply wp_mono; [by apply IH|]. intros rs r2 ->. apply wp_ret.
  by destruct (queue_op n op q) as [[v d] q'].
Qed.

End Ring.

(** C25: A ring buffer of up to 65534 bytes is a queue of [size - 1] bytes: any
    sequence of byte, 16-bit and block operations stays inside the array and
    returns what the queue returns, the three status codes included. *)
Theorem ringbuf_refines_queue mem ops : 1 <= Z.of_nat (length mem) < 65535 -> Forall ring_op_ok ops ->
  exists r', ring_ops ops (ringbuf_alloc mem) = Some (queue_ops (Z.of_nat (length mem)) ops [], r').
Proof.
  intros Hn Hops.
  destruct (run_value (ring_ops ops) (ringbuf_alloc mem) (fun a _ => a = queue_ops (Z.of_nat (length mem)) ops []))
    as (a & r' & Hrun & ->); [|by exists r'].
  apply wp_ring_ops; [done|done|]. split; cbn; rewrite ?uwrap_small by lia; try done; try lia.
Qed.

Theorem ringbuf_refines_queue_witness : exists r',
  ring_ops [Put 1; Put16 515; Get; PutBytes [7; 8]; Peek16; GetBytes 3; Free; Get; Get] (ringbuf_alloc [0; 0; 0; 0; 0]) =
  Some (queue_ops 5 [Put 1; Put16 515; Get; PutBytes [7; 8]; Peek16; GetBytes 3; Free; Get; Get] [], r').
Proof.
  apply (ringbuf_refines_queue [0; 0; 0; 0; 0]); [done|].
  repeat (apply Forall_cons_2; [first [done|split; [repeat (apply Forall_cons_2; [done|]); apply Forall_nil_2|done]]|]).
  apply Forall_nil_2.
Defined.

(** In a buffer of 65535 bytes, the largest [size] can say, [ringbuf_get16]
    at the last index moves [iget] to 0 instead of 1, as the [uint16_t] sum
    wraps before it is compared with [size]: the second byte is read again. *)
Theorem ringbuf_get16_wraps_at_65535 mem h l : length mem = Z.to_nat 65535 ->
  mem !! Z.to_nat 65534 = Some h -> mem !! 0%nat = Some l -> 0 <= l < 256 -> 0 <= h < 256 ->
  exists r', ringbuf_get16 (MkRing mem 65535 65534 1) = Some (256 * h + l, r') /\ iget r' = 0 /\ ringbuf_avail r' = 1.
Proof.
  intros Hlen Hh Hl Hlr Hhr.
  destruct (run_value ringbuf_get16 (MkRing mem 65535 65534 1) (fun v r' => v = 256 * h + l /\ iget r' = 0 /\ ringbuf_avail r' = 1))
    as (v & r' & Hrun & -> & Hr); [|by exists r'].
  unfold ringbuf_get16, ringbuf_peek16. apply wp_bind, wp_bind. unfold wp at 1, get.
  change (65534 =? 1) with false. cbv beta iota zeta. change (iget _ + 1 =? size _) with true. cbv beta iota.
  change (0 =? iput _) with false. cbv beta iota.
  apply wp_bind, (wp_ring_byte _ _ h); [done|exact Hh|]. apply wp_bind, (wp_ring_byte _ _ l); [done|exact Hl|]. apply wp_ret.
  assert (Z.lor (Z.shiftl h 8) l = 256 * h + l) as ->.
  { rewrite shiftl_mul, lor_add_disjoint by (done || (change (2 ^ 8) with 256; lia)). change (2 ^ 8) with 256. lia. }
  rewrite (proj2 (Z.eqb_neq _ _)) by lia. apply wp_bind. unfold wp at 1. apply wp_bind, wp_modify, wp_bind, wp_modify, wp_ret.
  done.
Qed.

Theorem ringbuf_get16_wraps_at_65535_witness : exists r',
  ringbuf_get16 (MkRing (replicate (Z.to_nat 65535) 9) 65535 65534 1) = Some (256 * 9 + 9, r') /\
  iget r' = 0 /\ ringbuf_avail r' = 1.
Proof.
  apply (ringbuf_get16_wraps_at_65535 (replicate (Z.to_nat 65535) 9) 9 9); [apply length_replicate|
    apply lookup_replicate_2; lia|apply lookup_replicate_2; lia|split; [discriminate|reflexivity]..].
Defined.
