(* ===== verification/BitFields.v ===== *)
(** * Bit fields of bytes

    Reading and writing [n] bits at offset [sh]; used for packed pixels. *)
From S2P Require Import Prelude.
Local Open Scope Z_scope.

(** Facts about all bytes, by computation. *)
Lemma byte_table (P : Z -> bool) b : forallb P (map Z.of_nat (seq 0 256)) = true -> is_byte b -> P b = true.
Proof.
  intros HP Hb. rewrite forallb_forall in HP. apply HP. apply in_map_iff. exists (Z.to_nat b).
  unfold is_byte in Hb. split; [lia|]. apply in_seq. lia.
Qed.

Lemma byte_table_2 (P : Z -> Z -> bool) a b :
  forallb (fun a => forallb (P a) (map Z.of_nat (seq 0 256))) (map Z.of_nat (seq 0 256)) = true ->
  is_byte a -> is_byte b -> P a b = true.
Proof.
  intros HP Ha Hb. apply (byte_table (P a)); [|done].
  by apply (byte_table (fun a => forallb (P a) (map Z.of_nat (seq 0 256)))).
Qed.

Definition field (sh n b : Z) : Z := Z.land (Z.shiftr b sh) (Z.ones n).
Definition set_field (sh n v b : Z) : Z :=
  Z.lor (Z.land b (Z.lnot (Z.shiftl (Z.ones n) sh))) (Z.shiftl (Z.land v (Z.ones n)) sh).

Lemma field_spec sh n b i : 0 <= sh -> 0 <= n -> 0 <= i -> Z.testbit (field sh n b) i = (i <? n) && Z.testbit b (i + sh).
Proof.
  intros. unfold field. rewrite Z.land_spec, Z.shiftr_spec, Z.testbit_ones_nonneg by lia. apply andb_comm.
Qed.

Lemma set_field_spec sh n v b i : 0 <= sh -> 0 <= n -> 0 <= i ->
  Z.testbit (set_field sh n v b) i = if (sh <=? i) && (i <? sh + n) then Z.testbit v (i - sh) else Z.testbit b i.
Proof.
  intros. unfold set_field. rewrite Z.lor_spec, Z.land_spec, Z.lnot_spec, !Z.shiftl_spec by lia.
  destruct (Z.leb_spec sh i); cbn [andb].
  - rewrite Z.land_spec, !Z.testbit_ones_nonneg by lia.
    destruct (Z.ltb_spec i (sh + n)), (Z.ltb_spec (i - sh) n); try lia; cbn [negb andb orb];
      rewrite ?andb_false_r, ?andb_true_r, ?orb_false_r; done.
  - rewrite !(Z.testbit_neg_r _ (i - sh)) by lia. cbn. by rewrite andb_true_r, orb_false_r.
Qed.

Lemma u8_bits v i : 0 <= i -> Z.testbit (u8 v) i = (i <? 8) && Z.testbit v i.
Proof.
  intros. unfold uwrap. destruct (Z.ltb_spec i 8); [by rewrite Z.mod_pow2_bits_low|by rewrite Z.mod_pow2_bits_high by lia].
Qed.

Lemma byte_bits b i : is_byte b -> 8 <= i -> Z.testbit b i = false.
Proof.
  intros Hb Hi. rewrite <-(Z.mod_small b (2 ^ 8)) by exact Hb. by apply Z.mod_pow2_bits_high.
Qed.

Lemma u8_byte v : is_byte (u8 v).
Proof. apply uwrap_range. lia. Qed.

(** Writing a field of a byte gives a byte. *)
Lemma u8_set_field sh n v b : 0 <= sh -> 0 <= n -> sh + n <= 8 -> is_byte b -> u8 (set_field sh n v b) = set_field sh n v b.
Proof.
  intros. apply Z.bits_inj'. intros i Hi. rewrite u8_bits, set_field_spec by lia.
  destruct (Z.ltb_spec i 8); [done|]. rewrite (proj2 (Z.ltb_ge i (sh + n))), andb_false_r by lia. by rewrite byte_bits.
Qed.

Lemma set_field_byte sh n v b : 0 <= sh -> 0 <= n -> sh + n <= 8 -> is_byte b -> is_byte (set_field sh n v b).
Proof. intros. rewrite <-u8_set_field by done. apply u8_byte. Qed.

Lemma field_set_same sh n v b : 0 <= sh -> 0 <= n -> field sh n (set_field sh n v b) = Z.land v (Z.ones n).
Proof.
  intros. apply Z.bits_inj'. intros i Hi. rewrite field_spec, set_field_spec, Z.land_spec, Z.testbit_ones_nonneg by lia.
  destruct (Z.ltb_spec i n); [|by rewrite andb_false_r].
  rewrite (proj2 (Z.leb_le _ _)), (proj2 (Z.ltb_lt _ _)) by lia. cbn. rewrite andb_true_r. f_equal. lia.
Qed.

Lemma field_set_other sh sh' n v b : 0 <= sh -> 0 <= sh' -> 0 <= n -> sh + n <= sh' \/ sh' + n <= sh ->
  field sh' n (set_field sh n v b) = field sh' n b.
Proof.
  intros ? ? ? Hd. apply Z.bits_inj'. intros i Hi. rewrite !field_spec, set_field_spec by lia.
  destruct (Z.ltb_spec i n); [|done]. cbn.
  destruct (Z.leb_spec sh (i + sh')), (Z.ltb_spec (i + sh') (sh + n)); cbn; try done. lia.
Qed.

Lemma set_field_id sh n v b : 0 <= sh -> 0 <= n -> field sh n b = Z.land v (Z.ones n) -> set_field sh n v b = b.
Proof.
  intros ? ? Hf. apply Z.bits_inj'. intros i Hi. rewrite set_field_spec by lia.
  destruct (Z.leb_spec sh i), (Z.ltb_spec i (sh + n)); cbn; try done.
  pose proof (f_equal (fun z => Z.testbit z (i - sh)) Hf) as Hb. cbn in Hb.
  rewrite field_spec, Z.land_spec, Z.testbit_ones_nonneg in Hb by lia.
  rewrite (proj2 (Z.ltb_lt (i - sh) n)), andb_true_r in Hb by lia. cbn in Hb. rewrite <-Hb. f_equal. lia.
Qed.

(** Fields only depend on the low bits of the value. *)
Lemma set_field_mask sh n v b : 0 <= n -> set_field sh n (Z.land v (Z.ones n)) b = set_field sh n v b.
Proof. intros. unfold set_field. by rewrite <-Z.land_assoc, Z.land_diag. Qed.

(** The forms the pixel functions use. *)
Lemma set_bit_form o v b : 0 <= o < 8 -> is_byte b -> v = 0 \/ v = 1 ->
  u8 (Z.lor (Z.land b (Z.lnot (Z.shiftl 1 o))) (Z.shiftl v o)) = set_field o 1 v b.
Proof.
  intros Ho Hb Hv. rewrite <-u8_set_field by (done || lia). unfold set_field. change (Z.ones 1) with 1.
  destruct Hv as [-> | ->]; done.
Qed.

Lemma low_nibble_form v b : is_byte b -> u8 (Z.lor (Z.land v 0x0F) (Z.land b 0xF0)) = set_field 0 4 v b.
Proof.
  intros Hb. apply Z.bits_inj'. intros i Hi. rewrite u8_bits, set_field_spec, Z.lor_spec, !Z.land_spec by lia.
  change 0x0F with (Z.ones 4). change 0xF0 with (Z.shiftl (Z.ones 4) 4).
  rewrite Z.shiftl_spec, Z.testbit_ones_nonneg by lia. change (0 + 4) with 4.
  rewrite (proj2 (Z.leb_le 0 i)), Z.sub_0_r by lia. cbn [andb].
  destruct (Z.ltb_spec i 8) as [Hlt|Hge]; cbn [andb].
  - destruct (Z.ltb_spec i 4); [rewrite (Z.testbit_neg_r _ (i - 4)) by lia; by rewrite andb_true_r, andb_false_r, orb_false_r|].
    rewrite Z.testbit_ones_nonneg by lia. rewrite (proj2 (Z.ltb_lt (i - 4) 4)) by lia. by rewrite andb_false_r, andb_true_r.
  - rewrite (proj2 (Z.ltb_ge i 4)) by lia. by rewrite byte_bits.
Qed.

Lemma high_nibble_form v b : is_byte b -> u8 (Z.lor (Z.shiftl v 4) (Z.land b 0x0F)) = set_field 4 4 v b.
Proof.
  intros Hb. apply Z.bits_inj'. intros i Hi. rewrite u8_bits, set_field_spec, Z.lor_spec, Z.land_spec, Z.shiftl_spec by lia.
  change 0x0F with (Z.ones 4). rewrite Z.testbit_ones_nonneg by lia. change (4 + 4) with 8.
  destruct (Z.ltb_spec i 8) as [Hlt|Hge]; cbn [andb].
  - destruct (Z.leb_spec 4 i); cbn [andb].
    + rewrite (proj2 (Z.ltb_ge i 4)) by lia. by rewrite andb_false_r, orb_false_r.
    + rewrite (proj2 (Z.ltb_lt i 4)), (Z.testbit_neg_r _ (i - 4)) by lia. by rewrite andb_true_r.
  - rewrite andb_false_r. by rewrite byte_bits.
Qed.

Lemma whole_byte_form v b : is_byte b -> u8 v = set_field 0 8 v b.
Proof.
  intros Hb. apply Z.bits_inj'. intros i Hi. rewrite u8_bits, set_field_spec by lia. change (0 + 8) with 8.
  rewrite (proj2 (Z.leb_le 0 i)), Z.sub_0_r by lia. cbn [andb]. destruct (Z.ltb_spec i 8); [done|]. by rewrite (byte_bits b).
Qed.
