(* ===== verification/Unicode.v ===== *)
(** * Characters and UTF-8 ([py/unicode.c])

    A byte pointer is the list of the bytes from it on; reading past the end of
    the list has no meaning ([None]).  The strings of the run time end in a zero
    byte, which stops the loops over continuation bytes. *)
From S2P Require Import Prelude.
Local Open Scope Z_scope.

(** ** Character classes *)

Definition FL_PRINT : Z := 0x01.
Definition FL_SPACE : Z := 0x02.
Definition FL_DIGIT : Z := 0x04.
Definition FL_ALPHA : Z := 0x08.
Definition FL_UPPER : Z := 0x10.
Definition FL_LOWER : Z := 0x20.
Definition FL_XDIGIT : Z := 0x40.

Definition AT_PR : Z := FL_PRINT.
Definition AT_SP : Z := Z.lor FL_SPACE FL_PRINT.
Definition AT_DI : Z := Z.lor (Z.lor FL_DIGIT FL_PRINT) FL_XDIGIT.
Definition AT_UP : Z := Z.lor (Z.lor FL_UPPER FL_ALPHA) FL_PRINT.
Definition AT_LO : Z := Z.lor (Z.lor FL_LOWER FL_ALPHA) FL_PRINT.
Definition AT_UX : Z := Z.lor (Z.lor (Z.lor FL_UPPER FL_ALPHA) FL_PRINT) FL_XDIGIT.
Definition AT_LX : Z := Z.lor (Z.lor (Z.lor FL_LOWER FL_ALPHA) FL_PRINT) FL_XDIGIT.

Definition attr : list Z :=
  [0; 0; 0; 0; 0; 0; 0; 0;
   0; AT_SP; AT_SP; AT_SP; AT_SP; AT_SP; 0; 0;
   0; 0; 0; 0; 0; 0; 0; 0;
   0; 0; 0; 0; 0; 0; 0; 0;
   AT_SP; AT_PR; AT_PR; AT_PR; AT_PR; AT_PR; AT_PR; AT_PR;
   AT_PR; AT_PR; AT_PR; AT_PR; AT_PR; AT_PR; AT_PR; AT_PR;
   AT_DI; AT_DI; AT_DI; AT_DI; AT_DI; AT_DI; AT_DI; AT_DI;
   AT_DI; AT_DI; AT_PR; AT_PR; AT_PR; AT_PR; AT_PR; AT_PR;
   AT_PR; AT_UX; AT_UX; AT_UX; AT_UX; AT_UX; AT_UX; AT_UP;
   AT_UP; AT_UP; AT_UP; AT_UP; AT_UP; AT_UP; AT_UP; AT_UP;
   AT_UP; AT_UP; AT_UP; AT_UP; AT_UP; AT_UP; AT_UP; AT_UP;
   AT_UP; AT_UP; AT_UP; AT_PR; AT_PR; AT_PR; AT_PR; AT_PR;
   AT_PR; AT_LX; AT_LX; AT_LX; AT_LX; AT_LX; AT_LX; AT_LO;
   AT_LO; AT_LO; AT_LO; AT_LO; AT_LO; AT_LO; AT_LO; AT_LO;
   AT_LO; AT_LO; AT_LO; AT_LO; AT_LO; AT_LO; AT_LO; AT_LO;
   AT_LO; AT_LO; AT_LO; AT_PR; AT_PR; AT_PR; AT_PR; 0].

(** [c < 128 && (attr\[c\] & flags) != 0]; [unichar] is unsigned. *)
Definition has_attr (c flags : Z) : bool :=
  (c <? 128) && match attr !! Z.to_nat c with Some a => negb (Z.land a flags =? 0) | None => false end.

Definition unichar_isspace (c : Z) : bool := has_attr c FL_SPACE.
Definition unichar_isalpha (c : Z) : bool := has_attr c FL_ALPHA.
Definition unichar_isdigit (c : Z) : bool := has_attr c FL_DIGIT.
Definition unichar_isxdigit (c : Z) : bool := has_attr c FL_XDIGIT.
Definition unichar_isident (c : Z) : bool :=
  (c <? 128) && (has_attr c (Z.lor FL_ALPHA FL_DIGIT) || (c =? 95)).
Definition unichar_isalnum (c : Z) : bool := has_attr c (Z.lor FL_ALPHA FL_DIGIT).
Definition unichar_isupper (c : Z) : bool := has_attr c FL_UPPER.
Definition unichar_islower (c : Z) : bool := has_attr c FL_LOWER.

Definition unichar_tolower (c : Z) : Z := if unichar_isupper c then c + 0x20 else c.
Definition unichar_toupper (c : Z) : Z := if unichar_islower c then c - 0x20 else c.

(** "c is assumed to be hex digit"; the arithmetic is that of [mp_uint_t]. *)
Definition unichar_xdigit_value (c : Z) : Z :=
  let n := u32 (c - 48) in
  if 9 <? n then u32 (Z.land n (u32 (Z.lnot (97 - 65))) - (65 - (57 + 1))) else n.

(** ** UTF-8 *)

Definition UTF8_IS_NONASCII (ch : Z) : bool := negb (Z.land ch 0x80 =? 0).
Definition UTF8_IS_CONT (ch : Z) : bool := Z.land ch 0xC0 =? 0x80.

(** [for (mask = 0x40; ord & mask; mask >>= 1) ord &= ~mask]; at most seven
    bits are cleared. *)
Fixpoint strip_lead (fuel : nat) (mask ord : Z) : Z :=
  match fuel with
  | O => ord
  | S fuel =>
      if negb (Z.land ord mask =? 0)
      then strip_lead fuel (Z.shiftr mask 1) (Z.land ord (u32 (Z.lnot mask))) else ord
  end.

Fixpoint cont_bytes (ord : Z) (s : list Z) : option Z :=
  match s with
  | [] => None
  | c :: s =>
      if UTF8_IS_CONT c then cont_bytes (Z.lor (u32 (Z.shiftl ord 6)) (Z.land c 0x3F)) s else Some ord
  end.

Definition utf8_get_char (s : list Z) : option Z :=
  match s with
  | [] => None
  | ord :: s =>
      if negb (UTF8_IS_NONASCII ord) then Some ord
      else cont_bytes (strip_lead 8 0x40 (Z.land ord 0x7F)) s
  end.

Fixpoint skip_cont (s : list Z) : option (list Z) :=
  match s with
  | [] => None
  | c :: s' => if UTF8_IS_CONT c then skip_cont s' else Some s
  end.

Definition utf8_next_char (s : list Z) : option (list Z) :=
  match s with [] => None | _ :: s => skip_cont s end.

(** The index of the character at byte offset [ptr]: going back over [s]. *)
Fixpoint ptr_to_index (before : list Z) (i : Z) : Z :=
  match before with
  | [] => i
  | c :: before => ptr_to_index before (if negb (UTF8_IS_CONT c) then u32 (i + 1) else i)
  end.
Definition utf8_ptr_to_index (s : list Z) (ptr : nat) : Z := ptr_to_index (rev (take ptr s)) 0.

Fixpoint utf8_charlen (str : list Z) : Z :=
  match str with
  | [] => 0
  | c :: str => (if negb (UTF8_IS_CONT c) then 1 else 0) + utf8_charlen str
  end.

Fixpoint check_from (need : Z) (p : list Z) : bool :=
  match p with
  | [] => need =? 0
  | c :: p =>
      if negb (need =? 0) then
        if UTF8_IS_CONT c then check_from (u8 (need - 1)) p else false
      else if 0xc0 <=? c then
        if 0xf8 <=? c then false
        else check_from (Z.land (Z.shiftr 0xe5 (Z.land (Z.shiftr c 3) 0x6)) 3) p
      else if 0x80 <=? c then false
      else check_from need p
  end.
Definition utf8_check (p : list Z) : bool := check_from 0 p.
