(* ===== verification/Vstr.v ===== *)
(** * Variable-length strings ([py/vstr.c])

    The state is the [vstr_t] with its buffer ([alloc] bytes, the first [len] of
    them the string).  [m_renew] keeps the bytes there are and leaves the new
    ones as they happen to be; a fixed buffer cannot grow and raises instead.
    A [size_t] sum wraps. *)
From S2P Require Import Prelude.
From S2P Require Import CMem.
Local Open Scope Z_scope.

Record vstr_t := MkVstr { alloc : Z; len : Z; buf : list Z; fixed_buf : bool }.

Inductive vstr_exn := RuntimeError.

(** What a new byte of memory contains. *)
Class Fresh := fresh_byte : Z -> Z.
Definition new_bytes `{Fresh} (n : Z) : list Z := map (fun i => fresh_byte (Z.of_nat i)) (seq 0 (Z.to_nat n)).

Definition ROUND_ALLOC (a : Z) : Z := u32 (Z.land a (u32 (-1) - 7) + 8).

Abbreviation Mv A := (M vstr_t (vstr_exn + A)).

Section Vstr.
Context `{Fresh}.

Definition vstr_init (n : Z) : vstr_t :=
  let n := if n <? 1 then 1 else n in MkVstr n 0 (new_bytes n) false.
Definition vstr_init_len (n : Z) : vstr_t :=
  let v := vstr_init (u32 (n + 1)) in MkVstr (alloc v) n (buf v) (fixed_buf v).
Definition vstr_init_fixed_buf (n : Z) (b : list Z) : vstr_t := MkVstr n 0 b true.

Definition set_len (n : Z) : M vstr_t unit := modify (fun v => MkVstr (alloc v) n (buf v) (fixed_buf v)).

(** [m_renew(char, buf, alloc, new_alloc)] *)
Definition renew (new_alloc : Z) (v : vstr_t) : vstr_t :=
  MkVstr new_alloc (len v) (take (Z.to_nat new_alloc) (buf v) ++ new_bytes (new_alloc - alloc v)) (fixed_buf v).

(** Store bytes from offset [off] on. *)
Definition poke (off : Z) (bs : list Z) : M vstr_t unit :=
  fun v =>
    if bool_decide (0 <= off /\ off + Z.of_nat (length bs) <= Z.of_nat (length (buf v))) then
      Some (tt, MkVstr (alloc v) (len v)
        (take (Z.to_nat off) (buf v) ++ bs ++ drop (Z.to_nat off + length bs) (buf v)) (fixed_buf v))
    else None.

(** [memmove(buf + dst, buf + src, n)] *)
Definition move (dst src n : Z) : M vstr_t unit :=
  v ← get;
  assert_ (bool_decide (0 <= src /\ 0 <= n /\ src + n <= Z.of_nat (length (buf v))));;
  poke dst (take (Z.to_nat n) (drop (Z.to_nat src) (buf v))).

(** The offset of the new chunk. *)
Definition vstr_extend (n : Z) : Mv Z :=
  v ← get;
  if fixed_buf v then raise RuntimeError
  else modify (renew (u32 (alloc v + n)));; xret (alloc v).

Definition vstr_ensure_extra (n : Z) : Mv unit :=
  v ← get;
  if alloc v <? u32 (len v + n) then
    if fixed_buf v then raise RuntimeError
    else modify (renew (ROUND_ALLOC (u32 (u32 (len v + n) + 16))));; xret tt
  else xret tt.

Definition vstr_hint_size (n : Z) : Mv unit := vstr_ensure_extra n.

(** The offset of the room made for [n] bytes. *)
Definition vstr_add_len (n : Z) : Mv Z :=
  vstr_ensure_extra n;;!
  v ← get; set_len (len v + n);; xret (len v).

Definition vstr_null_terminated_str : Mv unit :=
  v ← get;
  (if alloc v =? len v then vstr_extend 1;;! xret tt else xret tt);;!
  v ← get; poke (len v) [0];; xret tt.

Definition vstr_add_byte (b : Z) : Mv unit :=
  p ←! vstr_add_len 1; poke p [b];; xret tt.

(** The stores of [vstr_add_char], by the length of the encoding. *)
Definition vstr_add_char (c : Z) : Mv unit :=
  if c <? 0x80 then
    p ←! vstr_add_len 1; poke p [u8 c];; xret tt
  else if c <? 0x800 then
    p ←! vstr_add_len 2;
      poke p [u8 (Z.lor (Z.shiftr c 6) 0xC0); u8 (Z.lor (Z.land c 0x3F) 0x80)];; xret tt
  else if c <? 0x10000 then
    p ←! vstr_add_len 3;
      poke p [u8 (Z.lor (Z.shiftr c 12) 0xE0); u8 (Z.lor (Z.land (Z.shiftr c 6) 0x3F) 0x80);
              u8 (Z.lor (Z.land c 0x3F) 0x80)];; xret tt
  else
    assert_ (c <? 0x110000);;
    p ←! vstr_add_len 4;
      poke p [u8 (Z.lor (Z.shiftr c 18) 0xF0); u8 (Z.lor (Z.land (Z.shiftr c 12) 0x3F) 0x80);
              u8 (Z.lor (Z.land (Z.shiftr c 6) 0x3F) 0x80); u8 (Z.lor (Z.land c 0x3F) 0x80)];; xret tt.

Definition vstr_add_strn (str : list Z) : Mv unit :=
  vstr_ensure_extra (Z.of_nat (length str));;!
  v ← get; poke (len v) str;; set_len (len v + Z.of_nat (length str));; xret tt.

Definition vstr_ins_blank_bytes (byte_pos byte_len : Z) : Mv Z :=
  v ← get;
  let l := len v in
  let byte_pos := if l <? byte_pos then l else byte_pos in
  if 0 <? byte_len then
    vstr_ensure_extra byte_len;;!
    move (byte_pos + byte_len) byte_pos (l - byte_pos);;
    set_len (l + byte_len);; xret byte_pos
  else xret byte_pos.

Definition vstr_ins_byte (byte_pos b : Z) : Mv unit :=
  s ←! vstr_ins_blank_bytes byte_pos 1; poke s [b];; xret tt.
Definition vstr_ins_char (char_pos chr : Z) : Mv unit :=
  s ←! vstr_ins_blank_bytes char_pos 1; poke s [u8 chr];; xret tt.

Definition vstr_cut_tail_bytes (n : Z) : Mv unit :=
  v ← get; set_len (if len v <? n then 0 else len v - n);; xret tt.

Definition vstr_cut_out_bytes (byte_pos bytes_to_cut : Z) : Mv unit :=
  v ← get;
  if len v <=? byte_pos then xret tt
  else if len v <=? u32 (byte_pos + bytes_to_cut) then set_len byte_pos;; xret tt
  else
    move byte_pos (byte_pos + bytes_to_cut) (len v - byte_pos - bytes_to_cut);;
    set_len (len v - bytes_to_cut);; xret tt.

Definition vstr_cut_head_bytes (bytes_to_cut : Z) : Mv unit := vstr_cut_out_bytes 0 bytes_to_cut.

End Vstr.
