(* ===== verification/VstrProps.v ===== *)
(** * Strings under construction are lists of bytes; UTF-8 round trip

    The operations of [py/vstr.c] against lists, for growing and for fixed
    buffers, and the encoder [vstr_add_char] against the decoder of
    [py/unicode.c]. *)
From S2P Require Import Prelude.
From S2P Require Import CMem.
From S2P Require Import BitFields.
From S2P Require Import Unicode.
From S2P Require Import Vstr.
Local Open Scope Z_scope.

(** ** The abstract string *)

Inductive vstr_op :=
  | AddByte (b : Z) | AddChar (c : Z) | AddStrn (s : list Z)
  | InsByte (p : nat) (b : Z) | InsChar (p : nat) (c : Z) | CutHead (n : nat) | CutTail (n : nat) | CutOut (p n : nat).

(** The UTF-8 encoding of a code point. *)
Definition encoding (c : Z) : list Z :=
  if c <? 0x80 then [c]
  else if c <? 0x800 then [0xC0 + c / 2 ^ 6; 0x80 + c `mod` 2 ^ 6]
  else if c <? 0x10000 then [0xE0 + c / 2 ^ 12; 0x80 + (c / 2 ^ 6) `mod` 2 ^ 6; 0x80 + c `mod` 2 ^ 6]
  else [0xF0 + c / 2 ^ 18; 0x80 + (c / 2 ^ 12) `mod` 2 ^ 6; 0x80 + (c / 2 ^ 6) `mod` 2 ^ 6; 0x80 + c `mod` 2 ^ 6].

Lemma encoding_length c : (length (encoding c) <= 4)%nat.
Proof. unfold encoding. repeat case_match; cbn [length]; lia. Qed.

(** The string after an operation. *)
Definition string_op (op : vstr_op) (s : list Z) : list Z :=
  match op with
  | AddByte b => s ++ [b]
  | AddChar c => s ++ encoding c
  | AddStrn t => s ++ t
  | InsByte p b => take p s ++ [b] ++ drop p s
  | InsChar p c => take p s ++ [u8 c] ++ drop p s
  | CutHead n => drop n s
  | CutTail n => take (length s - n) s
  | CutOut p n => take p s ++ drop (p + n) s
  end.

(** With a fixed buffer of [cap] bytes an operation that would need more raises
    and changes nothing. *)
Definition bounded (cap : option nat) (s s' : list Z) : (vstr_exn + unit) * list Z :=
  match cap with
  | Some n => if (n <? length s')%nat then (inl RuntimeError, s) else (inr tt, s')
  | None => (inr tt, s')
  end.
Definition bounded_op (cap : option nat) (op : vstr_op) (s : list Z) : (vstr_exn + unit) * list Z :=
  bounded cap s (string_op op s).

Section Run.
Context `{Fresh}.

Definition vstr_op_run (op : vstr_op) : M vstr_t (vstr_exn + unit) :=
  match op with
  | AddByte b => vstr_add_byte b
  | AddChar c => vstr_add_char c
  | AddStrn s => vstr_add_strn s
  | InsByte p b => vstr_ins_byte (Z.of_nat p) b
  | InsChar p c => vstr_ins_char (Z.of_nat p) c
  | CutHead n => vstr_cut_head_bytes (Z.of_nat n)
  | CutTail n => vstr_cut_tail_bytes (Z.of_nat n)
  | CutOut p n => vstr_cut_out_bytes (Z.of_nat p) (Z.of_nat n)
  end.

End Run.

Definition vstr_op_ok (op : vstr_op) : Prop :=
  match op with
  | AddChar c => 0 <= c < 0x110000
  | CutHead n => Z.of_nat n < 2 ^ 31
  | CutOut p n => Z.of_nat p < 2 ^ 31 /\ Z.of_nat n < 2 ^ 31
  | AddStrn t => Z.of_nat (length t) < 2 ^ 29
  | _ => True
  end.

(** ** Representation *)

Record str_ok (cap : option nat) (s : list Z) (v : vstr_t) : Prop := {
  so_fixed : fixed_buf v = bool_decide (cap <> None);
  so_alloc : alloc v = Z.of_nat (length (buf v));
  so_cap : forall n, cap = Some n -> length (buf v) = n;
  so_len : len v = Z.of_nat (length s);
  so_room : (length s <= length (buf v))%nat;
  so_prefix : take (length s) (buf v) = s }.

Lemma land_round w n a : 0 <= n <= w -> 0 <= a < 2 ^ w -> Z.land a (2 ^ w - 2 ^ n) = a / 2 ^ n * 2 ^ n.
Proof.
  intros Hn Ha. replace (2 ^ w - 2 ^ n) with (Z.ones (w - n) * 2 ^ n).
  2: { rewrite Z.ones_equiv, <-Z.sub_1_r, Z.mul_sub_distr_r, <-Z.pow_add_r by lia. f_equal; [f_equal; lia|lia]. }
  apply Z.bits_inj'. intros i Hi. rewrite Z.land_spec. destruct (Z.lt_ge_cases i n) as [Hlt|Hge].
  - rewrite !Z.mul_pow2_bits_low by lia. apply andb_false_r.
  - rewrite !Z.mul_pow2_bits by lia. rewrite Z.div_pow2_bits by lia. replace (i - n + n) with i by lia.
    destruct (Z.lt_ge_cases i w) as [Hlw|Hgw].
    + rewrite Z.ones_spec_low by lia. apply andb_true_r.
    + rewrite Z.ones_spec_high by lia. rewrite andb_false_r. symmetry.
      rewrite <-(Z.mod_small a (2 ^ w)) by done. apply Z.mod_pow2_bits_high. lia.
Qed.

Lemma ROUND_ALLOC_spec a : 0 <= a < 2 ^ 31 -> a < ROUND_ALLOC a <= a + 8.
Proof.
  intros Ha. unfold ROUND_ALLOC. change (u32 (-1) - 7) with (2 ^ 32 - 2 ^ 3). rewrite land_round by lia.
  pose proof (Z.div_mod a (2 ^ 3) ltac:(done)). pose proof (Z.mod_pos_bound a (2 ^ 3) ltac:(done)).
  change (2 ^ 3) with 8 in *. rewrite uwrap_small by lia. lia.
Qed.

Section Vstr.
Context `{Fresh}.

Lemma new_bytes_length n : length (new_bytes n) = Z.to_nat n.
Proof. unfold new_bytes. by rewrite length_map, length_seq. Qed.

Lemma renew_ok s v n : str_ok None s v -> alloc v <= n -> str_ok None s (renew n v).
Proof.
  intros [Hf Ha Hc Hl Hr Hp] Hn.
  assert (length (take (Z.to_nat n) (buf v) ++ new_bytes (n - alloc v)) = Z.to_nat n) as Hlen.
  { rewrite length_app, new_bytes_length, length_take. lia. }
  split; cbn [renew fixed_buf alloc len buf]; [done|lia|done|done|lia|].
  rewrite take_app_le by (rewrite length_take; lia). by rewrite take_take, Nat.min_l by lia.
Qed.

(** Making room, or raising. *)
Lemma wp_ensure_extra cap s v n (Q : vstr_exn + unit -> vstr_t -> Prop) : str_ok cap s v ->
  Z.of_nat (length s) + Z.of_nat n < 2 ^ 30 ->
  (forall m, cap = Some m -> (m < length s + n)%nat -> Q (inl RuntimeError) v) ->
  (forall v', str_ok cap s v' -> (length s + n <= length (buf v'))%nat -> Q (inr tt) v') ->
  wp (vstr_ensure_extra (Z.of_nat n)) v Q.
Proof.
  intros Hok Hsz Hraise HQ. pose proof Hok as [Hf Ha Hc Hl Hr Hp]. unfold vstr_ensure_extra. apply wp_bind.
  unfold wp at 1, get. rewrite Hl, uwrap_small by lia. destruct (Z.ltb_spec (alloc v) (Z.of_nat (length s) + Z.of_nat n)) as [Hlt|Hge].
  - rewrite Hf. destruct cap as [m|].
    + rewrite bool_decide_true by done. apply wp_ret, (Hraise m); [done|]. pose proof (Hc m eq_refl). lia.
    + rewrite bool_decide_false by congruence. apply wp_bind, wp_modify, wp_ret.
      rewrite uwrap_small by lia.
      pose proof (ROUND_ALLOC_spec (Z.of_nat (length s) + Z.of_nat n + 16) ltac:(lia)) as Hra.
      assert (str_ok None s (renew (ROUND_ALLOC (Z.of_nat (length s) + Z.of_nat n + 16)) v)) as Hok' by (apply renew_ok; [done|lia]).
      apply HQ; [done|]. pose proof (so_alloc _ _ _ Hok') as Ha'. cbn [renew alloc] in Ha'. lia.
  - apply wp_ret. apply HQ; [done|lia].
Qed.

Definition splice (b : list Z) (o : nat) (bs : list Z) : list Z := take o b ++ bs ++ drop (o + length bs) b.

Lemma wp_poke v o bs (Q : unit -> vstr_t -> Prop) : (o + length bs <= length (buf v))%nat ->
  Q tt (MkVstr (alloc v) (len v) (splice (buf v) o bs) (fixed_buf v)) -> wp (poke (Z.of_nat o) bs) v Q.
Proof. intros Hl HQ. unfold wp, poke. rewrite bool_decide_true by lia. by rewrite Nat2Z.id. Qed.

Lemma splice_length b o bs : (o + length bs <= length b)%nat -> length (splice b o bs) = length b.
Proof. intros Hl. unfold splice. rewrite !length_app, length_take, length_drop. lia. Qed.

Lemma take_splice b o bs k : (o + length bs <= length b)%nat -> k = (o + length bs)%nat ->
  take k (splice b o bs) = take o b ++ bs.
Proof.
  intros Hl ->. unfold splice. rewrite app_assoc. rewrite take_app_length' by (rewrite length_app, length_take; lia). done.
Qed.

(** A state with the buffer spliced and the length set. *)
Lemma spliced_ok cap s v o bs s' : str_ok cap s v -> (o + length bs <= length (buf v))%nat ->
  take (length s') (splice (buf v) o bs) = s' -> (length s' <= length (buf v))%nat ->
  str_ok cap s' (MkVstr (alloc v) (Z.of_nat (length s')) (splice (buf v) o bs) (fixed_buf v)).
Proof.
  intros [Hf Ha Hc Hl Hr Hp] Ho Hs' Hlen.
  split; cbn [fixed_buf alloc len buf]; rewrite ?splice_length by done; try done.
Qed.

(** Appending bytes. *)
Lemma wp_append cap s v bs (k : Mv unit) : str_ok cap s v -> Z.of_nat (length s) + Z.of_nat (length bs) < 2 ^ 30 ->
  k = xbind (vstr_add_len (Z.of_nat (length bs))) (fun p => poke p bs;; xret tt) ->
  wp k v (fun r v' => exists s', str_ok cap s' v' /\ (r, s') = bounded cap s (s ++ bs)).
Proof.
  intros Hok Hsz ->. unfold bounded. rewrite length_app. apply wp_xbind. unfold vstr_add_len. apply wp_xbind.
  apply (wp_ensure_extra cap s); [done|lia|..].
  - intros m -> Hm. exists s. split; [done|]. by rewrite (proj2 (Nat.ltb_lt _ _)).
  - intros v' Hok' Hroom. apply wp_bind. unfold wp at 1, get. apply wp_bind, wp_modify, wp_ret.
    rewrite (so_len _ _ _ Hok'). apply wp_bind, wp_poke; [done|]. apply wp_ret.
    exists (s ++ bs). cbn [alloc len buf fixed_buf]. split.
    + replace (Z.of_nat (length s) + Z.of_nat (length bs)) with (Z.of_nat (length (s ++ bs))) by (rewrite length_app; lia).
      apply (spliced_ok _ s); [done|done| |rewrite length_app; lia].
      rewrite take_splice by (done || rewrite length_app; lia). by rewrite (so_prefix _ _ _ Hok').
    + destruct cap as [m|]; [|done]. rewrite (proj2 (Nat.ltb_ge _ _)); [done|].
      rewrite <-(so_cap _ _ _ Hok' m eq_refl). lia.
Qed.

(** What an operation leaves behind. *)
Definition op_post (cap : option nat) (op : vstr_op) (s : list Z) (r : vstr_exn + unit) (v : vstr_t) : Prop :=
  exists s', str_ok cap s' v /\ (r, s') = bounded_op cap op s.

(** The bytes of an encoding. *)
Lemma cont_byte x : u8 (Z.lor (Z.land x 0x3F) 0x80) = 0x80 + x `mod` 2 ^ 6.
Proof.
  change 0x3F with (2 ^ 6 - 1). rewrite land_pow2_mask by done. change 0x80 with (2 * 2 ^ 6).
  pose proof (Z.mod_pos_bound x (2 ^ 6) ltac:(done)). rewrite Z.lor_comm, lor_add_disjoint by done.
  apply uwrap_small. lia.
Qed.

Lemma lead_byte k n t c : 0 <= k -> 0 <= n -> 0 <= t -> 0 <= c < 2 ^ (k + n) -> t * 2 ^ n + 2 ^ n <= 256 ->
  u8 (Z.lor (Z.shiftr c k) (t * 2 ^ n)) = t * 2 ^ n + c / 2 ^ k.
Proof.
  intros Hk Hn Ht Hc Hmax. rewrite shiftr_div, Z.lor_comm by done. rewrite Z.pow_add_r in Hc by done.
  assert (0 <= c / 2 ^ k < 2 ^ n). { split; [apply Z.div_pos; lia|apply Z.div_lt_upper_bound; lia]. }
  rewrite lor_add_disjoint by done. apply uwrap_small. change (2 ^ 8) with 256. nia.
Qed.

Lemma wp_add_char cap s v c : str_ok cap s v -> 0 <= c < 0x110000 -> Z.of_nat (length s) + 4 < 2 ^ 30 ->
  wp (vstr_add_char c) v (op_post cap (AddChar c) s).
Proof.
  intros Hok Hc Hsz. unfold op_post, vstr_add_char, bounded_op. cbn [string_op]. unfold encoding.
  destruct (Z.ltb_spec c 0x80); [|destruct (Z.ltb_spec c 0x800); [|destruct (Z.ltb_spec c 0x10000)]].
  - apply (wp_append cap s v [c]); [done|cbn; lia|]. by rewrite uwrap_small by lia.
  - apply (wp_append cap s v [_; _]); [done|cbn; lia|]. rewrite cont_byte.
    by rewrite (lead_byte 6 5 6) by lia.
  - apply (wp_append cap s v [_; _; _]); [done|cbn; lia|]. rewrite !cont_byte, (lead_byte 12 4 14) by lia.
    by rewrite shiftr_div.
  - apply wp_bind, wp_assert; [apply Z.ltb_lt; lia|]. apply (wp_append cap s v [_; _; _; _]); [done|cbn; lia|].
    rewrite !cont_byte, (lead_byte 18 3 30) by lia. rewrite !shiftr_div by done. done.
Qed.

Lemma wp_add_strn cap s v t : str_ok cap s v -> Z.of_nat (length s) + Z.of_nat (length t) < 2 ^ 30 ->
  wp (vstr_add_strn t) v (op_post cap (AddStrn t) s).
Proof.
  intros Hok Hsz. unfold vstr_add_strn. apply wp_xbind, (wp_ensure_extra cap s); [done|lia|..].
  - intros m -> Hm. exists s. split; [done|]. unfold bounded_op, bounded. cbn [string_op]. by rewrite length_app, (proj2 (Nat.ltb_lt _ _)).
  - intros v' Hok' Hroom. apply wp_bind. unfold wp at 1, get. rewrite (so_len _ _ _ Hok').
    apply wp_bind, wp_poke; [done|]. apply wp_bind, wp_modify, wp_xret. cbn [alloc buf fixed_buf].
    exists (s ++ t). split.
    + rewrite <-Nat2Z.inj_add, <-length_app.
      apply (spliced_ok _ s); [done|done| |rewrite length_app; lia].
      rewrite take_splice by (done || rewrite length_app; lia). by rewrite (so_prefix _ _ _ Hok').
    + destruct cap as [m|]; [|done]. unfold bounded_op, bounded. cbn [string_op]. rewrite length_app, (proj2 (Nat.ltb_ge _ _)); [done|].
      rewrite <-(so_cap _ _ _ Hok' m eq_refl). lia.
Qed.

(** Inserting one byte: the tail moves up and the hole is filled. *)
Lemma splice_insert (s b : list Z) p x : (p <= length s)%nat -> (length s < length b)%nat -> take (length s) b = s ->
  take (S (length s)) (splice (splice b (p + 1) (take (length s - p) (drop p b))) p [x]) = take p s ++ [x] ++ drop p s.
Proof.
  intros Hp Hb Hs. pose proof (f_equal (take p) Hs) as Hs1. rewrite take_take, Nat.min_l in Hs1 by done.
  assert (take (length s - p) (drop p b) = drop p s) as Hd.
  { rewrite <-Hs at 2. rewrite <-(firstn_skipn p (take (length s) b)), drop_app_length'.
    - by rewrite skipn_firstn_comm.
    - rewrite !length_take. lia. }
  rewrite Hd. assert (length (drop p s) = (length s - p)%nat) as Hl by by rewrite length_drop.
  unfold splice at 1. rewrite app_assoc, take_app_ge by (rewrite length_app, length_take, splice_length; [cbn; lia|lia]).
  rewrite length_app, length_take, splice_length by lia. rewrite app_assoc. f_equal.
  - f_equal. unfold splice. rewrite take_app_le by (rewrite length_take; lia). rewrite take_take, Nat.min_l by lia. done.
  - replace (S (length s) - _)%nat with (length (drop p s)) by (cbn; lia).
    unfold splice. rewrite drop_app_ge by (rewrite length_take; cbn; lia). rewrite length_take.
    replace (p + length [x] - _)%nat with 0%nat by (cbn; lia). by rewrite drop_0, take_app_length.
Qed.

Lemma wp_ins cap s v p x : str_ok cap s v -> Z.of_nat (length s) + 1 < 2 ^ 30 ->
  wp (s ←! vstr_ins_blank_bytes (Z.of_nat p) 1; poke s [x];; xret tt) v (fun r v' =>
    exists s', str_ok cap s' v' /\ (r, s') = bounded cap s (take p s ++ [x] ++ drop p s)).
Proof.
  intros Hok Hsz.
  set (q := (p `min` length s)%nat).
  assert (take p s ++ [x] ++ drop p s = take q s ++ [x] ++ drop q s) as ->.
  { unfold q. destruct (Nat.le_gt_cases p (length s)); [by rewrite Nat.min_l|]. rewrite Nat.min_r by lia.
    by rewrite !take_ge, !drop_ge by lia. }
  assert (length (take q s ++ [x] ++ drop q s) = S (length s)) as Hlen.
  { rewrite !length_app, length_take, length_drop. cbn. lia. }
  apply wp_xbind. unfold vstr_ins_blank_bytes. apply wp_bind. unfold wp at 1, get.
  rewrite (so_len _ _ _ Hok). cbn zeta. change (0 <? 1) with true. cbv iota.
  replace (if _ <? _ then _ else _) with (Z.of_nat q) by (unfold q; case_bool; lia).
  apply wp_xbind, (wp_ensure_extra cap s v 1); [done|cbn; lia|..].
  - intros m -> Hm. exists s. split; [done|]. unfold bounded. rewrite Hlen. by rewrite (proj2 (Nat.ltb_lt _ _)) by lia.
  - intros v' Hok' Hroom. apply wp_bind. unfold move. apply wp_bind. unfold wp at 1, get.
    apply wp_bind, wp_assert. { apply bool_decide_eq_true. lia. }
    rewrite Nat2Z.id. replace (Z.of_nat q + 1) with (Z.of_nat (q + 1)) by lia.
    replace (Z.to_nat (Z.of_nat (length s) - Z.of_nat q)) with (length s - q)%nat by lia.
    assert (length (take (length s - q) (drop q (buf v'))) = (length s - q)%nat) as Hmv.
    { rewrite length_take, length_drop. lia. }
    apply wp_poke; [rewrite Hmv; lia|].
    apply wp_bind, wp_modify, wp_xret. cbn [alloc buf fixed_buf]. apply wp_bind, wp_poke.
    { cbn [buf]. rewrite splice_length by (rewrite Hmv; lia). cbn. lia. }
    apply wp_xret. cbn [alloc len buf fixed_buf]. exists (take q s ++ [x] ++ drop q s). split.
    + replace (Z.of_nat (length s) + 1) with (Z.of_nat (length (take q s ++ [x] ++ drop q s))) by (rewrite Hlen; lia).
      pose proof Hok' as [Hf Ha Hc Hl Hr Hp].
      split; cbn [fixed_buf alloc len buf]; rewrite ?splice_length by (rewrite ?splice_length by (rewrite Hmv; lia); rewrite ?Hmv; cbn; lia); try done.
      * lia.
      * rewrite Hlen. apply splice_insert; [lia|lia|done].
    + unfold bounded. destruct cap as [m|]; [|done]. rewrite Hlen, (proj2 (Nat.ltb_ge _ _)); [done|].
      rewrite <-(so_cap _ _ _ Hok' m eq_refl). lia.
Qed.

(** Cutting: the string gets shorter, no exception. *)
Lemma bounded_shorter cap s s' v : str_ok cap s v -> (length s' <= length s)%nat -> bounded cap s s' = (inr tt, s').
Proof.
  intros Hok Hl. unfold bounded. destruct cap as [m|]; [|done]. rewrite (proj2 (Nat.ltb_ge _ _)); [done|].
  rewrite <-(so_cap _ _ _ Hok m eq_refl). pose proof (so_room _ _ _ Hok). lia.
Qed.

Lemma shorter_ok cap s v n : str_ok cap s v -> (n <= length s)%nat ->
  str_ok cap (take n s) (MkVstr (alloc v) (Z.of_nat n) (buf v) (fixed_buf v)).
Proof.
  intros [Hf Ha Hc Hl Hr Hp] Hn. assert (length (take n s) = n) as Htl by (rewrite length_take; lia).
  split; cbn [fixed_buf alloc len buf]; rewrite ?Htl; try done; [lia|].
  rewrite <-Hp, take_take. by rewrite Nat.min_l by lia.
Qed.

Lemma wp_cut_tail cap s v n : str_ok cap s v ->
  wp (vstr_cut_tail_bytes (Z.of_nat n)) v (op_post cap (CutTail n) s).
Proof.
  intros Hok. unfold vstr_cut_tail_bytes. apply wp_bind. unfold wp at 1, get.
  apply wp_bind, wp_modify, wp_xret. rewrite (so_len _ _ _ Hok). exists (take (length s - n) s).
  unfold bounded_op. cbn [string_op]. rewrite (bounded_shorter _ _ _ v) by (done || rewrite length_take; lia). split; [|done].
  replace (if _ <? _ then _ else _) with (Z.of_nat (length s - n)) by (case_bool; lia).
  apply shorter_ok; [done|lia].
Qed.

Lemma wp_cut_out cap s v p n : str_ok cap s v -> Z.of_nat p < 2 ^ 31 -> Z.of_nat n < 2 ^ 31 ->
  wp (vstr_cut_out_bytes (Z.of_nat p) (Z.of_nat n)) v (op_post cap (CutOut p n) s).
Proof.
  intros Hok Hp Hn. unfold vstr_cut_out_bytes, op_post, bounded_op. cbn [string_op].
  rewrite (bounded_shorter _ _ _ v) by (done || rewrite length_app, length_take, length_drop; lia).
  apply wp_bind. unfold wp at 1, get. rewrite (so_len _ _ _ Hok), uwrap_small by lia.
  destruct (Z.leb_spec (Z.of_nat (length s)) (Z.of_nat p)) as [Hle|Hgt]; [|destruct (Z.leb_spec (Z.of_nat (length s)) (Z.of_nat p + Z.of_nat n))].
  - apply wp_xret. eexists. split; [|done]. rewrite take_ge, drop_ge, app_nil_r by lia. done.
  - apply wp_bind, wp_modify, wp_xret. eexists. split; [|done]. rewrite drop_ge, app_nil_r by lia.
    apply (shorter_ok _ s); [done|lia].
  - assert (length (take p s ++ drop (p + n) s) = (length s - n)%nat) as Hlen.
    { rewrite length_app, length_take, length_drop. lia. }
    pose proof Hok as [Hf Ha Hc Hl Hr Hpre].
    apply wp_bind. unfold move. apply wp_bind. unfold wp at 1, get. apply wp_bind, wp_assert.
    { apply bool_decide_eq_true. lia. }
    rewrite <-Nat2Z.inj_add, Nat2Z.id.
    replace (Z.to_nat (Z.of_nat (length s) - Z.of_nat p - Z.of_nat n)) with (length s - (p + n))%nat by lia.
    assert (length (take (length s - (p + n)) (drop (p + n) (buf v))) = (length s - (p + n))%nat) as Hmv.
    { rewrite length_take, length_drop. lia. }
    apply wp_poke; [lia|]. apply wp_bind, wp_modify, wp_xret. cbn [alloc buf fixed_buf].
    exists (take p s ++ drop (p + n) s). split; [|done].
    replace (Z.of_nat (length s) - Z.of_nat n) with (Z.of_nat (length (take p s ++ drop (p + n) s))) by lia.
    apply (spliced_ok _ s); [done|lia| |lia].
    rewrite take_splice by lia. rewrite <-Hpre at 2 3. rewrite skipn_firstn_comm.
    f_equal. rewrite take_take. f_equal. lia.
Qed.

(** Every operation behaves as the operation on the list of bytes. *)
Lemma wp_vstr_op cap op s v : str_ok cap s v -> vstr_op_ok op -> Z.of_nat (length s) < 2 ^ 29 ->
  wp (vstr_op_run op) v (op_post cap op s).
Proof.
  intros Hok Hop Hsz. destruct op as [b|c|t|p b|p c|n|n|p n]; cbn [vstr_op_run vstr_op_ok] in *.
  - apply (wp_append cap s v [b]); [done|cbn; lia|done].
  - apply wp_add_char; [done|done|lia].
  - apply wp_add_strn; [done|lia].
  - apply wp_ins; [done|lia].
  - apply wp_ins; [done|lia].
  - apply (wp_cut_out cap s v 0 n); [done|lia|done].
  - by apply wp_cut_tail.
  - destruct Hop. by apply wp_cut_out.
Qed.

(** Sequences of operations. *)
Fixpoint vstr_ops (ops : list vstr_op) : M vstr_t (list (vstr_exn + unit)) :=
  match ops with
  | [] => mret []
  | op :: ops => r ← vstr_op_run op; rs ← vstr_ops ops; mret (r :: rs)
  end.

Fixpoint bounded_ops (cap : option nat) (ops : list vstr_op) (s : list Z) : list (vstr_exn + unit) * list Z :=
  match ops with
  | [] => ([], s)
  | op :: ops =>
      let '(r, s) := bounded_op cap op s in let '(rs, s) := bounded_ops cap ops s in (r :: rs, s)
  end.

(** The bytes an operation adds at most. *)
Definition op_size (op : vstr_op) : nat :=
  match op with AddChar _ => 4 | AddStrn t => length t | _ => 1 end.

Lemma bounded_op_size cap op s : (length (bounded_op cap op s).2 <= length s + op_size op)%nat.
Proof.
  assert (length (string_op op s) <= length s + op_size op)%nat as Hs.
  { destruct op; cbn [string_op op_size]; rewrite ?length_app, ?length_take, ?length_drop; cbn; try lia.
    pose proof (encoding_length c). lia. }
  unfold bounded_op, bounded. destruct cap as [m|]; [case_match|]; cbn; lia.
Qed.

Lemma wp_vstr_ops cap ops : forall s v, str_ok cap s v -> Forall vstr_op_ok ops ->
  Z.of_nat (length s + sum_list (map op_size ops)) < 2 ^ 29 ->
  wp (vstr_ops ops) v (fun rs v' => exists s', str_ok cap s' v' /\ (rs, s') = bounded_ops cap ops s).
Proof.
  induction ops as [|op ops IH]; intros s v Hok Hops Hsz; cbn [vstr_ops bounded_ops].
  - apply wp_ret. by exists s.
  - apply Forall_cons in Hops as [Hop Hops]. cbn in Hsz. apply wp_bind.
    eapply wp_mono; [apply (wp_vstr_op cap op s); [done|done|lia]|].
    intros r v1 (s1 & Hok1 & Hs1). pose proof (bounded_op_size cap op s) as Hlen. rewrite <-Hs1 in *. cbn in Hlen.
    apply wp_bind. eapply wp_mono; [apply (IH s1); [done|done|lia]|].
    intros rs v2 (s2 & Hok2 & Hs2). apply wp_ret. exists s2. split; [done|]. by rewrite <-Hs2.
Qed.

Lemma vstr_init_ok n : 0 <= n -> str_ok None [] (vstr_init n).
Proof.
  intros Hn. unfold vstr_init. split; cbn [fixed_buf alloc len buf]; try done; rewrite ?new_bytes_length; [|cbn; lia].
  case_bool; lia.
Qed.

Lemma vstr_fixed_ok b : str_ok (Some (length b)) [] (vstr_init_fixed_buf (Z.of_nat (length b)) b).
Proof. split; cbn [vstr_init_fixed_buf fixed_buf alloc len buf]; try done; [by intros n [=]|cbn; lia]. Qed.

End Vstr.

(** ** UTF-8 *)

Lemma is_cont b : is_byte b -> UTF8_IS_CONT b = (0x80 <=? b) && (b <? 0xC0).
Proof.
  intros Hb. apply eqb_prop.
  apply (byte_table (fun b => Bool.eqb (UTF8_IS_CONT b) ((0x80 <=? b) && (b <? 0xC0))) b); [by vm_compute|done].
Qed.

(** The bits of the lead byte of a sequence. *)
Lemma lead_bits b : is_byte b -> 0xC0 <= b < 0xF8 ->
  UTF8_IS_NONASCII b = true /\
  strip_lead 8 0x40 (Z.land b 0x7F) = (if b <? 0xE0 then b - 0xC0 else if b <? 0xF0 then b - 0xE0 else b - 0xF0).
Proof.
  intros Hb Hr.
  pose proof (byte_table (fun b => if (0xC0 <=? b) && (b <? 0xF8) then UTF8_IS_NONASCII b &&
    (strip_lead 8 0x40 (Z.land b 0x7F) =? (if b <? 0xE0 then b - 0xC0 else if b <? 0xF0 then b - 0xE0 else b - 0xF0))
    else true) b) as Ht.
  specialize (Ht ltac:(by vm_compute) Hb). cbv beta in Ht.
  rewrite (proj2 (Z.leb_le _ _)), (proj2 (Z.ltb_lt _ _)) in Ht by lia. cbn [andb] in Ht.
  apply andb_prop in Ht as [H1 H2]. by apply Z.eqb_eq in H2.
Qed.

Lemma cont_bytes_step ord x s : 0 <= ord < 2 ^ 24 -> 0 <= x < 2 ^ 6 ->
  cont_bytes ord (0x80 + x :: s) = cont_bytes (ord * 2 ^ 6 + x) s.
Proof.
  intros Ho Hx. cbn [cont_bytes]. rewrite is_cont by (unfold is_byte; lia).
  rewrite (proj2 (Z.leb_le _ _)), (proj2 (Z.ltb_lt _ _)) by lia. cbn [andb]. f_equal.
  rewrite shiftl_mul, uwrap_small by lia. change 0x3F with (2 ^ 6 - 1). rewrite land_pow2_mask by done.
  replace ((128 + x) `mod` 2 ^ 6) with x; [by apply lor_add_disjoint|].
  apply (Z.mod_unique_pos _ _ 2); lia.
Qed.

(** [s] does not start inside a sequence. *)
Definition at_char (s : list Z) : Prop := exists b t, s = b :: t /\ is_byte b /\ UTF8_IS_CONT b = false.

Lemma cont_bytes_end ord s : at_char s -> cont_bytes ord s = Some ord.
Proof. intros (b & t & -> & _ & Hb). cbn. by rewrite Hb. Qed.

Lemma skip_cont_end s : at_char s -> skip_cont s = Some s.
Proof. intros (b & t & -> & _ & Hb). cbn. by rewrite Hb. Qed.

(** The shape of an encoding: a lead byte and its continuation bytes. *)
Lemma encoding_shape c : 0 <= c < 0x110000 -> exists b t, encoding c = b :: t /\
  is_byte b /\ UTF8_IS_CONT b = false /\ Forall is_byte t /\ Forall (fun x => UTF8_IS_CONT x = true) t /\
  Z.of_nat (length t) = (if c <? 0x80 then 0 else if c <? 0x800 then 1 else if c <? 0x10000 then 2 else 3) /\
  (b < 0x80 <-> c < 0x80) /\ b < 0xF8 /\
  (0x80 <= c -> Z.land (Z.shiftr 0xe5 (Z.land (Z.shiftr b 3) 0x6)) 3 = Z.of_nat (length t)).
Proof.
  intros Hc.
  assert (forall x, is_byte (0x80 + x `mod` 2 ^ 6) /\ UTF8_IS_CONT (0x80 + x `mod` 2 ^ 6) = true) as Hcont.
  { intros x. pose proof (Z.mod_pos_bound x (2 ^ 6) ltac:(done)). split; [unfold is_byte; lia|].
    rewrite is_cont by (unfold is_byte; lia). apply andb_true_intro. split; [apply Z.leb_le|apply Z.ltb_lt]; lia. }
  assert (forall b, is_byte b -> 0xC0 <= b \/ b < 0x80 -> UTF8_IS_CONT b = false) as Hlead.
  { intros b Hb Hr. rewrite is_cont by done. apply andb_false_iff. destruct Hr; [right; apply Z.ltb_ge|left; apply Z.leb_gt]; lia. }
  assert (forall b n, is_byte b -> 0xC0 + n <= b < (if n =? 0 then 0xE0 else if n =? 32 then 0xF0 else 0xF8) ->
    n = 0 \/ n = 32 \/ n = 48 -> Z.land (Z.shiftr 0xe5 (Z.land (Z.shiftr b 3) 0x6)) 3 = (if n =? 0 then 1 else if n =? 32 then 2 else 3)) as Hneed.
  { intros b n Hb Hr Hn. pose proof (byte_table (fun b => (b <? 0xC0) || (0xF8 <=? b) ||
      (Z.land (Z.shiftr 0xe5 (Z.land (Z.shiftr b 3) 0x6)) 3 =? (if b <? 0xE0 then 1 else if b <? 0xF0 then 2 else 3))) b
      ltac:(by vm_compute) Hb) as Ht. cbv beta in Ht. to_prop.
    destruct Hn as [-> | [-> | ->]]; cbn in Hr |- *; repeat case_match; to_prop; lia. }
  unfold encoding. destruct (Z.ltb_spec c 0x80); [|destruct (Z.ltb_spec c 0x800); [|destruct (Z.ltb_spec c 0x10000)]].
  - exists c, []. assert (is_byte c) by (unfold is_byte; lia). repeat (split; [solve [done | apply Hlead; [done|lia]]|]). lia.
  - assert (2 <= c / 2 ^ 6 < 32). { split; [apply Z.div_le_lower_bound; lia|apply Z.div_lt_upper_bound; lia]. }
    assert (is_byte (0xC0 + c / 2 ^ 6)) as Hb by (unfold is_byte; lia).
    eexists _, _. split; [done|]. destruct (Hcont c).
    split; [done|]. split; [apply Hlead; [done|lia]|]. repeat (split; [by repeat apply Forall_cons_2|]).
    split; [lia|]. split; [lia|]. intros _. rewrite (Hneed _ 0); [done|done|cbn; lia|lia].
  - assert (0 <= c / 2 ^ 12 < 16). { split; [apply Z.div_pos; lia|apply Z.div_lt_upper_bound; lia]. }
    assert (is_byte (0xE0 + c / 2 ^ 12)) as Hb by (unfold is_byte; lia).
    eexists _, _. split; [done|]. destruct (Hcont c), (Hcont (c / 2 ^ 6)).
    split; [done|]. split; [apply Hlead; [done|lia]|]. repeat (split; [by repeat apply Forall_cons_2|]).
    split; [lia|]. split; [lia|]. intros _. rewrite (Hneed _ 32); [done|done|cbn; lia|lia].
  - assert (0 <= c / 2 ^ 18 < 8). { split; [apply Z.div_pos; lia|apply Z.div_lt_upper_bound; lia]. }
    assert (is_byte (0xF0 + c / 2 ^ 18)) as Hb by (unfold is_byte; lia).
    eexists _, _. split; [done|]. destruct (Hcont c), (Hcont (c / 2 ^ 6)), (Hcont (c / 2 ^ 12)).
    split; [done|]. split; [apply Hlead; [done|lia]|]. repeat (split; [by repeat apply Forall_cons_2|]).
    split; [lia|]. split; [lia|]. intros _. rewrite (Hneed _ 48); [done|done|cbn; lia|lia].
Qed.

Lemma skip_cont_app t rest : Forall (fun x => UTF8_IS_CONT x = true) t -> at_char rest -> skip_cont (t ++ rest) = Some rest.
Proof.
  intros Ht Hr. induction Ht as [|x t Hx Ht IH]; [by apply skip_cont_end|]. cbn. by rewrite Hx.
Qed.

Lemma decode_get c rest : 0 <= c < 0x110000 -> at_char rest -> utf8_get_char (encoding c ++ rest) = Some c.
Proof.
  intros Hc Hr.
  assert (forall x, 0 <= x `mod` 2 ^ 6 < 2 ^ 6) as Hm by (intros; by apply Z.mod_pos_bound).
  pose proof (Hm c). pose proof (Hm (c / 2 ^ 6)). pose proof (Hm (c / 2 ^ 12)).
  assert (c / 2 ^ 6 * 2 ^ 6 + c `mod` 2 ^ 6 = c) as E1 by (rewrite Z.mul_comm, <-Z.div_mod; done).
  assert (c / 2 ^ 12 * 2 ^ 6 + (c / 2 ^ 6) `mod` 2 ^ 6 = c / 2 ^ 6) as E2.
  { change (2 ^ 12) with (2 ^ 6 * 2 ^ 6). rewrite <-Z.div_div by done. rewrite Z.mul_comm, <-Z.div_mod; done. }
  assert (c / 2 ^ 18 * 2 ^ 6 + (c / 2 ^ 12) `mod` 2 ^ 6 = c / 2 ^ 12) as E3.
  { change (2 ^ 18) with (2 ^ 12 * 2 ^ 6). rewrite <-Z.div_div by done. rewrite Z.mul_comm, <-Z.div_mod; done. }
  unfold encoding. destruct (Z.ltb_spec c 0x80); [|destruct (Z.ltb_spec c 0x800); [|destruct (Z.ltb_spec c 0x10000)]];
    cbn [app utf8_get_char].
  - pose proof (byte_table (fun b => Bool.eqb (UTF8_IS_NONASCII b) (0x80 <=? b)) c ltac:(by vm_compute)) as Ht.
    rewrite (eqb_prop _ _ (Ht ltac:(unfold is_byte; lia))). by rewrite (proj2 (Z.leb_gt _ _)) by lia.
  - assert (2 <= c / 2 ^ 6 < 32) by (split; [apply Z.div_le_lower_bound; lia|apply Z.div_lt_upper_bound; lia]).
    destruct (lead_bits (0xC0 + c / 2 ^ 6)) as [-> ->]; [unfold is_byte; lia|lia|]. cbn [negb].
    rewrite (proj2 (Z.ltb_lt _ _)) by lia. rewrite cont_bytes_step by lia.
    rewrite cont_bytes_end by done. f_equal. lia.
  - assert (0 <= c / 2 ^ 12 < 16) by (split; [apply Z.div_pos; lia|apply Z.div_lt_upper_bound; lia]).
    destruct (lead_bits (0xE0 + c / 2 ^ 12)) as [-> ->]; [unfold is_byte; lia|lia|]. cbn [negb].
    rewrite (proj2 (Z.ltb_ge _ _)), (proj2 (Z.ltb_lt _ _)) by lia. rewrite !cont_bytes_step by lia.
    rewrite cont_bytes_end by done. f_equal. lia.
  - assert (0 <= c / 2 ^ 18 < 8) by (split; [apply Z.div_pos; lia|apply Z.div_lt_upper_bound; lia]).
    destruct (lead_bits (0xF0 + c / 2 ^ 18)) as [-> ->]; [unfold is_byte; lia|lia|]. cbn [negb].
    rewrite !(proj2 (Z.ltb_ge _ _)) by lia. rewrite !cont_bytes_step by lia.
    rewrite cont_bytes_end by done. f_equal. lia.
Qed.

Lemma decode_next c rest : 0 <= c < 0x110000 -> at_char rest -> utf8_next_char (encoding c ++ rest) = Some rest.
Proof.
  intros Hc Hr. destruct (encoding_shape c Hc) as (b & t & -> & _ & _ & _ & Ht & _). by apply skip_cont_app.
Qed.

(** A text: the encodings of its code points. *)
Definition text (cs : list Z) : list Z := concat (map encoding cs).
Definition code_point (c : Z) : Prop := 0 <= c < 0x110000.

Lemma at_char_text cs rest : Forall code_point cs -> at_char rest -> at_char (text cs ++ rest).
Proof.
  intros Hcs Hr. destruct Hcs as [|c cs Hc Hcs]; [done|]. unfold text. cbn.
  destruct (encoding_shape c Hc) as (b & t & -> & Hb & Hn & _). by eexists _, _.
Qed.

Lemma check_cont t rest : Forall (fun x => UTF8_IS_CONT x = true) t -> (length t <= 3)%nat ->
  check_from (Z.of_nat (length t)) (t ++ rest) = check_from 0 rest.
Proof.
  intros Ht. induction Ht as [|x t Hx Ht IH]; intros Hl; [done|]. cbn in Hl. cbn [app check_from].
  rewrite (proj2 (Z.eqb_neq _ 0)) by (cbn; lia). cbn [negb]. rewrite Hx. rewrite <-IH by lia. f_equal.
  rewrite uwrap_small by (cbn; lia). cbn. lia.
Qed.

Lemma text_check cs : Forall code_point cs -> check_from 0 (text cs) = true.
Proof.
  intros Hcs. induction Hcs as [|c cs Hc Hcs IH]; [done|]. unfold text in *. cbn [map concat].
  destruct (encoding_shape c Hc) as (b & t & -> & Hb & Hn & _ & Ht & Hl & Hlt & H8 & Hneed). cbn [app check_from Z.eqb negb].
  rewrite is_cont in Hn by done. assert (length t <= 3)%nat by (repeat case_match; lia).
  destruct (Z.leb_spec 0xC0 b) as [Hge|Hl1].
  - rewrite (proj2 (Z.leb_gt _ _)) by lia. rewrite Hneed by lia. by rewrite check_cont.
  - apply andb_false_iff in Hn. assert (b < 0x80) by (to_prop; lia). rewrite (proj2 (Z.leb_gt _ _)) by lia.
    rewrite (proj2 (Z.ltb_lt c 0x80)) in Hl by lia. by destruct t.
Qed.

Lemma charlen_app s t : utf8_charlen (s ++ t) = utf8_charlen s + utf8_charlen t.
Proof. induction s as [|c s IH]; [done|]. cbn. lia. Qed.

Lemma charlen_cont t : Forall (fun x => UTF8_IS_CONT x = true) t -> utf8_charlen t = 0.
Proof. induction 1 as [|x t Hx Ht IH]; [done|]. cbn. by rewrite Hx. Qed.

Lemma text_charlen cs : Forall code_point cs -> utf8_charlen (text cs) = Z.of_nat (length cs).
Proof.
  intros Hcs. induction Hcs as [|c cs Hc Hcs IH]; [done|]. unfold text in *. cbn [map concat].
  destruct (encoding_shape c Hc) as (b & t & -> & _ & Hn & _ & Ht & _). rewrite charlen_app. cbn.
  rewrite Hn, charlen_cont by done. cbn. lia.
Qed.

(** Counting backwards gives the same number. *)
Lemma ptr_to_index_charlen s : forall i, 0 <= i -> i + Z.of_nat (length s) < 2 ^ 32 -> ptr_to_index (rev s) i = i + utf8_charlen s.
Proof.
  induction s as [|c s IH] using rev_ind; intros i Hi Hl; [cbn; lia|].
  rewrite rev_app_distr, charlen_app. rewrite length_app in Hl. cbn in Hl |- *.
  destruct (UTF8_IS_CONT c); cbn [negb]; [|rewrite uwrap_small by lia]; rewrite IH by lia; lia.
Qed.

Section Results.
Context `{Fresh}.

(** The string with a null byte after it. *)
Lemma wp_null_terminated cap s v : str_ok cap s v -> Z.of_nat (length s) + 1 < 2 ^ 30 ->
  wp vstr_null_terminated_str v (fun r v' => str_ok cap s v' /\
    (r = inr tt /\ take (S (length s)) (buf v') = s ++ [0] \/ r = inl RuntimeError /\ cap = Some (length s))).
Proof.
  intros Hok Hsz. unfold vstr_null_terminated_str. apply wp_bind. unfold wp at 1, get. cbv beta.
  assert (forall v1, str_ok cap s v1 -> (length s < length (buf v1))%nat ->
    wp (v0 ← get; poke (len v0) [0];; xret tt) v1 (fun r v' => str_ok cap s v' /\
      (r = inr tt /\ take (S (length s)) (buf v') = s ++ [0] \/ r = inl RuntimeError /\ cap = Some (length s)))) as Hend.
  { intros v1 Hok1 Hroom. apply wp_bind. unfold wp at 1, get. rewrite (so_len _ _ _ Hok1).
    apply wp_bind, wp_poke; [cbn; lia|]. apply wp_xret. cbn [buf].
    pose proof (take_splice (buf v1) (length s) [0] (S (length s)) ltac:(cbn; lia) ltac:(cbn; lia)) as Ht.
    rewrite (so_prefix _ _ _ Hok1) in Ht. split; [|by left].
    rewrite (so_len _ _ _ Hok1). apply (spliced_ok _ s); [done|cbn; lia| |lia].
    apply (f_equal (take (length s))) in Ht. rewrite take_take, Nat.min_l in Ht by lia. by rewrite Ht, take_app_length. }
  pose proof Hok as [Hf Ha Hc Hl Hr Hp]. apply wp_xbind. rewrite Hl, Ha.
  destruct (Z.eqb_spec (Z.of_nat (length (buf v))) (Z.of_nat (length s))) as [He|Hne]; [|apply wp_xret, Hend; [done|lia]].
  apply wp_xbind. unfold vstr_extend. apply wp_bind. unfold wp at 1, get. rewrite Hf. destruct cap as [m|].
  - rewrite bool_decide_true by done. apply wp_ret. split; [done|]. right. split; [done|].
    rewrite <-(Hc m eq_refl). f_equal. lia.
  - rewrite bool_decide_false by congruence. apply wp_bind, wp_modify, wp_xret, wp_xret.
    rewrite Ha, uwrap_small by lia. assert (str_ok None s (renew (Z.of_nat (length (buf v)) + 1) v)) as Hok' by (apply renew_ok; [done|lia]).
    apply Hend; [done|]. pose proof (so_alloc _ _ _ Hok') as Ha'. cbn [renew alloc] in Ha'. lia.
Qed.

Lemma bounded_ops_chars cs s : (bounded_ops None (map AddChar cs) s).2 = s ++ text cs.
Proof.
  revert s. induction cs as [|c cs IH]; intros s; [by rewrite app_nil_r|].
  cbn [map bounded_ops bounded_op bounded]. specialize (IH (s ++ encoding c)). unfold bounded_op, bounded. cbn [string_op].
  destruct (bounded_ops None (map AddChar cs) (s ++ encoding c)) as [rs t]. cbn in IH |- *. rewrite IH. by rewrite <-app_assoc.
Qed.

(** C37: Any sequence of appends (bytes, characters, strings), insertions and
    cuts on a growing string gives the list of bytes it should; on a fixed
    buffer of any size the operations that do not fit, and only those, raise
    RuntimeError and leave the string as it was. *)
Theorem vstr_refines_list ops n b : Forall vstr_op_ok ops -> 0 <= n ->
  Z.of_nat (sum_list (map op_size ops)) < 2 ^ 29 ->
  (exists rs s v, vstr_ops ops (vstr_init n) = Some (rs, v) /\ (rs, s) = bounded_ops None ops [] /\
    len v = Z.of_nat (length s) /\ take (length s) (buf v) = s) /\
  (exists rs s v, vstr_ops ops (vstr_init_fixed_buf (Z.of_nat (length b)) b) = Some (rs, v) /\
    (rs, s) = bounded_ops (Some (length b)) ops [] /\
    len v = Z.of_nat (length s) /\ take (length s) (buf v) = s /\ length (buf v) = length b).
Proof.
  intros Hops Hn Hsz. split.
  - destruct (run_value _ _ _ (wp_vstr_ops None ops [] (vstr_init n) (vstr_init_ok n Hn) Hops Hsz)) as (rs & v & Hrun & s & Hok & Hs).
    exists rs, s, v. destruct Hok. done.
  - destruct (run_value _ _ _ (wp_vstr_ops _ ops [] _ (vstr_fixed_ok b) Hops Hsz)) as (rs & v & Hrun & s & Hok & Hs).
    exists rs, s, v. destruct Hok as [? ? Hcap ? ? ?]. pose proof (Hcap _ eq_refl). done.
Qed.

(** C36: UTF-8 round trip: the text built by [vstr_add_char] from code points
    passes [utf8_check], has as many characters, and decoding at the start of
    the [i]-th character gives the [i]-th code point and the start of the next;
    [utf8_ptr_to_index] turns the offset back into [i]. *)
Theorem utf8_roundtrip cs n : Forall code_point cs -> 0 <= n -> Z.of_nat (length cs) < 2 ^ 26 ->
  exists rs v v', vstr_ops (map AddChar cs) (vstr_init n) = Some (rs, v) /\
    vstr_null_terminated_str v = Some (inr tt, v') /\
    let s := take (Z.to_nat (len v')) (buf v') in
    let offset i := length (text (take i cs)) in
    utf8_check s = true /\ utf8_charlen s = Z.of_nat (length cs) /\
    forall i c, cs !! i = Some c ->
      utf8_get_char (drop (offset i) (buf v')) = Some c /\
      utf8_next_char (drop (offset i) (buf v')) = Some (drop (offset (S i)) (buf v')) /\
      utf8_ptr_to_index s (offset i) = Z.of_nat i.
Proof.
  intros Hcs Hn Hsz.
  assert (sum_list (map op_size (map AddChar cs)) = 4 * length cs)%nat as Hsum.
  { clear. induction cs as [|c cs IH]; cbn in *; lia. }
  assert (Forall vstr_op_ok (map AddChar cs)) as Hops by (clear -Hcs; induction Hcs; cbn; by constructor).
  destruct (run_value _ _ _ (wp_vstr_ops None _ [] (vstr_init n) (vstr_init_ok n Hn) Hops ltac:(rewrite Hsum; cbn [length]; lia))) as (rs & v & Hrun & s & Hok & Hs).
  assert (s = text cs) as ->. { pose proof (bounded_ops_chars cs []) as Hb. by rewrite <-Hs in Hb. }
  pose proof (bounded_ops_chars cs []) as Hb.
  assert (length (text cs) <= 4 * length cs)%nat as Hlen.
  { clear. unfold text. induction cs as [|c cs IH]; cbn [map concat length]; [lia|]. rewrite length_app.
    pose proof (encoding_length c). lia. }
  destruct (run_value _ _ _ (wp_null_terminated None _ v Hok ltac:(lia))) as (r & v' & Hrun' & Hok' & [[-> Hz]|[_ [=]]]).
  exists rs, v, v'. split; [done|]. split; [done|]. cbv zeta.
  rewrite (so_len _ _ _ Hok'), Nat2Z.id, (so_prefix _ _ _ Hok').
  split; [by apply text_check|]. split; [by apply text_charlen|]. intros i c Hi.
  assert (exists rest, buf v' = text cs ++ 0 :: rest) as [rest Hbuf].
  { exists (drop (S (length (text cs))) (buf v')). rewrite <-(firstn_skipn (S (length (text cs))) (buf v')) at 1. rewrite Hz. by rewrite <-app_assoc. }
  assert (at_char (0 :: rest)) as Hzero by (exists 0, rest; split; [done|split; [unfold is_byte; lia|done]]).
  assert (forall j, drop (length (text (take j cs))) (buf v') = text (drop j cs) ++ 0 :: rest) as Hdrop.
  { intros j. rewrite Hbuf. rewrite <-(take_drop j cs) at 2. unfold text at 2. rewrite map_app, concat_app, <-app_assoc.
    apply drop_app_length. }
  rewrite !Hdrop, (drop_S _ _ _ Hi). unfold text at 1 2. cbn [map concat]. rewrite <-app_assoc. fold (text (drop (S i) cs)).
  assert (code_point c) by (rewrite Forall_lookup in Hcs; eauto).
  assert (at_char (text (drop (S i) cs) ++ 0 :: rest)) by (apply at_char_text; [by apply Forall_drop|done]).
  split; [by apply decode_get|]. split; [by apply decode_next|].
  unfold utf8_ptr_to_index. rewrite <-(take_drop i cs) at 2. unfold text at 2. rewrite map_app, concat_app.
  rewrite take_app_length. rewrite ptr_to_index_charlen; [|lia|].
  - rewrite Z.add_0_l. fold (text (take i cs)). rewrite text_charlen by by apply Forall_take. rewrite length_take.
    apply lookup_lt_Some in Hi. lia.
  - assert (length (text (take i cs)) <= length (text cs))%nat; [|unfold text in *; lia].
    rewrite <-(take_drop i cs) at 2. unfold text. rewrite map_app, concat_app, length_app. lia.
Qed.

End Results.

Theorem vstr_refines_list_witness :
  let ops := [AddStrn [104; 105]; AddChar 0x20AC; InsByte 0 33; CutOut 1 2; AddStrn [1; 2; 3; 4; 5; 6]; CutHead 1] in
  exists rs s v, vstr_ops (H := fun _ => 171) ops (vstr_init_fixed_buf 6 [0; 0; 0; 0; 0; 0]) = Some (rs, v) /\
    rs = [inr tt; inr tt; inr tt; inr tt; inl RuntimeError; inr tt] /\ s = [226; 130; 172] /\ take (length s) (buf v) = s.
Proof.
  cbv zeta.
  destruct (vstr_refines_list (H := fun _ => 171)
    [AddStrn [104; 105]; AddChar 0x20AC; InsByte 0 33; CutOut 1 2; AddStrn [1; 2; 3; 4; 5; 6]; CutHead 1] 0 [0; 0; 0; 0; 0; 0])
    as [_ (rs & s & v & Hrun & Hs & _ & Hb & _)]; [repeat (apply Forall_cons_2; [cbn; lia|]); apply Forall_nil_2|lia|cbn; lia|].
  exists rs, s, v. vm_compute in Hs. injection Hs as -> ->. change (Z.of_nat (length [0; 0; 0; 0; 0; 0])) with 6 in Hrun.
  split; [exact Hrun|]. split; [reflexivity|]. split; [reflexivity|exact Hb].
Defined.

Theorem utf8_roundtrip_witness :
  exists rs v v', vstr_ops (H := fun _ => 171) (map AddChar [0x41; 0x1F600; 0x20AC; 0xE9]) (vstr_init (H := fun _ => 171) 4) = Some (rs, v) /\
    vstr_null_terminated_str (H := fun _ => 171) v = Some (inr tt, v') /\ utf8_get_char (drop 5 (buf v')) = Some 0x20AC.
Proof.
  destruct (utf8_roundtrip (H := fun _ => 171) [0x41; 0x1F600; 0x20AC; 0xE9] 4) as (rs & v & v' & Hrun & Hz & _ & _ & Hdec);
    [repeat (apply Forall_cons_2; [unfold code_point; lia|]); apply Forall_nil_2|lia|cbn; lia|].
  exists rs, v, v'. split; [done|]. split; [done|]. by destruct (Hdec 2%nat 0x20AC eq_refl) as (Hget & _).
Defined.
