(* ===== verification/FrameBuf.v ===== *)
(** * Frame buffers ([extmod/modframebuf.c])

    A frame buffer object draws into a buffer of bytes that other objects may
    share, so the buffers are blocks of a store and a frame buffer names its
    block.  This firmware's version also logs the byte index of every pixel it
    sets ([changed_indexes]).  [int] arithmetic that overflows and an access
    outside a buffer have no meaning ([None]); arguments have been converted to
    integers by the callers' [mp_obj_get_int]. *)
From S2P Require Import Prelude.
From S2P Require Import CMem.
Local Open Scope Z_scope.

(** The fields of [mp_obj_framebuf_t] that do not change once it is made. *)
Record framebuf_t := MkFramebuf {
  buf : nat; width : Z; height : Z; stride : Z; format : Z; changed_capacity : Z }.

(** The buffers, and the log of the frame buffer that is drawn to. *)
Record canvas := MkCanvas {
  mem : blocks; changed_count : Z; changed_cleared : bool; changed_indexes : list Z }.

Inductive fb_exn := PixelOutOfBounds | InvalidFormat | ValueError.

Definition Mc : Type -> Type := M canvas.
Abbreviation Mf A := (M canvas (fb_exn + A)).

Definition FRAMEBUF_MVLSB : Z := 0.
Definition FRAMEBUF_RGB565 : Z := 1.
Definition FRAMEBUF_GS2_HMSB : Z := 5.
Definition FRAMEBUF_GS4_HMSB : Z := 2.
Definition FRAMEBUF_GS8 : Z := 6.
Definition FRAMEBUF_MHLSB : Z := 3.
Definition FRAMEBUF_MHMSB : Z := 4.

Definition set_mem (m : blocks) (s : canvas) : canvas :=
  MkCanvas m (changed_count s) (changed_cleared s) (changed_indexes s).

(** Byte [i] of the buffer, read and written. *)
Definition ld (fb : framebuf_t) (i : Z) : Mc Z := on_part mem set_mem (load (buf fb) i).
Definition st (fb : framebuf_t) (i v : Z) : Mc unit := on_part mem set_mem (store (buf fb) i (u8 v)).

(** [memset(p, v, n)] *)
Definition memset (fb : framebuf_t) (p v n : Z) : Mc unit := for_up (Z.to_nat n) p (fun i => st fb i v).

(** ** The log of changes *)

Definition clear_changes (cleared : bool) : Mc unit :=
  modify (fun s => MkCanvas (mem s) 0 cleared (changed_indexes s)).

(** "if (!fb->changed_cleared) ..." *)
Definition begin_changes : Mc unit :=
  s ← get; if changed_cleared s then mret tt else clear_changes true.

(** "if (fb->changed_count < fb->changed_capacity) ..." *)
Definition log_change (fb : framebuf_t) (index : Z) : Mc unit :=
  s ← get;
  if changed_count s <? changed_capacity fb then
    assert_ (changed_count s <? Z.of_nat (length (changed_indexes s)));;
    modify (fun s => MkCanvas (mem s) (changed_count s + 1) (changed_cleared s)
                       (<[Z.to_nat (changed_count s) := u16 index]> (changed_indexes s)))
  else mret tt.

(** "pixel out of bounds" *)
Definition check_pixel (fb : framebuf_t) (x y : Z) : Mf unit :=
  if (width fb <=? x) || (height fb <=? y) then raise PixelOutOfBounds else xret tt.

Section Formats.
Context (fb : framebuf_t).

(** Bit [offset] of the byte becomes [col != 0]. *)
Definition set_bit (index offset col : Z) : Mc unit :=
  b ← ld fb index;
  st fb index (Z.lor (Z.land b (Z.lnot (Z.shiftl 1 offset))) (Z.shiftl (zbool (negb (col =? 0))) offset)).

(** [x + y * fb->stride], an [unsigned int]. *)
Definition linear (x y : Z) : Z := u32 (x + y * stride fb).

(** ** MHLSB and MHMSB *)

Definition mono_offset (x : Z) : Z :=
  if format fb =? FRAMEBUF_MHMSB then Z.land x 0x07 else 7 - Z.land x 0x07.

Definition mono_horiz_setpixel (x y col : Z) : Mf unit :=
  check_pixel fb x y;;!
  begin_changes;;
  let index := Z.shiftr (linear x y) 3 in
  log_change fb index;;
  set_bit index (mono_offset x) col;; xret tt.

Definition mono_horiz_getpixel (x y : Z) : Mc Z :=
  let index := Z.shiftr (linear x y) 3 in
  b ← ld fb index; mret (Z.land (Z.shiftr b (mono_offset x)) 0x01).

Definition mono_horiz_fill_rect (x y w h col : Z) : Mf unit :=
  let advance := Z.shiftr (stride fb) 3 in
  for_up (Z.to_nat w) x (fun x =>
    let b := u32 (Z.shiftr x 3 + y * advance) in
    for_up (Z.to_nat h) 0 (fun hh => set_bit (b + hh * advance) (mono_offset x) col));;
  xret tt.

(** ** MVLSB *)

Definition mvlsb_index (x y : Z) : Z := u32 (Z.shiftr y 3 * stride fb + x).

Definition mvlsb_setpixel (x y col : Z) : Mf unit :=
  check_pixel fb x y;;!
  begin_changes;;
  let index := mvlsb_index x y in
  log_change fb index;;
  set_bit index (Z.land y 0x07) col;; xret tt.

Definition mvlsb_getpixel (x y : Z) : Mc Z :=
  b ← ld fb (mvlsb_index x y); mret (Z.land (Z.shiftr b (Z.land y 0x07)) 0x01).

Definition mvlsb_fill_rect (x y w h col : Z) : Mf unit :=
  for_up (Z.to_nat h) y (fun y =>
    for_up (Z.to_nat w) 0 (fun ww => set_bit (mvlsb_index x y + ww) (Z.land y 0x07) col));;
  xret tt.

(** ** RGB565 *)

(** Entry [i] of the buffer seen as an array of [uint16_t], little endian. *)
Definition ld16 (i : Z) : Mc Z := lo ← ld fb (2 * i); hi ← ld fb (2 * i + 1); mret (lo + 256 * hi).
Definition st16 (i v : Z) : Mc unit := st fb (2 * i) v;; st fb (2 * i + 1) (Z.shiftr v 8).

Definition rgb565_setpixel (x y col : Z) : Mf unit :=
  check_pixel fb x y;;!
  begin_changes;;
  let index := u32 (2 * linear x y) in
  log_change fb index;;
  st fb index (Z.shiftr col 8);; st fb (index + 1) (Z.land col 0xFF);; xret tt.

Definition rgb565_getpixel (x y : Z) : Mc Z := ld16 (linear x y).

Definition rgb565_fill_rect (x y w h col : Z) : Mf unit :=
  for_up (Z.to_nat h) 0 (fun hh =>
    for_up (Z.to_nat w) 0 (fun ww => st16 (linear x y + hh * stride fb + ww) col));;
  xret tt.

(** ** GS2_HMSB *)

Definition gs2_hmsb_setpixel (x y col : Z) : Mf unit :=
  check_pixel fb x y;;!
  begin_changes;;
  let index := u32 (x / 4 + y * stride fb) in
  log_change fb index;;
  let shift := 6 - 2 * Z.land x 0x03 in
  b ← ld fb index;
  st fb index (Z.lor (Z.land b (Z.lnot (Z.shiftl 0x03 shift))) (Z.shiftl (Z.land col 0x03) shift));; xret tt.

Definition gs2_hmsb_getpixel (x y : Z) : Mc Z :=
  pixel ← ld fb (Z.shiftr (linear x y) 2);
  mret (Z.land (Z.shiftr pixel (Z.shiftl (Z.land x 0x3) 1)) 0x3).

Definition gs2_hmsb_fill_rect (x y w h col : Z) : Mf unit :=
  xfor_up (Z.to_nat (u32 (x + w) - x)) x (fun xx =>
    xfor_up (Z.to_nat (u32 (y + h) - y)) y (fun yy => gs2_hmsb_setpixel xx yy col)).

(** ** GS4_HMSB *)

Definition gs4_hmsb_setpixel (x y col : Z) : Mf unit :=
  begin_changes;;
  let index := Z.shiftr (linear x y) 1 in
  log_change fb index;;
  p ← ld fb index;
  (if negb (Z.land x 1 =? 0) then st fb index (Z.lor (Z.land col 0x0F) (Z.land p 0xF0))
   else st fb index (Z.lor (Z.shiftl col 4) (Z.land p 0x0F)));; xret tt.

Definition gs4_hmsb_getpixel (x y : Z) : Mc Z :=
  b ← ld fb (Z.shiftr (linear x y) 1);
  mret (if negb (x `mod` 2 =? 0) then Z.land b 0x0f else Z.shiftr b 4).

(** The lines of a rectangle; [pixel_pair] is the index of the next byte. *)
Fixpoint gs4_hmsb_lines (h : nat) (pixel_pair w col skip : Z) (odd_x : bool) : Mc unit :=
  match h with
  | O => mret tt
  | S h =>
      let col_shifted_left := u8 (Z.shiftl col 4) in
      let col_pixel_pair := Z.lor col_shifted_left col in
      '(pixel_pair, ww) ←
        (if odd_x && (0 <? w) then
           b ← ld fb pixel_pair; st fb pixel_pair (Z.lor (Z.land b 0xf0) col);;
           mret (pixel_pair + 1, w - 1)
         else mret (pixel_pair, w));
      memset fb pixel_pair col_pixel_pair (Z.shiftr ww 1);;
      let pixel_pair := pixel_pair + Z.shiftr ww 1 in
      pixel_pair ←
        (if negb (ww `mod` 2 =? 0) then
           b ← ld fb pixel_pair; st fb pixel_pair (Z.lor col_shifted_left (Z.land b 0x0f));;
           mret (if negb odd_x then pixel_pair + 1 else pixel_pair)
         else mret pixel_pair);
      gs4_hmsb_lines h (pixel_pair + skip) w col skip odd_x
  end.

Definition gs4_hmsb_fill_rect (x y w h col : Z) : Mf unit :=
  let col := Z.land col 0x0f in
  let pixel_pair := Z.shiftr (linear x y) 1 in
  let pixel_count_till_next_line := Z.shiftr (u32 (stride fb - w)) 1 in
  gs4_hmsb_lines (Z.to_nat h) pixel_pair w col pixel_count_till_next_line (x `mod` 2 =? 1);; xret tt.

(** ** GS8 *)

Definition gs8_setpixel (x y col : Z) : Mf unit :=
  check_pixel fb x y;;!
  begin_changes;;
  let index := linear x y in
  log_change fb index;;
  st fb index col;; xret tt.

Definition gs8_getpixel (x y : Z) : Mc Z := ld fb (linear x y).

Definition gs8_fill_rect (x y w h col : Z) : Mf unit :=
  for_up (Z.to_nat h) 0 (fun hh => memset fb (linear x y + hh * stride fb) col w);; xret tt.

(** ** Dispatch on the format

    The arguments are converted to [unsigned int] at the call. *)

Definition setpixel (x y col : Z) : Mf unit :=
  let '(x, y, col) := (u32 x, u32 y, u32 col) in
  if format fb =? FRAMEBUF_MVLSB then mvlsb_setpixel x y col
  else if format fb =? FRAMEBUF_RGB565 then rgb565_setpixel x y col
  else if format fb =? FRAMEBUF_GS2_HMSB then gs2_hmsb_setpixel x y col
  else if format fb =? FRAMEBUF_GS4_HMSB then gs4_hmsb_setpixel x y col
  else if format fb =? FRAMEBUF_GS8 then gs8_setpixel x y col
  else if (format fb =? FRAMEBUF_MHLSB) || (format fb =? FRAMEBUF_MHMSB) then mono_horiz_setpixel x y col
  else stuck.

Definition getpixel (x y : Z) : Mc Z :=
  let '(x, y) := (u32 x, u32 y) in
  if format fb =? FRAMEBUF_MVLSB then mvlsb_getpixel x y
  else if format fb =? FRAMEBUF_RGB565 then rgb565_getpixel x y
  else if format fb =? FRAMEBUF_GS2_HMSB then gs2_hmsb_getpixel x y
  else if format fb =? FRAMEBUF_GS4_HMSB then gs4_hmsb_getpixel x y
  else if format fb =? FRAMEBUF_GS8 then gs8_getpixel x y
  else if (format fb =? FRAMEBUF_MHLSB) || (format fb =? FRAMEBUF_MHMSB) then mono_horiz_getpixel x y
  else stuck.

Definition format_fill_rect (x y w h col : Z) : Mf unit :=
  let col := u32 col in
  if format fb =? FRAMEBUF_MVLSB then mvlsb_fill_rect x y w h col
  else if format fb =? FRAMEBUF_RGB565 then rgb565_fill_rect x y w h col
  else if format fb =? FRAMEBUF_GS2_HMSB then gs2_hmsb_fill_rect x y w h col
  else if format fb =? FRAMEBUF_GS4_HMSB then gs4_hmsb_fill_rect x y w h col
  else if format fb =? FRAMEBUF_GS8 then gs8_fill_rect x y w h col
  else if (format fb =? FRAMEBUF_MHLSB) || (format fb =? FRAMEBUF_MHMSB) then mono_horiz_fill_rect x y w h col
  else stuck.

(** The test "0 <= x && x < fb->width && 0 <= y && y < fb->height". *)
Definition inside (x y : Z) : bool := (0 <=? x) && (x <? width fb) && (0 <=? y) && (y <? height fb).

Definition setpixel_checked (x y col mask : Z) : Mf unit :=
  if negb (mask =? 0) && inside x y then setpixel x y col else xret tt.

Definition fill_rect (x y w h col : Z) : Mf unit :=
  if (h <? 1) || (w <? 1) then xret tt
  else
    xe ← sint (x + w);
    if xe <=? 0 then xret tt
    else
      ye ← sint (y + h);
      if (ye <=? 0) || (height fb <=? y) || (width fb <=? x) then xret tt
      else
        let xend := Z.min (width fb) xe in
        let yend := Z.min (height fb) ye in
        let x := Z.max x 0 in
        let y := Z.max y 0 in
        format_fill_rect x y (xend - x) (yend - y) col.

End Formats.
