(* ===== verification/FrameBufDraw.v ===== *)
(** * Drawing on frame buffers ([extmod/modframebuf.c], the methods)

    Construction, the change log, rectangles, lines, ellipses, polygons,
    blitting, scrolling and text, composed from the pixel operations of
    FrameBuf.  Every signed sum and product is checked for overflow ([sint]). *)
From S2P Require Import Prelude.
From S2P Require Import CMem.
From S2P Require Import FrameBuf.
Local Open Scope Z_scope.

(** ** Construction *)

(** [(n + mask) & ~mask] *)
Definition round_up (n mask : Z) : Z := Z.land (n + mask) (Z.lnot mask).

(** What the switch over the formats computes: the stride, the bits per pixel and
    the width, height and strides required. *)
Definition format_geometry (w h f s : Z) : option (Z * Z * Z * Z * Z) :=
  if f =? FRAMEBUF_MVLSB then
    let height_required := round_up h 7 in Some (s, 1, w, height_required, u32 (height_required - 8))
  else if (f =? FRAMEBUF_MHLSB) || (f =? FRAMEBUF_MHMSB) then Some (round_up s 7, 1, round_up w 7, h, h - 1)
  else if f =? FRAMEBUF_GS2_HMSB then Some (round_up s 3, 2, round_up w 3, h, h - 1)
  else if f =? FRAMEBUF_GS4_HMSB then Some (round_up s 1, 4, round_up w 1, h, h - 1)
  else if f =? FRAMEBUF_GS8 then Some (s, 8, w, h, h - 1)
  else if f =? FRAMEBUF_RGB565 then Some (s, 16, w, h, h - 1)
  else None.

(** [framebuf_make_new_helper] for block [b], which has [len] bytes; the result
    is the new object, its log is empty. *)
Definition framebuf_make_new_helper (b : nat) (len w h f : Z) (s : option Z) : fb_exn + framebuf_t :=
  let s := default w s in
  if (w <? 1) || (h <? 1) || (0xffff <? w) || (0xffff <? h) || (0xffff <? s) || (s <? w) then inl ValueError
  else
    match format_geometry w h f s with
    | None => inl InvalidFormat
    | Some (s, bpp, width_required, height_required, strides_required) =>
        let needed := u32 (u32 (strides_required * s + (height_required - strides_required) * width_required) * bpp) / 8 in
        if len <? needed then inl ValueError else inr (MkFramebuf b w h s f len)
    end.

Definition legacy_framebuffer1 (b : nat) (len w h : Z) (s : option Z) : fb_exn + framebuf_t :=
  framebuf_make_new_helper b len w h FRAMEBUF_MVLSB (Some (default w s)).

Section Draw.
Context (fb : framebuf_t).

(** [framebuf_get_changes] *)
Definition framebuf_get_changes : Mc (list Z) :=
  gets (fun s => take (Z.to_nat (changed_count s)) (changed_indexes s)).

(** ** Pixels and rectangles *)

Definition framebuf_fill (col : Z) : Mf unit :=
  clear_changes false;; format_fill_rect fb 0 0 (width fb) (height fb) col.

Definition framebuf_fill_rect (x y w h col : Z) : Mf unit := fill_rect fb x y w h col.

(** [pixel(x, y)] and [pixel(x, y, c)]; the value got is a small integer. *)
Definition framebuf_pixel (x y : Z) (col : option Z) : Mf (option Z) :=
  if inside fb x y then
    match col with
    | None => v ← getpixel fb x y; xret (Some v)
    | Some c => setpixel fb x y c;;! xret None
    end
  else xret None.

Definition framebuf_hline (x y w col : Z) : Mf unit := fill_rect fb x y w 1 col.
Definition framebuf_vline (x y h col : Z) : Mf unit := fill_rect fb x y 1 h col.

Definition framebuf_rect (x y w h col : Z) (fill : bool) : Mf unit :=
  if fill then fill_rect fb x y w h col
  else
    fill_rect fb x y w 1 col;;!
    y1 ← sint (y + h); y1 ← sint (y1 - 1);
    fill_rect fb x y1 w 1 col;;!
    fill_rect fb x y 1 h col;;!
    x1 ← sint (x + w); x1 ← sint (x1 - 1);
    fill_rect fb x1 y 1 h col.

(** ** Lines *)

(** The distance and the direction from one coordinate to another. *)
Definition delta (a b : Z) : Mc (Z * Z) :=
  d ← sint (b - a);
  if 0 <? d then mret (d, 1) else d ← sint (- d); mret (d, -1).

(** "while (e >= 0)": as [dy <= dx] after the exchange of the axes, one round. *)
Definition line_adjust (dx sy e y1 : Z) : Mc (Z * Z) :=
  for_ 2 (fun l => 0 <=? l.1)
    (fun '(e, y1) => y1 ← sint (y1 + sy); dx2 ← sint (2 * dx); e ← sint (e - dx2); mret (e, y1)) (e, y1).

Fixpoint line_loop (n : nat) (dx dy sx sy col : Z) (steep : bool) (e x1 y1 : Z) : Mf unit :=
  match n with
  | O => xret tt
  | S n =>
      (if steep then (if inside fb y1 x1 then setpixel fb y1 x1 col else xret tt)
       else (if inside fb x1 y1 then setpixel fb x1 y1 col else xret tt));;!
      '(e, y1) ← line_adjust dx sy e y1;
      x1 ← sint (x1 + sx);
      dy2 ← sint (2 * dy);
      e ← sint (e + dy2);
      line_loop n dx dy sx sy col steep e x1 y1
  end.

Definition line (x1 y1 x2 y2 col : Z) : Mf unit :=
  '(dx, sx) ← delta x1 x2;
  '(dy, sy) ← delta y1 y2;
  let '(steep, x, y, dx, dy, sx, sy) :=
    if dx <? dy then (true, y1, x1, dy, dx, sy, sx) else (false, x1, y1, dx, dy, sx, sy) in
  dy2 ← sint (2 * dy);
  e ← sint (dy2 - dx);
  line_loop (Z.to_nat dx) dx dy sx sy col steep e x y;;!
  if inside fb x2 y2 then setpixel fb x2 y2 col else xret tt.

Definition framebuf_line (x1 y1 x2 y2 col : Z) : Mf unit := line x1 y1 x2 y2 col.

(** ** Ellipses *)

Definition ELLIPSE_MASK_FILL : Z := 0x10.
Definition ELLIPSE_MASK_ALL : Z := 0x0f.
Definition ELLIPSE_MASK_Q1 : Z := 0x01.
Definition ELLIPSE_MASK_Q2 : Z := 0x02.
Definition ELLIPSE_MASK_Q3 : Z := 0x04.
Definition ELLIPSE_MASK_Q4 : Z := 0x08.

Definition when_bit (mask b : Z) (c : Mf unit) : Mf unit := if negb (Z.land mask b =? 0) then c else xret tt.

Definition draw_ellipse_points (cx cy x y col mask : Z) : Mf unit :=
  if negb (Z.land mask ELLIPSE_MASK_FILL =? 0) then
    when_bit mask ELLIPSE_MASK_Q1 (v ← sint (cy - y); w ← sint (x + 1); fill_rect fb cx v w 1 col);;!
    when_bit mask ELLIPSE_MASK_Q2 (u ← sint (cx - x); v ← sint (cy - y); w ← sint (x + 1); fill_rect fb u v w 1 col);;!
    when_bit mask ELLIPSE_MASK_Q3 (u ← sint (cx - x); v ← sint (cy + y); w ← sint (x + 1); fill_rect fb u v w 1 col);;!
    when_bit mask ELLIPSE_MASK_Q4 (v ← sint (cy + y); w ← sint (x + 1); fill_rect fb cx v w 1 col)
  else
    xr ← sint (cx + x); yu ← sint (cy - y);
    setpixel_checked fb xr yu col (Z.land mask ELLIPSE_MASK_Q1);;!
    xl ← sint (cx - x); yu ← sint (cy - y);
    setpixel_checked fb xl yu col (Z.land mask ELLIPSE_MASK_Q2);;!
    xl ← sint (cx - x); yd ← sint (cy + y);
    setpixel_checked fb xl yd col (Z.land mask ELLIPSE_MASK_Q3);;!
    xr ← sint (cx + x); yd ← sint (cy + y);
    setpixel_checked fb xr yd col (Z.land mask ELLIPSE_MASK_Q4).

(** The variables of the two loops: the coordinate that advances at every step
    ([u]) and the one that may follow ([v]), with their stopping values and error
    changes. *)
Record ellipse_vars := MkEllipse {
  e_u : Z; e_v : Z; e_uchange : Z; e_vchange : Z; e_error : Z; e_stop_u : Z; e_stop_v : Z }.

(** One step: [u += 1; stop_u += two_u; error += uchange; uchange += two_u; ...] *)
Definition ellipse_step (two_u two_v : Z) (l : ellipse_vars) : Mc ellipse_vars :=
  u ← sint (e_u l + 1);
  stop_u ← sint (e_stop_u l + two_u);
  error ← sint (e_error l + e_uchange l);
  uchange ← sint (e_uchange l + two_u);
  t ← sint (2 * error);
  t ← sint (t + e_vchange l);
  if 0 <? t then
    v ← sint (e_v l - 1);
    stop_v ← sint (e_stop_v l - two_v);
    error ← sint (error + e_vchange l);
    vchange ← sint (e_vchange l + two_v);
    mret (MkEllipse u v uchange vchange error stop_u stop_v)
  else mret (MkEllipse u (e_v l) uchange (e_vchange l) error stop_u (e_stop_v l)).

(** [flip]: the second set of points, where [u] is the horizontal coordinate. *)
Fixpoint ellipse_loop (fuel : nat) (flip : bool) (two_u two_v cx cy col mask : Z) (l : ellipse_vars) : Mf unit :=
  match fuel with
  | O => stuck
  | S fuel =>
      if e_stop_u l <=? e_stop_v l then
        (if flip then draw_ellipse_points cx cy (e_u l) (e_v l) col mask
         else draw_ellipse_points cx cy (e_v l) (e_u l) col mask);;!
        l ← ellipse_step two_u two_v l;
        ellipse_loop fuel flip two_u two_v cx cy col mask l
      else xret tt
  end.

(** [stop_u] grows by [two_u] in every step; a step with [two_u = 0] is the last. *)
Definition ellipse_fuel (two_u : Z) (l : ellipse_vars) : nat := Z.to_nat (Z.max 0 (e_stop_v l) / two_u) + 3.

(** The product of three factors, checked from left to right. *)
Definition mul3 (a b c : Z) : Mc Z := p ← sint (a * b); sint (p * c).

Definition framebuf_ellipse (cx cy rx ry col : Z) (fill : bool) (m : option Z) : Mf unit :=
  let mask := if fill then ELLIPSE_MASK_FILL else 0 in
  begin_changes;;
  let mask := match m with
              | Some m => Z.lor mask (Z.land m ELLIPSE_MASK_ALL)
              | None => Z.lor mask ELLIPSE_MASK_ALL
              end in
  if (rx =? 0) && (ry =? 0) then setpixel_checked fb cx cy col (Z.land mask ELLIPSE_MASK_ALL)
  else
    two_asquare ← mul3 2 rx rx;
    two_bsquare ← mul3 2 ry ry;
    bsquare ← sint (ry * ry); c ← sint (2 * rx); c ← sint (1 - c);
    xchange ← sint (bsquare * c);
    ychange ← sint (rx * rx);
    stoppingx ← sint (two_bsquare * rx);
    (let l := MkEllipse 0 rx ychange xchange 0 0 stoppingx in
     ellipse_loop (ellipse_fuel two_asquare l) false two_asquare two_bsquare cx cy col mask l);;!
    xchange ← sint (ry * ry);
    asquare ← sint (rx * rx); c ← sint (2 * ry); c ← sint (1 - c);
    ychange ← sint (asquare * c);
    stoppingy ← sint (two_asquare * ry);
    let l := MkEllipse 0 ry xchange ychange 0 0 stoppingy in
    ellipse_loop (ellipse_fuel two_bsquare l) true two_bsquare two_asquare cx cy col mask l.

End Draw.
