(* ===== verification/FrameBufShapes.v ===== *)
(** * The font and shapes of frame buffers ([extmod/modframebuf.c])

    Polygons, blitting, scrolling and text. *)
From S2P Require Import Prelude.
From S2P Require Import CMem.
From S2P Require Import FrameBuf.
From S2P Require Import FrameBufDraw.
Local Open Scope Z_scope.

(** [extmod/font_petme128_8x8.h]: the characters 32 to 127, a byte per column. *)
Definition font_petme128_8x8 : list Z := [
  0; 0; 0; 0; 0; 0; 0; 0;
  0; 0; 0; 79; 79; 0; 0; 0;
  0; 7; 7; 0; 0; 7; 7; 0;
  20; 127; 127; 20; 20; 127; 127; 20;
  0; 36; 46; 107; 107; 58; 18; 0;
  0; 99; 51; 24; 12; 102; 99; 0;
  0; 50; 127; 77; 77; 119; 114; 80;
  0; 0; 0; 4; 6; 3; 1; 0;
  0; 0; 28; 62; 99; 65; 0; 0;
  0; 0; 65; 99; 62; 28; 0; 0;
  8; 42; 62; 28; 28; 62; 42; 8;
  0; 8; 8; 62; 62; 8; 8; 0;
  0; 0; 128; 224; 96; 0; 0; 0;
  0; 8; 8; 8; 8; 8; 8; 0;
  0; 0; 0; 96; 96; 0; 0; 0;
  0; 64; 96; 48; 24; 12; 6; 2;
  0; 62; 127; 73; 69; 127; 62; 0;
  0; 64; 68; 127; 127; 64; 64; 0;
  0; 98; 115; 81; 73; 79; 70; 0;
  0; 34; 99; 73; 73; 127; 54; 0;
  0; 24; 24; 20; 22; 127; 127; 16;
  0; 39; 103; 69; 69; 125; 57; 0;
  0; 62; 127; 73; 73; 123; 50; 0;
  0; 3; 3; 121; 125; 7; 3; 0;
  0; 54; 127; 73; 73; 127; 54; 0;
  0; 38; 111; 73; 73; 127; 62; 0;
  0; 0; 0; 36; 36; 0; 0; 0;
  0; 0; 128; 228; 100; 0; 0; 0;
  0; 8; 28; 54; 99; 65; 65; 0;
  0; 20; 20; 20; 20; 20; 20; 0;
  0; 65; 65; 99; 54; 28; 8; 0;
  0; 2; 3; 81; 89; 15; 6; 0;
  0; 62; 127; 65; 77; 79; 46; 0;
  0; 124; 126; 11; 11; 126; 124; 0;
  0; 127; 127; 73; 73; 127; 54; 0;
  0; 62; 127; 65; 65; 99; 34; 0;
  0; 127; 127; 65; 99; 62; 28; 0;
  0; 127; 127; 73; 73; 65; 65; 0;
  0; 127; 127; 9; 9; 1; 1; 0;
  0; 62; 127; 65; 73; 123; 58; 0;
  0; 127; 127; 8; 8; 127; 127; 0;
  0; 0; 65; 127; 127; 65; 0; 0;
  0; 32; 96; 65; 127; 63; 1; 0;
  0; 127; 127; 28; 54; 99; 65; 0;
  0; 127; 127; 64; 64; 64; 64; 0;
  0; 127; 127; 6; 12; 6; 127; 127;
  0; 127; 127; 14; 28; 127; 127; 0;
  0; 62; 127; 65; 65; 127; 62; 0;
  0; 127; 127; 9; 9; 15; 6; 0;
  0; 30; 63; 33; 97; 127; 94; 0;
  0; 127; 127; 25; 57; 111; 70; 0;
  0; 38; 111; 73; 73; 123; 50; 0;
  0; 1; 1; 127; 127; 1; 1; 0;
  0; 63; 127; 64; 64; 127; 63; 0;
  0; 31; 63; 96; 96; 63; 31; 0;
  0; 127; 127; 48; 24; 48; 127; 127;
  0; 99; 119; 28; 28; 119; 99; 0;
  0; 7; 15; 120; 120; 15; 7; 0;
  0; 97; 113; 89; 77; 71; 67; 0;
  0; 0; 127; 127; 65; 65; 0; 0;
  0; 2; 6; 12; 24; 48; 96; 64;
  0; 0; 65; 65; 127; 127; 0; 0;
  0; 8; 12; 6; 6; 12; 8; 0;
  192; 192; 192; 192; 192; 192; 192; 192;
  0; 0; 1; 3; 6; 4; 0; 0;
  0; 32; 116; 84; 84; 124; 120; 0;
  0; 127; 127; 68; 68; 124; 56; 0;
  0; 56; 124; 68; 68; 108; 40; 0;
  0; 56; 124; 68; 68; 127; 127; 0;
  0; 56; 124; 84; 84; 92; 88; 0;
  0; 8; 126; 127; 9; 3; 2; 0;
  0; 152; 188; 164; 164; 252; 124; 0;
  0; 127; 127; 4; 4; 124; 120; 0;
  0; 0; 0; 125; 125; 0; 0; 0;
  0; 64; 192; 128; 128; 253; 125; 0;
  0; 127; 127; 48; 56; 108; 68; 0;
  0; 0; 65; 127; 127; 64; 0; 0;
  0; 124; 124; 24; 48; 24; 124; 124;
  0; 124; 124; 4; 4; 124; 120; 0;
  0; 56; 124; 68; 68; 124; 56; 0;
  0; 252; 252; 36; 36; 60; 24; 0;
  0; 24; 60; 36; 36; 252; 252; 0;
  0; 124; 124; 4; 4; 12; 8; 0;
  0; 72; 92; 84; 84; 116; 32; 0;
  4; 4; 63; 127; 68; 100; 32; 0;
  0; 60; 124; 64; 64; 124; 60; 0;
  0; 28; 60; 96; 96; 60; 28; 0;
  0; 28; 124; 48; 24; 48; 124; 28;
  0; 68; 108; 56; 56; 108; 68; 0;
  0; 156; 188; 160; 160; 252; 124; 0;
  0; 68; 100; 116; 92; 76; 68; 0;
  0; 8; 8; 62; 119; 65; 65; 0;
  0; 0; 0; 255; 255; 0; 0; 0;
  0; 65; 65; 119; 62; 8; 8; 0;
  0; 2; 3; 1; 3; 2; 3; 1;
  170; 85; 170; 85; 170; 85; 170; 85].

(** An entry of a C array, [None] outside of it. *)
Definition entry (l : list Z) (i : Z) : Mc Z :=
  fun s => if bool_decide (0 <= i) then v ← l !! Z.to_nat i; Some (v, s) else None.

Section Shapes.
Context (fb : framebuf_t).

(** ** Polygons

    [pts] holds the coordinates the array object gives ([poly_int]): x and y of
    each corner in turn. *)
Section Poly.
Context (pts : list Z).

Definition poly_int (index : Z) : Mc Z := entry pts index.
Definition n_poly : Z := Z.of_nat (length pts) / 2.

Definition INT_MAX : Z := 2 ^ 31 - 1.
Definition INT_MIN : Z := - 2 ^ 31.

(** The vertical extent. *)
Fixpoint poly_extent (n : nat) (i y_min y_max : Z) : Mc (Z * Z) :=
  match n with
  | O => mret (y_min, y_max)
  | S n =>
      py ← poly_int (i * 2 + 1);
      poly_extent n (i + 1) (Z.min y_min py) (Z.max y_max py)
  end.

(** [(32 * px1 + 32 * (px2 - px1) * (row - py1) / (py2 - py1) + 16) / 32] *)
Definition poly_node (px1 py1 px2 py2 row : Z) : Mc Z :=
  a ← sint (32 * px1);
  d ← sint (px2 - px1); b ← sint (32 * d);
  r ← sint (row - py1); b ← sint (b * r);
  d ← sint (py2 - py1); b ← sint (Z.quot b d);
  a ← sint (a + b); a ← sint (a + 16);
  mret (Z.quot a 32).

(** "if (py1 != py2 && ...)": does the edge cross the scan line? *)
Definition poly_crosses (py1 py2 row : Z) : bool :=
  negb (py1 =? py2) && (((row <? py1) && (py2 <=? row)) || ((py1 <=? row) && (row <? py2))).

(** One edge on scan line [row]: a new node, or the pixels missed above. *)
Definition poly_edge (x y row col px1 py1 px2 py2 : Z) (nodes : list Z) : Mf (list Z) :=
  if poly_crosses py1 py2 row then
    node ← poly_node px1 py1 px2 py2 row;
    assert_ (Z.of_nat (length nodes) <? n_poly);;
    xret (nodes ++ [node])
  else if row =? Z.max py1 py2 then
    (if py1 <? py2 then
       u ← sint (x + px2); v ← sint (y + py2); setpixel_checked fb u v col 1
     else if py2 <? py1 then
       u ← sint (x + px1); v ← sint (y + py1); setpixel_checked fb u v col 1
     else
       u1 ← sint (x + px1); v1 ← sint (y + py1); u2 ← sint (x + px2); v2 ← sint (y + py2);
       line fb u1 v1 u2 v2 col);;!
    xret nodes
  else xret nodes.

(** The edges, from the one that ends in the last corner; [n] of them are left
    and [i] is the index of the next coordinate. *)
Fixpoint poly_edges (n : nat) (i x y row col px1 py1 : Z) (nodes : list Z) : Mf (list Z) :=
  match n with
  | O => xret nodes
  | S n =>
      py2 ← poly_int i; px2 ← poly_int (i - 1);
      nodes ←! poly_edge x y row col px1 py1 px2 py2 nodes;
      poly_edges n (i - 2) x y row col px2 py2 nodes
  end.

(** "Sort the nodes left-to-right". *)
Fixpoint poly_sort (fuel : nat) (i : nat) (nodes : list Z) : option (list Z) :=
  match fuel with
  | O => None
  | S fuel =>
      if (S i <? length nodes)%nat then
        a ← nodes !! i; b ← nodes !! S i;
        if b <? a then poly_sort fuel (i - 1) (<[S i := a]> (<[i := b]> nodes))
        else poly_sort fuel (S i) nodes
      else Some nodes
  end.
Definition poly_sort_fuel (n : nat) : nat := (n * n + n + 1)%nat.

(** "Fill between each pair of nodes": a node without a partner would be read
    from uninitialised memory. *)
Fixpoint poly_spans (x y row col : Z) (nodes : list Z) : Mf unit :=
  match nodes with
  | [] => xret tt
  | [_] => stuck
  | a :: b :: nodes =>
      u ← sint (x + a); v ← sint (y + row); w ← sint (b - a); w ← sint (w + 1);
      fill_rect fb u v w 1 col;;!
      poly_spans x y row col nodes
  end.

Definition poly_row (x y col row : Z) : Mf unit :=
  px1 ← poly_int 0; py1 ← poly_int 1;
  nodes ←! poly_edges (Z.to_nat n_poly) (n_poly * 2 - 1) x y row col px1 py1 [];
  (match nodes with
   | [] => xret tt
   | _ =>
       match poly_sort (poly_sort_fuel (length nodes)) 0 nodes with
       | Some nodes => poly_spans x y row col nodes
       | None => stuck
       end
   end);;!
  _ ← sint (row + 1); xret tt.

(** The outline: an edge from the first corner to the last, and so on down. *)
Fixpoint poly_outline (n : nat) (i x y col px1 py1 : Z) : Mf unit :=
  match n with
  | O => xret tt
  | S n =>
      py2 ← poly_int i; px2 ← poly_int (i - 1);
      u1 ← sint (x + px1); v1 ← sint (y + py1); u2 ← sint (x + px2); v2 ← sint (y + py2);
      line fb u1 v1 u2 v2 col;;!
      poly_outline n (i - 2) x y col px2 py2
  end.

Definition framebuf_poly (x y col : Z) (fill : bool) : Mf unit :=
  if n_poly =? 0 then xret tt
  else if fill then
    '(y_min, y_max) ← poly_extent (Z.to_nat n_poly) 0 INT_MAX INT_MIN;
    xfor_up (Z.to_nat (y_max - y_min + 1)) y_min (fun row => poly_row x y col row)
  else
    px1 ← poly_int 0; py1 ← poly_int 1;
    poly_outline (Z.to_nat n_poly) (n_poly * 2 - 1) x y col px1 py1.

End Poly.

(** ** Blitting

    [source] and [palette] are only read; they may share the block of [fb]. *)

Definition blit_pixel (source : framebuf_t) (palette : option framebuf_t) (key cx0 y0 cx1 y1 : Z) : Mf unit :=
  col ← getpixel source cx1 y1;
  col ← (match palette with Some p => getpixel p col 0 | None => mret col end);
  if negb (col =? u32 key) then setpixel fb cx0 y0 col else xret tt.

Definition framebuf_blit (source : framebuf_t) (x y : Z) (key : option Z) (palette : option framebuf_t) : Mf unit :=
  begin_changes;;
  let key := default (-1) key in
  if (width fb <=? x) || (height fb <=? y) then xret tt
  else
    nx ← sint (- x);
    if width source <=? nx then xret tt
    else
      ny ← sint (- y);
      if height source <=? ny then xret tt
      else
        let x0 := Z.max 0 x in
        let y0 := Z.max 0 y in
        let x1 := Z.max 0 nx in
        let y1 := Z.max 0 ny in
        x0end ← sint (x + width source);
        let x0end := Z.min (width fb) x0end in
        y0end ← sint (y + height source);
        let y0end := Z.min (height fb) y0end in
        xfor_up (Z.to_nat (y0end - y0)) 0 (fun j =>
          xfor_up (Z.to_nat (x0end - x0)) 0 (fun i =>
            blit_pixel source palette key (x0 + i) (y0 + j) (x1 + i) (y1 + j))).

(** ** Scrolling *)

(** Start, end and direction of the loop over one coordinate, [None] when there
    is nothing to move. *)
Definition scroll_range (size step : Z) : Mc (option (Z * Z * Z)) :=
  if step <? 0 then
    e ← sint (size + step);
    mret (if e <=? 0 then None else Some (0, e, 1))
  else
    e ← sint (step - 1);
    mret (if size - 1 <=? e then None else Some (size - 1, e, -1)).

Definition framebuf_scroll (xstep ystep : Z) : Mf unit :=
  xr ← scroll_range (width fb) xstep;
  match xr with
  | None => xret tt
  | Some (sx, xend, dx) =>
      yr ← scroll_range (height fb) ystep;
      match yr with
      | None => xret tt
      | Some (sy, yend, dy) =>
          xfor_up (Z.to_nat (Z.abs (yend - sy))) 0 (fun j =>
            xfor_up (Z.to_nat (Z.abs (xend - sx))) 0 (fun i =>
              let x := sx + i * dx in
              let y := sy + j * dy in
              u ← sint (x - xstep); v ← sint (y - ystep);
              col ← getpixel fb u v; setpixel fb x y col))
      end
  end.

(** ** Text *)

(** The pixels of one column: "for (int y = y0; vline_data; vline_data >>= 1, y++)". *)
Fixpoint text_column (fuel : nat) (x0 y vline_data col : Z) : Mf unit :=
  if vline_data =? 0 then xret tt
  else
    match fuel with
    | O => stuck
    | S fuel =>
        (if negb (Z.land vline_data 1 =? 0) then
           if (0 <=? y) && (y <? height fb) then setpixel fb x0 y col else xret tt
         else xret tt);;!
        y ← sint (y + 1);
        text_column fuel x0 y (Z.shiftr vline_data 1) col
    end.

(** The columns of one character; the next [x0]. *)
Fixpoint text_char (n : nat) (j base x0 y0 col : Z) : Mf Z :=
  match n with
  | O => xret x0
  | S n =>
      (if (0 <=? x0) && (x0 <? width fb) then
         vline_data ← entry font_petme128_8x8 (base + j); text_column 8 x0 y0 vline_data col
       else xret tt);;!
      x0 ← sint (x0 + 1);
      text_char n (j + 1) base x0 y0 col
  end.

(** The bytes of the string up to its first NUL. *)
Fixpoint text_chars (str : list Z) (x0 y0 col : Z) : Mf unit :=
  match str with
  | [] => xret tt
  | chr :: str =>
      if chr =? 0 then xret tt
      else
        let chr := if (chr <? 32) || (127 <? chr) then 127 else chr in
        x0 ←! text_char 8 0 ((chr - 32) * 8) x0 y0 col;
        text_chars str x0 y0 col
  end.

Definition framebuf_text (str : list Z) (x0 y0 : Z) (c : option Z) : Mf unit :=
  text_chars str x0 y0 (default 1 c).

End Shapes.
