(* ===== verification/FrameBufFacts.v ===== *)
(** * Pixels of frame buffers

    The formats whose pixels lie inside one byte and are read where they are
    written: MVLSB, MHLSB, MHMSB, GS4_HMSB and GS8.  A pixel is a bit field of a
    byte ([p_index], [p_shift], [p_bits]); the view of a buffer gives the value
    of every pixel. *)
From Stdlib Require Import ZifyBool.
From S2P Require Import Prelude.
From S2P Require Import CMem.
From S2P Require Import BitFields.
From S2P Require Import FrameBuf.
Local Open Scope Z_scope.

(** ** Layouts *)

Section Layout.
Context (fb : framebuf_t).

Definition p_index (x y : Z) : Z :=
  if format fb =? FRAMEBUF_MVLSB then y / 8 * stride fb + x
  else if format fb =? FRAMEBUF_GS4_HMSB then (x + y * stride fb) / 2
  else if format fb =? FRAMEBUF_GS8 then x + y * stride fb
  else (x + y * stride fb) / 8.

Definition p_shift (x y : Z) : Z :=
  if format fb =? FRAMEBUF_MVLSB then y `mod` 8
  else if format fb =? FRAMEBUF_GS4_HMSB then (if x `mod` 2 =? 0 then 4 else 0)
  else if format fb =? FRAMEBUF_GS8 then 0
  else if format fb =? FRAMEBUF_MHMSB then x `mod` 8
  else 7 - x `mod` 8.

Definition p_bits : Z :=
  if format fb =? FRAMEBUF_GS4_HMSB then 4 else if format fb =? FRAMEBUF_GS8 then 8 else 1.

(** The value a pixel gets from a colour argument. *)
Definition colour (col : Z) : Z :=
  if format fb =? FRAMEBUF_GS4_HMSB then col `mod` 16
  else if format fb =? FRAMEBUF_GS8 then col `mod` 256
  else zbool (negb (u32 col =? 0)).

Definition in_range (x y : Z) : Prop := 0 <= x < width fb /\ 0 <= y < height fb.

Definition is_format (f : Z) : Prop :=
  f = FRAMEBUF_MVLSB \/ f = FRAMEBUF_GS4_HMSB \/ f = FRAMEBUF_GS8 \/ f = FRAMEBUF_MHLSB \/ f = FRAMEBUF_MHMSB.

(** A frame buffer that fits a buffer of [n] bytes. *)
Record fits (n : nat) : Prop := {
  ft_format : is_format (format fb);
  ft_width : 1 <= width fb <= stride fb;
  ft_stride : stride fb <= 65536;
  ft_height : 1 <= height fb <= 65535;
  ft_mono : format fb = FRAMEBUF_MHLSB \/ format fb = FRAMEBUF_MHMSB -> stride fb `mod` 8 = 0;
  ft_gs4 : format fb = FRAMEBUF_GS4_HMSB -> stride fb `mod` 2 = 0;
  ft_linear : (height fb - 1) * stride fb + width fb <= 2 ^ 32;
  ft_index : forall x y, in_range x y -> p_index x y < Z.of_nat n }.

End Layout.

(** Split on the five formats, with the tests of the definitions evaluated. *)
Ltac by_format H :=
  destruct H as [Ef | [Ef | [Ef | [Ef | Ef]]]];
  unfold p_index, p_shift, p_bits, colour; rewrite ?Ef; cbn [Z.eqb Pos.eqb FRAMEBUF_MVLSB FRAMEBUF_RGB565
    FRAMEBUF_GS2_HMSB FRAMEBUF_GS4_HMSB FRAMEBUF_GS8 FRAMEBUF_MHLSB FRAMEBUF_MHMSB orb].

(** Positions in row-major order are unique. *)
Lemma row_major q a b y y' : 0 <= a < q -> 0 <= b < q -> a + y * q = b + y' * q -> a = b /\ y = y'.
Proof.
  intros Ha Hb Heq. assert (y = y') as ->; [|lia].
  destruct (Z.lt_trichotomy y y') as [H|[H|H]]; [|done|]; exfalso.
  - assert ((y + 1) * q <= y' * q) by (apply Z.mul_le_mono_nonneg_r; lia). lia.
  - assert ((y' + 1) * q <= y * q) by (apply Z.mul_le_mono_nonneg_r; lia). lia.
Qed.

Section Facts.
Context (fb : framebuf_t) (n : nat) (Hfit : fits fb n).

Lemma linear_range x y : in_range fb x y -> 0 <= x + y * stride fb < 2 ^ 32.
Proof. intros [Hx Hy]. destruct Hfit. nia. Qed.

Lemma linear_eq x y : in_range fb x y -> linear fb x y = x + y * stride fb.
Proof. intros H. apply uwrap_small. by apply linear_range. Qed.

Lemma mvlsb_index_eq x y : in_range fb x y -> mvlsb_index fb x y = y / 8 * stride fb + x.
Proof.
  intros H. unfold mvlsb_index. rewrite shiftr_div by done. change (2 ^ 3) with 8. apply uwrap_small.
  pose proof (linear_range _ _ H). destruct H as [Hx Hy]. destruct Hfit.
  pose proof (div_le_self y 8 ltac:(lia) ltac:(done)). nia.
Qed.

Lemma p_index_nonneg x y : in_range fb x y -> 0 <= p_index fb x y.
Proof.
  intros H. pose proof (linear_range _ _ H). destruct H as [Hx Hy]. pose proof (ft_format _ _ Hfit) as Hf.
  destruct Hfit. assert (0 <= y / 8) by (apply Z.div_pos; lia). by_format Hf; try (apply Z.div_pos; lia); nia.
Qed.

Lemma p_shift_bits x y : 0 <= p_shift fb x y /\ 0 <= p_bits fb /\ p_shift fb x y + p_bits fb <= 8.
Proof.
  pose proof (Z.mod_pos_bound x 8 ltac:(done)). pose proof (Z.mod_pos_bound y 8 ltac:(done)).
  pose proof (ft_format _ _ Hfit) as Hf. by_format Hf; try case_match; lia.
Qed.

(** Different pixels are different fields. *)
Lemma p_disjoint x y x' y' : in_range fb x y -> in_range fb x' y' -> p_index fb x y = p_index fb x' y' ->
  (x = x' /\ y = y') \/ p_shift fb x y + p_bits fb <= p_shift fb x' y' \/ p_shift fb x' y' + p_bits fb <= p_shift fb x y.
Proof.
  intros [Hx Hy] [Hx' Hy'].
  assert (forall k a b, k <> 0 -> stride fb = k * (stride fb / k) -> a / k < stride fb / k -> b / k < stride fb / k ->
    0 <= a / k -> 0 <= b / k -> (a + y * stride fb) / k = (b + y' * stride fb) / k -> a / k = b / k /\ y = y') as Hrow.
  { intros k a b Hk Hs Ha Hb Ha0 Hb0. set (q := stride fb / k) in *. rewrite Hs, !(Z.mul_comm k q), !Z.mul_assoc, !Z.div_add by done.
    intros. by apply (row_major q). }
  destruct Hfit as [Hf Hw Hs Hh Hmono Hgs4 _ _].
  assert (forall k a, 0 < k -> stride fb `mod` k = 0 -> 0 <= a < width fb -> a / k < stride fb / k /\ 0 <= a / k) as Hlt.
  { intros k a Hk Hm Ha. split; [|apply Z.div_pos; lia]. apply Z.div_lt_upper_bound; [done|].
    pose proof (Z.div_mod (stride fb) k ltac:(lia)). lia. }
  by_format Hf; intros Heq.
  - destruct (decide (y = y')) as [->|]; [left; split; lia|].
    destruct (row_major (stride fb) x x' (y / 8) (y' / 8)) as [-> Hd]; [lia..|].
    right. pose proof (Z.div_mod y 8 ltac:(done)). pose proof (Z.div_mod y' 8 ltac:(done)). lia.
  - specialize (Hgs4 Ef). pose proof (Z.div_mod (stride fb) 2 ltac:(done)).
    destruct (Hlt 2 x ltac:(done) Hgs4 Hx), (Hlt 2 x' ltac:(done) Hgs4 Hx').
    destruct (Hrow 2 x x' ltac:(done) ltac:(lia) ltac:(done) ltac:(done) ltac:(done) ltac:(done) Heq) as [Hd ->].
    pose proof (Z.div_mod x 2 ltac:(done)). pose proof (Z.div_mod x' 2 ltac:(done)).
    pose proof (Z.mod_pos_bound x 2 ltac:(done)). pose proof (Z.mod_pos_bound x' 2 ltac:(done)).
    destruct (Z.eqb_spec (x `mod` 2) 0), (Z.eqb_spec (x' `mod` 2) 0); lia.
  - left. apply (row_major (stride fb)); [lia..|done].
  - specialize (Hmono (or_introl Ef)). pose proof (Z.div_mod (stride fb) 8 ltac:(done)).
    destruct (Hlt 8 x ltac:(done) Hmono Hx), (Hlt 8 x' ltac:(done) Hmono Hx').
    destruct (Hrow 8 x x' ltac:(done) ltac:(lia) ltac:(done) ltac:(done) ltac:(done) ltac:(done) Heq) as [Hd ->].
    pose proof (Z.div_mod x 8 ltac:(done)). pose proof (Z.div_mod x' 8 ltac:(done)). lia.
  - specialize (Hmono (or_intror Ef)). pose proof (Z.div_mod (stride fb) 8 ltac:(done)).
    destruct (Hlt 8 x ltac:(done) Hmono Hx), (Hlt 8 x' ltac:(done) Hmono Hx').
    destruct (Hrow 8 x x' ltac:(done) ltac:(lia) ltac:(done) ltac:(done) ltac:(done) ltac:(done) Heq) as [Hd ->].
    pose proof (Z.div_mod x 8 ltac:(done)). pose proof (Z.div_mod x' 8 ltac:(done)). lia.
Qed.

(** ** The view of a buffer *)

Definition byte_of (l : list Z) (x y : Z) : Z := nth (Z.to_nat (p_index fb x y)) l 0.
Definition pix (l : list Z) (x y : Z) : Z := field (p_shift fb x y) (p_bits fb) (byte_of l x y).
Definition set_pix (l : list Z) (x y v : Z) : list Z :=
  <[Z.to_nat (p_index fb x y) := set_field (p_shift fb x y) (p_bits fb) v (byte_of l x y)]> l.

Lemma byte_of_lookup l x y : length l = n -> in_range fb x y -> l !! Z.to_nat (p_index fb x y) = Some (byte_of l x y).
Proof.
  intros Hl H. unfold byte_of.
  pose proof (ft_index _ _ Hfit _ _ H). pose proof (p_index_nonneg _ _ H).
  destruct (lookup_lt_is_Some_2 l (Z.to_nat (p_index fb x y)) ltac:(lia)) as [b Hb].
  by rewrite (nth_lookup_Some _ _ _ _ Hb).
Qed.

Lemma pix_set_pix l x y v x' y' : length l = n -> in_range fb x y -> in_range fb x' y' ->
  pix (set_pix l x y v) x' y' = if decide (x' = x /\ y' = y) then Z.land v (Z.ones (p_bits fb)) else pix l x' y'.
Proof.
  intros Hl H H'. pose proof (ft_index _ _ Hfit _ _ H). pose proof (p_index_nonneg _ _ H). pose proof (p_index_nonneg _ _ H').
  destruct (p_shift_bits x y) as (? & ? & ?), (p_shift_bits x' y') as (? & _ & _).
  unfold pix at 1. unfold byte_of, set_pix. rewrite nth_lookup.
  destruct (decide (p_index fb x' y' = p_index fb x y)) as [He|Hne].
  - rewrite He, list_lookup_insert_eq by lia. cbn. case_decide as Hd.
    + destruct Hd as [-> ->]. by rewrite field_set_same.
    + destruct (p_disjoint x y x' y' H H' ltac:(done)) as [[-> ->]|Hdis]; [tauto|].
      rewrite field_set_other by (done || lia). unfold pix, byte_of. by rewrite He.
  - rewrite list_lookup_insert_ne by lia. rewrite decide_False by (intros [-> ->]; done).
    unfold pix, byte_of. by rewrite nth_lookup.
Qed.

Lemma set_pix_length l x y v : length (set_pix l x y v) = length l.
Proof. apply length_insert. Qed.

Lemma byte_of_byte l x y : Forall is_byte l -> is_byte (byte_of l x y).
Proof.
  intros Hl. unfold byte_of. rewrite nth_lookup. destruct (l !! _) as [b|] eqn:Hb; cbn; [|done].
  rewrite Forall_lookup in Hl. eauto.
Qed.

Lemma set_pix_bytes l x y v : Forall is_byte l -> Forall is_byte (set_pix l x y v).
Proof.
  intros Hl. apply Forall_insert; [done|]. destruct (p_shift_bits x y) as (? & ? & ?).
  apply set_field_byte; [done..|]. by apply byte_of_byte.
Qed.

(** ** States *)

Record log_ok (s : canvas) : Prop := {
  lo_length : Z.of_nat (length (changed_indexes s)) = changed_capacity fb;
  lo_count : 0 <= changed_count s <= changed_capacity fb }.

Definition block_ok (s : canvas) : Prop := exists l, mem s !! buf fb = Some l /\ length l = n /\ Forall is_byte l.

Record canvas_ok (s : canvas) : Prop := { co_block : block_ok s; co_log : log_ok s }.

Definition block (s : canvas) : list Z := default [] (mem s !! buf fb).
Definition view (s : canvas) (x y : Z) : Z := pix (block s) x y.

(** Only the buffer of [fb] may have changed. *)
Definition evolves (s s' : canvas) : Prop :=
  canvas_ok s' /\ forall b, b <> buf fb -> mem s' !! b = mem s !! b.

Definition same_log (s s' : canvas) : Prop :=
  changed_count s' = changed_count s /\ changed_cleared s' = changed_cleared s /\ changed_indexes s' = changed_indexes s.

Lemma evolves_refl s : canvas_ok s -> evolves s s.
Proof. done. Qed.

Lemma evolves_trans s1 s2 s3 : evolves s1 s2 -> evolves s2 s3 -> evolves s1 s3.
Proof. intros [_ H12] [Hok H23]. split; [done|]. intros b Hb. by rewrite H23, H12. Qed.

Lemma same_log_refl s : same_log s s.
Proof. done. Qed.

Lemma same_log_trans s1 s2 s3 : same_log s1 s2 -> same_log s2 s3 -> same_log s1 s3.
Proof. intros (? & ? & ?) (? & ? & ?). split; [|split]; congruence. Qed.

(** The pixel [x, y] has got the low bits of [v], the others are as they were. *)
Definition painted (s s' : canvas) (x y v : Z) : Prop :=
  evolves s s' /\ same_log s s' /\ forall x' y', in_range fb x' y' ->
    view s' x' y' = if decide (x' = x /\ y' = y) then Z.land v (Z.ones (p_bits fb)) else view s x' y'.

Lemma wp_ld_pixel s x y i (Q : Z -> canvas -> Prop) : block_ok s -> in_range fb x y -> i = p_index fb x y ->
  (is_byte (byte_of (block s) x y) -> Q (byte_of (block s) x y) s) -> wp (ld fb i) s Q.
Proof.
  intros (l & Hl & Hn & Hb) H -> HQ. unfold ld. apply wp_on_part. unfold block in HQ. rewrite Hl in HQ. cbn in HQ.
  apply (wp_load _ _ _ (byte_of l x y)).
  - rewrite <-(Z2Nat.id (p_index fb x y)) by by apply p_index_nonneg. rewrite (mem_get_nat _ _ l) by done. by apply byte_of_lookup.
  - replace (set_mem (mem s) s) with s by by destruct s. apply HQ. by apply byte_of_byte.
Qed.

Lemma wp_st_pixel s x y i nb v (Q : unit -> canvas -> Prop) : canvas_ok s -> in_range fb x y -> i = p_index fb x y ->
  u8 nb = set_field (p_shift fb x y) (p_bits fb) v (byte_of (block s) x y) ->
  (forall s', painted s s' x y v -> Q tt s') -> wp (st fb i nb) s Q.
Proof.
  intros [(l & Hl & Hn & Hb) Hlog] H -> Hnb HQ. unfold st. apply wp_on_part. unfold block in Hnb. rewrite Hl in Hnb. cbn in Hnb.
  apply (wp_store _ _ _ (byte_of l x y)).
  { rewrite <-(Z2Nat.id (p_index fb x y)) by by apply p_index_nonneg. rewrite (mem_get_nat _ _ l) by done. by apply byte_of_lookup. }
  rewrite Hnb. apply HQ.
  set (s' := set_mem _ s).
  assert (mem s' !! buf fb = Some (set_pix l x y v)) as Hl'.
  { cbn. rewrite lookup_alter_eq, Hl. done. }
  split; [split; [split|]|].
  - exists (set_pix l x y v). rewrite set_pix_length. split; [done|]. split; [done|]. by apply set_pix_bytes.
  - by destruct Hlog.
  - intros b Hne. cbn. by rewrite lookup_alter_ne.
  - split; [done|]. intros x' y' H'. unfold view, block. rewrite Hl', Hl. cbn. by apply pix_set_pix.
Qed.

(** ** The formats *)

(** A byte with one pixel changed, as the bit formats compute it. *)
Lemma wp_set_bit s x y i o col (Q : unit -> canvas -> Prop) : canvas_ok s -> in_range fb x y -> p_bits fb = 1 ->
  i = p_index fb x y -> o = p_shift fb x y ->
  (forall s', painted s s' x y (zbool (negb (col =? 0))) -> Q tt s') -> wp (set_bit fb i o col) s Q.
Proof.
  intros Hok H Hbits Hi -> HQ. unfold set_bit. apply wp_bind, (wp_ld_pixel _ x y); [by apply co_block|done|done|]. intros Hbyte.
  apply (wp_st_pixel _ x y _ _ (zbool (negb (col =? 0)))); [done|done|done| |done].
  rewrite Hbits. destruct (p_shift_bits x y) as (? & ? & ?). apply set_bit_form; [lia|done|].
  destruct (col =? 0); cbn; auto.
Qed.

Lemma mono_offset_eq x y : format fb = FRAMEBUF_MHLSB \/ format fb = FRAMEBUF_MHMSB -> mono_offset fb x = p_shift fb x y.
Proof.
  intros Hf. unfold mono_offset, p_shift. change 0x07 with (2 ^ 3 - 1). rewrite land_pow2_mask by done.
  by destruct Hf as [-> | ->].
Qed.

(** The values of [colour] are those of the pixels. *)
Lemma colour_bits col : Z.land (colour fb col) (Z.ones (p_bits fb)) = colour fb col.
Proof.
  pose proof (ft_format _ _ Hfit) as Hf. by_format Hf; try (destruct (u32 col =? 0); done).
  - rewrite Z.land_ones by done. by rewrite Z.mod_mod.
  - rewrite Z.land_ones by done. by rewrite Z.mod_mod.
Qed.

(** The indexes recorded so far, and those that count for the next change. *)
Definition recorded (s : canvas) : list Z := take (Z.to_nat (changed_count s)) (changed_indexes s).
Definition pending (s : canvas) : list Z := if changed_cleared s then recorded s else [].
Definition record_index (log : list Z) (idx : Z) : list Z :=
  if Z.of_nat (length log) <? changed_capacity fb then log ++ [u16 idx] else log.

Lemma recorded_length s : canvas_ok s -> Z.of_nat (length (recorded s)) = changed_count s.
Proof. intros [_ [Hl Hc]]. unfold recorded. rewrite length_take. lia. Qed.

Lemma wp_begin_changes s (Q : unit -> canvas -> Prop) : canvas_ok s ->
  (forall s1, canvas_ok s1 -> mem s1 = mem s -> changed_cleared s1 = true -> recorded s1 = pending s -> Q tt s1) ->
  wp begin_changes s Q.
Proof.
  intros Hok HQ. unfold begin_changes. apply wp_bind. unfold wp at 1, get.
  destruct (changed_cleared s) eqn:Hc.
  - apply wp_ret, HQ; [done..|]. unfold pending. by rewrite Hc.
  - apply wp_modify, HQ; [|done|done|unfold pending; by rewrite Hc].
    destruct Hok as [Hb [Hl Hcnt]]. split; [done|]. split; cbn; [done|lia].
Qed.

Lemma wp_log_change s idx (Q : unit -> canvas -> Prop) : canvas_ok s -> changed_cleared s = true ->
  (forall s1, canvas_ok s1 -> mem s1 = mem s -> changed_cleared s1 = true -> recorded s1 = record_index (recorded s) idx -> Q tt s1) ->
  wp (log_change fb idx) s Q.
Proof.
  intros Hok Hc HQ. unfold log_change. apply wp_bind. unfold wp at 1, get.
  pose proof (recorded_length s Hok) as Hlen. pose proof Hok as [Hb [Hl Hcnt]].
  destruct (Z.ltb_spec (changed_count s) (changed_capacity fb)) as [Hlt|Hge].
  - apply wp_bind, wp_assert; [apply Z.ltb_lt; lia|]. apply wp_modify, HQ; [|done|done|].
    + split; [done|]. split; cbn; [by rewrite length_insert|lia].
    + unfold recorded at 1. cbn [changed_count changed_indexes].
      replace (Z.to_nat (changed_count s + 1)) with (S (Z.to_nat (changed_count s))) by lia.
      rewrite (take_S_r _ _ (u16 idx)) by (apply list_lookup_insert_eq; lia).
      rewrite take_insert_ge by lia. unfold record_index. rewrite Hlen. by rewrite (proj2 (Z.ltb_lt _ _)).
  - apply wp_ret, HQ; [done..|]. unfold record_index. rewrite Hlen. by rewrite (proj2 (Z.ltb_ge _ _)).
Qed.

(** What setting a pixel does: one pixel gets the colour, its index is logged. *)
Definition pixel_set (s s' : canvas) (x y col : Z) : Prop :=
  evolves s s' /\ changed_cleared s' = true /\ recorded s' = record_index (pending s) (p_index fb x y) /\
  forall x' y', in_range fb x' y' ->
    view s' x' y' = if decide (x' = x /\ y' = y) then colour fb col else view s x' y'.

Lemma painted_set s s1 s2 x y v col : mem s1 = mem s -> changed_cleared s1 = true ->
  recorded s1 = record_index (pending s) (p_index fb x y) -> Z.land v (Z.ones (p_bits fb)) = colour fb col ->
  painted s1 s2 x y v -> pixel_set s s2 x y col.
Proof.
  intros Hm Hc Hr Hv ([Hok Hfr] & (H1 & H2 & H3) & Hp). split; [split; [done|]|split; [|split]].
  - intros b Hb. by rewrite Hfr, Hm.
  - by rewrite H2.
  - unfold recorded. by rewrite H1, H3.
  - intros x' y' H'. rewrite Hp by done. rewrite Hv. unfold view, block. by rewrite Hm.
Qed.

(** The common part of the [setpixel] functions. *)
Lemma wp_touch s x y idx (k : M canvas (fb_exn + unit)) (Q : fb_exn + unit -> canvas -> Prop) : canvas_ok s -> idx = p_index fb x y ->
  (forall s1, canvas_ok s1 -> mem s1 = mem s -> changed_cleared s1 = true ->
     recorded s1 = record_index (pending s) (p_index fb x y) -> wp k s1 Q) ->
  wp (begin_changes;; log_change fb idx;; k) s Q.
Proof.
  intros Hok -> HQ. apply wp_bind, wp_begin_changes; [done|]. intros s1 Hok1 Hm1 Hc1 Hr1.
  apply wp_bind, wp_log_change; [done|done|]. intros s2 Hok2 Hm2 Hc2 Hr2. apply HQ; [done| |done|].
  - by rewrite Hm2, Hm1.
  - by rewrite Hr2, Hr1.
Qed.

Lemma wp_check_pixel s x y (k : M canvas (fb_exn + unit)) (Q : fb_exn + unit -> canvas -> Prop) :
  in_range fb x y -> wp k s Q -> wp (check_pixel fb x y;;! k) s Q.
Proof.
  intros [Hx Hy] Hk. apply wp_xbind. unfold check_pixel.
  rewrite !(proj2 (Z.leb_gt _ _)) by lia. cbn [orb]. by apply wp_xret.
Qed.

Lemma u32_coord x y : in_range fb x y -> u32 x = x /\ u32 y = y.
Proof. intros [Hx Hy]. destruct Hfit. split; apply uwrap_small; lia. Qed.

Lemma uwrap_mod w k x : 0 <= k <= w -> uwrap w x `mod` 2 ^ k = x `mod` 2 ^ k.
Proof.
  intros Hk. apply Z.mod_mod_divide. exists (2 ^ (w - k)). rewrite <-Z.pow_add_r by lia. f_equal. lia.
Qed.

Lemma wp_setpixel s x y col (Q : fb_exn + unit -> canvas -> Prop) : canvas_ok s -> in_range fb x y ->
  (forall s', pixel_set s s' x y col -> Q (inr tt) s') -> wp (setpixel fb x y col) s Q.
Proof.
  intros Hok H HQ. unfold setpixel. destruct (u32_coord x y H) as [-> ->].
  pose proof (linear_range x y H) as Hlr. pose proof (ft_format _ _ Hfit) as Hf.
  assert (Z.land (zbool (negb (u32 col =? 0))) (Z.ones 1) = zbool (negb (u32 col =? 0))) as Hbool by by destruct (u32 col =? 0).
  destruct Hf as [Ef|[Ef|[Ef|Ef]]].
  - rewrite Ef. cbn [Z.eqb FRAMEBUF_MVLSB]. apply wp_check_pixel; [done|].
    assert (mvlsb_index fb x y = p_index fb x y) as Hi by (unfold p_index; rewrite mvlsb_index_eq, Ef by done; done).
    apply (wp_touch _ x y); [done|done|]. intros s1 Hok1 Hm Hc Hr. apply wp_bind.
    apply (wp_set_bit _ x y); [done|done|unfold p_bits; by rewrite Ef|done| |].
    { change 0x07 with (2 ^ 3 - 1). rewrite land_pow2_mask by done. unfold p_shift. by rewrite Ef. }
    intros s2 Hp. apply wp_xret, HQ. apply (painted_set s s1 _ _ _ _ col Hm Hc Hr) in Hp; [done|].
    unfold colour, p_bits. by rewrite Ef.
  - rewrite Ef. cbn [Z.eqb Pos.eqb FRAMEBUF_MVLSB FRAMEBUF_RGB565 FRAMEBUF_GS2_HMSB FRAMEBUF_GS4_HMSB].
    assert (Z.shiftr (linear fb x y) 1 = p_index fb x y) as Hi.
    { rewrite linear_eq, shiftr_div by done. unfold p_index. by rewrite Ef. }
    apply (wp_touch _ x y); [done|done|]. intros s1 Hok1 Hm Hc Hr. apply wp_bind, (wp_ld_pixel _ x y); [by apply co_block|done|done|].
    intros Hbyte. apply wp_bind.
    assert (Z.land (u32 col) (Z.ones (p_bits fb)) = colour fb col) as Hcol.
    { unfold colour, p_bits. rewrite Ef. cbn. rewrite Z.land_ones by done. by apply (uwrap_mod 32 4). }
    assert (p_shift fb x y = if negb (Z.land x 1 =? 0) then 0 else 4) as Hs.
    { unfold p_shift. rewrite Ef. cbn. rewrite (land_pow2_mask 1) by done. change (2 ^ 1) with 2. by destruct (x `mod` 2 =? 0). }
    destruct (negb (Z.land x 1 =? 0)); apply (wp_st_pixel _ x y _ _ (u32 col)); try done.
    1, 3: rewrite Hs; unfold p_bits; rewrite Ef; cbn; by (apply low_nibble_form || apply high_nibble_form).
    1, 2: intros s2 Hp; apply wp_xret, HQ; by apply (painted_set s s1 _ _ _ _ col Hm Hc Hr) in Hp.
  - rewrite Ef. cbn [Z.eqb Pos.eqb FRAMEBUF_MVLSB FRAMEBUF_RGB565 FRAMEBUF_GS2_HMSB FRAMEBUF_GS4_HMSB FRAMEBUF_GS8].
    apply wp_check_pixel; [done|].
    assert (linear fb x y = p_index fb x y) as Hi by (rewrite linear_eq by done; unfold p_index; by rewrite Ef).
    apply (wp_touch _ x y); [done|done|]. intros s1 Hok1 Hm Hc Hr. apply wp_bind.
    apply (wp_st_pixel _ x y _ _ (u32 col)); [done|done|done| |].
    { unfold p_shift, p_bits. rewrite Ef. apply whole_byte_form. destruct Hok1 as [(l & Hl & _ & Hb) _].
      unfold block. rewrite Hl. by apply byte_of_byte. }
    intros s2 Hp. apply wp_xret, HQ. apply (painted_set s s1 _ _ _ _ col Hm Hc Hr) in Hp; [done|].
    unfold colour, p_bits. rewrite Ef. cbn. rewrite Z.land_ones by done. by apply (uwrap_mod 32 8).
  - assert (Z.shiftr (linear fb x y) 3 = p_index fb x y /\ p_bits fb = 1 /\ colour fb col = zbool (negb (u32 col =? 0))) as (Hi & Hb & Hcol).
    { rewrite linear_eq, shiftr_div by done. unfold p_index, p_bits, colour. by destruct Ef as [-> | ->]. }
    replace (_ : M canvas (fb_exn + unit)) with (mono_horiz_setpixel fb x y (u32 col)) by by destruct Ef as [-> | ->].
    apply wp_check_pixel; [done|]. apply (wp_touch _ x y); [done|done|]. intros s1 Hok1 Hm Hc Hr. apply wp_bind.
    apply (wp_set_bit _ x y); [done|done|done|done|by apply mono_offset_eq|].
    intros s2 Hp. apply wp_xret, HQ. apply (painted_set s s1 _ _ _ _ col Hm Hc Hr) in Hp; [done|]. by rewrite Hb, Hcol.
Qed.

Lemma wp_getpixel s x y (Q : Z -> canvas -> Prop) : block_ok s -> in_range fb x y ->
  Q (view s x y) s -> wp (getpixel fb x y) s Q.
Proof.
  intros Hok H HQ. unfold getpixel. destruct (u32_coord x y H) as [-> ->]. pose proof (ft_format _ _ Hfit) as Hf.
  assert (forall i o, i = p_index fb x y -> o = p_shift fb x y -> p_bits fb = 1 ->
    wp (b ← ld fb i; mret (Z.land (Z.shiftr b o) 0x01)) s Q) as Hbit.
  { intros i o -> -> Hb. apply wp_bind, (wp_ld_pixel _ x y); [done|done|done|]. intros _. apply wp_ret.
    unfold view, pix, field in HQ. by rewrite Hb in HQ. }
  destruct Hf as [Ef|[Ef|[Ef|Ef]]].
  - rewrite Ef. cbn [Z.eqb FRAMEBUF_MVLSB]. apply Hbit; [|unfold p_shift; rewrite Ef|unfold p_bits; by rewrite Ef].
    + rewrite mvlsb_index_eq by done. unfold p_index. by rewrite Ef.
    + change 0x07 with (2 ^ 3 - 1). by rewrite land_pow2_mask.
  - rewrite Ef. cbn [Z.eqb Pos.eqb FRAMEBUF_MVLSB FRAMEBUF_RGB565 FRAMEBUF_GS2_HMSB FRAMEBUF_GS4_HMSB].
    apply wp_bind, (wp_ld_pixel _ x y); [done|done| |].
    { rewrite linear_eq, shiftr_div by done. unfold p_index. by rewrite Ef. }
    intros Hb. apply wp_ret. revert HQ. unfold view, pix, p_shift, p_bits, field. rewrite Ef. cbn.
    destruct (x `mod` 2 =? 0); cbn; [|by rewrite Z.shiftr_0_r].
    rewrite Z.land_ones, Z.mod_small; [by intros ?| |done]. rewrite shiftr_div by done. unfold is_byte in Hb.
    split; [apply Z.div_pos; lia|apply Z.div_lt_upper_bound; lia].
  - rewrite Ef. cbn [Z.eqb Pos.eqb FRAMEBUF_MVLSB FRAMEBUF_RGB565 FRAMEBUF_GS2_HMSB FRAMEBUF_GS4_HMSB FRAMEBUF_GS8].
    apply (wp_ld_pixel _ x y); [done|done| |].
    { rewrite linear_eq by done. unfold p_index. by rewrite Ef. }
    intros Hb. revert HQ. unfold view, pix, p_shift, p_bits, field. rewrite Ef. cbn.
    rewrite Z.shiftr_0_r, Z.land_ones, Z.mod_small by done. by intros ?.
  - replace (_ : M canvas Z) with (mono_horiz_getpixel fb x y) by by destruct Ef as [-> | ->].
    apply Hbit; [|by apply mono_offset_eq|].
    + rewrite linear_eq, shiftr_div by done. unfold p_index. by destruct Ef as [-> | ->].
    + unfold p_bits. by destruct Ef as [-> | ->].
Qed.

(** ** Sets of pixels *)

(** The pixels of the set [P] have colour [c], the others are as they were. *)
Definition filled (P : Z -> Z -> bool) (c : Z) (s s' : canvas) : Prop :=
  evolves s s' /\ same_log s s' /\ forall x y, in_range fb x y -> view s' x y = if P x y then c else view s x y.

Lemma filled_none c s : canvas_ok s -> filled (fun _ _ => false) c s s.
Proof. done. Qed.

Lemma filled_trans P R c s1 s2 s3 : filled P c s1 s2 -> filled R c s2 s3 -> filled (fun x y => P x y || R x y) c s1 s3.
Proof.
  intros (He & Hl & Hv) (He' & Hl' & Hv'). split; [by eapply evolves_trans|]. split; [by eapply same_log_trans|].
  intros x y H. rewrite Hv', Hv by done. by destruct (P x y), (R x y).
Qed.

Lemma filled_ext P R c s s' : (forall x y, in_range fb x y -> P x y = R x y) -> filled P c s s' -> filled R c s s'.
Proof. intros HPR (He & Hl & Hv). split; [done|]. split; [done|]. intros x y H. rewrite Hv by done. by rewrite HPR. Qed.

Definition one_pixel (x y : Z) (x' y' : Z) : bool := (x' =? x) && (y' =? y).

Lemma painted_filled s s' x y v c : Z.land v (Z.ones (p_bits fb)) = c -> painted s s' x y v -> filled (one_pixel x y) c s s'.
Proof.
  intros Hv (He & Hl & Hp). split; [done|]. split; [done|]. intros x' y' H. rewrite Hp by done.
  unfold one_pixel. case_decide; destruct (Z.eqb_spec x' x), (Z.eqb_spec y' y); cbn; done || tauto.
Qed.

(** A loop that fills more and more: [P j] is the set done before round [j]. *)
Lemma wp_fill_loop k i (body : Z -> Mc unit) (P : Z -> Z -> Z -> bool) c s (Q : unit -> canvas -> Prop) : canvas_ok s ->
  (forall x y, P i x y = false) ->
  (forall j s1, i <= j < i + Z.of_nat k -> canvas_ok s1 -> wp (body j) s1 (fun _ s2 =>
     exists R, filled R c s1 s2 /\ forall x y, in_range fb x y -> P (j + 1) x y = P j x y || R x y)) ->
  (forall s', filled (P (i + Z.of_nat k)) c s s' -> Q tt s') -> wp (for_up k i body) s Q.
Proof.
  intros Hok Hnone Hstep HQ.
  apply (wp_for_up (fun j s1 => filled (P j) c s s1)); [|intros j s1 Hj Hf|done].
  - apply (filled_ext (fun _ _ => false)); [done|]. by apply filled_none.
  - eapply wp_mono; [apply Hstep; [done|by destruct Hf as [[? _] _]]|]. intros [] s2 (R & HR & Hext).
    apply (filled_ext (fun x y => P j x y || R x y)); [intros x y H; by rewrite Hext|]. by eapply filled_trans.
Qed.

Definition rect (x y w h : Z) (x' y' : Z) : bool := (x <=? x') && (x' <? x + w) && (y <=? y') && (y' <? y + h).

(** A rectangle inside the frame. *)
Definition rect_ok (x y w h : Z) : Prop := 0 <= x /\ 0 <= w /\ x + w <= width fb /\ 0 <= y /\ 0 <= h /\ y + h <= height fb.

Lemma wp_mono_horiz_fill s x y w h col (Q : fb_exn + unit -> canvas -> Prop) : canvas_ok s -> rect_ok x y w h ->
  format fb = FRAMEBUF_MHLSB \/ format fb = FRAMEBUF_MHMSB ->
  (forall s', filled (rect x y w h) (zbool (negb (col =? 0))) s s' -> Q (inr tt) s') ->
  wp (mono_horiz_fill_rect fb x y w h col) s Q.
Proof.
  intros Hok Hr Hf HQ. unfold rect_ok in Hr. unfold mono_horiz_fill_rect.
  assert (p_bits fb = 1) as Hb by (unfold p_bits; by destruct Hf as [-> | ->]).
  pose proof (ft_mono _ _ Hfit Hf) as Hm. rewrite (shiftr_div 3) by done. change (2 ^ 3) with 8.
  pose proof (Z.div_mod (stride fb) 8 ltac:(done)) as Hs. rewrite Hm, Z.add_0_r in Hs. set (q := stride fb / 8) in *.
  apply wp_bind, (wp_fill_loop _ _ _ (fun j => rect x y (j - x) h) (zbool (negb (col =? 0)))); [done|unfold rect; lia| |].
  2: { intros s' Hs'. apply wp_xret, HQ. eapply filled_ext; [|exact Hs']. unfold rect. intros. cbn. lia. }
  intros j s1 Hj Hok1.
  apply (wp_fill_loop _ _ _ (fun k => rect j y 1 k) (zbool (negb (col =? 0)))); [done|unfold rect; lia| |].
  2: { intros s' Hs'. exists (rect j y 1 h). split; [|unfold rect, in_range in *; lia].
       eapply filled_ext; [|exact Hs']. unfold rect. intros. cbn. lia. }
  intros k s2 Hk Hok2. assert (in_range fb j (y + k)) as Hin by (unfold in_range; lia).
  apply (wp_set_bit _ j (y + k)); [done|done|done| |by apply mono_offset_eq|].
  - assert (in_range fb j y) as Hin0 by (unfold in_range; lia). pose proof (linear_range j y Hin0) as Hl.
    assert (p_index fb j (y + k) = j / 8 + (y + k) * q) as ->.
    { unfold p_index. replace (j + (y + k) * stride fb) with (j + (y + k) * q * 8) by lia. destruct Hf as [-> | ->]; cbn; by rewrite Z.div_add. }
    rewrite shiftr_div by done. change (2 ^ 3) with 8. rewrite uwrap_small; [lia|].
    pose proof (div_le_self j 8 ltac:(lia) ltac:(done)) as Hd. assert (y * stride fb = 8 * (y * q)) as He by (rewrite Hs; ring).
    assert (0 <= y * q) by (apply Z.mul_nonneg_nonneg; [lia|apply Z.div_pos; [destruct Hfit; lia|done]]). rewrite He in Hl.
    clear -Hl Hd H. lia.
  - intros s3 Hp. exists (one_pixel j (y + k)). split.
    + eapply painted_filled; [|exact Hp]. rewrite Hb. by destruct (col =? 0).
    + unfold rect, one_pixel. lia.
Qed.

Lemma wp_mvlsb_fill s x y w h col (Q : fb_exn + unit -> canvas -> Prop) : canvas_ok s -> rect_ok x y w h ->
  format fb = FRAMEBUF_MVLSB ->
  (forall s', filled (rect x y w h) (zbool (negb (col =? 0))) s s' -> Q (inr tt) s') ->
  wp (mvlsb_fill_rect fb x y w h col) s Q.
Proof.
  intros Hok Hr Hf HQ. unfold rect_ok in Hr. unfold mvlsb_fill_rect.
  assert (p_bits fb = 1) as Hb by (unfold p_bits; by rewrite Hf).
  apply wp_bind, (wp_fill_loop _ _ _ (fun j => rect x y w (j - y)) (zbool (negb (col =? 0)))); [done|unfold rect; lia| |].
  2: { intros s' Hs'. apply wp_xret, HQ. eapply filled_ext; [|exact Hs']. unfold rect. intros. cbn. lia. }
  intros j s1 Hj Hok1.
  apply (wp_fill_loop _ _ _ (fun k => rect x j k 1) (zbool (negb (col =? 0)))); [done|unfold rect; lia| |].
  2: { intros s' Hs'. exists (rect x j w 1). split; [|unfold rect, in_range in *; lia].
       eapply filled_ext; [|exact Hs']. unfold rect. intros. cbn. lia. }
  intros k s2 Hk Hok2. assert (in_range fb (x + k) j) as Hin by (unfold in_range; lia).
  apply (wp_set_bit _ (x + k) j); [done|done|done| | |].
  - rewrite mvlsb_index_eq by (unfold in_range; lia). unfold p_index. rewrite Hf. cbn. lia.
  - unfold p_shift. rewrite Hf. change 0x07 with (2 ^ 3 - 1). by rewrite land_pow2_mask.
  - intros s3 Hp. exists (one_pixel (x + k) j). split.
    + eapply painted_filled; [|exact Hp]. rewrite Hb. by destruct (col =? 0).
    + unfold rect, one_pixel. lia.
Qed.

Lemma wp_gs8_fill s x y w h col (Q : fb_exn + unit -> canvas -> Prop) : canvas_ok s -> rect_ok x y w h ->
  format fb = FRAMEBUF_GS8 ->
  (forall s', filled (rect x y w h) (col `mod` 256) s s' -> Q (inr tt) s') ->
  wp (gs8_fill_rect fb x y w h col) s Q.
Proof.
  intros Hok Hr Hf HQ. unfold rect_ok in Hr. unfold gs8_fill_rect.
  apply wp_bind, (wp_fill_loop _ _ _ (fun j => rect x y w j) (col `mod` 256)); [done|unfold rect; lia| |].
  2: { intros s' Hs'. apply wp_xret, HQ. eapply filled_ext; [|exact Hs']. unfold rect. intros. cbn. lia. }
  intros j s1 Hj Hok1. unfold memset. set (p := linear fb x y + j * stride fb).
  apply (wp_fill_loop _ _ _ (fun k => rect x (y + j) (k - p) 1) (col `mod` 256)); [done|unfold rect; lia| |].
  2: { intros s' Hs'. exists (rect x (y + j) w 1). split; [|unfold rect, in_range in *; lia].
       eapply filled_ext; [|exact Hs']. unfold rect. intros. cbn. lia. }
  intros k s2 Hk Hok2. assert (in_range fb (x + (k - p)) (y + j)) as Hin by (unfold in_range; lia).
  apply (wp_st_pixel _ (x + (k - p)) (y + j) _ _ col); [done|done| | |].
  - unfold p_index. rewrite Hf. cbn. unfold p. rewrite linear_eq by (unfold in_range; lia). lia.
  - unfold p_shift, p_bits. rewrite Hf. apply whole_byte_form. destruct Hok2 as [(l & Hl & _ & Hb) _].
    unfold block. rewrite Hl. by apply byte_of_byte.
  - intros s3 Hp. exists (one_pixel (x + (k - p)) (y + j)). split.
    + eapply painted_filled; [|exact Hp]. unfold p_bits. rewrite Hf. cbn. by rewrite Z.land_ones.
    + unfold rect, one_pixel. lia.
Qed.

(** GS4: a byte written whole sets two pixels. *)
Lemma pair_form c b : 0 <= c < 16 -> is_byte b ->
  u8 (Z.lor (u8 (Z.shiftl c 4)) c) = set_field 0 4 c (set_field 4 4 c b).
Proof.
  intros Hc Hb.
  pose proof (byte_table_2 (fun c b => (16 <=? c) || (u8 (Z.lor (u8 (Z.shiftl c 4)) c) =? set_field 0 4 c (set_field 4 4 c b))) c b) as Ht.
  specialize (Ht ltac:(by vm_compute) ltac:(unfold is_byte; lia) Hb). cbv beta in Ht. to_prop. lia.
Qed.

Lemma wp_st_twice s i a b (Q : unit -> canvas -> Prop) : wp (st fb i a;; st fb i b) s Q -> wp (st fb i b) s Q.
Proof.
  unfold wp, mbind, M_bind, st, on_part, store.
  destruct (mem_get (mem s) (buf fb) i) as [v|] eqn:Hv; cbn; [|done].
  unfold mem_get in *. rewrite lookup_alter_eq.
  destruct (mem s !! buf fb) as [l|] eqn:Hl; cbn in *; [|done]. case_bool_decide; [|done].
  destruct (<[Z.to_nat i:=u8 a]> l !! Z.to_nat i); cbn; [|done].
  unfold set_mem. cbn. rewrite alter_alter_eq. replace (alter _ _ _) with (alter <[Z.to_nat i:=u8 b]> (buf fb) (mem s)); [done|].
  apply alter_ext. intros l' _. cbn. by rewrite list_insert_insert_eq.
Qed.

Section Gs4.
Context (Hf : format fb = FRAMEBUF_GS4_HMSB).

Lemma gs4_stride : stride fb = 2 * (stride fb / 2).
Proof. pose proof (ft_gs4 _ _ Hfit Hf). pose proof (Z.div_mod (stride fb) 2 ltac:(done)). lia. Qed.

Lemma gs4_index x y : p_index fb x y = x / 2 + y * (stride fb / 2).
Proof.
  unfold p_index. rewrite Hf. cbn. rewrite gs4_stride at 1.
  replace (x + y * (2 * (stride fb / 2))) with (x + y * (stride fb / 2) * 2) by ring. by rewrite Z.div_add.
Qed.

Lemma gs4_shift x y : p_shift fb x y = (if x `mod` 2 =? 0 then 4 else 0).
Proof. unfold p_shift. by rewrite Hf. Qed.

Lemma gs4_bits : p_bits fb = 4.
Proof. unfold p_bits. by rewrite Hf. Qed.

Lemma land_nibble c : 0 <= c < 16 -> Z.land c (Z.ones 4) = c.
Proof. intros. rewrite Z.land_ones by done. by apply Z.mod_small. Qed.

Lemma wp_gs4_low s x y i c (Q : unit -> canvas -> Prop) : canvas_ok s -> in_range fb x y -> x `mod` 2 = 1 -> 0 <= c < 16 ->
  i = x / 2 + y * (stride fb / 2) -> (forall s', filled (rect x y 1 1) c s s' -> Q tt s') ->
  wp (b ← ld fb i; st fb i (Z.lor (Z.land b 0xf0) c)) s Q.
Proof.
  intros Hok H Hx Hc Hi HQ. rewrite <-gs4_index in Hi. apply wp_bind, (wp_ld_pixel _ x y); [by apply co_block|done|done|].
  intros Hb. apply (wp_st_pixel _ x y _ _ c); [done|done|done| |].
  - rewrite gs4_shift, gs4_bits, Hx. cbn. rewrite Z.lor_comm. rewrite <-(land_nibble c) at 1 by done. by apply low_nibble_form.
  - intros s' Hp. apply HQ. apply (filled_ext (one_pixel x y)); [unfold rect, one_pixel; lia|].
    eapply painted_filled; [|exact Hp]. rewrite gs4_bits. by apply land_nibble.
Qed.

Lemma wp_gs4_high s x y i c (Q : unit -> canvas -> Prop) : canvas_ok s -> in_range fb x y -> x `mod` 2 = 0 -> 0 <= c < 16 ->
  i = x / 2 + y * (stride fb / 2) -> (forall s', filled (rect x y 1 1) c s s' -> Q tt s') ->
  wp (b ← ld fb i; st fb i (Z.lor (u8 (Z.shiftl c 4)) (Z.land b 0x0f))) s Q.
Proof.
  intros Hok H Hx Hc Hi HQ. rewrite <-gs4_index in Hi. apply wp_bind, (wp_ld_pixel _ x y); [by apply co_block|done|done|].
  intros Hb. apply (wp_st_pixel _ x y _ _ c); [done|done|done| |].
  - rewrite gs4_shift, gs4_bits, Hx. cbn. rewrite <-high_nibble_form by done.
    rewrite shiftl_mul, (uwrap_small 8 (c * 2 ^ 4)) by lia. done.
  - intros s' Hp. apply HQ. apply (filled_ext (one_pixel x y)); [unfold rect, one_pixel; lia|].
    eapply painted_filled; [|exact Hp]. rewrite gs4_bits. by apply land_nibble.
Qed.

Lemma wp_gs4_pair s x y i c (Q : unit -> canvas -> Prop) : canvas_ok s -> in_range fb x y -> in_range fb (x + 1) y ->
  x `mod` 2 = 0 -> 0 <= c < 16 -> i = x / 2 + y * (stride fb / 2) ->
  (forall s', filled (rect x y 2 1) c s s' -> Q tt s') -> wp (st fb i (Z.lor (u8 (Z.shiftl c 4)) c)) s Q.
Proof.
  intros Hok H H' Hx Hc Hi HQ.
  assert ((x + 1) / 2 = x / 2 /\ (x + 1) `mod` 2 = 1) as [Hd Hm].
  { pose proof (Z.div_mod x 2 ltac:(done)). split; symmetry; [apply (Z.div_unique _ _ _ 1)|apply (Z.mod_unique _ _ (x / 2))]; lia. }
  assert (is_byte (byte_of (block s) x y)) as Hb0.
  { destruct Hok as [(l & Hl & _ & Hb) _]. unfold block. rewrite Hl. by apply byte_of_byte. }
  apply (wp_st_twice _ _ (set_field 4 4 c (byte_of (block s) x y))), wp_bind.
  apply (wp_st_pixel _ x y _ _ c); [done|done|by rewrite gs4_index| |].
  { rewrite gs4_shift, gs4_bits, Hx. by apply u8_set_field. }
  intros s1 Hp1.
  assert (is_byte (byte_of (block s1) (x + 1) y)) as Hb1.
  { destruct Hp1 as ([[(l & Hl & _ & Hb) _] _] & _). unfold block. rewrite Hl. by apply byte_of_byte. }
  apply (wp_st_pixel _ (x + 1) y _ _ c); [by destruct Hp1 as [[? _] _]|done|by rewrite gs4_index, Hd| |].
  { rewrite gs4_shift, gs4_bits, Hm. cbn. rewrite (pair_form c (byte_of (block s1) (x + 1) y)) by done.
    f_equal. apply set_field_id; [done|done|]. destruct Hp1 as (_ & _ & Hv). specialize (Hv x y H).
    rewrite decide_True, gs4_bits in Hv by done. rewrite <-Hv. unfold view, pix, byte_of.
    by rewrite !gs4_index, gs4_shift, gs4_bits, Hd, Hx. }
  intros s2 Hp2. apply HQ.
  apply (filled_ext (fun a b => one_pixel x y a b || one_pixel (x + 1) y a b)); [unfold rect, one_pixel; lia|].
  apply (filled_trans _ _ _ _ s1); (eapply painted_filled; [|eassumption]); rewrite gs4_bits; by apply land_nibble.
Qed.

(** The first pixel of a line that starts in the low half of a byte. *)
Lemma wp_gs4_head s x y w pp c (Q : Z * Z -> canvas -> Prop) : canvas_ok s -> rect_ok x y w 1 -> 1 <= w -> 0 <= c < 16 ->
  pp = x / 2 + y * (stride fb / 2) ->
  (forall d s', 0 <= d <= 1 -> (x + d) `mod` 2 = 0 -> filled (rect x y d 1) c s s' ->
     Q ((x + d) / 2 + y * (stride fb / 2), w - d) s') ->
  wp (if (x `mod` 2 =? 1) && (0 <? w) then
        b ← ld fb pp; st fb pp (Z.lor (Z.land b 0xf0) c);; mret (pp + 1, w - 1)
      else mret (pp, w)) s Q.
Proof.
  intros Hok Hr Hw Hc -> HQ. unfold rect_ok in Hr. pose proof (Z.div_mod x 2 ltac:(done)) as Hdm.
  rewrite (proj2 (Z.ltb_lt 0 w)), andb_true_r by lia. destruct (Z.eqb_spec (x `mod` 2) 1) as [Ho|He].
  - apply (wp_bind_assoc (ld fb _)), wp_bind, (wp_gs4_low _ x y _ c); [done|unfold in_range; lia|done|done|done|].
    intros s' Hs'. apply wp_ret.
    assert ((x + 1) / 2 = x / 2 + 1 /\ (x + 1) `mod` 2 = 0) as [Hd Hm].
    { split; symmetry; [apply (Z.div_unique _ _ _ 0)|apply (Z.mod_unique _ _ (x / 2 + 1))]; lia. }
    replace (x / 2 + y * (stride fb / 2) + 1) with ((x + 1) / 2 + y * (stride fb / 2)) by lia. by apply HQ.
  - pose proof (Z.mod_pos_bound x 2 ltac:(done)). apply wp_ret.
    specialize (HQ 0 s). rewrite Z.add_0_r, Z.sub_0_r in HQ. apply HQ; [lia|lia|].
    apply (filled_ext (fun _ _ => false)); [unfold rect; lia|]. by apply filled_none.
Qed.

(** The pairs in the middle of a line. *)
Lemma wp_gs4_pairs s x y k c (Q : unit -> canvas -> Prop) : canvas_ok s -> rect_ok x y (2 * k) 1 -> 0 <= k -> 0 <= c < 16 -> x `mod` 2 = 0 ->
  (forall s', filled (rect x y (2 * k) 1) c s s' -> Q tt s') ->
  wp (memset fb (x / 2 + y * (stride fb / 2)) (Z.lor (u8 (Z.shiftl c 4)) c) k) s Q.
Proof.
  intros Hok Hr Hk Hc Hx HQ. unfold rect_ok in Hr. unfold memset. set (p := x / 2 + y * (stride fb / 2)).
  apply (wp_fill_loop _ _ _ (fun j => rect x y (2 * (j - p)) 1) c); [done|unfold rect; lia| |].
  2: { intros s' Hs'. apply HQ. eapply filled_ext; [|exact Hs']. unfold rect. intros. cbn. lia. }
  intros j s1 Hj Hok1. pose proof (Z.div_mod x 2 ltac:(done)) as Hdm.
  assert ((x + 2 * (j - p)) / 2 = x / 2 + (j - p) /\ (x + 2 * (j - p)) `mod` 2 = 0) as [Hd Hm].
  { rewrite (Z.mul_comm 2). rewrite Z.div_add, Z.mod_add by done. done. }
  apply (wp_gs4_pair _ (x + 2 * (j - p)) y _ c); [done|unfold in_range; lia|unfold in_range; lia|done|done|lia|].
  intros s2 Hs2. eexists. split; [exact Hs2|]. unfold rect. lia.
Qed.

Lemma wp_gs4_lines h : forall s x y w c (Q : unit -> canvas -> Prop), canvas_ok s -> rect_ok x y w (Z.of_nat h) -> 1 <= w -> 0 <= c < 16 ->
  (forall s', filled (rect x y w (Z.of_nat h)) c s s' -> Q tt s') ->
  wp (gs4_hmsb_lines fb h (x / 2 + y * (stride fb / 2)) w c ((stride fb - w) / 2) (x `mod` 2 =? 1)) s Q.
Proof.
  induction h as [|h IH]; intros s x y w c Q Hok Hr Hw Hc HQ.
  { apply wp_ret, HQ. apply (filled_ext (fun _ _ => false)); [unfold rect; lia|]. by apply filled_none. }
  cbn [gs4_hmsb_lines]. unfold rect_ok in Hr.
  apply wp_bind, (wp_gs4_head _ x y); [done|unfold rect_ok; lia|done|done|done|]. intros d s1 Hd Hev Hf1.
  pose proof (Z.div_mod (w - d) 2 ltac:(done)) as Hdm. pose proof (Z.mod_pos_bound (w - d) 2 ltac:(done)) as Hmb.
  pose proof (Z.div_mod (x + d) 2 ltac:(done)) as Hdx. rewrite Hev in Hdx.
  rewrite (shiftr_div 1) by done. change (2 ^ 1) with 2.
  assert (0 <= (w - d) / 2) by (apply Z.div_pos; lia).
  apply wp_bind, (wp_gs4_pairs _ (x + d)); [by destruct Hf1 as [[? _] _]|unfold rect_ok; lia|done|done|done|]. intros s2 Hf2.
  assert (canvas_ok s2) as Hok2 by by destruct Hf2 as [[? _] _].
  assert (filled (rect x y (d + 2 * ((w - d) / 2)) 1) c s s2) as Hf12.
  { eapply filled_ext; [|exact (filled_trans _ _ _ _ _ _ Hf1 Hf2)]. unfold rect. lia. }
  assert (forall s3 d3, filled (rect x y w 1) c s s3 ->
    d3 = x / 2 + (y + 1) * (stride fb / 2) -> wp (gs4_hmsb_lines fb h d3 w c ((stride fb - w) / 2) (x `mod` 2 =? 1)) s3 Q) as Hrest.
  { intros s3 d3 Hf3 ->. apply IH; [by destruct Hf3 as [[? _] _]|unfold rect_ok; lia|done|done|].
    intros s4 Hf4. apply HQ. eapply filled_ext; [|exact (filled_trans _ _ _ _ _ _ Hf3 Hf4)]. unfold rect. lia. }
  pose proof gs4_stride as Hst. pose proof (Z.div_mod (stride fb - w) 2 ltac:(done)) as Hds.
  pose proof (Z.mod_pos_bound (stride fb - w) 2 ltac:(done)). pose proof (Z.div_mod x 2 ltac:(done)) as Hdx0. pose proof (Z.mod_pos_bound x 2 ltac:(done)).
  apply wp_bind. destruct (Z.eqb_spec ((w - d) `mod` 2) 0) as [Hev2|Hodd]; cbn [negb].
  - apply wp_ret, Hrest; [|lia]. eapply filled_ext; [|exact Hf12]. unfold rect. lia.
  - apply (wp_bind_assoc (ld fb _)), wp_bind.
    assert ((x + w - 1) / 2 = (x + d) / 2 + (w - d) / 2 /\ (x + w - 1) `mod` 2 = 0) as [Hq Hm].
    { split; symmetry; [apply (Z.div_unique _ _ _ 0)|apply (Z.mod_unique _ _ ((x + d) / 2 + (w - d) / 2))]; lia. }
    apply (wp_gs4_high _ (x + w - 1) y _ c); [done|unfold in_range; lia|done|done|lia|]. intros s3 Hf3. apply wp_ret, Hrest.
    + eapply filled_ext; [|exact (filled_trans _ _ _ _ _ _ Hf12 Hf3)]. unfold rect. lia.
    + destruct (Z.eqb_spec (x `mod` 2) 1); cbn [negb]; lia.
Qed.

Lemma wp_gs4_fill s x y w h col (Q : fb_exn + unit -> canvas -> Prop) : canvas_ok s -> rect_ok x y w h -> 1 <= w -> 1 <= h ->
  (forall s', filled (rect x y w h) (col `mod` 16) s s' -> Q (inr tt) s') ->
  wp (gs4_hmsb_fill_rect fb x y w h col) s Q.
Proof.
  intros Hok Hr Hw Hh HQ. pose proof Hr as Hr'. unfold rect_ok in Hr'. unfold gs4_hmsb_fill_rect.
  pose proof (ft_width _ _ Hfit). pose proof (ft_stride _ _ Hfit).
  rewrite linear_eq, uwrap_small by (unfold in_range; lia). rewrite !(shiftr_div 1) by done. change (2 ^ 1) with 2.
  change 0x0f with (2 ^ 4 - 1). rewrite land_pow2_mask by done. change (2 ^ 4) with 16.
  pose proof (gs4_index x y) as Hi. unfold p_index in Hi. rewrite Hf in Hi. cbn in Hi. rewrite Hi.
  apply wp_bind, wp_gs4_lines; [done|by rewrite Z2Nat.id by lia|done|by apply Z.mod_pos_bound|].
  rewrite Z2Nat.id by lia. intros s' Hs'. by apply wp_xret, HQ.
Qed.
End Gs4.

(** Every format fills the rectangle with the colour. *)
Lemma wp_format_fill s x y w h col (Q : fb_exn + unit -> canvas -> Prop) : canvas_ok s -> rect_ok x y w h -> 1 <= w -> 1 <= h ->
  (forall s', filled (rect x y w h) (colour fb col) s s' -> Q (inr tt) s') ->
  wp (format_fill_rect fb x y w h col) s Q.
Proof.
  intros Hok Hr Hw Hh HQ. unfold format_fill_rect. pose proof (ft_format _ _ Hfit) as Hf.
  destruct Hf as [Ef|[Ef|[Ef|Ef]]].
  - unfold colour in HQ. rewrite Ef in *. by apply wp_mvlsb_fill.
  - unfold colour in HQ. rewrite Ef in *. cbn in HQ. pose proof (uwrap_mod 32 4 col ltac:(done)) as Hm.
    change (2 ^ 4) with 16 in Hm. rewrite <-Hm in HQ. by apply wp_gs4_fill.
  - unfold colour in HQ. rewrite Ef in *. cbn in HQ. pose proof (uwrap_mod 32 8 col ltac:(done)) as Hm.
    change (2 ^ 8) with 256 in Hm. rewrite <-Hm in HQ. by apply wp_gs8_fill.
  - replace (colour fb col) with (zbool (negb (u32 col =? 0))) in HQ by (unfold colour; by destruct Ef as [-> | ->]).
    replace (_ : M canvas (fb_exn + unit)) with (mono_horiz_fill_rect fb x y w h (u32 col)) by by destruct Ef as [-> | ->].
    by apply wp_mono_horiz_fill.
Qed.

(** [fill_rect] fills what of the rectangle lies inside the frame. *)
Lemma wp_fill_rect s x y w h col (Q : fb_exn + unit -> canvas -> Prop) : canvas_ok s ->
  x + w < 2 ^ 31 -> y + h < 2 ^ 31 -> - 2 ^ 31 <= x -> - 2 ^ 31 <= y ->
  (forall s', filled (rect x y w h) (colour fb col) s s' -> Q (inr tt) s') ->
  wp (fill_rect fb x y w h col) s Q.
Proof.
  intros Hok Hxw Hyh Hx Hy HQ.
  assert ((forall a b, in_range fb a b -> rect x y w h a b = false) -> Q (inr tt) s) as Hnone.
  { intros He. apply HQ. apply (filled_ext (fun _ _ => false)); [intros a b Hab; by rewrite He|]. by apply filled_none. }
  unfold fill_rect. destruct (Z.ltb_spec h 1); [apply wp_xret, Hnone; unfold rect; lia|].
  destruct (Z.ltb_spec w 1); [apply wp_xret, Hnone; unfold rect; lia|]. cbn [orb].
  apply wp_bind, wp_sint; [lia|]. destruct (Z.leb_spec (x + w) 0); [apply wp_xret, Hnone; unfold rect, in_range; lia|].
  apply wp_bind, wp_sint; [lia|].
  destruct (Z.leb_spec (y + h) 0); [apply wp_xret, Hnone; unfold rect, in_range; lia|].
  destruct (Z.leb_spec (height fb) y); [apply wp_xret, Hnone; unfold rect, in_range; lia|].
  destruct (Z.leb_spec (width fb) x); [apply wp_xret, Hnone; unfold rect, in_range; lia|]. cbn [orb].
  pose proof (ft_width _ _ Hfit). pose proof (ft_height _ _ Hfit).
  apply wp_format_fill; [done|unfold rect_ok; lia|lia|lia|].
  intros s' Hs'. apply HQ. eapply filled_ext; [|exact Hs']. unfold rect, in_range. lia.
Qed.

End Facts.
