(* ===== verification/FrameBufProps.v ===== *)
(** * Drawing on frame buffers does what it says

    Pixels and rectangles, lines, scrolling, blitting and text as functions on
    the view of the frame buffer, for the formats of FrameBufFacts; construction;
    the two formats whose pixels are not read where they are written. *)
From Stdlib Require Import ZifyBool.
From S2P Require Import Prelude.
From S2P Require Import CMem.
From S2P Require Import BitFields.
From S2P Require Import FrameBuf.
From S2P Require Import FrameBufDraw.
From S2P Require Import FrameBufShapes.
From S2P Require Import FrameBufFacts.
Local Open Scope Z_scope.

Section Draw.
Context (fb : framebuf_t) (n : nat) (Hfit : fits fb n).

(** ** Composition of drawings *)

(** The pixels of [P] have colour [c] and only [fb]'s buffer has changed; the log
    is not described. *)
Definition drawn (P : Z -> Z -> bool) (c : Z) (s s' : canvas) : Prop :=
  evolves fb n s s' /\ forall x y, in_range fb x y -> view fb s' x y = if P x y then c else view fb s x y.

Lemma drawn_ok P c s s' : drawn P c s s' -> canvas_ok fb n s'.
Proof. by intros [[H _] _]. Qed.

Lemma drawn_none c s : canvas_ok fb n s -> drawn (fun _ _ => false) c s s.
Proof. done. Qed.

Lemma drawn_ext P R c s s' : (forall x y, in_range fb x y -> P x y = R x y) -> drawn P c s s' -> drawn R c s s'.
Proof. intros HPR [He Hv]. split; [done|]. intros x y H. rewrite Hv by done. by rewrite HPR. Qed.

Lemma drawn_trans P R c s1 s2 s3 : drawn P c s1 s2 -> drawn R c s2 s3 -> drawn (fun x y => P x y || R x y) c s1 s3.
Proof.
  intros [He Hv] [He' Hv']. split; [by eapply evolves_trans|]. intros x y H. rewrite Hv', Hv by done.
  by destruct (P x y), (R x y).
Qed.

Lemma filled_drawn P c s s' : filled fb n P c s s' -> drawn P c s s'.
Proof. by intros (He & _ & Hv). Qed.

Lemma set_drawn s s' x y col : pixel_set fb n s s' x y col -> drawn (one_pixel x y) (colour fb col) s s'.
Proof.
  intros (He & _ & _ & Hv). split; [done|]. intros x' y' H. rewrite Hv by done. unfold one_pixel.
  case_decide; destruct (Z.eqb_spec x' x), (Z.eqb_spec y' y); cbn; done || tauto.
Qed.

(** A raised exception never happens: the rule for drawing operations. *)
Definition draws (P : Z -> Z -> bool) (col : Z) (c : M canvas (fb_exn + unit)) (s : canvas) : Prop :=
  wp c s (fun r s' => r = inr tt /\ drawn P (colour fb col) s s').

Lemma draws_seq P R col c k s : draws P col c s -> (forall s', canvas_ok fb n s' -> draws R col k s') ->
  draws (fun x y => P x y || R x y) col (c;;! k) s.
Proof.
  intros Hc Hk. apply wp_xbind. eapply wp_mono; [exact Hc|]. intros r s1 [-> Hd].
  eapply wp_mono; [apply Hk; by eapply drawn_ok|]. intros r2 s2 [-> Hd2]. split; [done|]. by eapply drawn_trans.
Qed.

Lemma draws_skip col s : canvas_ok fb n s -> draws (fun _ _ => false) col (xret tt) s.
Proof. intros Hok. by apply wp_xret. Qed.

Lemma draws_ext P R col c s : (forall x y, in_range fb x y -> P x y = R x y) -> draws P col c s -> draws R col c s.
Proof. intros HPR Hc. eapply wp_mono; [exact Hc|]. intros r s' [-> Hd]. split; [done|]. by eapply drawn_ext. Qed.

Lemma draws_pixel s x y col : canvas_ok fb n s -> in_range fb x y -> draws (one_pixel x y) col (setpixel fb x y col) s.
Proof. intros Hok H. apply (wp_setpixel fb n Hfit); [done|done|]. intros s' Hs'. split; [done|]. by apply set_drawn. Qed.

Lemma inside_spec x y : inside fb x y = true <-> in_range fb x y.
Proof. unfold inside, in_range. lia. Qed.

Lemma draws_pixel_checked s x y col : canvas_ok fb n s ->
  draws (one_pixel x y) col (if inside fb x y then setpixel fb x y col else xret tt) s.
Proof.
  intros Hok. destruct (inside fb x y) eqn:H; [by apply draws_pixel, inside_spec|].
  eapply draws_ext; [|by apply draws_skip]. intros a b Hab%inside_spec. unfold one_pixel. cbn.
  destruct (Z.eqb_spec a x), (Z.eqb_spec b y); subst; cbn; congruence.
Qed.

Lemma draws_fill_rect s x y w h col : canvas_ok fb n s -> - 2 ^ 31 <= x -> - 2 ^ 31 <= y -> x + w < 2 ^ 31 -> y + h < 2 ^ 31 ->
  draws (rect x y w h) col (fill_rect fb x y w h col) s.
Proof.
  intros Hok ? ? ? ?. apply (wp_fill_rect fb n Hfit); [done..|]. intros s' Hs'. split; [done|]. by apply filled_drawn.
Qed.

Lemma draws_loop k i (body : Z -> M canvas (fb_exn + unit)) (P : Z -> Z -> Z -> bool) col s : canvas_ok fb n s ->
  (forall x y, in_range fb x y -> P i x y = false) ->
  (forall j s1, i <= j < i + Z.of_nat k -> canvas_ok fb n s1 -> exists R, draws R col (body j) s1 /\
     forall x y, in_range fb x y -> P (j + 1) x y = P j x y || R x y) ->
  draws (P (i + Z.of_nat k)) col (xfor_up k i body) s.
Proof.
  intros Hok Hnone Hstep. apply (wp_xfor_up (fun j s1 => drawn (P j) (colour fb col) s s1)).
  - eapply drawn_ext; [|by apply drawn_none]. intros. by rewrite Hnone.
  - intros j s1 Hj Hd. destruct (Hstep j s1 Hj ltac:(by eapply drawn_ok)) as (R & HR & Hext).
    eapply wp_mono; [exact HR|]. intros r s2 [-> Hd2]. split; [done|].
    eapply drawn_ext; [|by eapply drawn_trans]. intros x y H. by rewrite Hext.
  - done.
Qed.

(** ** Rectangles *)

(** The outline of a rectangle. *)
Definition outline (x y w h : Z) (a b : Z) : bool :=
  rect x y w 1 a b || rect x (y + h - 1) w 1 a b || rect x y 1 h a b || rect (x + w - 1) y 1 h a b.

Lemma draws_rect s x y w h col (fill : bool) : canvas_ok fb n s -> - 2 ^ 30 <= x < 2 ^ 30 -> - 2 ^ 30 <= y < 2 ^ 30 ->
  - 2 ^ 30 < w < 2 ^ 30 -> - 2 ^ 30 < h < 2 ^ 30 ->
  draws (if fill then rect x y w h else outline x y w h) col (framebuf_rect fb x y w h col fill) s.
Proof.
  intros Hok Hx Hy Hw Hh. unfold framebuf_rect. destruct fill; [by apply draws_fill_rect; try lia|].
  eapply draws_ext; [|apply draws_seq; [apply draws_fill_rect; try lia; done|intros s1 Hok1]].
  2: { apply wp_bind, wp_sint; [lia|]. apply wp_bind, wp_sint; [lia|]. apply draws_seq; [apply draws_fill_rect; try lia; done|intros s2 Hok2].
       apply draws_seq; [apply draws_fill_rect; try lia; done|intros s3 Hok3].
       apply wp_bind, wp_sint; [lia|]. apply wp_bind, wp_sint; [lia|]. apply draws_fill_rect; try lia; done. }
  intros a b Hab. unfold outline. by rewrite !orb_assoc.
Qed.

(** ** Lines *)

(** The rounded minor coordinate after [i] steps along the major axis. *)
Definition minor (dp dq i : Z) : Z := (2 * i * dq + dp) / (2 * dp).

(** Points of the line from [p, q] along the major axis, steps [lo] to [hi]. *)
Definition major_points (p q dp dq sp sq lo hi : Z) (u v : Z) : bool :=
  let i := (u - p) * sp in (lo <=? i) && (i <? hi) && (v =? q + sq * minor dp dq i).

Definition sign (d : Z) : Z := if 0 <? d then 1 else -1.

(** The pixels of the line: along the axis of the longer distance, the other
    coordinate is the ideal one, rounded to the nearest. *)
Definition on_line (x1 y1 x2 y2 : Z) (a b : Z) : bool :=
  let dx := Z.abs (x2 - x1) in
  let dy := Z.abs (y2 - y1) in
  if dx <? dy then major_points y1 x1 dy dx (sign (y2 - y1)) (sign (x2 - x1)) 0 (dy + 1) b a
  else major_points x1 y1 dx dy (sign (x2 - x1)) (sign (y2 - y1)) 0 (dx + 1) a b.

Lemma minor_step dp dq i j : 0 < dp -> 0 <= dq <= dp -> j = minor dp dq i ->
  let e := 2 * dq * (i + 1) - dp * (1 + 2 * j) in
  2 * dq - 2 * dp <= e < 2 * dq /\ minor dp dq (i + 1) = (if 0 <=? e then j + 1 else j).
Proof.
  intros Hp Hq -> e. unfold minor in *. pose proof (Z.div_mod (2 * i * dq + dp) (2 * dp) ltac:(lia)) as Hdm.
  pose proof (Z.mod_pos_bound (2 * i * dq + dp) (2 * dp) ltac:(lia)) as Hm.
  set (j := (2 * i * dq + dp) / (2 * dp)) in *. set (m := (2 * i * dq + dp) `mod` (2 * dp)) in *.
  assert (e = m + 2 * dq - 2 * dp) as He by (unfold e; lia). split; [lia|]. symmetry.
  destruct (Z.leb_spec 0 e); [apply (Z.div_unique _ _ _ (e + 2 * dp - 2 * dp))|apply (Z.div_unique _ _ _ (e + 2 * dp))]; lia.
Qed.

Lemma wp_line_adjust dx sy e y1 s (Q : Z * Z -> canvas -> Prop) : e < 2 * dx -> 0 < dx < 2 ^ 29 -> - 2 ^ 30 <= e ->
  - 2 ^ 30 <= y1 < 2 ^ 30 -> -1 <= sy <= 1 ->
  Q (if 0 <=? e then (e - 2 * dx, y1 + sy) else (e, y1)) s -> wp (line_adjust dx sy e y1) s Q.
Proof.
  intros He Hdx Hlo Hy Hsy HQ. unfold line_adjust. destruct (Z.leb_spec 0 e).
  - apply wp_for_step; [cbn; lia|]. apply wp_bind, wp_sint; [lia|]. apply wp_bind, wp_sint; [lia|].
    apply wp_bind, wp_sint; [lia|]. apply wp_ret. apply wp_for_end; [cbn; lia|done].
  - apply wp_for_end; [cbn; lia|done].
Qed.

(** The coordinates of the loop are small. *)
Definition small (v : Z) : Prop := - 2 ^ 28 < v < 2 ^ 28.

Lemma draws_line_loop p q dp dq sp sq col (steep : bool) k : forall i s, canvas_ok fb n s ->
  0 <= i -> dp = i + Z.of_nat k -> 0 <= dq <= dp -> dp < 2 ^ 29 -> small p -> small q -> -1 <= sp <= 1 -> sp * sp = 1 -> -1 <= sq <= 1 ->
  draws (fun a b => if steep then major_points p q dp dq sp sq i dp b a else major_points p q dp dq sp sq i dp a b) col
    (line_loop fb k dp dq sp sq col steep (2 * dq * (i + 1) - dp * (1 + 2 * minor dp dq i))
       (p + i * sp) (q + sq * minor dp dq i)) s.
Proof.
  induction k as [|k IH]; intros i s Hok Hi Hdp Hdq Hmax Hp Hq Hsp Hsp2 Hsq; cbn [line_loop].
  { eapply draws_ext; [|by apply draws_skip]. intros a b _. unfold major_points. destruct steep; lia. }
  destruct (minor_step dp dq i _ ltac:(lia) Hdq eq_refl) as [He Hm]. set (j := minor dp dq i) in *.
  set (e := 2 * dq * (i + 1) - dp * (1 + 2 * j)) in *.
  assert (0 <= j <= dp) as Hj.
  { unfold j, minor. split; [apply Z.div_pos; nia|]. apply Z.lt_succ_r, Z.div_lt_upper_bound; nia. }
  assert (- 2 ^ 30 <= p + i * sp < 2 ^ 30 /\ - 2 ^ 30 <= q + sq * j < 2 ^ 30) as [Hr1 Hr2] by (unfold small in *; split; nia).
  eapply draws_ext; [|apply draws_seq with (R := fun a b => if steep then major_points p q dp dq sp sq (i + 1) dp b a else major_points p q dp dq sp sq (i + 1) dp a b)].
  2: { instantiate (1 := if steep then one_pixel (q + sq * j) (p + i * sp) else one_pixel (p + i * sp) (q + sq * j)).
       destruct steep; by apply draws_pixel_checked. }
  - intros a b _. assert (forall u v, (one_pixel (p + i * sp) (q + sq * j) u v || major_points p q dp dq sp sq (i + 1) dp u v)
      = major_points p q dp dq sp sq i dp u v) as Hs.
    { intros u v. unfold one_pixel, major_points. destruct (Z.eqb_spec u (p + i * sp)) as [->|Hne].
      - replace ((p + i * sp - p) * sp) with i by (rewrite <-(Z.mul_1_r i) at 1; rewrite <-Hsp2; ring). fold j. lia.
      - assert ((u - p) * sp <> i); [|cbn; lia]. intros <-. apply Hne.
        replace ((u - p) * sp * sp) with ((u - p) * (sp * sp)) by ring. rewrite Hsp2. ring. }
    destruct steep; [|apply Hs]. rewrite <-(Hs b a). unfold one_pixel. by rewrite (andb_comm (a =? _)).
  - intros s1 Hok1. apply wp_bind, wp_line_adjust; [lia|lia|lia|done|done|].
    specialize (IH (i + 1) s1 Hok1 ltac:(lia) ltac:(lia) Hdq Hmax Hp Hq Hsp Hsp2 Hsq). rewrite Hm in IH.
    destruct (Z.leb_spec 0 e).
    + apply wp_bind, wp_sint; [lia|]. apply wp_bind, wp_sint; [lia|]. apply wp_bind, wp_sint; [lia|].
      replace (e - 2 * dp + 2 * dq) with (2 * dq * (i + 1 + 1) - dp * (1 + 2 * (j + 1))) by (unfold e; ring).
      replace (p + i * sp + sp) with (p + (i + 1) * sp) by ring. replace (q + sq * j + sq) with (q + sq * (j + 1)) by ring. done.
    + apply wp_bind, wp_sint; [lia|]. apply wp_bind, wp_sint; [lia|]. apply wp_bind, wp_sint; [lia|].
      replace (e + 2 * dq) with (2 * dq * (i + 1 + 1) - dp * (1 + 2 * j)) by (unfold e; ring).
      replace (p + i * sp + sp) with (p + (i + 1) * sp) by ring. done.
Qed.

Lemma wp_delta a b s (Q : Z * Z -> canvas -> Prop) : small a -> small b ->
  Q (Z.abs (b - a), sign (b - a)) s -> wp (delta a b) s Q.
Proof.
  unfold small. intros Ha Hb HQ. unfold delta, sign in *. apply wp_bind, wp_sint; [lia|].
  destruct (Z.ltb_spec 0 (b - a)).
  - apply wp_ret. by rewrite Z.abs_eq in HQ by lia.
  - apply wp_bind, wp_sint; [lia|]. apply wp_ret. by rewrite Z.abs_neq in HQ by lia.
Qed.

Lemma sign_abs d : sign d * Z.abs d = d /\ -1 <= sign d <= 1 /\ sign d * sign d = 1.
Proof. unfold sign. destruct (Z.ltb_spec 0 d); lia. Qed.

Lemma draws_line s x1 y1 x2 y2 col : canvas_ok fb n s -> small x1 -> small y1 -> small x2 -> small y2 ->
  draws (on_line x1 y1 x2 y2) col (line fb x1 y1 x2 y2 col) s.
Proof.
  intros Hok Hx1 Hy1 Hx2 Hy2. unfold line. apply wp_bind, wp_delta; [done|done|]. apply wp_bind, wp_delta; [done|done|].
  unfold on_line. destruct (sign_abs (x2 - x1)) as (Hdx & Hsx & Hsx2), (sign_abs (y2 - y1)) as (Hdy & Hsy & Hsy2).
  set (dx := Z.abs (x2 - x1)) in *. set (dy := Z.abs (y2 - y1)) in *. set (sx := sign (x2 - x1)) in *. set (sy := sign (y2 - y1)) in *.
  assert (0 <= dx < 2 ^ 29 /\ 0 <= dy < 2 ^ 29) as [Hbx Hby] by (unfold small in *; lia).
  assert (forall p q dp dq sp sq (steep : bool), 0 <= dq <= dp -> dp < 2 ^ 29 -> small p -> small q ->
    -1 <= sp <= 1 -> sp * sp = 1 -> -1 <= sq <= 1 ->
    (forall a b, in_range fb a b -> one_pixel x2 y2 a b =
       (if steep then major_points p q dp dq sp sq dp (dp + 1) b a else major_points p q dp dq sp sq dp (dp + 1) a b)) ->
    draws (fun a b => if steep then major_points p q dp dq sp sq 0 (dp + 1) b a else major_points p q dp dq sp sq 0 (dp + 1) a b) col
      (dy2 ← sint (2 * dq); e ← sint (dy2 - dp);
       line_loop fb (Z.to_nat dp) dp dq sp sq col steep e p q;;! if inside fb x2 y2 then setpixel fb x2 y2 col else xret tt) s) as Hgo.
  { intros p q dp dq sp sq steep Hdq Hdp Hp Hq Hsp Hsp2 Hsq Hend.
    apply wp_bind, wp_sint; [lia|]. apply wp_bind, wp_sint; [lia|].
    assert (minor dp dq 0 = 0) as Hm0.
    { unfold minor. destruct (Z.eq_dec dp 0) as [->|]; [done|]. apply Z.div_small. lia. }
    pose proof (draws_line_loop p q dp dq sp sq col steep (Z.to_nat dp) 0 s Hok ltac:(lia) ltac:(lia) Hdq Hdp Hp Hq Hsp Hsp2 Hsq) as Hl.
    rewrite Hm0 in Hl. replace (2 * dq * (0 + 1) - dp * (1 + 2 * 0)) with (2 * dq - dp) in Hl by ring.
    rewrite Z.mul_0_l, Z.mul_0_r, !Z.add_0_r in Hl.
    eapply draws_ext; [|apply draws_seq; [exact Hl|intros s1 Hok1; by apply draws_pixel_checked]].
    intros a b Hab. cbn. rewrite (Hend a b Hab). unfold major_points. destruct steep; lia. }
  assert (forall dp dq, 0 <= dq <= dp -> minor dp dq dp = dq) as Hlast.
  { intros dp dq Hd. unfold minor. destruct (Z.eq_dec dp 0) as [->|]; [by replace dq with 0 by lia|]. symmetry. apply (Z.div_unique _ _ _ dp); lia. }
  assert (forall p q dp dq sp sq u v, 0 <= dq <= dp -> sp * sp = 1 ->
    (u =? p + sp * dp) && (v =? q + sq * dq) = major_points p q dp dq sp sq dp (dp + 1) u v) as Hpt.
  { intros p q dp dq sp sq u v Hd Hsp. unfold major_points. destruct (Z.eqb_spec u (p + sp * dp)) as [->|Hne].
    - replace ((p + sp * dp - p) * sp) with dp by (rewrite <-(Z.mul_1_r dp) at 1; rewrite <-Hsp; ring). rewrite Hlast by done. lia.
    - assert ((u - p) * sp <> dp); [|cbn; lia]. intros <-. apply Hne.
      replace (sp * ((u - p) * sp)) with ((u - p) * (sp * sp)) by ring. rewrite Hsp. ring. }
  destruct (Z.ltb_spec dx dy).
  - apply (Hgo y1 x1 dy dx sy sx true); try done; [lia|lia|]. intros a b _. rewrite <-Hpt by (done || lia). unfold one_pixel. lia.
  - apply (Hgo x1 y1 dx dy sx sy false); try done; [lia|lia|]. intros a b _. rewrite <-Hpt by (done || lia). unfold one_pixel. lia.
Qed.

(** ** Text *)

Lemma draws_text_column fuel x0 col : forall y v s, canvas_ok fb n s -> 0 <= x0 < width fb -> 0 <= v < 2 ^ Z.of_nat fuel ->
  - 2 ^ 30 <= y < 2 ^ 31 - 1 - Z.of_nat fuel ->
  draws (fun a b => (a =? x0) && (y <=? b) && Z.testbit v (b - y)) col (text_column fb fuel x0 y v col) s.
Proof.
  induction fuel as [|fuel IH]; intros y v s Hok Hx Hv Hy; cbn [text_column].
  { assert (v = 0) as -> by lia. eapply draws_ext; [|by apply draws_skip]. intros a b _. cbn. by rewrite Z.bits_0, andb_false_r. }
  destruct (Z.eqb_spec v 0) as [->|Hne].
  { eapply draws_ext; [|by apply draws_skip]. intros a b _. cbn. by rewrite Z.bits_0, andb_false_r. }
  assert (Z.land v 1 = Z.b2z (Z.testbit v 0)) as Hbit.
  { rewrite (land_pow2_mask 1) by done. change (2 ^ 1) with 2. by rewrite Z.bit0_mod. }
  eapply draws_ext; [|apply draws_seq with (P := fun a b => (a =? x0) && (b =? y) && Z.testbit v 0)].
  3: { intros s1 Hok1. apply wp_bind, wp_sint; [lia|]. apply (IH (y + 1)); [done|done| |lia].
       rewrite shiftr_div by done. change (2 ^ 1) with 2. replace (Z.of_nat (S fuel)) with (1 + Z.of_nat fuel) in Hv by lia.
       rewrite Z.pow_add_r in Hv by lia. split; [apply Z.div_pos; lia|apply Z.div_lt_upper_bound; lia]. }
  - intros a b _. cbn. 
    destruct (Z.leb_spec (y + 1) b).
    + rewrite Z.shiftr_spec by lia. replace (b - (y + 1) + 1) with (b - y) by lia.
      rewrite (proj2 (Z.eqb_neq b y)), (proj2 (Z.leb_le y b)) by lia. by rewrite andb_false_r.
    + rewrite !andb_false_r, orb_false_r. destruct (Z.eqb_spec b y) as [->|Hb].
      * rewrite Z.leb_refl, Z.sub_diag. done.
      * rewrite (proj2 (Z.leb_gt y b)) by lia. by rewrite !andb_false_r.
  - rewrite Hbit. destruct (Z.testbit v 0); cbn [Z.b2z Z.eqb negb].
    + destruct ((0 <=? y) && (y <? height fb)) eqn:Hin.
      * eapply draws_ext; [|apply draws_pixel; [done|unfold in_range; lia]]. intros a b _. unfold one_pixel. by rewrite andb_true_r.
      * eapply draws_ext; [|by apply draws_skip]. intros a b Hab. unfold in_range in Hab. cbn. lia.
    + eapply draws_ext; [|by apply draws_skip]. intros a b _. by rewrite andb_false_r.
Qed.

(** The byte of the font for a column of a character. *)
Definition glyph_column (chr j : Z) : Z :=
  let chr := if (chr <? 32) || (127 <? chr) then 127 else chr in nth (Z.to_nat ((chr - 32) * 8 + j)) font_petme128_8x8 0.

(** The dots of one character at [x0, y0], and of a text. *)
Definition glyph (chr x0 y0 : Z) (a b : Z) : bool :=
  (x0 <=? a) && (a <? x0 + 8) && (y0 <=? b) && Z.testbit (glyph_column chr (a - x0)) (b - y0).

Fixpoint text_points (str : list Z) (x0 y0 : Z) (a b : Z) : bool :=
  match str with
  | [] => false
  | chr :: str => if chr =? 0 then false else glyph chr x0 y0 a b || text_points str (x0 + 8) y0 a b
  end.

Lemma font_bytes : forallb (fun b => (0 <=? b) && (b <? 256)) font_petme128_8x8 = true.
Proof. by vm_compute. Qed.

Lemma font_entry i : 0 <= i < 768 ->
  exists b, font_petme128_8x8 !! Z.to_nat i = Some b /\ nth (Z.to_nat i) font_petme128_8x8 0 = b /\ 0 <= b < 2 ^ 8.
Proof.
  intros Hi. assert (length font_petme128_8x8 = 768%nat) as Hl by by vm_compute.
  destruct (lookup_lt_is_Some_2 font_petme128_8x8 (Z.to_nat i) ltac:(lia)) as [b Hb]. exists b.
  split; [done|]. split; [by apply nth_lookup_Some|].
  pose proof font_bytes as Hf. rewrite forallb_forall in Hf. specialize (Hf b (proj1 (list_elem_of_In _ _) (list_elem_of_lookup_2 _ _ _ Hb))). lia.
Qed.

Lemma wp_entry l i v s (Q : Z -> canvas -> Prop) : 0 <= i -> l !! Z.to_nat i = Some v -> Q v s -> wp (entry l i) s Q.
Proof. intros Hi Hv HQ. unfold wp, entry. rewrite bool_decide_true by done. by rewrite Hv. Qed.

Lemma wp_text_char k chr y0 col : forall j x0 s, canvas_ok fb n s -> 32 <= chr <= 127 -> 0 <= j -> j + Z.of_nat k = 8 ->
  - 2 ^ 30 <= x0 -> x0 + Z.of_nat k < 2 ^ 31 - 8 -> - 2 ^ 30 <= y0 < 2 ^ 31 - 16 ->
  wp (text_char fb k j ((chr - 32) * 8) x0 y0 col) s (fun r s' => r = inr (x0 + Z.of_nat k) /\
    drawn (fun a b => (x0 <=? a) && glyph chr (x0 - j) y0 a b) (colour fb col) s s').
Proof.
  induction k as [|k IH]; intros j x0 s Hok Hc Hj Hk Hx Hx' Hy; cbn [text_char].
  { apply wp_xret. split; [f_equal; lia|]. eapply drawn_ext; [|by apply drawn_none]. intros a b _. unfold glyph. cbn. lia. }
  assert (glyph_column chr j = nth (Z.to_nat ((chr - 32) * 8 + j)) font_petme128_8x8 0) as Hg.
  { unfold glyph_column. rewrite (proj2 (Z.ltb_ge chr 32)), (proj2 (Z.ltb_ge 127 chr)) by lia. done. }
  assert (draws (fun a b => (a =? x0) && (y0 <=? b) && Z.testbit (glyph_column chr j) (b - y0)) col
    (if (0 <=? x0) && (x0 <? width fb) then vline_data ← entry font_petme128_8x8 ((chr - 32) * 8 + j); text_column fb 8 x0 y0 vline_data col
     else xret tt) s) as Hcol.
  { destruct (font_entry ((chr - 32) * 8 + j)) as (v & Hv & Hn & Hr); [lia|]. rewrite Hg, Hn.
    destruct ((0 <=? x0) && (x0 <? width fb)) eqn:Hin.
    - apply wp_bind, (wp_entry _ _ v); [lia|done|]. apply (draws_text_column 8); [done|lia|done|lia].
    - eapply draws_ext; [|by apply draws_skip]. intros a b Hab. unfold in_range in Hab. cbn. lia. }
  apply wp_xbind. eapply wp_mono; [exact Hcol|]. intros r s1 [-> Hd]. apply wp_bind, wp_sint; [lia|].
  eapply wp_mono; [apply (IH (j + 1) (x0 + 1)); [by eapply drawn_ok|done|lia|lia|lia|lia|done]|].
  intros r s2 [-> Hd2]. split; [f_equal; lia|]. eapply drawn_ext; [|by eapply drawn_trans].
  intros a b _. replace (x0 + 1 - (j + 1)) with (x0 - j) by lia. unfold glyph. cbn.
  destruct (Z.eqb_spec a x0) as [->|Hne]; [|cbn; lia]. replace (x0 - (x0 - j)) with j by lia. lia.
Qed.

Lemma draws_text str y0 col : forall x0 s, canvas_ok fb n s -> Forall is_byte str -> - 2 ^ 30 <= x0 ->
  x0 + 8 * Z.of_nat (length str) < 2 ^ 31 - 16 -> - 2 ^ 30 <= y0 < 2 ^ 31 - 16 ->
  draws (text_points str x0 y0) col (text_chars fb str x0 y0 col) s.
Proof.
  induction str as [|chr str IH]; intros x0 s Hok Hstr Hx Hlen Hy; cbn [text_chars text_points]; [by apply draws_skip|].
  apply Forall_cons in Hstr as [Hc Hstr]. cbn [length] in Hlen.
  destruct (chr =? 0); [by apply draws_skip|].
  set (c := if _ || _ then 127 else chr).
  assert (32 <= c <= 127) by (unfold c; destruct ((chr <? 32) || (127 <? chr)) eqn:E; lia).
  apply wp_xbind. eapply wp_mono; [apply (wp_text_char 8 c y0 col 0 x0); [done|done|lia|lia|lia|lia|done]|].
  intros r s1 [-> Hd]. eapply wp_mono; [apply (IH (x0 + 8)); [by eapply drawn_ok|done|lia|lia|done]|].
  intros r s2 [-> Hd2]. split; [done|]. eapply drawn_ext; [|by eapply drawn_trans].
  intros a b _. cbn beta. f_equal. rewrite Z.sub_0_r.
  assert (glyph c x0 y0 a b = glyph chr x0 y0 a b) as ->; [|unfold glyph; lia].
  unfold glyph, glyph_column. fold c. rewrite (proj2 (Z.ltb_ge c 32)), (proj2 (Z.ltb_ge 127 c)) by lia. done.
Qed.

(** ** Scrolling *)

Lemma view_range s x y : 0 <= view fb s x y < 2 ^ p_bits fb.
Proof.
  destruct (p_shift_bits fb n Hfit x y) as (? & ? & ?). unfold view, pix, field. rewrite Z.land_ones by done.
  apply Z.mod_pos_bound. lia.
Qed.

(** A pixel's value as a colour is itself. *)
Lemma colour_view s x y : colour fb (view fb s x y) = view fb s x y.
Proof.
  pose proof (view_range s x y) as Hr. pose proof (ft_format _ _ Hfit) as Hf. revert Hr. set (v := view fb s x y). clearbody v.
  by_format Hf; intros Hr; try (by apply Z.mod_small); assert (v = 0 \/ v = 1) as [-> | ->] by lia; done.
Qed.

Lemma wp_scroll_range size step s (Q : option (Z * Z * Z) -> canvas -> Prop) : 1 <= size <= 65536 -> - 2 ^ 31 <= step < 2 ^ 31 ->
  Q (if size <=? Z.abs step then None
     else Some (if step <? 0 then (0, size + step, 1) else (size - 1, step - 1, -1))) s ->
  wp (scroll_range size step) s Q.
Proof.
  intros Hsz Hst HQ. unfold scroll_range. destruct (Z.ltb_spec step 0); apply wp_bind, wp_sint; try lia; apply wp_ret.
  - destruct (Z.leb_spec (size + step) 0), (Z.leb_spec size (Z.abs step)); done || lia.
  - destruct (Z.leb_spec (size - 1) (step - 1)), (Z.leb_spec size (Z.abs step)); done || lia.
Qed.

(** The round in which a coordinate is visited. *)
Definition round (size step v : Z) : Z := if step <? 0 then v else size - 1 - v.

(** The pixels moved before round [I] of line [J]. *)
Definition moved (xstep ystep J I x y : Z) : bool :=
  let i := round (width fb) xstep x in
  let j := round (height fb) ystep y in
  (0 <=? i) && (i <? width fb - Z.abs xstep) && (0 <=? j) && ((j <? J) || (j =? J) && (i <? I)).

Definition scrolling (xstep ystep : Z) (s0 : canvas) (J I : Z) (s : canvas) : Prop :=
  evolves fb n s0 s /\ forall x y, in_range fb x y ->
    view fb s x y = if moved xstep ystep J I x y then view fb s0 (x - xstep) (y - ystep) else view fb s0 x y.

Lemma scrolling_step xstep ystep s0 J I s x y s' : Z.abs xstep < width fb -> Z.abs ystep < height fb ->
  0 <= J < height fb - Z.abs ystep -> 0 <= I < width fb - Z.abs xstep ->
  round (width fb) xstep x = I -> round (height fb) ystep y = J ->
  scrolling xstep ystep s0 J I s -> pixel_set fb n s s' x y (view fb s (x - xstep) (y - ystep)) ->
  scrolling xstep ystep s0 J (I + 1) s'.
Proof.
  intros Hxs Hys HJ HI Hx Hy [He Hv] (He' & _ & _ & Hv'). split; [by eapply evolves_trans|]. intros a b Hab.
  rewrite Hv' by done. rewrite colour_view. pose proof (ft_width _ _ Hfit). pose proof (ft_height _ _ Hfit).
  assert (in_range fb (x - xstep) (y - ystep)) as Hsrc.
  { unfold in_range, round in *. destruct (Z.ltb_spec xstep 0), (Z.ltb_spec ystep 0); lia. }
  case_decide as Hd.
  - destruct Hd as [-> ->]. rewrite (Hv _ _ Hsrc).
    assert (moved xstep ystep J I (x - xstep) (y - ystep) = false) as ->.
    { unfold moved, round in *. destruct (Z.ltb_spec xstep 0), (Z.ltb_spec ystep 0); lia. }
    assert (moved xstep ystep J (I + 1) x y = true) as ->; [|done].
    unfold moved. rewrite Hx, Hy. lia.
  - rewrite Hv by done. assert (moved xstep ystep J (I + 1) a b = moved xstep ystep J I a b) as ->; [|done].
    unfold moved, in_range, round in *. destruct (Z.ltb_spec xstep 0), (Z.ltb_spec ystep 0); lia.
Qed.

Lemma wp_scroll s xstep ystep : canvas_ok fb n s -> - 2 ^ 31 <= xstep < 2 ^ 31 -> - 2 ^ 31 <= ystep < 2 ^ 31 ->
  wp (framebuf_scroll fb xstep ystep) s (fun r s' => r = inr tt /\ evolves fb n s s' /\
    forall x y, in_range fb x y ->
      view fb s' x y = if inside fb (x - xstep) (y - ystep) then view fb s (x - xstep) (y - ystep) else view fb s x y).
Proof.
  intros Hok Hxs Hys. pose proof (ft_width _ _ Hfit). pose proof (ft_stride _ _ Hfit). pose proof (ft_height _ _ Hfit).
  assert ((forall x y, in_range fb x y -> inside fb (x - xstep) (y - ystep) = false) ->
    @inr fb_exn unit tt = inr tt /\ evolves fb n s s /\ forall x y, in_range fb x y ->
      view fb s x y = if inside fb (x - xstep) (y - ystep) then view fb s (x - xstep) (y - ystep) else view fb s x y) as Hnone.
  { intros Hf. split; [done|]. split; [done|]. intros x y Hxy. by rewrite Hf. }
  unfold framebuf_scroll. apply wp_bind, wp_scroll_range; [lia|done|].
  destruct (Z.leb_spec (width fb) (Z.abs xstep)) as [Hw|Hw]; [apply wp_xret, Hnone; unfold inside, in_range; lia|].
  destruct (if xstep <? 0 then _ else _) as [[sx xend] dx] eqn:Ex. apply wp_bind, wp_scroll_range; [lia|done|].
  destruct (Z.leb_spec (height fb) (Z.abs ystep)) as [Hh|Hh]; [apply wp_xret, Hnone; unfold inside, in_range; lia|].
  destruct (if ystep <? 0 then _ else _) as [[sy yend] dy] eqn:Ey.
  assert (Z.abs (xend - sx) = width fb - Z.abs xstep /\ forall i, 0 <= i < width fb - Z.abs xstep ->
    round (width fb) xstep (sx + i * dx) = i /\ 0 <= sx + i * dx < width fb /\ 0 <= sx + i * dx - xstep < width fb) as [Hnx Hrx].
  { unfold round. destruct (Z.ltb_spec xstep 0); injection Ex as <- <- <-; split; try lia; intros; lia. }
  assert (Z.abs (yend - sy) = height fb - Z.abs ystep /\ forall i, 0 <= i < height fb - Z.abs ystep ->
    round (height fb) ystep (sy + i * dy) = i /\ 0 <= sy + i * dy < height fb /\ 0 <= sy + i * dy - ystep < height fb) as [Hny Hry].
  { unfold round. destruct (Z.ltb_spec ystep 0); injection Ey as <- <- <-; split; try lia; intros; lia. }
  rewrite Hnx, Hny.
  apply (wp_xfor_up (fun J s1 => scrolling xstep ystep s J 0 s1)).
  - split; [done|]. intros x y _. assert (moved xstep ystep 0 0 x y = false) as ->; [|done]. unfold moved. lia.
  - intros J s1 HJ HI. apply (wp_xfor_up (fun I s2 => scrolling xstep ystep s J I s2)); [done| |].
    + intros I s2 HI2 Hsc. destruct (Hrx I ltac:(lia)) as (Hrd & Hxr & Hxr'), (Hry J ltac:(lia)) as (Hrdy & Hyr & Hyr').
      pose proof Hsc as [[Hok2 _] _]. apply wp_bind, wp_sint; [lia|]. apply wp_bind, wp_sint; [lia|].
      apply wp_bind, (wp_getpixel fb n Hfit); [by apply co_block|unfold in_range; lia|].
      apply (wp_setpixel fb n Hfit); [done|unfold in_range; lia|]. intros s3 Hs3. split; [done|].
      eapply scrolling_step; [..|exact Hs3]; done || lia.
    + intros s2 [He Hv]. split; [done|]. split; [done|]. intros x y Hxy. rewrite Hv by done.
      assert (moved xstep ystep J (0 + Z.of_nat (Z.to_nat (width fb - Z.abs xstep))) x y = moved xstep ystep (J + 1) 0 x y) as ->; [|done].
      unfold moved. set (i := round _ _ x). set (k := round _ _ y). lia.
  - intros s1 [He Hv]. split; [done|]. split; [done|]. intros x y Hxy. rewrite Hv by done.
    assert (moved xstep ystep (0 + Z.of_nat (Z.to_nat (height fb - Z.abs ystep))) 0 x y = inside fb (x - xstep) (y - ystep)) as ->; [|done].
    unfold moved, inside, in_range, round in *. destruct (Z.ltb_spec xstep 0), (Z.ltb_spec ystep 0); lia.
Qed.

(** ** Blitting *)

Section Blit.
Context (src : framebuf_t) (m : nat) (Hsrc : fits src m).

(** The colour a source pixel gives: through the palette if there is one. *)
Definition blit_colour (s : canvas) (palette : option framebuf_t) (x y : Z) : Z :=
  match palette with Some p => view p s (view src s x y) 0 | None => view src s x y end.

(** Reading the source gives the same before and during the blit. *)
Definition readable (s : canvas) (palette : option framebuf_t) : Prop :=
  buf src <> buf fb /\ block_ok src m s /\
  match palette with
  | Some p => buf p <> buf fb /\ exists k, fits p k /\ block_ok p k s /\ 2 ^ p_bits src <= width p
  | None => True
  end.

Lemma view_other f s s' x y : buf f <> buf fb -> evolves fb n s s' -> view f s' x y = view f s x y.
Proof. intros Hne [_ Hfr]. unfold view, block. by rewrite Hfr. Qed.

Lemma block_ok_other f k s s' : buf f <> buf fb -> evolves fb n s s' -> block_ok f k s -> block_ok f k s'.
Proof. intros Hne [_ Hfr] (l & Hl & H). exists l. by rewrite Hfr. Qed.

Lemma readable_evolves s s' palette : evolves fb n s s' -> readable s palette ->
  readable s' palette /\ forall x y, blit_colour s' palette x y = blit_colour s palette x y.
Proof.
  intros He (Hne & Hb & Hp). split.
  - split; [done|]. split; [by eapply block_ok_other|]. destruct palette as [p|]; [|done].
    destruct Hp as (Hnp & k & Hk & Hbk & Hw). split; [done|]. exists k. split; [done|]. split; [by eapply block_ok_other|done].
  - intros x y. unfold blit_colour. rewrite (view_other src s s') by done. destruct palette as [p|]; [|done].
    destruct Hp as (Hnp & _). by apply view_other.
Qed.

Lemma src_view_range s x y : 0 <= view src s x y < 2 ^ p_bits src.
Proof.
  destruct (p_shift_bits src m Hsrc x y) as (? & ? & ?). unfold view, pix, field. rewrite Z.land_ones by done.
  apply Z.mod_pos_bound. lia.
Qed.

(** What a blit leaves at a pixel; [x, y] is where the source's corner goes. *)
Definition blitted (s : canvas) (palette : option framebuf_t) (key x y : Z) (region : Z -> Z -> bool) (a b : Z) : Z :=
  if region a b && negb (blit_colour s palette (a - x) (b - y) =? u32 key)
  then colour fb (blit_colour s palette (a - x) (b - y)) else view fb s a b.

Lemma wp_blit_pixel s s1 palette key x y a b region : readable s palette -> evolves fb n s s1 ->
  in_range fb a b -> in_range src (a - x) (b - y) -> region a b = false ->
  (forall u v, in_range fb u v -> view fb s1 u v = blitted s palette key x y region u v) ->
  wp (blit_pixel fb src palette key a b (a - x) (b - y)) s1 (fun r s2 => r = inr tt /\ evolves fb n s s2 /\
    forall u v, in_range fb u v -> view fb s2 u v = blitted s palette key x y (fun u v => region u v || one_pixel a b u v) u v).
Proof.
  intros Hrd He Hab Hsab Hnot Hv. destruct (readable_evolves _ _ _ He Hrd) as ((Hne & Hb & Hp) & Hcol).
  unfold blit_pixel. apply wp_bind, (wp_getpixel src m Hsrc); [done|done|]. apply wp_bind.
  assert (forall Q : Z -> canvas -> Prop, Q (blit_colour s1 palette (a - x) (b - y)) s1 ->
    wp (match palette with Some p => getpixel p (view src s1 (a - x) (b - y)) 0 | None => mret (view src s1 (a - x) (b - y)) end) s1 Q) as Hpal.
  { intros Q HQ. destruct palette as [p|]; [|by apply wp_ret]. destruct Hp as (Hnp & k & Hk & Hbk & Hw).
    apply (wp_getpixel p k Hk); [done| |done]. pose proof (src_view_range s1 (a - x) (b - y)). pose proof (ft_height _ _ Hk).
    unfold in_range. lia. }
  apply Hpal. rewrite Hcol.
  assert (forall u v, in_range fb u v -> one_pixel a b u v = false ->
    blitted s palette key x y (fun u v => region u v || one_pixel a b u v) u v = blitted s palette key x y region u v) as Hsame.
  { intros u v Huv Ho. unfold blitted. by rewrite Ho, orb_false_r. }
  destruct (Z.eqb_spec (blit_colour s palette (a - x) (b - y)) (u32 key)) as [Hk|Hk]; cbn [negb].
  - apply wp_xret. split; [done|]. split; [done|]. intros u v Huv. rewrite Hv by done. unfold blitted.
    destruct (one_pixel a b u v) eqn:Ho; [|by rewrite orb_false_r]. unfold one_pixel in Ho. assert (u = a /\ v = b) as [-> ->] by lia.
    rewrite Hnot, (proj2 (Z.eqb_eq _ _) Hk). done.
  - apply (wp_setpixel fb n Hfit); [by destruct He|done|]. intros s2 (He2 & _ & _ & Hv2). split; [done|].
    split; [by eapply evolves_trans|]. intros u v Huv. rewrite Hv2 by done. case_decide as Hd.
    + destruct Hd as [-> ->]. unfold blitted. assert (one_pixel a b a b = true) as -> by (unfold one_pixel; lia).
      rewrite orb_true_r, (proj2 (Z.eqb_neq _ _) Hk). done.
    + rewrite Hv by done. symmetry. apply Hsame; [done|]. unfold one_pixel.
      destruct (Z.eqb_spec u a), (Z.eqb_spec v b); cbn; try done. by exfalso; apply Hd.
Qed.

Lemma blitted_ext s palette key x y P R u v : P u v = R u v -> blitted s palette key x y P u v = blitted s palette key x y R u v.
Proof. unfold blitted. by intros ->. Qed.

Lemma wp_blit s x y key palette : canvas_ok fb n s -> readable s palette -> - 2 ^ 30 <= x < 2 ^ 30 -> - 2 ^ 30 <= y < 2 ^ 30 ->
  wp (framebuf_blit fb src x y key palette) s (fun r s' => r = inr tt /\ evolves fb n s s' /\
    forall a b, in_range fb a b ->
      view fb s' a b = blitted s palette (default (-1) key) x y (fun a b => inside src (a - x) (b - y)) a b).
Proof.
  intros Hok Hrd0 Hx Hy. pose proof (ft_width _ _ Hfit). pose proof (ft_height _ _ Hfit). pose proof (ft_stride _ _ Hfit).
  pose proof (ft_width _ _ Hsrc). pose proof (ft_height _ _ Hsrc). pose proof (ft_stride _ _ Hsrc).
  unfold framebuf_blit. apply wp_bind, (wp_begin_changes fb n); [done|]. intros s0 Hok0 Hm _ _.
  assert (evolves fb n s s0) as He0 by (split; [done|intros b _; by rewrite Hm]).
  destruct (readable_evolves _ _ _ He0 Hrd0) as [Hrd Hcol0].
  set (k := default (-1) key).
  assert (forall region a b, in_range fb a b -> blitted s0 palette k x y region a b = blitted s palette k x y region a b) as Hb0.
  { intros region a b Hab. unfold blitted. rewrite !Hcol0. unfold view, block. by rewrite Hm. }
  assert (forall P, (forall s1, evolves fb n s0 s1 -> (forall a b, in_range fb a b -> view fb s1 a b = blitted s0 palette k x y P a b) ->
      (forall a b, in_range fb a b -> P a b = inside src (a - x) (b - y)) ->
      @inr fb_exn unit tt = inr tt /\ evolves fb n s s1 /\ forall a b, in_range fb a b ->
        view fb s1 a b = blitted s palette k x y (fun a b => inside src (a - x) (b - y)) a b)) as Hend.
  { intros P s1 He1 Hv1 HP. split; [done|]. split; [by eapply evolves_trans|]. intros a b Hab. rewrite Hv1, Hb0 by done.
    apply blitted_ext. by apply HP. }
  assert (forall a b, in_range fb a b -> view fb s0 a b = blitted s0 palette k x y (fun _ _ => false) a b) as Hstart by done.
  destruct (Z.leb_spec (width fb) x); [apply wp_xret, (Hend (fun _ _ => false)); [done|done|unfold inside, in_range; lia]|].
  destruct (Z.leb_spec (height fb) y); [apply wp_xret, (Hend (fun _ _ => false)); [done|done|unfold inside, in_range; lia]|]. cbn [orb].
  apply wp_bind, wp_sint; [lia|].
  destruct (Z.leb_spec (width src) (- x)); [apply wp_xret, (Hend (fun _ _ => false)); [done|done|unfold inside, in_range; lia]|].
  apply wp_bind, wp_sint; [lia|].
  destruct (Z.leb_spec (height src) (- y)); [apply wp_xret, (Hend (fun _ _ => false)); [done|done|unfold inside, in_range; lia]|].
  apply wp_bind, wp_sint; [lia|]. apply wp_bind, wp_sint; [lia|].
  set (x0 := Z.max 0 x). set (y0 := Z.max 0 y). set (xe := Z.min (width fb) (x + width src)). set (ye := Z.min (height fb) (y + height src)).
  assert (Z.max 0 (- x) = x0 - x /\ Z.max 0 (- y) = y0 - y) as [-> ->] by lia.
  set (done_ := fun J I (a b : Z) => rect x0 y0 (xe - x0) J a b || rect x0 (y0 + J) I 1 a b).
  apply (wp_xfor_up (fun J s1 => evolves fb n s0 s1 /\ forall a b, in_range fb a b -> view fb s1 a b = blitted s0 palette k x y (done_ J 0) a b)).
  - split; [done|]. intros a b Hab. rewrite Hstart by done. apply blitted_ext. unfold done_, rect. lia.
  - intros J s1 HJ [He1 Hv1].
    apply (wp_xfor_up (fun I s2 => evolves fb n s0 s2 /\ forall a b, in_range fb a b -> view fb s2 a b = blitted s0 palette k x y (done_ J I) a b)); [done| |].
    + intros I s2 HI [He2 Hv2].
      replace (x0 - x + I) with (x0 + I - x) by lia. replace (y0 - y + J) with (y0 + J - y) by lia.
      eapply wp_mono; [apply (wp_blit_pixel s0 s2 palette k x y (x0 + I) (y0 + J) (done_ J I)); [done|done|unfold in_range; lia|unfold in_range; lia| |done]|].
      { unfold done_, rect. lia. }
      intros r s3 (-> & He3 & Hv3). split; [done|]. split; [done|]. intros a b Hab. rewrite Hv3 by done. apply blitted_ext.
      unfold done_, rect, one_pixel. lia.
    + intros s2 [He2 Hv2]. split; [done|]. split; [done|]. intros a b Hab. rewrite Hv2 by done. apply blitted_ext.
      unfold done_, rect. lia.
  - intros s1 [He1 Hv1]. eapply Hend; [done|exact Hv1|]. intros a b Hab. unfold done_, rect, inside, in_range in *. lia.
Qed.
End Blit.

End Draw.
