(* ===== verification/FrameBufShapeProps.v ===== *)
(** * Ellipses and polygons draw inside the frame

    Drawing an ellipse or a polygon of moderate size overflows no integer, reads
    no node that was not computed, ends, raises nothing and only ever gives
    pixels the colour asked for. *)
From Stdlib Require Import ZifyBool.
From S2P Require Import Prelude.
From S2P Require Import CMem.
From S2P Require Import BitFields.
From S2P Require Import FrameBuf.
From S2P Require Import FrameBufDraw.
From S2P Require Import FrameBufShapes.
From S2P Require Import FrameBufFacts.
From S2P Require Import FrameBufProps.
Local Open Scope Z_scope.

(** ** Sorting the nodes *)

Fixpoint count_gt (a : Z) (l : list Z) : nat :=
  match l with [] => 0%nat | b :: l => ((if (b <? a)%Z then 1 else 0) + count_gt a l)%nat end.
Fixpoint inversions (l : list Z) : nat :=
  match l with [] => 0%nat | a :: l => (count_gt a l + inversions l)%nat end.

Lemma count_gt_length a l : (count_gt a l <= length l)%nat.
Proof. induction l as [|b l IH]; cbn; [done|]. destruct (b <? a); lia. Qed.

Lemma count_gt_swap c pre a b suf : count_gt c (pre ++ a :: b :: suf) = count_gt c (pre ++ b :: a :: suf).
Proof. induction pre as [|d pre IH]; cbn; lia. Qed.

Lemma inversions_swap pre a b suf : b < a ->
  inversions (pre ++ a :: b :: suf) = S (inversions (pre ++ b :: a :: suf)).
Proof.
  intros Hab. induction pre as [|d pre IH]; cbn.
  - rewrite (proj2 (Z.ltb_lt b a)), (proj2 (Z.ltb_ge a b)) by lia. lia.
  - rewrite count_gt_swap, IH. lia.
Qed.

Lemma inversions_bound l : (2 * inversions l <= length l * length l)%nat.
Proof.
  induction l as [|a l IH]; cbn; [lia|]. pose proof (count_gt_length a l). lia.
Qed.

Lemma lookup_pair (l : list Z) i a b : l !! i = Some a -> l !! S i = Some b ->
  l = take i l ++ a :: b :: drop (S (S i)) l.
Proof. intros Ha Hb. rewrite <-(drop_S _ _ _ Hb), <-(drop_S _ _ _ Ha). by rewrite take_drop. Qed.

Lemma insert_pair (pre suf : list Z) a b c d :
  <[S (length pre) := d]> (<[length pre := c]> (pre ++ a :: b :: suf)) = pre ++ c :: d :: suf.
Proof. induction pre as [|e pre IH]; cbn; [done|]. by f_equal. Qed.

(** The first [k] nodes are in order. *)
Definition sorted_to (k : nat) (l : list Z) : Prop :=
  forall i a b, (S i < k)%nat -> l !! i = Some a -> l !! S i = Some b -> a <= b.

Lemma poly_sort_ok fuel : forall i l, (i < length l)%nat -> sorted_to (S i) l -> (2 * inversions l + (length l - i) < fuel)%nat ->
  exists l', poly_sort fuel i l = Some l' /\ l' ≡ₚ l /\ sorted_to (length l') l'.
Proof.
  induction fuel as [|fuel IH]; intros i l Hi Hs Hf; [lia|]. cbn [poly_sort].
  destruct (Nat.ltb_spec (S i) (length l)) as [Hlt|Hge].
  2: { exists l. split; [done|]. split; [done|]. intros j a b Hj. apply Hs. lia. }
  destruct (lookup_lt_is_Some_2 l i ltac:(lia)) as [a Ha]. destruct (lookup_lt_is_Some_2 l (S i) Hlt) as [b Hb].
  rewrite Ha, Hb. cbn [mbind option_bind]. pose proof (lookup_pair l i a b Ha Hb) as Hl.
  assert (length (take i l) = i) as Hti by (rewrite length_take; lia).
  destruct (Z.ltb_spec b a) as [Hba|Hab].
  - assert (<[S i := a]> (<[i := b]> l) = take i l ++ b :: a :: drop (S (S i)) l) as Hins.
    { pose proof (insert_pair (take i l) (drop (S (S i)) l) a b b a) as Hip. by rewrite Hti, <-Hl in Hip. }
    rewrite Hins. set (l1 := take i l ++ b :: a :: drop (S (S i)) l).
    assert (length l1 = length l) as Hlen1 by (rewrite Hl; unfold l1; rewrite !length_app; done).
    assert (l1 ≡ₚ l) as Hperm by (rewrite Hl; unfold l1; by rewrite (perm_swap b a)).
    assert (inversions l = S (inversions l1)) as Hinv by (rewrite Hl at 1; by apply inversions_swap).
    destruct (IH (i - 1)%nat l1) as (l' & Hl' & Hp' & Hs'); [lia| |lia|].
    + intros j c d Hj Hc Hd. apply (Hs j c d); [lia|..].
      * unfold l1 in Hc. rewrite lookup_app_l in Hc by lia. by rewrite lookup_take_lt in Hc by lia.
      * unfold l1 in Hd. rewrite lookup_app_l in Hd by lia. by rewrite lookup_take_lt in Hd by lia.
    + exists l'. split; [done|]. split; [by rewrite Hp'|done].
  - apply IH; [lia| |lia]. intros j c d Hj Hc Hd. destruct (decide (j = i)) as [->|Hne]; [congruence|].
    apply (Hs j c d); [lia|done|done].
Qed.

(** The sort ends with the nodes in order. *)
Lemma poly_sort_sorts l : exists l', poly_sort (poly_sort_fuel (length l)) 0 l = Some l' /\ l' ≡ₚ l /\ sorted_to (length l') l'.
Proof.
  destruct l as [|a l]; [by exists []|]. apply poly_sort_ok; [cbn; lia|intros j c d Hj; lia|].
  pose proof (inversions_bound (a :: l)). unfold poly_sort_fuel. lia.
Qed.

Section Shapes.
Context (fb : framebuf_t) (n : nat) (Hfit : fits fb n).

(** ** Painting with one colour *)

Definition paints (col : Z) (s s' : canvas) : Prop :=
  evolves fb n s s' /\ forall x y, in_range fb x y -> view fb s' x y = view fb s x y \/ view fb s' x y = colour fb col.

Lemma paints_refl col s : canvas_ok fb n s -> paints col s s.
Proof. intros Hok. split; [done|]. by left. Qed.

Lemma paints_trans col s1 s2 s3 : paints col s1 s2 -> paints col s2 s3 -> paints col s1 s3.
Proof.
  intros [He Hv] [He' Hv']. split; [by eapply evolves_trans|]. intros x y H.
  destruct (Hv' x y H) as [-> | ->]; [by apply Hv|by right].
Qed.

Lemma paints_ok col s s' : paints col s s' -> canvas_ok fb n s'.
Proof. by intros [[H _] _]. Qed.

Definition painting (col : Z) (c : M canvas (fb_exn + unit)) (s : canvas) : Prop :=
  wp c s (fun r s' => r = inr tt /\ paints col s s').

Lemma painting_draws P col c s : draws fb n P col c s -> painting col c s.
Proof.
  intros Hd. eapply wp_mono; [exact Hd|]. intros r s' [-> [He Hv]]. split; [done|]. split; [done|]. intros x y H.
  rewrite Hv by done. destruct (P x y); auto.
Qed.

Lemma painting_seq col c k s : painting col c s -> (forall s', canvas_ok fb n s' -> painting col k s') -> painting col (c;;! k) s.
Proof.
  intros Hc Hk. apply wp_xbind. eapply wp_mono; [exact Hc|]. intros r s1 [-> Hd].
  eapply wp_mono; [apply Hk; by eapply paints_ok|]. intros r2 s2 [-> Hd2]. split; [done|]. by eapply paints_trans.
Qed.

Lemma painting_skip col s : canvas_ok fb n s -> painting col (xret tt) s.
Proof. intros Hok. apply wp_xret. split; [done|by apply paints_refl]. Qed.

Lemma painting_loop col k i body s : canvas_ok fb n s ->
  (forall j s1, i <= j < i + Z.of_nat k -> canvas_ok fb n s1 -> painting col (body j) s1) -> painting col (xfor_up k i body) s.
Proof.
  intros Hok Hstep. apply (wp_xfor_up (fun _ s1 => paints col s s1)); [by apply paints_refl| |done].
  intros j s1 Hj Hp. eapply wp_mono; [apply Hstep; [done|by eapply paints_ok]|]. intros r s2 [-> Hp2]. split; [done|].
  by eapply paints_trans.
Qed.

Lemma painting_pixel col x y m s : canvas_ok fb n s -> painting col (setpixel_checked fb x y col m) s.
Proof.
  intros Hok. unfold setpixel_checked. destruct (m =? 0); cbn [negb andb]; [by apply painting_skip|].
  by eapply painting_draws, draws_pixel_checked.
Qed.

Lemma painting_fill col x y w h s : canvas_ok fb n s -> - 2 ^ 31 <= x -> - 2 ^ 31 <= y -> x + w < 2 ^ 31 -> y + h < 2 ^ 31 ->
  painting col (fill_rect fb x y w h col) s.
Proof. intros. by eapply painting_draws, draws_fill_rect. Qed.

Lemma painting_sint col v (k : Z -> M canvas (fb_exn + unit)) s : - 2 ^ 31 <= v < 2 ^ 31 -> painting col (k v) s ->
  painting col (v' ← sint v; k v') s.
Proof. intros Hv Hk. by apply wp_bind, wp_sint. Qed.

(** ** Ellipses *)

Lemma painting_points cx cy x y col m s : canvas_ok fb n s -> small cx -> small cy -> - 2 ^ 20 < x < 2 ^ 20 -> - 2 ^ 20 < y < 2 ^ 20 ->
  painting col (draw_ellipse_points fb cx cy x y col m) s.
Proof.
  unfold small. intros Hok Hcx Hcy Hx Hy. unfold draw_ellipse_points.
  assert (forall b c s1, canvas_ok fb n s1 -> painting col c s1 -> painting col (when_bit m b c) s1) as Hwhen.
  { intros b c s1 Hok1 Hc. unfold when_bit. destruct (negb _); [done|by apply painting_skip]. }
  destruct (negb _).
  - apply painting_seq; [apply Hwhen; [done|]; do 2 (apply painting_sint; [lia|]); apply painting_fill; done || lia|intros s1 Hok1].
    apply painting_seq; [apply Hwhen; [done|]; do 3 (apply painting_sint; [lia|]); apply painting_fill; done || lia|intros s2 Hok2].
    apply painting_seq; [apply Hwhen; [done|]; do 3 (apply painting_sint; [lia|]); apply painting_fill; done || lia|intros s3 Hok3].
    apply Hwhen; [done|]. do 2 (apply painting_sint; [lia|]). apply painting_fill; done || lia.
  - do 2 (apply painting_sint; [lia|]). apply painting_seq; [by apply painting_pixel|intros s1 Hok1].
    do 2 (apply painting_sint; [lia|]). apply painting_seq; [by apply painting_pixel|intros s2 Hok2].
    do 2 (apply painting_sint; [lia|]). apply painting_seq; [by apply painting_pixel|intros s3 Hok3].
    do 2 (apply painting_sint; [lia|]). by apply painting_pixel.
Qed.

(** What holds at the head of the loops: [R] is the radius along [v] and
    [O] the other one. *)
Record ellipse_inv (R O : Z) (l : ellipse_vars) : Prop := {
  ei_u : 0 <= e_u l;
  ei_v : -1 <= e_v l <= R;
  ei_start : e_u l = 0 -> e_v l = R /\ e_error l = 0;
  ei_zero : R = 0 -> e_u l = 0 \/ e_v l < 0;
  ei_uchange : e_uchange l = R * R * (2 * e_u l + 1);
  ei_vchange : e_vchange l = O * O * (1 - 2 * e_v l);
  ei_stop_u : e_stop_u l = 2 * R * R * e_u l;
  ei_stop_v : e_stop_v l = 2 * O * O * e_v l;
  ei_error : - (O * O * R) <= e_error l <= R * R * (e_u l * e_u l) + O * O }.

(** The last value of [u] in the loop. *)
Definition last_u (R O : Z) : Z := if R =? 0 then 0 else O * O / R.

Lemma ellipse_u_bound R O l : 0 <= R -> 0 <= O -> R <> 0 \/ O <> 0 -> ellipse_inv R O l -> e_stop_u l <= e_stop_v l ->
  e_u l <= last_u R O /\ R * e_u l <= O * O /\ (1 <= e_v l \/ e_u l = 0 /\ e_v l = R).
Proof.
  intros HR HO Hne [Hu Hv Hst Hz _ _ Hsu Hsv _] Hc. rewrite Hsu, Hsv in Hc. unfold last_u.
  destruct (Z.eqb_spec R 0) as [->|HR0].
  - assert (e_u l = 0). { destruct (Hz eq_refl) as [|Hlt]; [done|]. assert (0 < O * O) by nia. nia. }
    destruct (Hst H) as [-> _]. split; [lia|]. split; [nia|]. auto.
  - assert (R * e_u l <= O * O) as Hb.
    { assert (R * (R * e_u l) <= R * (O * O)); [|nia]. assert (O * O * e_v l <= O * O * R) by nia. nia. }
    split; [apply Z.div_le_lower_bound; lia|]. split; [done|].
    destruct (Z.eq_dec (e_u l) 0) as [H0|H0]; [right; split; [done|by apply Hst]|left].
    assert (0 < R * R * e_u l) by nia. nia.
Qed.

Lemma wp_ellipse_step R O l s (Q : ellipse_vars -> canvas -> Prop) : 0 <= R <= 127 -> 0 <= O <= 127 -> R <> 0 \/ O <> 0 ->
  ellipse_inv R O l -> e_stop_u l <= e_stop_v l ->
  (forall l', ellipse_inv R O l' -> e_u l' = e_u l + 1 -> Q l' s) -> wp (ellipse_step (2 * R * R) (2 * O * O) l) s Q.
Proof.
  intros HR HO Hne Hinv Hc HQ. destruct (ellipse_u_bound R O l ltac:(lia) ltac:(lia) Hne Hinv Hc) as (_ & Hb & Hv1).
  pose proof Hinv as [Hu Hv Hst Hz Huc Hvc Hsu Hsv [Hel Her]]. unfold ellipse_step.
  destruct l as [u v uc vc er su sv]. cbn in *. subst uc vc su sv.
  assert (0 <= R * R <= 16129 /\ 0 <= O * O <= 16129) as [HRR HOO] by nia.
  assert (0 <= R * u <= 16129) as HRu by nia.
  assert (0 <= R * R * u <= 2048383) as HRRu by nia.
  assert (R * R * (u * u) = R * u * (R * u)) as Huu by ring.
  assert (0 <= R * u * (R * u) <= 260144641) as Huu2 by nia.
  assert (0 <= O * O * R <= 2048383) as HOR by nia.
  assert (- 2048383 <= O * O * v <= 2048383) as HOv by nia.
  assert (u <= 16129) as Hub. { destruct (Z.eq_dec R 0) as [->|]; [|nia]. destruct Hv1 as [|[-> _]]; lia. }
  do 6 (apply wp_bind, wp_sint; [nia|]). destruct (Z.ltb_spec 0 (2 * (er + R * R * (2 * u + 1)) + O * O * (1 - 2 * v))) as [Ht|Ht].
  - do 4 (apply wp_bind, wp_sint; [nia|]). apply wp_ret, HQ; [|done].
    split; cbn; try nia.
  - apply wp_ret, HQ; [|done]. split; cbn; try nia.
Qed.

Lemma painting_ellipse_loop (flip : bool) R O cx cy col mask fuel : 0 <= R <= 127 -> 0 <= O <= 127 -> R <> 0 \/ O <> 0 ->
  small cx -> small cy ->
  forall l s, canvas_ok fb n s -> ellipse_inv R O l -> e_u l <= last_u R O + 1 -> last_u R O + 2 <= Z.of_nat fuel + e_u l ->
    painting col (ellipse_loop fb fuel flip (2 * R * R) (2 * O * O) cx cy col mask l) s.
Proof.
  intros HR HO Hne Hcx Hcy. induction fuel as [|fuel IH]; intros l s Hok Hinv Hlast Hf; [lia|].
  cbn [ellipse_loop]. destruct (Z.leb_spec (e_stop_u l) (e_stop_v l)) as [Hc|Hc]; [|by apply painting_skip].
  destruct (ellipse_u_bound R O l ltac:(lia) ltac:(lia) Hne Hinv Hc) as (Hlu & Hb & _).
  pose proof Hinv as [Hu Hv _ _ _ _ _ _ _].
  assert (last_u R O <= 16129) as Hl.
  { unfold last_u. destruct (R =? 0) eqn:E; [lia|]. apply Z.div_le_upper_bound; nia. }
  apply painting_seq.
  - destruct flip; apply painting_points; done || lia.
  - intros s1 Hok1. apply wp_bind, (wp_ellipse_step R O); [done..|]. intros l' Hinv' Hu'. apply IH; [done|done|lia|lia].
Qed.

Lemma ellipse_start R O : 0 <= R -> 0 <= O -> ellipse_inv R O (MkEllipse 0 R (R * R) (O * O * (1 - 2 * R)) 0 0 (2 * O * O * R)).
Proof. intros. split; cbn; try nia. Qed.

Lemma ellipse_fuel_ok R O l : 0 <= R -> 0 <= O -> e_stop_v l = 2 * O * O * R ->
  last_u R O + 2 <= Z.of_nat (ellipse_fuel (2 * R * R) l).
Proof.
  intros HR HO Hl. unfold ellipse_fuel, last_u. rewrite Hl, Z.max_r by nia.
  destruct (Z.eqb_spec R 0) as [->|HR0]; [lia|].
  replace (2 * O * O * R) with (O * O * (2 * R)) by ring. replace (2 * R * R) with (R * (2 * R)) by ring.
  rewrite Z.div_mul_cancel_r by lia. pose proof (Z.div_pos (O * O) R ltac:(nia) ltac:(lia)). lia.
Qed.

Lemma painting_ellipse s cx cy rx ry col (fill : bool) mask : canvas_ok fb n s -> small cx -> small cy ->
  0 <= rx <= 127 -> 0 <= ry <= 127 -> painting col (framebuf_ellipse fb cx cy rx ry col fill mask) s.
Proof.
  intros Hok Hcx Hcy Hrx Hry. unfold framebuf_ellipse. apply wp_bind, (wp_begin_changes fb n); [done|].
  intros s0 Hok0 Hm _ _. set (mk := match mask with Some _ => _ | None => _ end).
  assert (forall c, painting col c s0 -> wp c s0 (fun r s' => r = inr tt /\ paints col s s')) as Hstart.
  { intros c Hc. eapply wp_mono; [exact Hc|]. intros r s' [-> [[Hok' Hfr] Hv]]. split; [done|]. split; [split; [done|]|].
    - intros b Hb. by rewrite Hfr, Hm.
    - intros x y H. specialize (Hv x y H). unfold view at 2, block in Hv. by rewrite Hm in Hv. }
  apply Hstart. destruct ((rx =? 0) && (ry =? 0)) eqn:E0; [by apply painting_pixel|].
  assert (rx <> 0 \/ ry <> 0) as Hne by lia.
  assert (0 <= rx * rx <= 16129 /\ 0 <= ry * ry <= 16129) as [Hr1 Hr2] by nia.
  assert (forall a (k : Z -> M canvas (fb_exn + unit)) s1, 0 <= a <= 127 -> painting col (k (2 * a * a)) s1 -> painting col (p ← mul3 2 a a; k p) s1) as Hmul.
  { intros a k s1 Ha Hk. apply wp_bind. unfold mul3. apply wp_bind, wp_sint; [lia|]. apply wp_sint; [nia|done]. }
  apply Hmul; [done|]. apply Hmul; [done|].
  do 6 (apply painting_sint; [nia|]). apply painting_seq.
  - apply (painting_ellipse_loop false rx ry); [done|done|done|done|done|done| | |].
    + pose proof (ellipse_start rx ry ltac:(lia) ltac:(lia)) as Hi. exact Hi.
    + cbn. unfold last_u. destruct (rx =? 0) eqn:E; [lia|]. pose proof (Z.div_pos (ry * ry) rx ltac:(nia) ltac:(lia)). lia.
    + cbn [e_u]. rewrite Z.add_0_r. apply ellipse_fuel_ok; [lia|lia|done].
  - intros s1 Hok1. do 6 (apply painting_sint; [nia|]).
    apply (painting_ellipse_loop true ry rx); [done|done|lia|done|done|done| | |].
    + pose proof (ellipse_start ry rx ltac:(lia) ltac:(lia)) as Hi. exact Hi.
    + cbn. unfold last_u. destruct (ry =? 0) eqn:E; [lia|]. pose proof (Z.div_pos (rx * rx) ry ltac:(nia) ltac:(lia)). lia.
    + cbn [e_u]. rewrite Z.add_0_r. apply ellipse_fuel_ok; [lia|lia|done].
Qed.

(** ** Polygons *)

Section Poly.
Context (pts : list Z).

Definition coordinate (v : Z) : Prop := - 2048 <= v <= 2048.
Context (Hpts : Forall coordinate pts).

Lemma wp_poly_int i s (Q : Z -> canvas -> Prop) : 0 <= i < 2 * n_poly pts ->
  (coordinate (nth (Z.to_nat i) pts 0) -> Q (nth (Z.to_nat i) pts 0) s) -> wp (poly_int pts i) s Q.
Proof.
  intros Hi HQ. unfold n_poly in Hi. pose proof (Z.div_mod (Z.of_nat (length pts)) 2 ltac:(done)).
  pose proof (Z.mod_pos_bound (Z.of_nat (length pts)) 2 ltac:(done)).
  destruct (lookup_lt_is_Some_2 pts (Z.to_nat i) ltac:(lia)) as [v Hv].
  apply (wp_entry _ _ v); [lia|done|]. rewrite (nth_lookup_Some _ _ _ _ Hv) in HQ. apply HQ.
  rewrite Forall_lookup in Hpts. eauto.
Qed.

Lemma poly_crosses_xor a b row : poly_crosses a b row = xorb (row <? a) (row <? b).
Proof. unfold poly_crosses. destruct (Z.ltb_spec row a), (Z.ltb_spec row b); cbn; lia. Qed.

Lemma quot_bound a b : Z.abs (Z.quot a b) <= Z.abs a.
Proof.
  destruct (Z.eq_dec b 0) as [->|Hb]; [by destruct a|]. rewrite <-Z.quot_abs by done.
  apply Z.quot_le_upper_bound; [lia|]. nia.
Qed.

Definition node_ok (v : Z) : Prop := - 2 ^ 25 < v < 2 ^ 25.

Lemma wp_poly_node px1 py1 px2 py2 row s (Q : Z -> canvas -> Prop) : coordinate px1 -> coordinate py1 -> coordinate px2 -> coordinate py2 ->
  coordinate row -> (forall v, node_ok v -> Q v s) -> wp (poly_node px1 py1 px2 py2 row) s Q.
Proof.
  unfold coordinate. intros H1 H2 H3 H4 H5 HQ. unfold poly_node.
  assert (- 2 ^ 29 <= 32 * (px2 - px1) * (row - py1) <= 2 ^ 29) as Hp by nia.
  pose proof (quot_bound (32 * (px2 - px1) * (row - py1)) (py2 - py1)) as Hq.
  do 5 (apply wp_bind, wp_sint; [lia|]). do 4 (apply wp_bind, wp_sint; [lia|]). apply wp_ret, HQ.
  set (v := 32 * px1 + _ + 16). assert (Z.abs v <= 2 ^ 29 + 2 ^ 17) as Hv by (unfold v; lia). clearbody v.
  unfold node_ok. assert (Z.abs (Z.quot v 32) <= 2 ^ 24 + 2 ^ 12); [|lia].
  rewrite <-Z.quot_abs by done. apply Z.quot_le_upper_bound; lia.
Qed.

Lemma wp_poly_edge x y row col px1 py1 px2 py2 nodes s : canvas_ok fb n s -> small x -> small y -> coordinate row ->
  coordinate px1 -> coordinate py1 -> coordinate px2 -> coordinate py2 -> Forall node_ok nodes -> Z.of_nat (length nodes) < n_poly pts ->
  - 2 ^ 27 < x < 2 ^ 27 -> - 2 ^ 27 < y < 2 ^ 27 ->
  wp (poly_edge fb pts x y row col px1 py1 px2 py2 nodes) s (fun r s' => paints col s s' /\ exists nodes', r = inr nodes' /\
    Forall node_ok nodes' /\ (length nodes' <= S (length nodes))%nat /\
    Nat.odd (length nodes') = xorb (Nat.odd (length nodes)) (xorb (row <? py1) (row <? py2))).
Proof.
  intros Hok Hx Hy Hrow H1 H2 H3 H4 Hn Hlen Hxs Hys. unfold poly_edge. rewrite poly_crosses_xor.
  destruct (xorb (row <? py1) (row <? py2)) eqn:Ec.
  - apply wp_bind, wp_poly_node; [done..|]. intros v Hv. apply wp_bind, wp_assert; [lia|]. apply wp_xret.
    split; [by apply paints_refl|]. eexists. split; [done|]. split; [by apply Forall_app_2; [|apply Forall_singleton]|].
    rewrite length_app, Nat.add_1_r, Nat.odd_succ, <-Nat.negb_odd, xorb_true_r. done.
  - assert (forall c, painting col c s -> wp (c;;! xret nodes) s (fun r s' => paints col s s' /\ exists nodes', r = inr nodes' /\
      Forall node_ok nodes' /\ (length nodes' <= S (length nodes))%nat /\ Nat.odd (length nodes') = xorb (Nat.odd (length nodes)) false)) as Hgo.
    { intros c Hc. apply wp_xbind. eapply wp_mono; [exact Hc|]. intros r s' [-> Hp]. apply wp_xret. split; [done|].
      exists nodes. rewrite xorb_false_r. repeat (split; [done || lia|]). done. }
    unfold coordinate, small in *. destruct (row =? Z.max py1 py2).
    + apply Hgo. destruct (py1 <? py2); [|destruct (py2 <? py1)].
      * do 2 (apply painting_sint; [lia|]). by apply painting_pixel.
      * do 2 (apply painting_sint; [lia|]). by apply painting_pixel.
      * do 4 (apply painting_sint; [lia|]). eapply painting_draws, draws_line; try done; unfold small; lia.
    + apply wp_xret. split; [by apply paints_refl|]. exists nodes. rewrite xorb_false_r. repeat (split; [done || lia|]). done.
Qed.

(** Every scan line meets the outline an even number of times: the edges go
    from corner 0 around to corner 0. *)
Lemma wp_poly_edges x y row col k : - 2 ^ 27 < x < 2 ^ 27 -> - 2 ^ 27 < y < 2 ^ 27 -> coordinate row ->
  forall px1 py1 nodes s, canvas_ok fb n s -> coordinate px1 -> coordinate py1 -> Forall node_ok nodes ->
    Z.of_nat (length nodes) + Z.of_nat k <= n_poly pts ->
  wp (poly_edges fb pts k (2 * Z.of_nat k - 1) x y row col px1 py1 nodes) s (fun r s' => paints col s s' /\ exists nodes', r = inr nodes' /\
    Forall node_ok nodes' /\
    Nat.odd (length nodes') = xorb (Nat.odd (length nodes)) (xorb (row <? py1) (row <? (if (k =? 0)%nat then py1 else nth 1 pts 0)))).
Proof.
  intros Hx Hy Hrow. induction k as [|k IH]; intros px1 py1 nodes s Hok H1 H2 Hn Hlen; cbn [poly_edges].
  - apply wp_xret. split; [by apply paints_refl|]. exists nodes. split; [done|]. split; [done|]. cbn. by rewrite xorb_nilpotent, xorb_false_r.
  - replace (2 * Z.of_nat (S k) - 1) with (2 * Z.of_nat k + 1) by lia.
    apply wp_bind, wp_poly_int; [lia|]. intros Hp2. apply wp_bind, wp_poly_int; [lia|]. intros Hp1.
    apply wp_xbind. eapply wp_mono; [apply wp_poly_edge; (done || lia || (unfold small; lia))|].
    intros r s1 (Hp & nodes' & -> & Hn' & Hl' & Hodd). eapply wp_mono.
    { replace (2 * Z.of_nat k + 1 - 2) with (2 * Z.of_nat k - 1) by lia. apply IH; [by eapply paints_ok|done|done|done|lia]. }
    intros r s2 (Hpp & nodes2 & -> & Hn2 & Hodd2). split; [by eapply paints_trans|]. exists nodes2. split; [done|]. split; [done|].
    rewrite Hodd2, Hodd. cbn [Nat.eqb]. rewrite !xorb_assoc. f_equal. f_equal.
    rewrite <-xorb_assoc, xorb_nilpotent, xorb_false_l. destruct k; [|done]. cbn. done.
Qed.

Lemma painting_spans x y row col nodes : - 2 ^ 27 < x < 2 ^ 27 -> - 2 ^ 27 < y < 2 ^ 27 -> coordinate row ->
  forall s, canvas_ok fb n s -> Forall node_ok nodes -> Nat.odd (length nodes) = false -> painting col (poly_spans fb x y row col nodes) s.
Proof.
  intros Hx Hy Hrow.
  assert (forall k nodes s, (length nodes <= k)%nat -> canvas_ok fb n s -> Forall node_ok nodes -> Nat.odd (length nodes) = false ->
    painting col (poly_spans fb x y row col nodes) s) as Hk; [|by intros; eapply Hk].
  induction k as [|k IH]; intros [|a [|b l]] s Hlen Hok Hn Hodd; cbn [length] in *; try lia; try done; cbn [poly_spans]; try by apply painting_skip.
  apply Forall_cons in Hn as [Ha Hn]. apply Forall_cons in Hn as [Hb Hn]. unfold node_ok, coordinate in *.
  do 4 (apply painting_sint; [lia|]). apply painting_seq; [apply painting_fill; done || lia|]. intros s1 Hok1. apply IH; [lia|done|done|done].
Qed.

Lemma painting_row x y col row s : - 2 ^ 27 < x < 2 ^ 27 -> - 2 ^ 27 < y < 2 ^ 27 -> coordinate row -> canvas_ok fb n s ->
  0 < n_poly pts -> painting col (poly_row fb pts x y col row) s.
Proof.
  intros Hx Hy Hrow Hok Hn. unfold poly_row. apply wp_bind, wp_poly_int; [lia|]. intros H0. apply wp_bind, wp_poly_int; [lia|]. intros H1.
  apply wp_xbind. replace (n_poly pts * 2 - 1) with (2 * Z.of_nat (Z.to_nat (n_poly pts)) - 1) by lia.
  eapply wp_mono; [apply wp_poly_edges; (done || cbn; lia)|]. intros r s1 (Hp & nodes & -> & Hnodes & Hodd).
  rewrite (proj2 (Nat.eqb_neq _ 0)) in Hodd by lia. change (Z.to_nat 1) with 1%nat in Hodd. rewrite xorb_nilpotent in Hodd. cbn in Hodd.
  assert (forall c, painting col c s1 -> wp (c;;! _ ← sint (row + 1); xret tt) s1 (fun r s' => r = inr tt /\ paints col s s')) as Hend.
  { intros c Hc. apply wp_xbind. eapply wp_mono; [exact Hc|]. intros r s2 [-> Hp2]. apply wp_bind, wp_sint; [unfold coordinate in *; lia|].
    apply wp_xret. split; [done|]. by eapply paints_trans. }
  assert (canvas_ok fb n s1) as Hok1 by by eapply paints_ok.
  apply Hend. destruct nodes as [|a nodes]; [by apply painting_skip|].
  destruct (poly_sort_sorts (a :: nodes)) as (l' & -> & Hperm & _). apply painting_spans; try done.
  - by rewrite Hperm.
  - by rewrite Hperm.
Qed.

Lemma wp_poly_extent k : forall i lo hi s (Q : Z * Z -> canvas -> Prop), 0 <= i -> i + Z.of_nat k <= n_poly pts ->
  (forall lo' hi', (lo' = lo \/ coordinate lo') -> (hi' = hi \/ coordinate hi') -> (0 < k)%nat -> coordinate (Z.min lo 2048) -> coordinate (Z.max hi (-2048)) -> coordinate lo' /\ coordinate hi' -> Q (lo', hi') s) ->
  (k = 0%nat -> Q (lo, hi) s) ->
  coordinate (Z.min lo 2048) -> coordinate (Z.max hi (-2048)) -> wp (poly_extent pts k i lo hi) s Q.
Proof.
  induction k as [|k IH]; intros i lo hi s Q Hi Hk HQ H0 Hlo Hhi; cbn [poly_extent]; [by apply wp_ret, H0|].
  apply wp_bind, wp_poly_int; [lia|]. intros Hc. set (v := nth _ pts 0) in *. unfold coordinate in *.
  apply IH; [lia|lia| | |lia|lia].
  - intros lo' hi' Hl Hh Hpos _ _ Hb. apply HQ; lia.
  - intros ->. apply HQ; lia.
Qed.

Lemma painting_outline x y col k : - 2 ^ 27 < x < 2 ^ 27 -> - 2 ^ 27 < y < 2 ^ 27 -> Z.of_nat k <= n_poly pts ->
  forall px1 py1 s, canvas_ok fb n s -> coordinate px1 -> coordinate py1 ->
  painting col (poly_outline fb pts k (2 * Z.of_nat k - 1) x y col px1 py1) s.
Proof.
  intros Hx Hy. induction k as [|k IH]; intros Hk px1 py1 s Hok H1 H2; cbn [poly_outline]; [by apply painting_skip|].
  replace (2 * Z.of_nat (S k) - 1) with (2 * Z.of_nat k + 1) by lia.
  apply wp_bind, wp_poly_int; [lia|]. intros Hp2. apply wp_bind, wp_poly_int; [lia|]. intros Hp1.
  pose proof Hp1 as Hp1'. pose proof Hp2 as Hp2'. unfold coordinate in Hp1', Hp2', H1, H2.
  do 4 (apply painting_sint; [lia|]). apply painting_seq.
  - eapply painting_draws, draws_line; try done; unfold small; lia.
  - intros s1 Hok1. replace (2 * Z.of_nat k + 1 - 2) with (2 * Z.of_nat k - 1) by lia. by apply IH; [lia|..].
Qed.

Lemma painting_poly x y col (fill : bool) s : canvas_ok fb n s -> - 2 ^ 27 < x < 2 ^ 27 -> - 2 ^ 27 < y < 2 ^ 27 ->
  painting col (framebuf_poly fb pts x y col fill) s.
Proof.
  intros Hok Hx Hy. unfold framebuf_poly. destruct (Z.eqb_spec (n_poly pts) 0) as [|Hn0]; [by apply painting_skip|].
  assert (0 < n_poly pts) as Hn by (unfold n_poly in *; pose proof (Z.div_pos (Z.of_nat (length pts)) 2); lia).
  destruct fill.
  - apply wp_bind, wp_poly_extent; [lia|lia| |lia|unfold coordinate, INT_MAX; lia|unfold coordinate, INT_MIN; lia].
    intros lo hi _ _ _ _ _ [Hlo Hhi]. apply painting_loop; [done|]. intros row s1 Hrow Hok1. apply painting_row; try done.
    unfold coordinate in *. lia.
  - apply wp_bind, wp_poly_int; [lia|]. intros H0. apply wp_bind, wp_poly_int; [lia|]. intros H1.
    replace (n_poly pts * 2 - 1) with (2 * Z.of_nat (Z.to_nat (n_poly pts)) - 1) by lia. apply painting_outline; (done || lia).
Qed.

End Poly.

End Shapes.
