(* ===== verification/FrameBufMake.v ===== *)
(** * Making frame buffers, and the formats that misplace pixels

    Which arguments [framebuf_make_new_helper] accepts and that an accepted
    buffer holds every pixel, unless the size computation wraps around; what the
    GS2 and RGB565 formats of this version do instead of setting a pixel. *)
From Stdlib Require Import ZifyBool.
From S2P Require Import Prelude.
From S2P Require Import CMem.
From S2P Require Import BitFields.
From S2P Require Import FrameBuf.
From S2P Require Import FrameBufDraw.
From S2P Require Import FrameBufShapes.
From S2P Require Import FrameBufFacts.
From S2P Require Import FrameBufProps.
From S2P Require Import FrameBufShapeProps.
Local Open Scope Z_scope.

(** ** Construction *)

(** The arguments that [framebuf_make_new_helper] accepts as dimensions. *)
Definition dimensions (w h s : Z) : Prop := 1 <= w <= 0xffff /\ 1 <= h <= 0xffff /\ w <= s <= 0xffff.

Definition known_format (f : Z) : Prop := is_format f \/ f = FRAMEBUF_RGB565 \/ f = FRAMEBUF_GS2_HMSB.

(** The least multiple of [k] from [n] on. *)
Definition up_to (k n : Z) : Z := k * ((n + (k - 1)) / k).

(** The bits from the first pixel to the last one, whole bytes of pixels. *)
Definition frame_bits (f w h s : Z) : Z :=
  if f =? FRAMEBUF_MVLSB then ((h + 7) / 8 - 1) * 8 * s + 8 * w
  else if (f =? FRAMEBUF_MHLSB) || (f =? FRAMEBUF_MHMSB) then (h - 1) * up_to 8 s + up_to 8 w
  else if f =? FRAMEBUF_GS2_HMSB then ((h - 1) * up_to 4 s + up_to 4 w) * 2
  else if f =? FRAMEBUF_GS4_HMSB then ((h - 1) * up_to 2 s + up_to 2 w) * 4
  else if f =? FRAMEBUF_GS8 then ((h - 1) * s + w) * 8
  else ((h - 1) * s + w) * 16.

Lemma round_up_eq n k : 0 <= k -> round_up n (2 ^ k - 1) = up_to (2 ^ k) n.
Proof.
  intros Hk. unfold round_up, up_to. rewrite Z.sub_1_r, <-Z.ones_equiv, <-Z.ldiff_land, Z.ldiff_ones_r by done.
  rewrite shiftl_mul, shiftr_div by done. lia.
Qed.

Lemma up_to_range k n : 0 < k -> n <= up_to k n < n + k /\ up_to k n `mod` k = 0.
Proof.
  intros Hk. unfold up_to. pose proof (Z.div_mod (n + (k - 1)) k ltac:(lia)). pose proof (Z.mod_pos_bound (n + (k - 1)) k Hk).
  split; [lia|]. rewrite Z.mul_comm. by apply Z.mod_mul; lia.
Qed.

Lemma geometry_bits w h f s : dimensions w h s -> known_format f ->
  exists s' bpp wr hr sr, format_geometry w h f s = Some (s', bpp, wr, hr, sr) /\
    (sr * s' + (hr - sr) * wr) * bpp = frame_bits f w h s /\ 1 <= bpp /\ 0 <= sr * s' + (hr - sr) * wr.
Proof.
  unfold dimensions. intros Hd Hf. unfold format_geometry.
  change 7 with (2 ^ 3 - 1). change (round_up s 3) with (round_up s (2 ^ 2 - 1)). change (round_up w 3) with (round_up w (2 ^ 2 - 1)).
  change (round_up s 1) with (round_up s (2 ^ 1 - 1)). change (round_up w 1) with (round_up w (2 ^ 1 - 1)).
  rewrite !round_up_eq by done. change (2 ^ 3) with 8. change (2 ^ 2) with 4. change (2 ^ 1) with 2. unfold frame_bits.
  pose proof (up_to_range 8 h ltac:(done)). pose proof (up_to_range 8 s ltac:(done)). pose proof (up_to_range 8 w ltac:(done)).
  pose proof (up_to_range 4 s ltac:(done)). pose proof (up_to_range 4 w ltac:(done)).
  pose proof (up_to_range 2 s ltac:(done)). pose proof (up_to_range 2 w ltac:(done)).
  destruct Hf as [[-> | [-> | [-> | [-> | ->]]]] | [-> | ->]]; cbn -[up_to u32 Z.mul Z.add Z.sub Z.div];
    (do 5 eexists; split; [reflexivity|]); try (split; [ring|]; nia).
  assert (1 <= (h + 7) / 8) by (apply Z.div_le_lower_bound; lia).
  assert (up_to 8 h = 8 * ((h + 7) / 8)) as Hup by done.
  assert (u32 (up_to 8 h - 8) = up_to 8 h - 8) as -> by (apply uwrap_small; lia).
  rewrite Hup. split; [ring|]. split; [lia|]. nia.
Qed.

Lemma needed_exact v bpp : 0 <= v -> 1 <= bpp -> v * bpp < 2 ^ 32 -> u32 (u32 v * bpp) = v * bpp.
Proof. intros Hv Hb Hlt. assert (v * 1 <= v * bpp) by (apply Z.mul_le_mono_nonneg_l; lia). rewrite (uwrap_small 32 v) by lia. apply uwrap_small. split; [by apply Z.mul_nonneg_nonneg; lia|done]. Qed.

(** The stride that is stored. *)
Definition frame_stride (f s : Z) : Z :=
  if (f =? FRAMEBUF_MHLSB) || (f =? FRAMEBUF_MHMSB) then up_to 8 s
  else if f =? FRAMEBUF_GS2_HMSB then up_to 4 s else if f =? FRAMEBUF_GS4_HMSB then up_to 2 s else s.

Lemma geometry_stride w h f s g : format_geometry w h f s = Some g -> g.1.1.1.1 = frame_stride f s.
Proof.
  unfold format_geometry, frame_stride.
  change (round_up s 7) with (round_up s (2 ^ 3 - 1)). change (round_up s 3) with (round_up s (2 ^ 2 - 1)).
  change (round_up s 1) with (round_up s (2 ^ 1 - 1)). rewrite !round_up_eq by done. change (2 ^ 3) with 8. change (2 ^ 2) with 4. change (2 ^ 1) with 2.
  repeat case_match; intros [= <-]; try done; exfalso;
    unfold FRAMEBUF_MVLSB, FRAMEBUF_RGB565, FRAMEBUF_GS2_HMSB, FRAMEBUF_GS4_HMSB, FRAMEBUF_GS8, FRAMEBUF_MHLSB, FRAMEBUF_MHMSB in *; lia.
Qed.

(** What the constructor returns, as long as the size does not wrap around. *)
Lemma make_new_result b len w h f s : dimensions w h (default w s) -> known_format f -> frame_bits f w h (default w s) < 2 ^ 32 ->
  framebuf_make_new_helper b len w h f s =
    if len <? frame_bits f w h (default w s) / 8 then inl ValueError
    else inr (MkFramebuf b w h (frame_stride f (default w s)) f len).
Proof.
  intros Hd Hf Hbits. destruct (geometry_bits _ _ _ _ Hd Hf) as (s' & bpp & wr & hr & sr & Hg & Heq & Hb & Hv).
  unfold framebuf_make_new_helper. set (st := default w s) in *. clearbody st. clear s.
  replace (_ || _) with false by (unfold dimensions in Hd; lia). rewrite Hg.
  rewrite needed_exact by (rewrite ?Heq; done). rewrite Heq. pose proof (geometry_stride _ _ _ _ _ Hg) as Hs. cbn in Hs. by rewrite Hs.
Qed.

(** The byte of a pixel, when [q] pixels share a byte. *)
Lemma packed_index q S W h x y : 0 < q -> 0 <= x < q * W -> 0 <= y < h -> 0 <= S -> (x + y * (q * S)) / q < (h - 1) * S + W.
Proof.
  intros Hq Hx Hy HS. replace (x + y * (q * S)) with (x + y * S * q) by ring. rewrite Z.div_add by lia.
  assert (x / q < W) by (apply Z.div_lt_upper_bound; lia). nia.
Qed.

(** A buffer of [frame_bits] bits has room for every pixel. *)
Lemma frame_fits b len w h f s : is_format f -> dimensions w h s -> 0 <= len -> frame_bits f w h s / 8 <= len ->
  fits (MkFramebuf b w h (frame_stride f s) f len) (Z.to_nat len).
Proof.
  intros Hf (Hw & Hh & Hs) Hlen Hbits.
  pose proof (up_to_range 8 s ltac:(done)) as [Hs8 Hm8]. pose proof (up_to_range 8 w ltac:(done)) as [Hw8 Hwm8].
  pose proof (up_to_range 2 s ltac:(done)) as [Hs2 Hm2]. pose proof (up_to_range 2 w ltac:(done)) as [Hw2 Hwm2].
  assert (1 <= frame_stride f s /\ w <= frame_stride f s <= 65536) as [Hs1 Hws].
  { unfold frame_stride. destruct Hf as [-> | [-> | [-> | [-> | ->]]]]; cbn -[up_to]; try lia.
    all: unfold up_to in *; pose proof (Z.mod_pos_bound (s + 1) 2 ltac:(done)); lia. }
  assert ((h - 1) * frame_stride f s + w <= 2 ^ 32) as Hlin by nia.
  split; cbn [format width height stride]; try done; try lia.
  - intros [-> | ->]; done.
  - intros ->. done.
  - intros x y [Hx Hy]. cbn in Hx, Hy. rewrite Z2Nat.id by done. eapply Z.lt_le_trans; [|exact Hbits].
    unfold p_index, frame_stride, frame_bits. cbn [format stride].
    destruct Hf as [-> | [-> | [-> | [-> | ->]]]]; cbn -[up_to Z.mul Z.add Z.sub Z.div].
    + replace (((h + 7) / 8 - 1) * 8 * s + 8 * w) with ((((h + 7) / 8 - 1) * s + w) * 8) by ring. rewrite Z.div_mul by done.
      assert (y / 8 <= (h + 7) / 8 - 1) by (replace ((h + 7) / 8 - 1) with ((h + 7 + -1 * 8) / 8) by (rewrite Z.div_add by done; lia); apply Z.div_le_mono; lia).
      nia.
    + unfold up_to in *. set (S := (s + (2 - 1)) / 2) in *. set (W := (w + (2 - 1)) / 2) in *.
      replace (((h - 1) * (2 * S) + 2 * W) * 4) with (((h - 1) * S + W) * 8) by ring. rewrite Z.div_mul by done. apply packed_index; lia.
    + rewrite Z.div_mul by done. nia.
    + unfold up_to in *. set (S := (s + (8 - 1)) / 8) in *. set (W := (w + (8 - 1)) / 8) in *.
      replace ((h - 1) * (8 * S) + 8 * W) with (((h - 1) * S + W) * 8) by ring. rewrite Z.div_mul by done. apply packed_index; lia.
    + unfold up_to in *. set (S := (s + (8 - 1)) / 8) in *. set (W := (w + (8 - 1)) / 8) in *.
      replace ((h - 1) * (8 * S) + 8 * W) with (((h - 1) * S + W) * 8) by ring. rewrite Z.div_mul by done. apply packed_index; lia.
Qed.

Definition dimensions_b (w h s : Z) : bool := negb ((w <? 1) || (h <? 1) || (0xffff <? w) || (0xffff <? h) || (0xffff <? s) || (s <? w)).

Lemma dimensions_spec w h s : dimensions_b w h s = true <-> dimensions w h s.
Proof. unfold dimensions_b, dimensions. lia. Qed.

Lemma format_cases f w h s : known_format f \/ format_geometry w h f s = None /\ ~ known_format f.
Proof.
  unfold known_format, is_format, format_geometry, FRAMEBUF_MVLSB, FRAMEBUF_RGB565, FRAMEBUF_GS2_HMSB, FRAMEBUF_GS4_HMSB, FRAMEBUF_GS8, FRAMEBUF_MHLSB, FRAMEBUF_MHMSB.
  repeat case_match; try (left; lia). right. split; [done|]. lia.
Qed.

(** A state in which the object has just been made: its log is empty. *)
Definition fresh (fb : framebuf_t) (s : canvas) : Prop :=
  changed_count s = 0 /\ changed_cleared s = false /\ Z.of_nat (length (changed_indexes s)) = changed_capacity fb.

(** The constructor refuses sizes out of range and unknown formats, and,
    when the size computation does not exceed 32 bits, exactly the buffers that
    are too short; the object it makes has every pixel inside the buffer, which
    makes the new object fit for every drawing operation. *)
Theorem framebuf_make_new_correct b len w h f s : 0 <= len ->
  match framebuf_make_new_helper b len w h f s with
  | inl PixelOutOfBounds => False
  | inl InvalidFormat => dimensions w h (default w s) /\ ~ known_format f
  | inl ValueError => dimensions w h (default w s) -> known_format f ->
      frame_bits f w h (default w s) < 2 ^ 32 -> len < frame_bits f w h (default w s) / 8
  | inr fb => dimensions w h (default w s) /\ known_format f /\
      fb = MkFramebuf b w h (frame_stride f (default w s)) f len /\
      (frame_bits f w h (default w s) < 2 ^ 32 -> frame_bits f w h (default w s) / 8 <= len /\
       (is_format f -> fits fb (Z.to_nat len) /\ forall st l, mem st !! b = Some l -> length l = Z.to_nat len -> Forall is_byte l ->
          fresh fb st -> canvas_ok fb (Z.to_nat len) st))
  end.
Proof.
  intros Hlen. set (d := default w s). destruct (dimensions_b w h d) eqn:Hdb.
  2: { assert (framebuf_make_new_helper b len w h f s = inl ValueError) as ->.
       { unfold framebuf_make_new_helper. fold d. unfold dimensions_b in Hdb. apply negb_false_iff in Hdb. by rewrite Hdb. }
       intros Hd. apply dimensions_spec in Hd. congruence. }
  pose proof (proj1 (dimensions_spec _ _ _) Hdb) as Hd. unfold dimensions_b in Hdb. apply negb_true_iff in Hdb.
  destruct (format_cases f w h d) as [Hf|[Hg Hf]].
  2: { unfold framebuf_make_new_helper. fold d. by rewrite Hdb, Hg. }
  destruct (Z.lt_ge_cases (frame_bits f w h d) (2 ^ 32)) as [Hbits|Hbits].
  - rewrite make_new_result by done. fold d. destruct (Z.ltb_spec len (frame_bits f w h d / 8)) as [Hlt|Hge]; [done|].
    split; [done|]. split; [done|]. split; [done|]. intros _. split; [done|]. intros Hif. split; [by apply frame_fits|].
    intros st l Hl Hn Hb (Hc & _ & Hi). split; [by exists l|]. split; [done|]. cbn. rewrite Hc. lia.
  - destruct (geometry_bits _ _ _ _ Hd Hf) as (s' & bpp & wr & hr & sr & Hg & Heq & Hb & Hv).
    pose proof (geometry_stride _ _ _ _ _ Hg) as Hs. cbn in Hs. subst s'.
    unfold framebuf_make_new_helper. fold d. rewrite Hdb, Hg. destruct (len <? _); [lia|].
    split; [done|]. split; [done|]. split; [done|]. lia.
Qed.

Theorem framebuf_make_new_correct_witness :
  let fb := MkFramebuf 0 128 64 128 FRAMEBUF_MVLSB 1024 in
  0 <= 1024 /\ framebuf_make_new_helper 0 1024 128 64 FRAMEBUF_MVLSB None = inr fb /\ fits fb 1024.
Proof.
  cbv zeta. pose proof (framebuf_make_new_correct 0 1024 128 64 FRAMEBUF_MVLSB None ltac:(lia)) as H. cbn [default from_option] in H.
  assert (framebuf_make_new_helper 0 1024 128 64 FRAMEBUF_MVLSB None = inr (MkFramebuf 0 128 64 128 FRAMEBUF_MVLSB 1024)) as E by (vm_compute; reflexivity).
  rewrite E in H. destruct H as (_ & _ & _ & H). split; [lia|]. split; [exact E|].
  apply H; [vm_compute; reflexivity|left; reflexivity].
Defined.

(** ** Sizes that wrap around *)

Section Bytes.
Context (fb : framebuf_t).

Lemma wp_ld_at s l i v (Q : Z -> canvas -> Prop) : mem s !! buf fb = Some l -> 0 <= i -> l !! Z.to_nat i = Some v ->
  Q v s -> wp (ld fb i) s Q.
Proof.
  intros Hl Hi Hv HQ. unfold ld. apply wp_on_part, (wp_load _ _ _ v).
  - rewrite <-(Z2Nat.id i) by done. by rewrite (mem_get_nat _ _ l).
  - by replace (set_mem (mem s) s) with s by by destruct s.
Qed.

Lemma wp_st_at s l i v (Q : unit -> canvas -> Prop) : mem s !! buf fb = Some l -> 0 <= i < Z.of_nat (length l) ->
  Q tt (set_mem (<[buf fb := <[Z.to_nat i := u8 v]> l]> (mem s)) s) -> wp (st fb i v) s Q.
Proof.
  intros Hl Hi HQ. destruct (lookup_lt_is_Some_2 l (Z.to_nat i) ltac:(lia)) as [w Hw].
  unfold st. apply wp_on_part, (wp_store _ _ _ w).
  - rewrite <-(Z2Nat.id i) by lia. by rewrite (mem_get_nat _ _ l).
  - replace (alter (<[Z.to_nat i := u8 v]>) (buf fb) (mem s)) with (<[buf fb := <[Z.to_nat i := u8 v]> l]> (mem s)); [done|].
    apply map_eq. intros c. destruct (decide (c = buf fb)) as [->|Hne].
    + by rewrite lookup_alter_eq, Hl, lookup_insert_eq.
    + by rewrite lookup_alter_ne, lookup_insert_ne.
Qed.

(** An access past the end of the buffer has no meaning. *)
Lemma ld_outside s l i : mem s !! buf fb = Some l -> Z.of_nat (length l) <= i -> ld fb i s = None.
Proof.
  intros Hl Hi. unfold ld, on_part, load, mem_get. rewrite Hl. cbn.
  rewrite bool_decide_true by lia. by rewrite (lookup_ge_None_2 l) by lia.
Qed.

Lemma bind_stuck {A B} (c : M canvas A) (k : A -> M canvas B) s : wp c s (fun a s1 => k a s1 = None) -> (c ≫= k) s = None.
Proof. unfold wp, mbind, M_bind. by destruct (c s) as [[a s1]|]. Qed.

Lemma bind_none {A B} (c : M canvas A) (k : A -> M canvas B) s : c s = None -> (c ≫= k) s = None.
Proof. unfold mbind, M_bind. by intros ->. Qed.
End Bytes.

(** The size computation wraps around at 32 bits: a frame of bytes whose
    size in bits reaches 2^32 is accepted with a buffer shorter than the frame,
    and reading its last pixel then leaves the buffer. *)
Theorem framebuf_make_new_wraps b len w h st l : dimensions w h w -> 2 ^ 29 <= w * h -> w * h - 2 ^ 29 <= len < w * h ->
  mem st !! b = Some l -> Z.of_nat (length l) = len ->
  exists fb, framebuf_make_new_helper b len w h FRAMEBUF_GS8 None = inr fb /\ framebuf_pixel fb (w - 1) (h - 1) None st = None.
Proof.
  intros Hd Hbig Hlen Hl Hn. exists (MkFramebuf b w h w FRAMEBUF_GS8 len). pose proof (proj2 (dimensions_spec _ _ _) Hd) as Hdb.
  assert (w * h < 2 ^ 32) as Hmax by (unfold dimensions in Hd; nia).
  assert ((h - 1) * w + w = w * h) as Hsize by ring.
  split.
  - unfold framebuf_make_new_helper. cbn [default]. unfold dimensions_b in Hdb. apply negb_true_iff in Hdb. rewrite Hdb.
    cbn [format_geometry Z.eqb Pos.eqb FRAMEBUF_GS8 FRAMEBUF_MVLSB FRAMEBUF_RGB565 FRAMEBUF_GS2_HMSB FRAMEBUF_GS4_HMSB FRAMEBUF_MHLSB FRAMEBUF_MHMSB orb].
    replace ((h - 1) * w + (h - (h - 1)) * w) with (w * h) by ring. rewrite (uwrap_small 32 (w * h)) by lia.
    destruct (Z.ltb_spec len (u32 (w * h * 8) / 8)) as [Hlt|]; [exfalso|done].
    assert (u32 (w * h * 8) / 8 <= w * h - 2 ^ 29); [|lia].
    pose proof (Z.div_mod (w * h * 8) (2 ^ 32) ltac:(done)) as Hdm. unfold u32, uwrap in *.
    assert (1 <= w * h * 8 / 2 ^ 32) by (apply Z.div_le_lower_bound; lia). apply Z.div_le_upper_bound; lia.
  - unfold dimensions in Hd. unfold framebuf_pixel, inside. cbn [width height].
    rewrite !(proj2 (Z.leb_le _ _)), !(proj2 (Z.ltb_lt _ _)) by lia. cbn [andb]. apply bind_none.
    unfold getpixel. rewrite (uwrap_small 32 (w - 1)), (uwrap_small 32 (h - 1)) by lia.
    cbn [format Z.eqb Pos.eqb FRAMEBUF_GS8 FRAMEBUF_MVLSB FRAMEBUF_RGB565 FRAMEBUF_GS2_HMSB FRAMEBUF_GS4_HMSB].
    unfold gs8_getpixel, linear. cbn [stride]. apply (ld_outside _ _ l); [done|]. rewrite uwrap_small; nia.
Qed.

Theorem framebuf_make_new_wraps_witness :
  dimensions 32768 16384 32768 /\ exists fb, framebuf_make_new_helper 0 0 32768 16384 FRAMEBUF_GS8 None = inr fb /\
    framebuf_pixel fb (32768 - 1) (16384 - 1) None (MkCanvas {[0%nat := []]} 0 false []) = None.
Proof.
  assert (dimensions 32768 16384 32768) as H by (unfold dimensions; lia). split; [exact H|].
  apply (framebuf_make_new_wraps 0 0 32768 16384 _ []); [exact H|lia|lia|reflexivity|reflexivity].
Defined.

(** ** GS2_HMSB *)

(** A two-bit field written at [6 - 2 k] is the one read at [2 (3 - k)]. *)
Lemma gs2_field b c k : is_byte b -> 0 <= k < 4 ->
  Z.land (Z.shiftr (u8 (Z.lor (Z.land b (Z.lnot (Z.shiftl 3 (6 - 2 * k)))) (Z.shiftl (Z.land c 3) (6 - 2 * k)))) (Z.shiftl (3 - k) 1)) 3 = c `mod` 4.
Proof.
  intros Hb Hk. assert (Z.land c 3 = c `mod` 4) as -> by by apply (land_pow2_mask 2).
  pose proof (Z.mod_pos_bound c 4 ltac:(done)) as Hc. set (v := c `mod` 4) in *. clearbody v. clear c.
  apply Z.eqb_eq. apply (byte_table (fun b => Z.land (Z.shiftr (u8 (Z.lor (Z.land b (Z.lnot (Z.shiftl 3 (6 - 2 * k)))) (Z.shiftl v (6 - 2 * k)))) (Z.shiftl (3 - k) 1)) 3 =? v)); [|done].
  assert (k = 0 \/ k = 1 \/ k = 2 \/ k = 3) as Hks by lia. assert (v = 0 \/ v = 1 \/ v = 2 \/ v = 3) as Hvs by lia.
  by destruct Hks as [-> | [-> | [-> | ->]]], Hvs as [-> | [-> | [-> | ->]]]; vm_compute.
Qed.

Lemma gs2_setpixel_unfold fb x y c : format fb = FRAMEBUF_GS2_HMSB -> in_range fb x y -> width fb <= 0xffff -> height fb <= 0xffff ->
  framebuf_pixel fb x y (Some c) = (gs2_hmsb_setpixel fb x y (u32 c);;! xret None).
Proof.
  intros Hf [Hx Hy] Hw Hh. unfold framebuf_pixel, inside, setpixel.
  rewrite !(proj2 (Z.leb_le _ _)), !(proj2 (Z.ltb_lt _ _)) by lia. cbn [andb]. rewrite Hf, (uwrap_small 32 x), (uwrap_small 32 y) by lia. done.
Qed.

(** GS2 frames misplace their pixels: in a buffer of the size the
    constructor asks for, setting a pixel of the lower three quarters of the
    frame writes outside the buffer, and setting pixel [x] of the first row
    gives the colour to the pixel at the mirrored place of its group of four. *)
Theorem gs2_pixels_misplaced b w h fb s x y c :
  framebuf_make_new_helper b (h * up_to 4 w / 4) w h FRAMEBUF_GS2_HMSB None = inr fb ->
  canvas_ok fb (Z.to_nat (h * up_to 4 w / 4)) s -> in_range fb x y ->
  (h <= 4 * y -> framebuf_pixel fb x y (Some c) s = None) /\
  (y = 0 -> wp (framebuf_pixel fb x y (Some c)) s (fun r s1 => r = inr None /\
     wp (getpixel fb (x - x `mod` 4 + (3 - x `mod` 4)) 0) s1 (fun v s2 => v = c `mod` 4 /\ s2 = s1))).
Proof.
  set (len := h * up_to 4 w / 4). intros Hmake Hok Hxy.
  destruct (dimensions_b w h w) eqn:Hdb.
  2: { unfold framebuf_make_new_helper in Hmake. unfold dimensions_b in Hdb. apply negb_false_iff in Hdb. cbn [default] in Hmake.
       rewrite Hdb in Hmake. done. }
  apply dimensions_spec in Hdb as Hd. pose proof (up_to_range 4 w ltac:(done)) as [Hup Hup4]. set (S := up_to 4 w) in *.
  assert (frame_bits FRAMEBUF_GS2_HMSB w h w = h * S * 2) as Hbits by (cbn -[up_to Z.mul Z.add Z.sub]; fold S; ring).
  assert (h * S * 2 < 2 ^ 32 \/ 2 ^ 32 <= h * S * 2) as Hcase by lia.
  assert (fb = MkFramebuf b w h S FRAMEBUF_GS2_HMSB len) as ->.
  { destruct (geometry_bits w h FRAMEBUF_GS2_HMSB w Hd ltac:(right; by right)) as (s' & bpp & wr & hr & sr & Hg & _).
    pose proof (geometry_stride _ _ _ _ _ Hg) as Hs. cbn in Hs. subst s'.
    unfold framebuf_make_new_helper in Hmake. cbn [default] in Hmake. unfold dimensions_b in Hdb. apply negb_true_iff in Hdb.
    rewrite Hdb, Hg in Hmake. destruct (len <? _); [done|]. by injection Hmake as <-. }
  clear Hmake Hdb Hbits Hcase. unfold dimensions in Hd. destruct Hxy as [Hx Hy]. cbn in Hx, Hy.
  assert (S = 4 * (S / 4)) as HS4 by (pose proof (Z.div_mod S 4 ltac:(done)); lia).
  assert (len = h * (S / 4)) as Hlen by (unfold len; rewrite HS4 at 1; replace (h * (4 * (S / 4))) with (h * (S / 4) * 4) by ring; by apply Z.div_mul).
  pose proof (Z.div_mod x 4 ltac:(done)) as Hdx. pose proof (Z.mod_pos_bound x 4 ltac:(done)) as Hmx.
  assert (0 <= x / 4 < S / 4) as Hq by (split; [apply Z.div_pos; lia|apply Z.div_lt_upper_bound; lia]).
  set (fb := MkFramebuf b w h S FRAMEBUF_GS2_HMSB len). assert (0 <= len) as Hlen0 by nia.
  assert (0 <= x / 4 + y * S < 2 ^ 32) as Hlin by nia.
  rewrite (gs2_setpixel_unfold fb) by (done || cbn; lia).
  unfold gs2_hmsb_setpixel, check_pixel. cbn [width height fb]. rewrite (proj2 (Z.leb_gt w x)), (proj2 (Z.leb_gt h y)) by lia. cbn [orb].
  rewrite (uwrap_small 32 (x / 4 + y * stride fb)) by done. cbn [stride fb].
  split.
  - intros Hlow. unfold xbind at 1. apply bind_none. unfold xbind at 1. unfold xret at 1. apply bind_stuck, wp_ret.
    apply bind_stuck. apply (wp_begin_changes fb (Z.to_nat len)); [done|]. intros s1 Hok1 Hm Hcl _.
    apply bind_stuck. apply (wp_log_change fb (Z.to_nat len)); [done|done|]. intros s2 Hok2 Hm2 _ _.
    destruct Hok2 as [(l & Hl & Hn & _) _]. apply bind_none, (ld_outside _ _ l); [done|]. rewrite Hn, Z2Nat.id by done. nia.
  - intros ->. rewrite Z.mul_0_l, Z.add_0_r. apply wp_xbind. apply wp_xbind, wp_xret. apply wp_bind.
    apply (wp_begin_changes fb (Z.to_nat len)); [done|]. intros s1 Hok1 Hm Hcl _. apply wp_bind.
    apply (wp_log_change fb (Z.to_nat len)); [done|done|]. intros s2 Hok2 Hm2 _ _.
    destruct Hok2 as [(l & Hl & Hn & Hb) _]. destruct (lookup_lt_is_Some_2 l (Z.to_nat (x / 4)) ltac:(nia)) as [v Hv].
    apply wp_bind, (wp_ld_at _ _ l _ v); [done|lia|done|]. apply wp_bind, (wp_st_at _ _ l); [done|nia|]. apply wp_xret.
    apply wp_xret. split; [done|].
    unfold getpixel. set (x' := x - x `mod` 4 + (3 - x `mod` 4)). assert (x' = 3 - x `mod` 4 + x / 4 * 4) as Hx' by (unfold x'; lia).
    rewrite (uwrap_small 32 x') by lia. cbn [format Z.eqb Pos.eqb fb FRAMEBUF_GS2_HMSB FRAMEBUF_MVLSB FRAMEBUF_RGB565].
    unfold gs2_hmsb_getpixel, linear. change (u32 0) with 0. rewrite Z.mul_0_l, Z.add_0_r, (uwrap_small 32 x') by lia.
    rewrite shiftr_div by done. change (2 ^ 2) with 4.
    assert (x' / 4 = x / 4) as -> by (rewrite Hx', Z.div_add by done; rewrite Z.div_small; lia).
    eapply wp_bind, wp_ld_at; [cbn; by rewrite lookup_insert_eq|lia|apply list_lookup_insert_eq; nia|]. apply wp_ret. split; [|done].
    assert (Z.land x 3 = x `mod` 4) as -> by by apply (land_pow2_mask 2).
    assert (Z.land x' 3 = 3 - x `mod` 4) as -> by (etrans; [by apply (land_pow2_mask 2 x')|]; change (2 ^ 2) with 4; rewrite Hx', Z.mod_add by done; rewrite Z.mod_small; lia).
    rewrite (gs2_field v (u32 c)); [|rewrite Forall_lookup in Hb; by eapply Hb|done].
    apply (uwrap_mod 32 2). lia.
Qed.

Theorem gs2_pixels_misplaced_witness :
  let fb := MkFramebuf 0 8 4 8 FRAMEBUF_GS2_HMSB 8 in
  let s := MkCanvas {[0%nat := replicate 8 0]} 0 false (replicate 8 0) in
  framebuf_make_new_helper 0 8 8 4 FRAMEBUF_GS2_HMSB None = inr fb /\
  framebuf_pixel fb 0 1 (Some 3) s = None /\
  wp (framebuf_pixel fb 1 0 (Some 3)) s (fun r s1 => r = inr None /\ wp (getpixel fb 2 0) s1 (fun v s2 => v = 3 /\ s2 = s1)).
Proof.
  cbv zeta. set (fb := MkFramebuf 0 8 4 8 FRAMEBUF_GS2_HMSB 8). set (s := MkCanvas _ _ _ _).
  assert (framebuf_make_new_helper 0 8 8 4 FRAMEBUF_GS2_HMSB None = inr fb) as Hm by (vm_compute; reflexivity).
  assert (canvas_ok fb 8 s) as Hok.
  { split; [|split; [reflexivity|split; [discriminate|discriminate]]].
    exists (replicate 8 0). split; [reflexivity|]. split; [reflexivity|]. repeat constructor; discriminate. }
  split; [exact Hm|]. split.
  - apply (gs2_pixels_misplaced 0 8 4 fb s 0 1 3); [exact Hm|exact Hok|unfold in_range; cbn; lia|lia].
  - apply (gs2_pixels_misplaced 0 8 4 fb s 1 0 3); [exact Hm|exact Hok|unfold in_range; cbn; lia|reflexivity].
Defined.

(** ** RGB565 *)

Definition swap16 (c : Z) : Z := (c / 256) `mod` 256 + 256 * (c `mod` 256).

Lemma u32_bytes c : u8 (u32 c) = c `mod` 256 /\ u8 (Z.shiftr (u32 c) 8) = (c / 256) `mod` 256 /\ u8 (Z.land (u32 c) 0xFF) = c `mod` 256.
Proof.
  assert (u32 c `mod` 256 = c `mod` 256) as Hl by by apply (uwrap_mod 32 8).
  split; [done|]. rewrite shiftr_div by done. change 0xFF with (2 ^ 8 - 1). rewrite land_pow2_mask by done.
  change (2 ^ 8) with 256. rewrite Hl. split; [|by apply Z.mod_mod].
  unfold uwrap. change (2 ^ 8) with 256. set (q := c / 2 ^ 32). set (r := c `mod` 2 ^ 32).
  assert (c / 256 = (r + q * 2 ^ 24 * 256) / 256) as -> by (f_equal; pose proof (Z.div_mod c (2 ^ 32) ltac:(done)); unfold q, r; lia).
  rewrite Z.div_add by done. replace (r / 256 + q * 2 ^ 24) with (r / 256 + q * 2 ^ 16 * 256) by ring. by rewrite Z.mod_add.
Qed.

Section Rgb565.
Context (fb : framebuf_t) (n : nat) (Hf : format fb = FRAMEBUF_RGB565).
Context (x y : Z) (Hxy : in_range fb x y) (Hw : width fb <= 0xffff) (Hh : height fb <= 0xffff).
Context (Hroom : 2 * (x + y * stride fb) + 1 < Z.of_nat n) (Hlow : 0 <= x + y * stride fb) (Hmax : 2 * (x + y * stride fb) < 2 ^ 32).

Lemma rgb_linear : linear fb (u32 x) (u32 y) = x + y * stride fb.
Proof. destruct Hxy. unfold linear. rewrite (uwrap_small 32 x), (uwrap_small 32 y) by lia. apply uwrap_small. lia. Qed.

Lemma wp_rgb_get l s (lo hi : Z) (Q : Z -> canvas -> Prop) : mem s !! buf fb = Some l -> l !! Z.to_nat (2 * (x + y * stride fb)) = Some lo ->
  l !! Z.to_nat (2 * (x + y * stride fb) + 1) = Some hi -> Q (lo + 256 * hi) s -> wp (getpixel fb x y) s Q.
Proof.
  intros Hl Hlo Hhi HQ. unfold getpixel. rewrite Hf. cbn [Z.eqb Pos.eqb FRAMEBUF_RGB565 FRAMEBUF_MVLSB].
  unfold rgb565_getpixel, ld16. rewrite rgb_linear.
  apply wp_bind, (wp_ld_at fb _ l _ lo); [done|lia|done|]. apply wp_bind, (wp_ld_at fb _ l _ hi); [done|lia|done|]. by apply wp_ret.
Qed.

Lemma rgb_read (i : Z) l a b : 0 <= i -> i + 1 < Z.of_nat (length l) ->
  (<[Z.to_nat (i + 1) := b]> (<[Z.to_nat i := a]> l) : list Z) !! Z.to_nat i = Some a /\
  (<[Z.to_nat (i + 1) := b]> (<[Z.to_nat i := a]> l) : list Z) !! Z.to_nat (i + 1) = Some b.
Proof.
  intros Hi Hl. split.
  - rewrite list_lookup_insert_ne by lia. apply list_lookup_insert_eq. lia.
  - apply list_lookup_insert_eq. rewrite length_insert. lia.
Qed.

(** Two stores to the pixel's bytes, then the value that is read. *)
Lemma wp_rgb_store s a b (Q : unit -> canvas -> Prop) : canvas_ok fb n s ->
  (forall s', (forall R : Z -> canvas -> Prop, R (u8 a + 256 * u8 b) s' -> wp (getpixel fb x y) s' R) -> Q tt s') ->
  wp (st fb (2 * (x + y * stride fb)) a;; st fb (2 * (x + y * stride fb) + 1) b) s Q.
Proof.
  intros [(l & Hl & Hn & _) _] HQ. set (i := 2 * (x + y * stride fb)) in *.
  apply wp_bind, (wp_st_at fb _ l); [done|lia|]. apply (wp_st_at fb _ (<[Z.to_nat i := u8 a]> l)).
  - cbn. by rewrite lookup_insert_eq.
  - rewrite length_insert. lia.
  - destruct (rgb_read i l (u8 a) (u8 b)) as [Hlo Hhi]; [lia|lia|]. apply HQ. intros R HR.
    eapply wp_rgb_get; [cbn; by rewrite lookup_insert_eq|exact Hlo|exact Hhi|exact HR].
Qed.
End Rgb565.

(** RGB565 frames swap the bytes of a colour: after [fill_rect] of one pixel
    the pixel reads as the colour's low 16 bits, after [pixel] it reads as their
    bytes in the opposite order. *)
Theorem rgb565_pixel_swaps_bytes fb n s x y c : format fb = FRAMEBUF_RGB565 -> canvas_ok fb n s -> in_range fb x y ->
  1 <= width fb <= 0xffff -> 1 <= height fb <= 0xffff -> width fb <= stride fb <= 0xffff ->
  2 * ((height fb - 1) * stride fb + width fb) <= Z.of_nat n < 2 ^ 32 ->
  wp (framebuf_fill_rect fb x y 1 1 c) s (fun r s1 => r = inr tt /\
    wp (framebuf_pixel fb x y None) s1 (fun r s2 => r = inr (Some (c `mod` 65536)) /\ s2 = s1)) /\
  wp (framebuf_pixel fb x y (Some c)) s (fun r s1 => r = inr None /\
    wp (framebuf_pixel fb x y None) s1 (fun r s2 => r = inr (Some (swap16 c)) /\ s2 = s1)).
Proof.
  intros Hf Hok Hxy Hw Hh Hst Hn. pose proof Hxy as [Hx Hy].
  assert (2 * (x + y * stride fb) + 1 < Z.of_nat n) as Hroom by nia. assert (0 <= x + y * stride fb) as Hlow by nia.
  assert (inside fb x y = true) as Hin by (unfold inside; lia).
  assert (forall s1 v, (forall R : Z -> canvas -> Prop, R v s1 -> wp (getpixel fb x y) s1 R) ->
    wp (framebuf_pixel fb x y None) s1 (fun r s2 => r = inr (Some v) /\ s2 = s1)) as Hget.
  { intros s1 v Hv. unfold framebuf_pixel. rewrite Hin. apply wp_bind, Hv. by apply wp_xret. }
  split.
  - unfold framebuf_fill_rect, fill_rect. cbn [Z.ltb Z.compare Pos.compare Pos.compare_cont orb].
    apply wp_bind, wp_sint; [lia|]. rewrite (proj2 (Z.leb_gt (x + 1) 0)) by lia. apply wp_bind, wp_sint; [lia|].
    rewrite (proj2 (Z.leb_gt (y + 1) 0)), (proj2 (Z.leb_gt (height fb) y)), (proj2 (Z.leb_gt (width fb) x)) by lia. cbn [orb].
    rewrite !(Z.min_r _ (_ + 1)), !Z.max_l by lia. replace (x + 1 - x) with 1 by lia. replace (y + 1 - y) with 1 by lia.
    unfold format_fill_rect. rewrite Hf. cbn [Z.eqb Pos.eqb FRAMEBUF_RGB565 FRAMEBUF_MVLSB].
    unfold rgb565_fill_rect. change (Z.to_nat 1) with 1%nat. cbn [for_up]. rewrite Z.mul_0_l, !Z.add_0_r.
    apply wp_bind, wp_bind, wp_bind. unfold st16, linear. rewrite (uwrap_small 32 (x + _)) by lia.
    eapply wp_rgb_store; try done; try lia. intros s1 Hs1. do 2 apply wp_ret. apply wp_xret. split; [done|]. apply Hget. intros R HR. apply Hs1.
    destruct (u32_bytes c) as (-> & -> & _).
    replace (c `mod` 256 + 256 * ((c / 256) `mod` 256)) with (c `mod` 65536); [done|]. Z.to_euclidean_division_equations. lia.
  - unfold framebuf_pixel at 1. rewrite Hin. unfold setpixel. rewrite Hf. cbn [Z.eqb Pos.eqb FRAMEBUF_RGB565 FRAMEBUF_MVLSB].
    rewrite (uwrap_small 32 x), (uwrap_small 32 y) by lia. unfold rgb565_setpixel, check_pixel, linear.
    rewrite (proj2 (Z.leb_gt (width fb) x)), (proj2 (Z.leb_gt (height fb) y)) by lia. cbn [orb].
    rewrite (uwrap_small 32 (x + _)), (uwrap_small 32 (2 * _)) by lia.
    apply wp_xbind, wp_xbind, wp_xret. apply wp_bind, (wp_begin_changes fb n); [done|]. intros s1 Hok1 _ Hcl _.
    apply wp_bind, (wp_log_change fb n); [done|done|]. intros s2 Hok2 _ _ _. apply wp_bind_assoc, wp_bind.
    eapply wp_rgb_store; try done; try lia. intros s3 Hs3. apply wp_xret, wp_xret. split; [done|]. apply Hget. intros R HR. apply Hs3.
    destruct (u32_bytes c) as (_ & -> & ->). done.
Qed.

Theorem rgb565_pixel_swaps_bytes_witness :
  let fb := MkFramebuf 0 4 2 4 FRAMEBUF_RGB565 16 in
  let s := MkCanvas {[0%nat := replicate 16 0]} 0 false (replicate 16 0) in
  canvas_ok fb 16 s /\
  wp (framebuf_pixel fb 1 1 (Some 0xF81F)) s (fun r s1 => r = inr None /\
    wp (framebuf_pixel fb 1 1 None) s1 (fun r s2 => r = inr (Some (swap16 0xF81F)) /\ s2 = s1)).
Proof.
  cbv zeta. set (fb := MkFramebuf 0 4 2 4 FRAMEBUF_RGB565 16). set (s := MkCanvas _ _ _ _).
  assert (canvas_ok fb 16 s) as Hok.
  { split; [|split; [reflexivity|split; [discriminate|discriminate]]].
    exists (replicate 16 0). split; [reflexivity|]. split; [reflexivity|]. repeat constructor; discriminate. }
  split; [exact Hok|]. apply (rgb565_pixel_swaps_bytes fb 16 s 1 1 0xF81F); [reflexivity|exact Hok|unfold in_range; cbn; lia|cbn; lia..].
Defined.

(** ** The methods of frame buffers

    What every drawing method does to the pixels, as theorems about frame
    buffers that fit their buffer ([fits], which the constructor establishes):
    total, no exception, no access outside the buffer, no integer overflow for
    coordinates of moderate size. *)

(** ** An example frame: 16 by 8 pixels, columns of eight *)

Definition example_frame : framebuf_t := MkFramebuf 0 16 8 16 FRAMEBUF_MVLSB 16.
Definition example_canvas : canvas := MkCanvas {[0%nat := replicate 16 0]} 0 false (replicate 16 0).

Lemma example_fits : fits example_frame 16.
Proof.
  apply (frame_fits 0 16 16 8 FRAMEBUF_MVLSB 16); [by left|unfold dimensions; lia|lia|by vm_compute].
Qed.

Lemma example_format : In (format example_frame) [FRAMEBUF_MVLSB; FRAMEBUF_MHLSB; FRAMEBUF_MHMSB; FRAMEBUF_GS4_HMSB; FRAMEBUF_GS8].
Proof. by left. Qed.

Lemma example_ok : canvas_ok example_frame 16 example_canvas.
Proof.
  split; [exists (replicate 16 0)|].
  - split; [done|]. split; [done|]. by apply Forall_replicate.
  - by split.
Qed.

(** ** Pixels and the log of changes *)

(** [pixel] sets and reads exactly the pixel it names and does nothing
    outside the frame; setting logs the index of the pixel's byte (its low 16
    bits, until the log is full) after the first change since [fill] has emptied
    the log, and [get_changes] returns the log. *)
Theorem framebuf_pixel_correct fb n s x y c : fits fb n -> canvas_ok fb n s ->
  wp (framebuf_pixel fb x y (Some c)) s (fun r s' => r = inr None /\
    if inside fb x y then pixel_set fb n s s' x y c /\ framebuf_get_changes s' = Some (record_index fb (pending s) (p_index fb x y), s')
    else s' = s) /\
  framebuf_pixel fb x y None s = Some (inr (if inside fb x y then Some (view fb s x y) else None), s).
Proof.
  intros Hfit Hok. unfold framebuf_pixel. destruct (inside fb x y) eqn:Hin; [|done].
  apply inside_spec in Hin. split.
  - apply wp_xbind, (wp_setpixel fb n Hfit); [done|done|]. intros s' Hs'. apply wp_xret. split; [done|]. split; [done|].
    destruct Hs' as (_ & _ & Hr & _). unfold framebuf_get_changes, gets. unfold recorded in Hr. by rewrite Hr.
  - assert (wp (getpixel fb x y) s (fun v s' => v = view fb s x y /\ s' = s)) as Hg.
    { apply (wp_getpixel fb n Hfit); [by apply co_block|done|done]. }
    unfold mbind, M_bind. apply run_value in Hg as (v & s' & -> & -> & ->). done.
Qed.

Theorem framebuf_pixel_correct_witness :
  fits example_frame 16 /\ canvas_ok example_frame 16 example_canvas /\
  wp (framebuf_pixel example_frame 3 5 (Some 1)) example_canvas (fun r s' => r = inr None /\
    pixel_set example_frame 16 example_canvas s' 3 5 1 /\ framebuf_get_changes s' = Some ([3], s')).
Proof.
  split; [exact example_fits|]. split; [exact example_ok|].
  exact (proj1 (framebuf_pixel_correct example_frame 16 example_canvas 3 5 1 example_fits example_ok)).
Defined.

(** ** Rectangles *)

(** C30: In the five formats MVLSB, MHLSB, MHMSB, GS4_HMSB and GS8, [fill],
    [fill_rect], [hline], [vline] and [rect] give the colour to exactly the
    pixels of the frame that lie in the rectangle or on its outline, negative
    positions and sizes included, and change no other buffer.  (RGB565 and
    GS2_HMSB are not covered: their pixels are not read as they are set.) *)
Theorem framebuf_rectangles_correct fb n s x y w h c (f : bool) :
  In (format fb) [FRAMEBUF_MVLSB; FRAMEBUF_MHLSB; FRAMEBUF_MHMSB; FRAMEBUF_GS4_HMSB; FRAMEBUF_GS8] ->
  fits fb n -> canvas_ok fb n s ->
  - 2 ^ 30 <= x < 2 ^ 30 -> - 2 ^ 30 <= y < 2 ^ 30 -> - 2 ^ 30 < w < 2 ^ 30 -> - 2 ^ 30 < h < 2 ^ 30 ->
  draws fb n (fun _ _ => true) c (framebuf_fill fb c) s /\
  draws fb n (rect x y w h) c (framebuf_fill_rect fb x y w h c) s /\
  draws fb n (rect x y w 1) c (framebuf_hline fb x y w c) s /\
  draws fb n (rect x y 1 h) c (framebuf_vline fb x y h c) s /\
  draws fb n (if f then rect x y w h else outline x y w h) c (framebuf_rect fb x y w h c f) s.
Proof.
  intros _ Hfit Hok Hx Hy Hw Hh. split; [|split; [|split; [|split]]].
  - pose proof (ft_width _ _ Hfit). pose proof (ft_height _ _ Hfit).
    apply wp_bind, wp_modify, (wp_format_fill fb n Hfit).
    + destruct Hok as [Hb [Hl Hc]]. split; [done|]. split; [done|]. cbn. lia.
    + unfold rect_ok. lia.
    + lia.
    + lia.
    + intros s' Hs'. split; [done|]. apply filled_drawn in Hs'. destruct Hs' as [He Hv]. split; [done|].
      intros a b Hab. rewrite Hv by done. unfold rect, in_range in *.
      rewrite !(proj2 (Z.leb_le _ _)), !(proj2 (Z.ltb_lt _ _)) by lia. done.
  - apply draws_fill_rect; done || lia.
  - apply draws_fill_rect; done || lia.
  - apply draws_fill_rect; done || lia.
  - by apply draws_rect.
Qed.

Theorem framebuf_rectangles_correct_witness :
  fits example_frame 16 /\ canvas_ok example_frame 16 example_canvas /\
  draws example_frame 16 (rect (-2) 3 5 100) 1 (framebuf_fill_rect example_frame (-2) 3 5 100 1) example_canvas.
Proof.
  split; [exact example_fits|]. split; [exact example_ok|].
  refine (proj1 (proj2 (framebuf_rectangles_correct example_frame 16 example_canvas (-2) 3 5 100 1 true example_format example_fits example_ok _ _ _ _))); lia.
Defined.

(** ** Lines *)

(** The point is within half a pixel of the ideal line, measured along the axis
    of the shorter distance. *)
Definition near_line (x1 y1 x2 y2 a b : Z) : Prop :=
  2 * Z.abs ((b - y1) * (x2 - x1) - (a - x1) * (y2 - y1)) <= Z.max (Z.abs (x2 - x1)) (Z.abs (y2 - y1)).

Lemma minor_close dp dq i : 0 < dp -> 2 * Z.abs (minor dp dq i * dp - i * dq) <= dp.
Proof.
  intros Hp. unfold minor. pose proof (Z.div_mod (2 * i * dq + dp) (2 * dp) ltac:(lia)).
  pose proof (Z.mod_pos_bound (2 * i * dq + dp) (2 * dp) ltac:(lia)). lia.
Qed.

Lemma on_line_near x1 y1 x2 y2 a b : on_line x1 y1 x2 y2 a b = true -> near_line x1 y1 x2 y2 a b.
Proof.
  unfold on_line, near_line. destruct (sign_abs (x2 - x1)) as (Hdx & _ & Hsx), (sign_abs (y2 - y1)) as (Hdy & _ & Hsy).
  set (dx := Z.abs (x2 - x1)) in *. set (dy := Z.abs (y2 - y1)) in *. set (sx := sign (x2 - x1)) in *. set (sy := sign (y2 - y1)) in *.
  assert (forall p q dp dq sp sq u v, 0 <= dq <= dp -> sp * sp = 1 -> sq * sq = 1 -> major_points p q dp dq sp sq 0 (dp + 1) u v = true ->
    2 * Z.abs ((v - q) * (sp * dp) - (u - p) * (sq * dq)) <= dp) as Hgo.
  { intros p q dp dq sp sq u v Hd Hsp Hsq Hm. unfold major_points in Hm. set (i := (u - p) * sp) in *.
    assert (v = q + sq * minor dp dq i) as -> by lia. assert (u - p = i * sp) as -> by (unfold i; rewrite <-Z.mul_assoc, Hsp; lia).
    replace ((q + sq * minor dp dq i - q) * (sp * dp) - i * sp * (sq * dq)) with (sp * sq * (minor dp dq i * dp - i * dq)) by ring.
    rewrite Z.abs_mul. assert (Z.abs (sp * sq) = 1) as -> by nia. rewrite Z.mul_1_l.
    destruct (Z.eq_dec dp 0) as [->|]; [|apply minor_close; lia]. replace dq with 0 by lia. lia. }
  assert (0 <= dx /\ 0 <= dy) as [Hx0 Hy0] by lia. rewrite <-Hdx, <-Hdy. destruct (Z.ltb_spec dx dy) as [Hlt|Hge]; intros Hm.
  - specialize (Hgo y1 x1 dy dx sy sx b a ltac:(lia) Hsy Hsx Hm). rewrite Z.max_r by lia.
    replace (_ - _) with (- ((a - x1) * (sy * dy) - (b - y1) * (sx * dx))) by ring. by rewrite Z.abs_opp.
  - specialize (Hgo x1 y1 dx dy sx sy a b ltac:(lia) Hsx Hsy Hm). by rewrite Z.max_l by lia.
Qed.

Lemma minor_ends dp dq : 0 <= dq <= dp -> minor dp dq 0 = 0 /\ minor dp dq dp = dq.
Proof.
  intros Hd. unfold minor. destruct (Z.eq_dec dp 0) as [->|]; [by replace dq with 0 by lia|]. split.
  - apply Z.div_small. lia.
  - symmetry. apply (Z.div_unique _ _ _ dp); lia.
Qed.

(** The ends of the line are on it. *)
Lemma on_line_ends x1 y1 x2 y2 : on_line x1 y1 x2 y2 x1 y1 = true /\ on_line x1 y1 x2 y2 x2 y2 = true.
Proof.
  unfold on_line. destruct (sign_abs (x2 - x1)) as (Hdx & _ & Hsx), (sign_abs (y2 - y1)) as (Hdy & _ & Hsy).
  assert (forall p q p2 q2 dp dq sp sq, 0 <= dq <= dp -> sp * dp = p2 - p -> sq * dq = q2 - q -> sp * sp = 1 ->
    major_points p q dp dq sp sq 0 (dp + 1) p q = true /\ major_points p q dp dq sp sq 0 (dp + 1) p2 q2 = true) as Hgo.
  { intros p q p2 q2 dp dq sp sq Hd H1 H2 Hs. destruct (minor_ends dp dq Hd) as [H0 Hl]. unfold major_points.
    rewrite Z.sub_diag, Z.mul_0_l, H0. replace ((p2 - p) * sp) with dp by (rewrite <-H1; replace (sp * dp * sp) with (sp * sp * dp) by ring; rewrite Hs; lia).
    rewrite Hl. split; lia. }
  destruct (Z.ltb_spec (Z.abs (x2 - x1)) (Z.abs (y2 - y1))); apply Hgo; done || lia.
Qed.

(** C29: In the five formats MVLSB, MHLSB, MHMSB, GS4_HMSB and GS8, [line] draws
    from one end to the other: along the axis of the longer distance one pixel
    per step, the other coordinate rounded to the nearest; both ends are drawn,
    no pixel is farther than half a pixel from the ideal line, and what lies
    outside the frame is left out.  (Not in RGB565, which swaps the bytes of a
    pixel, nor in GS2_HMSB, which misplaces pixels.) *)
Theorem framebuf_line_correct fb n s x1 y1 x2 y2 c :
  In (format fb) [FRAMEBUF_MVLSB; FRAMEBUF_MHLSB; FRAMEBUF_MHMSB; FRAMEBUF_GS4_HMSB; FRAMEBUF_GS8] ->
  fits fb n -> canvas_ok fb n s ->
  small x1 -> small y1 -> small x2 -> small y2 ->
  draws fb n (on_line x1 y1 x2 y2) c (framebuf_line fb x1 y1 x2 y2 c) s /\
  on_line x1 y1 x2 y2 x1 y1 = true /\ on_line x1 y1 x2 y2 x2 y2 = true /\
  forall a b, on_line x1 y1 x2 y2 a b = true -> near_line x1 y1 x2 y2 a b.
Proof.
  intros _ Hfit Hok H1 H2 H3 H4. split; [by apply draws_line|]. destruct (on_line_ends x1 y1 x2 y2) as [He1 He2].
  split; [done|]. split; [done|]. apply on_line_near.
Qed.

Theorem framebuf_line_correct_witness :
  fits example_frame 16 /\ canvas_ok example_frame 16 example_canvas /\
  draws example_frame 16 (on_line 14 7 (-3) 2) 1 (framebuf_line example_frame 14 7 (-3) 2 1) example_canvas.
Proof.
  split; [exact example_fits|]. split; [exact example_ok|].
  refine (proj1 (framebuf_line_correct example_frame 16 example_canvas 14 7 (-3) 2 1 example_format example_fits example_ok _ _ _ _)); unfold small; lia.
Defined.

(** ** Scrolling, blitting and text *)

(** C31: In the five formats MVLSB, MHLSB, MHMSB, GS4_HMSB and GS8, [scroll]
    moves the picture: every pixel gets the value that the pixel a step before
    had at the beginning, pixels without such a source keep theirs, although the
    copy is made in place.  (In RGB565 and GS2_HMSB it does not: there [setpixel]
    does not store what [getpixel] has read.) *)
Theorem framebuf_scroll_correct fb n s xstep ystep :
  In (format fb) [FRAMEBUF_MVLSB; FRAMEBUF_MHLSB; FRAMEBUF_MHMSB; FRAMEBUF_GS4_HMSB; FRAMEBUF_GS8] ->
  fits fb n -> canvas_ok fb n s ->
  - 2 ^ 31 <= xstep < 2 ^ 31 -> - 2 ^ 31 <= ystep < 2 ^ 31 ->
  wp (framebuf_scroll fb xstep ystep) s (fun r s' => r = inr tt /\ evolves fb n s s' /\
    forall x y, in_range fb x y ->
      view fb s' x y = if inside fb (x - xstep) (y - ystep) then view fb s (x - xstep) (y - ystep) else view fb s x y).
Proof. intros _ Hfit Hok. by apply wp_scroll. Qed.

Theorem framebuf_scroll_correct_witness :
  fits example_frame 16 /\ canvas_ok example_frame 16 example_canvas /\
  wp (framebuf_scroll example_frame (-3) 2) example_canvas (fun r s' => r = inr tt /\ evolves example_frame 16 example_canvas s' /\
    forall x y, in_range example_frame x y ->
      view example_frame s' x y = if inside example_frame (x - -3) (y - 2) then view example_frame example_canvas (x - -3) (y - 2)
                                  else view example_frame example_canvas x y).
Proof.
  split; [exact example_fits|]. split; [exact example_ok|].
  refine (framebuf_scroll_correct example_frame 16 example_canvas (-3) 2 example_format example_fits example_ok _ _); lia.
Defined.

(** C32: [blit] copies the part of the source that falls on the frame, through
    the palette if one is given, leaves out the pixels of the key colour, and
    changes nothing else.  Frame, source and palette are in the five formats
    MVLSB, MHLSB, MHMSB, GS4_HMSB and GS8; source and palette lie in other
    buffers than the frame (a frame that is blitted onto itself reads pixels it
    has written already), and the palette has a column for every value of a
    source pixel. *)
Theorem framebuf_blit_correct fb n src m s x y key palette :
  In (format fb) [FRAMEBUF_MVLSB; FRAMEBUF_MHLSB; FRAMEBUF_MHMSB; FRAMEBUF_GS4_HMSB; FRAMEBUF_GS8] ->
  In (format src) [FRAMEBUF_MVLSB; FRAMEBUF_MHLSB; FRAMEBUF_MHMSB; FRAMEBUF_GS4_HMSB; FRAMEBUF_GS8] ->
  buf src <> buf fb -> (forall p, palette = Some p -> buf p <> buf fb /\ 2 ^ p_bits src <= width p) ->
  fits fb n -> fits src m -> canvas_ok fb n s ->
  readable fb src m s palette -> - 2 ^ 30 <= x < 2 ^ 30 -> - 2 ^ 30 <= y < 2 ^ 30 ->
  wp (framebuf_blit fb src x y key palette) s (fun r s' => r = inr tt /\ evolves fb n s s' /\
    forall a b, in_range fb a b -> view fb s' a b =
      let v := blit_colour src s palette (a - x) (b - y) in
      if inside src (a - x) (b - y) && negb (v =? u32 (default (-1) key)) then colour fb v else view fb s a b).
Proof. intros _ _ _ _ Hfit Hsrc Hok Hrd Hx Hy. by apply (wp_blit fb n Hfit src m). Qed.

Definition example_source : framebuf_t := MkFramebuf 1 4 2 4 FRAMEBUF_GS8 8.
Definition example_pair : canvas := MkCanvas {[0%nat := replicate 16 0; 1%nat := [0; 1; 2; 3; 4; 5; 6; 7]]} 0 false (replicate 16 0).

Theorem framebuf_blit_correct_witness :
  fits example_frame 16 /\ fits example_source 8 /\ readable example_frame example_source 8 example_pair None /\
  wp (framebuf_blit example_frame example_source (-1) 7 (Some 2) None) example_pair (fun r s' => r = inr tt /\
    evolves example_frame 16 example_pair s' /\ view example_frame s' 0 7 = 1).
Proof.
  assert (fits example_source 8) as Hs.
  { apply (frame_fits 1 8 4 2 FRAMEBUF_GS8 4); [right; right; left; reflexivity|unfold dimensions; lia|lia|vm_compute; discriminate]. }
  assert (readable example_frame example_source 8 example_pair None) as Hrd.
  { split; [discriminate|]. split; [|exact I]. exists [0; 1; 2; 3; 4; 5; 6; 7]. split; [reflexivity|]. split; [reflexivity|].
    repeat constructor; discriminate. }
  assert (canvas_ok example_frame 16 example_pair) as Hok.
  { split; [exists (replicate 16 0)|split; [reflexivity|split; discriminate]]. split; [reflexivity|]. split; [reflexivity|].
    repeat constructor; discriminate. }
  split; [exact example_fits|]. split; [exact Hs|]. split; [exact Hrd|].
  eapply wp_mono; [refine (framebuf_blit_correct example_frame 16 example_source 8 example_pair (-1) 7 (Some 2) None
    example_format _ _ _ example_fits Hs Hok Hrd _ _); [do 4 right; by left|discriminate|discriminate|lia|lia]|].
  intros r s' (-> & He & Hv). split; [reflexivity|]. split; [exact He|]. rewrite (Hv 0 7) by (unfold in_range; cbn; lia). vm_compute. reflexivity.
Defined.

(** [text] draws the dots of the font's glyphs, eight columns per character
    up to the first NUL, characters outside 32 to 127 as character 127, clipped
    at the edges of the frame. *)
Theorem framebuf_text_correct fb n s str x0 y0 c : fits fb n -> canvas_ok fb n s -> Forall is_byte str ->
  - 2 ^ 30 <= x0 -> x0 + 8 * Z.of_nat (length str) < 2 ^ 31 - 16 -> - 2 ^ 30 <= y0 < 2 ^ 31 - 16 ->
  draws fb n (text_points str x0 y0) (default 1 c) (framebuf_text fb str x0 y0 c) s.
Proof. intros Hfit Hok. by apply draws_text. Qed.

Theorem framebuf_text_correct_witness :
  fits example_frame 16 /\ canvas_ok example_frame 16 example_canvas /\
  draws example_frame 16 (text_points [72; 200; 0; 105] (-4) 1) 1 (framebuf_text example_frame [72; 200; 0; 105] (-4) 1 None) example_canvas.
Proof.
  split; [exact example_fits|]. split; [exact example_ok|].
  refine (framebuf_text_correct example_frame 16 example_canvas _ (-4) 1 None example_fits example_ok _ _ _ _);
    [repeat constructor; discriminate|lia|cbn; lia|lia].
Defined.

(** ** Ellipses and polygons *)

(** [ellipse] with radii up to 127 and [poly] with coordinates up to 2048
    end without an overflow, an access outside the buffer or a read of a node
    that no edge has written, and give pixels no other value than the colour. *)
Theorem framebuf_shapes_paint fb n s cx cy rx ry col (f : bool) mask pts x y (f' : bool) : fits fb n -> canvas_ok fb n s ->
  small cx -> small cy -> 0 <= rx <= 127 -> 0 <= ry <= 127 ->
  Forall coordinate pts -> - 2 ^ 27 < x < 2 ^ 27 -> - 2 ^ 27 < y < 2 ^ 27 ->
  painting fb n col (framebuf_ellipse fb cx cy rx ry col f mask) s /\
  painting fb n col (framebuf_poly fb pts x y col f') s.
Proof. intros Hfit Hok H1 H2 H3 H4 Hp Hx Hy. split; [by apply painting_ellipse|by apply painting_poly]. Qed.

Theorem framebuf_shapes_paint_witness :
  fits example_frame 16 /\ canvas_ok example_frame 16 example_canvas /\
  painting example_frame 16 1 (framebuf_ellipse example_frame 8 4 7 3 1 true (Some 5)) example_canvas /\
  painting example_frame 16 1 (framebuf_poly example_frame [0; 0; 10; 2; 4; 7] 1 0 1 true) example_canvas.
Proof.
  split; [exact example_fits|]. split; [exact example_ok|].
  refine (framebuf_shapes_paint example_frame 16 example_canvas 8 4 7 3 1 true (Some 5) _ 1 0 true example_fits example_ok _ _ _ _ _ _ _);
    try (unfold small; lia); try lia. repeat constructor; discriminate.
Defined.
