(* ===== verification/Gc.v ===== *)
(** * The garbage collector ([py/gc.c])

    The heap is a list of areas (the linked list from [MP_STATE_MEM(area)]).
    An area has an allocation table of two bits per block, a gap byte, a
    finaliser table of one bit per block, and a pool of 16-byte blocks, kept as
    its 32-bit words.  An access outside a table or a pool has no meaning
    ([None]).  [printf], tracing and the thread mutex (a no-op under the GIL) are
    left out; the calls of [__del__] methods by a sweep, and the areas it gives
    back to the system, are recorded as events as well as carried out. *)
From S2P Require Import Prelude.
From S2P Require Import CMem.
Local Open Scope Z_scope.

Definition BYTES_PER_BLOCK : Z := 16.
Definition WORDS_PER_BLOCK : Z := 4.
Definition BLOCKS_PER_ATB : Z := 4.
Definition BLOCKS_PER_FTB : Z := 8.
Definition ALLOC_TABLE_GAP_BYTE : Z := 1.
Definition AT_FREE : Z := 0.
Definition AT_HEAD : Z := 1.
Definition AT_TAIL : Z := 2.
Definition AT_MARK : Z := 3.
Definition GC_COLLECT_FLAG : Z := 1.
Definition GC_LOCK_DEPTH_SHIFT : Z := 1.
Definition GC_ALLOC_FLAG_HAS_FINALISER : Z := 1.
Definition MICROPY_ALLOC_GC_STACK_SIZE : nat := 64.

(** [mp_state_mem_area_t]; [tables] holds the allocation table, the gap byte and
    the finaliser table, which follow each other in memory. *)
Record area_t := MkArea {
  area_addr : Z; gc_alloc_table_byte_len : Z; tables : list Z;
  gc_pool_start : Z; gc_pool_end : Z; pool : list Z;
  gc_last_free_atb_index : Z; gc_last_used_block : Z }.

Inductive gc_event := Finalise (obj : Z) | FreeHeap (addr : Z).

(** The part of [mp_state_mem_t] and [mp_state_thread_t] that the collector uses;
    an area is named by its place in the list. *)
Record heap_t := MkHeap {
  areas : list area_t; gc_last_free_area : nat; gc_stack_overflow : bool;
  gc_lock_depth : Z; gc_auto_collect_enabled : bool;
  gc_alloc_threshold : Z; gc_alloc_amount : Z; events : list gc_event }.

Definition Mg : Type -> Type := M heap_t.

(** ** Fields *)

Definition with_tables (t : list Z) (a : area_t) : area_t :=
  MkArea (area_addr a) (gc_alloc_table_byte_len a) t (gc_pool_start a) (gc_pool_end a) (pool a) (gc_last_free_atb_index a) (gc_last_used_block a).
Definition with_pool (p : list Z) (a : area_t) : area_t :=
  MkArea (area_addr a) (gc_alloc_table_byte_len a) (tables a) (gc_pool_start a) (gc_pool_end a) p (gc_last_free_atb_index a) (gc_last_used_block a).
Definition with_last_free (i : Z) (a : area_t) : area_t :=
  MkArea (area_addr a) (gc_alloc_table_byte_len a) (tables a) (gc_pool_start a) (gc_pool_end a) (pool a) i (gc_last_used_block a).
Definition with_last_used (b : Z) (a : area_t) : area_t :=
  MkArea (area_addr a) (gc_alloc_table_byte_len a) (tables a) (gc_pool_start a) (gc_pool_end a) (pool a) (gc_last_free_atb_index a) b.

Definition with_areas (l : list area_t) (h : heap_t) : heap_t :=
  MkHeap l (gc_last_free_area h) (gc_stack_overflow h) (gc_lock_depth h) (gc_auto_collect_enabled h) (gc_alloc_threshold h) (gc_alloc_amount h) (events h).
Definition with_last_free_area (k : nat) (h : heap_t) : heap_t :=
  MkHeap (areas h) k (gc_stack_overflow h) (gc_lock_depth h) (gc_auto_collect_enabled h) (gc_alloc_threshold h) (gc_alloc_amount h) (events h).
Definition with_overflow (b : bool) (h : heap_t) : heap_t :=
  MkHeap (areas h) (gc_last_free_area h) b (gc_lock_depth h) (gc_auto_collect_enabled h) (gc_alloc_threshold h) (gc_alloc_amount h) (events h).
Definition with_lock_depth (d : Z) (h : heap_t) : heap_t :=
  MkHeap (areas h) (gc_last_free_area h) (gc_stack_overflow h) (u16 d) (gc_auto_collect_enabled h) (gc_alloc_threshold h) (gc_alloc_amount h) (events h).
Definition with_alloc_amount (n : Z) (h : heap_t) : heap_t :=
  MkHeap (areas h) (gc_last_free_area h) (gc_stack_overflow h) (gc_lock_depth h) (gc_auto_collect_enabled h) (gc_alloc_threshold h) (u32 n) (events h).
Definition with_event (e : gc_event) (h : heap_t) : heap_t :=
  MkHeap (areas h) (gc_last_free_area h) (gc_stack_overflow h) (gc_lock_depth h) (gc_auto_collect_enabled h) (gc_alloc_threshold h) (gc_alloc_amount h) (events h ++ [e]).

(** The value of an access, if it is inside. *)
Definition inside {A} (o : option A) : Mg A := match o with Some a => mret a | None => stuck end.

Definition get_area (k : nat) : Mg area_t := h ← get; inside (areas h !! k).
Definition upd_area (k : nat) (f : area_t -> area_t) : Mg unit := modify (fun h => with_areas (alter f k (areas h)) h).

Definition entry (l : list Z) (i : Z) : option Z := if bool_decide (0 <= i) then l !! Z.to_nat i else None.

(** Byte [i] of the tables of an area, word [i] of its pool. *)
Definition get_byte (k : nat) (i : Z) : Mg Z := a ← get_area k; inside (entry (tables a) i).
Definition set_byte (k : nat) (i v : Z) : Mg unit :=
  _ ← get_byte k i; upd_area k (fun a => with_tables (<[Z.to_nat i := u8 v]> (tables a)) a).
Definition get_word (k : nat) (i : Z) : Mg Z := a ← get_area k; inside (entry (pool a) i).
Definition set_word (k : nat) (i v : Z) : Mg unit :=
  _ ← get_word k i; upd_area k (fun a => with_pool (<[Z.to_nat i := v]> (pool a)) a).

(** ** The tables *)

Definition BLOCK_SHIFT (block : Z) : Z := 2 * Z.land block (BLOCKS_PER_ATB - 1).
Definition ATB_GET_KIND (k : nat) (block : Z) : Mg Z :=
  b ← get_byte k (block / BLOCKS_PER_ATB); mret (Z.land (Z.shiftr b (BLOCK_SHIFT block)) 3).
Definition ATB_AND (k : nat) (block v : Z) : Mg unit :=
  b ← get_byte k (block / BLOCKS_PER_ATB); set_byte k (block / BLOCKS_PER_ATB) (Z.land b (Z.lnot (Z.shiftl v (BLOCK_SHIFT block)))).
Definition ATB_OR (k : nat) (block v : Z) : Mg unit :=
  b ← get_byte k (block / BLOCKS_PER_ATB); set_byte k (block / BLOCKS_PER_ATB) (Z.lor b (Z.shiftl v (BLOCK_SHIFT block))).
Definition ATB_ANY_TO_FREE (k : nat) (block : Z) : Mg unit := ATB_AND k block AT_MARK.
Definition ATB_FREE_TO_HEAD (k : nat) (block : Z) : Mg unit := ATB_OR k block AT_HEAD.
Definition ATB_FREE_TO_TAIL (k : nat) (block : Z) : Mg unit := ATB_OR k block AT_TAIL.
Definition ATB_HEAD_TO_MARK (k : nat) (block : Z) : Mg unit := ATB_OR k block AT_MARK.
Definition ATB_MARK_TO_HEAD (k : nat) (block : Z) : Mg unit := ATB_AND k block AT_TAIL.

Definition BLOCK_FROM_PTR (a : area_t) (ptr : Z) : Z := (ptr - gc_pool_start a) / BYTES_PER_BLOCK.
Definition PTR_FROM_BLOCK (a : area_t) (block : Z) : Z := block * BYTES_PER_BLOCK + gc_pool_start a.

(** Where byte [i] of the finaliser table is in the tables. *)
Definition ftb_offset (a : area_t) (i : Z) : Z := gc_alloc_table_byte_len a + ALLOC_TABLE_GAP_BYTE + i.
Definition FTB_GET (k : nat) (block : Z) : Mg Z :=
  a ← get_area k; b ← get_byte k (ftb_offset a (block / BLOCKS_PER_FTB)); mret (Z.land (Z.shiftr b (Z.land block 7)) 1).
Definition FTB_SET (k : nat) (block : Z) : Mg unit :=
  a ← get_area k; let i := ftb_offset a (block / BLOCKS_PER_FTB) in
  b ← get_byte k i; set_byte k i (Z.lor b (Z.shiftl 1 (Z.land block 7))).
Definition FTB_CLEAR (k : nat) (block : Z) : Mg unit :=
  a ← get_area k; let i := ftb_offset a (block / BLOCKS_PER_FTB) in
  b ← get_byte k i; set_byte k i (Z.land b (Z.lnot (Z.shiftl 1 (Z.land block 7)))).

Definition n_blocks_of (a : area_t) : Z := gc_alloc_table_byte_len a * BLOCKS_PER_ATB.

(** [for (area = ...; area != NULL; area = NEXT_AREA(area))] *)
Definition for_areas (body : nat -> Mg unit) : Mg unit :=
  n ← gets (fun h => length (areas h)); for_up n 0 (fun k => body (Z.to_nat k)).

(** The first area whose pool holds a block-aligned pointer. *)
Fixpoint find_area (l : list area_t) (k : nat) (ptr : Z) : option nat :=
  match l with
  | [] => None
  | a :: l => if (gc_pool_start a <=? ptr) && (ptr <? gc_pool_end a) then Some k else find_area l (S k) ptr
  end.
Definition gc_get_ptr_area (ptr : Z) : Mg (option nat) :=
  if negb (Z.land ptr (BYTES_PER_BLOCK - 1) =? 0) then mret None else gets (fun h => find_area (areas h) 0 ptr).

(** [do { n_blocks += 1; } while (ATB_GET_KIND(area, block + n_blocks) == AT_TAIL)] *)
Definition chain_length (k : nat) (block : Z) : Mg Z :=
  a ← get_area k;
  loop (Z.to_nat (n_blocks_of a) + 1) (fun n =>
    let n := n + 1 in
    kind ← ATB_GET_KIND k (block + n);
    mret (if kind =? AT_TAIL then inl n else inr n)) 0.

(** ** Locking *)

Definition gc_lock : Mg unit := modify (fun h => with_lock_depth (gc_lock_depth h + Z.shiftl 1 GC_LOCK_DEPTH_SHIFT) h).
Definition gc_unlock : Mg unit := modify (fun h => with_lock_depth (gc_lock_depth h - Z.shiftl 1 GC_LOCK_DEPTH_SHIFT) h).
Definition gc_is_locked : Mg bool := gets (fun h => negb (gc_lock_depth h =? 0)).
