(* ===== verification/GcCollect.v ===== *)
(** * Collection ([py/gc.c], [ports/esp32/gccollect.c])

    Marking with a stack of bounded size, and sweeping. *)
From S2P Require Import Prelude.
From S2P Require Import CMem.
From S2P Require Import Gc.
Local Open Scope Z_scope.

(** ** Marking *)

(** The blocks whose children have not been looked at, the top first. *)
Abbreviation gc_stack := (list (nat * Z)).

(** All blocks of all areas. *)
Definition total_blocks (h : heap_t) : Z := foldr (fun a n => n_blocks_of a + n) 0 (areas h).

(** One word of a block: mark the unmarked head it points to and push it. *)
Definition mark_child (ptr : Z) (stack : gc_stack) : Mg gc_stack :=
  ptr_area ← gc_get_ptr_area ptr;
  match ptr_area with
  | None => mret stack
  | Some k =>
      a ← get_area k;
      let ptr_block := BLOCK_FROM_PTR a ptr in
      kind ← ATB_GET_KIND k ptr_block;
      if negb (kind =? AT_HEAD) then mret stack
      else
        ATB_HEAD_TO_MARK k ptr_block;;
        if (length stack <? MICROPY_ALLOC_GC_STACK_SIZE)%nat then mret ((k, ptr_block) :: stack)
        else modify (with_overflow true);; mret stack
  end.

(** [n] words of the pool of area [k] from word [i] on. *)
Fixpoint mark_words (n : nat) (k : nat) (i : Z) (stack : gc_stack) : Mg gc_stack :=
  match n with
  | O => mret stack
  | S n => w ← get_word k i; stack ← mark_child w stack; mark_words n k (i + 1) stack
  end.

(** Every round but the first takes a block that a round before has marked. *)
Definition mark_fuel (h : heap_t) : nat := Z.to_nat (total_blocks h) + 2.

Definition mark_block (k : nat) (block : Z) (stack : gc_stack) : Mg gc_stack :=
  n ← chain_length k block;
  a ← get_area k;
  assert_ (gc_pool_start a + (block + n) * BYTES_PER_BLOCK <=? gc_pool_end a);;
  mark_words (Z.to_nat (n * WORDS_PER_BLOCK)) k (block * WORDS_PER_BLOCK) stack.

Definition gc_mark_subtree (k : nat) (block : Z) : Mg unit :=
  fuel ← gets mark_fuel;
  loop fuel (fun '(k, block, stack) =>
    stack ← mark_block k block stack;
    match stack with
    | [] => mret (inr tt)
    | (k, block) :: stack => mret (inl (k, block, stack))
    end) (k, block, []).

Fixpoint gc_collect_root (ptrs : list Z) : Mg unit :=
  match ptrs with
  | [] => mret tt
  | ptr :: ptrs =>
      area ← gc_get_ptr_area ptr;
      (match area with
       | None => mret tt
       | Some k =>
           a ← get_area k;
           let block := BLOCK_FROM_PTR a ptr in
           kind ← ATB_GET_KIND k block;
           if kind =? AT_HEAD then ATB_HEAD_TO_MARK k block;; gc_mark_subtree k block else mret tt
       end);;
      gc_collect_root ptrs
  end.

Definition gc_collect_start_common : Mg unit :=
  h ← get; assert_ (Z.land (gc_lock_depth h) GC_COLLECT_FLAG =? 0);;
  modify (fun h => with_overflow false (with_lock_depth (Z.lor (gc_lock_depth h) GC_COLLECT_FLAG) h)).

(** [root_section] holds the words of [mp_state_ctx] from [thread.dict_locals] to
    [vm.qstr_last_chunk]. *)
Definition gc_collect_start (root_section : list Z) : Mg unit :=
  gc_collect_start_common;; modify (with_alloc_amount 0);; gc_collect_root root_section.

(** Trace every marked block again. *)
Definition mark_again : Mg unit :=
  for_areas (fun k =>
    a ← get_area k;
    for_up (Z.to_nat (n_blocks_of a)) 0 (fun block =>
      kind ← ATB_GET_KIND k block; if kind =? AT_MARK then gc_mark_subtree k block else mret tt)).

Definition gc_deal_with_stack_overflow : Mg unit :=
  fuel ← gets mark_fuel;
  while fuel (fun _ : unit => gets gc_stack_overflow) (fun _ => modify (with_overflow false);; mark_again) tt.

(** ** Sweeping *)

(** The [__del__] methods: the heap after a call of the method of the object at
    block [block] of area [k] (the same heap if its type has none).  The call is
    protected: an exception ends the method, not the sweep. *)
Class Finalisers := { call_del : nat -> Z -> heap_t -> heap_t }.

Section Sweeping.
Context `{Finalisers}.

(** The bits of one byte of the finaliser table: [while (ftb) ...]. *)
Fixpoint finalise_bits (n : nat) (k : nat) (ftb block : Z) : Mg unit :=
  if ftb =? 0 then mret tt
  else
    match n with
    | O => stuck
    | S n =>
        (if negb (Z.land ftb 1 =? 0) then
           kind ← ATB_GET_KIND k block;
           if kind =? AT_HEAD then
             a ← get_area k;
             type ← get_word k (block * WORDS_PER_BLOCK);
             (if negb (type =? 0) then
                modify (with_event (Finalise (PTR_FROM_BLOCK a block)));; modify (call_del k block)
              else mret tt);;
             FTB_CLEAR k block
           else mret tt
         else mret tt);;
        finalise_bits n k (Z.shiftr ftb 1) (block + 1)
    end.

Definition gc_sweep_run_finalisers : Mg unit :=
  for_areas (fun k =>
    a ← get_area k;
    assert_ (gc_last_used_block a <=? n_blocks_of a);;
    let ftb_end := gc_last_used_block a / BLOCKS_PER_FTB in
    for_up (Z.to_nat (ftb_end + 1)) 0 (fun ftb_idx =>
      ftb ← get_byte k (ftb_offset a ftb_idx);
      finalise_bits 8 k ftb (ftb_idx * BLOCKS_PER_FTB))).

(** The blocks of one area from [block] on; the variables [free_tail] and
    [last_used_block]. *)
Fixpoint sweep_blocks (n : nat) (k : nat) (block : Z) (free_tail : bool) (last_used_block : Z) : Mg (bool * Z) :=
  match n with
  | O => mret (free_tail, last_used_block)
  | S n =>
      kind ← ATB_GET_KIND k block;
      '(free_tail, last_used_block) ←
        (if kind =? AT_HEAD then ATB_ANY_TO_FREE k block;; mret (true, last_used_block)
         else if kind =? AT_TAIL then
           if free_tail : bool then ATB_ANY_TO_FREE k block;; mret (free_tail, last_used_block)
           else mret (free_tail, block)
         else if kind =? AT_MARK then ATB_MARK_TO_HEAD k block;; mret (false, block)
         else mret (free_tail, last_used_block));
      sweep_blocks n k (block + 1) free_tail last_used_block
  end.

(** The areas from [k] on, [n] of them; an empty area but the first is given
    back and the next one takes its place in the list. *)
Fixpoint sweep_areas (n : nat) (k : nat) (free_tail : bool) : Mg unit :=
  match n with
  | O => mret tt
  | S n =>
      a ← get_area k;
      assert_ (gc_last_used_block a <=? n_blocks_of a);;
      '(free_tail, last_used_block) ← sweep_blocks (Z.to_nat (gc_last_used_block a + 1)) k 0 free_tail 0;
      upd_area k (with_last_used last_used_block);;
      if (last_used_block =? 0) && negb (k =? 0)%nat then
        modify (fun h => with_event (FreeHeap (area_addr a)) (with_areas (delete k (areas h)) h));;
        sweep_areas n k free_tail
      else sweep_areas n (S k) free_tail
  end.

Definition gc_sweep_free_blocks : Mg unit := n ← gets (fun h => length (areas h)); sweep_areas n 0 false.

Definition gc_collect_end : Mg unit :=
  gc_deal_with_stack_overflow;;
  gc_sweep_run_finalisers;;
  gc_sweep_free_blocks;;
  modify (with_last_free_area 0);;
  for_areas (fun k => upd_area k (with_last_free 0));;
  modify (fun h => with_lock_depth (Z.land (gc_lock_depth h) (Z.lnot GC_COLLECT_FLAG)) h).

Definition gc_sweep_all : Mg unit := gc_collect_start_common;; gc_collect_end.

(** The words that may hold pointers when a collection starts: the root section,
    and the registers and stacks of this and of the other threads. *)
Record roots_t := MkRoots { root_section : list Z; stacks : list (list Z) }.

Fixpoint collect_stacks (l : list (list Z)) : Mg unit :=
  match l with [] => mret tt | ptrs :: l => gc_collect_root ptrs;; collect_stacks l end.

Definition gc_collect (r : roots_t) : Mg unit :=
  gc_collect_start (root_section r);;
  collect_stacks (stacks r);;
  gc_collect_end.

End Sweeping.
