(* ===== verification/GcAlloc.v ===== *)
(** * Allocation ([py/gc.c])

    Setting up and adding areas, [gc_alloc], [gc_free], [gc_realloc] and
    [gc_nbytes].  A null pointer is 0. *)
From S2P Require Import Prelude.
From S2P Require Import CMem.
From S2P Require Import Gc.
From S2P Require Import GcCollect.
Local Open Scope Z_scope.

(** The memory the system heap of ESP-IDF has to give: the size of its largest
    free block, the address of a new block of a size, and what it contains. *)
Class SystemHeap := {
  gc_get_max_new_split : heap_t -> Z;
  MP_PLAT_ALLOC_HEAP : heap_t -> Z -> option Z;
  garbage : Z -> Z }.

Definition align_down (p : Z) : Z := Z.land p (Z.lnot (BYTES_PER_BLOCK - 1)).

Definition SIZEOF_AREA : Z := 32.

Section Alloc.
Context `{SystemHeap} `{Finalisers}.

(** ** Areas *)

(** [None] stands for the failed assertion. *)
Definition gc_setup_area (addr start end_ : Z) : option area_t :=
  let total_byte_len := u32 (end_ - start) in
  let atb_len := u32 (u32 (total_byte_len - ALLOC_TABLE_GAP_BYTE) * 8) / (8 + 8 * BLOCKS_PER_ATB / BLOCKS_PER_FTB + 8 * BLOCKS_PER_ATB * BYTES_PER_BLOCK) in
  let ftb_len := (atb_len * BLOCKS_PER_ATB + BLOCKS_PER_FTB - 1) / BLOCKS_PER_FTB in
  let gc_pool_block_len := atb_len * BLOCKS_PER_ATB in
  let pool_start := end_ - gc_pool_block_len * BYTES_PER_BLOCK in
  if start + atb_len + ALLOC_TABLE_GAP_BYTE + ftb_len <=? pool_start then
    Some (MkArea addr atb_len (repeat 0 (Z.to_nat (ftb_len + atb_len + ALLOC_TABLE_GAP_BYTE))) pool_start end_
            (map (fun i => garbage (pool_start + 4 * Z.of_nat i)) (seq 0 (Z.to_nat (gc_pool_block_len * WORDS_PER_BLOCK)))) 0 0)
  else None.

(** [addr] is where [MP_STATE_MEM(area)] is. *)
Definition gc_init (addr start end_ : Z) : option heap_t :=
  a ← gc_setup_area addr start (align_down end_);
  Some (MkHeap [a] 0 false 0 true (2 ^ 32 - 1) 0 []).

Definition gc_add (start end_ : Z) : Mg unit :=
  a ← inside (gc_setup_area start (start + SIZEOF_AREA) (align_down end_));
  modify (fun h => with_areas (areas h ++ [a]) h).

Definition gc_try_add_heap (failed_alloc : Z) : Mg bool :=
  h ← get;
  let needed := u32 (failed_alloc + Z.max 2048 (u32 (failed_alloc * 13) / 512)) in
  let avail := gc_get_max_new_split h in
  if avail <? needed then mret false
  else
    let total_blocks := u32 (total_blocks h) in
    let total_heap := u32 (total_blocks / BLOCKS_PER_ATB + total_blocks / BLOCKS_PER_FTB + total_blocks * BYTES_PER_BLOCK + ALLOC_TABLE_GAP_BYTE + SIZEOF_AREA) in
    let total_heap := align_down (u32 (total_heap + BYTES_PER_BLOCK - 1)) in
    let to_alloc := Z.min avail (Z.max total_heap needed) in
    match MP_PLAT_ALLOC_HEAP h to_alloc with
    | None => mret false
    | Some new_heap => gc_add new_heap (new_heap + to_alloc);; mret true
    end.

(** ** Allocation *)

(** The four entries of byte [i] of an allocation table: the run of free blocks
    so far, or the last block of a long enough run and its length. *)
Fixpoint scan_byte (js : list Z) (a i n_blocks n_free : Z) : Z + Z * Z :=
  match js with
  | [] => inl n_free
  | j :: js =>
      if Z.land a (Z.shiftl 3 (2 * j)) =? 0 then
        let n_free := n_free + 1 in
        if n_blocks <=? n_free then inr (i * BLOCKS_PER_ATB + j, n_free) else scan_byte js a i n_blocks n_free
      else scan_byte js a i n_blocks 0
  end.

Fixpoint scan_area (n : nat) (k : nat) (i n_blocks n_free : Z) : Mg (option (Z * Z)) :=
  match n with
  | O => mret None
  | S n =>
      a ← get_byte k i;
      match scan_byte [0; 1; 2; 3] a i n_blocks n_free with
      | inl n_free => scan_area n k (i + 1) n_blocks n_free
      | inr r => mret (Some r)
      end
  end.

(** The areas from [k] on. *)
Fixpoint scan_areas (n : nat) (k : nat) (n_blocks : Z) : Mg (option (nat * Z * Z)) :=
  match n with
  | O => mret None
  | S n =>
      a ← get_area k;
      let first := gc_last_free_atb_index a in
      let len := gc_alloc_table_byte_len a in
      r ← scan_area (Z.to_nat (len - first)) k first n_blocks 0;
      match r with
      | Some (end_block, n_free) => mret (Some (k, end_block, n_free))
      | None =>
          (if n_blocks =? 1 then upd_area k (with_last_free ((Z.max first len + 1) / BLOCKS_PER_ATB)) else mret tt);;
          scan_areas n (S k) n_blocks
      end
  end.

Definition find_run (n_blocks : Z) : Mg (option (nat * Z * Z)) :=
  h ← get; scan_areas (length (areas h) - gc_last_free_area h) (gc_last_free_area h) n_blocks.

(** From the label [found] on; the pointer. *)
Definition take_run (n_blocks : Z) (has_finaliser : bool) (k : nat) (end_block n_free : Z) : Mg Z :=
  let start_block := end_block - n_free + 1 in
  (if n_free =? 1 then
     modify (with_last_free_area k);; upd_area k (with_last_free ((end_block + 1) / BLOCKS_PER_ATB))
   else mret tt);;
  upd_area k (fun a => with_last_used (Z.max (gc_last_used_block a) end_block) a);;
  ATB_FREE_TO_HEAD k start_block;;
  for_up (Z.to_nat (end_block - start_block)) (start_block + 1) (fun bl => ATB_FREE_TO_TAIL k bl);;
  a ← get_area k;
  let ret_ptr := gc_pool_start a + start_block * BYTES_PER_BLOCK in
  modify (fun h => with_alloc_amount (gc_alloc_amount h + n_blocks) h);;
  for_up (Z.to_nat ((end_block - start_block + 1) * WORDS_PER_BLOCK)) (start_block * WORDS_PER_BLOCK) (fun i => set_word k i 0);;
  (if has_finaliser then set_word k (start_block * WORDS_PER_BLOCK) 0;; FTB_SET k start_block else mret tt);;
  mret ret_ptr.

(** The memory machine state a collection scans is given by [roots]. *)
Context (roots : roots_t).

(** [for (;;)]: at most one collection and one new area, so three rounds. *)
Definition gc_alloc (n_bytes alloc_flags : Z) : Mg Z :=
  let has_finaliser := negb (Z.land alloc_flags GC_ALLOC_FLAG_HAS_FINALISER =? 0) in
  let n_blocks := align_down (u32 (n_bytes + BYTES_PER_BLOCK - 1)) / BYTES_PER_BLOCK in
  if n_blocks =? 0 then mret 0
  else
    h ← get;
    if 0 <? gc_lock_depth h then mret 0
    else
      let collected := negb (gc_auto_collect_enabled h) in
      collected ←
        (if negb collected && (gc_alloc_threshold h <=? gc_alloc_amount h) then gc_collect roots;; mret true else mret collected);
      loop 3 (fun '(collected, added) =>
        r ← find_run n_blocks;
        match r with
        | Some (k, end_block, n_free) => p ← take_run n_blocks has_finaliser k end_block n_free; mret (inr p)
        | None =>
            if collected : bool then
              b ← (if negb added then gc_try_add_heap n_bytes else mret false);
              if b : bool then mret (inl (collected, true)) else mret (inr 0)
            else gc_collect roots;; mret (inl (true, added))
        end) (collected, false).

(** ** Freeing *)

(** [do { ATB_ANY_TO_FREE(area, block); block += 1; } while (... == AT_TAIL)] *)
Definition free_chain (k : nat) (block : Z) : Mg unit :=
  a ← get_area k;
  loop (Z.to_nat (n_blocks_of a) + 1) (fun block =>
    ATB_ANY_TO_FREE k block;;
    kind ← ATB_GET_KIND k (block + 1);
    mret (if kind =? AT_TAIL then inl (block + 1) else inr tt)) block.

(** "Reset the last free area to the start for a rescan." *)
Definition rescan_from (k : nat) (index : Z) : Mg unit :=
  h ← get;
  (if negb (gc_last_free_area h =? k)%nat then modify (with_last_free_area 0) else mret tt);;
  a ← get_area k;
  if index <? gc_last_free_atb_index a then upd_area k (with_last_free index) else mret tt.

Definition gc_free (ptr : Z) : Mg unit :=
  h ← get;
  if negb (Z.land (gc_lock_depth h) (Z.lnot GC_COLLECT_FLAG) =? 0) then mret tt
  else if ptr =? 0 then mret tt
  else
    area ← gc_get_ptr_area ptr;
    k ← inside area;
    a ← get_area k;
    let block := BLOCK_FROM_PTR a ptr in
    kind ← ATB_GET_KIND k block;
    assert_ ((kind =? AT_HEAD) || ((kind =? AT_MARK) && negb (Z.land (gc_lock_depth h) GC_COLLECT_FLAG =? 0)));;
    FTB_CLEAR k block;;
    rescan_from k (block / BLOCKS_PER_ATB);;
    free_chain k block.

Definition gc_nbytes (ptr : Z) : Mg Z :=
  area ← gc_get_ptr_area ptr;
  match area with
  | None => mret 0
  | Some k =>
      a ← get_area k;
      let block := BLOCK_FROM_PTR a ptr in
      kind ← ATB_GET_KIND k block;
      if kind =? AT_HEAD then n ← chain_length k block; mret (n * BYTES_PER_BLOCK) else mret 0
  end.

(** ** Resizing *)

(** The blocks of the chain from [bl] on and the free ones after it, up to [m]. *)
Fixpoint count_blocks (n : nat) (k : nat) (bl new_blocks n_blocks n_free : Z) : Mg (Z * Z) :=
  match n with
  | O => mret (n_blocks, n_free)
  | S n =>
      block_type ← ATB_GET_KIND k bl;
      if block_type =? AT_TAIL then count_blocks n k (bl + 1) new_blocks (n_blocks + 1) n_free
      else if block_type =? AT_FREE then
        let n_free := n_free + 1 in
        if new_blocks <=? n_blocks + n_free then mret (n_blocks, n_free)
        else count_blocks n k (bl + 1) new_blocks n_blocks n_free
      else mret (n_blocks, n_free)
  end.

(** [memcpy] of whole blocks between pools. *)
Definition copy_words (kd : nat) (d : Z) (ks : nat) (s n : Z) : Mg unit :=
  for_up (Z.to_nat n) 0 (fun i => w ← get_word ks (s + i); set_word kd (d + i) w).

Definition gc_realloc (ptr_in n_bytes : Z) (allow_move : bool) : Mg Z :=
  if ptr_in =? 0 then gc_alloc n_bytes 0
  else if n_bytes =? 0 then gc_free ptr_in;; mret 0
  else
    h ← get;
    if 0 <? gc_lock_depth h then mret 0
    else
      area ← gc_get_ptr_area ptr_in;
      k ← inside area;
      a ← get_area k;
      let block := BLOCK_FROM_PTR a ptr_in in
      kind ← ATB_GET_KIND k block;
      assert_ (kind =? AT_HEAD);;
      let new_blocks := u32 (n_bytes + BYTES_PER_BLOCK - 1) / BYTES_PER_BLOCK in
      '(n_blocks, n_free) ← count_blocks (Z.to_nat (n_blocks_of a - (block + 1))) k (block + 1) new_blocks 1 0;
      if new_blocks =? n_blocks then mret ptr_in
      else if new_blocks <? n_blocks then
        for_up (Z.to_nat (n_blocks - new_blocks)) (block + new_blocks) (fun bl => ATB_ANY_TO_FREE k bl);;
        rescan_from k ((block + new_blocks) / BLOCKS_PER_ATB);;
        mret ptr_in
      else if new_blocks <=? n_blocks + n_free then
        let end_block := block + new_blocks in
        for_up (Z.to_nat (new_blocks - n_blocks)) (block + n_blocks) (fun bl =>
          kind ← ATB_GET_KIND k bl; assert_ (kind =? AT_FREE);; ATB_FREE_TO_TAIL k bl);;
        upd_area k (fun a => with_last_used (Z.max (gc_last_used_block a) end_block) a);;
        for_up (Z.to_nat ((new_blocks - n_blocks) * WORDS_PER_BLOCK)) ((block + n_blocks) * WORDS_PER_BLOCK) (fun i => set_word k i 0);;
        mret ptr_in
      else
        ftb_state ← FTB_GET k block;
        if negb allow_move then mret 0
        else
          ptr_out ← gc_alloc n_bytes ftb_state;
          if ptr_out =? 0 then mret 0
          else
            area_out ← gc_get_ptr_area ptr_out;
            k_out ← inside area_out;
            a_out ← get_area k_out;
            area_in ← gc_get_ptr_area ptr_in;
            k_in ← inside area_in;
            copy_words k_out (BLOCK_FROM_PTR a_out ptr_out * WORDS_PER_BLOCK) k_in (block * WORDS_PER_BLOCK) (n_blocks * WORDS_PER_BLOCK);;
            gc_free ptr_in;;
            mret ptr_out.

End Alloc.
