(* ===== verification/GcFacts.v ===== *)
(** * The allocation tables of the collector

    The kind of a block as a function of the tables, what it means for an area
    and a heap to be well formed, and the rules of the primitive operations. *)
From Stdlib Require Import ZifyBool.
From S2P Require Import Prelude.
From S2P Require Import CMem.
From S2P Require Import BitFields.
From S2P Require Import Gc.
From S2P Require Import GcCollect.
Local Open Scope Z_scope.

(** ** Kinds *)

Definition kind_of (a : area_t) (b : Z) : Z := field (BLOCK_SHIFT b) 2 (nth (Z.to_nat (b / 4)) (tables a) 0).
Definition set_kind (b x : Z) (a : area_t) : area_t :=
  with_tables (<[Z.to_nat (b / 4) := set_field (BLOCK_SHIFT b) 2 x (nth (Z.to_nat (b / 4)) (tables a) 0)]> (tables a)) a.

Lemma BLOCK_SHIFT_eq b : BLOCK_SHIFT b = 2 * (b `mod` 4).
Proof. unfold BLOCK_SHIFT. by rewrite (land_pow2_mask 2). Qed.

Lemma BLOCK_SHIFT_range b : 0 <= BLOCK_SHIFT b /\ BLOCK_SHIFT b + 2 <= 8.
Proof. rewrite BLOCK_SHIFT_eq. pose proof (Z.mod_pos_bound b 4 ltac:(done)). lia. Qed.

(** What the macros compute on one byte. *)
Lemma or_form j b v : 0 <= j < 4 -> is_byte b -> 0 <= v < 4 ->
  u8 (Z.lor b (Z.shiftl v (2 * j))) = set_field (2 * j) 2 (Z.lor (field (2 * j) 2 b) v) b.
Proof.
  intros Hj Hb Hv. apply Z.eqb_eq.
  apply (byte_table (fun b => u8 (Z.lor b (Z.shiftl v (2 * j))) =? set_field (2 * j) 2 (Z.lor (field (2 * j) 2 b) v) b)); [|done].
  assert (j = 0 \/ j = 1 \/ j = 2 \/ j = 3) as Hjs by lia. assert (v = 0 \/ v = 1 \/ v = 2 \/ v = 3) as Hvs by lia.
  by destruct Hjs as [-> | [-> | [-> | ->]]], Hvs as [-> | [-> | [-> | ->]]]; vm_compute.
Qed.

Lemma and_form j b v : 0 <= j < 4 -> is_byte b -> 0 <= v < 4 ->
  u8 (Z.land b (Z.lnot (Z.shiftl v (2 * j)))) = set_field (2 * j) 2 (Z.ldiff (field (2 * j) 2 b) v) b.
Proof.
  intros Hj Hb Hv. apply Z.eqb_eq.
  apply (byte_table (fun b => u8 (Z.land b (Z.lnot (Z.shiftl v (2 * j)))) =? set_field (2 * j) 2 (Z.ldiff (field (2 * j) 2 b) v) b)); [|done].
  assert (j = 0 \/ j = 1 \/ j = 2 \/ j = 3) as Hjs by lia. assert (v = 0 \/ v = 1 \/ v = 2 \/ v = 3) as Hvs by lia.
  by destruct Hjs as [-> | [-> | [-> | ->]]], Hvs as [-> | [-> | [-> | ->]]]; vm_compute.
Qed.

Lemma kind_of_range a b : 0 <= kind_of a b < 4.
Proof. unfold kind_of, field. rewrite Z.land_ones by done. by apply Z.mod_pos_bound. Qed.

Lemma kind_cases a b : kind_of a b = AT_FREE \/ kind_of a b = AT_HEAD \/ kind_of a b = AT_TAIL \/ kind_of a b = AT_MARK.
Proof. pose proof (kind_of_range a b). unfold AT_FREE, AT_HEAD, AT_TAIL, AT_MARK. lia. Qed.

(** ** Well-formed areas *)

Definition ftb_len (a : area_t) : Z := (n_blocks_of a + 7) / 8.

(** The layout of an area. *)
Record area_ok (a : area_t) : Prop := {
  ao_len : 0 <= gc_alloc_table_byte_len a;
  ao_tables : Z.of_nat (length (tables a)) = gc_alloc_table_byte_len a + 1 + ftb_len a;
  ao_bytes : Forall is_byte (tables a);
  ao_gap : nth (Z.to_nat (gc_alloc_table_byte_len a)) (tables a) 0 = 0;
  ao_start : 0 < gc_pool_start a /\ gc_pool_start a `mod` 16 = 0;
  ao_end : gc_pool_end a = gc_pool_start a + 16 * n_blocks_of a /\ gc_pool_end a <= 2 ^ 32;
  ao_pool : Z.of_nat (length (pool a)) = 4 * n_blocks_of a;
  ao_last_free : 0 <= gc_last_free_atb_index a }.

(** The kinds of the blocks of an area: a tail follows a block in use, and what
    lies behind the last used block is free. *)
Record kinds_ok (a : area_t) : Prop := {
  ko_last_used : 0 <= gc_last_used_block a <= n_blocks_of a;
  ko_free b : gc_last_used_block a < b < n_blocks_of a -> kind_of a b = AT_FREE;
  ko_tail b : 0 <= b < n_blocks_of a -> kind_of a b = AT_TAIL -> 0 < b /\ kind_of a (b - 1) <> AT_FREE }.

Lemma n_blocks_nonneg a : area_ok a -> 0 <= n_blocks_of a.
Proof. intros Ha. unfold n_blocks_of, BLOCKS_PER_ATB. pose proof (ao_len _ Ha). lia. Qed.

Lemma atb_index a b : area_ok a -> 0 <= b <= n_blocks_of a -> 0 <= b / 4 <= gc_alloc_table_byte_len a.
Proof.
  unfold n_blocks_of, BLOCKS_PER_ATB. intros Ha Hb. split; [apply Z.div_pos; lia|]. apply Z.div_le_upper_bound; lia.
Qed.

Lemma ftb_len_nonneg a : area_ok a -> 0 <= ftb_len a.
Proof. intros Ha. pose proof (n_blocks_nonneg _ Ha). apply Z.div_pos; lia. Qed.

Lemma atb_byte a b : area_ok a -> 0 <= b <= n_blocks_of a ->
  tables a !! Z.to_nat (b / 4) = Some (nth (Z.to_nat (b / 4)) (tables a) 0) /\ is_byte (nth (Z.to_nat (b / 4)) (tables a) 0).
Proof.
  intros Ha Hb. pose proof (atb_index _ _ Ha Hb). pose proof (ao_tables _ Ha). pose proof (ftb_len_nonneg _ Ha).
  destruct (lookup_lt_is_Some_2 (tables a) (Z.to_nat (b / 4)) ltac:(lia)) as [v Hv].
  rewrite (nth_lookup_Some _ _ _ _ Hv). split; [done|]. pose proof (ao_bytes _ Ha) as Hby. rewrite Forall_lookup in Hby. eauto.
Qed.

(** The gap byte: the block after the last one counts as free. *)
Lemma kind_past a : area_ok a -> kind_of a (n_blocks_of a) = AT_FREE.
Proof.
  intros Ha. unfold kind_of, n_blocks_of, BLOCKS_PER_ATB. rewrite Z.div_mul by done. rewrite (ao_gap _ Ha), BLOCK_SHIFT_eq.
  rewrite Z.mod_mul by done. done.
Qed.

Lemma kind_set_kind a b x b' : area_ok a -> 0 <= b < n_blocks_of a -> 0 <= b' ->
  kind_of (set_kind b x a) b' = if b' =? b then x `mod` 4 else kind_of a b'.
Proof.
  intros Ha Hb Hb'. unfold kind_of at 1. unfold set_kind. cbn [tables with_tables]. rewrite nth_lookup.
  pose proof (BLOCK_SHIFT_range b). pose proof (BLOCK_SHIFT_range b').
  destruct (atb_byte a b Ha ltac:(lia)) as [Hl _]. pose proof (lookup_lt_Some _ _ _ Hl).
  assert (0 <= b / 4 /\ 0 <= b' / 4) as [Hd Hd'] by (split; apply Z.div_pos; lia).
  destruct (Z.eq_dec (b' / 4) (b / 4)) as [He|Hne].
  - rewrite He, list_lookup_insert_eq by done. cbn [default from_option id].
    destruct (Z.eqb_spec b' b) as [->|Hbb].
    + rewrite field_set_same by lia. change (Z.ones 2) with (2 ^ 2 - 1). by rewrite land_pow2_mask.
    + rewrite field_set_other; [unfold kind_of; by rewrite He|lia|lia|done|].
      rewrite !BLOCK_SHIFT_eq. pose proof (Z.div_mod b 4 ltac:(done)). pose proof (Z.div_mod b' 4 ltac:(done)). lia.
  - rewrite list_lookup_insert_ne by lia. destruct (Z.eqb_spec b' b) as [->|]; [done|]. unfold kind_of. by rewrite nth_lookup.
Qed.

Lemma set_kind_tables a b x i : nth i (tables (set_kind b x a)) 0 =
  if decide (i = Z.to_nat (b / 4) /\ (i < length (tables a))%nat) then set_field (BLOCK_SHIFT b) 2 x (nth i (tables a) 0) else nth i (tables a) 0.
Proof.
  unfold set_kind. cbn [tables with_tables]. rewrite !nth_lookup. case_decide as Hd.
  - destruct Hd as [-> Hl]. rewrite list_lookup_insert_eq by done. done.
  - destruct (decide (i = Z.to_nat (b / 4))) as [->|Hne].
    + rewrite list_insert_ge; [done|]. lia.
    + by rewrite list_lookup_insert_ne.
Qed.

Lemma set_kind_ok a b x : area_ok a -> 0 <= b < n_blocks_of a -> area_ok (set_kind b x a).
Proof.
  intros Ha Hb. pose proof (BLOCK_SHIFT_range b). destruct (atb_byte a b Ha ltac:(lia)) as [Hl Hby].
  destruct Ha as [H1 H2 H3 H4 H5 H6 H7 H8]. split; try done.
  - cbn. by rewrite length_insert.
  - cbn. apply Forall_insert; [done|]. apply set_field_byte; [lia|done|lia|done].
  - change (gc_alloc_table_byte_len (set_kind b x a)) with (gc_alloc_table_byte_len a). rewrite set_kind_tables.
    rewrite decide_False; [done|]. intros [He _]. unfold n_blocks_of, BLOCKS_PER_ATB in Hb.
    assert (b / 4 < gc_alloc_table_byte_len a) by (apply Z.div_lt_upper_bound; lia). assert (0 <= b / 4) by (apply Z.div_pos; lia). lia.
Qed.

(** ** Rules of the primitive operations *)

Definition put_area (k : nat) (a : area_t) (h : heap_t) : heap_t := with_areas (<[k := a]> (areas h)) h.

Lemma alter_at {A} (f : A -> A) (k : nat) (l : list A) a : l !! k = Some a -> alter f k l = <[k := f a]> l.
Proof.
  intros Hl. apply list_eq. intros i. destruct (decide (i = k)) as [->|Hne].
  - rewrite list_lookup_alter_eq, Hl, list_lookup_insert_eq; [done|]. by eapply lookup_lt_Some.
  - by rewrite list_lookup_alter_ne, list_lookup_insert_ne.
Qed.

Section Rules.
Context (h : heap_t) (k : nat) (a : area_t) (Hk : areas h !! k = Some a).

Lemma wp_inside {A} (o : option A) v s (Q : A -> heap_t -> Prop) : o = Some v -> Q v s -> wp (inside o) s Q.
Proof. by intros ->. Qed.

Lemma wp_get_area (Q : area_t -> heap_t -> Prop) : Q a h -> wp (get_area k) h Q.
Proof. intros HQ. unfold get_area. apply wp_bind. unfold wp at 1, get. by apply (wp_inside _ a). Qed.

Lemma wp_upd_area f (Q : unit -> heap_t -> Prop) : Q tt (put_area k (f a) h) -> wp (upd_area k f) h Q.
Proof. intros HQ. apply wp_modify. unfold put_area in HQ. by rewrite (alter_at _ _ _ a). Qed.

Lemma wp_get_byte i v (Q : Z -> heap_t -> Prop) : 0 <= i -> tables a !! Z.to_nat i = Some v -> Q v h -> wp (get_byte k i) h Q.
Proof.
  intros Hi Hv HQ. unfold get_byte. apply wp_bind, wp_get_area, (wp_inside _ v); [|done].
  unfold entry. by rewrite bool_decide_true.
Qed.

Lemma wp_set_byte i w v (Q : unit -> heap_t -> Prop) : 0 <= i -> tables a !! Z.to_nat i = Some w ->
  Q tt (put_area k (with_tables (<[Z.to_nat i := u8 v]> (tables a)) a) h) -> wp (set_byte k i v) h Q.
Proof. intros Hi Hw HQ. unfold set_byte. apply wp_bind, (wp_get_byte i w); [done|done|]. by apply wp_upd_area. Qed.

Lemma wp_get_word i v (Q : Z -> heap_t -> Prop) : 0 <= i -> pool a !! Z.to_nat i = Some v -> Q v h -> wp (get_word k i) h Q.
Proof.
  intros Hi Hv HQ. unfold get_word. apply wp_bind, wp_get_area, (wp_inside _ v); [|done].
  unfold entry. by rewrite bool_decide_true.
Qed.

Lemma wp_set_word i v (Q : unit -> heap_t -> Prop) : 0 <= i < Z.of_nat (length (pool a)) ->
  Q tt (put_area k (with_pool (<[Z.to_nat i := v]> (pool a)) a) h) -> wp (set_word k i v) h Q.
Proof.
  intros Hi HQ. destruct (lookup_lt_is_Some_2 (pool a) (Z.to_nat i) ltac:(lia)) as [w Hw].
  unfold set_word. apply wp_bind, (wp_get_word i w); [lia|done|]. by apply wp_upd_area.
Qed.

Context (Ha : area_ok a).

Lemma wp_kind b (Q : Z -> heap_t -> Prop) : 0 <= b <= n_blocks_of a -> Q (kind_of a b) h -> wp (ATB_GET_KIND k b) h Q.
Proof.
  intros Hb HQ. destruct (atb_byte a b Ha Hb) as [Hl _]. pose proof (atb_index a b Ha Hb).
  unfold ATB_GET_KIND, BLOCKS_PER_ATB. apply wp_bind, (wp_get_byte _ (nth (Z.to_nat (b / 4)) (tables a) 0)); [lia|done|]. by apply wp_ret.
Qed.

Lemma wp_ATB_OR b v (Q : unit -> heap_t -> Prop) : 0 <= b < n_blocks_of a -> 0 <= v < 4 ->
  Q tt (put_area k (set_kind b (Z.lor (kind_of a b) v) a) h) -> wp (ATB_OR k b v) h Q.
Proof.
  intros Hb Hv HQ. destruct (atb_byte a b Ha ltac:(lia)) as [Hl Hby]. pose proof (atb_index a b Ha ltac:(lia)).
  unfold ATB_OR, BLOCKS_PER_ATB. apply wp_bind, (wp_get_byte _ (nth (Z.to_nat (b / 4)) (tables a) 0)); [lia|done|].
  apply (wp_set_byte _ (nth (Z.to_nat (b / 4)) (tables a) 0)); [lia|done|]. rewrite BLOCK_SHIFT_eq.
  rewrite or_form by (done || by apply Z.mod_pos_bound). rewrite <-BLOCK_SHIFT_eq. exact HQ.
Qed.

Lemma wp_ATB_AND b v (Q : unit -> heap_t -> Prop) : 0 <= b < n_blocks_of a -> 0 <= v < 4 ->
  Q tt (put_area k (set_kind b (Z.ldiff (kind_of a b) v) a) h) -> wp (ATB_AND k b v) h Q.
Proof.
  intros Hb Hv HQ. destruct (atb_byte a b Ha ltac:(lia)) as [Hl Hby]. pose proof (atb_index a b Ha ltac:(lia)).
  unfold ATB_AND, BLOCKS_PER_ATB. apply wp_bind, (wp_get_byte _ (nth (Z.to_nat (b / 4)) (tables a) 0)); [lia|done|].
  apply (wp_set_byte _ (nth (Z.to_nat (b / 4)) (tables a) 0)); [lia|done|]. rewrite BLOCK_SHIFT_eq.
  rewrite and_form by (done || by apply Z.mod_pos_bound). rewrite <-BLOCK_SHIFT_eq. exact HQ.
Qed.

Lemma wp_ANY_TO_FREE b (Q : unit -> heap_t -> Prop) : 0 <= b < n_blocks_of a ->
  Q tt (put_area k (set_kind b AT_FREE a) h) -> wp (ATB_ANY_TO_FREE k b) h Q.
Proof.
  intros Hb HQ. apply wp_ATB_AND; [done|done|].
  assert (Z.ldiff (kind_of a b) AT_MARK = AT_FREE) as ->; [|done]. by destruct (kind_cases a b) as [-> | [-> | [-> | ->]]].
Qed.

Lemma wp_FREE_TO_HEAD b (Q : unit -> heap_t -> Prop) : 0 <= b < n_blocks_of a -> kind_of a b = AT_FREE ->
  Q tt (put_area k (set_kind b AT_HEAD a) h) -> wp (ATB_FREE_TO_HEAD k b) h Q.
Proof. intros Hb Hf HQ. apply wp_ATB_OR; [done|done|]. by rewrite Hf. Qed.

Lemma wp_FREE_TO_TAIL b (Q : unit -> heap_t -> Prop) : 0 <= b < n_blocks_of a -> kind_of a b = AT_FREE ->
  Q tt (put_area k (set_kind b AT_TAIL a) h) -> wp (ATB_FREE_TO_TAIL k b) h Q.
Proof. intros Hb Hf HQ. apply wp_ATB_OR; [done|done|]. by rewrite Hf. Qed.

Lemma wp_HEAD_TO_MARK b (Q : unit -> heap_t -> Prop) : 0 <= b < n_blocks_of a -> kind_of a b = AT_HEAD ->
  Q tt (put_area k (set_kind b AT_MARK a) h) -> wp (ATB_HEAD_TO_MARK k b) h Q.
Proof. intros Hb Hf HQ. apply wp_ATB_OR; [done|done|]. by rewrite Hf. Qed.

Lemma wp_MARK_TO_HEAD b (Q : unit -> heap_t -> Prop) : 0 <= b < n_blocks_of a -> kind_of a b = AT_MARK ->
  Q tt (put_area k (set_kind b AT_HEAD a) h) -> wp (ATB_MARK_TO_HEAD k b) h Q.
Proof. intros Hb Hf HQ. apply wp_ATB_AND; [done|done|]. by rewrite Hf. Qed.

(** ** Chains *)

(** The chain of a head at [b] has [n] blocks. *)
Definition chain (a : area_t) (b n : Z) : Prop :=
  1 <= n /\ b + n <= n_blocks_of a /\ (forall i, 0 < i < n -> kind_of a (b + i) = AT_TAIL) /\ kind_of a (b + n) <> AT_TAIL.

Lemma wp_chain_length b (Q : Z -> heap_t -> Prop) : 0 <= b < n_blocks_of a ->
  (forall n, chain a b n -> Q n h) -> wp (chain_length k b) h Q.
Proof.
  intros Hb HQ. pose proof (n_blocks_nonneg _ Ha). unfold chain_length. apply wp_bind, wp_get_area.
  apply (wp_loop (fun n s => s = h /\ 0 <= n /\ b + n < n_blocks_of a /\ forall i, 0 < i <= n -> kind_of a (b + i) = AT_TAIL)
           (fun n => Z.to_nat (n_blocks_of a - b - n))).
  - intros n s (-> & Hn & Hbn & Ht). apply wp_bind, wp_kind; [lia|]. apply wp_ret.
    destruct (Z.eqb_spec (kind_of a (b + (n + 1))) AT_TAIL) as [Hk2|Hk2].
    + assert (b + (n + 1) <> n_blocks_of a) as Hne. { intros He. rewrite He, kind_past in Hk2 by done. done. }
      split; [|lia]. split; [done|]. split; [lia|]. split; [lia|]. intros i Hi. destruct (Z.eq_dec i (n + 1)) as [->|]; [done|]. apply Ht. lia.
    + apply HQ. split; [lia|]. split; [lia|]. split; [|done]. intros i Hi. apply Ht. lia.
  - split; [done|]. split; [lia|]. split; [lia|]. lia.
  - lia.
Qed.
End Rules.

Lemma chain_unique a b n m : chain a b n -> chain a b m -> n = m.
Proof.
  intros (Hn & _ & Ht & He) (Hm & _ & Ht' & He'). destruct (Z.lt_trichotomy n m) as [Hlt|[Heq|Hlt]]; [|done|].
  - exfalso. apply He, Ht'. lia.
  - exfalso. apply He', Ht. lia.
Qed.
