(* ===== verification/GcMark.v ===== *)
(** * Marking reaches exactly the reachable blocks

    The heap as a graph: a node is a head (marked or not), an edge is a word of
    its chain that holds the address of a head.  Marking with the bounded stack
    keeps the graph, ends, and marks what can be reached, whatever the stack
    size, as long as overflows are dealt with by tracing again. *)
From Stdlib Require Import ZifyBool.
From S2P Require Import Prelude.
From S2P Require Import CMem.
From S2P Require Import BitFields.
From S2P Require Import Gc.
From S2P Require Import GcCollect.
From S2P Require Import GcFacts.
Local Open Scope Z_scope.

(** ** The graph *)

Abbreviation node := (nat * Z)%type.

Definition heap_areas_ok (h : heap_t) : Prop := Forall area_ok (areas h).

Definition in_heap (h : heap_t) (n : node) : Prop := exists a, areas h !! n.1 = Some a /\ 0 <= n.2 < n_blocks_of a.
Definition kind (h : heap_t) (n : node) : Z := match areas h !! n.1 with Some a => kind_of a n.2 | None => AT_FREE end.
Definition marked (h : heap_t) (n : node) : Prop := in_heap h n /\ kind h n = AT_MARK.
Definition is_head (h : heap_t) (n : node) : Prop := kind h n = AT_HEAD \/ kind h n = AT_MARK.

(** The block a word points to. *)
Definition resolve (h : heap_t) (w : Z) : option node :=
  if Z.land w (BYTES_PER_BLOCK - 1) =? 0 then
    k ← find_area (areas h) 0 w; a ← areas h !! k; Some (k, BLOCK_FROM_PTR a w)
  else None.

Definition word_target (h : heap_t) (k : nat) (j : Z) (m : node) : Prop :=
  exists a w, areas h !! k = Some a /\ 0 <= j /\ pool a !! Z.to_nat j = Some w /\ resolve h w = Some m /\ is_head h m.

Definition points (h : heap_t) (n m : node) : Prop :=
  exists a len j, areas h !! n.1 = Some a /\ chain a n.2 len /\ 4 * n.2 <= j < 4 * (n.2 + len) /\ word_target h n.1 j m.

Definition root_target (h : heap_t) (ws : list Z) (m : node) : Prop := exists w, w ∈ ws /\ resolve h w = Some m /\ is_head h m.

(** The nodes that can be reached from a set of nodes. *)
Inductive reach (h : heap_t) (R : node -> Prop) : node -> Prop :=
  | reach_root n : R n -> reach h R n
  | reach_step n m : reach h R n -> points h n m -> reach h R m.

Lemma find_area_spec l k0 w k : find_area l k0 w = Some k ->
  exists a, (k0 <= k)%nat /\ l !! (k - k0)%nat = Some a /\ gc_pool_start a <= w < gc_pool_end a.
Proof.
  revert k0. induction l as [|a l IH]; intros k0; cbn [find_area]; [done|].
  destruct ((gc_pool_start a <=? w) && (w <? gc_pool_end a)) eqn:E.
  - intros [= <-]. exists a. rewrite Nat.sub_diag. split; [done|]. split; [done|]. lia.
  - intros H. apply IH in H as (a' & Hk & Hl & Hw). exists a'. split; [lia|]. split; [|done].
    replace (k - k0)%nat with (S (k - S k0)) by lia. done.
Qed.

Lemma resolve_in_heap h w n : heap_areas_ok h -> resolve h w = Some n -> in_heap h n.
Proof.
  intros Hok. unfold resolve. destruct (_ =? 0); [|done]. destruct (find_area _ _ _) as [k|] eqn:Hf; [|done]. cbn.
  apply find_area_spec in Hf as (a & _ & Hl & Hw). rewrite Nat.sub_0_r in Hl. rewrite Hl. cbn. intros [= <-].
  exists a. split; [done|]. cbn. pose proof (proj1 (Forall_lookup _ _) Hok _ _ Hl) as Ha.
  destruct (ao_end _ Ha) as [He _]. unfold BLOCK_FROM_PTR, BYTES_PER_BLOCK. split; [apply Z.div_pos; lia|].
  apply Z.div_lt_upper_bound; lia.
Qed.

(** ** What marking changes *)

Definition same_area (a a' : area_t) : Prop :=
  a' = with_tables (tables a') a /\ area_ok a' /\
  (forall i, (Z.to_nat (gc_alloc_table_byte_len a) <= i)%nat -> nth i (tables a') 0 = nth i (tables a) 0) /\
  forall b, 0 <= b -> kind_of a' b = kind_of a b \/ kind_of a b = AT_HEAD /\ kind_of a' b = AT_MARK.

(** Only heads have become marks (and the overflow flag may have changed). *)
Record remark (h h' : heap_t) : Prop := {
  rm_areas : Forall2 same_area (areas h) (areas h');
  rm_rest : with_overflow false (with_areas [] h') = with_overflow false (with_areas [] h) }.

Lemma same_area_refl a : area_ok a -> same_area a a.
Proof. intros Ha. split; [by destruct a|]. split; [done|]. split; [done|]. by left. Qed.

Lemma same_area_trans a b c : same_area a b -> same_area b c -> same_area a c.
Proof.
  intros (Hb & _ & Hi & Hk) (Hc & Hok & Hi' & Hk'). rewrite Hb in Hi'. split; [by rewrite Hc, Hb|]. split; [done|]. split.
  - intros i Hge. rewrite Hi', <-Hi by done. by rewrite Hb.
  - intros x Hx. destruct (Hk' x Hx) as [-> | [H1 H2]]; [by apply Hk|]. right. split; [|done].
    destruct (Hk x Hx) as [Hke | [_ Hm]]; [congruence|]. rewrite Hm in H1. done.
Qed.

Lemma remark_refl h : heap_areas_ok h -> remark h h.
Proof. intros Hok. split; [|done]. apply Forall2_same_length_lookup_2; [done|]. intros i x y Hx Hy. simplify_eq.
  apply same_area_refl. by eapply (proj1 (Forall_lookup _ _) Hok). Qed.

Lemma remark_trans h1 h2 h3 : remark h1 h2 -> remark h2 h3 -> remark h1 h3.
Proof.
  intros [H1 E1] [H2 E2]. split; [|congruence].
  eapply Forall2_trans; [|exact H1|exact H2]. intros ? ? ?. apply same_area_trans.
Qed.

Lemma remark_ok h h' : remark h h' -> heap_areas_ok h'.
Proof.
  intros [H _]. apply Forall_lookup. intros i a' Ha'. destruct (Forall2_lookup_r _ _ _ _ _ H Ha') as (a & _ & (_ & Hok & _)). done.
Qed.

Section Remark.
Context (h h' : heap_t) (Hr : remark h h').

Lemma remark_area k a : areas h !! k = Some a -> exists a', areas h' !! k = Some a' /\ same_area a a'.
Proof. intros Ha. destruct Hr as [H _]. destruct (Forall2_lookup_l _ _ _ _ _ H Ha) as (a' & ? & ?). eauto. Qed.

Lemma remark_area_inv k a' : areas h' !! k = Some a' -> exists a, areas h !! k = Some a /\ same_area a a'.
Proof. intros Ha. destruct Hr as [H _]. destruct (Forall2_lookup_r _ _ _ _ _ H Ha) as (a & ? & ?). eauto. Qed.

Lemma same_fields a a' : same_area a a' -> n_blocks_of a' = n_blocks_of a /\ pool a' = pool a /\ gc_pool_start a' = gc_pool_start a /\
  gc_pool_end a' = gc_pool_end a.
Proof. intros (-> & _). done. Qed.

Lemma remark_find l l' k w : Forall2 same_area l l' -> find_area l' k w = find_area l k w.
Proof.
  intros Hl. revert k. induction Hl as [|a a' l l' Ha Hl IH]; intros k; cbn [find_area]; [done|].
  destruct (same_fields _ _ Ha) as (_ & _ & -> & ->). by rewrite IH.
Qed.

Lemma remark_resolve w : resolve h' w = resolve h w.
Proof.
  unfold resolve. rewrite (remark_find _ _ _ _ (rm_areas _ _ Hr)). destruct (_ =? 0); [|done]. destruct (find_area _ _ _) as [k|]; [|done]. cbn.
  destruct (areas h !! k) as [a|] eqn:Ha.
  - destruct (remark_area _ _ Ha) as (a' & -> & Hs). cbn. destruct (same_fields _ _ Hs) as (_ & _ & Hst & _). unfold BLOCK_FROM_PTR. by rewrite Hst.
  - destruct (areas h' !! k) as [a'|] eqn:Ha'; [|done]. destruct (remark_area_inv _ _ Ha') as (a & Hc & _). congruence.
Qed.

Lemma remark_in_heap n : in_heap h' n <-> in_heap h n.
Proof.
  split; intros (a & Ha & Hb).
  - destruct (remark_area_inv _ _ Ha) as (a0 & Ha0 & Hs). destruct (same_fields _ _ Hs) as (Hn & _). exists a0. by rewrite <-Hn.
  - destruct (remark_area _ _ Ha) as (a0 & Ha0 & Hs). destruct (same_fields _ _ Hs) as (Hn & _). exists a0. by rewrite Hn.
Qed.

Lemma remark_kind n : in_heap h n -> kind h' n = kind h n \/ kind h n = AT_HEAD /\ kind h' n = AT_MARK.
Proof.
  intros (a & Ha & Hb). destruct (remark_area _ _ Ha) as (a' & Ha' & (_ & _ & _ & Hk)). unfold kind. rewrite Ha, Ha'. apply Hk. lia.
Qed.

Lemma remark_is_head n : in_heap h n -> is_head h' n <-> is_head h n.
Proof. intros Hn. unfold is_head. destruct (remark_kind n Hn) as [-> | [-> ->]]; tauto. Qed.

Lemma remark_marked n : marked h n -> marked h' n.
Proof.
  intros [Hn Hk]. split; [by apply remark_in_heap|]. destruct (remark_kind n Hn) as [-> | [Hh _]]; [done|]. rewrite Hh in Hk. done.
Qed.

Lemma remark_chain a a' b n : same_area a a' -> 0 <= b -> chain a' b n <-> chain a b n.
Proof.
  intros Hs Hb. destruct (same_fields _ _ Hs) as (Hn & _). destruct Hs as (_ & _ & _ & Hk).
  assert (forall x, 0 <= x -> kind_of a' x = AT_TAIL <-> kind_of a x = AT_TAIL) as Ht.
  { intros x Hx. destruct (Hk x Hx) as [-> | [-> ->]]; [done|]. split; intros H; done. }
  unfold chain. rewrite Hn. split; intros (H1 & H2 & H3 & H4); (split; [done|]); (split; [done|]); split.
  - intros i Hi. apply Ht; [lia|by apply H3].
  - intros He. apply H4, Ht; [lia|done].
  - intros i Hi. apply Ht; [lia|by apply H3].
  - intros He. apply H4, Ht; [lia|done].
Qed.

Lemma remark_word_target (Hok : heap_areas_ok h) k j m : word_target h' k j m <-> word_target h k j m.
Proof.
  split; intros (a & w & Ha & Hj & Hw & Hres & Hh).
  - destruct (remark_area_inv _ _ Ha) as (a0 & Ha0 & Hs). destruct (same_fields _ _ Hs) as (_ & Hp & _). rewrite remark_resolve in Hres.
    exists a0, w. rewrite <-Hp. repeat (split; [done|]). by apply remark_is_head in Hh; [|by eapply resolve_in_heap].
  - destruct (remark_area _ _ Ha) as (a0 & Ha0 & Hs). destruct (same_fields _ _ Hs) as (_ & Hp & _).
    exists a0, w. rewrite Hp, remark_resolve. repeat (split; [done|]). by apply remark_is_head; [by eapply resolve_in_heap|].
Qed.

Lemma remark_points (Hok : heap_areas_ok h) n m : 0 <= n.2 -> points h' n m <-> points h n m.
Proof.
  intros Hn. split; intros (a & len & j & Ha & Hc & Hj & Hw).
  - destruct (remark_area_inv _ _ Ha) as (a0 & Ha0 & Hs). exists a0, len, j. rewrite remark_word_target in Hw by done.
    rewrite (remark_chain _ _ _ _ Hs) in Hc by done. done.
  - destruct (remark_area _ _ Ha) as (a0 & Ha0 & Hs). exists a0, len, j. rewrite remark_word_target by done.
    rewrite (remark_chain _ _ _ _ Hs) by done. done.
Qed.

Lemma remark_reach (Hok : heap_areas_ok h) (R : node -> Prop) n : (forall m, R m -> in_heap h m) -> reach h R n -> in_heap h n /\ reach h' R n.
Proof.
  intros HR. induction 1 as [n Hn|n m Hn [Hin IH] Hp].
  - split; [by apply HR|by apply reach_root].
  - split; [destruct Hp as (a & len & j & _ & _ & _ & (a1 & w & _ & _ & _ & Hres & _)); by eapply resolve_in_heap|].
    eapply reach_step; [done|]. apply remark_points; [done|destruct Hin as (? & ? & ?); lia|done].
Qed.
End Remark.

(** ** Counting the unmarked heads *)

Definition heads_of (a : area_t) : nat :=
  length (filter (fun b => kind_of a (Z.of_nat b) = AT_HEAD) (seq 0 (Z.to_nat (n_blocks_of a)))).
Definition heads (h : heap_t) : nat := sum_list (heads_of <$> areas h).

Lemma filter_same {A} (P R : A -> Prop) `{!forall x, Decision (P x), !forall x, Decision (R x)} (l : list A) :
  (forall x, x ∈ l -> P x <-> R x) -> filter P l = filter R l.
Proof.
  induction l as [|x l IH]; intros Hi; [done|]. rewrite !filter_cons, (IH (fun y Hy => Hi y (list_elem_of_further _ _ _ Hy))).
  destruct (Hi x (list_elem_of_here _ _)). repeat case_decide; tauto || done.
Qed.

Lemma count_change (P R : nat -> Prop) `{!forall x, Decision (P x), !forall x, Decision (R x)} N b : (b < N)%nat ->
  P b -> ~ R b -> (forall x, x <> b -> P x <-> R x) -> S (length (filter R (seq 0 N))) = length (filter P (seq 0 N)).
Proof.
  intros Hb HP HR Hother. replace N with (b + S (N - S b))%nat by lia. rewrite seq_app. cbn [seq Nat.add].
  rewrite !filter_app, !filter_cons, !length_app. rewrite (decide_True (P := P b)) by done. rewrite (decide_False (P := R b)) by done. cbn [length].
  assert (filter R (seq 0 b) = filter P (seq 0 b)) as ->.
  { apply filter_same. intros x Hx. apply elem_of_seq in Hx. rewrite Hother by lia. tauto. }
  assert (filter R (seq (S b) (N - S b)) = filter P (seq (S b) (N - S b))) as ->; [|lia].
  apply filter_same. intros x Hx. apply elem_of_seq in Hx. rewrite Hother by lia. tauto.
Qed.

Lemma heads_of_mark a b : area_ok a -> 0 <= b < n_blocks_of a -> kind_of a b = AT_HEAD ->
  S (heads_of (set_kind b AT_MARK a)) = heads_of a.
Proof.
  intros Ha Hb Hk. unfold heads_of. change (n_blocks_of (set_kind b AT_MARK a)) with (n_blocks_of a).
  apply (count_change (fun b => kind_of a (Z.of_nat b) = AT_HEAD) (fun x => kind_of (set_kind b AT_MARK a) (Z.of_nat x) = AT_HEAD) _ (Z.to_nat b)); [lia|by rewrite Z2Nat.id by lia| |].
  - rewrite kind_set_kind by (done || lia). rewrite Z2Nat.id, Z.eqb_refl by lia. done.
  - intros x Hx. rewrite kind_set_kind by (done || lia). rewrite (proj2 (Z.eqb_neq _ _)) by lia. done.
Qed.

Lemma sum_insert (l : list nat) k x y : l !! k = Some x -> (sum_list (<[k := y]> l) + x = sum_list l + y)%nat.
Proof.
  revert k. induction l as [|z l IH]; intros [|k] Hk; cbn in *; simplify_eq; [lia|].
  rewrite <-Nat.add_assoc. etrans; [apply (f_equal (Nat.add z)), (IH _ Hk)|]. lia.
Qed.

Lemma heads_put h k a a' : areas h !! k = Some a -> (heads (put_area k a' h) + heads_of a = heads h + heads_of a')%nat.
Proof.
  intros Ha. unfold heads. cbn [areas put_area with_areas]. rewrite list_fmap_insert. apply sum_insert. by rewrite list_lookup_fmap, Ha.
Qed.

Lemma heads_bound h : heap_areas_ok h -> (heads h <= Z.to_nat (total_blocks h))%nat.
Proof.
  unfold heap_areas_ok, heads, total_blocks. induction 1 as [|a l Ha Hl IH]; cbn; [lia|].
  pose proof (n_blocks_nonneg _ Ha). assert (heads_of a <= Z.to_nat (n_blocks_of a))%nat.
  { unfold heads_of. etrans; [apply length_filter|]. by rewrite length_seq. }
  assert (0 <= foldr (fun a n => n_blocks_of a + n) 0 l); [|lia].
  clear -Hl. induction Hl as [|b l Hb Hl IH]; cbn; [lia|]. pose proof (n_blocks_nonneg _ Hb). lia.
Qed.

(** ** One word, one block *)

Lemma mark_same_area a b : area_ok a -> 0 <= b < n_blocks_of a -> kind_of a b = AT_HEAD -> same_area a (set_kind b AT_MARK a).
Proof.
  intros Ha Hb Hk. split; [done|]. split; [by apply set_kind_ok|]. split.
  - intros i Hi. rewrite set_kind_tables. rewrite decide_False; [done|]. intros [-> _]. unfold n_blocks_of, BLOCKS_PER_ATB in Hb.
    assert (b / 4 < gc_alloc_table_byte_len a) by (apply Z.div_lt_upper_bound; lia). assert (0 <= b / 4) by (apply Z.div_pos; lia). lia.
  - intros x Hx. rewrite kind_set_kind by done. destruct (Z.eqb_spec x b) as [->|]; [right; done|by left].
Qed.

Lemma put_remark h k a a' : heap_areas_ok h -> areas h !! k = Some a -> same_area a a' -> remark h (put_area k a' h).
Proof.
  intros Hok Ha Hs. split; [|done]. cbn. apply Forall2_same_length_lookup_2; [by rewrite length_insert|].
  intros i x y Hx Hy. destruct (decide (i = k)) as [->|Hne].
  - rewrite list_lookup_insert_eq in Hy by (by eapply lookup_lt_Some). by simplify_eq.
  - rewrite list_lookup_insert_ne in Hy by done. simplify_eq. apply same_area_refl. by eapply (proj1 (Forall_lookup _ _) Hok).
Qed.

Lemma put_marked h k a b : heap_areas_ok h -> areas h !! k = Some a -> 0 <= b < n_blocks_of a ->
  forall m, marked (put_area k (set_kind b AT_MARK a) h) m <-> marked h m \/ m = (k, b).
Proof.
  intros Hok Ha Hb [k' b']. pose proof (proj1 (Forall_lookup _ _) Hok _ _ Ha) as Hoka.
  unfold marked, in_heap, kind. cbn [fst snd areas put_area with_areas].
  destruct (decide (k' = k)) as [->|Hne].
  - rewrite list_lookup_insert_eq by (by eapply lookup_lt_Some). rewrite Ha. split.
    + intros [(x & [= <-] & Hx) Hk]. change (n_blocks_of (set_kind b AT_MARK a)) with (n_blocks_of a) in Hx.
      rewrite kind_set_kind in Hk by (done || lia). destruct (Z.eqb_spec b' b) as [->|]; [by right|left]. split; [by exists a|done].
    + intros [[(x & [= <-] & Hx) Hk] | [= ->]].
      * split; [by exists (set_kind b AT_MARK a)|]. rewrite kind_set_kind by (done || lia). destruct (b' =? b); done.
      * split; [by exists (set_kind b AT_MARK a)|]. rewrite kind_set_kind, Z.eqb_refl by (done || lia). done.
  - rewrite list_lookup_insert_ne by done. split; [by left|]. intros [H|[= -> ->]]; done.
Qed.

(** What looking at words with targets [W] has done to the heap and the stack. *)
Record pushed (h h' : heap_t) (st st' : gc_stack) (W : node -> Prop) : Prop := {
  pu_remark : remark h h';
  pu_new : exists new, st' = new ++ st /\ (length new + heads h' <= heads h)%nat /\ forall m, m ∈ new -> marked h' m /\ ~ marked h m;
  pu_done m : W m -> marked h' m;
  pu_only m : marked h' m -> marked h m \/ W m;
  pu_complete : gc_stack_overflow h' = false -> gc_stack_overflow h = false /\ forall m, marked h' m -> marked h m \/ m ∈ st';
  pu_overflow : gc_stack_overflow h' = true -> gc_stack_overflow h = true \/ (heads h' < heads h)%nat }.

Lemma pushed_none h st W : heap_areas_ok h -> (forall m, W m -> marked h m) -> pushed h h st st W.
Proof.
  intros Hok HW. split; auto.
  - by apply remark_refl.
  - exists []. split; [done|]. split; [done|]. intros m Hm. by apply elem_of_nil in Hm.
Qed.

Lemma pushed_trans h1 h2 h3 st1 st2 st3 W1 W2 : pushed h1 h2 st1 st2 W1 -> pushed h2 h3 st2 st3 W2 ->
  pushed h1 h3 st1 st3 (fun m => W1 m \/ W2 m).
Proof.
  intros [R1 (n1 & -> & L1 & N1) D1 O1 C1 F1] [R2 (n2 & -> & L2 & N2) D2 O2 C2 F2]. split.
  - by eapply remark_trans.
  - exists (n2 ++ n1). split; [by rewrite app_assoc|]. split; [rewrite length_app; lia|]. intros m [Hm|Hm]%elem_of_app.
    + destruct (N2 _ Hm) as [Hm3 Hm2]. split; [done|]. intros Hm1. by apply Hm2, (remark_marked h1).
    + destruct (N1 _ Hm) as [Hm2 Hm1]. split; [by apply (remark_marked h2)|done].
  - intros m [Hm|Hm]; [by apply (remark_marked h2), D1|by apply D2].
  - intros m Hm. destruct (O2 _ Hm) as [Hm2|?]; [|auto]. destruct (O1 _ Hm2); auto.
  - intros Hf. destruct (C2 Hf) as [Hf2 H2]. destruct (C1 Hf2) as [Hf1 H1]. split; [done|].
    intros m Hm. destruct (H2 _ Hm) as [Hm2|?]; [|by right]. destruct (H1 _ Hm2) as [?|Hin]; [by left|]. right. apply elem_of_app. by right.
  - intros Hf. destruct (F2 Hf) as [Hf2|?]; [|right; lia]. destruct (F1 Hf2); [by left|right; lia].
Qed.

Lemma pushed_ext h h' st st' W W' : (forall m, W m <-> W' m) -> pushed h h' st st' W -> pushed h h' st st' W'.
Proof.
  intros HW [R N D O C F]. split; try done.
  - intros m Hm. by apply D, HW.
  - intros m Hm. rewrite <-HW. by apply O.
Qed.

Lemma area_of h k a : heap_areas_ok h -> areas h !! k = Some a -> area_ok a.
Proof. intros Hok Ha. by eapply (proj1 (Forall_lookup _ _) Hok). Qed.

Lemma wp_get_ptr_area h w (Q : option nat -> heap_t -> Prop) :
  Q (if Z.land w (BYTES_PER_BLOCK - 1) =? 0 then find_area (areas h) 0 w else None) h -> wp (gc_get_ptr_area w) h Q.
Proof. intros HQ. unfold gc_get_ptr_area. destruct (_ =? 0); cbn [negb]; [by apply wp_gets|by apply wp_ret]. Qed.

(** The cases of a pointer: no block, or a block of an area. *)
Lemma resolve_cases h w : heap_areas_ok h ->
  (if Z.land w (BYTES_PER_BLOCK - 1) =? 0 then find_area (areas h) 0 w else None) = None /\ resolve h w = None \/
  exists k a, (if Z.land w (BYTES_PER_BLOCK - 1) =? 0 then find_area (areas h) 0 w else None) = Some k /\ areas h !! k = Some a /\
    area_ok a /\ resolve h w = Some (k, BLOCK_FROM_PTR a w) /\ 0 <= BLOCK_FROM_PTR a w < n_blocks_of a.
Proof.
  intros Hok. destruct (Z.land w (BYTES_PER_BLOCK - 1) =? 0) eqn:El; [|left; unfold resolve; by rewrite El].
  destruct (find_area (areas h) 0 w) as [k|] eqn:Hf; [|left; unfold resolve; by rewrite El, Hf].
  right. destruct (find_area_spec _ _ _ _ Hf) as (a & _ & Hl & _). rewrite Nat.sub_0_r in Hl.
  assert (resolve h w = Some (k, BLOCK_FROM_PTR a w)) as Hres by (unfold resolve; rewrite El, Hf; cbn; by rewrite Hl).
  exists k, a. split; [done|]. split; [done|]. split; [by eapply area_of|]. split; [done|].
  destruct (resolve_in_heap _ _ _ Hok Hres) as (a' & Ha' & Hb). cbn in *. by simplify_eq.
Qed.

Lemma with_overflow_remark h h' : remark h h' -> remark h (with_overflow true h').
Proof. intros [H E]. by split. Qed.

(** [HEAD_TO_MARK] on an unmarked head, and the push. *)
Lemma wp_mark_push h k a b st (Q : gc_stack -> heap_t -> Prop) : heap_areas_ok h -> areas h !! k = Some a -> 0 <= b < n_blocks_of a ->
  kind_of a b = AT_HEAD -> (forall st' h', pushed h h' st st' (fun m => m = (k, b)) -> Q st' h') ->
  wp (ATB_HEAD_TO_MARK k b;; if (length st <? MICROPY_ALLOC_GC_STACK_SIZE)%nat then mret ((k, b) :: st) else modify (with_overflow true);; mret st) h Q.
Proof.
  intros Hok Ha Hb Hk HQ. pose proof (area_of _ _ _ Hok Ha) as Hoka.
  apply wp_bind, (wp_HEAD_TO_MARK h k a Ha Hoka); [done|done|]. set (h1 := put_area k (set_kind b AT_MARK a) h).
  assert (remark h h1) as Hr by (apply (put_remark _ _ a); [done|done|by apply mark_same_area]).
  assert (S (heads h1) = heads h) as Hcount.
  { pose proof (heads_put h k a (set_kind b AT_MARK a) Ha). pose proof (heads_of_mark a b Hoka Hb Hk). unfold h1. lia. }
  assert (marked h1 (k, b)) as Hm by (apply put_marked; auto).
  assert (~ marked h (k, b)) as Hnm. { intros [_ Hc]. unfold kind in Hc. cbn in Hc. rewrite Ha, Hk in Hc. done. }
  assert (forall m, marked h1 m -> marked h m \/ m = (k, b)) as Honly by (intros m; by apply put_marked).
  destruct (length st <? MICROPY_ALLOC_GC_STACK_SIZE)%nat.
  - apply wp_ret, HQ. split.
    + done.
    + exists [(k, b)]. split; [done|]. split; [change (length [(k, b)]) with 1%nat; lia|]. intros m ->%list_elem_of_singleton. done.
    + by intros m ->.
    + done.
    + intros Hf. split; [done|]. intros m Hmm. destruct (Honly _ Hmm) as [? | ->]; [by left|right; apply list_elem_of_here].
    + intros Hf. by left.
  - apply wp_bind, wp_modify, wp_ret, HQ. split.
    + by apply with_overflow_remark.
    + exists []. split; [done|]. split; [change (heads (with_overflow true h1)) with (heads h1); change (length []) with 0%nat; lia|]. intros m Hc. by apply elem_of_nil in Hc.
    + by intros m ->.
    + done.
    + done.
    + intros _. right. change (heads (with_overflow true h1)) with (heads h1). lia.
Qed.

Lemma wp_mark_child h w st (Q : gc_stack -> heap_t -> Prop) : heap_areas_ok h ->
  (forall st' h', pushed h h' st st' (fun m => resolve h w = Some m /\ is_head h m) -> Q st' h') -> wp (mark_child w st) h Q.
Proof.
  intros Hok HQ. unfold mark_child. apply wp_bind, wp_get_ptr_area.
  destruct (resolve_cases h w Hok) as [[-> Hres]|(k & a & -> & Ha & Hoka & Hres & Hb)].
  { apply wp_ret, HQ, pushed_none; [done|]. intros m [Hm _]. congruence. }
  apply wp_bind, (wp_get_area h k a Ha). apply wp_bind, (wp_kind h k a Ha Hoka); [lia|].
  destruct (Z.eqb_spec (kind_of a (BLOCK_FROM_PTR a w)) AT_HEAD) as [Hk|Hk]; cbn [negb].
  - apply (wp_mark_push h k a); [done|done|done|done|]. intros st' h' Hp. apply HQ. eapply pushed_ext; [|exact Hp].
    intros m. split; [|intros [Hm _]; congruence]. intros ->. split; [done|]. left. unfold kind. cbn. by rewrite Ha.
  - apply wp_ret, HQ, pushed_none; [done|]. intros m [Hm Hh]. rewrite Hres in Hm. simplify_eq. split; [by exists a|].
    destruct Hh as [Hh|Hh]; [|done]. unfold kind in Hh. cbn in Hh. rewrite Ha in Hh. done.
Qed.

Lemma wp_mark_words n k : forall i st h (Q : gc_stack -> heap_t -> Prop) a, heap_areas_ok h -> areas h !! k = Some a -> 0 <= i ->
  i + Z.of_nat n <= Z.of_nat (length (pool a)) ->
  (forall st' h', pushed h h' st st' (fun m => exists j, i <= j < i + Z.of_nat n /\ word_target h k j m) -> Q st' h') ->
  wp (mark_words n k i st) h Q.
Proof.
  induction n as [|n IH]; intros i st h Q a Hok Ha Hi Hn HQ; cbn [mark_words].
  { apply wp_ret, HQ, pushed_none; [done|]. intros m (j & Hj & _). lia. }
  destruct (lookup_lt_is_Some_2 (pool a) (Z.to_nat i) ltac:(lia)) as [w Hw].
  apply wp_bind, (wp_get_word h k a Ha _ w); [done|done|]. apply wp_bind, wp_mark_child; [done|].
  intros st1 h1 Hp. pose proof (pu_remark _ _ _ _ _ Hp) as Hr. destruct (remark_area _ _ Hr _ _ Ha) as (a1 & Ha1 & Hs).
  destruct (same_fields _ _ Hs) as (_ & Hpool & _).
  apply (IH (i + 1) st1 h1 _ a1); [by eapply remark_ok|done|lia|rewrite Hpool; lia|].
  intros st2 h2 Hp2. apply HQ. eapply pushed_ext; [|by eapply pushed_trans]. intros m. cbn. split.
  - intros [[Hres Hh]|(j & Hj & Ht)].
    + exists i. split; [lia|]. exists a, w. done.
    + exists j. split; [lia|]. by apply (remark_word_target _ _ Hr Hok) in Ht.
  - intros (j & Hj & Ht). destruct (Z.eq_dec j i) as [->|Hne].
    + left. destruct Ht as (a' & w' & Ha' & _ & Hw' & Hres & Hh). simplify_eq. done.
    + right. exists j. split; [lia|]. by apply (remark_word_target _ _ Hr Hok).
Qed.

Lemma wp_mark_block h k a b st (Q : gc_stack -> heap_t -> Prop) : heap_areas_ok h -> areas h !! k = Some a -> 0 <= b < n_blocks_of a ->
  (forall st' h', pushed h h' st st' (points h (k, b)) -> Q st' h') -> wp (mark_block k b st) h Q.
Proof.
  intros Hok Ha Hb HQ. pose proof (area_of _ _ _ Hok Ha) as Hoka. unfold mark_block, WORDS_PER_BLOCK, BYTES_PER_BLOCK.
  apply wp_bind, (wp_chain_length h k a Ha Hoka); [done|]. intros n Hc. pose proof Hc as (Hn & Hbn & _ & _).
  destruct (ao_end _ Hoka) as [He _]. pose proof (ao_pool _ Hoka) as Hp.
  apply wp_bind, (wp_get_area h k a Ha). apply wp_bind, wp_assert; [lia|].
  apply (wp_mark_words _ _ _ _ _ _ a); [done|done|lia|lia|]. intros st' h' Hpu. apply HQ. eapply pushed_ext; [|exact Hpu].
  intros m. split.
  - intros (j & Hj & Ht). exists a, n, j. cbn. split; [done|]. split; [done|]. split; [lia|done].
  - intros (a' & len & j & Ha' & Hc' & Hj & Ht). cbn in *. simplify_eq. rewrite (chain_unique _ _ _ _ Hc' Hc) in Hj.
    exists j. split; [lia|done].
Qed.

(** ** A subtree *)

(** What tracing from the marked node [n0] has done. *)
Record traced (h h' : heap_t) (n0 : node) : Prop := {
  tr_remark : remark h h';
  tr_heads : (heads h' <= heads h)%nat;
  tr_reach m : marked h' m -> marked h m \/ reach h (eq n0) m;
  tr_closed : gc_stack_overflow h' = false -> gc_stack_overflow h = false /\
    forall m m', m = n0 \/ marked h' m /\ ~ marked h m -> points h m m' -> marked h' m';
  tr_overflow : gc_stack_overflow h' = true -> gc_stack_overflow h = true \/ (heads h' < heads h)%nat }.

(** At the head of the loop: [c] is the block taken, [st] the stack. *)
Record tracing (h : heap_t) (n0 : node) (c : node) (st : gc_stack) (s : heap_t) : Prop := {
  tg_remark : remark h s;
  tg_heads : (heads s + length st <= heads h)%nat;
  tg_current : marked s c /\ reach h (eq n0) c;
  tg_stack m : m ∈ st -> marked s m /\ reach h (eq n0) m;
  tg_reach m : marked s m -> marked h m \/ reach h (eq n0) m;
  tg_closed : gc_stack_overflow s = false -> gc_stack_overflow h = false /\
    forall m, m = n0 \/ marked s m /\ ~ marked h m -> m = c \/ m ∈ st \/ forall m', points h m m' -> marked s m';
  tg_overflow : gc_stack_overflow s = true -> gc_stack_overflow h = true \/ (heads s < heads h)%nat }.

Lemma marked_nonneg h n : marked h n -> 0 <= n.2.
Proof. intros [(a & _ & Hb) _]. lia. Qed.

Lemma marked_dec h n : marked h n \/ ~ marked h n.
Proof.
  unfold marked, in_heap. destruct (areas h !! n.1) as [a|] eqn:Ha.
  - destruct (decide (0 <= n.2 < n_blocks_of a)) as [Hb|Hb]; [|right; intros [(a' & [= <-] & H) _]; done].
    destruct (decide (kind h n = AT_MARK)); [left; split; [by exists a|done]|right; tauto].
  - right. intros [(a & [=] & _) _].
Qed.

(** One block taken and looked at. *)
Lemma tracing_step h n0 c st s st1 s1 : heap_areas_ok h -> tracing h n0 c st s -> pushed s s1 st st1 (points s c) ->
  remark h s1 /\ (heads s1 + length st1 <= heads h)%nat /\ (heads s1 + length st1 <= heads s + length st)%nat /\
  (forall m, m ∈ st1 -> marked s1 m /\ reach h (eq n0) m) /\ (forall m, marked s1 m -> marked h m \/ reach h (eq n0) m) /\
  (gc_stack_overflow s1 = false -> gc_stack_overflow h = false /\
    forall m, m = n0 \/ marked s1 m /\ ~ marked h m -> m ∈ st1 \/ forall m', points h m m' -> marked s1 m') /\
  (gc_stack_overflow s1 = true -> gc_stack_overflow h = true \/ (heads s1 < heads h)%nat).
Proof.
  intros Hok [Hr Hh [Hcm Hcr] Hst Hre Hcl Hov] [Hr1 (new & -> & Hcount & Hnew) Hd Ho Hc Hf].
  pose proof (marked_nonneg _ _ Hcm) as Hc0.
  assert (forall m, points s c m -> reach h (eq n0) m) as Hchild.
  { intros m Hp. eapply reach_step; [exact Hcr|]. by apply (remark_points _ _ Hr Hok) in Hp. }
  assert (forall m, marked s1 m -> marked h m \/ reach h (eq n0) m) as Hre1.
  { intros m Hm. destruct (Ho _ Hm) as [Hms|Hp]; [by apply Hre|right; by apply Hchild]. }
  split; [by eapply remark_trans|]. split; [rewrite length_app; lia|]. split; [rewrite length_app; lia|]. split; [|split; [done|split]].
  - intros m [Hm|Hm]%elem_of_app.
    + destruct (Hnew _ Hm) as [Hm1 Hms]. split; [done|]. destruct (Ho _ Hm1) as [?|Hp]; [done|]. by apply Hchild.
    + destruct (Hst _ Hm) as [Hms Hmr]. split; [by apply (remark_marked s)|done].
  - intros Hof. destruct (Hc Hof) as [Hofs Hcomp]. destruct (Hcl Hofs) as [Hofh Hclo]. split; [done|].
    intros m Hm.
    assert (m ∈ st \/ m = c \/ (forall m', points h m m' -> marked s m') \/ m ∈ new ++ st) as Hcase.
    { destruct Hm as [->|[Hm1 Hmh]]; [destruct (Hclo n0 ltac:(by left)) as [|[|]]; auto|].
      destruct (Hcomp _ Hm1) as [Hms|Hin]; [|auto]. destruct (Hclo m ltac:(by right)) as [|[|]]; auto. }
    destruct Hcase as [Hin|[->|[Hp|Hin]]].
    + left. apply elem_of_app. by right.
    + right. intros m' Hp. apply Hd. by apply (remark_points _ _ Hr Hok).
    + right. intros m' Hpm. apply (remark_marked s); [done|]. by apply Hp.
    + by left.
  - intros Hof. destruct (Hf Hof) as [Hofs|?]; [|right; lia]. destruct (Hov Hofs); [by left|right; lia].
Qed.

Lemma wp_gc_mark_subtree h k b (Q : unit -> heap_t -> Prop) : heap_areas_ok h -> marked h (k, b) ->
  (forall h', traced h h' (k, b) -> Q tt h') -> wp (gc_mark_subtree k b) h Q.
Proof.
  intros Hok Hm HQ. unfold gc_mark_subtree. apply wp_bind, wp_gets.
  apply (wp_loop_idx (fun j l s => tracing h (k, b) l.1 l.2 s /\ j = (heads s + length l.2)%nat)) with (k := heads h).
  - intros j [[k1 b1] st] s [Hinv ->]. cbn [fst snd] in *. pose proof Hinv as [Hr Hh [[(a & Ha & Hb) _] Hcr] _ _ _ _]. cbn in Ha, Hb.
    pose proof (remark_ok _ _ Hr) as Hoks. apply wp_bind, (wp_mark_block s k1 a b1); [done|done|done|].
    intros st1 s1 Hp. destruct (tracing_step _ _ _ _ _ _ _ Hok Hinv Hp) as (Hr1 & Hh1 & Hdec & Hst1 & Hre1 & Hcl1 & Hov1).
    destruct st1 as [|[k2 b2] st2].
    + apply wp_ret, HQ. split; [done|cbn in Hh1; lia|done| |done].
      intros Hof. destruct (Hcl1 Hof) as [Hofh Hclo]. split; [done|]. intros m m' Hmm Hpt. destruct (Hclo m Hmm) as [Hin|Hall]; [by apply elem_of_nil in Hin|by apply Hall].
    + apply wp_ret. exists (heads s1 + length st2)%nat. cbn [length] in *. split; [lia|]. split; [|done]. split; cbn [fst snd].
      * done.
      * lia.
      * apply Hst1, list_elem_of_here.
      * intros m Hin. apply Hst1. by apply list_elem_of_further.
      * done.
      * intros Hof. destruct (Hcl1 Hof) as [Hofh Hclo]. split; [done|]. intros m Hmm. destruct (Hclo m Hmm) as [Hin|Hall]; [|auto].
        apply elem_of_cons in Hin. tauto.
      * done.
  - split; [|by rewrite Nat.add_0_r]. split.
    + by apply remark_refl.
    + cbn. lia.
    + split; [done|by apply reach_root].
    + intros m Hin. by apply elem_of_nil in Hin.
    + by left.
    + intros Hof. split; [done|]. intros m [->|[? ?]]; [by left|done].
    + by left.
  - pose proof (heads_bound h Hok). unfold mark_fuel. lia.
Qed.

(** ** Roots, and tracing again after an overflow *)

Lemma reach_in_heap h R n : heap_areas_ok h -> (forall m, R m -> in_heap h m) -> reach h R n -> in_heap h n.
Proof.
  intros Hok HR Hn. destruct Hn as [n Hn|n m Hn Hp]; [by apply HR|].
  destruct Hp as (a & len & j & _ & _ & _ & (a1 & w & _ & _ & _ & Hres & _)). by eapply resolve_in_heap.
Qed.

Lemma reach_remark h h' R n : heap_areas_ok h -> remark h h' -> (forall m, R m -> in_heap h m) -> reach h' R n -> reach h R n.
Proof.
  intros Hok Hr HR. induction 1 as [n Hn|n m Hn IH Hp]; [by apply reach_root|]. eapply reach_step; [exact IH|].
  apply (remark_points _ _ Hr Hok); [|done]. apply (reach_in_heap _ _ _ Hok HR) in IH as (a & _ & Hb). lia.
Qed.

Lemma reach_mono h (R R' : node -> Prop) n : (forall m, R m -> reach h R' m) -> reach h R n -> reach h R' n.
Proof. intros HR. induction 1 as [n Hn|n m Hn IH Hp]; [by apply HR|]. by eapply reach_step. Qed.

(** What a part of the mark phase has done: the nodes of [R] are marked, what is
    marked newly is reachable from them, and (without an overflow) the children
    of the newly marked nodes and of those in [D] are marked. *)
Record marks (h h' : heap_t) (R D : node -> Prop) : Prop := {
  mk_in m : R m -> in_heap h m;
  mk_remark : remark h h';
  mk_heads : (heads h' <= heads h)%nat;
  mk_reach m : marked h' m -> marked h m \/ reach h R m;
  mk_done m : R m -> marked h' m;
  mk_closed : gc_stack_overflow h' = false -> gc_stack_overflow h = false /\
    forall m m', D m \/ marked h' m /\ ~ marked h m -> points h m m' -> marked h' m';
  mk_overflow : gc_stack_overflow h' = true -> gc_stack_overflow h = true \/ (heads h' < heads h)%nat }.

Lemma marks_none h R : heap_areas_ok h -> (forall m, R m -> marked h m) -> marks h h R (fun _ => False).
Proof.
  intros Hok HR. split; auto.
  - intros m Hm. by apply HR.
  - by apply remark_refl.
  - intros Hof. split; [done|]. intros m m' [[]|[? ?]]; done.
Qed.

Lemma marks_trans h1 h2 h3 R1 R2 D1 D2 : heap_areas_ok h1 -> marks h1 h2 R1 D1 -> marks h2 h3 R2 D2 -> (forall m, D1 m -> in_heap h1 m) ->
  (forall m, D2 m -> in_heap h1 m) -> marks h1 h3 (fun m => R1 m \/ R2 m) (fun m => D1 m \/ D2 m).
Proof.
  intros Hok [I1 M1 L1 A1 N1 C1 O1] [I2 M2 L2 A2 N2 C2 O2] HD1 HD2.
  assert (forall m, R2 m -> in_heap h1 m) as I2' by (intros m Hm; by apply (remark_in_heap _ _ M1), I2).
  split.
  - intros m [Hm|Hm]; auto.
  - by eapply remark_trans.
  - lia.
  - intros m Hm. destruct (A2 _ Hm) as [Hm2|Hr].
    + destruct (A1 _ Hm2) as [?|Hr]; [by left|]. right. eapply reach_mono; [|exact Hr]. intros x Hx. apply reach_root. by left.
    + right. apply (reach_remark h1 h2) in Hr; [|done|done|done]. eapply reach_mono; [|exact Hr]. intros x Hx. apply reach_root. by right.
  - intros m [Hm|Hm]; [by apply (remark_marked h2), N1|by apply N2].
  - intros Hof. destruct (C2 Hof) as [Hof2 HC2]. destruct (C1 Hof2) as [Hof1 HC1]. split; [done|].
    assert (forall m m', D2 m \/ marked h3 m /\ ~ marked h2 m -> points h1 m m' -> marked h3 m') as H2.
    { intros m m' Hm Hp. apply (HC2 m); [done|]. apply (remark_points _ _ M1 Hok); [|done].
      destruct Hm as [Hm|[Hm _]]; [destruct (HD2 _ Hm) as (? & _ & ?); lia|by eapply marked_nonneg]. }
    intros m m' [[Hm|Hm]|[Hm Hm1]] Hp.
    + apply (remark_marked h2); [done|]. by apply (HC1 m m' (or_introl Hm)).
    + apply (H2 m m'); [by left|done].
    + destruct (marked_dec h2 m) as [Hm2|Hm2]; [|by apply (H2 m m'); [right|]].
      apply (remark_marked h2); [done|]. apply (HC1 m m'); [by right|done].
  - intros Hof. destruct (O2 Hof) as [Hof2|?]; [|right; lia]. destruct (O1 Hof2); [by left|right; lia].
Qed.

Lemma marks_weaken h h' (R R' D D' : node -> Prop) : marks h h' R D -> (forall m, R' m -> R m) -> (forall m, R m -> reach h R' m) ->
  (forall m, D' m -> D m) -> marks h h' R' D'.
Proof.
  intros [I M L A N C O] HR HR' HD. split; auto.
  - intros m Hm. destruct (A _ Hm) as [?|Hr]; [by left|right]. by eapply reach_mono.
  - intros Hof. destruct (C Hof) as [Hof1 HC]. split; [done|]. intros m m' Hm. apply HC. destruct Hm; auto.
Qed.

Lemma traced_marks h h' n : heap_areas_ok h -> marked h n -> traced h h' n -> marks h h' (eq n) (eq n).
Proof.
  intros Hok Hn [M L A C O]. split; try done.
  - by intros m <-; destruct Hn.
  - intros m <-. by apply (remark_marked h).
  - intros Hof. destruct (C Hof) as [Hof1 HC]. split; [done|]. intros m m' Hm. apply HC. destruct Hm as [<-|?]; auto.
Qed.

(** One root pointer. *)
Lemma wp_root h w (k : unit -> Mg unit) (Q : unit -> heap_t -> Prop) : heap_areas_ok h ->
  (forall h', marks h h' (fun m => resolve h w = Some m /\ is_head h m) (fun _ => False) -> wp (k tt) h' Q) ->
  wp (area ← gc_get_ptr_area w;
      (match area with
       | None => mret tt
       | Some k =>
           a ← get_area k;
           let block := BLOCK_FROM_PTR a w in
           kind ← ATB_GET_KIND k block;
           if kind =? AT_HEAD then ATB_HEAD_TO_MARK k block;; gc_mark_subtree k block else mret tt
       end) ≫= k) h Q.
Proof.
  intros Hok HQ. apply wp_bind, wp_get_ptr_area.
  destruct (resolve_cases h w Hok) as [[-> Hres]|(k0 & a & -> & Ha & Hoka & Hres & Hb)].
  { apply wp_bind, wp_ret, HQ, marks_none; [done|]. intros m [Hm _]. congruence. }
  apply wp_bind, wp_bind, (wp_get_area h k0 a Ha). apply wp_bind, (wp_kind h k0 a Ha Hoka); [lia|]. set (b := BLOCK_FROM_PTR a w) in *.
  destruct (Z.eqb_spec (kind_of a b) AT_HEAD) as [Hk|Hk].
  - apply wp_bind, (wp_HEAD_TO_MARK h k0 a Ha Hoka); [done|done|]. set (h1 := put_area k0 (set_kind b AT_MARK a) h).
    assert (remark h h1) as Hr by (apply (put_remark _ _ a); [done|done|by apply mark_same_area]).
    assert (heap_areas_ok h1) as Hok1 by by eapply remark_ok.
    assert (marked h1 (k0, b)) as Hm by (apply put_marked; auto).
    assert (in_heap h (k0, b)) as Hin by by exists a.
    assert (S (heads h1) = heads h) as Hcount.
    { pose proof (heads_put h k0 a (set_kind b AT_MARK a) Ha). pose proof (heads_of_mark a b Hoka Hb Hk). unfold h1. lia. }
    apply wp_gc_mark_subtree; [done|done|]. intros h2 Ht. apply HQ.
    destruct (traced_marks _ _ _ Hok1 Hm Ht) as [I M L A N C O]. split.
    + intros m [Hm1 _]. rewrite Hres in Hm1. by simplify_eq.
    + by eapply remark_trans.
    + lia.
    + intros m Hm2. assert (is_head h (k0, b)) as Hh by (left; unfold kind; cbn; by rewrite Ha).
      destruct (A _ Hm2) as [Hm1|Hre].
      * apply put_marked in Hm1 as [?| ->]; [by left| |done|done|done]. right. by apply reach_root.
      * right. apply (reach_remark h h1) in Hre; [|done|done|by intros m1 <-]. eapply reach_mono; [|exact Hre].
        intros m1 <-. by apply reach_root.
    + intros m [Hm1 _]. rewrite Hres in Hm1. simplify_eq. by apply N.
    + intros Hof. destruct (C Hof) as [Hof1 HC]. split; [done|]. intros m m' [[]|[Hm2 Hmh]] Hp.
      apply (HC m m'); [|by apply (remark_points _ _ Hr Hok); [by eapply marked_nonneg|]].
      destruct (marked_dec h1 m) as [Hm1|]; [|by right]. left. apply put_marked in Hm1 as [?| ->]; done.
    + intros Hof. right. destruct (O Hof); lia.
  - apply wp_ret, HQ, marks_none; [done|]. intros m [Hm Hh]. rewrite Hres in Hm. simplify_eq. split; [by exists a|].
    destruct Hh as [Hh|Hh]; [|done]. unfold kind in Hh. cbn in Hh. rewrite Ha in Hh. done.
Qed.

Lemma root_target_remark h h' ws m : heap_areas_ok h -> remark h h' -> root_target h' ws m <-> root_target h ws m.
Proof.
  intros Hok Hr. unfold root_target. split; intros (w & Hw & Hres & Hh); exists w; (split; [done|]).
  - rewrite (remark_resolve _ _ Hr) in Hres. split; [done|]. apply (remark_is_head _ _ Hr); [by eapply resolve_in_heap|done].
  - rewrite (remark_resolve _ _ Hr). split; [done|]. apply (remark_is_head _ _ Hr); [by eapply resolve_in_heap|done].
Qed.

Lemma wp_gc_collect_root ws : forall h (Q : unit -> heap_t -> Prop), heap_areas_ok h ->
  (forall h', marks h h' (root_target h ws) (fun _ => False) -> Q tt h') -> wp (gc_collect_root ws) h Q.
Proof.
  induction ws as [|w ws IH]; intros h Q Hok HQ; cbn [gc_collect_root].
  { apply wp_ret, HQ, marks_none; [done|]. intros m (w & Hw & _). by apply elem_of_nil in Hw. }
  apply wp_root; [done|]. intros h1 Hm1. pose proof (mk_remark _ _ _ _ Hm1) as Hr.
  apply IH; [by eapply remark_ok|]. intros h2 Hm2. apply HQ.
  eapply marks_weaken; [eapply (marks_trans h h1 h2); [done|exact Hm1|exact Hm2|done|done]| | |tauto].
  - intros m (w' & Hw & Hres & Hh). cbn beta. rewrite (root_target_remark h h1) by done.
    apply elem_of_cons in Hw as [->|Hw]; [by left|]. right. by exists w'.
  - intros m. cbn beta. rewrite (root_target_remark h h1) by done. intros Hm. apply reach_root.
    destruct Hm as [[Hres Hh]|(w' & Hw & H)]; [exists w; split; [apply list_elem_of_here|done]|exists w'; split; [by apply list_elem_of_further|done]].
Qed.

(** ** The second pass *)

(** The blocks before block [b] of area [k]. *)
Definition before (k : nat) (b : Z) (m : node) : Prop := (m.1 < k)%nat \/ m.1 = k /\ m.2 < b.

Definition again (h : heap_t) (k : nat) (b : Z) (s : heap_t) : Prop := marks h s (marked h) (fun m => marked h m /\ before k b m).

Lemma again_step h k b s s' (R D : node -> Prop) : heap_areas_ok h -> again h k b s -> marks s s' R D -> (forall m, R m -> marked s m) ->
  (forall m, D m -> in_heap h m) -> (marked h (k, b) -> D (k, b)) -> again h k (b + 1) s'.
Proof.
  intros Hok Hag Hm HR HD Hkb. pose proof (mk_remark _ _ _ _ Hag) as Hr.
  assert (forall m, before k (b + 1) m -> before k b m \/ m = (k, b)) as Hb.
  { intros [k' b']. unfold before. cbn. intros [?|[-> ?]]; [by left; left|]. destruct (Z.eq_dec b' b) as [->|]; [by right|]. left. right. lia. }
  eapply marks_weaken; [eapply (marks_trans h s s'); [done|exact Hag|exact Hm| |done]|..].
  - intros m [[? _] _]. done.
  - intros m ?. by left.
  - intros m [Hmm|Hmm]; [by apply reach_root|]. destruct (mk_reach _ _ _ _ Hag _ (HR _ Hmm)); [by apply reach_root|done].
  - intros m [Hmm Hbm]. apply Hb in Hbm as [?| ->]; [by left|right; auto].
Qed.

Lemma again_next h k b s : heap_areas_ok h -> again h k b s -> (forall a, areas h !! k = Some a -> n_blocks_of a <= b) -> again h (S k) 0 s.
Proof.
  intros Hok Hag Hb. eapply marks_weaken; [exact Hag|done|by intros; apply reach_root|].
  intros m [[(a & Ha & Hr) Hk] Hbm]. split; [by split; [exists a|]|]. unfold before in *.
  destruct Hbm as [Hlt|[_ ?]]; [|lia]. destruct (decide (m.1 = k)) as [He|]; [right|left; lia]. split; [done|]. rewrite He in Ha. specialize (Hb _ Ha). lia.
Qed.

Lemma wp_mark_again h (Q : unit -> heap_t -> Prop) : heap_areas_ok h ->
  (forall h', marks h h' (marked h) (marked h) -> Q tt h') -> wp mark_again h Q.
Proof.
  intros Hok HQ. unfold mark_again, for_areas. apply wp_bind, wp_gets.
  apply (wp_for_up (fun k s => again h (Z.to_nat k) 0 s)).
  - eapply marks_weaken; [apply (marks_none h (marked h)); done|done|by intros; apply reach_root|].
    intros m [[(a & _ & Hb) _] Hbm]. unfold before in Hbm. cbn in Hbm. lia.
  - intros k s Hk Hag. pose proof (mk_remark _ _ _ _ Hag) as Hr.
    destruct (lookup_lt_is_Some_2 (areas h) (Z.to_nat k) ltac:(lia)) as [a0 Ha0]. destruct (remark_area _ _ Hr _ _ Ha0) as (a & Ha & Hs).
    destruct (same_fields _ _ Hs) as (Hn & _). pose proof (area_of _ _ _ Hok Ha0) as Hok0. pose proof (n_blocks_nonneg _ Hok0) as Hpos.
    apply wp_bind, (wp_get_area s _ a Ha). rewrite Hn.
    apply (wp_for_up (fun b s1 => again h (Z.to_nat k) b s1)); [done| |].
    + intros b s1 Hb Hag1. pose proof (mk_remark _ _ _ _ Hag1) as Hr1. destruct (remark_area _ _ Hr1 _ _ Ha0) as (a1 & Ha1 & Hs1).
      destruct (same_fields _ _ Hs1) as (Hn1 & _). pose proof (remark_ok _ _ Hr1) as Hok1.
      apply wp_bind, (wp_kind s1 _ a1 Ha1 ltac:(by eapply area_of)); [lia|].
      assert (marked s1 (Z.to_nat k, b) <-> kind_of a1 b = AT_MARK) as Hmk.
      { unfold marked, kind. cbn. rewrite Ha1. split; [tauto|]. intros ?. split; [|done]. exists a1. split; [done|]. cbn. lia. }
      destruct (Z.eqb_spec (kind_of a1 b) AT_MARK) as [Hkm|Hkm].
      * apply wp_gc_mark_subtree; [done|by apply Hmk|]. intros s2 Ht. apply traced_marks in Ht; [|done|by apply Hmk].
        eapply again_step; [done|exact Hag1|exact Ht| | |done].
        -- intros m <-. by apply Hmk.
        -- intros m <-. exists a0. split; [done|]. cbn. lia.
      * apply wp_ret. eapply again_step; [done|exact Hag1|by apply (marks_none s1 (fun _ => False))|done|done|].
        intros Hc. by apply Hkm, Hmk, (remark_marked h).
    + intros s1 Hag1. replace (Z.to_nat (k + 1)) with (S (Z.to_nat k)) by lia. eapply again_next; [done|exact Hag1|].
      intros a1 Ha1. simplify_eq. lia.
  - intros s Hag. apply HQ. eapply marks_weaken; [exact Hag|done|by intros; apply reach_root|].
    intros m Hm. split; [done|]. destruct Hm as [(a & Ha & _) _]. left. apply lookup_lt_Some in Ha. lia.
Qed.

Definition closed (h : heap_t) : Prop := forall m m', marked h m -> points h m m' -> marked h m'.

Lemma marks_closed h h' R D : heap_areas_ok h -> marks h h' R D -> (gc_stack_overflow h = false -> closed h \/ forall m, marked h m -> D m) ->
  gc_stack_overflow h' = false -> closed h'.
Proof.
  intros Hok [I M L A N C O] Hcl Hof m m' Hm Hp. destruct (C Hof) as [Hof1 HC].
  assert (points h m m') as Hp0 by (apply (remark_points _ _ M Hok); [by eapply marked_nonneg|done]).
  destruct (marked_dec h m) as [Hm0|Hm0]; [|apply (HC m); auto].
  destruct (Hcl Hof1) as [Hc|HD]; [apply (remark_marked h); [done|by eapply Hc]|apply (HC m); auto].
Qed.

(** All that is marked, and closed, with nothing lost. *)
Lemma wp_deal h (Q : unit -> heap_t -> Prop) : heap_areas_ok h -> (gc_stack_overflow h = false -> closed h) ->
  (forall h', remark h h' -> gc_stack_overflow h' = false -> closed h' -> (forall m, marked h' m -> reach h (marked h) m) -> Q tt h') ->
  wp gc_deal_with_stack_overflow h Q.
Proof.
  intros Hok Hcl HQ. unfold gc_deal_with_stack_overflow, while. apply wp_bind, wp_gets.
  apply (wp_loop_idx (fun j (_ : unit) s => remark h s /\ (gc_stack_overflow s = false -> closed s) /\
    (forall m, marked s m -> reach h (marked h) m) /\ j = (if gc_stack_overflow s then S (heads s) else 0%nat)))
    with (k := if gc_stack_overflow h then S (heads h) else 0%nat).
  - intros j [] s (Hr & Hcs & Hre & ->). pose proof (remark_ok _ _ Hr) as Hoks. apply wp_bind, wp_gets.
    destruct (gc_stack_overflow s) eqn:Hof.
    + apply wp_bind, wp_bind, wp_modify. set (s0 := with_overflow false s).
      assert (heap_areas_ok s0) as Hok0 by done. apply wp_mark_again; [done|]. intros s1 Hm. apply wp_ret.
      assert (remark s s1) as Hr1 by (destruct (mk_remark _ _ _ _ Hm) as [H1 H2]; by split).
      exists (if gc_stack_overflow s1 then S (heads s1) else 0%nat). split; [|split; [by eapply remark_trans|split; [|split; [|done]]]].
      * destruct (gc_stack_overflow s1) eqn:Hof1; [|lia]. destruct (mk_overflow _ _ _ _ Hm Hof1) as [Hc|Hlt]; [done|].
        change (heads s0) with (heads s) in Hlt. lia.
      * intros Hof1. eapply marks_closed; [exact Hok0|exact Hm| |done]. intros _. by right.
      * intros m Hm1. destruct (mk_reach _ _ _ _ Hm _ Hm1) as [Hms|Hms]; [by apply Hre|].
        assert (reach s (marked s) m) as Hms1.
        { clear -Hms. induction Hms as [n Hn|n m Hn IH Hp]; [by apply reach_root|by eapply reach_step]. }
        apply (reach_remark h s) in Hms1; [|done|done|]. 
        2: { intros x [Hx _]. by apply (remark_in_heap _ _ Hr). }
        eapply reach_mono; [|exact Hms1]. done.
    + apply wp_ret. apply HQ; auto.
  - split; [by apply remark_refl|]. split; [done|]. split; [|done]. intros m Hm. by apply reach_root.
  - pose proof (heads_bound h Hok). unfold mark_fuel. destruct (gc_stack_overflow h); lia.
Qed.

(** ** The mark phase *)

(** No block is marked outside a collection. *)
Definition unmarked (h : heap_t) : Prop := forall n, ~ marked h n.

Definition roots_of (h : heap_t) (ws : list (list Z)) (m : node) : Prop := exists l, l ∈ ws /\ root_target h l m.

Lemma wp_collect_roots l : forall h (Q : unit -> heap_t -> Prop), heap_areas_ok h ->
  (forall h', marks h h' (roots_of h l) (fun _ => False) -> Q tt h') -> wp (collect_stacks l) h Q.
Proof.
  induction l as [|ws l IH]; intros h Q Hok HQ; cbn [collect_stacks].
  { apply wp_ret, HQ, marks_none; [done|]. intros m (w & Hw & _). by apply elem_of_nil in Hw. }
  apply wp_bind, wp_gc_collect_root; [done|]. intros h1 Hm1. pose proof (mk_remark _ _ _ _ Hm1) as Hr.
  apply IH; [by eapply remark_ok|]. intros h2 Hm2. apply HQ.
  eapply marks_weaken; [eapply (marks_trans h h1 h2); [done|exact Hm1|exact Hm2|done|done]| | |tauto].
  - intros m (ws' & Hw & Ht). cbn beta. apply elem_of_cons in Hw as [->|Hw]; [by left|]. right. exists ws'. split; [done|].
    by rewrite (root_target_remark h h1).
  - intros m [Hm|(ws' & Hw & Ht)]; apply reach_root; [exists ws; split; [apply list_elem_of_here|done]|].
    exists ws'. split; [by apply list_elem_of_further|]. by rewrite (root_target_remark h h1) in Ht.
Qed.

(** Without marks before, the marks are what can be reached. *)
Lemma closed_reach h h' R : heap_areas_ok h -> remark h h' -> (forall m, R m -> in_heap h m) -> (forall m, R m -> marked h' m) -> closed h' ->
  forall m, reach h R m -> marked h' m.
Proof.
  intros Hok Hr HRi HR Hc m Hm. induction Hm as [n Hn|n m Hn IH Hp]; [by apply HR|]. eapply Hc; [exact IH|].
  apply (remark_points _ _ Hr Hok); [by eapply marked_nonneg|done].
Qed.

Lemma mark_phase h h1 h2 ws : heap_areas_ok h -> unmarked h -> marks h h1 (roots_of h ws) (fun _ => False) ->
  remark h1 h2 -> closed h2 -> (forall m, marked h2 m -> reach h1 (marked h1) m) ->
  remark h h2 /\ forall m, marked h2 m <-> reach h (roots_of h ws) m.
Proof.
  intros Hok Hun Hm Hr Hcl Hre. pose proof (mk_remark _ _ _ _ Hm) as Hr1. assert (remark h h2) as Hr2 by by eapply remark_trans.
  split; [done|]. intros m. split.
  - intros Hmm. apply Hre in Hmm. apply (reach_remark h h1) in Hmm; [|done|done|].
    2: { intros x [Hx _]. by apply (remark_in_heap _ _ Hr1). }
    eapply reach_mono; [|exact Hmm]. intros x Hx. destruct (mk_reach _ _ _ _ Hm _ Hx) as [Hc|Hc]; [by apply Hun in Hc|done].
  - apply closed_reach; [done|done|apply (mk_in _ _ _ _ Hm)| |done]. intros x Hx. apply (remark_marked h1); [done|]. by apply (mk_done _ _ _ _ Hm).
Qed.
