(* ===== verification/GcSweep.v ===== *)
(** * Sweeping keeps exactly what is marked

    The finalisers that are run, the blocks that are freed, and the areas that
    are given back. *)
From Stdlib Require Import ZifyBool.
From S2P Require Import Prelude.
From S2P Require Import CMem.
From S2P Require Import BitFields.
From S2P Require Import Gc.
From S2P Require Import GcCollect.
From S2P Require Import GcFacts.
From S2P Require Import GcMark.
Local Open Scope Z_scope.

(** ** Chains *)

Lemma chain_exists a b : area_ok a -> 0 <= b < n_blocks_of a -> exists n, chain a b n.
Proof.
  intros Ha Hb. pose (h := MkHeap [a] 0 false 0 false 0 0 []).
  destruct (run_value _ _ _ (wp_chain_length h 0%nat a eq_refl Ha b (fun n _ => chain a b n) Hb (fun n H => H))) as (n & _ & _ & Hn).
  by exists n.
Qed.

Lemma chain_ext a a' b n : n_blocks_of a' = n_blocks_of a -> 0 <= b -> (forall x, 0 <= x <= n_blocks_of a -> kind_of a' x = kind_of a x) ->
  chain a' b n <-> chain a b n.
Proof.
  intros Hn Hb Hk. unfold chain. rewrite Hn. split; intros (H1 & H2 & H3 & H4); (split; [done|]); (split; [done|]); split.
  - intros i Hi. rewrite <-Hk by lia. by apply H3.
  - by rewrite <-Hk by lia.
  - intros i Hi. rewrite Hk by lia. by apply H3.
  - by rewrite Hk by lia.
Qed.

(** ** Finalisers *)

Definition ftb_of (a : area_t) (b : Z) : bool := Z.testbit (nth (Z.to_nat (ftb_offset a (b / 8))) (tables a) 0) (b `mod` 8).

(** The blocks whose finaliser is run: unmarked heads with the flag set and with a
    type. *)
Definition finalised (a : area_t) (b : Z) : bool :=
  (kind_of a b =? AT_HEAD) && ftb_of a b && negb (nth (Z.to_nat (4 * b)) (pool a) 0 =? 0).
Definition fin_event (a : area_t) (b : Z) : list gc_event := if finalised a b then [Finalise (PTR_FROM_BLOCK a b)] else [].
Definition fin_events (a : area_t) (n : Z) : list gc_event := concat (map (fun b => fin_event a (Z.of_nat b)) (seq 0 (Z.to_nat n))).

Lemma fin_events_S a n : 0 <= n -> fin_events a (n + 1) = fin_events a n ++ fin_event a n.
Proof.
  intros Hn. unfold fin_events. rewrite Z2Nat.inj_add by lia. change (Z.to_nat 1) with 1%nat. rewrite seq_app, map_app, concat_app. f_equal.
  cbn. rewrite app_nil_r, Z2Nat.id by done. done.
Qed.

(** What a [__del__] method may do: it writes the words of its own object at most.
    (That it does not allocate is ensured by the collector: [gc_alloc] refuses
    while a collection runs.) *)
Class FinaliserLaws `{Finalisers} : Prop := {
  call_del_own h k a b n : areas h !! k = Some a -> 0 <= b -> kind_of a b = AT_HEAD -> chain a b n ->
    exists p, length p = length (pool a) /\
      (forall i, ~ (Z.to_nat (4 * b) <= i < Z.to_nat (4 * (b + n)))%nat -> p !! i = pool a !! i) /\
      call_del k b h = put_area k (with_pool p a) h }.

(** Word [i] is in no chain whose head is one of the blocks before [n]. *)
Definition outside (a : area_t) (n i : Z) : Prop :=
  forall b m, 0 <= b < n -> kind_of a b = AT_HEAD -> chain a b m -> ~ 4 * b <= i < 4 * (b + m).

(** The area after the blocks before [n] have been looked at. *)
Record fin_area (a : area_t) (n : Z) (a' : area_t) : Prop := {
  fa_fields : a' = with_pool (pool a') (with_tables (tables a') a);
  fa_ok : area_ok a';
  fa_atb i : (i <= Z.to_nat (gc_alloc_table_byte_len a))%nat -> nth i (tables a') 0 = nth i (tables a) 0;
  fa_ftb b : 0 <= b < 8 * ftb_len a -> ftb_of a' b = if (b <? n) && (kind_of a b =? AT_HEAD) then false else ftb_of a b;
  fa_words i : 0 <= i -> outside a n i -> pool a' !! Z.to_nat i = pool a !! Z.to_nat i }.

Lemma fin_area_refl a : area_ok a -> fin_area a 0 a.
Proof. intros Ha. split; [by destruct a|done|done| |done]. intros b Hb. by rewrite (proj2 (Z.ltb_ge b 0)) by lia. Qed.

Lemma kind_past_3 a b : area_ok a -> n_blocks_of a <= b < n_blocks_of a + 4 -> kind_of a b = AT_FREE.
Proof.
  intros Ha Hb. unfold kind_of, n_blocks_of, BLOCKS_PER_ATB in *. assert (b / 4 = gc_alloc_table_byte_len a) as ->.
  { symmetry. apply (Z.div_unique _ _ _ (b - gc_alloc_table_byte_len a * 4)); lia. }
  rewrite (ao_gap _ Ha), BLOCK_SHIFT_eq. unfold field. by rewrite Z.shiftr_0_l.
Qed.

Lemma ftb_blocks a : area_ok a -> n_blocks_of a <= 8 * ftb_len a <= n_blocks_of a + 4.
Proof.
  intros Ha. unfold ftb_len, n_blocks_of, BLOCKS_PER_ATB. pose proof (Z.div_mod (gc_alloc_table_byte_len a * 4 + 7) 8 ltac:(done)).
  pose proof (Z.mod_pos_bound (gc_alloc_table_byte_len a * 4 + 7) 8 ltac:(done)). lia.
Qed.

Lemma ftb_byte a b : area_ok a -> 0 <= b < 8 * ftb_len a ->
  0 <= ftb_offset a (b / 8) /\ tables a !! Z.to_nat (ftb_offset a (b / 8)) = Some (nth (Z.to_nat (ftb_offset a (b / 8))) (tables a) 0) /\
  is_byte (nth (Z.to_nat (ftb_offset a (b / 8))) (tables a) 0).
Proof.
  intros Ha Hb. pose proof (ao_len _ Ha). pose proof (ao_tables _ Ha). assert (0 <= b / 8 < ftb_len a) as Hd.
  { split; [apply Z.div_pos; lia|apply Z.div_lt_upper_bound; lia]. }
  unfold ftb_offset, ALLOC_TABLE_GAP_BYTE. split; [lia|].
  destruct (lookup_lt_is_Some_2 (tables a) (Z.to_nat (gc_alloc_table_byte_len a + 1 + b / 8)) ltac:(lia)) as [v Hv].
  rewrite (nth_lookup_Some _ _ _ _ Hv). split; [done|]. pose proof (ao_bytes _ Ha) as Hby. rewrite Forall_lookup in Hby. eauto.
Qed.

(** Kinds are read up to the end of the gap byte. *)
Lemma wp_kind_gap h k a b (Q : Z -> heap_t -> Prop) : areas h !! k = Some a -> area_ok a -> 0 <= b < n_blocks_of a + 4 ->
  Q (kind_of a b) h -> wp (ATB_GET_KIND k b) h Q.
Proof.
  intros Hk Ha Hb HQ. destruct (Z.lt_ge_cases b (n_blocks_of a)) as [Hlt|Hge]; [apply (wp_kind h k a Hk Ha); [lia|done]|].
  unfold ATB_GET_KIND. pose proof (ao_len _ Ha) as Hlen. assert (b / BLOCKS_PER_ATB = gc_alloc_table_byte_len a) as Hd.
  { unfold n_blocks_of, BLOCKS_PER_ATB in *. symmetry. apply (Z.div_unique _ _ _ (b - gc_alloc_table_byte_len a * 4)); lia. }
  rewrite Hd. pose proof (ao_tables _ Ha). pose proof (ftb_len_nonneg _ Ha).
  destruct (lookup_lt_is_Some_2 (tables a) (Z.to_nat (gc_alloc_table_byte_len a)) ltac:(lia)) as [v Hv].
  apply wp_bind, (wp_get_byte h k a Hk _ v); [lia|done|]. apply wp_ret. unfold kind_of in HQ. change (b / 4) with (b / BLOCKS_PER_ATB) in HQ.
  rewrite Hd, (nth_lookup_Some _ _ _ _ Hv) in HQ. done.
Qed.

Lemma fin_kind a n a' b : area_ok a -> fin_area a n a' -> 0 <= b < n_blocks_of a + 4 -> kind_of a' b = kind_of a b.
Proof.
  intros Ha [_ _ Hatb _ _] Hb. unfold kind_of. rewrite Hatb; [done|]. unfold n_blocks_of, BLOCKS_PER_ATB in *.
  assert (b / 4 < gc_alloc_table_byte_len a + 1) by (apply Z.div_lt_upper_bound; lia). assert (0 <= b / 4) by (apply Z.div_pos; lia). lia.
Qed.

Lemma clear_bit_byte v j i : is_byte v -> 0 <= j -> 0 <= i ->
  Z.testbit (u8 (Z.land v (Z.lnot (Z.shiftl 1 j)))) i = Z.testbit v i && negb (i =? j).
Proof.
  intros Hv Hj Hi. rewrite u8_bits, Z.land_spec, Z.lnot_spec, Z.shiftl_1_l, Z.pow2_bits_eqb by done. rewrite (Z.eqb_sym j i).
  destruct (Z.ltb_spec i 8); [done|]. by rewrite byte_bits.
Qed.

Definition ftb_clear (b : Z) (a : area_t) : area_t :=
  let i := Z.to_nat (ftb_offset a (b / 8)) in with_tables (<[i := u8 (Z.land (nth i (tables a) 0) (Z.lnot (Z.shiftl 1 (Z.land b 7))))]> (tables a)) a.

Lemma ftb_clear_ok a b : area_ok a -> 0 <= b < 8 * ftb_len a -> area_ok (ftb_clear b a).
Proof.
  intros Ha Hb. destruct (ftb_byte a b Ha Hb) as (Hoff & Hl & Hby). destruct Ha as [H1 H2 H3 H4 H5 H6 H7 H8]. split; try done.
  - cbn. by rewrite length_insert.
  - cbn. apply Forall_insert; [done|apply u8_byte].
  - cbn. rewrite nth_lookup, list_lookup_insert_ne, <-nth_lookup; [done|]. unfold ftb_offset, ALLOC_TABLE_GAP_BYTE.
    assert (0 <= b / 8) by (apply Z.div_pos; lia). lia.
Qed.

Lemma ftb_clear_of a b b' : area_ok a -> 0 <= b < 8 * ftb_len a -> 0 <= b' -> ftb_of (ftb_clear b a) b' = ftb_of a b' && negb (b' =? b).
Proof.
  intros Ha Hb Hb'. destruct (ftb_byte a b Ha Hb) as (Hoff & Hl & Hby). pose proof (ao_len _ Ha) as Hlen. unfold ftb_of at 1.
  change (ftb_offset (ftb_clear b a)) with (ftb_offset a). cbn [tables ftb_clear with_tables]. rewrite nth_lookup.
  assert (0 <= b / 8 /\ 0 <= b' / 8) as [Hd Hd'] by (split; apply Z.div_pos; lia).
  pose proof (Z.div_mod b 8 ltac:(done)) as E1. pose proof (Z.div_mod b' 8 ltac:(done)) as E2.
  pose proof (Z.mod_pos_bound b 8 ltac:(done)). pose proof (Z.mod_pos_bound b' 8 ltac:(done)).
  change (Z.land b 7) with (Z.land b (2 ^ 3 - 1)). rewrite land_pow2_mask by done. change (2 ^ 3) with 8.
  destruct (Z.eq_dec (b' / 8) (b / 8)) as [He|Hne].
  - rewrite He, list_lookup_insert_eq by (by eapply lookup_lt_Some). cbn [default from_option id]. rewrite clear_bit_byte by (done || lia).
    unfold ftb_of. rewrite He. f_equal. lia.
  - rewrite list_lookup_insert_ne by (unfold ftb_offset, ALLOC_TABLE_GAP_BYTE in *; lia). rewrite <-nth_lookup.
    rewrite (proj2 (Z.eqb_neq b' b)) by (intros ->; lia). by rewrite andb_true_r.
Qed.

Lemma wp_FTB_CLEAR h k a b (Q : unit -> heap_t -> Prop) : areas h !! k = Some a -> area_ok a -> 0 <= b < 8 * ftb_len a ->
  Q tt (put_area k (ftb_clear b a) h) -> wp (FTB_CLEAR k b) h Q.
Proof.
  intros Hk Ha Hb HQ. destruct (ftb_byte a b Ha Hb) as (Hoff & Hl & Hby). unfold FTB_CLEAR. apply wp_bind, (wp_get_area h k a Hk).
  apply wp_bind, (wp_get_byte h k a Hk _ _ _ Hoff Hl). by apply (wp_set_byte h k a Hk _ _ _ _ Hoff Hl).
Qed.

(** One block more. *)
Lemma fin_area_next a n a' a'' : fin_area a n a' -> 0 <= n < 8 * ftb_len a ->
  a'' = with_pool (pool a'') (with_tables (tables a'') a') -> area_ok a'' ->
  (forall i, (i <= Z.to_nat (gc_alloc_table_byte_len a))%nat -> nth i (tables a'') 0 = nth i (tables a') 0) ->
  (forall b, 0 <= b < 8 * ftb_len a -> ftb_of a'' b = if (b =? n) && (kind_of a n =? AT_HEAD) then false else ftb_of a' b) ->
  (forall i, 0 <= i -> outside a (n + 1) i -> pool a'' !! Z.to_nat i = pool a' !! Z.to_nat i) -> fin_area a (n + 1) a''.
Proof.
  intros [Hf _ Hatb Hftb Hwd] Hn Hf2 Hok2 Hatb2 Hftb2 Hwd2. split; [by rewrite Hf2, Hf|done| | |].
  - intros i Hi. by rewrite Hatb2, Hatb.
  - intros b Hb. rewrite Hftb2, Hftb by done. destruct (Z.eqb_spec b n) as [->|Hne].
    + rewrite (proj2 (Z.ltb_ge n n)), (proj2 (Z.ltb_lt n (n + 1))) by lia. done.
    + replace (b <? n + 1) with (b <? n) by lia. done.
  - intros i Hi Ho. rewrite Hwd2 by done. apply Hwd; [done|]. intros b m Hb. apply Ho. lia.
Qed.

Lemma fin_area_skip a n a' : fin_area a n a' -> 0 <= n < 8 * ftb_len a -> kind_of a n <> AT_HEAD \/ ftb_of a n = false -> fin_area a (n + 1) a'.
Proof.
  intros Hf Hn Hs. apply (fin_area_next a n a'); [done|done|pose proof (fa_fields _ _ _ Hf) as ->; done|by apply (fa_ok _ _ _ Hf)|done| |done].
  intros b Hb. destruct (Z.eqb_spec b n) as [->|]; [|done]. destruct (Z.eqb_spec (kind_of a n) AT_HEAD); [|done].
  rewrite (fa_ftb _ _ _ Hf) by done. rewrite (proj2 (Z.ltb_ge n n)) by lia. by destruct Hs.
Qed.

Lemma pool_area_ok a p : area_ok a -> length p = length (pool a) -> area_ok (with_pool p a).
Proof. intros [? ? ? ? ? ? Hp ?] Hlen. split; cbn; try done. by rewrite Hlen. Qed.

(** The flag of a head is cleared, after its object has been written. *)
Lemma cleared_next a n a' p : area_ok a -> fin_area a n a' -> 0 <= n < n_blocks_of a -> kind_of a n = AT_HEAD ->
  length p = length (pool a') -> (forall i, 0 <= i -> outside a (n + 1) i -> p !! Z.to_nat i = pool a' !! Z.to_nat i) ->
  fin_area a (n + 1) (ftb_clear n (with_pool p a')).
Proof.
  intros Ha Hf Hn Hh Hlen Hp. pose proof (fa_ok _ _ _ Hf) as Ha'. pose proof (fa_fields _ _ _ Hf) as Hfi. pose proof (ftb_blocks _ Ha) as Hfb.
  assert (ftb_len (with_pool p a') = ftb_len a) as Hfl by (by rewrite Hfi). pose proof (pool_area_ok _ _ Ha' Hlen) as Hap.
  apply (fin_area_next a n a'); [done|lia|done|apply ftb_clear_ok; [done|lia]| | |exact Hp].
  - intros i Hi. unfold ftb_clear. cbn. rewrite nth_lookup, list_lookup_insert_ne, <-nth_lookup; [done|].
    rewrite Hfi. unfold ftb_offset, ALLOC_TABLE_GAP_BYTE. cbn. assert (0 <= n / 8) by (apply Z.div_pos; lia). pose proof (ao_len _ Ha). lia.
  - intros b Hb. rewrite (ftb_clear_of (with_pool p a')) by (done || lia). rewrite Hh.
    change (ftb_of (with_pool p a') b) with (ftb_of a' b). destruct (b =? n); cbn; [by rewrite andb_false_r|by rewrite andb_true_r].
Qed.

(** ** The finalisers of one area *)

Definition add_events (es : list gc_event) (h : heap_t) : heap_t :=
  MkHeap (areas h) (gc_last_free_area h) (gc_stack_overflow h) (gc_lock_depth h) (gc_auto_collect_enabled h) (gc_alloc_threshold h) (gc_alloc_amount h) (events h ++ es).

Lemma add_events_app e1 e2 h : add_events e2 (add_events e1 h) = add_events (e1 ++ e2) h.
Proof. unfold add_events. cbn. by rewrite app_assoc. Qed.
Lemma add_events_nil h : add_events [] h = h.
Proof. unfold add_events. rewrite app_nil_r. by destruct h. Qed.

Lemma put_area_lookup k a' a h : areas h !! k = Some a -> areas (put_area k a' h) !! k = Some a'.
Proof. intros Hk. cbn. rewrite list_lookup_insert_eq; [done|]. by eapply lookup_lt_Some. Qed.
Lemma put_area_put k a a' h : put_area k a (put_area k a' h) = put_area k a h.
Proof. unfold put_area. cbn. by rewrite list_insert_insert_eq. Qed.
Lemma put_area_id k a h : areas h !! k = Some a -> put_area k a h = h.
Proof. intros Hk. unfold put_area. rewrite list_insert_id by done. by destruct h. Qed.

(** A head is in no other chain. *)
Lemma head_outside a n : kind_of a n = AT_HEAD -> outside a n (4 * n).
Proof.
  intros Hh b m Hb _ (H1 & H2 & H3 & _) Hin. specialize (H3 (n - b) ltac:(lia)).
  replace (b + (n - b)) with n in H3 by lia. by rewrite Hh in H3.
Qed.

Section RunFinalisers.
Context `{FinaliserLaws}.

Section Finalisers.
Context (h : heap_t) (k : nat) (a : area_t) (Hk : areas h !! k = Some a) (Ha : area_ok a).

Definition fin_heap (n : Z) (a' : area_t) : heap_t := put_area k a' (add_events (fin_events a n) h).

Lemma fin_skips m : forall n a', fin_area a n a' -> 0 <= n -> n + Z.of_nat m <= 8 * ftb_len a ->
  (forall b, n <= b < n + Z.of_nat m -> ftb_of a b = false) ->
  fin_area a (n + Z.of_nat m) a' /\ fin_events a (n + Z.of_nat m) = fin_events a n.
Proof.
  induction m as [|m IH]; intros n a' Hf Hn Hm Hz; [by rewrite Z.add_0_r|].
  replace (n + Z.of_nat (S m)) with (n + 1 + Z.of_nat m) by lia. destruct (IH (n + 1) a') as [Hf' He]; [| |lia|intros b Hb; apply Hz; lia|].
  - apply fin_area_skip; [done|lia|]. right. apply Hz. lia.
  - lia.
  - split; [done|]. rewrite He, fin_events_S by done. unfold fin_event, finalised. rewrite Hz by lia. by rewrite andb_false_r, app_nil_r.
Qed.

(** The flag of one block. *)
Lemma wp_finalise_bit n a' (Q : unit -> heap_t -> Prop) : fin_area a n a' -> 0 <= n < 8 * ftb_len a -> ftb_of a n = true ->
  (forall a'', fin_area a (n + 1) a'' -> Q tt (fin_heap (n + 1) a'')) ->
  wp (kind ← ATB_GET_KIND k n;
      if kind =? AT_HEAD then
        a ← get_area k;
        type ← get_word k (n * WORDS_PER_BLOCK);
        (if negb (type =? 0) then
           modify (with_event (Finalise (PTR_FROM_BLOCK a n)));; modify (call_del k n)
         else mret tt);;
        FTB_CLEAR k n
      else mret tt) (fin_heap n a') Q.
Proof.
  intros Hf Hn Hft HQ. pose proof (fa_ok _ _ _ Hf) as Ha'. pose proof (ftb_blocks _ Ha) as Hfb. pose proof (fa_fields _ _ _ Hf) as Hfi.
  assert (areas (fin_heap n a') !! k = Some a') as Hk' by (by apply put_area_lookup with a).
  assert (n_blocks_of a' = n_blocks_of a) as Hnb by (by rewrite Hfi). assert (ftb_len a' = ftb_len a) as Hfl by (by rewrite Hfi).
  apply wp_bind, (wp_kind_gap _ k a' _ _ Hk' Ha'); [lia|]. rewrite (fin_kind a n a') by (done || lia).
  destruct (Z.eqb_spec (kind_of a n) AT_HEAD) as [Hh|Hh].
  - assert (n < n_blocks_of a) as Hnn. { destruct (Z.lt_ge_cases n (n_blocks_of a)); [done|]. rewrite kind_past_3 in Hh by (done || lia). done. }
    apply wp_bind, (wp_get_area _ k a' Hk'). pose proof (ao_pool _ Ha') as Hpool.
    destruct (lookup_lt_is_Some_2 (pool a') (Z.to_nat (4 * n)) ltac:(lia)) as [w Hw].
    apply wp_bind, (wp_get_word _ k a' Hk' _ w); [unfold WORDS_PER_BLOCK; lia|unfold WORDS_PER_BLOCK; by rewrite Z.mul_comm|].
    assert (fin_event a n = if negb (w =? 0) then [Finalise (PTR_FROM_BLOCK a' n)] else []) as He.
    { unfold fin_event, finalised. rewrite Hh, Hft. rewrite (fa_words a n a' Hf (4 * n)) in Hw by (done || lia || by apply head_outside).
      rewrite (nth_lookup_Some _ _ _ _ Hw), Hfi. done. }
    apply wp_bind. destruct (negb (w =? 0)).
    + destruct (chain_exists a n Ha ltac:(lia)) as [m Hch].
      assert (chain a' n m) as Hch'.
      { apply (chain_ext a a'); [done|lia| |done]. intros x Hx. apply (fin_kind a n a'); [done|done|lia]. }
      assert (kind_of a' n = AT_HEAD) as Hh' by (rewrite (fin_kind a n a' n); [done|done|done|lia]).
      set (s1 := with_event (Finalise (PTR_FROM_BLOCK a' n)) (fin_heap n a')). assert (areas s1 !! k = Some a') as Hk1 by done.
      destruct (call_del_own s1 k a' n m Hk1 ltac:(lia) Hh' Hch') as (p & Hlen & Hp & Hcall).
      apply wp_bind, wp_modify, wp_modify. fold s1. rewrite Hcall.
      apply (wp_FTB_CLEAR _ k (with_pool p a')); [by apply put_area_lookup with a'|by apply pool_area_ok|change (ftb_len (with_pool p a')) with (ftb_len a'); lia|].
      rewrite put_area_put. assert (fin_area a (n + 1) (ftb_clear n (with_pool p a'))) as Hnext.
      { apply (cleared_next a n a' p); [done|done|lia|done|done|]. intros i Hi Ho. apply Hp. specialize (Ho n m ltac:(lia) Hh Hch). lia. }
      specialize (HQ _ Hnext). unfold fin_heap in HQ. rewrite fin_events_S, He in HQ by lia. rewrite <-add_events_app in HQ.
      unfold s1, fin_heap, with_event, add_events, put_area, with_areas in *. cbn in *. by rewrite list_insert_insert_eq.
    + apply wp_ret, (wp_FTB_CLEAR _ k a'); [exact Hk'|done|lia|].
      assert (fin_area a (n + 1) (ftb_clear n a')) as Hnext.
      { replace a' with (with_pool (pool a') a') by (by destruct a'). by apply (cleared_next a n a' (pool a')); [| |lia|..]. }
      specialize (HQ _ Hnext). unfold fin_heap in *. rewrite fin_events_S, He, app_nil_r in HQ by lia. by rewrite put_area_put.
  - apply wp_ret. assert (fin_event a n = []) as He by (unfold fin_event, finalised; by rewrite (proj2 (Z.eqb_neq _ _) Hh)).
    specialize (HQ a' (fin_area_skip _ _ _ Hf Hn (or_introl Hh))). unfold fin_heap in *. rewrite fin_events_S, He, app_nil_r in HQ by lia. done.
Qed.

Lemma wp_finalise_bits n : forall block ftb a' (Q : unit -> heap_t -> Prop), fin_area a block a' -> 0 <= block ->
  block + Z.of_nat n <= 8 * ftb_len a -> 0 <= ftb < 2 ^ Z.of_nat n -> (forall i, 0 <= i < Z.of_nat n -> Z.testbit ftb i = ftb_of a (block + i)) ->
  (forall a'', fin_area a (block + Z.of_nat n) a'' -> Q tt (fin_heap (block + Z.of_nat n) a'')) ->
  wp (finalise_bits n k ftb block) (fin_heap block a') Q.
Proof.
  induction n as [|n IH]; intros block ftb a' Q Hf Hb Hn Hft Hbits HQ.
  { cbn in Hft. cbn [finalise_bits]. rewrite (proj2 (Z.eqb_eq ftb 0)) by lia. rewrite Z.add_0_r in HQ. by apply wp_ret, HQ. }
  assert (finalise_bits (S n) k ftb block = if ftb =? 0 then mret tt else
        (if negb (Z.land ftb 1 =? 0) then
           kind ← ATB_GET_KIND k block;
           if kind =? AT_HEAD then
             a ← get_area k;
             type ← get_word k (block * WORDS_PER_BLOCK);
             (if negb (type =? 0) then
                modify (with_event (Finalise (PTR_FROM_BLOCK a block)));; modify (call_del k block)
              else mret tt);;
             FTB_CLEAR k block
           else mret tt
         else mret tt);;
        finalise_bits n k (Z.shiftr ftb 1) (block + 1)) as -> by done.
  destruct (Z.eqb_spec ftb 0) as [->|Hz].
  { destruct (fin_skips (S n) block a' Hf Hb Hn) as [Hf' He].
    - intros b Hb'. replace b with (block + (b - block)) by lia. rewrite <-Hbits, Z.bits_0 by lia. done.
    - apply wp_ret. specialize (HQ _ Hf'). unfold fin_heap in *. by rewrite He in HQ. }
  assert (negb (Z.land ftb 1 =? 0) = ftb_of a block) as ->.
  { rewrite <-(Z.add_0_r block), <-Hbits by lia. change 1 with (2 ^ 1 - 1). rewrite land_pow2_mask, Z.bit0_eqb by done.
    pose proof (Z.mod_pos_bound ftb 2 ltac:(done)). change (2 ^ 1) with 2. destruct (Z.eqb_spec (ftb `mod` 2) 0), (Z.eqb_spec (ftb `mod` 2) 1); done || lia. }
  assert (forall a1, fin_area a (block + 1) a1 -> wp (finalise_bits n k (Z.shiftr ftb 1) (block + 1)) (fin_heap (block + 1) a1) Q) as Hrest.
  { intros a1 Hf1. apply IH; [done|lia|lia| | |].
    - rewrite Z.shiftr_div_pow2 by done. change (2 ^ 1) with 2. rewrite Nat2Z.inj_succ, Z.pow_succ_r in Hft by lia.
      split; [apply Z.div_pos; lia|apply Z.div_lt_upper_bound; lia].
    - intros i Hi. rewrite Z.shiftr_spec by lia. rewrite Hbits by lia. f_equal. lia.
    - replace (block + 1 + Z.of_nat n) with (block + Z.of_nat (S n)) by lia. done. }
  apply wp_bind. destruct (ftb_of a block) eqn:Hfb.
  - apply wp_finalise_bit; [done|lia|done|done].
  - apply wp_ret. specialize (Hrest a' (fin_area_skip _ _ _ Hf ltac:(lia) (or_intror Hfb))).
    assert (fin_event a block = []) as He by (unfold fin_event, finalised; by rewrite Hfb, andb_false_r).
    unfold fin_heap in *. rewrite fin_events_S, He, app_nil_r in Hrest by done. done.
Qed.
End Finalisers.

(** ** All areas *)

(** The areas of a heap, one after the other: what the body does to one area and
    the events it adds. *)
Lemma wp_for_areas (P : area_t -> Prop) (R : area_t -> area_t -> list gc_event -> Prop) body h (Q : unit -> heap_t -> Prop) :
  Forall P (areas h) ->
  (forall k a s, areas s !! k = Some a -> P a -> wp (body k) s (fun _ s' => exists a' es, R a a' es /\ s' = put_area k a' (add_events es s))) ->
  (forall l ess, Forall3 R (areas h) l ess -> Q tt (add_events (concat ess) (with_areas l h))) -> wp (for_areas body) h Q.
Proof.
  intros HP Hbody HQ. unfold for_areas. apply wp_bind, wp_gets.
  apply (wp_for_up (fun j s => exists l ess, Forall3 R (take (Z.to_nat j) (areas h)) l ess /\
    s = add_events (concat ess) (with_areas (l ++ drop (Z.to_nat j) (areas h)) h))).
  - exists [], []. split; [constructor|]. cbn. rewrite add_events_nil. by destruct h.
  - intros j s Hj (l & ess & Hl & ->). destruct (lookup_lt_is_Some_2 (areas h) (Z.to_nat j) ltac:(lia)) as [a Ha].
    assert (length l = Z.to_nat j) as Hlen. { rewrite <-(Forall3_length_lm _ _ _ _ Hl), length_take. lia. }
    assert (drop (Z.to_nat j) (areas h) = a :: drop (S (Z.to_nat j)) (areas h)) as Hd by (by apply drop_S).
    eapply wp_mono; [apply (Hbody (Z.to_nat j) a)|].
    + cbn. rewrite lookup_app_r by lia. by rewrite Hlen, Nat.sub_diag, Hd.
    + by eapply (proj1 (Forall_lookup _ _) HP).
    + intros [] s' (a' & es & Hr & ->). replace (Z.to_nat (j + 1)) with (S (Z.to_nat j)) by lia. exists (l ++ [a']), (ess ++ [es]). split.
      * rewrite (take_S_r _ _ a) by done. apply Forall3_app; [done|]. by repeat constructor.
      * unfold put_area, add_events, with_areas. cbn. f_equal; [|by rewrite concat_app, app_assoc; cbn; rewrite app_nil_r].
        rewrite Hd, <-Hlen. replace (length l) with (length l + 0)%nat by lia. rewrite insert_app_r. cbn. by rewrite <-app_assoc.
  - intros s (l & ess & Hl & ->). rewrite Z.add_0_l, Nat2Z.id in *. rewrite drop_ge, app_nil_r by done. rewrite take_ge in Hl by done. by apply HQ.
Qed.

(** An area whose finalisers have been run. *)
Record fin_done (a a' : area_t) : Prop := {
  fd_fields : a' = with_pool (pool a') (with_tables (tables a') a);
  fd_ok : area_ok a';
  fd_atb i : (i <= Z.to_nat (gc_alloc_table_byte_len a))%nat -> nth i (tables a') 0 = nth i (tables a) 0;
  fd_ftb b : 0 <= b < 8 * ftb_len a -> ftb_of a' b = ftb_of a b && negb (kind_of a b =? AT_HEAD);
  fd_words i : 0 <= i -> outside a (n_blocks_of a) i -> pool a' !! Z.to_nat i = pool a !! Z.to_nat i }.

Lemma fin_events_free a m : forall n, 0 <= n -> (forall b, n <= b < n + Z.of_nat m -> kind_of a b <> AT_HEAD) ->
  fin_events a (n + Z.of_nat m) = fin_events a n.
Proof.
  induction m as [|m IH]; intros n Hn Hf; [by rewrite Z.add_0_r|]. replace (n + Z.of_nat (S m)) with (n + 1 + Z.of_nat m) by lia.
  rewrite IH; [|lia|intros b Hb; apply Hf; lia]. rewrite fin_events_S by done. unfold fin_event, finalised.
  rewrite (proj2 (Z.eqb_neq (kind_of a n) AT_HEAD)) by (apply Hf; lia). apply app_nil_r.
Qed.

(** The tables can be swept: the last block whose flag is looked at has one. *)
Record sweepable (a : area_t) : Prop := {
  sw_ok : area_ok a;
  sw_kinds : kinds_ok a;
  sw_ftb : gc_last_used_block a < 8 * ftb_len a }.

Lemma free_past a b : area_ok a -> kinds_ok a -> gc_last_used_block a < b < 8 * ftb_len a -> kind_of a b = AT_FREE.
Proof.
  intros Ha Hko Hb. pose proof (ftb_blocks _ Ha) as Hfb. pose proof (ko_last_used _ Hko).
  destruct (Z.lt_ge_cases b (n_blocks_of a)); [apply (ko_free _ Hko); lia|]. apply kind_past_3; [done|lia].
Qed.

Lemma wp_area_finalisers k a s : areas s !! k = Some a -> sweepable a ->
  wp (a ← get_area k;
      assert_ (gc_last_used_block a <=? n_blocks_of a);;
      let ftb_end := gc_last_used_block a / BLOCKS_PER_FTB in
      for_up (Z.to_nat (ftb_end + 1)) 0 (fun ftb_idx =>
        ftb ← get_byte k (ftb_offset a ftb_idx);
        finalise_bits 8 k ftb (ftb_idx * BLOCKS_PER_FTB))) s
    (fun _ s' => exists a' es, (fin_done a a' /\ es = fin_events a (n_blocks_of a)) /\ s' = put_area k a' (add_events es s)).
Proof.
  intros Hk [Ha Hko Hlu]. pose proof (ko_last_used _ Hko) as Hlur. pose proof (ftb_blocks _ Ha) as Hfb.
  apply wp_bind, (wp_get_area s k a Hk). apply wp_bind, wp_assert; [lia|]. cbn zeta. unfold BLOCKS_PER_FTB.
  set (e := gc_last_used_block a / 8). pose proof (Z.div_mod (gc_last_used_block a) 8 ltac:(done)) as Hdm.
  pose proof (Z.mod_pos_bound (gc_last_used_block a) 8 ltac:(done)) as Hmb. fold e in Hdm. assert (0 <= e) by (apply Z.div_pos; lia).
  apply (wp_for_up (fun i s' => exists a', fin_area a (8 * i) a' /\ s' = fin_heap s k a (8 * i) a')).
  - exists a. split; [by apply fin_area_refl|]. unfold fin_heap. cbn. by rewrite add_events_nil, put_area_id.
  - intros i s' Hi (a' & Hf & ->). pose proof (fa_ok _ _ _ Hf) as Ha'. pose proof (fa_fields _ _ _ Hf) as Hfi.
    assert (areas (fin_heap s k a (8 * i) a') !! k = Some a') as Hk' by (by apply put_area_lookup with a).
    assert (ftb_len a' = ftb_len a) as Hfl by (by rewrite Hfi). assert (ftb_offset a' = ftb_offset a) as Hfo by (by rewrite Hfi).
    destruct (ftb_byte a' (8 * i) Ha' ltac:(lia)) as (Hoff & Hl & Hby). rewrite Hfo in Hoff, Hl, Hby.
    assert (8 * i / 8 = i) as Hi8 by (rewrite Z.mul_comm; by apply Z.div_mul). rewrite Hi8 in Hoff, Hl, Hby.
    apply wp_bind, (wp_get_byte _ k a' Hk' _ _ _ Hoff Hl). rewrite (Z.mul_comm i 8).
    apply (wp_finalise_bits s k a Hk Ha 8 (8 * i) _ a'); [done|lia|lia|exact Hby| |].
    + intros j Hj. assert (ftb_of a (8 * i + j) = ftb_of a' (8 * i + j)) as ->.
      { rewrite (fa_ftb _ _ _ Hf) by lia. by rewrite (proj2 (Z.ltb_ge _ _)) by lia. }
      unfold ftb_of. rewrite Hfo. assert ((8 * i + j) / 8 = i) as -> by (symmetry; apply (Z.div_unique _ _ _ j); lia).
      assert ((8 * i + j) `mod` 8 = j) as ->; [|done]. symmetry. apply (Z.mod_unique _ _ i); lia.
    + intros a'' Hf''. exists a''. replace (8 * (i + 1)) with (8 * i + Z.of_nat 8) by lia. done.
  - intros s' (a' & Hf & ->). rewrite Z.add_0_l, Z2Nat.id in * by lia.
    assert (forall b, 8 * (e + 1) <= b < 8 * ftb_len a -> kind_of a b <> AT_HEAD) as Hfree.
    { intros b Hb. rewrite free_past by (done || lia). done. }
    assert (fin_events a (8 * (e + 1)) = fin_events a (n_blocks_of a)) as He.
    { destruct (Z.le_ge_cases (8 * (e + 1)) (n_blocks_of a)).
      - replace (n_blocks_of a) with (8 * (e + 1) + Z.of_nat (Z.to_nat (n_blocks_of a - 8 * (e + 1)))) by lia.
        rewrite fin_events_free; [done|lia|]. intros b Hb. apply Hfree. lia.
      - replace (8 * (e + 1)) with (n_blocks_of a + Z.of_nat (Z.to_nat (8 * (e + 1) - n_blocks_of a))) by lia.
        pose proof (n_blocks_nonneg _ Ha). rewrite fin_events_free; [done|lia|]. intros b Hb. rewrite kind_past_3 by (done || lia). done. }
    exists a', (fin_events a (n_blocks_of a)). split; [|by rewrite <-He]. split; [|done]. split; [apply Hf|apply Hf|apply Hf| |].
    2: { intros i Hi Ho. apply (fa_words _ _ _ Hf); [done|]. intros b m Hb Hh Hch. apply (Ho b m); [|done|done]. destruct Hch. lia. }
    intros b Hb. rewrite (fa_ftb _ _ _ Hf) by done. destruct (Z.ltb_spec b (8 * (e + 1))); cbn [andb].
    + destruct (kind_of a b =? AT_HEAD); cbn; [by rewrite andb_false_r|by rewrite andb_true_r].
    + rewrite (proj2 (Z.eqb_neq _ _) (Hfree b ltac:(lia))). cbn. by rewrite andb_true_r.
Qed.

Lemma wp_gc_sweep_run_finalisers h (Q : unit -> heap_t -> Prop) : Forall sweepable (areas h) ->
  (forall l, Forall2 fin_done (areas h) l -> Q tt (add_events (concat (map (fun a => fin_events a (n_blocks_of a)) (areas h))) (with_areas l h))) ->
  wp gc_sweep_run_finalisers h Q.
Proof.
  intros Hok HQ. unfold gc_sweep_run_finalisers.
  apply (wp_for_areas sweepable (fun a a' es => fin_done a a' /\ es = fin_events a (n_blocks_of a))); [done|by apply wp_area_finalisers|].
  intros l ess Hl. assert (ess = map (fun a => fin_events a (n_blocks_of a)) (areas h) /\ Forall2 fin_done (areas h) l) as [-> Hd]; [|by apply HQ].
  clear -Hl. induction Hl as [|a a' es l1 l2 l3 [Hd ->] Hl [-> IH]]; [done|]. split; [done|by constructor].
Qed.

End RunFinalisers.

(** ** The blocks a sweep frees

    Which blocks stay in use, what the tables are after the sweep, and which
    areas are given back. *)

(** ** Live blocks *)

(** Block [n] is a marked head or a tail of one. *)
Fixpoint live_nat (a : area_t) (n : nat) : bool :=
  if kind_of a (Z.of_nat n) =? AT_MARK then true
  else if kind_of a (Z.of_nat n) =? AT_TAIL then match n with O => false | S n => live_nat a n end
  else false.
Definition live (a : area_t) (b : Z) : bool := live_nat a (Z.to_nat b).

(** What a sweep makes of a block. *)
Definition post_kind (a : area_t) (b : Z) : Z :=
  if kind_of a b =? AT_MARK then AT_HEAD else if live a b then AT_TAIL else AT_FREE.

(** The last live block of the first [n], or 0. *)
Fixpoint last_live (a : area_t) (n : nat) : Z :=
  match n with O => 0 | S n => if live_nat a n then Z.of_nat n else last_live a n end.

Lemma live_unfold a b : 0 <= b -> live a b =
  if kind_of a b =? AT_MARK then true else if kind_of a b =? AT_TAIL then (0 <? b) && live a (b - 1) else false.
Proof.
  intros Hb. destruct (Z_of_nat_complete b Hb) as [m ->]. unfold live. rewrite Nat2Z.id. destruct m as [|n]; cbn [live_nat].
  - by destruct (kind_of a (Z.of_nat 0) =? AT_MARK), (kind_of a (Z.of_nat 0) =? AT_TAIL).
  - replace (Z.to_nat (Z.of_nat (S n) - 1)) with n by lia. rewrite (proj2 (Z.ltb_lt 0 (Z.of_nat (S n)))) by lia. done.
Qed.

Lemma live_kind a b : 0 <= b -> live a b = true -> kind_of a b = AT_MARK \/ kind_of a b = AT_TAIL /\ 0 < b /\ live a (b - 1) = true.
Proof.
  intros Hb. rewrite live_unfold by done. destruct (Z.eqb_spec (kind_of a b) AT_MARK); [by left|].
  destruct (Z.eqb_spec (kind_of a b) AT_TAIL); [|done]. intros H. to_prop. by right.
Qed.

Lemma last_live_max a n : forall b, 0 <= b < Z.of_nat n -> live a b = true -> b <= last_live a n.
Proof.
  induction n as [|n IH]; intros b Hb Hl; [lia|]. cbn [last_live]. destruct (live_nat a n) eqn:E; [lia|]. apply IH; [|done].
  destruct (Z.eq_dec b (Z.of_nat n)) as [->|]; [|lia]. unfold live in Hl. rewrite Nat2Z.id in Hl. congruence.
Qed.

Lemma last_live_in a n : last_live a n = 0 \/ 0 <= last_live a n < Z.of_nat n /\ live a (last_live a n) = true.
Proof.
  induction n as [|n IH]; cbn [last_live]; [by left|]. destruct (live_nat a n) eqn:E.
  - right. split; [lia|]. unfold live. by rewrite Nat2Z.id.
  - destruct IH as [?|[? ?]]; [by left|right]. split; [lia|done].
Qed.

Lemma last_live_S a b : 0 <= b -> last_live a (Z.to_nat (b + 1)) = if live a b then b else last_live a (Z.to_nat b).
Proof. intros Hb. replace (Z.to_nat (b + 1)) with (S (Z.to_nat b)) by lia. cbn [last_live]. unfold live. by rewrite Z2Nat.id. Qed.

(** ** Sweeping one area *)

Record swept_to (a : area_t) (i : Z) (a' : area_t) : Prop := {
  st_fields : a' = with_tables (tables a') a;
  st_ok : area_ok a';
  st_kind b : 0 <= b < n_blocks_of a -> kind_of a' b = if b <? i then post_kind a b else kind_of a b;
  st_rest j : (Z.to_nat (gc_alloc_table_byte_len a) <= j)%nat -> nth j (tables a') 0 = nth j (tables a) 0 }.

Lemma swept_same a i a' : swept_to a i a' -> 0 <= i -> (i < n_blocks_of a -> post_kind a i = kind_of a i) -> swept_to a (i + 1) a'.
Proof.
  intros [Hf Hok Hk Hr] Hi Hp. split; [done|done| |done]. intros b Hb. rewrite Hk by done.
  destruct (Z.eq_dec b i) as [->|Hne]; [|by replace (b <? i + 1) with (b <? i) by lia].
  rewrite (proj2 (Z.ltb_ge i i)), (proj2 (Z.ltb_lt i (i + 1))) by lia. symmetry. apply Hp. lia.
Qed.

Lemma swept_set a i a' x : swept_to a i a' -> 0 <= i < n_blocks_of a -> post_kind a i = x -> x `mod` 4 = x -> swept_to a (i + 1) (set_kind i x a').
Proof.
  intros [Hf Hok Hk Hr] Hi Hp Hx. assert (n_blocks_of a' = n_blocks_of a) as Hn by (by rewrite Hf). split.
  - unfold set_kind. by rewrite Hf.
  - apply set_kind_ok; [done|lia].
  - intros b Hb. rewrite kind_set_kind by (done || lia). rewrite Hk by done. destruct (Z.eqb_spec b i) as [->|Hne].
    + rewrite (proj2 (Z.ltb_lt i (i + 1))) by lia. by rewrite Hp.
    + by replace (b <? i + 1) with (b <? i) by lia.
  - intros j Hj. rewrite set_kind_tables, decide_False; [by apply Hr|]. intros [-> _].
    unfold n_blocks_of, BLOCKS_PER_ATB in Hi. assert (i / 4 < gc_alloc_table_byte_len a) by (apply Z.div_lt_upper_bound; lia).
    assert (0 <= i / 4) by (apply Z.div_pos; lia). lia.
Qed.

Lemma with_tables_blocks a a' : a' = with_tables (tables a') a -> n_blocks_of a' = n_blocks_of a.
Proof. by intros ->. Qed.

Section Sweep.
Context (h : heap_t) (k : nat) (a : area_t) (Hk : areas h !! k = Some a) (Ha : area_ok a) (Hko : kinds_ok a).

(** The variable [free_tail] when block [i] is looked at. *)
Definition tail_inv (i : Z) (free_tail : bool) : Prop := 0 < i -> kind_of a (i - 1) <> AT_FREE -> free_tail = negb (live a (i - 1)).

Lemma wp_sweep_block i ft lu a' (Q : bool * Z -> heap_t -> Prop) :
  swept_to a i a' -> 0 <= i <= n_blocks_of a -> tail_inv i ft -> lu = last_live a (Z.to_nat i) ->
  (forall ft' a'', swept_to a (i + 1) a'' -> tail_inv (i + 1) ft' -> Q (ft', last_live a (Z.to_nat (i + 1))) (put_area k a'' h)) ->
  wp (kind ← ATB_GET_KIND k i;
      if kind =? AT_HEAD then ATB_ANY_TO_FREE k i;; mret (true, lu)
      else if kind =? AT_TAIL then if ft then ATB_ANY_TO_FREE k i;; mret (ft, lu) else mret (ft, i)
      else if kind =? AT_MARK then ATB_MARK_TO_HEAD k i;; mret (false, i)
      else mret (ft, lu)) (put_area k a' h) Q.
Proof.
  intros Hs Hi Hft -> HQ. pose proof (st_ok _ _ _ Hs) as Ha'. pose proof (with_tables_blocks _ _ (st_fields _ _ _ Hs)) as Hn.
  assert (areas (put_area k a' h) !! k = Some a') as Hk' by (by apply put_area_lookup with a).
  apply wp_bind, (wp_kind _ k a' Hk' Ha'); [lia|].
  assert (kind_of a' i = kind_of a i) as Hki.
  { destruct (Z.eq_dec i (n_blocks_of a)) as [->|]; [rewrite <-Hn at 1; by rewrite !kind_past|].
    rewrite (st_kind _ _ _ Hs) by lia. by rewrite (proj2 (Z.ltb_ge i i)) by lia. }
  rewrite Hki. pose proof (live_unfold a i ltac:(lia)) as Hlive. pose proof (last_live_S a i ltac:(lia)) as Hlast.
  assert (kind_of a i <> AT_FREE -> i < n_blocks_of a) as Hin.
  { intros Hnf. destruct (Z.eq_dec i (n_blocks_of a)) as [He|]; [|lia]. by rewrite He, kind_past in Hnf. }
  assert (forall ft', live a i = negb ft' -> tail_inv (i + 1) ft') as Htail.
  { intros ft' He _ _. replace (i + 1 - 1) with i by lia. by rewrite He, negb_involutive. }
  unfold post_kind in *. destruct (kind_cases a i) as [He | [He | [He | He]]]; rewrite He in *; cbn in Hlive; rewrite Hlive in Hlast; cbn [Z.eqb Pos.eqb AT_FREE AT_HEAD AT_TAIL AT_MARK].
  - apply wp_ret. rewrite <-Hlast. apply HQ; [apply swept_same; [done|lia|]|].
    + intros _. unfold post_kind. by rewrite He, Hlive.
    + intros _. replace (i + 1 - 1) with i by lia. by rewrite He.
  - specialize (Hin ltac:(done)). apply wp_bind, (wp_ANY_TO_FREE _ k a' Hk' Ha'); [lia|]. rewrite put_area_put. apply wp_ret. rewrite <-Hlast.
    apply HQ; [|by apply Htail]. apply swept_set; [done|lia|unfold post_kind; by rewrite He, Hlive|done].
  - specialize (Hin ltac:(done)). destruct (ko_tail _ Hko i ltac:(lia) He) as [Hpos Hprev]. rewrite (proj2 (Z.ltb_lt 0 i)) in Hlive, Hlast by lia.
    cbn [andb] in Hlive, Hlast. rewrite (Hft Hpos Hprev). destruct (live a (i - 1)) eqn:Hl1; cbn [negb].
    + apply wp_ret. rewrite Hlast in HQ. apply HQ; [|by apply Htail]. apply swept_same; [done|lia|]. intros _. unfold post_kind. by rewrite He, Hlive.
    + apply wp_bind, (wp_ANY_TO_FREE _ k a' Hk' Ha'); [lia|]. rewrite put_area_put. apply wp_ret. rewrite <-Hlast.
      apply HQ; [|by apply Htail]. apply swept_set; [done|lia|unfold post_kind; by rewrite He, Hlive|done].
  - specialize (Hin ltac:(done)). apply wp_bind, (wp_MARK_TO_HEAD _ k a' Hk' Ha'); [lia|by rewrite Hki|]. rewrite put_area_put. apply wp_ret.
    rewrite Hlast in HQ. apply HQ; [|by apply Htail]. apply swept_set; [done|lia|unfold post_kind; by rewrite He|done].
Qed.

Lemma wp_sweep_blocks n : forall i ft lu a' (Q : bool * Z -> heap_t -> Prop),
  swept_to a i a' -> 0 <= i -> i + Z.of_nat n <= n_blocks_of a + 1 -> tail_inv i ft -> lu = last_live a (Z.to_nat i) ->
  (forall ft' a'', swept_to a (i + Z.of_nat n) a'' -> Q (ft', last_live a (Z.to_nat (i + Z.of_nat n))) (put_area k a'' h)) ->
  wp (sweep_blocks n k i ft lu) (put_area k a' h) Q.
Proof.
  induction n as [|n IH]; intros i ft lu a' Q Hs Hi Hn Hft Hlu HQ; cbn [sweep_blocks].
  { rewrite Z.add_0_r in HQ. apply wp_ret. rewrite Hlu. by apply HQ. }
  apply wp_bind_assoc, wp_bind, wp_sweep_block; [done|lia|done|done|]. intros ft' a'' Hs' Hft'.
  apply IH; [done|lia|lia|done|done|]. replace (i + 1 + Z.of_nat n) with (i + Z.of_nat (S n)) by lia. done.
Qed.
End Sweep.

(** ** The list of areas *)

Definition last_used' (a : area_t) : Z := last_live a (Z.to_nat (gc_last_used_block a + 1)).

Record swept (a a' : area_t) : Prop := {
  sp_fields : a' = with_last_used (last_used' a) (with_tables (tables a') a);
  sp_ok : area_ok a';
  sp_kind b : 0 <= b < n_blocks_of a -> kind_of a' b = post_kind a b;
  sp_rest j : (Z.to_nat (gc_alloc_table_byte_len a) <= j)%nat -> nth j (tables a') 0 = nth j (tables a) 0 }.

(** An area that the sweep found empty, unless it is the first one. *)
Definition given_back (k : nat) (a : area_t) : bool := (gc_last_used_block a =? 0) && negb (k =? 0)%nat.
Fixpoint kept_from (k : nat) (l : list area_t) : list area_t :=
  match l with [] => [] | a :: l => if given_back k a then kept_from k l else a :: kept_from (S k) l end.
Fixpoint freed_from (k : nat) (l : list area_t) : list gc_event :=
  match l with [] => [] | a :: l => if given_back k a then FreeHeap (area_addr a) :: freed_from k l else freed_from (S k) l end.

Lemma live_free a b : 0 <= b -> kind_of a b = AT_FREE -> live a b = false.
Proof. intros Hb Hk. rewrite live_unfold by done. by rewrite Hk. Qed.

Lemma post_kind_free a b : 0 <= b -> kind_of a b = AT_FREE -> post_kind a b = AT_FREE.
Proof. intros Hb Hk. unfold post_kind. by rewrite live_free, Hk. Qed.

Lemma swept_to_swept a a' : area_ok a -> kinds_ok a -> swept_to a (gc_last_used_block a + 1) a' -> swept a (with_last_used (last_used' a) a').
Proof.
  intros Ha Hko [Hf Hok Hk Hr]. split.
  - by rewrite Hf.
  - by destruct Hok as [? ? ? ? ? ? ? ?]; split.
  - intros b Hb. change (kind_of a' b = post_kind a b). rewrite Hk by done. destruct (Z.ltb_spec b (gc_last_used_block a + 1)); [done|].
    assert (kind_of a b = AT_FREE) as He by (apply (ko_free _ Hko); lia). rewrite He. symmetry. apply post_kind_free; [lia|done].
  - done.
Qed.

Lemma wp_sweep_areas rest : forall done h ft (Q : unit -> heap_t -> Prop), areas h = done ++ rest -> Forall sweepable rest ->
  (forall l, Forall2 swept rest l ->
     Q tt (add_events (freed_from (length done) l) (with_areas (done ++ kept_from (length done) l) h))) ->
  wp (sweep_areas (length rest) (length done) ft) h Q.
Proof.
  induction rest as [|a rest IH]; intros done h ft Q Ha Hok HQ; cbn [length sweep_areas].
  { apply wp_ret. specialize (HQ [] ltac:(constructor)). cbn in HQ. rewrite add_events_nil, <-Ha in HQ. by destruct h. }
  apply Forall_cons in Hok as [[Hoka Hko _] Hok]. pose proof (ko_last_used _ Hko) as Hlu. set (k := length done) in *.
  assert (areas h !! k = Some a) as Hk by (rewrite Ha, lookup_app_r by done; by rewrite Nat.sub_diag).
  apply wp_bind, (wp_get_area h k a Hk). apply wp_bind, wp_assert; [lia|]. apply wp_bind. rewrite <-(put_area_id k a h Hk) at 1.
  apply (wp_sweep_blocks h k a Hk Hoka Hko); [ |lia|lia|unfold tail_inv; lia|done|].
  { split; [by destruct a|done| |done]. intros b Hb. by rewrite (proj2 (Z.ltb_ge b 0)) by lia. }
  intros ft' a1 Hs. rewrite Z.add_0_l, Z2Nat.id in * by lia. fold (last_used' a).
  apply swept_to_swept in Hs as Hsw; [|done|done]. set (a' := with_last_used (last_used' a) a1) in *.
  apply wp_bind, (wp_upd_area _ k a1); [by apply put_area_lookup with a|]. fold a'. rewrite put_area_put.
  assert (areas (put_area k a' h) = done ++ a' :: rest) as Ha'.
  { cbn. rewrite Ha. replace k with (length done + 0)%nat by lia. by rewrite insert_app_r. }
  change ((last_used' a =? 0) && negb (k =? 0)%nat) with (given_back k a'). destruct (given_back k a') eqn:Hg.
  - apply wp_bind, wp_modify. assert (area_addr a = area_addr a') as -> by (by rewrite (sp_fields _ _ Hsw)).
    apply IH; [cbn [areas with_event with_areas]; rewrite Ha'; by apply delete_middle|done|].
    intros l Hl. specialize (HQ (a' :: l) ltac:(by constructor)). cbn [kept_from freed_from] in HQ. rewrite Hg in HQ.
    change (FreeHeap (area_addr a') :: freed_from k l) with ([FreeHeap (area_addr a')] ++ freed_from k l) in HQ. by rewrite <-add_events_app in HQ.
  - replace (S k) with (length (done ++ [a'])) by (rewrite length_app; cbn; lia). apply IH; [by rewrite Ha', <-app_assoc|done|].
    intros l Hl. specialize (HQ (a' :: l) ltac:(by constructor)). cbn [kept_from freed_from] in HQ. rewrite Hg in HQ.
    rewrite length_app, Nat.add_1_r, <-app_assoc. done.
Qed.

Lemma wp_gc_sweep_free_blocks h (Q : unit -> heap_t -> Prop) : Forall sweepable (areas h) ->
  (forall l, Forall2 swept (areas h) l -> Q tt (add_events (freed_from 0 l) (with_areas (kept_from 0 l) h))) -> wp gc_sweep_free_blocks h Q.
Proof. intros Hok HQ. unfold gc_sweep_free_blocks. apply wp_bind, wp_gets. by apply (wp_sweep_areas _ []). Qed.

(** A swept area is in good order again. *)
Lemma swept_sweepable a a' : sweepable a -> swept a a' -> sweepable a' /\ forall b, 0 <= b < n_blocks_of a -> kind_of a' b <> AT_MARK.
Proof.
  intros [Ha Hko Hlu] [Hf Hok Hk Hr]. pose proof (ko_last_used _ Hko) as Hr0.
  assert (n_blocks_of a' = n_blocks_of a /\ gc_last_used_block a' = last_used' a /\ ftb_len a' = ftb_len a) as (Hn & Hl & Hfl) by (by rewrite Hf).
  assert (0 <= last_used' a <= gc_last_used_block a) as Hb.
  { unfold last_used'. destruct (last_live_in a (Z.to_nat (gc_last_used_block a + 1))) as [->|[? _]]; lia. }
  split.
  - split; [done| |rewrite Hl, Hfl; lia]. split.
    + rewrite Hl, Hn. lia.
    + intros b Hb'. rewrite Hl, Hn in Hb'. rewrite Hk by lia. destruct (Z.lt_ge_cases (gc_last_used_block a) b).
      { apply post_kind_free; [lia|]. apply (ko_free _ Hko). lia. }
      assert (live a b = false) as Hlv.
      { destruct (live a b) eqn:E; [|done]. apply (last_live_max a (Z.to_nat (gc_last_used_block a + 1))) in E; [|lia]. fold (last_used' a) in E. lia. }
      unfold post_kind. rewrite Hlv. destruct (Z.eqb_spec (kind_of a b) AT_MARK) as [He|]; [|done].
      rewrite live_unfold, He in Hlv by lia. done.
    + intros b Hb'. rewrite Hn in Hb'. rewrite Hk by done. unfold post_kind at 1. destruct (Z.eqb_spec (kind_of a b) AT_MARK) as [|Hnm]; [done|].
      destruct (live a b) eqn:E; [|done]. intros _. apply live_kind in E as [?|(_ & Hpos & Hlp)]; [done| |lia]. split; [done|].
      rewrite Hk by lia. unfold post_kind. rewrite Hlp. by destruct (kind_of a (b - 1) =? AT_MARK).
  - intros b Hb'. rewrite Hk by done. unfold post_kind. by destruct (kind_of a b =? AT_MARK), (live a b).
Qed.
