(* ===== verification/GcProps.v ===== *)
(** * Collection keeps what is reachable

    The mark phase, the finalisers and the sweep together: a collection ends,
    keeps every block of every reachable chain, frees the rest, and leaves a
    heap in good order. *)
From Stdlib Require Import ZifyBool.
From S2P Require Import Prelude.
From S2P Require Import CMem.
From S2P Require Import BitFields.
From S2P Require Import Gc.
From S2P Require Import GcCollect.
From S2P Require Import GcFacts.
From S2P Require Import GcMark.
From S2P Require Import GcSweep.
Local Open Scope Z_scope.

(** ** The specification *)

(** A heap between two collections. *)
Record heap_ok (h : heap_t) : Prop := {
  ho_areas : Forall sweepable (areas h);
  ho_unmarked : unmarked h;
  ho_lock : 0 <= gc_lock_depth h < 2 ^ 16 /\ Z.land (gc_lock_depth h) GC_COLLECT_FLAG = 0 }.

(** The block is part of the chain of a reachable head. *)
Definition survives (h : heap_t) (R : node -> Prop) (m : node) : Prop :=
  exists a b n, areas h !! m.1 = Some a /\ reach h R (m.1, b) /\ 0 <= b /\ chain a b n /\ b <= m.2 < b + n.

(** An area [a], number [k] of heap [h], before and after a collection. *)
Record collected (h : heap_t) (R : node -> Prop) (k : nat) (a a' : area_t) : Prop := {
  co_fields : a' = MkArea (area_addr a) (gc_alloc_table_byte_len a) (tables a') (gc_pool_start a) (gc_pool_end a) (pool a') 0 (gc_last_used_block a');
  co_ok : sweepable a';
  co_kept b : 0 <= b < n_blocks_of a -> survives h R (k, b) -> kind_of a' b = kind_of a b /\ b <= gc_last_used_block a';
  co_words b i : 0 <= b < n_blocks_of a -> survives h R (k, b) -> 4 * b <= i < 4 * b + 4 -> pool a' !! Z.to_nat i = pool a !! Z.to_nat i;
  co_freed b : 0 <= b < n_blocks_of a -> kind_of a' b <> AT_FREE -> survives h R (k, b);
  co_flag b : 0 <= b < n_blocks_of a -> kind_of a b <> AT_HEAD \/ reach h R (k, b) -> ftb_of a' b = ftb_of a b;
  co_clear b : 0 <= b < n_blocks_of a -> kind_of a b = AT_HEAD -> ~ reach h R (k, b) -> ftb_of a' b = false;
  co_last : gc_last_used_block a' = 0 \/ survives h R (k, gc_last_used_block a') }.

(** The finalisers that run: of the unreachable heads with a flag and a type, in
    the order of the blocks. *)
Definition finalises (h : heap_t) (R : node -> Prop) (k : nat) (a : area_t) (es : list gc_event) : Prop :=
  exists dead : Z -> bool,
    (forall b, 0 <= b < n_blocks_of a -> dead b = true <->
       kind_of a b = AT_HEAD /\ ftb_of a b = true /\ nth (Z.to_nat (4 * b)) (pool a) 0 <> 0 /\ ~ reach h R (k, b)) /\
    es = concat (map (fun b => if dead (Z.of_nat b) then [Finalise (PTR_FROM_BLOCK a (Z.of_nat b))] else []) (seq 0 (Z.to_nat (n_blocks_of a)))).

(** The heap [h'] after a collection of [h] with the roots [ws]. *)
Definition collects (h : heap_t) (ws : list (list Z)) (h' : heap_t) : Prop :=
  exists l ess, length l = length (areas h) /\ length ess = length (areas h) /\
    (forall k a, areas h !! k = Some a -> exists a' es, l !! k = Some a' /\ ess !! k = Some es /\
       collected h (roots_of h ws) k a a' /\ finalises h (roots_of h ws) k a es) /\
    h' = MkHeap (kept_from 0 l) 0 false (gc_lock_depth h) (gc_auto_collect_enabled h) (gc_alloc_threshold h) 0
           (events h ++ concat ess ++ freed_from 0 l).

(** ** Live blocks are the blocks of marked chains *)

Lemma live_tails a b0 n : 0 <= b0 -> kind_of a b0 = AT_MARK -> (forall i, 0 < i <= Z.of_nat n -> kind_of a (b0 + i) = AT_TAIL) ->
  live a (b0 + Z.of_nat n) = true.
Proof.
  intros Hb Hm. induction n as [|n IH]; intros Ht; rewrite live_unfold by lia.
  - by rewrite Z.add_0_r, Hm.
  - rewrite Ht by lia. cbn. rewrite (proj2 (Z.ltb_lt 0 _)) by lia. replace (b0 + Z.of_nat (S n) - 1) with (b0 + Z.of_nat n) by lia.
    apply IH. intros i Hi. apply Ht. lia.
Qed.

Lemma live_head a n : live a (Z.of_nat n) = true ->
  exists b0, 0 <= b0 <= Z.of_nat n /\ kind_of a b0 = AT_MARK /\ forall i, b0 < i <= Z.of_nat n -> kind_of a i = AT_TAIL.
Proof.
  induction n as [|n IH]; intros Hl; apply live_kind in Hl as [Hm|(Ht & Hp & Hl)]; try lia.
  - exists 0. split; [lia|]. split; [done|lia].
  - exists (Z.of_nat (S n)). split; [lia|]. split; [done|lia].
  - replace (Z.of_nat (S n) - 1) with (Z.of_nat n) in Hl by lia. destruct (IH Hl) as (b0 & Hb & Hm & Hts).
    exists b0. split; [lia|]. split; [done|]. intros i Hi. destruct (Z.eq_dec i (Z.of_nat (S n))) as [->|]; [done|]. apply Hts. lia.
Qed.

Lemma live_chain a b : area_ok a -> 0 <= b < n_blocks_of a -> live a b = true <->
  exists b0 n, 0 <= b0 /\ kind_of a b0 = AT_MARK /\ chain a b0 n /\ b0 <= b < b0 + n.
Proof.
  intros Ha Hb. split.
  - intros Hl. rewrite <-(Z2Nat.id b) in Hl by lia. apply live_head in Hl as (b0 & Hb0 & Hm & Ht). rewrite Z2Nat.id in * by lia.
    destruct (chain_exists a b0 Ha ltac:(lia)) as [n Hn]. exists b0, n. split; [lia|]. split; [done|]. split; [done|].
    split; [lia|]. destruct (Z.lt_ge_cases b (b0 + n)) as [|Hge]; [done|]. destruct Hn as (H1 & _ & _ & He). destruct He. apply Ht. lia.
  - intros (b0 & n & Hb0 & Hm & (_ & _ & Ht & _) & Hbn). replace b with (b0 + Z.of_nat (Z.to_nat (b - b0))) by lia.
    apply live_tails; [done|done|]. intros i Hi. apply Ht. lia.
Qed.

(** ** One area through a collection *)

Section Area.
Context (h : heap_t) (R : node -> Prop) (k : nat) (a a1 a2 a3 : area_t).
Context (Hk : areas h !! k = Some a) (Hsw : sweepable a) (Hun : forall b, 0 <= b < n_blocks_of a -> kind_of a b <> AT_MARK).
Context (Hs : same_area a a1) (Hm : forall b, 0 <= b < n_blocks_of a -> kind_of a1 b = AT_MARK <-> reach h R (k, b)).
Context (Hf : fin_done a1 a2) (Hsp : swept a2 a3).

Lemma area_1 : n_blocks_of a1 = n_blocks_of a /\ ftb_len a1 = ftb_len a /\ ftb_offset a1 = ftb_offset a /\ area_ok a1.
Proof. destruct Hs as (-> & Hok & _). done. Qed.

Lemma area_2 : n_blocks_of a2 = n_blocks_of a /\ area_ok a2 /\ a2 = with_pool (pool a2) (with_tables (tables a2) a).
Proof.
  destruct area_1 as (Hn & _). split; [by rewrite (fd_fields _ _ Hf)|]. split; [by apply (fd_ok _ _ Hf)|].
  rewrite (fd_fields _ _ Hf). by rewrite (proj1 Hs).
Qed.

Lemma area_2_kind b : 0 <= b <= n_blocks_of a -> kind_of a2 b = kind_of a1 b.
Proof.
  intros Hb. destruct area_1 as (Hn & _ & _ & Hok1). unfold kind_of. rewrite (fd_atb _ _ Hf); [done|].
  pose proof (atb_index a1 b Hok1 ltac:(lia)). lia.
Qed.

Lemma area_1_kind b : 0 <= b < n_blocks_of a -> kind_of a1 b = (if kind_of a1 b =? AT_MARK then AT_MARK else kind_of a b) /\
  (kind_of a1 b = AT_MARK -> kind_of a b = AT_HEAD).
Proof.
  intros Hb. destruct Hs as (_ & _ & _ & Hk1). destruct (Hk1 b ltac:(lia)) as [He|[Hh He]].
  - rewrite He. pose proof (Hun b Hb). rewrite (proj2 (Z.eqb_neq _ _)) by done. done.
  - by rewrite He.
Qed.

Lemma area_live b : 0 <= b < n_blocks_of a -> live a2 b = true <-> survives h R (k, b).
Proof.
  intros Hb. destruct area_2 as (Hn & Hok & _). rewrite live_chain by (done || lia).
  assert (forall b0 n, 0 <= b0 -> chain a2 b0 n <-> chain a b0 n) as Hc.
  { intros b0 n Hb0. rewrite (chain_ext a1 a2).
    - by apply remark_chain.
    - destruct area_1 as (-> & _). done.
    - done.
    - intros x Hx. apply area_2_kind. by destruct area_1 as (<- & _). }
  split.
  - intros (b0 & n & Hb0 & Hmk & Hch & Hbn). apply Hc in Hch; [|done]. exists a, b0, n. cbn. split; [done|].
    destruct Hch as (H1 & H2 & H3). rewrite area_2_kind in Hmk by lia. apply Hm in Hmk; [|lia]. done.
  - intros (a' & b0 & n & Ha' & Hr & Hb0 & Hch & Hbn). cbn in *. simplify_eq. exists b0, n. split; [done|].
    destruct Hch as (H1 & H2 & H3). split; [rewrite area_2_kind by lia; apply Hm; [lia|done]|]. split; [by apply Hc|done].
Qed.

(** The words of a live block: no chain of an unmarked head has them. *)
Lemma area_words b i : 0 <= b < n_blocks_of a -> survives h R (k, b) -> 4 * b <= i < 4 * b + 4 -> pool a2 !! Z.to_nat i = pool a !! Z.to_nat i.
Proof.
  intros Hb (a' & b1 & n1 & Ha' & Hr & Hb1 & (_ & C2 & C3 & _) & Hbn) Hi. cbn in *. simplify_eq.
  destruct area_1 as (Hn & _). rewrite (fd_words _ _ Hf i); [|lia|].
  - by rewrite (proj1 Hs).
  - rewrite Hn. intros b0 m Hb0 Hh (_ & _ & H3 & _) Hin. destruct (area_1_kind b0 Hb0) as [Hk0 _].
    rewrite Hh in Hk0. cbn in Hk0. assert (kind_of a1 b1 = AT_MARK) as Hmk by (apply Hm; [lia|done]).
    destruct (Z.lt_total b0 b1) as [Hlt|[->|Hlt]].
    + specialize (H3 (b1 - b0) ltac:(lia)). replace (b0 + (b1 - b0)) with b1 in H3 by lia. by rewrite Hmk in H3.
    + by rewrite Hmk in Hh.
    + specialize (C3 (b0 - b1) ltac:(lia)). replace (b1 + (b0 - b1)) with b0 in C3 by lia. by rewrite <-Hk0 in C3.
Qed.

Lemma area_flag b : 0 <= b < n_blocks_of a -> ftb_of a3 b = ftb_of a b && negb (kind_of a1 b =? AT_HEAD).
Proof.
  intros Hb. destruct area_1 as (Hn & Hfl & Hfo & Hok1). pose proof (ftb_blocks _ Hok1). destruct area_2 as (_ & _ & Hf2).
  assert (0 <= b / 8) by (apply Z.div_pos; lia). pose proof (ao_len _ (sw_ok _ Hsw)).
  assert (ftb_of a3 b = ftb_of a2 b) as ->.
  { unfold ftb_of. assert (ftb_offset a3 = ftb_offset a2) as -> by (by rewrite (sp_fields _ _ Hsp)). rewrite (sp_rest _ _ Hsp); [done|].
    rewrite Hf2. unfold ftb_offset, ALLOC_TABLE_GAP_BYTE. cbn. lia. }
  rewrite (fd_ftb _ _ Hf) by lia. f_equal. unfold ftb_of. rewrite Hfo. destruct Hs as (_ & _ & Hrest & _). rewrite Hrest; [done|].
  unfold ftb_offset, ALLOC_TABLE_GAP_BYTE. lia.
Qed.

Lemma area_head b : 0 <= b < n_blocks_of a -> kind_of a1 b = AT_HEAD <-> kind_of a b = AT_HEAD /\ ~ reach h R (k, b).
Proof.
  intros Hb. rewrite <-Hm by done. destruct (area_1_kind b Hb) as [He Hh]. destruct (Z.eqb_spec (kind_of a1 b) AT_MARK) as [Hmk|Hmk].
  - rewrite Hmk. split; [done|]. by intros [_ ?].
  - rewrite He. split; [|tauto]. intros Hx. split; [done|]. rewrite Hx. done.
Qed.

Lemma area_finalises : finalises h R k a (fin_events a1 (n_blocks_of a1)).
Proof.
  destruct area_1 as (Hn & _ & Hfo & _). assert (pool a1 = pool a /\ gc_pool_start a1 = gc_pool_start a) as [Hp Hst] by (by rewrite (proj1 Hs)).
  exists (finalised a1). split.
  - intros b Hb. unfold finalised. rewrite Hp. assert (ftb_of a1 b = ftb_of a b) as ->.
    { unfold ftb_of. rewrite Hfo. destruct Hs as (_ & _ & Hrest & _). rewrite Hrest; [done|]. unfold ftb_offset, ALLOC_TABLE_GAP_BYTE.
      assert (0 <= b / 8) by (apply Z.div_pos; lia). pose proof (ao_len _ (sw_ok _ Hsw)). lia. }
    rewrite !andb_true_iff, negb_true_iff, Z.eqb_eq, Z.eqb_neq, area_head by done. tauto.
  - unfold fin_events, fin_event. rewrite Hn. f_equal. apply map_ext. intros b. unfold PTR_FROM_BLOCK. by rewrite Hst.
Qed.

Lemma area_clean : sweepable (with_last_free 0 a3) /\ forall b, 0 <= b < n_blocks_of a -> kind_of (with_last_free 0 a3) b <> AT_MARK.
Proof.
  destruct area_2 as (Hn & Hok2 & Hf2). assert (sweepable a2) as Hsw2.
  { destruct Hsw as [Ha [Hl Hfr Htl] Hft]. destruct Hs as (_ & _ & _ & Hks).
    assert (gc_last_used_block a2 = gc_last_used_block a /\ ftb_len a2 = ftb_len a) as [Hlu Hfl] by (by rewrite Hf2).
    split; [done| |by rewrite Hlu, Hfl]. split.
    - by rewrite Hlu, Hn.
    - intros b Hb. rewrite Hlu, Hn in Hb. rewrite area_2_kind by lia. destruct (Hks b ltac:(lia)) as [->|[Hh _]]; [by apply Hfr|]. rewrite Hfr in Hh by lia. done.
    - intros b Hb Ht. rewrite Hn in Hb. rewrite area_2_kind in Ht by lia. destruct (Hks b ltac:(lia)) as [He | [_ He]]; [|by rewrite He in Ht].
      rewrite He in Ht. destruct (Htl b Hb Ht) as [Hp Hnf]. split; [done|]. rewrite area_2_kind by lia.
      destruct (Hks (b - 1) ltac:(lia)) as [->|[_ ->]]; done. }
  destruct (swept_sweepable _ _ Hsw2 Hsp) as [[Ho Hko Hft] Hnm]. rewrite Hn in Hnm. split; [|exact Hnm].
  destruct Ho as [? ? ? ? ? ? ? ?], Hko as [? ? ?]. by split; [split|split|].
Qed.
Lemma area_collected : collected h R k a (with_last_free 0 a3).
Proof.
  destruct area_2 as (Hn & Hok2 & Hf2). destruct area_1 as (Hn1 & _). pose proof (ko_last_used _ (sw_kinds _ Hsw)) as Hlu.
  assert (last_used' a2 = last_live a2 (Z.to_nat (gc_last_used_block a + 1))) as Hlast by (unfold last_used'; by rewrite Hf2).
  assert (forall b, 0 <= b < n_blocks_of a -> gc_last_used_block a < b -> live a2 b = false) as Hpast.
  { intros b Hb Hlt. apply live_free; [lia|]. rewrite area_2_kind by lia. destruct Hs as (_ & _ & _ & Hks).
    assert (kind_of a b = AT_FREE) as Hfr by (apply (ko_free _ (sw_kinds _ Hsw)); lia). destruct (Hks b ltac:(lia)) as [-> | [Hh _]]; [done|]. by rewrite Hfr in Hh. }
  assert (gc_last_used_block (with_last_free 0 a3) = last_used' a2) as Hlu3 by (by rewrite (sp_fields _ _ Hsp)).
  split.
  - rewrite (sp_fields _ _ Hsp), Hf2. done.
  - apply area_clean.
  - intros b Hb Hsv. apply area_live in Hsv as Hl; [|done]. split.
    + change (kind_of a3 b = kind_of a b). rewrite (sp_kind _ _ Hsp) by lia. unfold post_kind. rewrite Hl, area_2_kind by lia.
      destruct (area_1_kind b Hb) as [He Hh]. destruct (Z.eqb_spec (kind_of a1 b) AT_MARK) as [Hmk|Hmk]; [by rewrite Hh|].
      rewrite <-He. apply live_kind in Hl as [Hl|(Hl & _)]; [|by rewrite <-area_2_kind by lia|lia].
      rewrite area_2_kind in Hl by lia. done.
    + rewrite Hlu3, Hlast. apply last_live_max; [|done]. destruct (Z.le_gt_cases b (gc_last_used_block a)); [lia|].
      by rewrite Hpast in Hl by lia.
  - intros b i Hb Hsv Hi. rewrite <-(area_words b i) by done. cbn [pool with_last_free]. by rewrite (sp_fields _ _ Hsp).
  - intros b Hb. change (kind_of a3 b <> AT_FREE -> survives h R (k, b)). rewrite (sp_kind _ _ Hsp) by lia. unfold post_kind. intros Hnf.
    apply area_live; [done|]. destruct (live a2 b) eqn:Hl; [done|]. exfalso. apply Hnf.
    destruct (Z.eqb_spec (kind_of a2 b) AT_MARK) as [He|]; [|done]. rewrite live_unfold, He in Hl by lia. done.
  - intros b Hb Hor. change (ftb_of (with_last_free 0 a3) b) with (ftb_of a3 b). rewrite area_flag by done.
    rewrite (proj2 (Z.eqb_neq _ _)); [by rewrite andb_true_r|]. rewrite area_head by done. tauto.
  - intros b Hb Hh Hr. change (ftb_of (with_last_free 0 a3) b) with (ftb_of a3 b). rewrite area_flag by done.
    rewrite (proj2 (Z.eqb_eq _ _)); [by rewrite andb_false_r|]. by rewrite area_head by done.
  - rewrite Hlu3, Hlast. destruct (last_live_in a2 (Z.to_nat (gc_last_used_block a + 1))) as [?|[Hr Hl]]; [by left|right].
    set (x := last_live _ _) in *. destruct (Z.lt_ge_cases x (n_blocks_of a)); [by apply area_live; [lia|]|].
    assert (x = n_blocks_of a) as He by lia. rewrite He in Hl. rewrite live_free in Hl; [done|lia|]. rewrite <-Hn. by apply kind_past.
Qed.
End Area.

(** ** The whole heap *)

Lemma reach_areas h h' R n : areas h = areas h' -> reach h R n -> reach h' R n.
Proof.
  intros He. induction 1 as [n Hn|n m Hn IH Hp]; [by apply reach_root|]. eapply reach_step; [exact IH|].
  destruct h, h'. cbn in He. by subst.
Qed.

Lemma marked_areas h h' n : areas h = areas h' -> marked h n -> marked h' n.
Proof. intros He. unfold marked, in_heap, kind. by rewrite He. Qed.

Lemma wp_bind_inv {A B} (c : Mg A) (k : A -> Mg B) s Q : wp (c ≫= k) s Q -> wp c s (fun a s' => wp (k a) s' Q).
Proof. unfold wp, mbind, M_bind. by destruct (c s) as [[a s']|]. Qed.

Lemma kept_from_in k l a : a ∈ kept_from k l -> a ∈ l.
Proof.
  revert k. induction l as [|x l IH]; intros k; cbn [kept_from]; [done|]. destruct (given_back k x).
  - intros Ha. apply list_elem_of_further. by eapply IH.
  - intros [->|Ha]%elem_of_cons; [apply list_elem_of_here|apply list_elem_of_further; by eapply IH].
Qed.

Lemma kept_from_map k l : kept_from k (map (with_last_free 0) l) = map (with_last_free 0) (kept_from k l).
Proof.
  revert k. induction l as [|x l IH]; intros k; cbn [kept_from map]; [done|].
  change (given_back k (with_last_free 0 x)) with (given_back k x). destruct (given_back k x); cbn [map]; by rewrite IH.
Qed.
Lemma freed_from_map k l : freed_from k (map (with_last_free 0) l) = freed_from k l.
Proof.
  revert k. induction l as [|x l IH]; intros k; cbn [freed_from map]; [done|].
  change (given_back k (with_last_free 0 x)) with (given_back k x). destruct (given_back k x); by rewrite IH.
Qed.

Lemma wp_reset_last_free h (Q : unit -> heap_t -> Prop) :
  Q tt (with_areas (map (with_last_free 0) (areas h)) h) -> wp (for_areas (fun k => upd_area k (with_last_free 0))) h Q.
Proof.
  intros HQ. apply (wp_for_areas (fun _ => True) (fun a a' es => a' = with_last_free 0 a /\ es = [])); [by apply Forall_true| |].
  - intros k a s Hk _. apply (wp_upd_area s k a Hk). exists (with_last_free 0 a), []. by rewrite add_events_nil.
  - intros l ess Hl. assert (l = map (with_last_free 0) (areas h) /\ concat ess = []) as [-> ->].
    { clear HQ. induction Hl as [|a a' es l1 l2 l3 [-> ->] Hl [-> IH]]; [done|]. by split. }
    by rewrite add_events_nil.
Qed.

(** Setting and clearing the flag of a collection keeps the lock depth. *)
Lemma lock_flag d : 0 <= d < 2 ^ 16 -> Z.land d GC_COLLECT_FLAG = 0 -> u16 (Z.land (u16 (Z.lor d GC_COLLECT_FLAG)) (Z.lnot GC_COLLECT_FLAG)) = d.
Proof.
  intros Hd Hf. unfold GC_COLLECT_FLAG in *. apply Z.bits_inj'. intros i Hi. unfold uwrap.
  destruct (Z.lt_ge_cases i 16) as [Hlt|Hge].
  - rewrite Z.mod_pow2_bits_low, Z.land_spec, Z.mod_pow2_bits_low, Z.lor_spec, Z.lnot_spec by lia. change 1 with (2 ^ 0). rewrite Z.pow2_bits_eqb by done.
    destruct (Z.eqb_spec 0 i) as [<-|]; [|by rewrite orb_false_r, andb_true_r]. rewrite andb_false_r. symmetry.
    assert (Z.testbit (Z.land d 1) 0 = false) as Hz by (by rewrite Hf). rewrite Z.land_spec in Hz. by rewrite andb_true_r in Hz.
  - rewrite Z.mod_pow2_bits_high by lia. symmetry. rewrite <-(Z.mod_small d (2 ^ 16)) by done. by rewrite Z.mod_pow2_bits_high by lia.
Qed.

Lemma sweepable_areas h : Forall sweepable (areas h) -> heap_areas_ok h.
Proof. intros H. unfold heap_areas_ok. apply (Forall_impl _ _ _ H). by intros a []. Qed.

Lemma same_area_sweepable a a' : same_area a a' -> sweepable a -> sweepable a'.
Proof.
  intros Hs [Ha [Hl Hfr Htl] Hft]. destruct (same_fields _ _ Hs) as (Hn & _). destruct Hs as (He & Hok & _ & Hks).
  assert (gc_last_used_block a' = gc_last_used_block a /\ ftb_len a' = ftb_len a) as [Hlu Hfl] by (by rewrite He).
  split; [done| |by rewrite Hlu, Hfl]. split.
  - by rewrite Hlu, Hn.
  - intros b Hb. rewrite Hlu, Hn in Hb. destruct (Hks b ltac:(lia)) as [->|[Hh _]]; [by apply Hfr|]. rewrite Hfr in Hh by lia. done.
  - intros b Hb Ht. rewrite Hn in Hb. destruct (Hks b ltac:(lia)) as [Hke | [_ Hke]]; [|by rewrite Hke in Ht].
    rewrite Hke in Ht. destruct (Htl b Hb Ht) as [Hp Hnf]. split; [done|]. destruct (Hks (b - 1) ltac:(lia)) as [->|[_ ->]]; done.
Qed.

Lemma fin_done_sweepable a a' : fin_done a a' -> sweepable a -> sweepable a'.
Proof.
  intros [He Hok Hatb _ _] [Ha [Hl Hfr Htl] Hft].
  assert (gc_last_used_block a' = gc_last_used_block a /\ ftb_len a' = ftb_len a /\ n_blocks_of a' = n_blocks_of a) as (Hlu & Hfl & Hn) by (by rewrite He).
  assert (forall b, 0 <= b < n_blocks_of a -> kind_of a' b = kind_of a b) as Hk.
  { intros b Hb. unfold kind_of. rewrite Hatb; [done|]. pose proof (atb_index a b Ha ltac:(lia)). lia. }
  split; [done| |by rewrite Hlu, Hfl]. split.
  - by rewrite Hlu, Hn.
  - intros b Hb. rewrite Hlu, Hn in Hb. rewrite Hk by lia. by apply Hfr.
  - intros b Hb Ht. rewrite Hn in Hb. rewrite Hk in Ht by lia. destruct (Htl b Hb Ht). rewrite Hk by lia. done.
Qed.

Section Collection.
Context `{FinaliserLaws}.

(** The sweep of a heap whose marks are the reachable heads. *)
Lemma wp_sweep h h2 ws (Q : unit -> heap_t -> Prop) : heap_ok h -> Forall2 same_area (areas h) (areas h2) -> (forall m, marked h2 m <-> reach h (roots_of h ws) m) ->
  (forall l ess, length l = length (areas h) -> length ess = length (areas h) ->
    (forall k a, areas h !! k = Some a -> exists a' es, map (with_last_free 0) l !! k = Some (with_last_free 0 a') /\ ess !! k = Some es /\
       collected h (roots_of h ws) k a (with_last_free 0 a') /\ finalises h (roots_of h ws) k a es /\
       sweepable (with_last_free 0 a') /\ forall b, 0 <= b < n_blocks_of a -> kind_of a' b <> AT_MARK) ->
    Q tt (add_events (concat ess ++ freed_from 0 l) (with_areas (kept_from 0 l) h2))) ->
  wp (gc_sweep_run_finalisers;; gc_sweep_free_blocks) h2 Q.
Proof.
  intros [Hsw Hun _] Hra Hm HQ.
  assert (Forall sweepable (areas h2)) as Hsw2.
  { apply Forall_lookup. intros k a2 Ha2. destruct (Forall2_lookup_r _ _ _ _ _ Hra Ha2) as (a & Ha & Hs).
    apply (same_area_sweepable a); [done|]. by eapply (proj1 (Forall_lookup _ _) Hsw). }
  apply wp_bind, wp_gc_sweep_run_finalisers; [done|]. intros l2 Hl2.
  assert (Forall sweepable l2) as Hsw3.
  { apply Forall_lookup. intros k a3 Ha3. destruct (Forall2_lookup_r _ _ _ _ _ Hl2 Ha3) as (a & Ha & Hs).
    apply (fin_done_sweepable a); [done|]. by eapply (proj1 (Forall_lookup _ _) Hsw2). }
  apply wp_gc_sweep_free_blocks; [done|]. cbn [areas add_events with_areas]. intros l Hl.
  pose proof (Forall2_length _ _ _ Hra) as L1. pose proof (Forall2_length _ _ _ Hl2) as L2. pose proof (Forall2_length _ _ _ Hl) as L3.
  specialize (HQ l (map (fun a => fin_events a (n_blocks_of a)) (areas h2)) ltac:(congruence) ltac:(by rewrite length_map)).
  rewrite <-add_events_app in HQ. apply HQ. intros k a Ha.
  destruct (Forall2_lookup_l _ _ _ _ _ Hra Ha) as (a1 & Ha1 & Hs). destruct (Forall2_lookup_l _ _ _ _ _ Hl2 Ha1) as (a2 & Ha2 & Hfd).
  destruct (Forall2_lookup_l _ _ _ _ _ Hl Ha2) as (a3 & Ha3 & Hsp).
  pose proof (proj1 (Forall_lookup _ _) Hsw _ _ Ha) as Hswa. destruct (same_fields _ _ Hs) as (Hn & _).
  assert (forall b, 0 <= b < n_blocks_of a -> kind_of a b <> AT_MARK) as Huna.
  { intros b Hb Hk. apply (Hun (k, b)). split; [by exists a|]. unfold kind. cbn. by rewrite Ha. }
  assert (forall b, 0 <= b < n_blocks_of a -> kind_of a1 b = AT_MARK <-> reach h (roots_of h ws) (k, b)) as Hma.
  { intros b Hb. rewrite <-Hm. unfold marked, kind. cbn. rewrite Ha1. split; [|tauto]. intros Hk. split; [|done]. exists a1. cbn. by rewrite Hn. }
  exists a3, (fin_events a1 (n_blocks_of a1)). split; [by rewrite list_lookup_fmap, Ha3|]. split; [by rewrite list_lookup_fmap, Ha1|].
  split; [by apply (area_collected _ _ _ a a1 a2)|]. split; [by apply area_finalises|].
  by apply (area_clean a a1 a2).
Qed.

(** The heap a collection starts to mark. *)
Definition started (h : heap_t) : heap_t :=
  with_alloc_amount 0 (with_overflow false (with_lock_depth (Z.lor (gc_lock_depth h) GC_COLLECT_FLAG) h)).

Lemma remark_rest h h' : remark h h' -> gc_stack_overflow h' = gc_stack_overflow h -> h' = with_areas (areas h') h.
Proof. intros [_ Hr] Ho. destruct h, h'. unfold with_overflow, with_areas in *. cbn in *. injection Hr as -> -> -> -> -> ->. by subst. Qed.

(** What the mark phase leaves. *)
Lemma wp_mark h ws (Q : unit -> heap_t -> Prop) : heap_ok h ->
  (forall h2, remark (started h) h2 -> h2 = with_areas (areas h2) (started h) -> (forall m, marked h2 m <-> reach h (roots_of h ws) m) -> Q tt h2) ->
  wp (collect_stacks ws;; gc_deal_with_stack_overflow) (started h) Q.
Proof.
  intros Hok HQ. pose proof (sweepable_areas _ (ho_areas _ Hok)) as Hoka. set (h0 := started h) in *. assert (areas h0 = areas h) as He by done.
  assert (unmarked h0) as Hun by (intros m Hm; by apply (ho_unmarked _ Hok m), (marked_areas h0)).
  apply wp_bind, wp_collect_roots; [done|]. intros h1 Hm. pose proof (mk_remark _ _ _ _ Hm) as Hr1.
  apply wp_deal; [by eapply remark_ok| |].
  - intros Hof. eapply marks_closed; [|exact Hm| |done]; [done|]. intros _. left. intros m m' Hc. by destruct (Hun m Hc).
  - intros h2 Hr Hof Hcl Hre. destruct (mark_phase h0 h1 h2 ws Hoka Hun Hm Hr Hcl Hre) as [Hr2 Hiff].
    apply HQ; [done|by apply remark_rest|]. intros m. rewrite Hiff. split; apply reach_areas; done.
Qed.

(** The marks, the finalisers and the sweep, without the brackets of the source. *)
Lemma wp_collect_flat ws rs (Q : unit -> heap_t -> Prop) (k : Mg unit) h :
  wp (collect_stacks (rs :: ws);; gc_deal_with_stack_overflow) h (fun _ h => wp (gc_sweep_run_finalisers;; gc_sweep_free_blocks) h (fun _ h => wp k h Q)) ->
  wp (gc_collect_root rs) h (fun _ h => wp (collect_stacks ws;; gc_deal_with_stack_overflow;; gc_sweep_run_finalisers;; gc_sweep_free_blocks;; k) h Q).
Proof.
  cbn [collect_stacks]. unfold wp, mbind, M_bind. destruct (gc_collect_root _ _) as [[[] s1]|]; [|done].
  destruct (collect_stacks _ s1) as [[[] s2]|]; [|done]. destruct (gc_deal_with_stack_overflow s2) as [[[] s3]|]; [|done].
  destruct (gc_sweep_run_finalisers s3) as [[[] s4]|]; [|done]. by destruct (gc_sweep_free_blocks s4) as [[[] s5]|].
Qed.

Lemma wp_start h (Q : unit -> heap_t -> Prop) rs : heap_ok h -> wp (gc_collect_root rs) (started h) Q -> wp (gc_collect_start rs) h Q.
Proof.
  intros Hok HQ. unfold gc_collect_start, gc_collect_start_common. apply wp_bind, wp_bind. unfold wp at 1, get.
  apply wp_bind, wp_assert; [apply Z.eqb_eq, (ho_lock _ Hok)|]. apply wp_modify, wp_bind, wp_modify. exact HQ.
Qed.

Lemma gc_collect_spec h r : heap_ok h ->
  wp (gc_collect r) h (fun _ h' => collects h (root_section r :: stacks r) h' /\ heap_ok h').
Proof.
  intros Hok. set (ws := root_section r :: stacks r). destruct (ho_lock _ Hok) as [Hld Hlf].
  unfold gc_collect, gc_collect_end. apply wp_bind, wp_start; [done|]. apply wp_collect_flat. fold ws.
  apply wp_mark; [done|]. intros h2 Hr Hh2 Hm.
  apply (wp_sweep h h2 ws); [done|apply Hr|done|]. intros l ess Hl Hess Hall.
  apply wp_bind, wp_modify, wp_bind, wp_reset_last_free, wp_modify.
  set (l' := map (with_last_free 0) l).
  assert (forall k a', l' !! k = Some a' -> exists a, areas h !! k = Some a /\ n_blocks_of a' = n_blocks_of a /\ sweepable a' /\
            forall b, 0 <= b < n_blocks_of a -> kind_of a' b <> AT_MARK) as Hl'.
  { intros k a' Ha'. destruct (lookup_lt_is_Some_2 (areas h) k) as [a Ha].
    { apply lookup_lt_Some in Ha'. unfold l' in Ha'. rewrite length_map in Ha'. lia. }
    destruct (Hall k a Ha) as (a3 & es & H1 & _ & Hc & _ & Hsw & Hnm). fold l' in H1. simplify_eq. exists a. split; [done|].
    split; [by rewrite (co_fields _ _ _ _ _ Hc)|]. split; [done|exact Hnm]. }
  set (hf := MkHeap (kept_from 0 l') 0 false (gc_lock_depth h) (gc_auto_collect_enabled h) (gc_alloc_threshold h) 0
              (events h ++ concat ess ++ freed_from 0 l')).
  match goal with |- _ _ _ ?hx /\ _ => assert (hx = hf) as -> end.
  { rewrite Hh2. unfold with_lock_depth at 1. cbn -[uwrap]. unfold hf, l'. by rewrite lock_flag, kept_from_map, freed_from_map. }
  split.
  - exists l', ess. unfold l' at 1. rewrite length_map. split; [done|]. split; [done|]. split; [|done].
    intros k a Ha. destruct (Hall k a Ha) as (a3 & es & H1 & H2 & H3 & H4 & _). by exists (with_last_free 0 a3), es.
  - assert (forall a, a ∈ kept_from 0 l' -> sweepable a /\ forall b, 0 <= b < n_blocks_of a -> kind_of a b <> AT_MARK) as Hk.
    { intros a Ha. apply kept_from_in, list_elem_of_lookup in Ha as [k Ha]. destruct (Hl' k a Ha) as (a0 & _ & -> & Hsw & Hnm). by split. }
    split; [apply Forall_forall; intros a Ha; by apply Hk| |by split].
    intros [k b] [(a & Ha & Hb) Hkd]. unfold kind in Hkd. rewrite Ha in Hkd. cbn in *. apply list_elem_of_lookup_2 in Ha.
    destruct (Hk a Ha) as [_ Hnm]. by apply (Hnm b).
Qed.

Lemma freed_from_in l : forall k i a, l !! i = Some a -> gc_last_used_block a = 0 -> (k <> 0 \/ i <> 0)%nat -> FreeHeap (area_addr a) ∈ freed_from k l.
Proof.
  induction l as [|x l IH]; intros k i a Hi Hz Hne; [done|]. cbn [freed_from]. destruct i as [|i].
  - injection Hi as ->. unfold given_back. rewrite Hz, (proj2 (Nat.eqb_neq k 0)) by lia. cbn. apply list_elem_of_here.
  - destruct (given_back k x) eqn:Hg.
    + apply list_elem_of_further. apply (IH k i); [done|done|]. left. intros ->. unfold given_back in Hg. by rewrite andb_false_r in Hg.
    + apply (IH (S k) i); [done|done|lia].
Qed.

Lemma kept_lookup l : forall i k a, l !! k = Some a -> gc_last_used_block a <> 0 \/ (i = 0 /\ k = 0)%nat -> exists j, kept_from i l !! j = Some a.
Proof.
  induction l as [|x l IH]; intros i k a Hk Hor; [done|]. cbn [kept_from]. destruct k as [|k].
  - injection Hk as ->. assert (given_back i a = false) as ->; [|by exists 0%nat]. unfold given_back.
    destruct Hor as [Hne|[-> _]]; [by rewrite (proj2 (Z.eqb_neq _ _) Hne)|by rewrite andb_false_r].
  - assert (gc_last_used_block a <> 0) as Hne by (destruct Hor as [?|[_ ?]]; [done|lia]). destruct (given_back i x).
    + by apply (IH i k a); [|left].
    + destruct (IH (S i) k a Hk (or_introl Hne)) as [j Hj]. by exists (S j).
Qed.

(** The areas that are kept and those that are given back. *)
Lemma collects_areas h ws h' : collects h ws h' -> forall k a, areas h !! k = Some a ->
  (exists k' a', areas h' !! k' = Some a' /\ collected h (roots_of h ws) k a a') \/
  k <> 0%nat /\ FreeHeap (area_addr a) ∈ events h' /\ forall b, 0 < b < n_blocks_of a -> ~ survives h (roots_of h ws) (k, b).
Proof.
  intros (l & ess & _ & _ & Hall & ->) k a Ha. cbn [areas events]. destruct (Hall k a Ha) as (a' & es & Hl & _ & Hc & _).
  destruct (decide (gc_last_used_block a' = 0 /\ k <> 0%nat)) as [[Hz Hne]|Hor].
  - right. split; [done|]. split.
    + assert (area_addr a' = area_addr a) as <- by (by rewrite (co_fields _ _ _ _ _ Hc)).
      apply elem_of_app. right. apply elem_of_app. right. apply (freed_from_in l 0 k); [done|done|by right].
    + intros b Hb Hs. apply (co_kept _ _ _ _ _ Hc) in Hs as [_ Hs]; lia.
  - left. destruct (kept_lookup l 0 k a' Hl) as [k' Hk']; [lia|]. by exists k', a'.
Qed.

End Collection.

(** ** The collector: correctness of a collection

    The theorems about [gc_collect], with a small heap of two areas to show that
    their hypotheses hold. *)

(** ** An example *)

(** A [__del__] method that clears the second word of its object, say a file
    that is closed. *)
#[local] Instance example_finalisers : Finalisers := {
  call_del k b h := match areas h !! k with
                    | Some a => put_area k (with_pool (<[Z.to_nat (4 * b + 1) := 0]> (pool a)) a) h
                    | None => h
                    end }.

#[local] Instance example_finaliser_laws : FinaliserLaws.
Proof.
  split. intros h k a b n Hk Hb _ (Hn & _). exists (<[Z.to_nat (4 * b + 1) := 0]> (pool a)). split; [apply length_insert|]. split.
  - intros i Hi. apply list_lookup_insert_ne. lia.
  - cbn. by rewrite Hk.
Defined.


(** Two areas of four blocks.  In the first, a chain of two blocks whose words
    point into the second area, and an unreachable object with a finaliser; in
    the second, an object of one block. *)
Definition example_area_0 : area_t :=
  MkArea 0x0ff0 1 [0x19; 0; 0x04] 0x1000 0x1040 ([0x2000; 7; 0; 0] ++ [0; 0; 0; 0] ++ [0x3f40; 0; 0; 0] ++ [0; 0; 0; 0]) 0 2.
Definition example_area_1 : area_t :=
  MkArea 0x1ff0 1 [0x01; 0; 0] 0x2000 0x2040 ([5; 0; 0; 0] ++ [0; 0; 0; 0] ++ [0; 0; 0; 0] ++ [0; 0; 0; 0]) 0 0.
Definition example_heap : heap_t := MkHeap [example_area_0; example_area_1] 0 false 0 true 0xffffffff 3 [].
Definition example_roots : roots_t := MkRoots [0; 0x1000] [[0x1001; 12]].

Lemma four_blocks b : 0 <= b < 4 -> b = 0 \/ b = 1 \/ b = 2 \/ b = 3.
Proof. lia. Qed.

Ltac by_blocks := intros b Hb; apply four_blocks in Hb as [-> | [-> | [-> | ->]]].

Lemma example_kinds_0 : kinds_ok example_area_0.
Proof.
  split; [done| |].
  - intros b Hb. change (2 < b < 4) in Hb. assert (b = 3) as -> by lia. done.
  - by_blocks; intros Hk; vm_compute in Hk |- *; done.
Qed.

Lemma example_kinds_1 : kinds_ok example_area_1.
Proof.
  split; [done| |].
  - intros b Hb. change (0 < b < 4) in Hb. assert (b = 1 \/ b = 2 \/ b = 3) as [-> | [-> | ->]] by lia; done.
  - by_blocks; intros Hk; vm_compute in Hk |- *; done.
Qed.

Lemma example_areas_ok : Forall sweepable (areas example_heap).
Proof.
  repeat apply Forall_cons_2; [| |apply Forall_nil_2]; (split; [split|first [exact example_kinds_0|exact example_kinds_1]|done]);
    first [done|repeat apply Forall_cons_2; try apply Forall_nil_2; done].
Qed.

Lemma example_unmarked : unmarked example_heap.
Proof.
  intros [k b] [(a & Ha & Hb) Hk]. unfold kind in Hk. rewrite Ha in Hk. cbn [fst snd] in *.
  destruct k as [|[|k]]; [| |done]; injection Ha as <-; apply four_blocks in Hb as [-> | [-> | [-> | ->]]]; done.
Qed.

Lemma example_heap_ok : heap_ok example_heap.
Proof. split; [exact example_areas_ok|exact example_unmarked|done]. Qed.

Lemma example_root : reach example_heap (roots_of example_heap (root_section example_roots :: stacks example_roots)) (0%nat, 0).
Proof. apply reach_root. exists [0; 0x1000]. split; [by left|]. exists 0x1000. split; [by right; left|]. split; [done|by left]. Qed.

Lemma example_reach : reach example_heap (roots_of example_heap (root_section example_roots :: stacks example_roots)) (1%nat, 0).
Proof.
  eapply reach_step; [exact example_root|]. exists example_area_0, 2, 0. split; [done|]. split.
  - split; [lia|]. split; [done|]. split; [intros i Hi; assert (i = 1) as -> by lia; done|done].
  - split; [cbn; lia|]. exists example_area_0, 0x2000. split; [done|]. split; [done|]. split; [done|]. split; [done|by left].
Qed.

(** ** Collection *)

(** The second area with an object of two blocks instead, the first of which is
    block 0: it is not given back. *)
Definition kept_area : area_t :=
  MkArea 0x1ff0 1 [0x09; 0; 0] 0x2000 0x2040 ([5; 0; 0; 0] ++ [0; 0; 0; 0] ++ [0; 0; 0; 0] ++ [0; 0; 0; 0]) 0 1.
Definition kept_heap : heap_t := MkHeap [example_area_0; kept_area] 0 false 0 true 0xffffffff 3 [].

Lemma kept_heap_ok : heap_ok kept_heap.
Proof.
  assert (kinds_ok kept_area) as Hk.
  { split; [done| |].
    - intros b Hb. change (1 < b < 4) in Hb. assert (b = 2 \/ b = 3) as [-> | ->] by lia; done.
    - by_blocks; intros Hk; vm_compute in Hk |- *; done. }
  split; [| |done].
  - repeat apply Forall_cons_2; [apply (proj1 (Forall_lookup _ _) example_areas_ok 0%nat); done| |apply Forall_nil_2].
    split; [split|exact Hk|done]; first [done|repeat apply Forall_cons_2; try apply Forall_nil_2; done].
  - intros [k b] [(a & Ha & Hb) Hkd]. unfold kind in Hkd. rewrite Ha in Hkd. cbn [fst snd] in *.
    destruct k as [|[|k]]; [| |done]; injection Ha as <-; apply four_blocks in Hb as [-> | [-> | [-> | ->]]]; done.
Qed.

Abbreviation kept_roots := (roots_of kept_heap (root_section example_roots :: stacks example_roots)) (only parsing).

Lemma kept_heap_survives : survives kept_heap kept_roots (1%nat, 1).
Proof.
  exists kept_area, 0, 2. split; [done|]. split; [|split; [done|]]; [|split; [|cbn; lia]].
  - eapply (reach_step _ _ (0%nat, 0)).
    + apply reach_root. exists [0; 0x1000]. split; [by left|]. exists 0x1000. split; [by right; left|]. split; [done|]. by left.
    + exists example_area_0, 2, 0. split; [done|]. split.
      * split; [lia|]. split; [done|]. split; [intros i Hi; assert (i = 1) as -> by lia; done|done].
      * split; [cbn; lia|]. exists example_area_0, 0x2000. split; [done|]. split; [done|]. split; [done|]. split; [done|by left].
  - split; [lia|]. split; [done|]. split; [intros i Hi; assert (i = 1) as -> by lia; done|done].
Qed.

(** ** Collection *)



(** The test for an empty area cannot tell block 0 from no block: an area other
    than the first whose one live block is block 0 is given back to the system,
    with the reachable object in it. *)
Theorem gc_collect_gives_back_live_object `{FinaliserLaws} h r k a : heap_ok h -> areas h !! k = Some a -> k <> 0%nat ->
  reach h (roots_of h (root_section r :: stacks r)) (k, 0) ->
  (forall b, 0 < b < n_blocks_of a -> ~ survives h (roots_of h (root_section r :: stacks r)) (k, b)) ->
  exists h', gc_collect r h = Some (tt, h') /\ FreeHeap (area_addr a) ∈ events h'.
Proof.
  intros Hok Ha Hne Hr Hs. destruct (run_value _ _ _ (gc_collect_spec h r Hok)) as ([] & h' & He & (l & ess & _ & _ & Hall & ->) & _).
  eexists. split; [exact He|]. cbn [events]. destruct (Hall k a Ha) as (a' & es & Hl & _ & Hc & _).
  assert (area_addr a' = area_addr a) as <- by (by rewrite (co_fields _ _ _ _ _ Hc)).
  apply elem_of_app. right. apply elem_of_app. right. apply (freed_from_in l 0 k); [done| |by right].
  destruct (co_last _ _ _ _ _ Hc) as [?|(a0 & b0 & n & Ha0 & Hr0 & Hb0 & Hch & Hb)]; [done|].
  cbn in Ha0, Hb. simplify_eq. destruct (Z.eq_dec (gc_last_used_block a') 0) as [|Hnz]; [done|]. destruct (Hs (gc_last_used_block a')).
  - destruct Hch as (H1 & H2 & _). lia.
  - by exists a, b0, n.
Qed.

Lemma reach_head h ws n : reach h (roots_of h ws) n -> is_head h n.
Proof.
  intros [m (l & _ & w & _ & _ & Hh)|m m' _ (a & len & j & _ & _ & _ & (a' & w & _ & _ & _ & _ & Hh))]; exact Hh.
Qed.

Lemma free_dead h ws k a b : areas h !! k = Some a -> kind_of a b = AT_FREE -> ~ survives h (roots_of h ws) (k, b).
Proof.
  intros Ha Hf (a' & b0 & n & Ha' & Hr & _ & (_ & _ & Ht & _) & Hbn). cbn in Ha', Hbn, Hr. simplify_eq.
  destruct (Z.eq_dec b b0) as [->|Hne].
  - apply reach_head in Hr. unfold is_head, kind in Hr. cbn in Hr. rewrite Ha, Hf in Hr. by destruct Hr.
  - specialize (Ht (b - b0) ltac:(lia)). replace (b0 + (b - b0)) with b in Ht by lia. by rewrite Hf in Ht.
Qed.

Lemma gc_collect_gives_back_live_object_witness :
  reach example_heap (roots_of example_heap (root_section example_roots :: stacks example_roots)) (1%nat, 0) /\
  exists h', gc_collect example_roots example_heap = Some (tt, h') /\ FreeHeap (area_addr example_area_1) ∈ events h'.
Proof.
  split; [exact example_reach|].
  refine (gc_collect_gives_back_live_object example_heap example_roots 1 example_area_1 example_heap_ok eq_refl _ example_reach _); [done|].
  intros b Hb. apply (free_dead _ _ _ example_area_1); [done|]. by apply (ko_free _ example_kinds_1).
Defined.
