(* ===== verification/GcSearch.v ===== *)
(** * The search for free blocks

    The invariant of a heap between operations, and the first fit that the
    scan of the allocation tables finds. *)
From Stdlib Require Import ZifyBool.
From S2P Require Import Prelude.
From S2P Require Import CMem.
From S2P Require Import BitFields.
From S2P Require Import Gc.
From S2P Require Import GcCollect.
From S2P Require Import GcAlloc.
From S2P Require Import GcFacts.
From S2P Require Import GcMark.
From S2P Require Import GcSweep.
From S2P Require Import GcProps.
Local Open Scope Z_scope.

(** ** The invariant *)

Definition free_run (a : area_t) (b n : Z) : Prop := 0 <= b /\ b + n <= n_blocks_of a /\ forall i, b <= i < b + n -> kind_of a i = AT_FREE.

(** The blocks that a search skips are in use; a finaliser flag belongs to a
    head. *)
Record area_inv (a : area_t) : Prop := {
  ai_sweepable : sweepable a;
  ai_full b : 0 <= b < n_blocks_of a -> b < 4 * gc_last_free_atb_index a -> kind_of a b <> AT_FREE;
  ai_flags b : 0 <= b < n_blocks_of a -> ftb_of a b = true -> kind_of a b = AT_HEAD }.

Definition area_filled (a : area_t) : Prop := forall b, 0 <= b < n_blocks_of a -> kind_of a b <> AT_FREE.

(** The pools do not overlap. *)
Abbreviation span := (Z * Z)%type.
Definition apart (x y : span) : Prop := x.2 <= y.1 \/ y.2 <= x.1.
Fixpoint separate (l : list span) : Prop := match l with [] => True | x :: l => Forall (apart x) l /\ separate l end.
Definition span_of (a : area_t) : span := (gc_pool_start a, gc_pool_end a).

Record heap_inv (h : heap_t) : Prop := {
  hi_ok : heap_ok h;
  hi_areas : Forall area_inv (areas h);
  hi_filled k a : (k < gc_last_free_area h)%nat -> areas h !! k = Some a -> area_filled a;
  hi_last : (gc_last_free_area h < length (areas h))%nat;
  hi_separate : separate (map span_of (areas h)) }.

Lemma heap_inv_area h k a : heap_inv h -> areas h !! k = Some a -> area_inv a.
Proof. intros Hi Ha. by eapply (proj1 (Forall_lookup _ _) (hi_areas _ Hi)). Qed.

(** ** One area *)

Lemma free_test v j : 0 <= j < 4 -> is_byte v -> (Z.land v (Z.shiftl 3 (2 * j)) =? 0) = (field (2 * j) 2 v =? 0).
Proof.
  intros Hj Hv. apply eqb_prop.
  apply (byte_table (fun v => eqb (Z.land v (Z.shiftl 3 (2 * j)) =? 0) (field (2 * j) 2 v =? 0))); [|done].
  assert (j = 0 \/ j = 1 \/ j = 2 \/ j = 3) as Hjs by lia. by destruct Hjs as [-> | [-> | [-> | ->]]]; vm_compute.
Qed.

Section Scan.
Context (h : heap_t) (k : nat) (a : area_t) (Hk : areas h !! k = Some a) (Ha : area_ok a).
Context (first n : Z) (Hfirst : 0 <= first) (Hn : 1 <= n).

(** Before block [t] is looked at: the last [f] blocks are free, and no run of
    [n] free blocks ends before [t]. *)
Record scanned (t f : Z) : Prop := {
  sc_f : 0 <= f < n /\ f <= t - 4 * first;
  sc_free i : t - f <= i < t -> kind_of a i = AT_FREE;
  sc_used : f < t - 4 * first -> kind_of a (t - f - 1) <> AT_FREE;
  sc_none b : 4 * first <= b -> b + n <= t -> ~ free_run a b n }.

(** The first run of [n] free blocks from block [4 * first] on ends at [e]. *)
Definition fits_at (e : Z) : Prop := free_run a (e - n + 1) n /\ forall b, 4 * first <= b -> b + n <= e -> ~ free_run a b n.

Definition scan_block (t f : Z) : Z + Z * Z :=
  if kind_of a t =? AT_FREE then if n <=? f + 1 then inr (t, f + 1) else inl (f + 1) else inl 0.

Lemma scan_block_ok t f : scanned t f -> 4 * first <= t < n_blocks_of a ->
  match scan_block t f with
  | inl f' => scanned (t + 1) f'
  | inr (e, f') => e = t /\ f' = n /\ fits_at e
  end.
Proof.
  intros [[Hf Hft] Hfr Hu Hno] Ht. unfold scan_block. destruct (Z.eqb_spec (kind_of a t) AT_FREE) as [Hk0|Hk0].
  - destruct (Z.leb_spec n (f + 1)).
    + assert (f + 1 = n) by lia. split; [done|]. split; [done|]. split; [|intros b Hb Hbn; apply Hno; lia]. split; [lia|]. split; [lia|]. intros i Hi.
      destruct (Z.eq_dec i t) as [->|]; [done|]. apply Hfr. lia.
    + split; [lia| | |].
      * intros i Hi. destruct (Z.eq_dec i t) as [->|]; [done|]. apply Hfr. lia.
      * intros Hlt. replace (t + 1 - (f + 1) - 1) with (t - f - 1) by lia. apply Hu. lia.
      * intros b Hb Hbn Hrun. destruct (Z.eq_dec (b + n) (t + 1)) as [He|]; [|apply (Hno b); [done|lia|done]].
        destruct Hrun as (_ & _ & Hrun). apply Hu; [lia|]. apply Hrun. lia.
  - split; [lia|lia| |].
    + intros _. by replace (t + 1 - 0 - 1) with t by lia.
    + intros b Hb Hbn Hrun. destruct (Z.eq_dec (b + n) (t + 1)) as [He|]; [|apply (Hno b); [done|lia|done]].
      destruct Hrun as (_ & _ & Hrun). apply Hk0, Hrun. lia.
Qed.

(** The entries of one byte, from entry [j] on. *)
Lemma scan_byte_ok i m : forall j f, 0 <= i < gc_alloc_table_byte_len a -> first <= i -> j + Z.of_nat m = 4 -> 0 <= j -> scanned (4 * i + j) f ->
  match scan_byte (map Z.of_nat (seq (Z.to_nat j) m)) (nth (Z.to_nat i) (tables a) 0) i n f with
  | inl f' => scanned (4 * (i + 1)) f'
  | inr (e, f') => f' = n /\ fits_at e
  end.
Proof.
  induction m as [|m IH]; intros j f Hi Hfi Hjm Hj Hs; cbn [seq map scan_byte].
  { replace (4 * (i + 1)) with (4 * i + j) by lia. done. }
  rewrite Z2Nat.id by done. assert (n_blocks_of a = 4 * gc_alloc_table_byte_len a) as Hnb by (unfold n_blocks_of, BLOCKS_PER_ATB; lia).
  assert ((4 * i + j) / 4 = i /\ (4 * i + j) `mod` 4 = j) as [Hd Hmd].
  { split; [symmetry; apply (Z.div_unique _ _ _ j); lia|symmetry; apply (Z.mod_unique _ _ i); lia]. }
  destruct (atb_byte a (4 * i + j) Ha ltac:(lia)) as [_ Hby]. rewrite Hd in Hby.
  rewrite free_test by (done || lia). assert (field (2 * j) 2 (nth (Z.to_nat i) (tables a) 0) = kind_of a (4 * i + j)) as ->.
  { unfold kind_of. by rewrite BLOCK_SHIFT_eq, Hd, Hmd. }
  pose proof (scan_block_ok _ _ Hs ltac:(lia)) as Hb. unfold scan_block in Hb. change AT_FREE with 0 in Hb. unfold BLOCKS_PER_ATB.
  replace (S (Z.to_nat j)) with (Z.to_nat (j + 1)) by lia.
  destruct (kind_of a (4 * i + j) =? 0); [destruct (n <=? f + 1)|].
  - destruct Hb as (_ & Hf & Hrun). replace (i * 4 + j) with (4 * i + j) by lia. done.
  - apply IH; [done|done|lia|lia|]. by replace (4 * i + (j + 1)) with (4 * i + j + 1) by lia.
  - apply IH; [done|done|lia|lia|]. by replace (4 * i + (j + 1)) with (4 * i + j + 1) by lia.
Qed.

Lemma wp_scan_area m : forall i f (Q : option (Z * Z) -> heap_t -> Prop), first <= i -> Z.of_nat m = Z.max 0 (gc_alloc_table_byte_len a - i) ->
  scanned (4 * i) f ->
  (forall e, fits_at e -> Q (Some (e, n)) h) -> ((forall b, 4 * first <= b -> ~ free_run a b n) -> Q None h) ->
  wp (scan_area m k i n f) h Q.
Proof.
  induction m as [|m IH]; intros i f Q Hi Hm Hs HS HN; cbn [scan_area].
  - apply wp_ret, HN. intros b Hb Hrun. apply (sc_none _ _ Hs b); [done| |done]. destruct Hrun as (_ & Hbn & _).
    unfold n_blocks_of, BLOCKS_PER_ATB in Hbn. lia.
  - destruct (atb_byte a (4 * i) Ha) as [Hl _]; [unfold n_blocks_of, BLOCKS_PER_ATB; lia|].
    assert (4 * i / 4 = i) as Hd by (rewrite Z.mul_comm; by apply Z.div_mul). rewrite Hd in Hl.
    apply wp_bind, (wp_get_byte h k a Hk i _ _ ltac:(lia) Hl).
    pose proof (scan_byte_ok i 4 0 f ltac:(lia) Hi eq_refl (Z.le_refl 0) ltac:(by rewrite Z.add_0_r)) as Hb.
    change (map Z.of_nat (seq (Z.to_nat 0) 4)) with [0; 1; 2; 3] in Hb. destruct (scan_byte _ _ _ _ _) as [f'|[e f']].
    + apply IH; [lia|lia|done|done|done].
    + destruct Hb as [-> Hrun]. by apply wp_ret, HS.
Qed.
End Scan.

Lemma scanned_start a first n : 0 <= first -> 1 <= n -> scanned a first n (4 * first) 0.
Proof. intros Hf Hn. split; [lia|lia|lia|]. intros b Hb Hbn. lia. Qed.

(** ** All areas *)

Lemma free_run_1 a b : 0 <= b < n_blocks_of a -> kind_of a b = AT_FREE -> free_run a b 1.
Proof. intros Hb Hk. split; [lia|]. split; [lia|]. intros i Hi. by replace i with b by lia. Qed.

Lemma filled_no_run a b n : area_filled a -> 1 <= n -> ~ free_run a b n.
Proof. intros Hf Hn (Hb & Hbn & Hrun). apply (Hf b); [lia|]. apply Hrun. lia. Qed.

Lemma no_run_filled a : (forall b, ~ free_run a b 1) -> area_filled a.
Proof. intros Hno b Hb Hk. by apply (Hno b), free_run_1. Qed.

(** The search may move the index of an area without free blocks. *)
Definition skip (a a' : area_t) : Prop := a' = a \/ area_filled a /\ exists x, 0 <= x /\ a' = with_last_free x a.
Definition skipped (h s : heap_t) : Prop := Forall2 skip (areas h) (areas s) /\ s = with_areas (areas s) h.

Lemma skip_trans a b c : skip a b -> skip b c -> skip a c.
Proof. intros [->|(Hf & x & Hx & ->)]; [done|]. intros [->|(_ & y & Hy & ->)]; right; split; eauto. Qed.

Lemma skipped_refl h : skipped h h.
Proof. split; [|by destruct h]. apply Forall2_same_length_lookup_2; [done|]. intros i x y Hx Hy. simplify_eq. by left. Qed.

Lemma skipped_trans h s t : skipped h s -> skipped s t -> skipped h t.
Proof. intros [H1 E1] [H2 E2]. split; [eapply Forall2_trans; [|exact H1|exact H2]; apply skip_trans|]. by rewrite E2, E1. Qed.

Lemma skip_area_inv a a' : skip a a' -> area_inv a -> area_inv a'.
Proof.
  intros [->|(Hf & x & Hx & ->)]; [done|]. intros [[Ha [H1 H2 H3] Hl] Hfu Hfl]. split; [split|..].
  - by destruct Ha; split.
  - by split.
  - done.
  - intros b Hb _. by apply Hf.
  - done.
Qed.

Lemma skip_same a a' : skip a a' -> forall b, kind_of a' b = kind_of a b.
Proof. by intros [->|(_ & x & _ & ->)]. Qed.

Lemma skip_fields a a' : skip a a' -> n_blocks_of a' = n_blocks_of a /\ tables a' = tables a /\ pool a' = pool a /\ gc_pool_start a' = gc_pool_start a.
Proof. by intros [->|(_ & x & _ & ->)]. Qed.

Lemma skip_run a a' b n : skip a a' -> free_run a' b n <-> free_run a b n.
Proof. intros Hs. unfold free_run. destruct (skip_fields _ _ Hs) as (-> & _). by setoid_rewrite (skip_same _ _ Hs). Qed.

Lemma skip_spans l l' : Forall2 skip l l' -> map span_of l' = map span_of l.
Proof. induction 1 as [|a a' l l' Hs Hl IH]; [done|]. cbn [map]. rewrite IH. by destruct Hs as [->|(_ & x & _ & ->)]. Qed.

Lemma skipped_inv h s : skipped h s -> heap_inv h -> heap_inv s.
Proof.
  intros [Hs He] [[Hsw Hun Hlk] Ha Hf Hl Hsep]. assert (Forall area_inv (areas s)) as Ha'.
  { apply Forall_lookup. intros k a' Hk. destruct (Forall2_lookup_r _ _ _ _ _ Hs Hk) as (a & Hka & Hsk).
    eapply skip_area_inv; [exact Hsk|]. by eapply (proj1 (Forall_lookup _ _) Ha). }
  split; [split| | | |].
  - eapply Forall_impl; [exact Ha'|]. by intros a [].
  - intros [k b] [(a' & Hk & Hb) Hkd]. cbn in Hk. unfold kind in Hkd. cbn in Hkd. rewrite Hk in Hkd. cbn in Hb.
    destruct (Forall2_lookup_r _ _ _ _ _ Hs Hk) as (a & Hka & Hsk). destruct (skip_fields _ _ Hsk) as (Hn & _).
    apply (Hun (k, b)). split; [exists a; by rewrite <-Hn|]. unfold kind. cbn. rewrite Hka. by rewrite <-(skip_same _ _ Hsk).
  - by rewrite He.
  - done.
  - intros k a' Hk Hka'. destruct (Forall2_lookup_r _ _ _ _ _ Hs Hka') as (a & Hka & Hsk). destruct (skip_fields _ _ Hsk) as (Hn & _).
    intros b Hb. rewrite (skip_same _ _ Hsk). rewrite He in Hk. apply (Hf k a Hk Hka). by rewrite <-Hn.
  - rewrite <-(Forall2_length _ _ _ Hs). by rewrite He.
  - by rewrite (skip_spans _ _ Hs).
Qed.

(** The first run of [n] free blocks of the heap is in area [k] and ends at [e]. *)
Definition first_fit (h : heap_t) (k : nat) (e n : Z) : Prop :=
  exists a, areas h !! k = Some a /\ free_run a (e - n + 1) n /\ (forall b, b + n <= e -> ~ free_run a b n) /\
    forall j a', (j < k)%nat -> areas h !! j = Some a' -> forall b, ~ free_run a' b n.
Definition no_fit (h : heap_t) (n : Z) : Prop := forall j a b, areas h !! j = Some a -> ~ free_run a b n.

Lemma full_no_run a b n : area_inv a -> 1 <= n -> b < 4 * gc_last_free_atb_index a -> ~ free_run a b n.
Proof. intros Ha Hn Hb (H0 & H1 & Hrun). apply (ai_full _ Ha b); [lia|done|]. apply Hrun. lia. Qed.

Lemma wp_scan_areas n m : 1 <= n -> forall k s (Q : option (nat * Z * Z) -> heap_t -> Prop), heap_inv s -> (m + k = length (areas s))%nat ->
  (forall j a, (j < k)%nat -> areas s !! j = Some a -> forall b, ~ free_run a b n) ->
  (forall s' k' e, skipped s s' -> first_fit s' k' e n -> Q (Some (k', e, n)) s') -> (forall s', skipped s s' -> no_fit s' n -> Q None s') ->
  wp (scan_areas m k n) s Q.
Proof.
  intros Hn. induction m as [|m IH]; intros k s Q Hi Hm Hbef HS HN; cbn [scan_areas].
  { apply wp_ret, HN; [apply skipped_refl|]. intros j a b Hj. apply (Hbef j); [|done]. apply lookup_lt_Some in Hj. lia. }
  destruct (lookup_lt_is_Some_2 (areas s) k ltac:(lia)) as [a Hk]. pose proof (heap_inv_area _ _ _ Hi Hk) as Hai.
  pose proof (sw_ok _ (ai_sweepable _ Hai)) as Ha. pose proof (ao_last_free _ Ha) as Hlf.
  apply wp_bind, (wp_get_area s k a Hk). apply wp_bind, (wp_scan_area s k a Hk Ha (gc_last_free_atb_index a) n Hlf Hn); [lia|lia|by apply scanned_start| |].
  - intros e [Hrun Hfirst]. apply wp_ret, HS; [apply skipped_refl|]. exists a. split; [done|]. split; [done|]. split; [|done].
    intros b Hb. destruct (Z.lt_ge_cases b (4 * gc_last_free_atb_index a)); [by apply full_no_run|by apply Hfirst].
  - intros Hno. assert (forall b, ~ free_run a b n) as Hno'.
    { intros b. destruct (Z.lt_ge_cases b (4 * gc_last_free_atb_index a)); [by apply full_no_run|by apply Hno]. }
    assert (forall s1, skipped s s1 -> wp (scan_areas m (S k) n) s1 Q) as Hrest.
    { intros s1 Hs1. pose proof (Forall2_length _ _ _ (proj1 Hs1)) as Hlen. apply IH; [by eapply skipped_inv|lia| | |].
      - intros j a1 Hj Ha1. destruct (Forall2_lookup_r _ _ _ _ _ (proj1 Hs1) Ha1) as (a0 & Ha0 & Hsk). intros b. rewrite (skip_run _ _ _ _ Hsk).
        destruct (decide (j = k)) as [->|]; [simplify_eq; apply Hno'|apply (Hbef j); [lia|done]].
      - intros s2 k2 e2 Hs2. apply HS. by eapply skipped_trans.
      - intros s2 Hs2. apply HN. by eapply skipped_trans. }
    apply wp_bind. destruct (Z.eqb_spec n 1) as [->|]; [|by apply wp_ret, Hrest, skipped_refl].
    apply (wp_upd_area s k a Hk), Hrest. split; [|by unfold put_area]. cbn. apply Forall2_same_length_lookup_2; [by rewrite length_insert|].
    intros i x y Hx Hy. destruct (decide (i = k)) as [->|Hne].
    + rewrite list_lookup_insert_eq in Hy by (by eapply lookup_lt_Some). simplify_eq. right. split; [by apply no_run_filled|].
      eexists. split; [|done]. unfold BLOCKS_PER_ATB. apply Z.div_pos; lia.
    + rewrite list_lookup_insert_ne in Hy by done. simplify_eq. by left.
Qed.

Lemma wp_find_run h n (Q : option (nat * Z * Z) -> heap_t -> Prop) : 1 <= n -> heap_inv h ->
  (forall s k e, skipped h s -> first_fit s k e n -> Q (Some (k, e, n)) s) -> (forall s, skipped h s -> no_fit s n -> Q None s) ->
  wp (find_run n) h Q.
Proof.
  intros Hn Hi HS HN. unfold find_run. apply wp_bind. unfold wp at 1, get. pose proof (hi_last _ Hi).
  apply wp_scan_areas; [done|done|lia| |done|done]. intros j a Hj Ha b. apply filled_no_run; [by apply (hi_filled _ Hi j)|done].
Qed.
