(* ===== verification/GcTake.v ===== *)
(** * Taking and freeing runs of blocks

    Loops over the tables and the words of one area, the run of blocks that
    [gc_alloc] takes, and the areas it may add for want of room. *)
From Stdlib Require Import ZifyBool.
From S2P Require Import Prelude.
From S2P Require Import CMem.
From S2P Require Import BitFields.
From S2P Require Import Gc.
From S2P Require Import GcCollect.
From S2P Require Import GcAlloc.
From S2P Require Import GcFacts.
From S2P Require Import GcMark.
From S2P Require Import GcSweep.
From S2P Require Import GcProps.
From S2P Require Import GcSearch.
Local Open Scope Z_scope.

(** ** Kinds *)

(** Only the kinds have changed, to [f]. *)
Record retable (a a' : area_t) (f : Z -> Z) : Prop := {
  rt_fields : a' = with_tables (tables a') a;
  rt_ok : area_ok a';
  rt_kind x : 0 <= x < n_blocks_of a -> kind_of a' x = f x;
  rt_rest j : (Z.to_nat (gc_alloc_table_byte_len a) <= j)%nat -> nth j (tables a') 0 = nth j (tables a) 0 }.

Lemma retable_refl a f : area_ok a -> (forall x, 0 <= x < n_blocks_of a -> kind_of a x = f x) -> retable a a f.
Proof. intros Ha Hf. split; [by destruct a|done|done|done]. Qed.

Lemma retable_set a b x : area_ok a -> 0 <= b < n_blocks_of a -> retable a (set_kind b x a) (fun y => if y =? b then x `mod` 4 else kind_of a y).
Proof.
  intros Ha Hb. split; [done|by apply set_kind_ok| |].
  - intros y Hy. apply kind_set_kind; [done|done|lia].
  - intros j Hj. rewrite set_kind_tables, decide_False; [done|]. intros [-> _]. unfold n_blocks_of, BLOCKS_PER_ATB in Hb.
    assert (b / 4 < gc_alloc_table_byte_len a) by (apply Z.div_lt_upper_bound; lia). assert (0 <= b / 4) by (apply Z.div_pos; lia). lia.
Qed.

Lemma retable_trans a a1 a2 f g : retable a a1 f -> retable a1 a2 g -> retable a a2 g.
Proof.
  intros [E1 _ _ R1] [E2 O2 K2 R2]. rewrite E1 in K2, R2. split; [by rewrite E2, E1|done|exact K2|].
  intros j Hj. by rewrite R2, R1.
Qed.

Lemma retable_ext a a' f g : retable a a' f -> (forall x, 0 <= x < n_blocks_of a -> f x = g x) -> retable a a' g.
Proof. intros [E O K R] Hfg. split; try done. intros x Hx. by rewrite K, Hfg. Qed.

Lemma retable_fields a a' f : retable a a' f -> n_blocks_of a' = n_blocks_of a /\ ftb_len a' = ftb_len a /\ ftb_offset a' = ftb_offset a /\ pool a' = pool a.
Proof. by intros [-> _ _ _]. Qed.

Lemma retable_flag a a' f b : retable a a' f -> area_ok a -> 0 <= b -> ftb_of a' b = ftb_of a b.
Proof.
  intros Hr Ha Hb. destruct (retable_fields _ _ _ Hr) as (_ & _ & Ho & _). unfold ftb_of. rewrite Ho, (rt_rest _ _ _ Hr); [done|].
  unfold ftb_offset, ALLOC_TABLE_GAP_BYTE. assert (0 <= b / 8) by (apply Z.div_pos; lia). pose proof (ao_len _ Ha). lia.
Qed.

(** A loop that sets the kinds of [m] blocks that satisfy [P]. *)
Lemma wp_set_kinds k x (P : Z -> Prop) (body : Z -> Mg unit) h a b m (Q : unit -> heap_t -> Prop) : x `mod` 4 = x ->
  (forall j s a' (Q : unit -> heap_t -> Prop), areas s !! k = Some a' -> area_ok a' -> 0 <= j < n_blocks_of a' -> P (kind_of a' j) ->
     Q tt (put_area k (set_kind j x a') s) -> wp (body j) s Q) ->
  areas h !! k = Some a -> area_ok a -> 0 <= b -> b + Z.of_nat m <= n_blocks_of a -> (forall i, b <= i < b + Z.of_nat m -> P (kind_of a i)) ->
  (forall a', retable a a' (fun i => if (b <=? i) && (i <? b + Z.of_nat m) then x else kind_of a i) -> Q tt (put_area k a' h)) ->
  wp (for_up m b body) h Q.
Proof.
  intros Hx Hbody Hk Ha Hb Hm HP HQ.
  apply (wp_for_up (fun j s => exists a', s = put_area k a' h /\ retable a a' (fun i => if (b <=? i) && (i <? j) then x else kind_of a i))).
  - exists a. split; [by rewrite put_area_id|]. apply retable_refl; [done|]. intros y Hy. by replace ((b <=? y) && (y <? b)) with false by lia.
  - intros j s Hj (a' & -> & Hr). destruct (retable_fields _ _ _ Hr) as (Hn & _).
    apply (Hbody j _ a'); [by apply put_area_lookup with a|apply Hr|lia| |].
    + rewrite (rt_kind _ _ _ Hr) by lia. replace ((b <=? j) && (j <? j)) with false by lia. apply HP. lia.
    + exists (set_kind j x a'). split; [by rewrite put_area_put|]. eapply retable_ext; [eapply retable_trans; [exact Hr|apply retable_set; [apply Hr|lia]]|].
      intros y Hy. cbn beta. rewrite Hx. destruct (Z.eqb_spec y j) as [->|Hne]; [by replace ((b <=? j) && (j <? j + 1)) with true by lia|].
      rewrite (rt_kind _ _ _ Hr) by lia. by replace (y <? j + 1) with (y <? j) by lia.
  - intros s (a' & -> & Hr). by apply HQ.
Qed.

(** ** Words *)

Definition with_range (p : list Z) (i n : Z) (f : Z -> Z) (p' : list Z) : Prop :=
  length p' = length p /\ forall j, 0 <= j < Z.of_nat (length p) -> nth (Z.to_nat j) p' 0 = if (i <=? j) && (j <? i + n) then f j else nth (Z.to_nat j) p 0.

Lemma with_pool_ok p a : area_ok a -> length p = length (pool a) -> area_ok (with_pool p a).
Proof. intros [? ? ? ? ? ? ? ?] Hl. split; try done. cbn. rewrite Hl. done. Qed.

Lemma with_range_insert p i j f p' : with_range p i (j - i) f p' -> i <= j < Z.of_nat (length p) -> 0 <= i ->
  with_range p i (j + 1 - i) f (<[Z.to_nat j := f j]> p').
Proof.
  intros [Hl Hp] Hj Hi. split; [by rewrite length_insert|]. intros x Hx. rewrite nth_lookup. destruct (Z.eq_dec x j) as [->|Hne].
  - rewrite list_lookup_insert_eq by lia. by replace ((i <=? j) && (j <? i + (j + 1 - i))) with true by lia.
  - rewrite list_lookup_insert_ne, <-nth_lookup, Hp by lia.
    by replace ((i <=? x) && (x <? i + (j + 1 - i))) with ((i <=? x) && (x <? i + (j - i))) by lia.
Qed.

Lemma with_range_refl p i f : with_range p i 0 f p.
Proof. split; [done|]. intros j Hj. by replace ((i <=? j) && (j <? i + 0)) with false by lia. Qed.

Lemma wp_zero_words h k a i m (Q : unit -> heap_t -> Prop) : areas h !! k = Some a -> 0 <= i -> i + Z.of_nat m <= Z.of_nat (length (pool a)) ->
  (forall p, with_range (pool a) i (Z.of_nat m) (fun _ => 0) p -> Q tt (put_area k (with_pool p a) h)) ->
  wp (for_up m i (fun j => set_word k j 0)) h Q.
Proof.
  intros Hk Hi Hm HQ.
  apply (wp_for_up (fun j s => exists p, s = put_area k (with_pool p a) h /\ with_range (pool a) i (j - i) (fun _ => 0) p)).
  - exists (pool a). split; [rewrite put_area_id; [done|by destruct a]|]. rewrite Z.sub_diag. apply with_range_refl.
  - intros j s Hj (p & -> & Hp). pose proof (proj1 Hp) as Hl.
    apply (wp_set_word _ k (with_pool p a)); [by apply put_area_lookup with a|cbn; lia|]. rewrite put_area_put.
    exists (<[Z.to_nat j := 0]> p). split; [done|]. by apply (with_range_insert _ _ _ (fun _ => 0)); [|lia|].
  - intros s (p & -> & Hp). apply HQ. by replace (i + Z.of_nat m - i) with (Z.of_nat m) in Hp by lia.
Qed.

(** ** Finaliser flags *)

Lemma set_bit_byte v j i : is_byte v -> 0 <= j < 8 -> 0 <= i -> Z.testbit (u8 (Z.lor v (Z.shiftl 1 j))) i = Z.testbit v i || (i =? j).
Proof.
  intros Hv Hj Hi. rewrite u8_bits, Z.lor_spec, Z.shiftl_1_l, Z.pow2_bits_eqb by lia. rewrite (Z.eqb_sym j i).
  destruct (Z.ltb_spec i 8); [done|]. rewrite byte_bits by done. cbn. lia.
Qed.

Definition ftb_set (b : Z) (a : area_t) : area_t :=
  let i := Z.to_nat (ftb_offset a (b / 8)) in with_tables (<[i := u8 (Z.lor (nth i (tables a) 0) (Z.shiftl 1 (Z.land b 7)))]> (tables a)) a.

(** Setting or clearing a flag leaves the allocation table as it is. *)
Lemma ftb_write_ok a b v : area_ok a -> 0 <= b < 8 * ftb_len a -> is_byte v -> area_ok (with_tables (<[Z.to_nat (ftb_offset a (b / 8)) := v]> (tables a)) a).
Proof.
  intros Ha Hb Hv. destruct (ftb_byte a b Ha Hb) as (Hoff & Hl & Hby). destruct Ha as [H1 H2 H3 H4 H5 H6 H7 H8]. split; try done.
  - cbn. by rewrite length_insert.
  - cbn. by apply Forall_insert.
  - cbn. rewrite nth_lookup, list_lookup_insert_ne, <-nth_lookup; [done|]. unfold ftb_offset, ALLOC_TABLE_GAP_BYTE.
    assert (0 <= b / 8) by (apply Z.div_pos; lia). lia.
Qed.

Lemma ftb_write_kind a b v x : area_ok a -> 0 <= b -> 0 <= x <= n_blocks_of a ->
  kind_of (with_tables (<[Z.to_nat (ftb_offset a (b / 8)) := v]> (tables a)) a) x = kind_of a x.
Proof.
  intros Ha Hb Hx. unfold kind_of. cbn. rewrite nth_lookup, list_lookup_insert_ne, <-nth_lookup; [done|].
  unfold ftb_offset, ALLOC_TABLE_GAP_BYTE. assert (0 <= b / 8) by (apply Z.div_pos; lia). pose proof (atb_index a x Ha Hx). lia.
Qed.

Lemma ftb_set_of a b b' : area_ok a -> 0 <= b < 8 * ftb_len a -> 0 <= b' -> ftb_of (ftb_set b a) b' = ftb_of a b' || (b' =? b).
Proof.
  intros Ha Hb Hb'. destruct (ftb_byte a b Ha Hb) as (Hoff & Hl & Hby). pose proof (ao_len _ Ha) as Hlen. unfold ftb_of at 1.
  change (ftb_offset (ftb_set b a)) with (ftb_offset a). cbn [tables ftb_set with_tables]. rewrite nth_lookup.
  assert (0 <= b / 8 /\ 0 <= b' / 8) as [Hd Hd'] by (split; apply Z.div_pos; lia).
  pose proof (Z.div_mod b 8 ltac:(done)) as E1. pose proof (Z.div_mod b' 8 ltac:(done)) as E2.
  pose proof (Z.mod_pos_bound b 8 ltac:(done)). pose proof (Z.mod_pos_bound b' 8 ltac:(done)).
  change (Z.land b 7) with (Z.land b (2 ^ 3 - 1)). rewrite land_pow2_mask by done. change (2 ^ 3) with 8.
  destruct (Z.eq_dec (b' / 8) (b / 8)) as [He|Hne].
  - rewrite He, list_lookup_insert_eq by (by eapply lookup_lt_Some). cbn [default from_option id]. rewrite set_bit_byte by (done || lia).
    unfold ftb_of. rewrite He. f_equal. lia.
  - rewrite list_lookup_insert_ne by (unfold ftb_offset, ALLOC_TABLE_GAP_BYTE in *; lia). rewrite <-nth_lookup.
    rewrite (proj2 (Z.eqb_neq b' b)) by (intros ->; lia). by rewrite orb_false_r.
Qed.

Lemma wp_FTB_SET h k a b (Q : unit -> heap_t -> Prop) : areas h !! k = Some a -> area_ok a -> 0 <= b < 8 * ftb_len a ->
  Q tt (put_area k (ftb_set b a) h) -> wp (FTB_SET k b) h Q.
Proof.
  intros Hk Ha Hb HQ. destruct (ftb_byte a b Ha Hb) as (Hoff & Hl & Hby). unfold FTB_SET. apply wp_bind, (wp_get_area h k a Hk).
  apply wp_bind, (wp_get_byte h k a Hk _ _ _ Hoff Hl). by apply (wp_set_byte h k a Hk _ _ _ _ Hoff Hl).
Qed.

Lemma wp_FTB_GET h k a b (Q : Z -> heap_t -> Prop) : areas h !! k = Some a -> area_ok a -> 0 <= b < 8 * ftb_len a ->
  Q (zbool (ftb_of a b)) h -> wp (FTB_GET k b) h Q.
Proof.
  intros Hk Ha Hb HQ. destruct (ftb_byte a b Ha Hb) as (Hoff & Hl & Hby). unfold FTB_GET. apply wp_bind, (wp_get_area h k a Hk).
  apply wp_bind, (wp_get_byte h k a Hk _ _ _ Hoff Hl). apply wp_ret.
  change (Z.land b 7) with (Z.land b (2 ^ 3 - 1)). rewrite land_pow2_mask by done. change (Z.land ?x 1) with (Z.land x (2 ^ 1 - 1)).
  rewrite land_pow2_mask by done. unfold ftb_of in HQ. unfold BLOCKS_PER_FTB. 
  pose proof (Z.testbit_spec' (nth (Z.to_nat (ftb_offset a (b / 8))) (tables a) 0) (b `mod` 2 ^ 3)) as Ht.
  rewrite Z.shiftr_div_pow2 by (by apply Z.mod_pos_bound). change (2 ^ 1) with 2. rewrite <-Ht by (by apply Z.mod_pos_bound). exact HQ.
Qed.

(** ** The run of an allocation *)

Record taken (a : area_t) (b n : Z) (fin : bool) (a' : area_t) : Prop := {
  tk_fields : a' = MkArea (area_addr a) (gc_alloc_table_byte_len a) (tables a') (gc_pool_start a) (gc_pool_end a) (pool a')
                     (if n =? 1 then (b + 1) / 4 else gc_last_free_atb_index a) (Z.max (gc_last_used_block a) (b + n - 1));
  tk_ok : area_ok a';
  tk_kind x : 0 <= x < n_blocks_of a -> kind_of a' x = if x =? b then AT_HEAD else if (b <? x) && (x <? b + n) then AT_TAIL else kind_of a x;
  tk_flag x : 0 <= x < n_blocks_of a -> ftb_of a' x = if x =? b then fin || ftb_of a x else ftb_of a x;
  tk_pool : with_range (pool a) (4 * b) (4 * n) (fun _ => 0) (pool a') }.

Definition taken_heap (h : heap_t) (k : nat) (n : Z) (a' : area_t) : heap_t :=
  MkHeap (<[k := a']> (areas h)) (if n =? 1 then k else gc_last_free_area h) (gc_stack_overflow h) (gc_lock_depth h)
    (gc_auto_collect_enabled h) (gc_alloc_threshold h) (u32 (gc_alloc_amount h + n)) (events h).

Lemma area_ok_ext a a' : area_ok a -> gc_alloc_table_byte_len a' = gc_alloc_table_byte_len a -> tables a' = tables a ->
  gc_pool_start a' = gc_pool_start a -> gc_pool_end a' = gc_pool_end a -> pool a' = pool a -> 0 <= gc_last_free_atb_index a' -> area_ok a'.
Proof.
  intros [H1 H2 H3 H4 H5 H6 H7 H8] E1 E2 E3 E4 E5 E6. unfold ftb_len, n_blocks_of in *.
  split; unfold ftb_len, n_blocks_of; by rewrite ?E1, ?E2, ?E3, ?E4, ?E5.
Qed.

(** The pointer fields that [take_run] sets first. *)
Lemma wp_take_start h k a e n (K : unit -> Mg Z) (Q : Z -> heap_t -> Prop) : areas h !! k = Some a ->
  wp (K tt) (MkHeap (<[k := with_last_used (Z.max (gc_last_used_block a) e) (if n =? 1 then with_last_free ((e + 1) / BLOCKS_PER_ATB) a else a)]> (areas h))
     (if n =? 1 then k else gc_last_free_area h) (gc_stack_overflow h) (gc_lock_depth h)
    (gc_auto_collect_enabled h) (gc_alloc_threshold h) (gc_alloc_amount h) (events h)) Q ->
  wp ((if n =? 1 then
     modify (with_last_free_area k);; upd_area k (with_last_free ((e + 1) / BLOCKS_PER_ATB))
   else mret tt);;
   (upd_area k (fun a => with_last_used (Z.max (gc_last_used_block a) e) a) ≫= K)) h Q.
Proof.
  intros Hk HQ. apply wp_bind. destruct (Z.eqb_spec n 1) as [->|Hne].
  - apply wp_bind, wp_modify. apply (wp_upd_area (with_last_free_area k h) k a Hk), wp_bind, (wp_upd_area _ k (with_last_free ((e + 1) / BLOCKS_PER_ATB) a)); [by apply put_area_lookup with a|].
    unfold put_area, with_areas, with_last_free_area. cbn. by rewrite list_insert_insert_eq.
  - apply wp_ret, wp_bind, (wp_upd_area _ k a Hk). exact HQ.
Qed.

(** A head and its tails. *)
Lemma wp_mark_run h k a b n (K : unit -> Mg Z) (Q : Z -> heap_t -> Prop) : areas h !! k = Some a -> area_ok a -> 1 <= n -> free_run a b n ->
  (forall a', retable a a' (fun x => if x =? b then AT_HEAD else if (b <? x) && (x <? b + n) then AT_TAIL else kind_of a x) ->
     wp (K tt) (put_area k a' h) Q) ->
  wp (ATB_FREE_TO_HEAD k b;; (for_up (Z.to_nat (n - 1)) (b + 1) (fun bl => ATB_FREE_TO_TAIL k bl) ≫= K)) h Q.
Proof.
  intros Hk Ha Hn (Hb & Hbn & Hfree) HQ. apply wp_bind, (wp_FREE_TO_HEAD _ k a Hk Ha); [lia|apply Hfree; lia|].
  pose proof (retable_set a b AT_HEAD Ha ltac:(lia)) as Hr1. set (a2 := set_kind b AT_HEAD a) in *.
  assert (areas (put_area k a2 h) !! k = Some a2) as Hk2 by (by apply put_area_lookup with a).
  apply wp_bind, (wp_set_kinds k AT_TAIL (eq AT_FREE) _ _ a2); [done| |done|apply Hr1|lia|change (n_blocks_of a2) with (n_blocks_of a); lia| |].
  { intros j s a' Q' Hka Hoka Hj Hfr HQ'. by apply (wp_FREE_TO_TAIL s k a'). }
  { intros i Hi. rewrite (rt_kind _ _ _ Hr1) by lia. rewrite (proj2 (Z.eqb_neq i b)) by lia. symmetry. apply Hfree. lia. }
  intros a3 Hr2. rewrite put_area_put. apply HQ. eapply retable_ext; [eapply retable_trans; [exact Hr1|exact Hr2]|].
  intros x Hx. cbn beta. rewrite (rt_kind _ _ _ Hr1) by lia. change (AT_HEAD `mod` 4) with AT_HEAD.
  replace ((b + 1 <=? x) && (x <? b + 1 + Z.of_nat (Z.to_nat (n - 1)))) with ((b <? x) && (x <? b + n)) by lia.
  destruct (Z.eqb_spec x b) as [->|]; [|done]. by replace ((b <? b) && (b <? b + n)) with false by lia.
Qed.

(** The area once the pointers are set. *)
Definition start_area (e n : Z) (a : area_t) : area_t :=
  with_last_used (Z.max (gc_last_used_block a) e) (if n =? 1 then with_last_free ((e + 1) / BLOCKS_PER_ATB) a else a).

Lemma start_area_same e n a : n_blocks_of (start_area e n a) = n_blocks_of a /\ tables (start_area e n a) = tables a /\
  pool (start_area e n a) = pool a /\ gc_pool_start (start_area e n a) = gc_pool_start a /\ (forall x, kind_of (start_area e n a) x = kind_of a x) /\
  (forall x, ftb_of (start_area e n a) x = ftb_of a x).
Proof. unfold start_area. by destruct (n =? 1). Qed.

Lemma start_area_ok e n a : area_ok a -> 0 <= e -> area_ok (start_area e n a).
Proof.
  intros Ha He. unfold start_area. destruct (n =? 1); apply (area_ok_ext a); try done; cbn; [unfold BLOCKS_PER_ATB; apply Z.div_pos; lia|apply (ao_last_free _ Ha)].
Qed.

(** The area when the words have been cleared. *)
Lemma taken_unflagged a b n a3 p : area_ok a -> 1 <= n -> 0 <= b -> b + n <= n_blocks_of a ->
  retable (start_area (b + n - 1) n a) a3 (fun x => if x =? b then AT_HEAD else if (b <? x) && (x <? b + n) then AT_TAIL else kind_of a x) ->
  with_range (pool a) (4 * b) (4 * n) (fun _ => 0) p -> taken a b n false (with_pool p a3).
Proof.
  intros Ha Hn Hb Hbn Hr Hp. destruct (start_area_same (b + n - 1) n a) as (E1 & E2 & E3 & E4 & E5 & E6).
  pose proof (start_area_ok (b + n - 1) n a Ha ltac:(lia)) as Hs. destruct (retable_fields _ _ _ Hr) as (F1 & F2 & F3 & F4). split.
  - rewrite (rt_fields _ _ _ Hr). unfold start_area, with_tables, with_pool, with_last_used, with_last_free, BLOCKS_PER_ATB. cbn.
    destruct (Z.eqb_spec n 1) as [->|]; cbn; f_equal; try lia. f_equal. lia.
  - apply with_pool_ok; [apply Hr|]. rewrite F4, E3. apply Hp.
  - intros x Hx. apply (rt_kind _ _ _ Hr). lia.
  - intros x Hx. change (ftb_of (with_pool p a3) x) with (ftb_of a3 x). rewrite (retable_flag _ _ _ _ Hr Hs), E6 by lia. by destruct (x =? b).
  - done.
Qed.

Lemma taken_flagged a b n p a4 : area_ok a -> 0 <= b < n_blocks_of a -> taken a b n false a4 ->
  p = <[Z.to_nat (4 * b) := 0]> (pool a4) -> 1 <= n -> b + n <= n_blocks_of a -> taken a b n true (ftb_set b (with_pool p a4)).
Proof.
  intros Ha Hb [Hf Hok Hk Hfl [Hl Hp]] Hpp Hn Hbn. pose proof (ao_pool _ Ha) as Hpl.
  assert (with_range (pool a) (4 * b) (4 * n) (fun _ => 0) p) as Hp'.
  { rewrite Hpp. split; [by rewrite length_insert|]. intros j Hj. rewrite nth_lookup. destruct (Z.eq_dec j (4 * b)) as [->|Hne].
    - rewrite list_lookup_insert_eq by lia. by replace ((4 * b <=? 4 * b) && (4 * b <? 4 * b + 4 * n)) with true by lia.
    - rewrite list_lookup_insert_ne, <-nth_lookup by lia. by apply Hp. }
  assert (area_ok (with_pool p a4)) as Hok4 by (apply with_pool_ok; [done|]; rewrite (proj1 Hp'); by rewrite Hl).
  assert (n_blocks_of a4 = n_blocks_of a /\ ftb_len a4 = ftb_len a) as [Hn4 Hfl4] by (by rewrite Hf).
  pose proof (ftb_blocks _ Ha) as Hfb. assert (0 <= b < 8 * ftb_len (with_pool p a4)) as Hb4 by (change (ftb_len (with_pool p a4)) with (ftb_len a4); lia).
  split.
  - unfold ftb_set, with_tables, with_pool. cbn. by rewrite Hf.
  - apply ftb_write_ok; [done|exact Hb4|apply u8_byte].
  - intros x Hx. unfold ftb_set. rewrite ftb_write_kind; [by apply Hk|done|lia|]. change (n_blocks_of (with_pool p a4)) with (n_blocks_of a4). lia.
  - intros x Hx. rewrite ftb_set_of by (done || lia). change (ftb_of (with_pool p a4) x) with (ftb_of a4 x). rewrite Hfl by done.
    destruct (x =? b); cbn; [by rewrite orb_true_r|by rewrite orb_false_r].
  - exact Hp'.
Qed.

Lemma wp_take_run h k a e n fin (Q : Z -> heap_t -> Prop) : areas h !! k = Some a -> area_ok a -> 1 <= n -> free_run a (e - n + 1) n ->
  (forall a', taken a (e - n + 1) n fin a' -> Q (PTR_FROM_BLOCK a (e - n + 1)) (taken_heap h k n a')) ->
  wp (take_run n fin k e n) h Q.
Proof.
  intros Hk Ha Hn (Hb & Hbn & Hfree) HQ. unfold take_run. cbn zeta. set (b := e - n + 1) in *. assert (e = b + n - 1) as He by lia.
  apply (wp_take_start h k a e n (fun _ => _)); [done|]. fold (start_area e n a). set (a1 := start_area e n a). set (h1 := MkHeap _ _ _ _ _ _ _ _).
  destruct (start_area_same e n a) as (E1 & E2 & E3 & E4 & E5 & E6). fold a1 in E1, E2, E3, E4, E5, E6.
  assert (areas h1 !! k = Some a1) as Hk1 by (cbn; rewrite list_lookup_insert_eq; [done|by eapply lookup_lt_Some]).
  assert (area_ok a1) as Ha1 by (apply start_area_ok; [done|lia]).
  replace (e - b) with (n - 1) by lia. apply (wp_mark_run _ k a1 b n (fun _ => _)); [done|done|done| |].
  { split; [done|]. split; [lia|]. intros i Hi. rewrite E5. by apply Hfree. }
  intros a3 Hr3. pose proof (retable_ext _ _ _ (fun x => if x =? b then AT_HEAD else if (b <? x) && (x <? b + n) then AT_TAIL else kind_of a x) Hr3) as Hr.
  specialize (Hr ltac:(intros x _; cbn beta; by rewrite E5)). destruct (retable_fields _ _ _ Hr) as (F1 & F2 & F3 & F4). pose proof (rt_ok _ _ _ Hr) as Ha3.
  assert (areas (put_area k a3 h1) !! k = Some a3) as Hk3 by (by apply put_area_lookup with a1).
  apply wp_bind, (wp_get_area _ k a3 Hk3). cbn zeta. apply wp_bind, wp_modify. pose proof (ao_pool _ Ha) as Hpl.
  unfold WORDS_PER_BLOCK. apply wp_bind, (wp_zero_words _ k a3 (b * 4) (Z.to_nat ((n - 1 + 1) * 4))); [exact Hk3|lia|rewrite F4, E3; lia|].
  intros p Hp. rewrite Z2Nat.id in Hp by lia. rewrite F4, E3, (Z.mul_comm b 4) in Hp. replace ((n - 1 + 1) * 4) with (4 * n) in Hp by lia.
  assert (taken a b n false (with_pool p a3)) as Htk by (apply taken_unflagged; try done; by rewrite <-He).
  assert (gc_pool_start a3 + b * BYTES_PER_BLOCK = PTR_FROM_BLOCK a b) as ->.
  { rewrite (rt_fields _ _ _ Hr). cbn [gc_pool_start with_tables]. rewrite E4. unfold PTR_FROM_BLOCK. lia. }
  set (h4 := put_area k (with_pool p a3) _). assert (areas h4 !! k = Some (with_pool p a3)) as Hk4 by (by apply put_area_lookup with a3).
  apply wp_bind. destruct fin.
  - set (p' := <[Z.to_nat (4 * b) := 0]> p). pose proof (taken_flagged a b n p' _ Ha ltac:(lia) Htk eq_refl Hn Hbn) as Htk'.
    apply wp_bind, (wp_set_word _ k _ Hk4); [cbn; destruct Hp as [-> _]; lia|].
    fold (with_pool p a3). rewrite (Z.mul_comm b 4). change (pool (with_pool p a3)) with p. fold p'.
    apply (wp_FTB_SET _ k (with_pool p' (with_pool p a3))); [by apply put_area_lookup with (with_pool p a3)| | |].
    + apply with_pool_ok; [apply Htk|]. unfold p'. by rewrite length_insert.
    + change (0 <= b < 8 * ftb_len a3). pose proof (ftb_blocks _ Ha3). lia.
    + apply wp_ret. rewrite put_area_put. unfold h4. rewrite put_area_put. specialize (HQ _ Htk').
      unfold taken_heap in HQ. unfold put_area, with_alloc_amount, with_areas, h1. cbn -[uwrap]. by rewrite list_insert_insert_eq, list_insert_insert_eq.
  - apply wp_ret, wp_ret. specialize (HQ _ Htk). unfold taken_heap in HQ. unfold h4, put_area, with_alloc_amount, with_areas, h1. cbn -[uwrap].
    by rewrite list_insert_insert_eq, list_insert_insert_eq.
Qed.

(** ** Making room: new areas, and what operations keep

    The layout that [gc_setup_area] computes, the size of an area that
    [gc_try_add_heap] asks for, and the invariant of the heap through
    allocation and collection. *)

(** ** New areas *)

(** All blocks are free. *)
Record fresh_area (a : area_t) : Prop := {
  fr_ok : area_ok a;
  fr_free b : 0 <= b < n_blocks_of a -> kind_of a b = AT_FREE;
  fr_flags b : 0 <= b < n_blocks_of a -> ftb_of a b = false;
  fr_index : gc_last_free_atb_index a = 0 /\ gc_last_used_block a = 0 }.

Lemma nth_repeat_0 n i : nth i (repeat 0 n) 0 = 0.
Proof. revert i. induction n as [|n IH]; intros [|i]; cbn; try done. Qed.

Lemma fresh_tables a n : tables a = repeat 0 n -> (forall b, kind_of a b = AT_FREE) /\ forall b, ftb_of a b = false.
Proof.
  intros Ht. split; intros b; [unfold kind_of|unfold ftb_of]; rewrite Ht, nth_repeat_0; [|apply Z.bits_0].
  unfold field. by rewrite Z.shiftr_0_l.
Qed.

Lemma fresh_inv a : fresh_area a -> 0 < n_blocks_of a -> area_inv a.
Proof.
  intros [Ha Hfr Hfl [Hi Hl]] Hn. pose proof (ftb_blocks _ Ha). split; [split; [done| |lia]|..].
  - split; [lia| |].
    + intros b Hb. apply Hfr. lia.
    + intros b Hb Ht. by rewrite Hfr in Ht.
  - intros b Hb Hlt. lia.
  - intros b Hb Ht. by rewrite Hfl in Ht.
Qed.

Lemma align_down_eq p : align_down p = 16 * (p / 16).
Proof.
  unfold align_down, BYTES_PER_BLOCK. change (16 - 1) with (Z.ones 4). rewrite <-Z.ldiff_land, Z.ldiff_ones_r by done.
  rewrite Z.shiftl_mul_pow2, Z.shiftr_div_pow2 by done. change (2 ^ 4) with 16. lia.
Qed.

Section Room.
Context `{SystemHeap}.

(** The number of table bytes for [t] bytes in all. *)
Definition atb_len_for (t : Z) : Z := 8 * (t - 1) / 524.

(** The layout fits, with every multiple of 16 as the end. *)
Lemma gc_setup_area_spec addr start end_ : 0 < start -> start < end_ <= start + 2 ^ 29 -> end_ <= 2 ^ 32 -> end_ `mod` 16 = 0 ->
  exists a, gc_setup_area addr start end_ = Some a /\ fresh_area a /\ gc_alloc_table_byte_len a = atb_len_for (end_ - start) /\
    gc_pool_end a = end_ /\ start + Z.of_nat (length (tables a)) <= gc_pool_start a /\ area_addr a = addr.
Proof.
  intros Hs He Hmax Hal. unfold gc_setup_area. cbn zeta. rewrite (uwrap_small 32 (end_ - start)) by lia. unfold ALLOC_TABLE_GAP_BYTE.
  rewrite (uwrap_small 32 (end_ - start - 1)) by lia. rewrite (uwrap_small 32) by lia.
  change (8 + 8 * BLOCKS_PER_ATB / BLOCKS_PER_FTB + 8 * BLOCKS_PER_ATB * BYTES_PER_BLOCK) with 524.
  rewrite (Z.mul_comm _ 8). fold (atb_len_for (end_ - start)). set (t := end_ - start) in *. set (n := atb_len_for t).
  unfold BLOCKS_PER_ATB, BLOCKS_PER_FTB, BYTES_PER_BLOCK, WORDS_PER_BLOCK. set (f := (n * 4 + 8 - 1) / 8).
  assert (524 * n <= 8 * (t - 1) < 524 * n + 524) as Hn.
  { unfold n, atb_len_for. pose proof (Z.div_mod (8 * (t - 1)) 524 ltac:(done)). pose proof (Z.mod_pos_bound (8 * (t - 1)) 524 ltac:(done)). lia. }
  assert (8 * f <= n * 4 + 7 < 8 * f + 8) as Hf.
  { unfold f. pose proof (Z.div_mod (n * 4 + 8 - 1) 8 ltac:(done)). pose proof (Z.mod_pos_bound (n * 4 + 8 - 1) 8 ltac:(done)). lia. }
  assert (0 <= n) by lia. assert (start + n + 1 + f <= end_ - n * 4 * 16) as Hfit by lia. rewrite (proj2 (Z.leb_le _ _) Hfit).
  eexists. split; [done|]. set (a := MkArea _ _ _ _ _ _ _ _).
  assert (Z.of_nat (length (tables a)) = n + 1 + f) as Hlt by (cbn; rewrite repeat_length; lia).
  destruct (fresh_tables a _ eq_refl) as [Hk Hfl]. assert (n_blocks_of a = n * 4) as Hnb by done. assert (ftb_len a = f) as Hfb by (unfold ftb_len; rewrite Hnb; unfold f; f_equal; lia).
  split; [split; [|done|done|done]|split; [done|split; [done|split; [rewrite Hlt; cbn; lia|done]]]].
  split; try done.
  - rewrite Hfb. exact Hlt.
  - apply Forall_forall. intros x Hx. cbn in Hx. apply list_elem_of_In, repeat_spec in Hx as ->. done.
  - cbn. apply nth_repeat_0.
  - cbn. split; [lia|]. replace (end_ - n * 4 * 16) with (end_ + (- (n * 4)) * 16) by lia. rewrite Z.mod_add by done. done.
  - cbn. rewrite Hnb. split; lia.
  - cbn. rewrite length_map, length_seq, Hnb. lia.
Qed.
End Room.

(** What the system heap promises: it gives at most what the chip has, and a
    block that it gives is memory that no area of the heap uses. *)
Class SystemHeapLaws `{SystemHeap} := {
  split_bound h : 0 <= gc_get_max_new_split h <= 2 ^ 28;
  alloc_block h n p : MP_PLAT_ALLOC_HEAP h n = Some p -> 0 < p /\ p + n <= 2 ^ 32 /\ Forall (fun a => apart (p, p + n) (span_of a)) (areas h) }.

Section Adding.
Context `{SystemHeapLaws}.

Definition needed_for (n : Z) : Z := n + Z.max 2048 (n * 13 / 512).

(** The system heap cannot give what an allocation of [n] bytes needs. *)
Definition refused (h : heap_t) (n : Z) : Prop :=
  gc_get_max_new_split h < needed_for n \/ exists size, needed_for n <= size /\ MP_PLAT_ALLOC_HEAP h size = None.

Lemma apart_sub x y z : apart x z -> x.1 <= y.1 -> y.2 <= x.2 -> apart y z.
Proof. unfold apart. lia. Qed.

Lemma separate_snoc l x : separate l -> Forall (fun y => apart x y) l -> separate (l ++ [x]).
Proof.
  induction l as [|y l IH]; cbn; [done|]. intros [Hy Hl] [Hx Hr]%Forall_cons. split; [|by apply IH].
  apply Forall_app. split; [done|]. apply Forall_singleton. destruct Hx; [by right|by left].
Qed.

Definition added (h : heap_t) (a : area_t) : heap_t := with_areas (areas h ++ [a]) h.

Lemma added_inv h a : heap_inv h -> fresh_area a -> 0 < n_blocks_of a -> Forall (fun x => apart (span_of a) (span_of x)) (areas h) -> heap_inv (added h a).
Proof.
  intros [[Hsw Hun Hlk] Ha Hf Hl Hsep] Hfr Hn Hap. pose proof (fresh_inv _ Hfr Hn) as Hai. split; [split| | | |].
  - apply Forall_app. split; [done|]. by apply Forall_singleton, Hai.
  - intros [k b] [(a' & Hk & Hb) Hkd]. cbn in Hk, Hb. unfold kind in Hkd. cbn in Hkd. rewrite Hk in Hkd.
    apply lookup_app_Some in Hk as [Hk|[Hge Hk]].
    + apply (Hun (k, b)). split; [by exists a'|]. unfold kind. cbn. by rewrite Hk.
    + apply list_lookup_singleton_Some in Hk as [_ <-]. rewrite (fr_free _ Hfr) in Hkd; done.
  - done.
  - apply Forall_app. split; [done|]. by apply Forall_singleton.
  - intros k a' Hk Hk'. cbn in Hk, Hk'. rewrite lookup_app_l in Hk' by lia. by apply (Hf k).
  - cbn. rewrite length_app. lia.
  - cbn. rewrite map_app. apply separate_snoc; [done|]. by apply Forall_map.
Qed.

(** A new area has room for the allocation that asked for it. *)
Lemma needed_suffices n t : 0 <= n -> needed_for n - 47 <= t -> n + 15 <= 64 * atb_len_for t.
Proof.
  intros Hn. unfold needed_for, atb_len_for. intros Ht.
  pose proof (Z.div_mod (n * 13) 512 ltac:(done)). pose proof (Z.mod_pos_bound (n * 13) 512 ltac:(done)).
  pose proof (Z.div_mod (8 * (t - 1)) 524 ltac:(done)). pose proof (Z.mod_pos_bound (8 * (t - 1)) 524 ltac:(done)). lia.
Qed.

Lemma wp_gc_try_add_heap h n (Q : bool -> heap_t -> Prop) : heap_inv h -> 0 <= n <= 2 ^ 31 ->
  (refused h n -> Q false h) ->
  (forall a, fresh_area a -> n + 15 <= 16 * n_blocks_of a -> heap_inv (added h a) -> Q true (added h a)) ->
  wp (gc_try_add_heap n) h Q.
Proof.
  intros Hi Hn HF HT. unfold gc_try_add_heap. apply wp_bind. unfold wp at 1, get. cbn zeta.
  pose proof (split_bound h) as Hsb. pose proof (uwrap_range 32 (n * 13) ltac:(done)) as Hw.
  assert (0 <= u32 (n * 13) / 512 < 2 ^ 23) as Hq by (split; [apply Z.div_pos; lia|apply Z.div_lt_upper_bound; lia]).
  assert (u32 (n + Z.max 2048 (u32 (n * 13) / 512)) = n + Z.max 2048 (u32 (n * 13) / 512)) as -> by (apply uwrap_small; lia).
  destruct (Z.ltb_spec (gc_get_max_new_split h) (n + Z.max 2048 (u32 (n * 13) / 512))) as [Hlt|Hge].
  { apply wp_ret, HF. left. unfold needed_for. destruct (Z.lt_ge_cases n (2 ^ 28)); [|pose proof (Z.div_pos (n * 13) 512 ltac:(lia) ltac:(done)); lia].
    by rewrite uwrap_small in Hlt by lia. }
  rewrite (uwrap_small 32 (n * 13)) in Hge |- * by lia. fold (needed_for n) in *.
  set (th := align_down _). set (size := Z.min _ _).
  assert (needed_for n <= size <= 2 ^ 28) as Hsize by lia.
  destruct (MP_PLAT_ALLOC_HEAP h size) as [p|] eqn:Hp; [|apply wp_ret, HF; right; exists size; split; [lia|done]].
  destruct (alloc_block _ _ _ Hp) as (Hp0 & Hp1 & Hap). assert (2048 <= needed_for n) as Hmin by (unfold needed_for; lia).
  apply wp_bind. unfold gc_add. rewrite align_down_eq. set (e := 16 * ((p + size) / 16)).
  assert (p + size - 15 <= e <= p + size) as He.
  { unfold e. pose proof (Z.div_mod (p + size) 16 ltac:(done)). pose proof (Z.mod_pos_bound (p + size) 16 ltac:(done)). lia. }
  assert (e `mod` 16 = 0) as He16 by (unfold e; rewrite Z.mul_comm; by apply Z.mod_mul).
  unfold SIZEOF_AREA. destruct (gc_setup_area_spec p (p + 32) e ltac:(lia) ltac:(lia) ltac:(lia) He16) as (a & Ha & Hfr & Hlen & Hend & Hst & _).
  rewrite Ha. apply wp_bind, (wp_inside _ a); [done|]. apply wp_modify, wp_ret. fold (added h a).
  assert (n + 15 <= 16 * n_blocks_of a) as Hfit.
  { unfold n_blocks_of, BLOCKS_PER_ATB. rewrite Hlen. pose proof (needed_suffices n (e - (p + 32)) ltac:(lia) ltac:(lia)). lia. }
  apply HT; [done|done|]. apply added_inv; [done|done|lia|].
  eapply Forall_impl; [exact Hap|]. intros x Hx. apply (apart_sub (p, p + size)); [done|cbn; lia|cbn; lia].
Qed.
End Adding.
