(* ===== verification/GcAllocProps.v ===== *)
(** * Allocation

    [gc_alloc] takes the first run of free blocks that is long enough, after a
    collection or in a new area if it must, and fails only when nothing is left
    to try. *)
From Stdlib Require Import ZifyBool.
From S2P Require Import Prelude.
From S2P Require Import CMem.
From S2P Require Import BitFields.
From S2P Require Import Gc.
From S2P Require Import GcCollect.
From S2P Require Import GcAlloc.
From S2P Require Import GcFacts.
From S2P Require Import GcMark.
From S2P Require Import GcSweep.
From S2P Require Import GcProps.
From S2P Require Import GcSearch.
From S2P Require Import GcTake.
Local Open Scope Z_scope.

(** ** Replacing one area *)

Lemma lookup_put (l : list area_t) k a' j x : <[k := a']> l !! j = Some x -> j = k /\ x = a' \/ j <> k /\ l !! j = Some x.
Proof.
  intros Hj. apply list_lookup_insert_Some in Hj as [(-> & -> & _)|[Hne Hj]]; [by left|right]. split; [by intros ->|done].
Qed.

(** An operation on area [k] keeps the invariant when the new area has it, has
    the same span and no mark, and stays full if a search skips it. *)
Lemma replace_inv h h' k a a' : heap_inv h -> areas h !! k = Some a -> areas h' = <[k := a']> (areas h) -> gc_lock_depth h' = gc_lock_depth h ->
  area_inv a' -> (forall b, 0 <= b < n_blocks_of a' -> kind_of a' b <> AT_MARK) -> span_of a' = span_of a ->
  (gc_last_free_area h' < length (areas h))%nat ->
  (forall j x, (j < gc_last_free_area h')%nat -> areas h' !! j = Some x -> area_filled x) -> heap_inv h'.
Proof.
  intros [[Hsw Hun Hlk] Ha Hf Hl Hsep] Hk He Hld Hai Hnm Hsp Hlast Hfill. split; [split| | | |].
  - rewrite He. apply Forall_insert; [done|apply Hai].
  - intros [j b] [(x & Hj & Hb) Hkd]. cbn in Hj, Hb. unfold kind in Hkd. cbn in Hkd. rewrite Hj in Hkd. rewrite He in Hj.
    apply lookup_put in Hj as [[-> ->]|[Hne Hj]]; [by apply (Hnm b)|]. apply (Hun (j, b)). split; [by exists x|]. unfold kind. cbn. by rewrite Hj.
  - by rewrite Hld.
  - rewrite He. by apply Forall_insert.
  - done.
  - rewrite He, length_insert. done.
  - rewrite He. replace (map span_of (<[k:=a']> (areas h))) with (map span_of (areas h)); [done|].
    rewrite list_fmap_insert, Hsp. symmetry. apply list_insert_id. by rewrite list_lookup_fmap, Hk.
Qed.

Lemma unmarked_area h k a b : heap_ok h -> areas h !! k = Some a -> 0 <= b < n_blocks_of a -> kind_of a b <> AT_MARK.
Proof. intros Hok Hk Hb Hm. apply (ho_unmarked _ Hok (k, b)). split; [by exists a|]. unfold kind. cbn. by rewrite Hk. Qed.

(** ** The run that is taken *)

Section Taken.
Context (a a' : area_t) (b n : Z) (fin : bool) (Hai : area_inv a) (Hn : 1 <= n) (Hrun : free_run a b n) (Ht : taken a b n fin a').

Lemma taken_fields : n_blocks_of a' = n_blocks_of a /\ ftb_len a' = ftb_len a /\ span_of a' = span_of a /\
  gc_last_used_block a' = Z.max (gc_last_used_block a) (b + n - 1).
Proof. by rewrite (tk_fields _ _ _ _ _ Ht). Qed.

Lemma taken_kind x : 0 <= x < n_blocks_of a -> kind_of a' x = kind_of a x \/ b <= x < b + n /\ (kind_of a' x = AT_HEAD \/ kind_of a' x = AT_TAIL /\ b < x).
Proof.
  intros Hx. rewrite (tk_kind _ _ _ _ _ Ht) by done. destruct (Z.eqb_spec x b); [right; split; [lia|by left]|].
  destruct ((b <? x) && (x <? b + n)) eqn:E; [|by left]. right. split; [lia|]. right. split; [done|lia].
Qed.

Lemma taken_area_inv : (n = 1 -> forall y, y + n <= b -> ~ free_run a y n) -> area_inv a'.
Proof.
  intros Hff. destruct taken_fields as (En & Ef & _ & El). destruct Hrun as (Hb & Hbn & Hfree). destruct Hai as [[Ha [H1 H2 H3] H4] Hfull Hflag].
  pose proof (ftb_blocks _ Ha) as Hfb. split; [split; [apply Ht| |lia]|..].
  - split; [lia| |].
    + intros x Hx. rewrite En, El in Hx. destruct (taken_kind x ltac:(lia)) as [->|[? _]]; [apply H2; lia|lia].
    + intros x Hx Htl. rewrite En in Hx. destruct (taken_kind x Hx) as [He|[Hin [He|[_ Hlt]]]].
      * rewrite He in Htl. destruct (H3 x Hx Htl) as [Hp Hnf]. split; [done|].
        destruct (taken_kind (x - 1) ltac:(lia)) as [->|[_ [-> |[-> _]]]]; done.
      * by rewrite He in Htl.
      * split; [lia|]. destruct (taken_kind (x - 1) ltac:(lia)) as [Hp|[_ [-> |[-> _]]]]; [|done|done].
        rewrite (tk_kind _ _ _ _ _ Ht) by lia. destruct (Z.eqb_spec (x - 1) b); [done|]. by replace ((b <? x - 1) && (x - 1 <? b + n)) with true by lia.
  - intros x Hx Hlt. rewrite En in Hx. rewrite (tk_kind _ _ _ _ _ Ht) by done. destruct (Z.eqb_spec x b); [done|].
    destruct ((b <? x) && (x <? b + n)) eqn:E; [done|]. rewrite (tk_fields _ _ _ _ _ Ht) in Hlt. cbn in Hlt.
    destruct (Z.eqb_spec n 1) as [E1|]; [|by apply Hfull]. pose proof (Z.mul_div_le (b + 1) 4 ltac:(done)).
    intros Hfr. apply (Hff E1 x); [lia|]. rewrite E1. by apply free_run_1.
  - intros x Hx Hfl. rewrite En in Hx. rewrite (tk_flag _ _ _ _ _ Ht) in Hfl by done. rewrite (tk_kind _ _ _ _ _ Ht) by done.
    destruct (Z.eqb_spec x b); [done|]. pose proof (Hflag x Hx Hfl) as Hh. destruct ((b <? x) && (x <? b + n)) eqn:E; [|done].
    rewrite Hfree in Hh by lia. done.
Qed.

Lemma taken_unmarked : (forall x, 0 <= x < n_blocks_of a -> kind_of a x <> AT_MARK) -> forall x, 0 <= x < n_blocks_of a' -> kind_of a' x <> AT_MARK.
Proof.
  intros Hum x Hx. destruct taken_fields as (En & _). rewrite En in Hx. destruct (taken_kind x Hx) as [->|[_ [-> |[-> _]]]]; [by apply Hum|done|done].
Qed.
End Taken.

Lemma taken_inv h k a b n fin a' : heap_inv h -> 1 <= n -> areas h !! k = Some a -> first_fit h k (b + n - 1) n -> taken a b n fin a' ->
  heap_inv (taken_heap h k n a').
Proof.
  intros Hi Hn Hk (a0 & Hk0 & Hrun & Hff & Hbef) Ht. simplify_eq. replace (b + n - 1 - n + 1) with b in Hrun by lia.
  pose proof (heap_inv_area _ _ _ Hi Hk) as Hai. destruct (taken_fields _ _ _ _ _ Ht) as (En & _ & Esp & _).
  apply (replace_inv h _ k a a'); try done.
  - apply (taken_area_inv a a' b n fin); try done. intros _ y Hy. apply Hff. lia.
  - apply (taken_unmarked a a' b n fin Hn Ht). intros x Hx. by apply (unmarked_area h k a x (hi_ok _ Hi)).
  - cbn. destruct (n =? 1); [by eapply lookup_lt_Some|apply (hi_last _ Hi)].
  - intros j x Hj Hx. cbn in Hj, Hx. apply lookup_put in Hx as [[-> ->]|[Hne Hx]].
    + destruct (Z.eqb_spec n 1); [lia|]. pose proof (hi_filled _ Hi k a Hj Hk) as Hf. exfalso. by apply (filled_no_run a b n Hf Hn).
    + destruct (Z.eqb_spec n 1) as [->|]; [|by apply (hi_filled _ Hi j)]. apply no_run_filled. by apply (Hbef j).
Qed.

(** ** Collection keeps the invariant *)

Lemma kept_spans k l (P : span -> Prop) : Forall P (map span_of l) -> Forall P (map span_of (kept_from k l)).
Proof.
  revert k. induction l as [|a l IH]; intros k; cbn [map kept_from]; [done|]. intros [Ha Hl]%Forall_cons.
  destruct (given_back k a); [by apply IH|]. cbn [map]. apply Forall_cons. split; [done|by apply IH].
Qed.

Lemma kept_separate k l : separate (map span_of l) -> separate (map span_of (kept_from k l)).
Proof.
  revert k. induction l as [|a l IH]; intros k; cbn [map kept_from separate]; [done|]. intros [Ha Hl].
  destruct (given_back k a); [by apply IH|]. cbn [map separate]. split; [by apply kept_spans|by apply IH].
Qed.

Lemma reach_survives h R k b a : heap_areas_ok h -> areas h !! k = Some a -> 0 <= b < n_blocks_of a -> reach h R (k, b) -> survives h R (k, b).
Proof.
  intros Hok Hk Hb Hr. pose proof (area_of _ _ _ Hok Hk) as Ha. destruct (chain_exists a b Ha Hb) as [n Hn].
  exists a, b, n. cbn. split; [done|]. split; [done|]. split; [lia|]. split; [done|]. destruct Hn. lia.
Qed.

Lemma collects_inv h ws h' : heap_inv h -> collects h ws h' -> heap_ok h' -> heap_inv h'.
Proof.
  intros Hi (l & ess & Hl & _ & Hall & ->) Hok'. pose proof (sweepable_areas _ (ho_areas _ (hi_ok _ Hi))) as Hoka.
  assert (map span_of l = map span_of (areas h)) as Hsp.
  { apply list_eq. intros k. change (map span_of l) with (span_of <$> l). change (map span_of (areas h)) with (span_of <$> areas h).
    rewrite !list_lookup_fmap. destruct (areas h !! k) as [a|] eqn:Ha.
    - destruct (Hall k a Ha) as (a' & _ & -> & _ & Hc & _). cbn. by rewrite (co_fields _ _ _ _ _ Hc).
    - apply lookup_ge_None in Ha. rewrite lookup_ge_None_2 by lia. done. }
  split; [done| | | |]; cbn [areas gc_last_free_area].
  - apply Forall_forall. intros a' Ha'. pose proof (proj1 (Forall_forall _ _) (ho_areas _ Hok') a' Ha') as Hsw.
    apply kept_from_in, list_elem_of_lookup in Ha' as [k Ha']. destruct (lookup_lt_is_Some_2 (areas h) k) as [a Ha].
    { apply lookup_lt_Some in Ha'. lia. }
    destruct (Hall k a Ha) as (a1 & _ & Ha1 & _ & Hc & _). assert (a1 = a') as -> by congruence. pose proof (co_fields _ _ _ _ _ Hc) as Hf.
    assert (n_blocks_of a' = n_blocks_of a) as Hn by (by rewrite Hf). split; [done| |].
    + intros b Hb Hlt. rewrite Hf in Hlt. cbn in Hlt. lia.
    + intros b Hb Hfl. rewrite Hn in Hb. destruct (Z.eq_dec (kind_of a' b) AT_HEAD) as [|Hne]; [done|exfalso].
      destruct (Z.eq_dec (kind_of a b) AT_HEAD) as [Hh|Hh].
      * rewrite (co_clear _ _ _ _ _ Hc) in Hfl; [done|done|done|]. intros Hr. apply Hne.
        rewrite <-Hh. apply (co_kept _ _ _ _ _ Hc b Hb). by apply (reach_survives h _ k b a).
      * rewrite (co_flag _ _ _ _ _ Hc) in Hfl by (done || by left). by apply (ai_flags _ (heap_inv_area _ _ _ Hi Ha) b) in Hfl.
  - intros k a Hk. lia.
  - pose proof (hi_last _ Hi). destruct l as [|a l]; [cbn in Hl; lia|]. cbn [kept_from]. unfold given_back. rewrite andb_false_r. cbn. lia.
  - apply kept_separate. rewrite Hsp. apply (hi_separate _ Hi).
Qed.

(** ** The whole allocation *)

Definition blocks_for (n_bytes : Z) : Z := (n_bytes + 15) / 16.

Section Allocation.
Context `{SystemHeapLaws} `{FinaliserLaws} (roots : roots_t).

(** How [gc_alloc] comes to the heap it searches: [made_room h n collected added s].
    It starts with the heap it is called with, or with what a collection leaves
    of it when the threshold has been reached.  When a search has found nothing,
    it collects, unless it has collected already or automatic collection is
    switched off; and after that it adds an area, once. *)
Inductive made_room (h : heap_t) (n : Z) : bool -> bool -> heap_t -> Prop :=
  | room_start : gc_auto_collect_enabled h = false \/ gc_alloc_amount h < gc_alloc_threshold h -> made_room h n false false h
  | room_threshold t : gc_auto_collect_enabled h = true -> gc_alloc_threshold h <= gc_alloc_amount h ->
      collects h (root_section roots :: stacks roots) t -> made_room h n true false t
  | room_collected s u t : made_room h n false false s -> gc_auto_collect_enabled h = true ->
      skipped s u -> no_fit u n -> collects u (root_section roots :: stacks roots) t -> made_room h n true false t
  | room_added collected s u a : made_room h n collected false s -> collected = true \/ gc_auto_collect_enabled h = false ->
      skipped s u -> no_fit u n -> fresh_area a -> made_room h n collected true (added u a).

(** Pointer [p] is the start of a run of [n] blocks that were free in [s]. *)
Definition allocates (s : heap_t) (n : Z) (fin : bool) (p : Z) (h' : heap_t) : Prop :=
  exists k a b a', areas s !! k = Some a /\ first_fit s k (b + n - 1) n /\ taken a b n fin a' /\ p = PTR_FROM_BLOCK a b /\ h' = taken_heap s k n a'.

(** No run of free blocks is long enough, and no memory is left for an area. *)
Definition out_of_memory (s : heap_t) (n_bytes : Z) : Prop := no_fit s (blocks_for n_bytes) /\ refused s n_bytes.

Definition alloc_spec (h : heap_t) (n_bytes : Z) (fin : bool) (p : Z) (h' : heap_t) : Prop :=
  heap_inv h' /\ exists collected added s t, made_room h (blocks_for n_bytes) collected added s /\ skipped s t /\ heap_inv t /\
    (p = 0 /\ h' = t /\ (collected = true \/ gc_auto_collect_enabled h = false) /\ added = false /\ out_of_memory t n_bytes \/
     allocates t (blocks_for n_bytes) fin p h').

Lemma blocks_for_eq n : 0 <= n <= 2 ^ 31 -> align_down (u32 (n + BYTES_PER_BLOCK - 1)) / BYTES_PER_BLOCK = blocks_for n.
Proof.
  intros Hn. unfold BYTES_PER_BLOCK. rewrite uwrap_small, align_down_eq by lia. rewrite Z.mul_comm, Z.div_mul by done.
  unfold blocks_for. f_equal. lia.
Qed.

Lemma wp_alloc_take h c d s0 s n_bytes fin k e (Q : bool * bool + Z -> heap_t -> Prop) : made_room h (blocks_for n_bytes) c d s0 -> skipped s0 s -> heap_inv s -> 1 <= blocks_for n_bytes ->
  first_fit s k e (blocks_for n_bytes) -> (forall p h', alloc_spec h n_bytes fin p h' -> Q (inr p) h') ->
  wp (p ← take_run (blocks_for n_bytes) fin k e (blocks_for n_bytes); mret (inr p)) s Q.
Proof.
  intros Hr Hsk Hi Hn Hff HQ. set (n := blocks_for n_bytes) in *. destruct Hff as (a & Hk & Hrun & Hrest). apply wp_bind.
  apply (wp_take_run s k a); [done|apply (heap_inv_area _ _ _ Hi Hk)|done|done|]. intros a' Ht. apply wp_ret, HQ.
  assert (first_fit s k (e - n + 1 + n - 1) n) as Hff' by (replace (e - n + 1 + n - 1) with e by lia; by exists a).
  split; [by apply (taken_inv s k a (e - n + 1) n fin)|]. exists c, d, s0, s. split; [done|]. split; [done|]. split; [done|]. right. by exists k, a, (e - n + 1), a'.
Qed.

Lemma no_fit_run s t n k a : skipped s t -> areas s !! k = Some a -> free_run a 0 n -> ~ no_fit t n.
Proof.
  intros [Hs _] Hk Hrun Hno. destruct (Forall2_lookup_l _ _ _ _ _ Hs Hk) as (a' & Hk' & Hsk). apply (Hno k a' 0 Hk').
  by rewrite (skip_run _ _ _ _ Hsk).
Qed.

(** The loop variables: whether there will be no (more) collection, and whether
    there is a new area. *)
Definition alloc_inv (h : heap_t) (n : Z) (v : bool * bool) (s : heap_t) : Prop :=
  heap_inv s /\ gc_lock_depth s = 0 /\
  (exists c, made_room h n c v.2 s /\ v.1 = c || negb (gc_auto_collect_enabled h)) /\
  (v.2 = true -> v.1 = true /\ exists k a, areas s !! k = Some a /\ free_run a 0 n).

Lemma skipped_lock s t : skipped s t -> gc_lock_depth t = gc_lock_depth s.
Proof. intros [_ He]. by rewrite He. Qed.

Lemma wp_alloc_collect s (Q : unit -> heap_t -> Prop) : heap_inv s -> gc_lock_depth s = 0 ->
  (forall t, heap_inv t -> gc_lock_depth t = 0 -> collects s (root_section roots :: stacks roots) t -> Q tt t) -> wp (gc_collect roots) s Q.
Proof.
  intros Hi Hl HQ. eapply wp_mono; [apply gc_collect_spec, Hi|]. intros [] t [Hc Hok]. apply HQ; [|..|done].
  - by eapply collects_inv.
  - destruct Hc as (l & ess & _ & _ & _ & ->). done.
Qed.

Lemma wp_alloc_round h n_bytes fin collected added s (Q : bool * bool + Z -> heap_t -> Prop) : 0 <= n_bytes <= 2 ^ 31 -> 1 <= blocks_for n_bytes ->
  alloc_inv h (blocks_for n_bytes) (collected, added) s ->
  (forall p h', alloc_spec h n_bytes fin p h' -> Q (inr p) h') ->
  (forall t, added = false -> collected = false -> alloc_inv h (blocks_for n_bytes) (true, false) t -> Q (inl (true, false)) t) ->
  (forall t, added = false -> alloc_inv h (blocks_for n_bytes) (true, true) t -> Q (inl (true, true)) t) ->
  wp (r ← find_run (blocks_for n_bytes);
      match r with
      | Some (k, end_block, n_free) => p ← take_run (blocks_for n_bytes) fin k end_block n_free; mret (inr p)
      | None =>
          if collected : bool then
            b ← (if negb added then gc_try_add_heap n_bytes else mret false);
            if b : bool then mret (inl (collected, true)) else mret (inr 0)
          else gc_collect roots;; mret (inl (true, added))
      end) s Q.
Proof.
  intros Hnb Hn (Hi & Hl & (c & Hr & Hcv) & Hadd) HQ HQc HQa. set (n := blocks_for n_bytes) in *. apply wp_bind, wp_find_run; [done|done| |].
  - intros t k e Hsk Hff. apply (wp_alloc_take h c added s t n_bytes fin k e); [done|done|by eapply skipped_inv|done|done|done].
  - intros t Hsk Hno. assert (heap_inv t) as Hit by (by eapply skipped_inv). assert (gc_lock_depth t = 0) as Hlt by (by rewrite (skipped_lock _ _ Hsk)).
    cbn [fst snd] in *. destruct added.
    { exfalso. destruct (Hadd eq_refl) as (_ & k & a & Hk & Hrun). by apply (no_fit_run s t n k a). }
    cbn [negb]. destruct collected.
    + assert (c = true \/ gc_auto_collect_enabled h = false) as Hca by (destruct c; [by left|right; by destruct (gc_auto_collect_enabled h)]).
      apply wp_bind, wp_gc_try_add_heap; [done|done| |].
      * intros Href. apply wp_ret, HQ. split; [done|].
        exists c, false, s, t. split; [done|]. split; [done|]. split; [done|]. left. done.
      * intros a Hfr Hfit Hia. apply wp_ret, HQa; [done|]. split; [done|]. split; [done|]. split.
        { exists c. split; [by eapply room_added|done]. }
        intros _. split; [done|]. exists (length (areas t)), a. split; [cbn; by rewrite lookup_app_r, Nat.sub_diag by done|].
        assert (n <= n_blocks_of a) as Hnb'. { unfold n, blocks_for. apply Z.div_le_upper_bound; lia. }
        split; [done|]. split; [lia|]. intros i Hi'. apply (fr_free _ Hfr). lia.
    + destruct c; [done|]. cbn [orb] in Hcv. apply wp_bind, wp_alloc_collect; [done|done|]. intros u Hiu Hlu Hcu.
      apply wp_ret, HQc; [done|done|]. split; [done|]. split; [done|]. split; [|done]. exists true. split; [|done].
      apply (room_collected h n s t u); [done| |done|done|done]. by destruct (gc_auto_collect_enabled h).
Qed.

Lemma wp_gc_alloc h n_bytes flags (Q : Z -> heap_t -> Prop) : heap_inv h -> gc_lock_depth h = 0 -> 0 < n_bytes <= 2 ^ 31 ->
  (forall p h', alloc_spec h n_bytes (negb (Z.land flags GC_ALLOC_FLAG_HAS_FINALISER =? 0)) p h' -> Q p h') -> wp (gc_alloc roots n_bytes flags) h Q.
Proof.
  intros Hi Hl Hnb HQ. unfold gc_alloc. cbn zeta. rewrite blocks_for_eq by lia.
  assert (1 <= blocks_for n_bytes) as Hn by (unfold blocks_for; apply Z.div_le_lower_bound; lia).
  rewrite (proj2 (Z.eqb_neq _ _)) by lia. apply wp_bind. unfold wp at 1, get. rewrite Hl. cbn [Z.ltb Z.compare].
  set (fin := negb _). apply wp_bind.
  assert (forall c s, heap_inv s -> gc_lock_depth s = 0 ->
    (exists c', made_room h (blocks_for n_bytes) c' false s /\ c = c' || negb (gc_auto_collect_enabled h)) ->
    wp (loop 3 (fun '(collected, added) =>
        r ← find_run (blocks_for n_bytes);
        match r with
        | Some (k, end_block, n_free) => p ← take_run (blocks_for n_bytes) fin k end_block n_free; mret (inr p)
        | None =>
            if collected : bool then
              b ← (if negb added then gc_try_add_heap n_bytes else mret false);
              if b : bool then mret (inl (collected, true)) else mret (inr 0)
            else gc_collect roots;; mret (inl (true, added))
        end) (c, false)) s Q) as Hloop.
  { intros c s His Hls Hrs.
    apply (wp_loop (alloc_inv h (blocks_for n_bytes)) (fun v => if v.2 then 0%nat else if v.1 then 1%nat else 2%nat)).
    - intros [collected added] t Ht. apply (wp_alloc_round h); [lia|done|done|done| |].
      + intros u -> -> Hu. split; [done|]. cbn. lia.
      + intros u -> Hu. split; [done|]. cbn. destruct collected; lia.
    - split; [done|]. by split.
    - destruct c; cbn; lia. }
  destruct (_ && _) eqn:Eth.
  - apply andb_true_iff in Eth as [Hen Hth]. rewrite negb_involutive in Hen. apply wp_bind, wp_alloc_collect; [done|done|]. intros t Hit Hlt Hct. apply wp_ret, Hloop; [done|done|].
    exists true. split; [|done]. apply room_threshold; [done|lia|done].
  - apply wp_ret, Hloop; [done|done|]. exists false. split; [|done]. apply room_start.
    destruct (gc_auto_collect_enabled h); [right|by left]. cbn [negb andb] in Eth. lia.
Qed.

(** No bytes, or a locked collector. *)
Lemma gc_alloc_null h n_bytes flags : 0 <= n_bytes <= 2 ^ 31 -> n_bytes = 0 \/ 0 < gc_lock_depth h ->
  gc_alloc roots n_bytes flags h = Some (0, h).
Proof.
  intros Hnb Hor. unfold gc_alloc. cbn zeta. rewrite blocks_for_eq by done.
  destruct (Z.eqb_spec (blocks_for n_bytes) 0) as [|Hne]; [done|]. unfold mbind, M_bind, get. cbn [mret].
  destruct (Z.ltb_spec 0 (gc_lock_depth h)); [done|]. destruct Hor as [->|]; [done|lia].
Qed.
End Allocation.
