(* ===== verification/GcObjects.v ===== *)
(** * The objects of the heap

    The heap as its clients see it: pointers to objects with a size, words and a
    finaliser flag.  An operation on the tables of one area changes one object
    and leaves the others as they are. *)
From Stdlib Require Import ZifyBool.
From S2P Require Import Prelude.
From S2P Require Import CMem.
From S2P Require Import BitFields.
From S2P Require Import Gc.
From S2P Require Import GcCollect.
From S2P Require Import GcAlloc.
From S2P Require Import GcFacts.
From S2P Require Import GcMark.
From S2P Require Import GcSweep.
From S2P Require Import GcProps.
From S2P Require Import GcSearch.
From S2P Require Import GcTake.
From S2P Require Import GcAllocProps.
Local Open Scope Z_scope.

(** ** The abstraction *)

(** An object: its number of blocks, its words, its finaliser flag. *)
Record object := Obj { obj_blocks : Z; obj_words : list Z; obj_flag : bool }.

Definition words_at (a : area_t) (b n : Z) : list Z := take (Z.to_nat (4 * n)) (drop (Z.to_nat (4 * b)) (pool a)).

Definition area_obj (a : area_t) (b : Z) (o : object) : Prop :=
  0 <= b < n_blocks_of a /\ kind_of a b = AT_HEAD /\ chain a b (obj_blocks o) /\ obj_words o = words_at a b (obj_blocks o) /\ obj_flag o = ftb_of a b.

Definition obj_at (h : heap_t) (q : Z) (o : object) : Prop :=
  exists k a b, areas h !! k = Some a /\ q = PTR_FROM_BLOCK a b /\ area_obj a b o.

(** The objects of [h'] are those of [h], with what is at [p] replaced by [o]. *)
Definition objects_put (h : heap_t) (p : Z) (o : option object) (h' : heap_t) : Prop :=
  forall q x, obj_at h' q x <-> q = p /\ o = Some x \/ q <> p /\ obj_at h q x.

(** ** Pointers *)

Lemma ptr_range a b : area_ok a -> 0 <= b < n_blocks_of a -> gc_pool_start a <= PTR_FROM_BLOCK a b < gc_pool_end a.
Proof. intros Ha Hb. destruct (ao_end _ Ha) as [-> _]. unfold PTR_FROM_BLOCK, BYTES_PER_BLOCK. lia. Qed.

Lemma ptr_block a b : BLOCK_FROM_PTR a (PTR_FROM_BLOCK a b) = b.
Proof.
  unfold BLOCK_FROM_PTR, PTR_FROM_BLOCK. replace (b * BYTES_PER_BLOCK + gc_pool_start a - gc_pool_start a) with (b * BYTES_PER_BLOCK) by lia.
  by apply Z.div_mul.
Qed.

Lemma ptr_aligned a b : area_ok a -> Z.land (PTR_FROM_BLOCK a b) (BYTES_PER_BLOCK - 1) = 0.
Proof.
  intros Ha. change (BYTES_PER_BLOCK - 1) with (2 ^ 4 - 1). rewrite land_pow2_mask by done. unfold PTR_FROM_BLOCK, BYTES_PER_BLOCK.
  rewrite Z.add_comm. change (2 ^ 4) with 16. rewrite Z.mod_add by done. apply (ao_start _ Ha).
Qed.

Lemma separate_find l : forall i k a q, separate (map span_of l) -> l !! k = Some a -> gc_pool_start a <= q < gc_pool_end a ->
  find_area l i q = Some (i + k)%nat.
Proof.
  induction l as [|x l IH]; intros i k a q Hsep Hk Hq; [done|]. cbn [find_area]. cbn [map separate] in Hsep. destruct Hsep as [Hx Hl]. destruct k as [|k].
  - injection Hk as ->. rewrite Nat.add_0_r. by replace ((gc_pool_start a <=? q) && (q <? gc_pool_end a)) with true by lia.
  - cbn in Hk. assert (apart (span_of x) (span_of a)) as Hap.
    { apply (proj1 (Forall_forall _ _) Hx). apply list_elem_of_In, in_map, list_elem_of_In. by eapply list_elem_of_lookup_2. }
    unfold apart, span_of in Hap. cbn in Hap. replace ((gc_pool_start x <=? q) && (q <? gc_pool_end x)) with false by lia.
    rewrite (IH (S i) k a) by done. f_equal. lia.
Qed.

Section Pointers.
Context (h : heap_t) (Hi : heap_inv h).

Lemma ptr_find k a b : areas h !! k = Some a -> 0 <= b < n_blocks_of a -> find_area (areas h) 0 (PTR_FROM_BLOCK a b) = Some k.
Proof.
  intros Hk Hb. pose proof (sw_ok _ (ai_sweepable _ (heap_inv_area _ _ _ Hi Hk))) as Ha.
  by rewrite (separate_find _ 0 k a _ (hi_separate _ Hi) Hk (ptr_range _ _ Ha Hb)).
Qed.

(** A pointer is the start of one block of one area. *)
Lemma ptr_unique k a b k' a' b' : areas h !! k = Some a -> 0 <= b < n_blocks_of a -> areas h !! k' = Some a' -> 0 <= b' < n_blocks_of a' ->
  PTR_FROM_BLOCK a b = PTR_FROM_BLOCK a' b' -> k = k' /\ b = b'.
Proof.
  intros Hk Hb Hk' Hb' He. pose proof (ptr_find _ _ _ Hk Hb) as Hf. rewrite He, (ptr_find _ _ _ Hk' Hb') in Hf.
  injection Hf as ->. simplify_eq. split; [done|]. by rewrite <-(ptr_block a b), He, ptr_block.
Qed.

Lemma wp_ptr_area k a b (Q : option nat -> heap_t -> Prop) : areas h !! k = Some a -> 0 <= b < n_blocks_of a -> Q (Some k) h ->
  wp (gc_get_ptr_area (PTR_FROM_BLOCK a b)) h Q.
Proof.
  intros Hk Hb HQ. apply wp_get_ptr_area. rewrite ptr_aligned by apply (ai_sweepable _ (heap_inv_area _ _ _ Hi Hk)).
  cbn. by rewrite (ptr_find k a b).
Qed.

(** One area is replaced. *)
Lemma put_objects k a a' b o h' : areas h !! k = Some a -> areas h' = <[k := a']> (areas h) -> span_of a' = span_of a -> n_blocks_of a' = n_blocks_of a ->
  0 <= b < n_blocks_of a -> (forall x, area_obj a' b x <-> o = Some x) -> (forall b' x, b' <> b -> area_obj a' b' x <-> area_obj a b' x) ->
  objects_put h (PTR_FROM_BLOCK a b) o h'.
Proof.
  intros Hk He Hsp Hn Hb Hat Hother q x. assert (gc_pool_start a' = gc_pool_start a) as Hst by (by injection Hsp).
  assert (forall y, PTR_FROM_BLOCK a' y = PTR_FROM_BLOCK a y) as Hptr by (intros y; unfold PTR_FROM_BLOCK; by rewrite Hst).
  split.
  - intros (j & a1 & b1 & Hj & -> & Hx). rewrite He in Hj. apply list_lookup_insert_Some in Hj as [(-> & <- & _)|[Hne Hj]].
    + rewrite Hptr. destruct (Z.eq_dec b1 b) as [->|Hnb]; [left; split; [done|by apply Hat]|right].
      apply Hother in Hx; [|done]. split; [|by exists j, a, b1]. intros Hq. apply Hnb. by rewrite <-(ptr_block a b1), Hq, ptr_block.
    + right. split; [|by exists j, a1, b1]. intros Hq. destruct (ptr_unique j a1 b1 k a b) as [? _]; try done. apply Hx.
  - intros [[-> Ho]|[Hne (j & a1 & b1 & Hj & -> & Hx)]].
    + exists k, a', b. split; [rewrite He, list_lookup_insert_eq; [done|by eapply lookup_lt_Some]|]. split; [by rewrite Hptr|by apply Hat].
    + destruct (decide (j = k)) as [->|Hjk].
      * simplify_eq. exists k, a', b1. split; [rewrite He, list_lookup_insert_eq; [done|by eapply lookup_lt_Some]|]. split; [by rewrite Hptr|].
        apply Hother; [|done]. by intros ->.
      * exists j, a1, b1. split; [by rewrite He, list_lookup_insert_ne|]. done.
Qed.
End Pointers.

Lemma objects_put_put h h1 h2 p o o' : objects_put h p o h1 -> objects_put h1 p o' h2 -> objects_put h p o' h2.
Proof.
  intros H1 H2 q x. rewrite (H2 q x), (H1 q x). split; [intros [?|[? [[? _]|[_ ?]]]]; auto; by left|intros [?|[? ?]]; auto].
Qed.

(** ** A change inside some blocks *)

(** The two areas differ in the blocks from [lo] to [hi] only; these are one
    chain and free blocks, before and after. *)
Record region (a a' : area_t) (lo hi : Z) : Prop := {
  rg_n : n_blocks_of a' = n_blocks_of a;
  rg_range : 0 <= lo < hi /\ hi <= n_blocks_of a;
  rg_kind x : 0 <= x <= n_blocks_of a -> ~ lo <= x < hi -> kind_of a' x = kind_of a x;
  rg_lo : kind_of a lo <> AT_TAIL /\ kind_of a' lo <> AT_TAIL;
  rg_hi : kind_of a hi <> AT_TAIL;
  rg_in x : lo < x < hi -> kind_of a x <> AT_HEAD /\ kind_of a' x <> AT_HEAD;
  rg_pool : length (pool a') = length (pool a) /\ forall i, ~ (Z.to_nat (4 * lo) <= i < Z.to_nat (4 * hi))%nat -> pool a' !! i = pool a !! i;
  rg_flag x : 0 <= x < n_blocks_of a -> ~ lo <= x < hi -> ftb_of a' x = ftb_of a x }.

Lemma region_sym a a' lo hi : region a a' lo hi -> region a' a lo hi.
Proof.
  intros [Hn Hr Hk [Hl Hl'] Hh Hi [Hp Hp'] Hf]. split; rewrite ?Hn; try done.
  - intros x Hx Ho. symmetry. by apply Hk.
  - rewrite Hk; [done|lia|lia].
  - intros x Hx. split; by apply Hi.
  - split; [done|]. intros i Hi'. symmetry. by apply Hp'.
  - intros x Hx Ho. symmetry. by apply Hf.
Qed.

Lemma region_chain a a' lo hi x n : region a a' lo hi -> 0 <= x -> ~ lo <= x < hi -> chain a x n -> chain a' x n /\ (x + n <= lo \/ hi <= x).
Proof.
  intros [Hn Hr Hk [Hl Hl'] Hh Hi _ _] Hx Ho (H1 & H2 & H3 & H4).
  assert (x + n <= lo \/ hi <= x) as Hd.
  { destruct (Z.lt_ge_cases x lo); [left|right; lia]. destruct (Z.le_gt_cases (x + n) lo); [done|exfalso].
    apply Hl. replace lo with (x + (lo - x)) by lia. apply H3. lia. }
  split; [|done]. split; [done|]. split; [lia|]. split.
  - intros i Hi'. rewrite Hk; [by apply H3|lia|lia].
  - destruct (Z.eq_dec (x + n) lo) as [->|]; [done|]. rewrite Hk; [done|lia|lia].
Qed.

Lemma region_words a a' lo hi x n : region a a' lo hi -> 0 <= x -> 0 <= n -> x + n <= lo \/ hi <= x -> words_at a' x n = words_at a x n.
Proof.
  intros Hr Hx Hn Hd. pose proof (rg_range _ _ _ _ Hr). unfold words_at. apply list_eq. intros i.
  destruct (decide (i < Z.to_nat (4 * n))%nat); [|by rewrite !lookup_take_ge by lia].
  rewrite !lookup_take_lt, !lookup_drop by done. apply (rg_pool _ _ _ _ Hr). lia.
Qed.

Lemma region_obj a a' lo hi x o : region a a' lo hi -> x <> lo -> area_obj a x o -> area_obj a' x o.
Proof.
  intros Hr Hne (Hx & Hk & Hc & Hw & Hf). assert (~ lo <= x < hi) as Ho.
  { intros Hin. destruct (rg_in _ _ _ _ Hr x ltac:(lia)) as [Hh _]. done. }
  destruct (region_chain a a' lo hi x _ Hr ltac:(lia) Ho Hc) as [Hc' Hd]. split; [by rewrite (rg_n _ _ _ _ Hr)|].
  split; [by rewrite (rg_kind _ _ _ _ Hr) by (done || lia)|]. split; [done|]. destruct Hc as (H1 & _).
  split; [by rewrite (region_words _ _ _ _ _ _ Hr) by (done || lia)|]. by rewrite (rg_flag _ _ _ _ Hr).
Qed.

Lemma region_objs a a' lo hi x o : region a a' lo hi -> x <> lo -> area_obj a' x o <-> area_obj a x o.
Proof. intros Hr Hne. split; [apply (region_obj a' a lo hi); [by apply region_sym|done]|by apply (region_obj a a' lo hi)]. Qed.

(** The object at a head. *)
Lemma obj_at_head a b n : 0 <= b < n_blocks_of a -> kind_of a b = AT_HEAD -> chain a b n ->
  forall x, area_obj a b x <-> Some (Obj n (words_at a b n) (ftb_of a b)) = Some x.
Proof.
  intros Hb Hk Hc [m w f]. unfold area_obj. cbn. split.
  - intros (_ & _ & Hm & -> & ->). by rewrite (chain_unique _ _ _ _ Hm Hc).
  - intros [= <- <- <-]. done.
Qed.

Lemma no_obj_at a b : kind_of a b <> AT_HEAD -> forall x, area_obj a b x <-> None = Some x.
Proof. intros Hk x. split; [intros (_ & Hh & _); done|done]. Qed.

(** ** Allocating, sizing and freeing objects

    [gc_alloc], [gc_nbytes] and [gc_free] in terms of the objects of the heap. *)

(** ** A run that is taken is a new object *)

(** What follows a free block is no tail. *)
Lemma after_free a b : area_ok a -> kinds_ok a -> 0 < b <= n_blocks_of a -> kind_of a (b - 1) = AT_FREE -> kind_of a b <> AT_TAIL.
Proof.
  intros Ha Hko Hb Hf Ht. destruct (Z.eq_dec b (n_blocks_of a)) as [->|]; [by rewrite kind_past in Ht|].
  destruct (ko_tail _ Hko b ltac:(lia) Ht) as [_ Hn]. done.
Qed.

Lemma with_range_lookup p i n f p' j : with_range p i n f p' -> 0 <= i -> 0 <= n -> i + n <= Z.of_nat (length p) ->
  p' !! j = if decide (Z.to_nat i <= j < Z.to_nat (i + n))%nat then Some (f (Z.of_nat j)) else p !! j.
Proof.
  intros [Hl Hp] Hi Hn Hb. destruct (decide (j < length p)%nat) as [Hj|Hj].
  - specialize (Hp (Z.of_nat j) ltac:(lia)). rewrite Nat2Z.id in Hp.
    destruct (lookup_lt_is_Some_2 p' j ltac:(lia)) as [v Hv]. destruct (lookup_lt_is_Some_2 p j ltac:(lia)) as [w Hw].
    rewrite (nth_lookup_Some _ _ _ _ Hv), (nth_lookup_Some _ _ _ _ Hw) in Hp. rewrite Hv, Hw.
    case_decide; [replace ((i <=? Z.of_nat j) && (Z.of_nat j <? i + n)) with true in Hp by lia|replace ((i <=? Z.of_nat j) && (Z.of_nat j <? i + n)) with false in Hp by lia]; by subst.
  - rewrite decide_False by lia. rewrite !lookup_ge_None_2 by lia. done.
Qed.

Section Taken.
Context (a a' : area_t) (b n : Z) (fin : bool) (Hai : area_inv a) (Hn : 1 <= n) (Hrun : free_run a b n) (Ht : taken a b n fin a').

Lemma taken_region : region a a' b (b + n).
Proof.
  destruct (taken_fields _ _ _ _ _ Ht) as (En & Ef & _). destruct Hrun as (Hb & Hbn & Hfree). pose proof (sw_ok _ (ai_sweepable _ Hai)) as Ha.
  pose proof (ao_pool _ Ha) as Hpl. split; [done|lia| | | | | |].
  - intros x Hx Ho. destruct (Z.eq_dec x (n_blocks_of a)) as [->|]; [rewrite <-En at 1; by rewrite !kind_past by (done || apply Ht)|].
    rewrite (tk_kind _ _ _ _ _ Ht) by lia. rewrite (proj2 (Z.eqb_neq x b)) by lia. by replace ((b <? x) && (x <? b + n)) with false by lia.
  - rewrite (tk_kind _ _ _ _ _ Ht), Z.eqb_refl by lia. by rewrite Hfree by lia.
  - apply after_free; [done|apply Hai|lia|]. apply Hfree. lia.
  - intros x Hx. rewrite Hfree by lia. rewrite (tk_kind _ _ _ _ _ Ht) by lia. rewrite (proj2 (Z.eqb_neq x b)) by lia.
    by replace ((b <? x) && (x <? b + n)) with true by lia.
  - split; [apply (tk_pool _ _ _ _ _ Ht)|]. intros i Hi. rewrite (with_range_lookup _ _ _ _ _ i (tk_pool _ _ _ _ _ Ht)) by lia.
    rewrite decide_False; [done|]. replace (4 * b + 4 * n) with (4 * (b + n)) by lia. done.
  - intros x Hx Ho. rewrite (tk_flag _ _ _ _ _ Ht) by done. by rewrite (proj2 (Z.eqb_neq x b)) by lia.
Qed.

Lemma taken_obj x : area_obj a' b x <-> Some (Obj n (replicate (Z.to_nat (4 * n)) 0) fin) = Some x.
Proof.
  destruct (taken_fields _ _ _ _ _ Ht) as (En & Ef & _). destruct Hrun as (Hb & Hbn & Hfree). pose proof (sw_ok _ (ai_sweepable _ Hai)) as Ha.
  pose proof (ao_pool _ Ha) as Hpl. pose proof taken_region as Hrg.
  assert (words_at a' b n = replicate (Z.to_nat (4 * n)) 0) as <-.
  { apply list_eq. intros i. unfold words_at. rewrite lookup_take, lookup_drop, (with_range_lookup _ _ _ _ _ _ (tk_pool _ _ _ _ _ Ht)) by lia.
    destruct (decide (i < Z.to_nat (4 * n))%nat).
    - rewrite decide_True by lia. symmetry. by apply lookup_replicate_2.
    - rewrite lookup_ge_None_2; [done|]. rewrite length_replicate. lia. }
  assert (ftb_of a' b = fin) as <-.
  { rewrite (tk_flag _ _ _ _ _ Ht), Z.eqb_refl by lia. destruct (ftb_of a b) eqn:Hf; [|by rewrite orb_false_r].
    apply (ai_flags _ Hai) in Hf; [|lia]. rewrite Hfree in Hf by lia. done. }
  apply obj_at_head; [lia|by rewrite (tk_kind _ _ _ _ _ Ht), Z.eqb_refl by lia|]. split; [lia|]. split; [lia|]. split.
  - intros i Hi. rewrite (tk_kind _ _ _ _ _ Ht) by lia. rewrite (proj2 (Z.eqb_neq (b + i) b)) by lia.
    by replace ((b <? b + i) && (b + i <? b + n)) with true by lia.
  - rewrite (rg_kind _ _ _ _ Hrg) by lia. apply (rg_hi _ _ _ _ Hrg).
Qed.
End Taken.

Lemma allocates_objects s n fin p h' : heap_inv s -> 1 <= n -> allocates s n fin p h' ->
  objects_put s p (Some (Obj n (replicate (Z.to_nat (4 * n)) 0) fin)) h' /\ forall o, ~ obj_at s p o.
Proof.
  intros Hi Hn (k & a & b & a' & Hk & Hff & Ht & -> & ->). destruct Hff as (a0 & Hk0 & Hrun & _). simplify_eq.
  replace (b + n - 1 - n + 1) with b in Hrun by lia. pose proof (heap_inv_area _ _ _ Hi Hk) as Hai.
  destruct (taken_fields _ _ _ _ _ Ht) as (En & _ & Esp & _). destruct Hrun as (Hb & Hbn & Hfree) eqn:E. split.
  - apply (put_objects s Hi k a a'); try done; [lia| |].
    + intros x. by apply (taken_obj a a' b n fin).
    + intros b' x Hne. apply (region_objs a a' b (b + n)); [by apply (taken_region a a' b n fin)|done].
  - intros o (k1 & a1 & b1 & Hk1 & Hq & (Hb1 & Hh & _)). destruct (ptr_unique s Hi k a b k1 a1 b1) as [<- <-]; try done; [lia|].
    simplify_eq. rewrite Hfree in Hh by lia. done.
Qed.

(** ** Freeing *)

Section Chain.
Context (a : area_t) (b n : Z) (Hai : area_inv a) (Hb : 0 <= b < n_blocks_of a) (Hh : kind_of a b = AT_HEAD) (Hc : chain a b n).

(** Cutting the chain after [m] blocks. *)
Definition cut_kind (m x : Z) : Z := if (b + m <=? x) && (x <? b + n) then AT_FREE else kind_of a x.

Lemma chain_kind x : b < x < b + n -> kind_of a x = AT_TAIL.
Proof. intros Hx. destruct Hc as (_ & _ & Ht & _). replace x with (b + (x - b)) by lia. apply Ht. lia. Qed.

Record cut (m : Z) (a' : area_t) : Prop := {
  ct_spans : span_of a' = span_of a /\ n_blocks_of a' = n_blocks_of a /\ pool a' = pool a /\ gc_last_used_block a' = gc_last_used_block a /\ ftb_len a' = ftb_len a;
  ct_ok : area_ok a';
  ct_kind x : 0 <= x < n_blocks_of a -> kind_of a' x = cut_kind m x;
  ct_flag x : 0 <= x < n_blocks_of a -> ftb_of a' x = ftb_of a x && negb ((m =? 0) && (x =? b));
  ct_index : gc_last_free_atb_index a' <= (b + m) / 4 /\ gc_last_free_atb_index a' <= gc_last_free_atb_index a }.

Context (m : Z) (Hm : 0 <= m < n) (a' : area_t) (Hct : cut m a').

Lemma cut_kind_cases x : 0 <= x < n_blocks_of a -> kind_of a' x = kind_of a x /\ ~ b + m <= x < b + n \/ kind_of a' x = AT_FREE /\ b + m <= x < b + n.
Proof.
  intros Hx. rewrite (ct_kind _ _ Hct) by done. unfold cut_kind. destruct ((b + m <=? x) && (x <? b + n)) eqn:E; [right|left]; split; try done; lia.
Qed.

Lemma cut_inv : area_inv a'.
Proof.
  destruct (ct_spans _ _ Hct) as (_ & En & Ep & El & Ef). destruct Hai as [[Ha [H1 H2 H3] H4] Hfull Hflag]. destruct Hc as (C1 & C2 & C3 & C4).
  split; [split; [apply Hct|split|by rewrite El, Ef]|..].
  - by rewrite El, En.
  - intros x Hx. rewrite El, En in Hx. destruct (cut_kind_cases x ltac:(lia)) as [[-> _]|[-> _]]; [by apply H2|done].
  - intros x Hx Ht. rewrite En in Hx. destruct (cut_kind_cases x Hx) as [[He Ho]|[He _]]; [|by rewrite He in Ht].
    rewrite He in Ht. destruct (H3 x Hx Ht) as [Hp Hnf]. split; [done|]. destruct (cut_kind_cases (x - 1) ltac:(lia)) as [[-> _]|[_ Hin]]; [done|].
    exfalso. assert (x = b + n) as -> by lia. done.
  - intros x Hx Hlt. rewrite En in Hx. destruct (ct_index _ _ Hct) as [Hi1 Hi2]. pose proof (Z.mul_div_le (b + m) 4 ltac:(done)).
    destruct (cut_kind_cases x Hx) as [[-> _]|[_ Hin]]; [apply Hfull; [done|lia]|lia].
  - intros x Hx Hf. rewrite En in Hx. rewrite (ct_flag _ _ Hct) in Hf by done. apply andb_true_iff in Hf as [Hf Hne].
    pose proof (Hflag x Hx Hf) as Hhd. destruct (cut_kind_cases x Hx) as [[-> _]|[_ Hin]]; [done|]. exfalso.
    destruct (Z.eq_dec x b) as [->|]; [lia|]. rewrite chain_kind in Hhd by lia. done.
Qed.

Lemma cut_unmarked : (forall x, 0 <= x < n_blocks_of a -> kind_of a x <> AT_MARK) -> forall x, 0 <= x < n_blocks_of a' -> kind_of a' x <> AT_MARK.
Proof.
  intros Hu x Hx. destruct (ct_spans _ _ Hct) as (_ & En & _). rewrite En in Hx. destruct (cut_kind_cases x Hx) as [[-> _]|[-> _]]; [by apply Hu|done].
Qed.

Lemma cut_region : region a a' b (b + n).
Proof.
  destruct (ct_spans _ _ Hct) as (_ & En & Ep & _). destruct Hc as (C1 & C2 & C3 & C4). pose proof (sw_ok _ (ai_sweepable _ Hai)) as Ha. split; [done|lia| | |done| | |].
  - intros x Hx Ho. destruct (Z.eq_dec x (n_blocks_of a)) as [->|]; [rewrite <-En at 1; by rewrite !kind_past by (done || apply Hct)|].
    destruct (cut_kind_cases x ltac:(lia)) as [[? _]|[_ ?]]; [done|lia].
  - split; [by rewrite Hh|]. destruct (cut_kind_cases b Hb) as [[-> _]|[-> _]]; [by rewrite Hh|done].
  - intros x Hx. pose proof (chain_kind x Hx) as Ht. split; [by rewrite Ht|]. destruct (cut_kind_cases x ltac:(lia)) as [[-> _]|[-> _]]; [by rewrite Ht|done].
  - rewrite Ep. done.
  - intros x Hx Ho. rewrite (ct_flag _ _ Hct) by done. rewrite (proj2 (Z.eqb_neq x b)) by lia. by rewrite !andb_false_r, andb_true_r.
Qed.

(** What is left of the object. *)
Lemma cut_obj x : area_obj a' b x <-> (if m =? 0 then None else Some (Obj m (words_at a b m) (ftb_of a b))) = Some x.
Proof.
  destruct (ct_spans _ _ Hct) as (_ & En & Ep & _). destruct Hc as (C1 & C2 & C3 & C4). destruct (Z.eqb_spec m 0) as [E0|Hne].
  - apply no_obj_at. destruct (cut_kind_cases b Hb) as [[_ ?]|[-> _]]; [lia|done].
  - assert (words_at a b m = words_at a' b m) as -> by (unfold words_at; by rewrite Ep).
    assert (ftb_of a b = ftb_of a' b) as -> by (rewrite (ct_flag _ _ Hct), (proj2 (Z.eqb_neq _ _) Hne) by done; by rewrite andb_true_r).
    apply obj_at_head; [by rewrite En| |].
    + destruct (cut_kind_cases b Hb) as [[-> _]|[_ ?]]; [done|lia].
    + split; [lia|]. split; [lia|]. split.
      * intros i Hi. destruct (cut_kind_cases (b + i) ltac:(lia)) as [[-> _]|[_ ?]]; [apply C3; lia|lia].
      * destruct (cut_kind_cases (b + m) ltac:(lia)) as [[_ ?]|[-> _]]; [lia|done].
Qed.
End Chain.

(** ** The steps of [gc_free] *)

Definition lower_index (i : Z) (a : area_t) : area_t := if i <? gc_last_free_atb_index a then with_last_free i a else a.
Definition rescan_heap (h : heap_t) (k : nat) (a : area_t) : heap_t :=
  MkHeap (<[k := a]> (areas h)) (if (gc_last_free_area h =? k)%nat then gc_last_free_area h else 0%nat) (gc_stack_overflow h) (gc_lock_depth h)
    (gc_auto_collect_enabled h) (gc_alloc_threshold h) (gc_alloc_amount h) (events h).

Lemma wp_rescan h k a i (Q : unit -> heap_t -> Prop) : areas h !! k = Some a -> Q tt (rescan_heap h k (lower_index i a)) -> wp (rescan_from k i) h Q.
Proof.
  intros Hk HQ. unfold rescan_from. apply wp_bind. unfold wp at 1, get. apply wp_bind.
  assert (forall s, areas s = areas h -> rescan_heap h k (lower_index i a) = MkHeap (<[k := lower_index i a]> (areas s)) (gc_last_free_area s) (gc_stack_overflow s)
    (gc_lock_depth s) (gc_auto_collect_enabled s) (gc_alloc_threshold s) (gc_alloc_amount s) (events s) ->
    wp (a ← get_area k; if i <? gc_last_free_atb_index a then upd_area k (with_last_free i) else mret tt) s Q) as Hrest.
  { intros s He Hs. rewrite <-He in Hk. apply wp_bind, (wp_get_area s k a Hk). rewrite Hs in HQ. unfold lower_index in HQ.
    destruct (i <? gc_last_free_atb_index a); [by apply (wp_upd_area s k a Hk)|]. apply wp_ret. rewrite list_insert_id in HQ by done. by destruct s. }
  destruct (gc_last_free_area h =? k)%nat eqn:E; cbn [negb]; [apply wp_ret|apply wp_modify]; (apply Hrest; [done|]); unfold rescan_heap; by rewrite E.
Qed.

Lemma wp_free_chain h k a b n (Q : unit -> heap_t -> Prop) : areas h !! k = Some a -> area_ok a -> 0 <= b -> chain a b n ->
  (forall a', retable a a' (fun x => if (b <=? x) && (x <? b + n) then AT_FREE else kind_of a x) -> Q tt (put_area k a' h)) ->
  wp (free_chain k b) h Q.
Proof.
  intros Hk Ha Hb (C1 & C2 & C3 & C4) HQ. unfold free_chain. apply wp_bind, (wp_get_area h k a Hk).
  apply (wp_loop (fun x s => b <= x < b + n /\ exists a', s = put_area k a' h /\
      retable a a' (fun y => if (b <=? y) && (y <? x) then AT_FREE else kind_of a y)) (fun x => Z.to_nat (b + n - x))).
  - intros x s (Hx & a' & -> & Hr). destruct (retable_fields _ _ _ Hr) as (En & _). pose proof (rt_ok _ _ _ Hr) as Ha'.
    assert (areas (put_area k a' h) !! k = Some a') as Hk' by (by apply put_area_lookup with a).
    apply wp_bind, (wp_ANY_TO_FREE _ k a' Hk' Ha'); [lia|]. rewrite put_area_put. set (a2 := set_kind x AT_FREE a').
    assert (retable a a2 (fun y => if (b <=? y) && (y <? x + 1) then AT_FREE else kind_of a y)) as Hr2.
    { eapply retable_ext; [eapply retable_trans; [exact Hr|apply retable_set; [done|lia]]|]. intros y Hy. cbn beta.
      change (AT_FREE `mod` 4) with AT_FREE. destruct (Z.eqb_spec y x) as [->|]; [by replace ((b <=? x) && (x <? x + 1)) with true by lia|].
      rewrite (rt_kind _ _ _ Hr) by lia. by replace (y <? x + 1) with (y <? x) by lia. }
    destruct (retable_fields _ _ _ Hr2) as (En2 & _). pose proof (rt_ok _ _ _ Hr2) as Ha2.
    apply wp_bind, (wp_kind _ k a2); [by apply put_area_lookup with a|done|lia|]. apply wp_ret.
    assert (kind_of a2 (x + 1) = kind_of a (x + 1)) as ->.
    { destruct (Z.eq_dec (x + 1) (n_blocks_of a)) as [He|]; [rewrite He; rewrite <-En2 at 1; by rewrite !kind_past|].
      rewrite (rt_kind _ _ _ Hr2) by lia. by replace ((b <=? x + 1) && (x + 1 <? x + 1)) with false by lia. }
    destruct (Z.eqb_spec (kind_of a (x + 1)) AT_TAIL) as [Ht|Ht].
    + assert (x + 1 <> b + n) by (intros He; by rewrite He in Ht). split; [|lia]. split; [lia|]. by exists a2.
    + apply HQ. assert (x + 1 = b + n) as <-; [|done]. destruct (Z.lt_ge_cases (x + 1) (b + n)); [|lia].
      destruct Ht. replace (x + 1) with (b + (x + 1 - b)) by lia. apply C3. lia.
  - split; [lia|]. exists a. split; [by rewrite put_area_id|]. apply retable_refl; [done|]. intros y Hy. by replace ((b <=? y) && (y <? b)) with false by lia.
  - lia.
Qed.

Lemma lower_index_same i a : n_blocks_of (lower_index i a) = n_blocks_of a /\ tables (lower_index i a) = tables a /\ pool (lower_index i a) = pool a /\
  span_of (lower_index i a) = span_of a /\ gc_last_used_block (lower_index i a) = gc_last_used_block a /\ ftb_len (lower_index i a) = ftb_len a /\
  ftb_offset (lower_index i a) = ftb_offset a /\ (forall x, kind_of (lower_index i a) x = kind_of a x) /\
  gc_last_free_atb_index (lower_index i a) = Z.min i (gc_last_free_atb_index a).
Proof. unfold lower_index. destruct (Z.ltb_spec i (gc_last_free_atb_index a)); repeat split; try done; cbn; lia. Qed.

Lemma lower_index_ok i a : area_ok a -> 0 <= i -> area_ok (lower_index i a).
Proof.
  intros Ha Hi. unfold lower_index. destruct (i <? _); [|done]. by apply (area_ok_ext a).
Qed.

(** The heap after a cut is in order, and one object has changed. *)
Lemma cut_heap h k a b n m a' h' : heap_inv h -> areas h !! k = Some a -> 0 <= b < n_blocks_of a -> kind_of a b = AT_HEAD -> chain a b n ->
  0 <= m < n -> cut a b n m a' -> h' = rescan_heap h k a' ->
  heap_inv h' /\ objects_put h (PTR_FROM_BLOCK a b) (if m =? 0 then None else Some (Obj m (words_at a b m) (ftb_of a b))) h'.
Proof.
  intros Hi Hk Hb Hh Hc Hm Hct ->. pose proof (heap_inv_area _ _ _ Hi Hk) as Hai. destruct (ct_spans _ _ _ _ _ Hct) as (Esp & En & _). split.
  - apply (replace_inv h _ k a a'); try done.
    + by apply (cut_inv a b n) with m.
    + apply (cut_unmarked a b n) with m; [done..|]. intros x Hx. by apply (unmarked_area h k a x (hi_ok _ Hi)).
    + cbn. destruct (gc_last_free_area h =? k)%nat; [apply (hi_last _ Hi)|]. apply lookup_lt_Some in Hk. lia.
    + intros j x Hj Hx. cbn in Hj, Hx. destruct (Nat.eqb_spec (gc_last_free_area h) k) as [E|]; [|lia].
      rewrite list_lookup_insert_ne in Hx by lia. by apply (hi_filled _ Hi j).
  - apply (put_objects h Hi k a a' b); try done.
    + by apply (cut_obj a b n).
    + intros b' x Hne. apply (region_objs a a' b (b + n)); [by apply (cut_region a b n) with m|done].
Qed.

(** ** The operations *)

(** The area when [gc_free] has reset the flag and the index. *)
Definition unlisted (b : Z) (a : area_t) : area_t := lower_index (b / BLOCKS_PER_ATB) (ftb_clear b a).

Lemma unlisted_same b a : area_ok a -> 0 <= b < n_blocks_of a -> n_blocks_of (unlisted b a) = n_blocks_of a /\ pool (unlisted b a) = pool a /\
  span_of (unlisted b a) = span_of a /\ gc_last_used_block (unlisted b a) = gc_last_used_block a /\ ftb_len (unlisted b a) = ftb_len a /\ area_ok (unlisted b a) /\
  (forall x, 0 <= x <= n_blocks_of a -> kind_of (unlisted b a) x = kind_of a x) /\
  (forall x, 0 <= x -> ftb_of (unlisted b a) x = ftb_of a x && negb (x =? b)) /\
  gc_last_free_atb_index (unlisted b a) = Z.min (b / 4) (gc_last_free_atb_index a).
Proof.
  intros Ha Hb. pose proof (ftb_blocks _ Ha) as Hfb.
  destruct (lower_index_same (b / BLOCKS_PER_ATB) (ftb_clear b a)) as (E1 & E2 & E3 & E4 & E5 & E6 & E7 & E8 & E9). fold (unlisted b a) in *.
  split; [by rewrite E1|]. split; [by rewrite E3|]. split; [by rewrite E4|]. split; [by rewrite E5|]. split; [by rewrite E6|].
  split; [apply lower_index_ok; [apply ftb_clear_ok; [done|lia]|apply Z.div_pos; [lia|done]]|]. split; [|split; [|by rewrite E9]].
  - intros x Hx. rewrite E8. apply ftb_write_kind; [done|lia|done].
  - intros x Hx. rewrite <-ftb_clear_of by (done || lia). unfold ftb_of. by rewrite E2, E7.
Qed.

Lemma free_cut a b n a' : area_ok a -> 0 <= b < n_blocks_of a ->
  retable (unlisted b a) a' (fun x => if (b <=? x) && (x <? b + n) then AT_FREE else kind_of (unlisted b a) x) -> cut a b n 0 a'.
Proof.
  intros Ha Hb Hr. destruct (unlisted_same b a Ha Hb) as (E1 & E2 & E3 & E4 & E5 & E6 & E7 & E8 & E9). pose proof (rt_fields _ _ _ Hr) as Hf. split.
  - rewrite Hf. split; [exact E3|]. split; [exact E1|]. split; [exact E2|]. split; [exact E4|exact E5].
  - apply Hr.
  - intros x Hx. rewrite (rt_kind _ _ _ Hr) by lia. unfold cut_kind. rewrite Z.add_0_r, E7 by lia. done.
  - intros x Hx. rewrite (retable_flag _ _ _ _ Hr E6) by lia. rewrite E8 by lia. done.
  - assert (gc_last_free_atb_index a' = gc_last_free_atb_index (unlisted b a)) as -> by (by rewrite Hf). rewrite E9, Z.add_0_r. lia.
Qed.

Lemma put_rescan h k a a' : put_area k a' (rescan_heap h k a) = rescan_heap h k a'.
Proof. unfold put_area, rescan_heap, with_areas. cbn. by rewrite list_insert_insert_eq. Qed.
Lemma rescan_put h k a a' : rescan_heap (put_area k a' h) k a = rescan_heap h k a.
Proof. unfold put_area, rescan_heap, with_areas. cbn. by rewrite list_insert_insert_eq. Qed.

Lemma wp_gc_free h k a b n (Q : unit -> heap_t -> Prop) : heap_inv h -> Z.land (gc_lock_depth h) (Z.lnot GC_COLLECT_FLAG) = 0 ->
  areas h !! k = Some a -> 0 <= b < n_blocks_of a -> kind_of a b = AT_HEAD -> chain a b n ->
  (forall a', cut a b n 0 a' -> Q tt (rescan_heap h k a')) -> wp (gc_free (PTR_FROM_BLOCK a b)) h Q.
Proof.
  intros Hi Hl Hk Hb Hh Hc HQ. pose proof (sw_ok _ (ai_sweepable _ (heap_inv_area _ _ _ Hi Hk))) as Ha. pose proof (ftb_blocks _ Ha) as Hfb.
  unfold gc_free. apply wp_bind. unfold wp at 1, get. rewrite Hl. cbn [Z.eqb negb].
  pose proof (ptr_range a b Ha Hb). pose proof (ao_start _ Ha). rewrite (proj2 (Z.eqb_neq (PTR_FROM_BLOCK a b) 0)) by lia.
  apply wp_bind, (wp_ptr_area h Hi k a b); [done|done|]. apply wp_bind, (wp_inside _ k); [done|]. apply wp_bind, (wp_get_area h k a Hk).
  rewrite ptr_block. cbn zeta. apply wp_bind, (wp_kind h k a Hk Ha); [lia|]. rewrite Hh. apply wp_bind, wp_assert; [done|].
  apply wp_bind, (wp_FTB_CLEAR h k a); [done|done|lia|].
  apply wp_bind, (wp_rescan _ k (ftb_clear b a)); [by apply put_area_lookup with a|]. fold (unlisted b a). rewrite rescan_put.
  destruct (unlisted_same b a Ha Hb) as (E1 & _ & _ & _ & _ & E6 & E7 & _).
  apply (wp_free_chain _ k (unlisted b a) b n); [|done|lia| |].
  - cbn. rewrite list_lookup_insert_eq; [done|by eapply lookup_lt_Some].
  - apply (chain_ext a (unlisted b a)); [done|lia|exact E7|done].
  - intros a' Hr. rewrite put_rescan. apply HQ. by apply free_cut.
Qed.

Lemma wp_gc_nbytes h k a b n (Q : Z -> heap_t -> Prop) : heap_inv h -> areas h !! k = Some a -> 0 <= b < n_blocks_of a -> kind_of a b = AT_HEAD ->
  chain a b n -> Q (n * 16) h -> wp (gc_nbytes (PTR_FROM_BLOCK a b)) h Q.
Proof.
  intros Hi Hk Hb Hh Hc HQ. pose proof (sw_ok _ (ai_sweepable _ (heap_inv_area _ _ _ Hi Hk))) as Ha.
  unfold gc_nbytes. apply wp_bind, (wp_ptr_area h Hi k a b); [done|done|]. apply wp_bind, (wp_get_area h k a Hk). rewrite ptr_block. cbn zeta.
  apply wp_bind, (wp_kind h k a Hk Ha); [lia|]. rewrite Hh. cbn. apply wp_bind, (wp_chain_length h k a Hk Ha); [done|].
  intros m Hm. by rewrite (chain_unique _ _ _ _ Hm Hc).
Qed.
