(* ===== verification/GcRealloc.v ===== *)
(** * Resizing objects

    [gc_realloc] on each of its branches: nothing to do, cutting the tail,
    growing into free blocks, and moving. *)
From Stdlib Require Import ZifyBool.
From S2P Require Import Prelude.
From S2P Require Import CMem.
From S2P Require Import BitFields.
From S2P Require Import Gc.
From S2P Require Import GcCollect.
From S2P Require Import GcAlloc.
From S2P Require Import GcFacts.
From S2P Require Import GcMark.
From S2P Require Import GcSweep.
From S2P Require Import GcProps.
From S2P Require Import GcSearch.
From S2P Require Import GcTake.
From S2P Require Import GcAllocProps.
From S2P Require Import GcObjects.
Local Open Scope Z_scope.

(** ** Counting *)

Section Count.
Context (h : heap_t) (k : nat) (a : area_t) (Hk : areas h !! k = Some a) (Hai : area_inv a).
Context (b n m : Z) (Hb : 0 <= b < n_blocks_of a) (Hc : chain a b n).

(** The counts when block [bl] is next. *)
Definition counts (bl nb nf : Z) : Prop :=
  bl = b + nb + nf /\ 1 <= nb <= n /\ bl <= n_blocks_of a /\
  (nf = 0 \/ 0 < nf /\ nb = n /\ n + nf < m /\ free_run a (b + n) nf).

(** The counts at the end: the whole chain, and enough free blocks if there are. *)
Definition counted (nb nf : Z) : Prop := nb = n /\ 0 <= nf /\ free_run a (b + n) nf /\ (m <= n + nf \/ ~ free_run a (b + n) (m - n)).

Lemma counts_chain bl nb nf : counts bl nb nf -> kind_of a bl <> AT_TAIL -> nb = n /\ 0 <= nf /\ free_run a (b + n) nf.
Proof.
  intros (Hbl & Hnb & Hmax & Hor) Hk0. destruct Hc as (C1 & C2 & C3 & C4). destruct Hor as [->|(? & ? & _ & ?)]; [|split; [done|split; [lia|done]]].
  assert (nb = n) as ->. { destruct (Z.eq_dec nb n); [done|]. destruct Hk0. rewrite Hbl, Z.add_0_r. apply C3. lia. }
  split; [done|]. split; [lia|]. split; [lia|]. split; [lia|]. intros i Hi. lia.
Qed.

Lemma wp_count_blocks c : forall bl nb nf (Q : Z * Z -> heap_t -> Prop), counts bl nb nf -> Z.of_nat c = n_blocks_of a - bl ->
  (forall nf', counted n nf' -> Q (n, nf') h) -> wp (count_blocks c k bl m nb nf) h Q.
Proof.
  pose proof (ai_sweepable _ Hai) as Hsw. pose proof (sw_ok _ Hsw) as Ha. destruct Hc as (C1 & C2 & C3 & C4).
  induction c as [|c IH]; intros bl nb nf Q Hcs Hbl HQ; cbn [count_blocks].
  - destruct (counts_chain _ _ _ Hcs) as (-> & Hnf & Hrun). { replace bl with (n_blocks_of a) by lia. by rewrite kind_past. }
    apply wp_ret, HQ. split; [done|]. split; [done|]. split; [done|]. destruct Hcs as (Hcb & _). destruct (Z.le_gt_cases m (n + nf)); [by left|right].
    intros (_ & Hend & _). lia.
  - apply wp_bind, (wp_kind h k a Hk Ha); [destruct Hcs; lia|]. pose proof Hcs as (Hcb & Hcn & Hcm & Hor).
    destruct (Z.eqb_spec (kind_of a bl) AT_TAIL) as [Ht|Ht].
    + assert (nf = 0) as ->.
      { destruct Hor as [?|(Hp & -> & _ & (_ & _ & Hrun))]; [done|exfalso]. apply (after_free a bl Ha (sw_kinds _ Hsw)); [lia| |done]. apply Hrun. lia. }
      assert (nb <> n). { intros ->. rewrite Z.add_0_r in Hcb. by rewrite Hcb in Ht. }
      apply IH; [|lia|done]. split; [lia|]. split; [lia|]. split; [lia|by left].
    + destruct (counts_chain _ _ _ Hcs Ht) as (-> & Hnf & Hrun). destruct (Z.eqb_spec (kind_of a bl) AT_FREE) as [Hf|Hf].
      * assert (free_run a (b + n) (nf + 1)) as Hrun'.
        { destruct Hrun as (R1 & R2 & R3). split; [done|]. split; [lia|]. intros i Hi. destruct (Z.eq_dec i bl) as [->|]; [done|]. apply R3. lia. }
        destruct (Z.leb_spec m (n + (nf + 1))).
        -- apply wp_ret, HQ. split; [done|]. split; [lia|]. split; [done|by left].
        -- apply IH; [|lia|done]. split; [lia|]. split; [lia|]. split; [lia|]. right. split; [lia|]. done.
      * apply wp_ret, HQ. split; [done|]. split; [done|]. split; [done|]. destruct (Z.le_gt_cases m (n + nf)); [by left|right].
        intros (_ & _ & Hr). apply Hf, Hr. lia.
Qed.
End Count.

(** ** Growing in place *)

(** The words of an object with [m] blocks. *)
Definition resized (o : object) (m : Z) : object :=
  Obj m (take (Z.to_nat (4 * m)) (obj_words o) ++ replicate (Z.to_nat (4 * m) - length (obj_words o)) 0) (obj_flag o).

Record grown (a : area_t) (b n m : Z) (a' : area_t) : Prop := {
  gr_fields : a' = MkArea (area_addr a) (gc_alloc_table_byte_len a) (tables a') (gc_pool_start a) (gc_pool_end a) (pool a')
                     (gc_last_free_atb_index a) (Z.max (gc_last_used_block a) (b + m));
  gr_ok : area_ok a';
  gr_kind x : 0 <= x < n_blocks_of a -> kind_of a' x = if (b + n <=? x) && (x <? b + m) then AT_TAIL else kind_of a x;
  gr_flag x : 0 <= x < n_blocks_of a -> ftb_of a' x = ftb_of a x;
  gr_pool : with_range (pool a) (4 * (b + n)) (4 * (m - n)) (fun _ => 0) (pool a') }.

Section Grow.
Context (a a' : area_t) (b n m : Z) (Hai : area_inv a) (Hb : 0 <= b < n_blocks_of a) (Hh : kind_of a b = AT_HEAD) (Hc : chain a b n).
Context (Hm : n < m) (Hrun : free_run a (b + n) (m - n)) (Hg : grown a b n m a').

Lemma grown_fields : n_blocks_of a' = n_blocks_of a /\ ftb_len a' = ftb_len a /\ span_of a' = span_of a /\
  gc_last_used_block a' = Z.max (gc_last_used_block a) (b + m) /\ gc_last_free_atb_index a' = gc_last_free_atb_index a.
Proof. by rewrite (gr_fields _ _ _ _ _ Hg). Qed.

Lemma grown_cases x : 0 <= x < n_blocks_of a -> kind_of a' x = kind_of a x \/ b + n <= x < b + m /\ kind_of a' x = AT_TAIL.
Proof. intros Hx. rewrite (gr_kind _ _ _ _ _ Hg) by done. destruct ((b + n <=? x) && (x <? b + m)) eqn:E; [right; split; [lia|done]|by left]. Qed.

(** The last block pointer may be one too large for the finaliser table. *)
Lemma grown_inv : b + m < 8 * ftb_len a -> area_inv a'.
Proof.
  intros Hend. destruct grown_fields as (En & Ef & _ & El & Ei). destruct Hai as [[Ha [H1 H2 H3] H4] Hfull Hflag].
  destruct Hc as (C1 & C2 & C3 & C4). destruct Hrun as (R1 & R2 & R3). split; [split; [apply Hg|split|lia]|..].
  - lia.
  - intros x Hx. rewrite El, En in Hx. destruct (grown_cases x ltac:(lia)) as [->|[? _]]; [apply H2; lia|lia].
  - intros x Hx Ht. rewrite En in Hx. assert (0 < x /\ (kind_of a (x - 1) <> AT_FREE \/ b + n < x < b + m)) as [Hp Hor].
    { destruct (grown_cases x Hx) as [He|[Hin _]]; [rewrite He in Ht; destruct (H3 x Hx Ht); auto|]. split; [lia|].
      destruct (Z.eq_dec x (b + n)) as [->|]; [left|right; lia]. destruct (Z.eq_dec n 1) as [->|]; [by replace (b + 1 - 1) with b by lia; rewrite Hh|].
      replace (b + n - 1) with (b + (n - 1)) by lia. by rewrite C3 by lia. }
    split; [done|]. destruct (grown_cases (x - 1) ltac:(lia)) as [He|[_ ->]]; [|done]. destruct Hor as [Hnf|Hin]; [by rewrite He|].
    rewrite (gr_kind _ _ _ _ _ Hg) by lia. by replace ((b + n <=? x - 1) && (x - 1 <? b + m)) with true by lia.
  - intros x Hx Hlt. rewrite En in Hx. rewrite Ei in Hlt. destruct (grown_cases x Hx) as [->|[_ ->]]; [by apply Hfull|done].
  - intros x Hx Hf. rewrite En in Hx. rewrite (gr_flag _ _ _ _ _ Hg) in Hf by done. pose proof (Hflag x Hx Hf) as Hhd.
    destruct (grown_cases x Hx) as [->|[Hin _]]; [done|]. rewrite R3 in Hhd by lia. done.
Qed.

Lemma grown_region : region a a' b (b + m).
Proof.
  destruct grown_fields as (En & Ef & _). destruct Hc as (C1 & C2 & C3 & C4). destruct Hrun as (R1 & R2 & R3).
  pose proof (sw_ok _ (ai_sweepable _ Hai)) as Ha. pose proof (ao_pool _ Ha) as Hpl. split; [done|lia| | | | | |].
  - intros x Hx Ho. destruct (Z.eq_dec x (n_blocks_of a)) as [->|]; [rewrite <-En at 1; by rewrite !kind_past by (done || apply Hg)|].
    destruct (grown_cases x ltac:(lia)) as [?|[? _]]; [done|lia].
  - rewrite (gr_kind _ _ _ _ _ Hg) by done. replace ((b + n <=? b) && (b <? b + m)) with false by lia. by rewrite Hh.
  - apply after_free; [done|apply Hai|lia|]. apply R3. lia.
  - intros x Hx. assert (kind_of a x <> AT_HEAD) as Hne.
    { destruct (Z.lt_ge_cases x (b + n)); [replace x with (b + (x - b)) by lia; by rewrite C3 by lia|]. by rewrite R3 by lia. }
    split; [done|]. destruct (grown_cases x ltac:(lia)) as [->|[_ ->]]; done.
  - split; [apply (gr_pool _ _ _ _ _ Hg)|]. intros i Hi. rewrite (with_range_lookup _ _ _ _ _ i (gr_pool _ _ _ _ _ Hg)) by lia.
    rewrite decide_False; [done|]. lia.
  - intros x Hx _. by apply (gr_flag _ _ _ _ _ Hg).
Qed.

Lemma words_at_lookup x b0 n0 i : words_at x b0 n0 !! i = if decide (i < Z.to_nat (4 * n0))%nat then pool x !! (Z.to_nat (4 * b0) + i)%nat else None.
Proof. unfold words_at. by rewrite lookup_take, lookup_drop. Qed.

Lemma words_at_length x b0 n0 : area_ok x -> 0 <= b0 -> 0 <= n0 -> b0 + n0 <= n_blocks_of x -> length (words_at x b0 n0) = Z.to_nat (4 * n0).
Proof. intros Hx H1 H2 H3. pose proof (ao_pool _ Hx). unfold words_at. rewrite length_take, length_drop. lia. Qed.

Lemma grown_obj x : area_obj a' b x <-> Some (resized (Obj n (words_at a b n) (ftb_of a b)) m) = Some x.
Proof.
  destruct grown_fields as (En & Ef & _). destruct Hc as (C1 & C2 & C3 & C4). destruct Hrun as (R1 & R2 & R3).
  pose proof (sw_ok _ (ai_sweepable _ Hai)) as Ha. pose proof (ao_pool _ Ha) as Hpl. pose proof grown_region as Hrg.
  unfold resized. cbn [obj_words obj_flag]. rewrite words_at_length by (done || lia). rewrite take_ge by (rewrite words_at_length by (done || lia); lia).
  assert (words_at a b n ++ replicate (Z.to_nat (4 * m) - Z.to_nat (4 * n)) 0 = words_at a' b m) as ->.
  { apply list_eq. intros i. rewrite words_at_lookup, (with_range_lookup _ _ _ _ _ _ (gr_pool _ _ _ _ _ Hg)) by lia.
    destruct (decide (i < Z.to_nat (4 * n))%nat).
    - rewrite lookup_app_l by (rewrite words_at_length by (done || lia); lia). rewrite words_at_lookup, decide_True, decide_True, decide_False by lia. done.
    - rewrite lookup_app_r by (rewrite words_at_length by (done || lia); lia). rewrite words_at_length by (done || lia). case_decide.
      + rewrite decide_True by lia. apply lookup_replicate_2. lia.
      + apply lookup_ge_None_2. rewrite length_replicate. lia. }
  rewrite <-(gr_flag _ _ _ _ _ Hg) by done. apply obj_at_head; [by rewrite En| |].
  - destruct (grown_cases b Hb) as [->|[? _]]; [done|lia].
  - split; [lia|]. split; [lia|]. split.
    + intros i Hi. destruct (grown_cases (b + i) ltac:(lia)) as [He|[_ ->]]; [|done]. destruct (Z.lt_ge_cases i n); [rewrite He; apply C3; lia|].
      rewrite (gr_kind _ _ _ _ _ Hg) by lia. by replace ((b + n <=? b + i) && (b + i <? b + m)) with true by lia.
    + rewrite (rg_kind _ _ _ _ Hrg) by lia. apply (rg_hi _ _ _ _ Hrg).
Qed.
End Grow.

(** ** The branches *)

Section Branches.
Context (h : heap_t) (k : nat) (a : area_t) (Hi : heap_inv h) (Hk : areas h !! k = Some a).
Context (b n m : Z) (Hb : 0 <= b < n_blocks_of a) (Hh : kind_of a b = AT_HEAD) (Hc : chain a b n).

Let Hai : area_inv a := heap_inv_area _ _ _ Hi Hk.
Let Ha : area_ok a := sw_ok _ (ai_sweepable _ Hai).

(** The last used block of some area is behind its finaliser table. *)
Definition overshoots (h : heap_t) : Prop := exists k a, areas h !! k = Some a /\ gc_last_used_block a = 8 * ftb_len a.

Lemma wp_grow (Q : Z -> heap_t -> Prop) : n < m -> free_run a (b + n) (m - n) ->
  (forall h', objects_put h (PTR_FROM_BLOCK a b) (Some (resized (Obj n (words_at a b n) (ftb_of a b)) m)) h' -> heap_inv h' \/ overshoots h' ->
     Q (PTR_FROM_BLOCK a b) h') ->
  wp (for_up (Z.to_nat (m - n)) (b + n) (fun bl => kind ← ATB_GET_KIND k bl; assert_ (kind =? AT_FREE);; ATB_FREE_TO_TAIL k bl);;
      upd_area k (fun a => with_last_used (Z.max (gc_last_used_block a) (b + m)) a);;
      for_up (Z.to_nat ((m - n) * WORDS_PER_BLOCK)) ((b + n) * WORDS_PER_BLOCK) (fun i => set_word k i 0);;
      mret (PTR_FROM_BLOCK a b)) h Q.
Proof.
  intros Hm Hrun HQ. destruct Hrun as (R1 & R2 & R3) eqn:E. pose proof Hc as (C1 & C2 & _). pose proof (ao_pool _ Ha) as Hpl.
  apply wp_bind, (wp_set_kinds k AT_TAIL (eq AT_FREE) _ h a); [done| |done|done|lia|lia|intros i Hi'; symmetry; apply R3; lia|].
  { intros j s x Q' Hkx Hx Hj Hf HQ'. apply wp_bind, (wp_kind s k x Hkx Hx); [lia|]. rewrite <-Hf. apply wp_bind, wp_assert; [done|].
    by apply (wp_FREE_TO_TAIL s k x). }
  intros a1 Hr. destruct (retable_fields _ _ _ Hr) as (E1 & E2 & E3 & E4). pose proof (rt_fields _ _ _ Hr) as Hf1.
  apply wp_bind, (wp_upd_area _ k a1); [by apply put_area_lookup with a|]. rewrite put_area_put.
  set (a2 := with_last_used _ a1). apply wp_bind, (wp_zero_words _ k a2); [by apply put_area_lookup with a|unfold WORDS_PER_BLOCK; lia| |].
  { change (pool a2) with (pool a1). rewrite E4. unfold WORDS_PER_BLOCK. lia. }
  intros p Hp. rewrite put_area_put. apply wp_ret. change (pool a2) with (pool a1) in Hp. rewrite E4, Z2Nat.id in Hp by (unfold WORDS_PER_BLOCK; lia).
  unfold WORDS_PER_BLOCK in Hp. rewrite (Z.mul_comm (m - n) 4), (Z.mul_comm (b + n) 4) in Hp.
  assert (grown a b n m (with_pool p a2)) as Hg.
  { split.
    - unfold a2. rewrite Hf1. done.
    - apply with_pool_ok; [|change (pool a2) with (pool a1); rewrite E4; apply Hp]. unfold a2. apply (area_ok_ext a1); try done; [apply Hr|]. rewrite Hf1. apply (ao_last_free _ Ha).
    - intros x Hx. change (kind_of (with_pool p a2) x) with (kind_of a1 x). rewrite (rt_kind _ _ _ Hr) by lia.
      by replace (b + n + Z.of_nat (Z.to_nat (m - n))) with (b + m) by lia.
    - intros x Hx. change (ftb_of (with_pool p a2) x) with (ftb_of a1 x). apply (retable_flag _ _ _ _ Hr Ha). lia.
    - exact Hp. }
  set (a3 := with_pool p a2) in *. destruct (grown_fields _ _ _ _ _ Hg) as (G1 & G2 & G3 & G4 & G5). apply HQ.
  - apply (put_objects h Hi k a a3); try done.
    + by apply grown_obj.
    + intros b' x Hne. apply (region_objs a a3 b (b + m)); [by apply (grown_region a a3 b n m)|done].
  - pose proof (ftb_blocks _ Ha). pose proof (sw_ftb _ (ai_sweepable _ Hai)). destruct (Z.lt_ge_cases (b + m) (8 * ftb_len a)) as [Hlt|Hge]; [left|right].
    + apply (replace_inv h _ k a a3); try done.
      * by apply (grown_inv a a3 b n m).
      * intros x Hx. rewrite G1 in Hx. destruct (grown_cases _ _ _ _ _ Hg x Hx) as [->|[_ ->]]; [by apply (unmarked_area h k a x (hi_ok _ Hi))|done].
      * apply (hi_last _ Hi).
      * intros j x Hj Hx. cbn in Hj, Hx. apply lookup_put in Hx as [[-> ->]|[Hne Hx]]; [|by apply (hi_filled _ Hi j)].
        exfalso. apply (hi_filled _ Hi k a Hj Hk (b + n)); [lia|]. apply R3. lia.
    + exists k, a3. split; [by apply put_area_lookup with a|]. rewrite G4, G2. lia.
Qed.

Lemma wp_shrink (Q : Z -> heap_t -> Prop) : 1 <= m < n ->
  (forall h', objects_put h (PTR_FROM_BLOCK a b) (Some (resized (Obj n (words_at a b n) (ftb_of a b)) m)) h' -> heap_inv h' ->
     Q (PTR_FROM_BLOCK a b) h') ->
  wp (for_up (Z.to_nat (n - m)) (b + m) (fun bl => ATB_ANY_TO_FREE k bl);;
      rescan_from k ((b + m) / BLOCKS_PER_ATB);;
      mret (PTR_FROM_BLOCK a b)) h Q.
Proof.
  intros Hm HQ. pose proof Hc as (C1 & C2 & C3 & C4). pose proof (ao_pool _ Ha) as Hpl.
  apply wp_bind, (wp_set_kinds k AT_FREE (fun _ => True) _ h a); [done| |done|done|lia|lia|done|].
  { intros j s x Q' Hkx Hx Hj _ HQ'. by apply (wp_ANY_TO_FREE s k x). }
  intros a1 Hr. destruct (retable_fields _ _ _ Hr) as (E1 & E2 & E3 & E4). pose proof (rt_fields _ _ _ Hr) as Hf1.
  apply wp_bind, (wp_rescan _ k a1); [by apply put_area_lookup with a|]. rewrite rescan_put. apply wp_ret.
  destruct (lower_index_same ((b + m) / BLOCKS_PER_ATB) a1) as (L1 & L2 & L3 & L4 & L5 & L6 & L7 & L8 & L9). set (a2 := lower_index _ a1) in *.
  assert (cut a b n m a2) as Hct.
  { split.
    - rewrite L4, L1, L3, L5, L6, Hf1. done.
    - apply lower_index_ok; [apply Hr|]. apply Z.div_pos; [lia|done].
    - intros x Hx. rewrite L8, (rt_kind _ _ _ Hr) by lia. unfold cut_kind. by replace (b + m + Z.of_nat (Z.to_nat (n - m))) with (b + n) by lia.
    - intros x Hx. rewrite (proj2 (Z.eqb_neq m 0)) by lia. cbn. rewrite andb_true_r. unfold ftb_of. rewrite L2, L7.
      apply (retable_flag _ _ _ _ Hr Ha). lia.
    - rewrite L9. assert (gc_last_free_atb_index a1 = gc_last_free_atb_index a) as -> by (by rewrite Hf1). unfold BLOCKS_PER_ATB. lia. }
  destruct (cut_heap h k a b n m a2 _ Hi Hk Hb Hh Hc ltac:(lia) Hct eq_refl) as [Hinv Hobj]. rewrite (proj2 (Z.eqb_neq m 0)) in Hobj by lia.
  apply HQ; [|done]. unfold resized. cbn [obj_words obj_flag]. rewrite words_at_length by (done || lia).
  replace (Z.to_nat (4 * m) - Z.to_nat (4 * n))%nat with 0%nat by lia. rewrite app_nil_r.
  assert (take (Z.to_nat (4 * m)) (words_at a b n) = words_at a b m) as ->; [|done].
  unfold words_at. rewrite take_take. f_equal. lia.
Qed.
End Branches.

(** ** Moving *)

(** Words are copied between blocks that do not overlap. *)
Lemma wp_copy_words h kd ad ks as_ d s n (Q : unit -> heap_t -> Prop) : areas h !! kd = Some ad -> areas h !! ks = Some as_ ->
  0 <= n -> 0 <= d -> d + n <= Z.of_nat (length (pool ad)) -> 0 <= s -> s + n <= Z.of_nat (length (pool as_)) ->
  (kd = ks -> d + n <= s \/ s + n <= d) ->
  (forall p, with_range (pool ad) d n (fun j => nth (Z.to_nat (s + (j - d))) (pool as_) 0) p -> Q tt (put_area kd (with_pool p ad) h)) ->
  wp (copy_words kd d ks s n) h Q.
Proof.
  intros Hkd Hks Hn Hd Hdn Hs Hsn Hdis HQ. unfold copy_words.
  apply (wp_for_up (fun i t => exists p, t = put_area kd (with_pool p ad) h /\ with_range (pool ad) d i (fun j => nth (Z.to_nat (s + (j - d))) (pool as_) 0) p)).
  - exists (pool ad). split; [rewrite put_area_id; [done|by destruct ad]|]. apply with_range_refl.
  - intros i t Hi (p & -> & Hp). rewrite Z2Nat.id in Hi by lia. pose proof (proj1 Hp) as Hl.
    assert (exists ax, areas (put_area kd (with_pool p ad) h) !! ks = Some ax /\ pool ax !! Z.to_nat (s + i) = Some (nth (Z.to_nat (s + i)) (pool as_) 0)) as (ax & Hax & Hw).
    { destruct (lookup_lt_is_Some_2 (pool as_) (Z.to_nat (s + i)) ltac:(lia)) as [w Hw]. rewrite (nth_lookup_Some _ _ _ _ Hw).
      destruct (decide (kd = ks)) as [->|Hne].
      - rewrite Hkd in Hks. injection Hks as ->. exists (with_pool p as_). split; [by apply put_area_lookup with as_|]. cbn.
        rewrite (with_range_lookup _ _ _ _ _ _ Hp) by lia. rewrite decide_False; [done|]. specialize (Hdis eq_refl). lia.
      - exists as_. split; [cbn; by rewrite list_lookup_insert_ne|done]. }
    apply wp_bind, (wp_get_word _ ks ax Hax (s + i) _ _ ltac:(lia) Hw).
    apply (wp_set_word _ kd (with_pool p ad)); [by apply put_area_lookup with ad|cbn; lia|]. rewrite put_area_put.
    eexists. split; [done|]. pose proof (with_range_insert (pool ad) d (d + i) (fun j => nth (Z.to_nat (s + (j - d))) (pool as_) 0) p) as Hins.
    cbn beta in Hins. replace (s + (d + i - d)) with (s + i) in Hins by lia. replace (d + i - d) with i in Hins by lia. replace (d + i + 1 - d) with (i + 1) in Hins by lia. apply Hins; [done|lia|lia].
  - intros t (p & -> & Hp). rewrite Z2Nat.id in Hp by lia. rewrite Z.add_0_l in Hp. by apply HQ.
Qed.

(** Writing the words of an object changes that object only. *)
Lemma words_region a p b n : area_ok a -> kinds_ok a -> 0 <= b < n_blocks_of a -> kind_of a b = AT_HEAD -> chain a b n -> length p = length (pool a) ->
  (forall i, ~ (Z.to_nat (4 * b) <= i < Z.to_nat (4 * (b + n)))%nat -> p !! i = pool a !! i) -> region a (with_pool p a) b (b + n).
Proof.
  intros Ha Hko Hb Hh (C1 & C2 & C3 & C4) Hl Hp. split; try done.
  - split; [lia|done].
  - change (kind_of (with_pool p a)) with (kind_of a). by rewrite Hh.
  - intros x Hx. replace x with (b + (x - b)) by lia. change (kind_of (with_pool p a)) with (kind_of a). by rewrite C3 by lia.
Qed.

Lemma write_words h k a b n p : heap_inv h -> areas h !! k = Some a -> 0 <= b < n_blocks_of a -> kind_of a b = AT_HEAD -> chain a b n ->
  length p = length (pool a) -> (forall i, ~ (Z.to_nat (4 * b) <= i < Z.to_nat (4 * (b + n)))%nat -> p !! i = pool a !! i) ->
  heap_inv (put_area k (with_pool p a) h) /\
  objects_put h (PTR_FROM_BLOCK a b) (Some (Obj n (take (Z.to_nat (4 * n)) (drop (Z.to_nat (4 * b)) p)) (ftb_of a b))) (put_area k (with_pool p a) h).
Proof.
  intros Hi Hk Hb Hh Hc Hl Hp. pose proof (heap_inv_area _ _ _ Hi Hk) as [[Ha Hko Hft] Hfull Hflag].
  pose proof (with_pool_ok p a Ha Hl) as Ha'. split.
  - apply (replace_inv h _ k a (with_pool p a)); try done.
    + split; [split; [done|destruct Hko; by split|done]|done|done].
    + intros x Hx. by apply (unmarked_area h k a x (hi_ok _ Hi)).
    + apply (hi_last _ Hi).
    + intros j x Hj Hx. cbn in Hj, Hx. apply lookup_put in Hx as [[-> ->]|[Hne Hx]]; [by apply (hi_filled _ Hi k a)|by apply (hi_filled _ Hi j)].
  - apply (put_objects h Hi k a (with_pool p a)); try done.
    + apply (obj_at_head (with_pool p a) b n); done.
    + intros b' x Hne. apply (region_objs a (with_pool p a) b (b + n)); [by apply words_region|done].
Qed.

(** An allocation that finds room at once. *)
Lemma wp_gc_alloc_direct `{SystemHeap} `{Finalisers} roots h n_bytes flags (Q : Z -> heap_t -> Prop) : heap_inv h -> gc_lock_depth h = 0 -> 0 < n_bytes <= 2 ^ 31 ->
  gc_auto_collect_enabled h = false \/ gc_alloc_amount h < gc_alloc_threshold h -> ~ no_fit h (blocks_for n_bytes) ->
  (forall s p h', skipped h s -> allocates s (blocks_for n_bytes) (negb (Z.land flags GC_ALLOC_FLAG_HAS_FINALISER =? 0)) p h' -> heap_inv h' -> Q p h') ->
  wp (gc_alloc roots n_bytes flags) h Q.
Proof.
  intros Hi Hl Hnb Hth Hfit HQ. unfold gc_alloc. cbn zeta. rewrite blocks_for_eq by lia.
  assert (1 <= blocks_for n_bytes) as Hn by (unfold blocks_for; apply Z.div_le_lower_bound; lia).
  rewrite (proj2 (Z.eqb_neq _ _)) by lia. apply wp_bind. unfold wp at 1, get. rewrite Hl. cbn [Z.ltb Z.compare].
  set (fin := negb (Z.land _ _ =? 0)) in *. apply wp_bind. replace (_ && _) with false by (destruct Hth as [-> |?]; cbn; lia). apply wp_ret.
  cbn [loop]. apply wp_bind, wp_bind, wp_find_run; [done|done| |].
  - intros s k e Hsk (a & Hk & Hrun & Hrest). pose proof (skipped_inv _ _ Hsk Hi) as His. apply wp_bind.
    apply (wp_take_run s k a); [done|apply (heap_inv_area _ _ _ His Hk)|done|done|]. intros a' Ht. apply wp_ret, wp_ret.
    set (n := blocks_for n_bytes) in *. assert (first_fit s k (e - n + 1 + n - 1) n) as Hff' by (replace (e - n + 1 + n - 1) with e by lia; by exists a).
    apply (HQ s); [done|by exists k, a, (e - n + 1), a'|]. by apply (taken_inv s k a (e - n + 1) n fin).
  - intros s [Hsk _] Hno. destruct Hfit. intros j a b Ha. destruct (Forall2_lookup_l _ _ _ _ _ Hsk Ha) as (a' & Ha' & Hs).
    rewrite <-(skip_run _ _ _ _ Hs). by apply (Hno j).
Qed.

(** Skipping changes no object. *)
Lemma skipped_objects h s q x : skipped h s -> obj_at s q x <-> obj_at h q x.
Proof.
  intros [Hs _]. assert (forall a a' b, skip a a' -> PTR_FROM_BLOCK a' b = PTR_FROM_BLOCK a b /\ (area_obj a' b x <-> area_obj a b x)) as Hsame.
  { intros a a' b [->|(_ & y & _ & ->)]; done. }
  split; intros (k & a & b & Hk & -> & Hx).
  - destruct (Forall2_lookup_r _ _ _ _ _ Hs Hk) as (a0 & Hk0 & Hsk). destruct (Hsame _ _ b Hsk) as [Hp Ho]. exists k, a0, b. by rewrite <-Ho.
  - destruct (Forall2_lookup_l _ _ _ _ _ Hs Hk) as (a0 & Hk0 & Hsk). destruct (Hsame _ _ b Hsk) as [Hp Ho]. exists k, a0, b. by rewrite Ho.
Qed.

(** The object moves from [ptr] to [p] and becomes [o]. *)
Definition objects_move (h : heap_t) (ptr p : Z) (o : object) (h' : heap_t) : Prop :=
  forall q x, obj_at h' q x <-> q = p /\ o = x \/ q <> p /\ q <> ptr /\ obj_at h q x.

Lemma chains_apart a x n y m : chain a x n -> chain a y m -> kind_of a x = AT_HEAD -> kind_of a y = AT_HEAD -> x <> y -> x + n <= y \/ y + m <= x.
Proof.
  intros (X1 & X2 & X3 & X4) (Y1 & Y2 & Y3 & Y4) Hx Hy Hne. destruct (Z.lt_ge_cases x y).
  - left. destruct (Z.le_gt_cases (x + n) y); [done|]. specialize (X3 (y - x) ltac:(lia)). replace (x + (y - x)) with y in X3 by lia. by rewrite X3 in Hy.
  - right. destruct (Z.le_gt_cases (y + m) x); [done|]. specialize (Y3 (x - y) ltac:(lia)). replace (y + (x - y)) with x in Y3 by lia. by rewrite Y3 in Hx.
Qed.

(** The words of the new object after the copy. *)
Lemma copied_words a2 b2 m ak b n p : area_ok a2 -> area_ok ak -> 0 <= b -> 0 <= b2 -> 1 <= n < m -> b2 + m <= n_blocks_of a2 -> b + n <= n_blocks_of ak ->
  words_at a2 b2 m = replicate (Z.to_nat (4 * m)) 0 -> with_range (pool a2) (b2 * 4) (n * 4) (fun j => nth (Z.to_nat (b * 4 + (j - b2 * 4))) (pool ak) 0) p ->
  take (Z.to_nat (4 * m)) (drop (Z.to_nat (4 * b2)) p) = obj_words (resized (Obj n (words_at ak b n) false) m).
Proof.
  intros H2 Hk Hb Hb2 Hn Hm Hbn Hz Hp. pose proof (ao_pool _ H2) as Hp2. pose proof (ao_pool _ Hk) as Hpk. unfold resized. cbn [obj_words].
  rewrite words_at_length by (done || lia). rewrite (take_ge (words_at ak b n)) by (rewrite words_at_length by (done || lia); lia). apply list_eq. intros i.
  rewrite lookup_take, lookup_drop. destruct (decide (i < Z.to_nat (4 * m))%nat) as [Hi|Hi].
  - rewrite (with_range_lookup _ _ _ _ _ _ Hp) by lia. destruct (decide (i < Z.to_nat (4 * n))%nat) as [Hin|Hin].
    + rewrite decide_True by lia. rewrite lookup_app_l by (rewrite words_at_length by (done || lia); lia). rewrite words_at_lookup, decide_True by done.
      destruct (lookup_lt_is_Some_2 (pool ak) (Z.to_nat (4 * b) + i) ltac:(lia)) as [w Hw]. rewrite Hw. f_equal.
      replace (Z.to_nat (b * 4 + (Z.of_nat (Z.to_nat (4 * b2) + i) - b2 * 4))) with (Z.to_nat (4 * b) + i)%nat by lia. by apply nth_lookup_Some.
    + rewrite decide_False by lia. rewrite lookup_app_r by (rewrite words_at_length by (done || lia); lia). rewrite words_at_length by (done || lia).
      assert (words_at a2 b2 m !! i = Some 0) as Hw by (rewrite Hz; by apply lookup_replicate_2). rewrite words_at_lookup, decide_True in Hw by done.
      rewrite Hw. symmetry. apply lookup_replicate_2. lia.
  - symmetry. apply lookup_ge_None_2. rewrite length_app, words_at_length, length_replicate by (done || lia). lia.
Qed.

Lemma wp_move_rest h k2 a2 b2 m fin k ak b n w f (Q : Z -> heap_t -> Prop) : heap_inv h -> gc_lock_depth h = 0 ->
  areas h !! k2 = Some a2 -> area_obj a2 b2 (Obj m (replicate (Z.to_nat (4 * m)) 0) fin) ->
  areas h !! k = Some ak -> area_obj ak b (Obj n w f) -> 1 <= n < m -> PTR_FROM_BLOCK a2 b2 <> PTR_FROM_BLOCK ak b ->
  (forall h', heap_inv h' -> objects_move h (PTR_FROM_BLOCK ak b) (PTR_FROM_BLOCK a2 b2) (resized (Obj n w fin) m) h' -> Q (PTR_FROM_BLOCK a2 b2) h') ->
  wp (copy_words k2 (b2 * WORDS_PER_BLOCK) k (b * WORDS_PER_BLOCK) (n * WORDS_PER_BLOCK);; gc_free (PTR_FROM_BLOCK ak b);; mret (PTR_FROM_BLOCK a2 b2)) h Q.
Proof.
  intros Hi Hl Hk2 Ho2 Hk Ho Hn Hne HQ. pose proof (sw_ok _ (ai_sweepable _ (heap_inv_area _ _ _ Hi Hk2))) as Ha2.
  pose proof (sw_ok _ (ai_sweepable _ (heap_inv_area _ _ _ Hi Hk))) as Hak. pose proof (ao_pool _ Ha2) as Hp2. pose proof (ao_pool _ Hak) as Hpk.
  destruct Ho2 as (Hb2 & Hh2 & Hc2 & Hw2 & Hf2). destruct Ho as (Hb & Hh & Hc & Hw & Hf). cbn [obj_blocks obj_words obj_flag] in *.
  pose proof Hc as (C1 & C2 & _). pose proof Hc2 as (D1 & D2 & _). unfold WORDS_PER_BLOCK.
  apply wp_bind, (wp_copy_words h k2 a2 k ak); [done|done|lia|lia|lia|lia|lia| |].
  { intros ->. rewrite Hk in Hk2. injection Hk2 as <-. destruct (chains_apart ak b n b2 m) as [?|?]; try done; [by intros ->|lia|lia]. }
  intros p Hp. destruct (write_words h k2 a2 b2 m p Hi Hk2 Hb2 Hh2 Hc2 (proj1 Hp)) as [Hi' Hob].
  { intros i Ho. rewrite (with_range_lookup _ _ _ _ _ _ Hp) by lia. rewrite decide_False; [done|]. lia. }
  rewrite (copied_words a2 b2 m ak b n p) in Hob by (done || lia). rewrite <-Hw, <-Hf2 in Hob. set (h2 := put_area k2 (with_pool p a2) h) in *.
  assert (obj_at h2 (PTR_FROM_BLOCK ak b) (Obj n w f)) as (k3 & a3 & b3 & Hk3 & Hptr & (Hb3 & Hh3 & Hc3 & Hw3 & Hf3)).
  { apply Hob. right. split; [done|]. by exists k, ak, b. }
  rewrite Hptr. apply wp_bind, (wp_gc_free h2 k3 a3 b3 n); [done|change (gc_lock_depth h2) with (gc_lock_depth h); by rewrite Hl|done|done|done|done|]. intros a' Hct. apply wp_ret.
  destruct (cut_heap h2 k3 a3 b3 n 0 a' _ Hi' Hk3 Hb3 Hh3 Hc3 ltac:(lia) Hct eq_refl) as [Hi3 Hob3].
  apply HQ; [done|]. intros q x. rewrite (Hob3 q x), (Hob q x), <-Hptr. cbn [Z.eqb]. split.
  - intros [[_ ?]|[Hq [[-> Hx]|[Hq2 Hx]]]]; [done|left|right; done]. split; [done|]. by injection Hx.
  - intros [[-> <-]|(Hq & Hq2 & Hx)]; right; [split; [done|]; left; done|]. split; [done|]. by right.
Qed.

(** ** The operation *)

Lemma obj_at_ptr h k a b x : heap_inv h -> areas h !! k = Some a -> 0 <= b < n_blocks_of a -> obj_at h (PTR_FROM_BLOCK a b) x <-> area_obj a b x.
Proof.
  intros Hi Hk Hb. split; [|intros Hx; by exists k, a, b]. intros (k' & a' & b' & Hk' & Hp & Hx).
  destruct (ptr_unique h Hi k a b k' a' b') as [<- <-]; try done; [apply Hx|]. by simplify_eq.
Qed.

Lemma put_move h p o h' : objects_put h p (Some o) h' -> objects_move h p p o h'.
Proof.
  intros Hp q x. rewrite (Hp q x). split.
  - intros [[-> Hx]|[Hq Hx]]; [left; split; [done|]; by injection Hx|right; done].
  - intros [[-> <-]|(Hq & _ & Hx)]; [by left|by right].
Qed.

Lemma resized_same n w f : length w = Z.to_nat (4 * n) -> resized (Obj n w f) n = Obj n w f.
Proof. intros Hl. unfold resized. cbn [obj_words obj_flag]. rewrite take_ge, Hl, Nat.sub_diag by lia. by rewrite app_nil_r. Qed.

Section Realloc.
Context `{SystemHeap} `{Finalisers} (roots : roots_t) (h : heap_t) (k : nat) (a : area_t) (b n n_bytes : Z) (allow_move : bool).
Context (Hi : heap_inv h) (Hl : gc_lock_depth h = 0) (Hk : areas h !! k = Some a) (Hb : 0 <= b < n_blocks_of a).
Context (Hh : kind_of a b = AT_HEAD) (Hc : chain a b n) (Hnb : 0 < n_bytes <= 2 ^ 31).

Let m : Z := blocks_for n_bytes.
Let o : object := Obj n (words_at a b n) (ftb_of a b).
Let ptr : Z := PTR_FROM_BLOCK a b.

Lemma wp_move (Q : Z -> heap_t -> Prop) : n < m -> gc_auto_collect_enabled h = false \/ gc_alloc_amount h < gc_alloc_threshold h -> ~ no_fit h m ->
  (forall p h', p <> 0 -> objects_move h ptr p (resized o m) h' -> heap_inv h' -> Q p h') ->
  wp (ptr_out ← gc_alloc roots n_bytes (zbool (ftb_of a b));
          if ptr_out =? 0 then mret 0
          else
            area_out ← gc_get_ptr_area ptr_out;
            k_out ← inside area_out;
            a_out ← get_area k_out;
            area_in ← gc_get_ptr_area ptr;
            k_in ← inside area_in;
            copy_words k_out (BLOCK_FROM_PTR a_out ptr_out * WORDS_PER_BLOCK) k_in (b * WORDS_PER_BLOCK) (n * WORDS_PER_BLOCK);;
            gc_free ptr;;
            mret ptr_out) h Q.
Proof.
  intros Hm Hth Hfit HQ. pose proof Hc as (C1 & C2 & _). apply wp_bind, wp_gc_alloc_direct; [done|done|done|done|done|].
  intros s p h1 Hsk Hal Hi1. fold m in Hal. pose proof (skipped_inv _ _ Hsk Hi) as His.
  assert (negb (Z.land (zbool (ftb_of a b)) GC_ALLOC_FLAG_HAS_FINALISER =? 0) = ftb_of a b) as Hfin by (by destruct (ftb_of a b)). rewrite Hfin in Hal.
  destruct (allocates_objects s m (ftb_of a b) p h1 His ltac:(lia) Hal) as [Hob Hnew].
  assert (obj_at h ptr o) as Hold by (apply (obj_at_ptr h k); try done). assert (obj_at s ptr o) as Holds by (by rewrite (skipped_objects h s)).
  assert (ptr <> p) as Hne by (intros ->; by apply (Hnew o)).
  assert (obj_at h1 ptr o) as Hold1 by (apply Hob; by right). assert (obj_at h1 p (Obj m (replicate (Z.to_nat (4 * m)) 0) (ftb_of a b))) as Hnew1 by (apply Hob; by left).
  assert (gc_lock_depth h1 = 0) as Hl1 by (destruct Hal as (? & ? & ? & ? & _ & _ & _ & _ & ->); cbn; by rewrite (skipped_lock _ _ Hsk)).
  destruct Hnew1 as (k2 & a2 & b2 & Hk2 & Hp & Ho2). destruct Hold1 as (k1 & a1 & b1 & Hk1 & Hptr & Ho1).
  pose proof (sw_ok _ (ai_sweepable _ (heap_inv_area _ _ _ Hi1 Hk2))) as Ha2. pose proof (ptr_range a2 b2 Ha2 (proj1 Ho2)). pose proof (ao_start _ Ha2).
  assert (b1 = b) as ->.
  { destruct Hal as (k3 & a3 & b3 & a3' & Hk3 & _ & Ht & _ & ->). cbn in Hk1. destruct Hsk as [Hsk _]. destruct (Forall2_lookup_l _ _ _ _ _ Hsk Hk) as (as_ & Hks & Hska).
    assert (exists ak, areas (taken_heap s k3 m a3') !! k = Some ak /\ span_of ak = span_of a /\ n_blocks_of ak = n_blocks_of a) as (ak & Hak & Hspan & Hnk).
    { destruct (skip_fields _ _ Hska) as (E1 & _ & _ & E4). assert (span_of as_ = span_of a) as Hsp by (destruct Hska as [->|(_ & y & _ & ->)]; done).
      destruct (decide (k3 = k)) as [->|Hnk].
      - assert (a3 = as_) as -> by congruence. destruct (taken_fields _ _ _ _ _ Ht) as (F1 & _ & F3 & _). exists a3'. cbn.
        rewrite list_lookup_insert_eq by (by eapply lookup_lt_Some). by rewrite F1, F3.
      - exists as_. cbn. by rewrite list_lookup_insert_ne. }
    assert (PTR_FROM_BLOCK ak b = PTR_FROM_BLOCK a1 b1) as He by (rewrite <-Hptr; unfold ptr, PTR_FROM_BLOCK; injection Hspan as -> _; done).
    destruct (ptr_unique _ Hi1 k ak b k1 a1 b1) as [_ ?]; try done; [by rewrite Hnk|apply Ho1]. }
  rewrite Hp, (proj2 (Z.eqb_neq (PTR_FROM_BLOCK a2 b2) 0)) by lia.
  apply wp_bind, (wp_ptr_area h1 Hi1 k2 a2 b2); [done|apply Ho2|]. apply wp_bind, (wp_inside _ k2); [done|]. apply wp_bind, (wp_get_area h1 k2 a2 Hk2).
  rewrite Hptr. apply wp_bind, (wp_ptr_area h1 Hi1 k1 a1 b); [done|apply Ho1|]. apply wp_bind, (wp_inside _ k1); [done|]. rewrite ptr_block.
  apply (wp_move_rest h1 k2 a2 b2 m (ftb_of a b) k1 a1 b n (words_at a b n) (ftb_of a b)); try done; [by rewrite <-Hp, <-Hptr|].
  intros h3 Hi3 Hmv. apply HQ; [lia| |done]. rewrite <-Hptr, <-Hp in Hmv. rewrite <-Hp. fold o in Hmv. intros q x. rewrite (Hmv q x). split.
  - intros [?|(Hq & Hq2 & Hx)]; [by left|right]. split; [done|]. split; [done|]. apply Hob in Hx as [[? _]|[_ Hx]]; [done|]. by rewrite (skipped_objects h s) in Hx.
  - intros [?|(Hq & Hq2 & Hx)]; [by left|right]. split; [done|]. split; [done|]. apply Hob. right. split; [done|]. by rewrite (skipped_objects h s).
Qed.

Lemma wp_gc_realloc (Q : Z -> heap_t -> Prop) :
  (allow_move = true -> (gc_auto_collect_enabled h = false \/ gc_alloc_amount h < gc_alloc_threshold h) /\ ~ no_fit h m) ->
  (forall p h', p <> 0 -> objects_move h ptr p (resized o m) h' -> heap_inv h' \/ overshoots h' -> Q p h') ->
  (allow_move = false -> n < m -> ~ free_run a (b + n) (m - n) -> Q 0 h) ->
  wp (gc_realloc roots ptr n_bytes allow_move) h Q.
Proof.
  intros Hmv HQ HF. pose proof (heap_inv_area _ _ _ Hi Hk) as Hai. pose proof (sw_ok _ (ai_sweepable _ Hai)) as Ha. pose proof Hc as (C1 & C2 & C3 & C4).
  pose proof (ptr_range a b Ha Hb) as Hpr. pose proof (ao_start _ Ha) as Hst. assert (ptr <> 0) as Hnz by (unfold ptr; lia).
  unfold gc_realloc. rewrite (proj2 (Z.eqb_neq ptr 0)), (proj2 (Z.eqb_neq n_bytes 0)) by lia. apply wp_bind. unfold wp at 1, get. rewrite Hl.
  cbn [Z.ltb Z.compare]. unfold ptr. apply wp_bind, (wp_ptr_area h Hi k a b); [done|done|]. apply wp_bind, (wp_inside _ k); [done|].
  apply wp_bind, (wp_get_area h k a Hk). rewrite ptr_block. cbn zeta. apply wp_bind, (wp_kind h k a Hk Ha); [lia|]. rewrite Hh.
  apply wp_bind, wp_assert; [done|]. assert (u32 (n_bytes + BYTES_PER_BLOCK - 1) / BYTES_PER_BLOCK = m) as ->.
  { unfold BYTES_PER_BLOCK. rewrite uwrap_small by lia. unfold m, blocks_for. f_equal. lia. }
  assert (1 <= m) as Hm1 by (unfold m, blocks_for; apply Z.div_le_lower_bound; lia).
  apply wp_bind, (wp_count_blocks h k a Hk Hai b n m Hb Hc (Z.to_nat (n_blocks_of a - (b + 1)))); [split; [lia|]; split; [lia|]; split; [lia|by left]|lia|].
  intros nf (_ & Hnf & Hrun & Hmax). destruct (Z.eqb_spec m n) as [He|Hne].
  { apply wp_ret, HQ; [done| |by left]. rewrite He. unfold o. rewrite resized_same by (apply words_at_length; [done|lia|lia|lia]). intros q x. split.
    - intros Hx. destruct (Z.eq_dec q ptr) as [->|]; [left|by right]. split; [done|]. apply (obj_at_ptr h k) in Hx; [|done..].
      apply (obj_at_head a b n) in Hx; try done. by injection Hx.
    - intros [[-> <-]|(_ & _ & Hx)]; [|done]. by apply (obj_at_ptr h k). }
  destruct (Z.ltb_spec m n) as [Hlt|Hge].
  { apply (wp_shrink h k a Hi Hk b n m Hb Hh Hc); [lia|]. intros h' Hob Hi'. apply HQ; [done|by apply put_move|by left]. }
  destruct (Z.leb_spec m (n + nf)) as [Hle|Hgt].
  { assert (free_run a (b + n) (m - n)) as Hrun'. { destruct Hrun as (R1 & R2 & R3). split; [done|]. split; [lia|]. intros i Hi'. apply R3. lia. }
    apply (wp_grow h k a Hi Hk b n m Hb Hh Hc); [lia|done|]. intros h' Hob Hor. apply HQ; [done|by apply put_move|done]. }
  pose proof (ftb_blocks _ Ha). apply wp_bind, (wp_FTB_GET h k a); [done|done|lia|]. destruct allow_move; cbn [negb].
  - destruct (Hmv eq_refl) as [Hth Hfit]. apply wp_move; [lia|done|done|]. intros p h' Hp Hob Hi'. apply HQ; [done|done|by left].
  - apply wp_ret, HF; [done|lia|]. destruct Hmax as [?|?]; [lia|done].
Qed.
End Realloc.
