(* ===== verification/GcHeapTheorems.v ===== *)
(** * The heap as a store of objects

    The theorems about collection, allocation, freeing and resizing in terms of
    the objects of the heap. *)
From Stdlib Require Import ZifyBool.
From S2P Require Import Prelude.
From S2P Require Import CMem.
From S2P Require Import BitFields.
From S2P Require Import Gc.
From S2P Require Import GcCollect.
From S2P Require Import GcAlloc.
From S2P Require Import GcFacts.
From S2P Require Import GcMark.
From S2P Require Import GcSweep.
From S2P Require Import GcProps.
From S2P Require Import GcSearch.
From S2P Require Import GcTake.
From S2P Require Import GcAllocProps.
From S2P Require Import GcObjects.
From S2P Require Import GcRealloc.
Local Open Scope Z_scope.

(** ** Collection *)

Section Collected.
Context (h : heap_t) (ws : list (list Z)) (k : nat) (a a' : area_t) (Hi : heap_inv h) (Hk : areas h !! k = Some a).
Context (Hc : collected h (roots_of h ws) k a a').

Let Hok : area_ok a' := sw_ok _ (co_ok _ _ _ _ _ Hc).

Lemma collected_fields : n_blocks_of a' = n_blocks_of a /\ (forall b, PTR_FROM_BLOCK a' b = PTR_FROM_BLOCK a b).
Proof. by rewrite (co_fields _ _ _ _ _ Hc). Qed.

(** A reachable object stays as it is. *)
Lemma collected_keeps b o : area_obj a b o -> reach h (roots_of h ws) (k, b) -> area_obj a' b o /\ b + obj_blocks o - 1 <= gc_last_used_block a'.
Proof.
  intros (Hb & Hh & Hch & Hw & Hf) Hr. destruct collected_fields as [En _]. pose proof Hch as (C1 & C2 & C3 & C4).
  pose proof (sw_ok _ (ai_sweepable _ (heap_inv_area _ _ _ Hi Hk))) as Ha.
  assert (forall x, b <= x < b + obj_blocks o -> kind_of a' x = kind_of a x /\ x <= gc_last_used_block a') as Hin.
  { intros x Hx. apply (co_kept _ _ _ _ _ Hc); [lia|]. exists a, b, (obj_blocks o). split; [done|]. split; [done|]. split; [lia|]. done. }
  assert (forall x, 0 <= x <= n_blocks_of a -> kind_of a x <> AT_TAIL -> kind_of a' x <> AT_TAIL) as Hnt.
  { intros x Hx Hne Ht. destruct (Z.eq_dec x (n_blocks_of a)) as [->|]; [rewrite <-En in Ht; by rewrite kind_past in Ht|].
    assert (survives h (roots_of h ws) (k, x)) as Hsv by (apply (co_freed _ _ _ _ _ Hc); [lia|by rewrite Ht]).
    apply (co_kept _ _ _ _ _ Hc x ltac:(lia)) in Hsv as [He _]. congruence. }
  split; [|apply Hin; lia]. split; [by rewrite En|]. split; [by rewrite (proj1 (Hin b ltac:(lia)))|]. split; [|split].
  - split; [done|]. split; [by rewrite En|]. split.
    + intros i Hi'. rewrite (proj1 (Hin (b + i) ltac:(lia))). by apply C3.
    + apply Hnt; [lia|done].
  - rewrite Hw. unfold words_at. apply list_eq. intros i.
    destruct (decide (i < Z.to_nat (4 * obj_blocks o))%nat); [|by rewrite !lookup_take_ge by lia].
    rewrite !lookup_take_lt, !lookup_drop by done. symmetry.
    set (w := Z.of_nat (Z.to_nat (4 * b) + i)). replace (Z.to_nat (4 * b) + i)%nat with (Z.to_nat w) by lia.
    pose proof (Z.div_mod w 4 ltac:(done)). pose proof (Z.mod_pos_bound w 4 ltac:(done)).
    apply (co_words _ _ _ _ _ Hc (w / 4)); [lia| |lia].
    exists a, b, (obj_blocks o). split; [done|]. split; [done|]. split; [lia|]. split; [done|cbn; lia].
  - rewrite Hf. symmetry. apply (co_flag _ _ _ _ _ Hc); [done|by right].
Qed.

(** What is left was there, and can be reached. *)
Lemma collected_only b o : area_obj a' b o -> area_obj a b o /\ reach h (roots_of h ws) (k, b).
Proof.
  intros Ho. destruct collected_fields as [En _]. pose proof Ho as (Hb & Hh & Hch & _). rewrite En in Hb.
  pose proof (sw_ok _ (ai_sweepable _ (heap_inv_area _ _ _ Hi Hk))) as Ha.
  assert (survives h (roots_of h ws) (k, b)) as Hsv by (apply (co_freed _ _ _ _ _ Hc); [done|by rewrite Hh]).
  pose proof (proj1 (co_kept _ _ _ _ _ Hc b Hb Hsv)) as He. rewrite Hh in He.
  destruct Hsv as (a0 & b0 & n0 & Hk0 & Hr & Hb0 & (_ & _ & H3 & _) & Hbn). cbn in *. simplify_eq.
  assert (b = b0) as <-.
  { destruct (Z.eq_dec b b0); [done|]. specialize (H3 (b - b0) ltac:(lia)). replace (b0 + (b - b0)) with b in H3 by lia. by rewrite H3 in He. }
  split; [|done]. destruct (chain_exists a b Ha Hb) as [n Hn].
  destruct (collected_keeps b (Obj n (words_at a b n) (ftb_of a b))) as [Ho' _]; [|done|].
  { split; [done|]. split; [by symmetry|]. done. }
  pose proof Ho as Ho2. apply (obj_at_head a' b n) in Ho2; [|by rewrite En|done|apply Ho'].
  apply (obj_at_head a' b n) in Ho'; [|by rewrite En|done|apply Ho']. rewrite Ho2 in Ho'. injection Ho' as ->.
  split; [done|]. split; [by symmetry|]. done.
Qed.
End Collected.

Lemma collects_objects h ws h' : heap_inv h -> collects h ws h' -> forall q o,
  (obj_at h' q o -> exists k a b, areas h !! k = Some a /\ q = PTR_FROM_BLOCK a b /\ area_obj a b o /\ reach h (roots_of h ws) (k, b)) /\
  forall k a b, areas h !! k = Some a -> q = PTR_FROM_BLOCK a b -> area_obj a b o -> reach h (roots_of h ws) (k, b) ->
     obj_at h' q o \/ b = 0 /\ obj_blocks o = 1 /\ k <> 0%nat.
Proof.
  intros Hi (l & ess & Hl & _ & Hall & ->) q o. split.
  - intros (j & a' & b & Hj & -> & Ho). cbn in Hj. apply list_elem_of_lookup_2 in Hj.
    apply kept_from_in, list_elem_of_lookup in Hj as [k Hk']. destruct (lookup_lt_is_Some_2 (areas h) k) as [a Ha]; [apply lookup_lt_Some in Hk'; lia|].
    destruct (Hall k a Ha) as (a1 & _ & Ha1 & _ & Hc & _). assert (a1 = a') as -> by congruence.
    destruct (collected_only h ws k a a' Hi Ha Hc b o Ho) as [Ho' Hr]. destruct (collected_fields h ws k a a' Hc) as [_ Hp].
    exists k, a, b. rewrite Hp. done.
  - intros k a b Ha -> Ho Hr. destruct (Hall k a Ha) as (a' & _ & Ha' & _ & Hc & _). destruct (collected_fields h ws k a a' Hc) as [En Hp].
    destruct (collected_keeps h ws k a a' Hi Ha Hc b o Ho Hr) as [Ho' Hlast]. destruct Ho' as (Hb & Hrest). pose proof Hrest as (_ & (C1 & _) & _).
    assert (gc_last_used_block a' <> 0 \/ (0 = 0 /\ k = 0)%nat -> obj_at (MkHeap (kept_from 0 l) 0 false (gc_lock_depth h) (gc_auto_collect_enabled h)
      (gc_alloc_threshold h) 0 (events h ++ concat ess ++ freed_from 0 l)) (PTR_FROM_BLOCK a b) o) as Hkept.
    { intros Hor. destruct (kept_lookup l 0 k a' Ha' Hor) as [j Hj]. exists j, a', b. by rewrite Hp. }
    destruct (Z.eq_dec (gc_last_used_block a') 0) as [Hz|Hz]; [|left; apply Hkept; by left].
    destruct (decide (k = 0%nat)) as [->|Hne]; [left; apply Hkept; by right|right]. split; [lia|]. split; [lia|done].
Qed.

(** ** Examples *)

#[local] Existing Instances example_finalisers example_finaliser_laws.

(** A system heap with one more block of 64 KiB to give. *)
#[local] Instance example_system : SystemHeap := {
  gc_get_max_new_split h := 0x10000;
  MP_PLAT_ALLOC_HEAP h n := if forallb (fun a => gc_pool_end a <=? 0x100000) (areas h) && (n <=? 0x10000) then Some 0x100000 else None;
  garbage i := i }.

#[local] Instance example_system_laws : SystemHeapLaws.
Proof.
  split; [done|]. intros h n p. unfold MP_PLAT_ALLOC_HEAP, example_system. destruct (forallb _ _) eqn:Hf; [|done].
  destruct (Z.leb_spec n 0x10000); [|done]. intros [= <-]. split; [done|]. split; [lia|].
  rewrite forallb_forall in Hf. apply Forall_forall. intros a Ha%list_elem_of_In. apply Hf in Ha. right. cbn. lia.
Defined.

Lemma example_area_inv : Forall area_inv (areas example_heap).
Proof.
  pose proof example_areas_ok as Hsw. repeat apply Forall_cons_2; [| |apply Forall_nil_2].
  - apply Forall_cons in Hsw as [Hsw _]. split; [done| |].
    + intros b Hb Hlt. cbn in Hlt. lia.
    + intros b Hb Hf. change (n_blocks_of example_area_0) with 4 in Hb. apply four_blocks in Hb as [-> | [-> | [-> | ->]]]; vm_compute in Hf |- *; done.
  - apply Forall_cons in Hsw as [_ Hsw]. apply Forall_cons in Hsw as [Hsw _]. split; [done| |].
    + intros b Hb Hlt. cbn in Hlt. lia.
    + intros b Hb Hf. change (n_blocks_of example_area_1) with 4 in Hb. apply four_blocks in Hb as [-> | [-> | [-> | ->]]]; vm_compute in Hf |- *; done.
Qed.

Lemma example_heap_inv : heap_inv example_heap.
Proof.
  split; [exact example_heap_ok|exact example_area_inv| |cbn; lia|].
  - intros k a Hk. cbn in Hk. lia.
  - split; [|split; [apply Forall_nil_2|done]]. apply Forall_singleton. left. cbn. lia.
Qed.

Definition example_object : object := Obj 2 [0x2000; 7; 0; 0; 0; 0; 0; 0] false.

Lemma example_obj_at : obj_at example_heap 0x1000 example_object.
Proof.
  exists 0%nat, example_area_0, 0. split; [done|]. split; [done|]. split; [done|]. split; [done|]. split; [|done].
  split; [done|]. split; [done|]. split; [|done]. intros i Hi. cbn in Hi. assert (i = 1) as -> by lia. done.
Qed.

(** ** The theorems *)





(** [gc_nbytes] gives the size of an object; [gc_free] removes it, and no other
    object changes. *)
Theorem gc_free_correct h ptr o : heap_inv h -> Z.land (gc_lock_depth h) (Z.lnot GC_COLLECT_FLAG) = 0 -> obj_at h ptr o ->
  gc_nbytes ptr h = Some (obj_blocks o * 16, h) /\ exists h', gc_free ptr h = Some (tt, h') /\ heap_inv h' /\ objects_put h ptr None h'.
Proof.
  intros Hi Hl (k & a & b & Hk & -> & (Hb & Hh & Hc & _)). split.
  - destruct (run_value _ _ _ (wp_gc_nbytes h k a b (obj_blocks o) (fun v s => v = obj_blocks o * 16 /\ s = h) Hi Hk Hb Hh Hc (conj eq_refl eq_refl)))
      as (v & s & He & -> & ->). done.
  - pose proof Hc as (C1 & _). destruct (run_value _ _ _ (wp_gc_free h k a b (obj_blocks o) (fun _ s => exists a', cut a b (obj_blocks o) 0 a' /\ s = rescan_heap h k a')
      Hi Hl Hk Hb Hh Hc (fun a' H => ex_intro _ a' (conj H eq_refl)))) as ([] & s & He & a' & Hct & Hs). exists s. split; [done|].
    apply (cut_heap h k a b (obj_blocks o) 0 a'); try done. lia.
Qed.

Lemma gc_free_correct_witness : obj_at example_heap 0x1000 example_object /\
  gc_nbytes 0x1000 example_heap = Some (32, example_heap) /\
  exists h', gc_free 0x1000 example_heap = Some (tt, h') /\ heap_inv h' /\ objects_put example_heap 0x1000 None h'.
Proof. split; [exact example_obj_at|]. exact (gc_free_correct example_heap 0x1000 example_object example_heap_inv eq_refl example_obj_at). Defined.

(** C5: [gc_realloc] keeps the words of the object up to the smaller of the two sizes
    and clears the rest, whether it stays in place or moves, and no other object
    changes; it fails only when it may not move and there is no room after the
    object.  (When it has to move, there is to be room without a collection.)
    After growing in place, the last used block of the area may be too large. *)
Theorem gc_realloc_correct `{SystemHeap} `{Finalisers} r h ptr o n_bytes (allow_move : bool) : heap_inv h -> gc_lock_depth h = 0 -> obj_at h ptr o ->
  0 < n_bytes <= 2 ^ 31 ->
  (allow_move = true -> (gc_auto_collect_enabled h = false \/ gc_alloc_amount h < gc_alloc_threshold h) /\ ~ no_fit h (blocks_for n_bytes)) ->
  exists p h', gc_realloc r ptr n_bytes allow_move h = Some (p, h') /\
    (p <> 0 /\ objects_move h ptr p (resized o (blocks_for n_bytes)) h' /\ (heap_inv h' \/ overshoots h') \/
     p = 0 /\ h' = h /\ allow_move = false /\ forall k a b, areas h !! k = Some a -> ptr = PTR_FROM_BLOCK a b -> 0 <= b < n_blocks_of a ->
       ~ free_run a (b + obj_blocks o) (blocks_for n_bytes - obj_blocks o)).
Proof.
  intros Hi Hl (k & a & b & Hk & -> & (Hb & Hh & Hc & Hw & Hf)) Hnb Hmv. destruct o as [n w f]. cbn [obj_blocks obj_words obj_flag] in *. subst w f.
  eapply run_value. apply (wp_gc_realloc r h k a b n n_bytes allow_move); try done.
  - intros p h' Hp Hob Hor. left. done.
  - intros Ham Hlt Hno. right. split; [done|]. split; [done|]. split; [done|]. intros k' a' b' Hk' Hp Hb'.
    destruct (ptr_unique h Hi k a b k' a' b') as [<- <-]; try done. by simplify_eq.
Qed.

Lemma gc_realloc_correct_witness : obj_at example_heap 0x1000 example_object /\ exists p h',
    gc_realloc example_roots 0x1000 40 true example_heap = Some (p, h') /\
    (p <> 0 /\ objects_move example_heap 0x1000 p (resized example_object 3) h' /\ (heap_inv h' \/ overshoots h') \/
     p = 0 /\ h' = example_heap /\ true = false /\ forall k a b, areas example_heap !! k = Some a -> 0x1000 = PTR_FROM_BLOCK a b -> 0 <= b < n_blocks_of a ->
       ~ free_run a (b + 2) (3 - 2)).
Proof.
  split; [exact example_obj_at|]. refine (gc_realloc_correct example_roots example_heap 0x1000 example_object 40 true example_heap_inv eq_refl example_obj_at _ _); [lia|].
  intros _. split; [right; done|]. intros Hno. apply (Hno 1%nat example_area_1 1 eq_refl). split; [lia|]. split; [done|].
  intros i Hi'. change (blocks_for 40) with 3 in Hi'. assert (i = 1 \/ i = 2 \/ i = 3) as [-> | [-> | ->]] by lia; done.
Defined.

(** The first heap: the assertion of [gc_setup_area] holds, the tables and the
    pool lie in the memory that is given, and the heap is empty. *)
Theorem gc_init_correct `{SystemHeap} addr start end_ : 0 < start -> start + 160 <= end_ -> end_ <= start + 2 ^ 29 -> end_ < 2 ^ 32 ->
  exists h a, gc_init addr start end_ = Some h /\ areas h = [a] /\ heap_inv h /\ (forall q o, ~ obj_at h q o) /\
    start + Z.of_nat (length (tables a)) <= gc_pool_start a /\ gc_pool_end a <= end_ /\ end_ - start <= 66 * gc_alloc_table_byte_len a + 82.
Proof.
  intros Hs He Hm Hmax. unfold gc_init. rewrite align_down_eq. set (e := 16 * (end_ / 16)).
  assert (end_ - 15 <= e <= end_) as Hend.
  { unfold e. pose proof (Z.div_mod end_ 16 ltac:(done)). pose proof (Z.mod_pos_bound end_ 16 ltac:(done)). lia. }
  assert (e `mod` 16 = 0) as He16 by (unfold e; rewrite Z.mul_comm; by apply Z.mod_mul).
  destruct (gc_setup_area_spec addr start e Hs ltac:(lia) ltac:(lia) He16) as (a & Ha & Hfr & Hlen & Hpe & Hst & _). rewrite Ha.
  assert (1 <= gc_alloc_table_byte_len a /\ e - start <= 66 * gc_alloc_table_byte_len a + 67) as [Hpos Hcap].
  { rewrite Hlen. unfold atb_len_for. pose proof (Z.div_mod (8 * (e - start - 1)) 524 ltac:(done)). pose proof (Z.mod_pos_bound (8 * (e - start - 1)) 524 ltac:(done)). lia. }
  eexists _, a. split; [done|]. split; [done|]. split; [|split; [|split; [done|split; lia]]].
  - assert (area_inv a) as Hai by (apply fresh_inv; [done|unfold n_blocks_of, BLOCKS_PER_ATB; lia]). split; [split| | |cbn; lia|].
    + apply Forall_singleton, Hai.
    + intros [k b] [(a' & Hk & Hb) Hkd]. cbn in Hk, Hb. unfold kind in Hkd. cbn in Hkd. rewrite Hk in Hkd. apply list_lookup_singleton_Some in Hk as [_ <-].
      rewrite (fr_free _ Hfr) in Hkd; done.
    + done.
    + by apply Forall_singleton.
    + intros k a' Hk. cbn in Hk. lia.
    + cbn. split; [apply Forall_nil_2|done].
  - intros q o (k & a' & b & Hk & _ & (Hb & Hh & _)). cbn in Hk. apply list_lookup_singleton_Some in Hk as [_ <-]. by rewrite (fr_free _ Hfr) in Hh.
Qed.

Lemma gc_init_correct_witness : exists h a, gc_init 0x3ffb0000 0x3ffb8001 0x3ffc8007 = Some h /\ areas h = [a] /\ heap_inv h /\ (forall q o, ~ obj_at h q o) /\
    0x3ffb8001 + Z.of_nat (length (tables a)) <= gc_pool_start a /\ gc_pool_end a <= 0x3ffc8007 /\ 0x3ffc8007 - 0x3ffb8001 <= 66 * gc_alloc_table_byte_len a + 82.
Proof. refine (gc_init_correct 0x3ffb0000 0x3ffb8001 0x3ffc8007 _ _ _ _); lia. Defined.

(** [gc_try_add_heap] gives up without a change, because the system heap has no
    memory, or adds an area that has room for the allocation that failed: the
    estimate of the overhead is large enough. *)
Theorem gc_try_add_heap_suffices `{SystemHeapLaws} h n_bytes : heap_inv h -> 0 <= n_bytes <= 2 ^ 31 ->
  exists b h', gc_try_add_heap n_bytes h = Some (b, h') /\ heap_inv h' /\ (b = false -> h' = h /\ refused h n_bytes) /\
    (b = true -> exists a, fresh_area a /\ h' = added h a /\ free_run a 0 (blocks_for n_bytes)).
Proof.
  intros Hi Hn. eapply run_value, wp_gc_try_add_heap; [done|done| |].
  - intros Href. split; [done|]. done.
  - intros a Hfr Hfit Hi'. split; [done|]. split; [done|]. intros _. exists a. split; [done|]. split; [done|].
    split; [lia|]. split; [apply Z.div_le_upper_bound; lia|]. intros i Hib. apply (fr_free _ Hfr).
    assert (blocks_for n_bytes <= n_blocks_of a) by (apply Z.div_le_upper_bound; lia). lia.
Qed.

Lemma gc_try_add_heap_suffices_witness : exists b h', gc_try_add_heap 5000 example_heap = Some (b, h') /\ heap_inv h' /\
    (b = false -> h' = example_heap /\ refused example_heap 5000) /\
    (b = true -> exists a, fresh_area a /\ h' = added example_heap a /\ free_run a 0 (blocks_for 5000)).
Proof. refine (gc_try_add_heap_suffices example_heap 5000 example_heap_inv _). lia. Defined.

(** An area of eight blocks with an object in the last but one. *)
Definition tight_area : area_t := MkArea 0x2ff0 2 [0; 0x10; 0; 0] 0x3000 0x3080 (replicate 32 0) 0 6.
Definition tight_heap : heap_t := MkHeap [tight_area] 0 false 0 true 0xffffffff 0 [].

Lemma tight_cases b : 0 <= b < 8 -> b = 0 \/ b = 1 \/ b = 2 \/ b = 3 \/ b = 4 \/ b = 5 \/ b = 6 \/ b = 7.
Proof. lia. Qed.
Ltac by_tight Hb := change (n_blocks_of tight_area) with 8 in Hb;
  apply tight_cases in Hb as [-> | [-> | [-> | [-> | [-> | [-> | [-> | ->]]]]]]].

Lemma tight_area_inv : area_inv tight_area.
Proof.
  split; [split; [split| |done]| |]; try done.
  - repeat apply Forall_cons_2; try apply Forall_nil_2; done.
  - split; [done| |].
    + intros b Hb. change (6 < b < 8) in Hb. assert (b = 7) as -> by lia. done.
    + intros b Hb Ht. by_tight Hb; vm_compute in Ht; done.
  - intros b Hb Hlt. cbn in Hlt. lia.
  - intros b Hb Hf. by_tight Hb; vm_compute in Hf |- *; done.
Qed.

Lemma tight_heap_inv : heap_inv tight_heap.
Proof.
  pose proof tight_area_inv as Ha. split; [split| | |cbn; lia|].
  - apply Forall_singleton, Ha.
  - intros [k b] [(a & Hk & Hb) Hkd]. unfold kind in Hkd. rewrite Hk in Hkd. cbn in Hk, Hb, Hkd. apply list_lookup_singleton_Some in Hk as [_ <-].
    by_tight Hb; done.
  - done.
  - by apply Forall_singleton.
  - intros k a Hk. cbn in Hk. lia.
  - cbn. split; [apply Forall_nil_2|done].
Qed.

(** Growing in place sets the last used block to the block after the object.  At
    the end of an area with a multiple of eight blocks that block has no entry in
    the finaliser table, and the next collection reads past the table. *)
Theorem gc_realloc_then_collect_overreads : heap_inv tight_heap /\
  exists h', gc_realloc (H := example_system) (H0 := example_finalisers) example_roots 0x3060 20 false tight_heap = Some (0x3060, h') /\ overshoots h' /\
    gc_collect (MkRoots [0x3060] []) tight_heap <> None /\ gc_collect (MkRoots [0x3060] []) h' = None.
Proof.
  split; [exact tight_heap_inv|]. eexists. split; [vm_compute; reflexivity|]. split; [|split; [by vm_compute|by vm_compute]].
  eexists 0%nat, _. split; [reflexivity|]. by vm_compute.
Qed.
