(* ===== verification/ListObj.v ===== *)
(** * Lists and slices: data and memory ([py/objlist.c], [py/objslice.c],
      [py/sequence.c], [mp_get_index] of [py/obj.c])

    The state is the heap as these functions see it: arrays of objects, the
    structures of the lists, which point to arrays, and the iterators; what the
    rest of the program keeps is the component [world].  Arrays are given back by
    [m_realloc], so a stale pointer to one is an access without meaning.  The
    allocator is the class [ListHeap], the operators of other objects, which may
    run any code, are the class [Runtime]. *)
From S2P Require Import Prelude.
From S2P Require Import CMem.
From S2P Require Import ObjInt.
Local Open Scope Z_scope.

(** ** Objects *)

(** [ONull] is [MP_OBJ_NULL] and [MP_OBJ_STOP_ITERATION], which are the same word;
    [OBig] is an integer that is not small, by its value. *)
Inductive obj :=
  | ONull
  | OSentinel
  | ONone
  | OBool (b : bool)
  | OSmall (word : Z)
  | OBig (v : Z)
  | OTuple (items : list obj)
  | OSlice (start stop step : obj)
  | OList (n : nat)
  | OIter (n : nat)
  | OOther (n : nat).

Definition MP_OBJ_STOP_ITERATION : obj := ONull.
Definition mp_const_empty_tuple : obj := OTuple [].
Definition mp_obj_new_bool (b : bool) : obj := OBool b.
Definition MP_OBJ_NEW_SMALL_INT (n : Z) : obj := OSmall (Z.lor (u32 (Z.shiftl (u32 n) 1)) 1).

(** [o == mp_const_true], [o == mp_const_false] *)
Definition is_const_bool (b : bool) (o : obj) : bool := match o with OBool c => Bool.eqb c b | _ => false end.
Definition is_null (o : obj) : bool := match o with ONull => true | _ => false end.
Definition is_sentinel (o : obj) : bool := match o with OSentinel => true | _ => false end.
Definition is_list (o : obj) : bool := match o with OList _ => true | _ => false end.

Inductive exn :=
  | IndexError | ValueError | TypeError | OverflowError | NotImplementedError
  | MemoryError | RuntimeError | OtherError (n : nat).

(** ** The heap *)

(** [items] is the number of an array; 0 is [NULL]. *)
Record mp_obj_list_t := MkList { alloc : Z; len : Z; items : nat }.
Record mp_obj_list_it_t := MkIt { it_list : obj; it_cur : Z }.
Record heap_t (W : Type) := MkHeap {
  arrays : gmap nat (list obj);
  lists : gmap nat mp_obj_list_t;
  iters : gmap nat mp_obj_list_it_t;
  next : nat;
  world : W;
}.
Arguments MkHeap {W}.
Arguments arrays {W}.
Arguments lists {W}.
Arguments iters {W}.
Arguments next {W}.
Arguments world {W}.

Abbreviation Ml W A := (M (heap_t W) A).
Abbreviation Xl W A := (M (heap_t W) (exn + A)%type).

(** What the allocator decides: does a request of so many bytes succeed, can an
    array be resized where it is; what a fresh word contains; and whether
    [gc_lock_depth] is positive. *)
Class ListHeap (W : Type) := {
  malloc_ok : heap_t W -> Z -> bool;
  realloc_ok : heap_t W -> nat -> Z -> bool;
  realloc_in_place : heap_t W -> nat -> Z -> bool;
  fresh_word : heap_t W -> nat -> obj;
  gc_locked : heap_t W -> bool;
}.

Class Runtime (W : Type) := {
  mp_obj_equal : obj -> obj -> Xl W bool;
  mp_binary_op : mp_binary_op_t -> obj -> obj -> Xl W obj;
  mp_call_function_1 : obj -> obj -> Xl W obj;
  unary_int_maybe : obj -> Xl W obj;
  other_getiter : obj -> Xl W obj;
  other_iternext : obj -> Xl W obj;
  address_of : obj -> Z;
  stack_frames : nat;
}.

(** The word of an object. *)
Definition word_of {W} `{!Runtime W} (o : obj) : Z := match o with OSmall w => w | _ => address_of o end.

Section Memory.
Context {W : Type}.

Definition set_arrays (a : gmap nat (list obj)) (s : heap_t W) : heap_t W :=
  MkHeap a (lists s) (iters s) (next s) (world s).
Definition set_lists (l : gmap nat mp_obj_list_t) (s : heap_t W) : heap_t W :=
  MkHeap (arrays s) l (iters s) (next s) (world s).
Definition set_iters (i : gmap nat mp_obj_list_it_t) (s : heap_t W) : heap_t W :=
  MkHeap (arrays s) (lists s) i (next s) (world s).
Definition put_array (b : nat) (xs : list obj) (s : heap_t W) : heap_t W := set_arrays (<[b := xs]> (arrays s)) s.
Definition put_list (l : nat) (r : mp_obj_list_t) (s : heap_t W) : heap_t W := set_lists (<[l := r]> (lists s)) s.
Definition put_iter (i : nat) (it : mp_obj_list_it_t) (s : heap_t W) : heap_t W := set_iters (<[i := it]> (iters s)) s.

Definition fresh_id : Ml W nat :=
  fun s => Some (next s, MkHeap (arrays s) (lists s) (iters s) (S (next s)) (world s)).

Definition get_list (l : nat) : Ml W mp_obj_list_t := fun s => r ← lists s !! l; Some (r, s).
Definition set_alloc (l : nat) (n : Z) : Ml W unit :=
  r ← get_list l; modify (put_list l (MkList n (len r) (items r))).
Definition set_len (l : nat) (n : Z) : Ml W unit :=
  r ← get_list l; modify (put_list l (MkList (alloc r) n (items r))).
Definition set_items (l : nat) (b : nat) : Ml W unit :=
  r ← get_list l; modify (put_list l (MkList (alloc r) (len r) b)).

(** Pointers to objects: into an array of the heap, or to the items of a tuple. *)
Inductive ptr := NULL | Item (b : nat) (i : Z) | Const (xs : list obj).

(** [n] objects from offset [i] on, [memcpy] and the like; no object, no access. *)
Definition in_range (xs : list obj) (i n : Z) : bool :=
  (0 <=? i) && (0 <=? n) && (i + n <=? Z.of_nat (length xs)).

Definition read_items (p : ptr) (n : Z) : Ml W (list obj) := fun s =>
  if n =? 0 then Some ([], s)
  else match p with
       | NULL => None
       | Item b i =>
           xs ← arrays s !! b;
           if in_range xs i n then Some (take (Z.to_nat n) (drop (Z.to_nat i) xs), s) else None
       | Const xs => if in_range xs 0 n then Some (take (Z.to_nat n) xs, s) else None
       end.

Definition write_items (b : nat) (i : Z) (ys : list obj) : Ml W unit := fun s =>
  match ys with
  | [] => Some (tt, s)
  | _ =>
      xs ← arrays s !! b;
      if in_range xs i (Z.of_nat (length ys)) then
        Some (tt, put_array b (take (Z.to_nat i) xs ++ ys ++ drop (Z.to_nat i + length ys) xs) s)
      else None
  end.

Definition load (b : nat) (i : Z) : Ml W obj := fun s =>
  xs ← arrays s !! b; if bool_decide (0 <= i) then x ← xs !! Z.to_nat i; Some (x, s) else None.
Definition store (b : nat) (i : Z) (x : obj) : Ml W unit := fun s =>
  xs ← arrays s !! b;
  if in_range xs i 1 then Some (tt, put_array b (<[Z.to_nat i := x]> xs) s) else None.
Definition load_at (p : ptr) (i : Z) : Ml W obj :=
  match p with
  | NULL => stuck
  | Item b j => load b (j + i)
  | Const xs => if bool_decide (0 <= i) then match xs !! Z.to_nat i with Some x => mret x | None => stuck end else stuck
  end.

Definition memmove (b : nat) (i : Z) (src : ptr) (n : Z) : Ml W unit :=
  xs ← read_items src n; write_items b i xs.
(** The two areas of [memcpy] may not overlap. *)
Definition memcpy (b : nat) (i : Z) (src : ptr) (n : Z) : Ml W unit :=
  match src with
  | Item c j => assert_ (negb (b =? c)%nat || (n =? 0) || (i + n <=? j) || (j + n <=? i))
  | _ => mret tt
  end;;
  memmove b i src n.

(** [mp_seq_clear(items, len, alloc_len, sizeof(mp_obj_t))] *)
Definition mp_seq_clear (b : nat) (from to : Z) : Ml W unit :=
  write_items b from (replicate (Z.to_nat (u32 (u32 (to - from) * 4) / 4)) ONull).

(** ** The allocator *)

Context `{!ListHeap W}.

(** Fresh words, an array of [n] of them. *)
Definition fresh_words (s : heap_t W) (n : nat) : list obj := map (fresh_word s) (seq 0 n).

Definition m_malloc (num_bytes : Z) : Xl W nat :=
  if num_bytes =? 0 then xret 0%nat
  else
    s ← get;
    if malloc_ok s num_bytes then
      b ← fresh_id; modify (put_array b (fresh_words s (Z.to_nat (num_bytes / 4))));; xret b
    else raise MemoryError.

(** [m_new(mp_obj_t, num)] *)
Definition m_new (num : Z) : Xl W nat := m_malloc (u32 (4 * num)).

(** [m_new_obj] of a structure of at most 16 bytes: a new name for it. *)
Definition m_new_obj : Xl W nat :=
  s ← get; if malloc_ok s 16 then safe fresh_id else raise MemoryError.

Definition resize (s : heap_t W) (n : nat) (xs : list obj) : list obj :=
  take n xs ++ fresh_words s (n - length xs).

Definition m_realloc (b : nat) (num_bytes : Z) : Xl W nat :=
  s ← get;
  match arrays s !! b with
  | None => stuck
  | Some xs =>
      let ys := resize s (Z.to_nat (num_bytes / 4)) xs in
      if num_bytes =? 0 then modify (set_arrays (delete b (arrays s)));; xret 0%nat
      else if realloc_ok s b num_bytes then
        if realloc_in_place s b num_bytes then modify (put_array b ys);; xret b
        else c ← fresh_id; modify (set_arrays (<[c := ys]> (delete b (arrays s))));; xret c
      else raise MemoryError
  end.

(** [m_renew(mp_obj_t, items, alloc, num)] *)
Definition m_renew (b : nat) (num : Z) : Xl W nat := m_realloc b (u32 (4 * num)).

End Memory.
