(* ===== verification/ListOps.v ===== *)
(** * Lists and slices: the operations ([py/objlist.c], [py/objslice.c],
      [py/sequence.c], [mp_get_index] and [mp_obj_get_array] of [py/obj.c]) *)
From S2P Require Import Prelude.
From S2P Require Import CMem.
From S2P Require Import ObjInt.
From S2P Require Import ListObj.
Local Open Scope Z_scope.

Definition LIST_MIN_ALLOC : Z := 4.

Section Ops.
Context {W : Type} `{!ListHeap W} `{!Runtime W}.

(** ** Integers and indices *)

Definition mp_obj_int_get_checked (o : obj) : Xl W Z :=
  match o with
  | OSmall w => xret (MP_OBJ_SMALL_INT_VALUE w)
  | OBig v => if Z.abs v <? 2 ^ 31 then xret v else raise OverflowError
  | _ => stuck
  end.

Definition mp_obj_get_int_maybe (arg : obj) : Xl W (option Z) :=
  match arg with
  | OBool b => xret (Some (if b then 1 else 0))
  | OSmall w => xret (Some (MP_OBJ_SMALL_INT_VALUE w))
  | OBig _ => v ←! mp_obj_int_get_checked arg; xret (Some v)
  | _ =>
      o ←! unary_int_maybe arg;
      if is_null o then xret None else v ←! mp_obj_int_get_checked o; xret (Some v)
  end.

Definition mp_obj_get_int (arg : obj) : Xl W Z :=
  r ←! mp_obj_get_int_maybe arg; match r with Some v => xret v | None => raise TypeError end.

Definition mp_get_index (len : Z) (index : obj) (is_slice : bool) : Xl W Z :=
  r ←! match index with
       | OSmall w => xret (Some (MP_OBJ_SMALL_INT_VALUE w))
       | _ => mp_obj_get_int_maybe index
       end;
  match r with
  | None => raise TypeError
  | Some i =>
      let i := if i <? 0 then s32 (i + len) else i in
      if is_slice then
        if i <? 0 then xret 0 else if len <? u32 i then xret len else xret i
      else
        if (i <? 0) || (len <=? u32 i) then raise IndexError else xret (u32 i)
  end.

(** ** Slices *)

Record mp_bound_slice_t := MkBound { b_start : Z; b_stop : Z; b_step : Z }.

(** One end of a slice, [None] or an integer, moved into [lo .. hi]. *)
Definition slice_end (o : obj) (default length lo hi : Z) : Xl W Z :=
  match o with
  | ONone => xret default
  | _ =>
      v ←! mp_obj_get_int o;
      v ←! safe (if v <? 0 then sint (v + length) else mret v);
      xret (Z.min hi (Z.max v lo))
  end.

Definition mp_obj_slice_indices (self_in : obj) (length : Z) : Xl W mp_bound_slice_t :=
  match self_in with
  | OSlice start stop step =>
      step ←! match step with
              | ONone => xret 1
              | _ => v ←! mp_obj_get_int step; if v =? 0 then raise ValueError else xret v
              end;
      if 0 <? step then
        start ←! slice_end start 0 length 0 length;
        stop ←! slice_end stop length length 0 length;
        xret (MkBound start stop step)
      else
        last ←! safe (sint (length - 1));
        start ←! slice_end start last length (-1) last;
        stop ←! slice_end stop (-1) length (-1) last;
        xret (MkBound start stop step)
  | _ => stuck
  end.

Definition slice_indices (self_in length_obj : obj) : Xl W obj :=
  length ←! mp_obj_get_int length_obj;
  b ←! mp_obj_slice_indices self_in length;
  xret (OTuple [MP_OBJ_NEW_SMALL_INT (b_start b); MP_OBJ_NEW_SMALL_INT (b_stop b); MP_OBJ_NEW_SMALL_INT (b_step b)]).

Definition mp_seq_get_fast_slice_indexes (len : Z) (slice : obj) : Xl W (mp_bound_slice_t * bool) :=
  b ←! mp_obj_slice_indices slice (s32 len);
  stop ←! safe (if b_step b <? 0 then sint (b_stop b + 1) else mret (b_stop b));
  stop ←! safe (if (0 <? b_step b) && (stop <? b_start b) then mret (b_start b)
                else if (b_step b <? 0) && (b_start b <? stop) then sint (b_start b + 1)
                else mret stop);
  xret (MkBound (b_start b) stop (b_step b), b_step b =? 1).

(** ** Making lists *)

Definition mp_obj_list_init (o : nat) (n : Z) : Xl W unit :=
  let a := if n <? LIST_MIN_ALLOC then LIST_MIN_ALLOC else n in
  safe (modify (put_list o (MkList a n 0)));;!
  b ←! m_new a;
  safe (set_items o b);;!
  safe (mp_seq_clear b n a).

Definition list_new (n : Z) : Xl W nat :=
  o ←! m_new_obj; mp_obj_list_init o n;;! xret o.

Definition mp_obj_new_list (n : Z) (src : ptr) : Xl W obj :=
  o ←! list_new n;
  match src with
  | NULL => xret tt
  | _ =>
      safe (for_up (Z.to_nat n) 0 (fun i =>
        r ← get_list o; x ← load_at src i; store (items r) i x))
  end;;!
  xret (OList o).

(** ** Growing and shrinking *)

Definition to_ptr (o : obj) : Xl W nat := match o with OList l => xret l | _ => stuck end.

(** [self->items = m_renew(mp_obj_t, self->items, self->alloc, n); self->alloc = n] *)
Definition renew_items (l : nat) (n : Z) : Xl W unit :=
  r ←! safe (get_list l);
  b ←! m_renew (items r) n;
  safe (set_items l b;; set_alloc l n).

Definition mp_obj_list_append (self_in arg : obj) : Xl W obj :=
  l ←! to_ptr self_in;
  r ←! safe (get_list l);
  (if alloc r <=? len r then
     renew_items l (u32 (alloc r * 2));;!
     safe (r ← get_list l; mp_seq_clear (items r) (len r + 1) (alloc r))
   else xret tt);;!
  safe (r ← get_list l; set_len l (u32 (len r + 1));; store (items r) (len r) arg);;!
  xret ONone.

Definition mp_obj_list_get (self_in : obj) : Xl W (Z * ptr) :=
  l ←! to_ptr self_in; r ←! safe (get_list l); xret (len r, Item (items r) 0).

Definition mp_obj_list_set_len (self_in : obj) (n : Z) : Xl W unit :=
  l ←! to_ptr self_in; safe (set_len l n).

Definition mp_obj_list_store (self_in index value : obj) : Xl W unit :=
  l ←! to_ptr self_in;
  r ←! safe (get_list l);
  i ←! mp_get_index (len r) index false;
  safe (r ← get_list l; store (items r) i value).

Definition list_pop (self_in : obj) (arg : option obj) : Xl W obj :=
  l ←! to_ptr self_in;
  r ←! safe (get_list l);
  if len r =? 0 then raise IndexError
  else
    index ←! mp_get_index (len r) (match arg with None => MP_OBJ_NEW_SMALL_INT (-1) | Some i => i end) false;
    r ←! safe (get_list l);
    ret ←! safe (load (items r) index);
    let n := u32 (len r - 1) in
    safe (set_len l n;; memmove (items r) index (Item (items r) (index + 1)) (u32 (n - index));;
          store (items r) n ONull);;!
    (if (LIST_MIN_ALLOC <? alloc r) && (u32 (2 * n) <? alloc r) then
       renew_items l (alloc r / 2)
     else xret tt);;!
    xret ret.

Definition list_clear (self_in : obj) : Xl W obj :=
  l ←! to_ptr self_in;
  safe (set_len l 0);;!
  renew_items l LIST_MIN_ALLOC;;!
  safe (r ← get_list l; mp_seq_clear (items r) 0 (alloc r));;!
  xret ONone.

Definition list_copy (self_in : obj) : Xl W obj :=
  l ←! to_ptr self_in; r ←! safe (get_list l); mp_obj_new_list (len r) (Item (items r) 0).

Definition list_insert (self_in idx o : obj) : Xl W obj :=
  l ←! to_ptr self_in;
  r ←! safe (get_list l);
  let index := MP_OBJ_SMALL_INT_VALUE (word_of idx) in
  let index := if index <? 0 then s32 (index + len r) else index in
  let index := if index <? 0 then 0 else index in
  let index := if len r <? u32 index then s32 (len r) else index in
  mp_obj_list_append self_in ONone;;!
  safe (
    r ← get_list l;
    for_ (Z.to_nat (len r)) (fun i => index <? i)
      (fun i => r ← get_list l; x ← load (items r) (i - 1); store (items r) i x;; mret (i - 1)) (s32 (len r - 1));;
    r ← get_list l; store (items r) index o);;!
  xret ONone.

Definition list_reverse (self_in : obj) : Xl W obj :=
  l ←! to_ptr self_in;
  r ←! safe (get_list l);
  let n := s32 (len r) in
  safe (for_up (Z.to_nat (Z.quot n 2)) 0 (fun i =>
    r ← get_list l;
    a ← load (items r) i;
    x ← load (items r) (n - i - 1); store (items r) i x;;
    store (items r) (n - i - 1) a));;!
  xret ONone.

(** ** Iterators *)

Definition mp_obj_new_list_iterator (list : obj) (cur : Z) (iter_buf : nat) : Ml W obj :=
  modify (put_iter iter_buf (MkIt list cur));; mret (OIter iter_buf).

Definition list_it_iternext (self : nat) : Ml W obj := fun s =>
  match iters s !! self with
  | None => None
  | Some it =>
      match it_list it with
      | OList l =>
          (r ← get_list l;
           if it_cur it <? len r then
             x ← load (items r) (it_cur it); modify (put_iter self (MkIt (it_list it) (u32 (it_cur it + 1))));; mret x
           else mret MP_OBJ_STOP_ITERATION) s
      | _ => None
      end
  end.

Definition list_getiter (o_in : obj) (iter_buf : nat) : Ml W obj := mp_obj_new_list_iterator o_in 0 iter_buf.

(** [mp_getiter(o, NULL)] and [mp_iternext]: lists and the rest *)
Definition mp_getiter (o : obj) : Xl W obj :=
  match o with
  | OList _ => i ←! m_new_obj; safe (list_getiter o i)
  | _ => other_getiter o
  end.

Definition mp_iternext (o : obj) : Xl W obj :=
  match o with
  | OIter i => safe (list_it_iternext i)
  | _ => other_iternext o
  end.

Definition list_extend_from_iter (fuel : nat) (list iterable : obj) : Xl W obj :=
  iter ←! mp_getiter iterable;
  xloop fuel (fun _ : unit =>
    item ←! mp_iternext iter;
    if is_null item then xret (inr list)
    else mp_obj_list_append list item;;! xret (inl tt)) tt.

Definition list_extend (fuel : nat) (self_in arg_in : obj) : Xl W obj :=
  match arg_in with
  | OList m =>
      l ←! to_ptr self_in;
      self ←! safe (get_list l);
      arg ←! safe (get_list m);
      (if alloc self <? u32 (len self + len arg) then
         renew_items l (u32 (len self + len arg + 4));;!
         safe (r ← get_list l; mp_seq_clear (items r) (u32 (len self + len arg)) (alloc r))
       else xret tt);;!
      safe (
        self ← get_list l; arg ← get_list m;
        memcpy (items self) (len self) (Item (items arg) 0) (len arg);;
        set_len l (u32 (len self + len arg)));;!
      xret ONone
  | _ => list_extend_from_iter fuel self_in arg_in;;! xret ONone
  end.

Definition mp_obj_list_make_new (fuel : nat) (args : list obj) (n_kw : Z) : Xl W obj :=
  if negb (n_kw =? 0) then raise TypeError
  else match args with
       | [] => mp_obj_new_list 0 NULL
       | [a] => list ←! mp_obj_new_list 0 NULL; list_extend_from_iter fuel list a
       | _ => raise TypeError
       end.

(** ** Searching and comparing *)

Definition mp_seq_index_obj (p : ptr) (len : Z) (value : obj) (start_stop : list obj) : Xl W obj :=
  start ←! match start_stop with a :: _ => mp_get_index len a true | [] => xret 0 end;
  stop ←! match start_stop with _ :: b :: _ => mp_get_index len b true | _ => xret len end;
  xloop (S (Z.to_nat (stop - start))) (fun i =>
    if i <? stop then
      x ←! safe (load_at p i);
      e ←! mp_obj_equal x value;
      if e : bool then xret (inr (MP_OBJ_NEW_SMALL_INT i)) else xret (inl (i + 1))
    else raise ValueError) start.

Definition mp_seq_count_obj (p : ptr) (len : Z) (value : obj) : Xl W obj :=
  count ←! xloop (S (Z.to_nat len)) (fun '(i, count) =>
    if i <? len then
      x ←! safe (load_at p i);
      e ←! mp_obj_equal x value;
      xret (inl (i + 1, if e : bool then u32 (count + 1) else count))
    else xret (inr count)) (0, 0);
  xret (MP_OBJ_NEW_SMALL_INT count).

Definition list_count (self_in value : obj) : Xl W obj :=
  l ←! to_ptr self_in; r ←! safe (get_list l); mp_seq_count_obj (Item (items r) 0) (len r) value.

(** [start_stop]: the arguments after the value, at most two *)
Definition list_index (self_in value : obj) (start_stop : list obj) : Xl W obj :=
  l ←! to_ptr self_in; r ←! safe (get_list l); mp_seq_index_obj (Item (items r) 0) (len r) value start_stop.

Definition mp_obj_list_remove (self_in value : obj) : Xl W obj :=
  i ←! list_index self_in value []; list_pop self_in (Some i);;! xret ONone.

Definition op_eqb (op1 op2 : mp_binary_op_t) : bool := bool_decide (op1 = op2).

Definition mp_seq_cmp_objs (op : mp_binary_op_t) (p1 : ptr) (len1 : Z) (p2 : ptr) (len2 : Z) : Xl W bool :=
  if op_eqb op EQUAL && negb (len1 =? len2) then xret false
  else
    let '(op, p1, len1, p2, len2) :=
      match op with
      | LESS => (MORE, p2, len2, p1, len1)
      | LESS_EQUAL => (MORE_EQUAL, p2, len2, p1, len1)
      | _ => (op, p1, len1, p2, len2)
      end in
    let n := if len1 <? len2 then len1 else len2 in
    xloop (S (Z.to_nat n)) (fun i =>
      if i <? n then
        x1 ←! safe (load_at p1 i);
        x2 ←! safe (load_at p2 i);
        e ←! mp_obj_equal x1 x2;
        if e : bool then xret (inl (i + 1))
        else if op_eqb op EQUAL then xret (inr false)
        else r ←! mp_binary_op op x1 x2; xret (inr (is_const_bool true r))
      else if negb (len1 =? len2) then xret (inr (negb (len1 <? len2)))
      else if op_eqb op MORE then xret (inr false)
      else xret (inr true)) 0.

(** ** Operators *)

Definition mp_seq_multiply (src : ptr) (len times : Z) (dest : nat) : Ml W unit :=
  for_up (Z.to_nat times) 0 (fun i => memcpy dest (i * (u32 (4 * len) / 4)) src (u32 (4 * len) / 4)).

Definition list_unary_op (op : mp_unary_op_t) (self_in : obj) : Xl W obj :=
  l ←! to_ptr self_in;
  r ←! safe (get_list l);
  xret (match op with
        | UNARY_BOOL => mp_obj_new_bool (negb (len r =? 0))
        | UNARY_LEN => MP_OBJ_NEW_SMALL_INT (len r)
        | _ => ONull
        end).

Definition list_binary_op (fuel : nat) (op : mp_binary_op_t) (lhs rhs : obj) : Xl W obj :=
  l ←! to_ptr lhs;
  o ←! safe (get_list l);
  match op with
  | PLAIN ADD =>
      match rhs with
      | OList m =>
          p ←! safe (get_list m);
          s ←! list_new (u32 (len o + len p));
          safe (
            r ← get_list s; o ← get_list l; p ← get_list m;
            memcpy (items r) 0 (Item (items o) 0) (len o);; memcpy (items r) (len o) (Item (items p) 0) (len p));;!
          xret (OList s)
      | _ => xret ONull
      end
  | INPLACE ADD => list_extend fuel lhs rhs;;! xret lhs
  | PLAIN MULTIPLY =>
      r ←! mp_obj_get_int_maybe rhs;
      match r with
      | None => xret ONull
      | Some n =>
          let n := if n <? 0 then 0 else n in
          o ←! safe (get_list l);
          s ←! list_new (u32 (len o * n));
          safe (o ← get_list l; r ← get_list s; mp_seq_multiply (Item (items o) 0) (len o) n (items r));;!
          xret (OList s)
      end
  | EQUAL | LESS | LESS_EQUAL | MORE | MORE_EQUAL =>
      match rhs with
      | OList m =>
          another ←! safe (get_list m);
          res ←! mp_seq_cmp_objs op (Item (items o) 0) (len o) (Item (items another) 0) (len another);
          xret (mp_obj_new_bool res)
      | _ => xret (if op_eqb op EQUAL then OBool false else ONull)
      end
  | _ => xret ONull
  end.

(** ** Subscripts *)

Definition mp_seq_extract_slice (seq : ptr) (indexes : mp_bound_slice_t) : Xl W obj :=
  let stop := b_stop indexes in
  let step := b_step indexes in
  res ←! mp_obj_new_list 0 NULL;
  xloop (Z.to_nat (Z.abs (stop - b_start indexes) + 2)) (fun start =>
    if (if step <? 0 then stop <=? start else start <? stop) then
      x ←! safe (load_at seq start);
      mp_obj_list_append res x;;!
      start ←! safe (sint (start + step));
      xret (inl start)
    else xret (inr res)) (b_start indexes).

Definition mp_obj_get_array (o : obj) : Xl W (Z * ptr) :=
  match o with
  | OTuple xs => xret (Z.of_nat (length xs), Const xs)
  | OList _ => mp_obj_list_get o
  | _ => raise TypeError
  end.

(** The items from [beg] up to [end_] become those of [slice]. *)
Definition mp_seq_replace_slice_no_grow (dest : nat) (dest_len beg end_ : Z) (slice : ptr) (slice_len : Z) : Ml W unit :=
  memmove dest beg slice slice_len;;
  memmove dest (beg + slice_len) (Item dest end_) (dest_len - end_).

Definition mp_seq_replace_slice_grow_inplace (dest : nat) (dest_len beg end_ : Z) (slice : ptr) (slice_len len_adj : Z)
  : Ml W unit :=
  memmove dest (beg + slice_len) (Item dest end_) (dest_len + len_adj - (beg + slice_len));;
  memmove dest beg slice slice_len.

Definition list_store_slice (l : nat) (b : mp_bound_slice_t) (value : obj) : Xl W obj :=
  a ←! mp_obj_get_array value;
  let '(value_len, value_items) := a in
  self ←! safe (get_list l);
  let len_adj := s32 (value_len - (b_stop b - b_start b)) in
  (if 0 <? len_adj then
     (if alloc self <? u32 (len self + len_adj) then
        renew_items l (u32 (len self + len_adj))
      else xret tt);;!
     safe (self ← get_list l;
           mp_seq_replace_slice_grow_inplace (items self) (len self) (b_start b) (b_stop b) value_items value_len len_adj)
   else
     safe (mp_seq_replace_slice_no_grow (items self) (len self) (b_start b) (b_stop b) value_items value_len;;
           mp_seq_clear (items self) (u32 (len self + len_adj)) (len self)));;!
  safe (self ← get_list l; set_len l (u32 (len self + len_adj)));;!
  xret ONone.

Definition list_load_slice (l : nat) (b : mp_bound_slice_t) (fast : bool) : Xl W obj :=
  self ←! safe (get_list l);
  if fast then
    res ←! list_new (u32 (b_stop b - b_start b));
    safe (r ← get_list res; self ← get_list l; memcpy (items r) 0 (Item (items self) (b_start b)) (len r));;!
    xret (OList res)
  else mp_seq_extract_slice (Item (items self) 0) b.

Definition list_subscr (self_in index value : obj) : Xl W obj :=
  l ←! to_ptr self_in;
  self ←! safe (get_list l);
  match index with
  | OSlice _ _ _ =>
      s ←! mp_seq_get_fast_slice_indexes (len self) index;
      let '(slice, fast) := s in
      if is_sentinel value then list_load_slice l slice fast
      else
        let value := if is_null value then mp_const_empty_tuple else value in
        if fast : bool then list_store_slice l slice value else raise NotImplementedError
  | _ =>
      if is_null value then list_pop self_in (Some index);;! xret ONone
      else if is_sentinel value then
        i ←! mp_get_index (len self) index false;
        safe (r ← get_list l; load (items r) i)
      else mp_obj_list_store self_in index value;;! xret ONone
  end.

End Ops.

(** ** Sorting lists ([mp_quicksort] and [mp_obj_list_sort] of [py/objlist.c])

    The pointers [head], [tail], [h] and [t] are offsets into one array.  The key
    function and the comparison may run any code, so they are computations on the
    heap.  [stack_frames] is how many calls of [mp_quicksort] the C stack has room
    for before [mp_cstack_check] raises. *)

Section Sort.
Context {W : Type} `{!ListHeap W} `{!Runtime W}.
(** The array, the key function or [ONull], and the answer of [<] that means
    "before": false sorts in reverse. *)
Context (b : nat) (key_fn : obj) (binop_less_result : bool).

Definition key_of (x : obj) : Xl W obj := if is_null key_fn then xret x else mp_call_function_1 key_fn x.

(** [mp_binary_op(MP_BINARY_OP_LESS, x, y) == binop_less_result] *)
Definition less (x y : obj) : Xl W bool :=
  r ←! mp_binary_op LESS x y; xret (is_const_bool binop_less_result r).

(** [do { ++h; } while (h < t && key(h[0]) < v)] *)
Definition scan_up (t : Z) (v : obj) (h : Z) : Xl W Z :=
  xloop (Z.to_nat (t - h) + 1) (fun h =>
    let h := h + 1 in
    if h <? t then
      x ←! safe (load b h); k ←! key_of x; c ←! less k v;
      if c : bool then xret (inl h) else xret (inr h)
    else xret (inr h)) h.

(** [do { --t; } while (h < t && v < key(t[0]))] *)
Definition scan_down (h : Z) (v : obj) (t : Z) : Xl W Z :=
  xloop (Z.to_nat (t - h) + 2) (fun t =>
    let t := t - 1 in
    if h <? t then
      x ←! safe (load b t); k ←! key_of x; c ←! less v k;
      if c : bool then xret (inl t) else xret (inr t)
    else xret (inr t)) t.

Definition swap (i j : Z) : Ml W unit :=
  x ← load b i; y ← load b j; store b i y;; store b j x.

(** The loop [for (;;)]: where [h] and [t] stop. *)
Definition partition (v : obj) (head tail : Z) : Xl W (Z * Z) :=
  xloop (Z.to_nat (tail - head) + 2) (fun '(h, t) =>
    h ←! scan_up t v h;
    t ←! scan_down h v t;
    if t <=? h then xret (inr (h, t))
    else safe (swap h t);;! xret (inl (h, t))) (head - 1, tail).

Fixpoint mp_quicksort (frames : nat) (head tail : Z) : Xl W unit :=
  match frames with
  | O => raise RuntimeError
  | S frames =>
      xloop (Z.to_nat (tail - head) + 2) (fun '(head, tail) =>
        if head <? tail then
          x ←! safe (load b tail);
          v ←! key_of x;
          p ←! partition v head tail;
          let '(h, t) := p in
          safe (swap h tail);;!
          if t - head <? tail - h - 1 then mp_quicksort frames head t;;! xret (inl (h + 1, tail))
          else mp_quicksort frames (h + 1) tail;;! xret (inl (head, t))
        else xret (inr tt)) (head, tail)
  end.

End Sort.

(** The arguments [key] and [reverse] after [mp_arg_parse_all]. *)
Definition mp_obj_list_sort {W} `{!ListHeap W} `{!Runtime W} (self_in key : obj) (reverse : bool) : Xl W obj :=
  l ←! to_ptr self_in;
  self ←! safe (get_list l);
  (if 1 <? len self then
     mp_quicksort (items self) (match key with ONone => ONull | _ => key end) (negb reverse) stack_frames 0 (len self - 1)
   else xret tt);;!
  xret ONone.
