(* ===== verification/ListFacts.v ===== *)
(** * Lists and slices: what the heap represents, and the rules of the primitives

    The lists of the program are a map from names to Python lists ([rep]).  Code
    that works on one list is followed by [working], which says how far the
    structure and the array of that list have come since the state in which the
    work began, or with [holding], which says what the list is. *)
From S2P Require Import Prelude.
From S2P Require Import CMem.
From S2P Require Import ObjInt.
From S2P Require Import ListObj.
From S2P Require Import ListOps.
Local Open Scope Z_scope.

(** Lists have at most [2 ^ 26] slots, because no heap gives [2 ^ 28] bytes. *)
Definition max_bytes : Z := 2 ^ 28.
Definition max_items : Z := 2 ^ 26.

Section Represent.
Context {W : Type}.
Implicit Types s : heap_t W.

(** Names and arrays from [next] on are unused. *)
Record fresh_ok s : Prop := {
  fresh_pos : (0 < next s)%nat;
  fresh_null : arrays s !! 0%nat = None;
  fresh_arrays : forall n, (next s <= n)%nat -> arrays s !! n = None;
  fresh_lists : forall n, (next s <= n)%nat -> lists s !! n = None;
}.

(** More lists and more arrays, the old ones as they were. *)
Record extends s s' : Prop := {
  ext_arrays : arrays s ⊆ arrays s';
  ext_lists : lists s ⊆ lists s';
  ext_next : (next s <= next s')%nat;
  ext_fresh : fresh_ok s -> fresh_ok s';
}.

#[export] Instance extends_preorder : PreOrder extends.
Proof.
  split; [intros s; by split|]. intros s1 s2 s3 [] []. split; [by etrans|by etrans|lia|by auto].
Qed.

(** List [l] has the structure [r]; the first slots of its array are [xs]. *)
Record owns s (l : nat) (r : mp_obj_list_t) (xs slack : list obj) : Prop := {
  own_list : lists s !! l = Some r;
  own_items : arrays s !! items r = Some (xs ++ slack);
  own_len : len r = Z.of_nat (length xs);
  own_alloc : alloc r = Z.of_nat (length xs + length slack);
  own_bounds : 2 <= alloc r <= max_items;
}.

Record rep s (v : gmap nat (list obj)) : Prop := {
  rep_fresh : fresh_ok s;
  rep_list : forall l xs, v !! l = Some xs -> exists r slack, owns s l r xs slack;
  rep_sep : forall l1 l2 r1 r2, is_Some (v !! l1) -> is_Some (v !! l2) ->
    lists s !! l1 = Some r1 -> lists s !! l2 = Some r2 -> items r1 = items r2 -> l1 = l2;
}.

Lemma owns_extends s s' l r xs slack : owns s l r xs slack -> extends s s' -> owns s' l r xs slack.
Proof. intros [] []. split; try done; by eapply lookup_weaken. Qed.

Lemma rep_extends s s' v : rep s v -> extends s s' -> rep s' v.
Proof.
  intros Hr He. split.
  - by apply (ext_fresh _ _ He), rep_fresh with v.
  - intros l xs Hl. destruct (rep_list _ _ Hr l xs Hl) as (r & slack & Ho).
    exists r, slack. by eapply owns_extends.
  - intros l1 l2 r1 r2 [xs1 H1] [xs2 H2] L1 L2.
    destruct (rep_list _ _ Hr l1 _ H1) as (r1' & ? & O1). destruct (rep_list _ _ Hr l2 _ H2) as (r2' & ? & O2).
    assert (r1' = r1) as -> by (apply own_list in O1; eapply lookup_weaken in O1; [|by apply He]; congruence).
    assert (r2' = r2) as -> by (apply own_list in O2; eapply lookup_weaken in O2; [|by apply He]; congruence).
    apply own_list in O1, O2. by eapply (rep_sep _ _ Hr).
Qed.

Lemma rep_subseteq s v v' : rep s v -> v' ⊆ v -> rep s v'.
Proof.
  intros Hr Hv. split; [by eapply rep_fresh| |].
  - intros l xs Hl. apply (rep_list _ _ Hr). by eapply lookup_weaken.
  - intros l1 l2 r1 r2 [? H1] [? H2]. apply (rep_sep _ _ Hr); eexists; by eapply lookup_weaken.
Qed.

Lemma rep_unused s v l : rep s v -> (next s <= l)%nat -> v !! l = None.
Proof.
  intros Hr Hn. destruct (v !! l) as [xs|] eqn:E; [|done].
  destruct (rep_list _ _ Hr l xs E) as (r & ? & Ho). apply own_list in Ho.
  rewrite (fresh_lists _ (rep_fresh _ _ Hr)) in Ho by done. done.
Qed.

(** ** Work on one list *)

(** From [s] to [s'] only list [l] and array [b] have changed, and nothing that
    is not the list's. *)
Record changes (l b : nat) s s' : Prop := {
  ch_lists : forall k r, k <> l -> lists s !! k = Some r -> lists s' !! k = Some r;
  ch_arrays : forall c xs, c <> b -> arrays s !! c = Some xs -> arrays s' !! c = Some xs;
  ch_next : (next s <= next s')%nat;
  ch_fresh : fresh_ok s -> fresh_ok s';
  ch_world : world s' = world s;
  ch_iters : iters s' = iters s;
}.

Lemma changes_refl l b s : changes l b s s.
Proof. by split. Qed.

Lemma changes_trans l b b' s1 s2 s3 :
  changes l b s1 s2 -> changes l b' s2 s3 -> b' = b \/ arrays s1 !! b' = None -> changes l b s1 s3.
Proof.
  intros [H1 H2 H3 H4 H5 H6] [G1 G2 G3 G4 G5 G6] Hb. split; [by eauto| |lia|by eauto|congruence|congruence].
  intros c xs Hc Ha. apply G2; [|by apply H2]. destruct Hb as [->|Hb]; [done|congruence].
Qed.

(** The work on list [l], which had the structure [r0] in state [s0], has come to
    the structure [r] and the array [zs] in state [s]. *)
Record working s0 (l : nat) (r0 r : mp_obj_list_t) (zs : list obj) s : Prop := {
  wk_list : lists s !! l = Some r;
  wk_items : arrays s !! items r = Some zs;
  wk_name : items r = items r0 \/ arrays s0 !! items r = None;
  wk_changes : changes l (items r0) s0 s;
  wk_alloc : alloc r = Z.of_nat (length zs);
  wk_bounds : 2 <= alloc r <= max_items;
}.

Definition holding s0 l r0 (xs : list obj) s : Prop :=
  exists r slack, working s0 l r0 r (xs ++ slack) s /\ len r = Z.of_nat (length xs).

Lemma working_start s l r xs slack : owns s l r xs slack -> working s l r r (xs ++ slack) s.
Proof.
  intros []. split; [done|done|by left|apply changes_refl| |done]. rewrite own_alloc0. f_equal. by rewrite length_app.
Qed.

Lemma holding_owns s0 l r0 xs s :
  holding s0 l r0 xs s -> exists r slack, owns s l r xs slack /\ (items r = items r0 \/ arrays s0 !! items r = None) /\
    changes l (items r0) s0 s.
Proof.
  intros (r & slack & [] & Hl). exists r, slack. split; [|done]. split; try done. by rewrite <-length_app.
Qed.

Lemma rep_holding s v l r xs slack xs' s' :
  rep s v -> v !! l = Some xs -> owns s l r xs slack -> holding s l r xs' s' -> rep s' (<[l := xs']> v).
Proof.
  intros Hr Hl Ho (r' & slack' & Ho' & Hn & Hc)%holding_owns.
  assert (Hother : forall k xs k', v !! k = Some xs -> k <> l -> lists s !! k = Some k' -> lists s' !! k = Some k')
    by (intros; by eapply ch_lists).
  assert (Hown : forall k xs, v !! k = Some xs -> k <> l -> exists rk sk, owns s k rk xs sk /\ owns s' k rk xs sk /\ items rk <> items r /\ items rk <> items r').
  { intros k ys Hk Hne. destruct (rep_list _ _ Hr k ys Hk) as (rk & sk & Hok). exists rk, sk.
    assert (items rk <> items r) as Hi.
    { intros Hi. apply Hne. eapply (rep_sep _ _ Hr); eauto using own_list. }
    split; [done|]. split; [|split; [done|]].
    - destruct Hok. split; try done; [by eapply ch_lists|by eapply ch_arrays].
    - destruct Hn as [->|Hn]; [done|]. destruct Hok. congruence. }
  split.
  - eapply ch_fresh; [done|by eapply rep_fresh].
  - intros k ys [[-> ->]|[Hne Hk]]%lookup_insert_Some; [by eauto|].
    destruct (Hown k ys Hk ltac:(done)) as (rk & sk & _ & ? & _). eauto.
  - intros k1 k2 r1 r2 [y1 [[<- <-]|[N1 V1]]%lookup_insert_Some] [y2 [[<- <-]|[N2 V2]]%lookup_insert_Some] L1 L2 HI; [done| | |].
    + destruct (Hown k2 y2 V2 ltac:(done)) as (rk & sk & _ & O & _ & D). apply own_list in O, Ho'. congruence.
    + destruct (Hown k1 y1 V1 ltac:(done)) as (rk & sk & _ & O & _ & D). apply own_list in O, Ho'. congruence.
    + destruct (Hown k1 y1 V1 ltac:(done)) as (rk1 & sk1 & P1 & O1 & _). destruct (Hown k2 y2 V2 ltac:(done)) as (rk2 & sk2 & P2 & O2 & _).
      apply own_list in O1, O2, P1, P2. eapply (rep_sep _ _ Hr); eauto; congruence.
Qed.

(** To work on a list of the program. *)
Lemma rep_hold s v l xs :
  rep s v -> v !! l = Some xs ->
  exists r0, holding s l r0 xs s /\ forall xs' s', holding s l r0 xs' s' -> rep s' (<[l := xs']> v).
Proof.
  intros Hr Hl. destruct (rep_list _ _ Hr l xs Hl) as (r & slack & Ho). exists r. split.
  - exists r, slack. split; [by apply working_start|by destruct Ho].
  - intros. by eapply rep_holding.
Qed.

(** The other lists, while work is under way. *)
Lemma owns_changes s s' l b k r xs slack :
  changes l b s s' -> owns s k r xs slack -> k <> l -> items r <> b -> owns s' k r xs slack.
Proof. intros [] [] Hk Hb. split; try done; [by eapply ch_lists0|by eapply ch_arrays0]. Qed.

Lemma rep_other s v l k xs ys :
  rep s v -> v !! l = Some xs -> v !! k = Some ys -> k <> l ->
  exists rk slack, owns s k rk ys slack /\ forall r0, lists s !! l = Some r0 -> items rk <> items r0.
Proof.
  intros Hr Hl Hk Hne. destruct (rep_list _ _ Hr k ys Hk) as (rk & slack & Ho). exists rk, slack. split; [done|].
  intros r0 H0 Hi. apply Hne. eapply (rep_sep _ _ Hr); eauto using own_list.
Qed.

End Represent.

(** ** Lists and slices: rules for memory, allocation, growing and making lists *)

(** What the allocator of [py/gc.c] promises: no heap has [2 ^ 28] bytes, and an
    array can get a size that needs no more blocks of 16 bytes than it has
    (GcHeapTheorems), unless the collector is locked: then nothing is resized. *)
Class ListHeapLaws (W : Type) `{!ListHeap W} : Prop := {
  malloc_bound : forall s n, malloc_ok s n = true -> n <= max_bytes;
  realloc_bound : forall s b n, realloc_ok s b n = true -> n <= max_bytes;
  realloc_same_blocks : forall s b xs n, gc_locked s = false -> arrays s !! b = Some xs ->
    0 < n <= 16 * ((4 * Z.of_nat (length xs) + 15) / 16) -> n <= max_bytes -> realloc_ok s b n = true;
}.

Lemma in_range_true xs i n : 0 <= i -> 0 <= n -> i + n <= Z.of_nat (length xs) -> in_range xs i n = true.
Proof. intros. unfold in_range. repeat (apply andb_true_intro; split); apply Z.leb_le; lia. Qed.

Lemma length_fresh_words {W} `{!ListHeap W} (s : heap_t W) n : length (fresh_words s n) = n.
Proof. unfold fresh_words. by rewrite length_map, length_seq. Qed.

Section Rules.
Context {W : Type} `{!ListHeap W}.
Implicit Types s : heap_t W.

(** ** Memory *)

Lemma wp_get_list l r s (Q : mp_obj_list_t -> heap_t W -> Prop) : lists s !! l = Some r -> Q r s -> wp (get_list l) s Q.
Proof. intros Hl HQ. unfold wp, get_list. by rewrite Hl. Qed.

Lemma wp_read_items b xs i n s (Q : list obj -> heap_t W -> Prop) :
  arrays s !! b = Some xs -> 0 <= i -> 0 <= n -> i + n <= Z.of_nat (length xs) ->
  Q (take (Z.to_nat n) (drop (Z.to_nat i) xs)) s -> wp (read_items (Item b i) n) s Q.
Proof.
  intros Ha Hi Hn Hl HQ. unfold wp, read_items. destruct (n =? 0) eqn:E; to_prop.
  - subst n. done.
  - rewrite Ha. cbn. by rewrite in_range_true.
Qed.

Lemma wp_read_const xs n s (Q : list obj -> heap_t W -> Prop) :
  n = Z.of_nat (length xs) -> Q xs s -> wp (read_items (Const xs) n) s Q.
Proof.
  intros -> HQ. unfold wp, read_items. destruct (_ =? 0) eqn:E; to_prop.
  - by destruct xs.
  - rewrite in_range_true by lia. by rewrite Nat2Z.id, firstn_all.
Qed.

Lemma wp_load_block b xs i x s (Q : obj -> heap_t W -> Prop) :
  arrays s !! b = Some xs -> 0 <= i -> xs !! Z.to_nat i = Some x -> Q x s -> wp (load b i) s Q.
Proof. intros Ha Hi Hx HQ. unfold wp, load. rewrite Ha. cbn. rewrite bool_decide_true by done. by rewrite Hx. Qed.

(** ** Work on one list *)

Section Working.
Context {s0 : heap_t W} {l : nat} {r0 : mp_obj_list_t}.

Lemma put_array_working r zs zs' s :
  working s0 l r0 r zs s -> length zs' = length zs -> working s0 l r0 r zs' (put_array (items r) zs' s).
Proof.
  intros [HL HI HN HC HA HB] Hl. split; cbn; try done; [by rewrite lookup_insert_eq| |by rewrite Hl].
  eapply changes_trans; [done| |exact HN]. split; cbn; try done.
  - intros c xs Hc Ha. by rewrite lookup_insert_ne.
  - intros [F1 F2 F3 F4]. split; cbn; try done; [rewrite lookup_insert_ne; congruence|].
    intros n Hn. rewrite lookup_insert_ne; [auto|]. intros <-. rewrite F3 in HI; [done|lia].
Qed.

Lemma put_list_working r r' zs s :
  working s0 l r0 r zs s -> items r' = items r -> alloc r' = alloc r -> working s0 l r0 r' zs (put_list l r' s).
Proof.
  intros [HL HI HN HC HA HB] Hi Ha. split; cbn; rewrite ?Hi, ?Ha; try done; [by rewrite lookup_insert_eq|].
  eapply changes_trans; [exact HC| |by left]. split; cbn; try done.
  - intros k k' Hk Hl. by rewrite lookup_insert_ne.
  - intros [F1 F2 F3 F4]. split; cbn; try done. intros n Hn. rewrite lookup_insert_ne; [auto|]. intros <-.
    rewrite F4 in HL; [done|lia].
Qed.

Lemma wp_get_working r zs s (Q : mp_obj_list_t -> heap_t W -> Prop) :
  working s0 l r0 r zs s -> Q r s -> wp (get_list l) s Q.
Proof. intros []. by apply wp_get_list. Qed.

Lemma wp_load_working r zs b i x s (Q : obj -> heap_t W -> Prop) :
  working s0 l r0 r zs s -> b = items r -> 0 <= i -> zs !! Z.to_nat i = Some x -> Q x s -> wp (load b i) s Q.
Proof. intros [] ->. by apply wp_load_block. Qed.

Lemma wp_read_working r zs b i n s (Q : list obj -> heap_t W -> Prop) :
  working s0 l r0 r zs s -> b = items r -> 0 <= i -> 0 <= n -> i + n <= Z.of_nat (length zs) ->
  Q (take (Z.to_nat n) (drop (Z.to_nat i) zs)) s -> wp (read_items (Item b i) n) s Q.
Proof. intros [] ->. by apply wp_read_items. Qed.

Lemma wp_store_working r zs b i x s (Q : unit -> heap_t W -> Prop) :
  working s0 l r0 r zs s -> b = items r -> 0 <= i < Z.of_nat (length zs) ->
  (forall s', working s0 l r0 r (<[Z.to_nat i := x]> zs) s' -> Q tt s') -> wp (store b i x) s Q.
Proof.
  intros Hw -> Hi HQ. unfold wp, store. rewrite (wk_items _ _ _ _ _ _ Hw). cbn. rewrite in_range_true by lia.
  apply HQ, put_array_working with zs; [done|]. by rewrite length_insert.
Qed.

Lemma wp_write_working r zs b i ys s (Q : unit -> heap_t W -> Prop) :
  working s0 l r0 r zs s -> b = items r -> 0 <= i -> i + Z.of_nat (length ys) <= Z.of_nat (length zs) ->
  (forall s', working s0 l r0 r (take (Z.to_nat i) zs ++ ys ++ drop (Z.to_nat i + length ys) zs) s' -> Q tt s') ->
  wp (write_items b i ys) s Q.
Proof.
  intros Hw -> Hi Hl HQ. unfold wp, write_items. destruct ys as [|y ys].
  - apply HQ. cbn. rewrite Nat.add_0_r, take_drop. done.
  - rewrite (wk_items _ _ _ _ _ _ Hw). cbn [mbind option_bind]. rewrite in_range_true by lia.
    apply HQ, put_array_working with zs; [done|]. rewrite !length_app, length_take, length_drop. lia.
Qed.

Lemma wp_set_len_working r zs n s (Q : unit -> heap_t W -> Prop) :
  working s0 l r0 r zs s ->
  (forall s', working s0 l r0 (MkList (alloc r) n (items r)) zs s' -> Q tt s') -> wp (set_len l n) s Q.
Proof.
  intros Hw HQ. unfold set_len. apply wp_bind. eapply wp_get_working; [done|]. apply wp_modify, HQ.
  by eapply put_list_working.
Qed.

(** Clearing the slots [from .. to] *)
Lemma wp_clear_working r zs b from to s (Q : unit -> heap_t W -> Prop) :
  working s0 l r0 r zs s -> b = items r -> 0 <= from <= to -> to <= Z.of_nat (length zs) ->
  (forall s', working s0 l r0 r
     (take (Z.to_nat from) zs ++ replicate (Z.to_nat (to - from)) ONull ++ drop (Z.to_nat to) zs) s' -> Q tt s') ->
  wp (mp_seq_clear b from to) s Q.
Proof.
  intros Hw Hb' Hf Ht HQ. assert (Z.of_nat (length zs) <= max_items) as Hb by (destruct Hw; lia). unfold max_items in Hb.
  unfold mp_seq_clear. rewrite (uwrap_small 32 (to - from)), uwrap_small, Z.div_mul by lia.
  eapply wp_write_working; [done|done|lia|rewrite length_replicate; lia|]. rewrite length_replicate.
  by replace (Z.to_nat from + Z.to_nat (to - from))%nat with (Z.to_nat to) by lia.
Qed.

(** ** Growing and shrinking *)

Context `{!ListHeapLaws W}.

Definition needs_blocks (alloc n : Z) : Prop := 16 * ((4 * alloc + 15) / 16) < 4 * n \/ max_items < n.

(** When an array of [alloc] objects may not become one of [n]. *)
Definition may_fail (alloc n : Z) s : Prop := gc_locked s = true \/ needs_blocks alloc n.

Lemma realloc_raises b zs n s :
  arrays s !! b = Some zs -> 2 <= n <= 2 ^ 28 -> realloc_ok s b (4 * n) = false -> may_fail (Z.of_nat (length zs)) n s.
Proof.
  intros Ha Hn He. destruct (gc_locked s) eqn:El; [by left|right]. destruct (decide (max_items < n)) as [|Hm]; [by right|]. left.
  destruct (decide (4 * n <= 16 * ((4 * Z.of_nat (length zs) + 15) / 16))) as [Hle|]; [|lia].
  rewrite (realloc_same_blocks s b zs) in He; [done|done|done|lia|]. unfold max_items, max_bytes in *. lia.
Qed.

Lemma changes_in_place k b zs ys s : arrays s !! b = Some zs -> changes k b s (put_array b ys s).
Proof.
  intros Hb. split; cbn; try done.
  - intros c xs Hc Ha. by rewrite lookup_insert_ne.
  - intros [F1 F2 F3 F4]. split; cbn; try done.
    + rewrite lookup_insert_ne; congruence.
    + intros m Hm. rewrite lookup_insert_ne; [auto|]. intros <-. rewrite F3 in Hb; done.
Qed.

Lemma changes_moved k b zs ys s :
  fresh_ok s -> arrays s !! b = Some zs ->
  changes k b s (set_arrays (<[next s := ys]> (delete b (arrays s)))
                   (MkHeap (arrays s) (lists s) (iters s) (S (next s)) (world s))).
Proof.
  intros [F1 F2 F3 F4] Hb. assert (next s <> b) as Hne by (intros <-; rewrite F3 in Hb; done).
  split; cbn; try done; [|lia|].
  - intros c xs Hc Ha. rewrite lookup_insert_ne by (intros <-; rewrite F3 in Ha; done). by rewrite lookup_delete_ne.
  - intros _. split; cbn; [lia| | |].
    + rewrite lookup_insert_ne by lia. by rewrite lookup_delete_None, F2; auto.
    + intros m Hm. rewrite lookup_insert_ne by lia. rewrite lookup_delete_None. right. apply F3. lia.
    + intros m Hm. apply F4. lia.
Qed.

Lemma wp_m_renew k b zs n s (Q : exn + nat -> heap_t W -> Prop) :
  arrays s !! b = Some zs -> fresh_ok s -> 2 <= n <= 2 ^ 28 ->
  (may_fail (Z.of_nat (length zs)) n s -> Q (inl MemoryError) s) ->
  (forall s1 c junk, n <= max_items -> Z.of_nat (length (take (Z.to_nat n) zs ++ junk)) = n ->
     arrays s1 !! c = Some (take (Z.to_nat n) zs ++ junk) -> lists s1 = lists s ->
     c = b \/ arrays s !! c = None -> changes k b s s1 -> Q (inr c) s1) ->
  wp (m_renew b n) s Q.
Proof.
  intros Ha Hf Hn Hfail HQ. unfold m_renew, m_realloc. rewrite uwrap_small by lia.
  apply wp_bind. unfold wp at 1, get. rewrite Ha. destruct (4 * n =? 0) eqn:E0; to_prop; [lia|].
  rewrite (Z.mul_comm 4 n), Z.div_mul, (Z.mul_comm n 4) by lia.
  destruct (realloc_ok s b (4 * n)) eqn:Eok; [|by eapply Hfail, realloc_raises].
  pose proof (realloc_bound _ _ _ Eok) as Hb.
  assert (n <= max_items) as Hm by (unfold max_bytes, max_items in *; lia). unfold resize.
  set (junk := fresh_words s (Z.to_nat n - length zs)).
  assert (Z.of_nat (length (take (Z.to_nat n) zs ++ junk)) = n) as Hlen.
  { unfold junk. rewrite length_app, length_take, length_fresh_words. lia. }
  destruct (realloc_in_place s b (4 * n)).
  - apply wp_bind, wp_modify, wp_xret, HQ with junk; try done; cbn.
    + by rewrite lookup_insert_eq.
    + by left.
    + by eapply changes_in_place.
  - apply wp_bind. unfold wp at 1, fresh_id. apply wp_bind, wp_modify, wp_xret, HQ with junk; try done; cbn.
    + by rewrite lookup_insert_eq.
    + right. by apply fresh_arrays.
    + by eapply changes_moved.
Qed.

Lemma working_renewed r zs ys n c s s1 :
  working s0 l r0 r zs s -> arrays s1 !! c = Some ys -> lists s1 = lists s -> c = items r \/ arrays s !! c = None ->
  changes l (items r) s s1 -> Z.of_nat (length ys) = n -> 2 <= n <= max_items ->
  working s0 l r0 (MkList n (len r) c) ys (put_list l (MkList n (len r) c) (put_list l (MkList (alloc r) (len r) c) s1)).
Proof.
  intros [HL HI HN HC HA HB] Ha1 Hl1 Hname Hc1 Hlen Hn.
  assert (changes l (items r0) s0 s1) as Hc by by eapply changes_trans.
  split; cbn [alloc len items]; cbn; [by rewrite lookup_insert_eq|done| | |done|done].
  - destruct Hname as [->|Hname]; [done|]. destruct (decide (c = items r0)) as [|Hne]; [by left|]. right.
    destruct (arrays s0 !! c) eqn:E; [|done]. eapply (ch_arrays _ _ _ _ HC) in E; [|done]. congruence.
  - eapply changes_trans; [exact Hc| |by left]. split; cbn; try done.
    + intros k k' Hk Hl. by rewrite !lookup_insert_ne.
    + intros [F1 F2 F3 F4]. split; cbn; try done. intros m Hm.
      rewrite !lookup_insert_ne; [by auto| |]; intros <-; rewrite <-Hl1 in HL; rewrite F4 in HL; done.
Qed.

(** The array of a list is renewed: it keeps what fits and the rest is anything;
    it may be another array.  A failure leaves everything as it was and is only
    possible if the array needs more blocks or the collector is locked. *)
Lemma wp_renew_items r zs n s (Q : exn + unit -> heap_t W -> Prop) :
  working s0 l r0 r zs s -> fresh_ok s0 -> 2 <= n <= 2 ^ 28 ->
  (may_fail (alloc r) n s -> Q (inl MemoryError) s) ->
  (forall s' c junk, n <= max_items -> working s0 l r0 (MkList n (len r) c) (take (Z.to_nat n) zs ++ junk) s' ->
     Z.of_nat (length (take (Z.to_nat n) zs ++ junk)) = n -> Q (inr tt) s') ->
  wp (renew_items l n) s Q.
Proof.
  intros Hw Hf Hn Hfail HQ. unfold renew_items. apply wp_xbind, wp_safe. eapply wp_get_working; [done|].
  apply wp_xbind. eapply (wp_m_renew l); [by apply Hw| |done| |].
  - by apply (ch_fresh _ _ _ _ (wk_changes _ _ _ _ _ _ Hw)).
  - rewrite <-(wk_alloc _ _ _ _ _ _ Hw). done.
  - intros s1 c junk Hm Hlen Ha1 Hl1 Hname Hc1. apply wp_safe. unfold set_items, set_alloc.
    apply wp_bind, wp_bind. eapply wp_get_list; [rewrite Hl1; by apply Hw|].
    apply wp_modify, wp_bind. eapply wp_get_list; [apply lookup_insert_eq|]. apply wp_modify.
    apply (HQ _ c junk); [done| |done]. eapply (working_renewed r zs); eauto. lia.
Qed.

End Working.

(** ** Making lists *)

Context `{!ListHeapLaws W}.

(** [s'] has more lists and arrays, and nothing else is different. *)
Definition grows s s' : Prop := extends s s' /\ world s' = world s /\ iters s' = iters s.

Lemma extends_name s s' :
  fresh_ok s -> (next s <= next s')%nat -> fresh_ok s' ->
  (forall n, (n < next s)%nat -> arrays s' !! n = arrays s !! n /\ lists s' !! n = lists s !! n) -> extends s s'.
Proof.
  intros Hf Hn Hf' Hold.
  split; [| |done|done]; apply map_subseteq_spec; intros i x Hx;
    (destruct (decide (i < next s)%nat) as [Hlt|Hge]; [destruct (Hold i Hlt); congruence|]).
  - rewrite fresh_arrays in Hx by (done || lia). done.
  - rewrite fresh_lists in Hx by (done || lia). done.
Qed.

Lemma grows_next s : fresh_ok s -> grows s (MkHeap (arrays s) (lists s) (iters s) (S (next s)) (world s)).
Proof.
  intros Hf. destruct (Hf) as [F1 F2 F3 F4]. split; [|done]. apply extends_name; cbn; [done|lia| |done].
  split; cbn; [lia|done|intros; apply F3; lia|intros; apply F4; lia].
Qed.

Lemma grows_array b zs s : fresh_ok s -> b = next s ->
  grows s (put_array b zs (MkHeap (arrays s) (lists s) (iters s) (S (next s)) (world s))).
Proof.
  intros Hf ->. destruct (Hf) as [F1 F2 F3 F4]. split; [|done]. apply extends_name; cbn; [done|lia| |].
  - split; cbn; [lia| | |].
    + by rewrite lookup_insert_ne by lia.
    + intros m Hm. rewrite lookup_insert_ne by lia. apply F3. lia.
    + intros m Hm. apply F4. lia.
  - intros m Hm. by rewrite lookup_insert_ne by lia.
Qed.

Lemma grows_changes s s1 s2 o b :
  grows s s1 -> lists s !! o = None -> arrays s !! b = None -> changes o b s1 s2 -> grows s s2.
Proof.
  intros [[E1 E2 E3 E4] [Hw Hi]] Ho Hb [C1 C2 C3 C4 C5 C6]. rewrite map_subseteq_spec in E1; rewrite map_subseteq_spec in E2.
  split; [split|split; congruence]; rewrite ?map_subseteq_spec; [| |lia|auto].
  - intros c x Hx. apply C2; [|by apply E1]. intros ->. congruence.
  - intros k x Hx. apply C1; [|by apply E2]. intros ->. congruence.
Qed.

Lemma changes_grows s s' l b : grows s s' -> changes l b s s'.
Proof.
  intros [[E1 E2 E3 E4] [Hw Hi]]. rewrite map_subseteq_spec in E1; rewrite map_subseteq_spec in E2. split; auto.
Qed.

Lemma changes_put_list o b r s : (o < next s)%nat -> changes o b s (put_list o r s).
Proof.
  intros Ho. split; cbn; try done; [intros; by rewrite lookup_insert_ne|].
  intros [F1 F2 F3 F4]. split; cbn; try done. intros m Hm. rewrite lookup_insert_ne by lia. by apply F4.
Qed.

Lemma grows_trans s1 s2 s3 : grows s1 s2 -> grows s2 s3 -> grows s1 s3.
Proof. intros (? & ? & ?) (? & ? & ?). split; [by etrans|]. split; congruence. Qed.

Lemma wp_m_new n s (Q : exn + nat -> heap_t W -> Prop) :
  fresh_ok s -> 0 < n < 2 ^ 30 -> Q (inl MemoryError) s ->
  (forall b zs, n <= max_items -> b = next s -> Z.of_nat (length zs) = n ->
     Q (inr b) (put_array b zs (MkHeap (arrays s) (lists s) (iters s) (S (next s)) (world s)))) ->
  wp (m_new n) s Q.
Proof.
  intros Hf Hn Hfail HQ. unfold m_new, m_malloc. rewrite uwrap_small by lia.
  destruct (4 * n =? 0) eqn:E0; to_prop; [lia|]. apply wp_bind. unfold wp at 1, get.
  destruct (malloc_ok s (4 * n)) eqn:Eok; [|done]. apply malloc_bound in Eok.
  apply wp_bind. unfold wp at 1, fresh_id. apply wp_bind, wp_modify, wp_xret, HQ; [|done|].
  - unfold max_bytes, max_items in *. lia.
  - rewrite length_fresh_words, (Z.mul_comm 4), Z.div_mul by lia. lia.
Qed.

Lemma min_alloc n : 0 <= n < 2 ^ 30 ->
  let a := if n <? LIST_MIN_ALLOC then LIST_MIN_ALLOC else n in n <= a /\ 2 <= a < 2 ^ 30 /\ (a <= max_items -> n <= max_items).
Proof. intros Hn. unfold LIST_MIN_ALLOC, max_items. cbv zeta. case_bool; to_prop; lia. Qed.

(** The items of the list are not set yet. *)
Lemma wp_list_init o n s (Q : exn + unit -> heap_t W -> Prop) :
  fresh_ok s -> (o < next s)%nat -> 0 <= n < 2 ^ 30 ->
  (forall s', changes o (next s) s s' -> Q (inl MemoryError) s') ->
  (forall s' r xs slack, n <= max_items -> Z.of_nat (length xs) = n -> owns s' o r xs slack -> items r = next s ->
     changes o (next s) s s' -> Q (inr tt) s') ->
  wp (mp_obj_list_init o n) s Q.
Proof.
  intros Hf Ho Hn Hfail HQ. unfold mp_obj_list_init.
  set (a := if n <? LIST_MIN_ALLOC then LIST_MIN_ALLOC else n). destruct (min_alloc n Hn) as (Ha & Hab & Ham). fold a in Ha, Hab, Ham.
  apply wp_xbind, wp_safe, wp_modify, wp_xbind. set (s1 := put_list o (MkList a n 0) s).
  assert (changes o (next s) s s1) as Hc1 by by apply changes_put_list.
  assert (fresh_ok s1) as Hf1 by by apply (ch_fresh _ _ _ _ Hc1).
  apply wp_m_new; [done|lia|by apply Hfail|]. intros b zs Hm -> Hzs. set (s2 := put_array _ _ _).
  assert (changes o (next s) s s2) as Hc2.
  { eapply changes_trans; [done|by apply changes_grows, grows_array|by left]. }
  apply wp_xbind, wp_safe. unfold set_items. apply wp_bind. eapply wp_get_list; [apply lookup_insert_eq|].
  apply wp_modify. cbn [alloc len items]. set (r := MkList a n (next s)). set (s3 := put_list o r s2).
  assert (changes o (next s) s s3) as Hc3.
  { eapply changes_trans; [done|apply changes_put_list; cbn; lia|by left]. }
  assert (working s3 o r r zs s3) as Hw.
  { split; cbn; [by rewrite lookup_insert_eq|by rewrite lookup_insert_eq|by left|apply changes_refl|done|lia]. }
  apply wp_safe. eapply (wp_clear_working r zs); [exact Hw|done|lia|lia|]. intros s4 [L1 L2 L3 L4 L5 L6].
  assert (length (take (Z.to_nat n) zs) = Z.to_nat n) as Hlen by (rewrite length_take; lia).
  eapply (HQ _ r (take (Z.to_nat n) zs)); [by auto|lia| |done|].
  - split; [done|done|cbn; lia| |done]. by rewrite L5, !length_app.
  - eapply changes_trans; [done|done|by left].
Qed.

Lemma wp_list_new n s (Q : exn + nat -> heap_t W -> Prop) :
  fresh_ok s -> 0 <= n < 2 ^ 30 ->
  (forall s', grows s s' -> Q (inl MemoryError) s') ->
  (forall s' o r xs slack, n <= max_items -> Z.of_nat (length xs) = n -> owns s' o r xs slack -> grows s s' ->
     lists s !! o = None -> arrays s !! items r = None -> Q (inr o) s') ->
  wp (list_new n) s Q.
Proof.
  intros Hf Hn Hfail HQ. unfold list_new, m_new_obj. apply wp_xbind, wp_bind. unfold wp at 1, get.
  destruct (malloc_ok s 16); [|by apply Hfail]. apply wp_safe. unfold wp at 1, fresh_id.
  set (s1 := MkHeap _ _ _ _ _). assert (grows s s1) as Hg by by apply grows_next.
  assert (lists s !! next s = None) as Ho by by apply fresh_lists.
  assert (arrays s !! next s1 = None) as Hb by (apply fresh_arrays; [done|cbn; lia]).
  apply wp_xbind, wp_list_init; [by apply Hg|cbn; lia|done| |].
  - intros s' Hc. apply Hfail. by eapply grows_changes.
  - intros s' r xs slack Hm Hl Ho' Hi Hc. apply wp_xret. eapply HQ; eauto; [by eapply grows_changes|by rewrite Hi].
Qed.

Lemma rep_new s s' v o r xs slack :
  rep s v -> grows s s' -> owns s' o r xs slack -> lists s !! o = None -> arrays s !! items r = None ->
  v !! o = None /\ rep s' (<[o := xs]> v).
Proof.
  intros Hr [He _] Ho Hl Ha.
  assert (v !! o = None) as Hv.
  { destruct (v !! o) as [ys|] eqn:E; [|done]. destruct (rep_list _ _ Hr o ys E) as (? & ? & Hx). apply own_list in Hx. congruence. }
  split; [done|]. assert (rep s' v) as Hr' by by eapply rep_extends.
  assert (Hother : forall k rk, is_Some (v !! k) -> lists s' !! k = Some rk -> k <> o /\ items rk <> items r).
  { intros k rk [ys Hk] Hrk. destruct (rep_list _ _ Hr k ys Hk) as (rk' & ? & Hk').
    assert (rk' = rk) as ->.
    { pose proof (own_list _ _ _ _ _ Hk') as Hx. eapply lookup_weaken in Hx; [|by apply He]. congruence. }
    destruct Hk'. split; congruence. }
  split.
  - by eapply rep_fresh.
  - intros k ys [[<- <-]|[Hne Hk]]%lookup_insert_Some; [by eauto|by apply (rep_list _ _ Hr')].
  - intros k1 k2 r1 r2 [y1 [[<- <-]|[N1 V1]]%lookup_insert_Some] [y2 [[<- <-]|[N2 V2]]%lookup_insert_Some] L1 L2 HI; [done| | |].
    + destruct (Hother k2 r2) as [_ D]; [done|done|]. apply own_list in Ho. congruence.
    + destruct (Hother k1 r1) as [_ D]; [done|done|]. apply own_list in Ho. congruence.
    + by eapply (rep_sep _ _ Hr').
Qed.

End Rules.
