(* ===== verification/ListSpec.v ===== *)
(** * Lists and slices: what the operations mean

    Python lists as the program sees them: a map [v] from names to lists.  An
    operation raises, returns with a new map, or returns a new list. *)
From S2P Require Import Prelude.
From S2P Require Import CMem.
From S2P Require Import ObjInt.
From S2P Require Import ListObj.
From S2P Require Import ListOps.
From S2P Require Import ListFacts.
Local Open Scope Z_scope.

Inductive outcome :=
  | Raises (e : exn)
  | Returns (o : obj) (v : gmap nat (list obj))
  | NewList (xs : list obj).

(** Operators of other objects that leave the lists alone: [eqb], [op_result] and
    [int_result] are their answers. *)
Class RuntimeLaws (W : Type) `{!Runtime W} := {
  eqb : obj -> obj -> bool;
  op_result : mp_binary_op_t -> obj -> obj -> obj;
  int_result : obj -> obj;
  equal_law : forall a b s, wp (mp_obj_equal a b) s (fun r s' => r = inr (eqb a b) /\ extends s s');
  binary_law : forall op a b s, wp (mp_binary_op op a b) s (fun r s' => r = inr (op_result op a b) /\ extends s s');
  int_law : forall o s, wp (unary_int_maybe o) s (fun r s' => r = inr (int_result o) /\ extends s s');
  int_result_is_int : forall o,
    match int_result o with ONull | OSmall _ | OBig _ => True | _ => False end;
}.

(** A call answers [o].  One that gives back room after its work is done
    ([shrinks]) raises MemoryError instead if the collector is locked. *)
Inductive answers {W} `{!ListHeap W} (shrinks : bool) (o : obj) (s : heap_t W) : exn + obj -> Prop :=
  | answers_returns : answers shrinks o s (inr o)
  | answers_locked : shrinks = true -> gc_locked s = true -> answers shrinks o s (inl MemoryError).
#[export] Hint Resolve answers_returns : core.

Section Spec.
Context {W : Type} `{!ListHeap W, !Runtime W, !RuntimeLaws W}.

Definition meets (shrinks : bool) (v : gmap nat (list obj)) (out : outcome) (r : exn + obj) (s' : heap_t W) : Prop :=
  match out with
  | Raises e => r = inl e /\ rep s' v
  | Returns o v' => answers shrinks o s' r /\ rep s' v'
  | NewList xs => exists n, v !! n = None /\ r = inr (OList n) /\ rep s' (<[n := xs]> v)
  end.

(** The code has the meaning [out], or runs out of memory and changes no list. *)
Definition refines (shrinks : bool) (v : gmap nat (list obj)) (out : outcome) (c : Xl W obj) (s : heap_t W) : Prop :=
  wp c s (fun r s' => meets shrinks v out r s' \/ (r = inl MemoryError /\ rep s' v)).

Lemma refines_shrinks b v out c s : refines false v out c s -> refines b v out c s.
Proof.
  intros H. eapply wp_mono; [exact H|]. intros r s' [Hm|Hm]; [left|by right]. destruct out; cbn in *; try done.
  destruct Hm as [Ha Hr]. split; [|done]. by destruct Ha.
Qed.

(** ** Integers and indices *)

Definition checked (v : Z) : exn + option Z := if Z.abs v <? 2 ^ 31 then inr (Some v) else inl OverflowError.

(** The integer an object stands for, if any. *)
Definition int_of (o : obj) : exn + option Z :=
  match o with
  | OBool b => inr (Some (zbool b))
  | OSmall w => inr (Some (MP_OBJ_SMALL_INT_VALUE w))
  | OBig v => checked v
  | _ =>
      match int_result o with
      | OSmall w => inr (Some (MP_OBJ_SMALL_INT_VALUE w))
      | OBig v => checked v
      | _ => inr None
      end
  end.

(** [xs[i]]: counted from the end if negative, and then in range. *)
Definition py_index (n : Z) (o : obj) : exn + Z :=
  match int_of o with
  | inl e => inl e
  | inr None => inl TypeError
  | inr (Some i) =>
      let i := if i <? 0 then i + n else i in
      if bool_decide (0 <= i < n) then inr i else inl IndexError
  end.

(** An end of [xs.index]: counted from the end if negative, and moved into range. *)
Definition py_bound (n : Z) (o : obj) : exn + Z :=
  match int_of o with
  | inl e => inl e
  | inr None => inl TypeError
  | inr (Some i) => inr (Z.max 0 (Z.min n (if i <? 0 then i + n else i)))
  end.

Lemma small_value_range w : - 2 ^ 30 <= MP_OBJ_SMALL_INT_VALUE w < 2 ^ 30.
Proof.
  unfold MP_OBJ_SMALL_INT_VALUE. rewrite shiftr_div by lia. pose proof (swrap_range 32 w ltac:(lia)) as H.
  change (2 ^ (32 - 1)) with (2 ^ 31) in H. change (2 ^ 1) with 2.
  split; [apply Z.div_le_lower_bound|apply Z.div_lt_upper_bound]; lia.
Qed.

Lemma checked_range v i : checked v = inr (Some i) -> - 2 ^ 31 <= i < 2 ^ 31.
Proof. unfold checked. case_bool; to_prop; [|done]. intros [= <-]. lia. Qed.

Lemma int_of_range o i : int_of o = inr (Some i) -> - 2 ^ 31 <= i < 2 ^ 31.
Proof.
  assert (forall w, - 2 ^ 31 <= MP_OBJ_SMALL_INT_VALUE w < 2 ^ 31) as Hw.
  { intros w. pose proof (small_value_range w). lia. }
  unfold int_of. destruct o as [| | |b|w|x| | | | |];
    try (destruct (int_result _) as [| | | |w|x| | | | |]); intros H; try done;
    try (by apply checked_range in H); injection H as <-; auto. unfold zbool. destruct b; lia.
Qed.

Lemma wp_int_checked o s (Q : exn + Z -> heap_t W -> Prop) :
  match o with
  | OSmall w => Q (inr (MP_OBJ_SMALL_INT_VALUE w)) s
  | OBig v => Q (match checked v with inr (Some x) => inr x | inr None => inl TypeError | inl e => inl e end) s
  | _ => False
  end -> wp (mp_obj_int_get_checked o) s Q.
Proof.
  unfold mp_obj_int_get_checked, checked. destruct o; try done. by destruct (_ <? _).
Qed.

Lemma wp_int_maybe o s (Q : exn + option Z -> heap_t W -> Prop) :
  (forall s', extends s s' -> Q (int_of o) s') -> wp (mp_obj_get_int_maybe o) s Q.
Proof.
  intros HQ. assert (HQs := HQ s ltac:(done)). unfold mp_obj_get_int_maybe, int_of in *.
  destruct o as [| | |b|w|x| | | | |]; try exact HQs.
  all: try (apply wp_xbind; eapply wp_mono; [apply int_law|]; intros r s' [-> He]; specialize (HQ s' He);
    pose proof (int_result_is_int) as Hi; match goal with |- context [int_result ?o] => specialize (Hi o); destruct (int_result o) end;
    cbn [is_null]; try done; try (by apply wp_xret)).
  all: apply wp_xbind, wp_int_checked; try done;
    match goal with |- context [checked ?v] => unfold checked in *; destruct (Z.abs v <? 2 ^ 31); done end.
Qed.

Lemma wp_get_int o s (Q : exn + Z -> heap_t W -> Prop) :
  (forall s', extends s s' ->
     Q (match int_of o with inr (Some i) => inr i | inr None => inl TypeError | inl e => inl e end) s') ->
  wp (mp_obj_get_int o) s Q.
Proof.
  intros HQ. apply wp_xbind, wp_int_maybe. intros s' He. specialize (HQ s' He). by destruct (int_of o) as [e|[i|]].
Qed.

Lemma wp_get_index n o (is_slice : bool) s (Q : exn + Z -> heap_t W -> Prop) :
  0 <= n <= max_items ->
  (forall s', extends s s' -> Q (if is_slice then py_bound n o else py_index n o) s') ->
  wp (mp_get_index n o is_slice) s Q.
Proof.
  intros Hn HQ. unfold max_items in Hn. unfold mp_get_index. apply wp_xbind.
  assert (Hk : forall s', extends s s' -> match int_of o with
      | inl e => Q (inl e) s'
      | inr None => Q (inl TypeError) s'
      | inr (Some i) =>
          let i := if i <? 0 then s32 (i + n) else i in
          wp (if is_slice then if i <? 0 then xret 0 else if n <? u32 i then xret n else xret i
              else if (i <? 0) || (n <=? u32 i) then raise IndexError else xret (u32 i)) s' Q
      end).
  { intros s' He. specialize (HQ s' He). unfold py_bound, py_index in HQ. pose proof (int_of_range o) as Hr.
    destruct (int_of o) as [e|[i|]]; [by destruct is_slice| |by destruct is_slice]. specialize (Hr i eq_refl). cbv zeta in *.
    assert ((if i <? 0 then s32 (i + n) else i) = (if i <? 0 then i + n else i)) as ->.
    { case_bool; to_prop; [|done]. rewrite swrap_small by lia. done. }
    set (j := if i <? 0 then i + n else i) in *. assert (- 2 ^ 31 <= j < 2 ^ 31) as Hj by (unfold j; case_bool; to_prop; lia).
    destruct (j <? 0) eqn:E; to_prop; cbn [orb].
    - destruct is_slice; [by rewrite Z.max_l in HQ by lia|]. by rewrite bool_decide_false in HQ by lia.
    - rewrite uwrap_small by lia. destruct is_slice.
      + destruct (n <? j) eqn:E2; to_prop; apply wp_xret.
        * by rewrite Z.min_l, Z.max_r in HQ by lia.
        * by rewrite Z.min_r, Z.max_r in HQ by lia.
      + destruct (n <=? j) eqn:E2; to_prop; [by rewrite bool_decide_false in HQ by lia|].
        apply wp_xret. by rewrite bool_decide_true in HQ by lia. }
  assert (Hm : wp (mp_obj_get_int_maybe o) s (fun r s' => r = int_of o /\ extends s s')) by by apply wp_int_maybe.
  destruct o; (eapply wp_mono; [exact Hm|]; intros r s' [-> He]; specialize (Hk s' He); by destruct (int_of _) as [e|[i|]]).
Qed.

End Spec.
