(* ===== verification/ListMutate.v ===== *)
(** * Lists: the operations that change a list *)
From S2P Require Import Prelude.
From S2P Require Import CMem.
From S2P Require Import ObjInt.
From S2P Require Import ListObj.
From S2P Require Import ListOps.
From S2P Require Import ListFacts.
From S2P Require Import ListSpec.
Local Open Scope Z_scope.

Lemma insert_at_length {A} (xs ys : list A) y x : <[length xs := x]> (xs ++ y :: ys) = xs ++ x :: ys.
Proof. by rewrite insert_app_r_alt, Nat.sub_diag by lia. Qed.

Lemma take_length_app {A} (xs ys : list A) : take (length xs) (xs ++ ys) = xs.
Proof. rewrite take_app_le by done. by rewrite take_ge. Qed.

Lemma drop_length_app {A} (xs ys : list A) : drop (length xs) (xs ++ ys) = ys.
Proof. rewrite drop_app_ge by done. by rewrite Nat.sub_diag, drop_0. Qed.

Lemma length_nat_of {A} (xs : list A) n : n = Z.of_nat (length xs) -> Z.to_nat n = length xs.
Proof. lia. Qed.

(** A list cut at an index. *)
Lemma split_at {A} (xs : list A) (i : Z) : 0 <= i < Z.of_nat (length xs) ->
  exists xs1 x xs2, xs = xs1 ++ x :: xs2 /\ i = Z.of_nat (length xs1) /\ Z.to_nat i = length xs1.
Proof.
  intros Hi. destruct (lookup_lt_is_Some_2 xs (Z.to_nat i)) as [x Hx]; [lia|].
  exists (take (Z.to_nat i) xs), x, (drop (S (Z.to_nat i)) xs). rewrite length_take_le by lia.
  split; [by apply lookup_split_at|lia].
Qed.

Lemma holding_start {W} (s : heap_t W) l r0 xs slack : owns s l r0 xs slack -> holding s l r0 xs s.
Proof. intros Ho. exists r0, slack. split; [by apply working_start|by destruct Ho]. Qed.

Section Mutate.
Context {W : Type} `{!ListHeap W, !Runtime W, !RuntimeLaws W, !ListHeapLaws W}.
Implicit Types s : heap_t W.

(** ** Appending *)

Lemma wp_append_holding s0 l r0 xs x s (Q : exn + obj -> heap_t W -> Prop) :
  holding s0 l r0 xs s -> fresh_ok s0 -> Q (inl MemoryError) s ->
  (forall s', holding s0 l r0 (xs ++ [x]) s' -> Q (inr ONone) s') ->
  wp (mp_obj_list_append (OList l) x) s Q.
Proof.
  intros (r & slack & Hw & Hl) Hf Hfail HQ. pose proof (wk_alloc _ _ _ _ _ _ Hw) as Ha.
  pose proof (wk_bounds _ _ _ _ _ _ Hw) as Hb. unfold max_items in Hb. rewrite length_app in Ha.
  assert (Hend : forall r s1 y sl, working s0 l r0 r (xs ++ y :: sl) s1 -> len r = Z.of_nat (length xs) ->
    wp (safe (r ← get_list l; set_len l (u32 (len r + 1));; store (items r) (len r) x);;! xret ONone) s1 Q).
  { intros r1 s1 y sl Hw1 Hl1. pose proof (wk_bounds _ _ _ _ _ _ Hw1) as Hb1. unfold max_items in Hb1.
    pose proof (wk_alloc _ _ _ _ _ _ Hw1) as Ha1. rewrite length_app in Ha1. cbn in Ha1.
    apply wp_xbind, wp_safe, wp_bind. eapply wp_get_working; [done|].
    apply wp_bind. eapply wp_set_len_working; [done|]. intros s2 Hw2. rewrite uwrap_small in Hw2 by lia.
    eapply wp_store_working; [exact Hw2|done|rewrite length_app; cbn; lia|]. intros s3 Hw3.
    rewrite (length_nat_of xs), insert_at_length in Hw3 by done. apply wp_xret, HQ.
    eexists _, sl. split; [by rewrite <-app_assoc|]. cbn. rewrite length_app. cbn. lia. }
  unfold mp_obj_list_append. apply wp_xbind, wp_xret, wp_xbind, wp_safe. eapply wp_get_working; [done|].
  apply wp_xbind. destruct (alloc r <=? len r) eqn:E; to_prop.
  - destruct slack; [|cbn in Ha; lia]. rewrite app_nil_r in Hw. cbn in Ha. rewrite uwrap_small by lia.
    apply wp_xbind. eapply wp_renew_items; [done|done|lia|done|]. intros s1 c junk Hm Hw1 Hj.
    rewrite take_ge in Hw1, Hj by lia. rewrite length_app in Hj. apply wp_safe, wp_bind. eapply wp_get_working; [done|].
    cbn [alloc len items]. eapply wp_clear_working; [exact Hw1|done|lia|rewrite length_app; lia|]. intros s2 Hw2.
    destruct junk as [|y junk]; [cbn in Hj; lia|].
    replace (Z.to_nat (len r + 1)) with (length xs + 1)%nat in Hw2 by lia.
    rewrite take_app_add in Hw2. cbn [take] in Hw2. rewrite take_0, <-app_assoc in Hw2. by eapply Hend.
  - apply wp_xret. destruct slack as [|y slack]; [cbn in Ha; lia|]. by eapply Hend.
Qed.

Lemma append_refines s v l xs x :
  rep s v -> v !! l = Some xs -> refines false v (Returns ONone (<[l := xs ++ [x]]> v)) (mp_obj_list_append (OList l) x) s.
Proof.
  intros Hr Hl. destruct (rep_hold _ _ _ _ Hr Hl) as (r0 & Hh & Hput).
  eapply wp_append_holding; [done|by eapply rep_fresh|by right|]. intros s' Hs'. left. split; [done|by apply Hput].
Qed.

(** ** Removing *)

Lemma needs_no_blocks a n : 2 <= n <= a -> a <= max_items -> ~ needs_blocks a n.
Proof.
  intros Hn Ha [H|H]; [|lia]. pose proof (Z.mul_succ_div_gt (4 * a + 15) 16 ltac:(lia)). lia.
Qed.

Lemma needs_no_blocks_min a : 2 <= a -> ~ needs_blocks a LIST_MIN_ALLOC.
Proof.
  unfold LIST_MIN_ALLOC, max_items. intros Ha [H|H]; [|unfold max_items in H; lia].
  pose proof (Z.div_le_mono 16 (4 * a + 15) 16 ltac:(lia) ltac:(lia)) as Hd. change (16 / 16) with 1 in Hd. lia.
Qed.

(** The items from [i + 1] on move down, the slot that gets free is cleared. *)
Lemma wp_close_gap s0 l r0 r xs1 x xs2 slack i s (Q : unit -> heap_t W -> Prop) :
  working s0 l r0 r ((xs1 ++ x :: xs2) ++ slack) s -> i = Z.of_nat (length xs1) ->
  let n := Z.of_nat (length xs1 + length xs2) in
  (forall s' slack', working s0 l r0 (MkList (alloc r) n (items r)) ((xs1 ++ xs2) ++ slack') s' -> Q tt s') ->
  wp (set_len l n;; memmove (items r) i (Item (items r) (i + 1)) (u32 (n - i));; store (items r) n ONull) s Q.
Proof.
  intros Hw Hi n HQ. pose proof (wk_alloc _ _ _ _ _ _ Hw) as Ha. pose proof (wk_bounds _ _ _ _ _ _ Hw) as Hb.
  rewrite !length_app in Ha. cbn in Ha. unfold max_items in Hb. rewrite uwrap_small by lia.
  apply wp_bind. eapply wp_set_len_working; [done|]. intros s1 Hw1. apply wp_bind. unfold memmove. apply wp_bind.
  eapply wp_read_working; [exact Hw1|done|lia|lia|rewrite !length_app; cbn; lia|].
  replace (Z.to_nat (i + 1)) with (length (xs1 ++ [x])) by (rewrite length_app; cbn; lia).
  replace (Z.to_nat (n - i)) with (length xs2) by lia.
  replace ((xs1 ++ x :: xs2) ++ slack) with ((xs1 ++ [x]) ++ xs2 ++ slack) by (by rewrite <-!app_assoc).
  rewrite drop_length_app, take_length_app.
  eapply wp_write_working; [exact Hw1|done|lia|rewrite !length_app; cbn; lia|]. intros s2 Hw2.
  rewrite (length_nat_of xs1) in Hw2 by lia. rewrite <-!app_assoc in Hw2. cbn in Hw2. rewrite take_length_app in Hw2.
  rewrite app_assoc in Hw2. destruct (drop _ _) as [|y sl] eqn:Ed in Hw2.
  { apply (f_equal length) in Ed. rewrite length_drop, !length_app in Ed. cbn in Ed. rewrite length_app in Ed. lia. }
  eapply wp_store_working; [exact Hw2|done|rewrite !length_app; cbn; lia|]. intros s3 Hw3.
  rewrite (length_nat_of (xs1 ++ xs2)), insert_at_length in Hw3 by (rewrite length_app; lia). by eapply HQ.
Qed.

(** After an item is gone, a list with a big array gets a smaller one. *)
Lemma wp_list_shrink s0 l r0 r ys slack s (Q : exn + unit -> heap_t W -> Prop) :
  working s0 l r0 r (ys ++ slack) s -> fresh_ok s0 -> len r = Z.of_nat (length ys) ->
  (gc_locked s = true -> holding s0 l r0 ys s -> Q (inl MemoryError) s) ->
  (forall s', holding s0 l r0 ys s' -> Q (inr tt) s') ->
  wp (if (LIST_MIN_ALLOC <? alloc r) && (u32 (2 * len r) <? alloc r) then renew_items l (alloc r / 2) else xret tt) s Q.
Proof.
  intros Hw Hf Hl Hfail HQ. pose proof (wk_alloc _ _ _ _ _ _ Hw) as Ha. pose proof (wk_bounds _ _ _ _ _ _ Hw) as Hb.
  rewrite !length_app in Ha. pose proof Hb as Hb'. unfold max_items in Hb'. rewrite uwrap_small by lia.
  unfold LIST_MIN_ALLOC. case_bool; to_prop; [|apply wp_xret, HQ; by eexists _, _].
  pose proof (Z.mul_div_le (alloc r) 2 ltac:(lia)). pose proof (Z.mul_succ_div_gt (alloc r) 2 ltac:(lia)).
  eapply wp_renew_items; [done|done|lia| |].
  - intros [Hk|Hn]; [apply Hfail; [done|by eexists _, _]|]. exfalso. eapply (needs_no_blocks (alloc r)); [|by apply Hb|exact Hn]. lia.
  - intros s' c junk Hm Hw' Hj. rewrite take_app_ge in Hw' by lia. rewrite <-app_assoc in Hw'. apply HQ. by eexists _, _.
Qed.

Definition py_pop (v : gmap nat (list obj)) (l : nat) (xs : list obj) (arg : option obj) : outcome :=
  let n := Z.of_nat (length xs) in
  if n =? 0 then Raises IndexError
  else match match arg with None => inr (n - 1) | Some a => py_index n a end with
       | inl e => Raises e
       | inr i =>
           match xs !! Z.to_nat i with
           | Some x => Returns x (<[l := delete (Z.to_nat i) xs]> v)
           | None => Raises IndexError
           end
       end.

Lemma py_index_last n : 0 < n -> py_index n (MP_OBJ_NEW_SMALL_INT (-1)) = inr (n - 1).
Proof.
  intros Hn. unfold py_index. change (int_of _) with (inr (Some (-1)) : exn + option Z). cbn [Z.ltb Z.compare].
  rewrite bool_decide_true by lia. f_equal. lia.
Qed.

Lemma py_index_range n o i : py_index n o = inr i -> 0 <= i < n.
Proof. unfold py_index. destruct (int_of o) as [|[j|]]; [done| |done]. cbv zeta. case_bool_decide; [|done]. by intros [= <-]. Qed.

Lemma delete_middle {A} (xs1 xs2 : list A) x : delete (length xs1) (xs1 ++ x :: xs2) = xs1 ++ xs2.
Proof. by rewrite delete_middle. Qed.

Lemma pop_refines s v l xs arg :
  rep s v -> v !! l = Some xs -> refines true v (py_pop v l xs arg) (list_pop (OList l) arg) s.
Proof.
  intros Hr Hl. unfold refines, list_pop, py_pop. destruct (rep_list _ _ Hr l xs Hl) as (ra & sla & Ho).
  pose proof (own_len _ _ _ _ _ Ho) as Hlen. pose proof (own_alloc _ _ _ _ _ Ho) as Hal. pose proof (own_bounds _ _ _ _ _ Ho) as Hab.
  apply wp_xbind, wp_xret, wp_xbind, wp_safe. eapply wp_get_list; [by apply Ho|]. rewrite Hlen.
  destruct (Z.of_nat (length xs) =? 0) eqn:E0; to_prop; [by left|].
  set (idx := match arg with None => _ | Some a => a end).
  replace (match arg with None => inr (Z.of_nat (length xs) - 1) | Some a => py_index (Z.of_nat (length xs)) a end)
    with (py_index (Z.of_nat (length xs)) idx) by (destruct arg; [done|]; apply py_index_last; lia).
  apply wp_xbind, wp_get_index; [lia|]. intros s1 He. assert (Hr1 : rep s1 v) by by eapply rep_extends.
  destruct (py_index _ idx) as [e|i] eqn:Ei; [by left|]. apply py_index_range in Ei.
  destruct (rep_list _ _ Hr1 l xs Hl) as (r & slack & Ho1). pose proof (own_len _ _ _ _ _ Ho1) as Hlen1.
  apply wp_xbind, wp_safe. eapply wp_get_list; [by apply Ho1|].
  pose proof (own_bounds _ _ _ _ _ Ho1) as Hb. unfold max_items in Hb. pose proof (own_alloc _ _ _ _ _ Ho1) as Ha.
  destruct (split_at xs i) as (xs1 & x & xs2 & -> & Hi & Hi'); [done|]. rewrite Hi', list_lookup_middle, delete_middle by done.
  rewrite length_app in Ha, Hlen1. cbn in Ha, Hlen1.
  apply working_start in Ho1 as Hw. apply wp_xbind, wp_safe.
  eapply wp_load_working; [exact Hw|done|lia|rewrite Hi', <-app_assoc; cbn; by apply list_lookup_middle|].
  cbv zeta. rewrite uwrap_small by lia. replace (len r - 1) with (Z.of_nat (length xs1 + length xs2)) by lia.
  apply wp_xbind, wp_safe. eapply wp_close_gap; [exact Hw|done|]. intros s2 slack' Hw2. apply wp_xbind.
  eapply (wp_list_shrink _ _ _ (MkList _ _ _)); [exact Hw2|by apply Hr1|cbn [len]; by rewrite length_app| |].
  - intros Hk Hh. left. split; [by constructor|]. by eapply rep_holding.
  - intros s3 Hh. apply wp_xret. left. split; [done|]. by eapply rep_holding.
Qed.

(** ** Clearing *)

Lemma clear_refines s v l xs :
  rep s v -> v !! l = Some xs -> refines true v (Returns ONone (<[l := []]> v)) (list_clear (OList l)) s.
Proof.
  intros Hr Hl. destruct (rep_hold _ _ _ _ Hr Hl) as (r0 & (r & slack & Hw & Hlen) & Hput).
  unfold refines, list_clear. apply wp_xbind, wp_xret, wp_xbind, wp_safe. eapply wp_set_len_working; [done|]. intros s1 Hw1.
  apply wp_xbind. eapply wp_renew_items; [exact Hw1|by apply Hr|unfold LIST_MIN_ALLOC; lia| |].
  - intros [Hk|Hn]; [|exfalso; eapply needs_no_blocks_min; [|exact Hn]; apply Hw1]. left. split; [by constructor|].
    apply Hput. exists (MkList (alloc r) 0 (items r)), (xs ++ slack). split; [exact Hw1|done].
  - intros s2 c junk Hm Hw2 Hj. apply wp_xbind, wp_safe, wp_bind. eapply wp_get_working; [exact Hw2|]. cbn [alloc len items].
    eapply wp_clear_working; [exact Hw2|done|unfold LIST_MIN_ALLOC; lia|lia|]. intros s3 Hw3. apply wp_xret. left. split; [done|].
    apply Hput. exists (MkList LIST_MIN_ALLOC 0 c). eexists. split; [exact Hw3|done].
Qed.

(** ** Inserting and reversing *)

Lemma wp_load_at s0 l r0 r pre x post b i s (Q : obj -> heap_t W -> Prop) :
  working s0 l r0 r (pre ++ x :: post) s -> b = items r -> i = Z.of_nat (length pre) -> Q x s -> wp (load b i) s Q.
Proof.
  intros Hw Hb Hi HQ. eapply wp_load_working; [exact Hw|done|lia| |done].
  rewrite (length_nat_of pre) by done. by apply list_lookup_middle.
Qed.

Lemma wp_store_at s0 l r0 r pre x post b i y s (Q : unit -> heap_t W -> Prop) :
  working s0 l r0 r (pre ++ x :: post) s -> b = items r -> i = Z.of_nat (length pre) ->
  (forall s', working s0 l r0 r (pre ++ y :: post) s' -> Q tt s') -> wp (store b i y) s Q.
Proof.
  intros Hw Hb Hi HQ. eapply wp_store_working; [exact Hw|done|rewrite length_app; cbn; lia|]. intros s' Hw'.
  rewrite (length_nat_of pre), insert_at_length in Hw' by done. by apply HQ.
Qed.

(** The loop that makes room at [index]: the free slot moves down. *)
Lemma wp_make_room s0 l r0 r xs1 xs2 d slack index s (Q : Z -> heap_t W -> Prop) fuel :
  working s0 l r0 r (xs1 ++ xs2 ++ d :: slack) s -> index = Z.of_nat (length xs1) -> (length xs2 < fuel)%nat ->
  (forall s' d', working s0 l r0 r (xs1 ++ d' :: xs2 ++ slack) s' -> Q index s') ->
  wp (for_ fuel (fun i => index <? i)
        (fun i => r ← get_list l; x ← load (items r) (i - 1); store (items r) i x;; mret (i - 1))
        (Z.of_nat (length xs1 + length xs2))) s Q.
Proof.
  intros Hw Hi Hfuel HQ.
  apply (wp_for (fun i s => exists a b d, xs2 = a ++ b /\ i = Z.of_nat (length xs1 + length a) /\
    working s0 l r0 r (xs1 ++ a ++ d :: b ++ slack) s) (fun i => Z.to_nat (i - index))).
  - exists xs2, [], d. by rewrite app_nil_r.
  - lia.
  - intros i s1 (a & b & e & -> & -> & Hw1) Hc. to_prop.
    destruct a as [|z a _] using rev_ind; [cbn in Hc; lia|]. rewrite length_app in *. cbn [length] in *.
    rewrite <-(app_assoc a) in Hw1. cbn in Hw1.
    apply wp_bind. eapply wp_get_working; [exact Hw1|]. apply wp_bind.
    eapply (wp_load_at _ _ _ _ (xs1 ++ a)); [rewrite <-app_assoc; exact Hw1|done|rewrite length_app; lia|].
    apply wp_bind. eapply (wp_store_at _ _ _ _ (xs1 ++ a ++ [z])); [|done|rewrite !length_app; cbn; lia|].
    { rewrite <-!app_assoc. exact Hw1. }
    intros s2 Hw2. apply wp_ret. split; [|lia]. exists a, (z :: b), z. rewrite <-app_assoc.
    split; [done|]. split; [lia|]. by rewrite <-!app_assoc in Hw2.
  - intros i s1 (a & b & e & -> & -> & Hw1) Hc. to_prop. destruct a; [|cbn in Hc; lia]. rewrite Nat.add_0_r, <-Hi. by eapply HQ.
Qed.

(** Where [xs.insert(i, x)] puts [x]. *)
Definition py_insert_at (n i : Z) : Z := Z.max 0 (Z.min n (if i <? 0 then i + n else i)).

Lemma insert_refines s v l xs w x :
  rep s v -> v !! l = Some xs ->
  let k := Z.to_nat (py_insert_at (Z.of_nat (length xs)) (MP_OBJ_SMALL_INT_VALUE w)) in
  refines false v (Returns ONone (<[l := take k xs ++ x :: drop k xs]> v)) (list_insert (OList l) (OSmall w) x) s.
Proof.
  intros Hr Hl k. destruct (rep_list _ _ Hr l xs Hl) as (r & slack & Ho).
  pose proof (own_len _ _ _ _ _ Ho) as Hlen. pose proof (own_alloc _ _ _ _ _ Ho) as Ha. pose proof (own_bounds _ _ _ _ _ Ho) as Hb.
  unfold max_items in Hb. unfold refines, list_insert. apply wp_xbind, wp_xret, wp_xbind, wp_safe. eapply wp_get_list; [by apply Ho|].
  cbv zeta. cbn [word_of]. pose proof (small_value_range w) as Hi. set (i := MP_OBJ_SMALL_INT_VALUE _) in *.
  set (index := if _ <? u32 _ then _ else _).
  assert (index = Z.of_nat k) as Hindex.
  { unfold index, k, py_insert_at. rewrite !Hlen.
    destruct (i <? 0) eqn:E; to_prop; rewrite ?(swrap_small 32 (i + _)) by lia; repeat case_bool; to_prop;
      rewrite ?uwrap_small in * by lia; rewrite ?swrap_small by lia; lia. }
  clearbody index. assert (k <= length xs)%nat as Hk by (unfold k, py_insert_at; lia).
  apply wp_xbind. eapply wp_append_holding; [by eapply holding_start|by eapply rep_fresh|by right|].
  intros s1 (r1 & sl1 & Hw1 & Hl1). rewrite length_app in Hl1. cbn [length] in Hl1.
  apply wp_xbind, wp_safe, wp_bind. eapply wp_get_working; [exact Hw1|]. apply wp_bind.
  rewrite Hl1, swrap_small by lia. replace (Z.of_nat (length xs + 1) - 1) with (Z.of_nat (length (take k xs) + length (drop k xs)))
    by (rewrite length_take, length_drop; lia).
  rewrite <-app_assoc in Hw1. cbn in Hw1. rewrite <-(take_drop k xs), <-app_assoc in Hw1.
  eapply wp_make_room; [exact Hw1|rewrite length_take_le by done; done|rewrite length_drop; lia|].
  intros s2 d Hw2. apply wp_bind. eapply wp_get_working; [exact Hw2|].
  eapply wp_store_at; [exact Hw2|done|rewrite length_take_le by done; done|]. intros s3 Hw3. apply wp_xret. left. split; [done|].
  eapply rep_holding; [done|done|done|]. exists r1, sl1. split; [by rewrite <-app_assoc|].
  rewrite length_app. cbn [length]. rewrite length_take, length_drop. lia.
Qed.

(** Both ends of what is not yet exchanged move inwards. *)
Lemma wp_reverse_loop s0 l r0 r xs slack n s (Q : unit -> heap_t W -> Prop) :
  working s0 l r0 r (xs ++ slack) s -> n = Z.of_nat (length xs) ->
  (forall s', working s0 l r0 r (rev xs ++ slack) s' -> Q tt s') ->
  wp (for_up (Z.to_nat (Z.quot n 2)) 0 (fun i =>
        r ← get_list l; a ← load (items r) i; x ← load (items r) (n - i - 1); store (items r) i x;; store (items r) (n - i - 1) a)) s Q.
Proof.
  intros Hw Hn HQ. rewrite Z.quot_div_nonneg by lia.
  pose proof (Z.mul_div_le n 2 ltac:(lia)) as Hd1. pose proof (Z.mul_succ_div_gt n 2 ltac:(lia)) as Hd2.
  apply (wp_for_up (fun i s => exists a m b, xs = a ++ m ++ b /\ i = Z.of_nat (length a) /\ length a = length b /\
    working s0 l r0 r (rev b ++ m ++ rev a ++ slack) s)).
  - exists [], xs, []. by rewrite app_nil_r.
  - intros i s1 Hi (a & m & b & -> & -> & Hab & Hw1). rewrite !length_app in Hn.
    destruct m as [|x m]; [cbn in Hn; lia|]. destruct m as [|y m _] using rev_ind; [cbn in Hn; lia|].
    cbn [length app] in Hn, Hw1. rewrite length_app in Hn. cbn [length] in Hn. rewrite <-(app_assoc m) in Hw1. cbn in Hw1.
    apply wp_bind. eapply wp_get_working; [exact Hw1|]. apply wp_bind.
    eapply (wp_load_at _ _ _ _ (rev b)); [exact Hw1|done|rewrite length_rev; lia|]. apply wp_bind.
    eapply (wp_load_at _ _ _ _ (rev b ++ x :: m)); [by rewrite <-app_assoc|done|rewrite length_app, length_rev; cbn; lia|].
    apply wp_bind. eapply (wp_store_at _ _ _ _ (rev b)); [exact Hw1|done|rewrite length_rev; lia|]. intros s2 Hw2.
    eapply (wp_store_at _ _ _ _ (rev b ++ y :: m)); [by rewrite <-app_assoc|done|rewrite length_app, length_rev; cbn; lia|].
    intros s3 Hw3. exists (a ++ [x]), m, (y :: b). rewrite rev_app_distr, <-!app_assoc in *. cbn in *. rewrite length_app. cbn.
    split; [by rewrite <-app_assoc|]. split; [lia|]. split; [lia|]. by rewrite <-app_assoc.
  - intros s1 (a & m & b & -> & Ha & Hab & Hw1). apply HQ. rewrite !length_app in Hn.
    assert (rev m = m) as Hm by (destruct m as [|x [|y m]]; cbn in *; [done|done|lia]).
    by rewrite !rev_app_distr, Hm, <-!app_assoc.
Qed.

Lemma reverse_refines s v l xs :
  rep s v -> v !! l = Some xs -> refines false v (Returns ONone (<[l := rev xs]> v)) (list_reverse (OList l)) s.
Proof.
  intros Hr Hl. destruct (rep_hold _ _ _ _ Hr Hl) as (r0 & (r & slack & Hw & Hlen) & Hput).
  pose proof (wk_alloc _ _ _ _ _ _ Hw) as Ha. pose proof (wk_bounds _ _ _ _ _ _ Hw) as Hb.
  unfold max_items in Hb. rewrite length_app in Ha. unfold refines, list_reverse.
  apply wp_xbind, wp_xret, wp_xbind, wp_safe. eapply wp_get_working; [done|]. cbv zeta. rewrite swrap_small by lia.
  apply wp_xbind, wp_safe. eapply wp_reverse_loop; [exact Hw|done|]. intros s' Hw'. apply wp_xret. left. split; [done|].
  apply Hput. exists r, slack. by rewrite length_rev.
Qed.

(** ** Extending *)

(** [memcpy] from another array. *)
Lemma wp_memcpy s0 l r0 r zs b i c j ys n s (Q : unit -> heap_t W -> Prop) :
  working s0 l r0 r zs s -> b = items r -> c <> b \/ n = 0 \/ i + n <= j \/ j + n <= i ->
  0 <= i -> i + n <= Z.of_nat (length zs) -> n = Z.of_nat (length ys) -> 0 <= j ->
  (exists cs, arrays s !! c = Some cs /\ j + n <= Z.of_nat (length cs) /\ take (Z.to_nat n) (drop (Z.to_nat j) cs) = ys) ->
  (forall s', working s0 l r0 r (take (Z.to_nat i) zs ++ ys ++ drop (Z.to_nat (i + n)) zs) s' -> Q tt s') ->
  wp (memcpy b i (Item c j) n) s Q.
Proof.
  intros Hw -> Hov Hi Hz Hn Hj (cs & Hc & Hjl & Hys) HQ. unfold memcpy. apply wp_bind, wp_assert.
  - destruct (items r =? c)%nat eqn:E; cbn; [|done]. apply Nat.eqb_eq in E. rewrite !orb_true_iff, !Z.leb_le, Z.eqb_eq.
    destruct Hov as [?|[?|[?|?]]]; [congruence|tauto..].
  - unfold memmove. apply wp_bind. eapply wp_read_items; [done|done|lia|lia|]. rewrite Hys.
    eapply wp_write_working; [done|done|done|lia|]. intros s' Hw'. apply HQ.
    by replace (Z.to_nat (i + n)) with (Z.to_nat i + length ys)%nat by lia.
Qed.

(** Room for [k] more items: the prefix that is the list stays. *)
Lemma wp_extend_room s0 l r0 r xs slack k s (Q : exn + unit -> heap_t W -> Prop) :
  working s0 l r0 r (xs ++ slack) s -> fresh_ok s0 -> len r = Z.of_nat (length xs) -> 0 <= k <= max_items ->
  Q (inl MemoryError) s ->
  (forall s' r' slack', working s0 l r0 r' (xs ++ slack') s' -> len r' = len r -> k <= Z.of_nat (length slack') -> Q (inr tt) s') ->
  wp (if alloc r <? u32 (len r + k) then
        renew_items l (u32 (len r + k + 4));;!
        safe (r' ← get_list l; mp_seq_clear (items r') (u32 (len r + k)) (alloc r'))
      else xret tt) s Q.
Proof.
  intros Hw Hf Hl Hk Hfail HQ. pose proof (wk_alloc _ _ _ _ _ _ Hw) as Ha. pose proof (wk_bounds _ _ _ _ _ _ Hw) as Hb.
  unfold max_items in Hb, Hk. rewrite length_app in Ha. rewrite !uwrap_small by lia. case_bool; to_prop.
  - apply wp_xbind. eapply wp_renew_items; [done|done|lia|done|]. intros s1 c junk Hm Hw1 Hj.
    rewrite take_ge in Hw1, Hj by (rewrite length_app; lia). rewrite !length_app in Hj.
    apply wp_safe, wp_bind. eapply wp_get_working; [exact Hw1|]. cbn [alloc len items].
    eapply wp_clear_working; [exact Hw1|done|lia|rewrite !length_app; lia|]. intros s2 Hw2.
    rewrite <-app_assoc in Hw2. rewrite take_app_ge in Hw2 by lia. rewrite <-app_assoc in Hw2. eapply HQ; [exact Hw2|done|].
    rewrite !length_app, length_take, length_app. lia.
  - apply wp_xret. eapply HQ; [exact Hw|done|lia].
Qed.

Lemma extend_list_refines fuel s v l m xs ys :
  rep s v -> v !! l = Some xs -> v !! m = Some ys ->
  refines false v (Returns ONone (<[l := xs ++ ys]> v)) (list_extend fuel (OList l) (OList m)) s.
Proof.
  intros Hr Hl Hm. destruct (rep_list _ _ Hr l xs Hl) as (r & slack & Ho). destruct (rep_list _ _ Hr m ys Hm) as (rm & slm & Hom).
  pose proof (own_len _ _ _ _ _ Hom) as Hlm. pose proof (own_alloc _ _ _ _ _ Hom) as Ham. pose proof (own_bounds _ _ _ _ _ Hom) as Hbm.
  pose proof (own_len _ _ _ _ _ Ho) as Hlen. pose proof (own_bounds _ _ _ _ _ Ho) as Hb. unfold max_items in Hb, Hbm.
  unfold refines, list_extend. apply wp_xbind, wp_xret, wp_xbind, wp_safe. eapply wp_get_list; [by apply Ho|].
  apply wp_xbind, wp_safe. eapply wp_get_list; [by apply Hom|]. apply working_start in Ho as Hw.
  apply wp_xbind. eapply wp_extend_room; [exact Hw|by apply Hr|done|unfold max_items; lia|by right|].
  intros s1 r1 sl1 Hw1 Hl1 Hk. pose proof (wk_alloc _ _ _ _ _ _ Hw1) as Ha1. pose proof (wk_bounds _ _ _ _ _ _ Hw1) as Hb1.
  unfold max_items in Hb1. rewrite length_app in Ha1.
  assert (exists rm1 cs, lists s1 !! m = Some rm1 /\ arrays s1 !! items rm1 = Some (ys ++ cs) /\ len rm1 = len rm /\ (m <> l -> items rm1 <> items r1))
    as (rm1 & cs & Hm1 & Hc1 & Hlm1 & Hne1).
  { destruct (decide (m = l)) as [->|Hne].
    - exists r1, sl1. destruct Hw1. assert (ys = xs) as -> by congruence. split; [done|]. split; [done|]. split; [lia|done].
    - assert (items rm <> items r) as Hi by (intros Hi; apply Hne; eapply (rep_sep _ _ Hr); eauto using own_list).
      destruct (owns_changes s s1 l (items r) m rm ys slm (wk_changes _ _ _ _ _ _ Hw1) Hom Hne Hi) as [L1 L2 _ _ _].
      exists rm, slm. split; [done|]. split; [done|]. split; [done|]. intros _ Hi1.
      destruct (wk_name _ _ _ _ _ _ Hw1) as [Hn|Hn]; [congruence|]. rewrite <-Hi1, (own_items _ _ _ _ _ Hom) in Hn. done. }
  apply wp_xbind, wp_safe, wp_bind. eapply wp_get_working; [exact Hw1|]. apply wp_bind. eapply wp_get_list; [done|].
  apply wp_bind. eapply (wp_memcpy _ _ _ _ _ _ _ _ _ ys); [exact Hw1|done| |lia|rewrite length_app; lia|lia|done| |].
  - destruct (decide (m = l)) as [->|Hne]; [|left; by apply Hne1]. right. right. right. assert (ys = xs) as -> by congruence. lia.
  - exists (ys ++ cs). split; [done|]. split; [rewrite length_app; lia|]. cbn. rewrite drop_0.
    rewrite (length_nat_of ys) by lia. apply take_length_app.
  - intros s2 Hw2. eapply wp_set_len_working; [exact Hw2|]. intros s3 Hw3. apply wp_xret. left. split; [done|].
    eapply rep_holding; [done|done|done|]. eexists _, _. split.
    + rewrite (length_nat_of xs), take_length_app, app_assoc in Hw3 by lia. exact Hw3.
    + cbn [len]. rewrite length_app, uwrap_small; lia.
Qed.

End Mutate.
