(* ===== verification/ListSearch.v ===== *)
(** * Lists: searching, counting, comparing and making

    These functions keep a pointer to the items while they call the equality of
    the elements; the laws of [Runtime] say that such calls leave the lists
    alone. *)
From S2P Require Import Prelude.
From S2P Require Import CMem.
From S2P Require Import ObjInt.
From S2P Require Import ListObj.
From S2P Require Import ListOps.
From S2P Require Import ListFacts.
From S2P Require Import ListSpec.
From S2P Require Import ListMutate.
Local Open Scope Z_scope.

Section Search.
Context {W : Type} `{!ListHeap W, !Runtime W, !RuntimeLaws W, !ListHeapLaws W}.
Implicit Types s : heap_t W.

(** The number of the first item equal to [x], when the first item has number [i]. *)
Fixpoint find_eq (x : obj) (ys : list obj) (i : Z) : option Z :=
  match ys with
  | [] => None
  | y :: ys => if eqb y x then Some i else find_eq x ys (i + 1)
  end.

Definition py_find (xs : list obj) (x : obj) (lo hi : Z) : option Z :=
  find_eq x (take (Z.to_nat (hi - lo)) (drop (Z.to_nat lo) xs)) lo.

Lemma find_eq_range x ys : forall i k, find_eq x ys i = Some k -> i <= k < i + Z.of_nat (length ys).
Proof.
  induction ys as [|y ys IH]; intros i k; cbn [find_eq length]; [done|]. case_bool; [intros [= <-]; lia|].
  intros H. apply IH in H. lia.
Qed.

Lemma wp_load_extended s0 s l r xs slack i x (Q : obj -> heap_t W -> Prop) :
  owns s0 l r xs slack -> extends s0 s -> 0 <= i -> xs !! Z.to_nat i = Some x -> Q x s -> wp (load_at (Item (items r) 0) i) s Q.
Proof.
  intros Ho He Hi Hx HQ. pose proof (owns_extends _ _ _ _ _ _ Ho He) as [_ L2 _ _ _]. cbn [load_at].
  eapply wp_load_block; [done|lia|by apply lookup_app_l_Some|done].
Qed.

(** The bounds of [xs.index(x, start, stop)] *)
Definition py_bounds (n : Z) (start_stop : list obj) : exn + (Z * Z) :=
  match match start_stop with a :: _ => py_bound n a | [] => inr 0 end with
  | inl e => inl e
  | inr lo =>
      match match start_stop with _ :: b :: _ => py_bound n b | _ => inr n end with
      | inl e => inl e
      | inr hi => inr (lo, hi)
      end
  end.

Lemma py_bound_range n o i : 0 <= n -> py_bound n o = inr i -> 0 <= i <= n.
Proof. intros Hn. unfold py_bound. destruct (int_of o) as [|[j|]]; [done| |done]. intros [= <-]. lia. Qed.

Lemma wp_find_loop s0 s l r xs slack x lo hi (Q : exn + obj -> heap_t W -> Prop) :
  owns s0 l r xs slack -> extends s0 s -> 0 <= lo -> hi <= Z.of_nat (length xs) ->
  (forall s', extends s0 s' ->
     Q (match py_find xs x lo hi with Some i => inr (MP_OBJ_NEW_SMALL_INT i) | None => inl ValueError end) s') ->
  wp (xloop (S (Z.to_nat (hi - lo))) (fun i =>
        if i <? hi then
          y ←! safe (load_at (Item (items r) 0) i);
          e ←! mp_obj_equal y x;
          if e : bool then xret (inr (MP_OBJ_NEW_SMALL_INT i)) else xret (inl (i + 1))
        else raise ValueError) lo) s Q.
Proof.
  intros Ho He Hlo Hhi HQ.
  apply (wp_xloop (fun i s => lo <= i /\ extends s0 s /\ py_find xs x i hi = py_find xs x lo hi) (fun i => Z.to_nat (hi - i))); [|done|lia].
  intros i s1 (Hi & He1 & Hf). destruct (i <? hi) eqn:E; to_prop.
  - destruct (lookup_lt_is_Some_2 xs (Z.to_nat i)) as [y Hy]; [lia|].
    apply wp_xbind, wp_safe. eapply wp_load_extended; [done|done|lia|done|].
    apply wp_xbind. eapply wp_mono; [apply equal_law|]. intros e s2 [-> He2].
    unfold py_find in Hf at 1. rewrite (drop_S _ y) in Hf by done. replace (Z.to_nat (hi - i)) with (S (Z.to_nat (hi - (i + 1)))) in Hf by lia.
    cbn [take find_eq] in Hf. destruct (eqb y x).
    + apply wp_xret. specialize (HQ s2 ltac:(by etrans)). by rewrite <-Hf in HQ.
    + apply wp_xret. split; [|lia]. split; [lia|]. split; [by etrans|]. rewrite <-Hf. unfold py_find. do 3 f_equal. lia.
  - specialize (HQ s1 He1). rewrite <-Hf in HQ. unfold py_find in HQ. by replace (Z.to_nat (hi - i)) with 0%nat in HQ by lia.
Qed.

Definition py_index_method (v : gmap nat (list obj)) (xs : list obj) (x : obj) (start_stop : list obj) : outcome :=
  match py_bounds (Z.of_nat (length xs)) start_stop with
  | inl e => Raises e
  | inr (lo, hi) =>
      match py_find xs x lo hi with Some i => Returns (MP_OBJ_NEW_SMALL_INT i) v | None => Raises ValueError end
  end.

Lemma index_refines s v l xs x start_stop :
  rep s v -> v !! l = Some xs -> refines false v (py_index_method v xs x start_stop) (list_index (OList l) x start_stop) s.
Proof.
  intros Hr Hl. destruct (rep_list _ _ Hr l xs Hl) as (r & slack & Ho). pose proof (own_len _ _ _ _ _ Ho) as Hlen.
  pose proof (own_bounds _ _ _ _ _ Ho) as Hb. pose proof (own_alloc _ _ _ _ _ Ho) as Ha.
  unfold refines, list_index, py_index_method, py_bounds. apply wp_xbind, wp_xret, wp_xbind, wp_safe. eapply wp_get_list; [by apply Ho|].
  rewrite Hlen. set (n := Z.of_nat (length xs)). unfold mp_seq_index_obj.
  assert (Hend : forall e s', extends s s' -> meets false v (Raises e) (inl e) s') by (intros e s' He; split; [done|by eapply rep_extends]).
  apply wp_xbind. set (lo := match start_stop with a :: _ => py_bound n a | [] => inr 0 end).
  assert (Hlo : wp match start_stop with [] => xret 0 | a :: _ => mp_get_index n a true end s (fun r s' => r = lo /\ extends s s')).
  { unfold lo. destruct start_stop; [by apply wp_xret|]. apply wp_get_index; [lia|]. done. }
  assert (Hlor : forall i, lo = inr i -> 0 <= i <= n).
  { unfold lo. intros i. destruct start_stop; [intros [= <-]; lia|]. apply py_bound_range. lia. }
  eapply wp_mono; [exact Hlo|]. clear Hlo. intros r1 s1 [-> He1]. destruct lo as [e|lo]; [left; by apply Hend|].
  apply wp_xbind. set (hi := match start_stop with _ :: b :: _ => py_bound n b | _ => inr n end).
  assert (Hhi : wp match start_stop with _ :: b :: _ => mp_get_index n b true | _ => xret n end s1 (fun r s' => r = hi /\ extends s1 s')).
  { unfold hi. destruct start_stop as [|? [|]]; [by apply wp_xret|by apply wp_xret|]. apply wp_get_index; [lia|]. done. }
  assert (Hhir : forall i, hi = inr i -> 0 <= i <= n).
  { unfold hi. intros i. destruct start_stop as [|? [|]]; [intros [= <-]; lia|intros [= <-]; lia|]. apply py_bound_range. lia. }
  eapply wp_mono; [exact Hhi|]. clear Hhi. intros r2 s2 [-> He2].
  assert (extends s s2) as He by by etrans. destruct hi as [e|hi]; [left; by apply Hend|].
  specialize (Hlor lo eq_refl). specialize (Hhir hi eq_refl).
  eapply wp_find_loop; [done|done|lia|lia|]. intros s' He'. left.
  destruct (py_find xs x lo hi); [split; [done|by eapply rep_extends]|by apply Hend].
Qed.

(** [xs.remove(x)] *)
Lemma int_of_new_small n : - 2 ^ 30 <= n < 2 ^ 30 -> int_of (MP_OBJ_NEW_SMALL_INT n) = inr (Some n).
Proof.
  intros Hn. unfold MP_OBJ_NEW_SMALL_INT, int_of. do 2 f_equal. unfold MP_OBJ_SMALL_INT_VALUE, uwrap.
  rewrite shiftl_mul, shiftr_div by lia. change (2 ^ 1) with 2. rewrite Z.mul_mod_idemp_l by lia.
  assert (Z.lor ((n * 2) mod 2 ^ 32) 1 = (n * 2) mod 2 ^ 32 + 1) as ->.
  { rewrite (Z.div_mod (n * 2) 2) at 1 2 by lia. rewrite Z.mod_mul, Z.add_0_r by lia.
    change (2 ^ 32) with (2 * 2 ^ 31). rewrite Z.mul_mod_distr_l by lia. rewrite (Z.mul_comm 2).
    apply (lor_add_disjoint 1); lia. }
  unfold swrap.
  replace ((n * 2) mod 2 ^ 32 + 1 + 2 ^ (32 - 1)) with (1 + 2 ^ (32 - 1) + (n * 2) mod 2 ^ 32) by lia.
  rewrite Z.add_mod_idemp_r by lia. rewrite Z.mod_small by lia.
  replace (1 + 2 ^ (32 - 1) + n * 2 - 2 ^ (32 - 1)) with (1 + n * 2) by lia. rewrite Z.div_add by lia. done.
Qed.

Lemma remove_refines s v l xs x :
  rep s v -> v !! l = Some xs ->
  refines true v (match py_find xs x 0 (Z.of_nat (length xs)) with
             | Some i => Returns ONone (<[l := delete (Z.to_nat i) xs]> v)
             | None => Raises ValueError
             end) (mp_obj_list_remove (OList l) x) s.
Proof.
  intros Hr Hl. unfold refines, mp_obj_list_remove. apply wp_xbind.
  destruct (rep_list _ _ Hr l xs Hl) as (r & slack & Ho). pose proof (own_bounds _ _ _ _ _ Ho) as Hb.
  pose proof (own_alloc _ _ _ _ _ Ho) as Ha. unfold max_items in Hb.
  eapply wp_mono; [by apply index_refines|]. unfold py_index_method, py_bounds.
  intros r1 s1 [Hm|[-> Hr1]]; [|by right]. destruct (py_find _ _ _ _) as [i|] eqn:Ef; destruct Hm as [Hm Hr1]; [|subst r1; by left].
  destruct Hm as [|Hk]; [|by right].
  apply wp_xbind. eapply wp_mono; [by apply pop_refines|]. unfold py_pop.
  apply find_eq_range in Ef. rewrite length_take, length_drop in Ef.
  assert (py_index (Z.of_nat (length xs)) (MP_OBJ_NEW_SMALL_INT i) = inr i) as ->.
  { unfold py_index. rewrite int_of_new_small by lia. cbv zeta. rewrite (proj2 (Z.ltb_ge i 0)) by lia. by rewrite bool_decide_true by lia. }
  destruct (Z.of_nat (length xs) =? 0) eqn:E0; to_prop; [lia|].
  destruct (lookup_lt_is_Some_2 xs (Z.to_nat i)) as [y Hy]; [lia|]. rewrite Hy.
  intros r2 s2 [[[|Hk] Hr2]|[-> Hr2]]; [by left|left; split; [by constructor|done]|by right].
Qed.

(** [xs.count(x)] *)
Lemma count_refines s v l xs x :
  rep s v -> v !! l = Some xs ->
  refines false v (Returns (MP_OBJ_NEW_SMALL_INT (Z.of_nat (length (filter (fun y => eqb y x = true) xs)))) v) (list_count (OList l) x) s.
Proof.
  intros Hr Hl. destruct (rep_list _ _ Hr l xs Hl) as (r & slack & Ho). pose proof (own_len _ _ _ _ _ Ho) as Hlen.
  pose proof (own_bounds _ _ _ _ _ Ho) as Hb. pose proof (own_alloc _ _ _ _ _ Ho) as Ha. unfold max_items in Hb.
  unfold refines, list_count. apply wp_xbind, wp_xret, wp_xbind, wp_safe. eapply wp_get_list; [by apply Ho|].
  unfold mp_seq_count_obj. apply wp_xbind. rewrite Hlen.
  apply (wp_xloop (fun '(i, c) s' => 0 <= i <= Z.of_nat (length xs) /\ extends s s' /\ 
      c = Z.of_nat (length (filter (fun y => eqb y x = true) (take (Z.to_nat i) xs)))) (fun '(i, c) => Z.to_nat (Z.of_nat (length xs) - i))).
  - intros [i c] s1 (Hi & He1 & Hc). destruct (i <? _) eqn:E; to_prop.
    + destruct (lookup_lt_is_Some_2 xs (Z.to_nat i)) as [y Hy]; [lia|].
      apply wp_xbind, wp_safe. eapply wp_load_extended; [done|done|lia|done|].
      apply wp_xbind. eapply wp_mono; [apply equal_law|]. intros e s2 [-> He2]. apply wp_xret. split; [|lia].
      split; [lia|]. split; [by etrans|]. replace (Z.to_nat (i + 1)) with (S (Z.to_nat i)) by lia.
      rewrite (take_S_r _ _ y) by done. rewrite filter_app, length_app, filter_cons, filter_nil.
      pose proof (length_filter (fun y => eqb y x = true) (take (Z.to_nat i) xs)) as Hf. rewrite length_take in Hf.
      destruct (eqb y x); [rewrite decide_True by done; rewrite uwrap_small by lia|rewrite decide_False by done]; cbn [length]; lia.
    + apply wp_xret, wp_xret. left. rewrite take_ge in Hc by lia. rewrite <-Hc. split; [done|by eapply rep_extends].
  - split; [lia|]. split; [done|]. done.
  - lia.
Qed.

(** ** Comparing *)

(** [xs > ys], or [xs >= ys] if not [strict]: decided by the first items that
    are not equal, or else by the lengths. *)
Fixpoint lex (strict : bool) (gt : obj -> obj -> bool) (xs ys : list obj) : bool :=
  match xs, ys with
  | [], [] => negb strict
  | [], _ :: _ => false
  | _ :: _, [] => true
  | x :: xs, y :: ys => if eqb x y then lex strict gt xs ys else gt x y
  end.

Fixpoint all_equal (xs ys : list obj) : bool :=
  match xs, ys with
  | [], [] => true
  | x :: xs, y :: ys => eqb x y && all_equal xs ys
  | _, _ => false
  end.

(** An operator holds when its answer is [True] itself. *)
Definition holds (op : mp_binary_op_t) (x y : obj) : bool := is_const_bool true (op_result op x y).

Definition py_compare (op : mp_binary_op_t) (xs ys : list obj) : bool :=
  match op with
  | LESS => lex true (holds MORE) ys xs
  | LESS_EQUAL => lex false (holds MORE_EQUAL) ys xs
  | MORE => lex true (holds MORE) xs ys
  | MORE_EQUAL => lex false (holds MORE_EQUAL) xs ys
  | _ => all_equal xs ys
  end.

(** The loop for the operators that are left: [==], [>] and [>=]. *)
Definition cmp_value (op : mp_binary_op_t) (xs ys : list obj) : bool :=
  match op with MORE => lex true (holds MORE) xs ys | MORE_EQUAL => lex false (holds MORE_EQUAL) xs ys | _ => all_equal xs ys end.

Definition cmp_op (op : mp_binary_op_t) : Prop := op = EQUAL \/ op = MORE \/ op = MORE_EQUAL.

Lemma cmp_value_cons op x y xs ys : cmp_op op ->
  cmp_value op (x :: xs) (y :: ys) = if eqb x y then cmp_value op xs ys else if op_eqb op EQUAL then false else holds op x y.
Proof. intros [-> | [-> | ->]]; cbn; by destruct (eqb x y). Qed.

Lemma cmp_value_nil op xs ys : cmp_op op -> xs = [] \/ ys = [] ->
  cmp_value op xs ys =
  if negb (Z.of_nat (length xs) =? Z.of_nat (length ys)) then negb (op_eqb op EQUAL) && negb (Z.of_nat (length xs) <? Z.of_nat (length ys))
  else if op_eqb op MORE then false else true.
Proof. intros [-> | [-> | ->]] [-> | ->]; destruct xs || destruct ys; done. Qed.

Lemma wp_cmp_loop s0 s op l1 r1 xs sl1 l2 r2 ys sl2 (Q : exn + bool -> heap_t W -> Prop) :
  cmp_op op -> (op = EQUAL -> length xs = length ys) -> owns s0 l1 r1 xs sl1 -> owns s0 l2 r2 ys sl2 -> extends s0 s ->
  (forall s', extends s0 s' -> Q (inr (cmp_value op xs ys)) s') ->
  let len1 := Z.of_nat (length xs) in let len2 := Z.of_nat (length ys) in
  let n := if len1 <? len2 then len1 else len2 in
  wp (xloop (S (Z.to_nat n)) (fun i =>
      if i <? n then
        x1 ←! safe (load_at (Item (items r1) 0) i);
        x2 ←! safe (load_at (Item (items r2) 0) i);
        e ←! mp_obj_equal x1 x2;
        if e : bool then xret (inl (i + 1))
        else if op_eqb op EQUAL then xret (inr false)
        else r ←! mp_binary_op op x1 x2; xret (inr (is_const_bool true r))
      else if negb (len1 =? len2) then xret (inr (negb (len1 <? len2)))
      else if op_eqb op MORE then xret (inr false)
      else xret (inr true)) 0) s Q.
Proof.
  intros Hop Heq Ho1 Ho2 He HQ len1 len2 n. assert (n = Z.min len1 len2) as Hn by (unfold n; case_bool; to_prop; lia).
  apply (wp_xloop (fun i s => 0 <= i <= n /\ extends s0 s /\
      cmp_value op (drop (Z.to_nat i) xs) (drop (Z.to_nat i) ys) = cmp_value op xs ys) (fun i => Z.to_nat (n - i))).
  - intros i s1 (Hi & He1 & Hv). destruct (i <? n) eqn:E; to_prop.
    + destruct (lookup_lt_is_Some_2 xs (Z.to_nat i)) as [x Hx]; [lia|]. destruct (lookup_lt_is_Some_2 ys (Z.to_nat i)) as [y Hy]; [lia|].
      apply wp_xbind, wp_safe. eapply (wp_load_extended s0); [exact Ho1|done|lia|done|].
      apply wp_xbind, wp_safe. eapply (wp_load_extended s0); [exact Ho2|done|lia|done|].
      apply wp_xbind. eapply wp_mono; [apply equal_law|]. intros e s2 [-> He2]. assert (extends s0 s2) as He02 by by etrans.
      rewrite (drop_S xs x _ Hx), (drop_S ys y _ Hy), (cmp_value_cons _ _ _ _ _ Hop) in Hv. destruct (eqb x y).
      * apply wp_xret. replace (Z.to_nat (i + 1)) with (S (Z.to_nat i)) by lia. split; [|lia]. split; [lia|done].
      * destruct (op_eqb op EQUAL); [apply wp_xret; rewrite Hv; by apply HQ|].
        apply wp_xbind. eapply wp_mono; [apply binary_law|]. intros r s3 [-> He3]. apply wp_xret. fold (holds op x y). rewrite Hv.
        apply HQ. by etrans.
    + assert (i = n) as -> by lia. specialize (HQ s1 He1). rewrite <-Hv in HQ.
      rewrite cmp_value_nil, !length_drop in HQ; [|done|].
      2: { destruct (decide (len1 <= len2)); [left|right]; apply drop_ge; lia. }
      assert (Z.of_nat (length xs - Z.to_nat n) = len1 - n /\ Z.of_nat (length ys - Z.to_nat n) = len2 - n) as [E1 E2] by lia.
      rewrite E1, E2 in HQ. clear E1 E2.
      assert ((len1 - n =? len2 - n) = (len1 =? len2)) as E1 by (destruct (len1 =? len2) eqn:E1; to_prop; [apply Z.eqb_eq|apply Z.eqb_neq]; lia).
      assert ((len1 - n <? len2 - n) = (len1 <? len2)) as E2 by (destruct (len1 <? len2) eqn:E2; to_prop; [apply Z.ltb_lt|apply Z.ltb_ge]; lia).
      rewrite E1, E2 in HQ. destruct (len1 =? len2) eqn:E3; cbn [negb] in *; to_prop.
      * by destruct (op_eqb op MORE).
      * destruct (op_eqb op EQUAL) eqn:E4; [|done]. unfold op_eqb in E4. apply bool_decide_eq_true in E4. specialize (Heq E4). lia.
  - split; [lia|]. by rewrite !drop_0.
  - lia.
Qed.

Definition is_comparison (op : mp_binary_op_t) : Prop :=
  match op with EQUAL | LESS | LESS_EQUAL | MORE | MORE_EQUAL => True | _ => False end.

Lemma all_equal_length xs : forall ys, length xs <> length ys -> all_equal xs ys = false.
Proof. induction xs as [|x xs IH]; intros [|y ys] Hl; cbn in *; try done. rewrite IH by lia. apply andb_false_r. Qed.

Lemma compare_refines fuel s v op l m xs ys :
  is_comparison op -> rep s v -> v !! l = Some xs -> v !! m = Some ys ->
  refines false v (Returns (OBool (py_compare op xs ys)) v) (list_binary_op fuel op (OList l) (OList m)) s.
Proof.
  intros Hop Hr Hl Hm. destruct (rep_list _ _ Hr l xs Hl) as (r1 & sl1 & Ho1). destruct (rep_list _ _ Hr m ys Hm) as (r2 & sl2 & Ho2).
  pose proof (own_len _ _ _ _ _ Ho1) as L1. pose proof (own_len _ _ _ _ _ Ho2) as L2.
  unfold refines, list_binary_op. apply wp_xbind, wp_xret, wp_xbind, wp_safe. eapply wp_get_list; [by apply Ho1|].
  assert (wp (another ←! safe (get_list m);
       res ←! mp_seq_cmp_objs op (Item (items r1) 0) (len r1) (Item (items another) 0) (len another); xret (mp_obj_new_bool res)) s
    (fun r s' => meets false v (Returns (OBool (py_compare op xs ys)) v) r s' \/ (r = inl MemoryError /\ rep s' v))); [|by destruct op].
  apply wp_xbind, wp_safe. eapply wp_get_list; [by apply Ho2|]. apply wp_xbind. rewrite L1, L2. unfold mp_seq_cmp_objs.
  assert (Hend : forall s' b, extends s s' -> b = py_compare op xs ys ->
    wp (xret (mp_obj_new_bool b)) s' (fun r s' => meets false v (Returns (OBool (py_compare op xs ys)) v) r s' \/ (r = inl MemoryError /\ rep s' v))).
  { intros s' b He ->. apply wp_xret. left. split; [done|by eapply rep_extends]. }
  destruct op; try done.
  - eapply wp_cmp_loop; [by right; left|done|exact Ho2|exact Ho1|done|]. intros s' He. by apply Hend.
  - eapply wp_cmp_loop; [by right; left|done|exact Ho1|exact Ho2|done|]. intros s' He. by apply Hend.
  - match goal with |- wp (if ?b then _ else _) _ _ => destruct b eqn:E end; change (op_eqb EQUAL EQUAL) with true in E; cbn [andb] in E; to_prop.
    + apply wp_xret, Hend; [done|]. symmetry. apply all_equal_length. lia.
    + eapply wp_cmp_loop; [by left|lia|exact Ho1|exact Ho2|done|]. intros s' He. by apply Hend.
  - eapply wp_cmp_loop; [by right; right|done|exact Ho2|exact Ho1|done|]. intros s' He. by apply Hend.
  - eapply wp_cmp_loop; [by right; right|done|exact Ho1|exact Ho2|done|]. intros s' He. by apply Hend.
Qed.

End Search.

(** ** Lists: the operations that make a list *)

Section Make.
Context {W : Type} `{!ListHeap W, !Runtime W, !RuntimeLaws W, !ListHeapLaws W}.
Implicit Types s : heap_t W.

(** What a function that makes a list knows after [list_new]: the list may be
    worked on, and the lists there were can be read. *)
Record made s v n s1 (o : nat) (r : mp_obj_list_t) (zs : list obj) : Prop := {
  md_name : v !! o = None;
  md_bound : 0 <= n <= max_items;
  md_len : len r = n;
  md_room : n <= Z.of_nat (length zs);
  md_grows : grows s s1;
  md_working : working s1 o r r zs s1;
  md_put : forall ys s', holding s1 o r ys s' -> rep s' (<[o := ys]> v);
  md_fresh : lists s !! o = None /\ arrays s !! items r = None;
}.

Lemma wp_new_rep s v n (Q : exn + nat -> heap_t W -> Prop) :
  rep s v -> 0 <= n < 2 ^ 30 -> (forall s', rep s' v -> Q (inl MemoryError) s') ->
  (forall s1 o r zs, made s v n s1 o r zs -> Q (inr o) s1) -> wp (list_new n) s Q.
Proof.
  intros Hr Hn Hfail HQ. apply wp_list_new; [by eapply rep_fresh|done| |].
  - intros s' [He _]. apply Hfail. by eapply rep_extends.
  - intros s1 o r xs slack Hm Hlen Ho Hg Hlo Hao. destruct (rep_new _ _ _ _ _ _ _ Hr Hg Ho Hlo Hao) as [Hv Hr1].
    apply (HQ s1 o r (xs ++ slack)).
    split; [done|lia|rewrite <-Hlen; by apply Ho|rewrite length_app; lia|done|by apply working_start| |done].
    intros ys s' Hh. pose proof (rep_holding _ _ _ _ _ _ _ _ Hr1 (lookup_insert_eq _ _ _) Ho Hh) as H.
    by rewrite insert_insert_eq in H.
Qed.

(** The lists there were, while a new one is worked on. *)
Lemma source_kept s v n s1 o r zs r' zs' s' l rl xs sl :
  made s v n s1 o r zs -> working s1 o r r' zs' s' -> owns s l rl xs sl -> owns s' l rl xs sl /\ items rl <> items r'.
Proof.
  intros Hmd Hw Ho. destruct (md_fresh _ _ _ _ _ _ _ Hmd) as [Hlo Hao].
  assert (l <> o) as Hne by (intros ->; apply own_list in Ho; congruence).
  assert (items rl <> items r) as Hni by (intros Hi; apply own_items in Ho; congruence).
  assert (owns s1 l rl xs sl) as Ho1 by (eapply owns_extends; [done|by apply (md_grows _ _ _ _ _ _ _ Hmd)]).
  split; [by eapply owns_changes; [apply Hw| | |]|]. intros Hi.
  destruct (wk_name _ _ _ _ _ _ Hw) as [Hn|Hn]; [congruence|]. rewrite <-Hi, (own_items _ _ _ _ _ Ho1) in Hn. done.
Qed.

(** When memory runs out while the new list is worked on, it is forgotten. *)
Lemma made_forget s v n s1 o r zs ys s' : made s v n s1 o r zs -> holding s1 o r ys s' -> rep s' v.
Proof.
  intros Hmd Hh. eapply rep_subseteq; [by apply (md_put _ _ _ _ _ _ _ Hmd)|]. apply insert_subseteq. by eapply md_name.
Qed.

Lemma made_result s v n s1 o r zs ys s' : made s v n s1 o r zs -> holding s1 o r ys s' -> meets false v (NewList ys) (inr (OList o)) s'.
Proof. intros Hmd Hh. exists o. split; [by eapply md_name|]. split; [done|]. by apply (md_put _ _ _ _ _ _ _ Hmd). Qed.

Lemma new_empty_refines s v : rep s v -> refines false v (NewList []) (mp_obj_new_list 0 NULL) s.
Proof.
  intros Hr. unfold refines, mp_obj_new_list. apply wp_xbind. eapply wp_new_rep; [done|lia|by right|].
  intros s1 o r zs Hmd. apply wp_xbind, wp_xret, wp_xret. left. eapply made_result; [done|].
  exists r, zs. split; [by eapply md_working|by eapply md_len].
Qed.

(** [for (size_t i = 0; i < n; i++) o->items[i] = items[i];] *)
Lemma copy_refines s v l xs :
  rep s v -> v !! l = Some xs -> refines false v (NewList xs) (list_copy (OList l)) s.
Proof.
  intros Hr Hl. destruct (rep_list _ _ Hr l xs Hl) as (r & slack & Ho). pose proof (own_len _ _ _ _ _ Ho) as Hlen.
  pose proof (own_bounds _ _ _ _ _ Ho) as Hb. pose proof (own_alloc _ _ _ _ _ Ho) as Ha. unfold max_items in Hb.
  unfold refines, list_copy. apply wp_xbind, wp_xret, wp_xbind, wp_safe. eapply wp_get_list; [by apply Ho|].
  unfold mp_obj_new_list. apply wp_xbind. eapply wp_new_rep; [done|lia|by right|]. intros s1 o r1 zs Hmd.
  pose proof (md_room _ _ _ _ _ _ _ Hmd) as Hroom. rewrite Hlen in *.
  apply wp_xbind, wp_safe. rewrite Nat2Z.id.
  apply (wp_for_up (fun i s => 0 <= i /\ exists rest, working s1 o r1 r1 (take (Z.to_nat i) xs ++ rest) s /\
    Z.of_nat (length rest) = Z.of_nat (length zs) - i)).
  - split; [lia|]. exists zs. cbn. split; [by eapply md_working|lia].
  - intros i s2 Hi (_ & rest & Hw & Hrest). destruct (lookup_lt_is_Some_2 xs (Z.to_nat i)) as [x Hx]; [lia|].
    apply wp_bind. eapply wp_get_working; [exact Hw|]. apply wp_bind. cbn [load_at].
    destruct (source_kept _ _ _ _ _ _ _ _ _ _ _ _ _ _ Hmd Hw Ho) as [Ho2 _].
    eapply wp_load_block; [by apply Ho2|lia|by apply lookup_app_l_Some|].
    destruct rest as [|y rest]; [cbn in Hrest; lia|].
    eapply wp_store_at; [exact Hw|done|rewrite length_take_le; lia|]. intros s3 Hw3. split; [lia|]. exists rest.
    replace (Z.to_nat (i + 1)) with (S (Z.to_nat i)) by lia. rewrite (take_S_r _ _ x), <-app_assoc by done.
    split; [done|]. cbn in Hrest. lia.
  - intros s2 (_ & rest & Hw & Hrest). apply wp_xret. left. eapply made_result; [done|]. exists r1, rest. rewrite take_ge in Hw by lia. split; [done|].
    rewrite (md_len _ _ _ _ _ _ _ Hmd). lia.
Qed.

(** ** Sums, products and contiguous slices *)

Lemma add_refines fuel s v l m xs ys :
  rep s v -> v !! l = Some xs -> v !! m = Some ys ->
  refines false v (NewList (xs ++ ys)) (list_binary_op fuel (PLAIN ADD) (OList l) (OList m)) s.
Proof.
  intros Hr Hl Hm. destruct (rep_list _ _ Hr l xs Hl) as (r & slack & Ho). destruct (rep_list _ _ Hr m ys Hm) as (rm & slm & Hom).
  pose proof (own_len _ _ _ _ _ Ho) as Hlen. pose proof (own_len _ _ _ _ _ Hom) as Hlm.
  pose proof (own_bounds _ _ _ _ _ Ho) as Hb. pose proof (own_bounds _ _ _ _ _ Hom) as Hbm. unfold max_items in Hb, Hbm.
  pose proof (own_alloc _ _ _ _ _ Ho) as Ha. pose proof (own_alloc _ _ _ _ _ Hom) as Ham.
  unfold refines, list_binary_op. apply wp_xbind, wp_xret, wp_xbind, wp_safe. eapply wp_get_list; [by apply Ho|].
  apply wp_xbind, wp_safe. eapply wp_get_list; [by apply Hom|]. apply wp_xbind. rewrite uwrap_small by lia.
  eapply wp_new_rep; [done|lia|by right|]. intros s1 o r1 zs Hmd.
  pose proof (md_room _ _ _ _ _ _ _ Hmd) as Hroom. pose proof (md_working _ _ _ _ _ _ _ Hmd) as Hw.
  destruct (source_kept _ _ _ _ _ _ _ _ _ _ _ _ _ _ Hmd Hw Ho) as [[L1 L2 _ _ _] L4].
  destruct (source_kept _ _ _ _ _ _ _ _ _ _ _ _ _ _ Hmd Hw Hom) as [[M1 M2 _ _ _] M4].
  apply wp_xbind, wp_safe, wp_bind. eapply wp_get_working; [exact Hw|]. apply wp_bind. eapply wp_get_list; [done|].
  apply wp_bind. eapply wp_get_list; [done|]. apply wp_bind.
  eapply (wp_memcpy _ _ _ _ _ _ _ _ _ xs); [exact Hw|done|by left|lia|lia|lia|done| |].
  { exists (xs ++ slack). split; [done|]. rewrite length_app. split; [lia|]. cbn. rewrite drop_0, (length_nat_of xs) by lia. apply take_length_app. }
  intros s2 Hw2. change (Z.to_nat 0) with 0%nat in Hw2. rewrite take_0, app_nil_l, Z.add_0_l, (length_nat_of xs (len r)) in Hw2 by lia.
  eapply (wp_memcpy _ _ _ _ _ _ _ _ _ ys); [exact Hw2|done|by left|lia|rewrite length_app, length_drop; lia|lia|done| |].
  { exists (ys ++ slm). split; [by eapply ch_arrays; [apply Hw2| |]|]. rewrite length_app. split; [lia|]. cbn.
    rewrite drop_0, (length_nat_of ys) by lia. apply take_length_app. }
  intros s3 Hw3. apply wp_xret. left. eapply made_result; [done|]. eexists r1, _. rewrite (length_nat_of xs), take_length_app, app_assoc in Hw3 by lia.
  split; [exact Hw3|]. rewrite (md_len _ _ _ _ _ _ _ Hmd), length_app. lia.
Qed.

Lemma wp_multiply_loop s v n s1 o r zs l rl sl xs times (Q : unit -> heap_t W -> Prop) :
  made s v n s1 o r zs -> owns s l rl xs sl -> 0 <= times -> n = Z.of_nat (length xs) * times ->
  (forall s', holding s1 o r (concat (replicate (Z.to_nat times) xs)) s' -> Q tt s') ->
  wp (mp_seq_multiply (Item (items rl) 0) (Z.of_nat (length xs)) times (items r)) s1 Q.
Proof.
  intros Hmd Ho Ht Hn HQ. pose proof (md_room _ _ _ _ _ _ _ Hmd) as Hroom.
  pose proof (own_bounds _ _ _ _ _ Ho) as Hxs. pose proof (own_alloc _ _ _ _ _ Ho) as Ha. unfold max_items in Hxs.
  unfold mp_seq_multiply. rewrite uwrap_small, (Z.mul_comm 4), Z.div_mul by lia.
  assert (Hcat : forall k, Z.of_nat (length (concat (replicate k xs))) = Z.of_nat k * Z.of_nat (length xs)).
  { induction k; [done|]. cbn [replicate concat]. rewrite length_app. lia. }
  apply (wp_for_up (fun i s => 0 <= i /\ exists rest, working s1 o r r (concat (replicate (Z.to_nat i) xs) ++ rest) s)).
  - split; [lia|]. exists zs. by eapply md_working.
  - intros i s2 Hi (_ & rest & Hw).
    pose proof (Hcat (Z.to_nat i)) as Hk. remember (concat (replicate (Z.to_nat i) xs)) as pre eqn:Epre.
    assert (Z.of_nat (length (pre ++ rest)) = Z.of_nat (length zs)) as Hlen.
    { rewrite <-(wk_alloc _ _ _ _ _ _ Hw). apply (wk_alloc _ _ _ _ _ _ (md_working _ _ _ _ _ _ _ Hmd)). }
    destruct (source_kept _ _ _ _ _ _ _ _ _ _ _ _ _ _ Hmd Hw Ho) as [[L1 L2 _ _ _] L4].
    eapply (wp_memcpy _ _ _ _ _ _ _ _ _ xs); [exact Hw|done|by left|nia| |lia|done| |].
    + rewrite Hlen. nia.
    + exists (xs ++ sl). split; [done|]. rewrite length_app. split; [lia|]. cbn. rewrite drop_0, Nat2Z.id. apply take_length_app.
    + intros s3 Hw3. split; [lia|]. rewrite (length_nat_of pre), take_length_app in Hw3 by lia.
      replace (Z.to_nat (i + 1)) with (Z.to_nat i + 1)%nat by lia. rewrite replicate_add, concat_app, <-Epre.
      cbn [replicate concat]. rewrite app_nil_r. eexists. rewrite <-app_assoc. exact Hw3.
  - intros s2 (_ & rest & Hw). apply HQ. eexists r, rest. replace (0 + Z.of_nat (Z.to_nat times)) with times in Hw by lia.
    split; [done|]. rewrite (md_len _ _ _ _ _ _ _ Hmd), Hcat. lia.
Qed.

Lemma multiply_refines fuel s v l xs rhs :
  rep s v -> v !! l = Some xs ->
  (forall n, int_of rhs = inr (Some n) -> Z.of_nat (length xs) * n < 2 ^ 30) ->
  refines false v (match int_of rhs with
             | inl e => Raises e
             | inr None => Returns ONull v
             | inr (Some n) => NewList (concat (replicate (Z.to_nat n) xs))
             end) (list_binary_op fuel (PLAIN MULTIPLY) (OList l) rhs) s.
Proof.
  intros Hr Hl Hsmall. destruct (rep_list _ _ Hr l xs Hl) as (r0 & slack0 & Ho0).
  unfold refines, list_binary_op. apply wp_xbind, wp_xret, wp_xbind, wp_safe. eapply wp_get_list; [by apply Ho0|].
  apply wp_xbind, wp_int_maybe. intros s1 He. assert (Hr1 : rep s1 v) by by eapply rep_extends.
  destruct (int_of rhs) as [e|[n|]]; [by left| |by left]. specialize (Hsmall n eq_refl).
  destruct (rep_list _ _ Hr1 l xs Hl) as (r & slack & Ho). pose proof (own_len _ _ _ _ _ Ho) as Hlen.
  cbv zeta. set (times := if n <? 0 then 0 else n).
  assert (0 <= times /\ Z.to_nat n = Z.to_nat times /\ 0 <= Z.of_nat (length xs) * times < 2 ^ 30) as (Ht & -> & Hb).
  { unfold times. case_bool; to_prop; nia. }
  apply wp_xbind, wp_safe. eapply wp_get_list; [by apply Ho|]. rewrite Hlen, uwrap_small by lia.
  apply wp_xbind. eapply wp_new_rep; [done|done|by right|]. intros s2 o r1 zs Hmd.
  pose proof (md_working _ _ _ _ _ _ _ Hmd) as Hw. destruct (source_kept _ _ _ _ _ _ _ _ _ _ _ _ _ _ Hmd Hw Ho) as [Ho2 _].
  apply wp_xbind, wp_safe, wp_bind. eapply wp_get_list; [by apply Ho2|]. apply wp_bind. eapply wp_get_working; [exact Hw|].
  rewrite Hlen. eapply wp_multiply_loop; [done|done|done|done|]. intros s3 Hh. apply wp_xret. left. by eapply made_result.
Qed.

(** ** Lists from iterables

    [I ys s]: in state [s] the iterator [it] has the items [ys] to come. *)

Section Iterate.
Context (v : gmap nat (list obj)) (l : nat) (it : obj) (I : list obj -> heap_t W -> Prop).
Hypothesis next_law : forall acc ys s, rep s (<[l := acc]> v) -> I ys s ->
  wp (mp_iternext it) s (fun r s' => extends s s' /\
    match ys with [] => r = inr MP_OBJ_STOP_ITERATION | y :: ys' => r = inr y /\ y <> ONull /\ I ys' s' end).
Hypothesis stable : forall ys s s', I ys s -> world s' = world s -> iters s' = iters s -> I ys s'.

Lemma wp_extend_loop fuel xs ys s (Q : exn + obj -> heap_t W -> Prop) :
  rep s (<[l := xs]> v) -> I ys s -> (length ys < fuel)%nat ->
  (forall s' k, rep s' (<[l := xs ++ take k ys]> v) -> Q (inl MemoryError) s') ->
  (forall s', rep s' (<[l := xs ++ ys]> v) -> Q (inr (OList l)) s') ->
  wp (xloop fuel (fun _ : unit =>
        item ←! mp_iternext it;
        if is_null item then xret (inr (OList l))
        else mp_obj_list_append (OList l) item;;! xret (inl tt)) tt) s Q.
Proof using next_law stable ListHeapLaws0.
  revert xs ys s. induction fuel as [|fuel IH]; intros xs ys s Hr HI Hfuel Hfail HQ; [lia|].
  unfold xloop. cbn [loop]. apply wp_bind, wp_bind, wp_xbind. eapply wp_mono; [by eapply next_law|].
  intros r s1 [He Hn]. assert (Hr1 : rep s1 (<[l := xs]> v)) by by eapply rep_extends.
  destruct ys as [|y ys].
  - subst r. apply wp_xret, wp_ret, wp_ret, HQ. by rewrite app_nil_r.
  - destruct Hn as (-> & Hy & HI1). destruct (is_null y) eqn:E; [by destruct y|].
    destruct (rep_hold _ _ _ _ Hr1 (lookup_insert_eq _ _ _)) as (r0 & Hh & Hput).
    apply wp_xbind. eapply wp_append_holding; [done|by eapply rep_fresh|apply wp_ret, wp_ret, (Hfail _ 0%nat); by rewrite app_nil_r|].
    intros s2 Hh2. apply wp_xret, wp_ret. specialize (Hput _ _ Hh2). rewrite insert_insert_eq in Hput.
    destruct Hh2 as (r2 & sl2 & Hw2 & _). pose proof (wk_changes _ _ _ _ _ _ Hw2) as Hc.
    cbn [length] in Hfuel. apply (IH (xs ++ [y]) ys).
    + done.
    + eapply stable; [done|apply Hc|apply Hc].
    + lia.
    + intros s' k Hk. apply (Hfail s' (S k)). by rewrite <-app_assoc in Hk.
    + intros s' Hk. apply HQ. by rewrite <-app_assoc in Hk.
Qed.

End Iterate.

(** [list(ys)] for a list: its iterator. *)
Lemma make_new_refines fuel s v m ys :
  rep s v -> v !! m = Some ys -> Forall (fun y => y <> ONull) ys -> (length ys < fuel)%nat ->
  refines false v (NewList ys) (mp_obj_list_make_new fuel [OList m] 0) s.
Proof.
  intros Hr Hm Hnn Hfuel. unfold refines, mp_obj_list_make_new. cbn [negb Z.eqb].
  apply wp_xbind. eapply wp_mono; [by apply new_empty_refines|]. intros r0 s1 [(l & Hv & -> & Hr1)|[-> Hr1]]; [|by right].
  unfold list_extend_from_iter. apply wp_xbind. cbn [mp_getiter]. unfold m_new_obj. apply wp_xbind, wp_bind.
  unfold wp at 1, get. assert (rep s1 v) as Hr1v by (eapply rep_subseteq; [done|by apply insert_subseteq]).
  destruct (malloc_ok s1 16); [|by right]. apply wp_safe. unfold wp at 1, fresh_id. apply wp_safe.
  unfold list_getiter, mp_obj_new_list_iterator. apply wp_bind, wp_modify, wp_ret. set (i := next s1). set (s2 := put_iter _ _ _).
  assert (extends s1 s2) as He.
  { split; cbn; [done|done|lia|]. intros [F1 F2 F3 F4].
    split; cbn; [lia|done|intros n Hn; apply F3; lia|intros n Hn; apply F4; lia]. }
  assert (m <> l) as Hne by congruence.
  eapply (wp_extend_loop v l (OIter i) (fun zs s => exists k, iters s !! i = Some (MkIt (OList m) (Z.of_nat k)) /\ zs = drop k ys)).
  - intros acc zs sa Hacc (k & Hit & ->). destruct (rep_list _ _ Hacc m ys) as (r & sl & Ho); [by rewrite lookup_insert_ne|].
    pose proof (own_len _ _ _ _ _ Ho) as Hlen. pose proof (own_alloc _ _ _ _ _ Ho) as Ha. pose proof (own_bounds _ _ _ _ _ Ho) as Hb.
    unfold max_items in Hb. cbn [mp_iternext]. apply wp_safe. unfold wp, list_it_iternext. rewrite Hit. cbn [it_list it_cur].
    change (wp (r ← get_list m;
       if Z.of_nat k <? len r then
         x ← load (items r) (Z.of_nat k); modify (put_iter i (MkIt (OList m) (u32 (Z.of_nat k + 1))));; mret x
       else mret MP_OBJ_STOP_ITERATION) sa (fun o s' => extends sa s' /\
         match drop k ys with [] => inr o = (inr MP_OBJ_STOP_ITERATION : exn + obj)
         | y :: ys' => inr o = (inr y : exn + obj) /\ y <> ONull /\
             exists k, iters s' !! i = Some (MkIt (OList m) (Z.of_nat k)) /\ ys' = drop k ys end)).
    apply wp_bind. eapply wp_get_list; [by apply Ho|]. destruct (Z.of_nat k <? len r) eqn:E; to_prop.
    + destruct (lookup_lt_is_Some_2 ys k) as [y Hy]; [lia|]. apply wp_bind.
      eapply wp_load_block; [by apply Ho|lia|rewrite Nat2Z.id; by apply lookup_app_l_Some|]. apply wp_bind, wp_modify, wp_ret.
      split; [split; cbn; [done|done|lia|intros []; by split]|]. rewrite (drop_S _ _ _ Hy). split; [done|].
      split; [by eapply Forall_lookup_1 in Hnn|]. exists (S k). cbn. rewrite lookup_insert_eq, uwrap_small by lia. split; [|done].
      do 2 f_equal. lia.
    + apply wp_ret. split; [done|]. by rewrite drop_ge by lia.
  - intros zs s3 s4 (k & Hit & Hzs) _ Hi. exists k. by rewrite Hi.
  - by eapply rep_extends.
  - exists 0%nat. cbn. by rewrite lookup_insert_eq.
  - done.
  - intros s' k Hk. right. split; [done|]. eapply rep_subseteq; [done|by apply insert_subseteq].
  - intros s' Hk. left. exists l. done.
Qed.

End Make.
