(* ===== verification/ListSubscr.v ===== *)
(** * Lists: subscripts and slices

    [py_slice] is [slice.indices] of Python and [py_range] is [range]: an
    extended slice has the items whose numbers are in the range. *)
From S2P Require Import Prelude.
From S2P Require Import CMem.
From S2P Require Import ObjInt.
From S2P Require Import ListObj.
From S2P Require Import ListOps.
From S2P Require Import ListFacts.
From S2P Require Import ListSpec.
From S2P Require Import ListMutate.
From S2P Require Import ListSearch.
Local Open Scope Z_scope.

(** [len(range(start, stop, step))] and the range itself *)
Definition range_length (start stop step : Z) : nat :=
  if 0 <? step then if start <? stop then Z.to_nat ((stop - start - 1) / step + 1) else 0%nat
  else if stop <? start then Z.to_nat ((start - stop - 1) / - step + 1) else 0%nat.
Definition py_range (start stop step : Z) : list Z :=
  map (fun k => start + Z.of_nat k * step) (seq 0 (range_length start stop step)).

(** The items with these numbers. *)
Definition pick (xs : list obj) (idx : list Z) : list obj := omap (fun i => xs !! Z.to_nat i) idx.

Lemma range_length_up start stop step : 0 < step -> start < stop ->
  range_length start stop step = S (range_length (start + step) stop step).
Proof.
  intros Hs Hl. unfold range_length. rewrite (proj2 (Z.ltb_lt 0 step) Hs), (proj2 (Z.ltb_lt _ _) Hl).
  destruct (start + step <? stop) eqn:E; to_prop.
  - replace (stop - start - 1) with (stop - (start + step) - 1 + 1 * step) by lia. rewrite Z.div_add by lia.
    pose proof (Z.div_pos (stop - (start + step) - 1) step ltac:(lia) Hs). lia.
  - rewrite Z.div_small by lia. done.
Qed.

Lemma range_length_down start stop step : step < 0 -> stop < start ->
  range_length start stop step = S (range_length (start + step) stop step).
Proof.
  intros Hs Hl. unfold range_length. rewrite (proj2 (Z.ltb_ge 0 step) ltac:(lia)), (proj2 (Z.ltb_lt _ _) Hl).
  destruct (stop <? start + step) eqn:E; to_prop.
  - replace (start - stop - 1) with (start + step - stop - 1 + 1 * - step) by lia. rewrite Z.div_add by lia.
    pose proof (Z.div_pos (start + step - stop - 1) (- step) ltac:(lia) ltac:(lia)). lia.
  - rewrite Z.div_small by lia. done.
Qed.

Lemma range_length_nil start stop step :
  (if 0 <? step then stop <= start else start <= stop) -> range_length start stop step = 0%nat.
Proof. intros H. unfold range_length. destruct (0 <? step); case_bool; to_prop; lia. Qed.

Lemma py_range_cons start stop step n : range_length start stop step = S n -> n = range_length (start + step) stop step ->
  py_range start stop step = start :: py_range (start + step) stop step.
Proof.
  intros H ->. unfold py_range. rewrite H. cbn [seq map]. f_equal; [lia|]. rewrite <-seq_shift, map_map.
  apply map_ext. intros k. lia.
Qed.

(** A contiguous slice. *)
Lemma pick_contiguous xs n : forall start, 0 <= start -> (Z.to_nat start + n <= length xs)%nat ->
  pick xs (py_range start (start + Z.of_nat n) 1) = take n (drop (Z.to_nat start) xs).
Proof.
  induction n as [|n IH]; intros start Hs Hn.
  - unfold py_range. rewrite range_length_nil; [by rewrite take_0|cbn; lia].
  - rewrite (py_range_cons _ _ _ n).
    + destruct (lookup_lt_is_Some_2 xs (Z.to_nat start)) as [x Hx]; [lia|]. rewrite (drop_S _ x) by done.
      unfold pick. cbn [omap list_omap]. rewrite Hx. cbn [take]. f_equal. specialize (IH (start + 1)).
      replace (start + 1 + Z.of_nat n) with (start + Z.of_nat (S n)) in IH by lia.
      replace (Z.to_nat (start + 1)) with (S (Z.to_nat start)) in IH by lia. unfold pick in IH. apply IH; lia.
    + rewrite range_length_up by lia. f_equal. unfold range_length. cbn. case_bool; to_prop; [rewrite Z.div_1_r|]; lia.
    + unfold range_length. cbn. case_bool; to_prop; [rewrite Z.div_1_r|]; lia.
Qed.

Section Subscr.
Context {W : Type} `{!ListHeap W, !Runtime W, !RuntimeLaws W, !ListHeapLaws W}.
Implicit Types s : heap_t W.

Definition as_int (o : obj) : exn + Z :=
  match int_of o with inr (Some i) => inr i | inr None => inl TypeError | inl e => inl e end.

Definition ebind {A B} (m : exn + A) (k : A -> exn + B) : exn + B := match m with inl e => inl e | inr a => k a end.

(** ** Bounds *)

Definition py_end (o : obj) (default n lo hi : Z) : exn + Z :=
  match o with
  | ONone => inr default
  | _ => ebind (as_int o) (fun i => inr (Z.min hi (Z.max (if i <? 0 then i + n else i) lo)))
  end.

(** The range of a slice of a list of length [n]. *)
Definition py_slice (n : Z) (start stop step : obj) : exn + (Z * Z * Z) :=
  ebind (match step with
         | ONone => inr 1
         | _ => ebind (as_int step) (fun k => if k =? 0 then inl ValueError else inr k)
         end) (fun k =>
  if 0 <? k then
    ebind (py_end start 0 n 0 n) (fun a => ebind (py_end stop n n 0 n) (fun b => inr (a, b, k)))
  else
    ebind (py_end start (n - 1) n (-1) (n - 1)) (fun a => ebind (py_end stop (-1) n (-1) (n - 1)) (fun b => inr (a, b, k)))).

Lemma as_int_range o i : as_int o = inr i -> - 2 ^ 31 <= i < 2 ^ 31.
Proof. unfold as_int. destruct (int_of o) as [|[j|]] eqn:E; try done. intros [= <-]. by eapply int_of_range. Qed.

Lemma wp_slice_end o default n lo hi s (Q : exn + Z -> heap_t W -> Prop) :
  0 <= n <= max_items -> (forall s', extends s s' -> Q (py_end o default n lo hi) s') -> wp (slice_end o default n lo hi) s Q.
Proof.
  intros Hn HQ. unfold max_items in Hn. unfold slice_end, py_end in *.
  destruct o; try (apply wp_xret, HQ; done);
    (apply wp_xbind, wp_get_int; intros s' He; specialize (HQ s' He); fold (as_int) in HQ;
     match goal with |- context [int_of ?o] => pose proof (as_int_range o) as Hr; fold (as_int o) in * end;
     destruct (as_int _) as [e|i]; [done|]; specialize (Hr i eq_refl); apply wp_xbind, wp_safe;
     destruct (i <? 0) eqn:E; cbn [ebind] in HQ; rewrite E in HQ; to_prop; [apply wp_sint; [lia|]|apply wp_ret]; by apply wp_xret).
Qed.

Lemma wp_slice_indices start stop step n s (Q : exn + mp_bound_slice_t -> heap_t W -> Prop) :
  0 <= n <= max_items ->
  (forall s', extends s s' -> Q (match py_slice n start stop step with inl e => inl e | inr (a, b, k) => inr (MkBound a b k) end) s') ->
  wp (mp_obj_slice_indices (OSlice start stop step) n) s Q.
Proof.
  intros Hn HQ. pose proof Hn as Hn'. unfold max_items in Hn'. unfold mp_obj_slice_indices.
  set (st := match step with ONone => inr 1 | _ => ebind (as_int step) (fun k => if k =? 0 then inl ValueError else inr k) end : exn + Z).
  assert (Hst : wp (match step with ONone => xret 1 | _ => v ←! mp_obj_get_int step; if v =? 0 then raise ValueError else xret v end) s
    (fun r s' => r = st /\ extends s s')).
  { unfold st. destruct step; try (by apply wp_xret);
      (apply wp_xbind, wp_get_int; intros s' He; match goal with |- context [int_of ?o] => fold (as_int o) end;
       destruct (as_int _) as [e|i]; [done|]; cbn [ebind]; by case_bool). }
  apply wp_xbind. eapply wp_mono; [exact Hst|]. intros r s1 [-> He1]. unfold py_slice in HQ. fold st in HQ.
  destruct st as [e|k]; [by apply HQ|]. cbn [ebind] in HQ. destruct (0 <? k).
  - apply wp_xbind, wp_slice_end; [done|]. intros s2 He2. destruct (py_end start _ _ _ _) as [e|a]; [apply HQ; by etrans|].
    apply wp_xbind, wp_slice_end; [done|]. intros s3 He3.
    assert (extends s s3) as He by (etrans; [done|]; by etrans). specialize (HQ s3 He). cbn [ebind] in HQ.
    by destruct (py_end stop _ _ _ _).
  - apply wp_xbind, wp_safe, wp_sint; [lia|].
    apply wp_xbind, wp_slice_end; [done|]. intros s2 He2. destruct (py_end start _ _ _ _) as [e|a]; [apply HQ; by etrans|].
    apply wp_xbind, wp_slice_end; [done|]. intros s3 He3.
    assert (extends s s3) as He by (etrans; [done|]; by etrans). specialize (HQ s3 He). cbn [ebind] in HQ.
    by destruct (py_end stop _ _ _ _).
Qed.

Lemma py_end_range o default n lo hi i : lo <= hi -> lo <= default <= hi -> py_end o default n lo hi = inr i -> lo <= i <= hi.
Proof.
  intros Hl Hd. unfold py_end. destruct o; try (destruct (as_int _) as [e|j]; [done|]; cbn [ebind]); intros [= <-]; lia.
Qed.

Lemma py_slice_range n start stop step a b k : 0 <= n -> py_slice n start stop step = inr (a, b, k) ->
  k <> 0 /\ - 2 ^ 31 <= k < 2 ^ 31 /\ if 0 <? k then 0 <= a <= n /\ 0 <= b <= n else -1 <= a <= n - 1 /\ -1 <= b <= n - 1.
Proof.
  intros Hn. unfold py_slice. set (st := match step with ONone => _ | _ => _ end). destruct st as [e|k'] eqn:Est; [done|]. cbn [ebind].
  assert (k' <> 0 /\ - 2 ^ 31 <= k' < 2 ^ 31) as [Hk Hkr].
  { unfold st in Est. destruct step; try (injection Est as <-; lia);
      (destruct (as_int _) as [e|i] eqn:Ei; [done|]; apply as_int_range in Ei; cbn [ebind] in Est; case_bool; [done|]; to_prop; by injection Est as <-). }
  destruct (0 <? k') eqn:E; to_prop.
  - destruct (py_end start _ _ _ _) as [e|a'] eqn:E1; [done|]. cbn [ebind]. destruct (py_end stop _ _ _ _) as [e|b'] eqn:E2; [done|].
    intros [= <- <- <-]. split; [done|]. split; [done|]. apply py_end_range in E1, E2; try lia. rewrite (proj2 (Z.ltb_lt _ _) E). lia.
  - destruct (py_end start _ _ _ _) as [e|a'] eqn:E1; [done|]. cbn [ebind]. destruct (py_end stop _ _ _ _) as [e|b'] eqn:E2; [done|].
    intros [= <- <- <-]. split; [done|]. split; [done|]. apply py_end_range in E1, E2; try lia. rewrite (proj2 (Z.ltb_ge _ _) E). lia.
Qed.

(** What [mp_seq_get_fast_slice_indexes] makes of a range: the end comes at or
    after the start, and is included in a range that goes down. *)
Definition adjusted (a b k : Z) : mp_bound_slice_t :=
  if 0 <? k then MkBound a (Z.max a b) k else MkBound a (Z.min (b + 1) (a + 1)) k.

Lemma wp_fast_slice start stop step n s (Q : exn + (mp_bound_slice_t * bool) -> heap_t W -> Prop) :
  0 <= n <= max_items ->
  (forall s', extends s s' ->
     Q (match py_slice n start stop step with inl e => inl e | inr (a, b, k) => inr (adjusted a b k, k =? 1) end) s') ->
  wp (mp_seq_get_fast_slice_indexes n (OSlice start stop step)) s Q.
Proof.
  intros Hn HQ. pose proof Hn as Hn'. unfold max_items in Hn'. unfold mp_seq_get_fast_slice_indexes.
  rewrite swrap_small by lia. apply wp_xbind, wp_slice_indices; [done|]. intros s' He. specialize (HQ s' He).
  destruct (py_slice n start stop step) as [e|[[a b] k]] eqn:Es; [done|].
  apply py_slice_range in Es as (Hk & _ & Hr); [|lia]. unfold adjusted in HQ.
  apply wp_xbind, wp_safe. cbn [b_start b_stop b_step]. destruct (0 <? k) eqn:E; to_prop.
  - rewrite (proj2 (Z.ltb_ge k 0)) by lia. apply wp_ret, wp_xbind, wp_safe. cbn [andb].
    destruct (b <? a) eqn:E2; to_prop; apply wp_ret, wp_xret; [by rewrite Z.max_l in HQ by lia|by rewrite Z.max_r in HQ by lia].
  - rewrite (proj2 (Z.ltb_lt k 0)) by lia. apply wp_sint; [lia|]. apply wp_xbind, wp_safe. cbn [andb].
    destruct (a <? b + 1) eqn:E2; to_prop.
    + apply wp_sint; [lia|]. apply wp_xret. by rewrite Z.min_r in HQ by lia.
    + apply wp_ret, wp_xret. by rewrite Z.min_l in HQ by lia.
Qed.

(** ** Loading slices *)

Lemma range_length_bound start stop step : step <> 0 -> (range_length start stop step <= Z.to_nat (Z.abs (stop - start)))%nat.
Proof.
  intros Hs. unfold range_length. destruct (0 <? step) eqn:E; case_bool; to_prop; try lia.
  - pose proof (div_le_self (stop - start - 1) step ltac:(lia) ltac:(lia)). lia.
  - pose proof (div_le_self (start - stop - 1) (- step) ltac:(lia) ltac:(lia)). lia.
Qed.

(** The test of [mp_seq_extract_slice] is that of the range. *)
Lemma extract_test a b k i : k <> 0 -> (if 0 <? k then a <= i else i <= a) ->
  let b' := b_stop (adjusted a b k) in
  (if k <? 0 then b' <=? i else i <? b') = true ->
  range_length i b k = S (range_length (i + k) b k) /\ if 0 <? k then i < b else b < i.
Proof.
  intros Hk Hi. cbv zeta. unfold adjusted. destruct (0 <? k) eqn:E; to_prop; cbn [b_stop].
  - rewrite (proj2 (Z.ltb_ge k 0)) by lia. intros H. to_prop. assert (i < b) by lia. split; [|done]. by apply range_length_up.
  - rewrite (proj2 (Z.ltb_lt k 0)) by lia. intros H. to_prop. assert (b < i) by lia. split; [|done]. apply range_length_down; lia.
Qed.

Lemma extract_test_end a b k i : k <> 0 -> (if 0 <? k then a <= i else i <= a) ->
  let b' := b_stop (adjusted a b k) in
  (if k <? 0 then b' <=? i else i <? b') = false -> range_length i b k = 0%nat.
Proof.
  intros Hk Hi. cbv zeta. unfold adjusted. destruct (0 <? k) eqn:E; to_prop; cbn [b_stop]; intros H; apply range_length_nil; rewrite E || idtac.
  - rewrite (proj2 (Z.ltb_ge k 0)) in H by lia. to_prop. rewrite (proj2 (Z.ltb_lt 0 k)) by lia. lia.
  - rewrite (proj2 (Z.ltb_lt k 0)) in H by lia. to_prop. rewrite (proj2 (Z.ltb_ge 0 k)) by lia. lia.
Qed.

Lemma extract_refines s v l r slack xs a b k :
  rep s v -> owns s l r xs slack -> k <> 0 -> - 2 ^ 31 <= k -> k + Z.of_nat (length xs) <= 2 ^ 31 ->
  (let n := Z.of_nat (length xs) in if 0 <? k then 0 <= a <= n /\ 0 <= b <= n else -1 <= a <= n - 1 /\ -1 <= b <= n - 1) ->
  refines false v (NewList (pick xs (py_range a b k))) (mp_seq_extract_slice (Item (items r) 0) (adjusted a b k)) s.
Proof.
  intros Hr Ho Hk Hk1 Hk2 Hab. cbv zeta in Hab. pose proof (own_bounds _ _ _ _ _ Ho) as Hb. pose proof (own_alloc _ _ _ _ _ Ho) as Ha.
  unfold max_items in Hb. unfold refines, mp_seq_extract_slice, mp_obj_new_list.
  apply wp_xbind, wp_xbind. eapply wp_new_rep; [done|lia|by right|]. intros s1 o r1 zs Hmd. apply wp_xbind, wp_xret, wp_xret.
  assert (b_step (adjusted a b k) = k /\ b_start (adjusted a b k) = a) as [-> ->] by (unfold adjusted; by destruct (0 <? k)).
  apply (wp_xloop (fun i s => (if 0 <? k then a <= i else i <= a) /\ exists acc, holding s1 o r1 acc s /\
    acc ++ pick xs (py_range i b k) = pick xs (py_range a b k)) (fun i => range_length i b k)).
  - intros i s2 (Hi & acc & Hh & Hacc). destruct (if k <? 0 then _ else _) eqn:Et.
    + apply extract_test in Et as [Hlen Hin]; [|done|done]. pose proof (py_range_cons i b k _ Hlen eq_refl) as Hcons.
      assert (0 <= i < Z.of_nat (length xs)) as Hix by (destruct (0 <? k); lia).
      destruct (lookup_lt_is_Some_2 xs (Z.to_nat i)) as [x Hx]; [lia|].
      pose proof Hh as (r2 & sl2 & Hw & _). destruct (source_kept _ _ _ _ _ _ _ _ _ _ _ _ _ _ Hmd Hw Ho) as [Ho2 _].
      apply wp_xbind, wp_safe. cbn [load_at]. eapply wp_load_block; [by apply Ho2|lia|by apply lookup_app_l_Some|].
      apply wp_xbind. eapply wp_append_holding; [done|by apply (md_grows _ _ _ _ _ _ _ Hmd), Hr| |].
      { right. split; [done|]. by eapply made_forget. }
      intros s3 Hh3. apply wp_xbind, wp_safe, wp_sint; [destruct (0 <? k) eqn:E; to_prop; lia|]. apply wp_xret.
      rewrite Hcons in Hacc. unfold pick in Hacc. cbn [omap list_omap] in Hacc. rewrite Hx in Hacc. split; [|rewrite Hlen; lia].
      split; [destruct (0 <? k) eqn:E; to_prop; lia|]. exists (acc ++ [x]). split; [done|]. by rewrite <-app_assoc.
    + apply extract_test_end in Et; [|done|done]. apply wp_xret. left. eapply made_result; [done|].
      unfold py_range in Hacc at 1. rewrite Et in Hacc. cbn in Hacc. rewrite app_nil_r in Hacc. by subst acc.
  - split; [destruct (0 <? k); lia|]. exists []. split; [|done]. exists r1, zs. split; [by eapply md_working|by eapply md_len].
  - pose proof (range_length_bound a b k Hk). unfold adjusted. destruct (0 <? k) eqn:E; to_prop; cbn [b_stop]; unfold range_length in *; rewrite E || idtac.
    + rewrite (proj2 (Z.ltb_lt 0 k)) in * by lia. case_bool; to_prop; lia.
    + rewrite (proj2 (Z.ltb_ge 0 k)) in * by lia. case_bool; to_prop; lia.
Qed.

Lemma load_contiguous_refines s v l xs a b :
  rep s v -> v !! l = Some xs -> 0 <= a <= Z.of_nat (length xs) -> 0 <= b <= Z.of_nat (length xs) ->
  refines false v (NewList (pick xs (py_range a b 1))) (list_load_slice l (adjusted a b 1) true) s.
Proof.
  intros Hr Hl Ha Hb. destruct (rep_list _ _ Hr l xs Hl) as (r & slack & Ho).
  pose proof (own_bounds _ _ _ _ _ Ho) as Hbo. pose proof (own_alloc _ _ _ _ _ Ho) as Hal. unfold max_items in Hbo.
  set (n := Z.max a b - a). assert (pick xs (py_range a b 1) = take (Z.to_nat n) (drop (Z.to_nat a) xs)) as Hp.
  { destruct (decide (a <= b)).
    - rewrite <-(pick_contiguous xs) by lia. do 2 f_equal. lia.
    - unfold py_range. rewrite range_length_nil by (cbn; lia). by replace (Z.to_nat n) with 0%nat by lia. }
  rewrite Hp. assert (length (take (Z.to_nat n) (drop (Z.to_nat a) xs)) = Z.to_nat n) as Hlen by (rewrite length_take, length_drop; lia).
  unfold refines, list_load_slice, adjusted. cbn [Z.ltb Z.compare b_start b_stop]. fold n.
  apply wp_xbind, wp_safe. eapply wp_get_list; [by apply Ho|]. rewrite uwrap_small by lia.
  apply wp_xbind. eapply wp_new_rep; [done|lia|by right|]. intros s1 o r1 zs Hmd.
  pose proof (md_room _ _ _ _ _ _ _ Hmd) as Hroom. pose proof (md_working _ _ _ _ _ _ _ Hmd) as Hw.
  destruct (source_kept _ _ _ _ _ _ _ _ _ _ _ _ _ _ Hmd Hw Ho) as [[L1 L2 _ _ _] L4].
  apply wp_xbind, wp_safe, wp_bind. eapply wp_get_working; [exact Hw|]. apply wp_bind. eapply wp_get_list; [done|].
  rewrite (md_len _ _ _ _ _ _ _ Hmd).
  eapply (wp_memcpy _ _ _ _ _ _ _ _ _ (take (Z.to_nat n) (drop (Z.to_nat a) xs))); [exact Hw|done|by left|lia|lia|lia|lia| |].
  - exists (xs ++ slack). split; [done|]. rewrite length_app. split; [lia|].
    rewrite drop_app_le, take_app_le by (rewrite ?length_drop; lia). done.
  - intros s2 Hw2. apply wp_xret. left. eapply made_result; [done|]. eexists r1, _. split; [exact Hw2|].
    rewrite (md_len _ _ _ _ _ _ _ Hmd). lia.
Qed.

(** ** Assigning to slices *)

(** The items of a tuple or a list. *)
Definition items_of (v : gmap nat (list obj)) (value : obj) : option (list obj) :=
  match value with OTuple ys => Some ys | OList m => v !! m | _ => None end.

(** [src] can be read while list [l] is worked on. *)
Definition readable s l (src : ptr) (ys : list obj) : Prop :=
  forall r0 r zs s' (Q : list obj -> heap_t W -> Prop), lists s !! l = Some r0 -> working s l r0 r zs s' -> Q ys s' ->
    wp (read_items src (Z.of_nat (length ys))) s' Q.

Lemma wp_get_array s v l xs value ys (Q : exn + (Z * ptr) -> heap_t W -> Prop) :
  rep s v -> v !! l = Some xs -> items_of v value = Some ys -> value <> OList l ->
  (forall src, readable s l src ys -> Q (inr (Z.of_nat (length ys), src)) s) -> wp (mp_obj_get_array value) s Q.
Proof.
  intros Hr Hl Hi Hne HQ. destruct value; try done.
  - injection Hi as ->. apply wp_xret, HQ. intros r0 r zs s' Q' _ _ HQ'. by apply wp_read_const.
  - cbn in Hi. assert (n <> l) as Hnl by congruence. destruct (rep_other _ _ _ _ _ _ Hr Hl Hi Hnl) as (rm & sl & Ho & Hd).
    unfold mp_obj_get_array, mp_obj_list_get. apply wp_xbind, wp_xret, wp_xbind, wp_safe. eapply wp_get_list; [by apply Ho|].
    apply wp_xret. rewrite (own_len _ _ _ _ _ Ho). apply HQ. intros r0 r zs s' Q' H0 Hw HQ'.
    destruct (owns_changes _ _ _ _ _ _ _ _ (wk_changes _ _ _ _ _ _ Hw) Ho Hnl (Hd r0 H0)) as [_ L2 _ _ _].
    eapply wp_read_items; [done|lia|lia|rewrite length_app; lia|]. cbn. rewrite drop_0, Nat2Z.id, take_length_app. done.
Qed.

Lemma wp_write_middle s0 l r0 r p q t b i ys s (Q : unit -> heap_t W -> Prop) :
  working s0 l r0 r (p ++ q ++ t) s -> b = items r -> i = Z.of_nat (length p) -> length q = length ys ->
  (forall s', working s0 l r0 r (p ++ ys ++ t) s' -> Q tt s') -> wp (write_items b i ys) s Q.
Proof.
  intros Hw Hb Hi Hq HQ. eapply wp_write_working; [exact Hw|done|lia|rewrite !length_app; lia|]. intros s' Hw'.
  rewrite (length_nat_of p), take_length_app in Hw' by done. apply HQ.
  replace (length p + length ys)%nat with (length (p ++ q)) in Hw' by (rewrite length_app; lia).
  by rewrite (app_assoc p q t), drop_length_app in Hw'.
Qed.

Lemma split_range (xs : list obj) a b : (a <= b)%nat -> (b <= length xs)%nat ->
  exists p q t, xs = p ++ q ++ t /\ a = length p /\ b = (length p + length q)%nat /\ take a xs = p /\ drop b xs = t.
Proof.
  intros Hab Hb. exists (take a xs), (take (b - a) (drop a xs)), (drop b xs).
  rewrite !length_take, length_drop, !Nat.min_l by lia. split; [|split; [done|split; [lia|done]]].
  rewrite <-(take_drop a xs) at 1. f_equal. rewrite <-(take_drop (b - a) (drop a xs)) at 1. f_equal.
  rewrite drop_drop. f_equal. lia.
Qed.

(** The slice [q] is replaced by more items: there is room, the tail moves up
    first. *)
Lemma wp_replace_grow s0 l r0 r p q t rest ys src adj s (Q : unit -> heap_t W -> Prop) :
  working s0 l r0 r ((p ++ q ++ t) ++ rest) s -> lists s0 !! l = Some r0 -> readable s0 l src ys ->
  adj = Z.of_nat (length ys) - Z.of_nat (length q) -> 0 < adj <= Z.of_nat (length rest) ->
  (forall s' rest', working s0 l r0 r (p ++ ys ++ t ++ rest') s' -> Q tt s') ->
  wp (mp_seq_replace_slice_grow_inplace (items r) (Z.of_nat (length (p ++ q ++ t))) (Z.of_nat (length p))
        (Z.of_nat (length p + length q)) src (Z.of_nat (length ys)) adj) s Q.
Proof.
  intros Hw H0 Hsrc Hadj Hrest HQ. unfold mp_seq_replace_slice_grow_inplace. apply wp_bind.
  unfold memmove at 1. apply wp_bind. rewrite <-!app_assoc in Hw. rewrite !length_app.
  replace (Z.of_nat (length p + (length q + length t)) + adj - (Z.of_nat (length p) + Z.of_nat (length ys)))
    with (Z.of_nat (length t)) by lia.
  eapply wp_read_working; [exact Hw|done|lia|lia|rewrite !length_app; lia|].
  replace (Z.to_nat (Z.of_nat (length p + length q))) with (length (p ++ q)) by (rewrite length_app; lia).
  rewrite (app_assoc p q), drop_length_app, Nat2Z.id, take_length_app.
  eapply wp_write_working; [exact Hw|done|lia|rewrite !length_app; lia|]. intros s1 Hw1.
  replace (Z.to_nat (Z.of_nat (length p) + Z.of_nat (length ys))) with (length p + length ys)%nat in Hw1 by lia.
  rewrite take_app_add, <-app_assoc in Hw1. unfold memmove. apply wp_bind. eapply Hsrc; [done|exact Hw1|].
  eapply wp_write_middle; [exact Hw1|done|done|rewrite length_take, !length_app; lia|]. intros s2 Hw2. by eapply HQ.
Qed.

(** By at most as many: the tail moves down, what is behind it is cleared. *)
Lemma wp_replace_no_grow s0 l r0 r p q t slack ys src s (Q : unit -> heap_t W -> Prop) :
  working s0 l r0 r ((p ++ q ++ t) ++ slack) s -> lists s0 !! l = Some r0 -> readable s0 l src ys ->
  (length ys <= length q)%nat ->
  (forall s' rest', working s0 l r0 r (p ++ ys ++ t ++ rest') s' -> Q tt s') ->
  wp (mp_seq_replace_slice_no_grow (items r) (Z.of_nat (length (p ++ q ++ t))) (Z.of_nat (length p))
        (Z.of_nat (length p + length q)) src (Z.of_nat (length ys));;
      mp_seq_clear (items r) (Z.of_nat (length p + length ys + length t)) (Z.of_nat (length (p ++ q ++ t)))) s Q.
Proof.
  intros Hw H0 Hsrc Hys HQ. unfold mp_seq_replace_slice_no_grow. apply wp_bind, wp_bind.
  rewrite <-!app_assoc in Hw. rewrite <-(take_drop (length ys) q), <-app_assoc in Hw. set (q1 := take _ q) in *. set (q2 := drop _ q) in *.
  assert (length q1 = length ys /\ length q = length q1 + length q2)%nat as [Hq1 Hq].
  { unfold q1, q2. rewrite length_take, length_drop. lia. }
  unfold memmove at 1. apply wp_bind. eapply Hsrc; [done|exact Hw|].
  eapply wp_write_middle; [exact Hw|done|done|done|]. intros s1 Hw1. unfold memmove. apply wp_bind.
  eapply wp_read_working; [exact Hw1|done|lia|rewrite !length_app; lia|rewrite !length_app; lia|].
  replace (Z.to_nat (Z.of_nat (length p + length q))) with (length (p ++ ys ++ q2)) by (rewrite !length_app; lia).
  replace (p ++ ys ++ q2 ++ t ++ slack) with ((p ++ ys ++ q2) ++ t ++ slack) in * by by rewrite <-!app_assoc.
  rewrite drop_length_app. replace (Z.to_nat _) with (length t) by (rewrite !length_app; lia). rewrite take_length_app.
  eapply wp_write_working; [exact Hw1|done|lia|rewrite !length_app; lia|]. intros s2 Hw2.
  replace (Z.to_nat (Z.of_nat (length p) + Z.of_nat (length ys))) with (length (p ++ ys)) in Hw2 by (rewrite length_app; lia).
  replace ((p ++ ys ++ q2) ++ t ++ slack) with ((p ++ ys) ++ q2 ++ t ++ slack) in Hw2 by by rewrite <-!app_assoc.
  rewrite take_length_app in Hw2. pose proof (wk_alloc _ _ _ _ _ _ Hw) as Ha. pose proof (wk_alloc _ _ _ _ _ _ Hw2) as Ha2.
  eapply wp_clear_working; [exact Hw2|done|rewrite !length_app; lia| |].
  { rewrite <-Ha2, Ha, !length_app. lia. }
  intros s3 Hw3. replace (Z.to_nat (Z.of_nat (length p + length ys + length t))) with (length ((p ++ ys) ++ t)) in Hw3 by (rewrite !length_app; lia).
  rewrite (app_assoc (p ++ ys) t), take_length_app, <-!app_assoc in Hw3. by eapply HQ.
Qed.

Lemma store_slice_refines s v l xs a b value :
  rep s v -> v !! l = Some xs -> 0 <= a <= Z.of_nat (length xs) -> 0 <= b <= Z.of_nat (length xs) ->
  value <> OList l -> (forall ys, items_of v value = Some ys -> Z.of_nat (length ys) <= max_items) ->
  match value with OTuple _ => True | OList m => is_Some (v !! m) | _ => True end ->
  refines false v (match items_of v value with
             | Some ys => Returns ONone (<[l := take (Z.to_nat a) xs ++ ys ++ drop (Z.to_nat (Z.max a b)) xs]> v)
             | None => Raises TypeError
             end) (list_store_slice l (adjusted a b 1) value) s.
Proof.
  intros Hr Hl Ha Hb Hne Hbig Hval. unfold refines, list_store_slice. apply wp_xbind.
  destruct (items_of v value) as [ys|] eqn:Ei; [|destruct value; try (by left); [done|]; destruct Hval; cbn in Ei; congruence].
  specialize (Hbig ys eq_refl). eapply wp_get_array; [done|done|done|done|]. intros src Hsrc.
  destruct (rep_list _ _ Hr l xs Hl) as (r & slack & Ho). pose proof (own_list _ _ _ _ _ Ho) as H0.
  pose proof (own_bounds _ _ _ _ _ Ho) as Hbo. pose proof (own_alloc _ _ _ _ _ Ho) as Hal. pose proof (own_len _ _ _ _ _ Ho) as Hlen.
  pose proof Hbig as Hbig'. unfold max_items in Hbo, Hbig'. apply working_start in Ho as Hw. apply wp_xbind, wp_safe. eapply wp_get_list; [done|].
  unfold adjusted. cbn [Z.ltb Z.compare b_start b_stop]. cbv zeta.
  destruct (split_range xs (Z.to_nat a) (Z.to_nat (Z.max a b))) as (p & q & t & -> & Hp & Hq & -> & ->); [lia|lia|].
  rewrite !length_app in Hal. rewrite Hlen, swrap_small by lia.
  replace (Z.of_nat (length ys) - (Z.max a b - a)) with (Z.of_nat (length ys) - Z.of_nat (length q)) by lia.
  replace a with (Z.of_nat (length p)) by lia. replace (Z.max _ b) with (Z.of_nat (length p + length q)) by lia.
  set (adj := Z.of_nat (length ys) - Z.of_nat (length q)).
  assert (u32 (Z.of_nat (length (p ++ q ++ t)) + adj) = Z.of_nat (length p + length ys + length t)) as Hu.
  { rewrite uwrap_small; rewrite !length_app; lia. }
  rewrite !Hu.
  assert (Hend : forall s1 r1 rest, working s l r r1 (p ++ ys ++ t ++ rest) s1 -> len r1 = len r ->
    wp (safe (self ← get_list l; set_len l (u32 (len self + adj)));;! xret ONone) s1
      (fun r s' => meets false v (Returns ONone (<[l:=p ++ ys ++ t]> v)) r s' \/ (r = inl MemoryError /\ rep s' v))).
  { intros s1 r1 rest Hw1 Hl1. apply wp_xbind, wp_safe, wp_bind. eapply wp_get_working; [exact Hw1|].
    eapply wp_set_len_working; [exact Hw1|]. intros s2 Hw2. apply wp_xret. left. split; [done|].
    eapply rep_holding; [done|done|done|]. eexists _, rest. split; [rewrite <-!app_assoc; exact Hw2|]. cbn [len].
    rewrite Hl1, Hlen, Hu, !length_app. lia. }
  apply wp_xbind. destruct (0 <? adj) eqn:Eadj; to_prop.
  - apply wp_xbind. destruct (alloc r <? _) eqn:Ealloc; to_prop.
    + eapply wp_renew_items; [exact Hw|by apply Hr|lia|by right|]. intros s1 c junk Hm Hw1 Hj.
      rewrite take_ge in Hw1, Hj by (rewrite !length_app; lia). rewrite !length_app in Hj. rewrite <-app_assoc in Hw1.
      apply wp_safe, wp_bind. eapply wp_get_working; [exact Hw1|]. cbn [items len]. rewrite Hlen.
      eapply (wp_replace_grow _ _ _ (MkList _ _ _)); [exact Hw1|done|done|done|rewrite length_app; lia|]. intros s2 rest' Hw2. by eapply Hend.
    + apply wp_xret, wp_safe, wp_bind. eapply wp_get_working; [exact Hw|]. rewrite Hlen.
      eapply wp_replace_grow; [exact Hw|done|done|done|lia|]. intros s2 rest' Hw2. by eapply Hend.
  - apply wp_safe. eapply wp_replace_no_grow; [exact Hw|done|done|lia|]. intros s2 rest' Hw2. by eapply Hend.
Qed.

End Subscr.
