(* ===== verification/ListSortProps.v ===== *)
(** * Lists: quicksort

    The array is sorted in place while the comparison and the key function run
    arbitrary code that leaves the lists alone.  Whatever they answer, and
    whether they raise or not, the items are only permuted; when they answer
    for an order, every range that has been sorted is in order.  Both are one
    invariant: [Le x y] says that [x] may come before [y], and it may be the
    relation that always holds. *)
From S2P Require Import Prelude.
From S2P Require Import CMem.
From S2P Require Import ObjInt.
From S2P Require Import ListObj.
From S2P Require Import ListOps.
From S2P Require Import ListFacts.
From S2P Require Import ListSpec.
From S2P Require Import ListMutate.
Local Open Scope Z_scope.

(** ** Ranges of an array *)

Definition at_ (zs : list obj) (i : Z) (x : obj) : Prop := 0 <= i /\ zs !! Z.to_nat i = Some x.

Lemma at_inj zs i x y : at_ zs i x -> at_ zs i y -> x = y.
Proof. intros [_ H1] [_ H2]. congruence. Qed.

Lemma at_lt zs i x : at_ zs i x -> 0 <= i < Z.of_nat (length zs).
Proof. intros [Hi H]. apply lookup_lt_Some in H. lia. Qed.

Lemma at_exists zs i : 0 <= i < Z.of_nat (length zs) -> exists x, at_ zs i x.
Proof. intros Hi. destruct (lookup_lt_is_Some_2 zs (Z.to_nat i)) as [x Hx]; [lia|]. exists x. split; [lia|done]. Qed.

(** [zs'] is [zs] with the items of [lo .. hi] in another order. *)
Record shuffled (lo hi : Z) (zs zs' : list obj) : Prop := {
  sh_perm : zs ≡ₚ zs';
  sh_outside : forall i x, ~ lo <= i <= hi -> at_ zs' i x -> at_ zs i x;
  sh_inside : forall i x, lo <= i <= hi -> at_ zs' i x -> exists j, lo <= j <= hi /\ at_ zs j x;
}.

Lemma shuffled_refl lo hi zs : shuffled lo hi zs zs.
Proof. split; [done|done|eauto]. Qed.

Lemma shuffled_trans lo hi zs1 zs2 zs3 : shuffled lo hi zs1 zs2 -> shuffled lo hi zs2 zs3 -> shuffled lo hi zs1 zs3.
Proof.
  intros [P1 O1 I1] [P2 O2 I2]. split; [by etrans|auto|]. intros i x Hi Hx. destruct (I2 i x Hi Hx) as (j & Hj & Hx'). eauto.
Qed.

Lemma shuffled_wider lo hi lo' hi' zs zs' : lo' <= lo -> hi <= hi' -> shuffled lo hi zs zs' -> shuffled lo' hi' zs zs'.
Proof.
  intros Hl Hh [P O I]. split; [done| |].
  - intros i x Hi. apply O. lia.
  - intros i x Hi Hx. destruct (decide (lo <= i <= hi)) as [Hin|Hout].
    + destruct (I i x Hin Hx) as (j & ? & ?). exists j. split; [lia|done].
    + exists i. split; [done|]. by apply O.
Qed.

Lemma shuffled_length lo hi zs zs' : shuffled lo hi zs zs' -> length zs' = length zs.
Proof. intros [P _ _]. symmetry. by apply Permutation_length. Qed.

Lemma shuffled_keeps lo hi zs zs' i x : shuffled lo hi zs zs' -> ~ lo <= i <= hi -> at_ zs i x -> at_ zs' i x.
Proof.
  intros Hs Hi Hx. destruct (at_exists zs' i) as [y Hy].
  { rewrite (shuffled_length _ _ _ _ Hs). by apply at_lt in Hx. }
  pose proof (sh_outside _ _ _ _ Hs i y Hi Hy). by rewrite (at_inj _ _ _ _ Hx H).
Qed.

Lemma swap_shuffled lo hi zs i j x y :
  lo <= i <= hi -> lo <= j <= hi -> at_ zs i x -> at_ zs j y ->
  shuffled lo hi zs (<[Z.to_nat j := x]> (<[Z.to_nat i := y]> zs)).
Proof.
  intros Hi Hj [Hi0 Hx] [Hj0 Hy]. split.
  - symmetry. by apply Permutation_insert_swap.
  - intros k z Hk [Hk0 Hz]. rewrite !list_lookup_insert_ne in Hz by lia. by split.
  - intros k z Hk [Hk0 Hz]. destruct (decide (k = j)) as [->|Hkj].
    + rewrite list_lookup_insert_eq in Hz by (rewrite length_insert; by eapply lookup_lt_Some). injection Hz as <-. exists i. by split.
    + rewrite list_lookup_insert_ne in Hz by lia. destruct (decide (k = i)) as [->|Hki].
      * rewrite list_lookup_insert_eq in Hz by by eapply lookup_lt_Some. injection Hz as <-. exists j. by split.
      * rewrite list_lookup_insert_ne in Hz by lia. exists k. by split.
Qed.

(** ** Order *)

Section Order.
Context (Le : obj -> obj -> Prop).

(** The items of [lo .. hi] are in order, except for the pairs in [R] of which
    nothing is known. *)
Definition ordered (lo hi : Z) (R : Z -> Z -> Prop) (zs : list obj) : Prop :=
  forall i j x y, lo <= i -> i < j -> j <= hi -> ~ R i j -> at_ zs i x -> at_ zs j y -> Le x y.

Definition within (lo hi i j : Z) : Prop := lo <= i /\ j <= hi.

(** All items of [lo .. hi] satisfy [P]. *)
Definition all_in (lo hi : Z) (P : obj -> Prop) (zs : list obj) : Prop := forall i x, lo <= i <= hi -> at_ zs i x -> P x.

Lemma all_in_split lo mid hi P zs : all_in lo mid P zs -> all_in (mid + 1) hi P zs -> all_in lo hi P zs.
Proof. intros H1 H2 i x Hi. destruct (decide (i <= mid)); [apply H1|apply H2]; lia. Qed.

Lemma all_in_part lo hi lo' hi' P zs : all_in lo hi P zs -> lo <= lo' -> hi' <= hi -> all_in lo' hi' P zs.
Proof. intros H Hl Hh i x Hi. apply H. lia. Qed.

Lemma all_in_one i P zs x : at_ zs i x -> P x -> all_in i i P zs.
Proof. intros Hx HP j y Hj Hy. assert (j = i) as -> by lia. by rewrite <-(at_inj _ _ _ _ Hx Hy). Qed.

(** Shuffling a range changes nothing for the pairs with one index in it, if they
    are all known. *)
Lemma ordered_shuffled lo hi lo' hi' R zs zs' :
  (forall i j, i < lo' -> lo' <= j <= hi' -> ~ R i j) -> (forall i j, lo' <= i <= hi' -> hi' < j -> ~ R i j) ->
  (forall i j, within lo' hi' i j -> R i j) -> lo <= lo' -> hi' <= hi ->
  shuffled lo' hi' zs zs' -> ordered lo hi R zs -> ordered lo hi R zs'.
Proof.
  intros HR1 HR2 HR3 Hl Hh [_ O I] Ho i j x y Hi Hij Hj HR Hx Hy.
  destruct (decide (lo' <= i <= hi')) as [Hin|Hni]; destruct (decide (lo' <= j <= hi')) as [Hjn|Hnj].
  - destruct HR. apply HR3. unfold within. lia.
  - destruct (I i x Hin Hx) as (i' & Hi' & Hx'). eapply (Ho i' j); [lia|lia|lia|apply HR2; lia|done|by apply O].
  - destruct (I j y Hjn Hy) as (j' & Hj' & Hy'). eapply (Ho i j'); [lia|lia|lia|apply HR1; lia|by apply O|done].
  - eapply (Ho i j); eauto.
Qed.

Lemma ordered_weaken lo hi R R' zs : (forall i j, lo <= i -> i < j -> j <= hi -> R i j -> R' i j) -> ordered lo hi R zs -> ordered lo hi R' zs.
Proof. intros HR Ho i j x y Hi Hij Hj Hn. apply Ho; try done. intros H. by apply Hn, HR. Qed.

End Order.

(** ** The state while a list is sorted *)

Section Sorting.
Context {W : Type} `{!ListHeap W, !Runtime W}.
Implicit Types s : heap_t W.

(** Array [b] is now [zs]; apart from that, [s] extends the state [s0]. *)
Definition sorting s0 (b : nat) (zs : list obj) s : Prop := extends (put_array b zs s0) s.

Lemma sorting_extends s0 b zs s s' : sorting s0 b zs s -> extends s s' -> sorting s0 b zs s'.
Proof. unfold sorting. intros. by etrans. Qed.

Lemma sorting_array s0 b zs s : sorting s0 b zs s -> arrays s !! b = Some zs.
Proof. intros He. eapply lookup_weaken; [|by apply (ext_arrays _ _ He)]. cbn. by rewrite lookup_insert_eq. Qed.

Lemma sorting_put s0 b zs zs' s : sorting s0 b zs s -> sorting s0 b zs' (put_array b zs' s).
Proof.
  intros [HA HL HN HF]. split; cbn in *; [|done|done|].
  - rewrite map_subseteq_spec in HA. apply map_subseteq_spec. intros c x Hc. specialize (HA c). destruct (decide (c = b)) as [->|Hne].
    + by rewrite lookup_insert_eq in *.
    + rewrite lookup_insert_ne in * by done. by apply HA.
  - intros [F1 F2 F3 F4]. cbn in *. assert (fresh_ok s) as [G1 G2 G3 G4].
    { apply HF. split; cbn; [done| |intros n Hn; specialize (F3 n Hn)|done];
        (destruct (decide (b = 0%nat)) as [->|]; [by rewrite lookup_insert_eq in F2|]);
        (rewrite lookup_insert_ne in * by done; try done).
      destruct (decide (b = n)) as [->|]; [by rewrite lookup_insert_eq in F3|]. by rewrite lookup_insert_ne in * by done. }
    split; cbn; [done| | |done].
    + destruct (decide (b = 0%nat)) as [->|]; [by rewrite lookup_insert_eq in F2|]. by rewrite lookup_insert_ne.
    + intros n Hn. specialize (F3 n ltac:(lia)). destruct (decide (b = n)) as [->|]; [by rewrite lookup_insert_eq in F3|].
      rewrite lookup_insert_ne by done. by apply G3.
Qed.

Lemma wp_load_sorting s0 b zs s i x (Q : obj -> heap_t W -> Prop) : sorting s0 b zs s -> at_ zs i x -> Q x s -> wp (load b i) s Q.
Proof. intros Hs [Hi Hx] HQ. eapply wp_load_block; [by eapply sorting_array|done|done|done]. Qed.

Lemma wp_store_sorting s0 b zs s i x (Q : unit -> heap_t W -> Prop) :
  sorting s0 b zs s -> 0 <= i < Z.of_nat (length zs) ->
  (forall s', sorting s0 b (<[Z.to_nat i := x]> zs) s' -> Q tt s') -> wp (store b i x) s Q.
Proof.
  intros Hs Hi HQ. unfold wp, store. rewrite (sorting_array _ _ _ _ Hs). cbn. rewrite in_range_true by lia.
  by eapply HQ, sorting_put.
Qed.

(** The exchange of two items of [lo .. hi]. *)
Lemma wp_swap s0 b zs s i j x y (Q : unit -> heap_t W -> Prop) :
  sorting s0 b zs s -> at_ zs i x -> at_ zs j y ->
  (forall s', let zs' := <[Z.to_nat j := x]> (<[Z.to_nat i := y]> zs) in
     sorting s0 b zs' s' -> at_ zs' i y -> at_ zs' j x -> Q tt s') ->
  wp (swap b i j) s Q.
Proof.
  intros Hs Hx Hy HQ. pose proof (at_lt _ _ _ Hx) as Hi. pose proof (at_lt _ _ _ Hy) as Hj.
  unfold swap. apply wp_bind. eapply wp_load_sorting; [done|done|]. apply wp_bind. eapply wp_load_sorting; [done|done|].
  apply wp_bind. eapply wp_store_sorting; [done|done|]. intros s1 Hs1. eapply wp_store_sorting; [done|by rewrite length_insert|].
  intros s2 Hs2. apply HQ; [done| |].
  - split; [lia|]. destruct (decide (i = j)) as [->|Hne].
    + rewrite list_lookup_insert_eq by (rewrite length_insert; lia). by rewrite (at_inj _ _ _ _ Hx Hy).
    + rewrite list_lookup_insert_ne, list_lookup_insert_eq by lia. done.
  - split; [lia|]. rewrite list_lookup_insert_eq by (rewrite length_insert; lia). done.
Qed.

(** ** Scanning and partitioning

    [KeyOf x k] says that [k] is the key of the item [x], [Err] which exceptions
    the code that is called may raise. *)
Context (b : nat) (key_fn : obj) (res : bool).
Context (KeyOf : obj -> obj -> Prop) (Le : obj -> obj -> Prop) (Err : exn -> Prop).
Hypothesis key_law : forall x s, wp (key_of key_fn x) s (fun r s' => extends s s' /\
  match r with inl e => Err e | inr k => KeyOf x k end).
Hypothesis less_law : forall x y k k' s, KeyOf x k -> KeyOf y k' -> wp (less res k k') s (fun r s' => extends s s' /\
  match r with inl e => Err e | inr c => if c then Le x y else Le y x end).
Hypothesis Le_trans : forall x y z, Le x y -> Le y z -> Le x z.

(** The key of an item and its comparison with the pivot. *)
Lemma wp_test_up {A} s0 zs s i x p v (cont : bool -> Xl W A) (Q : exn + A -> heap_t W -> Prop) :
  sorting s0 b zs s -> at_ zs i x -> KeyOf p v ->
  (forall e s', Err e -> sorting s0 b zs s' -> Q (inl e) s') ->
  (forall c s', sorting s0 b zs s' -> (if c : bool then Le x p else Le p x) -> wp (cont c) s' Q) ->
  wp (y ←! safe (load b i); k ←! key_of key_fn y; c ←! less res k v; cont c) s Q.
Proof using key_law less_law.
  intros Hs Hx Hp He HQ. apply wp_xbind, wp_safe. eapply wp_load_sorting; [done|done|].
  apply wp_xbind. eapply wp_mono; [apply key_law|]. intros [e|k] s1 [He1 Hk]; [apply He; [done|by eapply sorting_extends]|].
  apply wp_xbind. eapply wp_mono; [by eapply less_law|]. intros [e|c] s2 [He2 Hc]; [apply He; [done|]|apply HQ; [|done]];
    (eapply sorting_extends; [by eapply sorting_extends|done]).
Qed.

Lemma wp_test_down {A} s0 zs s i x p v (cont : bool -> Xl W A) (Q : exn + A -> heap_t W -> Prop) :
  sorting s0 b zs s -> at_ zs i x -> KeyOf p v ->
  (forall e s', Err e -> sorting s0 b zs s' -> Q (inl e) s') ->
  (forall c s', sorting s0 b zs s' -> (if c : bool then Le p x else Le x p) -> wp (cont c) s' Q) ->
  wp (y ←! safe (load b i); k ←! key_of key_fn y; c ←! less res v k; cont c) s Q.
Proof using key_law less_law.
  intros Hs Hx Hp He HQ. apply wp_xbind, wp_safe. eapply wp_load_sorting; [done|done|].
  apply wp_xbind. eapply wp_mono; [apply key_law|]. intros [e|k] s1 [He1 Hk]; [apply He; [done|by eapply sorting_extends]|].
  apply wp_xbind. eapply wp_mono; [by eapply less_law|]. intros [e|c] s2 [He2 Hc]; [apply He; [done|]|apply HQ; [|done]];
    (eapply sorting_extends; [by eapply sorting_extends|done]).
Qed.

Lemma wp_scan_up s0 zs s h t p v (Q : exn + Z -> heap_t W -> Prop) :
  sorting s0 b zs s -> -1 <= h < t -> t <= Z.of_nat (length zs) -> KeyOf p v ->
  (forall e s', Err e -> sorting s0 b zs s' -> Q (inl e) s') ->
  (forall h' s', sorting s0 b zs s' -> h < h' <= t -> all_in (h + 1) (h' - 1) (fun x => Le x p) zs ->
     (h' < t -> all_in h' h' (fun x => Le p x) zs) -> Q (inr h') s') ->
  wp (scan_up b key_fn res t v h) s Q.
Proof using key_law less_law.
  intros Hs Hh Ht Hp He HQ. unfold scan_up.
  apply (wp_xloop (fun h' s => h <= h' < t /\ sorting s0 b zs s /\ all_in (h + 1) h' (fun x => Le x p) zs) (fun h' => Z.to_nat (t - h'))).
  - intros h' s1 (Hh' & Hs1 & Hall). cbv zeta. destruct (h' + 1 <? t) eqn:E; to_prop.
    + destruct (at_exists zs (h' + 1)) as [x Hx]; [lia|]. eapply wp_test_up; [done|done|done|done|].
      intros [] s2 Hs2 Hc; apply wp_xret.
      * split; [|lia]. split; [lia|]. split; [done|]. apply all_in_split with h'; [done|]. by eapply all_in_one.
      * apply HQ; [done|lia| |intros _; by eapply all_in_one]. eapply all_in_part; [done|lia|lia].
    + apply wp_xret, HQ; [done|lia| |lia]. eapply all_in_part; [done|lia|lia].
  - split; [lia|]. split; [done|]. intros i x Hi. lia.
  - lia.
Qed.

Lemma wp_scan_down s0 zs s h t p v (Q : exn + Z -> heap_t W -> Prop) :
  sorting s0 b zs s -> 0 <= h <= t -> t <= Z.of_nat (length zs) -> KeyOf p v ->
  (forall e s', Err e -> sorting s0 b zs s' -> Q (inl e) s') ->
  (forall t' s', sorting s0 b zs s' -> t' < t -> h - 1 <= t' -> (t' < h -> t = h) -> all_in (t' + 1) (t - 1) (Le p) zs ->
     (h < t' -> all_in t' t' (fun x => Le x p) zs) -> Q (inr t') s') ->
  wp (scan_down b key_fn res h v t) s Q.
Proof using key_law less_law.
  intros Hs Hh Ht Hp He HQ. unfold scan_down.
  apply (wp_xloop (fun t' s => h <= t' <= t /\ (t' = h -> t = h) /\ sorting s0 b zs s /\ all_in t' (t - 1) (Le p) zs) (fun t' => Z.to_nat (t' - h))).
  - intros t' s1 (Ht' & Hth & Hs1 & Hall). cbv zeta. destruct (h <? t' - 1) eqn:E; to_prop.
    + destruct (at_exists zs (t' - 1)) as [x Hx]; [lia|]. eapply wp_test_down; [done|done|done|done|].
      intros [] s2 Hs2 Hc; apply wp_xret.
      * split; [|lia]. split; [lia|]. split; [lia|]. split; [done|]. apply all_in_split with (t' - 1); [by eapply all_in_one|].
        by replace (t' - 1 + 1) with t' by lia.
      * apply HQ; [done|lia|lia|lia| |intros _; by eapply all_in_one]. eapply all_in_part; [done|lia|lia].
    + apply wp_xret, HQ; [done|lia|lia|lia| |lia]. eapply all_in_part; [done|lia|lia].
  - split; [lia|]. split; [done|]. split; [done|]. intros i x Hi. lia.
  - lia.
Qed.

(** Where the pointers meet, the items before are not after the pivot and the
    items from there on are not before it; the pivot itself is at [tail]. *)
Lemma wp_partition s0 zs s head tail p v (Q : exn + (Z * Z) -> heap_t W -> Prop) :
  sorting s0 b zs s -> 0 <= head < tail -> at_ zs tail p -> KeyOf p v ->
  (forall e zs' s', Err e -> sorting s0 b zs' s' -> shuffled head tail zs zs' -> Q (inl e) s') ->
  (forall h t zs' s', sorting s0 b zs' s' -> shuffled head tail zs zs' -> at_ zs' tail p ->
     head <= h <= tail -> h - 1 <= t <= h -> head <= t < tail ->
     all_in head (h - 1) (fun x => Le x p) zs' -> all_in h (tail - 1) (Le p) zs' -> Q (inr (h, t)) s') ->
  wp (partition b key_fn res v head tail) s Q.
Proof using key_law less_law.
  intros Hs Hht Hpv Hp He HQ. unfold partition.
  apply (wp_xloop (fun '(h, t) s => head - 1 <= h /\ h < t /\ head < t <= tail /\ exists zs', sorting s0 b zs' s /\ shuffled head tail zs zs' /\
    at_ zs' tail p /\ all_in head h (fun x => Le x p) zs' /\ all_in t (tail - 1) (Le p) zs') (fun '(h, t) => Z.to_nat (t - h))).
  - intros [h t] s1 (Hh & Hlt & Htt & zs1 & Hs1 & Hsh & Hp1 & HL & HR). pose proof (at_lt _ _ _ Hp1) as Hlen.
    apply wp_xbind. eapply wp_scan_up; [exact Hs1|lia|lia|done|by intros; eapply He|].
    intros h' s2 Hs2 Hh' HL2 Hstop. apply wp_xbind. eapply wp_scan_down; [exact Hs2|lia|lia|done|by intros; eapply He|].
    intros t' s3 Hs3 Ht' Ht'h Hth HR3 Hstop'.
    assert (all_in head (h' - 1) (fun x => Le x p) zs1) as HLall by (by apply all_in_split with h).
    assert (all_in (t' + 1) (tail - 1) (Le p) zs1) as HRall.
    { apply all_in_split with (t - 1); [done|]. by replace (t - 1 + 1) with t by lia. }
    destruct (t' <=? h') eqn:E; to_prop.
    + apply wp_xret, (HQ _ _ zs1); try done; try lia. destruct (decide (t' = h')) as [->|].
      * apply all_in_split with h'; [apply Hstop; lia|done].
      * eapply all_in_part; [exact HRall|lia|lia].
    + destruct (at_exists zs1 h') as [x Hx]; [lia|]. destruct (at_exists zs1 t') as [y Hy]; [lia|].
      apply wp_xbind, wp_safe. eapply wp_swap; [exact Hs3|done|done|]. cbv zeta. set (zs2 := <[_ := _]> _). intros s4 Hs4 Hy4 Hx4.
      assert (shuffled h' t' zs1 zs2) as Hsw by (apply swap_shuffled; [lia|lia|done|done]).
      assert (Hkeep : forall lo hi P, hi < h' \/ t' < lo -> all_in lo hi P zs1 -> all_in lo hi P zs2).
      { intros lo hi P Hd Hall i z Hi Hz. apply (Hall i z Hi). eapply sh_outside; [done|lia|done]. }
      apply wp_xret. split; [|lia]. split; [lia|]. split; [lia|]. split; [lia|]. exists zs2. split; [done|]. split.
      { eapply shuffled_trans; [done|]. eapply shuffled_wider; [| |done]; lia. } split; [|split].
      * eapply shuffled_keeps; [done|lia|done].
      * apply all_in_split with (h' - 1); [apply Hkeep; [lia|done]|]. replace (h' - 1 + 1) with h' by lia.
        eapply all_in_one; [done|]. by apply (Hstop' ltac:(lia) t' y).
      * apply all_in_split with t'; [|apply Hkeep; [lia|done]]. eapply all_in_one; [done|]. by apply (Hstop ltac:(lia) h' x).
  - split; [lia|]. split; [lia|]. split; [lia|]. exists zs. split; [done|]. split; [apply shuffled_refl|]. split; [done|].
    split; intros i x Hi; lia.
  - lia.
Qed.

(** After the pivot is in place at [h], the pairs that are not both before or both
    after it are in order. *)
Lemma split_ordered head tail zs h t p :
  at_ zs h p -> head <= h <= tail -> h - 1 <= t <= h ->
  all_in head (h - 1) (fun x => Le x p) zs -> all_in (h + 1) tail (Le p) zs ->
  ordered Le head tail (fun i j => within head t i j \/ within (h + 1) tail i j) zs.
Proof using Le_trans.
  intros Hp Hh Ht HL HR i j x y Hi Hij Hj Hn Hx Hy. unfold within in Hn.
  assert (i <= h <= j) by lia. destruct (decide (i = h)) as [->|].
  - rewrite (at_inj _ _ _ _ Hx Hp). eapply HR; [|done]. lia.
  - assert (Le x p) by (eapply HL; [|done]; lia). destruct (decide (j = h)) as [->|]; [by rewrite (at_inj _ _ _ _ Hy Hp)|].
    eapply Le_trans; [done|]. eapply HR; [|done]. lia.
Qed.

(** One round: the range [hd .. tl] is cut at a pivot that is in its place. *)
Lemma wp_cut s0 zs s hd tl {A} (cont : Z -> Z -> Xl W A) (Q : exn + A -> heap_t W -> Prop) :
  sorting s0 b zs s -> 0 <= hd < tl -> tl < Z.of_nat (length zs) ->
  (forall e zs' s', Err e -> sorting s0 b zs' s' -> shuffled hd tl zs zs' -> Q (inl e) s') ->
  (forall h t zs' s', sorting s0 b zs' s' -> shuffled hd tl zs zs' -> hd <= h <= tl -> h - 1 <= t <= h -> hd <= t < tl ->
     ordered Le hd tl (fun i j => within hd t i j \/ within (h + 1) tl i j) zs' -> wp (cont h t) s' Q) ->
  wp (x ←! safe (load b tl);
      v ←! key_of key_fn x;
      q ←! partition b key_fn res v hd tl;
      let '(h, t) := q in
      safe (swap b h tl);;! cont h t) s Q.
Proof using key_law less_law Le_trans.
  intros Hs Hht Hlen He HQ. destruct (at_exists zs tl) as [p Hp]; [lia|].
  apply wp_xbind, wp_safe. eapply wp_load_sorting; [done|done|]. apply wp_xbind. eapply wp_mono; [apply key_law|].
  intros [e|v] s1 [He1 Hv]; [eapply He; [done|by eapply sorting_extends|apply shuffled_refl]|].
  apply wp_xbind. eapply wp_partition; [by eapply sorting_extends|done|done|done|done|].
  intros h t zs1 s2 Hs2 Hsh Hp1 Hh Ht Htl HL HR. apply wp_xbind, wp_safe.
  pose proof (shuffled_length _ _ _ _ Hsh) as Hl1. destruct (at_exists zs1 h) as [y Hy]; [lia|].
  eapply wp_swap; [exact Hs2|done|done|]. cbv zeta. set (zs2 := <[_ := _]> _). intros s3 Hs3 Hp2 Hy2.
  assert (shuffled h tl zs1 zs2) as Hsw by (apply swap_shuffled; [lia|lia|done|done]).
  assert (Hkeep : forall lo hi P, hi < h \/ (h < lo /\ hi < tl) -> all_in lo hi P zs1 -> all_in lo hi P zs2).
  { intros lo hi P Hd Hall i z Hi [Hz0 Hz]. apply (Hall i z Hi). split; [done|]. unfold zs2 in Hz.
    by rewrite !list_lookup_insert_ne in Hz by lia. }
  eapply HQ; [done| |done|done|done|].
  - eapply shuffled_trans; [done|]. eapply shuffled_wider; [| |done]; lia.
  - eapply split_ordered; [exact Hp2|done|done|apply Hkeep; [lia|done]|].
    destruct (decide (h = tl)) as [->|]; [intros i z Hi; lia|].
    apply all_in_split with (tl - 1); [apply Hkeep; [lia|]; eapply all_in_part; [exact HR|lia|lia]|].
    replace (tl - 1 + 1) with tl by lia.
    intros i z Hi Hz. assert (i = tl) as -> by lia. rewrite (at_inj _ _ _ _ Hz Hy2). eapply (HR h); [lia|done].
Qed.

(** When one part is in order too, what is left is the other one. *)
Lemma ordered_part head tail lo hi lo' hi' zs zs' :
  ordered Le head tail (fun i j => within lo hi i j \/ within lo' hi' i j) zs -> hi < lo' \/ hi' < lo ->
  head <= lo -> hi <= tail -> shuffled lo hi zs zs' -> ordered Le lo hi (fun _ _ => False) zs' ->
  ordered Le head tail (within lo' hi') zs'.
Proof.
  intros Ho Hd Hl Hh Hsh Hin.
  assert (ordered Le head tail (fun i j => within lo hi i j \/ within lo' hi' i j) zs') as Ho'.
  { eapply ordered_shuffled; [| | | | |done|done]; unfold within; [lia|lia|intros; by left|done|done]. }
  intros i j x y Hi Hij Hj Hn Hx Hy. destruct (decide (lo <= i /\ j <= hi)) as [[]|Hout].
  - eapply (Hin i j); eauto.
  - eapply (Ho' i j); try done. intros [H|H]; [by apply Hout|done].
Qed.

Definition room (frames : nat) (n : Z) : Prop := match frames with O => False | S f => n < 2 ^ Z.of_nat f end.

Lemma room_half frames n m : room (S frames) n -> 0 < n -> 2 * m < n -> room frames m.
Proof.
  unfold room. destruct frames as [|f]; [cbn; lia|]. rewrite Nat2Z.inj_succ, Z.pow_succ_r by lia. lia.
Qed.

Lemma room_less frames n m : room frames n -> m <= n -> room frames m.
Proof. unfold room. destruct frames; lia. Qed.

Lemma wp_quicksort frames : forall s0 zs s head tail (Q : exn + unit -> heap_t W -> Prop),
  sorting s0 b zs s -> 0 <= head -> tail < Z.of_nat (length zs) ->
  room frames (tail - head) \/ Err RuntimeError ->
  (forall e zs' s', Err e -> sorting s0 b zs' s' -> shuffled head tail zs zs' -> Q (inl e) s') ->
  (forall zs' s', sorting s0 b zs' s' -> shuffled head tail zs zs' -> ordered Le head tail (fun _ _ => False) zs' -> Q (inr tt) s') ->
  wp (mp_quicksort b key_fn res frames head tail) s Q.
Proof using key_law less_law Le_trans.
  induction frames as [|frames IH]; intros s0 zs s head tail Q Hs Hhd Htl Hroom He HQ.
  { destruct Hroom as [[]|Hroom]. cbn. eapply He; [done|done|apply shuffled_refl]. }
  cbn [mp_quicksort].
  apply (wp_xloop (fun '(hd, tl) s => head <= hd /\ tl <= tail /\ exists zs', sorting s0 b zs' s /\ shuffled head tail zs zs' /\
    ordered Le head tail (within hd tl) zs') (fun '(hd, tl) => Z.to_nat (tl - hd))).
  2: { split; [lia|]. split; [lia|]. exists zs. split; [done|]. split; [apply shuffled_refl|].
       intros i j x y Hi Hij Hj Hn. unfold within in Hn. lia. }
  2: lia.
  intros [hd tl] s1 (Hh & Ht & zs1 & Hs1 & Hsh & Ho). destruct (hd <? tl) eqn:E; to_prop.
  2: { apply wp_xret. eapply HQ; [done|done|]. eapply ordered_weaken; [|exact Ho]. unfold within. lia. }
  pose proof (shuffled_length _ _ _ _ Hsh) as Hlen.
  assert (Hwide : forall lo hi zs2, hd <= lo -> hi <= tl -> shuffled lo hi zs1 zs2 -> shuffled head tail zs zs2).
  { intros lo hi zs2 Hlo Hhi Hsh2. eapply shuffled_trans; [done|]. eapply shuffled_wider; [| |done]; lia. }
  assert (Hroom' : forall m, 2 * m < tl - hd -> room frames m \/ Err RuntimeError).
  { intros m Hm. destruct Hroom as [Hroom|]; [left|by right]. eapply room_half; [eapply (room_less _ _ (tl - hd)); [done|lia]|lia|done]. }
  apply (wp_cut s0 zs1 s1 hd tl (fun h t => if t - hd <? tl - h - 1
       then mp_quicksort b key_fn res frames hd t;;! xret (inl (h + 1, tl))
       else mp_quicksort b key_fn res frames (h + 1) tl;;! xret (inl (hd, t)))); [done|lia|lia| |].
  { intros e zs2 s2 Hee Hs2 Hsh2. eapply He; [done|done|]. eapply (Hwide hd tl); [lia|lia|done]. }
  intros h t zs2 s2 Hs2 Hsh2 Hhr Htr Htr2 Ho2. pose proof (shuffled_length _ _ _ _ Hsh2) as Hlen2.
  assert (ordered Le head tail (fun i j => within hd t i j \/ within (h + 1) tl i j) zs2) as Ho2'.
  { assert (ordered Le head tail (within hd tl) zs2) as Hout.
    { eapply ordered_shuffled; [| | | | |done|done]; unfold within; [lia|lia|done|lia|lia]. }
    intros i j x y Hi Hij Hj Hn Hx Hy. destruct (decide (hd <= i /\ j <= tl)) as [[]|Hni]; [by eapply (Ho2 i j)|by eapply (Hout i j)]. }
  destruct (t - hd <? tl - h - 1) eqn:Ecmp; to_prop; apply wp_xbind.
  - eapply IH; [exact Hs2|lia|lia|apply Hroom'; lia| |].
    + intros e zs3 s3 Hee Hs3 Hsh3. eapply He; [done|done|]. eapply shuffled_trans; [by eapply (Hwide hd tl); [| |done]; lia|].
      eapply shuffled_wider; [| |done]; lia.
    + intros zs3 s3 Hs3 Hsh3 Ho3. apply wp_xret. split; [|lia]. split; [lia|]. split; [lia|]. exists zs3. split; [done|]. split.
      * eapply shuffled_trans; [by eapply (Hwide hd tl); [| |done]; lia|]. eapply shuffled_wider; [| |done]; lia.
      * eapply ordered_part; [exact Ho2'|lia|lia|lia|done|done].
  - eapply IH; [exact Hs2|lia|lia|apply Hroom'; lia| |].
    + intros e zs3 s3 Hee Hs3 Hsh3. eapply He; [done|done|]. eapply shuffled_trans; [by eapply (Hwide hd tl); [| |done]; lia|].
      eapply shuffled_wider; [| |done]; lia.
    + intros zs3 s3 Hs3 Hsh3 Ho3. apply wp_xret. split; [|lia]. split; [lia|]. split; [lia|]. exists zs3. split; [done|]. split.
      * eapply shuffled_trans; [by eapply (Hwide hd tl); [| |done]; lia|]. eapply shuffled_wider; [| |done]; lia.
      * eapply (ordered_part head tail (h + 1) tl hd t); [|lia|lia|lia|done|done].
        eapply ordered_weaken; [|exact Ho2']. tauto.
Qed.

End Sorting.
