(* ===== verification/ListTheorems.v ===== *)
(** * Lists: what is promised

    The methods, operators and subscripts of lists have the meaning Python gives
    them; [sort] sorts. *)
From Stdlib Require Import Sorted.
From S2P Require Import Prelude.
From S2P Require Import CMem.
From S2P Require Import ObjInt.
From S2P Require Import ListObj.
From S2P Require Import ListOps.
From S2P Require Import ListFacts.
From S2P Require Import ListSpec.
From S2P Require Import ListMutate.
From S2P Require Import ListSearch.
From S2P Require Import ListSubscr.
From S2P Require Import ListSortProps.
Local Open Scope Z_scope.

Section Calls.
Context {W : Type} `{!ListHeap W, !Runtime W, !RuntimeLaws W, !ListHeapLaws W}.
Implicit Types s : heap_t W.

(** ** Subscripts *)

Definition py_subscr (v : gmap nat (list obj)) (l : nat) (xs : list obj) (index value : obj) : outcome :=
  let n := Z.of_nat (length xs) in
  match index with
  | OSlice start stop step =>
      match py_slice n start stop step with
      | inl e => Raises e
      | inr (a, b, k) =>
          if is_sentinel value then NewList (pick xs (py_range a b k))
          else if k =? 1 then
            match items_of v (if is_null value then mp_const_empty_tuple else value) with
            | Some ys => Returns ONone (<[l := take (Z.to_nat a) xs ++ ys ++ drop (Z.to_nat (Z.max a b)) xs]> v)
            | None => Raises TypeError
            end
          else Raises NotImplementedError
      end
  | _ =>
      if is_null value then
        match py_pop v l xs (Some index) with Returns _ v' => Returns ONone v' | out => out end
      else match py_index n index with
           | inl e => Raises e
           | inr i =>
               if is_sentinel value then
                 match xs !! Z.to_nat i with Some x => Returns x v | None => Raises IndexError end
               else Returns ONone (<[l := <[Z.to_nat i := value]> xs]> v)
           end
  end.

(** Subscripts that are covered: a slice is not assigned from the list itself,
    the lists named exist, and a step up does not pass the largest integer. *)
Definition subscr_ok (v : gmap nat (list obj)) (l : nat) (xs : list obj) (index value : obj) : Prop :=
  match index with
  | OSlice start stop step =>
      (value = OSentinel -> forall a b k, py_slice (Z.of_nat (length xs)) start stop step = inr (a, b, k) ->
         k + Z.of_nat (length xs) <= 2 ^ 31) /\
      match value with
      | OTuple ys => Z.of_nat (length ys) <= max_items
      | OList m => m <> l /\ is_Some (v !! m)
      | _ => True
      end
  | _ => True
  end.

Lemma list_length_bound s v m ys : rep s v -> v !! m = Some ys -> Z.of_nat (length ys) <= max_items.
Proof. intros Hr Hm. destruct (rep_list _ _ Hr m ys Hm) as (r & sl & []). lia. Qed.

Lemma slice_refines s v l xs start stop step value :
  rep s v -> v !! l = Some xs -> subscr_ok v l xs (OSlice start stop step) value ->
  refines false v (py_subscr v l xs (OSlice start stop step) value) (list_subscr (OList l) (OSlice start stop step) value) s.
Proof.
  intros Hr Hl [Hstep Hval]. pose proof (list_length_bound _ _ _ _ Hr Hl) as Hn.
  destruct (rep_list _ _ Hr l xs Hl) as (r & slack & Ho). unfold refines, list_subscr, py_subscr.
  apply wp_xbind, wp_xret, wp_xbind, wp_safe. eapply wp_get_list; [by apply Ho|]. rewrite (own_len _ _ _ _ _ Ho).
  apply wp_xbind, wp_fast_slice; [lia|]. intros s1 He. assert (Hr1 : rep s1 v) by by eapply rep_extends.
  destruct (py_slice _ start stop step) as [e|[[a b] k]] eqn:Es; [by left|].
  destruct (py_slice_range _ _ _ _ _ _ _ (Nat2Z.is_nonneg _) Es) as (Hk & Hkr & Hab).
  destruct (is_sentinel value) eqn:Esen.
  - destruct value; try done. specialize (Hstep eq_refl a b k eq_refl).
    destruct (k =? 1) eqn:Ek; to_prop; [subst k; cbn in Hab; apply load_contiguous_refines; [done|done|lia|lia]|].
    unfold list_load_slice. apply wp_xbind, wp_safe. assert (owns s1 l r xs slack) as Ho1 by by eapply owns_extends.
    eapply wp_get_list; [by apply Ho1|]. eapply extract_refines; [done|done|done|lia|lia|exact Hab].
  - destruct (k =? 1) eqn:Ek; to_prop; [|by left]. subst k. cbn in Hab.
    apply store_slice_refines; [done|done|lia|lia| | |].
    + destruct value; cbn; try done. destruct Hval. congruence.
    + intros ys Hys. destruct value; try done; cbn in Hys; [injection Hys as <-; unfold max_items; cbn; lia|by injection Hys as <-|].
      by eapply list_length_bound.
    + destruct value; try done. by destruct Hval.
Qed.

Lemma store_item_refines s v l xs index value :
  rep s v -> v !! l = Some xs ->
  refines false v (match py_index (Z.of_nat (length xs)) index with
             | inl e => Raises e
             | inr i => Returns ONone (<[l := <[Z.to_nat i := value]> xs]> v)
             end) (mp_obj_list_store (OList l) index value;;! xret ONone) s.
Proof.
  intros Hr Hl. pose proof (list_length_bound _ _ _ _ Hr Hl) as Hn. destruct (rep_list _ _ Hr l xs Hl) as (r & slack & Ho).
  unfold refines, mp_obj_list_store. apply wp_xbind, wp_xbind, wp_xret, wp_xbind, wp_safe. eapply wp_get_list; [by apply Ho|].
  rewrite (own_len _ _ _ _ _ Ho). apply wp_xbind, wp_get_index; [lia|]. intros s1 He.
  assert (Hr1 : rep s1 v) by by eapply rep_extends. destruct (py_index _ index) as [e|i] eqn:Ei; [by left|].
  apply py_index_range in Ei. destruct (rep_hold _ _ _ _ Hr1 Hl) as (r0 & (r1 & sl & Hw & Hl1) & Hput).
  apply wp_safe, wp_bind. eapply wp_get_working; [exact Hw|]. eapply wp_store_working; [exact Hw|done|rewrite length_app; lia|].
  intros s2 Hw2. apply wp_xret. left. split; [done|]. apply Hput. exists r1, sl. rewrite insert_app_l in Hw2 by lia.
  split; [done|]. by rewrite length_insert.
Qed.

(** [del xs[i]] is [xs.pop(i)]. *)
Definition deletes (index value : obj) : bool := match index with OSlice _ _ _ => false | _ => is_null value end.

Lemma subscr_refines s v l xs index value :
  rep s v -> v !! l = Some xs -> subscr_ok v l xs index value ->
  refines (deletes index value) v (py_subscr v l xs index value) (list_subscr (OList l) index value) s.
Proof.
  intros Hr Hl Hok. assert ((exists a b k, index = OSlice a b k) \/ match index with OSlice _ _ _ => False | _ => True end) as [(a & b & k & ->)|Hns].
  { destruct index; eauto. }
  { by apply refines_shrinks, slice_refines. }
  pose proof (list_length_bound _ _ _ _ Hr Hl) as Hn. destruct (rep_list _ _ Hr l xs Hl) as (r & slack & Ho).
  set (out := if is_null value then match py_pop v l xs (Some index) with Returns _ v' => Returns ONone v' | out => out end
      else match py_index (Z.of_nat (length xs)) index with
           | inl e => Raises e
           | inr i => if is_sentinel value then match xs !! Z.to_nat i with Some x => Returns x v | None => Raises IndexError end
                      else Returns ONone (<[l := <[Z.to_nat i := value]> xs]> v)
           end).
  assert (deletes index value = is_null value) as -> by by destruct index.
  assert (refines (is_null value) v out (if is_null value then list_pop (OList l) (Some index);;! xret ONone
      else if is_sentinel value then i ←! mp_get_index (len r) index false; safe (r ← get_list l; load (items r) i)
      else mp_obj_list_store (OList l) index value;;! xret ONone) s) as Hout.
  2: { unfold refines, list_subscr. apply wp_xbind, wp_xret, wp_xbind, wp_safe. eapply wp_get_list; [by apply Ho|].
       destruct index; try done; exact Hout. }
  unfold out. destruct (is_null value).
  - unfold refines. apply wp_xbind. eapply wp_mono; [by apply pop_refines|]. intros r1 s1 [Hm|[-> Hr1]]; [|by right].
    unfold py_pop in *. destruct (_ =? 0); [destruct Hm as [-> ?]; by left|]. destruct (py_index _ _) as [e|i]; [destruct Hm as [-> ?]; by left|].
    destruct (xs !! _); destruct Hm as [Hm Hr1]; [|subst r1; by left].
    destruct Hm as [|Hk]; [apply wp_xret; by left|]. left. split; [by constructor|done].
  - destruct (is_sentinel value); [|by apply store_item_refines].
    unfold refines. apply wp_xbind. rewrite (own_len _ _ _ _ _ Ho). apply wp_get_index; [lia|]. intros s1 He.
    assert (Hr1 : rep s1 v) by by eapply rep_extends. destruct (py_index _ index) as [e|i] eqn:Ei; [by left|].
    apply py_index_range in Ei. destruct (lookup_lt_is_Some_2 xs (Z.to_nat i)) as [x Hx]; [lia|]. rewrite Hx.
    pose proof (owns_extends _ _ _ _ _ _ Ho He) as Ho1. apply wp_safe, wp_bind. eapply wp_get_list; [by apply Ho1|].
    eapply wp_load_block; [by apply Ho1|lia|by apply lookup_app_l_Some|]. by left.
Qed.

(** ** Every operation *)

Inductive list_call :=
  | Append (x : obj) | Extend (m : nat) | Pop (i : option obj) | Insert (i x : obj) | Remove (x : obj)
  | Clear | Reverse | Copy | Count (x : obj) | Index (x : obj) (start_stop : list obj)
  | Subscr (index value : obj) | Add (m : nat) | InplaceAdd (m : nat) | Multiply (rhs : obj)
  | Compare (op : mp_binary_op_t) (m : nat) | Bool | Len | ToList.

(** The code that runs. *)
Definition run (fuel : nat) (l : nat) (c : list_call) : Xl W obj :=
  let self := OList l in
  match c with
  | Append x => mp_obj_list_append self x
  | Extend m => list_extend fuel self (OList m)
  | Pop i => list_pop self i
  | Insert i x => list_insert self i x
  | Remove x => mp_obj_list_remove self x
  | Clear => list_clear self
  | Reverse => list_reverse self
  | Copy => list_copy self
  | Count x => list_count self x
  | Index x ss => list_index self x ss
  | Subscr i x => list_subscr self i x
  | Add m => list_binary_op fuel (PLAIN ADD) self (OList m)
  | InplaceAdd m => list_binary_op fuel (INPLACE ADD) self (OList m)
  | Multiply n => list_binary_op fuel (PLAIN MULTIPLY) self n
  | Compare op m => list_binary_op fuel op self (OList m)
  | Bool => list_unary_op UNARY_BOOL self
  | Len => list_unary_op UNARY_LEN self
  | ToList => mp_obj_list_make_new fuel [self] 0
  end.

Definition with_other (v : gmap nat (list obj)) (m : nat) (k : list obj -> outcome) : outcome :=
  match v !! m with Some ys => k ys | None => Raises TypeError end.

(** Calls that give back room when their work is done. *)
Definition gives_back (c : list_call) : bool :=
  match c with Pop _ | Remove _ | Clear => true | Subscr i x => deletes i x | _ => false end.

(** What it means. *)
Definition py (v : gmap nat (list obj)) (l : nat) (xs : list obj) (c : list_call) : outcome :=
  let n := Z.of_nat (length xs) in
  let becomes ys := Returns ONone (<[l := ys]> v) in
  match c with
  | Append x => becomes (xs ++ [x])
  | Extend m => with_other v m (fun ys => becomes (xs ++ ys))
  | Pop i => py_pop v l xs i
  | Insert i x =>
      match int_of i with
      | inl e => Raises e
      | inr None => Raises TypeError
      | inr (Some i) => let k := Z.to_nat (py_insert_at n i) in becomes (take k xs ++ x :: drop k xs)
      end
  | Remove x => match py_find xs x 0 n with Some i => becomes (delete (Z.to_nat i) xs) | None => Raises ValueError end
  | Clear => becomes []
  | Reverse => becomes (rev xs)
  | Copy | ToList => NewList xs
  | Count x => Returns (MP_OBJ_NEW_SMALL_INT (Z.of_nat (length (filter (fun y => eqb y x = true) xs)))) v
  | Index x ss => py_index_method v xs x ss
  | Subscr i x => py_subscr v l xs i x
  | Add m => with_other v m (fun ys => NewList (xs ++ ys))
  | InplaceAdd m => with_other v m (fun ys => Returns (OList l) (<[l := xs ++ ys]> v))
  | Multiply rhs =>
      match int_of rhs with
      | inl e => Raises e
      | inr None => Returns ONull v
      | inr (Some k) => NewList (concat (replicate (Z.to_nat k) xs))
      end
  | Compare op m => with_other v m (fun ys => Returns (OBool (py_compare op xs ys)) v)
  | Bool => Returns (OBool (negb (n =? 0))) v
  | Len => Returns (MP_OBJ_NEW_SMALL_INT n) v
  end.

Definition call_ok (fuel : nat) (v : gmap nat (list obj)) (l : nat) (xs : list obj) (c : list_call) : Prop :=
  match c with
  | Extend m | Add m | InplaceAdd m => is_Some (v !! m)
  | Compare op m => is_comparison op /\ is_Some (v !! m)
  | Subscr i x => subscr_ok v l xs i x
  | Insert i _ => exists w, i = OSmall w
  | Multiply rhs => forall k, int_of rhs = inr (Some k) -> Z.of_nat (length xs) * k < 2 ^ 30
  | ToList => Forall (fun x => x <> ONull) xs /\ (length xs < fuel)%nat
  | _ => True
  end.


End Calls.

(** ** Sorting *)

Section Sort.
Context {W : Type} `{!ListHeap W, !Runtime W}.
Implicit Types s : heap_t W.

Lemma sorting_start s b zs : arrays s !! b = Some zs -> sorting s b zs s.
Proof.
  intros Hb. unfold sorting. replace (put_array b zs s) with s; [done|]. unfold put_array, set_arrays. rewrite insert_id by done. by destruct s.
Qed.

(** What sorting has made of the array is a list of the same items. *)
Lemma sorting_done s v l r xs slack zs' s' :
  rep s v -> v !! l = Some xs -> owns s l r xs slack -> sorting s (items r) zs' s' ->
  shuffled 0 (len r - 1) (xs ++ slack) zs' ->
  exists xs', zs' = xs' ++ slack /\ xs ≡ₚ xs' /\ rep s' (<[l := xs']> v).
Proof.
  intros Hr Hl Ho Hs Hsh. pose proof (own_len _ _ _ _ _ Ho) as Hlen. pose proof (shuffled_length _ _ _ _ Hsh) as Hl'.
  assert (drop (length xs) zs' = slack) as Hd.
  { apply list_eq. intros i. rewrite lookup_drop. destruct (slack !! i) as [x|] eqn:Ex.
    - destruct (shuffled_keeps _ _ _ _ (Z.of_nat (length xs + i)) x Hsh ltac:(lia)) as [_ H].
      + split; [lia|]. rewrite Nat2Z.id, lookup_app_r by lia. rewrite <-Ex. f_equal. lia.
      + by rewrite Nat2Z.id in H.
    - apply lookup_ge_None in Ex. apply lookup_ge_None. rewrite Hl', length_app. lia. }
  exists (take (length xs) zs'). assert (zs' = take (length xs) zs' ++ slack) as Hz by (by rewrite <-Hd, take_drop).
  assert (length (take (length xs) zs') = length xs) as Hlt by (rewrite length_take, Hl', length_app; lia).
  split; [done|]. split.
  - apply (Permutation_app_inv_r slack). rewrite <-Hz. apply Hsh.
  - eapply rep_extends; [|exact Hs]. eapply rep_holding; [done|done|done|]. exists r, slack. rewrite <-Hz. split; [|by rewrite Hlt].
    eapply put_array_working; [by apply working_start|done].
Qed.

Lemma ordered_sorted (Le : obj -> obj -> Prop) slack xs : forall lo pre, lo = Z.of_nat (length pre) ->
  ordered Le lo (lo + Z.of_nat (length xs) - 1) (fun _ _ => False) (pre ++ xs ++ slack) -> StronglySorted Le xs.
Proof.
  induction xs as [|x xs IH]; intros lo pre -> Ho; constructor.
  - apply (IH (Z.of_nat (length (pre ++ [x]))) (pre ++ [x]) eq_refl). rewrite <-app_assoc. cbn [app] in *.
    intros i j y z Hi Hij Hj _. rewrite length_app in *. cbn [length] in *. apply Ho; [lia|lia|lia|auto].
  - apply Forall_lookup. intros j y Hy. pose proof (lookup_lt_Some _ _ _ Hy) as Hj. cbn [length] in Ho.
    apply (Ho (Z.of_nat (length pre)) (Z.of_nat (length pre + S j))); [lia|lia|lia|auto| |]; (split; [lia|]); rewrite Nat2Z.id.
    + by apply list_lookup_middle.
    + rewrite lookup_app_r by lia. replace (length pre + S j - length pre)%nat with (S j) by lia. cbn. by apply lookup_app_l_Some.
Qed.

Definition sort_key (key : obj) : obj := match key with ONone => ONull | _ => key end.

Lemma wp_list_sort s v l xs key reverse (KeyOf : obj -> obj -> Prop) (Le : obj -> obj -> Prop) (Err : exn -> Prop) :
  rep s v -> v !! l = Some xs ->
  (forall x s, wp (key_of (sort_key key) x) s (fun r s' => extends s s' /\ match r with inl e => Err e | inr k => KeyOf x k end)) ->
  (forall x y k k' s, KeyOf x k -> KeyOf y k' -> wp (less (negb reverse) k k') s (fun r s' => extends s s' /\
     match r with inl e => Err e | inr c => if c then Le x y else Le y x end)) ->
  (forall x y z, Le x y -> Le y z -> Le x z) ->
  room stack_frames (Z.of_nat (length xs) - 1) \/ Err RuntimeError ->
  wp (mp_obj_list_sort (OList l) key reverse) s (fun r s' => exists xs', xs ≡ₚ xs' /\ rep s' (<[l := xs']> v) /\
    match r with inl e => Err e | inr o => o = ONone /\ StronglySorted Le xs' end).
Proof.
  intros Hr Hl Hkey Hless Htrans Hroom. destruct (rep_list _ _ Hr l xs Hl) as (r & slack & Ho). pose proof (own_len _ _ _ _ _ Ho) as Hlen.
  unfold mp_obj_list_sort. apply wp_xbind, wp_xret, wp_xbind, wp_safe. eapply wp_get_list; [by apply Ho|]. apply wp_xbind.
  destruct (1 <? len r) eqn:E; to_prop.
  - eapply (wp_quicksort (items r) (sort_key key) (negb reverse) KeyOf Le Err Hkey Hless Htrans stack_frames s (xs ++ slack)).
    + by apply sorting_start, Ho.
    + lia.
    + rewrite length_app. lia.
    + by rewrite Hlen, Z.sub_0_r.
    + intros e zs' s' He Hs Hsh. destruct (sorting_done _ _ _ _ _ _ _ _ Hr Hl Ho Hs Hsh) as (xs' & _ & Hp & Hr'). by exists xs'.
    + intros zs' s' Hs Hsh Hord. destruct (sorting_done _ _ _ _ _ _ _ _ Hr Hl Ho Hs Hsh) as (xs' & -> & Hp & Hr').
      apply wp_xret. exists xs'. split; [done|]. split; [done|]. split; [done|]. apply (ordered_sorted Le slack xs' 0 [] eq_refl).
      rewrite <-(Permutation_length Hp), Z.add_0_l, <-Hlen. done.
  - apply wp_xret, wp_xret. exists xs. split; [done|]. split; [by rewrite insert_id|]. split; [done|].
    destruct xs as [|x [|y xs]]; [constructor|repeat constructor|cbn in Hlen; lia].
Qed.

(** C11: [sort] sorts: for a key function without effects and a comparison that
    is a strict weak order on the keys, the list ends up with the same items in
    an order in which no later item has a smaller key (no greater one for
    [reverse]), and other lists are as they were.  The stack that is needed
    grows with the logarithm of the length. *)
Theorem list_sort_correct s v l xs key (reverse : bool) (keyf : obj -> obj) (lt : obj -> obj -> bool) :
  rep s v -> v !! l = Some xs ->
  (forall x s, wp (key_of (sort_key key) x) s (fun r s' => r = inr (keyf x) /\ extends s s')) ->
  (forall a b s, wp (mp_binary_op LESS a b) s (fun r s' => r = inr (OBool (lt a b)) /\ extends s s')) ->
  (forall a b, lt a b = true -> lt b a = false) ->
  (forall a b c, lt a b = false -> lt b c = false -> lt a c = false) ->
  room stack_frames (Z.of_nat (length xs) - 1) ->
  wp (mp_obj_list_sort (OList l) key reverse) s (fun r s' => r = inr ONone /\ exists xs', xs ≡ₚ xs' /\ rep s' (<[l := xs']> v) /\
    StronglySorted (fun x y => if reverse then lt (keyf x) (keyf y) = false else lt (keyf y) (keyf x) = false) xs').
Proof.
  intros Hr Hl Hkey Hlt Hasym Hneg Hroom.
  eapply wp_mono; [eapply (wp_list_sort s v l xs key reverse (fun x k => k = keyf x)
    (fun x y => if reverse then lt (keyf x) (keyf y) = false else lt (keyf y) (keyf x) = false) (fun _ => False)); [done|done| | | |by left]|].
  - intros x s1. eapply wp_mono; [apply Hkey|]. by intros r s' [-> ?].
  - intros x y k k' s1 -> ->. unfold less. apply wp_xbind. eapply wp_mono; [apply Hlt|]. intros r s' [-> He]. apply wp_xret. split; [done|].
    destruct (lt (keyf x) (keyf y)) eqn:E, reverse; cbn; auto.
  - intros x y z. destruct reverse; eauto.
  - intros r s' (xs' & Hp & Hr' & Hres). destruct r as [e|o]; [done|]. destruct Hres as [-> Hs]. split; [done|]. by exists xs'.
Qed.

(** C12: [sort] is memory safe, ends and only permutes the items of the list,
    whatever the key function and the comparison answer and whenever they raise,
    as long as they leave the lists alone; not even the stack check can leave the
    list with other items. *)
Theorem list_sort_safe s v l xs key reverse :
  rep s v -> v !! l = Some xs ->
  (forall f x s, wp (mp_call_function_1 f x) s (fun _ s' => extends s s')) ->
  (forall op a b s, wp (mp_binary_op op a b) s (fun _ s' => extends s s')) ->
  wp (mp_obj_list_sort (OList l) key reverse) s (fun r s' => (forall o, r = inr o -> o = ONone) /\
    exists xs', xs ≡ₚ xs' /\ rep s' (<[l := xs']> v)).
Proof.
  intros Hr Hl Hcall Hop.
  eapply wp_mono; [eapply (wp_list_sort s v l xs key reverse (fun _ _ => True) (fun _ _ => True) (fun _ => True)); [done|done| | |done|by right]|].
  - intros x s1. unfold key_of. destruct (is_null _); [by apply wp_xret|]. eapply wp_mono; [apply Hcall|]. intros [e|k] s' He; done.
  - intros x y k k' s1 _ _. unfold less. apply wp_xbind. eapply wp_mono; [apply Hop|]. intros [e|o] s' He; [done|]. apply wp_xret.
    split; [done|]. by destruct (is_const_bool _ _).
  - intros r s' (xs' & Hp & Hr' & Hres). split; [|by exists xs']. intros o ->. by destruct Hres.
Qed.

End Sort.

(** ** Examples

    A heap with one list, integers that are compared by value, and an allocator
    that gives whatever fits in [2 ^ 28] bytes and moves an array that needs more
    blocks. *)

Definition blocks_of (words : nat) : Z := 16 * ((4 * Z.of_nat words + 15) / 16).

#[export] Instance example_list_heap : ListHeap unit := {
  malloc_ok := fun _ n => n <=? max_bytes;
  realloc_ok := fun _ _ n => n <=? max_bytes;
  realloc_in_place := fun s b n => match arrays s !! b with Some xs => n <=? blocks_of (length xs) | None => false end;
  fresh_word := fun _ _ => ONull;
  gc_locked := fun _ => false;
}.

#[export] Instance example_list_heap_laws : ListHeapLaws unit.
Proof.
  split.
  - intros s n H. by apply Z.leb_le.
  - intros s b n H. by apply Z.leb_le.
  - intros s b xs n _ _ _ H. by apply Z.leb_le.
Qed.

Definition value_of (o : obj) : Z := match o with OSmall w => MP_OBJ_SMALL_INT_VALUE w | OBig v => v | OBool c => zbool c | _ => 0 end.
Definition value_lt (a b : obj) : bool := value_of a <? value_of b.
Definition value_eqb (a b : obj) : bool := value_of a =? value_of b.
Definition value_op (op : mp_binary_op_t) (a b : obj) : obj :=
  OBool (match op with LESS => value_lt a b | MORE => value_lt b a | MORE_EQUAL => negb (value_lt a b) | _ => false end).

Definition runtime_with (call : obj -> obj -> Xl unit obj) : Runtime unit := {|
  mp_obj_equal := fun a b => xret (value_eqb a b);
  mp_binary_op := fun op a b => xret (value_op op a b);
  mp_call_function_1 := call;
  unary_int_maybe := fun _ => xret ONull;
  other_getiter := fun _ => raise TypeError;
  other_iternext := fun _ => raise TypeError;
  address_of := fun _ => 0;
  stack_frames := 16;
|}.

#[export] Instance example_runtime : Runtime unit := runtime_with (fun _ x => xret x).

#[export] Instance example_runtime_laws : RuntimeLaws unit.
Proof.
  refine {| eqb := value_eqb; op_result := value_op; int_result := fun _ => ONull;
    equal_law := _; binary_law := _; int_law := _; int_result_is_int := _ |}; done.
Defined.

Definition example_list (xs : list obj) : heap_t unit :=
  MkHeap {[2%nat := xs ++ replicate (4 - length xs) ONull]} {[1%nat := MkList (Z.max 4 (Z.of_nat (length xs))) (Z.of_nat (length xs)) 2]}
    ∅ 3 tt.
Definition example_lists (xs : list obj) : gmap nat (list obj) := {[1%nat := xs]}.

Lemma example_list_rep xs : (length xs <= 100)%nat -> rep (example_list xs) (example_lists xs).
Proof.
  intros Hx. unfold example_lists. split.
  - split; cbn; [lia|by rewrite lookup_singleton_ne|intros n Hn; by rewrite lookup_singleton_ne by lia|intros n Hn; by rewrite lookup_singleton_ne by lia].
  - intros l ys [<- <-]%lookup_singleton_Some. eexists _, _. split; cbn [arrays lists alloc len items example_list]; [by rewrite lookup_singleton_eq|by rewrite lookup_singleton_eq|done| |].
    + rewrite length_replicate. cbn [alloc]. lia.
    + cbn [alloc]. unfold max_items. lia.
  - intros l1 l2 r1 r2 [? H1] [? H2]. apply lookup_singleton_Some in H1 as [<- _], H2 as [<- _]. done.
Qed.

Definition nums (ns : list Z) : list obj := map MP_OBJ_NEW_SMALL_INT ns.


Lemma list_sort_correct_witness :
  room 16 (Z.of_nat (length (nums [3; 1; 2])) - 1) /\
  wp (mp_obj_list_sort (OList 1) ONone true) (example_list (nums [3; 1; 2])) (fun r s' => r = inr ONone /\
    exists xs', nums [3; 1; 2] ≡ₚ xs' /\ rep s' (<[1%nat := xs']> (example_lists (nums [3; 1; 2]))) /\
      StronglySorted (fun x y => value_lt x y = false) xs').
Proof.
  split; [cbn; lia|].
  refine (list_sort_correct (example_list (nums [3; 1; 2])) (example_lists (nums [3; 1; 2])) 1 (nums [3; 1; 2]) ONone true
    (fun x => x) value_lt _ _ _ _ _ _ _).
  - apply example_list_rep. cbn. lia.
  - reflexivity.
  - intros x s. split; reflexivity.
  - intros a b s. split; reflexivity.
  - intros a b H. unfold value_lt in *. to_prop. apply Z.ltb_ge. lia.
  - intros a b c H1 H2. unfold value_lt in *. to_prop. apply Z.ltb_ge. lia.
  - cbn. lia.
Defined.

Lemma list_sort_safe_witness :
  wp (mp_obj_list_sort (OList 1) ONone false) (example_list (nums [3; 1; 2])) (fun r s' => (forall o, r = inr o -> o = ONone) /\
    exists xs', nums [3; 1; 2] ≡ₚ xs' /\ rep s' (<[1%nat := xs']> (example_lists (nums [3; 1; 2])))).
Proof.
  refine (list_sort_safe (example_list (nums [3; 1; 2])) (example_lists (nums [3; 1; 2])) 1 (nums [3; 1; 2]) ONone false _ _ _ _).
  - apply example_list_rep. cbn. lia.
  - reflexivity.
  - intros f x s. by apply wp_xret.
  - intros op a b s. by apply wp_xret.
Defined.

(** The sorted list itself. *)
Example sort_example : exists s', mp_obj_list_sort (OList 1) ONone false (example_list (nums [4; 3; 1; 5; 1; 2])) = Some (inr ONone, s') /\
  arrays s' !! 2%nat = Some (nums [1; 1; 2; 3; 4; 5]).
Proof. eexists. split; [vm_compute; reflexivity|reflexivity]. Qed.

(** ** What the code cannot mean

    The size of a product wraps around: [[x, x, x, x] * 2**30] gets four slots
    and is then written beyond them. *)
Lemma list_multiply_wraps :
  list_binary_op 0 (PLAIN MULTIPLY) (OList 1) (OBig (2 ^ 30)) (example_list (nums [1; 2; 3; 4])) = None.
Proof.
  set (s := example_list _).
  assert (exists s1, list_new 0 s = Some (inr 3%nat, s1) /\ get_list 1 s1 = Some (MkList 4 4 2, s1) /\
    get_list 3 s1 = Some (MkList 4 0 4, s1) /\ forall k, for_up (S (S k)) 0 (fun i => memcpy 4 (i * 4) (Item 2 0) 4) s1 = None)
    as (s1 & H1 & H2 & H3 & H4).
  { eexists. split; [vm_compute; reflexivity|]. split; [reflexivity|]. split; [reflexivity|]. intros k. reflexivity. }
  unfold list_binary_op, xbind, safe, to_ptr, xret, mbind, M_bind, mret, M_ret. cbv beta iota.
  assert (get_list 1 s = Some (MkList 4 4 2, s)) as -> by reflexivity.
  change (mp_obj_get_int_maybe (OBig (2 ^ 30)) s) with (Some (inr (Some (2 ^ 30)) : exn + option Z, s)). cbv beta iota zeta.
  assert (get_list 1 s = Some (MkList 4 4 2, s)) as -> by reflexivity. cbn [len items].
  change (u32 (4 * (if 2 ^ 30 <? 0 then 0 else 2 ^ 30))) with 0. rewrite H1, H2, H3. cbn [len items].
  unfold mp_seq_multiply. change (if 2 ^ 30 <? 0 then 0 else 2 ^ 30) with (2 ^ 30).
  assert (Z.to_nat (2 ^ 30) = S (S (Z.to_nat (2 ^ 30 - 2)))) as -> by lia.
  by rewrite H4.
Qed.

(** A key function that clears the list which is being sorted. *)
Definition clearing_runtime : Runtime unit := runtime_with (fun _ x => @list_clear unit _ (OList 1);;! xret x).

Lemma sort_key_clears_list :
  @mp_obj_list_sort unit _ clearing_runtime (OList 1) (OOther 7) false (example_list (nums [6; 5; 4; 3; 2; 1])) = None.
Proof. vm_compute. reflexivity. Qed.

(** A step up that passes the largest integer: [[1, 2, 3][1::0x7fffffff]]. *)
Lemma slice_step_overflows :
  run 0 1 (Subscr (OSlice (MP_OBJ_NEW_SMALL_INT 1) ONone (OBig (2 ^ 31 - 1))) OSentinel) (example_list (nums [1; 2; 3])) = None.
Proof. vm_compute. reflexivity. Qed.

(** A slice assigned from the list itself, when the array moves: [xs[1:1] = xs]
    reads the array that was given back. *)
Lemma slice_of_itself_is_stale :
  run 0 1 (Subscr (OSlice (MP_OBJ_NEW_SMALL_INT 1) (MP_OBJ_NEW_SMALL_INT 1) ONone) (OList 1)) (example_list (nums [1; 2; 3; 4])) = None.
Proof. vm_compute. reflexivity. Qed.

(** While the collector is locked an array cannot be made smaller: [pop] raises
    MemoryError and the item is gone. *)
Definition locked_list_heap : ListHeap unit := {|
  malloc_ok := fun _ _ => false;
  realloc_ok := fun _ _ _ => false;
  realloc_in_place := fun _ _ _ => false;
  fresh_word := fun _ _ => ONull;
  gc_locked := fun _ => true;
|}.

Lemma pop_while_locked : exists s',
  @list_pop unit locked_list_heap _ (OList 1) None
    (MkHeap {[2%nat := nums [7; 8] ++ replicate 6 ONull]} {[1%nat := MkList 8 2 2]} ∅ 3 tt) = Some (inl MemoryError, s') /\
  lists s' !! 1%nat = Some (MkList 8 1 2).
Proof. eexists. split; vm_compute; reflexivity. Qed.
