(* ===== verification/MpPrint.v ===== *)
(** * Formatted printing ([py/mpprint.c], [py/mpprint.h])

    The state is what has been printed: the [print_strn] of the [mp_print_t] appends
    to it.  The formats of floating-point numbers are not modelled; for the rest
    [mp_vprintf] is compared with a description of a format by its directives. *)
From Stdlib Require Import Ascii String.
From S2P Require Import Prelude.
From S2P Require Import CMem.
Local Open Scope Z_scope.

(** ** Characters and text as numbers *)

Definition str (s : string) : list Z := map (fun a => Z.of_N (N_of_ascii a)) (list_ascii_of_string s).

Definition char_of_bytes (l : list Byte.byte) : option Z :=
  match l with [b] => Some (Z.of_N (Byte.to_N b)) | _ => None end.
Definition bytes_of_char (z : Z) : option (list Byte.byte) := option_map (fun b => [b]) (Byte.of_N (Z.to_N z)).

Declare Scope chr_scope.
Delimit Scope chr_scope with chr.
String Notation Z char_of_bytes bytes_of_char : chr_scope.

(** ** Flags *)

Definition PF_FLAG_LEFT_ADJUST : Z := 0x001.
Definition PF_FLAG_SHOW_SIGN : Z := 0x002.
Definition PF_FLAG_SPACE_SIGN : Z := 0x004.
Definition PF_FLAG_PAD_AFTER_SIGN : Z := 0x010.
Definition PF_FLAG_CENTER_ADJUST : Z := 0x020.
(** [flags & flag] *)
Definition has (flags flag : Z) : bool := negb (Z.land flags flag =? 0).

(** ** Strings *)

Abbreviation Mp A := (M (list Z) A).

Definition print_strn (s : list Z) : Mp unit := modify (fun out => out ++ s).

Definition pad_spaces : list Z := replicate 16 " "%chr.
Definition pad_zeroes : list Z := replicate 16 "0"%chr.

(** [while (pad > 0)]: at most all of [pad_chars] at once. *)
Definition print_pad (pad_chars : list Z) (pad : Z) : Mp unit :=
  let pad_size := Z.of_nat (length pad_chars) in
  while (S (Z.to_nat pad)) (fun pad => mret (0 <? pad))
    (fun pad =>
      let p := if pad_size <? pad then pad_size else pad in
      print_strn (take (Z.to_nat p) pad_chars);; mret (pad - p)) pad;;
  mret tt.

Definition mp_print_strn (s : list Z) (flags fill width : Z) : Mp Z :=
  let len := Z.of_nat (length s) in
  let pad := s32 (width - len) in
  let pad_chars :=
    if (fill =? 0) || (fill =? " "%chr) then pad_spaces else if fill =? "0"%chr then pad_zeroes else [fill] in
  let '(left_pad, right_pad) :=
    if has flags PF_FLAG_CENTER_ADJUST then (Z.quot pad 2, pad - Z.quot pad 2)
    else if has flags PF_FLAG_LEFT_ADJUST then (0, pad)
    else (pad, 0) in
  total ← (if 0 <? left_pad then print_pad pad_chars left_pad;; mret left_pad else mret 0);
  total ← (if negb (len =? 0) then print_strn s;; mret (s32 (total + len)) else mret total);
  (if 0 <? right_pad then n ← sint (total + right_pad); print_pad pad_chars right_pad;; mret n else mret total).

Definition mp_print_str (s : list Z) : Mp Z :=
  (if negb (Z.of_nat (length s) =? 0) then print_strn s else mret tt);; mret (Z.of_nat (length s)).

(** ** Integers *)

Definition INT_BUF_SIZE : nat := 16.

(** The loop of [mp_print_int] that fills its buffer from the end; [room] is what
    is left of it. *)
Fixpoint print_digits (room : nat) (x base base_char : Z) (b : list Z) : list Z :=
  match room with
  | O => b
  | S room =>
      let c := x `mod` base in
      let b := u8 (if 10 <=? c then c + (base_char - 10) else c + "0"%chr) :: b in
      if x / base =? 0 then b else print_digits room (x / base) base base_char b
  end.

Definition mp_print_int (x : Z) (sgn : bool) (base base_char flags fill width : Z) : Mp Z :=
  let '(sign, x) :=
    if sgn then
      if s32 x <? 0 then ("-"%chr, u32 (- x))
      else if has flags PF_FLAG_SHOW_SIGN then ("+"%chr, x)
      else if has flags PF_FLAG_SPACE_SIGN then (" "%chr, x)
      else (0, x)
    else (0, x) in
  let b := if x =? 0 then ["0"%chr] else print_digits INT_BUF_SIZE x base base_char [] in
  '(len, width, b) ←
    (if has flags PF_FLAG_PAD_AFTER_SIGN then
       if negb (sign =? 0) then
         len ← mp_print_strn [sign] flags fill 1; width ← sint (width - 1); mret (len, width, b)
       else mret (0, width, b)
     else mret (0, width, if negb (sign =? 0) && (length b <? INT_BUF_SIZE)%nat then sign :: b else b));
  n ← mp_print_strn b flags fill width;
  sint (len + n).

(** ** Formats *)

(** An argument: a number of 32 bits, a string (or [NULL]), or an interned string
    by its text. *)
Inductive printf_arg := ArgInt (v : Z) | ArgStr (s : option (list Z)) | ArgQstr (s : list Z).

(** The text up to the next directive, or to the end; a format ends with a zero. *)
Fixpoint plain_text (fmt : list Z) : list Z * list Z :=
  match fmt with
  | [] => ([], [])
  | c :: fmt' => if (c =? 0) || (c =? "%"%chr) then ([], fmt) else let r := plain_text fmt' in (c :: r.1, r.2)
  end.

Definition fmt_char (fmt : list Z) : Z := hd 0 fmt.

Fixpoint parse_flags (fmt : list Z) (flags fill : Z) : Z * Z * list Z :=
  match fmt with
  | [] => (flags, fill, [])
  | c :: fmt' =>
      if c =? "-"%chr then parse_flags fmt' (Z.lor flags PF_FLAG_LEFT_ADJUST) fill
      else if c =? "+"%chr then parse_flags fmt' (Z.lor flags PF_FLAG_SHOW_SIGN) fill
      else if c =? " "%chr then parse_flags fmt' (Z.lor flags PF_FLAG_SPACE_SIGN) fill
      else if c =? "0"%chr then parse_flags fmt' (Z.lor flags PF_FLAG_PAD_AFTER_SIGN) "0"%chr
      else (flags, fill, fmt)
  end.

Fixpoint parse_decimal (fmt : list Z) (n : Z) : Mp (Z * list Z) :=
  match fmt with
  | [] => mret (n, [])
  | c :: fmt' =>
      if ("0"%chr <=? c) && (c <=? "9"%chr) then
        n ← sint (n * 10 + c); parse_decimal fmt' (n - "0"%chr)
      else mret (n, fmt)
  end.

(** [va_arg] *)
Definition va_int (args : list printf_arg) : Mp (Z * list printf_arg) :=
  match args with ArgInt v :: args => mret (v, args) | _ => stuck end.

Definition parse_precision (fmt : list Z) (args : list printf_arg) : Mp (Z * list Z * list printf_arg) :=
  if fmt_char fmt =? "."%chr then
    let fmt := tail fmt in
    '(prec, fmt, args) ←
      (if fmt_char fmt =? "*"%chr then '(v, args) ← va_int args; mret (s32 v, tail fmt, args)
       else '(prec, fmt) ← parse_decimal fmt 0; mret (prec, fmt, args));
    mret (if prec <? 0 then 0 else prec, fmt, args)
  else mret (-1, fmt, args).

(** A string cut to the precision *)
Definition cut (prec : Z) (s : list Z) : list Z :=
  if (0 <=? prec) && (prec <? Z.of_nat (length s)) then take (Z.to_nat prec) s else s.

(** The [switch] over the conversion [c]. *)
Definition print_conversion (c flags fill width prec : Z) (args : list printf_arg) : Mp (Z * list printf_arg) :=
  if c =? "b"%chr then
    '(v, args) ← va_int args;
    n ← mp_print_strn (if negb (v =? 0) then str "true" else str "false") flags fill width; mret (n, args)
  else if c =? "c"%chr then
    '(v, args) ← va_int args;
    n ← mp_print_strn [u8 v] flags fill width; mret (n, args)
  else if c =? "q"%chr then
    match args with
    | ArgQstr s :: args => n ← mp_print_strn (cut prec s) flags fill width; mret (n, args)
    | _ => stuck
    end
  else if c =? "s"%chr then
    match args with
    | ArgStr None :: args =>
        if negb (prec =? 0) then n ← mp_print_strn (str "(null)") flags fill width; mret (n, args) else stuck
    | ArgStr (Some s) :: args => n ← mp_print_strn (cut prec s) flags fill width; mret (n, args)
    | _ => stuck
    end
  else if c =? "d"%chr then
    '(v, args) ← va_int args;
    n ← mp_print_int (u32 v) true 10 "a"%chr flags fill width; mret (n, args)
  else if (c =? "u"%chr) || (c =? "x"%chr) || (c =? "X"%chr) then
    let base := 16 - Z.land (c + 1) 6 in
    let fmt_c := Z.land c 0xf0 - "P"%chr + "A"%chr in
    '(v, args) ← va_int args;
    n ← mp_print_int (u32 v) false base fmt_c flags fill width; mret (n, args)
  else if (c =? "p"%chr) || (c =? "P"%chr) then
    '(v, args) ← va_int args;
    n ← mp_print_int (u32 v) false 16 "a"%chr flags fill width; mret (n, args)
  else
    (* the formats of floating-point numbers are not modelled *)
    assert_ (c =? "%"%chr);; print_strn [c];; mret (1, args).

(** One round of the loop over the format. *)
Definition print_directive (st : list Z * list printf_arg * Z) : Mp ((list Z * list printf_arg * Z) + Z) :=
  let '(fmt, args, chrs) := st in
  let '(text, fmt) := plain_text fmt in
  chrs ← (if negb (Z.of_nat (length text) =? 0) then print_strn text;; sint (chrs + Z.of_nat (length text)) else mret chrs);
  if fmt_char fmt =? 0 then mret (inr chrs)
  else
    let '(flags, fill, fmt) := parse_flags (tail fmt) 0 " "%chr in
    '(width, fmt) ← parse_decimal fmt 0;
    '(prec, fmt, args) ← parse_precision fmt args;
    let fmt := if fmt_char fmt =? "l"%chr then tail fmt else fmt in
    if fmt_char fmt =? 0 then mret (inr chrs)
    else
      '(n, args) ← print_conversion (fmt_char fmt) flags fill width prec args;
      chrs ← sint (chrs + n);
      mret (inl (tail fmt, args, chrs)).

Definition mp_vprintf (fmt : list Z) (args : list printf_arg) : Mp Z :=
  loop (S (length fmt)) print_directive (fmt, args, 0).

Definition mp_printf (fmt : list Z) (args : list printf_arg) : Mp Z := mp_vprintf fmt args.

(** ** Padding *)

Definition padded (flags fill width : Z) (s : list Z) : list Z :=
  let pad := Z.to_nat (width - Z.of_nat (length s)) in
  let fill := if fill =? 0 then " "%chr else fill in
  if has flags PF_FLAG_CENTER_ADJUST then replicate (pad / 2) fill ++ s ++ replicate (pad - pad / 2) fill
  else if has flags PF_FLAG_LEFT_ADJUST then s ++ replicate pad fill
  else replicate pad fill ++ s.

Section Padding.

Lemma wp_print_pad pad_chars fill n out (Q : unit -> list Z -> Prop) : pad_chars = replicate (length pad_chars) fill -> (0 < length pad_chars)%nat ->
  Q tt (out ++ replicate n fill) -> wp (print_pad pad_chars (Z.of_nat n)) out Q.
Proof.
  intros Hp Hl HQ. unfold print_pad. apply wp_bind. rewrite Nat2Z.id.
  apply (wp_while (fun pad out1 => exists k, pad = Z.of_nat k /\ out1 ++ replicate k fill = out ++ replicate n fill) Z.to_nat).
  - by exists n.
  - lia.
  - intros pad out1 (k & -> & Hout). apply wp_ret. destruct (Z.ltb_spec 0 (Z.of_nat k)).
    + set (p := if Z.of_nat (length pad_chars) <? Z.of_nat k then Z.of_nat (length pad_chars) else Z.of_nat k).
      assert (0 < p <= Z.of_nat k /\ p <= Z.of_nat (length pad_chars)) as [Hpk Hpl].
      { unfold p. destruct (Z.ltb_spec (Z.of_nat (length pad_chars)) (Z.of_nat k)); lia. }
      apply wp_bind, wp_modify, wp_ret. split; [|lia]. exists (k - Z.to_nat p)%nat. split; [lia|]. rewrite <-Hout, <-app_assoc. f_equal.
      rewrite Hp, take_replicate, <-replicate_add. f_equal. lia.
    + apply wp_ret. replace k with 0%nat in Hout by lia. cbn in Hout. rewrite app_nil_r in Hout. by rewrite Hout.
Qed.

Lemma wp_print_strn s flags fill width out (Q : Z -> list Z -> Prop) : Z.of_nat (length s) < 2 ^ 30 -> - 2 ^ 30 < width < 2 ^ 30 ->
  Q (Z.of_nat (length (padded flags fill width s))) (out ++ padded flags fill width s) -> wp (mp_print_strn s flags fill width) out Q.
Proof.
  intros Hs Hw HQ. unfold mp_print_strn. rewrite swrap_small by lia. set (pad := width - Z.of_nat (length s)) in *.
  set (fill' := if fill =? 0 then " "%chr else fill).
  set (chars := if (fill =? 0) || (fill =? 32) then pad_spaces else if fill =? 48 then pad_zeroes else [fill]).
  assert (chars = replicate (length chars) fill' /\ (0 < length chars)%nat) as [Hc Hl].
  { unfold chars, fill'. destruct (Z.eqb_spec fill 0) as [->|]; [split; [done|cbn; lia]|]. destruct (Z.eqb_spec fill 32) as [->|]; [split; [done|cbn; lia]|].
    destruct (Z.eqb_spec fill 48) as [->|]; split; try done; cbn; lia. }
  assert (forall left right, 0 <= left /\ 0 <= right /\ left + right = pad \/ left <= 0 /\ right <= 0 ->
    padded flags fill width s = replicate (Z.to_nat left) fill' ++ s ++ replicate (Z.to_nat right) fill' ->
    wp (total ← (if 0 <? left then print_pad chars left;; mret left else mret 0);
        total ← (if negb (Z.of_nat (length s) =? 0) then print_strn s;; mret (s32 (total + Z.of_nat (length s))) else mret total);
        (if 0 <? right then n ← sint (total + right); print_pad chars right;; mret n else mret total)) out Q) as Hgo.
  { intros left right Hlr Hpd. rewrite Hpd in HQ. rewrite !length_app, !length_replicate in HQ. apply wp_bind.
    apply (wp_mono _ _ (fun n o => n = Z.of_nat (Z.to_nat left) /\ o = out ++ replicate (Z.to_nat left) fill')).
    { destruct (Z.ltb_spec 0 left).
      - apply wp_bind. rewrite <-(Z2Nat.id left) at 1 by lia. eapply wp_print_pad; [done|done|]. apply wp_ret. split; [lia|done].
      - apply wp_ret. replace (Z.to_nat left) with 0%nat by lia. by rewrite app_nil_r. }
    intros n o [-> ->]. apply wp_bind.
    apply (wp_mono _ _ (fun n o => n = Z.of_nat (Z.to_nat left) + Z.of_nat (length s) /\ o = (out ++ replicate (Z.to_nat left) fill') ++ s)).
    { destruct (Z.eqb_spec (Z.of_nat (length s)) 0) as [Hz|]; cbn [negb].
      - apply wp_ret. destruct s; [|done]. rewrite app_nil_r. split; [cbn; lia|done].
      - apply wp_bind, wp_modify, wp_ret. split; [|done]. apply swrap_small; lia. }
    intros n o [-> ->]. rewrite <-!app_assoc. destruct (Z.ltb_spec 0 right).
    - apply wp_bind, wp_sint; [lia|]. apply wp_bind. rewrite <-(Z2Nat.id right) at 1 by lia. eapply wp_print_pad; [done|done|]. apply wp_ret.
      rewrite <-!app_assoc. replace (Z.of_nat (Z.to_nat left) + Z.of_nat (length s) + right) with (Z.of_nat (Z.to_nat left + (length s + Z.to_nat right))) by lia. exact HQ.
    - apply wp_ret. replace (Z.to_nat right) with 0%nat in HQ by lia. rewrite app_nil_r in HQ.
      replace (Z.of_nat (Z.to_nat left) + Z.of_nat (length s)) with (Z.of_nat (Z.to_nat left + (length s + 0))) by lia. exact HQ. }
  unfold padded in *. fold fill' in Hgo, HQ. fold pad in Hgo, HQ. destruct (has flags PF_FLAG_CENTER_ADJUST).
  - destruct (Z.lt_ge_cases pad 0) as [Hn|Hp].
    + assert (pad / 2 <= 0 /\ pad ÷ 2 <= 0 /\ pad - pad ÷ 2 <= 0) as (_ & H1 & H2) by (Z.to_euclidean_division_equations; lia).
      apply Hgo; [lia|]. replace (Z.to_nat pad) with 0%nat by lia.
      by replace (Z.to_nat (pad ÷ 2)) with 0%nat by lia; replace (Z.to_nat (pad - pad ÷ 2)) with 0%nat by lia.
    + rewrite Z.quot_div_nonneg by lia. pose proof (Z.div_mod pad 2). pose proof (Z.mod_pos_bound pad 2).
      apply Hgo; [lia|]. assert (Z.to_nat pad / 2 = Z.to_nat (pad / 2))%nat as -> by (rewrite Z2Nat.inj_div by lia; done).
      f_equal. f_equal. f_equal. lia.
  - destruct (has flags PF_FLAG_LEFT_ADJUST); (destruct (Z.lt_ge_cases pad 0); (apply Hgo; [lia|])); by rewrite ?app_nil_r.
Qed.

End Padding.

(** ** Numerals *)

Definition digit_char (base_char d : Z) : Z := if 10 <=? d then d + (base_char - 10) else d + "0"%chr.

(** [n] digits *)
Fixpoint digits (n : nat) (base base_char v : Z) : list Z :=
  match n with O => [] | S n => digits n base base_char (v / base) ++ [digit_char base_char (v `mod` base)] end.

(** Without leading zeros *)
Fixpoint strip (ds : list Z) : list Z :=
  match ds with
  | c :: (_ :: _) as ds' => if c =? "0"%chr then strip ds' else ds
  | _ => ds
  end.

Definition numeral (base base_char v : Z) : list Z := strip (digits 16 base base_char v).

Lemma digits_length n base bc v : length (digits n base bc v) = n.
Proof. revert v. induction n as [|n IH]; intros v; cbn; [done|]. rewrite length_app, IH. cbn. lia. Qed.

Lemma strip_zeros j ds : ds <> [] -> strip (replicate j "0"%chr ++ ds) = strip ds.
Proof.
  intros Hds. induction j as [|j IH]; [done|]. cbn [replicate app]. destruct (replicate j 48 ++ ds) as [|c t] eqn:E; [|by rewrite <-IH].
  by apply app_eq_nil in E as [_ ?].
Qed.

Section Base.
Context (base base_char : Z).
Hypothesis (Hbase : 2 <= base <= 16) (Hchar : 65 <= base_char <= 97).

Lemma div_range n v : 0 <= v < base ^ Z.of_nat (S n) -> 0 <= v / base < base ^ Z.of_nat n.
Proof. intros Hv. rewrite Nat2Z.inj_succ, Z.pow_succ_r in Hv by lia. split; [apply Z.div_pos; lia|apply Z.div_lt_upper_bound; lia]. Qed.

Lemma mod_range v : 0 <= v `mod` base < base.
Proof. apply Z.mod_pos_bound. lia. Qed.

Lemma digits_pad j n v : 0 <= v < base ^ Z.of_nat n -> digits (j + n) base base_char v = replicate j "0"%chr ++ digits n base base_char v.
Proof.
  revert v. induction n as [|n IH]; intros v Hv.
  - assert (v = 0) as -> by (cbn in Hv; lia). rewrite Nat.add_0_r. cbn [digits]. rewrite app_nil_r.
    induction j as [|j IHj]; [done|]. cbn [digits]. rewrite Z.div_0_l, IHj, Z.mod_0_l by lia. change (digit_char base_char 0) with 48.
    by rewrite <-replicate_S_end.
  - rewrite Nat.add_succ_r. cbn [digits]. by rewrite IH, app_assoc by by apply div_range.
Qed.

(** The first digit of a number with [n] digits is not zero. *)
Lemma digits_head n v : base ^ Z.of_nat n <= v < base ^ Z.of_nat (S n) -> exists c ds, digits (S n) base base_char v = c :: ds /\ c <> "0"%chr.
Proof.
  revert v. induction n as [|n IH]; intros v Hv.
  - cbn in Hv. eexists _, []. split; [done|]. rewrite Z.mod_small by lia. unfold digit_char. destruct (Z.leb_spec 10 v); lia.
  - destruct (IH (v / base)) as (c & ds & Hd & Hc).
    { split; [|apply div_range; pose proof (Z.pow_pos_nonneg base (Z.of_nat (S n))); lia].
      rewrite Nat2Z.inj_succ, Z.pow_succ_r in Hv by lia. apply Z.div_le_lower_bound; lia. }
    exists c, (ds ++ [digit_char base_char (v `mod` base)]). split; [|done]. change (digits (S (S n)) base base_char v) with (digits (S n) base base_char (v / base) ++ [digit_char base_char (v `mod` base)]).
    by rewrite Hd.
Qed.

Lemma strip_digits n v : base ^ Z.of_nat n <= v < base ^ Z.of_nat (S n) -> strip (digits (S n) base base_char v) = digits (S n) base base_char v.
Proof. intros Hv. destruct (digits_head n v Hv) as (c & ds & -> & Hc). destruct ds; [done|]. cbn. by rewrite (proj2 (Z.eqb_neq _ _)). Qed.

(** A positive number below [base ^ n] has a number of digits. *)
Lemma magnitude n v : 0 < v < base ^ Z.of_nat n -> exists k, (k < n)%nat /\ base ^ Z.of_nat k <= v < base ^ Z.of_nat (S k).
Proof.
  induction n as [|n IH]; intros Hv; [cbn in Hv; lia|]. destruct (Z.lt_ge_cases v (base ^ Z.of_nat n)) as [Hlt|Hge].
  - destruct IH as (k & ? & ?); [lia|]. exists k. split; [lia|done].
  - exists n. split; [lia|split; [done|apply Hv]].
Qed.

Lemma numeral_digits k v : (k < 16)%nat -> base ^ Z.of_nat k <= v < base ^ Z.of_nat (S k) -> numeral base base_char v = digits (S k) base base_char v.
Proof.
  intros Hk Hv. pose proof (Z.pow_pos_nonneg base (Z.of_nat k)). unfold numeral. replace 16%nat with ((15 - k) + S k)%nat by lia.
  rewrite digits_pad by lia. rewrite strip_zeros; [by apply strip_digits|]. intros Hn. apply (f_equal length) in Hn. by rewrite digits_length in Hn.
Qed.

Lemma numeral_0 : numeral base base_char 0 = ["0"%chr].
Proof.
  unfold numeral. change 16%nat with (15 + 1)%nat. rewrite digits_pad by (cbn; lia). rewrite strip_zeros; cbn; [|done].
  by rewrite Z.mod_0_l by lia.
Qed.

(** A number with fewer than [w] digits, filled up with zeros, is the number with [w] digits. *)
Lemma numeral_pad w v : (0 < w <= 16)%nat -> 0 <= v < base ^ Z.of_nat w ->
  replicate (w - length (numeral base base_char v)) "0"%chr ++ numeral base base_char v = digits w base base_char v.
Proof.
  intros Hw Hv. destruct (decide (v = 0)) as [->|Hn].
  - rewrite numeral_0. cbn [length]. replace w with ((w - 1) + 1)%nat at 2 by lia. rewrite digits_pad by (cbn; lia). cbn. by rewrite Z.mod_0_l by lia.
  - destruct (magnitude w v) as (k & Hk & Hkv); [lia|]. rewrite (numeral_digits k v) by lia || done. rewrite digits_length.
    pose proof (Z.pow_pos_nonneg base (Z.of_nat k)). replace w with ((w - S k) + S k)%nat at 2 by lia. by rewrite digits_pad by lia.
Qed.

Lemma digit_char_byte d : 0 <= d < 16 -> u8 (digit_char base_char d) = digit_char base_char d.
Proof. intros Hd. apply uwrap_small. unfold digit_char. destruct (Z.leb_spec 10 d); lia. Qed.

Lemma print_digits_digits n : forall room v b, (n < room)%nat -> base ^ Z.of_nat n <= v < base ^ Z.of_nat (S n) ->
  print_digits room v base base_char b = digits (S n) base base_char v ++ b.
Proof.
  induction n as [|n IH]; intros room v b Hn Hv; (destruct room as [|room]; [lia|]); cbn [print_digits];
    fold (digit_char base_char (v `mod` base)); pose proof (mod_range v); rewrite digit_char_byte by lia.
  - rewrite (Z.div_small v base) by (cbn in Hv; lia). done.
  - assert (base ^ Z.of_nat n <= v / base < base ^ Z.of_nat (S n)) as Hq.
    { split; [|apply div_range; pose proof (Z.pow_pos_nonneg base (Z.of_nat (S n))); lia].
      rewrite Nat2Z.inj_succ, Z.pow_succ_r in Hv by lia. apply Z.div_le_lower_bound; lia. }
    pose proof (Z.pow_pos_nonneg base (Z.of_nat n)). rewrite (proj2 (Z.eqb_neq _ 0)) by lia. rewrite (IH room) by lia || done.
    change (digits (S (S n)) base base_char v) with (digits (S n) base base_char (v / base) ++ [digit_char base_char (v `mod` base)]).
    by rewrite <-app_assoc.
Qed.

Lemma print_digits_numeral v : 0 <= v < base ^ 16 ->
  (if v =? 0 then ["0"%chr] else print_digits INT_BUF_SIZE v base base_char []) = numeral base base_char v.
Proof.
  intros Hv. destruct (Z.eqb_spec v 0) as [->|Hn]; [by rewrite numeral_0|].
  destruct (magnitude 16 v) as (k & Hk & Hkv); [cbn; lia|]. rewrite (print_digits_digits k), (numeral_digits k v) by done. by rewrite app_nil_r.
Qed.

End Base.

(** The sign before the padded numeral, or padding around both *)
Definition join_sign (flags fill width : Z) (sign ds : list Z) : list Z :=
  if has flags PF_FLAG_PAD_AFTER_SIGN then sign ++ padded flags fill (width - Z.of_nat (length sign)) ds
  else padded flags fill width (sign ++ ds).

(** A signed or unsigned number as [mp_print_int] is to print it: the sign and the
    numeral, and zeros between them if that is asked for. *)
Definition sign_of (flags x : Z) : list Z :=
  if s32 x <? 0 then ["-"%chr]
  else if has flags PF_FLAG_SHOW_SIGN then ["+"%chr]
  else if has flags PF_FLAG_SPACE_SIGN then [" "%chr]
  else [].
Definition printed_int (x : Z) (sgn : bool) (base base_char flags fill width : Z) : list Z :=
  let sign := if sgn then sign_of flags x else [] in
  let ds := numeral base base_char (if sgn then Z.abs (s32 x) else x) in
  join_sign flags fill width sign ds.

Lemma padded_length flags fill width s : (length s <= length (padded flags fill width s) <= Nat.max (length s) (Z.to_nat width))%nat.
Proof.
  unfold padded. set (pad := Z.to_nat (width - Z.of_nat (length s))).
  pose proof (Nat.Div0.div_le_upper_bound pad 2 pad). repeat case_match; rewrite !length_app, !length_replicate; lia.
Qed.

Lemma magnitude_u32 x : 0 <= x < 2 ^ 32 -> (if s32 x <? 0 then u32 (- x) else x) = Z.abs (s32 x) /\ Z.abs (s32 x) <= 2 ^ 31.
Proof.
  intros Hx. assert (s32 x = x \/ s32 x = x - 2 ^ 32 /\ 2 ^ 31 <= x) as [E|[E Hbig]].
  { destruct (Z.lt_ge_cases x (2 ^ 31)); [left; apply swrap_small; lia|right]. split; [|lia]. unfold swrap. change (2 ^ (32 - 1)) with (2 ^ 31).
    rewrite <-(Z.mod_unique (x + 2 ^ 31) (2 ^ 32) 1 (x + 2 ^ 31 - 2 ^ 32)); lia. }
  - pose proof (swrap_range 32 x ltac:(lia)). rewrite E in *. rewrite (proj2 (Z.ltb_ge _ _)) by lia. split; lia.
  - rewrite E. rewrite (proj2 (Z.ltb_lt _ _)) by lia. split; [|lia]. unfold uwrap. rewrite <-(Z.mod_unique (- x) (2 ^ 32) (-1) (2 ^ 32 - x)); lia.
Qed.

Lemma wp_join_sign sign ds flags fill width out (Q : Z -> list Z -> Prop) : sign = [] \/ (exists c, sign = [c] /\ c <> 0) -> (length ds < 16)%nat ->
  - 2 ^ 29 < width < 2 ^ 29 ->
  Q (Z.of_nat (length (join_sign flags fill width sign ds))) (out ++ join_sign flags fill width sign ds) ->
  wp ('(len, width, b) ←
        (if has flags PF_FLAG_PAD_AFTER_SIGN then
           if negb (hd 0 sign =? 0) then
             len ← mp_print_strn [hd 0 sign] flags fill 1; width ← sint (width - 1); mret (len, width, ds)
           else mret (0, width, ds)
         else mret (0, width, if negb (hd 0 sign =? 0) && (length ds <? INT_BUF_SIZE)%nat then hd 0 sign :: ds else ds));
      n ← mp_print_strn b flags fill width;
      sint (len + n)) out Q.
Proof.
  intros Hsign Hds Hw HQ. unfold join_sign in HQ. apply wp_bind. destruct (has flags PF_FLAG_PAD_AFTER_SIGN).
  - destruct Hsign as [->|(c & -> & Hc)]; cbn [hd length app] in *.
    + apply wp_ret, wp_bind, wp_print_strn; [lia|lia|]. rewrite Z.sub_0_r in HQ. pose proof (padded_length flags fill width ds). apply wp_sint; [lia|]. exact HQ.
    + rewrite (proj2 (Z.eqb_neq _ _)) by done. cbn [negb]. apply wp_bind, wp_print_strn; [cbn; lia|lia|].
      assert (padded flags fill 1 [c] = [c]) as -> by (unfold padded; by repeat case_match).
      apply wp_bind, wp_sint; [lia|]. apply wp_ret, wp_bind, wp_print_strn; [lia|lia|]. rewrite <-app_assoc. cbn [length app] in *.
      change (Z.of_nat 1) with 1 in *. pose proof (padded_length flags fill (width - 1) ds). apply wp_sint; [lia|]. rewrite Nat2Z.inj_succ in HQ.
      replace (1 + Z.of_nat (length (padded flags fill (width - 1) ds))) with (Z.succ (Z.of_nat (length (padded flags fill (width - 1) ds)))) by lia. exact HQ.
  - apply wp_ret.
    assert ((if negb (hd 0 sign =? 0) && (length ds <? INT_BUF_SIZE)%nat then hd 0 sign :: ds else ds) = sign ++ ds) as ->.
    { destruct Hsign as [->|(c & -> & Hc)]; [done|]. cbn [hd]. rewrite (proj2 (Z.eqb_neq _ _)) by done. cbn [negb andb].
      by rewrite (proj2 (Nat.ltb_lt (length ds) INT_BUF_SIZE)) by (unfold INT_BUF_SIZE; lia). }
    assert (length sign <= 1)%nat by (destruct Hsign as [->|(c & -> & Hc)]; cbn; lia).
    apply wp_bind, wp_print_strn; [rewrite length_app; lia|lia|]. pose proof (padded_length flags fill width (sign ++ ds)) as Hl. rewrite length_app in Hl.
    apply wp_sint; [lia|]. exact HQ.
Qed.

Lemma numeral_short base base_char v : 10 <= base <= 16 -> 65 <= base_char <= 97 -> 0 <= v < 2 ^ 32 -> (length (numeral base base_char v) < 16)%nat.
Proof.
  intros Hbase Hchar Hv. destruct (decide (v = 0)) as [->|Hn]; [rewrite numeral_0 by lia; cbn; lia|].
  assert (2 ^ 32 <= base ^ Z.of_nat 10) as Hpow by (transitivity (10 ^ 10); [lia|apply Z.pow_le_mono_l; lia]).
  destruct (magnitude base 10 v) as (k & Hk & Hkv); [lia|]. rewrite (numeral_digits base base_char) with (k := k) by (lia || done). rewrite digits_length. lia.
Qed.

Lemma sign_cases flags x : sign_of flags x = [] \/ exists c, sign_of flags x = [c] /\ c <> 0.
Proof. unfold sign_of. repeat case_match; try (by left); right; by eexists. Qed.

Lemma wp_print_int x (sgn : bool) base base_char flags fill width out (Q : Z -> list Z -> Prop) :
  10 <= base <= 16 -> 65 <= base_char <= 97 -> 0 <= x < 2 ^ 32 -> - 2 ^ 29 < width < 2 ^ 29 ->
  Q (Z.of_nat (length (printed_int x sgn base base_char flags fill width))) (out ++ printed_int x sgn base base_char flags fill width) ->
  wp (mp_print_int x sgn base base_char flags fill width) out Q.
Proof.
  intros Hbase Hchar Hx Hw HQ. unfold mp_print_int. destruct (magnitude_u32 x Hx) as [Hmag Hle].
  assert (forall sign v, sign = [] \/ (exists c, sign = [c] /\ c <> 0) -> 0 <= v < 2 ^ 32 ->
    printed_int x sgn base base_char flags fill width = join_sign flags fill width sign (numeral base base_char v) ->
    (if sgn then
      if s32 x <? 0 then ("-"%chr, u32 (- x))
      else if has flags PF_FLAG_SHOW_SIGN then ("+"%chr, x)
      else if has flags PF_FLAG_SPACE_SIGN then (" "%chr, x)
      else (0, x)
    else (0, x)) = (hd 0 sign, v) -> wp (mp_print_int x sgn base base_char flags fill width) out Q) as Hgo.
  { intros sign v Hsign Hv Hp Hcode. unfold mp_print_int. rewrite Hcode.
    assert (v < base ^ 16) by (apply Z.lt_le_trans with (10 ^ 16); [lia|apply Z.pow_le_mono_l; lia]).
    rewrite print_digits_numeral by lia. apply wp_join_sign; [done|by apply numeral_short|done|]. by rewrite <-Hp. }
  destruct sgn; [apply (Hgo (sign_of flags x) (Z.abs (s32 x))); [apply sign_cases|lia|done|]|by apply (Hgo [] x); [left|lia| |]].
  unfold sign_of. rewrite <-Hmag. by repeat case_match.
Qed.

(** ** Formats by their directives *)

(** A precision is a (possibly empty) decimal number or an argument. *)
Inductive precision := NoPrecision | Decimal (ds : list Z) | Star.
Record conversion := MkConversion {
  cv_flags : list Z;
  cv_width : list Z;
  cv_precision : precision;
  cv_long : bool;
  cv_char : Z;
}.

(** A format: plain text and a conversion, any number of times, and text at the end. *)
Definition render_precision (p : precision) : list Z :=
  match p with NoPrecision => [] | Decimal ds => "."%chr :: ds | Star => str ".*" end.
Definition render_conversion (cv : conversion) : list Z :=
  "%"%chr :: cv_flags cv ++ cv_width cv ++ render_precision (cv_precision cv) ++ (if cv_long cv then ["l"%chr] else []) ++ [cv_char cv].
Definition render (pieces : list (list Z * conversion)) (last : list Z) : list Z :=
  concat (map (fun e => e.1 ++ render_conversion e.2) pieces) ++ last.

Definition decimal_value (ds : list Z) : Z := fold_left (fun n c => n * 10 + (c - "0"%chr)) ds 0.
Definition is_decimal (c : Z) : Prop := "0"%chr <= c <= "9"%chr.
Definition text_ok (s : list Z) : Prop := Forall (fun c => c <> 0 /\ c <> "%"%chr) s.
Definition precision_ok (p : precision) : Prop :=
  match p with Decimal ds => Forall is_decimal ds /\ (length ds <= 8)%nat | _ => True end.
Record conversion_ok (cv : conversion) : Prop := {
  ok_flags : Forall (fun c => c ∈ str "-+ 0") (cv_flags cv);
  ok_width : Forall is_decimal (cv_width cv) /\ (length (cv_width cv) <= 8)%nat /\ hd 1 (cv_width cv) <> "0"%chr;
  ok_precision : precision_ok (cv_precision cv);
  ok_char : cv_char cv ∈ str "bcqsduxXpP%";
}.

(** The flags of a conversion, and the character it pads with *)
Definition flags_of (fl : list Z) : Z :=
  Z.lor (if bool_decide ("-"%chr ∈ fl) then PF_FLAG_LEFT_ADJUST else 0)
    (Z.lor (if bool_decide ("+"%chr ∈ fl) then PF_FLAG_SHOW_SIGN else 0)
      (Z.lor (if bool_decide (" "%chr ∈ fl) then PF_FLAG_SPACE_SIGN else 0)
        (if bool_decide ("0"%chr ∈ fl) then PF_FLAG_PAD_AFTER_SIGN else 0))).
Definition fill_of (fl : list Z) : Z := if bool_decide ("0"%chr ∈ fl) then "0"%chr else " "%chr.

(** What a conversion prints for its arguments, and the arguments left. *)
Definition cut_to (prec : option Z) (s : list Z) : list Z := match prec with Some p => take (Z.to_nat p) s | None => s end.
Definition precision_value (p : precision) (args : list printf_arg) : option (option Z * list printf_arg) :=
  match p, args with
  | NoPrecision, _ => Some (None, args)
  | Decimal ds, _ => Some (Some (decimal_value ds), args)
  | Star, ArgInt v :: args => Some (Some (Z.max 0 (s32 v)), args)
  | Star, _ => None
  end.
Definition argument_text (cv : conversion) (prec : option Z) (args : list printf_arg) : option (list Z * list printf_arg) :=
  let flags := flags_of (cv_flags cv) in
  let fill := fill_of (cv_flags cv) in
  let width := decimal_value (cv_width cv) in
  let number v signed base base_char := printed_int (u32 v) signed base base_char flags fill width in
  if cv_char cv =? "%"%chr then Some (["%"%chr], args)
  else
    match args with
    | ArgInt v :: args =>
        if cv_char cv =? "b"%chr then Some (padded flags fill width (if v =? 0 then str "false" else str "true"), args)
        else if cv_char cv =? "c"%chr then Some (padded flags fill width [u8 v], args)
        else if cv_char cv =? "d"%chr then Some (number v true 10 "a"%chr, args)
        else if cv_char cv =? "u"%chr then Some (number v false 10 "a"%chr, args)
        else if bool_decide (cv_char cv ∈ str "xpP") then Some (number v false 16 "a"%chr, args)
        else if cv_char cv =? "X"%chr then Some (number v false 16 "A"%chr, args)
        else None
    | ArgStr (Some s) :: args => if cv_char cv =? "s"%chr then Some (padded flags fill width (cut_to prec s), args) else None
    | ArgStr None :: args =>
        if (cv_char cv =? "s"%chr) && negb (bool_decide (prec = Some 0)) then Some (padded flags fill width (str "(null)"), args) else None
    | ArgQstr s :: args => if cv_char cv =? "q"%chr then Some (padded flags fill width (cut_to prec s), args) else None
    | [] => None
    end.
Definition conversion_text (cv : conversion) (args : list printf_arg) : option (list Z * list printf_arg) :=
  '(prec, args) ← precision_value (cv_precision cv) args; argument_text cv prec args.
Fixpoint format_text (pieces : list (list Z * conversion)) (last : list Z) (args : list printf_arg) : option (list Z) :=
  match pieces with
  | [] => Some last
  | (s, cv) :: pieces =>
      '(t, args) ← conversion_text cv args;
      rest ← format_text pieces last args;
      Some (s ++ t ++ rest)
  end.

(** ** Reading a format *)

Lemma plain_text_app s fmt : text_ok s -> plain_text (s ++ fmt) = (s ++ (plain_text fmt).1, (plain_text fmt).2).
Proof.
  induction 1 as [|c s [H0 Hp] Hs IH]; cbn; [by destruct (plain_text fmt)|]. rewrite !(proj2 (Z.eqb_neq c _)) by done. cbn. by rewrite IH.
Qed.

Lemma plain_text_conversion s cv fmt : text_ok s -> plain_text (s ++ render_conversion cv ++ fmt) = (s, render_conversion cv ++ fmt).
Proof. intros Hs. rewrite plain_text_app by done. cbn. by rewrite app_nil_r. Qed.

Lemma plain_text_last s : text_ok s -> plain_text s = (s, []).
Proof. intros Hs. rewrite <-(app_nil_r s) at 1. rewrite plain_text_app by done. cbn. by rewrite app_nil_r. Qed.

(** Nothing in front that would belong to the flags or to a number *)
Definition ends_flags (fmt : list Z) : Prop := fmt_char fmt ∉ str "-+ 0".
Definition ends_number (fmt : list Z) : Prop := ~ is_decimal (fmt_char fmt).

Lemma parse_flags_rendered fl fmt : forall flags fill, Forall (fun c => c ∈ str "-+ 0") fl -> ends_flags fmt ->
  parse_flags (fl ++ fmt) flags fill =
    (Z.lor flags (flags_of fl), if bool_decide ("0"%chr ∈ fl) then "0"%chr else fill, fmt).
Proof.
  induction fl as [|c fl IH]; intros flags fill Hfl Hend.
  - cbn [app]. change (flags_of []) with 0. rewrite Z.lor_0_r. rewrite bool_decide_false by apply not_elem_of_nil.
    unfold ends_flags, fmt_char in Hend. destruct fmt as [|c fmt]; [done|]. cbn [hd parse_flags] in *.
    rewrite !(proj2 (Z.eqb_neq c _)) by (intros ->; apply Hend, list_elem_of_In; cbn; tauto). done.
  - apply Forall_cons_1 in Hfl as [Hc Hfl]. cbn [app parse_flags].
    assert (forall x, bool_decide (x ∈ c :: fl) = (c =? x) || bool_decide (x ∈ fl)) as Hmem.
    { intros x. destruct (Z.eqb_spec c x) as [->|Hne]; cbn [orb]; [apply bool_decide_true; left|]. apply bool_decide_ext. rewrite elem_of_cons.
      split; [by intros [->|]|by right]. }
    unfold flags_of. rewrite !Hmem.
    apply list_elem_of_In in Hc. vm_compute in Hc. destruct Hc as [<-|[<-|[<-|[<-|[]]]]]; cbn [Z.eqb Pos.eqb orb]; rewrite IH by done; unfold flags_of;
      rewrite <-?Z.lor_assoc; repeat destruct (bool_decide _); reflexivity.
Qed.

Lemma decimal_bound ds n : Forall is_decimal ds -> 0 <= n ->
  n * 10 ^ Z.of_nat (length ds) <= fold_left (fun n c => n * 10 + (c - "0"%chr)) ds n < (n + 1) * 10 ^ Z.of_nat (length ds).
Proof.
  intros Hds. revert n. induction Hds as [|c ds Hc Hds IH]; intros n Hn; cbn [fold_left length]; [cbn; lia|].
  rewrite Nat2Z.inj_succ, Z.pow_succ_r by lia. unfold is_decimal in Hc. specialize (IH (n * 10 + (c - 48)) ltac:(lia)).
  pose proof (Z.pow_pos_nonneg 10 (Z.of_nat (length ds))). nia.
Qed.

Lemma decimal_value_bound ds : Forall is_decimal ds -> (length ds <= 8)%nat -> 0 <= decimal_value ds < 10 ^ 8.
Proof.
  intros Hds Hl. pose proof (decimal_bound ds 0 Hds ltac:(done)) as Hb. unfold decimal_value. split; [lia|].
  assert (10 ^ Z.of_nat (length ds) <= 10 ^ 8) by (apply Z.pow_le_mono_r; lia). lia.
Qed.

Lemma wp_parse_decimal_from ds fmt out (Q : Z * list Z -> list Z -> Prop) : Forall is_decimal ds -> ends_number fmt -> forall n,
  0 <= n -> (n + 1) * 10 ^ Z.of_nat (length ds) <= 10 ^ 8 ->
  Q (fold_left (fun n c => n * 10 + (c - "0"%chr)) ds n, fmt) out -> wp (parse_decimal (ds ++ fmt) n) out Q.
Proof.
  intros Hds Hend. induction Hds as [|c ds Hc Hds IH]; intros n Hn Hsz HQ; cbn [app fold_left] in *.
  - unfold ends_number, is_decimal, fmt_char in Hend. destruct fmt as [|c fmt]; [by apply wp_ret|]. cbn [hd parse_decimal] in *.
    destruct ((48 <=? c) && (c <=? 57)) eqn:E; to_prop; [lia|]. by apply wp_ret.
  - cbn [parse_decimal length] in *. rewrite Nat2Z.inj_succ, Z.pow_succ_r in Hsz by lia. unfold is_decimal in Hc.
    pose proof (Z.pow_pos_nonneg 10 (Z.of_nat (length ds))).
    rewrite !(proj2 (Z.leb_le _ _)) by lia. cbn [andb]. apply wp_bind, wp_sint; [nia|].
    replace (n * 10 + c - 48) with (n * 10 + (c - 48)) by lia. apply IH; [lia|nia|done].
Qed.

Lemma wp_parse_decimal ds fmt out (Q : Z * list Z -> list Z -> Prop) : Forall is_decimal ds -> (length ds <= 8)%nat -> ends_number fmt ->
  Q (decimal_value ds, fmt) out -> wp (parse_decimal (ds ++ fmt) 0) out Q.
Proof.
  intros Hds Hl Hend HQ. apply wp_parse_decimal_from; [done|done|done| |done]. rewrite Z.mul_1_l. apply Z.pow_le_mono_r; lia.
Qed.

(** ** Conversions *)

Lemma char_facts c : c ∈ str "lbcqsduxXpP%." -> ~ is_decimal c /\ (c ∉ str "-+ 0") /\ c <> 0 /\ c <> "*"%chr.
Proof.
  intros Hc. assert (forallb (fun c => negb ((48 <=? c) && (c <=? 57)) && negb (bool_decide (c ∈ str "-+ 0")) && negb (c =? 0) && negb (c =? 42)) (str "lbcqsduxXpP%.") = true) as H by (vm_compute; reflexivity).
  rewrite forallb_forall in H. apply list_elem_of_In in Hc. specialize (H c Hc). to_prop. unfold is_decimal.
  match goal with H : bool_decide _ = false |- _ => apply bool_decide_eq_false in H end. split; [lia|]. done.
Qed.

(** What follows the precision of a conversion *)
Definition after_precision (cv : conversion) (fmt : list Z) : list Z := (if cv_long cv then ["l"%chr] else []) ++ [cv_char cv] ++ fmt.

Lemma after_precision_head cv fmt : conversion_ok cv -> fmt_char (after_precision cv fmt) ∈ str "lbcqsduxXpP%" /\ fmt_char (after_precision cv fmt) <> "."%chr.
Proof.
  intros [_ _ _ Hc]. assert (fmt_char (after_precision cv fmt) ∈ str "lbcqsduxXpP%") as Hin.
  { unfold after_precision. destruct (cv_long cv); [left|]. cbn [app fmt_char hd]. change (str "lbcqsduxXpP%") with ("l"%chr :: str "bcqsduxXpP%"). by right. }
  split; [done|]. intros He. rewrite He in Hin. apply list_elem_of_In in Hin. vm_compute in Hin. by intuition congruence.
Qed.

Lemma after_precision_facts cv fmt : conversion_ok cv ->
  ends_number (after_precision cv fmt) /\ ends_flags (after_precision cv fmt) /\ fmt_char (after_precision cv fmt) <> "*"%chr /\ fmt_char (after_precision cv fmt) <> "."%chr.
Proof.
  intros Hok. destruct (after_precision_head cv fmt Hok) as [Hin Hdot]. destruct (char_facts (fmt_char (after_precision cv fmt))) as (? & ? & ? & ?); [|done].
  apply list_elem_of_In in Hin. apply list_elem_of_In. change (str "lbcqsduxXpP%.") with (str "lbcqsduxXpP%" ++ ["."%chr]). apply in_or_app. by left.
Qed.

(** How the code writes a precision *)
Definition code_precision (prec : option Z) : Z := match prec with Some p => p | None => -1 end.

Lemma wp_parse_precision cv fmt args prec args' out (Q : Z * list Z * list printf_arg -> list Z -> Prop) : conversion_ok cv ->
  precision_value (cv_precision cv) args = Some (prec, args') ->
  Q (code_precision prec, after_precision cv fmt, args') out ->
  wp (parse_precision (render_precision (cv_precision cv) ++ after_precision cv fmt) args) out Q.
Proof.
  intros Hok Hp HQ. destruct (after_precision_facts cv fmt Hok) as (Hnum & _ & Hstar & Hdot). pose proof (ok_precision _ Hok) as Hpok.
  unfold parse_precision. destruct (cv_precision cv) as [|ds|]; cbn [render_precision app precision_value precision_ok] in *.
  - injection Hp as <- <-. rewrite (proj2 (Z.eqb_neq _ _)) by done. by apply wp_ret.
  - injection Hp as <- <-. change (fmt_char (46 :: ds ++ after_precision cv fmt)) with 46. cbn [tail]. change (46 =? 46) with true. cbv iota. destruct Hpok as [Hds Hl].
    assert ((fmt_char (ds ++ after_precision cv fmt) =? 42) = false) as ->.
    { apply Z.eqb_neq. destruct Hds as [|d ds Hd _]; [done|]. unfold is_decimal in Hd. cbn. lia. }
    apply wp_bind, wp_bind, wp_parse_decimal; [done|done|done|]. apply wp_ret, wp_ret. pose proof (decimal_value_bound ds Hds Hl).
    by rewrite (proj2 (Z.ltb_ge _ _)) by lia.
  - destruct args as [|[v| |] args]; try done. injection Hp as <- <-.
    change (str ".*" ++ after_precision cv fmt) with (46 :: 42 :: after_precision cv fmt). cbn [fmt_char hd tail]. change (46 =? 46) with true. change (42 =? 42) with true. cbv iota.
    apply wp_bind, wp_bind. unfold va_int. apply wp_ret, wp_ret, wp_ret. cbn [code_precision] in HQ.
    replace (if s32 v <? 0 then 0 else s32 v) with (Z.max 0 (s32 v)); [done|]. destruct (Z.ltb_spec (s32 v) 0); lia.
Qed.

Lemma cut_code prec s : (forall p, prec = Some p -> 0 <= p) -> cut (code_precision prec) s = cut_to prec s.
Proof.
  intros Hp. unfold cut, cut_to. destruct prec as [p|]; [|done]. specialize (Hp p eq_refl). cbn [code_precision].
  rewrite (proj2 (Z.leb_le _ _)) by done. cbn [andb]. destruct (Z.ltb_spec p (Z.of_nat (length s))); [done|]. by rewrite take_ge by lia.
Qed.

Lemma precision_nonneg p args prec args' : precision_ok p -> precision_value p args = Some (prec, args') -> forall q, prec = Some q -> 0 <= q.
Proof.
  intros Hok Hv q ->. destruct p as [|ds|], args as [|[v| |] args]; cbn in Hv; try done; injection Hv as <- <-; try lia;
    destruct Hok as [Hds Hl]; pose proof (decimal_value_bound ds Hds Hl); lia.
Qed.

Lemma u32_range x : 0 <= u32 x < 2 ^ 32.
Proof. by apply uwrap_range. Qed.

Section Conversion.
Context (cv : conversion) (prec : option Z) (out : list Z) (Q : Z * list printf_arg -> list Z -> Prop).
Hypothesis (Hok : conversion_ok cv) (Hprec : forall p, prec = Some p -> 0 <= p).
Local Abbreviation flags := (flags_of (cv_flags cv)).
Local Abbreviation fill := (fill_of (cv_flags cv)).
Local Abbreviation width := (decimal_value (cv_width cv)).

Lemma width_bound : 0 <= width < 10 ^ 8.
Proof. destruct (ok_width _ Hok) as (Hd & Hl & _). by apply decimal_value_bound. Qed.

Lemma wp_string_then s args t : Z.of_nat (length t) < 2 ^ 30 -> t = padded flags fill width s -> Q (Z.of_nat (length t), args) (out ++ t) ->
  wp (n ← mp_print_strn s flags fill width; mret (n, args)) out Q.
Proof.
  intros Ht -> HQ. pose proof width_bound. pose proof (padded_length flags fill width s). apply wp_bind, wp_print_strn; [lia|lia|]. by apply wp_ret.
Qed.

Lemma wp_int_then v sgn base base_char args t : 10 <= base <= 16 -> 65 <= base_char <= 97 ->
  t = printed_int (u32 v) sgn base base_char flags fill width -> Q (Z.of_nat (length t), args) (out ++ t) ->
  wp (n ← mp_print_int (u32 v) sgn base base_char flags fill width; mret (n, args)) out Q.
Proof.
  intros Hb Hc -> HQ. pose proof width_bound. apply wp_bind, wp_print_int; [done|done|apply u32_range|lia|]. by apply wp_ret.
Qed.

Lemma wp_conversion args t args' : Z.of_nat (length t) < 2 ^ 30 -> argument_text cv prec args = Some (t, args') ->
  Q (Z.of_nat (length t), args') (out ++ t) -> wp (print_conversion (cv_char cv) flags fill width (code_precision prec) args) out Q.
Proof.
  intros Ht Hc HQ. pose proof (ok_char _ Hok) as Hch. apply list_elem_of_In in Hch. unfold argument_text in Hc. unfold print_conversion.
  revert Hc Hch. generalize (cv_char cv) as c. intros c Hc Hch. vm_compute in Hch.
  repeat match type of Hch with _ \/ _ => destruct Hch as [<-|Hch] end; try done; cbn [Z.eqb Pos.eqb negb andb orb] in *.
  all: try (injection Hc as <- <-; apply wp_bind, wp_assert; [done|]; apply wp_bind, wp_modify, wp_ret; exact HQ).
  all: destruct args as [|[v|[s|]|s] args]; try done;
    rewrite ?bool_decide_true in Hc by (apply list_elem_of_In; vm_compute; tauto); try done; try (injection Hc as Hc <-);
    try match goal with |- context [va_int] => unfold va_int; apply wp_bind, wp_ret end; rewrite ?cut_code by done.
  all: try match goal with |- wp (mp_print_int _ ?sgn ?base ?base_char _ _ _ ≫= _) _ _ =>
    let b := eval vm_compute in base in let c := eval vm_compute in base_char in
    apply (wp_int_then v sgn b c args t); [lia|lia|exact (eq_sym Hc)|exact HQ] end.
  all: try solve [eapply wp_string_then; [exact Ht|rewrite <-Hc; by destruct (v =? 0)|exact HQ] | eapply wp_string_then; [exact Ht|exact (eq_sym Hc)|exact HQ]].
  destruct prec as [p|]; [|injection Hc as <- <-; by eapply wp_string_then].
  destruct (Z.eqb_spec p 0) as [->|Hp0]; [by rewrite bool_decide_true in Hc|]. rewrite bool_decide_false in Hc by congruence. injection Hc as <- <-.
  cbn [code_precision]. rewrite (proj2 (Z.eqb_neq _ _)) by done. by eapply wp_string_then.
Qed.

End Conversion.

(** ** The loop *)

Lemma conversion_rendered cv fmt : render_conversion cv ++ fmt =
  "%"%chr :: cv_flags cv ++ cv_width cv ++ render_precision (cv_precision cv) ++ after_precision cv fmt.
Proof. unfold render_conversion, after_precision. cbn [app]. by rewrite <-!app_assoc. Qed.

Lemma number_ends cv fmt : conversion_ok cv -> ends_number (render_precision (cv_precision cv) ++ after_precision cv fmt) /\
  ends_flags (cv_width cv ++ render_precision (cv_precision cv) ++ after_precision cv fmt).
Proof.
  intros Hok. destruct (after_precision_facts cv fmt Hok) as (Hnum & Hfl & _).
  assert (forall ds, ~ is_decimal (fmt_char (46 :: ds)) /\ (fmt_char (46 :: ds) ∉ str "-+ 0")) as Hdot.
  { intros ds. split; [unfold is_decimal; cbn; lia|]. apply (bool_decide_unpack _). vm_compute. exact I. }
  assert (ends_number (render_precision (cv_precision cv) ++ after_precision cv fmt) /\ ends_flags (render_precision (cv_precision cv) ++ after_precision cv fmt)) as [H1 H2].
  { destruct (cv_precision cv) as [|ds|]; [done|apply Hdot|apply (Hdot (42 :: after_precision cv fmt))]. }
  split; [done|]. destruct (ok_width _ Hok) as (Hd & _ & Hz). destruct (cv_width cv) as [|d ds]; [done|]. inversion Hd as [|? ? Hdd]; subst. cbn [hd] in Hz.
  unfold ends_flags. cbn [app fmt_char hd]. unfold is_decimal in Hdd. rewrite list_elem_of_In. intros Hin. vm_compute in Hin. lia.
Qed.

Lemma wp_print_text s chrs out (Q : Z -> list Z -> Prop) : 0 <= chrs -> chrs + Z.of_nat (length s) < 2 ^ 31 ->
  Q (chrs + Z.of_nat (length s)) (out ++ s) ->
  wp (if negb (Z.of_nat (length s) =? 0) then print_strn s;; sint (chrs + Z.of_nat (length s)) else mret chrs) out Q.
Proof.
  intros H0 Hsz HQ. destruct s as [|c s]; [cbn in *; rewrite Z.add_0_r, app_nil_r in HQ; by apply wp_ret|].
  rewrite (proj2 (Z.eqb_neq _ _)) by (cbn; lia). cbn [negb]. apply wp_bind, wp_modify. by apply wp_sint; [lia|].
Qed.

(** One text and one conversion are one round. *)
Lemma wp_print_piece s cv fmt args chrs t args' out (Q : (list Z * list printf_arg * Z) + Z -> list Z -> Prop) : text_ok s -> conversion_ok cv ->
  conversion_text cv args = Some (t, args') -> 0 <= chrs -> chrs + Z.of_nat (length s) + Z.of_nat (length t) < 2 ^ 30 ->
  Q (inl (fmt, args', chrs + Z.of_nat (length s) + Z.of_nat (length t))) (out ++ s ++ t) ->
  wp (print_directive (s ++ render_conversion cv ++ fmt, args, chrs)) out Q.
Proof.
  intros Hs Hok Ht H0 Hsz HQ. unfold print_directive. rewrite plain_text_conversion by done.
  apply wp_bind, wp_print_text; [done|lia|]. rewrite conversion_rendered. change (fmt_char ("%"%chr :: _) =? 0) with false. cbv iota. cbn [tail].
  destruct (number_ends cv fmt Hok) as [Hnum Hfl]. rewrite parse_flags_rendered by (apply Hok || done).
  rewrite Z.lor_0_l. fold (fill_of (cv_flags cv)).
  destruct (ok_width _ Hok) as (Hd & Hl & _). apply wp_bind, wp_parse_decimal; [done|done|done|].
  unfold conversion_text in Ht. destruct (precision_value (cv_precision cv) args) as [[prec args1]|] eqn:Hp; [|done]. cbn [mbind option_bind] in Ht.
  apply wp_bind. eapply wp_parse_precision; [done|exact Hp|].
  assert (cv_char cv <> 0 /\ cv_char cv <> "l"%chr) as [Hc0 Hcl].
  { pose proof (ok_char _ Hok) as Hin. apply list_elem_of_In in Hin. revert Hin. generalize (cv_char cv). intros c Hin. vm_compute in Hin. split; intros ->; intuition congruence. }
  assert ((if fmt_char (after_precision cv fmt) =? "l"%chr then tail (after_precision cv fmt) else after_precision cv fmt) = cv_char cv :: fmt) as ->.
  { unfold after_precision. destruct (cv_long cv); cbn [app fmt_char hd tail]; [done|]. by rewrite (proj2 (Z.eqb_neq _ _)). }
  cbn [fmt_char hd tail]. rewrite (proj2 (Z.eqb_neq _ _)) by done.
  apply wp_bind. eapply wp_conversion; [done|by eapply precision_nonneg; [apply Hok|]| |exact Ht|]; [lia|].
  apply wp_bind, wp_sint; [lia|]. apply wp_ret. by rewrite <-app_assoc.
Qed.

Lemma wp_vprintf_loop pieces last : text_ok last -> Forall (fun e => text_ok e.1 /\ conversion_ok e.2) pieces ->
  forall fuel args chrs s out, (length pieces < fuel)%nat -> format_text pieces last args = Some s -> 0 <= chrs -> chrs + Z.of_nat (length s) < 2 ^ 30 ->
  wp (loop fuel print_directive (render pieces last, args, chrs)) out (fun n o => n = chrs + Z.of_nat (length s) /\ o = out ++ s).
Proof.
  intros Hlast Hps. induction Hps as [|[txt cv] pieces [Htxt Hok] Hps IH]; intros fuel args chrs s out Hf Hs H0 Hsz; (destruct fuel as [|fuel]; [lia|]); cbn [loop length] in *; apply wp_bind.
  - cbn [format_text] in Hs. injection Hs as <-. change (render [] last) with last. unfold print_directive. rewrite plain_text_last by done.
    apply wp_bind, wp_print_text; [done|lia|]. by apply wp_ret, wp_ret.
  - cbn [format_text fst snd] in *. destruct (conversion_text cv args) as [[t args']|] eqn:Ht; [|done]. cbn [mbind option_bind] in Hs.
    destruct (format_text pieces last args') as [rest|] eqn:Hrest; [|done]. cbn [mbind option_bind] in Hs. injection Hs as <-. rewrite !length_app in Hsz.
    assert (render ((txt, cv) :: pieces) last = txt ++ render_conversion cv ++ render pieces last) as -> by (unfold render; cbn [map concat fst snd]; by rewrite <-!app_assoc).
    eapply wp_print_piece; [done|done|exact Ht|done|lia|]. eapply wp_mono; [eapply IH; [lia|exact Hrest|lia|lia]|].
    intros n o [-> ->]. split; [rewrite !length_app; lia|by rewrite <-!app_assoc].
Qed.

Lemma render_length pieces last : (length pieces <= length (render pieces last))%nat.
Proof.
  unfold render. rewrite length_app. induction pieces as [|[s cv] pieces IH]; cbn [map concat length fst snd]; [lia|].
  assert (0 < length (render_conversion cv))%nat by (unfold render_conversion; cbn; lia). rewrite !length_app. lia.
Qed.

Lemma wp_printf pieces last args s out : text_ok last -> Forall (fun e => text_ok e.1 /\ conversion_ok e.2) pieces ->
  format_text pieces last args = Some s -> Z.of_nat (length s) < 2 ^ 30 ->
  wp (mp_printf (render pieces last) args) out (fun n o => n = Z.of_nat (length s) /\ o = out ++ s).
Proof.
  intros Hl Hps Hs Hsz. unfold mp_printf, mp_vprintf. apply (wp_vprintf_loop pieces last Hl Hps _ args 0 s out); [|done|done|lia].
  pose proof (render_length pieces last). lia.
Qed.

(** [mp_printf] prints what its format says and returns how much that is: for
    any texts and conversions with flags, widths and precisions, in any order,
    and arguments that fit them, the text at its place, each number in its base
    with its sign and without leading zeros, strings cut to the precision, and
    all of them filled up to their width on the side the flags ask for. *)
Theorem mp_printf_correct pieces last args s out : text_ok last -> Forall (fun e => text_ok e.1 /\ conversion_ok e.2) pieces ->
  format_text pieces last args = Some s -> Z.of_nat (length s) < 2 ^ 30 ->
  mp_printf (render pieces last) args out = Some (Z.of_nat (length s), out ++ s).
Proof.
  intros Hl Hps Hs Hsz. destruct (run_value _ _ _ (wp_printf pieces last args s out Hl Hps Hs Hsz)) as (n & o & Hrun & -> & ->). exact Hrun.
Qed.

(** [value %-6d|%+05ld%%] *)
Definition sample_format : list (list Z * conversion) :=
  [(str "value ", MkConversion (str "-") (str "6") NoPrecision false "d"%chr);
   (str "|", MkConversion (str "+0") (str "5") NoPrecision true "d"%chr);
   (str "", MkConversion [] [] (Decimal (str "2")) false "s"%chr);
   (str "", MkConversion [] [] NoPrecision false "%"%chr)].
Lemma mp_printf_correct_witness :
  mp_printf (str "value %-6d|%+05ld%.2s%%.") [ArgInt (-42); ArgInt 17; ArgStr (Some (str "abc"))] [] =
    Some (22, str "value -42   |+0017ab%.").
Proof.
  apply (mp_printf_correct sample_format (str ".") [ArgInt (-42); ArgInt 17; ArgStr (Some (str "abc"))] (str "value -42   |+0017ab%.") []).
  - repeat (constructor; [split; intros [=]|]). constructor.
  - repeat (constructor; [split; [repeat (constructor; [split; intros [=]|]); constructor|]|]); [..|constructor].
    all: split; [repeat (constructor; [apply (bool_decide_unpack _); vm_compute; exact I|]); constructor| | |apply (bool_decide_unpack _); vm_compute; exact I].
    all: cbn; unfold is_decimal; repeat split; try (repeat (constructor; [cbn; lia|]); constructor); try lia; intros [=].
  - reflexivity.
  - done.
Defined.
