(* ===== verification/Lexer.v ===== *)
(** * The lexer ([py/lexer.c], [py/lexer.h], the reader of memory of [py/reader.c])

    The state is the [mp_lexer_t]: a queue of three characters in front of the
    reader, the stack of indentations, and the text of the token in a [vstr_t].
    The arguments of an f-string are collected in a second [vstr_t] and are then
    read instead of the source.  A loop over characters has the number of
    characters there are as its fuel; the lexer of an f-string in the arguments of
    an f-string may read what it writes and then has no end. *)
From Stdlib Require Import Ascii String.
From S2P Require Import Prelude.
From S2P Require Import CMem.
From S2P Require Import Unicode.
From S2P Require Import Vstr.
From S2P Require Import MpPrint.
Local Open Scope Z_scope.

(** ** Constants *)

Definition NEWLINE_CHAR : Z := 10.
Definition DOUBLE_QUOTE : Z := 34.
Definition BACKSLASH : Z := 92.
Definition MP_READER_EOF : Z := u32 (-1).
Definition MP_LEXER_EOF : Z := MP_READER_EOF.
Definition TAB_SIZE : Z := 8.
Definition MICROPY_ALLOC_LEXER_INDENT_INIT : Z := 10.
Definition MICROPY_ALLOC_LEXEL_INDENT_INC : Z := 8.

(** ** Tokens *)

Inductive mp_token_kind_t :=
  | END | INVALID | DEDENT_MISMATCH | LONELY_STRING_OPEN | MALFORMED_FSTRING | NEWLINE | INDENT | DEDENT
  | NAME | INTEGER | FLOAT_OR_IMAG | STRING | BYTES | ELLIPSIS | KW_FALSE | KW_NONE | KW_TRUE | KW___DEBUG__
  | KW_AND | KW_AS | KW_ASSERT | KW_ASYNC | KW_AWAIT | KW_BREAK | KW_CLASS | KW_CONTINUE | KW_DEF | KW_DEL
  | KW_ELIF | KW_ELSE | KW_EXCEPT | KW_FINALLY | KW_FOR | KW_FROM | KW_GLOBAL | KW_IF | KW_IMPORT | KW_IN
  | KW_IS | KW_LAMBDA | KW_NONLOCAL | KW_NOT | KW_OR | KW_PASS | KW_RAISE | KW_RETURN | KW_TRY | KW_WHILE
  | KW_WITH | KW_YIELD | OP_ASSIGN | OP_TILDE | OP_LESS | OP_MORE | OP_DBL_EQUAL | OP_LESS_EQUAL
  | OP_MORE_EQUAL | OP_NOT_EQUAL | OP_PIPE | OP_CARET | OP_AMPERSAND | OP_DBL_LESS | OP_DBL_MORE | OP_PLUS
  | OP_MINUS | OP_STAR | OP_AT | OP_DBL_SLASH | OP_SLASH | OP_PERCENT | OP_DBL_STAR | DEL_PIPE_EQUAL
  | DEL_CARET_EQUAL | DEL_AMPERSAND_EQUAL | DEL_DBL_LESS_EQUAL | DEL_DBL_MORE_EQUAL | DEL_PLUS_EQUAL
  | DEL_MINUS_EQUAL | DEL_STAR_EQUAL | DEL_AT_EQUAL | DEL_DBL_SLASH_EQUAL | DEL_SLASH_EQUAL
  | DEL_PERCENT_EQUAL | DEL_DBL_STAR_EQUAL | DEL_PAREN_OPEN | DEL_PAREN_CLOSE | DEL_BRACKET_OPEN
  | DEL_BRACKET_CLOSE | DEL_BRACE_OPEN | DEL_BRACE_CLOSE | DEL_COMMA | DEL_COLON | DEL_PERIOD | DEL_SEMICOLON
  | DEL_EQUAL | DEL_MINUS_MORE.

(** The enumeration in its order, and the value of a constant. *)
Definition token_kinds : list mp_token_kind_t :=
  [END; INVALID; DEDENT_MISMATCH; LONELY_STRING_OPEN; MALFORMED_FSTRING; NEWLINE; INDENT; DEDENT; NAME;
   INTEGER; FLOAT_OR_IMAG; STRING; BYTES; ELLIPSIS; KW_FALSE; KW_NONE; KW_TRUE; KW___DEBUG__; KW_AND; KW_AS;
   KW_ASSERT; KW_ASYNC; KW_AWAIT; KW_BREAK; KW_CLASS; KW_CONTINUE; KW_DEF; KW_DEL; KW_ELIF; KW_ELSE;
   KW_EXCEPT; KW_FINALLY; KW_FOR; KW_FROM; KW_GLOBAL; KW_IF; KW_IMPORT; KW_IN; KW_IS; KW_LAMBDA; KW_NONLOCAL;
   KW_NOT; KW_OR; KW_PASS; KW_RAISE; KW_RETURN; KW_TRY; KW_WHILE; KW_WITH; KW_YIELD; OP_ASSIGN; OP_TILDE;
   OP_LESS; OP_MORE; OP_DBL_EQUAL; OP_LESS_EQUAL; OP_MORE_EQUAL; OP_NOT_EQUAL; OP_PIPE; OP_CARET;
   OP_AMPERSAND; OP_DBL_LESS; OP_DBL_MORE; OP_PLUS; OP_MINUS; OP_STAR; OP_AT; OP_DBL_SLASH; OP_SLASH;
   OP_PERCENT; OP_DBL_STAR; DEL_PIPE_EQUAL; DEL_CARET_EQUAL; DEL_AMPERSAND_EQUAL; DEL_DBL_LESS_EQUAL;
   DEL_DBL_MORE_EQUAL; DEL_PLUS_EQUAL; DEL_MINUS_EQUAL; DEL_STAR_EQUAL; DEL_AT_EQUAL; DEL_DBL_SLASH_EQUAL;
   DEL_SLASH_EQUAL; DEL_PERCENT_EQUAL; DEL_DBL_STAR_EQUAL; DEL_PAREN_OPEN; DEL_PAREN_CLOSE; DEL_BRACKET_OPEN;
   DEL_BRACKET_CLOSE; DEL_BRACE_OPEN; DEL_BRACE_CLOSE; DEL_COMMA; DEL_COLON; DEL_PERIOD; DEL_SEMICOLON;
   DEL_EQUAL; DEL_MINUS_MORE].

Definition token_value (k : mp_token_kind_t) : nat :=
  match k with
  | END => 0 | INVALID => 1 | DEDENT_MISMATCH => 2 | LONELY_STRING_OPEN => 3 | MALFORMED_FSTRING => 4
  | NEWLINE => 5 | INDENT => 6 | DEDENT => 7 | NAME => 8 | INTEGER => 9 | FLOAT_OR_IMAG => 10 | STRING => 11
  | BYTES => 12 | ELLIPSIS => 13 | KW_FALSE => 14 | KW_NONE => 15 | KW_TRUE => 16 | KW___DEBUG__ => 17
  | KW_AND => 18 | KW_AS => 19 | KW_ASSERT => 20 | KW_ASYNC => 21 | KW_AWAIT => 22 | KW_BREAK => 23
  | KW_CLASS => 24 | KW_CONTINUE => 25 | KW_DEF => 26 | KW_DEL => 27 | KW_ELIF => 28 | KW_ELSE => 29
  | KW_EXCEPT => 30 | KW_FINALLY => 31 | KW_FOR => 32 | KW_FROM => 33 | KW_GLOBAL => 34 | KW_IF => 35
  | KW_IMPORT => 36 | KW_IN => 37 | KW_IS => 38 | KW_LAMBDA => 39 | KW_NONLOCAL => 40 | KW_NOT => 41
  | KW_OR => 42 | KW_PASS => 43 | KW_RAISE => 44 | KW_RETURN => 45 | KW_TRY => 46 | KW_WHILE => 47
  | KW_WITH => 48 | KW_YIELD => 49 | OP_ASSIGN => 50 | OP_TILDE => 51 | OP_LESS => 52 | OP_MORE => 53
  | OP_DBL_EQUAL => 54 | OP_LESS_EQUAL => 55 | OP_MORE_EQUAL => 56 | OP_NOT_EQUAL => 57 | OP_PIPE => 58
  | OP_CARET => 59 | OP_AMPERSAND => 60 | OP_DBL_LESS => 61 | OP_DBL_MORE => 62 | OP_PLUS => 63
  | OP_MINUS => 64 | OP_STAR => 65 | OP_AT => 66 | OP_DBL_SLASH => 67 | OP_SLASH => 68 | OP_PERCENT => 69
  | OP_DBL_STAR => 70 | DEL_PIPE_EQUAL => 71 | DEL_CARET_EQUAL => 72 | DEL_AMPERSAND_EQUAL => 73
  | DEL_DBL_LESS_EQUAL => 74 | DEL_DBL_MORE_EQUAL => 75 | DEL_PLUS_EQUAL => 76 | DEL_MINUS_EQUAL => 77
  | DEL_STAR_EQUAL => 78 | DEL_AT_EQUAL => 79 | DEL_DBL_SLASH_EQUAL => 80 | DEL_SLASH_EQUAL => 81
  | DEL_PERCENT_EQUAL => 82 | DEL_DBL_STAR_EQUAL => 83 | DEL_PAREN_OPEN => 84 | DEL_PAREN_CLOSE => 85
  | DEL_BRACKET_OPEN => 86 | DEL_BRACKET_CLOSE => 87 | DEL_BRACE_OPEN => 88 | DEL_BRACE_CLOSE => 89
  | DEL_COMMA => 90 | DEL_COLON => 91 | DEL_PERIOD => 92 | DEL_SEMICOLON => 93 | DEL_EQUAL => 94
  | DEL_MINUS_MORE => 95
  end.

Definition token_eqb (a b : mp_token_kind_t) : bool := (token_value a =? token_value b)%nat.

(** [MP_TOKEN_KW_FALSE + i] *)
Definition kw_kind (i : nat) : mp_token_kind_t := nth (token_value KW_FALSE + i) token_kinds INVALID.

Definition tok_enc : list Z := Eval cbv in str
  "()[]{},;~:e=<e=c<e=>e=c>e=*e=c*e=+e=-e=e>&e=|e=/e=c/e=%e=^e=@e==e=!.".

Definition tok_enc_kind : list mp_token_kind_t :=
  [DEL_PAREN_OPEN; DEL_PAREN_CLOSE; DEL_BRACKET_OPEN; DEL_BRACKET_CLOSE; DEL_BRACE_OPEN; DEL_BRACE_CLOSE;
   DEL_COMMA; DEL_SEMICOLON; OP_TILDE; DEL_COLON; OP_ASSIGN; OP_LESS; OP_LESS_EQUAL; OP_DBL_LESS;
   DEL_DBL_LESS_EQUAL; OP_MORE; OP_MORE_EQUAL; OP_DBL_MORE; DEL_DBL_MORE_EQUAL; OP_STAR; DEL_STAR_EQUAL;
   OP_DBL_STAR; DEL_DBL_STAR_EQUAL; OP_PLUS; DEL_PLUS_EQUAL; OP_MINUS; DEL_MINUS_EQUAL; DEL_MINUS_MORE;
   OP_AMPERSAND; DEL_AMPERSAND_EQUAL; OP_PIPE; DEL_PIPE_EQUAL; OP_SLASH; DEL_SLASH_EQUAL; OP_DBL_SLASH;
   DEL_DBL_SLASH_EQUAL; OP_PERCENT; DEL_PERCENT_EQUAL; OP_CARET; DEL_CARET_EQUAL; OP_AT; DEL_AT_EQUAL;
   DEL_EQUAL; OP_DBL_EQUAL].

Definition tok_kw : list (list Z) := Eval cbv in map str
  ["False"; "None"; "True"; "__debug__"; "and"; "as"; "assert"; "async"; "await"; "break"; "class";
   "continue"; "def"; "del"; "elif"; "else"; "except"; "finally"; "for"; "from"; "global"; "if"; "import";
   "in"; "is"; "lambda"; "nonlocal"; "not"; "or"; "pass"; "raise"; "return"; "try"; "while"; "with"; "yield"]%string.

(** ** The state *)

(** [cur] is an offset; the end is the length of [beg]. *)
Record mp_reader_mem_t := MkReader { beg : list Z; cur : Z }.
Record queue := MkQueue { chr0 : Z; chr1 : Z; chr2 : Z }.
Record mp_lexer_t := MkLexer {
  reader : mp_reader_mem_t;
  chars : queue;
  saved : queue;
  line : Z;
  column : Z;
  emit_dent : Z;
  nested_bracket_level : Z;
  alloc_indent_level : Z;
  num_indent_level : Z;
  indent_level : list Z;
  tok_line : Z;
  tok_column : Z;
  tok_kind : mp_token_kind_t;
  vstr : vstr_t;
  fstring_args : vstr_t;
  fstring_args_idx : Z;
}.

Definition set_reader (x : mp_reader_mem_t) (l : mp_lexer_t) : mp_lexer_t :=
  MkLexer x (chars l) (saved l) (line l) (column l) (emit_dent l) (nested_bracket_level l)
    (alloc_indent_level l) (num_indent_level l) (indent_level l) (tok_line l) (tok_column l) (tok_kind l)
    (vstr l) (fstring_args l) (fstring_args_idx l).
Definition set_chars (x : queue) (l : mp_lexer_t) : mp_lexer_t :=
  MkLexer (reader l) x (saved l) (line l) (column l) (emit_dent l) (nested_bracket_level l)
    (alloc_indent_level l) (num_indent_level l) (indent_level l) (tok_line l) (tok_column l) (tok_kind l)
    (vstr l) (fstring_args l) (fstring_args_idx l).
Definition set_saved (x : queue) (l : mp_lexer_t) : mp_lexer_t :=
  MkLexer (reader l) (chars l) x (line l) (column l) (emit_dent l) (nested_bracket_level l)
    (alloc_indent_level l) (num_indent_level l) (indent_level l) (tok_line l) (tok_column l) (tok_kind l)
    (vstr l) (fstring_args l) (fstring_args_idx l).
Definition set_line (x : Z) (l : mp_lexer_t) : mp_lexer_t :=
  MkLexer (reader l) (chars l) (saved l) x (column l) (emit_dent l) (nested_bracket_level l)
    (alloc_indent_level l) (num_indent_level l) (indent_level l) (tok_line l) (tok_column l) (tok_kind l)
    (vstr l) (fstring_args l) (fstring_args_idx l).
Definition set_column (x : Z) (l : mp_lexer_t) : mp_lexer_t :=
  MkLexer (reader l) (chars l) (saved l) (line l) x (emit_dent l) (nested_bracket_level l)
    (alloc_indent_level l) (num_indent_level l) (indent_level l) (tok_line l) (tok_column l) (tok_kind l)
    (vstr l) (fstring_args l) (fstring_args_idx l).
Definition set_emit_dent (x : Z) (l : mp_lexer_t) : mp_lexer_t :=
  MkLexer (reader l) (chars l) (saved l) (line l) (column l) x (nested_bracket_level l) (alloc_indent_level l)
    (num_indent_level l) (indent_level l) (tok_line l) (tok_column l) (tok_kind l) (vstr l) (fstring_args l)
    (fstring_args_idx l).
Definition set_nested_bracket_level (x : Z) (l : mp_lexer_t) : mp_lexer_t :=
  MkLexer (reader l) (chars l) (saved l) (line l) (column l) (emit_dent l) x (alloc_indent_level l)
    (num_indent_level l) (indent_level l) (tok_line l) (tok_column l) (tok_kind l) (vstr l) (fstring_args l)
    (fstring_args_idx l).
Definition set_alloc_indent_level (x : Z) (l : mp_lexer_t) : mp_lexer_t :=
  MkLexer (reader l) (chars l) (saved l) (line l) (column l) (emit_dent l) (nested_bracket_level l) x
    (num_indent_level l) (indent_level l) (tok_line l) (tok_column l) (tok_kind l) (vstr l) (fstring_args l)
    (fstring_args_idx l).
Definition set_num_indent_level (x : Z) (l : mp_lexer_t) : mp_lexer_t :=
  MkLexer (reader l) (chars l) (saved l) (line l) (column l) (emit_dent l) (nested_bracket_level l)
    (alloc_indent_level l) x (indent_level l) (tok_line l) (tok_column l) (tok_kind l) (vstr l) (fstring_args l)
    (fstring_args_idx l).
Definition set_indent_level (x : list Z) (l : mp_lexer_t) : mp_lexer_t :=
  MkLexer (reader l) (chars l) (saved l) (line l) (column l) (emit_dent l) (nested_bracket_level l)
    (alloc_indent_level l) (num_indent_level l) x (tok_line l) (tok_column l) (tok_kind l) (vstr l)
    (fstring_args l) (fstring_args_idx l).
Definition set_tok_line (x : Z) (l : mp_lexer_t) : mp_lexer_t :=
  MkLexer (reader l) (chars l) (saved l) (line l) (column l) (emit_dent l) (nested_bracket_level l)
    (alloc_indent_level l) (num_indent_level l) (indent_level l) x (tok_column l) (tok_kind l) (vstr l)
    (fstring_args l) (fstring_args_idx l).
Definition set_tok_column (x : Z) (l : mp_lexer_t) : mp_lexer_t :=
  MkLexer (reader l) (chars l) (saved l) (line l) (column l) (emit_dent l) (nested_bracket_level l)
    (alloc_indent_level l) (num_indent_level l) (indent_level l) (tok_line l) x (tok_kind l) (vstr l)
    (fstring_args l) (fstring_args_idx l).
Definition set_tok_kind (x : mp_token_kind_t) (l : mp_lexer_t) : mp_lexer_t :=
  MkLexer (reader l) (chars l) (saved l) (line l) (column l) (emit_dent l) (nested_bracket_level l)
    (alloc_indent_level l) (num_indent_level l) (indent_level l) (tok_line l) (tok_column l) x (vstr l)
    (fstring_args l) (fstring_args_idx l).
Definition set_vstr (x : vstr_t) (l : mp_lexer_t) : mp_lexer_t :=
  MkLexer (reader l) (chars l) (saved l) (line l) (column l) (emit_dent l) (nested_bracket_level l)
    (alloc_indent_level l) (num_indent_level l) (indent_level l) (tok_line l) (tok_column l) (tok_kind l) x
    (fstring_args l) (fstring_args_idx l).
Definition set_fstring_args (x : vstr_t) (l : mp_lexer_t) : mp_lexer_t :=
  MkLexer (reader l) (chars l) (saved l) (line l) (column l) (emit_dent l) (nested_bracket_level l)
    (alloc_indent_level l) (num_indent_level l) (indent_level l) (tok_line l) (tok_column l) (tok_kind l)
    (vstr l) x (fstring_args_idx l).
Definition set_fstring_args_idx (x : Z) (l : mp_lexer_t) : mp_lexer_t :=
  MkLexer (reader l) (chars l) (saved l) (line l) (column l) (emit_dent l) (nested_bracket_level l)
    (alloc_indent_level l) (num_indent_level l) (indent_level l) (tok_line l) (tok_column l) (tok_kind l)
    (vstr l) (fstring_args l) x.

Inductive lexer_exn := VstrError (e : vstr_exn) | NotImplementedError.

Abbreviation Ml A := (M mp_lexer_t A).
Abbreviation Xl A := (M mp_lexer_t (lexer_exn + A)).

Section Lexer.
Context `{Fresh}.
(** [MP_STATE_VM(mp_optimise_value)] *)
Context (mp_optimise_value : Z).

Definition on_vstr {A} (c : Mv A) : Xl A :=
  r ← on_part vstr set_vstr c;
  mret (match r with inl e => inl (VstrError e) | inr a => inr a end).
Definition on_args {A} (c : Mv A) : Xl A :=
  r ← on_part fstring_args set_fstring_args c;
  mret (match r with inl e => inl (VstrError e) | inr a => inr a end).

Definition vstr_reset (v : vstr_t) : vstr_t := MkVstr (alloc v) 0 (buf v) (fixed_buf v).

(** ** Looking at characters *)

Definition CUR_CHAR (l : mp_lexer_t) : Z := chr0 (chars l).
Definition chr_1 (l : mp_lexer_t) : Z := chr1 (chars l).
Definition chr_2 (l : mp_lexer_t) : Z := chr2 (chars l).

Definition is_end (l : mp_lexer_t) : bool := CUR_CHAR l =? MP_LEXER_EOF.
Definition is_physical_newline (l : mp_lexer_t) : bool := CUR_CHAR l =? NEWLINE_CHAR.
Definition is_char (l : mp_lexer_t) (c : Z) : bool := CUR_CHAR l =? c.
Definition is_char_or (l : mp_lexer_t) (c1 c2 : Z) : bool := (CUR_CHAR l =? c1) || (CUR_CHAR l =? c2).
Definition is_char_or3 (l : mp_lexer_t) (c1 c2 c3 : Z) : bool := (CUR_CHAR l =? c1) || (CUR_CHAR l =? c2) || (CUR_CHAR l =? c3).
Definition is_char_or4 (l : mp_lexer_t) (c1 c2 c3 c4 : Z) : bool :=
  (CUR_CHAR l =? c1) || (CUR_CHAR l =? c2) || (CUR_CHAR l =? c3) || (CUR_CHAR l =? c4).
Definition is_char_following (l : mp_lexer_t) (c : Z) : bool := chr_1 l =? c.
Definition is_char_following_or (l : mp_lexer_t) (c1 c2 : Z) : bool := (chr_1 l =? c1) || (chr_1 l =? c2).
Definition is_char_following_following_or (l : mp_lexer_t) (c1 c2 : Z) : bool := (chr_2 l =? c1) || (chr_2 l =? c2).
Definition is_char_and (l : mp_lexer_t) (c1 c2 : Z) : bool := (CUR_CHAR l =? c1) && (chr_1 l =? c2).
Definition is_whitespace (l : mp_lexer_t) : bool := unichar_isspace (CUR_CHAR l).
Definition is_letter (l : mp_lexer_t) : bool := unichar_isalpha (CUR_CHAR l).
Definition is_digit (l : mp_lexer_t) : bool := unichar_isdigit (CUR_CHAR l).
Definition is_following_digit (l : mp_lexer_t) : bool := unichar_isdigit (chr_1 l).
Definition is_following_base_char (l : mp_lexer_t) : bool :=
  let c := Z.lor (chr_1 l) 0x20 in (c =? "b"%chr) || (c =? "o"%chr) || (c =? "x"%chr).
Definition is_following_odigit (l : mp_lexer_t) : bool := ("0"%chr <=? chr_1 l) && (chr_1 l <=? "7"%chr).

Definition is_string_or_bytes (l : mp_lexer_t) : bool :=
  is_char_or l "'"%chr DOUBLE_QUOTE
  || is_char_or4 l "r"%chr "u"%chr "b"%chr "f"%chr && is_char_following_or l "'"%chr DOUBLE_QUOTE
  || (is_char_and l "r"%chr "f"%chr || is_char_and l "f"%chr "r"%chr) && is_char_following_following_or l "'"%chr DOUBLE_QUOTE
  || (is_char_and l "r"%chr "b"%chr || is_char_and l "b"%chr "r"%chr) && is_char_following_following_or l "'"%chr DOUBLE_QUOTE.

Definition is_head_of_identifier (l : mp_lexer_t) : bool :=
  is_letter l || (CUR_CHAR l =? "_"%chr) || (0x80 <=? CUR_CHAR l).
Definition is_tail_of_identifier (l : mp_lexer_t) : bool := is_head_of_identifier l || is_digit l.

(** ** The queue of characters *)

Definition mp_reader_mem_readbyte : M mp_reader_mem_t Z := fun r =>
  if cur r <? Z.of_nat (length (beg r)) then
    b ← beg r !! Z.to_nat (cur r); Some (b, MkReader (beg r) (cur r + 1))
  else Some (MP_READER_EOF, r).
Definition readbyte : Ml Z := on_part reader set_reader mp_reader_mem_readbyte.

Definition advance_position (l : mp_lexer_t) : mp_lexer_t :=
  if CUR_CHAR l =? NEWLINE_CHAR then set_column 1 (set_line (u32 (line l + 1)) l)
  else if CUR_CHAR l =? 9 then set_column (u32 (u32 (u32 (column l - 1 + TAB_SIZE) / TAB_SIZE * TAB_SIZE) + 1)) l
  else set_column (u32 (column l + 1)) l.

Definition set_chr1 (c : Z) (l : mp_lexer_t) : mp_lexer_t := set_chars (MkQueue (CUR_CHAR l) c (chr_2 l)) l.
Definition set_chr2 (c : Z) (l : mp_lexer_t) : mp_lexer_t := set_chars (MkQueue (CUR_CHAR l) (chr_1 l) c) l.

(** [fstring_args.buf\[i\]] *)
Definition arg_byte (i : Z) : Ml Z := fun l =>
  if bool_decide (0 <= i) then b ← buf (fstring_args l) !! Z.to_nat i; Some (b, l) else None.

(** The next byte of the arguments of an f-string. *)
Definition next_arg_char : Ml unit :=
  l ← get;
  (if fstring_args_idx l <? len (fstring_args l) then
     b ← arg_byte (fstring_args_idx l);
     modify (fun l => set_fstring_args_idx (u32 (fstring_args_idx l + 1)) (set_chr2 b l))
   else modify (set_chr2 0));;
  l ← get;
  if CUR_CHAR l =? 0 then
    modify (fun l => set_fstring_args_idx 0 (set_fstring_args (vstr_reset (fstring_args l)) (set_chars (saved l) l)))
  else mret tt.

Definition next_char : Ml unit :=
  modify advance_position;;
  modify (fun l => set_chars (MkQueue (chr_1 l) (chr_2 l) (chr_2 l)) l);;
  l ← get;
  (if negb (fstring_args_idx l =? 0) then next_arg_char else b ← readbyte; modify (set_chr2 b));;
  l ← get;
  (if chr_1 l =? 13 then
     modify (set_chr1 NEWLINE_CHAR);;
     if chr_2 l =? NEWLINE_CHAR then b ← readbyte; modify (set_chr2 b) else mret tt
   else mret tt);;
  l ← get;
  if (chr_2 l =? MP_LEXER_EOF) && negb (chr_1 l =? MP_LEXER_EOF) && negb (chr_1 l =? NEWLINE_CHAR) then
    modify (set_chr2 NEWLINE_CHAR)
  else mret tt.

(** How many characters there can be before the end: those of the arguments of an
    f-string, the queues and the unread ones. *)
Definition fuel_of (l : mp_lexer_t) : nat :=
  Z.to_nat (len (fstring_args l)) + (length (beg (reader l)) - Z.to_nat (cur (reader l))) + 8.

(** ** Indentation *)

(** New words of the array contain anything. *)
Definition indent_push (indent : Z) : Ml unit :=
  l ← get;
  (if alloc_indent_level l <=? num_indent_level l then
     modify (fun l =>
       set_alloc_indent_level (u32 (alloc_indent_level l + MICROPY_ALLOC_LEXEL_INDENT_INC))
         (set_indent_level (indent_level l ++ new_bytes MICROPY_ALLOC_LEXEL_INDENT_INC) l))
   else mret tt);;
  l ← get;
  assert_ (num_indent_level l <? Z.of_nat (length (indent_level l)));;
  modify (fun l =>
    set_num_indent_level (u32 (num_indent_level l + 1))
      (set_indent_level (<[Z.to_nat (num_indent_level l) := u16 indent]> (indent_level l)) l)).

Definition indent_top : Ml Z := fun l =>
  if bool_decide (0 < num_indent_level l) then
    x ← indent_level l !! Z.to_nat (num_indent_level l - 1); Some (x, l)
  else None.

Definition indent_pop : Ml unit := modify (fun l => set_num_indent_level (u32 (num_indent_level l - 1)) l).

(** ** String literals *)

(** [None] when a character is no hexadecimal digit *)
Fixpoint get_hex (num_digits : nat) (num : Z) : Ml (option Z) :=
  match num_digits with
  | O => mret (Some num)
  | S num_digits =>
      next_char;;
      l ← get;
      if unichar_isxdigit (CUR_CHAR l) then
        get_hex num_digits (u32 (u32 (Z.shiftl num 4) + unichar_xdigit_value (CUR_CHAR l)))
      else mret None
  end.

(** [while (is_following_odigit(lex) && --digits != 0)] *)
Fixpoint get_octal (digits : nat) (num : Z) : Ml Z :=
  l ← get;
  if is_following_odigit l then
    match digits with
    | O | 1%nat => mret num
    | S digits => next_char;; l ← get; get_octal digits (u32 (u32 (num * 8) + (CUR_CHAR l - "0"%chr)))
    end
  else mret num.

(** The [switch] on the character after a backslash: the character meant, or the
    end of file for none. *)
Definition escape (c : Z) : Xl Z :=
  let hex n :=
    r ← get_hex n 0;
    match r with
    | Some num => xret num
    | None => modify (set_tok_kind INVALID);; xret 0
    end in
  let hex_or_bytes n :=
    l ← get;
    if token_eqb (tok_kind l) BYTES then on_vstr (vstr_add_char BACKSLASH);;! xret c else hex n in
  if c =? NEWLINE_CHAR then xret MP_LEXER_EOF
  else if (c =? BACKSLASH) || (c =? "'"%chr) || (c =? DOUBLE_QUOTE) then xret c
  else if c =? "a"%chr then xret 7
  else if c =? "b"%chr then xret 8
  else if c =? "t"%chr then xret 9
  else if c =? "n"%chr then xret 10
  else if c =? "v"%chr then xret 11
  else if c =? "f"%chr then xret 12
  else if c =? "r"%chr then xret 13
  else if c =? "u"%chr then hex_or_bytes 4%nat
  else if c =? "U"%chr then hex_or_bytes 8%nat
  else if c =? "x"%chr then hex 2%nat
  else if c =? "N"%chr then raise NotImplementedError
  else if ("0"%chr <=? c) && (c <=? "7"%chr) then safe (get_octal 3 (c - "0"%chr))
  else on_vstr (vstr_add_char BACKSLASH);;! xret c.

(** A backslash and what follows it. *)
Definition parse_escape (is_raw : bool) : Xl unit :=
  safe next_char;;!
  l ← get;
  c ←! (if is_raw then on_vstr (vstr_add_char BACKSLASH);;! xret (CUR_CHAR l) else escape (CUR_CHAR l));
  if c =? MP_LEXER_EOF then xret tt
  else
    l ← get;
    if (c <? 0x110000) && token_eqb (tok_kind l) STRING then on_vstr (vstr_add_char c)
    else if (c <? 0x100) && token_eqb (tok_kind l) BYTES then on_vstr (vstr_add_byte (u8 c))
    else safe (modify (set_tok_kind INVALID)).

(** The end of an expression of an f-string, when no bracket is open. *)
Definition ends_expression (l : mp_lexer_t) : bool :=
  is_char_or l ":"%chr "}"%chr
  || is_char l "!"%chr && is_char_following_or l "r"%chr "s"%chr && is_char_following_following_or l ":"%chr "}"%chr.

(** Copy an expression of an f-string to the arguments. *)
Definition copy_expression : Xl unit :=
  l ← get;
  xloop (fuel_of l) (fun nested : Z =>
    l ← get;
    if negb (is_end l) && (negb (nested =? 0) || negb (ends_expression l)) then
      let c := CUR_CHAR l in
      let nested :=
        if (c =? "["%chr) || (c =? "{"%chr) then u32 (nested + 1)
        else if (c =? "]"%chr) || (c =? "}"%chr) then u32 (nested - 1) else nested in
      on_args (vstr_add_byte (u8 c));;! safe next_char;;! xret (inl nested)
    else xret (inr tt)) 0.

(** [n] bytes of the arguments from offset [i] on *)
Definition arg_bytes (i n : Z) : Ml (list Z) := fun l =>
  if bool_decide (0 <= i /\ 0 <= n /\ i + n <= Z.of_nat (length (buf (fstring_args l)))) then
    Some (take (Z.to_nat n) (drop (Z.to_nat i) (buf (fstring_args l))), l)
  else None.

(** An expression after the opening brace. *)
Definition parse_expression : Xl unit :=
  on_args (vstr_add_byte "("%chr);;!
  l ← get;
  let i := len (fstring_args l) in
  copy_expression;;!
  l ← get;
  let n := len (fstring_args l) in
  last ←! safe (arg_byte (u32 (n - 1)));
  (if last =? "="%chr then
     s ←! safe (arg_bytes i (u32 (n - i)));
     on_vstr (vstr_add_strn s);;!
     safe (modify (fun l => set_fstring_args (MkVstr (alloc (fstring_args l)) (u32 (n - 1)) (buf (fstring_args l)) (fixed_buf (fstring_args l))) l))
   else xret tt);;!
  on_args (vstr_add_byte ")"%chr);;!
  on_args (vstr_add_byte ","%chr).

(** [while (is_fstring && is_char(lex, '{'))] *)
Definition parse_braces (is_fstring : bool) : Xl unit :=
  l ← get;
  xloop (fuel_of l) (fun _ : unit =>
    l ← get;
    if is_fstring && is_char l "{"%chr then
      safe next_char;;!
      l ← get;
      (if is_char l "{"%chr then on_vstr (vstr_add_byte "{"%chr);;! safe next_char else parse_expression);;!
      on_vstr (vstr_add_byte "{"%chr);;!
      xret (inl tt)
    else xret (inr tt)) tt.

(** One round of the loop over the characters of a literal. *)
Definition parse_string_char (is_raw is_fstring : bool) (quote_char n_closing : Z) : Xl Z :=
  l ← get;
  n_closing ←! (if is_char l quote_char then
                  on_vstr (vstr_add_char (CUR_CHAR l));;! xret (n_closing + 1)
                else
                  parse_braces is_fstring;;!
                  l ← get;
                  (if is_char l BACKSLASH then parse_escape is_raw
                   else on_vstr (vstr_add_byte (u8 (CUR_CHAR l))));;!
                  xret 0);
  safe next_char;;! xret n_closing.

Definition parse_string_literal (is_raw is_fstring : bool) : Xl unit :=
  l ← get;
  let quote_char := if is_char l DOUBLE_QUOTE then DOUBLE_QUOTE else "'"%chr in
  safe next_char;;!
  l ← get;
  let triple := is_char_and l quote_char quote_char in
  let num_quotes := if triple then 3 else 1 in
  (if triple then safe next_char;;! safe next_char else xret tt);;!
  l ← get;
  (if is_fstring && (len (fstring_args l) =? 0) then on_args (vstr_add_strn (str ".format(")) else xret tt);;!
  l ← get;
  n_closing ←! xloop (fuel_of l) (fun n_closing =>
    l ← get;
    if negb (is_end l) && ((1 <? num_quotes) || negb (is_char l NEWLINE_CHAR)) && (n_closing <? num_quotes) then
      n_closing ←! parse_string_char is_raw is_fstring quote_char n_closing; xret (inl n_closing)
    else xret (inr n_closing)) 0;
  (if n_closing <? num_quotes then safe (modify (set_tok_kind LONELY_STRING_OPEN)) else xret tt);;!
  on_vstr (vstr_cut_tail_bytes n_closing).

(** ** White space *)

Definition skip_comment : Ml unit :=
  l ← get;
  while (fuel_of l) (fun _ => l ← get; mret (negb (is_end l) && negb (is_physical_newline l))) (fun _ => next_char) tt.

Definition skip_whitespace (stop_at_newline : bool) : Ml bool :=
  l ← get;
  loop (fuel_of l) (fun _ : unit =>
    l ← get;
    if is_end l then mret (inr false)
    else if is_physical_newline l then
      if stop_at_newline && (nested_bracket_level l =? 0) then mret (inr true) else next_char;; mret (inl tt)
    else if is_whitespace l then next_char;; mret (inl tt)
    else if is_char l "#"%chr then next_char;; skip_comment;; mret (inl tt)
    else if is_char_and l BACKSLASH NEWLINE_CHAR then next_char;; next_char;; mret (inl tt)
    else mret (inr false)) tt.

(** ** Tokens *)

(** The literal of an f-string is complete: read its arguments next. *)
Definition inject_args : Xl unit :=
  l ← get;
  if negb (len (fstring_args l) =? 0) && (fstring_args_idx l =? 0) then
    on_args (vstr_add_byte ")"%chr);;!
    safe (
      a ← arg_byte 0; b ← arg_byte 1; c ← arg_byte 2;
      modify (fun l => set_fstring_args_idx 3 (set_chars (MkQueue a b c) (set_saved (chars l) l))))
  else xret tt.

Definition change_emit_dent (d : Z) : Ml unit := l ← get; n ← sint (emit_dent l + d); modify (set_emit_dent n).

Definition parse_newline : Ml unit :=
  skip_whitespace false;;
  modify (set_tok_kind NEWLINE);;
  l ← get;
  let num_spaces := u32 (column l - 1) in
  top ← indent_top;
  if num_spaces =? top then mret tt
  else if top <? num_spaces then
    indent_push num_spaces;; change_emit_dent 1
  else
    l ← get;
    while (S (Z.to_nat (num_indent_level l)))
      (fun _ => top ← indent_top; mret (num_spaces <? top))
      (fun _ => indent_pop;; change_emit_dent (-1)) tt;;
    top ← indent_top;
    if negb (num_spaces =? top) then modify (set_tok_kind DEDENT_MISMATCH) else mret tt.

Record string_prefix := MkPrefix { is_raw : bool; is_fstring : bool; kind : mp_token_kind_t; n_char : nat }.

Definition string_prefix_of (l : mp_lexer_t) : string_prefix :=
  if is_char l "u"%chr then MkPrefix false false STRING 1
  else if is_char l "b"%chr then
    if is_char_following l "r"%chr then MkPrefix true false BYTES 2 else MkPrefix false false BYTES 1
  else if is_char l "r"%chr then
    let p := if is_char_following l "b"%chr then MkPrefix true false BYTES 2 else MkPrefix true false STRING 1 in
    if is_char_following l "f"%chr then MkPrefix true true (kind p) 2 else p
  else if is_char l "f"%chr then
    if is_char_following l "r"%chr then MkPrefix true true STRING 2 else MkPrefix false true STRING 1
  else MkPrefix false false STRING 0.

(** [n_char] times [next_char] *)
Definition skip_prefix (n_char : nat) : Ml unit :=
  match n_char with
  | O => mret tt
  | 2%nat => next_char;; next_char
  | _ => next_char
  end.

Definition parse_strings : Xl unit :=
  safe (modify (set_tok_kind END));;!
  l ← get;
  xloop (fuel_of l) (fun _ : unit =>
    l ← get;
    let p := string_prefix_of l in
    (if token_eqb (tok_kind l) END then modify (set_tok_kind (kind p)) else mret tt);;
    l ← get;
    if negb (token_eqb (tok_kind l) (kind p)) then xret (inr tt)
    else
      safe (skip_prefix (n_char p));;!
      parse_string_literal (is_raw p) (is_fstring p);;!
      safe (skip_whitespace true);;!
      l ← get;
      if is_string_or_bytes l then xret (inl tt) else xret (inr tt)) tt.

(** [strcmp] on two strings without their final zeros; bytes are unsigned. *)
Fixpoint strcmp (s t : list Z) : comparison :=
  match s, t with
  | [], [] => Eq
  | [], _ => Lt
  | _, [] => Gt
  | a :: s, b :: t => match (a ?= b)%Z with Eq => strcmp s t | c => c end
  end.

(** The loop over [tok_kw] from index [i] on. *)
Fixpoint find_keyword (s : list Z) (kws : list (list Z)) (i : nat) : option nat :=
  match kws with
  | [] => None
  | kw :: kws =>
      match strcmp s kw with Eq => Some i | Lt => None | Gt => find_keyword s kws (S i) end
  end.

(** The string up to its first zero *)
Fixpoint c_string (b : list Z) : list Z :=
  match b with
  | [] => []
  | c :: b => if c =? 0 then [] else c :: c_string b
  end.

Definition parse_name : Xl unit :=
  safe (modify (set_tok_kind NAME));;!
  l ← get;
  on_vstr (vstr_add_byte (u8 (CUR_CHAR l)));;!
  safe next_char;;!
  l ← get;
  xloop (fuel_of l) (fun _ : unit =>
    l ← get;
    if negb (is_end l) && is_tail_of_identifier l then
      on_vstr (vstr_add_byte (u8 (CUR_CHAR l)));;! safe next_char;;! xret (inl tt)
    else xret (inr tt)) tt;;!
  on_vstr vstr_null_terminated_str;;!
  l ← get;
  match find_keyword (c_string (buf (vstr l))) tok_kw 0 with
  | Some i =>
      let k := kw_kind i in
      safe (modify (set_tok_kind
        (if token_eqb k KW___DEBUG__ then if mp_optimise_value =? 0 then KW_TRUE else KW_FALSE else k)))
  | None => xret tt
  end.

(** A round of the loop over the tail of a number; false at its end. *)
Definition parse_number_char (forced_integer : bool) : Xl bool :=
  l ← get;
  if negb forced_integer && is_char_or l "e"%chr "E"%chr then
    safe (modify (set_tok_kind FLOAT_OR_IMAG));;!
    on_vstr (vstr_add_char "e"%chr);;!
    safe next_char;;!
    l ← get;
    (if is_char l "+"%chr || is_char l "-"%chr then on_vstr (vstr_add_char (CUR_CHAR l));;! safe next_char else xret tt);;!
    xret true
  else if is_letter l || is_digit l || is_char l "."%chr then
    (if is_char_or3 l "."%chr "j"%chr "J"%chr then safe (modify (set_tok_kind FLOAT_OR_IMAG)) else xret tt);;!
    on_vstr (vstr_add_char (CUR_CHAR l));;! safe next_char;;! xret true
  else if is_char l "_"%chr then safe next_char;;! xret true
  else xret false.

Definition parse_number : Xl unit :=
  l ← get;
  let forced_integer := negb (is_char l "."%chr) && (is_char l "0"%chr && is_following_base_char l) in
  safe (modify (set_tok_kind (if is_char l "."%chr then FLOAT_OR_IMAG else INTEGER)));;!
  on_vstr (vstr_add_char (CUR_CHAR l));;!
  safe next_char;;!
  l ← get;
  xloop (fuel_of l) (fun _ : unit =>
    l ← get;
    if negb (is_end l) then
      more ←! parse_number_char forced_integer; xret (if more : bool then inl tt else inr tt)
    else xret (inr tt)) tt.

(** [for (; *t != 0 && !is_char(lex, *t); t += 1)]: the rest of the encoding from
    the character that matches on, and the index. *)
Fixpoint find_operator (c : Z) (t : list Z) (index : nat) : list Z * nat :=
  match t with
  | [] => ([], index)
  | x :: t' =>
      if c =? x then (t, index)
      else if (x =? "e"%chr) || (x =? "c"%chr) then
        match t' with [] => ([], index) | _ :: t'' => find_operator c t'' (S index) end
      else find_operator c t' (S index)
  end.

(** [while ( *t == 'c' || *t == 'e')]: the index of the token. *)
Fixpoint match_operator (t : list Z) (t_index index : nat) : Ml nat :=
  match t with
  | k :: x :: t =>
      if (k =? "c"%chr) || (k =? "e"%chr) then
        l ← get;
        if is_char l x then
          next_char;; if k =? "e"%chr then mret (S t_index) else match_operator t (S t_index) (S t_index)
        else if k =? "c"%chr then mret index
        else match_operator t (S t_index) index
      else mret index
  | _ => mret index
  end.

Definition is_opening (k : mp_token_kind_t) : bool :=
  token_eqb k DEL_PAREN_OPEN || token_eqb k DEL_BRACKET_OPEN || token_eqb k DEL_BRACE_OPEN.
Definition is_closing (k : mp_token_kind_t) : bool :=
  token_eqb k DEL_PAREN_CLOSE || token_eqb k DEL_BRACKET_CLOSE || token_eqb k DEL_BRACE_CLOSE.

Definition change_bracket_level (d : Z) : Ml unit :=
  l ← get; n ← sint (nested_bracket_level l + d); modify (set_nested_bracket_level n).

Definition parse_operator : Ml unit :=
  l ← get;
  let '(t, index) := find_operator (CUR_CHAR l) tok_enc 0 in
  next_char;;
  l ← get;
  match t with
  | [] => modify (set_tok_kind INVALID)
  | c :: t =>
      if c =? "!"%chr then
        if is_char l "="%chr then next_char;; modify (set_tok_kind OP_NOT_EQUAL)
        else modify (set_tok_kind INVALID)
      else if c =? "."%chr then
        if is_char_and l "."%chr "."%chr then next_char;; next_char;; modify (set_tok_kind ELLIPSIS)
        else modify (set_tok_kind DEL_PERIOD)
      else
        index ← match_operator t index index;
        match tok_enc_kind !! index with
        | None => stuck
        | Some k =>
            modify (set_tok_kind k);;
            if is_opening k then change_bracket_level 1 else if is_closing k then change_bracket_level (-1) else mret tt
        end
  end.

Definition mp_lexer_to_next : Xl unit :=
  inject_args;;!
  safe (modify (fun l => set_vstr (vstr_reset (vstr l)) l));;!
  had_physical_newline ←! safe (skip_whitespace true);
  safe (modify (fun l => set_tok_column (column l) (set_tok_line (line l) l)));;!
  l ← get;
  if emit_dent l <? 0 then
    safe (modify (set_tok_kind DEDENT);; change_emit_dent 1)
  else if 0 <? emit_dent l then
    safe (modify (set_tok_kind INDENT);; change_emit_dent (-1))
  else if had_physical_newline : bool then safe parse_newline
  else if is_end l then safe (modify (set_tok_kind END))
  else if is_string_or_bytes l then parse_strings
  else if is_head_of_identifier l then parse_name
  else if is_digit l || is_char l "."%chr && is_following_digit l then parse_number
  else safe parse_operator.

(** ** A new lexer *)

(** The fields as [mp_lexer_new] sets them; those it does not set contain anything. *)
Definition new_lexer (r : mp_reader_mem_t) (junk : mp_lexer_t) : mp_lexer_t :=
  MkLexer r (MkQueue 0 0 0) (saved junk) 1 (u32 (-2)) 0 0
    MICROPY_ALLOC_LEXER_INDENT_INIT 1 (<[0%nat := 0]> (new_bytes MICROPY_ALLOC_LEXER_INDENT_INIT))
    (tok_line junk) (tok_column junk) (tok_kind junk) (vstr_init 32) (vstr_init 0) 0.

(** [mp_lexer_new], on the reader of the source. *)
Definition mp_lexer_new (r : mp_reader_mem_t) (junk : mp_lexer_t) : option ((lexer_exn + unit) * mp_lexer_t) :=
  (safe (next_char;; next_char;; next_char);;!
   mp_lexer_to_next;;!
   l ← get;
   if negb (tok_column l =? 1) && negb (token_eqb (tok_kind l) NEWLINE) then safe (modify (set_tok_kind INDENT))
   else xret tt) (new_lexer r junk).

End Lexer.
