(* ===== verification/LexerFacts.v ===== *)
(** * What the lexer sees

    Behind the queue of three characters is a list of characters: the source with
    its line ends made uniform and a newline at its end, in front of it the
    arguments of an f-string while they are read ([reads]).  [at_] collects what
    the proofs say about a state: the characters ahead, the position, the text and
    kind of the token, the arguments collected, and the rest. *)
From Stdlib Require Import Ascii String.
From S2P Require Import Prelude.
From S2P Require Import CMem.
From S2P Require Import Unicode.
From S2P Require Import Vstr.
From S2P Require Import VstrProps.
From S2P Require Import MpPrint.
From S2P Require Import Lexer.
Local Open Scope Z_scope.

(** ** The characters of a source *)

(** CR and CR LF are line ends. *)
Fixpoint normalise (src : list Z) : list Z :=
  match src with
  | [] => []
  | c :: src' =>
      if c =? 13 then 10 :: match src' with
                            | d :: src'' => if d =? 10 then normalise src'' else normalise src'
                            | [] => []
                            end
      else c :: normalise src'
  end.

(** A newline after the last line, [prev] being the character before. *)
Fixpoint finish (prev : Z) (cs : list Z) : list Z :=
  match cs with
  | [] => if prev =? 10 then [] else [10]
  | c :: cs => c :: finish c cs
  end.

Definition source_chars (src : list Z) : list Z := finish 0 (normalise src).

(** A byte that is no carriage return. *)
Definition plain (c : Z) : Prop := 0 <= c < 256 /\ c <> 13.

Lemma plain_not_eof c : plain c -> c <> MP_LEXER_EOF.
Proof. intros [? _] ->. vm_compute in H. by destruct H as [_ [=]]. Qed.

(** The queue and the unread bytes show the characters [cs]. *)
Inductive direct : queue -> list Z -> list Z -> Prop :=
  | direct_end : direct (MkQueue MP_LEXER_EOF MP_LEXER_EOF MP_LEXER_EOF) [] []
  | direct_last c : plain c -> direct (MkQueue c MP_LEXER_EOF MP_LEXER_EOF) [] [c]
  | direct_two c : plain c -> direct (MkQueue c 10 MP_LEXER_EOF) [] [c; 10]
  | direct_more c0 c1 c2 rest : plain c0 -> plain c1 -> is_byte c2 -> Forall is_byte rest ->
      direct (MkQueue c0 c1 c2) rest (c0 :: c1 :: finish c1 (normalise (c2 :: rest))).

(** One byte of the reader, the end of file after the last. *)
Definition read (rest : list Z) : Z * list Z := match rest with [] => (MP_READER_EOF, []) | b :: rest => (b, rest) end.

(** What [next_char] does to the queue and the unread bytes. *)
Definition fix_end (c0 c1 c2 : Z) : queue :=
  MkQueue c0 c1 (if (c2 =? MP_LEXER_EOF) && negb (c1 =? MP_LEXER_EOF) && negb (c1 =? NEWLINE_CHAR) then NEWLINE_CHAR else c2).
Definition shift (q : queue) (rest : list Z) : queue * list Z :=
  let '(b, rest) := read rest in
  if chr2 q =? 13 then
    if b =? NEWLINE_CHAR then let '(b, rest) := read rest in (fix_end (chr1 q) NEWLINE_CHAR b, rest)
    else (fix_end (chr1 q) NEWLINE_CHAR b, rest)
  else (fix_end (chr1 q) (chr2 q) b, rest).

Lemma byte_not_eof b : is_byte b -> (b =? MP_LEXER_EOF) = false.
Proof. intros Hb. apply Z.eqb_neq. intros ->. vm_compute in Hb. by destruct Hb as [_ [=]]. Qed.

Lemma eof_not_byte : (MP_READER_EOF =? NEWLINE_CHAR) = false.
Proof. reflexivity. Qed.

Lemma fix_end_byte c0 c1 c2 : is_byte c2 -> fix_end c0 c1 c2 = MkQueue c0 c1 c2.
Proof. intros H. unfold fix_end. by rewrite byte_not_eof. Qed.

Lemma direct_read c0 c1 rest : plain c0 -> plain c1 -> Forall is_byte rest ->
  let '(b, rest') := read rest in direct (fix_end c0 c1 b) rest' (c0 :: c1 :: finish c1 (normalise rest)).
Proof.
  intros H0 H1 Hr. destruct rest as [|b rest]; cbn [read].
  - unfold fix_end. change (MP_READER_EOF =? MP_LEXER_EOF) with true. cbn [andb normalise finish].
    rewrite byte_not_eof by apply H1. cbn [negb andb]. change NEWLINE_CHAR with 10. destruct (c1 =? 10) eqn:E; to_prop; cbn [negb].
    + subst. by apply direct_two.
    + by apply (direct_more c0 c1 10 []).
  - inversion Hr; subst. rewrite fix_end_byte by done. by apply direct_more.
Qed.

Lemma plain_newline : plain 10.
Proof. done. Qed.

Lemma shift_direct q rest cs : direct q rest cs ->
  let '(q', rest') := shift q rest in direct q' rest' (tail cs).
Proof.
  destruct 1 as [|c Hc|c Hc|c0 c1 c2 rest H0 H1 H2 Hr]; unfold shift; cbn [read chr0 chr1 chr2 tail].
  - apply direct_end.
  - apply direct_end.
  - by apply (direct_last 10).
  - destruct (c2 =? 13) eqn:E; to_prop; [subst c2|].
    + destruct rest as [|b rest]; cbn [read].
      { rewrite eof_not_byte. by apply direct_two. }
      inversion Hr as [|? ? Hb Hr']; subst. destruct (b =? NEWLINE_CHAR) eqn:En; to_prop.
      * subst b. cbn [normalise Z.eqb Pos.eqb NEWLINE_CHAR finish]. pose proof (direct_read c1 10 rest H1 plain_newline Hr'). by destruct (read rest).
      * cbn [normalise Z.eqb Pos.eqb finish]. rewrite (proj2 (Z.eqb_neq b 10)) by done. cbn [finish].
        by apply (direct_read c1 10 (b :: rest)).
    + cbn [normalise]. rewrite (proj2 (Z.eqb_neq _ _)) by done. cbn [finish].
      pose proof (direct_read c1 c2 rest H1 (conj H2 E) Hr). by destruct (read rest).
Qed.

(** The characters ahead in the queue; the third may be a carriage return. *)
Definition look (cs : list Z) (i : nat) : Z := nth i cs MP_LEXER_EOF.

Lemma direct_chr0 q rest cs : direct q rest cs -> chr0 q = look cs 0.
Proof. by destruct 1. Qed.
Lemma direct_chr1 q rest cs : direct q rest cs -> chr1 q = look cs 1.
Proof. by destruct 1. Qed.
Lemma direct_chr2 q rest cs c : direct q rest cs -> c <> 10 -> c <> 13 -> (chr2 q =? c) = (look cs 2 =? c).
Proof.
  destruct 1 as [| | |c0 c1 c2 rest H0 H1 H2 Hr]; intros Hn Hc; try done. unfold look. cbn [nth chr2 normalise].
  destruct (c2 =? 13) eqn:E; to_prop; [|done]. subst. cbn [finish nth].
  rewrite !(proj2 (Z.eqb_neq _ _)); [done|congruence|congruence].
Qed.

Lemma normalise_length src : (length (normalise src) <= length src)%nat.
Proof.
  remember (length src) as n eqn:Hn. assert (length src <= n)%nat as Hle by lia. clear Hn. revert src Hle.
  induction n as [|n IH]; intros [|c src] Hle; cbn [length normalise] in *; try lia.
  destruct (c =? 13); cbn [length].
  - destruct src as [|d src]; cbn [length] in *; [lia|]. destruct (d =? 10); [pose proof (IH src)|pose proof (IH (d :: src))]; cbn [length] in *; lia.
  - pose proof (IH src). lia.
Qed.

Lemma finish_length prev cs : (length (finish prev cs) <= S (length cs))%nat.
Proof. revert prev. induction cs as [|c cs IH]; intros prev; cbn; [destruct (_ =? _); cbn; lia|]. pose proof (IH c). lia. Qed.

Lemma source_chars_length src : (length (source_chars src) <= S (length src))%nat.
Proof. unfold source_chars. pose proof (finish_length 0 (normalise src)). pose proof (normalise_length src). lia. Qed.

Lemma direct_length q rest cs : direct q rest cs -> (length cs <= length rest + 4)%nat.
Proof.
  destruct 1 as [| | |c0 c1 c2 rest]; cbn [length]; try lia.
  pose proof (finish_length c1 (normalise (c2 :: rest))). pose proof (normalise_length (c2 :: rest)). cbn [length] in *. lia.
Qed.

Lemma normalise_plain src : Forall is_byte src -> Forall plain (normalise src).
Proof.
  remember (length src) as n eqn:Hn. assert (length src <= n)%nat as Hle by lia. clear Hn. revert src Hle.
  induction n as [|n IH]; intros [|c src] Hle Hb; cbn [length normalise] in *; try (constructor; fail); try lia.
  inversion Hb as [|? ? Hc Hs]; subst. destruct (c =? 13) eqn:E; to_prop.
  - constructor; [done|]. destruct src as [|d src]; [constructor|]. inversion Hs; subst. cbn [length] in *.
    destruct (d =? 10); apply IH; cbn [length]; (lia || done).
  - constructor; [done|]. apply IH; [lia|done].
Qed.

Lemma finish_plain prev cs : Forall plain cs -> Forall plain (finish prev cs).
Proof.
  intros H. revert prev. induction H as [|c cs Hc Hcs IH]; intros prev; cbn; [destruct (_ =? _); repeat constructor; done|].
  constructor; [done|apply IH].
Qed.

Lemma direct_plain q rest cs : direct q rest cs -> Forall plain cs.
Proof.
  destruct 1 as [| | |c0 c1 c2 rest]; repeat (constructor; [done|]); try constructor.
  apply finish_plain, normalise_plain. by constructor.
Qed.

Lemma source_plain src : Forall is_byte src -> Forall plain (source_chars src).
Proof. intros. by apply finish_plain, normalise_plain. Qed.

(** ** States *)

Definition unread (l : mp_lexer_t) : list Z := drop (Z.to_nat (cur (reader l))) (beg (reader l)).
Definition reader_ok (l : mp_lexer_t) : Prop :=
  0 <= cur (reader l) <= Z.of_nat (length (beg (reader l))) /\ Forall is_byte (beg (reader l)).

(** The arguments of an f-string are read; they end at a zero byte if they have one. *)
Definition injecting (cs : list Z) (l : mp_lexer_t) : Prop :=
  exists b rest,
    str_ok None b (fstring_args l) /\ Z.of_nat (length b) < 2 ^ 30 /\ Forall plain b /\
    3 <= fstring_args_idx l <= Z.of_nat (length b) /\
    plain (CUR_CHAR l) /\ plain (chr_1 l) /\ plain (chr_2 l) /\ CUR_CHAR l <> 0 /\
    cs = c_string (CUR_CHAR l :: chr_1 l :: chr_2 l :: drop (Z.to_nat (fstring_args_idx l)) b) ++ rest /\
    direct (saved l) (unread l) rest.

(** The characters ahead are [cs]; [a] are the arguments collected.  With [m] the
    source itself is read. *)
Definition reads (m : bool) (cs a : list Z) (l : mp_lexer_t) : Prop :=
  reader_ok l /\
  (fstring_args_idx l = 0 /\ direct (chars l) (unread l) cs /\ str_ok None a (fstring_args l)
   \/ m = false /\ a = [] /\ injecting cs l).

(** The fields that reading characters leaves alone. *)
Record others := MkOthers {
  o_emit : Z;
  o_bracket : Z;
  o_alloc : Z;
  o_num : Z;
  o_indent : list Z;
  o_tok : Z * Z;
}.
Definition others_of (l : mp_lexer_t) : others :=
  MkOthers (emit_dent l) (nested_bracket_level l) (alloc_indent_level l) (num_indent_level l) (indent_level l) (tok_line l, tok_column l).

Record at_ (m : bool) (cs : list Z) (p : Z * Z) (s : list Z) (k : mp_token_kind_t) (o : others) (a : list Z) (l : mp_lexer_t) : Prop := {
  at_reads : reads m cs a l;
  at_pos : (line l, column l) = p;
  at_text : str_ok None s (vstr l);
  at_kind : tok_kind l = k;
  at_others : others_of l = o;
}.

(** The position after a character. *)
Definition advance (p : Z * Z) (c : Z) : Z * Z :=
  if c =? NEWLINE_CHAR then (u32 (p.1 + 1), 1)
  else if c =? 9 then (p.1, u32 (u32 (u32 (p.2 - 1 + TAB_SIZE) / TAB_SIZE * TAB_SIZE) + 1))
  else (p.1, u32 (p.2 + 1)).

(** [l'] is [l] with other characters. *)
Record moved (l l' : mp_lexer_t) : Prop := {
  mv_pos : (line l', column l') = advance (line l, column l) (CUR_CHAR l);
  mv_text : vstr l' = vstr l;
  mv_kind : tok_kind l' = tok_kind l;
  mv_others : others_of l' = others_of l;
}.

Lemma at_moved m cs p s k o a m' cs' a' l l' : at_ m cs p s k o a l -> reads m' cs' a' l' -> moved l l' ->
  at_ m' cs' (advance p (CUR_CHAR l)) s k o a' l'.
Proof. intros [? <- Ht <- <-] Hr []. split; [done|congruence|congruence|done|done]. Qed.

Lemma wp_readbyte l (Q : Z -> mp_lexer_t -> Prop) : reader_ok l ->
  (forall r, reader_ok (set_reader r l) -> unread (set_reader r l) = (read (unread l)).2 -> Q (read (unread l)).1 (set_reader r l)) ->
  wp readbyte l Q.
Proof.
  intros [Hc Hb] HQ. unfold readbyte. apply wp_on_part. unfold wp, mp_reader_mem_readbyte.
  destruct (Z.ltb_spec (cur (reader l)) (Z.of_nat (length (beg (reader l))))) as [Hlt|Hge].
  - destruct (lookup_lt_is_Some_2 (beg (reader l)) (Z.to_nat (cur (reader l)))) as [b Hb']; [lia|].
    rewrite Hb'. cbn [mbind option_bind]. pose proof (drop_S _ _ _ Hb') as Hd.
    assert (unread l = b :: drop (S (Z.to_nat (cur (reader l)))) (beg (reader l))) as Hu by done.
    specialize (HQ (MkReader (beg (reader l)) (cur (reader l) + 1))). rewrite Hu in HQ. apply HQ.
    + split; cbn; [lia|done].
    + unfold unread. cbn. f_equal. lia.
  - assert (unread l = []) as Hu by (unfold unread; by rewrite drop_ge by lia).
    specialize (HQ (reader l)). rewrite Hu in HQ. destruct l. by apply HQ.
Qed.

(** A queue that shows the characters ahead, whatever the rest of the state. *)
Definition queue_sees (cs : list Z) (l : mp_lexer_t) : Prop := reader_ok l /\ direct (chars l) (unread l) cs.

(** The end of [next_char], after the next byte [b] is in the queue. *)
Lemma wp_fix_queue l q rest0 cs (Q : unit -> mp_lexer_t -> Prop) : reader_ok l ->
  direct q rest0 cs -> chars l = MkQueue (chr1 q) (chr2 q) (read rest0).1 -> unread l = (read rest0).2 ->
  (forall r q', queue_sees (tail cs) (set_chars q' (set_reader r l)) -> Q tt (set_chars q' (set_reader r l))) ->
  wp (l ← get;
      (if chr_1 l =? 13 then
         modify (set_chr1 NEWLINE_CHAR);;
         if chr_2 l =? NEWLINE_CHAR then b ← readbyte; modify (set_chr2 b) else mret tt
       else mret tt);;
      l ← get;
      if (chr_2 l =? MP_LEXER_EOF) && negb (chr_1 l =? MP_LEXER_EOF) && negb (chr_1 l =? NEWLINE_CHAR) then
        modify (set_chr2 NEWLINE_CHAR)
      else mret tt) l Q.
Proof.
  intros Hr Hd Hq Hu HQ. pose proof (shift_direct _ _ _ Hd) as Hs. unfold shift in Hs. destruct (read rest0) as [b rest]. cbn [fst snd] in *.
  assert (forall l1 c0 c1 c2 rest', reader_ok l1 -> (exists r q', l1 = set_chars q' (set_reader r l)) ->
    chars l1 = MkQueue c0 c1 c2 -> unread l1 = rest' -> direct (fix_end c0 c1 c2) rest' (tail cs) ->
    wp (l ← get;
        if (chr_2 l =? MP_LEXER_EOF) && negb (chr_1 l =? MP_LEXER_EOF) && negb (chr_1 l =? NEWLINE_CHAR) then
          modify (set_chr2 NEWLINE_CHAR)
        else mret tt) l1 Q) as Hend.
  { intros l1 c0 c1 c2 rest' Hr1 (r & q' & ->) Hc Hu' Hd'. cbn in Hc. subst q'. apply wp_bind. unfold wp at 1, get.
    unfold chr_1, chr_2. cbn [chars set_chars set_reader chr1 chr2]. unfold fix_end in Hd'.
    destruct (_ && _); [apply wp_modify|apply wp_ret]; apply HQ; split; try exact Hr1; cbn; by rewrite Hu' || exact Hd' || (rewrite <-Hu' in Hd'). }
  apply wp_bind. unfold wp at 1, get. unfold chr_1, chr_2. rewrite Hq. cbn [chr1 chr2].
  destruct (chr2 q =? 13).
  - apply wp_bind, wp_bind, wp_modify. cbn [chars set_chr1 set_chars]. destruct (b =? NEWLINE_CHAR).
    + apply wp_bind, wp_readbyte; [done|]. intros r Hr1 Hu1. cbv beta. apply wp_modify. cbn beta.
      change (unread (set_chr1 NEWLINE_CHAR l)) with (unread l) in *. rewrite Hu in *. destruct (read rest) as [b' rest']. cbn [fst snd] in *.
      eapply (Hend _ (chr1 q)); [exact Hr1|by eexists r, _|unfold set_chr2, set_chr1, CUR_CHAR, chr_1, chr_2; cbn; by rewrite Hq|exact Hu1|exact Hs].
    + apply wp_ret. eapply (Hend _ (chr1 q)); [exact Hr|exists (reader l); eexists; by destruct l|unfold set_chr1, CUR_CHAR, chr_2; cbn; by rewrite Hq|exact Hu|exact Hs].
  - apply wp_bind, wp_ret. eapply (Hend _ (chr1 q)); [exact Hr|exists (reader l), (chars l); by destruct l|by rewrite Hq|exact Hu|exact Hs].
Qed.

(** The same when there is nothing to mend. *)
Lemma wp_fix_nothing l (Q : unit -> mp_lexer_t -> Prop) : chr_1 l <> 13 ->
  (chr_2 l = MP_LEXER_EOF -> chr_1 l = MP_LEXER_EOF \/ chr_1 l = 10) -> Q tt l ->
  wp (l ← get;
      (if chr_1 l =? 13 then
         modify (set_chr1 NEWLINE_CHAR);;
         if chr_2 l =? NEWLINE_CHAR then b ← readbyte; modify (set_chr2 b) else mret tt
       else mret tt);;
      l ← get;
      if (chr_2 l =? MP_LEXER_EOF) && negb (chr_1 l =? MP_LEXER_EOF) && negb (chr_1 l =? NEWLINE_CHAR) then
        modify (set_chr2 NEWLINE_CHAR)
      else mret tt) l Q.
Proof.
  intros H1 H2 HQ. apply wp_bind. unfold wp at 1, get. rewrite (proj2 (Z.eqb_neq _ _)) by done.
  apply wp_bind, wp_ret, wp_bind. unfold wp at 1, get. destruct (chr_2 l =? MP_LEXER_EOF) eqn:E; to_prop; [|done].
  destruct (H2 E) as [->| ->]; done.
Qed.

Lemma direct_settled q rest cs : direct q rest cs ->
  chr1 q <> 13 /\ (chr2 q = MP_LEXER_EOF -> chr1 q = MP_LEXER_EOF \/ chr1 q = 10).
Proof.
  destruct 1 as [| | |c0 c1 c2 rest H0 H1 H2 Hr]; cbn; try by auto. split; [apply H1|].
  intros ->. by apply byte_not_eof in H2.
Qed.

Lemma advance_fields l : reader (advance_position l) = reader l /\ chars (advance_position l) = chars l /\
  saved (advance_position l) = saved l /\ fstring_args (advance_position l) = fstring_args l /\
  fstring_args_idx (advance_position l) = fstring_args_idx l /\
  (line (advance_position l), column (advance_position l)) = advance (line l, column l) (CUR_CHAR l) /\
  vstr (advance_position l) = vstr l /\ tok_kind (advance_position l) = tok_kind l /\ others_of (advance_position l) = others_of l.
Proof. unfold advance_position, advance. by repeat case_match. Qed.

(** The state with its queue shifted, before the next byte is known. *)
Definition shifted (l : mp_lexer_t) : mp_lexer_t :=
  set_chars (MkQueue (chr_1 l) (chr_2 l) (chr_2 l)) (advance_position l).

Lemma wp_next_source l cs (Q : unit -> mp_lexer_t -> Prop) : reader_ok l -> fstring_args_idx l = 0 ->
  direct (chars l) (unread l) cs ->
  (forall l', queue_sees (tail cs) l' -> fstring_args_idx l' = 0 -> fstring_args l' = fstring_args l -> moved l l' -> Q tt l') ->
  wp next_char l Q.
Proof.
  intros Hr Hi Hd HQ. destruct (advance_fields l) as (Er & Ec & Es & Ea & Ei & Ep & Et & Ek & Eo).
  unfold next_char. apply wp_bind, wp_modify, wp_bind, wp_modify.
  assert ((fun l => set_chars (MkQueue (chr_1 l) (chr_2 l) (chr_2 l)) l) (advance_position l) = shifted l) as ->
    by (unfold shifted, chr_1, chr_2; by rewrite Ec).
  apply wp_bind. unfold wp at 1, get. change (fstring_args_idx (shifted l)) with (fstring_args_idx (advance_position l)).
  rewrite Ei, Hi. change (negb (0 =? 0)) with false. cbv iota. apply wp_bind, wp_bind.
  assert (reader_ok (shifted l)) as Hr1 by (unfold reader_ok, shifted; cbn; by rewrite Er).
  assert (unread (shifted l) = unread l) as Hu by (unfold unread, shifted; cbn; by rewrite Er).
  apply wp_readbyte; [done|]. intros r Hr2 Hu2. rewrite Hu in *. apply wp_modify.
  eapply (wp_fix_queue _ (chars l) (unread l)); [exact Hr2|exact Hd|done|exact Hu2|].
  intros r' q' Hs. apply HQ; [exact Hs|cbn; congruence|exact Ea|]. split; [exact Ep|exact Et|exact Ek|exact Eo].
Qed.

Lemma c_string_snoc b : c_string (b ++ [0]) = c_string b.
Proof. induction b as [|c b IH]; cbn; [done|]. by rewrite IH. Qed.

Lemma c_string_cons c b : c <> 0 -> c_string (c :: b) = c :: c_string b.
Proof. intros H. cbn. by rewrite (proj2 (Z.eqb_neq _ _)). Qed.

Lemma so_get cap s v i : str_ok cap s v -> (i < length s)%nat -> buf v !! i = s !! i.
Proof. intros Hs Hi. rewrite <-(lookup_take_lt (buf v) (length s) i) by done. by rewrite (so_prefix _ _ _ Hs). Qed.

Lemma reset_ok s v : str_ok None s v -> str_ok None [] (vstr_reset v).
Proof. intros []. split; cbn; [done|done|done|done|lia|done]. Qed.

Lemma wp_arg_byte b l i (Q : Z -> mp_lexer_t -> Prop) : str_ok None b (fstring_args l) -> 0 <= i < Z.of_nat (length b) ->
  (forall c, b !! Z.to_nat i = Some c -> Q c l) -> wp (arg_byte i) l Q.
Proof.
  intros Hb Hi HQ. unfold wp, arg_byte. rewrite bool_decide_true by lia. rewrite (so_get _ _ _ _ Hb) by lia.
  destruct (lookup_lt_is_Some_2 b (Z.to_nat i)) as [c Hc]; [lia|]. rewrite Hc. by apply HQ.
Qed.

(** Reading an argument of an f-string: on with the arguments or back to the
    source. *)
Lemma wp_next_injected l cs (Q : unit -> mp_lexer_t -> Prop) : reader_ok l -> injecting cs l ->
  (forall l', reads false (tail cs) [] l' -> moved l l' -> Q tt l') -> wp next_char l Q.
Proof.
  intros Hr (b & rest & Hb & Hsz & Hpl & Hi & P0 & P1 & P2 & Hn0 & -> & Hd) HQ.
  destruct (advance_fields l) as (Er & Ec & Es & Ea & Ei & Ep & Et & Ek & Eo).
  unfold next_char. apply wp_bind, wp_modify, wp_bind, wp_modify.
  assert ((fun l => set_chars (MkQueue (chr_1 l) (chr_2 l) (chr_2 l)) l) (advance_position l) = shifted l) as ->
    by (unfold shifted, chr_1, chr_2; by rewrite Ec).
  set (l1 := shifted l). assert (reader_ok l1) as Hr1 by (unfold reader_ok, l1, shifted; cbn; by rewrite Er).
  assert (unread l1 = unread l) as Hu by (unfold unread, l1, shifted; cbn; by rewrite Er).
  assert (saved l1 = saved l) as Hs1 by exact Es. assert (fstring_args l1 = fstring_args l) as Ha1 by exact Ea.
  assert (fstring_args_idx l1 = fstring_args_idx l) as Hi1 by exact Ei.
  assert (chars l1 = MkQueue (chr_1 l) (chr_2 l) (chr_2 l)) as Hc1 by done.
  assert (forall q i a r, moved l (set_fstring_args_idx i (set_fstring_args a (set_chars q (set_reader r l1))))) as Hmv.
  { intros. split; [exact Ep|exact Et|exact Ek|exact Eo]. }
  clearbody l1. apply wp_bind. unfold wp at 1, get. rewrite Hi1. rewrite (proj2 (Z.eqb_neq _ _)) by lia. cbn [negb].
  (* what follows once the third character is there *)
  assert (forall c2 i', plain c2 -> 3 <= i' <= Z.of_nat (length b) ->
    tail (CUR_CHAR l :: chr_1 l :: chr_2 l :: drop (Z.to_nat (fstring_args_idx l)) b) ++ (if decide (i' = fstring_args_idx l) then [0] else []) =
      chr_1 l :: chr_2 l :: c2 :: drop (Z.to_nat i') b ->
    wp (l ← get;
        if CUR_CHAR l =? 0 then
          modify (fun l => set_fstring_args_idx 0 (set_fstring_args (vstr_reset (fstring_args l)) (set_chars (saved l) l)))
        else mret tt) (set_fstring_args_idx i' (set_chars (MkQueue (chr_1 l) (chr_2 l) c2) l1))
      (fun _ l2 => (chr_1 l2 <> 13 /\ (chr_2 l2 = MP_LEXER_EOF -> chr_1 l2 = MP_LEXER_EOF \/ chr_1 l2 = 10)) /\ Q tt l2)) as Hend.
  { intros c2 i' Hc2 Hi' Htl.
    assert (tail (c_string (CUR_CHAR l :: chr_1 l :: chr_2 l :: drop (Z.to_nat (fstring_args_idx l)) b)) =
      c_string (chr_1 l :: chr_2 l :: c2 :: drop (Z.to_nat i') b)) as Hcs.
    { rewrite c_string_cons by done. cbn [tail]. rewrite <-Htl. cbn [tail]. case_decide; [by rewrite c_string_snoc|by rewrite app_nil_r]. }
    rewrite c_string_cons in Hcs, HQ by done. cbn [tail app] in Hcs, HQ. rewrite Hcs in HQ.
    apply wp_bind. unfold wp at 1, get. change (CUR_CHAR _) with (chr_1 l). destruct (chr_1 l =? 0) eqn:E; to_prop.
    - apply wp_modify. cbn [saved set_fstring_args_idx set_chars]. rewrite Hs1. split; [exact (direct_settled _ _ _ Hd)|].
      rewrite E in HQ. cbn [c_string Z.eqb app] in HQ. apply HQ.
      + split; [exact Hr1|]. left. split; [done|]. split; [|cbn; rewrite Ha1; by eapply reset_ok].
        change (unread _) with (unread l1). by rewrite Hu.
      + exact (Hmv (saved l) 0 (vstr_reset (fstring_args l1)) (reader l1)) || (destruct l1; exact (Hmv _ _ _ _)).
    - apply wp_ret. cbn [chr_1 chr_2 chars]. split; [split; [apply P2|intros H; by apply plain_not_eof in H]|].
      apply HQ.
      + split; [exact Hr1|]. right. split; [done|]. split; [done|]. exists b, rest. cbn. rewrite Ha1, Hs1.
        change (unread (set_fstring_args_idx i' (set_chars (MkQueue (chr_1 l) (chr_2 l) c2) l1))) with (unread l1). rewrite Hu.
        repeat (split; [done|]). done.
      + destruct l1. exact (Hmv (MkQueue (chr_1 l) (chr_2 l) c2) i' _ _). }
  apply wp_bind.
  apply (wp_mono _ _ (fun _ l2 => (chr_1 l2 <> 13 /\ (chr_2 l2 = MP_LEXER_EOF -> chr_1 l2 = MP_LEXER_EOF \/ chr_1 l2 = 10)) /\ Q tt l2));
    [|intros [] l2 [[Hf1 Hf2] HQ']; by apply wp_fix_nothing].
  unfold next_arg_char. apply wp_bind. unfold wp at 1, get. apply wp_bind. rewrite Hi1, Ha1, (so_len _ _ _ Hb).
  destruct (fstring_args_idx l <? Z.of_nat (length b)) eqn:E; to_prop.
  - apply wp_bind. eapply (wp_arg_byte b); [by rewrite Ha1|lia|]. intros c Hc. apply wp_modify.
    unfold set_chr2, CUR_CHAR, chr_1. cbn [fstring_args_idx set_chars chars]. rewrite Hc1, Hi1, uwrap_small by lia. cbn [chr0 chr1].
    apply Hend; [by eapply Forall_lookup_1|lia|]. rewrite decide_False by lia. cbn [tail]. rewrite app_nil_r, (drop_S _ _ _ Hc).
    repeat f_equal. lia.
  - apply wp_modify. unfold set_chr2, CUR_CHAR, chr_1. rewrite Hc1. cbn [chr0 chr1].
    replace (set_chars _ l1) with
      (set_fstring_args_idx (fstring_args_idx l) (set_chars (MkQueue (chr_1 l) (chr_2 l) 0) l1)) by (rewrite <-Hi1; by destruct l1).
    apply Hend; [done|lia|]. rewrite decide_True by done. rewrite drop_ge by lia. done.
Qed.

Section Rules.
Context (m : bool) (cs : list Z) (p : Z * Z) (s : list Z) (k : mp_token_kind_t) (o : others) (a : list Z) (l : mp_lexer_t).

Lemma cur_char : at_ m cs p s k o a l -> CUR_CHAR l = look cs 0.
Proof.
  intros [[_ [(_ & Hd & _)|(_ & _ & b & rest & _ & _ & _ & _ & _ & _ & _ & Hn & -> & _)]] _ _ _ _].
  - by eapply direct_chr0.
  - by rewrite c_string_cons.
Qed.

Lemma wp_next (Q : unit -> mp_lexer_t -> Prop) : at_ m cs p s k o a l ->
  (forall l', at_ m (tail cs) (advance p (look cs 0)) s k o a l' -> Q tt l') -> wp next_char l Q.
Proof.
  intros Hat HQ. rewrite <-(cur_char Hat) in HQ. pose proof (at_reads _ _ _ _ _ _ _ _ Hat) as [Hr [(Hi & Hd & Ha)|(-> & -> & Hi)]].
  - eapply wp_next_source; [done|done|done|]. intros l' [Hr' Hd'] Hi' Ha' Hmv. apply HQ.
    eapply at_moved; [exact Hat| |done]. split; [done|]. left. by rewrite Ha'.
  - eapply wp_next_injected; [done|done|]. intros l' Hr' Hmv. apply HQ. by eapply at_moved.
Qed.

(** Every loop has fuel for the characters ahead. *)
Lemma at_fuel : at_ m cs p s k o a l -> (length cs + 3 < fuel_of l)%nat.
Proof.
  intros [[Hr [(Hi & Hd & Ha)|(_ & _ & b & rest & Hb & _ & _ & Hi & _ & _ & _ & _ & -> & Hd)]] _ _ _ _];
    pose proof (direct_length _ _ _ Hd) as Hl; unfold unread in Hl; rewrite length_drop in Hl; unfold fuel_of.
  - destruct Hr. lia.
  - rewrite (so_len _ _ _ Hb), length_app. set (L := CUR_CHAR l :: _).
    assert (forall x, length (c_string x) <= length x)%nat as Hc.
    { induction x as [|c x IH]; cbn; [lia|]. destruct (c =? 0); cbn; lia. }
    specialize (Hc L). unfold L in Hc at 2. cbn [length] in Hc. rewrite length_drop in Hc. destruct Hr. lia.
Qed.

Lemma at_plain : at_ m cs p s k o a l -> Forall plain cs.
Proof.
  intros [[Hr [(Hi & Hd & Ha)|(_ & _ & b & rest & Hb & _ & Hp & Hi & P0 & P1 & P2 & _ & -> & Hd)]] _ _ _ _]; [by eapply direct_plain|].
  apply Forall_app. split; [|by eapply direct_plain].
  assert (forall x, Forall plain x -> Forall plain (c_string x)) as Hc.
  { induction 1 as [|c x Hx Hxs IH]; cbn; [constructor|]. destruct (c =? 0); [constructor|by constructor]. }
  apply Hc. repeat (constructor; [done|]). by apply Forall_drop.
Qed.

Lemma at_end : at_ m cs p s k o a l -> is_end l = match cs with [] => true | _ => false end.
Proof.
  intros Hat. unfold is_end. rewrite (cur_char Hat). pose proof (at_plain Hat) as Hp. destruct Hp as [|c cs' Hc _]; [done|].
  apply Z.eqb_neq. by apply plain_not_eof.
Qed.

(** Text *)
Lemma wp_on_vstr op (c : Mv unit) (Q : lexer_exn + unit -> mp_lexer_t -> Prop) : at_ m cs p s k o a l ->
  wp c (vstr l) (op_post None op s) ->
  (forall l', at_ m cs p (string_op op s) k o a l' -> Q (inr tt) l') -> wp (on_vstr c) l Q.
Proof.
  intros [Hr Hp Ht Hk Ho] Hc HQ. unfold on_vstr. apply wp_bind, wp_on_part. eapply wp_mono; [exact Hc|].
  intros r v (s' & Hs' & He). cbn in He. injection He as -> ->. apply wp_ret, HQ. by split.
Qed.

Lemma wp_set_kind k' (Q : unit -> mp_lexer_t -> Prop) : at_ m cs p s k o a l ->
  (forall l', at_ m cs p s k' o a l' -> Q tt l') -> wp (modify (set_tok_kind k')) l Q.
Proof. intros [Hr Hp Ht Hk Ho] HQ. apply wp_modify, HQ. by split. Qed.

Lemma wp_get {A} (f : mp_lexer_t -> Ml A) (Q : A -> mp_lexer_t -> Prop) : wp (f l) l Q -> wp (x ← get; f x) l Q.
Proof. done. Qed.

End Rules.

Section Text.
Context (cs : list Z) (p : Z * Z) (s : list Z) (k : mp_token_kind_t) (o : others) (a : list Z) (l : mp_lexer_t).

Lemma wp_text_byte `{Fresh} m c (Q : lexer_exn + unit -> mp_lexer_t -> Prop) : at_ m cs p s k o a l ->
  Z.of_nat (length s) + 1 < 2 ^ 30 ->
  (forall l', at_ m cs p (s ++ [c]) k o a l' -> Q (inr tt) l') -> wp (on_vstr (vstr_add_byte c)) l Q.
Proof.
  intros Hat Hs HQ. eapply (wp_on_vstr _ _ _ _ _ _ _ _ (AddByte c)); [exact Hat| |exact HQ].
  apply (wp_append None s); [by apply (at_text _ _ _ _ _ _ _ _ Hat)|cbn; lia|done].
Qed.

Lemma wp_text_unichar `{Fresh} m c (Q : lexer_exn + unit -> mp_lexer_t -> Prop) : at_ m cs p s k o a l ->
  Z.of_nat (length s) + 4 < 2 ^ 30 -> 0 <= c < 0x110000 ->
  (forall l', at_ m cs p (s ++ encoding c) k o a l' -> Q (inr tt) l') -> wp (on_vstr (vstr_add_char c)) l Q.
Proof.
  intros Hat Hs Hc HQ. eapply (wp_on_vstr _ _ _ _ _ _ _ _ (AddChar c)); [exact Hat| |exact HQ].
  apply wp_add_char; [by apply (at_text _ _ _ _ _ _ _ _ Hat)|done|done].
Qed.

Lemma wp_cut_text `{Fresh} m n (Q : lexer_exn + unit -> mp_lexer_t -> Prop) : at_ m cs p s k o a l -> 0 <= n ->
  (forall l', at_ m cs p (take (length s - Z.to_nat n) s) k o a l' -> Q (inr tt) l') -> wp (on_vstr (vstr_cut_tail_bytes n)) l Q.
Proof.
  intros Hat Hn HQ. eapply (wp_on_vstr _ _ _ _ _ _ _ _ (CutTail (Z.to_nat n))); [exact Hat| |exact HQ].
  rewrite <-(Z2Nat.id n) by done. rewrite Nat2Z.id. apply wp_cut_tail; by apply (at_text _ _ _ _ _ _ _ _ Hat).
Qed.

Lemma wp_text_strn `{Fresh} m t (Q : lexer_exn + unit -> mp_lexer_t -> Prop) : at_ m cs p s k o a l ->
  Z.of_nat (length s) + Z.of_nat (length t) < 2 ^ 30 ->
  (forall l', at_ m cs p (s ++ t) k o a l' -> Q (inr tt) l') -> wp (on_vstr (vstr_add_strn t)) l Q.
Proof.
  intros Hat Hs HQ. eapply (wp_on_vstr _ _ _ _ _ _ _ _ (AddStrn t)); [exact Hat| |exact HQ].
  apply wp_add_strn; [by apply (at_text _ _ _ _ _ _ _ _ Hat)|done].
Qed.

(** The arguments collected, while the source is read. *)
Lemma wp_args op (c : Mv unit) (Q : lexer_exn + unit -> mp_lexer_t -> Prop) : at_ true cs p s k o a l ->
  wp c (fstring_args l) (op_post None op a) ->
  (forall l', at_ true cs p s k o (string_op op a) l' -> Q (inr tt) l') -> wp (on_args c) l Q.
Proof.
  intros [[Hr Hm] Hp Ht Hk Ho] Hc HQ. unfold on_args. apply wp_bind, wp_on_part. eapply wp_mono; [exact Hc|].
  intros r v (a' & Ha' & He). cbn in He. injection He as -> ->. apply wp_ret, HQ. split; [|done|done|done|done].
  split; [done|]. destruct Hm as [(Hi & Hd & _)|(? & _)]; [|done]. by left.
Qed.

Lemma at_args m : at_ m cs p s k o a l -> m = true \/ a <> [] -> str_ok None a (fstring_args l) /\ fstring_args_idx l = 0.
Proof. intros [[Hr [(? & ? & ?)|(-> & -> & ?)]] _ _ _ _] [|]; done. Qed.

End Text.
