(* ===== verification/LexerTokens.v ===== *)
(** * The tokens of a source

    What a token is, as a function of the characters ahead: white space and
    comments, names and keywords, numbers, and the longest operator that matches;
    and that the code finds them.  String literals are in LexerStrings. *)
From Stdlib Require Import Ascii String.
From S2P Require Import Prelude.
From S2P Require Import CMem.
From S2P Require Import Unicode.
From S2P Require Import Vstr.
From S2P Require Import VstrProps.
From S2P Require Import MpPrint.
From S2P Require Import Lexer.
From S2P Require Import LexerFacts.
Local Open Scope Z_scope.

(** ** The specification *)

Definition advances (p : Z * Z) (cs : list Z) : Z * Z := fold_left advance cs p.

(** White space: did it stop at a newline, and what is left. *)
Fixpoint skip_space (stop comment : bool) (p : Z * Z) (cs : list Z) : bool * (Z * Z) * list Z :=
  match cs with
  | [] => (false, p, [])
  | c :: cs' =>
      if c =? 10 then if stop then (true, p, cs) else skip_space stop false (advance p c) cs'
      else if comment then skip_space stop true (advance p c) cs'
      else if unichar_isspace c then skip_space stop false (advance p c) cs'
      else if c =? "#"%chr then skip_space stop true (advance p c) cs'
      else match cs' with
           | d :: cs'' =>
               if (c =? BACKSLASH) && (d =? 10) then skip_space stop false (advance (advance p c) d) cs'' else (false, p, cs)
           | [] => (false, p, cs)
           end
  end.

(** The longest beginning of a list with a property, and the rest. *)
Fixpoint span (f : Z -> bool) (cs : list Z) : list Z * list Z :=
  match cs with
  | c :: cs' => if f c then (c :: (span f cs').1, (span f cs').2) else ([], cs)
  | [] => ([], [])
  end.

Definition ident_head (c : Z) : bool := unichar_isalpha c || (c =? "_"%chr) || (0x80 <=? c).
Definition ident_tail (c : Z) : bool := ident_head c || unichar_isdigit c.

Fixpoint text_eqb (s t : list Z) : bool :=
  match s, t with
  | [], [] => true
  | a :: s, b :: t => (a =? b) && text_eqb s t
  | _, _ => false
  end.
Fixpoint assoc {A} (s : list Z) (table : list (list Z * A)) : option A :=
  match table with
  | [] => None
  | (t, x) :: table => if text_eqb s t then Some x else assoc s table
  end.

Definition keywords : list (list Z * mp_token_kind_t) := Eval cbv in
  map (fun e => (str e.1, e.2))
  [("False", KW_FALSE); ("None", KW_NONE); ("True", KW_TRUE); ("__debug__", KW___DEBUG__);
   ("and", KW_AND); ("as", KW_AS); ("assert", KW_ASSERT); ("async", KW_ASYNC); ("await", KW_AWAIT); ("break", KW_BREAK);
   ("class", KW_CLASS); ("continue", KW_CONTINUE); ("def", KW_DEF); ("del", KW_DEL); ("elif", KW_ELIF); ("else", KW_ELSE);
   ("except", KW_EXCEPT); ("finally", KW_FINALLY); ("for", KW_FOR); ("from", KW_FROM); ("global", KW_GLOBAL); ("if", KW_IF);
   ("import", KW_IMPORT); ("in", KW_IN); ("is", KW_IS); ("lambda", KW_LAMBDA); ("nonlocal", KW_NONLOCAL); ("not", KW_NOT);
   ("or", KW_OR); ("pass", KW_PASS); ("raise", KW_RAISE); ("return", KW_RETURN); ("try", KW_TRY); ("while", KW_WHILE);
   ("with", KW_WITH); ("yield", KW_YIELD)]%string.
(** [__debug__] is a constant. *)
Definition name_kind (optimise : Z) (s : list Z) : mp_token_kind_t :=
  match assoc s keywords with
  | Some KW___DEBUG__ => if optimise =? 0 then KW_TRUE else KW_FALSE
  | Some k => k
  | None => NAME
  end.

Definition operators : list (list Z * mp_token_kind_t) := Eval cbv in
  map (fun e => (str e.1, e.2))
  [("(", DEL_PAREN_OPEN); (")", DEL_PAREN_CLOSE); ("[", DEL_BRACKET_OPEN); ("]", DEL_BRACKET_CLOSE);
   ("{", DEL_BRACE_OPEN); ("}", DEL_BRACE_CLOSE); (",", DEL_COMMA); (";", DEL_SEMICOLON); ("~", OP_TILDE);
   (":", DEL_COLON); (":=", OP_ASSIGN); ("<", OP_LESS); ("<=", OP_LESS_EQUAL); ("<<", OP_DBL_LESS);
   ("<<=", DEL_DBL_LESS_EQUAL); (">", OP_MORE); (">=", OP_MORE_EQUAL); (">>", OP_DBL_MORE); (">>=", DEL_DBL_MORE_EQUAL);
   ("*", OP_STAR); ("*=", DEL_STAR_EQUAL); ("**", OP_DBL_STAR); ("**=", DEL_DBL_STAR_EQUAL); ("+", OP_PLUS);
   ("+=", DEL_PLUS_EQUAL); ("-", OP_MINUS); ("-=", DEL_MINUS_EQUAL); ("->", DEL_MINUS_MORE); ("&", OP_AMPERSAND);
   ("&=", DEL_AMPERSAND_EQUAL); ("|", OP_PIPE); ("|=", DEL_PIPE_EQUAL); ("/", OP_SLASH); ("/=", DEL_SLASH_EQUAL);
   ("//", OP_DBL_SLASH); ("//=", DEL_DBL_SLASH_EQUAL); ("%", OP_PERCENT); ("%=", DEL_PERCENT_EQUAL); ("^", OP_CARET);
   ("^=", DEL_CARET_EQUAL); ("@", OP_AT); ("@=", DEL_AT_EQUAL); ("=", DEL_EQUAL); ("==", OP_DBL_EQUAL);
   ("!=", OP_NOT_EQUAL); (".", DEL_PERIOD); ("...", ELLIPSIS)]%string.

(** The longest operator in front, with its length; an invalid character is a
    token of its own. *)
Definition operator_of_length (n : nat) (cs : list Z) : option mp_token_kind_t :=
  if (n <=? length cs)%nat then assoc (take n cs) operators else None.
Definition longest_operator (cs : list Z) : nat * mp_token_kind_t :=
  match operator_of_length 3 cs with
  | Some k => (3%nat, k)
  | None =>
      match operator_of_length 2 cs with
      | Some k => (2%nat, k)
      | None => (1%nat, default INVALID (operator_of_length 1 cs))
      end
  end.

(** The characters of a number: a sign belongs to it after an exponent mark. *)
Fixpoint number_span (forced mark : bool) (cs : list Z) : list Z * list Z :=
  match cs with
  | c :: cs' =>
      if mark && ((c =? "+"%chr) || (c =? "-"%chr)) then (c :: (number_span forced false cs').1, (number_span forced false cs').2)
      else if unichar_isalpha c || unichar_isdigit c || (c =? "."%chr) || (c =? "_"%chr) then
        let r := number_span forced (negb forced && ((c =? "e"%chr) || (c =? "E"%chr))) cs' in (c :: r.1, r.2)
      else ([], cs)
  | [] => ([], [])
  end.
Definition is_radix (cs : list Z) : bool :=
  (look cs 0 =? "0"%chr) && (let c := Z.lor (look cs 1) 0x20 in (c =? "b"%chr) || (c =? "o"%chr) || (c =? "x"%chr)).
Definition number_text (forced : bool) (raw : list Z) : list Z :=
  map (fun c => if negb forced && (c =? "E"%chr) then "e"%chr else c) (filter (fun c => c <> "_"%chr) raw).
Definition is_float_mark (forced : bool) (c : Z) : bool :=
  (c =? "."%chr) || (c =? "j"%chr) || (c =? "J"%chr) || negb forced && ((c =? "e"%chr) || (c =? "E"%chr)).
Definition number_kind (forced : bool) (raw : list Z) : mp_token_kind_t :=
  if existsb (is_float_mark forced) raw then FLOAT_OR_IMAG else INTEGER.

(** The stack of indentations, the top first, when a line starts at [column]:
    the new stack, the tokens to come and the kind of this one. *)
Fixpoint pop_levels (n : Z) (stack : list Z) : list Z * Z :=
  match stack with
  | x :: stack' => if n <? x then let r := pop_levels n stack' in (r.1, r.2 - 1) else (stack, 0)
  | [] => ([], 0)
  end.
Definition indent (n : Z) (stack : list Z) : list Z * Z * mp_token_kind_t :=
  let top := hd 0 stack in
  if n =? top then (stack, 0, NEWLINE)
  else if top <? n then (u16 n :: stack, 1, NEWLINE)
  else let r := pop_levels n stack in (r.1, r.2, if n =? hd 0 r.1 then NEWLINE else DEDENT_MISMATCH).

Definition string_start (cs : list Z) : bool :=
  let quote c := (c =? "'"%chr) || (c =? DOUBLE_QUOTE) in
  let one c d := (look cs 0 =? c) && (look cs 1 =? d) in
  quote (look cs 0)
  || ((look cs 0 =? "r"%chr) || (look cs 0 =? "u"%chr) || (look cs 0 =? "b"%chr) || (look cs 0 =? "f"%chr)) && quote (look cs 1)
  || (one "r"%chr "f"%chr || one "f"%chr "r"%chr) && quote (look cs 2)
  || (one "r"%chr "b"%chr || one "b"%chr "r"%chr) && quote (look cs 2).

(** The lexer between two tokens. *)
Record lex_state := MkState {
  ls_chars : list Z;
  ls_pos : Z * Z;
  ls_stack : list Z;
  ls_dent : Z;
  ls_bracket : Z;
}.
Record token := MkToken { t_kind : mp_token_kind_t; t_text : list Z; t_pos : Z * Z }.

(** The next token, unless it is a string literal. *)
Definition next_token (optimise : Z) (st : lex_state) : option (token * lex_state) :=
  let '(newline, p, cs) := skip_space (ls_bracket st =? 0) false (ls_pos st) (ls_chars st) in
  if ls_dent st <? 0 then
    Some (MkToken DEDENT [] p, MkState cs p (ls_stack st) (ls_dent st + 1) (ls_bracket st))
  else if 0 <? ls_dent st then
    Some (MkToken INDENT [] p, MkState cs p (ls_stack st) (ls_dent st - 1) (ls_bracket st))
  else if newline : bool then
    let '(_, q, cs) := skip_space false false p cs in
    let '(stack, dent, k) := indent (u32 (q.2 - 1)) (ls_stack st) in
    Some (MkToken k [] p, MkState cs q stack dent (ls_bracket st))
  else
    match cs with
    | [] => Some (MkToken END [] p, MkState [] p (ls_stack st) 0 (ls_bracket st))
    | c :: cs' =>
        let go n k s d := Some (MkToken k s p, MkState (drop n cs) (advances p (take n cs)) (ls_stack st) 0 (ls_bracket st + d)) in
        if string_start cs then None
        else if ident_head c then
          let s := c :: (span ident_tail cs').1 in go (length s) (name_kind optimise s) s 0
        else if unichar_isdigit c || (c =? "."%chr) && unichar_isdigit (look cs 1) then
          let forced := is_radix cs in
          let raw := c :: (number_span forced false cs').1 in
          go (length raw) (number_kind forced raw) (number_text forced raw) 0
        else
          let '(n, k) := longest_operator cs in
          go n k [] (if is_opening k then 1 else if is_closing k then -1 else 0)
    end.

(** ** Looking ahead in the source *)

Section Look.
Context {cs : list Z} {p : Z * Z} {s : list Z} {k : mp_token_kind_t} {o : others} {a : list Z} {l : mp_lexer_t}.
Hypothesis (Hat : at_ true cs p s k o a l).

Lemma chr_1_look : chr_1 l = look cs 1.
Proof. destruct Hat as [[_ [(_ & Hd & _)|(? & _)]] _ _ _ _]; [|done]. by eapply direct_chr1. Qed.

Lemma chr_2_look c : c <> 10 -> c <> 13 -> (chr_2 l =? c) = (look cs 2 =? c).
Proof. destruct Hat as [[_ [(_ & Hd & _)|(? & _)]] _ _ _ _]; [|done]. by eapply direct_chr2. Qed.

Lemma string_start_look : is_string_or_bytes l = string_start cs.
Proof.
  unfold is_string_or_bytes, string_start, is_char_or, is_char_or4, is_char_following_or, is_char_and, is_char_following_following_or.
  rewrite !(cur_char _ _ _ _ _ _ _ _ Hat), !chr_1_look, !chr_2_look by done. done.
Qed.

End Look.

(** ** White space *)

Lemma look_cons c cs : look (c :: cs) 0 = c.
Proof. done. Qed.

Lemma tail_drop {A} n (cs : list A) : tail (drop n cs) = drop (S n) cs.
Proof. replace (S n) with (n + 1)%nat by lia. rewrite <-drop_drop. by destruct (drop n cs). Qed.

Lemma look_tail cs i : look (tail cs) i = look cs (S i).
Proof. by destruct cs, i. Qed.

Lemma wp_skip_comment m cs p s k o a l (Q : unit -> mp_lexer_t -> Prop) : at_ m cs p s k o a l ->
  (forall l' cs' p', at_ m cs' p' s k o a l' -> (length cs' <= length cs)%nat ->
     (forall stop, skip_space stop true p cs = skip_space stop false p' cs') ->
     (exists n, cs' = drop n cs) -> Q tt l') ->
  wp skip_comment l Q.
Proof.
  intros Hat HQ. unfold skip_comment. apply wp_get. pose proof (at_fuel _ _ _ _ _ _ _ _ Hat) as Hf. unfold while.
  apply (wp_loop_idx (fun n _ l1 => exists cs1 p1, n = length cs1 /\ at_ m cs1 p1 s k o a l1 /\ (length cs1 <= length cs)%nat /\
    (forall stop, skip_space stop true p cs = skip_space stop true p1 cs1) /\ exists j, cs1 = drop j cs)) with (k := length cs).
  - intros n [] l1 (cs1 & p1 & -> & Hat1 & Hle & Hsk & j & Hj). apply wp_bind, wp_bind, wp_get, wp_ret.
    rewrite (at_end _ _ _ _ _ _ _ _ Hat1). unfold is_physical_newline. rewrite (cur_char _ _ _ _ _ _ _ _ Hat1).
    destruct cs1 as [|c cs1]; cbn [negb andb].
    { apply wp_ret. eapply HQ; [exact Hat1|done|intros stop; by rewrite Hsk|by exists j]. }
    rewrite look_cons. change NEWLINE_CHAR with 10. destruct (c =? 10) eqn:E; cbn [negb].
    + apply wp_ret. eapply HQ; [exact Hat1|done| |by exists j]. intros stop. rewrite Hsk. cbn. by rewrite E.
    + apply wp_bind. eapply wp_next; [exact Hat1|]. intros l2 Hat2. apply wp_ret. exists (length cs1). cbn [length] in *. split; [lia|].
      exists cs1, (advance p1 c). split; [done|]. split; [exact Hat2|]. split; [lia|]. split.
      * intros stop. rewrite Hsk. cbn. by rewrite E.
      * exists (S j). replace (S j) with (j + 1)%nat by lia. by rewrite <-drop_drop, <-Hj.
  - exists cs, p. split; [done|]. split; [done|]. split; [done|]. split; [done|]. by exists 0%nat.
  - lia.
Qed.

Lemma drop_same {A} j (cs cs1 : list A) : cs1 = drop j cs -> length cs1 = length cs -> cs1 = cs.
Proof. intros -> Hl. rewrite length_drop in Hl. destruct cs as [|c cs]; [by rewrite drop_nil|]. cbn in Hl. by replace j with 0%nat by lia. Qed.

(** In the arguments of an f-string the code may look past their end, and then
    all that is said is that a part of the characters is left. *)
Lemma wp_skip_whitespace m cs p s k o a l (stop : bool) (Q : bool -> mp_lexer_t -> Prop) : at_ m cs p s k o a l ->
  (forall newline p' cs' l', at_ m cs' p' s k o a l' -> (exists n, cs' = drop n cs) ->
     (newline = true -> look cs' 0 = 10) ->
     (stop = false -> look cs 0 = 10 -> (length cs' < length cs)%nat) ->
     (m = true -> skip_space (stop && (o_bracket o =? 0)) false p cs = (newline, p', cs')) -> Q newline l') ->
  wp (skip_whitespace stop) l Q.
Proof.
  intros Hat HQ. unfold skip_whitespace. apply wp_get. pose proof (at_fuel _ _ _ _ _ _ _ _ Hat) as Hf.
  apply (wp_loop_idx (fun n _ l1 => exists cs1 p1, n = length cs1 /\ at_ m cs1 p1 s k o a l1 /\ (length cs1 <= length cs)%nat /\
    (m = true -> skip_space (stop && (o_bracket o =? 0)) false p cs = skip_space (stop && (o_bracket o =? 0)) false p1 cs1) /\
    exists j, cs1 = drop j cs)) with (k := length cs).
  2: { exists cs, p. split; [done|]. split; [done|]. split; [done|]. split; [done|]. by exists 0%nat. }
  2: lia.
  intros n [] l1 (cs1 & p1 & -> & Hat1 & Hle & Hsk & j & Hj). apply wp_get.
  rewrite (at_end _ _ _ _ _ _ _ _ Hat1). destruct cs1 as [|c cs1].
  { apply wp_ret. eapply HQ; [exact Hat1|by exists j|done|destruct cs; cbn; [done|lia]|]. intros Hm. by rewrite Hsk. }
  unfold is_physical_newline, is_whitespace, is_char, is_char_and. rewrite (cur_char _ _ _ _ _ _ _ _ Hat1), !look_cons.
  assert (nested_bracket_level l1 = o_bracket o) as ->. { by rewrite <-(at_others _ _ _ _ _ _ _ _ Hat1). }
  cbn [skip_space] in Hsk. cbn [length] in *. change NEWLINE_CHAR with 10.
  assert (forall Q' : unit -> mp_lexer_t -> Prop, (forall l2, at_ m cs1 (advance p1 c) s k o a l2 -> Q' tt l2) -> wp next_char l1 Q') as Hnext.
  { intros Q' HQ'. eapply wp_next; [exact Hat1|]. exact HQ'. }
  assert (exists j', cs1 = drop j' cs) as [j' Hj'].
  { exists (S j). replace (S j) with (j + 1)%nat by lia. by rewrite <-drop_drop, <-Hj. }
  destruct (c =? 10) eqn:E.
  { destruct (stop && (o_bracket o =? 0)) eqn:Es.
    - apply wp_ret. eapply HQ; [exact Hat1|by exists j|intros _; by to_prop|by intros ->|]. intros Hm. by rewrite (Hsk Hm).
    - apply wp_bind, Hnext. intros l2 Hat2. apply wp_ret. exists (length cs1). split; [lia|]. exists cs1, (advance p1 c).
      split; [done|]. split; [exact Hat2|]. split; [lia|]. split; [done|by exists j']. }
  destruct (unichar_isspace c).
  { apply wp_bind, Hnext. intros l2 Hat2. apply wp_ret. exists (length cs1). split; [lia|]. exists cs1, (advance p1 c).
    split; [done|]. split; [exact Hat2|]. split; [lia|]. split; [done|by exists j']. }
  destruct (c =? 35).
  { apply wp_bind, Hnext. intros l2 Hat2. apply wp_bind. eapply wp_skip_comment; [exact Hat2|].
    intros l3 cs3 p3 Hat3 Hle3 Hsk3 [j3 Hj3]. apply wp_ret. exists (length cs3). split; [lia|]. exists cs3, p3. split; [done|]. split; [exact Hat3|].
    split; [lia|]. split; [intros Hm; by rewrite (Hsk Hm), Hsk3|]. exists (j' + j3)%nat. by rewrite <-drop_drop, <-Hj'. }
  destruct ((c =? BACKSLASH) && (chr_1 l1 =? 10)) eqn:Eb.
  - apply wp_bind, Hnext. intros l2 Hat2. apply wp_bind. eapply wp_next; [exact Hat2|]. intros l3 Hat3. apply wp_ret.
    exists (length (tail cs1)). split; [destruct cs1; cbn; lia|]. exists (tail cs1), (advance (advance p1 c) (look cs1 0)).
    split; [done|]. split; [exact Hat3|]. split; [destruct cs1; cbn in *; lia|]. split.
    + intros Hm. subst m. rewrite (Hsk eq_refl). rewrite (chr_1_look Hat1) in Eb. destruct cs1 as [|d cs1]; [by rewrite andb_false_r in Eb|].
      change (look (c :: d :: cs1) 1) with d in Eb. by rewrite Eb.
    + exists (j' + 1)%nat. rewrite <-drop_drop, <-Hj'. by destruct cs1.
  - apply wp_ret. eapply HQ; [exact Hat1|by exists j|done| |].
    { intros _ Hl. assert (S (length cs1) <> length cs); [|cbn [length]; lia]. intros Heq. pose proof (drop_same j cs _ Hj Heq) as Hcs.
      rewrite <-Hcs in Hl. change c with (look (c :: cs1) 0) in E. by rewrite Hl in E. }
    intros ->. rewrite (Hsk eq_refl). rewrite (chr_1_look Hat1) in Eb.
    destruct cs1 as [|d cs1]; [done|]. change (look (c :: d :: cs1) 1) with d in Eb. by rewrite Eb.
Qed.

(** ** Names *)

Lemma strcmp_eq s : forall t, strcmp s t = Eq <-> s = t.
Proof.
  induction s as [|a s IH]; intros [|b t]; cbn; try done. destruct (Z.compare_spec a b) as [->| |]; [rewrite IH| |]; split; try done; try congruence.
  - intros [= ->]. lia.
  - intros [= ->]. lia.
Qed.

Lemma strcmp_trans s : forall t u, strcmp s t = Lt -> strcmp t u = Lt -> strcmp s u = Lt.
Proof.
  induction s as [|a s IH]; intros [|b t] [|c u]; cbn; try done.
  destruct (Z.compare_spec a b), (Z.compare_spec b c); try done; subst; intros H1 H2.
  - rewrite Z.compare_refl. by eapply IH.
  - by rewrite (proj2 (Z.compare_lt_iff _ _)).
  - by rewrite (proj2 (Z.compare_lt_iff _ _)).
  - rewrite (proj2 (Z.compare_lt_iff _ _)) by lia. done.
Qed.

(** Is each string of a table less than the next one? *)
Fixpoint ascending (kws : list (list Z)) : bool :=
  match kws with
  | s :: (t :: _) as rest => match strcmp s t with Lt => ascending rest | _ => false end
  | _ => true
  end.

Lemma ascending_head s kws t : ascending (s :: kws) = true -> t ∈ kws -> strcmp s t = Lt.
Proof.
  revert s. induction kws as [|u kws IH]; intros s; cbn; [by intros _ ?%elem_of_nil|].
  destruct (strcmp s u) eqn:E; try done. intros Ha [->|Ht]%elem_of_cons; [done|]. eapply strcmp_trans; [exact E|]. by apply IH.
Qed.

(** Stopping early in a sorted table misses nothing. *)
Lemma find_keyword_correct s kws : forall i, ascending kws = true ->
  match find_keyword s kws i with
  | Some j => (i <= j)%nat /\ kws !! (j - i)%nat = Some s
  | None => s ∉ kws
  end.
Proof.
  induction kws as [|kw kws IH]; intros i Ha; cbn [find_keyword]; [by apply not_elem_of_nil|].
  destruct (strcmp s kw) eqn:E.
  - apply strcmp_eq in E as ->. split; [lia|]. by rewrite Nat.sub_diag.
  - intros [->|Ht]%elem_of_cons.
    + by rewrite (proj2 (strcmp_eq kw kw)) in E.
    + pose proof (ascending_head _ _ _ Ha Ht) as Hk. pose proof (strcmp_trans _ _ _ E Hk) as Hss. by rewrite (proj2 (strcmp_eq s s)) in Hss.
  - assert (ascending kws = true) as Ha'. { destruct kws as [|t kws]; [done|]. cbn in Ha. by destruct (strcmp kw t). }
    specialize (IH (S i) Ha'). destruct (find_keyword s kws (S i)) as [j|].
    + destruct IH as [Hle Hj]. split; [lia|]. replace (j - i)%nat with (S (j - S i)) by lia. done.
    + intros [->|Ht]%elem_of_cons; [|done]. by rewrite (proj2 (strcmp_eq kw kw)) in E.
Qed.

Lemma text_eqb_eq s : forall t, text_eqb s t = true <-> s = t.
Proof.
  induction s as [|a s IH]; intros [|b t]; cbn; try done. rewrite andb_true_iff, Z.eqb_eq, IH. split; [by intros [-> ->]|by intros [= -> ->]].
Qed.

Lemma assoc_none {A} s (table : list (list Z * A)) : s ∉ map fst table -> assoc s table = None.
Proof.
  induction table as [|[t x] table IH]; cbn; [done|]. intros [Hn Hr]%not_elem_of_cons. destruct (text_eqb s t) eqn:E; [by apply text_eqb_eq in E|].
  by apply IH.
Qed.

(** The enumeration is in the order of the table. *)
Lemma keyword_kinds i s : tok_kw !! i = Some s -> assoc s keywords = Some (kw_kind i).
Proof.
  assert (forall n, (n < length tok_kw)%nat -> option_map (fun s => assoc s keywords) (tok_kw !! n) = Some (Some (kw_kind n))) as H.
  { do 36 (destruct n as [|n]; [reflexivity|]). cbn. lia. }
  intros Hi. specialize (H i (lookup_lt_Some _ _ _ Hi)). rewrite Hi in H. by injection H.
Qed.

Lemma find_keyword_name optimise s :
  match find_keyword s tok_kw 0 with
  | Some i => if token_eqb (kw_kind i) KW___DEBUG__ then if optimise =? 0 then KW_TRUE else KW_FALSE else kw_kind i
  | None => NAME
  end = name_kind optimise s.
Proof.
  pose proof (find_keyword_correct s tok_kw 0 eq_refl) as H. unfold name_kind. destruct (find_keyword s tok_kw 0) as [i|].
  - destruct H as [_ H]. rewrite Nat.sub_0_r in H. rewrite (keyword_kinds _ _ H). by destruct (kw_kind i).
  - by rewrite (assoc_none s keywords).
Qed.

Lemma c_string_app s b : Forall (fun c => c <> 0) s -> c_string (s ++ 0 :: b) = s.
Proof. induction 1 as [|c s Hc Hs IH]; cbn; [done|]. rewrite (proj2 (Z.eqb_neq _ _)) by done. by rewrite IH. Qed.

Lemma span_app f cs : (span f cs).1 ++ (span f cs).2 = cs.
Proof. induction cs as [|c cs IH]; cbn; [done|]. destruct (f c); cbn; [by rewrite IH|done]. Qed.

Lemma span_all f cs : Forall (fun c => f c = true) (span f cs).1.
Proof. induction cs as [|c cs IH]; cbn; [constructor|]. destruct (f c) eqn:E; cbn; [by constructor|constructor]. Qed.

Lemma ident_nonzero c : ident_tail c = true -> c <> 0.
Proof. by intros H ->. Qed.

Lemma advances_app p cs ds : advances p (cs ++ ds) = advances (advances p cs) ds.
Proof. apply fold_left_app. Qed.

Lemma u8_plain c : plain c -> u8 c = c.
Proof. intros [? _]. by apply uwrap_small. Qed.

Section Names.
Context `{Fresh} (optimise : Z).

Lemma wp_parse_name m c cs p k o a l : at_ m (c :: cs) p [] k o a l -> ident_head c = true -> Z.of_nat (length cs) < 2 ^ 29 ->
  let t := c :: (span ident_tail cs).1 in
  wp (parse_name optimise) l (fun r l' => r = inr tt /\ at_ m (span ident_tail cs).2 (advances p t) t (name_kind optimise t) o a l').
Proof.
  intros Hat Hc Hlen t. unfold parse_name.
  apply wp_xbind, wp_safe. eapply wp_set_kind; [exact Hat|]. intros l1 Hat1. apply wp_get. rewrite (cur_char _ _ _ _ _ _ _ _ Hat1), look_cons.
  pose proof (at_plain _ _ _ _ _ _ _ _ Hat) as Hpl. inversion Hpl as [|? ? Hcp Hcsp]; subst. rewrite u8_plain by done.
  apply wp_xbind. eapply wp_text_byte; [exact Hat1|cbn; lia|]. intros l2 Hat2.
  apply wp_xbind, wp_safe. eapply wp_next; [exact Hat2|]. intros l3 Hat3. cbn [tail app] in Hat3. rewrite look_cons in Hat3. apply wp_get, wp_xbind.
  pose proof (at_fuel _ _ _ _ _ _ _ _ Hat3) as Hf.
  assert (wp (xloop (fuel_of l3) (fun _ : unit =>
    l ← get;
    if negb (is_end l) && is_tail_of_identifier l then
      on_vstr (vstr_add_byte (u8 (CUR_CHAR l)));;! safe next_char;;! xret (inl tt)
    else xret (inr tt)) tt) l3 (fun r l' => r = inr tt /\ at_ m (span ident_tail cs).2 (advances p t) t NAME o a l')) as Hloop.
  { apply (wp_loop_idx (fun n _ l' => exists cs1 s1, n = length cs1 /\ (length s1 + length cs1 = S (length cs))%nat /\ Forall plain cs1 /\
        at_ m cs1 (advances p s1) s1 NAME o a l' /\ t = s1 ++ (span ident_tail cs1).1 /\ (span ident_tail cs).2 = (span ident_tail cs1).2)) with (k := length cs); [|by exists cs, [c]|lia].
    intros n [] l' (cs1 & s1 & -> & Hsum & Hp1 & Hat' & Ht & Hr). apply wp_bind, wp_get. rewrite (at_end _ _ _ _ _ _ _ _ Hat').
    unfold is_tail_of_identifier, is_head_of_identifier, is_letter, is_digit. rewrite (cur_char _ _ _ _ _ _ _ _ Hat').
    destruct cs1 as [|c1 cs1]; cbn [negb andb].
    { apply wp_xret, wp_ret. split; [done|]. cbn [span fst snd] in Ht, Hr. rewrite app_nil_r in Ht. by rewrite Ht, Hr. }
    rewrite look_cons. fold (ident_head c1). fold (ident_tail c1).
    cbn [span] in Ht, Hr. destruct (ident_tail c1).
    - inversion Hp1; subst. rewrite u8_plain by done. cbn [length] in *. apply wp_xbind. eapply wp_text_byte; [exact Hat'|lia|].
      intros l4 Hat4. apply wp_xbind, wp_safe. eapply wp_next; [exact Hat4|]. intros l5 Hat5. apply wp_xret, wp_ret. exists (length cs1).
      split; [lia|]. exists cs1, (s1 ++ [c1]). cbn [tail fst snd] in *. rewrite look_cons in Hat5. split; [done|]. split; [rewrite length_app; cbn; lia|].
      split; [done|]. split; [by rewrite advances_app|]. split; [by rewrite <-app_assoc|done].
    - apply wp_xret, wp_ret. split; [done|]. cbn [fst snd] in Ht, Hr. rewrite app_nil_r in Ht. by rewrite Ht, Hr. }
  eapply wp_mono; [exact Hloop|]. intros r l4 [-> Hat4].
  assert (Z.of_nat (length t) + 1 < 2 ^ 30) as Hlt.
  { unfold t. cbn [length]. pose proof (f_equal length (span_app ident_tail cs)) as He. rewrite length_app in He. lia. }
  apply wp_xbind. unfold on_vstr. apply wp_bind, wp_on_part. destruct Hat4 as [Hr4 Hp4 Ht4 Hk4 Ho4].
  eapply wp_mono; [by apply (wp_null_terminated None t)|]. intros r v [Hv [[-> Hz]|[_ ?]]]; [|done]. apply wp_ret, wp_get. cbn [vstr set_vstr].
  assert (c_string (buf v) = t) as ->.
  { rewrite <-(take_drop (S (length t)) (buf v)), Hz. rewrite <-app_assoc. apply c_string_app. constructor.
    - apply ident_nonzero. unfold ident_tail. by rewrite Hc.
    - eapply Forall_impl; [apply span_all|]. apply ident_nonzero. }
  assert (at_ m (span ident_tail cs).2 (advances p t) t NAME o a (set_vstr v l4)) as Hat5 by by split.
  pose proof (find_keyword_name optimise t) as Hk. destruct (find_keyword t tok_kw 0) as [i|].
  - apply wp_safe. eapply wp_set_kind; [exact Hat5|]. intros l5 Hat6. split; [done|]. by rewrite <-Hk.
  - apply wp_xret. split; [done|]. by rewrite <-Hk.
Qed.

End Names.

(** ** Numbers *)

Lemma has_attr_ascii c f : has_attr c f = true -> c < 128.
Proof. unfold has_attr. rewrite andb_true_iff, Z.ltb_lt. tauto. Qed.

Lemma encoding_ascii c : c < 128 -> encoding c = [c].
Proof. intros H. unfold encoding. by rewrite (proj2 (Z.ltb_lt _ _)). Qed.

Lemma number_text_snoc forced raw c : number_text forced (raw ++ [c]) =
  number_text forced raw ++ (if c =? "_"%chr then [] else [if negb forced && (c =? "E"%chr) then "e"%chr else c]).
Proof.
  unfold number_text. rewrite filter_app, map_app. f_equal. cbn. unfold filter, list_filter. destruct (c =? 95) eqn:E; to_prop; [subst|].
  - by rewrite decide_False by (intros H; by apply H).
  - by rewrite decide_True by done.
Qed.

Lemma number_kind_snoc forced raw c : number_kind forced (raw ++ [c]) = if is_float_mark forced c then FLOAT_OR_IMAG else number_kind forced raw.
Proof. unfold number_kind. rewrite existsb_app. cbn. rewrite orb_false_r. destruct (existsb _ raw), (is_float_mark forced c); done. Qed.

Lemma number_text_length forced raw : (length (number_text forced raw) <= length raw)%nat.
Proof. unfold number_text. rewrite length_map. apply length_filter. Qed.

Lemma number_span_app forced cs : forall mark, (number_span forced mark cs).1 ++ (number_span forced mark cs).2 = cs.
Proof.
  induction cs as [|c cs IH]; intros mark; cbn; [done|]. destruct (mark && _); cbn; [by rewrite IH|].
  destruct (_ || _ || _ || _); cbn; [by rewrite IH|done].
Qed.

(** After an exponent mark without a sign. *)
Lemma number_span_mark forced cs mark : mark && ((look cs 0 =? "+"%chr) || (look cs 0 =? "-"%chr)) = false ->
  number_span forced mark cs = number_span forced false cs.
Proof. destruct cs as [|c cs]; [done|]. cbn [number_span]. rewrite look_cons. intros ->. done. Qed.

Section Numbers.
Context `{Fresh}.

(** [raw] has been read so far. *)
Definition in_number (m forced : bool) (p : Z * Z) (o : others) (a raw cs : list Z) (l : mp_lexer_t) : Prop :=
  at_ m cs (advances p raw) (number_text forced raw) (number_kind forced raw) o a l /\
  Z.of_nat (length raw) + Z.of_nat (length cs) < 2 ^ 29.

Lemma wp_number_next m forced p o a raw c cs l l1 (Q : unit -> mp_lexer_t -> Prop) : in_number m forced p o a raw (c :: cs) l ->
  at_ m (c :: cs) (advances p raw) (number_text forced (raw ++ [c])) (number_kind forced (raw ++ [c])) o a l1 ->
  (forall l', in_number m forced p o a (raw ++ [c]) cs l' -> Q tt l') -> wp next_char l1 Q.
Proof.
  intros [_ Hsz] Hat HQ. eapply wp_next; [exact Hat|]. intros l2 Hat2. apply HQ. cbn [tail] in Hat2. rewrite look_cons in Hat2.
  split; [by rewrite advances_app|]. rewrite length_app. cbn [length] in *. lia.
Qed.

Lemma number_kind_mark forced raw c : is_float_mark forced c = true -> number_kind forced (raw ++ [c]) = FLOAT_OR_IMAG.
Proof. intros Hc. by rewrite number_kind_snoc, Hc. Qed.

(** An exponent mark and its sign *)
Lemma wp_exponent m forced p o a raw c cs l (Q : lexer_exn + bool -> mp_lexer_t -> Prop) : in_number m forced p o a raw (c :: cs) l ->
  negb forced && ((c =? "e"%chr) || (c =? "E"%chr)) = true ->
  (forall d cs' l', c :: cs = d ++ cs' -> in_number m forced p o a (raw ++ d) cs' l' ->
     number_span forced false (c :: cs) = (d ++ (number_span forced false cs').1, (number_span forced false cs').2) -> d <> [] -> Q (inr true) l') ->
  wp (safe (modify (set_tok_kind FLOAT_OR_IMAG));;!
    on_vstr (vstr_add_char "e"%chr);;!
    safe next_char;;!
    l ← get;
    (if is_char l "+"%chr || is_char l "-"%chr then on_vstr (vstr_add_char (CUR_CHAR l));;! safe next_char else xret tt);;!
    xret true) l Q.
Proof.
  intros Hin Ee HQ. pose proof Hin as [Hat Hsz]. cbn [length] in Hsz. pose proof (number_text_length forced raw) as Htl. unfold is_char.
  assert (unichar_isalpha c || unichar_isdigit c || (c =? 46) || (c =? 95) = true) as Hcls.
  { apply andb_true_iff in Ee as [_ Hc]. apply orb_true_iff in Hc as [->%Z.eqb_eq| ->%Z.eqb_eq]; done. }
  assert (is_float_mark forced c = true) as Hfm by (unfold is_float_mark; rewrite Ee; by rewrite orb_true_r).
  apply wp_xbind, wp_safe. eapply wp_set_kind; [exact Hat|]. intros l1 Hat1.
  apply wp_xbind. eapply wp_text_unichar; [exact Hat1|lia|done|]. intros l2 Hat2.
  assert (number_text forced raw ++ encoding 101 = number_text forced (raw ++ [c])) as Hnt.
  { rewrite number_text_snoc. change (encoding 101) with [101]. f_equal. apply andb_true_iff in Ee as [-> Hc].
    apply orb_true_iff in Hc as [->%Z.eqb_eq| ->%Z.eqb_eq]; done. }
  rewrite Hnt in Hat2. rewrite <-(number_kind_mark forced raw c Hfm) in Hat2.
  apply wp_xbind, wp_safe. eapply wp_number_next; [exact Hin|exact Hat2|]. intros l3 Hin3. pose proof Hin3 as [Hat3 Hsz3].
  apply wp_get. rewrite (cur_char _ _ _ _ _ _ _ _ Hat3). destruct ((look cs 0 =? "+"%chr) || (look cs 0 =? "-"%chr)) eqn:Es.
  - destruct cs as [|d cs]; [done|]. rewrite look_cons in Es.
    assert (plain d /\ d < 128 /\ d <> 95 /\ (d =? 69) = false /\ is_float_mark forced d = false) as (Hd & Hd128 & Hd95 & Hd69 & Hdf).
    { apply orb_true_iff in Es as [->%Z.eqb_eq| ->%Z.eqb_eq]; unfold is_float_mark; repeat split; try done; by destruct forced. }
    rewrite look_cons. apply wp_xbind, wp_xbind. eapply wp_text_unichar; [exact Hat3| |destruct Hd; lia|].
    { pose proof (number_text_length forced (raw ++ [c])). rewrite length_app in *. cbn [length] in *. lia. }
    intros l4 Hat4. apply wp_safe. eapply (wp_number_next _ _ _ _ _ (raw ++ [c])); [exact Hin3| |].
    { rewrite number_text_snoc, number_kind_snoc, Hdf, (proj2 (Z.eqb_neq d 95)) by done. rewrite Hd69, andb_false_r.
      rewrite encoding_ascii in Hat4 by done. exact Hat4. }
    intros l5 Hin5. apply wp_xret. apply (HQ [c; d] cs); [done|by rewrite <-app_assoc in Hin5| |done].
    cbn [number_span andb]. by rewrite Hcls, Ee, Es.
  - apply wp_xbind, wp_xret, wp_xret. apply (HQ [c] cs); [done|done| |done].
    cbn [number_span andb]. rewrite Hcls, Ee. cbn [fst snd]. by rewrite (number_span_mark forced cs true).
Qed.

Lemma wp_number_char m forced p o a raw cs l (Q : lexer_exn + bool -> mp_lexer_t -> Prop) : in_number m forced p o a raw cs l -> cs <> [] ->
  (forall more d cs' l', cs = d ++ cs' -> in_number m forced p o a (raw ++ d) cs' l' ->
     number_span forced false cs = (d ++ (number_span forced false cs').1, (number_span forced false cs').2) ->
     (more = true -> d <> []) -> (more = false -> d = [] /\ number_span forced false cs = ([], cs)) -> Q (inr more) l') ->
  wp (parse_number_char forced) l Q.
Proof.
  intros Hin Hne HQ. destruct cs as [|c cs]; [done|]. pose proof Hin as [Hat Hsz]. unfold parse_number_char. apply wp_get.
  unfold is_char_or, is_letter, is_digit, is_char_or3, is_char. rewrite (cur_char _ _ _ _ _ _ _ _ Hat), look_cons.
  pose proof (at_plain _ _ _ _ _ _ _ _ Hat) as Hpl. inversion Hpl as [|? ? Hcp Hcsp]; subst. cbn [length] in Hsz.
  pose proof (number_text_length forced raw) as Htl. cbn [number_span] in HQ. cbn [andb] in HQ.
  destruct (negb forced && ((c =? "e"%chr) || (c =? "E"%chr))) eqn:Ee.
  - eapply wp_exponent; [exact Hin|exact Ee|]. intros d cs' l' Hd Hin' Hsp Hne'.
    cbn [number_span andb] in Hsp. rewrite Ee in Hsp. apply (HQ true d cs'); [exact Hd|exact Hin'|exact Hsp|by intros _|by intros ?].
  - destruct (unichar_isalpha c || unichar_isdigit c || (c =? 46)) eqn:Ec.
    + (* a character of the text *)
      rewrite orb_true_l in HQ. cbn [fst snd] in HQ.
      assert (c < 128) as Hc128.
      { apply orb_true_iff in Ec as [[Ec|Ec]%orb_true_iff|Ec]; [by eapply has_attr_ascii|by eapply has_attr_ascii|to_prop; lia]. }
      assert (c <> 95) as Hc95 by (intros ->; done).
      assert (is_float_mark forced c = ((c =? 46) || (c =? 106) || (c =? 74))) as Hfm.
      { unfold is_float_mark. rewrite Ee. by rewrite orb_false_r. }
      assert (negb forced && (c =? 69) = false) as HE.
      { destruct forced; [done|]. cbn [negb andb] in *. apply orb_false_iff in Ee. tauto. }
      assert (forall l1, at_ m (c :: cs) (advances p raw) (number_text forced raw) (number_kind forced (raw ++ [c])) o a l1 ->
        wp (on_vstr (vstr_add_char c);;! safe next_char;;! xret true) l1 Q) as Hrest.
      { intros l1 Hat1. apply wp_xbind. eapply wp_text_unichar; [exact Hat1|lia|destruct Hcp; lia|].
        intros l2 Hat2. apply wp_xbind, wp_safe. eapply wp_number_next; [exact Hin| |].
        { rewrite number_text_snoc, (proj2 (Z.eqb_neq c 95)) by done. rewrite HE. rewrite encoding_ascii in Hat2 by done. exact Hat2. }
        intros l3 Hin3. apply wp_xret. apply (HQ true [c] cs); done. }
      apply wp_xbind. rewrite number_kind_snoc, Hfm in Hrest. destruct ((c =? 46) || (c =? 106) || (c =? 74)).
      * apply wp_safe. eapply wp_set_kind; [exact Hat|]. exact Hrest.
      * apply wp_xret. exact (Hrest l Hat).
    + cbn [orb] in HQ. destruct (Z.eqb_spec c 95) as [->|Eu].
      * cbn [fst snd] in HQ. apply wp_xbind, wp_safe. eapply wp_number_next; [exact Hin| |].
        { rewrite number_text_snoc, number_kind_snoc. change (95 =? 95) with true. cbv iota. rewrite app_nil_r.
          replace (is_float_mark forced 95) with false by (by destruct forced). exact Hat. }
        intros l3 Hin3. apply wp_xret. by apply (HQ true [95] cs).
      * apply wp_xret. apply (HQ false [] (c :: cs) l); try done; [by rewrite app_nil_r|].
        cbn [number_span andb app fst snd]. by rewrite Ec, (proj2 (Z.eqb_neq _ _) Eu).
Qed.

End Numbers.

Lemma digit_range c : plain c -> unichar_isdigit c = true -> 48 <= c <= 57.
Proof.
  intros [Hc _] Hd. pose proof (has_attr_ascii _ _ Hd) as Hlt.
  assert (forallb (fun i => implb (unichar_isdigit (Z.of_nat i)) ((48 <=? Z.of_nat i) && (Z.of_nat i <=? 57))) (seq 0 128) = true) as H by reflexivity.
  rewrite forallb_forall in H. specialize (H (Z.to_nat c)). rewrite Z2Nat.id, Hd in H by lia. cbn [implb] in H.
  assert (In (Z.to_nat c) (seq 0 128)) as Hin by (apply in_seq; lia). specialize (H Hin). to_prop. lia.
Qed.

Section Number.
Context `{Fresh}.

Lemma wp_parse_number m c cs p k o a l : at_ m (c :: cs) p [] k o a l -> unichar_isdigit c || (c =? "."%chr) = true ->
  Z.of_nat (length cs) < 2 ^ 28 ->
  wp parse_number l (fun r l' => r = inr tt /\ exists forced, (m = true -> forced = is_radix (c :: cs)) /\
    let raw := c :: (number_span forced false cs).1 in
    at_ m (number_span forced false cs).2 (advances p raw) (number_text forced raw) (number_kind forced raw) o a l').
Proof.
  intros Hat Hc Hsz. pose proof (at_plain _ _ _ _ _ _ _ _ Hat) as Hpl. inversion Hpl as [|? ? Hcp Hcsp]; subst.
  unfold parse_number. apply wp_get. unfold is_char. rewrite !(cur_char _ _ _ _ _ _ _ _ Hat), !look_cons.
  set (forced := negb (c =? 46) && ((c =? 48) && is_following_base_char l)).
  assert (m = true -> forced = is_radix (c :: cs)) as Hforced.
  { intros ->. unfold forced, is_radix, is_following_base_char. rewrite (chr_1_look Hat), look_cons. by destruct (Z.eqb_spec c 46) as [->|]. }
  clearbody forced.
  assert (c < 128 /\ c <> 95 /\ (c =? 69) = false /\ is_float_mark forced c = (c =? 46)) as (Hc128 & Hc95 & HcE & Hcf).
  { apply orb_true_iff in Hc as [Hc|Hc]; [|to_prop; subst; by destruct forced]. apply digit_range in Hc; [|done].
    unfold is_float_mark. rewrite !(proj2 (Z.eqb_neq c _)) by lia. destruct forced; cbn; repeat split; lia || done. }
  apply wp_xbind, wp_safe. eapply wp_set_kind; [exact Hat|]. intros l1 Hat1.
  apply wp_xbind. eapply wp_text_unichar; [exact Hat1|cbn; lia|destruct Hcp; lia|]. intros l2 Hat2. rewrite encoding_ascii in Hat2 by done.
  apply wp_xbind, wp_safe. eapply wp_next; [exact Hat2|]. intros l3 Hat3. cbn [tail app] in Hat3. rewrite look_cons in Hat3.
  assert (in_number m forced p o a [c] cs l3) as Hin3.
  { split; [|cbn; lia]. assert (number_text forced [c] = [c]) as ->.
    { pose proof (number_text_snoc forced [] c) as Ht. cbn [app] in Ht. rewrite Ht, (proj2 (Z.eqb_neq c 95)), HcE, andb_false_r by done. done. }
    assert (number_kind forced [c] = if c =? 46 then FLOAT_OR_IMAG else INTEGER) as ->; [|done].
    unfold number_kind. cbn [existsb]. by rewrite Hcf, orb_false_r. }
  apply wp_get. pose proof (at_fuel _ _ _ _ _ _ _ _ Hat3) as Hf.
  apply (wp_loop_idx (fun n _ l' => exists cs1 raw, n = length cs1 /\ (length cs1 <= length cs)%nat /\ in_number m forced p o a raw cs1 l' /\
    c :: (number_span forced false cs).1 = raw ++ (number_span forced false cs1).1 /\ (number_span forced false cs).2 = (number_span forced false cs1).2)) with (k := length cs); [|by exists cs, [c]|lia].
  intros n [] l' (cs1 & raw & -> & Hle & Hin & Hraw & Hrest). apply wp_bind, wp_get. pose proof Hin as [Hat' _]. rewrite (at_end _ _ _ _ _ _ _ _ Hat').
  destruct cs1 as [|c1 cs1]; cbn [negb].
  { apply wp_xret, wp_ret. split; [done|]. exists forced. split; [done|]. cbn [number_span fst snd] in *. rewrite app_nil_r in Hraw. by rewrite Hraw, Hrest. }
  apply wp_xbind. eapply wp_number_char; [exact Hin|done|]. intros more d cs2 l4 Hcs Hin4 Hspan Hmore Hdone.
  destruct more; apply wp_xret, wp_ret.
  - specialize (Hmore eq_refl). exists (length cs2). assert (length (c1 :: cs1) = length d + length cs2)%nat as Hl by by rewrite Hcs, length_app.
    assert (0 < length d)%nat by (destruct d; [done|cbn; lia]). split; [lia|].
    exists cs2, (raw ++ d). split; [done|]. split; [lia|]. split; [done|]. rewrite Hspan in Hraw, Hrest. cbn [fst snd] in *. by rewrite <-app_assoc.
  - destruct (Hdone eq_refl) as [-> Hend]. split; [done|]. exists forced. split; [done|]. rewrite Hend in Hraw, Hrest. cbn [fst snd app] in *.
    rewrite !app_nil_r in *. destruct Hin4 as [Hat4 _]. subst cs2. by rewrite Hraw, Hrest.
Qed.

End Number.

(** ** Operators *)

(** The characters [match_operator] takes, and the index it finds. *)
Fixpoint pure_match (t : list Z) (cs : list Z) (t_index index : nat) : nat * nat :=
  match t with
  | k :: x :: t =>
      if (k =? "c"%chr) || (k =? "e"%chr) then
        if look cs 0 =? x then
          if k =? "e"%chr then (1%nat, S t_index) else let r := pure_match t (tail cs) (S t_index) (S t_index) in (S r.1, r.2)
        else if k =? "c"%chr then (0%nat, index)
        else pure_match t cs (S t_index) index
      else (0%nat, index)
  | _ => (0%nat, index)
  end.

Section Operators.
Context `{Fresh}.

(** [n] characters have been taken from [cs]. *)
Definition taken (m : bool) (n : nat) (cs : list Z) (p : Z * Z) (s : list Z) (k : mp_token_kind_t) (o : others) (a : list Z) (l : mp_lexer_t) : Prop :=
  exists p', at_ m (drop n cs) p' s k o a l /\ ((n <= length cs)%nat -> p' = advances p (take n cs)).

Lemma taken_next m n cs p s k o a l (Q : unit -> mp_lexer_t -> Prop) : taken m n cs p s k o a l ->
  (forall l', taken m (S n) cs p s k o a l' -> Q tt l') -> wp next_char l Q.
Proof.
  intros (p' & Hat & Hp) HQ. eapply wp_next; [exact Hat|]. intros l' Hat'. apply HQ. eexists. split.
  - rewrite <-tail_drop. exact Hat'.
  - intros Hn. rewrite Hp by lia. destruct (lookup_lt_is_Some_2 cs n) as [c Hc]; [lia|]. rewrite (take_S_r _ _ _ Hc), advances_app.
    unfold advances at 2. cbn [fold_left]. f_equal. unfold look. rewrite (drop_S _ _ _ Hc). done.
Qed.

Lemma wp_match_operator m : forall t n cs p s k o a l ti i (Q : nat -> mp_lexer_t -> Prop),
  taken m n cs p s k o a l ->
  (forall l', taken m (n + (pure_match t (drop n cs) ti i).1) cs p s k o a l' -> Q (pure_match t (drop n cs) ti i).2 l') ->
  wp (match_operator t ti i) l Q.
Proof.
  fix IH 1. intros [|e [|x t]] n cs p s k o a l ti i Q Htk HQ; cbn [match_operator pure_match] in *;
    try (apply wp_ret, HQ; by rewrite Nat.add_0_r).
  destruct ((e =? 99) || (e =? 101)); [|apply wp_ret, HQ; by rewrite Nat.add_0_r].
  apply wp_get. pose proof Htk as (p' & Hat & _). unfold is_char. rewrite (cur_char _ _ _ _ _ _ _ _ Hat).
  destruct (look (drop n cs) 0 =? x).
  - apply wp_bind. eapply taken_next; [exact Htk|]. intros l' Htk'. destruct (e =? 101).
    + apply wp_ret. cbn [fst snd] in HQ. apply HQ. by rewrite Nat.add_1_r.
    + rewrite tail_drop in HQ.
      apply (IH t) with (n := S n) (cs := cs) (p := p) (s := s) (k := k) (o := o) (a := a); [done|].
      intros l'' Htk''. apply HQ. cbn [fst]. by rewrite Nat.add_succ_r.
  - destruct (e =? 99); [apply wp_ret, HQ; by rewrite Nat.add_0_r|].
    apply (IH t) with (n := n) (cs := cs) (p := p) (s := s) (k := k) (o := o) (a := a); done.
Qed.

End Operators.

(** What [parse_operator] takes and finds, after its first character has led to
    [t] and [index]. *)
Definition pure_rest (t : list Z) (index : nat) (cs : list Z) : nat * option mp_token_kind_t :=
  match t with
  | [] => (1%nat, Some INVALID)
  | c :: t =>
      if c =? "!"%chr then if look cs 0 =? "="%chr then (2%nat, Some OP_NOT_EQUAL) else (1%nat, Some INVALID)
      else if c =? "."%chr then
        if (look cs 0 =? "."%chr) && (look cs 1 =? "."%chr) then (3%nat, Some ELLIPSIS) else (1%nat, Some DEL_PERIOD)
      else let r := pure_match t cs index index in (S r.1, tok_enc_kind !! r.2)
  end.
Ltac case_eqb :=
  repeat match goal with
  | |- context [?x =? ?n] => is_var x; let E := fresh "E" in destruct (x =? n) eqn:E; [apply Z.eqb_eq in E; subst x|]; cbn
  end.

Lemma find_operator_absent c : forall t index, c ∉ t -> (find_operator c t index).1 = [].
Proof.
  fix IH 1. intros [|x t] index Hc; [done|]. cbn [find_operator]. apply not_elem_of_cons in Hc as [Hx Hc].
  rewrite (proj2 (Z.eqb_neq _ _)) by done. destruct (_ || _); [|by apply IH].
  destruct t as [|y t]; [done|]. apply not_elem_of_cons in Hc as [_ Hc]. by apply IH.
Qed.

(** The table after the first character. *)
Definition tails (c : Z) (table : list (list Z * mp_token_kind_t)) : list (list Z * mp_token_kind_t) :=
  omap (fun e => match e.1 with d :: t => if c =? d then Some (t, e.2) else None | [] => None end) table.

Lemma assoc_tails c s table : assoc (c :: s) table = assoc s (tails c table).
Proof.
  induction table as [|[[|d t] k] table IH]; cbn; [done|done|]. destruct (c =? d); cbn; [|done]. by rewrite IH.
Qed.

Lemma tails_absent c table : Forall (fun e => match e.1 with d :: _ => c <> d | [] => True end) table -> tails c table = [].
Proof. induction 1 as [|[[|d t] k] table Hd Hr IH]; cbn; [done|done|]. by rewrite (proj2 (Z.eqb_neq _ _)). Qed.

Lemma operators_encoded c : c ∉ tok_enc -> Forall (fun e => match e.1 with d :: _ => c <> d | [] => True end) operators.
Proof.
  intros Hc. assert (Forall (fun e : list Z * mp_token_kind_t => match e.1 with d :: _ => d ∈ tok_enc | [] => True end) operators) as H.
  { repeat (constructor; [apply (bool_decide_unpack _); vm_compute; exact I|]). constructor. }
  eapply Forall_impl; [exact H|]. intros [[|d t] k]; cbn; [done|]. by intros Hd ->.
Qed.

Ltac operator_case c :=
  let r := eval vm_compute in (find_operator c tok_enc 0) in change (find_operator c tok_enc 0) with r; cbn [fst snd]; unfold pure_rest;
  let r := eval vm_compute in (tails c operators) in change (tails c operators) with r;
  cbn; case_eqb; reflexivity.

(** The encoding of the operators means their table, for a character that is not
    one of its marks. *)
Lemma pure_operator_spec c cs : ident_head c = false ->
  pure_rest (find_operator c tok_enc 0).1 (find_operator c tok_enc 0).2 cs = ((longest_operator (c :: cs)).1, Some (longest_operator (c :: cs)).2).
Proof.
  intros Hc. unfold longest_operator, operator_of_length.
  replace (take 3 (c :: cs)) with (c :: take 2 cs) by done. replace (take 2 (c :: cs)) with (c :: take 1 cs) by done.
  replace (take 1 (c :: cs)) with [c] by done. rewrite !assoc_tails. destruct (decide (c ∈ tok_enc)) as [He|He].
  - unfold tok_enc in He at 1. apply list_elem_of_In in He. destruct cs as [|c1 [|c2 cs]]; unfold look; cbn [nth tail length];
      repeat (destruct He as [<-|He]; [solve [by vm_compute in Hc | match goal with |- context [find_operator ?c _ _] => operator_case c end]|]); destruct He.
  - pose proof (find_operator_absent c tok_enc 0 He) as Hf. destruct (find_operator c tok_enc 0) as [t i]. cbn in Hf. subst t.
    rewrite (tails_absent c operators) by by apply operators_encoded. cbn [fst snd pure_rest]. by repeat case_match.
Qed.

Lemma longest_operator_fits c cs : (0 < (longest_operator (c :: cs)).1 <= length (c :: cs))%nat.
Proof.
  unfold longest_operator, operator_of_length. cbn [length].
  destruct (Nat.leb_spec 3 (S (length cs))), (Nat.leb_spec 2 (S (length cs))); repeat case_match; cbn; lia.
Qed.

(** What a token adds to the count of open brackets. *)
Definition bracket_of (k : mp_token_kind_t) : Z := if is_opening k then 1 else if is_closing k then -1 else 0.
Definition with_bracket (d : Z) (o : others) : others :=
  MkOthers (o_emit o) (o_bracket o + d) (o_alloc o) (o_num o) (o_indent o) (o_tok o).

Lemma with_bracket_0 o : with_bracket 0 o = o.
Proof. unfold with_bracket. rewrite Z.add_0_r. by destruct o. Qed.

Lemma wp_change_bracket m cs p s k o a l d (Q : unit -> mp_lexer_t -> Prop) : at_ m cs p s k o a l ->
  - 2 ^ 31 <= o_bracket o + d < 2 ^ 31 -> (forall l', at_ m cs p s k (with_bracket d o) a l' -> Q tt l') -> wp (change_bracket_level d) l Q.
Proof.
  intros [Hr Hp Ht Hk <-] Hd HQ. unfold change_bracket_level. apply wp_get, wp_bind, wp_sint; [exact Hd|]. apply wp_modify, HQ. by split.
Qed.

Lemma wp_bracket m cs p s k o a l k' (Q : unit -> mp_lexer_t -> Prop) : at_ m cs p s k o a l ->
  - 2 ^ 30 <= o_bracket o <= 2 ^ 30 -> (forall l', at_ m cs p s k (with_bracket (bracket_of k') o) a l' -> Q tt l') ->
  wp (if is_opening k' then change_bracket_level 1 else if is_closing k' then change_bracket_level (-1) else mret tt) l Q.
Proof.
  intros Hat Ho HQ. unfold bracket_of in HQ. destruct (is_opening k'); [eapply wp_change_bracket; [exact Hat|lia|exact HQ]|].
  destruct (is_closing k'); [eapply wp_change_bracket; [exact Hat|lia|exact HQ]|]. apply wp_ret, HQ.
  by rewrite with_bracket_0.
Qed.

(** In the arguments of an f-string some operator is found. *)
Lemma wp_parse_operator m c cs p s k o a l (Q : unit -> mp_lexer_t -> Prop) : at_ m (c :: cs) p s k o a l -> ident_head c = false ->
  - 2 ^ 30 <= o_bracket o <= 2 ^ 30 ->
  (forall n k' l', taken m n (c :: cs) p s k' (with_bracket (bracket_of k') o) a l' -> (0 < n)%nat ->
     (m = true -> (n, k') = longest_operator (c :: cs)) -> Q tt l') ->
  wp parse_operator l Q.
Proof.
  intros Hat Hc Ho HQ. assert (taken m 0 (c :: cs) p s k o a l) as Htk by (by exists p).
  pose proof (pure_operator_spec c cs Hc) as Hspec. unfold parse_operator. apply wp_get.
  rewrite (cur_char _ _ _ _ _ _ _ _ Hat), look_cons.
  revert Hspec HQ. destruct (find_operator c tok_enc 0) as [t index], (longest_operator (c :: cs)) as [n0 k0]. cbn [fst snd]. intros Hspec HQ.
  apply wp_bind. eapply taken_next; [exact Htk|]. intros l1 Htk1. apply wp_get.
  (* the token is set without a bracket *)
  assert (forall n k' l', taken m n (c :: cs) p s k o a l' -> (0 < n)%nat -> bracket_of k' = 0 ->
    (m = true -> (n, Some k') = (n0, Some k0)) -> wp (modify (set_tok_kind k')) l' Q) as Hplain.
  { intros n k' l' (p' & Hat' & Hp') Hn Hb Hm. eapply wp_set_kind; [exact Hat'|]. intros l2 Hat2. apply (HQ n k'); [|done|].
    - exists p'. split; [|done]. by rewrite Hb, with_bracket_0.
    - intros Hmt. by injection (Hm Hmt) as -> ->. }
  pose proof Htk1 as (p1 & Hat1 & Hp1). change (drop 1 (c :: cs)) with cs in Hat1. destruct t as [|e t]; [apply (Hplain 1%nat); [done|lia|done|by intros _]|].
  cbn [pure_rest] in Hspec. unfold is_char, is_char_and. rewrite (cur_char _ _ _ _ _ _ _ _ Hat1). revert Hspec. destruct (e =? 33).
  { destruct (look cs 0 =? 61); intros Hspec; [|apply (Hplain 1%nat); [done|lia|done|by intros _]].
    apply wp_bind. eapply taken_next; [exact Htk1|]. intros l2 Htk2. apply (Hplain 2%nat); [done|lia|done|by intros _]. }
  destruct (e =? 46).
  { destruct ((look cs 0 =? 46) && (chr_1 l1 =? 46)) eqn:Ed; intros Hspec.
    - apply wp_bind. eapply taken_next; [exact Htk1|]. intros l2 Htk2. apply wp_bind. eapply taken_next; [exact Htk2|]. intros l3 Htk3.
      apply (Hplain 3%nat ELLIPSIS l3); [done|lia|done|]. intros Hm. subst m. rewrite (chr_1_look Hat1) in Ed. by rewrite Ed in Hspec.
    - apply (Hplain 1%nat DEL_PERIOD l1); [done|lia|done|]. intros Hm. subst m. rewrite (chr_1_look Hat1) in Ed. by rewrite Ed in Hspec. }
  intros Hspec.
  apply wp_bind. eapply wp_match_operator; [exact Htk1|]. change (drop 1 (c :: cs)) with cs. intros l2 Htk2. destruct (pure_match t cs index index) as [n i].
  cbn [fst snd] in *. injection Hspec as Hn Hk. rewrite Hk. destruct Htk2 as (p2 & Hat2 & Hp2). apply wp_bind. eapply wp_set_kind; [exact Hat2|].
  intros l3 Hat3. eapply wp_bracket; [exact Hat3|exact Ho|]. intros l4 Hat4.
  apply (HQ (1 + n)%nat k0); [exists p2; split; [exact Hat4|exact Hp2]|lia|].
  intros _. by rewrite <-Hn.
Qed.

(** ** Indentation *)

(** The stack of indentations, the top first. *)
Definition stack_of (o : others) : list Z := rev (take (Z.to_nat (o_num o)) (o_indent o)).

Record levels_ok (o : others) : Prop := {
  lv_num : 1 <= o_num o <= o_alloc o;
  lv_alloc : o_alloc o = Z.of_nat (length (o_indent o));
  lv_max : o_alloc o < 2 ^ 31;
  lv_bottom : o_indent o !! 0%nat = Some 0;
}.

Definition with_dent (d : Z) (o : others) : others :=
  MkOthers (o_emit o + d) (o_bracket o) (o_alloc o) (o_num o) (o_indent o) (o_tok o).

Lemma stack_bottom o : levels_ok o -> exists st, stack_of o = st ++ [0].
Proof.
  intros [Hn Ha Hm Hb]. unfold stack_of. destruct (o_indent o) as [|x xs]; [done|]. cbn in Hb. injection Hb as ->.
  replace (Z.to_nat (o_num o)) with (S (Z.to_nat (o_num o) - 1)) by lia. cbn. by eexists.
Qed.

Lemma stack_length o : levels_ok o -> length (stack_of o) = Z.to_nat (o_num o).
Proof. intros [Hn Ha Hm Hb]. unfold stack_of. rewrite length_rev, length_take. lia. Qed.

Lemma stack_top o : levels_ok o -> exists x, o_indent o !! Z.to_nat (o_num o - 1) = Some x /\ stack_of o = x :: tail (stack_of o).
Proof.
  intros [Hn Ha Hm Hb]. destruct (lookup_lt_is_Some_2 (o_indent o) (Z.to_nat (o_num o - 1))) as [x Hx]; [lia|].
  exists x. split; [done|]. unfold stack_of. replace (Z.to_nat (o_num o)) with (S (Z.to_nat (o_num o - 1))) by lia.
  rewrite (take_S_r _ _ _ Hx), rev_app_distr. done.
Qed.

Section Indentation.
Context (cs : list Z) (p : Z * Z) (s : list Z) (k : mp_token_kind_t) (a : list Z) (m : bool).

Lemma wp_indent_top o l (Q : Z -> mp_lexer_t -> Prop) : at_ m cs p s k o a l -> levels_ok o -> Q (hd 0 (stack_of o)) l -> wp indent_top l Q.
Proof.
  intros Hat Hlv HQ. destruct (stack_top o Hlv) as (x & Hx & Hs). unfold wp, indent_top.
  pose proof (at_others _ _ _ _ _ _ _ _ Hat) as Ho. rewrite <-Ho in Hx, Hlv. cbn in Hx. destruct Hlv as [Hn _ _ _]. cbn in Hn.
  rewrite bool_decide_true by lia. rewrite Hx. cbn. by rewrite Hs in HQ.
Qed.

Lemma wp_change_dent o l d (Q : unit -> mp_lexer_t -> Prop) : at_ m cs p s k o a l -> - 2 ^ 31 <= o_emit o + d < 2 ^ 31 ->
  (forall l', at_ m cs p s k (with_dent d o) a l' -> Q tt l') -> wp (change_emit_dent d) l Q.
Proof.
  intros [Hr Hp Ht Hk <-] Hd HQ. unfold change_emit_dent. apply wp_get, wp_bind, wp_sint; [exact Hd|]. apply wp_modify, HQ. by split.
Qed.

(** Popping and pushing change nothing else. *)
Definition same_but_levels (grown : Z) (o o' : others) : Prop :=
  o_emit o' = o_emit o /\ o_bracket o' = o_bracket o /\ o_tok o' = o_tok o /\ o_alloc o' <= o_alloc o + grown.

Lemma wp_indent_pop o l (Q : unit -> mp_lexer_t -> Prop) : at_ m cs p s k o a l -> levels_ok o -> 2 <= o_num o ->
  (forall l' o', at_ m cs p s k o' a l' -> levels_ok o' -> same_but_levels 0 o o' -> stack_of o' = tail (stack_of o) -> Q tt l') ->
  wp indent_pop l Q.
Proof.
  intros [Hr Hp Ht Hk <-] Hlv Hn HQ. unfold indent_pop. apply wp_modify. destruct (stack_top _ Hlv) as (x & Hx & _).
  destruct Hlv as [H1 H2 H3 H4]. eapply HQ; [by split| | |].
  - split; cbn in *; [|done|done|done]. rewrite uwrap_small by lia. lia.
  - unfold same_but_levels. by rewrite Z.add_0_r.
  - unfold stack_of in *. cbn in *. rewrite uwrap_small by lia.
    replace (Z.to_nat (num_indent_level l)) with (S (Z.to_nat (num_indent_level l - 1))) by lia.
    by rewrite (take_S_r _ _ _ Hx), rev_app_distr.
Qed.

Lemma wp_indent_push `{Fresh} o l n (Q : unit -> mp_lexer_t -> Prop) : at_ m cs p s k o a l -> levels_ok o -> o_alloc o + 8 < 2 ^ 31 ->
  (forall l' o', at_ m cs p s k o' a l' -> levels_ok o' -> same_but_levels 8 o o' -> stack_of o' = u16 n :: stack_of o -> Q tt l') ->
  wp (indent_push n) l Q.
Proof.
  intros Hat Hlv Ha HQ. unfold indent_push. apply wp_get, wp_bind.
  assert (forall l1 o1, at_ m cs p s k o1 a l1 -> levels_ok o1 -> same_but_levels 8 o o1 -> stack_of o1 = stack_of o -> o_num o1 < o_alloc o1 ->
    wp (l ← get;
        assert_ (num_indent_level l <? Z.of_nat (length (indent_level l)));;
        modify (fun l => set_num_indent_level (u32 (num_indent_level l + 1))
          (set_indent_level (<[Z.to_nat (num_indent_level l) := u16 n]> (indent_level l)) l))) l1 Q) as Hpush.
  { intros l1 o1 [Hr Hp Ht Hk <-] [H1 H2 H3 H4] Hs1 Hst Hroom. cbn in *. apply wp_get, wp_bind, wp_assert; [apply Z.ltb_lt; lia|].
    apply wp_modify. eapply HQ; [by split| | |].
    - split; cbn; [rewrite uwrap_small by lia; lia|by rewrite length_insert|done|]. rewrite list_lookup_insert_ne by lia. done.
    - exact Hs1.
    - rewrite <-Hst. unfold stack_of. cbn. rewrite uwrap_small by lia.
      replace (Z.to_nat (num_indent_level l1 + 1)) with (S (Z.to_nat (num_indent_level l1))) by lia.
      rewrite (take_S_r _ _ (u16 n)) by (apply list_lookup_insert_eq; lia). rewrite rev_app_distr. cbn. f_equal. f_equal.
      apply take_insert_ge. lia. }
  pose proof Hlv as [H1 H2 H3 H4]. pose proof Hat as [Hr Hp Ht Hk Ho]. pose proof (f_equal o_alloc Ho) as Ea. pose proof (f_equal o_num Ho) as En. cbn in Ea, En.
  rewrite Ea, En. destruct (o_alloc o <=? o_num o) eqn:E; to_prop.
  - apply wp_modify. eapply Hpush; [by split| | | |]; cbn.
    + change MICROPY_ALLOC_LEXEL_INDENT_INC with 8. split; cbn; rewrite ?Ea, ?En, ?uwrap_small by lia; [lia| |lia|].
      * rewrite length_app, new_bytes_length. rewrite (f_equal o_indent Ho : indent_level l = _). lia.
      * rewrite (f_equal o_indent Ho : indent_level l = _). apply lookup_app_l_Some, H4.
    + change MICROPY_ALLOC_LEXEL_INDENT_INC with 8. repeat split; cbn.
      * exact (f_equal o_emit Ho).
      * exact (f_equal o_bracket Ho).
      * exact (f_equal o_tok Ho).
      * rewrite Ea, uwrap_small by lia. lia.
    + unfold stack_of. cbn. rewrite En, (f_equal o_indent Ho : indent_level l = _). f_equal. rewrite take_app_le by lia. done.
    + change MICROPY_ALLOC_LEXEL_INDENT_INC with 8. rewrite Ea, En, uwrap_small by lia. lia.
  - apply wp_ret. eapply Hpush; [exact Hat|done| |done|lia]. repeat split; lia.
Qed.

Lemma pop_levels_shift n x st d : (n <? x) = true -> (pop_levels n (x :: st)).1 = (pop_levels n st).1 /\
  (pop_levels n (x :: st)).2 + d = (pop_levels n st).2 + (d - 1).
Proof. intros E. cbn [pop_levels]. rewrite E. cbn. split; [done|lia]. Qed.

Lemma pop_levels_bound n st : - Z.of_nat (length st) <= (pop_levels n st).2 <= 0.
Proof. induction st as [|x st IH]; cbn; [lia|]. destruct (n <? x); cbn [snd]; lia. Qed.

Lemma indent_bound n st st' d k' : indent n st = (st', d, k') -> - Z.of_nat (length st) <= d <= 1.
Proof.
  unfold indent. pose proof (pop_levels_bound n st) as H. destruct (n =? _); [intros [= _ <- _]; lia|].
  destruct (_ <? n); intros [= _ <- _]; lia.
Qed.

Lemma wp_pop_levels o l n (Q : unit -> mp_lexer_t -> Prop) : at_ m cs p s k o a l -> levels_ok o -> 0 <= n -> o_emit o = 0 ->
  (forall l' o', at_ m cs p s k o' a l' -> levels_ok o' -> o_bracket o' = o_bracket o -> o_tok o' = o_tok o -> o_alloc o' <= o_alloc o ->
     stack_of o' = (pop_levels n (stack_of o)).1 -> o_emit o' = (pop_levels n (stack_of o)).2 -> Q tt l') ->
  wp (while (S (Z.to_nat (num_indent_level l)))
        (fun _ => top ← indent_top; mret (n <? top))
        (fun _ => indent_pop;; change_emit_dent (-1)) tt) l Q.
Proof.
  intros Hat Hlv Hn He HQ. pose proof (stack_length o Hlv) as Hlen. pose proof (f_equal o_num (at_others _ _ _ _ _ _ _ _ Hat)) as En. cbn in En.
  unfold while. apply (wp_loop_idx (fun j _ l1 => exists o1, j = length (stack_of o1) /\ (j <= length (stack_of o))%nat /\ at_ m cs p s k o1 a l1 /\ levels_ok o1 /\
    o_bracket o1 = o_bracket o /\ o_tok o1 = o_tok o /\ o_alloc o1 <= o_alloc o /\ - Z.of_nat (length (stack_of o) - j) <= o_emit o1 <= 0 /\
    (pop_levels n (stack_of o)).1 = (pop_levels n (stack_of o1)).1 /\ (pop_levels n (stack_of o)).2 = (pop_levels n (stack_of o1)).2 + o_emit o1)) with (k := length (stack_of o)).
  - intros j [] l1 (o1 & -> & Hle & Hat1 & Hlv1 & Hb1 & Ht1 & Ha1 & He1 & Hp1 & Hp2). apply wp_bind, wp_bind.
    eapply wp_indent_top; [exact Hat1|done|]. apply wp_ret. destruct (stack_top o1 Hlv1) as (x & _ & Hst). destruct (stack_bottom o1 Hlv1) as [st0 Hbot].
    rewrite Hst in Hp1, Hp2 |- *. cbn [hd]. destruct (n <? x) eqn:E.
    + assert (2 <= o_num o1) as Hnum.
      { pose proof (stack_length o1 Hlv1) as Hl1. destruct (lv_num _ Hlv1). assert (o_num o1 <> 1); [|lia]. intros H1.
        rewrite H1, Hbot, length_app in Hl1. cbn in Hl1. destruct st0; [|cbn in Hl1; lia]. rewrite Hbot in Hst. injection Hst as <-. to_prop. lia. }
      apply wp_bind, wp_bind. eapply wp_indent_pop; [exact Hat1|done|done|]. intros l2 o2 Hat2 Hlv2 (E1 & E2 & E3 & E4) Hst2.
      pose proof (stack_length o Hlv) as HL. destruct (lv_num _ Hlv), Hlv as [_ _ Hmax _].
      eapply wp_change_dent; [exact Hat2|rewrite E1; lia|]. intros l3 Hat3. apply wp_ret.
      assert (length (stack_of o1) = S (length (stack_of o2))) as HS by (rewrite Hst2, Hst; done).
      destruct (pop_levels_shift n x (tail (stack_of o1)) (o_emit o1) E) as [P1 P2].
      exists (length (stack_of o2)). split; [rewrite Hst2; cbn; lia|]. exists (with_dent (-1) o2). change (stack_of (with_dent (-1) o2)) with (stack_of o2).
      split; [done|]. split; [lia|]. split; [exact Hat3|]. split; [by destruct Hlv2; split|]. split; [cbn; congruence|]. split; [cbn; congruence|].
      split; [cbn; lia|]. split; [cbn; lia|].
      cbn. rewrite E1, Hst2. split; [congruence|lia].
    + apply wp_ret. cbn [pop_levels] in Hp1, Hp2. rewrite E in Hp1, Hp2. cbn [fst snd] in Hp1, Hp2. rewrite <-Hst in Hp1.
      eapply HQ; [exact Hat1|done|done|done|done|done|]. lia.
  - exists o. repeat (split; [done || lia|]). lia.
  - rewrite En. lia.
Qed.

End Indentation.

(** A newline: the rest of the white space and the indentation of the next line. *)
Lemma wp_parse_newline `{Fresh} m cs p s k o a l (Q : unit -> mp_lexer_t -> Prop) : at_ m cs p s k o a l -> levels_ok o -> o_emit o = 0 ->
  o_alloc o + 8 < 2 ^ 31 ->
  (forall l' n q cs' k' o', at_ m cs' q s k' o' a l' -> (exists j, cs' = drop j cs) -> (look cs 0 = 10 -> (length cs' < length cs)%nat) -> levels_ok o' ->
     o_bracket o' = o_bracket o -> o_tok o' = o_tok o -> o_alloc o' <= o_alloc o + 8 ->
     (m = true -> exists b, skip_space false false p cs = (b, q, cs')) -> n = u32 (q.2 - 1) ->
     indent n (stack_of o) = (stack_of o', o_emit o', k') -> Q tt l') ->
  wp parse_newline l Q.
Proof.
  intros Hat Hlv He Ha HQ. unfold parse_newline. apply wp_bind. eapply wp_skip_whitespace; [exact Hat|].
  intros b q cs' l1 Hat1 Hcs _ Hlt Hsk. apply wp_bind. eapply wp_set_kind; [exact Hat1|]. intros l2 Hat2. apply wp_get.
  assert (column l2 = q.2) as -> by (pose proof (at_pos _ _ _ _ _ _ _ _ Hat2) as Hp2; by rewrite <-Hp2).
  set (n := u32 (q.2 - 1)) in *. assert (0 <= n) as Hn by (apply uwrap_range; lia).
  assert (m = true -> exists b, skip_space false false p cs = (b, q, cs')) as Hsk' by (intros Hm; exists b; by apply Hsk).
  apply wp_bind. eapply wp_indent_top; [exact Hat2|done|].
  assert (forall l3 k' o', at_ m cs' q s k' o' a l3 -> levels_ok o' -> o_bracket o' = o_bracket o -> o_tok o' = o_tok o ->
    o_alloc o' <= o_alloc o + 8 -> indent n (stack_of o) = (stack_of o', o_emit o', k') -> Q tt l3) as Hend.
  { intros l3 k' o' Hat3 Hlv' Hb Ht Ha' Hi. eapply (HQ l3 n q cs' k' o'); try done. by apply Hlt. }
  unfold indent in Hend. destruct (n =? hd 0 (stack_of o)).
  { apply wp_ret. eapply Hend; [exact Hat2|done|done|done|lia|by rewrite He]. }
  destruct (hd 0 (stack_of o) <? n).
  - apply wp_bind. eapply wp_indent_push; [exact Hat2|done|done|]. intros l3 o3 Hat3 Hlv3 (E1 & E2 & E3 & E4) Hst.
    eapply wp_change_dent; [exact Hat3|lia|]. intros l4 Hat4.
    eapply Hend; [exact Hat4|by destruct Hlv3; split|done|done|done|]. change (stack_of (with_dent 1 o3)) with (stack_of o3).
    cbn [o_emit with_dent]. by rewrite Hst, E1, He.
  - apply wp_get, wp_bind. eapply wp_pop_levels; [exact Hat2|done|done|done|]. intros l3 o3 Hat3 Hlv3 E2 E3 E4 Hst E1. cbv zeta in Hend.
    apply wp_bind. eapply wp_indent_top; [exact Hat3|done|]. rewrite <-Hst, <-E1 in Hend. destruct (n =? hd 0 (stack_of o3)); cbn [negb].
    + apply wp_ret. eapply Hend; [exact Hat3|done|done|done|lia|done].
    + eapply wp_set_kind; [exact Hat3|]. intros l4 Hat4. eapply Hend; [exact Hat4|done|done|done|lia|done].
Qed.

(** ** The next token *)

(** The lexer between two tokens is in the state [st] of the specification; no
    arguments of an f-string are pending. *)
Record shows (st : lex_state) (l : mp_lexer_t) : Prop := {
  sh_at : exists s k o, at_ true (ls_chars st) (ls_pos st) s k o [] l /\ levels_ok o /\ stack_of o = ls_stack st /\
    o_emit o = ls_dent st /\ o_bracket o = ls_bracket st /\ 8 * Z.of_nat (length (ls_chars st)) + o_alloc o < 2 ^ 28;
  sh_dent : - 2 ^ 31 <= ls_dent st < 2 ^ 31;
  sh_bracket : Z.abs (ls_bracket st) + Z.of_nat (length (ls_chars st)) < 2 ^ 29;
}.

Definition with_tok (t : Z * Z) (o : others) : others :=
  MkOthers (o_emit o) (o_bracket o) (o_alloc o) (o_num o) (o_indent o) t.

(** What all tokens begin with: the text is emptied, white space skipped and the
    position noted. *)
Lemma wp_token_start m cs p s k o a l {A} (c : bool -> Ml (lexer_exn + A)) (Q : lexer_exn + A -> mp_lexer_t -> Prop) : at_ m cs p s k o a l ->
  (forall newline p' cs' l', at_ m cs' p' [] k (with_tok p' o) a l' -> (exists n, cs' = drop n cs) ->
     (newline = true -> look cs' 0 = 10) ->
     (m = true -> skip_space (o_bracket o =? 0) false p cs = (newline, p', cs')) -> wp (c newline) l' Q) ->
  wp (safe (modify (fun l => set_vstr (vstr_reset (vstr l)) l));;!
      had_physical_newline ←! safe (skip_whitespace true);
      safe (modify (fun l => set_tok_column (column l) (set_tok_line (line l) l)));;!
      c had_physical_newline) l Q.
Proof.
  intros [Hr Hp Ht Hk Ho] HQ. apply wp_xbind, wp_safe, wp_modify.
  assert (at_ m cs p [] k o a (set_vstr (vstr_reset (vstr l)) l)) as Hat1 by (split; try done; by eapply reset_ok).
  apply wp_xbind, wp_safe. eapply wp_skip_whitespace; [exact Hat1|]. intros newline p' cs' l2 Hat2 Hcs Hnl _ Hsk.
  apply wp_xbind, wp_safe, wp_modify. eapply HQ; [|exact Hcs|exact Hnl|exact Hsk]. destruct Hat2 as [Hr2 <- Ht2 Hk2 <-]. by split.
Qed.

Lemma wp_nothing_to_inject `{Fresh} cs p s k o l (Q : lexer_exn + unit -> mp_lexer_t -> Prop) : at_ true cs p s k o [] l -> Q (inr tt) l ->
  wp inject_args l Q.
Proof.
  intros Hat HQ. unfold inject_args. apply wp_get. destruct (at_args _ _ _ _ _ _ _ _ Hat) as [Ha _]; [by left|].
  rewrite (so_len _ _ _ Ha). exact HQ.
Qed.

Lemma advances_drop n p cs : (n <= length cs)%nat -> forall p', p' = advances p (take n cs) -> (drop n cs, p') = (drop n cs, advances p (take n cs)).
Proof. by intros _ p' ->. Qed.

Lemma span_fits f c cs : take (length (c :: (span f cs).1)) (c :: cs) = c :: (span f cs).1 /\
  drop (length (c :: (span f cs).1)) (c :: cs) = (span f cs).2.
Proof.
  pose proof (span_app f cs) as Ha. destruct (span f cs) as [u v]. cbn in *. rewrite <-Ha. by rewrite take_app_length, drop_app_length.
Qed.

Lemma number_span_fits forced c cs : let r := number_span forced false cs in
  take (length (c :: r.1)) (c :: cs) = c :: r.1 /\ drop (length (c :: r.1)) (c :: cs) = r.2.
Proof.
  intros r. unfold r. pose proof (number_span_app forced cs false) as Ha. destruct (number_span forced false cs) as [u v].
  cbn in *. rewrite <-Ha. by rewrite take_app_length, drop_app_length.
Qed.

Definition token_text (l : mp_lexer_t) : list Z := take (Z.to_nat (len (vstr l))) (buf (vstr l)).

Lemma token_text_ok s l : str_ok None s (vstr l) -> token_text l = s.
Proof. intros Hs. unfold token_text. rewrite (so_len _ _ _ Hs), Nat2Z.id. apply Hs. Qed.

(** What the lexer has found: the token [t], and the state [st]. *)
Definition found (t : token) (st : lex_state) (l : mp_lexer_t) : Prop :=
  shows st l /\ tok_kind l = t_kind t /\ token_text l = t_text t /\ (tok_line l, tok_column l) = t_pos t.

Lemma found_at cs p s k o l : at_ true cs p s k o [] l -> levels_ok o -> 8 * Z.of_nat (length cs) + o_alloc o < 2 ^ 28 ->
  - 2 ^ 31 <= o_emit o < 2 ^ 31 -> Z.abs (o_bracket o) + Z.of_nat (length cs) < 2 ^ 29 ->
  found (MkToken k s (o_tok o)) (MkState cs p (stack_of o) (o_emit o) (o_bracket o)) l.
Proof.
  intros Hat Hlv Hsz Hd Hb. split; [split; cbn; [|done|done]; by exists s, k, o|]. destruct Hat as [_ _ Ht <- <-].
  split; [done|]. split; [by apply token_text_ok|done].
Qed.

(** A token of [n] characters that opens or closes [d] brackets. *)
Lemma found_after n cs p s k d o l : at_ true (drop n cs) (advances p (take n cs)) s k (with_bracket d (with_tok p o)) [] l -> levels_ok o ->
  8 * Z.of_nat (length cs) + o_alloc o < 2 ^ 28 -> - 2 ^ 31 <= o_emit o < 2 ^ 31 -> Z.abs (o_bracket o) + Z.of_nat (length cs) < 2 ^ 29 ->
  (0 < n <= length cs)%nat \/ d = 0 -> -1 <= d <= 1 ->
  found (MkToken k s p) (MkState (drop n cs) (advances p (take n cs)) (stack_of o) (o_emit o) (o_bracket o + d)) l.
Proof.
  intros Hat Hlv Hsz He Hb Hn Hd. apply (found_at _ _ _ _ _ _ Hat); [by destruct Hlv; split| |done|]; cbn; rewrite length_drop; lia.
Qed.

(** An indentation or its end that is still to come. *)
Lemma wp_dent cs p s k o l k' d : at_ true cs p s k o [] l -> levels_ok o -> 8 * Z.of_nat (length cs) + o_alloc o < 2 ^ 28 ->
  - 2 ^ 31 <= o_emit o + d < 2 ^ 31 -> Z.abs (o_bracket o) + Z.of_nat (length cs) < 2 ^ 29 ->
  wp (safe (modify (set_tok_kind k');; change_emit_dent d)) l (fun r l' => r = (inr tt : lexer_exn + unit) /\
    found (MkToken k' s (o_tok o)) (MkState cs p (stack_of o) (o_emit o + d) (o_bracket o)) l').
Proof.
  intros Hat Hlv Hsz He Hb. apply wp_safe, wp_bind. eapply wp_set_kind; [exact Hat|]. intros l2 Hat2.
  eapply wp_change_dent; [exact Hat2|lia|]. intros l3 Hat3. split; [done|].
  by apply (found_at _ _ _ _ _ _ Hat3); [destruct Hlv; split| | |].
Qed.

Section Next.
Context `{Fresh} (optimise : Z).

Lemma wp_to_next st l t st' :
  shows st l -> next_token optimise st = Some (t, st') ->
  wp (mp_lexer_to_next optimise) l (fun r l' => r = inr tt /\ found t st' l').
Proof.
  intros [(s & k & o & Hat & Hlv & Hst & Hem & Hbr & Hsz) Hd Hb] Hnext. destruct st as [cs0 p0 stack dent bracket]. cbn in *.
  pose proof (lv_num _ Hlv) as Hnum. unfold mp_lexer_to_next. apply wp_xbind. eapply wp_nothing_to_inject; [exact Hat|].
  eapply wp_token_start; [exact Hat|]. intros newline p cs l1 Hat1 [j Hj] Hnl Hsk. specialize (Hsk eq_refl).
  unfold next_token in Hnext. cbn [ls_bracket ls_pos ls_chars ls_dent ls_stack] in Hnext. rewrite <-Hbr, Hsk in Hnext.
  assert (length cs <= length cs0)%nat as Hle by (rewrite Hj, length_drop; lia). set (o1 := with_tok p o) in *.
  assert (levels_ok o1) as Hlv1 by (by destruct Hlv; split). apply wp_get.
  assert (emit_dent l1 = dent) as -> by (rewrite <-Hem; exact (f_equal o_emit (at_others _ _ _ _ _ _ _ _ Hat1))).
  (* a token that leaves the indentation alone *)
  assert (forall n k' s' d l', at_ true (drop n cs) (advances p (take n cs)) s' k' (with_bracket d o1) [] l' ->
    (0 < n <= length cs)%nat \/ d = 0 -> -1 <= d <= 1 -> dent = 0 ->
    found (MkToken k' s' p) (MkState (drop n cs) (advances p (take n cs)) stack 0 (o_bracket o + d)) l') as Hgo.
  { intros n k' s' d l' Hat' Hn Hd1 Hd0. rewrite <-Hst, <-Hd0, <-Hem. apply (found_after n cs p s' k' d o l' Hat'); [done|lia|lia|lia|done|done]. }
  destruct (dent <? 0) eqn:E1; to_prop.
  { injection Hnext as <- <-. rewrite <-Hst, <-Hem. apply (wp_dent cs p [] k o1 l1 DEDENT 1 Hat1 Hlv1); cbn; lia. }
  destruct (0 <? dent) eqn:E2; to_prop.
  { injection Hnext as <- <-. rewrite <-Hst, <-Hem. apply (wp_dent cs p [] k o1 l1 INDENT (-1) Hat1 Hlv1); cbn; lia. }
  assert (dent = 0) as Hd0 by lia. destruct newline.
  { apply wp_safe. eapply wp_parse_newline; [exact Hat1|done|cbn; lia|cbn; lia|].
    intros l2 n q cs2 k' o2 Hat2 [j2 Hj2] Hlt Hlv2 Hb2 Ht2 Ha2 Hsk2 Hn Hi. destruct (Hsk2 eq_refl) as [b Hsk3]. specialize (Hlt (Hnl eq_refl)).
    rewrite Hsk3 in Hnext. change (stack_of o1) with (stack_of o) in Hi. rewrite <-Hst, <-Hn, Hi in Hnext. injection Hnext as <- <-.
    split; [done|]. replace p with (o_tok o2) by (by rewrite Ht2). replace (o_bracket o) with (o_bracket o2) by (by rewrite Hb2). cbn in Ha2, Hb2.
    apply (found_at _ _ _ _ _ _ Hat2); [done|lia| |rewrite Hb2; lia].
    pose proof (stack_length o Hlv). apply indent_bound in Hi. destruct Hlv. lia. }
  rewrite (at_end _ _ _ _ _ _ _ _ Hat1). destruct cs as [|c cs].
  { injection Hnext as <- <-. apply wp_safe. eapply wp_set_kind; [exact Hat1|]. intros l2 Hat2. split; [done|].
    rewrite <-Hst, <-Hd0, <-Hem. apply (found_at _ _ _ _ _ _ Hat2); [done|cbn; lia|cbn; lia|cbn; lia]. }
  rewrite (string_start_look Hat1). destruct (string_start (c :: cs)); [done|].
  pose proof (cur_char _ _ _ _ _ _ _ _ Hat1) as Hc. rewrite look_cons in Hc.
  unfold is_head_of_identifier, is_letter, is_digit, is_char, is_following_digit. rewrite Hc, (chr_1_look Hat1). fold (ident_head c).
  cbn [length] in *. destruct (ident_head c) eqn:Eh.
  { eapply wp_mono; [eapply wp_parse_name; [exact Hat1|done|lia]|]. intros r l2 [-> Hat2]. split; [done|].
    destruct (span_fits ident_tail c cs) as [F1 F2].
    set (t1 := c :: (span ident_tail cs).1) in *. set (n := length t1) in *.
    assert (at_ true (drop n (c :: cs)) (advances p (take n (c :: cs))) t1 (name_kind optimise t1) (with_bracket 0 o1) [] l2) as Hat3
      by (by rewrite F1, F2, with_bracket_0).
    pose proof (Hgo _ _ _ _ _ Hat3 ltac:(by right) ltac:(lia) Hd0) as Hf. injection Hnext as <- <-. exact Hf. }
  destruct (unichar_isdigit c || (c =? 46) && unichar_isdigit (look (c :: cs) 1)) eqn:Ed.
  { eapply wp_mono; [eapply wp_parse_number; [exact Hat1| |lia]|].
    { apply orb_true_iff in Ed as [->|[-> _]%andb_true_iff]; [done|apply orb_true_r]. }
    intros r l2 (-> & radix & Hrad & Hat2). rewrite (Hrad eq_refl) in Hat2. split; [done|].
    destruct (number_span_fits (is_radix (c :: cs)) c cs) as [F1 F2].
    set (forced := is_radix (c :: cs)) in *. set (t1 := c :: (number_span forced false cs).1) in *. set (n := length t1) in *.
    assert (at_ true (drop n (c :: cs)) (advances p (take n (c :: cs))) (number_text forced t1) (number_kind forced t1) (with_bracket 0 o1) [] l2) as Hat3
      by (by rewrite F1, F2, with_bracket_0).
    pose proof (Hgo _ _ _ _ _ Hat3 ltac:(by right) ltac:(lia) Hd0) as Hf. injection Hnext as <- <-. exact Hf. }
  apply wp_safe. eapply wp_parse_operator; [exact Hat1|done|change (o_bracket o1) with (o_bracket o); lia|]. intros n k' l2 (p' & Hat2 & Hp') Hn Hop.
  rewrite <-(Hop eq_refl) in Hnext. injection Hnext as <- <-. split; [done|]. pose proof (longest_operator_fits c cs) as Hfit. rewrite <-(Hop eq_refl) in Hfit.
  rewrite (Hp' (proj2 Hfit)) in Hat2. apply Hgo; [done|by left| |done]. unfold bracket_of. destruct (is_opening k'), (is_closing k'); lia.
Qed.

(** C13: The next token is the one the lexical rules of Python ask for: white space,
    comments and continued lines are skipped, a name is a keyword exactly when
    the table of keywords has it, a number takes the longest run of characters,
    an operator is the longest that matches, brackets are counted and a newline
    inside them is white space, and the indentation of a line is compared with
    the stack of open blocks.  The text, the position and the new state are
    those of the specification.  (The specification says nothing where the next
    token is a string, bytes or f-string literal.) *)
Theorem mp_lexer_to_next_correct st l t st' :
  shows st l -> next_token optimise st = Some (t, st') ->
  exists l', mp_lexer_to_next optimise l = Some (inr tt, l') /\ found t st' l'.
Proof.
  intros Hsh Hnext. pose proof (wp_to_next st l t st' Hsh Hnext) as Hwp. unfold wp in Hwp.
  destruct (mp_lexer_to_next optimise l) as [[r l']|]; [|done]. destruct Hwp as [-> Hf]. by exists l'.
Qed.

End Next.

(** ** A new lexer *)

Section New.
Context `{Fresh} (optimise : Z).

(** The three rounds of [next_char] fill the queue. *)
Definition first_chars : Ml unit := next_char;; next_char;; next_char.

Definition source_state (src : list Z) : lex_state := MkState (source_chars src) (1, 1) [0] 0 0.

Lemma new_lexer_at src junk : Forall is_byte src ->
  at_ true (0 :: 0 :: 0 :: source_chars src) (1, u32 (-2)) [] (tok_kind junk) (others_of (new_lexer (MkReader src 0) junk)) [] (new_lexer (MkReader src 0) junk).
Proof.
  intros Hsrc. split; [|done|by apply vstr_init_ok|done|done]. split; [split; [cbn; lia|done]|]. left. split; [done|].
  split; [|by apply vstr_init_ok]. cbn [chars new_lexer].
  by apply (direct_more 0 0 0 src).
Qed.

Lemma new_levels src junk : levels_ok (others_of (new_lexer (MkReader src 0) junk)) /\ stack_of (others_of (new_lexer (MkReader src 0) junk)) = [0].
Proof.
  assert (length (new_bytes 10) = 10%nat) as Hl by by rewrite new_bytes_length.
  split; [split; cbn; rewrite ?length_insert, ?Hl; done|]. unfold stack_of. cbn [others_of o_num o_indent new_lexer].
  change MICROPY_ALLOC_LEXER_INDENT_INIT with 10. destruct (new_bytes 10); done.
Qed.

Lemma wp_first_chars src junk (Q : unit -> mp_lexer_t -> Prop) : Forall is_byte src -> Z.of_nat (length src) < 2 ^ 24 ->
  (forall l, shows (source_state src) l -> Q tt l) -> wp first_chars (new_lexer (MkReader src 0) junk) Q.
Proof.
  intros Hsrc Hsz HQ. pose proof (new_lexer_at src junk Hsrc) as Hat. destruct (new_levels src junk) as [Hlv Hst].
  apply wp_bind. eapply wp_next; [exact Hat|]. intros l1 Hat1. cbn [tail] in Hat1. rewrite look_cons in Hat1.
  apply wp_bind. eapply wp_next; [exact Hat1|]. intros l2 Hat2. cbn [tail] in Hat2. rewrite look_cons in Hat2.
  eapply wp_next; [exact Hat2|]. intros l3 Hat3. cbn [tail] in Hat3. rewrite look_cons in Hat3. apply HQ.
  pose proof (source_chars_length src). split; [|done|cbn; lia]. do 3 eexists. split; [exact Hat3|]. split; [done|]. split; [exact Hst|].
  split; [done|]. split; [done|]. change (o_alloc _) with 10. cbn [ls_chars source_state]. lia.
Qed.

(** The first token is made an indentation when it does not stand in the first column. *)
Definition first_token (t : token) : token :=
  MkToken (if negb ((t_pos t).2 =? 1) && negb (token_eqb (t_kind t) NEWLINE) then INDENT else t_kind t) (t_text t) (t_pos t).

(** Reading [n] tokens, as the parser does. *)
Fixpoint read_tokens (n : nat) : Xl (list token) :=
  match n with
  | O => xret []
  | S n =>
      mp_lexer_to_next optimise;;!
      l ← get;
      ts ←! read_tokens n;
      xret (MkToken (tok_kind l) (token_text l) (tok_line l, tok_column l) :: ts)
  end.
Fixpoint next_tokens (n : nat) (st : lex_state) : option (list token * lex_state) :=
  match n with
  | O => Some ([], st)
  | S n => '(t, st) ← next_token optimise st; '(ts, st) ← next_tokens n st; Some (t :: ts, st)
  end.

Lemma wp_read_tokens n : forall st l ts st', shows st l -> next_tokens n st = Some (ts, st') ->
  wp (read_tokens n) l (fun r l' => r = inr ts /\ shows st' l').
Proof.
  induction n as [|n IH]; intros st l ts st' Hsh Hn; cbn [read_tokens next_tokens] in *.
  { injection Hn as <- <-. by apply wp_xret. }
  destruct (next_token optimise st) as [[t st1]|] eqn:Ht; [|done]. cbn [mbind option_bind] in Hn.
  destruct (next_tokens n st1) as [[ts1 st2]|] eqn:Hts; [|done]. cbn [mbind option_bind] in Hn. injection Hn as <- <-.
  apply wp_xbind. eapply wp_mono; [by eapply wp_to_next|]. intros r l1 [-> (Hsh1 & Hk & Hx & Hp)]. apply wp_get, wp_xbind.
  eapply wp_mono; [by eapply IH|]. intros r l2 [-> Hsh2]. apply wp_xret. split; [|done]. rewrite Hk, Hx, Hp. by destruct t.
Qed.

(** C15: A new lexer reads the tokens of its source (of less than 2^24 bytes) up
    to the first string, bytes or f-string literal; from a literal on the
    specification, [next_token], has no tokens and the theorem says nothing.
    Whatever the memory of the new object contained, the first token is there
    when [mp_lexer_new] returns, and for every [n] such that the next [n] tokens
    come before the first literal, [n] calls of [mp_lexer_to_next] give them: the
    tokens of the characters of the source, with CR and CR LF read as line ends
    and a newline after the last line, from line 1 and column 1 on with no block
    open; a first token that is indented is made an indentation. *)
Theorem mp_lexer_new_correct src junk n t st ts st' : Forall is_byte src -> Z.of_nat (length src) < 2 ^ 24 ->
  next_token optimise (source_state src) = Some (t, st) -> next_tokens n st = Some (ts, st') ->
  exists l, mp_lexer_new optimise (MkReader src 0) junk = Some (inr tt, l) /\ found (first_token t) st l /\
  exists l', read_tokens n l = Some (inr ts, l') /\ shows st' l'.
Proof.
  intros Hsrc Hsz Hnext Hns.
  assert (wp (safe first_chars;;! mp_lexer_to_next optimise;;! l ← get;
    if negb (tok_column l =? 1) && negb (token_eqb (tok_kind l) NEWLINE) then safe (modify (set_tok_kind INDENT)) else xret tt)
    (new_lexer (MkReader src 0) junk) (fun r l => r = inr tt /\ found (first_token t) st l)) as Hwp.
  { apply wp_xbind, wp_safe, wp_first_chars; [done|done|]. intros l Hsh. apply wp_xbind.
    eapply wp_mono; [by eapply wp_to_next|]. intros r l1 [-> (Hsh1 & Hk & Ht & Hp)]. apply wp_get. unfold first_token.
    assert ((t_pos t).2 = tok_column l1) as -> by by rewrite <-Hp. rewrite Hk. destruct (_ && _).
    - apply wp_safe, wp_modify. split; [done|]. split; [|done]. destruct Hsh1 as [(s & k & o & Hat & Hrest) Hd Hb]. split; [|done|done].
      exists s, INDENT, o. split; [|done]. by destruct Hat; split.
    - apply wp_xret. by split. }
  apply wp_run in Hwp as (r & l & Hl & -> & Hf). exists l. split; [exact Hl|]. split; [done|].
  destruct (proj1 (wp_run _ _ _) (wp_read_tokens n st l ts st' (proj1 Hf) Hns)) as (r & l' & Hl' & -> & Hsh). by exists l'.
Qed.

End New.

(** ** Witnesses *)

#[local] Instance zeros : Fresh := fun _ => 0.

Definition sample_junk : mp_lexer_t :=
  MkLexer (MkReader [] 0) (MkQueue 0 0 0) (MkQueue 0 0 0) 0 0 0 0 0 0 [] 0 0 END (vstr_init 1) (vstr_init 1) 0.

(** A lexer that has the characters of a source in its queue *)
Definition sample_lexer (src : list Z) : mp_lexer_t :=
  match first_chars (new_lexer (MkReader src 0) sample_junk) with Some (_, l) => l | None => sample_junk end.

Lemma sample_shows src : Forall is_byte src -> Z.of_nat (length src) < 2 ^ 24 -> shows (source_state src) (sample_lexer src).
Proof.
  intros Hsrc Hsz. destruct (run_value _ _ _ (wp_first_chars src sample_junk (fun _ l => shows (source_state src) l) Hsrc Hsz (fun _ H => H))) as ([] & l & Hl & Hsh).
  unfold sample_lexer. by rewrite Hl.
Qed.

(** An operator of three characters. *)
Lemma mp_lexer_to_next_correct_witness :
  exists l', mp_lexer_to_next 0 (sample_lexer (str " >>=1")) = Some (inr tt, l') /\
    found (MkToken DEL_DBL_MORE_EQUAL [] (1, 2)) (MkState (str "1" ++ [10]) (1, 5) [0] 0 0) l'.
Proof.
  refine (mp_lexer_to_next_correct 0 (source_state (str " >>=1")) (sample_lexer (str " >>=1")) _ _ _ _).
  - apply sample_shows; [repeat (constructor; [done|]); constructor|done].
  - reflexivity.
Defined.

(** A block: [if x:], CR LF, a tab, [y] *)
Definition sample_block : list Z := str "if x:" ++ [13; 10; 9] ++ str "y".
Definition sample_tokens : list token :=
  [MkToken NAME (str "x") (1, 4); MkToken DEL_COLON [] (1, 5); MkToken NEWLINE [] (1, 6); MkToken INDENT [] (2, 9);
   MkToken NAME (str "y") (2, 9); MkToken NEWLINE [] (2, 10); MkToken DEDENT [] (3, 1); MkToken END [] (3, 1)].
Lemma mp_lexer_new_correct_witness :
  exists l, mp_lexer_new 0 (MkReader sample_block 0) sample_junk = Some (inr tt, l) /\
    found (MkToken KW_IF (str "if") (1, 1)) (MkState (str " x:" ++ [10; 9] ++ str "y" ++ [10]) (1, 3) [0] 0 0) l /\
    exists l', read_tokens 0 8 l = Some (inr sample_tokens, l') /\ shows (MkState [] (3, 1) [0] 0 0) l'.
Proof.
  refine (mp_lexer_new_correct 0 sample_block sample_junk 8 (MkToken KW_IF (str "if") (1, 1)) _ _ _ _ _ _ _).
  - repeat (constructor; [done|]). constructor.
  - done.
  - reflexivity.
  - reflexivity.
Defined.
