(* ===== verification/LexerStrings.v ===== *)
(** * String literals, and the round trip through [repr]

    How the run time prints strings and bytes ([mp_str_print_quoted] of
    [py/objstr.c], [uni_print_quoted] of [py/objstrunicode.c], with the hexadecimal
    numbers of [py/mpprint.c]), and that the lexer reads back what was printed. *)
From Stdlib Require Import Ascii String.
From S2P Require Import Prelude.
From S2P Require Import CMem.
From S2P Require Import Unicode.
From S2P Require Import Vstr.
From S2P Require Import VstrProps.
From S2P Require Import MpPrint.
From S2P Require Import Lexer.
From S2P Require Import LexerFacts.
From S2P Require Import LexerTokens.
Local Open Scope Z_scope.

(** ** Printing *)

(** Is there a single and is there a double quote? *)
Fixpoint find_quotes (s : list Z) (has_single_quote : bool) : bool * bool :=
  match s with
  | [] => (has_single_quote, false)
  | c :: s =>
      if c =? "'"%chr then find_quotes s true
      else if c =? DOUBLE_QUOTE then (has_single_quote, true) else find_quotes s has_single_quote
  end.
Definition quote_char_of (s : list Z) : Z :=
  let '(single, double) := find_quotes s false in if single && negb double then DOUBLE_QUOTE else "'"%chr.

Definition print_quoted_byte (is_bytes : bool) (quote_char c : Z) : Mp Z :=
  if c =? quote_char then mp_printf (str "\%c") [ArgInt quote_char]
  else if c =? BACKSLASH then mp_print_str (str "\\")
  else if (0x20 <=? c) && negb (c =? 0x7f) && (negb is_bytes || (c <? 0x80)) then mp_printf (str "%c") [ArgInt c]
  else if c =? 10 then mp_print_str (str "\n")
  else if c =? 13 then mp_print_str (str "\r")
  else if c =? 9 then mp_print_str (str "\t")
  else mp_printf (str "\x%02x") [ArgInt c].
Fixpoint print_bytes (is_bytes : bool) (quote_char : Z) (s : list Z) : Mp unit :=
  match s with
  | [] => mret tt
  | c :: s => print_quoted_byte is_bytes quote_char c;; print_bytes is_bytes quote_char s
  end.
Definition mp_str_print_quoted (s : list Z) (is_bytes : bool) : Mp unit :=
  let quote_char := quote_char_of s in
  mp_printf (str "%c") [ArgInt quote_char];;
  print_bytes is_bytes quote_char s;;
  mp_printf (str "%c") [ArgInt quote_char];; mret tt.

Definition print_quoted_unichar (quote_char ch : Z) : Mp Z :=
  if ch =? quote_char then mp_printf (str "\%c") [ArgInt quote_char]
  else if ch =? BACKSLASH then mp_print_str (str "\\")
  else if (32 <=? ch) && (ch <=? 126) then mp_printf (str "%c") [ArgInt ch]
  else if ch =? 10 then mp_print_str (str "\n")
  else if ch =? 13 then mp_print_str (str "\r")
  else if ch =? 9 then mp_print_str (str "\t")
  else if ch <? 0x100 then mp_printf (str "\x%02x") [ArgInt ch]
  else if ch <? 0x10000 then mp_printf (str "\u%04x") [ArgInt ch]
  else mp_printf (str "\U%08x") [ArgInt ch].

(** The loop over the characters; [s] ends in the zero byte at [top]. *)
Fixpoint print_chars (fuel : nat) (quote_char : Z) (s : list Z) : Mp unit :=
  match s with
  | [] | [_] => mret tt
  | _ =>
      match fuel, utf8_get_char s, utf8_next_char s with
      | S fuel, Some ch, Some s => print_quoted_unichar quote_char ch;; print_chars fuel quote_char s
      | _, _, _ => stuck
      end
  end.
Definition uni_print_quoted (s : list Z) : Mp unit :=
  let quote_char := quote_char_of s in
  mp_printf (str "%c") [ArgInt quote_char];;
  print_chars (length s) quote_char (s ++ [0]);;
  mp_printf (str "%c") [ArgInt quote_char];; mret tt.

(** Strings in JSON *)
Definition print_json_byte (c : Z) : Mp Z :=
  if (c =? DOUBLE_QUOTE) || (c =? BACKSLASH) then mp_printf (str "\%c") [ArgInt c]
  else if 32 <=? c then mp_printf (str "%c") [ArgInt c]
  else if c =? 10 then mp_print_str (str "\n")
  else if c =? 13 then mp_print_str (str "\r")
  else if c =? 9 then mp_print_str (str "\t")
  else mp_printf (str "\u%04x") [ArgInt c].
Fixpoint print_json_bytes (s : list Z) : Mp unit :=
  match s with
  | [] => mret tt
  | c :: s => print_json_byte c;; print_json_bytes s
  end.
Definition mp_str_print_json (s : list Z) : Mp unit :=
  mp_print_str [DOUBLE_QUOTE];; print_json_bytes s;; mp_print_str [DOUBLE_QUOTE];; mret tt.

Inductive mp_print_kind_t := PRINT_STR | PRINT_REPR | PRINT_EXC | PRINT_JSON | PRINT_RAW | PRINT_EXC_SUBCLASS.

(** The printers of bytes and of strings *)
Definition str_print (s : list Z) (kind : mp_print_kind_t) : Mp unit :=
  match kind with
  | PRINT_JSON => mp_str_print_json s
  | PRINT_RAW => print_strn s
  | _ => print_strn (str "b");; mp_str_print_quoted s true
  end.
Definition uni_print (s : list Z) (kind : mp_print_kind_t) : Mp unit :=
  match kind with
  | PRINT_JSON => mp_str_print_json s
  | PRINT_STR => print_strn s
  | _ => uni_print_quoted s
  end.

(** A string or a bytes object, and how it is printed. *)
Inductive literal := Str (cs : list Z) | Bytes (bs : list Z).
Definition content (v : literal) : list Z := match v with Str cs => text cs | Bytes bs => bs end.
Definition print_literal (v : literal) : Mp unit :=
  match v with
  | Str _ => uni_print (content v) PRINT_REPR
  | Bytes _ => str_print (content v) PRINT_REPR
  end.
Definition literal_ok (v : literal) : Prop := match v with Str cs => Forall code_point cs | Bytes bs => Forall is_byte bs end.
Definition literal_kind (v : literal) : mp_token_kind_t := match v with Str _ => STRING | Bytes _ => BYTES end.

(** ** What is printed *)

(** Lower-case hexadecimal digits *)
Definition hex_digits (n : nat) (v : Z) : list Z := digits n 16 97 v.

Definition quote_byte (is_bytes : bool) (quote_char c : Z) : list Z :=
  if c =? quote_char then [BACKSLASH; quote_char]
  else if c =? BACKSLASH then [BACKSLASH; BACKSLASH]
  else if (0x20 <=? c) && negb (c =? 0x7f) && (negb is_bytes || (c <? 0x80)) then [c]
  else if c =? 10 then [BACKSLASH; "n"%chr]
  else if c =? 13 then [BACKSLASH; "r"%chr]
  else if c =? 9 then [BACKSLASH; "t"%chr]
  else BACKSLASH :: "x"%chr :: hex_digits 2 c.
Definition quote_unichar (quote_char ch : Z) : list Z :=
  if ch =? quote_char then [BACKSLASH; quote_char]
  else if ch =? BACKSLASH then [BACKSLASH; BACKSLASH]
  else if (32 <=? ch) && (ch <=? 126) then [ch]
  else if ch =? 10 then [BACKSLASH; "n"%chr]
  else if ch =? 13 then [BACKSLASH; "r"%chr]
  else if ch =? 9 then [BACKSLASH; "t"%chr]
  else if ch <? 0x100 then BACKSLASH :: "x"%chr :: hex_digits 2 ch
  else if ch <? 0x10000 then BACKSLASH :: "u"%chr :: hex_digits 4 ch
  else BACKSLASH :: "U"%chr :: hex_digits 8 ch.

(** [mp_print_str] and the formats that are used here. *)
Lemma wp_print_str s out (Q : Z -> list Z -> Prop) : (forall n, Q n (out ++ s)) -> wp (mp_print_str s) out Q.
Proof. intros HQ. unfold mp_print_str. apply wp_bind. destruct s as [|c s]; [specialize (HQ 0); rewrite app_nil_r in HQ; by apply wp_ret, wp_ret|]. by apply wp_modify, wp_ret. Qed.

Lemma wp_print_char txt c out (Q : Z -> list Z -> Prop) : text_ok txt -> Z.of_nat (length txt) < 2 ^ 20 -> is_byte c -> (forall n, Q n (out ++ txt ++ [c])) ->
  wp (mp_printf (txt ++ str "%c") [ArgInt c]) out Q.
Proof.
  intros Htxt Hl Hc HQ. replace (txt ++ str "%c") with (render [(txt, MkConversion [] [] NoPrecision false 99)] []) by (unfold render; cbn; by rewrite !app_nil_r).
  eapply wp_mono; [apply (wp_printf [(txt, MkConversion [] [] NoPrecision false 99)] [] [ArgInt c] (txt ++ [c]) out)|].
  - constructor.
  - constructor; [|constructor]. split; [done|]. split; [constructor|repeat split; [constructor|cbn; lia|done]|done|apply (bool_decide_unpack _); vm_compute; exact I].
  - cbn [format_text mbind option_bind conversion_text precision_value cv_precision argument_text cv_char cv_flags cv_width]. unfold padded. cbn.
    by rewrite uwrap_small by done.
  - rewrite length_app. cbn. lia.
  - intros n o [_ ->]. apply HQ.
Qed.

Lemma hex_range (n : nat) v : In n [2%nat; 4%nat; 8%nat] -> 0 <= v < 16 ^ Z.of_nat n -> 0 <= v < 2 ^ 32.
Proof. intros [<-|[<-|[<-|[]]]] Hv; cbn in Hv; lia. Qed.

Lemma hex_argument (n : nat) v : In n [2%nat; 4%nat; 8%nat] -> 0 <= v < 16 ^ Z.of_nat n ->
  argument_text (MkConversion (str "0") [48 + Z.of_nat n] NoPrecision false 120) None [ArgInt v] = Some (hex_digits n v, []).
Proof.
  intros Hn Hv. pose proof (hex_range n v Hn Hv) as Hv32. unfold argument_text. cbn [cv_char cv_flags cv_width].
  assert (decimal_value [48 + Z.of_nat n] = Z.of_nat n) as -> by (unfold decimal_value; cbn [fold_left]; lia).
  rewrite bool_decide_true by (apply (bool_decide_unpack _); vm_compute; exact I). rewrite (uwrap_small 32 v) by done. cbn [Z.eqb Pos.eqb].
  change (flags_of (str "0")) with PF_FLAG_PAD_AFTER_SIGN. change (fill_of (str "0")) with 48. do 2 f_equal.
  unfold printed_int, join_sign, padded. change (has PF_FLAG_PAD_AFTER_SIGN PF_FLAG_PAD_AFTER_SIGN) with true.
  change (has PF_FLAG_PAD_AFTER_SIGN PF_FLAG_CENTER_ADJUST) with false. change (has PF_FLAG_PAD_AFTER_SIGN PF_FLAG_LEFT_ADJUST) with false.
  cbn [length app Z.eqb]. unfold hex_digits. rewrite <-(numeral_pad 16 97) by (done || (destruct Hn as [<-|[<-|[<-|[]]]]; lia) || lia).
  f_equal. f_equal. lia.
Qed.

(** [\x%02x], [\u%04x] and [\U%08x] *)
Lemma wp_print_hex x (n : nat) v out (Q : Z -> list Z -> Prop) : In x (str "xuU") -> In n [2%nat; 4%nat; 8%nat] -> 0 <= v < 16 ^ Z.of_nat n ->
  (forall m, Q m (out ++ BACKSLASH :: x :: hex_digits n v)) ->
  wp (mp_printf (BACKSLASH :: x :: str "%0" ++ [48 + Z.of_nat n] ++ str "x") [ArgInt v]) out Q.
Proof.
  intros Hx Hn Hv HQ. pose proof (hex_range n v Hn Hv) as Hv32. set (cv := MkConversion (str "0") [48 + Z.of_nat n] NoPrecision false 120).
  assert (text_ok [BACKSLASH; x]) as Htxt.
  { constructor; [done|]. constructor; [|constructor]. vm_compute in Hx. split; intros ->; intuition congruence. }
  change (BACKSLASH :: x :: str "%0" ++ [48 + Z.of_nat n] ++ str "x") with (render [([BACKSLASH; x], cv)] []).
  eapply wp_mono; [apply (wp_printf [([BACKSLASH; x], cv)] [] [ArgInt v] (BACKSLASH :: x :: hex_digits n v) out)|].
  - constructor.
  - constructor; [|constructor]. split; [done|]. split; cbn [cv_flags cv_width cv_precision cv_char cv].
    + constructor; [apply (bool_decide_unpack _); vm_compute; exact I|constructor].
    + split; [repeat constructor; destruct Hn as [<-|[<-|[<-|[]]]]; done|]. split; [cbn; lia|]. by destruct Hn as [<-|[<-|[<-|[]]]].
    + done.
    + apply (bool_decide_unpack _). vm_compute. exact I.
  - cbn [format_text mbind option_bind conversion_text precision_value cv_precision cv]. unfold cv. rewrite hex_argument by done. cbn. by rewrite app_nil_r.
  - cbn [length]. unfold hex_digits. rewrite digits_length. destruct Hn as [<-|[<-|[<-|[]]]]; lia.
  - intros m o [_ ->]. apply HQ.
Qed.

Lemma wp_print_quoted_byte is_bytes q c out (Q : Z -> list Z -> Prop) : is_byte q -> is_byte c -> (forall n, Q n (out ++ quote_byte is_bytes q c)) ->
  wp (print_quoted_byte is_bytes q c) out Q.
Proof.
  intros Hq Hc HQ. unfold print_quoted_byte, quote_byte in *.
  destruct (c =? q); [apply (wp_print_char [92]); [repeat constructor; done|done|done|exact HQ]|].
  destruct (c =? BACKSLASH); [by apply wp_print_str|]. destruct (_ && _); [by apply (wp_print_char []); [constructor| | |]|].
  destruct (c =? 10); [by apply wp_print_str|]. destruct (c =? 13); [by apply wp_print_str|]. destruct (c =? 9); [by apply wp_print_str|].
  apply (wp_print_hex 120 2); [by left|by left|unfold is_byte in Hc; cbn; lia|exact HQ].
Qed.

Lemma wp_print_quoted_unichar q c out (Q : Z -> list Z -> Prop) : is_byte q -> code_point c -> (forall n, Q n (out ++ quote_unichar q c)) ->
  wp (print_quoted_unichar q c) out Q.
Proof.
  intros Hq Hc HQ. unfold print_quoted_unichar, quote_unichar in *. unfold code_point in Hc.
  destruct (c =? q); [apply (wp_print_char [92]); [repeat constructor; done|done|done|exact HQ]|].
  destruct (c =? BACKSLASH); [by apply wp_print_str|]. destruct (_ && _) eqn:E; to_prop; [by apply (wp_print_char []); [constructor| |unfold is_byte; lia|]|].
  clear E. destruct (c =? 10); [by apply wp_print_str|]. destruct (c =? 13); [by apply wp_print_str|]. destruct (c =? 9); [by apply wp_print_str|].
  destruct (Z.ltb_spec c 0x100); [apply (wp_print_hex 120 2); [by left|by left|cbn; lia|exact HQ]|].
  destruct (Z.ltb_spec c 0x10000); [apply (wp_print_hex 117 4); [by right; left|by right; left|cbn; lia|exact HQ]|].
  apply (wp_print_hex 85 8); [by right; right; left|by right; right; left|cbn; lia|exact HQ].
Qed.

Lemma wp_print_bytes is_bytes q s : is_byte q -> Forall is_byte s -> forall out (Q : unit -> list Z -> Prop),
  Q tt (out ++ concat (map (quote_byte is_bytes q) s)) -> wp (print_bytes is_bytes q s) out Q.
Proof.
  intros Hq. induction 1 as [|c s Hc Hs IH]; intros out Q HQ; cbn [print_bytes map concat] in *; [rewrite app_nil_r in HQ; by apply wp_ret|].
  apply wp_bind, wp_print_quoted_byte; [done|done|]. intros _. apply IH. by rewrite <-app_assoc.
Qed.

(** ** Hexadecimal digits *)

(** Reading digits. *)
Definition hex_step (num d : Z) : Z := u32 (u32 (Z.shiftl num 4) + unichar_xdigit_value d).

Lemma hex_digit_value d : 0 <= d < 16 -> unichar_isxdigit (digit_char 97 d) = true /\ unichar_xdigit_value (digit_char 97 d) = d.
Proof.
  intros Hd. assert (forallb (fun i => unichar_isxdigit (digit_char 97 (Z.of_nat i)) && (unichar_xdigit_value (digit_char 97 (Z.of_nat i)) =? Z.of_nat i)) (seq 0 16) = true) as Ht by reflexivity.
  rewrite forallb_forall in Ht. specialize (Ht (Z.to_nat d)). rewrite Z2Nat.id in Ht by lia.
  assert (In (Z.to_nat d) (seq 0 16)) as Hin by (apply in_seq; lia). specialize (Ht Hin). by to_prop.
Qed.

Lemma hex_digits_value n : forall v num, 0 <= num -> 0 <= v < 16 ^ Z.of_nat n -> num * 16 ^ Z.of_nat n + v < 2 ^ 32 ->
  fold_left hex_step (hex_digits n v) num = num * 16 ^ Z.of_nat n + v.
Proof.
  induction n as [|n IH]; intros v num Hnum Hv Hsz; [cbn in *; lia|]. unfold hex_digits in *. cbn [digits]. rewrite fold_left_app.
  rewrite Nat2Z.inj_succ, Z.pow_succ_r in * by lia. pose proof (Z.div_mod v 16 ltac:(done)). pose proof (Z.mod_pos_bound v 16 ltac:(done)).
  assert (0 <= v / 16 < 16 ^ Z.of_nat n) as Hq by (split; [apply Z.div_pos; lia|apply Z.div_lt_upper_bound; lia]).
  pose proof (Z.pow_pos_nonneg 16 (Z.of_nat n) ltac:(done) ltac:(lia)).
  rewrite IH by nia. cbn [fold_left]. unfold hex_step. destruct (hex_digit_value (v `mod` 16)) as [_ ->]; [done|].
  set (K := 16 ^ Z.of_nat n) in *. set (q := v / 16) in *. set (d := v `mod` 16) in *.
  assert ((num * K + q) * 16 + d = num * (16 * K) + v) as He by lia. assert (0 <= num * K) by nia.
  rewrite shiftl_mul by done. change (2 ^ 4) with 16.
  replace (u32 ((num * K + q) * 16)) with ((num * K + q) * 16) by (symmetry; apply uwrap_small; lia).
  rewrite uwrap_small by lia. lia.
Qed.

Lemma hex_digits_ok n : forall v, Forall (fun c => unichar_isxdigit c = true /\ c <> 10) (hex_digits n v).
Proof.
  induction n as [|n IH]; intros v; cbn; [constructor|]. apply Forall_app. split; [apply IH|]. constructor; [|constructor].
  pose proof (Z.mod_pos_bound v 16 ltac:(done)). split; [by apply hex_digit_value|]. unfold digit_char. destruct (_ <=? _); lia.
Qed.

(** ** One character of a literal *)

Section Chars.
Context `{Fresh}.

Lemma wp_get_hex m ds : forall d rest p s k o a num l, at_ m (d :: ds ++ rest) p s k o a l ->
  Forall (fun c => unichar_isxdigit c = true /\ c <> 10) ds ->
  wp (get_hex (length ds) num) l (fun r l' => r = Some (fold_left hex_step ds num) /\
    exists x p', at_ m (x :: rest) p' s k o a l' /\ advance p' x = advances p (d :: ds)).
Proof.
  induction ds as [|e ds IH]; intros d rest p s k o a num l Hat Hds; cbn [length get_hex fold_left].
  - apply wp_ret. split; [done|]. by exists d, p.
  - inversion Hds as [|? ? [He _] Hds']; subst. apply wp_bind. eapply wp_next; [exact Hat|]. intros l1 Hat1. cbn [tail app] in Hat1. rewrite look_cons in Hat1.
    apply wp_get. rewrite (cur_char _ _ _ _ _ _ _ _ Hat1), look_cons, He. by eapply IH.
Qed.

(** After a backslash [d] and the digits [ds] mean the character [c], in a literal
    of the kind [k]. *)
Definition escaped (k : mp_token_kind_t) (d : Z) (ds : list Z) (c : Z) : Prop :=
  forall m rest p s o a l, at_ m (d :: ds ++ rest) p s k o a l ->
  wp (escape d) l (fun r l' => r = inr c /\
    exists x p', at_ m (x :: rest) p' s k o a l' /\ advance p' x = advances p (d :: ds)).

Lemma escaped_itself k d : (d =? BACKSLASH) || (d =? "'"%chr) || (d =? DOUBLE_QUOTE) = true -> escaped k d [] d.
Proof.
  intros Hd m rest p s o a l Hat. unfold escape. rewrite Hd.
  assert ((d =? NEWLINE_CHAR) = false) as -> by (apply orb_true_iff in Hd as [[Hd|Hd]%orb_true_iff|Hd]; apply Z.eqb_eq in Hd as ->; done).
  apply wp_xret. split; [done|]. by exists d, p.
Qed.

Lemma escaped_letter k d c : (d, c) ∈ [("n"%chr, 10); ("r"%chr, 13); ("t"%chr, 9)] -> escaped k d [] c.
Proof.
  intros Hd m rest p s o a l Hat. apply list_elem_of_In in Hd.
  destruct Hd as [[= <- <-]|[[= <- <-]|[[= <- <-]|[]]]]; apply wp_xret; (split; [done|]); by eexists _, p.
Qed.

Lemma escaped_hex k d n v : (d = "x"%chr /\ n = 2%nat) \/ k = STRING /\ ((d = "u"%chr /\ n = 4%nat) \/ (d = "U"%chr /\ n = 8%nat)) ->
  0 <= v < 16 ^ Z.of_nat n -> v < 2 ^ 32 -> escaped k d (hex_digits n v) v.
Proof.
  intros Hd Hv Hsz m rest p s o a l Hat.
  assert (wp (r ← get_hex n 0;
    match r with
    | Some num => xret num
    | None => modify (set_tok_kind INVALID);; xret 0
    end) l (fun r l' => r = (inr v : lexer_exn + Z) /\
      exists x p', at_ m (x :: rest) p' s k o a l' /\ advance p' x = advances p (d :: hex_digits n v))) as Hhex.
  { apply wp_bind. rewrite <-(digits_length n 16 97 v) at 1. fold (hex_digits n v). eapply wp_mono; [eapply wp_get_hex; [exact Hat|apply hex_digits_ok]|].
    intros r l' [-> Hx]. rewrite hex_digits_value by lia. apply wp_xret. by split. }
  destruct Hd as [[-> ->]|[-> [[-> ->]|[-> ->]]]]; [exact Hhex| |];
    (apply wp_get; rewrite (at_kind _ _ _ _ _ _ _ _ Hat); exact Hhex).
Qed.

(** [e] in a literal of the kind [k] with the quote [q] means the bytes [v]. *)
Definition means (k : mp_token_kind_t) (q : Z) (e v : list Z) : Prop :=
  (exists x e', e = x :: e' /\ x <> 10 /\ x <> q) /\ (length v <= 4)%nat /\
  forall n rest p s o l, at_ true (e ++ rest) p s k o [] l -> Z.of_nat (length s) + 4 < 2 ^ 30 ->
  wp (parse_string_char false false q n) l (fun r l' => r = inr 0 /\ at_ true rest (advances p e) (s ++ v) k o [] l').

Lemma wp_no_braces l (Q : lexer_exn + unit -> mp_lexer_t -> Prop) : Q (inr tt) l -> wp (parse_braces false) l Q.
Proof. intros HQ. unfold parse_braces. apply wp_get. unfold fuel_of. rewrite Nat.add_succ_r. exact HQ. Qed.

Lemma plain_means k q c : c <> q -> c <> 92 -> c <> 10 -> 0 <= c < 256 -> means k q [c] [c].
Proof.
  intros Hq Hb Hn Hc. split; [by exists c, []|]. split; [cbn; lia|]. intros n rest p s o l Hat Hsz. cbn [app] in Hat.
  unfold parse_string_char. apply wp_get, wp_xbind. pose proof (cur_char _ _ _ _ _ _ _ _ Hat) as Hcur. rewrite look_cons in Hcur.
  unfold is_char at 1. rewrite Hcur, (proj2 (Z.eqb_neq _ _)) by done. apply wp_xbind, wp_no_braces, wp_get, wp_xbind.
  unfold is_char. rewrite Hcur, (proj2 (Z.eqb_neq _ _)) by done. eapply wp_text_byte; [exact Hat|lia|]. intros l1 Hat1. apply wp_xret.
  apply wp_xbind, wp_safe. eapply wp_next; [exact Hat1|]. intros l2 Hat2. apply wp_xret. split; [done|].
  rewrite look_cons in Hat2. by replace (u8 c) with c in Hat2 by (symmetry; by apply uwrap_small).
Qed.

(** A character that a literal can hold, and its bytes there. *)
Definition fits (k : mp_token_kind_t) (c : Z) (v : list Z) : Prop :=
  k = STRING /\ code_point c /\ v = encoding c \/ k = BYTES /\ is_byte c /\ v = [c].

Lemma escape_means k q d ds c v : q <> 92 -> escaped k d ds c -> fits k c v -> means k q (92 :: d :: ds) v.
Proof.
  intros Hq Hesc Hfit. split; [by exists 92, (d :: ds)|]. split.
  { destruct Hfit as [(_ & _ & ->)|(_ & _ & ->)]; [apply encoding_length|cbn; lia]. }
  intros n rest p s o l Hat Hsz. cbn [app] in Hat.
  unfold parse_string_char. apply wp_get, wp_xbind. pose proof (cur_char _ _ _ _ _ _ _ _ Hat) as Hcur. rewrite look_cons in Hcur.
  unfold is_char at 1. rewrite Hcur, (proj2 (Z.eqb_neq _ _)) by done. apply wp_xbind, wp_no_braces, wp_get, wp_xbind.
  unfold is_char. rewrite Hcur. change (92 =? BACKSLASH) with true. cbv iota. unfold parse_escape.
  apply wp_xbind, wp_safe. eapply wp_next; [exact Hat|]. intros l1 Hat1. cbn [tail] in Hat1. rewrite look_cons in Hat1. apply wp_get, wp_xbind.
  rewrite (cur_char _ _ _ _ _ _ _ _ Hat1), look_cons. eapply wp_mono; [apply Hesc; exact Hat1|]. intros r l2 [-> (x & p' & Hat2 & Hp)].
  assert (0 <= c < 0x110000) as Hc by (destruct Hfit as [(_ & ? & _)|(_ & Hb & _)]; [done|unfold is_byte in Hb; lia]).
  rewrite (proj2 (Z.eqb_neq c MP_LEXER_EOF)) by (change MP_LEXER_EOF with 4294967295; lia). apply wp_get. rewrite (at_kind _ _ _ _ _ _ _ _ Hat2).
  assert (forall l', at_ true (x :: rest) p' (s ++ v) k o [] l' ->
    wp (safe next_char;;! xret 0) l' (fun r l' => r = (inr 0 : lexer_exn + Z) /\ at_ true rest (advances p (92 :: d :: ds)) (s ++ v) k o [] l')) as Hend.
  { intros l' Hat'. apply wp_xbind, wp_safe. eapply wp_next; [exact Hat'|]. intros l3 Hat3. apply wp_xret. split; [done|].
    rewrite look_cons, Hp in Hat3. exact Hat3. }
  destruct Hfit as [(-> & _ & ->)|(-> & Hb & ->)]; cbn [token_eqb token_value Nat.eqb]; rewrite ?andb_false_r, ?andb_true_r.
  - rewrite (proj2 (Z.ltb_lt _ _)) by lia. eapply wp_text_unichar; [exact Hat2|done|done|]. intros l3 Hat3. apply wp_xret. by apply Hend.
  - unfold is_byte in Hb. rewrite (proj2 (Z.ltb_lt _ _)) by lia. eapply wp_text_byte; [exact Hat2|lia|]. intros l3 Hat3. apply wp_xret. apply Hend.
    by replace (u8 c) with c in Hat3 by (symmetry; by apply uwrap_small).
Qed.

(** What [repr] prints for a character means the character. *)
Lemma quote_byte_means q b : q = 39 \/ q = 34 -> is_byte b -> means BYTES q (quote_byte true q b) [b].
Proof.
  intros Hq Hb. assert (q <> 92) as Hq92 by lia. assert (fits BYTES b [b]) as Hfit by by right. unfold quote_byte.
  destruct (Z.eqb_spec b q) as [->|Hbq]; [apply (escape_means _ _ q [] q); [done|apply escaped_itself|done]; by destruct Hq as [-> | ->]|].
  destruct (Z.eqb_spec b BACKSLASH) as [->|Hb92]; [by apply (escape_means _ _ 92 [] 92); [|apply escaped_itself|]|].
  destruct (_ && _) eqn:E; to_prop; [apply plain_means; unfold is_byte in *; lia || done|]. clear E.
  destruct (Z.eqb_spec b 10) as [->|]; [apply escape_means with (c := 10); [done|by apply escaped_letter, list_elem_of_In; left|done]|].
  destruct (Z.eqb_spec b 13) as [->|]; [apply escape_means with (c := 13); [done|by apply escaped_letter, list_elem_of_In; right; left|done]|].
  destruct (Z.eqb_spec b 9) as [->|]; [apply escape_means with (c := 9); [done|by apply escaped_letter, list_elem_of_In; right; right; left|done]|].
  unfold is_byte in Hb. apply escape_means with (c := b); [done| |done].
  apply escaped_hex; [by left|cbn; lia|lia].
Qed.

Lemma quote_unichar_means q c : q = 39 \/ q = 34 -> code_point c -> means STRING q (quote_unichar q c) (encoding c).
Proof.
  intros Hq Hc. assert (q <> 92) as Hq92 by lia. assert (fits STRING c (encoding c)) as Hfit by by left. unfold quote_unichar.
  destruct (Z.eqb_spec c q) as [->|Hbq]; [apply (escape_means _ _ q [] q); [done|apply escaped_itself|done]; by destruct Hq as [-> | ->]|].
  destruct (Z.eqb_spec c BACKSLASH) as [->|Hb92]; [by apply (escape_means _ _ 92 [] 92); [|apply escaped_itself|]|].
  destruct (_ && _) eqn:E; to_prop; [rewrite encoding_ascii by lia; apply plain_means; lia || done|]. clear E.
  destruct (Z.eqb_spec c 10) as [->|]; [apply escape_means with (c := 10); [done|by apply escaped_letter, list_elem_of_In; left|done]|].
  destruct (Z.eqb_spec c 13) as [->|]; [apply escape_means with (c := 13); [done|by apply escaped_letter, list_elem_of_In; right; left|done]|].
  destruct (Z.eqb_spec c 9) as [->|]; [apply escape_means with (c := 9); [done|by apply escaped_letter, list_elem_of_In; right; right; left|done]|].
  unfold code_point in Hc. destruct (Z.ltb_spec c 0x100); [|destruct (Z.ltb_spec c 0x10000)].
  - apply escape_means with (c := c); [done| |done]. apply escaped_hex; [by left|cbn; lia|lia].
  - apply escape_means with (c := c); [done| |done]. apply escaped_hex; [by right; split; [|left]|cbn; lia|lia].
  - apply escape_means with (c := c); [done| |done]. apply escaped_hex; [by right; split; [|right]|cbn; lia|lia].
Qed.

End Chars.

(** ** A literal *)

Lemma char_look cs p s k o a l c : at_ true cs p s k o a l -> is_char l c = (look cs 0 =? c).
Proof. intros Hat. unfold is_char. by rewrite (cur_char _ _ _ _ _ _ _ _ Hat). Qed.

Section Literal.
Context `{Fresh} (k : mp_token_kind_t) (q : Z).
Hypothesis (Hq : q = 39 \/ q = 34).

(** The characters of a literal and the bytes they mean *)
Definition quoted (es : list (list Z * list Z)) : list Z := concat (map fst es).
Definition meant (es : list (list Z * list Z)) : list Z := concat (map snd es).
Definition all_mean (es : list (list Z * list Z)) : Prop := Forall (fun e => means k q e.1 e.2) es.

Lemma quoted_head es cs : all_mean es -> look (quoted es ++ q :: cs) 0 = q -> es = [].
Proof. destruct 1 as [|[e v] es [(x & e' & He & _ & Hx) _] _]; [done|]. cbn in He. subst e. by intros Hl. Qed.

Lemma quoted_length es : all_mean es -> (length es <= length (quoted es))%nat /\ (length (meant es) <= 4 * length es)%nat.
Proof.
  induction 1 as [|[e v] es [(x & e' & He & _) [Hv _]] _ [IH1 IH2]]; [cbn; lia|].
  cbn [fst snd] in *. subst e. unfold quoted, meant in *. cbn [map concat fst snd length]. rewrite !length_app. cbn [length]. lia.
Qed.

(** The loop over the characters reads them to the closing quote. *)
Lemma wp_literal_chars es rest p o l (Q : lexer_exn + Z -> mp_lexer_t -> Prop) fuel : at_ true (quoted es ++ q :: rest) p [] k o [] l ->
  all_mean es -> 4 * Z.of_nat (length es) < 2 ^ 29 -> (S (length es) < fuel)%nat ->
  (forall l', at_ true rest (advances p (quoted es ++ [q])) (meant es ++ [q]) k o [] l' -> Q (inr 1) l') ->
  wp (xloop fuel (fun n_closing =>
    l ← get;
    if negb (is_end l) && ((1 <? 1) || negb (is_char l NEWLINE_CHAR)) && (n_closing <? 1) then
      n_closing ←! parse_string_char false false q n_closing; xret (inl n_closing)
    else xret (inr n_closing)) 0) l Q.
Proof.
  intros Hat Hes Hsz Hfuel HQ.
  apply (wp_loop_idx (fun n c l1 => (c = 1 /\ n = 0%nat /\ at_ true rest (advances p (quoted es ++ [q])) (meant es ++ [q]) k o [] l1) \/
    (c = 0 /\ exists done_ todo, n = S (length todo) /\ es = done_ ++ todo /\
      at_ true (quoted todo ++ q :: rest) (advances p (quoted done_)) (meant done_) k o [] l1))) with (k := S (length es)); [| |lia].
  2: { right. split; [done|]. by exists [], es. }
  intros n c l1 [(-> & -> & Hat1)|(-> & ds & es1 & -> & -> & Hat1)]; apply wp_bind, wp_get.
  { rewrite andb_false_r. apply wp_xret, wp_ret. by apply HQ. }
  rewrite (at_end _ _ _ _ _ _ _ _ Hat1), (char_look _ _ _ _ _ _ _ _ Hat1). pose proof Hes as [Hds Hes1]%Forall_app.
  pose proof (quoted_length _ Hds) as [_ Hlen]. rewrite length_app in Hsz, Hfuel.
  destruct es1 as [|[e v] es1].
  - cbn [quoted map concat app] in Hat1 |- *. rewrite look_cons, (proj2 (Z.eqb_neq q NEWLINE_CHAR)) by (change NEWLINE_CHAR with 10; lia).
    rewrite app_nil_r in HQ. cbn [negb andb orb Z.ltb Z.compare Pos.compare Pos.compare_cont]. apply wp_xbind. unfold parse_string_char. apply wp_get, wp_xbind.
    rewrite (char_look _ _ _ _ _ _ _ _ Hat1), look_cons, Z.eqb_refl, (cur_char _ _ _ _ _ _ _ _ Hat1), look_cons.
    apply wp_xbind. eapply wp_text_unichar; [exact Hat1|lia|lia|]. intros l2 Hat2. apply wp_xret, wp_xbind, wp_safe.
    eapply wp_next; [exact Hat2|]. intros l3 Hat3. apply wp_xret, wp_xret, wp_ret. exists 0%nat. split; [lia|]. left. split; [done|]. split; [done|].
    cbn [tail] in Hat3. rewrite look_cons, encoding_ascii in Hat3 by lia. rewrite app_nil_r, advances_app. exact Hat3.
  - inversion Hes1 as [|? ? [(x & e' & He & Hx10 & Hxq) [_ Hmean]] Hes2]; subst. cbn [fst snd] in *. subst e.
    assert (quoted ((x :: e', v) :: es1) ++ q :: rest = (x :: e') ++ quoted es1 ++ q :: rest) as Hqs by (unfold quoted; cbn; by rewrite <-app_assoc).
    rewrite Hqs in *. cbn [app length] in *. rewrite look_cons, (proj2 (Z.eqb_neq x NEWLINE_CHAR)) by done. cbn [negb andb orb Z.ltb Z.compare].
    apply wp_xbind. eapply wp_mono; [eapply Hmean; [exact Hat1|lia]|]. intros r l2 [-> Hat2]. apply wp_xret, wp_ret.
    exists (S (length es1)). split; [lia|]. right. split; [done|]. exists (ds ++ [(x :: e', v)]), es1. split; [done|]. split; [by rewrite <-app_assoc|].
    unfold quoted, meant. rewrite !map_app, !concat_app, advances_app. cbn [map concat fst snd]. rewrite !app_nil_r. exact Hat2.
Qed.

Lemma wp_literal_quoted es rest p o l (Q : lexer_exn + unit -> mp_lexer_t -> Prop) : at_ true (q :: quoted es ++ q :: rest) p [] k o [] l ->
  all_mean es -> 4 * Z.of_nat (length es) < 2 ^ 29 -> look rest 0 <> q ->
  (forall l', at_ true rest (advances p (q :: quoted es ++ [q])) (meant es) k o [] l' -> Q (inr tt) l') ->
  wp (parse_string_literal false false) l Q.
Proof.
  intros Hat Hes Hsz Hrest HQ. unfold parse_string_literal. apply wp_get. rewrite (char_look _ _ _ _ _ _ _ _ Hat), look_cons.
  assert ((if q =? DOUBLE_QUOTE then DOUBLE_QUOTE else 39) = q) as -> by (by destruct Hq as [-> | ->]). cbv zeta.
  apply wp_xbind, wp_safe. eapply wp_next; [exact Hat|]. intros l1 Hat1. cbn [tail] in Hat1. rewrite look_cons in Hat1. apply wp_get.
  assert (is_char_and l1 q q = false) as ->.
  { unfold is_char_and. rewrite (cur_char _ _ _ _ _ _ _ _ Hat1), (chr_1_look Hat1).
    destruct (Z.eqb_spec (look (quoted es ++ q :: rest) 0) q) as [He|]; [|done].
    rewrite (quoted_head _ _ Hes He). cbn [andb quoted map concat app]. destruct rest as [|c rest]; [|by apply Z.eqb_neq].
    by destruct Hq as [-> | ->]. }
  apply wp_xbind, wp_xret, wp_get. cbn [andb]. apply wp_xbind, wp_xret, wp_get, wp_xbind.
  pose proof (at_fuel _ _ _ _ _ _ _ _ Hat1) as Hf. pose proof (quoted_length _ Hes) as [Hlen _]. rewrite length_app in Hf. cbn [length] in Hf.
  eapply wp_literal_chars; [exact Hat1|done|done|lia|]. intros l2 Hat2. apply wp_xbind, wp_xret.
  eapply wp_cut_text; [exact _|exact Hat2|done|]. intros l3 Hat3. apply HQ. rewrite length_app in Hat3. cbn [length] in Hat3.
  change (Z.to_nat 1) with 1%nat in Hat3. replace (length (meant es) + 1 - 1)%nat with (length (meant es)) in Hat3 by lia.
  by rewrite take_app_length in Hat3.
Qed.

End Literal.

(** ** What is printed is a literal *)

Definition prefix_of (v : literal) : list Z := match v with Str _ => [] | Bytes _ => ["b"%chr] end.

Lemma quote_char_cases s : quote_char_of s = 39 \/ quote_char_of s = 34.
Proof. unfold quote_char_of. destruct (find_quotes s false) as [single double]. destruct (single && negb double); auto. Qed.

Lemma text_cons c cs : text (c :: cs) = encoding c ++ text cs.
Proof. done. Qed.

Lemma wp_print_chars q cs : is_byte q -> Forall code_point cs -> forall fuel out (Q : unit -> list Z -> Prop), (length (text cs) <= fuel)%nat ->
  Q tt (out ++ concat (map (quote_unichar q) cs)) -> wp (print_chars fuel q (text cs ++ [0])) out Q.
Proof.
  intros Hq. induction 1 as [|c cs Hc Hcs IH]; intros fuel out Q Hf HQ; [cbn in HQ; rewrite app_nil_r in HQ; by destruct fuel|].
  rewrite text_cons, <-app_assoc in *. rewrite length_app in Hf.
  destruct (encoding_shape c Hc) as (b & t & He & _).
  assert (at_char (text cs ++ [0])) as Hat by (apply at_char_text; [done|by exists 0, []]).
  pose proof (decode_get c _ Hc Hat) as Hg. pose proof (decode_next c _ Hc Hat) as Hn.
  rewrite He in Hg, Hn, Hf |- *. cbn [length] in Hf. destruct fuel as [|fuel]; [lia|].
  cbn [app] in *. cbn [print_chars]. destruct (t ++ text cs ++ [0]) as [|d ds] eqn:Ht.
  { apply (f_equal length) in Ht. rewrite !length_app in Ht. cbn in Ht. lia. }
  rewrite Hg, Hn. apply wp_bind, wp_print_quoted_unichar; [done|done|]. intros _. apply IH; [lia|].
  cbn [map concat] in HQ. by rewrite <-app_assoc.
Qed.

Lemma wp_print_quote q out (Q : Z -> list Z -> Prop) : is_byte q -> (forall n, Q n (out ++ [q])) -> wp (mp_printf (str "%c") [ArgInt q]) out Q.
Proof. intros Hq HQ. by apply (wp_print_char []); [constructor| | |]. Qed.

(** What [print_literal] prints is a literal: quotes around characters that mean
    the contents. *)
Lemma wp_print_literal `{Fresh} v : literal_ok v -> exists q es, (q = 39 \/ q = 34) /\ all_mean (literal_kind v) q es /\ meant es = content v /\
  forall out, wp (print_literal v) out (fun _ o => o = out ++ prefix_of v ++ q :: quoted es ++ [q]).
Proof.
  destruct v as [cs|bs]; cbn [literal_ok literal_kind content prefix_of print_literal app]; intros Hok.
  - set (q := quote_char_of (text cs)). assert (q = 39 \/ q = 34) as Hq by apply quote_char_cases. assert (is_byte q) as Hqb by (unfold is_byte; lia).
    exists q, (map (fun c => (quote_unichar q c, encoding c)) cs). unfold all_mean, meant, quoted. rewrite Forall_map, !map_map. cbn [fst snd].
    split; [done|]. split; [eapply Forall_impl; [exact Hok|intros c Hc; by apply quote_unichar_means]|]. split; [done|]. intros out.
    unfold uni_print, uni_print_quoted. fold q. apply wp_bind, wp_print_quote; [done|]. intros _. apply wp_bind, wp_print_chars; [done|done|done|].
    apply wp_bind, wp_print_quote; [done|]. intros _. apply wp_ret. by rewrite <-!app_assoc.
  - unfold str_print, mp_str_print_quoted. set (q := quote_char_of bs). assert (q = 39 \/ q = 34) as Hq by apply quote_char_cases. assert (is_byte q) as Hqb by (unfold is_byte; lia).
    exists q, (map (fun b => (quote_byte true q b, [b])) bs). unfold all_mean, meant, quoted. rewrite Forall_map, !map_map. cbn [fst snd].
    split; [done|]. split; [eapply Forall_impl; [exact Hok|intros c Hc; by apply quote_byte_means]|]. split; [clear; induction bs as [|b bs IH]; cbn; [done|by rewrite IH]|].
    intros out. apply wp_bind, wp_modify, wp_bind, wp_print_quote; [done|]. intros _. apply wp_bind, wp_print_bytes; [done|done|].
    apply wp_bind, wp_print_quote; [done|]. intros _. apply wp_ret. by rewrite <-!app_assoc.
Qed.

Lemma skip_space_length : forall cs stop comment p, (length (skip_space stop comment p cs).2 <= length cs)%nat.
Proof.
  fix IH 1. intros [|c cs] stop comment p; cbn [skip_space]; [done|].
  assert (forall comment' p', (length (skip_space stop comment' p' cs).2 <= length (c :: cs))%nat) as Hcs.
  { intros comment' p'. pose proof (IH cs stop comment' p'). cbn [length]. lia. }
  destruct (c =? 10); [destruct stop; [done|apply Hcs]|]. destruct comment; [apply Hcs|]. destruct (unichar_isspace c); [apply Hcs|].
  destruct (c =? 35); [apply Hcs|]. destruct cs as [|d cs]; [done|]. destruct (_ && _); [|done].
  pose proof (IH cs stop false (advance (advance p c) d)). cbn [length]. lia.
Qed.

Lemma literal_start v q cs stop p : q = 39 \/ q = 34 ->
  skip_space stop false p (prefix_of v ++ q :: cs) = (false, p, prefix_of v ++ q :: cs) /\ string_start (prefix_of v ++ q :: cs) = true.
Proof. intros Hq. destruct v; [destruct cs|]; destruct Hq; subst; done. Qed.

Section Roundtrip.
Context `{Fresh} (optimise : Z).

(** A literal alone: nothing that would be joined to it follows. *)
Lemma wp_parse_strings v q es rest p k0 o l (Q : lexer_exn + unit -> mp_lexer_t -> Prop) : q = 39 \/ q = 34 ->
  at_ true (prefix_of v ++ q :: quoted es ++ q :: rest) p [] k0 o [] l ->
  all_mean (literal_kind v) q es -> 4 * Z.of_nat (length es) < 2 ^ 29 ->
  (forall newline p' rest', skip_space (o_bracket o =? 0) false (advances p (prefix_of v ++ q :: quoted es ++ [q])) rest = (newline, p', rest') ->
     string_start rest' = false /\ forall l', at_ true rest' p' (meant es) (literal_kind v) o [] l' -> Q (inr tt) l') ->
  wp parse_strings l Q.
Proof.
  intros Hq Hat Hes Hsz HQ.
  assert (look rest 0 <> q) as Hrest.
  { intros Hl. destruct rest as [|c rest]; [by destruct Hq; subst|]. rewrite look_cons in Hl. subst c.
    destruct (literal_start (Str []) q rest (o_bracket o =? 0) (advances p (prefix_of v ++ q :: quoted es ++ [q])) Hq) as [Hls Hstr].
    destruct (HQ _ _ _ Hls) as [Hss _]. by rewrite Hss in Hstr. }
  unfold parse_strings. apply wp_xbind, wp_safe. eapply wp_set_kind; [exact Hat|]. intros l1 Hat1. apply wp_get.
  unfold fuel_of. rewrite Nat.add_succ_r. unfold xloop. cbn [loop]. apply wp_bind, wp_bind, wp_get.
  set (pre := MkPrefix false false (literal_kind v) (length (prefix_of v))).
  assert (string_prefix_of l1 = pre) as ->.
  { unfold string_prefix_of. rewrite !(char_look _ _ _ _ _ _ _ _ Hat1). unfold is_char_following. rewrite (chr_1_look Hat1).
    destruct v; destruct Hq; subst; done. }
  apply wp_bind. rewrite (at_kind _ _ _ _ _ _ _ _ Hat1). change (token_eqb END END) with true. cbv iota. cbn [kind is_raw is_fstring n_char pre].
  eapply wp_set_kind; [exact Hat1|]. intros l2 Hat2. apply wp_get. rewrite (at_kind _ _ _ _ _ _ _ _ Hat2).
  assert (token_eqb (literal_kind v) (literal_kind v) = true) as -> by (by destruct v). cbn [negb].
  apply wp_xbind, wp_safe. apply (wp_mono _ _ (fun _ l' => at_ true (q :: quoted es ++ q :: rest) (advances p (prefix_of v)) [] (literal_kind v) o [] l')).
  { destruct v; [by apply wp_ret|]. eapply wp_next; [exact Hat2|]. by intros l3 Hat3. }
  intros [] l3 Hat3. apply wp_xbind. eapply wp_literal_quoted; [done|exact Hat3|done|done|done|]. intros l4 Hat4. rewrite <-advances_app in Hat4.
  apply wp_xbind, wp_safe. eapply wp_skip_whitespace; [exact Hat4|]. intros newline p' rest' l5 Hat5 _ _ _ Hsk.
  destruct (HQ newline p' rest' (Hsk eq_refl)) as [Hss HQ']. apply wp_get. rewrite (string_start_look Hat5), Hss. apply wp_xret, wp_ret. by apply HQ'.
Qed.

Lemma wp_literal v q es p stack b rest newline p' rest' l : q = 39 \/ q = 34 -> all_mean (literal_kind v) q es ->
  shows (MkState ((prefix_of v ++ q :: quoted es ++ [q]) ++ rest) p stack 0 b) l ->
  skip_space (b =? 0) false (advances p (prefix_of v ++ q :: quoted es ++ [q])) rest = (newline, p', rest') -> string_start rest' = false ->
  wp (mp_lexer_to_next optimise) l (fun e l' => e = inr tt /\ found (MkToken (literal_kind v) (meant es) p) (MkState rest' p' stack 0 b) l').
Proof.
  intros Hq Hes [(s & k & o & Hat & Hlv & Hst & Hem & Hbr & Hsz) Hd Hb] Hsk Hss. cbn in *.
  assert ((prefix_of v ++ q :: quoted es ++ [q]) ++ rest = prefix_of v ++ q :: quoted es ++ q :: rest) as Hcs by (rewrite <-!app_assoc; cbn; by rewrite <-app_assoc).
  rewrite Hcs in *. unfold mp_lexer_to_next. apply wp_xbind. eapply wp_nothing_to_inject; [exact Hat|].
  eapply wp_token_start; [exact Hat|]. intros nl p1 cs l1 Hat1 _ _ Hsk1. specialize (Hsk1 eq_refl).
  destruct (literal_start v q (quoted es ++ q :: rest) (o_bracket o =? 0) p Hq) as [Hls Hstr]. rewrite Hls in Hsk1. injection Hsk1 as <- <- <-.
  apply wp_get. assert (emit_dent l1 = 0) as -> by (rewrite <-Hem; exact (f_equal o_emit (at_others _ _ _ _ _ _ _ _ Hat1))).
  change (0 <? 0) with false. cbv iota. rewrite (at_end _ _ _ _ _ _ _ _ Hat1), (string_start_look Hat1), Hstr.
  assert (match prefix_of v ++ q :: quoted es ++ q :: rest with [] => true | _ => false end = false) as -> by (by destruct v).
  pose proof (quoted_length _ _ _ Hes) as [Hlen _]. rewrite !length_app in Hsz, Hb. cbn [length] in Hsz, Hb. rewrite length_app in Hsz, Hb. cbn [length] in Hsz, Hb.
  pose proof (lv_num _ Hlv). eapply wp_parse_strings; [done|exact Hat1|done|lia|]. intros nl p2 rest2 Hsk2. cbn [o_bracket with_tok] in Hsk2.
  rewrite Hbr, Hsk in Hsk2. injection Hsk2 as <- <- <-. split; [done|]. intros l2 Hat2. split; [done|].
  assert (length rest' <= length rest)%nat as Hle by (pose proof (skip_space_length rest (b =? 0) false (advances p (prefix_of v ++ q :: quoted es ++ [q]))) as Hle; by rewrite Hsk in Hle).
  rewrite <-Hst, <-Hbr, <-Hem. apply (found_at _ _ _ _ _ _ Hat2); [by destruct Hlv; split|cbn; lia|cbn; lia|cbn; lia].
Qed.

(** The lexer reads what is printed for a string or a bytes object: whatever it
    contains, [print_literal] (the printer of [repr]) ends and prints a literal,
    and when the lexer meets this literal, and no other literal follows that
    would be joined to it, its next token is a string, or bytes, with exactly the
    contents that were printed, whatever quotes, control characters and code
    points they have.  The lexer is left behind the literal and the white space
    after it. *)
Theorem literal_roundtrip v : literal_ok v -> exists r, (forall out, print_literal v out = Some (tt, out ++ r)) /\
  forall p stack b rest newline p' rest' l,
    shows (MkState (r ++ rest) p stack 0 b) l ->
    skip_space (b =? 0) false (advances p r) rest = (newline, p', rest') -> string_start rest' = false ->
    exists l', mp_lexer_to_next optimise l = Some (inr tt, l') /\
      found (MkToken (literal_kind v) (content v) p) (MkState rest' p' stack 0 b) l'.
Proof.
  intros Hok. destruct (wp_print_literal v Hok) as (q & es & Hq & Hes & <- & Hr). exists (prefix_of v ++ q :: quoted es ++ [q]). split.
  { intros out. by destruct (run_value _ _ _ (Hr out)) as ([] & o & Hrun & ->). }
  intros p stack b rest newline p' rest' l Hsh Hsk Hss.
  destruct (run_value _ _ _ (wp_literal v q es p stack b rest newline p' rest' l Hq Hes Hsh Hsk Hss)) as (e & l' & Hrun & -> & Hf). by exists l'.
Qed.

End Roundtrip.

(** ** Witness *)

#[local] Instance zeros : Fresh := fun _ => 0.

(** A quote, a newline, a control character, and code points of two, three and four bytes *)
Definition sample_str : literal := Str [39; 10; 1; 0x41; 0xE9; 0x20AC; 0x1F600].
Definition sample_repr : list Z := Eval cbv in [34] ++ str "'\n\x01A\xe9\u20ac\U0001f600" ++ [34].
Definition sample_source : list Z := Eval cbv in sample_repr ++ str " + 1".

Lemma sample_source_shows : shows (MkState (sample_repr ++ str " + 1" ++ [10]) (1, 1) [0] 0 0) (sample_lexer sample_source).
Proof.
  replace (MkState (sample_repr ++ str " + 1" ++ [10]) (1, 1) [0] 0 0) with (source_state sample_source) by (vm_compute; reflexivity).
  apply sample_shows; [|done]. unfold sample_source. repeat (constructor; [done|]). constructor.
Qed.

Lemma literal_roundtrip_witness : exists r, (forall out, print_literal sample_str out = Some (tt, out ++ r)) /\
  exists l', mp_lexer_to_next 0 (sample_lexer sample_source) = Some (inr tt, l') /\
    found (MkToken STRING (text [39; 10; 1; 0x41; 0xE9; 0x20AC; 0x1F600]) (1, 1)) (MkState (str "+ 1" ++ [10]) (1, 32) [0] 0 0) l'.
Proof.
  destruct (literal_roundtrip 0 sample_str) as (r & Hr & Hlex).
  - repeat (constructor; [done|]). constructor.
  - exists r. split; [exact Hr|].
    assert (r = sample_repr) as -> by (specialize (Hr []); vm_compute in Hr; by injection Hr as <-).
    assert (skip_space true false (advances (1, 1) sample_repr) (str " + 1" ++ [10]) = (false, (1, 32), str "+ 1" ++ [10])) as Hsk by (vm_compute; reflexivity).
    exact (Hlex _ _ _ _ _ _ _ _ sample_source_shows Hsk eq_refl).
Defined.

(** ** What the lexer does with unusual literals *)

(** The first token of a source, its kind and text *)
Definition first_of (src : list Z) : option (mp_token_kind_t * list Z) :=
  match mp_lexer_new 0 (MkReader src 0) sample_junk with
  | Some (inr _, l) => Some (tok_kind l, token_text l)
  | _ => None
  end.

(** A double brace before the closing quote of an f-string: the character after
    the braces is taken without a look, so the quote is lost. *)
Lemma braces_swallow_quote : first_of (str "f'{{'") = Some (LONELY_STRING_OPEN, str "{{'") /\ first_of (str "f'{{x'") = Some (STRING, str "{{x").
Proof. split; vm_compute; reflexivity. Qed.

(** A backslash before a character that is not ASCII (here the bytes C3 A9): its
    first byte is encoded once more, raw or not. *)
Lemma backslash_breaks_encoding :
  first_of [39; 92; 0xC3; 0xA9; 39] = Some (STRING, [92; 0xC3; 0x83; 0xA9]) /\ check_from 0 [92; 0xC3; 0x83; 0xA9] = false /\
  first_of ("r"%chr :: [39; 92; 0xC3; 0xA9; 39]) = Some (STRING, [92; 0xC3; 0x83; 0xA9]).
Proof. repeat split; vm_compute; reflexivity. Qed.

(** A literal in the expression of an f-string that is an f-string with a closing
    bracket of its own: the token after the fourth takes more characters than
    there are, since they are read from the buffer to which they are appended. *)
Lemma nested_fstring_runs_away :
  match mp_lexer_new 0 (MkReader ("f"%chr :: [34] ++ str "{f'{]'}" ++ [34]) 0) sample_junk with
  | Some (inr _, l) => (exists ts l', read_tokens 0 4 l = Some (inr ts, l')) /\ read_tokens 0 5 l = None
  | _ => False
  end.
Proof.
  vm_compute. split; [|reflexivity]. do 2 eexists. reflexivity.
Qed.
